(* ===== verification/_CoqProject ===== *)
-Q . S2P
Prelude.v
Chattr.v
Match.v
Addr.v
NumNicks.v
DBuf.v
MsgQ.v
IPcheck.v
Targets.v
MatchComp.v
Packet.v
MsgTab.v
Commands.v
Parse.v
Channel.v
Strings.v
CRule.v
MMatch.v
AddrText.v
Ban.v
Events.v
Hash.v
Jupes.v
Chains.v
Whowas.v
Cidr.v
CidrTree.v
Gline.v
GlineSpec.v
ChanModes.v
ModeBuf.v
ModeBufSpec.v
ModeParse.v
ModeParseSpec.v
ModeCmd.v
ModeRights.v
Base64.v
Utf8.v
WebSocket.v
Reslib.v
Resolver.v
Burst.v
