(* ===== verification/Prelude.v ===== *)
(** * ircu2: a verification development

    ** The program

    ircu2 is the Undernet IRC server.  A connection delivers bytes; [ircd/packet.c]
    (servers and unregistered connections) or the receive queue of [ircd/dbuf.c] (users)
    makes lines of them; [ircd/parse.c] finds the command of a line in its tries, splits
    the parameters and calls the handler.  Handlers change the channels, their members and
    bans ([ircd/channel.c]), name servers and clients by the base-64 numerics of
    [ircd/numnicks.c], and compare masks and addresses with [ircd/match.c] and
    [ircd/ircd_string.c].  What they send is put in the queues of [ircd/msgq.c].  How many
    connections and targets a client may use is decided by [ircd/IPcheck.c] and
    [ircd/s_user.c], which servers may be connected by the rules of [ircd/crule.c], and
    everything that happens later is a timer of [ircd/ircd_events.c].

    ** The files

    - [Prelude] (this file): the outcomes of C code, machine integers, characters and C
      strings, the tactics and hints of the development.
    - [Chattr]: the character tables, computed as [table_gen.c] computes them, and the
      macros of [include/ircd_chattr.h].
    - [Match], [MMatch], [MatchComp]: the masks of [ircd/match.c], as they are written
      ([match], [collapse]), compared with each other ([mmatch]) and compiled ([matchcomp],
      [matchexec]).  All three are proved against one denotation, [Match.glob].
    - [Addr], [AddrText]: addresses ([include/res.h], [ipmask_check]) and their text
      ([ircd_ntoa_r], [ircd_ntocidrmask], [ipmask_parse] of [ircd/ircd_string.c]).
    - [NumNicks]: the encodings ([Codec]) and the tables ([Table]) of [ircd/numnicks.c].
    - [DBuf], [MsgQ]: receive and send queues, with the pools their memory comes from.
    - [IPcheck], [Targets]: the registry of addresses and the limit on message targets; a
      client's targets survive a reconnection in the registry.
    - [Packet]: the assembly of lines; the parser is an argument.
    - [Utf8], [WebSocket]: WebSocket clients.  Frames in both directions
      ([ircd/websocket.c]) and their reassembly in [read_packet] ([ircd/s_bsd.c]), against
      the interface [WebSocket.RecvQueue] of a receive queue, which [DBuf] implements.
    - [MsgTab], [Commands], [Parse]: the command table, the two tries with the operations
      modules use, and the two parsers up to the call of the handler.
    - [Hash], [Jupes], [Chains], [Whowas]: the hash tables of clients and channels and the
      juped nicknames ([ircd/hash.c]), the past nicks of [ircd/whowas.c] on the doubly linked
      lists of [Chains].
    - [Channel]: the sparse matrix of members on its linked lists, zombies, invites, the end
      of a channel ([ircd/channel.c], [ircd/destruct_event.c]).
    - [Ban]: the bans of a channel and both halves of [MODE +b]/[-b]; it stands on [Match],
      [MMatch], [Addr] and [AddrText].
    - [ChanModes], [ModeBuf], [ModeBufSpec]: the register of channel modes
      ([ircd/chan_modes.c]) and the buffers in which changes of modes are collected and sent
      ([modebuf_flush] and the others, [ircd/channel.c]).
    - [ModeParse], [ModeParseSpec], [ModeCmd], [ModeRights]: [mode_parse] with all its parts,
      [channel_modes], and the command MODE of users and servers ([ircd/m_mode.c]).
    - [Cidr], [CidrTree], [Gline], [GlineSpec]: the address trees of [ircd/cidr_lookups.c]
      and the G-lines of [ircd/gline.c], which are kept in them.
    - [Strings], [CRule]: case-folding comparison and connection rules.
    - [Events]: timers, the events they generate and the loop that runs them.
    - [Burst]: the members and bans of a channel in a net burst, [send_channel_modes]
      ([ircd/channel.c]) and its reader in [ms_burst] ([ircd/m_burst.c]).
    - [Base64]: [ircd/ircd_base64.c].
    - [Reslib], [Resolver]: names in DNS messages ([ircd/ircd_reslib.c]) and the reading of
      answers ([proc_answer] of [ircd/ircd_res.c]).

    ** How the code is modelled

    A C function is a function that returns an [outcome]: [Ok] with its result and the new
    state, or [Oob] where the program would touch memory outside the object a pointer
    points into, follow a NULL or dangling pointer, or use an unset value.  Structures that
    are linked by pointers are cells of a finite map with their links as fields
    ([Channel.Membership], [Ban.Ban], [Events.Timer], the buffers of [MsgQ]), so aliasing
    and dangling pointers are there to be excluded; where the code only walks a list from
    its head, the list is a list.  A pointer into a string is the suffix it points at, and
    a buffer whose bytes behind the end matter ([Packet], [Parse], [MatchComp]) is a list
    with indices.  Unsigned arithmetic that can wrap is written with [u8], [u16], [u32].
    Code outside the model is an argument: the formatted text in [MsgQ], the parsers in
    [Packet], the callbacks in [Events]; what is required of it is a hypothesis with an
    instance in a witness.  Assertions and debug output are left out.

    Loops that are not structural take fuel.  The fuel is computed by the definitions
    themselves from a bound on the loop (the length of the text, the number of cells of the
    heap) or is an argument that the theorem bounds, and the theorems say [= Ok ...]: that
    the fuel is enough is part of them.  [Events.event_generate] takes the depth to which
    events nest: two levels are enough, since destruction callbacks delete no timers.
    The walks in address trees take 130 or 131 turns, since a prefix has at most 128 bits;
    [modebuf_flush] takes one turn for each change a buffer can hold and two more, the
    parser of modes one for each word of the command, the names of a DNS message one
    for each byte of the buffer and of the message, and a burst one for each member and ban
    and two more.

    ** What is proved

    - Masks: [match] and [matchexec] decide the language of a mask, [collapse] keeps it,
      [mmatch] is a sound test for inclusion and returns inside both masks unless the old
      one is empty.
    - Addresses: [ipmask_check] compares prefixes; printing and parsing are inverse up to
      the documented losses, and the parser is total and typed.
    - Numerics: encoding and decoding are inverse; allocation finds a free slot exactly when
      there is one and disturbs no other client.
    - Queues: every operation of [dbuf.c] and [msgq.c] is the operation on the byte stream;
      in every state reached while the pool has room reference counts are exact and no freed
      buffer is touched.
    - Limits: without exemptions the registry counts the connected clients of an address or
      /64 exactly, clones over the limit are refused, and targets are bounded per time.
    - Lines: however bytes are cut into packets, the parser gets the lines of the stream if
      none fills the buffer; the same for the well-formed frames of WebSocket clients.  Text frames are always UTF-8 and keep
      what is UTF-8.
    - Commands: a lookup finds exactly what is registered; [parse_client] stays inside its
      line and splits what was joined; a server speaks only for what lies behind it.
    - Tables: names are found by their current spelling after any renaming and removal by
      callers that enter a node only once, a
      juped nickname is found exactly when it was added, the history of nicknames keeps its
      three lists consistent.
    - Channels: the lists and counters implement a relation of users and channels; kicked
      users become zombies and leave as the protocol says; bans are matched and
      edited, whatever words are given, with no ban of a dead stack frame left behind, and
      merged without letting anyone in when text and address bans are not mixed.
    - Modes: the register holds what was registered; every change put in a buffer is sent
      once and nothing leaves the text buffers; MODE returns for every user and argument and
      keeps the channel well-formed, and changes nothing for one who has no rights; the modes
      are shown with key and passwords only to those who may see them.
    - Bursts: the messages in which a server describes a channel are read by its neighbour as
      the members with their status and level and the bans they were made of.
    - Network bans: the address trees are a finite map with longest-prefix look-up; for
      masks and addresses they can keep a G-line
      look-up through them finds what a scan of all G-lines would, and newer versions win.
    - Rules: the parser ends on every text, accepts only well-typed trees, and evaluation
      agrees with the grammar.
    - Timers: when callbacks arm timers for later times only, a run fires each due timer
      once, returns, and leaves the queue sorted.
    - Names and answers: names of a DNS message are expanded exactly and skipped alike, and
      answers change only what was asked for.
    - Base64: encoding and decoding are inverse, and the validity test is exact.

    Some theorems are about defects: a line that overflows the input buffer by a byte, a
    counter that wraps when an exempt client fails to register, targets given back on
    reconnection, a G-line on an IPv4-compatible address that follows a NULL pointer, the
    removal of a limit that is not sent to servers, operators of a burst that are misread,
    answers of name servers read behind their end, a text ban that drops an address ban, a
    node entered twice into a hash table, rules that make their parser free an unset pointer,
    a timer that is armed for the present and never lets the run end.  They are stated on the code as it is, as
    are the conditions the correctness theorems need because of others (masks whose escapes
    follow a star).

    ** Not modelled, and the plan

    Next in the plan are the cache of ban matches and who may speak
    ([member_can_send_to_channel]), classes ([ircd/class.c]), the checks in front of
    [gline_add] and the other network bans ([ircd/sline.c], [ircd/jupe.c]), user modes, the
    merging of the bans and modes of a burst, message tags and batches, and the building of DNS queries.
    Left out because they wrap system calls, libraries or other processes: the engines,
    sockets, TLS, modules, accounts and SASL, storage.  Left out because they format text:
    replies, logging, [ircd_snprintf].  The configuration parser is generated code, mongoose
    is vendored, and the tools and tests are not part of the server. *)

From stdpp Require Import base list gmap strings.
From Stdlib Require Import ZArith Lia Ascii.

(** ** Outcomes of C code

    [Ok a] is a normal return; [Oob] is a read or a write outside the object the
    pointer points into (undefined behaviour of the C program); [Fuel] is the model
    running out of fuel, which every total-correctness theorem excludes. *)
Inductive outcome (A : Type) : Type :=
| Ok (a : A)
| Oob
| Fuel.
Arguments Ok {A} a.
Arguments Oob {A}.
Arguments Fuel {A}.

Definition obind {A B : Type} (m : outcome A) (k : A -> outcome B) : outcome B :=
  match m with
  | Ok a => k a
  | Oob => Oob
  | Fuel => Fuel
  end.

Declare Scope ircu_scope.
Delimit Scope ircu_scope with ircu.
Notation "'let*' x ':=' m 'in' k" := (obind m (fun x => k))
  (at level 10, x pattern, m at level 100, k at level 200) : ircu_scope.

#[global] Instance outcome_eq_dec {A : Type} `{EqDecision A} : EqDecision (outcome A).
Proof. solve_decision. Defined.

(** ** Lists *)
Lemma filter_perm {A : Type} (f : A -> bool) (a b : list A) : a ≡ₚ b -> List.filter f a ≡ₚ List.filter f b.
Proof. induction 1 as [|x a b _ IH|x y a|]; cbn [List.filter]; [done|destruct (f x); by rewrite IH|destruct (f x), (f y); done || by constructor|by etrans]. Qed.

(** ** Machine integers: values are [Z], each operation that can wrap says so. *)
Definition u32 (z : Z) : Z := (z mod 2 ^ 32)%Z.
Definition u16 (z : Z) : Z := (z mod 2 ^ 16)%Z.
Definition u8 (z : Z) : Z := (z mod 2 ^ 8)%Z.
Definition i32 (z : Z) : Z := ((z + 2 ^ 31) mod 2 ^ 32 - 2 ^ 31)%Z.

(** ** Characters and C strings

    A [char] is an [ascii] (eight bits).  A NUL-terminated string is the list of the
    characters before its terminator, and a pointer into it is the suffix it points
    at: [*p] is [deref p] (the terminator when the suffix is empty), [p + 1] is
    [tail p] (and leaves the string when the suffix is empty). *)
Definition NUL : ascii := Ascii.zero.
Definition cstr (s : string) : list ascii := String.list_ascii_of_string s.

Definition deref (p : list ascii) : ascii :=
  match p with
  | [] => NUL
  | c :: _ => c
  end.

Definition deref1 (p : list ascii) : ascii := deref (tail p).

Definition uchar (c : ascii) : Z := Z.of_nat (nat_of_ascii c).
Definition char_of (z : Z) : ascii := ascii_of_nat (Z.to_nat (z mod 256)).

(** [buf[i]] as an unsigned char, for a buffer that is a list. *)
Definition rd (buf : list ascii) (i : nat) : outcome Z :=
  match buf !! i with Some c => Ok (uchar c) | None => Oob end.

(** No NUL inside: what makes a list a C string. *)
Definition no_nul (s : list ascii) : Prop := NUL ∉ s.

(** Every character, for checks by enumeration. *)
Definition all_chars : list ascii := map ascii_of_nat (seq 0 256).

Definition bool_decide_char (c d : ascii) : bool := Ascii.eqb c d.
Infix "=c" := Ascii.eqb (at level 70) : ircu_scope.

(** ** Tactics of the development *)
Ltac case_if :=
  match goal with
  | |- context [if ?b then _ else _] => destruct b eqn:?
  end.

Ltac case_if_in H :=
  match type of H with
  | context [if ?b then _ else _] => destruct b eqn:?
  end.

Ltac reflect :=
  repeat match goal with
  | H : (_ =? _)%Z = true |- _ => apply Z.eqb_eq in H
  | H : (_ =? _)%Z = false |- _ => apply Z.eqb_neq in H
  | H : (_ <? _)%Z = true |- _ => apply Z.ltb_lt in H
  | H : (_ <? _)%Z = false |- _ => apply Z.ltb_ge in H
  | H : (_ <=? _)%Z = true |- _ => apply Z.leb_le in H
  | H : (_ <=? _)%Z = false |- _ => apply Z.leb_gt in H
  | H : (_ =? _)%nat = true |- _ => apply Nat.eqb_eq in H
  | H : (_ =? _)%nat = false |- _ => apply Nat.eqb_neq in H
  | H : (_ <? _)%nat = true |- _ => apply Nat.ltb_lt in H
  | H : (_ <? _)%nat = false |- _ => apply Nat.ltb_ge in H
  | H : (_ <=? _)%nat = true |- _ => apply Nat.leb_le in H
  | H : (_ <=? _)%nat = false |- _ => apply Nat.leb_gt in H
  | H : Ascii.eqb _ _ = true |- _ => apply Ascii.eqb_eq in H
  | H : Ascii.eqb _ _ = false |- _ => apply Ascii.eqb_neq in H
  | H : (_ && _) = true |- _ => apply andb_true_iff in H; destruct H
  | H : (_ || _) = false |- _ => apply orb_false_iff in H; destruct H
  | H : negb _ = true |- _ => apply negb_true_iff in H
  | H : negb _ = false |- _ => apply negb_false_iff in H
  end.

(** ** Shared lemmas *)
Create HintDb ircu.
Create Rewrite HintDb ircu.

Lemma in_all_chars (c : ascii) : In c all_chars.
Proof.
  unfold all_chars. apply in_map_iff. exists (nat_of_ascii c). split.
  - apply ascii_nat_embedding.
  - apply in_seq. pose proof (nat_ascii_bounded c). lia.
Qed.

(** A boolean fact checked on the 256 characters holds of every character. *)
Lemma forall_chars (P : ascii -> bool) (c : ascii) :
  forallb P all_chars = true -> P c = true.
Proof. intros H. rewrite forallb_forall in H. apply H, in_all_chars. Qed.

Lemma uchar_bounds (c : ascii) : (0 <= uchar c < 256)%Z.
Proof. unfold uchar. pose proof (nat_ascii_bounded c). lia. Qed.

Lemma char_of_uchar (c : ascii) : char_of (uchar c) = c.
Proof.
  unfold char_of. pose proof (uchar_bounds c).
  rewrite Z.mod_small by lia. unfold uchar. rewrite Nat2Z.id.
  apply ascii_nat_embedding.
Qed.

Lemma uchar_char_of (z : Z) : (0 <= z < 256)%Z -> uchar (char_of z) = z.
Proof.
  intros H. unfold char_of, uchar. rewrite Z.mod_small by lia.
  rewrite nat_ascii_embedding; lia.
Qed.

Lemma u32_small (z : Z) : (0 <= z < 2 ^ 32)%Z -> u32 z = z.
Proof. apply Z.mod_small. Qed.

Lemma u32_bounds (z : Z) : (0 <= u32 z < 2 ^ 32)%Z.
Proof. apply Z.mod_pos_bound. reflexivity. Qed.

(** Joining disjoint bit fields. *)
Lemma lor_low (a b n : Z) : (0 <= n)%Z -> (0 <= b < 2 ^ n)%Z -> Z.lor (a * 2 ^ n) b = (a * 2 ^ n + b)%Z.
Proof.
  intros Hn Hb. rewrite <- Z.shiftl_mul_pow2 by done. symmetry. apply Z.add_nocarry_lor.
  apply Z.bits_inj'. intros k Hk. rewrite Z.land_spec, Z.bits_0. destruct (Z.ltb_spec k n).
  - by rewrite Z.shiftl_spec_low.
  - rewrite andb_false_iff. right. destruct (Z.eq_dec b 0) as [->|]; [apply Z.bits_0|].
    apply Z.bits_above_log2; [lia|]. apply Z.log2_lt_pow2; [lia|].
    apply Z.lt_le_trans with (2 ^ n)%Z; [lia|]. apply Z.pow_le_mono_r; lia.
Qed.

#[export] Hint Resolve uchar_bounds u32_bounds : ircu.
