(* ===== verification/Chattr.v ===== *)
(** * Character attributes: [ircd/table_gen.c], [include/ircd_chattr.h]

    The server classifies and folds characters through three 256-entry tables that
    [table_gen.c] computes at build time.  This file runs that computation: each
    [markString]/[markRange]/[moveMacro]/[setLowHi] call of [makeTables] is a
    definition, and the macros of [ircd_chattr.h] read the resulting tables.  The
    tables are indexed by the unsigned value of the character; the C code's
    [c - CHAR_MIN] is the same entry on either signedness of [char]. *)

From stdpp Require Import base list strings.
From Stdlib Require Import ZArith Lia Ascii.
From S2P Require Import Prelude.

Local Open Scope Z_scope.
Local Open Scope ircu_scope.

Definition NTL_ALNUM : Z := 0x0001.
Definition NTL_ALPHA : Z := 0x0002.
Definition NTL_CNTRL : Z := 0x0004.
Definition NTL_DIGIT : Z := 0x0008.
Definition NTL_GRAPH : Z := 0x0010.
Definition NTL_LOWER : Z := 0x0020.
Definition NTL_PRINT : Z := 0x0040.
Definition NTL_PUNCT : Z := 0x0080.
Definition NTL_SPACE : Z := 0x0100.
Definition NTL_UPPER : Z := 0x0200.
Definition NTL_IRCCH : Z := 0x0400.
Definition NTL_IRCCL : Z := 0x0800.
Definition NTL_IRCNK : Z := 0x1000.
Definition NTL_IRCUI : Z := 0x2000.
Definition NTL_IRCHN : Z := 0x4000.
Definition NTL_IRCIP : Z := 0x8000.
Definition NTL_EOL : Z := 0x10000.
Definition NTL_COMMAND : Z := 0x20000.
Definition NTL_CHPFX : Z := 0x40000.
Definition NTL_IRCIP6 : Z := 0x80000.

(** The three tables of the generator. *)
Record tables : Type := Tables {
  NTL_tolower_tab : list Z;
  NTL_toupper_tab : list Z;
  NTL_char_attrib : list Z
}.

Definition bytes256 : list Z := map Z.of_nat (seq 0 256).

Definition zeroTables : tables :=
  Tables bytes256 bytes256 (map (fun _ => 0) bytes256).

Definition set_attrib (t : tables) (a : list Z) : tables :=
  Tables (NTL_tolower_tab t) (NTL_toupper_tab t) a.

Definition markString (macro : Z) (s : list Z) (t : tables) : tables :=
  set_attrib t
    (fold_left (fun a c => alter (fun v => Z.lor v macro) (Z.to_nat c) a) s
       (NTL_char_attrib t)).

Definition unMarkString (macro : Z) (s : list Z) (t : tables) : tables :=
  set_attrib t
    (fold_left (fun a c => alter (fun v => Z.ldiff v macro) (Z.to_nat c) a) s
       (NTL_char_attrib t)).

Definition markRange (macro from to : Z) (t : tables) : tables :=
  set_attrib t
    (imap (fun i v => let i := Z.of_nat i in
             if (from <=? i) && (i <=? to) then Z.lor v macro else v)
       (NTL_char_attrib t)).

Definition moveMacro (from to : Z) (t : tables) : tables :=
  set_attrib t
    (map (fun v => if Z.land v from =? 0 then v else Z.lor v to) (NTL_char_attrib t)).

Definition setLowHi (firstlow lastlow firsthi : Z) (t : tables) : tables :=
  fold_left
    (fun t i =>
       if (firstlow <=? i) && (i <=? lastlow) then
         let j := u8 (i + (firsthi - firstlow)) in
         Tables (<[Z.to_nat j := i]> (NTL_tolower_tab t))
                (<[Z.to_nat i := j]> (NTL_toupper_tab t))
                (NTL_char_attrib t)
       else t)
    bytes256 t.

Definition codes (s : string) : list Z := map uchar (cstr s).

(** The composition of [makeTables], call by call. *)
Definition makeTables : tables :=
  let t := zeroTables in
  let t := markRange NTL_LOWER (uchar "a") (uchar "z") t in
  let t := markString NTL_LOWER (codes "{|}~") t in
  let t := markRange NTL_UPPER (uchar "A") (uchar "Z") t in
  let t := markString NTL_UPPER (codes "[\]^") t in
  let t := markRange NTL_DIGIT (uchar "0") (uchar "9") t in
  let t := markRange NTL_CNTRL 0x0 0x1f t in
  let t := markString NTL_PUNCT (0x22 :: codes "!#$%&'()*+,-./:;<=>?@_`") t in
  let t := markString NTL_SPACE [0x9; 0xa; 0xb; 0xc; 0xd; 0x20] t in
  let t := moveMacro (Z.lor NTL_LOWER NTL_UPPER) NTL_ALPHA t in
  let t := moveMacro (Z.lor NTL_ALPHA NTL_DIGIT) NTL_ALNUM t in
  let t := moveMacro (Z.lor NTL_ALNUM NTL_PUNCT) NTL_GRAPH t in
  let t := moveMacro NTL_GRAPH NTL_PRINT t in
  let t := markString NTL_PRINT (codes " ") t in
  let t := markRange NTL_IRCCH 0x21 255 t in
  let t := unMarkString NTL_IRCCH [0x2c; 0xa0] t in
  let t := markRange NTL_IRCCL 0xc0 0xd6 t in
  let t := markRange NTL_IRCCL 0xd8 0xde t in
  let t := moveMacro NTL_ALNUM NTL_IRCHN t in
  let t := markString NTL_IRCHN (codes "-_.:") t in
  let t := moveMacro NTL_DIGIT NTL_IRCIP t in
  let t := markString NTL_IRCIP (codes ".") t in
  let t := moveMacro NTL_DIGIT NTL_IRCIP6 t in
  let t := markString NTL_IRCIP6 (codes ":.ABCDEFabcdef") t in
  let t := moveMacro (Z.lor NTL_DIGIT NTL_ALPHA) NTL_IRCNK t in
  let t := markString NTL_IRCNK (codes "-_`") t in
  let t := moveMacro NTL_ALNUM NTL_IRCUI t in
  let t := markRange NTL_IRCUI 0xe0 0xf6 t in
  let t := markRange NTL_IRCUI 0xf8 0xfe t in
  let t := markRange NTL_IRCUI 0xc0 0xd6 t in
  let t := markRange NTL_IRCUI 0xd8 0xde t in
  let t := markString NTL_IRCUI (codes ".-_^'`~") t in
  let t := markString NTL_EOL [10; 13] t in
  let t := markString NTL_CHPFX (codes "#&") t in
  let t := moveMacro NTL_ALPHA NTL_COMMAND t in
  let t := markString NTL_COMMAND (codes "_") t in
  let t := unMarkString NTL_COMMAND (codes "[\]^{|}~") t in
  let t := setLowHi (uchar "a") (uchar "z") (uchar "A") t in
  let t := setLowHi 0xe0 0xf6 0xc0 t in
  let t := setLowHi 0xf8 0xfe 0xd8 t in
  let t := setLowHi (uchar "{") (uchar "~") (uchar "[") t in
  t.

(** The generated tables, evaluated once. *)
Definition ToLowerTab_8859_1 : list ascii :=
  Eval vm_compute in map char_of (NTL_tolower_tab makeTables).
Definition ToUpperTab_8859_1 : list ascii :=
  Eval vm_compute in map char_of (NTL_toupper_tab makeTables).
Definition IRCD_CharAttrTab : list Z := Eval vm_compute in NTL_char_attrib makeTables.

Definition ToLower (c : ascii) : ascii := nth (nat_of_ascii c) ToLowerTab_8859_1 NUL.
Definition ToUpper (c : ascii) : ascii := nth (nat_of_ascii c) ToUpperTab_8859_1 NUL.
Definition CharAttr (c : ascii) : Z := nth (nat_of_ascii c) IRCD_CharAttrTab 0.

Definition has_attr (m : Z) (c : ascii) : bool := negb (Z.land (CharAttr c) m =? 0).
Definition IsAlnum := has_attr NTL_ALNUM.
Definition IsAlpha := has_attr NTL_ALPHA.
Definition IsDigit := has_attr NTL_DIGIT.
Definition IsLower := has_attr NTL_LOWER.
Definition IsSpace := has_attr NTL_SPACE.
Definition IsUpper := has_attr NTL_UPPER.
Definition IsCntrl := has_attr NTL_CNTRL.
Definition IsChannelChar := has_attr NTL_IRCCH.
Definition IsChannelLower := has_attr NTL_IRCCL.
Definition IsChannelPrefix := has_attr NTL_CHPFX.
Definition IsNickChar := has_attr NTL_IRCNK.
Definition IsUserChar := has_attr NTL_IRCUI.
Definition IsHostChar := has_attr NTL_IRCHN.
Definition IsIPChar := has_attr NTL_IRCIP.
Definition IsIP6Char := has_attr NTL_IRCIP6.
Definition IsEol := has_attr NTL_EOL.
Definition IsCommand := has_attr NTL_COMMAND.

(** ** Facts used by the components *)
Ltac by_chars c :=
  match goal with
  | |- ?P = true =>
      let f := eval pattern c in P in
      match f with ?g _ => apply (forall_chars g c); vm_compute; reflexivity end
  end.

(** Folding is idempotent, and only NUL folds to NUL: case-insensitive comparison
    of strings sees terminators as terminators. *)
Lemma ToLower_idemp (c : ascii) : ToLower (ToLower c) = ToLower c.
Proof. apply Ascii.eqb_eq. by_chars c. Qed.

Lemma ToLower_NUL (c : ascii) : ToLower c = NUL -> c = NUL.
Proof.
  intros H. assert (implb (ToLower c =c NUL) (c =c NUL) = true) as E by by_chars c.
  rewrite H in E. apply Ascii.eqb_eq. exact E.
Qed.

Lemma ToLower_ToUpper (c : ascii) : ToLower (ToUpper c) = ToLower c.
Proof. apply Ascii.eqb_eq. by_chars c. Qed.

(** The generator's letter class is exactly what folding moves within ASCII. *)
Lemma IsUpper_folds (c : ascii) :
  IsUpper c = (uchar c <? 128) && negb (ToLower c =c c).
Proof. apply Bool.eqb_prop. by_chars c. Qed.

#[export] Hint Rewrite ToLower_idemp ToLower_ToUpper : ircu.
