(* ===== verification/Match.v ===== *)
(** * Wildcard masks: [ircd/match.c]

    [match] and [collapse] work on masks as they are written; this file translates them
    pointer step by pointer step and proves what they compute against a denotation of
    masks ([tokens], [glob]), which the files on comparing and compiling masks share. *)

From stdpp Require Import base list strings.
From Stdlib Require Import ZArith Lia Ascii.
From S2P Require Import Prelude Chattr.

Local Open Scope ircu_scope.

(** ** The code *)

(** The inner loop of [case '*': case '?':], which consumes a run of wildcards:
    [None] is its [goto backtrack], otherwise the pointers and [star_p]. *)
Fixpoint wild_run (m n : list ascii) (star_p : bool) : option (list ascii * list ascii * bool) :=
  match m with
  | [] => Some (m, n, star_p)
  | c :: m' =>
      if c =c "*" then wild_run m' n true
      else if c =c "?" then
        match n with
        | [] => None
        | _ :: n' => wild_run m' n' star_p
        end
      else Some (m, n, star_p)
  end.

(** [for (; *n && *n != c; n++) ;] and its case-insensitive form. *)
Fixpoint scan_exact (c : ascii) (n : list ascii) : list ascii :=
  match n with
  | [] => []
  | d :: n' => if d =c c then n else scan_exact c n'
  end.

Fixpoint scan_fold (c : ascii) (n : list ascii) : list ascii :=
  match n with
  | [] => []
  | d :: n' => if ToLower d =c ToLower c then n else scan_fold c n'
  end.

(** The [backtrack] label: [m_tmp] is [None] while it still equals [mask];
    otherwise the loop [k] starts again one character further in the name. *)
Definition backtrack (k : list ascii -> list ascii -> option (list ascii) -> list ascii -> outcome Z)
    (m_tmp : option (list ascii)) (n_tmp : list ascii) : outcome Z :=
  match m_tmp with
  | None => Ok 1%Z
  | Some m =>
      match n_tmp with
      | [] => Oob
      | _ :: n_tmp =>
          match n_tmp with
          | [] => Ok 1%Z
          | _ :: _ => k m n_tmp (Some m) n_tmp
          end
      end
  end.

(** The endless [for]/[switch] on the character at [m].  Reading past the
    terminator of either string is [Oob]. *)
Fixpoint match_loop (fuel : nat) (m n : list ascii) (m_tmp : option (list ascii))
    (n_tmp : list ascii) : outcome Z :=
  match fuel with
  | O => Fuel
  | S fuel =>
      match m with
      | [] => match n with [] => Ok 0%Z | _ :: _ => backtrack (match_loop fuel) m_tmp n_tmp end
      | c :: m' =>
          if c =c "\" then
            if deref m' =c deref n then
              match m', n with
              | _ :: m'', _ :: n'' => match_loop fuel m'' n'' m_tmp n_tmp
              | _, _ => Oob
              end
            else backtrack (match_loop fuel) m_tmp n_tmp
          else if (c =c "*") || (c =c "?") then
            match wild_run m n false with
            | None => backtrack (match_loop fuel) m_tmp n_tmp
            | Some (m, n, false) => match_loop fuel m n m_tmp n_tmp
            | Some (m, n, true) =>
                match m with
                | [] => Ok 0%Z
                | d :: m' =>
                    if d =c "\" then
                      match m' with
                      | [] => Ok 1%Z
                      | e :: m'' =>
                          match scan_exact e n with
                          | [] => Ok 1%Z
                          | _ :: n'' => match_loop fuel m'' n'' (Some m') n
                          end
                      end
                    else match_loop fuel m (scan_fold d n) (Some m) n
                end
            end
          else
            match n with
            | [] => Ok 1%Z
            | d :: n' =>
                if ToLower c =c ToLower d then match_loop fuel m' n' m_tmp n_tmp
                else backtrack (match_loop fuel) m_tmp n_tmp
            end
      end
  end.

(** Steps between two backtracks never exceed the mask, and each backtrack moves
    [n_tmp] forward: enough iterations for every mask and name. *)
Definition match_fuel (mask name : list ascii) : nat :=
  S (length name) * S (S (length mask)).

Definition match_ (mask name : list ascii) : outcome Z :=
  match_loop (match_fuel mask name) mask name None name.

(** [collapse] rewrites the mask in place; the write pointer never passes the read
    pointer, so the result is the list written.  [collapse_tail] is its inner
    [do]/[while], entered at the first ['*'] that a wildcard follows. *)
Definition is_wild (c : ascii) : bool := (c =c "*") || (c =c "?").

Fixpoint collapse_tail (m : list ascii) (star : bool) : list ascii :=
  match m with
  | [] => if star then ["*"%char] else []
  | c :: m' =>
      if c =c "*" then collapse_tail m' true
      else
        let starred := star && negb (c =c "?") in
        let pre := if starred then ["*"%char] else [] in
        let star := if starred then false else star in
        if (c =c "\") && is_wild (deref m') then
          match m' with
          | d :: m'' => pre ++ c :: d :: collapse_tail m'' star
          | [] => pre ++ [c]
          end
        else pre ++ c :: collapse_tail m' star
  end.

Fixpoint collapse (m : list ascii) : list ascii :=
  match m with
  | [] => []
  | c :: m' =>
      if (c =c "*") && is_wild (deref m') then collapse_tail m false
      else if (c =c "\") && is_wild (deref m') then
        match m' with
        | d :: m'' => c :: d :: collapse m''
        | [] => [c]
        end
      else c :: collapse m'
  end.

(** ** What a mask means *)
Inductive tok : Type :=
| Lit (c : ascii)     (** a character, whatever its case *)
| Exact (c : ascii)   (** [\c]: exactly that character *)
| Any                 (** [?] *)
| Star                (** [*] *)
| Dangling.           (** a backslash with nothing after it *)

#[global] Instance tok_eq_dec : EqDecision tok.
Proof. solve_decision. Defined.

Fixpoint tokens (m : list ascii) : list tok :=
  match m with
  | [] => []
  | c :: m' =>
      if c =c "\" then
        match m' with
        | [] => [Dangling]
        | d :: m'' => Exact d :: tokens m''
        end
      else if c =c "*" then Star :: tokens m'
      else if c =c "?" then Any :: tokens m'
      else Lit c :: tokens m'
  end.

Definition tok_char (t : tok) (c : ascii) : bool :=
  match t with
  | Lit d => ToLower d =c ToLower c
  | Exact d => d =c c
  | Any => true
  | Star | Dangling => false
  end.

Fixpoint glob (p : list tok) : list ascii -> bool :=
  match p with
  | [] => fun s => match s with [] => true | _ => false end
  | Star :: p' =>
      fix star (s : list ascii) : bool :=
        glob p' s || match s with [] => false | _ :: s' => star s' end
  | t :: p' =>
      fun s => match s with
               | [] => false
               | c :: s' => tok_char t c && glob p' s'
               end
  end.

Definition mask_matches (mask name : list ascii) : bool := glob (tokens mask) name.

(** The masks [match] handles as documented: no dangling backslash, and no escaped
    character right after a run of wildcards that holds a ['*'] (there the code
    remembers the position after the backslash; see [match_escape_after_star]). *)
Fixpoint toks_ok (after_star : bool) (p : list tok) : bool :=
  match p with
  | [] => true
  | Star :: p' => toks_ok true p'
  | Any :: p' => toks_ok after_star p'
  | Exact _ :: p' => negb after_star && toks_ok false p'
  | Lit _ :: p' => toks_ok false p'
  | Dangling :: _ => false
  end.

Definition mask_ok (mask : list ascii) : bool := toks_ok false (tokens mask).

(** Least length of a name the tokens match. *)
Fixpoint tmin (p : list tok) : nat :=
  match p with
  | [] => 0
  | Star :: p' => tmin p'
  | _ :: p' => S (tmin p')
  end.

Definition verdict (b : bool) : outcome Z := Ok (if b then 0%Z else 1%Z).

(** ** Properties of the denotation *)
Lemma glob_star (p : list tok) (s : list ascii) :
  glob (Star :: p) s = glob p s || match s with [] => false | _ :: s' => glob (Star :: p) s' end.
Proof. destruct s; reflexivity. Qed.

Lemma glob_star_intro (p : list tok) (s s' : list ascii) :
  s' `suffix_of` s -> glob p s' = true -> glob (Star :: p) s = true.
Proof.
  intros [k ->] H. induction k as [|c k IH]; simpl app; rewrite glob_star.
  - by rewrite H.
  - rewrite IH. apply orb_true_r.
Qed.

Lemma glob_star_elim (p : list tok) (s : list ascii) :
  glob (Star :: p) s = true -> exists s', s' `suffix_of` s /\ glob p s' = true.
Proof.
  induction s as [|c s IH]; rewrite glob_star; intros H;
    apply orb_true_iff in H as [H|H]; try discriminate; eauto.
  destruct (IH H) as (s' & Hs & G). exists s'. split; [|done].
  by apply suffix_cons_r.
Qed.

(** Languages of concatenations. *)
Lemma glob_app (p q : list tok) (s : list ascii) :
  glob (p ++ q) s = true <-> exists s1 s2, s = s1 ++ s2 /\ glob p s1 = true /\ glob q s2 = true.
Proof.
  revert s. induction p as [|t p IH]; intros s; cbn [app].
  - split; [intros H; by exists [], s|]. intros (s1 & s2 & -> & H1 & H2). by destruct s1.
  - destruct (decide (t = Star)) as [->|N].
    + split.
      * intros (s' & [s0 ->] & H)%glob_star_elim. apply IH in H as (s1 & s2 & -> & H1 & H2). exists (s0 ++ s1), s2.
        split; [apply app_assoc|]. split; [|done]. eapply glob_star_intro; [|exact H1]. by eexists.
      * intros (s1 & s2 & -> & (s' & [s0 ->] & H1)%glob_star_elim & H2). eapply glob_star_intro with (s' ++ s2); [|apply IH; eauto].
        exists s0. by rewrite app_assoc.
    + assert (forall r s, glob (t :: r) s = match s with [] => false | c :: s' => tok_char t c && glob r s' end) as G by (by intros; destruct t).
      destruct s as [|c s]; rewrite G.
      * split; [done|]. intros (s1 & s2 & E & H1 & _). symmetry in E. apply app_eq_nil in E as [-> ->]. by rewrite G in H1.
      * split.
        -- intros [Hc H]%andb_true_iff. apply IH in H as (s1 & s2 & -> & H1 & H2). exists (c :: s1), s2. split; [done|]. rewrite G, Hc. done.
        -- intros ([|c' s1] & s2 & E & H1 & H2); rewrite G in H1; [done|]. injection E as <- ->. apply andb_true_iff in H1 as [Hc H1].
           rewrite Hc. cbn. apply IH. eauto.
Qed.

Lemma glob_tmin (p : list tok) (s : list ascii) :
  glob p s = true -> tmin p <= length s.
Proof.
  revert s. induction p as [|t p IH]; intros s H; [simpl; lia|].
  assert (forall s, glob (Star :: p) s = true -> tmin p <= length s) as HS.
  { intros s' G. apply glob_star_elim in G as (s'' & Hs & G).
    apply IH in G. apply suffix_length in Hs. lia. }
  destruct t as [a|a| | |]; simpl tmin; try (by apply HS);
    destruct s as [|c s]; try discriminate H; simpl in *; try discriminate H;
    try (apply andb_true_iff in H as [_ H]); apply IH in H; lia.
Qed.

Lemma glob_star_star (p : list tok) (s : list ascii) :
  glob (Star :: Star :: p) s = glob (Star :: p) s.
Proof.
  apply Bool.eq_iff_eq_true. split; intros H.
  - apply glob_star_elim in H as (s1 & H1 & H). apply glob_star_elim in H as (s2 & H2 & H).
    eapply glob_star_intro; [|exact H]. by etransitivity.
  - eapply glob_star_intro; [reflexivity|exact H].
Qed.

Lemma glob_star_any (p : list tok) (s : list ascii) :
  glob (Star :: Any :: p) s = match s with [] => false | _ :: s' => glob (Star :: p) s' end.
Proof.
  induction s as [|c s IH]; [reflexivity|].
  rewrite glob_star. rewrite IH.
  change (glob (Any :: p) (c :: s)) with (glob p s).
  by rewrite (glob_star p s).
Qed.

(** Tokens that take exactly one character. *)
Definition single (t : tok) : Prop :=
  match t with Star | Dangling => False | _ => True end.

Lemma glob_singles (q p : list tok) (s : list ascii) :
  Forall single q -> glob (q ++ p) s = true ->
  length q <= length s /\ glob p (drop (length q) s) = true.
Proof.
  intros F. revert s. induction F as [|t q Ht F IH]; intros s H; [simpl; auto with lia|].
  destruct t as [a|a| | |]; try done; destruct s as [|c s]; try discriminate H;
    simpl in *; try (apply andb_true_iff in H as [_ H]); apply IH in H; split; try lia; tauto.
Qed.

Lemma singles_any (k : nat) : Forall single (repeat Any k).
Proof. induction k; constructor; done. Qed.

Lemma tmin_singles (q p : list tok) : Forall single q -> tmin (q ++ p) = length q + tmin p.
Proof. induction 1 as [|t q Ht F IH]; [done|]. destruct t; try done; simpl; lia. Qed.

Lemma drop_suffix {A : Type} (k : nat) (l l' : list A) :
  l' `suffix_of` l -> drop k l' `suffix_of` drop k l.
Proof.
  intros [j ->]. rewrite drop_app.
  destruct (decide (k <= length j)) as [H|H].
  - replace (k - length j) with 0 by lia. rewrite drop_0.
    exists (drop k j ++ take k l'). by rewrite <- (assoc_L (++)), take_drop.
  - rewrite (drop_ge j k) by lia. simpl.
    exists (take (length j) (drop (k - length j) l')).
    replace (drop k l') with (drop (length j) (drop (k - length j) l')).
    + by rewrite take_drop.
    + rewrite drop_drop. f_equal. lia.
Qed.

Definition star_if (b : bool) (p : list tok) : list tok := if b then Star :: p else p.

Definition wild_ok (m n : list ascii) (st : bool) (r : option (list ascii * list ascii * bool)) : Prop :=
  match r with
  | None => glob (star_if st (tokens m)) n = false
  | Some (m', n', st') =>
      exists k, k <= length n /\ n' = drop k n /\
      (forall s, glob (star_if st (tokens m)) s =
         (k <=? length s) && glob (star_if st' (tokens m')) (drop k s)) /\
      (st' = false -> st = false /\ tokens m = repeat Any k ++ tokens m') /\
      is_wild (deref m') = false /\ length m' <= length m /\
      (is_wild (deref m) = true -> length m' < length m /\ (st' = false -> k <> 0)) /\
      (forall b, toks_ok (b || st) (tokens m) = true -> toks_ok (b || st') (tokens m') = true)
  end.

(** One run of wildcards: it takes [k] characters whatever the name, and leaves the
    star pending if it met one. *)
Lemma wild_run_spec (m n : list ascii) (st : bool) : wild_ok m n st (wild_run m n st).
Proof.
  revert n st. induction m as [|c m IH]; intros n st.
  { exists 0. cbn. repeat split; auto; try lia; discriminate. }
  cbn [wild_run].
  destruct (Ascii.eqb_spec c "*") as [->|N1].
  { specialize (IH n true). unfold wild_ok in *.
    change (tokens ("*"%char :: m)) with (Star :: tokens m).
    assert (forall s, glob (star_if st (Star :: tokens m)) s = glob (star_if true (tokens m)) s) as GE.
    { intros s. destruct st; [apply glob_star_star|reflexivity]. }
    destruct (wild_run m n true) as [[[m' n'] st']|]; rewrite ?GE; [|exact IH].
    destruct IH as (k & Lk & En & G & P & W & L & _ & K). exists k. cbn [length toks_ok].
    repeat split; auto; try lia.
    - intros s. by rewrite GE.
    - by destruct (P H).
    - by destruct (P H).
    - intros F. by destruct (P F).
    - intros b H. apply K. by rewrite orb_true_r. }
  destruct (Ascii.eqb_spec c "?") as [->|N2].
  { change (tokens ("?"%char :: m)) with (Any :: tokens m).
    assert (forall s, glob (star_if st (Any :: tokens m)) s =
      match s with [] => false | _ :: s' => glob (star_if st (tokens m)) s' end) as GE.
    { intros s. destruct st; [apply glob_star_any|by destruct s]. }
    destruct n as [|d n]; [apply GE|]. specialize (IH n st). unfold wild_ok in *.
    change (tokens ("?"%char :: m)) with (Any :: tokens m).
    destruct (wild_run m n st) as [[[m' n'] st']|]; [|by rewrite GE].
    destruct IH as (k & Lk & En & G & P & W & L & _ & K). exists (S k). cbn [length toks_ok].
    repeat split; auto; try lia.
    - intros s. rewrite GE. destruct s as [|e s]; [reflexivity|apply G].
    - by destruct (P H).
    - destruct (P H) as [_ ->]. done. }
  unfold wild_ok. exists 0. unfold is_wild. cbn [deref].
  rewrite (proj2 (Ascii.eqb_neq c "*") N1), (proj2 (Ascii.eqb_neq c "?") N2).
  repeat split; auto; try lia; discriminate.
Qed.

Lemma scan_fold_spec (c : ascii) (n : list ascii) :
  scan_fold c n `suffix_of` n /\
  (scan_fold c n = [] \/
   exists d n', scan_fold c n = d :: n' /\ ToLower d = ToLower c) /\
  (forall p, glob (Star :: Lit c :: p) n = glob (Star :: Lit c :: p) (scan_fold c n)) /\
  (scan_fold c n <> n -> forall p, glob (Lit c :: p) n = false).
Proof.
  induction n as [|d n IH]; cbn [scan_fold].
  { repeat split; auto; reflexivity. }
  destruct (Ascii.eqb_spec (ToLower d) (ToLower c)) as [E|E].
  { split; [reflexivity|]. split; [right; eauto|]. split; [done|by intros []]. }
  assert (forall p, glob (Lit c :: p) (d :: n) = false) as Hd.
  { intros p. simpl. destruct (Ascii.eqb_spec (ToLower c) (ToLower d)); [congruence|reflexivity]. }
  destruct IH as (S1 & S2 & S3 & _). repeat split; auto.
  - by apply suffix_cons_r.
  - intros p. rewrite glob_star, Hd. apply S3.
Qed.

(** The head of a mask as [match] reads it: nothing, an escape, a wildcard or a
    plain character. *)
Lemma tokens_plain (c : ascii) (m : list ascii) :
  (c =c "\") = false -> is_wild c = false -> tokens (c :: m) = Lit c :: tokens m.
Proof. unfold is_wild. intros E W. cbn. apply orb_false_iff in W as [W1 W2]. by rewrite E, W1, W2. Qed.

Lemma toks_ok_weaken (p : list tok) : toks_ok true p = true -> toks_ok false p = true.
Proof. induction p as [|[]]; simpl; auto; discriminate. Qed.

(** What the loop knows while [m_tmp] is set: the name can only be matched from
    [n0] on, and the current attempt, started at [n0], is at [m], [n]. *)
Definition attempt (mm nt m n : list ascii) : Prop :=
  exists n0 c mm', mm = c :: mm' /\ (c =c "\") = false /\ is_wild c = false /\
    n0 `suffix_of` nt /\ n `suffix_of` n0 /\
    glob (Star :: tokens mm) nt = glob (Star :: tokens mm) n0 /\
    (n0 <> nt -> glob (tokens mm) nt = false) /\
    glob (tokens mm) n0 = glob (tokens m) n /\
    (exists q, Forall single q /\ tokens mm = q ++ tokens m /\ length n0 = length q + length n) /\
    (n0 = [] -> m = mm).

Lemma attempt_start (c : ascii) (m n : list ascii) :
  (c =c "\") = false -> is_wild c = false -> attempt (c :: m) n (c :: m) (scan_fold c n).
Proof.
  intros E W. destruct (scan_fold_spec c n) as (S1 & _ & S3 & S4).
  exists (scan_fold c n), c, m. rewrite (tokens_plain c m E W).
  repeat split; auto. exists []. auto.
Qed.

Lemma attempt_again (c : ascii) (m n : list ascii) :
  (c =c "\") = false -> is_wild c = false -> attempt (c :: m) n (c :: m) n.
Proof.
  intros E W. exists n, c, m. rewrite (tokens_plain c m E W).
  repeat split; auto; [congruence|]. exists []. auto.
Qed.

(** Progress of an attempt by tokens that take one character each. *)
Lemma attempt_step (mm nt m n m' n' : list ascii) (q : list tok) :
  attempt mm nt m n -> n' `suffix_of` n -> length n' < length n ->
  glob (tokens m) n = glob (tokens m') n' ->
  Forall single q -> tokens m = q ++ tokens m' -> length n = length q + length n' ->
  attempt mm nt m' n'.
Proof.
  intros (n0 & c & mm' & -> & E & W & S0 & S1 & G1 & G2 & G3 & (q0 & F0 & Q0 & L0) & NE)
    Sn Ln G F Q L.
  exists n0, c, mm'. repeat split; auto; try lia.
  - by etransitivity.
  - by rewrite G3.
  - exists (q0 ++ q). rewrite Q0, Q, length_app, (assoc_L (++)).
    repeat split; [by apply Forall_app|lia].
  - intros ->. apply suffix_length in S1. simpl in S1. lia.
Qed.

(** A failed attempt: nothing is lost by moving one character on. *)
Lemma attempt_fail (mm nt m n : list ascii) :
  attempt mm nt m n -> glob (tokens m) n = false ->
  glob (Star :: tokens mm) nt =
    match nt with [] => false | _ :: nt' => glob (Star :: tokens mm) nt' end.
Proof.
  intros (n0 & c & mm' & -> & E & W & S0 & S1 & G1 & G2 & G3 & _ & NE) F.
  rewrite glob_star. replace (glob (tokens (c :: mm')) nt) with false; [done|].
  destruct (decide (n0 = nt)) as [->|D]; [congruence|]. symmetry. auto.
Qed.

Lemma attempt_exhausted (mm nt m : list ascii) :
  attempt mm nt m [] -> 0 < tmin (tokens m) -> glob (Star :: tokens mm) nt = false.
Proof.
  intros (n0 & c & mm' & -> & E & W & S0 & S1 & G1 & G2 & G3 & (q & F & Q & L) & NE) P.
  rewrite G1. apply not_true_is_false. intros H. apply glob_tmin in H.
  cbn [tmin] in H. rewrite Q, tmin_singles in H by done. cbn [length] in *. lia.
Qed.

(** A star met during an attempt decides the whole question: later starts can only
    reach it further right. *)
Lemma attempt_star (mm nt m n m' : list ascii) (k : nat) :
  attempt mm nt m n -> k <= length n ->
  (forall s, glob (tokens m) s = (k <=? length s) && glob (Star :: tokens m') (drop k s)) ->
  glob (Star :: tokens mm) nt = glob (Star :: tokens m') (drop k n).
Proof.
  intros (n0 & c & mm' & -> & E & W & S0 & S1 & G1 & G2 & G3 & (q & F & Q & L) & NE) Lk G.
  rewrite G1. apply Bool.eq_iff_eq_true. split; intros H.
  - apply glob_star_elim in H as (n1 & Sn1 & H). rewrite Q in H.
    apply glob_singles in H as [L1 H]; [|done]. rewrite G in H.
    apply andb_true_iff in H as [_ H]. rewrite drop_drop in H.
    apply glob_star_elim in H as (n2 & Sn2 & H).
    assert (n = drop (length q) n0) as ->.
    { destruct S1 as [j ->]. rewrite length_app in L. replace (length q) with (length j) by lia.
      by rewrite drop_app_length. }
    eapply glob_star_intro; [|exact H]. etransitivity; [exact Sn2|].
    rewrite drop_drop. by apply drop_suffix.
  - eapply glob_star_intro; [reflexivity|]. rewrite G3, G, H.
    apply andb_true_iff. split; [|done]. by apply Nat.leb_le.
Qed.

Definition answer (m n : list ascii) (m_tmp : option (list ascii)) (n_tmp : list ascii) : bool :=
  match m_tmp with
  | None => glob (tokens m) n
  | Some mm => glob (Star :: tokens mm) n_tmp
  end.

Definition loop_inv (K : nat) (m n : list ascii) (m_tmp : option (list ascii))
    (n_tmp : list ascii) : Prop :=
  length m < K /\ n `suffix_of` n_tmp /\ (toks_ok false (tokens m) = true /\ no_nul m) /\
  match m_tmp with
  | None => True
  | Some mm =>
      length mm < K /\ (toks_ok false (tokens mm) = true /\ no_nul mm) /\ attempt mm n_tmp m n
  end.

(** [k] answers correctly from every state it can be given with less fuel. *)
Definition loop_ok (K fuel : nat)
    (k : list ascii -> list ascii -> option (list ascii) -> list ascii -> outcome Z) : Prop :=
  forall m n mt nt, loop_inv K m n mt nt -> length nt * K + length m < fuel ->
    k m n mt nt = verdict (answer m n mt nt).

Lemma backtrack_spec (K fuel : nat) k (m n : list ascii) mt nt :
  loop_ok K fuel k -> loop_inv K m n mt nt -> length nt * K + length m <= fuel ->
  glob (tokens m) n = false ->
  match mt with Some mm => n <> [] \/ m <> mm | None => True end ->
  backtrack k mt nt = verdict (answer m n mt nt).
Proof.
  intros IH (Lm & Sn & Tm & I) Fu F NE. destruct mt as [mm|]; unfold backtrack, answer;
    [|by rewrite F].
  destruct I as (Lmm & Tmm & A).
  rewrite (attempt_fail _ _ _ _ A F).
  destruct nt as [|x nt].
  { destruct A as (n0 & c & mm' & -> & E & W & S0 & S1 & _ & _ & _ & _ & N0).
    apply suffix_nil_inv in S0 as ->. apply suffix_nil_inv in Sn as ->.
    destruct NE as [NE|NE]; [done|]. destruct NE. auto. }
  destruct A as (n0 & c & mm' & -> & E & W & _).
  destruct nt as [|y nt].
  { unfold verdict. rewrite glob_star, (tokens_plain c mm' E W). reflexivity. }
  rewrite IH; [reflexivity| |simpl in *; lia].
  split; [done|]. split; [reflexivity|]. split; [done|]. split; [done|]. split; [done|].
  by apply attempt_again.
Qed.

Lemma loop_inv_step (K : nat) (m n m' n' : list ascii) mt nt (q : list tok) :
  loop_inv K m n mt nt -> length m' <= length m -> n' `suffix_of` n -> length n' < length n ->
  toks_ok false (tokens m') = true -> no_nul m' ->
  glob (tokens m) n = glob (tokens m') n' ->
  Forall single q -> tokens m = q ++ tokens m' -> length n = length q + length n' ->
  loop_inv K m' n' mt nt /\ answer m n mt nt = answer m' n' mt nt.
Proof.
  intros (Lm & Sn & Tm & I) L S Ln T NN G F Q LQ. split.
  - split; [lia|]. split; [by etransitivity|]. split; [done|].
    destruct mt as [mm|]; [|done]. destruct I as (Lmm & Tmm & A).
    split; [done|]. split; [done|]. by eapply attempt_step.
  - destruct mt; [done|]. exact G.
Qed.

(** The state the loop enters after a run of wildcards with a star in it. *)
Lemma loop_inv_star (K : nat) (m n : list ascii) mt nt (c : ascii) (m' : list ascii) (k : nat) :
  loop_inv K m n mt nt -> k <= length n ->
  (forall s, glob (tokens m) s = (k <=? length s) && glob (Star :: tokens (c :: m')) (drop k s)) ->
  (c =c "\") = false -> is_wild c = false -> length (c :: m') < K ->
  toks_ok false (tokens (c :: m')) = true -> no_nul (c :: m') ->
  loop_inv K (c :: m') (scan_fold c (drop k n)) (Some (c :: m')) (drop k n) /\
  answer m n mt nt = glob (Star :: tokens (c :: m')) (drop k n).
Proof.
  intros (Lm & Sn & Tm & I) Lk G E W L T NN. split.
  { split; [done|]. split; [apply scan_fold_spec|]. split; [done|]. split; [done|]. split; [done|].
    by apply attempt_start. }
  unfold answer. destruct mt as [mm|].
  - by apply attempt_star with (m := m); [apply I|..].
  - rewrite G. by rewrite (proj2 (Nat.leb_le _ _) Lk).
Qed.

Lemma no_nul_cons (c : ascii) (m : list ascii) : no_nul (c :: m) -> c <> NUL /\ no_nul m.
Proof. unfold no_nul. rewrite not_elem_of_cons. intros [? ?]. auto. Qed.

Lemma wild_run_suffix (m n : list ascii) (st : bool) m' n' st' :
  wild_run m n st = Some (m', n', st') -> m' `suffix_of` m /\ n' `suffix_of` n.
Proof.
  revert n st. induction m as [|c m IH]; intros n st; cbn [wild_run]; intros H.
  { by inv H. }
  destruct (c =c "*"); [apply IH in H as [? ?]; auto using suffix_cons_r|].
  destruct (c =c "?"); [|by inv H].
  destruct n; [done|]. apply IH in H as [? ?]. auto using suffix_cons_r.
Qed.

Lemma no_nul_suffix (m m' : list ascii) : m' `suffix_of` m -> no_nul m -> no_nul m'.
Proof. intros [k ->] H. unfold no_nul in *. rewrite elem_of_app in H. auto. Qed.

(** The head of [mm] is a plain character, so a state whose mask starts with an
    escape or a wildcard is past the start of its attempt. *)
Lemma not_at_start (K : nat) (c : ascii) (m n : list ascii) mt nt :
  loop_inv K (c :: m) n mt nt -> (c =c "\") = true \/ is_wild c = true ->
  match mt with Some mm => n <> [] \/ c :: m <> mm | None => True end.
Proof.
  intros (_ & _ & _ & I) H. destruct mt as [mm|]; [|done].
  destruct I as (_ & _ & (n0 & d & mm' & -> & E & W & _)).
  right. intros E'. inv E'. destruct H; congruence.
Qed.

(** The kinds of step, given that the loop is right with less fuel. *)
Section Steps.
Context (K fuel : nat) (IH : loop_ok K fuel (match_loop fuel)).
Context (mt : option (list ascii)) (nt : list ascii).

Lemma escape_step (m n : list ascii) :
  loop_inv K ("\"%char :: m) n mt nt -> length nt * K + length ("\"%char :: m) <= fuel ->
  match_loop (S fuel) ("\"%char :: m) n mt nt = verdict (answer ("\"%char :: m) n mt nt).
Proof.
  intros I Fu. pose proof I as (_ & _ & (T & NN) & _).
  destruct m as [|d m]; [discriminate T|].
  assert (glob (tokens ("\"%char :: d :: m)) n = false ->
    backtrack (match_loop fuel) mt nt = verdict (answer ("\"%char :: d :: m) n mt nt)) as BT.
  { intros F. eapply backtrack_spec; eauto. eapply not_at_start; eauto. }
  apply no_nul_cons in NN as [_ NN]. apply no_nul_cons in NN as [Nd NN].
  cbn [match_loop deref]. change (("\" =c "\")%char) with true. cbn match.
  destruct n as [|e n]; cbn [deref].
  - rewrite (proj2 (Ascii.eqb_neq d NUL) Nd). by apply BT.
  - destruct (Ascii.eqb_spec d e) as [<-|D].
    + destruct (loop_inv_step K _ _ m n mt nt [Exact d] I) as [I' ->]; simpl; auto with lia.
      * by apply suffix_cons_r.
      * by rewrite Ascii.eqb_refl.
      * by repeat constructor.
      * apply IH; [done|]. simpl in *; lia.
    + apply BT. simpl. by rewrite (proj2 (Ascii.eqb_neq d e) D).
Qed.

Lemma plain_step (c : ascii) (m n : list ascii) :
  (c =c "\") = false -> is_wild c = false ->
  loop_inv K (c :: m) n mt nt -> length nt * K + length (c :: m) <= fuel ->
  match_loop (S fuel) (c :: m) n mt nt = verdict (answer (c :: m) n mt nt).
Proof.
  intros E W I Fu. pose proof I as (_ & _ & (T & NN) & J).
  apply no_nul_cons in NN as [_ NN].
  pose proof (tokens_plain c m E W) as TK. rewrite TK in T.
  cbn [match_loop]. rewrite E. unfold is_wild in W. rewrite W.
  destruct n as [|d n].
  { replace (answer (c :: m) [] mt nt) with false; [done|]. unfold answer.
    destruct mt as [mm|]; [|by rewrite TK]. destruct J as (_ & _ & A). symmetry.
    apply (attempt_exhausted _ _ _ A). rewrite TK. simpl. lia. }
  destruct (Ascii.eqb_spec (ToLower c) (ToLower d)) as [F|F].
  - destruct (loop_inv_step K _ _ m n mt nt [Lit c] I) as [I' ->]; auto with lia.
    + simpl. lia.
    + by apply suffix_cons_r.
    + rewrite TK. simpl. by rewrite F, Ascii.eqb_refl.
    + by repeat constructor.
    + apply IH; [done|]. simpl in *; lia.
  - eapply backtrack_spec; eauto.
    + rewrite TK. simpl. by rewrite (proj2 (Ascii.eqb_neq _ _) F).
    + destruct mt; auto.
Qed.

Lemma wild_step (c : ascii) (m n : list ascii) :
  is_wild c = true ->
  loop_inv K (c :: m) n mt nt -> length nt * K + length (c :: m) <= fuel ->
  match_loop (S fuel) (c :: m) n mt nt = verdict (answer (c :: m) n mt nt).
Proof.
  intros W I Fu. pose proof I as (Lm & Sn & (T & NN) & J).
  assert ((c =c "\") = false) as E.
  { destruct (Ascii.eqb_spec c "\") as [->|]; [discriminate W|done]. }
  cbn [match_loop]. rewrite E. unfold is_wild in W. rewrite W.
  pose proof (wild_run_spec (c :: m) n false) as R.
  destruct (wild_run (c :: m) n false) as [[[m' n'] st']|] eqn:Run; unfold wild_ok in R.
  2: { eapply backtrack_spec; eauto. eapply not_at_start; eauto. }
  destruct (wild_run_suffix _ _ _ _ _ _ Run) as [Sm' Sn'].
  pose proof (no_nul_suffix _ _ Sm' NN) as NN'.
  destruct R as (k & Lk & -> & G & P & W' & L & L' & TK). destruct (L' W) as [L1 Pk].
  specialize (TK false T). pose proof (proj2 (Nat.leb_le _ _) Lk) as Lb.
  destruct st'; cbn [star_if orb] in *.
  - destruct m' as [|d m'].
    { replace (answer (c :: m) n mt nt) with true; [done|]. symmetry. unfold answer.
      assert (glob (Star :: tokens []) (drop k n) = true) as GS.
      { eapply glob_star_intro; [apply suffix_nil|reflexivity]. }
      destruct mt as [mm|]; [rewrite (attempt_star mm nt (c :: m) n [] k); tauto|].
      by rewrite G, GS, Lb. }
    destruct (Ascii.eqb_spec d "\") as [->|D]; [by destruct m'|].
    apply Ascii.eqb_neq in D. apply toks_ok_weaken in TK.
    destruct (loop_inv_star K _ n mt nt d m' k I Lk G D W') as [I' ->]; auto; [lia|].
    apply IH; [done|]. apply suffix_length in Sn. rewrite length_drop. simpl in *. nia.
  - destruct (P eq_refl) as [_ Q]. specialize (Pk eq_refl).
    destruct (loop_inv_step K _ n m' (drop k n) mt nt (repeat Any k) I) as [I' ->]; auto.
    + rewrite length_drop. lia.
    + by rewrite G, Lb.
    + apply singles_any.
    + rewrite repeat_length, length_drop. lia.
    + apply IH; [done|]. simpl in *. lia.
Qed.
End Steps.

Lemma match_loop_ok (K fuel : nat) : loop_ok K fuel (match_loop fuel).
Proof.
  induction fuel as [|fuel IH]; intros m n mt nt I Fu; [lia|].
  destruct m as [|c m].
  - cbn [match_loop]. destruct n as [|d n].
    + replace (answer [] [] mt nt) with true; [done|]. symmetry.
      destruct I as (_ & _ & _ & J). unfold answer. destruct mt as [mm|]; [|done].
      destruct J as (_ & _ & (n0 & e & mm' & -> & _ & _ & _ & _ & G1 & _ & G3 & _)).
      rewrite G1. eapply glob_star_intro; [reflexivity|]. by rewrite G3.
    + eapply backtrack_spec; eauto; [lia|]. destruct mt; auto.
  - destruct (Ascii.eqb_spec c "\") as [->|E%Ascii.eqb_neq]; [apply escape_step with K; auto; lia|].
    destruct (is_wild c) eqn:W; [apply wild_step with K|apply plain_step with K]; auto; lia.
Qed.

(** Total correctness of [match], for the components that call it. *)
Lemma match_decides (mask name : list ascii) :
  no_nul mask -> mask_ok mask = true ->
  match_ mask name = Ok (if mask_matches mask name then 0%Z else 1%Z).
Proof.
  intros NN T. unfold match_.
  change (match_loop (match_fuel mask name) mask name None name =
          verdict (answer mask name None name)).
  apply (match_loop_ok (S (S (length mask)))).
  - split; [lia|]. split; [reflexivity|]. done.
  - unfold match_fuel. lia.
Qed.

(** C1: [match] decides the documented meaning of its masks. On every mask without a
    dangling backslash and without an escaped character directly after a star, and on
    every name, the call terminates, never reads outside the two strings, and returns
    0 exactly when the name is in the language of the mask and 1 otherwise. *)
Theorem match_correct (mask name : list ascii) :
  no_nul mask -> mask_ok mask = true ->
  match_ mask name = Ok (if mask_matches mask name then 0%Z else 1%Z).
Proof. apply match_decides. Qed.

Lemma match_correct_witness :
  match_ (cstr "*!*@*.Example.\?rg") (cstr "nick!user@host.example.ORG") = Ok 1%Z /\
  match_ (cstr "n?ck*!*@*.Example.org") (cstr "nick{!user@host.eXample.ORG") = Ok 0%Z.
Proof.
  split.
  - rewrite match_correct; [reflexivity|apply (bool_decide_unpack _); vm_compute; exact I|reflexivity].
  - rewrite match_correct; [reflexivity|apply (bool_decide_unpack _); vm_compute; exact I|reflexivity].
Defined.

(** After a star, [match] backtracks to the character behind a backslash and
    reads it unescaped, so the escaped star of the mask "*\*x" becomes a wildcard:
    the name "*abx" is accepted although it is not in the mask's language. *)
Theorem match_escape_after_star :
  match_ (cstr "*\*x") (cstr "*abx") = Ok 0%Z /\
  mask_matches (cstr "*\*x") (cstr "*abx") = false.
Proof. split; reflexivity. Qed.

(** A mask that ends in a backslash makes [match] read past the terminator
    when the name ends at the same point. *)
Theorem match_dangling_oob : match_ (cstr "ab\") (cstr "ab") = Oob.
Proof. reflexivity. Qed.

(** ** [collapse] keeps the language of a mask *)

(** Two token lists are equivalent when they match the same names. *)
Definition toks_equiv (p q : list tok) : Prop := forall s, glob p s = glob q s.
Infix "≡t" := toks_equiv (at level 70).

#[global] Instance toks_equiv_equivalence : Equivalence toks_equiv.
Proof.
  split.
  - intros p s. reflexivity.
  - intros p q H s. by rewrite H.
  - intros p q r H1 H2 s. by rewrite H1.
Qed.

#[global] Instance toks_cons_proper (t : tok) : Proper (toks_equiv ==> toks_equiv) (cons t).
Proof.
  intros p q H s. destruct t as [a|a| | |]; try (by destruct s as [|c s]; simpl; rewrite ?H).
  induction s as [|c s IH]; rewrite (glob_star p), (glob_star q), H; [done|]. by rewrite IH.
Qed.

#[global] Instance star_if_proper (b : bool) : Proper (toks_equiv ==> toks_equiv) (star_if b).
Proof. intros p q H. destruct b; simpl; by rewrite ?H. Qed.

Lemma star_if_star (b : bool) (p : list tok) : star_if b (Star :: p) ≡t Star :: p.
Proof. intros s. destruct b; [apply glob_star_star|reflexivity]. Qed.

Lemma star_if_any (b : bool) (p : list tok) : star_if b (Any :: p) ≡t Any :: star_if b p.
Proof. intros s. destruct b; [|reflexivity]. simpl star_if. rewrite glob_star_any. by destruct s. Qed.

Lemma tokens_wild (c : ascii) :
  is_wild c = true -> exists t, forall m, tokens (c :: m) = t :: tokens m.
Proof.
  unfold is_wild. intros W. destruct (Ascii.eqb_spec c "*") as [E|N]; [subst; by exists Star|].
  destruct (Ascii.eqb_spec c "?") as [E|N']; [subst; by exists Any|discriminate].
Qed.

Lemma not_wild (c : ascii) : is_wild c = false -> (c =c "*") = false /\ (c =c "?") = false.
Proof. intros W%orb_false_iff. done. Qed.

(** What [collapse_tail] writes for an escape, whichever way it is read. *)
Lemma collapse_tail_escape (d : ascii) (m : list ascii) (st : bool) :
  collapse_tail ("\"%char :: d :: m) st =
    (if st then ["*"%char] else []) ++
    if is_wild d then "\"%char :: d :: collapse_tail m false
    else "\"%char :: d ::
      (if (d =c "\") && is_wild (deref m) then
         match m with e :: m' => e :: collapse_tail m' false | [] => [] end
       else collapse_tail m false).
Proof.
  cbn [collapse_tail deref]. change (("\" =c "*")%char) with false.
  change (("\" =c "?")%char) with false. change (("\" =c "\")%char) with true.
  cbn [andb negb]. destruct (is_wild d) eqn:W; [by destruct st|].
  destruct (not_wild d W) as [-> ->]. cbn [andb negb].
  destruct ((d =c "\") && is_wild (deref m)) eqn:F; [|by destruct st].
  apply andb_true_iff in F as [_ F]. destruct m; [discriminate F|]. by destruct st.
Qed.

Lemma collapse_tail_equiv (m : list ascii) (st : bool) :
  tokens (collapse_tail m st) ≡t star_if st (tokens m).
Proof.
  remember (length m) as k eqn:Hk. revert m st Hk.
  induction k as [k IH] using lt_wf_ind; intros m st ->.
  destruct m as [|c m]; [by destruct st|].
  assert (forall m' st, length m' < S (length m) ->
    tokens (collapse_tail m' st) ≡t star_if st (tokens m')) as IH' by (intros; eapply IH; eauto).
  clear IH. destruct (Ascii.eqb_spec c "*") as [->|N1].
  { change (tokens ("*"%char :: m)) with (Star :: tokens m). rewrite star_if_star.
    cbn [collapse_tail]. by rewrite Ascii.eqb_refl, IH' by lia. }
  destruct (Ascii.eqb_spec c "?") as [->|N2].
  { change (tokens ("?"%char :: m)) with (Any :: tokens m). rewrite star_if_any.
    cbn [collapse_tail]. change (("?" =c "?")%char) with true.
    replace (st && negb true) with false by by destruct st.
    cbn -[tokens]. change (Any :: tokens (collapse_tail m st) ≡t Any :: star_if st (tokens m)).
    by rewrite IH' by lia. }
  destruct (Ascii.eqb_spec c "\") as [->|N3].
  - destruct m as [|d m]; [by destruct st|]. rewrite collapse_tail_escape.
    change (tokens ("\"%char :: d :: m)) with (Exact d :: tokens m).
    assert (forall y, tokens ((if st then ["*"%char] else []) ++ "\"%char :: d :: y)
              = star_if st (Exact d :: tokens y)) as TE by (intros; by destruct st).
    destruct (is_wild d) eqn:W; rewrite TE; [by rewrite IH' by (simpl; lia)|].
    destruct ((d =c "\") && is_wild (deref m)) eqn:F; [|by rewrite IH' by (simpl; lia)].
    apply andb_true_iff in F as [_ F]. destruct m as [|e m]; [discriminate F|].
    destruct (tokens_wild e F) as [t Ht]. rewrite !Ht. by rewrite IH' by (simpl; lia).
  - assert (is_wild c = false) as W.
    { unfold is_wild. by rewrite (proj2 (Ascii.eqb_neq _ _) N1), (proj2 (Ascii.eqb_neq _ _) N2). }
    apply Ascii.eqb_neq in N3. destruct (not_wild c W) as [E1 E2].
    cbn [collapse_tail]. rewrite E1, E2, N3. cbn [andb negb].
    rewrite tokens_plain by done.
    destruct st; cbn [andb app]; [change (tokens ("*"%char :: ?x)) with (Star :: tokens x)|];
      rewrite tokens_plain by done; by rewrite IH' by lia.
Qed.

Lemma collapse_escape (d : ascii) (m : list ascii) :
  collapse ("\"%char :: d :: m) = "\"%char :: d ::
    (if is_wild d then collapse m
     else if (d =c "\") && is_wild (deref m) then
       match m with e :: m' => e :: collapse m' | [] => [] end
     else collapse m).
Proof.
  cbn [collapse deref]. change (("\" =c "*")%char) with false.
  change (("\" =c "\")%char) with true. cbn [andb].
  destruct (is_wild d) eqn:W; [done|]. destruct (not_wild d W) as [-> _]. cbn [andb].
  destruct ((d =c "\") && is_wild (deref m)) eqn:F; [|done].
  apply andb_true_iff in F as [_ F]. by destruct m.
Qed.

Lemma collapse_equiv (m : list ascii) : tokens (collapse m) ≡t tokens m.
Proof.
  remember (length m) as k eqn:Hk. revert m Hk.
  induction k as [k IH] using lt_wf_ind; intros m ->.
  destruct m as [|c m]; [done|].
  assert (forall m', length m' < S (length m) -> tokens (collapse m') ≡t tokens m') as IH'
    by (intros; eapply IH; eauto).
  clear IH. destruct ((c =c "*") && is_wild (deref m)) eqn:S.
  { cbn [collapse]. rewrite S. apply collapse_tail_equiv. }
  destruct (Ascii.eqb_spec c "\") as [->|N3%Ascii.eqb_neq].
  - destruct m as [|d m]; [done|]. rewrite collapse_escape.
    change (Exact d :: tokens (if is_wild d then collapse m
     else if (d =c "\") && is_wild (deref m) then
       match m with e :: m' => e :: collapse m' | [] => [] end
     else collapse m) ≡t Exact d :: tokens m).
    destruct (is_wild d) eqn:W; [by rewrite IH' by (simpl; lia)|].
    destruct ((d =c "\") && is_wild (deref m)) eqn:F; [|by rewrite IH' by (simpl; lia)].
    apply andb_true_iff in F as [_ F]. destruct m as [|e m]; [discriminate F|].
    destruct (tokens_wild e F) as [t Ht]. rewrite !Ht. by rewrite IH' by (simpl; lia).
  - cbn [collapse]. rewrite S, N3. cbn [andb].
    destruct (is_wild c) eqn:W.
    + destruct (tokens_wild c W) as [t Ht]. rewrite !Ht. by rewrite IH' by lia.
    + rewrite !tokens_plain by done. by rewrite IH' by lia.
Qed.

Lemma collapse_tail_length (m : list ascii) (st : bool) :
  length (collapse_tail m st) <= length m + (if st then 1 else 0).
Proof.
  remember (length m) as k eqn:Hk. revert m st Hk.
  induction k as [k IH] using lt_wf_ind; intros m st ->.
  destruct m as [|c m]; [by destruct st|]. cbn [collapse_tail].
  destruct (c =c "*").
  { pose proof (IH (length m) ltac:(simpl; lia) m true eq_refl). simpl in *. destruct st; lia. }
  set (st' := if st && negb (c =c "?") then false else st).
  assert (length (if st && negb (c =c "?") then ["*"%char] else []) +
          (if st' then 1 else 0) <= (if st then 1 else 0)) as P.
  { subst st'. destruct st, (c =c "?"); simpl; lia. }
  destruct ((c =c "\") && is_wild (deref m)) eqn:F.
  - apply andb_true_iff in F as [_ F]. destruct m as [|d m]; [discriminate F|].
    pose proof (IH (length m) ltac:(simpl; lia) m st' eq_refl).
    rewrite length_app. simpl in *. lia.
  - pose proof (IH (length m) ltac:(simpl; lia) m st' eq_refl).
    rewrite length_app. simpl in *. lia.
Qed.

Lemma collapse_length (m : list ascii) : length (collapse m) <= length m.
Proof.
  remember (length m) as k eqn:Hk. revert m Hk.
  induction k as [k IH] using lt_wf_ind; intros m ->.
  destruct m as [|c m]; [done|]. cbn [collapse].
  destruct ((c =c "*") && is_wild (deref m)).
  { pose proof (collapse_tail_length (c :: m) false). simpl in *. lia. }
  destruct ((c =c "\") && is_wild (deref m)) eqn:F.
  - apply andb_true_iff in F as [_ F]. destruct m as [|d m]; [discriminate F|].
    pose proof (IH (length m) ltac:(simpl; lia) m eq_refl). simpl in *. lia.
  - pose proof (IH (length m) ltac:(simpl; lia) m eq_refl). simpl in *. lia.
Qed.

(** [collapse] rewrites a mask in place to one that matches exactly the same
    names and is never longer than the original, escapes and doubled backslashes
    included. *)
Theorem collapse_correct (mask name : list ascii) :
  mask_matches (collapse mask) name = mask_matches mask name /\
  length (collapse mask) <= length mask.
Proof. split; [apply collapse_equiv|apply collapse_length]. Qed.

Example collapse_ex1 : collapse (cstr "a*?*?b\**?") = cstr "a??*b\*?*".
Proof. reflexivity. Qed.
