(* ===== verification/Addr.v ===== *)
(** * IP addresses: [include/res.h] and [ipmask_check] of [ircd/match.c]

    [struct irc_in_addr] is its eight 16-bit parts.  The C code stores them in
    network byte order and converts at each use; here a part is its host-order value,
    so [htons]/[ntohs] disappear.  (The macros of [res.h] only compare raw parts with
    0, 65535 and each other, which byte swapping does not change.) *)

From stdpp Require Import base list strings.
From Stdlib Require Import ZArith Lia Ascii.
From S2P Require Import Prelude Chattr.

Local Open Scope Z_scope.
Local Open Scope ircu_scope.

Record irc_in_addr : Type := InAddr { in6_16 : list Z }.

#[global] Instance irc_in_addr_eq_dec : EqDecision irc_in_addr.
Proof. solve_decision. Defined.

Definition part (a : irc_in_addr) (i : nat) : Z := nth i (in6_16 a) 0.

(** Eight parts of sixteen bits each: what the C type guarantees. *)
Definition addr_wf (a : irc_in_addr) : Prop :=
  length (in6_16 a) = 8%nat /\ Forall (fun z => 0 <= z < 2 ^ 16) (in6_16 a).

#[global] Instance addr_wf_dec (a : irc_in_addr) : Decision (addr_wf a).
Proof. unfold addr_wf. apply _. Defined.

Definition irc_in_addr_valid (a : irc_in_addr) : bool :=
  (negb (part a 0 =? 0) && negb (part a 0 =? 65535))
  || negb (part a 1 =? part a 0) || negb (part a 2 =? part a 0)
  || negb (part a 3 =? part a 0) || negb (part a 4 =? part a 0)
  || negb (part a 5 =? part a 0) || negb (part a 6 =? part a 0)
  || negb (part a 7 =? part a 0).

Definition irc_in_addr_is_ipv4 (a : irc_in_addr) : bool :=
  (part a 0 =? 0) && (part a 1 =? 0) && (part a 2 =? 0) && (part a 3 =? 0) && (part a 4 =? 0)
  && (((part a 5 =? 0) && negb (part a 6 =? 0)) || (part a 5 =? 65535)).

(** [ipmask_check]: [bits] is an [unsigned char]; the loop over the eight parts. *)
Fixpoint ipmask_loop (addr mask : list Z) (bits : Z) : Z :=
  match addr, mask with
  | a :: addr', m :: mask' =>
      if bits <? 16 then
        if Z.shiftr (Z.lxor a m) (16 - bits) =? 0 then 1 else 0
      else if negb (a =? m) then 0
      else
        let bits := u8 (bits - 16) in
        if bits =? 0 then 1 else ipmask_loop addr' mask' bits
  | _, _ => -1
  end.

Definition ipmask_check (addr mask : irc_in_addr) (bits : Z) : Z :=
  ipmask_loop (in6_16 addr) (in6_16 mask) bits.

(** The address as one big-endian number, and its leading bits. *)
Definition addr_num (l : list Z) : Z := fold_left (fun acc z => acc * 2 ^ 16 + z) l 0.
Definition prefix (a : irc_in_addr) (bits : Z) : Z :=
  Z.shiftr (addr_num (in6_16 a)) (16 * Z.of_nat (length (in6_16 a)) - bits).

(** ** Lemmas *)
Lemma shiftr_lxor_eq (a b k : Z) :
  0 <= k -> (Z.shiftr (Z.lxor a b) k =? 0) = (Z.shiftr a k =? Z.shiftr b k).
Proof.
  intros Hk. rewrite Z.shiftr_lxor by done. apply Bool.eq_iff_eq_true.
  rewrite !Z.eqb_eq. apply Z.lxor_eq_0_iff.
Qed.

Lemma addr_num_acc (l : list Z) (acc : Z) :
  fold_left (fun acc z => acc * 2 ^ 16 + z) l acc =
  acc * 2 ^ (16 * Z.of_nat (length l)) + addr_num l.
Proof.
  unfold addr_num. revert acc. induction l as [|z l IH]; intros acc.
  { cbn [fold_left length]. change (2 ^ (16 * Z.of_nat 0)) with 1. lia. }
  cbn [fold_left]. rewrite IH, (IH (0 * _ + z)). cbn [length].
  replace (16 * Z.of_nat (S (length l))) with (16 + 16 * Z.of_nat (length l)) by lia.
  rewrite Z.pow_add_r by lia. ring.
Qed.

Lemma addr_num_cons (z : Z) (l : list Z) :
  addr_num (z :: l) = z * 2 ^ (16 * Z.of_nat (length l)) + addr_num l.
Proof. unfold addr_num at 1. cbn [fold_left]. rewrite addr_num_acc. f_equal. Qed.

Lemma addr_num_bounds (l : list Z) :
  Forall (fun z => 0 <= z < 2 ^ 16) l -> 0 <= addr_num l < 2 ^ (16 * Z.of_nat (length l)).
Proof.
  induction 1 as [|z l Hz F IH]; [unfold addr_num; cbn; lia|]. rewrite addr_num_cons.
  cbn [length]. replace (16 * Z.of_nat (S (length l))) with (16 + 16 * Z.of_nat (length l)) by lia.
  rewrite Z.pow_add_r by lia. nia.
Qed.

Lemma shiftr_high (z x n k : Z) :
  0 <= x < 2 ^ n -> 0 <= k <= n -> Z.shiftr (z * 2 ^ n + x) (n - k) = z * 2 ^ k + Z.shiftr x (n - k).
Proof.
  intros Hx Hk. rewrite !Z.shiftr_div_pow2 by lia.
  replace (2 ^ n) with (2 ^ k * 2 ^ (n - k)) by (rewrite <- Z.pow_add_r by lia; f_equal; lia).
  rewrite Z.mul_assoc, Z.div_add_l; [done|]. apply Z.pow_nonzero; lia.
Qed.

Lemma shiftr_above (z x n k : Z) :
  0 <= x < 2 ^ n -> 0 <= k <= 16 -> 0 <= n -> Z.shiftr (z * 2 ^ n + x) (n + k) = Z.shiftr z k.
Proof.
  intros Hx Hk Hn. rewrite !Z.shiftr_div_pow2 by lia. rewrite Z.pow_add_r by lia.
  rewrite <- Z.div_div by (try apply Z.pow_nonzero; lia).
  rewrite Z.div_add_l by (apply Z.pow_nonzero; lia). by rewrite (Z.div_small x), Z.add_0_r.
Qed.

Lemma ipmask_loop_spec (addr mask : list Z) (bits : Z) :
  length addr = length mask ->
  Forall (fun z => 0 <= z < 2 ^ 16) addr -> Forall (fun z => 0 <= z < 2 ^ 16) mask ->
  addr <> [] -> 0 <= bits <= 16 * Z.of_nat (length addr) -> bits < 256 ->
  let n := 16 * Z.of_nat (length addr) in
  ipmask_loop addr mask bits =
    if Z.shiftr (addr_num addr) (n - bits) =? Z.shiftr (addr_num mask) (n - bits) then 1 else 0.
Proof.
  revert mask bits. induction addr as [|a addr IH]; intros mask bits L Fa Fm NE B B8 n; [done|].
  destruct mask as [|m mask]; [done|]. injection L as L.
  inversion_clear Fa as [|? ? Ha Fa']. inversion_clear Fm as [|? ? Hm Fm'].
  pose proof (addr_num_bounds _ Fa') as Ba. pose proof (addr_num_bounds _ Fm') as Bm.
  rewrite <- L in Bm. subst n. cbn [length] in *. rewrite !addr_num_cons, <- L.
  set (n := 16 * Z.of_nat (length addr)) in *.
  replace (16 * Z.of_nat (S (length addr))) with (n + 16) in * by lia.
  cbn [ipmask_loop]. destruct (Z.ltb_spec bits 16) as [S|S].
  - replace (n + 16 - bits) with (n + (16 - bits)) by lia.
    rewrite !shiftr_above by lia. by rewrite shiftr_lxor_eq by lia.
  - replace (n + 16 - bits) with (n - (bits - 16)) by lia.
    rewrite !shiftr_high by lia.
    assert (forall x, 0 <= x < 2 ^ n -> 0 <= Z.shiftr x (n - (bits - 16)) < 2 ^ (bits - 16)) as Bs.
    { intros x Hx. rewrite Z.shiftr_div_pow2 by lia. split; [apply Z.div_pos; lia|].
      apply Z.div_lt_upper_bound; [lia|]. rewrite <- Z.pow_add_r by lia.
      replace (n - (bits - 16) + (bits - 16)) with n by lia. lia. }
    pose proof (Bs _ Ba) as Bsa. pose proof (Bs _ Bm) as Bsm.
    destruct (Z.eqb_spec a m) as [->|D]; cbn [negb].
    + unfold u8; rewrite Z.mod_small by lia. destruct (Z.eqb_spec (bits - 16) 0) as [Z0|NZ].
      * rewrite Z0, Z.sub_0_r in *. replace (2 ^ 0) with 1 in * by done.
        replace (Z.shiftr (addr_num addr) n) with (Z.shiftr (addr_num mask) n) by lia.
        by rewrite Z.eqb_refl.
      * rewrite IH by (try done; try lia; intros ->; subst n; simpl in *; lia).
        fold n.
        destruct (Z.eqb_spec (Z.shiftr (addr_num addr) (n - (bits - 16)))
                    (Z.shiftr (addr_num mask) (n - (bits - 16)))) as [->|D'];
          [by rewrite Z.eqb_refl|].
        rewrite (proj2 (Z.eqb_neq _ _)); [done|lia].
    + rewrite (proj2 (Z.eqb_neq _ _)); [done|]. nia.
Qed.

(** [ipmask_check] compares prefixes, for the components that call it. *)
Lemma ipmask_check_decides (a m : irc_in_addr) (bits : Z) :
  addr_wf a -> addr_wf m -> 0 <= bits <= 128 ->
  ipmask_check a m bits = if prefix a bits =? prefix m bits then 1 else 0.
Proof.
  intros [La Fa] [Lm Fm] B. unfold ipmask_check, prefix. rewrite ipmask_loop_spec; auto.
  - by rewrite Lm, La.
  - congruence.
  - by destruct (in6_16 a).
  - rewrite La. lia.
  - lia.
Qed.

(** Addresses with a common prefix have every shorter prefix in common. *)
Lemma prefix_shorter (a m : irc_in_addr) (b b' : Z) : addr_wf a -> addr_wf m -> b' <= b <= 128 ->
  prefix a b = prefix m b -> prefix a b' = prefix m b'.
Proof.
  intros [La _] [Lm _] B E. unfold prefix in *. rewrite La, Lm in *. change (16 * Z.of_nat 8) with 128 in *.
  replace (128 - b') with ((128 - b) + (b - b')) by lia. rewrite <- !Z.shiftr_shiftr by lia. by rewrite E.
Qed.

(** [ipmask_check] is CIDR matching: for every prefix length up to 128 it returns
    1 when the leading [bits] bits of the two addresses agree and 0 otherwise (and
    never the -1 its comment announces for 128 bits). *)
Theorem ipmask_check_prefix (a m : irc_in_addr) (bits : Z) :
  addr_wf a -> addr_wf m -> 0 <= bits <= 128 ->
  ipmask_check a m bits = if prefix a bits =? prefix m bits then 1 else 0.
Proof. apply ipmask_check_decides. Qed.

Definition addr_2001 (lo : Z) : irc_in_addr := InAddr [0x2001; 0xdb8; 0; 1; 0; 0; 0; lo].

Lemma ipmask_check_prefix_witness :
  ipmask_check (addr_2001 1) (addr_2001 2) 126 = 1 /\
  ipmask_check (addr_2001 1) (addr_2001 2) 127 = 0 /\
  ipmask_check (addr_2001 1) (addr_2001 1) 128 = 1.
Proof.
  split; [|split];
    (rewrite ipmask_check_prefix; [reflexivity|apply (bool_decide_unpack _); exact I|
       apply (bool_decide_unpack _); exact I|lia]).
Defined.
