(* ===== verification/NumNicks.v ===== *)
(** * Numeric nicks: [ircd/numnicks.c]

    [Codec] is the base-64 encoding of the P10 protocol ([base64toint],
    [inttobase64], [iptobase64], [base64toip]) with its round trips.  [Table] is the
    server and client tables those numbers index: allocation of local numerics,
    registration of remote ones, look-up and removal. *)

From stdpp Require Import base list gmap strings.
From Stdlib Require Import ZArith Lia Ascii.
From S2P Require Import Prelude Chattr Match Addr.

Local Open Scope Z_scope.
Local Open Scope ircu_scope.

Module Codec.

Definition NUMNICKLOG : Z := 6.
Definition NUMNICKMASK : Z := 63.

Definition convert2y : list ascii :=
  cstr "ABCDEFGHIJKLMNOPQRSTUVWXYZabcdefghijklmnopqrstuvwxyz0123456789[]".

Definition convert2n : list Z :=
  [ 0; 0; 0; 0; 0; 0; 0; 0; 0; 0; 0; 0; 0; 0; 0; 0;
    0; 0; 0; 0; 0; 0; 0; 0; 0; 0; 0; 0; 0; 0; 0; 0;
    0; 0; 0; 0; 0; 0; 0; 0; 0; 0; 0; 0; 0; 0; 0; 0;
   52;53;54;55;56;57;58;59;60;61; 0; 0; 0; 0; 0; 0;
    0; 0; 1; 2; 3; 4; 5; 6; 7; 8; 9;10;11;12;13;14;
   15;16;17;18;19;20;21;22;23;24;25;62; 0;63; 0; 0;
    0;26;27;28;29;30;31;32;33;34;35;36;37;38;39;40;
   41;42;43;44;45;46;47;48;49;50;51; 0; 0; 0; 0; 0] ++ repeat 0 128.

Definition to_y (v : Z) : ascii := nth (Z.to_nat v) convert2y NUL.
Definition to_n (c : ascii) : Z := nth (nat_of_ascii c) convert2n 0.

(** The [while] of [base64toint], on [unsigned int]. *)
Fixpoint base64_loop (i : Z) (s : list ascii) : Z :=
  match s with
  | [] => i
  | c :: s' => base64_loop (u32 (u32 (Z.shiftl i NUMNICKLOG) + to_n c)) s'
  end.

(** The first character is consumed unconditionally: on the empty string the loop
    reads past the terminator. *)
Definition base64toint (s : list ascii) : outcome Z :=
  match s with
  | [] => Oob
  | c :: s' => Ok (base64_loop (to_n c) s')
  end.

(** [inttobase64] fills its buffer from the end; the list is the buffer. *)
Fixpoint int_loop (count : nat) (v : Z) (acc : list ascii) : list ascii :=
  match count with
  | O => acc
  | S count => int_loop count (Z.shiftr v NUMNICKLOG) (to_y (Z.land v NUMNICKMASK) :: acc)
  end.

Definition inttobase64 (v : Z) (count : nat) : list ascii := int_loop count v [].

(** ** IP addresses in base 64 *)

(** [for (; ii < 8 && in6_16[ii]; ++ii)]: the leading non-zero parts. *)
Fixpoint lead_nonzero (l : list Z) : nat :=
  match l with
  | [] => O
  | z :: l' => if z =? 0 then O else S (lead_nonzero l')
  end.

(** The scan for "the longest run of zeros", with its three variables; [ii] is the
    index of the next part. *)
Fixpoint zero_scan (l : list Z) (ii max_start max_zeros curr_zeros : nat) : nat * nat * nat * nat :=
  match l with
  | [] => (ii, max_start, max_zeros, curr_zeros)
  | z :: l' =>
      if z =? 0 then zero_scan l' (S ii) max_start max_zeros (S curr_zeros)
      else if (max_zeros <? curr_zeros)%nat then
        zero_scan l' (S ii) (ii - curr_zeros)%nat curr_zeros O
      else zero_scan l' (S ii) max_start max_zeros curr_zeros
  end.

Definition zero_run (l : list Z) (from : nat) : nat * nat :=
  let '(ii, max_start, max_zeros, curr_zeros) := zero_scan (drop from l) from from O O in
  if (max_zeros <? curr_zeros)%nat then ((ii - curr_zeros)%nat, curr_zeros)
  else (max_start, max_zeros).

(** The last loop of [iptobase64]; one iteration per part or run. *)
Fixpoint emit_rest (fuel : nat) (l : list Z) (ii max_start max_zeros : nat) : list ascii :=
  match fuel with
  | O => []
  | S fuel =>
      if (8 <=? ii)%nat then []
      else if (ii =? max_start)%nat && negb (max_zeros =? O)%nat then
        "_"%char :: emit_rest fuel l (ii + max_zeros)%nat max_start max_zeros
      else inttobase64 (nth ii l 0) 3 ++ emit_rest fuel l (S ii) max_start max_zeros
  end.

Definition iptobase64 (addr : irc_in_addr) (v6_ok : bool) : list ascii :=
  let l := in6_16 addr in
  if irc_in_addr_is_ipv4 addr then
    inttobase64 (Z.lor (Z.shiftl (part addr 6) 16) (part addr 7)) 6
  else if negb v6_ok then
    if part addr 0 =? 0x2002 then
      inttobase64 (Z.lor (Z.shiftl (part addr 1) 16) (part addr 2)) 6
    else cstr "AAAAAA"
  else
    let ii := lead_nonzero (take 8 l) in
    let '(max_start, max_zeros) := zero_run l ii in
    flat_map (fun z => inttobase64 z 3) (take ii l) ++ emit_rest 8 l ii max_start max_zeros.

(** The [do]/[while] of [base64toip]; [left] zeros are stored for a ['_'].  Storing
    beyond the eighth part, or reading past the input, is [Oob]. *)
Fixpoint ip_loop (fuel : nat) (input : list ascii) (acc : list Z) : outcome (list Z) :=
  match fuel with
  | O => Fuel
  | S fuel =>
      let* (input, acc) :=
        (if deref input =c "_" then
           let left := u32 ((25 - Z.of_nat (length input)) / 3 - Z.of_nat (length acc)) in
           if 8 <? Z.of_nat (length acc) + left then Oob
           else Ok (tail input, acc ++ repeat 0 (Z.to_nat left))
         else
           match input with
           | a :: b :: c :: input =>
               let accum := u16 (to_n a) in
               let accum := u16 (Z.lor (Z.shiftl accum NUMNICKLOG) (to_n b)) in
               let accum := u16 (Z.lor (Z.shiftl accum NUMNICKLOG) (to_n c)) in
               if 8 <=? Z.of_nat (length acc) then Oob else Ok (input, acc ++ [accum])
           | _ => Oob
           end) in
      if (length acc <? 8)%nat then ip_loop fuel input acc else Ok acc
  end.

Definition base64toip (input : list ascii) : outcome irc_in_addr :=
  if (length input =? 6)%nat then
    let* i := base64toint input in
    Ok (InAddr (if i =? 0 then repeat 0 8
                else [0; 0; 0; 0; 0; 65535; Z.shiftr i 16; Z.land i 65535]))
  else
    let* l := ip_loop 9 input [] in Ok (InAddr l).

(** ** Lemmas *)
Lemma to_n_bounds (c : ascii) : 0 <= to_n c < 64.
Proof.
  assert (((0 <=? to_n c) && (to_n c <? 64)) = true) as H by by_chars c. reflect. lia.
Qed.

Lemma to_n_to_y (v : Z) : 0 <= v < 64 -> to_n (to_y v) = v.
Proof.
  intros H. apply Z.eqb_eq.
  assert (forallb (fun n => to_n (to_y (Z.of_nat n)) =? Z.of_nat n) (seq 0 64) = true) as F
    by (vm_compute; reflexivity).
  rewrite forallb_forall in F. specialize (F (Z.to_nat v)).
  rewrite Z2Nat.id in F by lia. apply F, in_seq. lia.
Qed.

(** Value of a digit string, without the wrap-around. *)
Definition digits_val (i : Z) (s : list ascii) : Z := fold_left (fun i c => i * 64 + to_n c) s i.

Lemma digits_val_nonneg (i : Z) (s : list ascii) : 0 <= i -> i <= digits_val i s.
Proof.
  unfold digits_val. revert i. induction s as [|c s IH]; intros i Hi; cbn [fold_left]; [lia|].
  pose proof (to_n_bounds c). specialize (IH (i * 64 + to_n c) ltac:(lia)). lia.
Qed.

Lemma base64_loop_val (i : Z) (s : list ascii) :
  0 <= i -> digits_val i s < 2 ^ 32 -> base64_loop i s = digits_val i s.
Proof.
  revert i. induction s as [|c s IH]; intros i Hi B; [done|]. cbn [base64_loop].
  unfold digits_val in *. cbn [fold_left] in *. fold (digits_val (i * 64 + to_n c) s) in *.
  pose proof (to_n_bounds c).
  pose proof (digits_val_nonneg (i * 64 + to_n c) s ltac:(lia)).
  unfold NUMNICKLOG. rewrite Z.shiftl_mul_pow2 by lia. change (2 ^ 6) with 64.
  rewrite (u32_small (i * 64)) by lia. rewrite u32_small by lia. apply IH; [lia|done].
Qed.

Lemma digits_val_app (i : Z) (s t : list ascii) :
  digits_val i (s ++ t) = digits_val (digits_val i s) t.
Proof. apply fold_left_app. Qed.

Lemma int_loop_app (count : nat) (v : Z) (acc : list ascii) :
  int_loop count v acc = int_loop count v [] ++ acc.
Proof.
  revert v acc. induction count as [|count IH]; intros v acc; cbn [int_loop]; [done|].
  rewrite IH, (IH _ [_]). by rewrite <- (assoc_L (++)).
Qed.

Lemma int_loop_S (count : nat) (v : Z) :
  inttobase64 v (S count) = inttobase64 (Z.shiftr v NUMNICKLOG) count ++ [to_y (Z.land v NUMNICKMASK)].
Proof. unfold inttobase64. cbn [int_loop]. apply int_loop_app. Qed.

Lemma inttobase64_length (v : Z) (count : nat) : length (inttobase64 v count) = count.
Proof.
  revert v. induction count as [|count IH]; intros v; [done|].
  rewrite int_loop_S, length_app, IH. simpl. lia.
Qed.

Lemma inttobase64_val (v : Z) (count : nat) :
  0 <= v -> digits_val 0 (inttobase64 v count) = v mod 64 ^ Z.of_nat count.
Proof.
  revert v. induction count as [|count IH]; intros v Hv.
  { cbn. by rewrite Z.mod_1_r. }
  rewrite int_loop_S, digits_val_app, IH by (by apply Z.shiftr_nonneg).
  unfold digits_val. cbn [fold_left]. unfold NUMNICKMASK, NUMNICKLOG.
  change 63 with (Z.ones 6). rewrite Z.land_ones, Z.shiftr_div_pow2 by lia.
  change (2 ^ 6) with 64.
  rewrite to_n_to_y by (apply Z.mod_pos_bound; lia).
  rewrite Nat2Z.inj_succ, Z.pow_succ_r by lia.
  rewrite (Z.rem_mul_r v 64 (64 ^ Z.of_nat count)) by lia. lia.
Qed.

Lemma inttobase64_cons (v : Z) (count : nat) :
  (0 < count)%nat -> exists c s, inttobase64 v count = c :: s /\ length s = pred count.
Proof.
  intros H. pose proof (inttobase64_length v count) as L.
  destruct (inttobase64 v count) as [|c s]; simpl in L; [lia|]. exists c, s. split; [done|lia].
Qed.

Lemma base64toint_digits (c : ascii) (s : list ascii) :
  digits_val 0 (c :: s) < 2 ^ 32 -> base64toint (c :: s) = Ok (digits_val 0 (c :: s)).
Proof.
  intros B. unfold base64toint. f_equal. rewrite base64_loop_val; [done| |exact B].
  apply to_n_bounds.
Qed.

Lemma base64_decode (v : Z) (count : nat) :
  0 <= v < 2 ^ 32 -> (0 < count)%nat ->
  base64toint (inttobase64 v count) = Ok (v mod 64 ^ Z.of_nat count).
Proof.
  intros Hv Hc. pose proof (inttobase64_val v count ltac:(lia)) as V.
  destruct (inttobase64_cons v count Hc) as (c & s & E & _). rewrite E in *.
  rewrite base64toint_digits; [by rewrite V|].
  rewrite V. pose proof (Z.mod_le v (64 ^ Z.of_nat count)). lia.
Qed.

(** The numeric-nick encoding round-trips: decoding the [count]-digit encoding
    of an [unsigned int] gives its low [6 * count] bits back, and six digits (the
    form used for IPv4 addresses) lose nothing. *)
Theorem base64_roundtrip (v : Z) (count : nat) :
  0 <= v < 2 ^ 32 -> (0 < count)%nat ->
  base64toint (inttobase64 v count) = Ok (v mod 64 ^ Z.of_nat count) /\
  length (inttobase64 v count) = count /\
  ((6 <= count)%nat -> base64toint (inttobase64 v count) = Ok v).
Proof.
  intros Hv Hc.
  pose proof (base64_decode v count Hv Hc) as R.
  split; [done|]. split; [apply inttobase64_length|]. intros H6. rewrite R. f_equal.
  apply Z.mod_small. split; [lia|]. apply Z.lt_le_trans with (64 ^ 6); [lia|].
  apply Z.pow_le_mono_r; lia.
Qed.

Lemma base64_roundtrip_witness :
  base64toint (inttobase64 4095 2) = Ok 4095 /\
  base64toint (inttobase64 (2 ^ 32 - 1) 6) = Ok (2 ^ 32 - 1) /\
  inttobase64 (2 ^ 32 - 1) 6 = cstr "D]]]]]".
Proof.
  split; [|split; [|reflexivity]].
  - rewrite (proj1 (base64_roundtrip 4095 2 ltac:(lia) ltac:(lia))). reflexivity.
  - apply (proj2 (proj2 (base64_roundtrip (2 ^ 32 - 1) 6 ltac:(lia) ltac:(lia)))). lia.
Defined.

Definition numnick_string (s : list ascii) : Prop := Forall (fun c => c ∈ convert2y) s.

Lemma to_y_to_n (c : ascii) : c ∈ convert2y -> to_y (to_n c) = c.
Proof.
  intros H. apply Ascii.eqb_eq.
  assert (implb (bool_decide (c ∈ convert2y)) (to_y (to_n c) =c c) = true) as F by by_chars c.
  by rewrite bool_decide_eq_true_2 in F.
Qed.

Lemma digits_val_mod (i : Z) (c : ascii) : (i * 64 + to_n c) mod 64 = to_n c.
Proof. rewrite Z.add_comm, Z.mod_add by lia. apply Z.mod_small, to_n_bounds. Qed.

Lemma digits_val_enc (s : list ascii) :
  numnick_string s ->
  0 <= digits_val 0 s < 64 ^ Z.of_nat (length s) /\ inttobase64 (digits_val 0 s) (length s) = s.
Proof.
  induction s as [|c s IH] using rev_ind; intros F; [cbn; split; [lia|done]|].
  apply Forall_app in F as [F Fc]. inversion_clear Fc as [|? ? Hc _].
  destruct (IH F) as [B E]. pose proof (to_n_bounds c).
  assert (digits_val 0 (s ++ [c]) = digits_val 0 s * 64 + to_n c) as D by apply digits_val_app.
  rewrite D, length_app, Nat.add_comm. cbn [length Nat.add]. split.
  - rewrite Nat2Z.inj_succ, Z.pow_succ_r by lia. lia.
  - rewrite int_loop_S. unfold NUMNICKLOG, NUMNICKMASK. change 63 with (Z.ones 6).
    rewrite Z.land_ones, Z.shiftr_div_pow2 by lia. change (2 ^ 6) with 64.
    rewrite digits_val_mod, to_y_to_n by exact Hc.
    rewrite Z.div_add_l, (Z.div_small (to_n c)), Z.add_0_r by lia. by rewrite E.
Qed.

(** The encoding is the only one: every string over the 64 digits is the
    encoding, at its own length, of the number it decodes to, so two different
    numerics of one length never name the same client. *)
Theorem base64_unique (s : list ascii) :
  numnick_string s -> (0 < length s <= 5)%nat ->
  exists v, base64toint s = Ok v /\ inttobase64 v (length s) = s /\ 0 <= v < 64 ^ Z.of_nat (length s).
Proof.
  intros F L. destruct (digits_val_enc s F) as [B E]. exists (digits_val 0 s).
  split; [|auto]. destruct s as [|c s]; [simpl in L; lia|]. apply base64toint_digits.
  apply Z.lt_le_trans with (64 ^ Z.of_nat (length (c :: s))); [lia|].
  apply Z.le_trans with (64 ^ 5); [|lia]. apply Z.pow_le_mono_r; lia.
Qed.

Lemma base64_unique_witness :
  exists v, base64toint (cstr "ABAA]") = Ok v /\ inttobase64 v 5 = cstr "ABAA]" /\ 0 <= v < 64 ^ 5.
Proof.
  apply (base64_unique (cstr "ABAA]")); [apply (bool_decide_unpack _); vm_compute; exact I|].
  cbn. lia.
Defined.

(** ** Addresses: what [base64toip] makes of [iptobase64]'s output *)
Definition enc (l : list Z) : list ascii := flat_map (fun z => inttobase64 z 3) l.

(** [l] with the [mz] parts from [ms] on set to zero. *)
Definition zeroed (l : list Z) (ms mz : nat) : list Z :=
  take ms l ++ repeat 0 mz ++ drop (ms + mz) l.

Lemma enc_length (l : list Z) : length (enc l) = (3 * length l)%nat.
Proof.
  induction l as [|z l IH]; [done|]. cbn [enc flat_map].
  rewrite length_app, inttobase64_length. fold (enc l). rewrite IH. simpl. lia.
Qed.

Lemma enc_app (l k : list Z) : enc (l ++ k) = enc l ++ enc k.
Proof. apply flat_map_app. Qed.

Lemma lead_nonzero_le (l : list Z) : (lead_nonzero l <= length l)%nat.
Proof. induction l as [|z l IH]; cbn; [lia|]. destruct (z =? 0); lia. Qed.

(** The scan stays within the parts it has seen. *)
Lemma zero_scan_bounds (l : list Z) (from ii ms mz cz ii' ms' mz' cz' : nat) :
  (from <= ms)%nat -> (ms + mz + cz <= ii)%nat ->
  zero_scan l ii ms mz cz = (ii', ms', mz', cz') ->
  ii' = (ii + length l)%nat /\ (from <= ms')%nat /\ (ms' + mz' + cz' <= ii')%nat.
Proof.
  revert ii ms mz cz. induction l as [|z l IH]; intros ii ms mz cz H1 H2 E;
    cbn [zero_scan] in E.
  { inv E. simpl. lia. }
  destruct (z =? 0); [|destruct (Nat.ltb_spec mz cz)];
    (apply IH in E; [simpl in *; lia|lia|lia]).
Qed.

Lemma zero_run_bounds (l : list Z) (from ms mz : nat) :
  length l = 8%nat -> (from <= 8)%nat -> zero_run l from = (ms, mz) ->
  (from <= ms)%nat /\ (ms + mz <= 8)%nat.
Proof.
  intros L F. unfold zero_run.
  destruct (zero_scan (drop from l) from from O O) as [[[ii' ms'] mz'] cz'] eqn:E.
  eapply zero_scan_bounds with (from := from) in E; [|lia|lia].
  rewrite length_drop in E. destruct (Nat.ltb_spec mz' cz'); intros H'; inv H'; lia.
Qed.

Lemma emit_rest_spec (fuel : nat) (l : list Z) (ii ms mz : nat) :
  length l = 8%nat -> (8 - ii <= fuel)%nat -> (ms + mz <= 8)%nat -> (ii <= 8)%nat ->
  (ms + mz <= ii)%nat \/ mz = O -> emit_rest fuel l ii ms mz = enc (drop ii l).
Proof.
  intros L. revert ii. induction fuel as [|fuel IH]; intros ii Fu B Bi D.
  { cbn. by rewrite drop_ge by lia. }
  cbn [emit_rest]. destruct (Nat.leb_spec 8 ii); [by rewrite drop_ge by lia|].
  assert (((ii =? ms)%nat && negb (mz =? 0)%nat) = false) as ->.
  { apply andb_false_iff. destruct D as [D| ->]; [|by right].
    destruct (Nat.eqb_spec mz 0); [by right|]. left. apply Nat.eqb_neq. lia. }
  rewrite IH by lia.
  destruct (drop ii l) as [|z k] eqn:E.
  { apply (f_equal length) in E. rewrite length_drop in E. simpl in E. lia. }
  assert (nth ii l 0 = z) as ->.
  { rewrite nth_lookup. rewrite <- (Nat.add_0_r ii), <- lookup_drop, E. done. }
  replace (drop (S ii) l) with k; [done|].
  replace (S ii) with (ii + 1)%nat by lia. by rewrite <- drop_drop, E.
Qed.

Lemma emit_rest_run (fuel : nat) (l : list Z) (ii ms mz : nat) :
  length l = 8%nat -> (8 - ii <= fuel)%nat -> (ii <= ms)%nat -> (ms + mz <= 8)%nat -> mz <> O ->
  emit_rest fuel l ii ms mz = enc (drop ii (take ms l)) ++ "_"%char :: enc (drop (ms + mz) l).
Proof.
  intros L. revert ii. induction fuel as [|fuel IH]; intros ii Fu Bi B NZ; [lia|].
  cbn [emit_rest]. destruct (Nat.leb_spec 8 ii); [lia|].
  destruct (Nat.eqb_spec ii ms) as [->|D].
  - rewrite (proj2 (Nat.eqb_neq mz 0) NZ). cbn [andb negb].
    rewrite emit_rest_spec by (try done; try lia). rewrite (drop_ge (take ms l) ms) by (rewrite length_take; lia). done.
  - cbn [andb]. rewrite IH by lia.
    destruct (drop ii (take ms l)) as [|z k] eqn:E.
    { apply (f_equal length) in E. rewrite length_drop, length_take in E. simpl in E. lia. }
    assert (nth ii l 0 = z) as ->.
    { rewrite nth_lookup. rewrite <- (lookup_take_lt l ms ii) by lia.
      rewrite <- (Nat.add_0_r ii), <- lookup_drop, E. done. }
    replace (drop (S ii) (take ms l)) with k.
    { change (enc (z :: k)) with (inttobase64 z 3 ++ enc k). by rewrite <- (assoc_L (++)). }
    replace (S ii) with (ii + 1)%nat by lia. by rewrite <- drop_drop, E.
Qed.

(** The printed form: the parts around the run that was chosen. *)
Lemma iptobase64_form (a : irc_in_addr) :
  addr_wf a -> irc_in_addr_is_ipv4 a = false ->
  let '(ms, mz) := zero_run (in6_16 a) (lead_nonzero (take 8 (in6_16 a))) in
  (ms + mz <= 8)%nat /\
  iptobase64 a true =
    if (mz =? 0)%nat then enc (in6_16 a)
    else enc (take ms (in6_16 a)) ++ "_"%char :: enc (drop (ms + mz) (in6_16 a)).
Proof.
  intros [L F] V4. unfold iptobase64. rewrite V4. cbn [negb].
  pose proof (lead_nonzero_le (take 8 (in6_16 a))) as Li. rewrite length_take, L in Li.
  set (ii := lead_nonzero (take 8 (in6_16 a))) in *.
  destruct (zero_run (in6_16 a) ii) as [ms mz] eqn:E.
  apply zero_run_bounds in E as [B1 B2]; [|done|lia]. split; [done|]. fold (enc (take ii (in6_16 a))).
  destruct (Nat.eqb_spec mz 0) as [->|NZ].
  - rewrite emit_rest_spec by (try done; lia). by rewrite <- enc_app, take_drop.
  - rewrite emit_rest_run by (try done; lia). rewrite (assoc_L (++)), <- enc_app. do 2 f_equal.
    rewrite <- (take_drop ii (take ms (in6_16 a))) at 2. by rewrite take_take, Nat.min_l by lia.
Qed.

Lemma shiftl_lor_digit (x n : Z) :
  0 <= x -> 0 <= n < 64 -> Z.lor (Z.shiftl x NUMNICKLOG) n = x * 64 + n.
Proof.
  intros Hx Hn. unfold NUMNICKLOG. rewrite <- Z.add_nocarry_lor; [by rewrite Z.shiftl_mul_pow2 by lia|].
  apply Z.bits_inj'. intros k Hk. rewrite Z.land_spec, Z.bits_0.
  destruct (Z.ltb_spec k 6).
  - by rewrite Z.shiftl_spec_low by lia.
  - rewrite andb_false_iff. right. destruct (Z.eq_dec n 0) as [->|]; [apply Z.bits_0|].
    apply Z.bits_above_log2; [lia|]. apply Z.log2_lt_pow2; [lia|].
    apply Z.lt_le_trans with (2 ^ 6); [lia|]. apply Z.pow_le_mono_r; lia.
Qed.

Lemma enc_part (z : Z) :
  0 <= z < 2 ^ 16 -> exists a b c, inttobase64 z 3 = [a; b; c] /\ (a =c "_") = false /\
    u16 (Z.lor (Z.shiftl (u16 (Z.lor (Z.shiftl (u16 (to_n a)) NUMNICKLOG) (to_n b))) NUMNICKLOG) (to_n c)) = z.
Proof.
  intros Hz. pose proof (inttobase64_length z 3) as L. pose proof (inttobase64_val z 3 ltac:(lia)) as V.
  rewrite Z.mod_small in V by lia.
  destruct (inttobase64 z 3) as [|a [|b [|c [|]]]] eqn:E; try discriminate L.
  exists a, b, c. split; [done|].
  unfold digits_val in V. cbn [fold_left] in V.
  pose proof (to_n_bounds a). pose proof (to_n_bounds b). pose proof (to_n_bounds c).
  assert (forall x, 0 <= x < 2 ^ 16 -> u16 x = x) as U by (intros; by apply Z.mod_small).
  split.
  - assert (a = to_y (Z.land (Z.shiftr (Z.shiftr z 6) 6) 63)) as -> by by inv E.
    change 63 with (Z.ones 6). rewrite Z.land_ones by lia.
    pose proof (Z.mod_pos_bound (Z.shiftr (Z.shiftr z 6) 6) (2 ^ 6) ltac:(lia)) as Bm.
    assert (forallb (fun n => negb (to_y (Z.of_nat n) =c "_")) (seq 0 64) = true) as Fa
      by (vm_compute; reflexivity).
    rewrite forallb_forall in Fa. set (w := _ mod _) in *.
    specialize (Fa (Z.to_nat w)). rewrite Z2Nat.id in Fa by lia.
    apply negb_true_iff. apply Fa, in_seq. lia.
  - rewrite (U (to_n a)) by lia. rewrite (shiftl_lor_digit (to_n a)) by lia.
    rewrite (U (to_n a * 64 + to_n b)) by lia. rewrite shiftl_lor_digit by lia.
    rewrite U by lia. lia.
Qed.

Lemma ip_loop_part (fuel : nat) (z : Z) (rest : list ascii) (acc : list Z) :
  0 <= z < 2 ^ 16 -> (length acc < 8)%nat ->
  ip_loop (S fuel) (inttobase64 z 3 ++ rest) acc =
    if (S (length acc) <? 8)%nat then ip_loop fuel rest (acc ++ [z]) else Ok (acc ++ [z]).
Proof.
  intros Hz L. destruct (enc_part z Hz) as (a & b & c & -> & U & V).
  cbn [ip_loop app deref]. rewrite U.
  destruct (Z.leb_spec 8 (Z.of_nat (length acc))); [lia|]. cbn [obind].
  rewrite V, length_app. cbn [length]. by rewrite Nat.add_comm.
Qed.

Lemma ip_loop_enc (l : list Z) : forall (fuel : nat) (rest : list ascii) (acc : list Z),
  Forall (fun z => 0 <= z < 2 ^ 16) l -> (length acc + length l < 8)%nat ->
  ip_loop (length l + fuel) (enc l ++ rest) acc = ip_loop fuel rest (acc ++ l).
Proof.
  induction l as [|z l IH]; intros fuel rest acc F L; [by rewrite app_nil_r|].
  inversion_clear F as [|? ? Hz F']. cbn [length] in *.
  change (enc (z :: l)) with (inttobase64 z 3 ++ enc l). rewrite <- (assoc_L (++)).
  cbn [Nat.add]. rewrite ip_loop_part by (done || lia).
  destruct (Nat.ltb_spec (S (length acc)) 8); [|lia].
  rewrite IH; [by rewrite <- (assoc_L (++))|done|]. rewrite length_app. simpl. lia.
Qed.

(** The tail of the address fills it up exactly. *)
Lemma ip_loop_last (l : list Z) (fuel : nat) (acc : list Z) :
  Forall (fun z => 0 <= z < 2 ^ 16) l -> (length acc + length l = 8)%nat -> l <> [] ->
  (length l <= fuel)%nat -> ip_loop fuel (enc l) acc = Ok (acc ++ l).
Proof.
  intros F L NE Fu. destruct (exists_last NE) as (l' & z & ->).
  apply Forall_app in F as [F Fz]. inversion_clear Fz as [|? ? Hz _].
  rewrite length_app in *. cbn [length] in *.
  replace fuel with (length l' + S (fuel - S (length l')))%nat by lia.
  rewrite enc_app, ip_loop_enc by (done || lia).
  change (enc [z]) with (inttobase64 z 3 ++ []).
  rewrite ip_loop_part by (rewrite ?length_app; done || lia).
  rewrite length_app. destruct (Nat.ltb_spec (S (length acc + length l')) 8); [lia|].
  by rewrite <- (assoc_L (++)).
Qed.

Lemma ip_loop_run (fuel mz : nat) (l : list Z) (acc : list Z) :
  Forall (fun z => 0 <= z < 2 ^ 16) l -> (length acc + mz + length l = 8)%nat ->
  (length l <= fuel)%nat ->
  ip_loop (S fuel) ("_"%char :: enc l) acc = Ok (acc ++ repeat 0 mz ++ l).
Proof.
  intros F L Fu. cbn [ip_loop deref]. change (("_" =c "_")%char) with true. cbn match.
  cbn [length tail]. rewrite enc_length.
  replace ((25 - Z.of_nat (S (3 * length l))) / 3 - Z.of_nat (length acc)) with (Z.of_nat mz).
  2: { replace (25 - Z.of_nat (S (3 * length l))) with ((8 - Z.of_nat (length l)) * 3) by lia.
       rewrite Z.div_mul by lia. lia. }
  rewrite u32_small by lia. rewrite Nat2Z.id.
  destruct (Z.ltb_spec 8 (Z.of_nat (length acc) + Z.of_nat mz)); [lia|]. cbn [obind].
  rewrite length_app, repeat_length.
  destruct (Nat.ltb_spec (length acc + mz) 8).
  - rewrite ip_loop_last; [by rewrite <- (assoc_L (++))|done| | |done].
    + rewrite length_app, repeat_length. lia.
    + intros ->. simpl in L. lia.
  - destruct l; [|simpl in L; lia]. by rewrite app_nil_r.
Qed.

(** The wire form of an IPv6 address, exactly: decoding what [iptobase64] wrote
    never fails and gives the address back with the run of parts that the encoder
    chose set to zero. *)
Theorem ip_base64_exact (a : irc_in_addr) :
  addr_wf a -> irc_in_addr_is_ipv4 a = false ->
  let '(ms, mz) := zero_run (in6_16 a) (lead_nonzero (take 8 (in6_16 a))) in
  base64toip (iptobase64 a true) = Ok (InAddr (zeroed (in6_16 a) ms mz)).
Proof.
  intros W V4. pose proof (iptobase64_form a W V4) as H. destruct W as [L F].
  destruct (zero_run (in6_16 a) (lead_nonzero (take 8 (in6_16 a)))) as [ms mz].
  destruct H as [B ->]. unfold base64toip, zeroed.
  destruct (Nat.eqb_spec mz 0) as [->|NZ].
  - rewrite enc_length, L. change (3 * 8 =? 6)%nat with false. cbn match.
    rewrite ip_loop_last; [|done|done|by destruct (in6_16 a)|lia]. cbn [obind repeat app].
    by rewrite Nat.add_0_r, take_drop.
  - rewrite length_app. cbn [length]. rewrite !enc_length, length_take, length_drop, L.
    destruct (Nat.eqb_spec (3 * (ms `min` 8) + S (3 * (8 - (ms + mz)))) 6); [lia|].
    replace 9%nat with (length (take ms (in6_16 a)) + S (8 - ms))%nat
      by (rewrite length_take, L; lia).
    rewrite ip_loop_enc; [|by apply Forall_take|rewrite length_take, L; simpl; lia].
    rewrite (ip_loop_run _ mz); [done|by apply Forall_drop| |].
    + rewrite app_nil_l, length_take, length_drop, L. lia.
    + rewrite length_drop, L. lia.
Qed.

Lemma ip_base64_exact_witness :
  base64toip (iptobase64 (addr_2001 7) true) = Ok (addr_2001 7).
Proof.
  apply (ip_base64_exact (addr_2001 7)); [apply (bool_decide_unpack _); exact I|reflexivity].
Defined.

(** The search for the longest run of zero parts keeps counting across a
    non-zero part when an earlier run was longer, so the address
    2001:0:0:1:0:1:0:0 arrives as 2001:0:0:1:0:0:0:0: its sixth part is lost. *)
Theorem ip_base64_loses_part :
  let a := InAddr [0x2001; 0; 0; 1; 0; 1; 0; 0] in
  base64toip (iptobase64 a true) = Ok (InAddr [0x2001; 0; 0; 1; 0; 0; 0; 0]).
Proof. reflexivity. Qed.

End Codec.

Module Table.
Import Codec.

Definition NN_MAX_SERVER : Z := 4096.
Definition NN_MAX_CLIENT : Z := 262144.

(** A [struct Client *]; [NULL] is [None]. *)
Definition cid : Type := positive.

(** A heap array of client pointers, of the size it was allocated with. *)
Record carray : Type := CArray { ca_size : Z; ca_slots : gmap Z cid }.

Definition ca_calloc (n : Z) : carray := CArray n ∅.
Definition ca_get (a : carray) (i : Z) : outcome (option cid) :=
  if (0 <=? i) && (i <? ca_size a) then Ok (ca_slots a !! i) else Oob.
Definition ca_set (a : carray) (i : Z) (v : option cid) : outcome carray :=
  if (0 <=? i) && (i <? ca_size a) then
    Ok (CArray (ca_size a)
          match v with Some c => <[i := c]> (ca_slots a) | None => delete i (ca_slots a) end)
  else Oob.

(** The fields of [struct Server] that numeric nicks use. *)
Record serv : Type := Serv {
  nn_capacity : list ascii;
  nn_mask : Z;
  client_list : carray
}.

(** The fields of [struct Client]: [cli_yxx], [cli_serv], [cli_user(c)->server]. *)
Record client : Type := Client {
  cli_yxx : list ascii;
  cli_serv : option serv;
  user_server : option cid
}.

(** The globals of the file and the clients they point to. *)
Record nn : Type := NN {
  clients : gmap cid client;
  server_list : carray;
  lastNNServer : Z;
  last_nn : Z;
  me : cid
}.

Definition set_clients (st : nn) (cl : gmap cid client) : nn :=
  NN cl (server_list st) (lastNNServer st) (last_nn st) (me st).
Definition set_server_list (st : nn) (a : carray) : nn :=
  NN (clients st) a (lastNNServer st) (last_nn st) (me st).
Definition set_lastNNServer (st : nn) (n : Z) : nn :=
  NN (clients st) (server_list st) n (last_nn st) (me st).
Definition set_last_nn (st : nn) (n : Z) : nn :=
  NN (clients st) (server_list st) (lastNNServer st) n (me st).

(** Following a pointer that is [NULL] or dangling is an invalid access. *)
Definition deref_client (st : nn) (c : cid) : outcome client :=
  match clients st !! c with Some k => Ok k | None => Oob end.
Definition deref_serv (st : nn) (c : cid) : outcome serv :=
  let* k := deref_client st c in
  match cli_serv k with Some s => Ok s | None => Oob end.

Definition put_client (st : nn) (c : cid) (k : client) : nn :=
  set_clients st (<[c := k]> (clients st)).
Definition put_yxx (st : nn) (c : cid) (y : list ascii) : outcome nn :=
  let* k := deref_client st c in
  Ok (put_client st c (Client y (cli_serv k) (user_server k))).
Definition put_serv (st : nn) (c : cid) (s : serv) : outcome nn :=
  let* k := deref_client st c in
  Ok (put_client st c (Client (cli_yxx k) (Some s) (user_server k))).

Definition FindXNServer (st : nn) (numeric : list ascii) : outcome (option cid) :=
  match numeric with
  | [] => Oob
  | c :: rest =>
      let* i := base64toint (if deref rest =c NUL then [c] else [c; deref rest]) in
      ca_get (server_list st) i
  end.

Definition FindNServer (st : nn) (numeric : list ascii) : outcome (option cid) :=
  let len := length numeric in
  if (len <? 3)%nat then let* i := base64toint numeric in ca_get (server_list st) i
  else if (len =? 3)%nat then ca_get (server_list st) (to_n (deref numeric))
  else FindXNServer st numeric.

Definition client_at (st : nn) (server : cid) (y : list ascii) : outcome (option cid) :=
  let* s := deref_serv st server in
  let* i := base64toint y in
  ca_get (client_list s) (Z.land i (nn_mask s)).

Definition findNUser (st : nn) (yxx : list ascii) : outcome (option cid) :=
  if (length yxx =? 5)%nat then
    let* server := FindXNServer st yxx in
    match server with Some s => client_at st s (drop 2 yxx) | None => Ok None end
  else
    let* server := FindNServer st yxx in
    match server with Some s => client_at st s (drop 1 yxx) | None => Ok None end.

(** [client_list[base64toint(yxx) & nn_mask] = v] on a server. *)
Definition store_client (st : nn) (server : cid) (y : list ascii) (v : option cid) : outcome nn :=
  let* s := deref_serv st server in
  let* i := base64toint y in
  let* a := ca_set (client_list s) (Z.land i (nn_mask s)) v in
  put_serv st server (Serv (nn_capacity s) (nn_mask s) a).

Definition RemoveYXXClient (st : nn) (server : cid) (yxx : list ascii) : outcome nn :=
  match yxx with
  | [] => Ok st
  | _ => store_client st server yxx None
  end.

(** [SetServerYXX]: a 5-character [yxx] is [YY] and a 3-character capacity,
    otherwise [Y] and a 2-character one (the fields start zeroed). *)
Definition SetServerYXX (st : nn) (server : cid) (yxx : list ascii) : outcome nn :=
  let '(y, cap) :=
    if (length yxx =? 5)%nat then (take 2 yxx, drop 2 yxx)
    else (take 1 yxx, take 2 (drop 1 yxx)) in
  let* mask := base64toint cap in
  let* st := put_yxx st server y in
  let* index := base64toint y in
  let st := if lastNNServer st <=? index then set_lastNNServer st (index + 1) else st in
  let* sl := ca_set (server_list st) index (Some server) in
  put_serv (set_server_list st sl) server (Serv cap mask (ca_calloc (mask + 1))).

(** [while (max_clients < capacity) max_clients <<= 1;] *)
Fixpoint capacity_loop (fuel : nat) (max_clients capacity : Z) : outcome Z :=
  match fuel with
  | O => Fuel
  | S fuel =>
      if max_clients <? capacity then capacity_loop fuel (u32 (Z.shiftl max_clients 1)) capacity
      else Ok max_clients
  end.

(** [SetYXXCapacity]; [None] is its [exit(-1)]. *)
Definition SetYXXCapacity (st : nn) (c : cid) (capacity : Z) : outcome (option nn) :=
  let* max_clients := capacity_loop 32 16 capacity in
  if NN_MAX_CLIENT <? max_clients then Ok None
  else
    let max_clients := max_clients - 1 in
    let* st := put_serv st c (Serv (inttobase64 max_clients 3) max_clients (ca_calloc (max_clients + 1))) in
    let* k := deref_client st c in
    let* i := base64toint (cli_yxx k) in
    let* sl := ca_set (server_list st) i (Some c) in
    Ok (Some (set_server_list st sl)).

Definition SetYXXServerName (st : nn) (c : cid) (numeric : Z) : outcome nn :=
  let* st := put_yxx st c (inttobase64 numeric 2) in
  let st := if lastNNServer st <=? numeric then set_lastNNServer st (numeric + 1) else st in
  let* sl := ca_set (server_list st) numeric (Some c) in
  Ok (set_server_list st sl).

Definition ClearServerYXX (st : nn) (server : cid) : outcome nn :=
  let* k := deref_client st server in
  let* index := base64toint (cli_yxx k) in
  let* cur := ca_get (server_list st) index in
  if bool_decide (cur = Some server) then
    let* sl := ca_set (server_list st) index None in Ok (set_server_list st sl)
  else Ok st.

(** What registering a numeric needs of [exit_client] (ircd/s_misc.c). *)
Class ClientExit : Type := { exit_client : nn -> cid -> outcome nn }.

Definition SetRemoteNumNick `{ClientExit} (st : nn) (acptr : cid) (yxx : list ascii) : outcome nn :=
  let* k := deref_client st acptr in
  match user_server k with
  | None => Oob
  | Some server =>
      let y := if (length yxx =? 5)%nat then drop 2 yxx else take 2 (drop 1 yxx) in
      let* st := put_yxx st acptr y in
      let* old := client_at st server y in
      let* st := match old with Some o => exit_client st o | None => Ok st end in
      store_client st server y (Some acptr)
  end.

Definition nn_succ (n : Z) : Z := if u32 (n + 1) =? NN_MAX_CLIENT then 0 else u32 (n + 1).

(** The search of [SetLocalNumNick]: [None] when every numeric was tried. *)
Fixpoint find_free (tries : nat) (a : carray) (mask last_nn : Z) : outcome (Z * bool) :=
  let* slot := ca_get a (Z.land last_nn mask) in
  match slot with
  | None => Ok (last_nn, true)
  | Some _ =>
      match tries with
      | O => Fuel
      | S O => Ok (last_nn, false)
      | S tries => find_free tries a mask (nn_succ last_nn)
      end
  end.

Definition SetLocalNumNick (st : nn) (cptr : cid) : outcome (nn * Z) :=
  let* s := deref_serv st (me st) in
  let* (n, found) := find_free (Z.to_nat NN_MAX_CLIENT) (client_list s) (nn_mask s) (last_nn st) in
  if found then
    let* a := ca_set (client_list s) (Z.land n (nn_mask s)) (Some cptr) in
    let* st := put_serv st (me st) (Serv (nn_capacity s) (nn_mask s) a) in
    let* st := put_yxx st cptr (inttobase64 n 3) in
    Ok (set_last_nn st (nn_succ n), 1)
  else Ok (set_last_nn st n, 0).

(** ** Lemmas *)
Lemma pow2_pos (k : Z) : 0 <= k -> 0 < 2 ^ k.
Proof. intros H. by apply Z.pow_pos_nonneg. Qed.

Lemma land_mask (n k : Z) : 0 <= k -> Z.land n (2 ^ k - 1) = n mod 2 ^ k.
Proof. intros Hk. replace (2 ^ k - 1) with (Z.ones k) by (rewrite Z.ones_equiv; lia). by apply Z.land_ones. Qed.

Lemma nn_succ_mod (n : Z) : 0 <= n < NN_MAX_CLIENT -> nn_succ n = (n + 1) mod NN_MAX_CLIENT.
Proof.
  intros H. unfold nn_succ, NN_MAX_CLIENT in *. rewrite u32_small by lia.
  destruct (Z.eqb_spec (n + 1) 262144) as [->|D]; [done|]. symmetry. apply Z.mod_small. lia.
Qed.

Lemma nn_succ_bounds (n : Z) : 0 <= n < NN_MAX_CLIENT -> 0 <= nn_succ n < NN_MAX_CLIENT.
Proof. intros H. rewrite nn_succ_mod by done. by apply Z.mod_pos_bound. Qed.

Lemma ca_get_in (a : carray) (i : Z) :
  0 <= i < ca_size a -> ca_get a i = Ok (ca_slots a !! i).
Proof. intros H. unfold ca_get. destruct (Z.leb_spec 0 i), (Z.ltb_spec i (ca_size a)); (done || lia). Qed.

Lemma ca_set_in (a : carray) (i : Z) (v : option cid) :
  0 <= i < ca_size a -> exists a', ca_set a i v = Ok a' /\ ca_size a' = ca_size a /\
    forall j, ca_slots a' !! j = if decide (i = j) then v else ca_slots a !! j.
Proof.
  intros H. unfold ca_set. destruct (Z.leb_spec 0 i), (Z.ltb_spec i (ca_size a)); try lia.
  eexists. split; [reflexivity|]. split; [done|]. intros j. cbn [ca_slots].
  destruct v; [by rewrite lookup_insert|by rewrite lookup_delete].
Qed.

(** A client array as [SetYXXCapacity] and [SetServerYXX] allocate it. *)
Definition serv_ok (s : serv) (k : Z) : Prop :=
  0 <= k <= 18 /\ nn_mask s = 2 ^ k - 1 /\ ca_size (client_list s) = 2 ^ k.

Lemma serv_ok_index (s : serv) (k n : Z) :
  serv_ok s k -> 0 <= Z.land n (nn_mask s) < ca_size (client_list s) /\
  Z.land n (nn_mask s) = n mod 2 ^ k.
Proof.
  intros (Hk & -> & ->). rewrite land_mask by lia. split; [|done].
  apply Z.mod_pos_bound, pow2_pos. lia.
Qed.

Definition slot_free (s : serv) (i : Z) : Prop := ca_slots (client_list s) !! i = None.

Lemma mod_max_pow (x k : Z) : 0 <= k <= 18 -> (x mod NN_MAX_CLIENT) mod 2 ^ k = x mod 2 ^ k.
Proof.
  intros Hk. pose proof (pow2_pos k ltac:(lia)). pose proof (pow2_pos (18 - k) ltac:(lia)).
  unfold NN_MAX_CLIENT. change 262144 with (2 ^ 18).
  replace (2 ^ 18) with (2 ^ k * 2 ^ (18 - k)) by (rewrite <- Z.pow_add_r by lia; f_equal; lia).
  rewrite Z.rem_mul_r by lia. rewrite Z.mul_comm, Z.mod_add by lia. by rewrite Z.mod_mod by lia.
Qed.

(** The search tries consecutive numerics: it stops at the first free slot among
    [tries] of them, or has seen that there is none. *)
Lemma find_free_spec (s : serv) (k : Z) (tries : nat) (n : Z) :
  serv_ok s k -> 0 <= n < NN_MAX_CLIENT -> (0 < tries)%nat ->
  exists n' found, find_free tries (client_list s) (nn_mask s) n = Ok (n', found) /\
    0 <= n' < NN_MAX_CLIENT /\
    if found then slot_free s (n' mod 2 ^ k)
    else forall j, 0 <= j < Z.of_nat tries -> ~ slot_free s ((n + j) mod 2 ^ k).
Proof.
  intros S. revert n. induction tries as [|tries IH]; intros n Hn Ht; [lia|]. cbn [find_free].
  destruct (serv_ok_index s k n S) as [Bi Ei]. rewrite ca_get_in by done. cbn [obind]. rewrite Ei.
  destruct (ca_slots (client_list s) !! (n mod 2 ^ k)) as [c|] eqn:E; [|exists n, true; auto].
  destruct tries as [|tries].
  { exists n, false. split; [done|]. split; [done|]. intros j Hj. replace j with 0 by lia.
    rewrite Z.add_0_r. unfold slot_free. by rewrite E. }
  destruct (IH (nn_succ n)) as (n' & found & F & B & R); [by apply nn_succ_bounds|lia|].
  exists n', found. split; [exact F|]. split; [done|]. destruct found; [done|]. intros j Hj.
  destruct (Z.eq_dec j 0) as [->|D]; [rewrite Z.add_0_r; unfold slot_free; by rewrite E|].
  specialize (R (j - 1) ltac:(lia)). rewrite nn_succ_mod in R by done.
  destruct S as (Hk & _). pose proof (pow2_pos k ltac:(lia)). rewrite Z.add_mod, mod_max_pow, <- Z.add_mod in R by lia.
  by replace (n + 1 + (j - 1)) with (n + j) in R by lia.
Qed.

Definition local_server (st : nn) (k : Z) (s : serv) : Prop :=
  serv_ok s k /\ 0 <= last_nn st < NN_MAX_CLIENT /\
  exists y us, clients st !! me st = Some (Client y (Some s) us).

Lemma find_free_full (s : serv) (k n : Z) :
  serv_ok s k ->
  (forall j, 0 <= j < NN_MAX_CLIENT -> ~ slot_free s ((n + j) mod 2 ^ k)) ->
  forall i, 0 <= i < 2 ^ k -> ~ slot_free s i.
Proof.
  intros (Hk & _) H i Hi. pose proof (pow2_pos k ltac:(lia)). specialize (H ((i - n) mod 2 ^ k)).
  pose proof (Z.mod_pos_bound (i - n) (2 ^ k) ltac:(lia)).
  pose proof (Z.pow_le_mono_r 2 k 18 ltac:(lia) ltac:(lia)).
  rewrite Z.add_mod_idemp_r in H by lia. replace (n + (i - n)) with i in H by lia.
  rewrite (Z.mod_small i) in H by lia. apply H. unfold NN_MAX_CLIENT. lia.
Qed.

Lemma client_at_spec (st : nn) (c : cid) (y : list ascii) (s : serv) us (k v : Z) :
  clients st !! c = Some (Client y (Some s) us) -> serv_ok s k -> 0 <= v < NN_MAX_CLIENT ->
  client_at st c (inttobase64 v 3) = Ok (ca_slots (client_list s) !! (v mod 2 ^ k)).
Proof.
  intros Hc S Hv. unfold client_at, deref_serv, deref_client. rewrite Hc. cbn [obind cli_serv].
  rewrite base64_decode by (unfold NN_MAX_CLIENT in *; lia). cbn [obind].
  rewrite Z.mod_small by (unfold NN_MAX_CLIENT in *; change (64 ^ Z.of_nat 3) with 262144; lia).
  destruct (serv_ok_index s k v S) as [B E]. by rewrite ca_get_in, E by done.
Qed.

(** The state [SetLocalNumNick] leaves when it found slot [n] free. *)
Lemma SetLocalNumNick_found (st : nn) (cptr : cid) (kc : client) (k n : Z) (s : serv) y us :
  serv_ok s k -> clients st !! me st = Some (Client y (Some s) us) ->
  clients st !! cptr = Some kc -> cptr <> me st ->
  find_free (Z.to_nat NN_MAX_CLIENT) (client_list s) (nn_mask s) (last_nn st) = Ok (n, true) ->
  exists st' a, SetLocalNumNick st cptr = Ok (st', 1) /\ last_nn st' = nn_succ n /\
    me st' = me st /\ server_list st' = server_list st /\
    (cli_yxx <$> clients st' !! cptr) = Some (inttobase64 n 3) /\
    clients st' !! me st = Some (Client y (Some (Serv (nn_capacity s) (nn_mask s) a)) us) /\
    serv_ok (Serv (nn_capacity s) (nn_mask s) a) k /\
    forall j, ca_slots a !! j =
      if decide (n mod 2 ^ k = j) then Some cptr else ca_slots (client_list s) !! j.
Proof.
  intros S Hme Hc NE F. destruct (serv_ok_index s k n S) as [Bi Ei].
  unfold SetLocalNumNick, deref_serv, deref_client. rewrite Hme. cbn [obind cli_serv]. rewrite F.
  cbn [obind]. rewrite Ei in *.
  destruct (ca_set_in (client_list s) (n mod 2 ^ k) (Some cptr) Bi) as (a & -> & Sa & Ga).
  cbn [obind]. unfold put_serv, put_yxx, deref_client. rewrite Hme.
  cbn [obind clients put_client set_clients cli_yxx user_server].
  rewrite lookup_insert_ne by done. rewrite Hc. cbn [obind cli_serv user_server].
  eexists _, a. split; [reflexivity|]. cbn [last_nn me server_list clients set_last_nn put_client set_clients].
  do 3 (split; [done|]). split; [by rewrite lookup_insert_eq|].
  split; [rewrite lookup_insert_ne by done; by rewrite lookup_insert_eq|].
  split; [|done]. destruct S as (? & ? & ?). split; [done|]. cbn. split; [done|congruence].
Qed.

(** [SetLocalNumNick] hands out a numeric exactly when one is free.  If some slot
    of our client array is free it returns 1, the slot it took was free, the new
    client is found under its own numeric, and no other numeric changes meaning; if
    every slot is taken it returns 0 and the clients are untouched. *)
Theorem SetLocalNumNick_spec (st : nn) (cptr : cid) (kc : client) (k : Z) (s : serv) :
  local_server st k s -> clients st !! cptr = Some kc -> cptr <> me st ->
  exists st' r, SetLocalNumNick st cptr = Ok (st', r) /\ 0 <= last_nn st' < NN_MAX_CLIENT /\
    server_list st' = server_list st /\
    ((exists i, 0 <= i < 2 ^ k /\ slot_free s i) ->
       r = 1 /\ exists n, 0 <= n < NN_MAX_CLIENT /\ slot_free s (n mod 2 ^ k) /\
         (cli_yxx <$> clients st' !! cptr) = Some (inttobase64 n 3) /\
         client_at st' (me st) (inttobase64 n 3) = Ok (Some cptr) /\
         forall v, 0 <= v < NN_MAX_CLIENT -> v mod 2 ^ k <> n mod 2 ^ k ->
           client_at st' (me st) (inttobase64 v 3) = client_at st (me st) (inttobase64 v 3)) /\
    ((forall i, 0 <= i < 2 ^ k -> ~ slot_free s i) -> r = 0 /\ clients st' = clients st).
Proof.
  intros (S & Bn & y & us & Hme) Hc NE. pose proof S as (Hk & Em & Es).
  destruct (find_free_spec s k (Z.to_nat NN_MAX_CLIENT) (last_nn st) S Bn
    ltac:(unfold NN_MAX_CLIENT; lia)) as (n & found & F & B & R).
  rewrite Z2Nat.id in R by (unfold NN_MAX_CLIENT; lia). destruct found.
  - destruct (SetLocalNumNick_found st cptr kc k n s y us S Hme Hc NE F)
      as (st' & a & E & El & Em' & Esl & Ey & Eme & S' & Ga).
    exists st', 1. rewrite E, El. split; [done|]. split; [by apply nn_succ_bounds|]. split; [done|].
    split.
    + intros _. split; [done|]. exists n. do 3 (split; [done|]).
      rewrite (client_at_spec st' (me st) y _ us k n Eme S' B). cbn [client_list]. split.
      * rewrite Ga. by rewrite decide_True.
      * intros v Hv D. rewrite (client_at_spec st' _ y _ us k v Eme S' Hv).
        rewrite (client_at_spec st _ y _ us k v Hme S Hv). cbn [client_list].
        rewrite Ga. by rewrite decide_False by done.
    + intros Full. destruct (Full (n mod 2 ^ k)); [|done]. apply Z.mod_pos_bound, pow2_pos. lia.
  - pose proof (find_free_full s k _ S R) as Full. exists (set_last_nn st n), 0.
    unfold SetLocalNumNick, deref_serv, deref_client. rewrite Hme. cbn [obind cli_serv]. rewrite F.
    do 3 (split; [done|]). split; [|done]. intros (i & Hi & Fi). by destruct (Full i Hi).
Qed.

(** A server with four client numerics, one of them in use. *)
Definition ex_serv : serv := Serv (cstr "AAD") 3 (CArray 4 {[ 1 := 9%positive ]}).
Definition ex_nn : nn :=
  NN (<[1%positive := Client (cstr "AB") (Some ex_serv) None]>
      (<[5%positive := Client [] None (Some 1%positive)]> ∅))
     (ca_calloc 4096) 0 1 1%positive.

Lemma SetLocalNumNick_spec_witness :
  exists st' r, SetLocalNumNick ex_nn 5%positive = Ok (st', r) /\ r = 1.
Proof.
  destruct (SetLocalNumNick_spec ex_nn 5%positive (Client [] None (Some 1%positive)) 2 ex_serv)
    as (st' & r & E & _ & _ & H & _).
  - split; [|split; [cbn; unfold NN_MAX_CLIENT; lia|by exists (cstr "AB"), None]].
    split; [lia|]. split; reflexivity.
  - reflexivity.
  - discriminate.
  - exists st', r. split; [done|]. apply H. exists 0. split; [lia|reflexivity].
Defined.

End Table.
