(* ===== verification/DBuf.v ===== *)
(** * Dynamic buffers: [ircd/dbuf.c]

    A [struct DBuf] is a byte queue kept as a chain of 2048-byte buffers drawn from a
    global pool.  The chain is a list ([head] first, [tail] last); a buffer carries
    its [start] offset and the bytes stored up to [end] (what lies beyond [end] is
    never read).  [contents] is the byte queue a DBuf stands for: the theorems show
    that every operation is the corresponding operation on that queue, wherever the
    buffer boundaries fall, and that the pool's counters stay exact. *)

From stdpp Require Import base list strings.
From Stdlib Require Import ZArith Lia Ascii.
From S2P Require Import Prelude Chattr.

Local Open Scope ircu_scope.

Definition DBUF_SIZE : nat := 2048.

(** [db_end] is [length db_data]. *)
Record DBufBuffer : Type := DBufBuf { db_start : nat; db_data : list ascii }.

Definition db_end (db : DBufBuffer) : nat := length (db_data db).
Definition live (db : DBufBuffer) : list ascii := drop (db_start db) (db_data db).
Definition db_len (db : DBufBuffer) : nat := db_end db - db_start db.

Record DBuf : Type := MkDBuf { dyn_length : Z; dyn_bufs : list DBufBuffer }.

Definition dbuf_empty : DBuf := MkDBuf 0 [].

(** The globals [DBufAllocCount], [DBufUsedCount] and the length of [dbufFreeList]. *)
Record pool : Type := Pool { DBufAllocCount : Z; DBufUsedCount : Z; dbufFreeList : nat }.

(** ** The code *)
Section Code.
(** [feature_int(FEAT_BUFFERPOOL)] and [feature_bool(FEAT_HAS_FERGUSON_FLUSHER)];
    [flush_connections(0)] of ircd/send.c as it acts on the pool. *)
Context (BUFFERPOOL : Z) (FERGUSON_FLUSHER : bool) (flush_connections : pool -> pool).

Definition dbuf_alloc (p : pool) : pool * bool :=
  match dbufFreeList p with
  | S n => (Pool (DBufAllocCount p) (DBufUsedCount p + 1) n, true)
  | O =>
      if (DBufAllocCount p * Z.of_nat DBUF_SIZE <? BUFFERPOOL)%Z then
        (Pool (DBufAllocCount p + 1) (DBufUsedCount p + 1) O, true)
      else (p, false)
  end.

Definition dbuf_free (p : pool) : pool :=
  Pool (DBufAllocCount p) (DBufUsedCount p - 1) (S (dbufFreeList p)).

Fixpoint free_chain (p : pool) (bufs : list DBufBuffer) : pool :=
  match bufs with
  | [] => p
  | _ :: bufs' => free_chain (dbuf_free p) bufs'
  end.

Definition dbuf_malloc_error (p : pool) (bufs : list DBufBuffer) : pool * DBuf * bool :=
  (free_chain p bufs, dbuf_empty, false).

(** [dbuf_alloc], with the flusher's second chance. *)
Definition alloc_or_flush (p : pool) : pool * bool :=
  let '(p, ok) := dbuf_alloc p in
  if ok then (p, true)
  else if FERGUSON_FLUSHER then dbuf_alloc (flush_connections p)
  else (p, false).

(** The [for] of [dbuf_put]: [before] is the chain in front of [*h], [chain] the
    chain from [*h] on.  [inr] is the [dbuf_malloc_error] exit, with the buffers to
    free.  One iteration per buffer, so [S (length buf)] of them are enough. *)
Fixpoint put_loop (fuel : nat) (p : pool) (before chain : list DBufBuffer) (buf : list ascii)
    : outcome (pool * (list DBufBuffer + list DBufBuffer)) :=
  match fuel with
  | O => Fuel
  | S fuel =>
      match buf with
      | [] => Ok (p, inl (before ++ chain))
      | _ =>
          let fill (p : pool) (db : DBufBuffer) (rest : list DBufBuffer) :=
            let chunk := Nat.min (DBUF_SIZE - db_end db) (length buf) in
            let db := DBufBuf (db_start db) (db_data db ++ take chunk buf) in
            put_loop fuel p (before ++ [db]) rest (drop chunk buf) in
          match chain with
          | db :: rest => fill p db rest
          | [] =>
              let '(p, ok) := alloc_or_flush p in
              if ok then fill p (DBufBuf 0 []) []
              else Ok (p, inr before)
          end
      end
  end.

(** Start at [head] when the buffer is empty, at [tail] otherwise. *)
Definition put_at (d : DBuf) : list DBufBuffer * list DBufBuffer :=
  if (dyn_length d =? 0)%Z then ([], dyn_bufs d)
  else match reverse (dyn_bufs d) with
       | [] => ([], [])
       | t :: front => (reverse front, [t])
       end.

Definition dbuf_put (p : pool) (d : DBuf) (buf : list ascii) : outcome (pool * DBuf * bool) :=
  let '(before, chain) := put_at d in
  let len := u32 (dyn_length d + Z.of_nat (length buf)) in
  let* (p, r) := put_loop (S (S (length buf))) p before chain buf in
  match r with
  | inl bufs => Ok (p, MkDBuf len bufs, true)
  | inr bufs => Ok (dbuf_malloc_error p bufs)
  end.
End Code.

(** [dbuf_map]: the first block and its length. *)
Definition dbuf_map (d : DBuf) : outcome (option (list ascii)) :=
  if (dyn_length d =? 0)%Z then Ok None
  else match dyn_bufs d with
       | [] => Oob
       | db :: _ => Ok (Some (live db))
       end.

(** The [while] of [dbuf_delete]; an emptied buffer goes back to the pool, and a
    buffer that keeps bytes has taken all that was left to delete. *)
Fixpoint delete_loop (p : pool) (len : Z) (bufs : list DBufBuffer) (n : nat)
    : pool * Z * list DBufBuffer :=
  match n with
  | O => (p, len, bufs)
  | _ =>
      match bufs with
      | [] => (p, len, bufs)
      | db :: rest =>
          let chunk := Nat.min (db_len db) n in
          let len := u32 (len - Z.of_nat chunk) in
          let db := DBufBuf (db_start db + chunk) (db_data db) in
          if db_start db =? db_end db then delete_loop (dbuf_free p) len rest (n - chunk)
          else (p, len, db :: rest)
      end
  end.

Definition dbuf_delete (p : pool) (d : DBuf) (n : nat) : pool * DBuf :=
  let n := if (dyn_length d <? Z.of_nat n)%Z then Z.to_nat (dyn_length d) else n in
  let '(p, len, bufs) := delete_loop p (dyn_length d) (dyn_bufs d) n in
  match bufs with
  | [] => (p, dbuf_empty)
  | _ => (p, MkDBuf len bufs)
  end.

(** [dbuf_get]: one block per iteration. *)
Fixpoint get_loop (fuel : nat) (p : pool) (d : DBuf) (n : nat) (out : list ascii)
    : outcome (pool * DBuf * list ascii) :=
  match fuel with
  | O => Fuel
  | S fuel =>
      match n with
      | O => Ok (p, d, out)
      | _ =>
          let* block := dbuf_map d in
          match block with
          | None => Ok (p, d, out)
          | Some b =>
              let chunk := Nat.min (length b) n in
              let '(p, d) := dbuf_delete p d chunk in
              get_loop fuel p d (n - chunk) (out ++ take chunk b)
          end
      end
  end.

Definition dbuf_get (p : pool) (d : DBuf) (n : nat) : outcome (pool * DBuf * list ascii) :=
  get_loop (S n) p d n [].

(** The [while] of [dbuf_flush] on the current buffer: drop line terminators. *)
Fixpoint flush_buf (l : list ascii) (k : nat) : nat :=
  match l with
  | c :: l' => if IsEol c then flush_buf l' (S k) else k
  | [] => k
  end.

Fixpoint flush_loop (p : pool) (len : Z) (bufs : list DBufBuffer) : pool * Z * list DBufBuffer :=
  match bufs with
  | [] => (p, 0%Z, [])
  | db :: rest =>
      let k := flush_buf (live db) 0 in
      if db_start db + k =? db_end db then
        match rest with
        | [] => (dbuf_free p, 0%Z, [])
        | _ => flush_loop (dbuf_free p) (u32 (len - Z.of_nat k)) rest
        end
      else (p, u32 (len - Z.of_nat k), DBufBuf (db_start db + k) (db_data db) :: rest)
  end.

Definition dbuf_flush (p : pool) (d : DBuf) : pool * DBuf :=
  match dyn_bufs d with
  | [] => (p, d)
  | bufs =>
      let '(p, len, bufs) := flush_loop p (dyn_length d) bufs in
      (p, MkDBuf len bufs)
  end.

(** The copying loop of [dbuf_getmsg]: the bytes copied when a terminator is met
    within [n] bytes, buffer by buffer. *)
Fixpoint take_line (l : list ascii) : list ascii * bool :=
  match l with
  | [] => ([], false)
  | c :: l' => if IsEol c then ([], true) else let '(r, b) := take_line l' in (c :: r, b)
  end.

Fixpoint getmsg_loop (bufs : list DBufBuffer) (n : nat) (copied : list ascii) : option (list ascii) :=
  match n with
  | O => None
  | _ =>
      match bufs with
      | [] => None
      | db :: rest =>
          let '(line, found) := take_line (take n (live db)) in
          if found then Some (copied ++ line)
          else getmsg_loop rest (n - length line) (copied ++ line)
      end
  end.

(** [dbuf_getmsg]: the line (its length is the C return value), or nothing. *)
Definition dbuf_getmsg (p : pool) (d : DBuf) (n : nat) : pool * DBuf * list ascii :=
  let '(p, d) := dbuf_flush p d in
  if (match dyn_bufs d with [] => true | _ => dyn_length d =? 0 end)%Z then (p, d, [])
  else
    let n := if (dyn_length d <? Z.of_nat n)%Z then Z.to_nat (dyn_length d) else n in
    match getmsg_loop (dyn_bufs d) n [] with
    | None => (p, d, [])
    | Some line =>
        let '(p, d) := dbuf_delete p d (length line) in
        let '(p, d) := dbuf_flush p d in
        (p, d, line)
    end.

(** [dbuf_flood_length]: the three variables of the scan. *)
Record flood_st : Type := Flood { flood : Z; at_line_start : bool; in_tags : bool }.

Definition flood_step (s : flood_st) (c : ascii) : flood_st :=
  if at_line_start s && (c =c "@") then Flood (flood s) false true
  else
    let tags := if at_line_start s then false else in_tags s in
    if tags then
      if c =c " " then Flood (flood s) false false
      else if IsEol c then Flood (flood s) true false
      else Flood (flood s) false true
    else Flood (u32 (flood s + 1)) (IsEol c) false.

Fixpoint flood_bufs (bufs : list DBufBuffer) (s : flood_st) : flood_st :=
  match bufs with
  | [] => s
  | db :: rest => flood_bufs rest (fold_left flood_step (live db) s)
  end.

Definition dbuf_flood_length (d : DBuf) : Z := flood (flood_bufs (dyn_bufs d) (Flood 0 true false)).

(** ** The byte queue a DBuf stands for *)
Definition bytes (bufs : list DBufBuffer) : list ascii := flat_map live bufs.
Definition contents (d : DBuf) : list ascii := bytes (dyn_bufs d).

Definition buf_ok (db : DBufBuffer) : Prop := db_start db < db_end db <= DBUF_SIZE.

(** Every buffer of the chain holds data and [length] counts it. *)
Definition dbuf_ok (d : DBuf) : Prop :=
  Forall buf_ok (dyn_bufs d) /\ dyn_length d = Z.of_nat (length (contents d)) /\
  (dyn_length d < 2 ^ 32)%Z.

(** [n] buffers are in use, and what was allocated is in use or on the free list. *)
Definition pool_ok (p : pool) (n : nat) : Prop :=
  DBufUsedCount p = Z.of_nat n /\ DBufAllocCount p = (Z.of_nat n + Z.of_nat (dbufFreeList p))%Z.

(** Leading line terminators removed. *)
Fixpoint skip_eol (l : list ascii) : list ascii :=
  match l with
  | c :: l' => if IsEol c then skip_eol l' else l
  | [] => []
  end.

(** What [dbuf_getmsg] promises: the first line, if it ends within [n] bytes. *)
Definition spec_getmsg (q : list ascii) (n : nat) : list ascii * list ascii :=
  let q := skip_eol q in
  match take_line (take n q) with
  | (line, true) => (line, skip_eol (drop (length line) q))
  | (_, false) => ([], q)
  end.

(** ** Lemmas *)
Lemma bytes_app (a b : list DBufBuffer) : bytes (a ++ b) = bytes a ++ bytes b.
Proof. apply flat_map_app. Qed.

Lemma live_length (db : DBufBuffer) : length (live db) = db_len db.
Proof. unfold live, db_len, db_end. apply length_drop. Qed.

Lemma live_fill (db : DBufBuffer) (x : list ascii) :
  db_start db <= db_end db -> live (DBufBuf (db_start db) (db_data db ++ x)) = live db ++ x.
Proof. intros H. unfold live, db_end in *. cbn. by rewrite drop_app_le. Qed.

Lemma live_advance (db : DBufBuffer) (k : nat) :
  live (DBufBuf (db_start db + k) (db_data db)) = drop k (live db).
Proof. unfold live. cbn. by rewrite drop_drop. Qed.

Lemma dbuf_ok_nil (d : DBuf) : dbuf_ok d -> contents d = [] -> dyn_bufs d = [].
Proof.
  intros (F & _ & _) H. unfold contents in H. destruct (dyn_bufs d) as [|db bufs]; [done|].
  inversion_clear F as [|? ? B _]. cbn in H. apply app_eq_nil in H as [H _].
  apply (f_equal length) in H. rewrite live_length in H. unfold buf_ok, db_len in *. simpl in H. lia.
Qed.

Lemma dbuf_ok_zero (d : DBuf) : dbuf_ok d -> dyn_length d = 0%Z -> dyn_bufs d = [].
Proof.
  intros O Z0. apply (dbuf_ok_nil d O). destruct O as (_ & L & _). rewrite Z0 in L.
  destruct (contents d); [done|]. simpl in L. lia.
Qed.

Lemma free_chain_ok (p : pool) (bufs : list DBufBuffer) (m : nat) :
  pool_ok p (m + length bufs) -> pool_ok (free_chain p bufs) m.
Proof.
  revert p. induction bufs as [|db bufs IH]; intros p H; cbn [free_chain].
  { cbn in H. by rewrite Nat.add_0_r in H. }
  apply IH. destruct H as [U A]. split; cbn in *; lia.
Qed.

(** ** Appending *)
Section Put.
Context (BUFFERPOOL : Z) (FERGUSON_FLUSHER : bool) (flush_connections : pool -> pool).
(** Flushing send queues does not touch the buffers that are in use here. *)
Hypothesis flush_ok : forall p n, pool_ok p n -> pool_ok (flush_connections p) n.

Abbreviation put_loop := (put_loop BUFFERPOOL FERGUSON_FLUSHER flush_connections).
Abbreviation dbuf_put := (dbuf_put BUFFERPOOL FERGUSON_FLUSHER flush_connections).
Abbreviation alloc_or_flush := (alloc_or_flush BUFFERPOOL FERGUSON_FLUSHER flush_connections).

Lemma dbuf_alloc_ok (p p' : pool) (ok : bool) (n : nat) :
  pool_ok p n -> dbuf_alloc BUFFERPOOL p = (p', ok) -> pool_ok p' (if ok then S n else n).
Proof.
  intros [U A]. unfold dbuf_alloc. destruct p as [al us fl]. cbn in *.
  destruct fl; [case_if|]; intros E; inv E; split; cbn in *; lia.
Qed.

Lemma alloc_or_flush_ok (p p' : pool) (ok : bool) (n : nat) :
  pool_ok p n -> alloc_or_flush p = (p', ok) -> pool_ok p' (if ok then S n else n).
Proof.
  intros H. unfold DBuf.alloc_or_flush. destruct (dbuf_alloc BUFFERPOOL p) as [p1 [|]] eqn:E.
  - intros E'. inv E'. by eapply dbuf_alloc_ok in E.
  - eapply dbuf_alloc_ok in E; [|done]. destruct FERGUSON_FLUSHER; intros E'.
    + eapply dbuf_alloc_ok in E'; [exact E'|]. by apply flush_ok.
    + by inv E'.
Qed.

(** A buffer the loop may append to: the open tail of the chain, or a fresh one. *)
Definition open_buf (db : DBufBuffer) : Prop :=
  db_start db <= db_end db <= DBUF_SIZE /\ (db_start db < db_end db \/ db_data db = []).

Lemma fill_ok (db : DBufBuffer) (buf : list ascii) :
  open_buf db -> buf <> [] ->
  let chunk := Nat.min (DBUF_SIZE - db_end db) (length buf) in
  let db' := DBufBuf (db_start db) (db_data db ++ take chunk buf) in
  buf_ok db' /\ live db' = live db ++ take chunk buf /\ (db_data db = [] -> 0 < chunk).
Proof.
  intros ([H1 H2] & H3) NE chunk db'.
  assert (0 < length buf) by (destruct buf; [done|simpl; lia]).
  assert (db_data db = [] -> 0 < chunk) as Pos.
  { intros E. unfold chunk, db_end, DBUF_SIZE. rewrite E. cbn [length]. lia. }
  split; [|split; [by apply live_fill|exact Pos]].
  unfold buf_ok, db', db_end. cbn [db_start db_data]. rewrite length_app, length_take.
  fold (db_end db). assert (chunk <= DBUF_SIZE - db_end db /\ chunk <= length buf) by (unfold chunk; lia).
  destruct H3 as [H3|H3]; [lia|]. specialize (Pos H3). lia.
Qed.

(** What one run of the loop establishes. *)
Definition put_post (m : nat) (before chain : list DBufBuffer) (buf : list ascii)
    (r : pool * (list DBufBuffer + list DBufBuffer)) : Prop :=
  match r with
  | (p', inl bufs) =>
      Forall buf_ok bufs /\ bytes bufs = bytes before ++ bytes chain ++ buf /\
      pool_ok p' (m + length bufs)
  | (p', inr bufs) => pool_ok p' (m + length bufs)
  end.

Lemma put_loop_ok (m : nat) (fuel : nat) : forall (p : pool) (before chain : list DBufBuffer) (buf : list ascii),
  Forall buf_ok before -> Forall open_buf chain -> length chain <= 1 ->
  (buf = [] -> Forall buf_ok chain) ->
  pool_ok p (m + length before + length chain) -> length buf + length chain < fuel ->
  exists r, put_loop fuel p before chain buf = Ok r /\ put_post m before chain buf r.
Proof.
  induction fuel as [|fuel IH]; intros p before chain buf Fb Fc Lc Nc P Fu; [lia|].
  cbn [DBuf.put_loop]. destruct buf as [|c buf'] eqn:Eb.
  { eexists. split; [reflexivity|]. cbn. rewrite bytes_app, app_nil_r, length_app.
    split; [apply Forall_app; auto|]. split; [done|]. by rewrite Nat.add_assoc. }
  rewrite <- Eb in *. assert (buf <> []) as NE by (by rewrite Eb).
  assert (forall p db, open_buf db -> pool_ok p (m + S (length before)) ->
    (db_data db = [] \/ length chain = 1) ->
    exists r, put_loop fuel p (before ++ [DBufBuf (db_start db)
        (db_data db ++ take (Nat.min (DBUF_SIZE - db_end db) (length buf)) buf)]) []
        (drop (Nat.min (DBUF_SIZE - db_end db) (length buf)) buf) = Ok r /\
      put_post m before [db] buf r) as Fill.
  { intros p0 db Ho P0 Hd. destruct (fill_ok db buf Ho NE) as (B & Lv & Pos).
    set (chunk := Nat.min (DBUF_SIZE - db_end db) (length buf)) in *.
    set (db' := DBufBuf (db_start db) (db_data db ++ take chunk buf)) in *.
    destruct (IH p0 (before ++ [db']) [] (drop chunk buf)) as (r & E & Post); auto.
    - apply Forall_app. split; [done|]. by constructor.
    - rewrite length_app. cbn [length]. by rewrite Nat.add_0_r, Nat.add_1_r.
    - rewrite length_drop. cbn [length]. destruct Hd as [Hd|Hd]; [specialize (Pos Hd)|]; lia.
    - exists r. split; [done|]. destruct r as [p' [bufs|bufs]]; cbn in *; [|done].
      destruct Post as (F' & Bt & P'). split; [done|]. split; [|done].
      rewrite Bt, bytes_app. cbn. rewrite Lv, !app_nil_r, <- !(assoc_L (++)), take_drop. done. }
  destruct chain as [|db chain].
  - destruct (alloc_or_flush p) as [p' [|]] eqn:A; apply (alloc_or_flush_ok _ _ _ _ P) in A.
    + destruct (Fill p' (DBufBuf 0 [])) as (r & E & Post); auto.
      * split; [split; [done|unfold db_end, DBUF_SIZE; cbn; lia]|]. by right.
      * cbn [length] in A. by replace (m + S (length before)) with (S (m + length before + 0)) by lia.
      * exists r. split; [exact E|exact Post].
    + eexists. split; [reflexivity|]. cbn in *. by rewrite Nat.add_0_r in A.
  - destruct chain; [|simpl in Lc; lia]. inversion_clear Fc as [|? ? Ho _].
    cbn [length] in P. apply Fill; auto. by replace (m + S (length before)) with (m + length before + 1) by lia.
Qed.

Lemma put_at_ok (d : DBuf) (m : nat) :
  dbuf_ok d -> let '(before, chain) := put_at d in
  Forall buf_ok before /\ Forall open_buf chain /\ length chain <= 1 /\
  Forall buf_ok chain /\ dyn_bufs d = before ++ chain.
Proof.
  intros O. unfold put_at. destruct (Z.eqb_spec (dyn_length d) 0) as [Z0|NZ].
  { rewrite (dbuf_ok_zero d O Z0). repeat split; auto. }
  destruct O as (F & _ & _). destruct (reverse (dyn_bufs d)) as [|t front] eqn:R.
  { apply (f_equal reverse) in R. rewrite reverse_involutive in R. rewrite R. repeat split; auto. }
  assert (dyn_bufs d = reverse front ++ [t]) as E.
  { rewrite <- (reverse_involutive (dyn_bufs d)), R. by rewrite reverse_cons. }
  rewrite E in F. apply Forall_app in F as [Ff Ft].
  split; [done|]. split; [|split; [done|split; done]].
  inversion_clear Ft as [|? ? B _]. constructor; [|done]. unfold open_buf, buf_ok in *. split; [lia|]. left. lia.
Qed.

(** [dbuf_put] appends.  On a well-formed buffer it either stores all the bytes
    behind what was queued, whatever buffers they fall into, and keeps the counters of
    the pool exact; or it fails for lack of pool memory, and then the buffer is empty
    and everything it held is back in the pool. *)
Theorem dbuf_put_appends (p : pool) (d : DBuf) (buf : list ascii) (m : nat) :
  dbuf_ok d -> pool_ok p (m + length (dyn_bufs d)) ->
  (Z.of_nat (length (contents d) + length buf) < 2 ^ 32)%Z ->
  exists p' d' ok, dbuf_put p d buf = Ok (p', d', ok) /\ dbuf_ok d' /\
    pool_ok p' (m + length (dyn_bufs d')) /\
    if ok then contents d' = contents d ++ buf else contents d' = [].
Proof.
  intros O P B. pose proof (put_at_ok d m O) as H. unfold DBuf.dbuf_put.
  destruct (put_at d) as [before chain]. destruct H as (Fb & Fo & Lc & Fc & E).
  destruct (put_loop_ok m (S (S (length buf))) p before chain buf) as (r & -> & Post); auto; [|lia|].
  { by rewrite E, length_app, Nat.add_assoc in P. }
  destruct O as (_ & L & _). cbn [obind]. destruct r as [p' [bufs|bufs]]; cbn in Post.
  - destruct Post as (F' & Bt & P'). exists p', (MkDBuf (u32 (dyn_length d + Z.of_nat (length buf))) bufs), true.
    assert (bytes bufs = contents d ++ buf) as C.
    { unfold contents. by rewrite Bt, E, bytes_app, <- (assoc_L (++)). }
    split; [done|]. split; [|split; done]. unfold dbuf_ok, contents. cbn [dyn_bufs dyn_length].
    rewrite C, length_app, L, u32_small by lia. split; [done|]. lia.
  - unfold dbuf_malloc_error. exists (free_chain p' bufs), dbuf_empty, false. split; [done|].
    split; [|split; [|done]].
    + split; [constructor|]. split; [done|]. cbn. lia.
    + rewrite Nat.add_0_r. by apply free_chain_ok.
Qed.

(** ** Room

    How many bytes can still be stored: what is free in the last buffer of the queue, in
    the buffers of the free list and in those that may still be allocated. *)
Definition tail_room (bufs : list DBufBuffer) : nat :=
  match last bufs with Some db => DBUF_SIZE - db_end db | None => 0 end.
Definition pool_room (p : pool) : nat :=
  dbufFreeList p + Z.to_nat ((BUFFERPOOL + Z.of_nat DBUF_SIZE - 1) / Z.of_nat DBUF_SIZE - DBufAllocCount p).
Definition queue_room (p : pool) (d : DBuf) : nat := pool_room p * DBUF_SIZE + tail_room (dyn_bufs d).

Lemma dbuf_alloc_room (p : pool) : 0 < pool_room p ->
  exists p', alloc_or_flush p = (p', true) /\ S (pool_room p') = pool_room p.
Proof.
  unfold DBuf.alloc_or_flush, dbuf_alloc, pool_room. destruct p as [al us fl]. cbn. destruct fl as [|fl]; [|intros _; eexists; split; [done|cbn; lia]].
  change (Z.of_nat DBUF_SIZE) with 2048%Z. intros H.
  assert (al * 2048 <? BUFFERPOOL = true)%Z as ->.
  { apply Z.ltb_lt. assert (al < (BUFFERPOOL + 2048 - 1) / 2048)%Z by lia. Z.to_euclidean_division_equations. lia. }
  eexists. split; [reflexivity|]. cbn [dbufFreeList DBufAllocCount]. lia.
Qed.

Lemma put_loop_room (fuel : nat) : forall (p : pool) (before chain : list DBufBuffer) (buf : list ascii),
  Forall open_buf chain -> length chain <= 1 -> (chain = [] -> buf = [] \/ tail_room before = 0) ->
  length buf <= pool_room p * DBUF_SIZE + tail_room (before ++ chain) -> length buf + length chain < fuel ->
  exists p' bufs, put_loop fuel p before chain buf = Ok (p', inl bufs) /\
    pool_room p' * DBUF_SIZE + tail_room bufs + length buf = pool_room p * DBUF_SIZE + tail_room (before ++ chain).
Proof.
  induction fuel as [|fuel IH]; intros p before chain buf Fc Lc Te Le Fu; [lia|].
  cbn [DBuf.put_loop]. destruct buf as [|c buf'] eqn:Eb; [exists p, (before ++ chain); cbn [length]; split; [done|lia]|].
  rewrite <- Eb in *. assert (0 < length buf) by (rewrite Eb; cbn; lia).
  assert (forall p db, open_buf db -> (db_data db = [] \/ length chain = 1) -> length buf <= pool_room p * DBUF_SIZE + (DBUF_SIZE - db_end db) ->
    exists p' bufs, put_loop fuel p (before ++ [DBufBuf (db_start db) (db_data db ++ take (Nat.min (DBUF_SIZE - db_end db) (length buf)) buf)]) []
        (drop (Nat.min (DBUF_SIZE - db_end db) (length buf)) buf) = Ok (p', inl bufs) /\
      pool_room p' * DBUF_SIZE + tail_room bufs + length buf = pool_room p * DBUF_SIZE + (DBUF_SIZE - db_end db)) as Fill.
  { intros p0 db [[_ Ho] _] Hd Hl. set (chunk := Nat.min (DBUF_SIZE - db_end db) (length buf)).
    set (db' := DBufBuf (db_start db) (db_data db ++ take chunk buf)).
    assert (tail_room (before ++ [db']) = DBUF_SIZE - db_end db - chunk) as Tr.
    { unfold tail_room. rewrite last_snoc. unfold db', db_end. cbn [db_data]. rewrite length_app, length_take. fold (db_end db). unfold chunk. lia. }
    destruct (IH p0 (before ++ [db']) [] (drop chunk buf)) as (p' & bufs & E & A); [done|cbn; lia| | | |].
    - intros _. rewrite Tr. destruct (Nat.le_ge_cases (DBUF_SIZE - db_end db) (length buf)); [right|left; apply nil_length_inv; rewrite length_drop]; unfold chunk; lia.
    - rewrite app_nil_r, Tr, length_drop. unfold chunk. lia.
    - rewrite length_drop. cbn [length]. destruct Hd as [Hd|Hd]; [unfold chunk, db_end; rewrite Hd; cbn [length]; unfold DBUF_SIZE; lia|lia].
    - exists p', bufs. split; [done|]. rewrite app_nil_r, Tr, length_drop in A. unfold chunk in *. lia. }
  destruct chain as [|db chain].
  - destruct (Te eq_refl) as [->|T0]; [cbn in *; lia|]. rewrite app_nil_r in *. rewrite T0 in *.
    destruct (dbuf_alloc_room p) as (p' & -> & Pr); [destruct (pool_room p); [cbn in Le; lia|lia]|].
    destruct (Fill p' (DBufBuf 0 [])) as (p2 & bufs & E & A).
    + split; [split; [done|unfold db_end, DBUF_SIZE; cbn; lia]|by right].
    + by left.
    + cbn [db_end db_data length]. unfold db_end. cbn [db_data length]. rewrite <- Pr in Le. cbn [Nat.mul] in Le. lia.
    + exists p2, bufs. split; [exact E|]. unfold db_end in A. cbn [db_data length] in A. rewrite <- Pr. cbn [Nat.mul]. lia.
  - destruct chain; [|simpl in Lc; lia]. inversion_clear Fc as [|? ? Ho _].
    assert (tail_room (before ++ [db]) = DBUF_SIZE - db_end db) as Tr by (unfold tail_room; by rewrite last_snoc).
    rewrite Tr in *. apply Fill; auto.
Qed.

(** With room in the pool, [dbuf_put] succeeds and uses up just what it stores. *)
Lemma dbuf_put_room (p : pool) (d : DBuf) (buf : list ascii) :
  dbuf_ok d -> length buf <= queue_room p d ->
  exists p' d', dbuf_put p d buf = Ok (p', d', true) /\ queue_room p' d' + length buf = queue_room p d.
Proof.
  intros O Le. pose proof (put_at_ok d 0 O) as H. unfold DBuf.dbuf_put, queue_room in *.
  destruct (put_at d) as [before chain] eqn:Pa. destruct H as (Fb & Fo & Lc & Fc & E). rewrite E in *.
  destruct (put_loop_room (S (S (length buf))) p before chain buf) as (p' & bufs & -> & A); auto; [|lia|].
  - intros ->. right. unfold put_at in Pa. destruct (dyn_length d =? 0)%Z; [by injection Pa as <-|]. destruct (reverse (dyn_bufs d)) as [|t front]; by injection Pa as <-.
  - exists p', (MkDBuf (u32 (dyn_length d + Z.of_nat (length buf))) bufs). split; [done|exact A].
Qed.
End Put.

Lemma dbuf_put_appends_witness :
  exists p' d' ok, dbuf_put 4096 false id (Pool 0 0 0) dbuf_empty (cstr "NICK x") = Ok (p', d', ok) /\
    ok = true /\ contents d' = cstr "NICK x".
Proof.
  destruct (dbuf_put_appends 4096 false id (fun p n H => H) (Pool 0 0 0) dbuf_empty (cstr "NICK x") 0)
    as (p' & d' & ok & E & _ & _ & C).
  - split; [constructor|]. split; [reflexivity|]. cbn. lia.
  - split; reflexivity.
  - cbn. lia.
  - exists p', d', ok. split; [exact E|]. vm_compute in E. inversion E. subst. split; reflexivity.
Defined.

(** ** Removing bytes *)
Lemma delete_loop_ok (m : nat) : forall (bufs : list DBufBuffer) (p : pool) (len : Z) (n : nat),
  Forall buf_ok bufs -> pool_ok p (m + length bufs) ->
  len = Z.of_nat (length (bytes bufs)) -> (len < 2 ^ 32)%Z -> n <= length (bytes bufs) ->
  exists p' bufs', delete_loop p len bufs n = (p', Z.of_nat (length (bytes bufs')), bufs') /\
    Forall buf_ok bufs' /\ pool_ok p' (m + length bufs') /\ bytes bufs' = drop n (bytes bufs).
Proof.
  induction bufs as [|db bufs IH]; intros p len n F P L B N.
  { cbn in N. replace n with 0 by lia. exists p, []. cbn. rewrite L. repeat split; auto; apply P. }
  inversion_clear F as [|? ? Bd F'].
  destruct n as [|n']; [exists p, (db :: bufs); cbn [delete_loop]; rewrite L, drop_0; auto|].
  remember (S n') as n eqn:En. cbn [delete_loop]. rewrite En. rewrite <- En.
  assert (length (live db) = db_len db) as Ll by apply live_length.
  assert (0 < db_len db /\ db_start db + db_len db = db_end db) as [Pos Edge] by (unfold buf_ok, db_len in *; lia).
  assert (length (bytes (db :: bufs)) = db_len db + length (bytes bufs)) as LB
    by (cbn [bytes flat_map]; rewrite length_app, Ll; done).
  rewrite L, LB in *. rewrite u32_small by lia. cbn [db_start].
  unfold db_end at 1. cbn [db_data]. fold (db_end db).
  destruct (Nat.eqb_spec (db_start db + Nat.min (db_len db) n) (db_end db)) as [Full|Part].
  - assert (Nat.min (db_len db) n = db_len db) as -> by lia.
    destruct (IH (dbuf_free p) (Z.of_nat (db_len db + length (bytes bufs)) - Z.of_nat (db_len db))%Z (n - db_len db))
      as (p' & bufs' & E & F2 & P2 & C); auto; try lia.
    { destruct P as [U A]. split; cbn in *; lia. }
    exists p', bufs'. split; [done|]. split; [done|]. split; [done|].
    cbn [bytes flat_map]. rewrite C, drop_app_ge by lia. by rewrite Ll.
  - assert (Nat.min (db_len db) n = n) as -> by lia.
    exists p, (DBufBuf (db_start db + n) (db_data db) :: bufs).
    assert (bytes (DBufBuf (db_start db + n) (db_data db) :: bufs) = drop n (bytes (db :: bufs))) as C.
    { cbn [bytes flat_map]. rewrite live_advance, drop_app_le by lia. done. }
    rewrite C, length_drop, LB. split; [f_equal; f_equal; lia|].
    split; [|auto]. constructor; [|done]. unfold buf_ok, db_end in *. cbn. lia.
Qed.

Lemma dbuf_delete_ok (p : pool) (d : DBuf) (n m : nat) :
  dbuf_ok d -> pool_ok p (m + length (dyn_bufs d)) ->
  exists p' d', dbuf_delete p d n = (p', d') /\ dbuf_ok d' /\
    pool_ok p' (m + length (dyn_bufs d')) /\ contents d' = drop n (contents d).
Proof.
  intros (F & L & B) P. unfold dbuf_delete, contents in *.
  set (k := if (dyn_length d <? Z.of_nat n)%Z then Z.to_nat (dyn_length d) else n).
  assert (k <= length (bytes (dyn_bufs d)) /\ drop n (bytes (dyn_bufs d)) = drop k (bytes (dyn_bufs d)))
    as [Hk ->].
  { subst k. destruct (Z.ltb_spec (dyn_length d) (Z.of_nat n)); [|split; [lia|done]].
    rewrite L, Nat2Z.id. split; [lia|]. by rewrite !drop_ge by lia. }
  destruct (delete_loop_ok m (dyn_bufs d) p (dyn_length d) k F P L B Hk) as (p' & bufs' & -> & F' & P' & C).
  assert (length (bytes bufs') <= length (bytes (dyn_bufs d))) by (rewrite C, length_drop; lia).
  destruct bufs' as [|b bufs'].
  - exists p', dbuf_empty. split; [done|]. split; [|done]. split; [constructor|]. cbn. lia.
  - eexists p', _. split; [reflexivity|]. split; [|done]. split; [done|]. unfold contents. cbn [dyn_bufs dyn_length]. lia.
Qed.

Lemma get_loop_ok (m : nat) (fuel : nat) : forall (p : pool) (d : DBuf) (n : nat) (out : list ascii),
  dbuf_ok d -> pool_ok p (m + length (dyn_bufs d)) -> n < fuel ->
  exists p' d', get_loop fuel p d n out = Ok (p', d', out ++ take n (contents d)) /\ dbuf_ok d' /\
    pool_ok p' (m + length (dyn_bufs d')) /\ contents d' = drop n (contents d).
Proof.
  induction fuel as [|fuel IH]; intros p d n out O P Fu; [lia|]. cbn [get_loop].
  destruct n as [|n'].
  { exists p, d. rewrite take_0, drop_0, app_nil_r. auto. }
  remember (S n') as n eqn:En. unfold dbuf_map.
  destruct (Z.eqb_spec (dyn_length d) 0) as [Z0|NZ]; cbn [obind].
  { pose proof (dbuf_ok_zero d O Z0) as E. exists p, d. unfold contents. rewrite E. cbn.
    rewrite take_nil, drop_nil, app_nil_r. rewrite E in P. auto. }
  pose proof O as (F & L & B). destruct (dyn_bufs d) as [|db bufs] eqn:Ed.
  { destruct NZ. rewrite L. unfold contents. by rewrite Ed. }
  cbn [obind]. inversion_clear F as [|? ? Bd _]. rewrite live_length.
  assert (0 < db_len db) by (unfold buf_ok, db_len in *; lia).
  set (chunk := Nat.min (db_len db) n). rewrite <- Ed in P.
  destruct (dbuf_delete_ok p d chunk m O P) as (p1 & d1 & -> & O1 & P1 & C1).
  destruct (IH p1 d1 (n - chunk) (out ++ take chunk (live db))) as (p2 & d2 & E2 & O2 & P2 & C2); auto; [lia|].
  exists p2, d2. assert (chunk <= n /\ chunk <= length (live db)) as [? ?]
    by (rewrite live_length; unfold chunk; lia).
  assert (take chunk (live db) = take chunk (contents d)) as TC.
  { unfold contents. rewrite Ed. cbn [bytes flat_map]. by rewrite take_app_le by lia. }
  split; [rewrite E2, C1, TC, <- (assoc_L (++))|].
  - do 3 f_equal. rewrite <- (take_drop chunk (take n (contents d))).
    by rewrite take_take, Nat.min_l, take_drop_commute, Nat.add_sub_assoc, Nat.add_comm, Nat.add_sub by lia.
  - split; [done|]. split; [done|]. rewrite C2, C1, drop_drop. f_equal. lia.
Qed.

(** [dbuf_get] reads and removes exactly the first [n] bytes of the queue (all of
    it when fewer are stored), never reads outside a buffer, and returns emptied
    buffers to the pool. *)
Theorem dbuf_get_reads (p : pool) (d : DBuf) (n m : nat) :
  dbuf_ok d -> pool_ok p (m + length (dyn_bufs d)) ->
  exists p' d', dbuf_get p d n = Ok (p', d', take n (contents d)) /\ dbuf_ok d' /\
    pool_ok p' (m + length (dyn_bufs d')) /\ contents d' = drop n (contents d).
Proof. intros O P. apply (get_loop_ok m (S n) p d n []); auto. Qed.

(** Two buffers, the first partly consumed. *)
Definition ex_dbuf : DBuf :=
  MkDBuf 8 [DBufBuf 1 (cstr "xab"); DBufBuf 0 [ascii_of_nat 13; ascii_of_nat 10; "c"%char; "d"%char; "e"%char; ascii_of_nat 10]].

Lemma dbuf_get_reads_witness :
  exists p' d', dbuf_get (Pool 3 2 1) ex_dbuf 5 = Ok (p', d', take 5 (contents ex_dbuf)) /\ pool_ok p' 1.
Proof.
  destruct (dbuf_get_reads (Pool 3 2 1) ex_dbuf 5 0) as (p' & d' & E & _ & P & _).
  - split; [|split; [reflexivity|reflexivity]].
    repeat constructor; unfold DBUF_SIZE, db_end; cbn; lia.
  - split; reflexivity.
  - exists p', d'. split; [exact E|]. vm_compute in E. inversion E. subst. exact P.
Defined.

(** ** Lines *)
Lemma flush_buf_spec (l : list ascii) (k : nat) :
  exists j, flush_buf l k = k + j /\ j <= length l /\ skip_eol l = drop j l /\
    (j < length l -> skip_eol l <> []) /\ forall t, j = length l -> skip_eol (l ++ t) = skip_eol t.
Proof.
  revert k. induction l as [|c l IH]; intros k; cbn [flush_buf skip_eol].
  { exists 0. rewrite Nat.add_0_r. repeat split; auto. simpl. lia. }
  destruct (IsEol c) eqn:E.
  - destruct (IH (S k)) as (j & -> & L & Sk & N & T). exists (S j). cbn [length app skip_eol]. rewrite E.
    split; [lia|]. split; [lia|]. split; [done|]. split; [intros H; apply N; lia|].
    intros t H. apply T. lia.
  - exists 0. rewrite Nat.add_0_r. split; [done|]. split; [cbn; lia|]. split; [done|]. done.
Qed.

Lemma skip_eol_app (l t : list ascii) : skip_eol l <> [] -> skip_eol (l ++ t) = skip_eol l ++ t.
Proof. induction l as [|c l IH]; cbn; [done|]. destruct (IsEol c); auto. Qed.

Lemma skip_eol_length (l : list ascii) : length (skip_eol l) <= length l.
Proof. induction l as [|c l IH]; cbn; [lia|]. destruct (IsEol c); cbn; lia. Qed.

Lemma flush_loop_ok (m : nat) : forall (bufs : list DBufBuffer) (p : pool) (len : Z),
  Forall buf_ok bufs -> pool_ok p (m + length bufs) ->
  len = Z.of_nat (length (bytes bufs)) -> (len < 2 ^ 32)%Z ->
  exists p' bufs', flush_loop p len bufs = (p', Z.of_nat (length (bytes bufs')), bufs') /\
    Forall buf_ok bufs' /\ pool_ok p' (m + length bufs') /\ bytes bufs' = skip_eol (bytes bufs).
Proof.
  induction bufs as [|db bufs IH]; intros p len F P L B.
  { exists p, []. auto. }
  inversion_clear F as [|? ? Bd F']. cbn [flush_loop].
  destruct (flush_buf_spec (live db) 0) as (j & -> & Lj & Sj & Nj & Tj). cbn [Nat.add].
  pose proof (live_length db) as Ll. rewrite Ll in Lj, Nj, Tj.
  assert (0 < db_len db /\ db_start db + db_len db = db_end db) as [Pos Edge]
    by (unfold buf_ok, db_len in *; lia).
  assert (pool_ok (dbuf_free p) (m + length bufs)) as Pf.
  { destruct P as [U A]. split; cbn in *; lia. }
  assert (length (bytes (db :: bufs)) = db_len db + length (bytes bufs)) as LB
    by (cbn [bytes flat_map]; rewrite length_app, Ll; done).
  destruct (Nat.eqb_spec (db_start db + j) (db_end db)) as [Full|Part].
  - assert (j = db_len db) as -> by lia.
    assert (skip_eol (bytes (db :: bufs)) = skip_eol (bytes bufs)) as -> by (apply Tj; done).
    destruct bufs as [|b bufs]; [exists (dbuf_free p), []; auto|].
    destruct (IH (dbuf_free p) (u32 (len - Z.of_nat (db_len db)))) as (p' & bufs' & E & R);
      auto; try (rewrite u32_small by lia; lia). exists p', bufs'. auto.
  - exists p, (DBufBuf (db_start db + j) (db_data db) :: bufs).
    assert (bytes (DBufBuf (db_start db + j) (db_data db) :: bufs) = skip_eol (bytes (db :: bufs))) as C.
    { cbn [bytes flat_map]. rewrite skip_eol_app by (apply Nj; lia). by rewrite live_advance, Sj. }
    assert (length (bytes (DBufBuf (db_start db + j) (db_data db) :: bufs)) = length (bytes (db :: bufs)) - j) as LC.
    { rewrite LB. cbn [bytes flat_map]. rewrite length_app, live_advance, length_drop, Ll. fold (bytes bufs). lia. }
    rewrite LC, C. rewrite u32_small by lia. split; [f_equal; f_equal; lia|].
    split; [|auto]. constructor; [|done]. unfold buf_ok, db_end in *. cbn. lia.
Qed.

Lemma dbuf_flush_ok (p : pool) (d : DBuf) (m : nat) :
  dbuf_ok d -> pool_ok p (m + length (dyn_bufs d)) ->
  exists p' d', dbuf_flush p d = (p', d') /\ dbuf_ok d' /\
    pool_ok p' (m + length (dyn_bufs d')) /\ contents d' = skip_eol (contents d).
Proof.
  intros O P. pose proof O as (F & L & B). unfold dbuf_flush, contents in *.
  destruct (dyn_bufs d) as [|db bufs] eqn:E.
  { exists p, d. rewrite E. auto. }
  destruct (flush_loop_ok m (db :: bufs) p (dyn_length d) F P L B) as (p' & bufs' & -> & F' & P' & C).
  eexists p', _. split; [reflexivity|]. cbn [dyn_bufs]. split; [|done].
  split; [done|]. unfold contents. cbn [dyn_bufs dyn_length]. split; [done|].
  rewrite C. pose proof (skip_eol_length (bytes (db :: bufs))). lia.
Qed.

Lemma take_line_app (l t : list ascii) :
  take_line (l ++ t) =
    let '(r, b) := take_line l in if b then (r, true) else let '(r', b') := take_line t in (r ++ r', b').
Proof.
  induction l as [|c l IH]; cbn [take_line app]; [by destruct (take_line t)|].
  destruct (IsEol c); [done|]. rewrite IH. destruct (take_line l) as [r [|]]; [done|].
  by destruct (take_line t).
Qed.

Lemma take_line_none (l r : list ascii) : take_line l = (r, false) -> r = l.
Proof.
  revert r. induction l as [|c l IH]; intros r; cbn; [by inversion 1|].
  destruct (IsEol c); [done|]. destruct (take_line l) as [r' b]. intros H. inv H. f_equal. by apply IH.
Qed.

Lemma take_line_length (l r : list ascii) (b : bool) : take_line l = (r, b) -> length r <= length l.
Proof.
  revert r b. induction l as [|c l IH]; intros r b; cbn; [by inversion 1|].
  destruct (IsEol c); [inversion 1; cbn; lia|]. destruct (take_line l) as [r' b'] eqn:E.
  intros H. inv H. specialize (IH r' b eq_refl). cbn. lia.
Qed.

Lemma getmsg_loop_ok (bufs : list DBufBuffer) : forall (n : nat) (copied : list ascii),
  n <= length (bytes bufs) ->
  getmsg_loop bufs n copied =
    let '(line, found) := take_line (take n (bytes bufs)) in
    if found then Some (copied ++ line) else None.
Proof.
  induction bufs as [|db bufs IH]; intros n copied N.
  { cbn in *. by replace n with 0 by lia. }
  destruct n as [|n']; [done|]. remember (S n') as n eqn:En. cbn [getmsg_loop]. rewrite En, <- En.
  cbn [bytes flat_map]. fold (bytes bufs). rewrite take_app, take_line_app.
  destruct (take_line (take n (live db))) as [line [|]] eqn:T; [done|].
  apply take_line_none in T as ->. cbn [bytes flat_map] in N. rewrite length_app in N. fold (bytes bufs) in N.
  rewrite length_take. rewrite IH by lia.
  replace (n - Nat.min n (length (live db))) with (n - length (live db)) by lia.
  destruct (take_line (take (n - length (live db)) (bytes bufs))) as [line [|]]; [|done].
  by rewrite <- (assoc_L (++)).
Qed.

(** C13: [dbuf_getmsg] implements its line discipline on the byte queue: leading line
    terminators are dropped; if the first line ends within [n] bytes it is returned
    whole and removed together with the terminators that follow it, wherever buffers
    end; otherwise nothing is returned and nothing of the line is lost. *)
Theorem dbuf_getmsg_refines (p : pool) (d : DBuf) (n m : nat) :
  dbuf_ok d -> pool_ok p (m + length (dyn_bufs d)) ->
  exists p' d', dbuf_getmsg p d n = (p', d', fst (spec_getmsg (contents d) n)) /\ dbuf_ok d' /\
    pool_ok p' (m + length (dyn_bufs d')) /\ contents d' = snd (spec_getmsg (contents d) n).
Proof.
  intros O P. unfold dbuf_getmsg, spec_getmsg.
  destruct (dbuf_flush_ok p d m O P) as (p1 & d1 & -> & O1 & P1 & C1). rewrite <- C1.
  pose proof O1 as (F1 & L1 & B1). destruct (dyn_bufs d1) as [|db bufs] eqn:E1.
  { exists p1, d1. unfold contents. rewrite E1. cbn. rewrite take_nil. auto. }
  rewrite <- E1 in *. destruct (Z.eqb_spec (dyn_length d1) 0) as [Z0|NZ].
  { pose proof (dbuf_ok_zero d1 O1 Z0) as E2. congruence. }
  set (k := if (dyn_length d1 <? Z.of_nat n)%Z then Z.to_nat (dyn_length d1) else n).
  assert (k <= length (bytes (dyn_bufs d1)) /\ take n (contents d1) = take k (contents d1)) as [Hk ->].
  { subst k. unfold contents in *. destruct (Z.ltb_spec (dyn_length d1) (Z.of_nat n)); [|split; [lia|done]].
    rewrite L1, Nat2Z.id. split; [lia|]. by rewrite !take_ge by lia. }
  rewrite (getmsg_loop_ok _ k []) by done. fold (contents d1).
  destruct (take_line (take k (contents d1))) as [line [|]] eqn:T; [|by exists p1, d1].
  destruct (dbuf_delete_ok p1 d1 (length line) m O1 P1) as (p2 & d2 & E2 & O2 & P2 & C2).
  destruct (dbuf_flush_ok p2 d2 m O2 P2) as (p3 & d3 & E3 & O3 & P3 & C3).
  cbn [app]. rewrite E2, E3. exists p3, d3. split; [done|]. split; [done|]. split; [done|].
  cbn [snd]. by rewrite C3, C2.
Qed.

Lemma dbuf_getmsg_refines_witness :
  exists p' d', dbuf_getmsg (Pool 3 2 1) ex_dbuf 512 = (p', d', cstr "ab") /\ contents d' = cstr "cde" ++ [ascii_of_nat 10].
Proof.
  destruct (dbuf_getmsg_refines (Pool 3 2 1) ex_dbuf 512 0) as (p' & d' & E & _ & _ & C).
  - split; [|split; [reflexivity|reflexivity]].
    repeat constructor; unfold DBUF_SIZE, db_end; cbn; lia.
  - split; reflexivity.
  - exists p', d'. split; [exact E|exact C].
Defined.

(** The flood count of a byte sequence, with no buffers in it. *)
Definition flood_of (q : list ascii) : Z := flood (fold_left flood_step q (Flood 0 true false)).

(** The flood accounting does not see buffer boundaries: [dbuf_flood_length] of
    a chain is the count over the byte queue it stores, so a tag section or a line
    that straddles two buffers is charged like any other. *)
Theorem flood_length_boundaries (d : DBuf) : dbuf_flood_length d = flood_of (contents d).
Proof.
  unfold dbuf_flood_length, flood_of, contents. f_equal. generalize (Flood 0 true false).
  induction (dyn_bufs d) as [|db bufs IH]; intros s; [done|].
  cbn [flood_bufs bytes flat_map]. by rewrite IH, fold_left_app.
Qed.

Example flood_ex : flood_of (cstr "@label=x;y PING") = 4%Z.
Proof. reflexivity. Qed.
