(* ===== verification/MsgQ.v ===== *)
(** * Outbound message queues: [ircd/msgq.c]

    Messages are reference-counted buffers ([struct MsgBuf]) drawn from per-size pools
    and shared by the queues ([struct MsgQ]) of all their receivers; a queue has a
    normal and a priority list.  The heap of buffers is a map from addresses to
    records, a [struct Msg] is its [sent] count and the address of its buffer, and a
    list of the C code is a list here ([head] first, [tail] last).  The formatted text
    that [ircd_vsnprintf] produces is an argument. *)

From stdpp Require Import base list gmap strings.
From Stdlib Require Import ZArith Lia Ascii.
From S2P Require Import Prelude.

Local Open Scope Z_scope.
Local Open Scope ircu_scope.

Definition MB_BASE_SHIFT : Z := 5.
Definition MB_MAX_SHIFT : Z := 13.
Definition BUFSIZE : Z := 512.

Definition bid : Type := positive.

(** [prev_p] is only tested against [NULL]: [mb_linked] says it is set.  [mb_msg] is
    the text of the message, [mb_length] bytes. *)
Record MsgBuf : Type := MkBuf {
  mb_linked : bool;
  mb_real : option bid;
  mb_ref : Z;
  mb_power : Z;
  mb_msg : list ascii
}.

Definition mb_length (mb : MsgBuf) : Z := Z.of_nat (length (mb_msg mb)).
Definition bufsize (mb : MsgBuf) : Z := Z.shiftl 1 (mb_power mb).

Record Msg : Type := MkMsg { sent : Z; msg : bid }.
Record MsgQ : Type := MkQ { mq_length : Z; mq_count : Z; queue : list Msg; prio : list Msg }.

Record bucket : Type := Bucket { b_alloc : Z; b_used : Z; b_free : list bid }.

(** [MQData], with the heap its pointers point into and the next unused address. *)
Record MQ : Type := MkMQ {
  heap : gmap bid MsgBuf;
  msglist : list bid;
  msgs_alloc : Z;
  msgs_used : Z;
  msgs_free : nat;
  tot_bufsize : Z;
  msgBufs : gmap Z bucket;
  sizes_msgs : Z;
  sizes : gmap Z Z;
  brk : bid
}.

Definition set_heap (g : MQ) (h : gmap bid MsgBuf) : MQ :=
  MkMQ h (msglist g) (msgs_alloc g) (msgs_used g) (msgs_free g) (tot_bufsize g) (msgBufs g)
    (sizes_msgs g) (sizes g) (brk g).
Definition set_msglist (g : MQ) (l : list bid) : MQ :=
  MkMQ (heap g) l (msgs_alloc g) (msgs_used g) (msgs_free g) (tot_bufsize g) (msgBufs g)
    (sizes_msgs g) (sizes g) (brk g).
Definition set_msgs (g : MQ) (al us : Z) (fr : nat) : MQ :=
  MkMQ (heap g) (msglist g) al us fr (tot_bufsize g) (msgBufs g) (sizes_msgs g) (sizes g) (brk g).
Definition set_bucket (g : MQ) (i : Z) (b : bucket) : MQ :=
  MkMQ (heap g) (msglist g) (msgs_alloc g) (msgs_used g) (msgs_free g) (tot_bufsize g)
    (<[i := b]> (msgBufs g)) (sizes_msgs g) (sizes g) (brk g).
Definition set_tot (g : MQ) (t : Z) : MQ :=
  MkMQ (heap g) (msglist g) (msgs_alloc g) (msgs_used g) (msgs_free g) t (msgBufs g)
    (sizes_msgs g) (sizes g) (brk g).
Definition set_sizes (g : MQ) (n : Z) (s : gmap Z Z) : MQ :=
  MkMQ (heap g) (msglist g) (msgs_alloc g) (msgs_used g) (msgs_free g) (tot_bufsize g) (msgBufs g)
    n s (brk g).
Definition set_brk (g : MQ) (b : bid) : MQ :=
  MkMQ (heap g) (msglist g) (msgs_alloc g) (msgs_used g) (msgs_free g) (tot_bufsize g) (msgBufs g)
    (sizes_msgs g) (sizes g) b.

Definition with_ref (mb : MsgBuf) (r : Z) : MsgBuf :=
  MkBuf (mb_linked mb) (mb_real mb) r (mb_power mb) (mb_msg mb).
Definition with_real (mb : MsgBuf) (r : option bid) : MsgBuf :=
  MkBuf (mb_linked mb) r (mb_ref mb) (mb_power mb) (mb_msg mb).
Definition with_linked (mb : MsgBuf) (l : bool) : MsgBuf :=
  MkBuf l (mb_real mb) (mb_ref mb) (mb_power mb) (mb_msg mb).
Definition with_msg (mb : MsgBuf) (t : list ascii) : MsgBuf :=
  MkBuf (mb_linked mb) (mb_real mb) (mb_ref mb) (mb_power mb) t.

Definition load (g : MQ) (b : bid) : outcome MsgBuf :=
  match heap g !! b with Some mb => Ok mb | None => Oob end.
Definition store (g : MQ) (b : bid) (mb : MsgBuf) : MQ := set_heap g (<[b := mb]> (heap g)).

Definition empty_bucket : bucket := Bucket 0 0 [].
Definition bucket_at (g : MQ) (power : Z) : bucket :=
  default empty_bucket (msgBufs g !! (power - MB_BASE_SHIFT)).

(** ** The code *)

(** [msgq_clean]; the recursion follows [mb->real]. *)
Fixpoint clean_loop (fuel : nat) (g : MQ) (b : bid) : outcome MQ :=
  match fuel with
  | O => Fuel
  | S fuel =>
      let* mb := load g b in
      let mb := with_ref mb (u32 (mb_ref mb - 1)) in
      let g := store g b mb in
      if mb_ref mb =? 0 then
        let g := if mb_linked mb then set_msglist g (filter (fun x => x <> b) (msglist g)) else g in
        let* g := match mb_real mb with
                  | Some r => if Pos.eqb r b then Ok g else clean_loop fuel g r
                  | None => Ok g
                  end in
        let k := bucket_at g (mb_power mb) in
        let g := set_bucket g (mb_power mb - MB_BASE_SHIFT)
                   (Bucket (b_alloc k) (b_used k - 1) (b :: b_free k)) in
        let* mb := load g b in
        Ok (store g b (with_linked mb false))
      else Ok g
  end.

(** A buffer's [real] is never itself a stand-in for another, so two levels do. *)
Definition msgq_clean (g : MQ) (b : bid) : outcome MQ := clean_loop 3 g b.

Inductive which : Type := Normal | Prio.

Definition qlist (mq : MsgQ) (w : which) : list Msg :=
  match w with Normal => queue mq | Prio => prio mq end.
Definition set_qlist (mq : MsgQ) (w : which) (l : list Msg) : MsgQ :=
  match w with
  | Normal => MkQ (mq_length mq) (mq_count mq) l (prio mq)
  | Prio => MkQ (mq_length mq) (mq_count mq) (queue mq) l
  end.

(** [msgq_delmsg]: returns the bytes still to remove. *)
Definition msgq_delmsg (g : MQ) (mq : MsgQ) (w : which) (len : Z) : outcome (MQ * MsgQ * Z) :=
  match qlist mq w with
  | [] => Oob
  | m :: rest =>
      let* mb := load g (msg m) in
      let msglen := u32 (mb_length mb - sent m) in
      if msglen <=? len then
        let* g := msgq_clean g (msg m) in
        let mq := MkQ (u32 (mq_length mq - msglen)) (u32 (mq_count mq - 1)) (queue mq) (prio mq) in
        let g := set_msgs g (msgs_alloc g) (msgs_used g - 1) (S (msgs_free g)) in
        Ok (g, set_qlist mq w rest, len - msglen)
      else
        let mq := MkQ (u32 (mq_length mq - len)) (mq_count mq) (queue mq) (prio mq) in
        Ok (g, set_qlist mq w (MkMsg (u32 (sent m + len)) (msg m) :: rest), 0)
  end.

Definition msgq_init : MsgQ := MkQ 0 0 [] [].

(** The list the next byte to send is on. *)
Definition next_list (mq : MsgQ) : option which :=
  match queue mq with
  | m :: _ =>
      if 0 <? sent m then Some Normal
      else match prio mq with _ :: _ => Some Prio | [] => Some Normal end
  | [] => match prio mq with _ :: _ => Some Prio | [] => None end
  end.

Fixpoint delete_loop (fuel : nat) (g : MQ) (mq : MsgQ) (len : Z) : outcome (MQ * MsgQ) :=
  match fuel with
  | O => Fuel
  | S fuel =>
      if 0 <? len then
        match next_list mq with
        | None => Ok (g, mq)
        | Some w =>
            let* (gq, len) := msgq_delmsg g mq w len in
            let '(g, mq) := gq in
            delete_loop fuel g mq len
        end
      else Ok (g, mq)
  end.

(** Each pass but the last removes a message. *)
Definition msgq_delete (g : MQ) (mq : MsgQ) (len : Z) : outcome (MQ * MsgQ) :=
  delete_loop (S (S (length (queue mq) + length (prio mq)))) g mq len.

(** [msgq_mapiov]: the I/O vector, each entry the bytes [iov_base]/[iov_len] cover.
    Entries are filled in this order until [count] runs out. *)
Definition iov_of (g : MQ) (m : Msg) : outcome (list ascii) :=
  let* mb := load g (msg m) in Ok (drop (Z.to_nat (sent m)) (mb_msg mb)).
Definition iov_whole (g : MQ) (m : Msg) : outcome (list ascii) :=
  let* mb := load g (msg m) in Ok (mb_msg mb).

(** The two [for] loops, over whole messages. *)
Fixpoint map_whole (g : MQ) (l : list Msg) (count : nat) : outcome (list (list ascii)) :=
  match count, l with
  | S count, m :: l' =>
      let* v := iov_whole g m in let* vs := map_whole g l' count in Ok (v :: vs)
  | _, _ => Ok []
  end.

(** A partially sent head, if there is one: its entry and the rest of the list. *)
Definition partial_head (g : MQ) (l : list Msg) : outcome (list (list ascii) * list Msg) :=
  match l with
  | m :: l' => if 0 <? sent m then let* v := iov_of g m in Ok ([v], l') else Ok ([], l)
  | [] => Ok ([], [])
  end.

Definition msgq_mapiov (g : MQ) (mq : MsgQ) (count : nat) : outcome (list (list ascii)) :=
  if mq_length mq <? 1 then Ok []
  else
    let* (v1, q) := partial_head g (queue mq) in
    if (length v1 =? count)%nat then Ok v1
    else
      let* (v2, p) := partial_head g (prio mq) in
      if (length (v1 ++ v2) =? count)%nat then Ok (v1 ++ v2)
      else
        let* v3 := map_whole g p (count - length (v1 ++ v2))%nat in
        let* v4 := map_whole g q (count - length (v1 ++ v2 ++ v3))%nat in
        Ok (v1 ++ v2 ++ v3 ++ v4).

Section Alloc.
(** [feature_int(FEAT_BUFFERPOOL)]. *)
Context (BUFFERPOOL : Z).

(** The search for a size class; 14 when none fits. *)
Fixpoint find_power (fuel : nat) (power len : Z) : Z :=
  match fuel with
  | O => power
  | S fuel => if Z.shiftr (len - 1) power =? 0 then power else find_power fuel (power + 1) len
  end.

Definition power_for (len : Z) : Z := find_power 9 MB_BASE_SHIFT len.

(** The middle of [msgq_alloc]: a buffer from the free list, or a new one if the
    pool's limit allows it, initialised. *)
Definition alloc_buf (g : MQ) (power : Z) : outcome (MQ * option bid) :=
  let k := bucket_at g power in
  let '(g, r) :=
    match b_free k with
    | f :: fs => (set_bucket g (power - MB_BASE_SHIFT) (Bucket (b_alloc k) (b_used k) fs), Some f)
    | [] =>
        if tot_bufsize g <? BUFFERPOOL then
          let b := brk g in
          let g := store g b (MkBuf false None 0 power []) in
          let g := set_bucket g (power - MB_BASE_SHIFT) (Bucket (b_alloc k + 1) (b_used k) []) in
          (set_brk (set_tot g (tot_bufsize g + Z.shiftl 1 power)) (Pos.succ b), Some b)
        else (g, None)
    end in
  match r with
  | Some b =>
      let k := bucket_at g power in
      let g := set_bucket g (power - MB_BASE_SHIFT) (Bucket (b_alloc k) (b_used k + 1) (b_free k)) in
      let* mb := load g b in
      Ok (store g b (with_ref (with_real mb None) 1), Some b)
  | None => Ok (g, None)
  end.

(** [msgq_alloc]; a size class beyond the array is [Oob]. *)
Definition msgq_alloc (g : MQ) (in_mb : option bid) (len : Z) : outcome (MQ * option bid) :=
  let power := power_for len in
  if MB_MAX_SHIFT <? power then Oob
  else
    match in_mb with
    | None => alloc_buf g power
    | Some i =>
        let* im := load g i in
        if mb_power im =? power then Ok (store g i (with_real im (Some i)), Some i)
        else
          let* (g, r) := alloc_buf g power in
          let* im := load g i in
          match r with
          | Some b => Ok (store g i (with_real im (Some b)), Some b)
          | None => Ok (store g i (with_real im (Some i)), Some i)
          end
    end.

(** The part of [msgq_add] that gives the message a real buffer of fitting size. *)
Definition ensure_real (g : MQ) (b : bid) : outcome MQ :=
  let* mb := load g b in
  match mb_real mb with
  | Some _ => Ok g
  | None =>
      let hist_i := u32 (mb_length mb - 1) in
      let hist_i := if BUFSIZE <=? hist_i then BUFSIZE - 1 else hist_i in
      let g := set_sizes g (sizes_msgs g + 1)
                 (<[hist_i := default 0 (sizes g !! hist_i) + 1]> (sizes g)) in
      let* (g, tmp) := msgq_alloc g (Some b) (mb_length mb) in
      match tmp with
      | None => Oob
      | Some t =>
          if Pos.eqb t b then Ok g
          else
            let* tb := load g t in
            let* mb := load g b in
            if mb_linked mb then
              let g := store g t (with_linked (with_msg tb (mb_msg mb)) true) in
              let g := set_msglist g (map (fun x => if Pos.eqb x b then t else x) (msglist g)) in
              Ok (store g b (with_linked mb false))
            else Oob
      end
  end.

(** [msgq_add]. *)
Definition msgq_add (g : MQ) (mq : MsgQ) (b : bid) (w : which) : outcome (MQ * MsgQ) :=
  let g := match msgs_free g with
           | O => set_msgs g (msgs_alloc g + 1) (msgs_used g) O
           | S n => set_msgs g (msgs_alloc g) (msgs_used g) n
           end in
  let g := set_msgs g (msgs_alloc g) (msgs_used g + 1) (msgs_free g) in
  let* g := ensure_real g b in
  let* mb := load g b in
  match mb_real mb with
  | None => Oob
  | Some r =>
      let* rb := load g r in
      let g := store g r (with_ref rb (u32 (mb_ref rb + 1))) in
      let mq := MkQ (u32 (mq_length mq + mb_length rb)) (u32 (mq_count mq + 1)) (queue mq) (prio mq) in
      Ok (g, set_qlist mq w (qlist mq w ++ [MkMsg 0 r]))
  end.

(** [msgq_clear_freembs]: every size class, down its free list. *)
Fixpoint clear_class (g : MQ) (i : Z) (free : list bid) : MQ :=
  match free with
  | [] => g
  | b :: fs =>
      let k := bucket_at g i in
      let g := set_bucket g (i - MB_BASE_SHIFT) (Bucket (b_alloc k - 1) (b_used k) fs) in
      let g := set_tot g (tot_bufsize g - Z.shiftl 1 i) in
      clear_class (set_heap g (delete b (heap g))) i fs
  end.

Definition size_classes : list Z := [5; 6; 7; 8; 9; 10; 11; 12; 13].

Definition msgq_clear_freembs (g : MQ) : MQ :=
  fold_left (fun g i => clear_class g i (b_free (bucket_at g i))) size_classes g.

(** What [msgq_vmake] and [msgq_raw_alloc] do to get a buffer: allocate, flush,
    release the free buffers, kill clients, then servers.  [None] is [server_panic],
    which does not return. *)
Section Starved.
(** [feature_bool(FEAT_HAS_FERGUSON_FLUSHER)], and [flush_connections(0)] and
    [kill_highest_sendq] of ircd/send.c as they act on the message buffers. *)
Context (FERGUSON_FLUSHER : bool) (flush_connections : MQ -> MQ) (kill_highest_sendq : bool -> MQ -> MQ).

Definition retry (prepare : MQ -> MQ) (len : Z) (r : outcome (MQ * option bid))
    : outcome (MQ * option bid) :=
  let* (g, mb) := r in
  match mb with
  | Some b => Ok (g, Some b)
  | None => msgq_alloc (prepare g) None len
  end.

Definition alloc_or_panic (g : MQ) (len : Z) : outcome (MQ * option bid) :=
  let r := msgq_alloc g None len in
  let r := if FERGUSON_FLUSHER then retry flush_connections len r else r in
  let r := retry msgq_clear_freembs len r in
  let r := retry (fun g => msgq_clear_freembs (kill_highest_sendq false g)) len r in
  retry (fun g => msgq_clear_freembs (kill_highest_sendq true g)) len r.

Definition CRLF : list ascii := [ascii_of_nat 13; ascii_of_nat 10].

(** [msgq_vmake] of the formatted text: cut to leave room for CR LF. *)
Definition msgq_vmake (g : MQ) (text : list ascii) : outcome (MQ * option bid) :=
  let* (g, r) := alloc_or_panic g BUFSIZE in
  match r with
  | None => Ok (g, None)
  | Some b =>
      let* mb := load g b in
      let g := store g b (with_linked (with_msg mb (take (Z.to_nat (bufsize mb - 2)) text ++ CRLF)) true) in
      Ok (set_msglist g (b :: msglist g), Some b)
  end.

Definition msgq_raw_alloc (g : MQ) (minbytes : Z) : outcome (MQ * option bid) :=
  if Z.shiftl 1 MB_MAX_SHIFT <? minbytes then Ok (g, None)
  else
    let* (g, r) := alloc_or_panic g minbytes in
    match r with
    | None => Ok (g, None)
    | Some b =>
        let* mb := load g b in
        Ok (set_msglist (store g b (with_linked (with_msg mb []) true)) (b :: msglist g), Some b)
    end.
End Starved.

(** [msgq_append] of the formatted text. *)
Definition msgq_append (g : MQ) (b : bid) (text : list ascii) : outcome MQ :=
  let* mb := load g b in
  let body := take (length (mb_msg mb) - 2) (mb_msg mb) ++ text in
  Ok (store g b (with_msg mb (take (Z.to_nat (bufsize mb - 2)) body ++ CRLF))).
End Alloc.

(** [msgqlist_excise]: [buf] is an address inside buffer [b]. *)
Definition msgqlist_excise (g : MQ) (mq : MsgQ) (w : which) (b : bid) : outcome (option (MQ * MsgQ)) :=
  match qlist mq w with
  | [] => Ok None
  | m :: _ =>
      if Pos.eqb (msg m) b then
        let* mb := load g (msg m) in
        let* (gq, _) := msgq_delmsg g mq w (u32 (mb_length mb - sent m)) in
        Ok (Some gq)
      else Ok None
  end.

Definition msgq_excise (g : MQ) (mq : MsgQ) (b : bid) : outcome (MQ * MsgQ) :=
  let* r := msgqlist_excise g mq Normal b in
  match r with
  | Some gq => Ok gq
  | None =>
      let* r := msgqlist_excise g mq Prio b in
      match r with Some gq => Ok gq | None => Ok (g, mq) end
  end.

Definition msgq_bufleft (mb : MsgBuf) : Z := u32 (bufsize mb - mb_length mb).

(** ** The invariant of the buffers

    [cnt b] is the number of references the program holds to buffer [b].  [exc]
    are the buffers [msgq_clean] is in the middle of releasing. *)
Record Core (g : MQ) (cnt : bid -> nat) (exc : list bid) : Prop := {
  core_ref : forall b mb, heap g !! b = Some mb -> mb_ref mb = Z.of_nat (cnt b);
  core_dom : forall b, (0 < cnt b)%nat -> is_Some (heap g !! b);
  core_power : forall b mb, heap g !! b = Some mb ->
    5 <= mb_power mb <= 13 /\ mb_length mb <= bufsize mb;
  core_free : forall b mb, heap g !! b = Some mb -> b ∉ exc ->
    ((b ∈ b_free (bucket_at g (mb_power mb))) <-> cnt b = O);
  core_free_in : forall b i, b ∈ b_free (bucket_at g i) ->
    exists mb, heap g !! b = Some mb /\ mb_power mb = i;
  core_free_nodup : forall i, NoDup (b_free (bucket_at g i));
  core_exc : forall b i, b ∈ exc -> (b ∉ b_free (bucket_at g i)) /\ cnt b = O;
  core_count : forall i, b_alloc (bucket_at g i) =
    b_used (bucket_at g i) + Z.of_nat (length (b_free (bucket_at g i)));
  core_linked : forall b mb, heap g !! b = Some mb -> b ∉ exc ->
    mb_linked mb = bool_decide (b ∈ msglist g);
  core_msglist : forall b, b ∈ msglist g -> (0 < cnt b)%nat;
  core_brk : forall b, is_Some (heap g !! b) -> (b < brk g)%positive
}.

(** The text of a message. *)
Definition text (g : MQ) (b : bid) : list ascii :=
  match heap g !! b with Some mb => mb_msg mb | None => [] end.

(** A handle: what [msgq_make] returned and the caller has not released yet.  [par]
    maps a stand-in to the buffer it stands in for. *)
Definition refs (hs qs : list bid) (par : gmap bid bid) (b : bid) : nat :=
  (count_occ Pos.eq_dec (hs ++ qs) b + match par !! b with Some _ => 1 | None => 0 end)%nat.

Record Inv (g : MQ) (par : gmap bid bid) (hs qs : list bid) : Prop := {
  inv_core : Core g (refs hs qs par) [];
  inv_par : forall r p, par !! r = Some p <->
    exists mb, heap g !! p = Some mb /\ (0 < refs hs qs par p)%nat /\ mb_real mb = Some r /\ r <> p;
  inv_par_real : forall r, is_Some (par !! r) ->
    exists mb, heap g !! r = Some mb /\ mb_real mb = None /\ mb_linked mb = true;
  inv_handles : forall b, b ∈ hs -> par !! b = None /\
    forall mb, heap g !! b = Some mb -> mb_real mb = None -> mb_linked mb = true /\ b ∉ qs;
  inv_queued : forall b mb r, b ∈ qs -> heap g !! b = Some mb -> mb_real mb = Some r -> r = b;
  inv_copy : forall r p, par !! r = Some p -> text g r = text g p;
  inv_small : Z.of_nat (length (hs ++ qs)) < 2 ^ 32 - 2
}.

Lemma bucket_at_set_bucket (g : MQ) (i j : Z) (k : bucket) :
  bucket_at (set_bucket g (i - MB_BASE_SHIFT) k) j = if decide (i = j) then k else bucket_at g j.
Proof.
  unfold bucket_at, set_bucket. cbn. case_decide as E.
  - subst. by rewrite lookup_insert_eq.
  - rewrite lookup_insert_ne; [done|]. unfold MB_BASE_SHIFT. lia.
Qed.

Lemma bucket_at_store (g : MQ) (b : bid) (mb : MsgBuf) (i : Z) :
  bucket_at (store g b mb) i = bucket_at g i.
Proof. done. Qed.

Lemma bucket_at_msglist (g : MQ) (l : list bid) (i : Z) :
  bucket_at (set_msglist g l) i = bucket_at g i.
Proof. done. Qed.

Definition dec (cnt : bid -> nat) (b : bid) : bid -> nat :=
  fun x => if decide (x = b) then pred (cnt x) else cnt x.

(** One reference fewer, others remain. *)
Lemma core_decrement (g : MQ) (cnt : bid -> nat) (exc : list bid) (b : bid) (mb : MsgBuf) :
  Core g cnt exc -> heap g !! b = Some mb -> (1 < cnt b)%nat ->
  Core (store g b (with_ref mb (mb_ref mb - 1))) (dec cnt b) exc.
Proof.
  intros C E N. pose proof (core_ref _ _ _ C b mb E) as R.
  assert (forall x, x <> b -> dec cnt b x = cnt x) as D1.
  { intros x Hx. unfold dec. by rewrite decide_False. }
  assert (dec cnt b b = pred (cnt b)) as D2 by (unfold dec; by rewrite decide_True).
  assert (forall x, (0 < dec cnt b x)%nat <-> (0 < cnt x)%nat) as D3.
  { intros x. destruct (decide (x = b)) as [->|]; [rewrite D2; lia|by rewrite D1]. }
  constructor; try setoid_rewrite bucket_at_store; cbn [store set_heap heap msglist brk].
  - intros x mx Hx. apply lookup_insert_Some in Hx as [[<- <-]|[Hn Hx]]; cbn.
    + rewrite D2. lia.
    + rewrite D1 by done. by eapply core_ref.
  - intros x Hx. apply D3 in Hx. destruct (core_dom _ _ _ C x Hx) as [mx Hx'].
    destruct (decide (x = b)) as [->|]; [rewrite lookup_insert_eq|rewrite lookup_insert_ne by done]; eauto.
  - intros x mx Hx. apply lookup_insert_Some in Hx as [[<- <-]|[Hn Hx]];
      [by apply (core_power _ _ _ C b mb E)|by eapply core_power].
  - intros x mx Hx Hexc. apply lookup_insert_Some in Hx as [[<- <-]|[Hn Hx]]; cbn.
    + rewrite (core_free _ _ _ C b mb E Hexc), D2. lia.
    + rewrite (core_free _ _ _ C x mx Hx Hexc), D1 by done. done.
  - intros x i Hx. destruct (core_free_in _ _ _ C x i Hx) as (mx & Hx' & Hp).
    destruct (decide (x = b)) as [->|Hn].
    + rewrite lookup_insert_eq. eexists; split; [done|]. cbn. congruence.
    + rewrite lookup_insert_ne by done. eauto.
  - apply C.
  - intros x i Hx. destruct (core_exc _ _ _ C x i Hx) as [H1 H2]. split; [done|].
    destruct (decide (x = b)) as [->|Hn]; [rewrite D2|rewrite D1]; lia.
  - apply C.
  - intros x mx Hx Hexc. apply lookup_insert_Some in Hx as [[<- <-]|[Hn Hx]]; cbn;
      by eapply core_linked.
  - intros x Hx. apply D3. by eapply core_msglist.
  - intros x [mx Hx]. eapply core_brk; [exact C|].
    apply lookup_insert_Some in Hx as [[<- _]|[_ Hx]]; eauto.
Qed.

Ltac lookup_cases H :=
  apply lookup_insert_Some in H as [[<- <-]|[? H]]; cbn [with_ref with_real with_linked with_msg
    mb_linked mb_real mb_ref mb_power mb_msg] in *.

(** The last reference goes: [msgq_clean] takes the buffer off the active list. *)
Lemma core_begin_free (g : MQ) (cnt : bid -> nat) (exc : list bid) (b : bid) (mb : MsgBuf) :
  Core g cnt exc -> heap g !! b = Some mb -> cnt b = 1%nat ->
  Core (set_msglist (store g b (with_ref mb 0)) (filter (fun x => x <> b) (msglist g)))
    (dec cnt b) (b :: exc).
Proof.
  intros C E N.
  assert (forall x, x <> b -> dec cnt b x = cnt x) as D1.
  { intros x Hx. unfold dec. by rewrite decide_False. }
  assert (dec cnt b b = O) as D2 by (unfold dec; rewrite decide_True by done; lia).
  constructor; try setoid_rewrite bucket_at_msglist; try setoid_rewrite bucket_at_store;
    cbn [store set_heap set_msglist heap msglist brk].
  - intros x mx Hx. lookup_cases Hx; [by rewrite D2|]. rewrite D1 by done. by eapply core_ref.
  - intros x Hx. destruct (decide (x = b)) as [->|Hn]; [lia|].
    rewrite lookup_insert_ne by done. eapply core_dom; [exact C|]. by rewrite <- D1.
  - intros x mx Hx. lookup_cases Hx; [by apply (core_power _ _ _ C b mb E)|by eapply core_power].
  - intros x mx Hx Hexc. apply not_elem_of_cons in Hexc as [He Hexc]. lookup_cases Hx; [done|].
    rewrite D1 by done. by apply (core_free _ _ _ C x mx Hx).
  - intros x i Hx. destruct (core_free_in _ _ _ C x i Hx) as (mx & Hx' & Hp).
    destruct (decide (x = b)) as [->|Hn].
    + rewrite lookup_insert_eq. eexists; split; [done|]. cbn. congruence.
    + rewrite lookup_insert_ne by done. eauto.
  - apply C.
  - intros x i [->|Hx]%elem_of_cons.
    + split; [|done]. intros Hf. destruct (core_free_in _ _ _ C b i Hf) as (mx & Hx' & <-).
      destruct (decide (b ∈ exc)) as [H1|H1]; [by apply (core_exc _ _ _ C b (mb_power mx) H1)|].
      apply (core_free _ _ _ C b mx Hx' H1) in Hf. lia.
    + destruct (core_exc _ _ _ C x i Hx) as [H1 H2]. split; [done|].
      destruct (decide (x = b)) as [->|Hn]; [done|by rewrite D1].
  - apply C.
  - intros x mx Hx Hexc. apply not_elem_of_cons in Hexc as [He Hexc]. lookup_cases Hx; [done|].
    rewrite (core_linked _ _ _ C x mx Hx Hexc). apply bool_decide_ext.
    rewrite list_elem_of_filter. naive_solver.
  - intros x Hx. apply list_elem_of_filter in Hx as [Hn Hx]. rewrite D1 by done. by eapply core_msglist.
  - intros x [mx Hx]. eapply core_brk; [exact C|]. lookup_cases Hx; eauto.
Qed.

(** The free list takes the buffer. *)
Lemma core_finish_free (g : MQ) (cnt : bid -> nat) (exc : list bid) (b : bid) (mb : MsgBuf) (k : bucket) :
  Core g cnt (b :: exc) -> b ∉ exc -> heap g !! b = Some mb -> b ∉ msglist g -> k = bucket_at g (mb_power mb) ->
  Core (store (set_bucket g (mb_power mb - MB_BASE_SHIFT)
          (Bucket (b_alloc k) (b_used k - 1) (b :: b_free k))) b (with_linked mb false)) cnt exc.
Proof.
  intros C NE E NL ->. destruct (core_exc _ _ _ C b (mb_power mb) ltac:(left)) as [NF Z0].
  constructor; try setoid_rewrite bucket_at_store; try setoid_rewrite bucket_at_set_bucket;
    cbn [store set_heap set_bucket heap msglist brk].
  - intros x mx Hx. lookup_cases Hx; by eapply core_ref.
  - intros x Hx. destruct (decide (x = b)) as [->|Hn]; [lia|].
    rewrite lookup_insert_ne by done. by eapply core_dom.
  - intros x mx Hx. lookup_cases Hx; [by apply (core_power _ _ _ C b mb E)|by eapply core_power].
  - intros x mx Hx Hexc. lookup_cases Hx.
    + rewrite decide_True by done. cbn. rewrite elem_of_cons. naive_solver.
    + rewrite <- (core_free _ _ _ C x mx Hx) by (apply not_elem_of_cons; done). case_decide as D; [|done].
      cbn. rewrite elem_of_cons, <- D. naive_solver.
  - intros x i Hx. case_decide as D.
    + cbn in Hx. apply elem_of_cons in Hx as [->|Hx].
      * rewrite lookup_insert_eq. eauto.
      * rewrite D in Hx. destruct (core_free_in _ _ _ C x i Hx) as (mx & Hx' & Hp).
        destruct (decide (x = b)) as [->|Hn]; [rewrite lookup_insert_eq; eauto|].
        rewrite lookup_insert_ne by done. eauto.
    + destruct (core_free_in _ _ _ C x i Hx) as (mx & Hx' & Hp).
      destruct (decide (x = b)) as [->|Hn]; [rewrite lookup_insert_eq; eexists; split; [done|cbn; congruence]|].
      rewrite lookup_insert_ne by done. eauto.
  - intros i. case_decide as D; [|apply C]. cbn. constructor; [done|apply C].
  - intros x i Hx. destruct (core_exc _ _ _ C x i ltac:(by right)) as [H1 H2]. split; [|done].
    case_decide as D; [|done]. cbn. apply not_elem_of_cons. split; [by intros ->|by rewrite D].
  - intros i. case_decide as D; [|apply C]. cbn.
    pose proof (core_count _ _ _ C (mb_power mb)). lia.
  - intros x mx Hx Hexc. lookup_cases Hx; [|eapply core_linked; [exact C|done|by apply not_elem_of_cons]].
    by rewrite bool_decide_false.
  - apply C.
  - intros x [mx Hx]. eapply core_brk; [exact C|]. lookup_cases Hx; eauto.
Qed.

(** What releasing a reference leaves alone: text, size and stand-in of every buffer. *)
Definition same_buf (mb mb' : MsgBuf) : Prop :=
  mb_msg mb' = mb_msg mb /\ mb_real mb' = mb_real mb /\ mb_power mb' = mb_power mb.

Definition keeps (g g' : MQ) (live : bid -> Prop) : Prop :=
  (forall x mx, heap g !! x = Some mx -> exists mx', heap g' !! x = Some mx' /\ same_buf mx mx' /\
     (live x -> mb_linked mx' = mb_linked mx)) /\
  (forall x, is_Some (heap g' !! x) -> is_Some (heap g !! x)) /\
  (forall x, x ∈ msglist g' -> x ∈ msglist g).

Lemma same_buf_refl (mb : MsgBuf) : same_buf mb mb.
Proof. done. Qed.
#[local] Hint Resolve same_buf_refl : core.

Lemma filter_absent (b : bid) (l : list bid) : b ∉ l -> filter (fun x => x <> b) l = l.
Proof.
  induction l as [|a l IH]; [done|]. rewrite not_elem_of_cons. intros [H1 H2].
  rewrite filter_cons_True by congruence. by rewrite IH.
Qed.

Lemma keeps_store (g : MQ) (b : bid) (mb mb' : MsgBuf) (live : bid -> Prop) :
  heap g !! b = Some mb -> same_buf mb mb' -> (live b -> mb_linked mb' = mb_linked mb) ->
  keeps g (store g b mb') live.
Proof.
  intros E S L. split; [|split]; cbn.
  - intros x mx Hx. destruct (decide (x = b)) as [->|Hn].
    + rewrite lookup_insert_eq. assert (mx = mb) as -> by congruence. eauto.
    + rewrite lookup_insert_ne by done. eauto.
  - intros x [mx Hx]. lookup_cases Hx; eauto.
  - done.
Qed.

Lemma keeps_trans (g1 g2 g3 : MQ) (live : bid -> Prop) :
  keeps g1 g2 live -> keeps g2 g3 live -> keeps g1 g3 live.
Proof.
  intros (A1 & A2 & A3) (B1 & B2 & B3). split; [|split; eauto].
  intros x mx Hx. destruct (A1 x mx Hx) as (my & Hy & (T1 & T2 & T3) & L1).
  destruct (B1 x my Hy) as (mz & Hz & (U1 & U2 & U3) & L2). exists mz. split; [done|]. split.
  - split; [congruence|split; congruence].
  - intros V. rewrite L2, L1; done.
Qed.

Lemma keeps_weaken (g g' : MQ) (l1 l2 : bid -> Prop) :
  keeps g g' l1 -> (forall x, l2 x -> l1 x) -> keeps g g' l2.
Proof.
  intros (A1 & A2 & A3) H. split; [|done]. intros x mx Hx.
  destruct (A1 x mx Hx) as (my & Hy & S & L). eauto 7.
Qed.

(** The last reference, up to the recursive call. *)
Definition begin_free (g : MQ) (b : bid) (mb : MsgBuf) : MQ :=
  let g := store g b (with_ref mb 0) in
  if mb_linked mb then set_msglist g (filter (fun x => x <> b) (msglist g)) else g.

Definition finish_free (g : MQ) (b : bid) (mb : MsgBuf) : MQ :=
  let k := bucket_at g (mb_power mb) in
  store (set_bucket g (mb_power mb - MB_BASE_SHIFT) (Bucket (b_alloc k) (b_used k - 1) (b :: b_free k)))
    b (with_linked (with_ref mb 0) false).

Lemma begin_free_spec (g : MQ) (cnt : bid -> nat) (exc : list bid) (b : bid) (mb : MsgBuf) :
  Core g cnt exc -> heap g !! b = Some mb -> b ∉ exc -> cnt b = 1%nat ->
  Core (begin_free g b mb) (dec cnt b) (b :: exc) /\ heap (begin_free g b mb) = <[b := with_ref mb 0]> (heap g) /\
  (b ∉ msglist (begin_free g b mb)) /\ keeps g (begin_free g b mb) (fun _ => True).
Proof.
  intros C E NE N.
  assert (begin_free g b mb =
    set_msglist (store g b (with_ref mb 0)) (filter (fun x => x <> b) (msglist g))) as ->.
  { unfold begin_free. destruct (mb_linked mb) eqn:L; [done|].
    rewrite (core_linked _ _ _ C b mb E NE) in L. apply bool_decide_eq_false in L.
    rewrite (filter_absent b) by done. by destruct g. }
  split; [by apply core_begin_free|]. split; [done|]. split.
  - cbn. rewrite list_elem_of_filter. naive_solver.
  - destruct (keeps_store g b mb (with_ref mb 0) (fun _ => True)) as (K1 & K2 & K3); [done..|].
    split; [done|]. split; [done|]. cbn. intros x Hx. by apply list_elem_of_filter in Hx as [_ Hx].
Qed.

Lemma finish_free_spec (g : MQ) (cnt : bid -> nat) (exc : list bid) (b : bid) (mb : MsgBuf) (live : bid -> Prop) :
  Core g cnt (b :: exc) -> heap g !! b = Some (with_ref mb 0) -> b ∉ exc -> b ∉ msglist g -> ~ live b ->
  Core (finish_free g b mb) cnt exc /\ keeps g (finish_free g b mb) live /\
  (forall x, x <> b -> heap (finish_free g b mb) !! x = heap g !! x).
Proof.
  intros C E NE NL V. split; [|split].
  - by apply (core_finish_free g cnt exc b (with_ref mb 0)).
  - apply (keeps_store (set_bucket g _ _) b (with_ref mb 0)); done.
  - intros x Hx. cbn. by rewrite lookup_insert_ne.
Qed.

(** [msgq_clean] of a buffer that stands for itself. *)
Lemma clean_leaf (fuel : nat) (g : MQ) (cnt : bid -> nat) (exc : list bid) (b : bid) (mb : MsgBuf) :
  Core g cnt exc -> heap g !! b = Some mb -> b ∉ exc -> (0 < cnt b)%nat -> Z.of_nat (cnt b) < 2 ^ 32 ->
  (cnt b = 1%nat -> forall r, mb_real mb = Some r -> r = b) ->
  exists g', clean_loop (S fuel) g b = Ok g' /\ Core g' (dec cnt b) exc /\
    keeps g g' (fun x => (0 < dec cnt b x)%nat) /\ (forall x, x <> b -> heap g' !! x = heap g !! x).
Proof.
  intros C E NE P S R. pose proof (core_ref _ _ _ C b mb E) as RF.
  cbn [clean_loop]. unfold load. rewrite E. cbn [obind]. cbn [with_ref mb_ref mb_linked mb_real mb_power].
  rewrite u32_small by lia. destruct (decide (cnt b = 1%nat)) as [D|D].
  - rewrite (proj2 (Z.eqb_eq _ _)) by lia. replace (mb_ref mb - 1) with 0 by lia.
    fold (begin_free g b mb). destruct (begin_free_spec g cnt exc b mb C E NE D) as (C' & H' & NL & K).
    assert (forall A (x : A) f, match mb_real mb with Some r => if Pos.eqb r b then x else f r | None => x end = x) as M.
    { intros A x f. destruct (mb_real mb) as [r|] eqn:Er; [|done]. rewrite (R D r eq_refl), Pos.eqb_refl. done. }
    unfold begin_free in M. rewrite M. cbn [obind]. cbn [set_bucket heap].
    fold (begin_free g b mb). rewrite H', lookup_insert_eq. cbn [obind].
    eexists; split; [reflexivity|]. fold (finish_free (begin_free g b mb) b mb).
    destruct (finish_free_spec (begin_free g b mb) (dec cnt b) exc b mb (fun x => 0 < dec cnt b x)%nat)
      as (C2 & K2 & O2); [done| |done..| |].
    { rewrite H'. apply lookup_insert_eq. }
    { unfold dec. rewrite decide_True by done. lia. }
    split; [done|]. split.
    + eapply keeps_trans; [|exact K2]. eapply keeps_weaken; [exact K|done].
    + intros x Hx. rewrite O2, H' by done. by apply lookup_insert_ne.
  - rewrite (proj2 (Z.eqb_neq _ _)) by lia. eexists; split; [reflexivity|]. split; [|split].
    + apply core_decrement; [done..|lia].
    + apply (keeps_store g b mb); done.
    + intros x Hx. by apply lookup_insert_ne.
Qed.

(** [msgq_clean] of the last reference to a buffer with a stand-in. *)
Lemma clean_node (g : MQ) (cnt : bid -> nat) (b r : bid) (mb mr : MsgBuf) :
  Core g cnt [] -> heap g !! b = Some mb -> cnt b = 1%nat -> mb_real mb = Some r -> r <> b ->
  heap g !! r = Some mr -> (0 < cnt r)%nat -> Z.of_nat (cnt r) < 2 ^ 32 -> mb_real mr = None ->
  exists g', msgq_clean g b = Ok g' /\ Core g' (dec (dec cnt b) r) [] /\
    keeps g g' (fun x => (0 < dec (dec cnt b) r x)%nat).
Proof.
  intros C E N R NE Er P S Rr. pose proof (core_ref _ _ _ C b mb E) as RF.
  unfold msgq_clean. change 3%nat with (Datatypes.S 2). remember 2%nat as n eqn:En. cbn [clean_loop].
  unfold load. rewrite E. cbn [obind].
  cbn [with_ref mb_ref mb_linked mb_real mb_power]. rewrite R, u32_small by lia.
  rewrite (proj2 (Z.eqb_eq _ _)) by lia. replace (mb_ref mb - 1) with 0 by lia.
  rewrite (proj2 (Pos.eqb_neq r b) NE). fold (begin_free g b mb).
  destruct (begin_free_spec g cnt [] b mb C E ltac:(apply not_elem_of_nil) N) as (C' & H' & NL & K).
  assert (dec cnt b r = cnt r) as Dr by (unfold dec; by rewrite decide_False).
  subst n. destruct (clean_leaf 1 (begin_free g b mb) (dec cnt b) [b] r mr) as (g2 & -> & C2 & K2 & O2).
  - done.
  - rewrite H'. by rewrite lookup_insert_ne.
  - apply not_elem_of_cons; split; [done|apply not_elem_of_nil].
  - by rewrite Dr.
  - by rewrite Dr.
  - by rewrite Rr.
  - cbn [obind]. cbn [set_bucket heap].
    assert (heap g2 !! b = Some (with_ref mb 0)) as H2.
    { rewrite O2 by done. rewrite H'. apply lookup_insert_eq. }
    rewrite H2. cbn [obind]. eexists; split; [reflexivity|]. fold (finish_free g2 b mb).
    destruct (finish_free_spec g2 (dec (dec cnt b) r) [] b mb (fun x => 0 < dec (dec cnt b) r x)%nat)
      as (C3 & K3 & _); [done|done|apply not_elem_of_nil| | |].
    + intros Hb. apply NL. by apply K2.
    + unfold dec. rewrite (decide_False (P := b = r)), decide_True by congruence. lia.
    + split; [done|]. eapply keeps_trans; [|exact K3]. eapply keeps_trans; [|exact K2].
      by eapply keeps_weaken; [exact K|].
Qed.

Lemma core_ext (g : MQ) (c1 c2 : bid -> nat) (exc : list bid) :
  (forall x, c1 x = c2 x) -> Core g c1 exc -> Core g c2 exc.
Proof.
  intros H C. destruct C. constructor; try done.
  - intros b mb Hb. rewrite <- H. eauto.
  - intros b Hb. rewrite <- H in Hb. eauto.
  - intros b mb Hb He. rewrite <- H. eauto.
  - intros b i He. rewrite <- H. eauto.
  - intros b Hb. rewrite <- H. eauto.
Qed.

(** [hs'] and [qs'] are [hs] and [qs] with one reference to [b] taken away. *)
Definition drops (hs qs hs' qs' : list bid) (b : bid) : Prop :=
  hs ++ qs ≡ₚ b :: hs' ++ qs' /\ (forall x, x ∈ hs' -> x ∈ hs) /\ (forall x, x ∈ qs' -> x ∈ qs).

Lemma refs_drops (hs qs hs' qs' : list bid) (par : gmap bid bid) (b x : bid) :
  drops hs qs hs' qs' b ->
  refs hs' qs' par x = dec (refs hs qs par) b x.
Proof.
  intros (P & _ & _). unfold refs, dec. rewrite (proj1 (Permutation_count_occ Pos.eq_dec _ _) P).
  case_decide as D.
  - subst. rewrite count_occ_cons_eq by done. by destruct (par !! b).
  - by rewrite count_occ_cons_neq by congruence.
Qed.

Lemma count_le_length (b : bid) (l : list bid) : (count_occ Pos.eq_dec l b <= length l)%nat.
Proof. induction l as [|a l IH]; cbn; [done|]. destruct (Pos.eq_dec a b); lia. Qed.

Lemma refs_small (g : MQ) (par : gmap bid bid) (hs qs : list bid) (b : bid) :
  Inv g par hs qs -> Z.of_nat (refs hs qs par b) < 2 ^ 32 - 1.
Proof.
  intros I. pose proof (inv_small _ _ _ _ I). unfold refs.
  pose proof (count_le_length b (hs ++ qs)). destruct (par !! b); lia.
Qed.

Lemma elem_count (b : bid) (l : list bid) : b ∈ l <-> (0 < count_occ Pos.eq_dec l b)%nat.
Proof. rewrite list_elem_of_In. apply count_occ_In. Qed.

Lemma refs_pos (hs qs : list bid) (par : gmap bid bid) (b : bid) :
  b ∈ hs ++ qs -> (0 < refs hs qs par b)%nat.
Proof. intros H. apply elem_count in H. unfold refs. lia. Qed.

Lemma refs_elem (hs qs : list bid) (par : gmap bid bid) (b : bid) : b ∈ qs -> (0 < refs hs qs par b)%nat.
Proof. intros H. apply refs_pos. set_solver. Qed.

Lemma text_keeps (g g' : MQ) (live : bid -> Prop) : keeps g g' live -> forall b, text g' b = text g b.
Proof.
  intros (K1 & K2 & _) b. unfold text. destruct (heap g !! b) as [mb|] eqn:E.
  - destruct (K1 b mb E) as (mb' & -> & (S & _) & _). done.
  - destruct (heap g' !! b) as [mb'|] eqn:E'; [|done]. destruct (K2 b ltac:(eauto)); congruence.
Qed.

(** What is left to show after a release: the counts and the stand-in map. *)
Lemma drops_inv (g g' : MQ) (par par' : gmap bid bid) (hs qs hs' qs' : list bid) (b : bid) :
  Inv g par hs qs -> drops hs qs hs' qs' b ->
  keeps g g' (fun x => 0 < refs hs' qs' par' x)%nat ->
  Core g' (refs hs' qs' par') [] -> par' ⊆ par ->
  (forall r p mb, heap g !! p = Some mb -> mb_real mb = Some r -> r <> p -> (0 < refs hs qs par p)%nat ->
     par' !! r = Some p <-> (0 < refs hs' qs' par' p)%nat) ->
  (forall r p, par' !! r = Some p -> (0 < refs hs' qs' par' p)%nat) ->
  (forall p, (0 < refs hs' qs' par' p -> 0 < refs hs qs par p)%nat) ->
  Inv g' par' hs' qs'.
Proof.
  intros I (Pm & Sh & Sq) K C Sub Hl Hl2 Hm. pose proof (text_keeps _ _ _ K) as T.
  destruct K as (K1 & K2 & K3).
  assert (forall x mx', heap g' !! x = Some mx' -> exists mx, heap g !! x = Some mx /\ same_buf mx mx' /\
    ((0 < refs hs' qs' par' x)%nat -> mb_linked mx' = mb_linked mx)) as Back.
  { intros x mx' Hx. destruct (K2 x ltac:(eauto)) as [mx Hmx].
    destruct (K1 x mx Hmx) as (my & Hy & S & L). assert (my = mx') as -> by congruence. eauto. }
  constructor; [done|..].
  - intros r p. split.
    + intros E. pose proof (Hl2 r p E) as P'. pose proof (lookup_weaken _ _ _ _ E Sub) as E0.
      apply (inv_par _ _ _ _ I) in E0 as (mb & Hp & P & R & NE).
      destruct (K1 p mb Hp) as (mb' & Hp' & (_ & S2 & _) & _). exists mb'. rewrite S2. done.
    + intros (mb' & Hp & P & R & NE). destruct (Back p mb' Hp) as (mb & Hp0 & (_ & S2 & _) & _).
      rewrite S2 in R. apply (Hl r p mb); auto.
  - intros r [p E]. pose proof (lookup_weaken _ _ _ _ E Sub) as E0.
    destruct (inv_par_real _ _ _ _ I r ltac:(eauto)) as (mb & Hr & R & L).
    destruct (K1 r mb Hr) as (mb' & Hr' & (_ & S2 & _) & L'). exists mb'. rewrite S2, L'; [done|].
    unfold refs. rewrite E. lia.
  - intros x Hx. destruct (inv_handles _ _ _ _ I x (Sh x Hx)) as [P0 L0]. split.
    + destruct (par' !! x) as [p|] eqn:E; [|done]. pose proof (lookup_weaken _ _ _ _ E Sub). congruence.
    + intros mb' Hx' R. destruct (Back x mb' Hx') as (mb & Hx0 & (_ & S2 & _) & L).
      destruct (L0 mb Hx0) as [L1 L2]; [congruence|]. rewrite L; [auto|]. apply refs_pos. set_solver.
  - intros x mb' r Hx Hx' R. destruct (Back x mb' Hx') as (mb & Hx0 & (_ & S2 & _) & _).
    eapply (inv_queued _ _ _ _ I x mb r); [auto|done|congruence].
  - intros r p E. rewrite !T. apply (inv_copy _ _ _ _ I). by apply (lookup_weaken _ _ _ _ E Sub).
  - pose proof (inv_small _ _ _ _ I). rewrite Pm in H. cbn [length] in H. lia.
Qed.

(** [msgq_clean] gives one reference back: a reference that is not the last of a
    buffer with a stand-in ... *)
Lemma clean_inv_leaf (g : MQ) (par : gmap bid bid) (hs qs hs' qs' : list bid) (b : bid) (mb : MsgBuf) :
  Inv g par hs qs -> drops hs qs hs' qs' b -> heap g !! b = Some mb -> (0 < refs hs qs par b)%nat ->
  (refs hs qs par b = 1%nat -> forall r, mb_real mb = Some r -> r = b) ->
  exists g' par', msgq_clean g b = Ok g' /\ Inv g' par' hs' qs' /\
    keeps g g' (fun x => 0 < refs hs' qs' par' x)%nat.
Proof.
  intros I D E Pb L. pose proof (inv_core _ _ _ _ I) as C.
  pose proof (fun x => refs_drops hs qs hs' qs' par b x D) as RD.
  unfold msgq_clean. destruct (clean_leaf 2 g _ [] b mb C E ltac:(apply not_elem_of_nil) Pb) as (g' & -> & C' & K & _);
    [pose proof (refs_small g par hs qs b I); lia|done|].
  apply (core_ext _ _ (refs hs' qs' par)) in C'; [|intros x; by rewrite RD].
  eapply keeps_weaken with (l2 := fun x => (0 < refs hs' qs' par x)%nat) in K; [|intros x; by rewrite RD].
  exists g', par. split; [done|]. split; [|done].
  assert (forall p r, (exists mp, heap g !! p = Some mp /\ mb_real mp = Some r) -> r <> p ->
    (0 < refs hs qs par p)%nat -> (0 < refs hs' qs' par p)%nat) as Lv.
  { intros p r (mp & Hp & Rp) NE P. rewrite RD. unfold dec. case_decide as Dp; [|done]. subst p.
    assert (mp = mb) as -> by congruence. destruct (decide (refs hs qs par b = 1%nat)) as [N|]; [|lia].
    by specialize (L N r Rp). }
  apply (drops_inv g g' par par hs qs hs' qs' b); try done.
  - intros r p mp Hp R NE P. split; [intros _; eauto|intros _]. apply (inv_par _ _ _ _ I); eauto.
  - intros r p Ep. apply (inv_par _ _ _ _ I) in Ep as (mp & Hp & P & R & NE). eauto.
  - intros p. rewrite RD. unfold dec. case_decide; lia.
Qed.

(** ... and the last one of such a buffer. *)
Lemma clean_inv_node (g : MQ) (par : gmap bid bid) (hs qs hs' qs' : list bid) (b r : bid) (mb : MsgBuf) :
  Inv g par hs qs -> drops hs qs hs' qs' b -> heap g !! b = Some mb ->
  refs hs qs par b = 1%nat -> mb_real mb = Some r -> r <> b ->
  exists g' par', msgq_clean g b = Ok g' /\ Inv g' par' hs' qs' /\
    keeps g g' (fun x => 0 < refs hs' qs' par' x)%nat.
Proof.
  intros I D E N R NE. pose proof (inv_core _ _ _ _ I) as C.
  pose proof (fun x => refs_drops hs qs hs' qs' par b x D) as RD.
  assert (par !! r = Some b) as Er by (apply (inv_par _ _ _ _ I); exists mb; rewrite N; auto).
  destruct (inv_par_real _ _ _ _ I r ltac:(eauto)) as (mr & Hr & Rr & _).
  assert (0 < refs hs qs par r)%nat as Pr by (unfold refs; rewrite Er; lia).
  destruct (clean_node g _ b r mb mr C E N R NE Hr Pr) as (g' & -> & C' & K);
    [pose proof (refs_small g par hs qs r I); lia|done|].
  set (par' := delete r par).
  assert (forall x, dec (dec (refs hs qs par) b) r x = refs hs' qs' par' x) as RD'.
  { intros x. unfold dec at 1. rewrite <- RD. unfold refs, par'. case_decide as Dx.
    - subst x. rewrite lookup_delete_eq, Er. lia.
    - by rewrite lookup_delete_ne by congruence. }
  apply (core_ext _ _ (refs hs' qs' par')) in C'; [|done].
  eapply keeps_weaken with (l2 := fun x => (0 < refs hs' qs' par' x)%nat) in K; [|intros x; by rewrite RD'].
  assert (refs hs' qs' par' b = O) as Zb.
  { rewrite <- RD'. unfold dec. rewrite (decide_False (P := b = r)), decide_True by congruence. lia. }
  assert (forall p, p <> b -> p <> r -> refs hs' qs' par' p = refs hs qs par p) as Same.
  { intros p H1 H2. rewrite <- RD'. unfold dec. by rewrite !decide_False. }
  exists g', par'. split; [done|]. split; [|done].
  apply (drops_inv g g' par par' hs qs hs' qs' b); try done.
  - apply delete_subseteq.
  - intros r' p mp Hp Rp NEp P. destruct (decide (p = b)) as [->|Np].
    { rewrite Zb. assert (r' = r) as -> by congruence. unfold par'. rewrite lookup_delete_eq.
      split; [done|lia]. }
    assert (p <> r) as Npr by (intros ->; congruence). rewrite Same by done.
    split; [done|intros _]. unfold par'. rewrite lookup_delete_ne; [apply (inv_par _ _ _ _ I); eauto|].
    intros <-. assert (par !! r = Some p) by (apply (inv_par _ _ _ _ I); eauto). congruence.
  - intros r' p Ep. apply lookup_delete_Some in Ep as [N1 Ep].
    apply (inv_par _ _ _ _ I) in Ep as (mp & Hp & P & R' & NE').
    rewrite Same; [done|intros ->; congruence|intros ->; congruence].
  - intros p. rewrite <- RD'. unfold dec. repeat case_decide; lia.
Qed.

Lemma clean_inv (g : MQ) (par : gmap bid bid) (hs qs hs' qs' : list bid) (b : bid) :
  Inv g par hs qs -> drops hs qs hs' qs' b ->
  exists g' par', msgq_clean g b = Ok g' /\ Inv g' par' hs' qs' /\
    keeps g g' (fun x => 0 < refs hs' qs' par' x)%nat.
Proof.
  intros I D.
  assert (b ∈ hs ++ qs) as Hb by (destruct D as [P _]; rewrite P; left).
  pose proof (refs_pos hs qs par b Hb) as Pb.
  destruct (core_dom _ _ _ (inv_core _ _ _ _ I) b Pb) as [mb E].
  assert ((refs hs qs par b = 1%nat -> forall r, mb_real mb = Some r -> r = b) \/
          refs hs qs par b = 1%nat /\ exists r, mb_real mb = Some r /\ r <> b) as [L|(N & r & R & NE)].
  { destruct (mb_real mb) as [r|]; [|left; done].
    destruct (decide (r = b)) as [->|]; [left; congruence|].
    destruct (decide (refs hs qs par b = 1%nat)); [right; eauto|left; done]. }
  - by apply (clean_inv_leaf g par hs qs hs' qs' b mb).
  - by apply (clean_inv_node g par hs qs hs' qs' b r mb).
Qed.

(** ** The byte stream a queue stands for

    A partly sent normal message is finished first, then the priority list goes out,
    then the normal list. *)
Definition unsent (g : MQ) (m : Msg) : list ascii := drop (Z.to_nat (sent m)) (text g (msg m)).

Definition order (mq : MsgQ) : list Msg :=
  match queue mq with
  | m :: rest => if 0 <? sent m then m :: prio mq ++ rest else prio mq ++ queue mq
  | [] => prio mq
  end.

Definition stream (g : MQ) (mq : MsgQ) : list ascii := flat_map (unsent g) (order mq).
Definition qrefs (mq : MsgQ) : list bid := map msg (order mq).

Definition msg_ok (g : MQ) (m : Msg) : Prop := 0 <= sent m < Z.of_nat (length (text g (msg m))).

Record queue_ok (g : MQ) (mq : MsgQ) : Prop := {
  q_msgs : Forall (msg_ok g) (order mq);
  q_tail : Forall (fun m => sent m = 0) (tail (queue mq));
  p_tail : Forall (fun m => sent m = 0) (tail (prio mq));
  q_length : mq_length mq = Z.of_nat (length (stream g mq));
  q_bound : mq_length mq < 2 ^ 32;
  q_count : mq_count mq = Z.of_nat (length (order mq))
}.

(** The head of the list [next_list] picks is the head of the stream, and taking it
    off, or marking it partly sent, leaves the rest of the stream in place. *)
Lemma next_list_order (mq : MsgQ) (w : which) :
  Forall (fun m => sent m = 0) (tail (queue mq)) -> next_list mq = Some w ->
  exists m rest, qlist mq w = m :: rest /\
    order mq = m :: order (set_qlist mq w rest) /\
    forall s, 0 < s -> order (set_qlist mq w (MkMsg s (msg m) :: rest)) =
      MkMsg s (msg m) :: order (set_qlist mq w rest).
Proof.
  intros T. unfold next_list, order.
  destruct (queue mq) as [|m q] eqn:Q, (prio mq) as [|p ps] eqn:P; cbn in T.
  - done.
  - intros [= <-]. exists p, ps. cbn. rewrite Q. cbn. eauto.
  - intros H. assert (w = Normal) as -> by (destruct (0 <? sent m); congruence).
    exists m, q. cbn. rewrite Q, P. cbn. split; [done|].
    assert (match q with [] => [] | m0 :: rest => if 0 <? sent m0 then m0 :: rest else q end = q) as ->.
    { by destruct q as [|m0 q]; [|destruct (0 <? sent m0)]. }
    split; [by destruct (0 <? sent m)|]. intros s Hs. by rewrite (proj2 (Z.ltb_lt 0 s) Hs).
  - destruct (0 <? sent m) eqn:S; intros [= <-].
    + exists m, q. cbn. rewrite Q, P. split; [done|].
      assert (match q with [] => p :: ps | m0 :: rest =>
        if 0 <? sent m0 then m0 :: (p :: ps) ++ rest else (p :: ps) ++ q end = (p :: ps) ++ q) as ->.
      { destruct q as [|m0 q]; [by rewrite app_nil_r|]. inversion_clear T as [|? ? T0 _]. by rewrite T0. }
      split; [done|]. intros s Hs. by rewrite (proj2 (Z.ltb_lt 0 s) Hs).
    + exists p, ps. cbn. rewrite Q, P. cbn. rewrite S. done.
Qed.

Lemma set_qlist_tails (mq : MsgQ) (w : which) (m : Msg) (rest : list Msg) :
  qlist mq w = m :: rest ->
  Forall (fun m => sent m = 0) (tail (queue mq)) -> Forall (fun m => sent m = 0) (tail (prio mq)) ->
  forall l, l = rest \/ (exists m', l = m' :: rest) ->
  Forall (fun m => sent m = 0) (tail (queue (set_qlist mq w l))) /\
  Forall (fun m => sent m = 0) (tail (prio (set_qlist mq w l))).
Proof.
  intros E T1 T2 l Hl.
  assert (Forall (fun m => sent m = 0) rest -> Forall (fun m => sent m = 0) (tail l)) as H.
  { intros F. destruct Hl as [->|[m' ->]]; [|done]. destruct F; done. }
  destruct w; cbn in *; rewrite E in *; auto.
Qed.

Lemma set_qlist_same_lists (mq : MsgQ) (w : which) (l : list Msg) (a c : Z) :
  order (set_qlist (MkQ a c (queue mq) (prio mq)) w l) = order (set_qlist mq w l).
Proof. by destruct w. Qed.

Lemma msg_ok_text (g g' : MQ) (l : list Msg) :
  (forall b, b ∈ map msg l -> text g' b = text g b) -> Forall (msg_ok g) l -> Forall (msg_ok g') l.
Proof.
  intros T F. rewrite !Forall_forall in *. intros m Hm. unfold msg_ok. rewrite T; [by apply F|].
  apply list_elem_of_fmap. eauto.
Qed.

Lemma unsent_text (g g' : MQ) (l : list Msg) :
  (forall b, b ∈ map msg l -> text g' b = text g b) -> flat_map (unsent g') l = flat_map (unsent g) l.
Proof.
  intros T. induction l as [|m l IH]; [done|]. cbn. unfold unsent at 1 3. cbn in T.
  rewrite T by left. rewrite IH; [done|]. intros b Hb. apply T. by right.
Qed.

Lemma inv_set_msgs (g : MQ) (par : gmap bid bid) (hs qs : list bid) (a u : Z) (f : nat) :
  Inv g par hs qs -> Inv (set_msgs g a u f) par hs qs.
Proof. intros [C ? ? ? ? ? ?]. constructor; [|done..]. destruct C. by constructor. Qed.

Lemma flat_length_cons (g : MQ) (m : Msg) (l : list Msg) :
  msg_ok g m -> Z.of_nat (length (flat_map (unsent g) (m :: l))) =
    Z.of_nat (length (text g (msg m))) - sent m + Z.of_nat (length (flat_map (unsent g) l)).
Proof. intros M. unfold msg_ok in M. cbn. rewrite length_app. unfold unsent at 1. rewrite length_drop. lia. Qed.

Lemma length_bound (g : MQ) (cnt : bid -> nat) (exc : list bid) (b : bid) (mb : MsgBuf) :
  Core g cnt exc -> heap g !! b = Some mb -> mb_length mb <= 8192.
Proof.
  intros C E. destruct (core_power _ _ _ C b mb E) as [P L].
  assert (Z.shiftl 1 (mb_power mb) <= 2 ^ 13); [|unfold bufsize in L; lia].
  rewrite Z.shiftl_1_l. apply Z.pow_le_mono_r; lia.
Qed.

Section Delete.
Context (hs oth : list bid).

(** Taking the head message off. *)
Lemma delmsg_whole (g : MQ) (mq : MsgQ) (par : gmap bid bid) (w : which) (k : Z) (m : Msg)
    (rest : list Msg) :
  Inv g par hs (qrefs mq ++ oth) -> queue_ok g mq -> qlist mq w = m :: rest ->
  order mq ≡ₚ m :: order (set_qlist mq w rest) ->
  Z.of_nat (length (text g (msg m))) - sent m <= k < 2 ^ 32 ->
  exists g' mq' par', msgq_delmsg g mq w k = Ok (g', mq', k - (Z.of_nat (length (text g (msg m))) - sent m)) /\
    Inv g' par' hs (qrefs mq' ++ oth) /\ queue_ok g' mq' /\ (forall b, text g' b = text g b) /\
    order mq' = order (set_qlist mq w rest).
Proof.
  intros I Q El Eo K. destruct Q as [QM QT PT QL QB QC]. rewrite Eo in QM. inversion_clear QM as [|? ? M QM'].
  set (L := order (set_qlist mq w rest)) in *.
  assert (qrefs mq ≡ₚ msg m :: map msg L) as Er by (unfold qrefs; by rewrite Eo).
  assert (drops hs (qrefs mq ++ oth) hs (map msg L ++ oth) (msg m)) as Dr.
  { split; [rewrite Er; symmetry; apply Permutation_middle|]. split; [done|]. intros x Hx. rewrite Er. by right. }
  destruct (clean_inv g par hs (qrefs mq ++ oth) hs (map msg L ++ oth) (msg m) I Dr) as (g' & par' & Hc & I' & Kp).
  pose proof (text_keeps _ _ _ Kp) as T.
  destruct (heap g !! msg m) as [mb|] eqn:E; cycle 1.
  { exfalso. unfold msg_ok, text in M. rewrite E in M. cbn in M. lia. }
  assert (mb_length mb = Z.of_nat (length (text g (msg m)))) as Eln by (unfold text; by rewrite E).
  unfold stream in QL. rewrite (Permutation_flat_map (unsent g) Eo) in QL. rewrite flat_length_cons in QL by done.
  unfold msg_ok in M. unfold msgq_delmsg. rewrite El. unfold load. rewrite E. cbn [obind]. rewrite Eln.
  rewrite u32_small by lia. rewrite (proj2 (Z.leb_le _ _)) by lia. rewrite Hc. cbn [obind].
  eexists _, _, par'. split; [reflexivity|]. unfold qrefs, stream.
  rewrite set_qlist_same_lists. fold L. split; [by apply inv_set_msgs|]. split; [|done].
  destruct (set_qlist_tails (MkQ (u32 (mq_length mq - (Z.of_nat (length (text g (msg m))) - sent m)))
     (u32 (mq_count mq - 1)) (queue mq) (prio mq)) w m rest) with (l := rest) as [Tl1 Tl2];
    [by destruct w|done|done|by left|].
  assert (flat_map (unsent g') L = flat_map (unsent g) L) as Sm by (apply unsent_text; intros; apply T).
  constructor; try done; unfold stream; rewrite ?set_qlist_same_lists; fold L.
  - eapply msg_ok_text; [intros; apply T|done].
  - change (unsent (set_msgs g' _ _ _)) with (unsent g'). rewrite Sm.
    destruct w; cbn; rewrite u32_small; lia.
  - destruct w; cbn; rewrite u32_small; lia.
  - pose proof (inv_small _ _ _ _ I') as Sz. rewrite !length_app, length_map in Sz.
    rewrite Eo in QC. cbn in QC. destruct w; cbn; rewrite u32_small; lia.
Qed.

(** Sending part of the head message. *)
Lemma delmsg_part (g : MQ) (mq : MsgQ) (par : gmap bid bid) (w : which) (k : Z) (m : Msg) (rest : list Msg) :
  Inv g par hs (qrefs mq ++ oth) -> queue_ok g mq -> qlist mq w = m :: rest ->
  order mq = m :: order (set_qlist mq w rest) ->
  (forall s, 0 < s -> order (set_qlist mq w (MkMsg s (msg m) :: rest)) =
     MkMsg s (msg m) :: order (set_qlist mq w rest)) ->
  0 < k < Z.of_nat (length (text g (msg m))) - sent m ->
  exists mq', msgq_delmsg g mq w k = Ok (g, mq', 0) /\
    Inv g par hs (qrefs mq' ++ oth) /\ queue_ok g mq' /\
    order mq' = MkMsg (sent m + k) (msg m) :: order (set_qlist mq w rest).
Proof.
  intros I Q El Eo Es K. destruct Q as [QM QT PT QL QB QC]. rewrite Eo in QM.
  inversion_clear QM as [|? ? M QM']. set (L := order (set_qlist mq w rest)) in *.
  destruct (heap g !! msg m) as [mb|] eqn:E; cycle 1.
  { exfalso. unfold msg_ok, text in M. rewrite E in M. cbn in M. lia. }
  assert (mb_length mb = Z.of_nat (length (text g (msg m)))) as Eln by (unfold text; by rewrite E).
  unfold stream in QL. rewrite Eo in QL. rewrite flat_length_cons in QL by done.
  unfold msg_ok in M. unfold msgq_delmsg. rewrite El. unfold load. rewrite E. cbn [obind]. rewrite Eln.
  pose proof (length_bound _ _ _ _ _ (inv_core _ _ _ _ I) E).
  rewrite u32_small by lia. rewrite (proj2 (Z.leb_gt _ _)) by lia. rewrite (u32_small (sent m + k)) by lia.
  eexists. split; [reflexivity|]. unfold qrefs. rewrite set_qlist_same_lists, Es by lia. fold L. split.
  { cbn [map msg]. unfold qrefs in I. by rewrite Eo in I. }
  split; [|done].
  destruct (set_qlist_tails (MkQ (u32 (mq_length mq - k)) (mq_count mq) (queue mq) (prio mq)) w m rest)
    with (l := MkMsg (sent m + k) (msg m) :: rest) as [Tl1 Tl2]; [by destruct w|done|done|by eauto|].
  constructor; try done; unfold stream; rewrite ?set_qlist_same_lists, ?Es by lia; fold L.
  - constructor; [unfold msg_ok; cbn; lia|done].
  - rewrite flat_length_cons by (unfold msg_ok; cbn; lia). cbn [sent msg].
    destruct w; cbn; rewrite u32_small; lia.
  - destruct w; cbn; rewrite u32_small; lia.
  - rewrite Eo in QC. cbn in *. by destruct w.
Qed.
End Delete.

(** What deleting [k] bytes has to achieve. *)
Definition deletes (hs oth : list bid) (g : MQ) (mq : MsgQ) (k : Z) (g' : MQ) (mq' : MsgQ) : Prop :=
  (exists par', Inv g' par' hs (qrefs mq' ++ oth)) /\ queue_ok g' mq' /\ (forall b, text g' b = text g b) /\
  stream g' mq' = drop (Z.to_nat k) (stream g mq).

Lemma stream_text (g g' : MQ) (mq : MsgQ) : (forall b, text g' b = text g b) -> stream g' mq = stream g mq.
Proof. intros T. apply unsent_text. auto. Qed.

Lemma delete_loop_spec (fuel : nat) (hs oth : list bid) (g : MQ) (mq : MsgQ) (par : gmap bid bid) (k : Z) :
  Inv g par hs (qrefs mq ++ oth) -> queue_ok g mq -> 0 <= k < 2 ^ 32 ->
  (length (order mq) + (if (0 <? k)%Z then 1 else 0) < fuel)%nat ->
  exists g' mq', delete_loop fuel g mq k = Ok (g', mq') /\ deletes hs oth g mq k g' mq'.
Proof.
  revert g mq par k. induction fuel as [|fuel IH]; intros g mq par k I Q K F; [lia|].
  cbn [delete_loop]. destruct (0 <? k) eqn:Kp; reflect; cycle 1.
  { exists g, mq. split; [done|]. replace k with 0 by lia. split; [eauto|done]. }
  destruct (next_list mq) as [w|] eqn:N; cycle 1.
  { exists g, mq. split; [done|]. split; [eauto|]. split; [done|]. split; [done|].
    unfold stream, order. unfold next_list in N. destruct (queue mq) as [|m q]; cbn in N.
    - destruct (prio mq); [cbn; by rewrite drop_nil|done].
    - destruct (0 <? sent m); [done|]. by destruct (prio mq). }
  destruct (next_list_order mq w (q_tail _ _ Q) N) as (m & rest & El & Eo & Es).
  assert (msg_ok g m) as M. { pose proof (q_msgs _ _ Q) as QM. rewrite Eo in QM. by inversion QM. }
  set (len := Z.of_nat (length (text g (msg m))) - sent m).
  assert (length (unsent g m) = Z.to_nat len) as Ul.
  { unfold unsent. rewrite length_drop. unfold msg_ok in M. lia. }
  destruct (decide (len <= k)) as [D|D].
  - destruct (delmsg_whole hs oth g mq par w k m rest I Q El) as (g1 & mq1 & par1 & -> & I1 & Q1 & T1 & O1); [by rewrite Eo|lia|].
    cbn [obind]. fold len. unfold msg_ok in M. assert (0 < len) by lia.
    destruct (IH g1 mq1 par1 (k - len) I1 Q1) as (g' & mq' & -> & I' & Q' & T' & S'); [lia| |].
    { rewrite O1. rewrite Eo in F. cbn in F. destruct (0 <? k - len); lia. }
    exists g', mq'. split; [done|]. split; [done|]. split; [done|]. split; [intros b; by rewrite T'|].
    rewrite S', (stream_text g g1) by done. unfold stream. rewrite Eo, O1. cbn [flat_map].
    rewrite drop_app_ge by lia. f_equal. lia.
  - destruct (delmsg_part hs oth g mq par w k m rest I Q El Eo Es) as (mq1 & -> & I1 & Q1 & O1); [lia|].
    cbn [obind]. destruct fuel as [|fuel]; [destruct (order mq); cbn in F; lia|].
    cbn [delete_loop]. exists g, mq1. split; [done|]. split; [eauto|]. split; [done|]. split; [done|].
    unfold stream. rewrite Eo, O1. cbn [flat_map]. rewrite drop_app_le by lia. f_equal.
    unfold unsent. cbn [sent msg]. rewrite drop_drop. f_equal. unfold msg_ok in M. lia.
Qed.

Lemma msgq_delete_lemma (hs oth : list bid) (g : MQ) (mq : MsgQ) (par : gmap bid bid) (k : Z) :
  Inv g par hs (qrefs mq ++ oth) -> queue_ok g mq -> 0 <= k < 2 ^ 32 ->
  exists g' mq', msgq_delete g mq k = Ok (g', mq') /\ deletes hs oth g mq k g' mq'.
Proof.
  intros I Q K. apply (delete_loop_spec _ hs oth g mq par k I Q K). unfold order.
  destruct (queue mq) as [|m q]; [|destruct (0 <? sent m)]; cbn [length]; rewrite ?length_app; cbn [length];
    destruct (0 <? k); lia.
Qed.

(** ** Allocation *)
Definition inc (cnt : bid -> nat) (b : bid) : bid -> nat :=
  fun x => if decide (x = b) then S (cnt x) else cnt x.

Lemma power_for_ok (len : Z) : 1 <= len <= 8192 ->
  5 <= power_for len <= 13 /\ len <= Z.shiftl 1 (power_for len).
Proof.
  intros H. unfold power_for.
  assert (forall n p, 5 <= p -> p + Z.of_nat n = 14 -> len <= 2 ^ 13 -> p <= 13 ->
    5 <= find_power n p len <= 13 /\ len <= Z.shiftl 1 (find_power n p len)) as G; [|apply G; unfold MB_BASE_SHIFT; lia].
  intros n. induction n as [|n IH]; intros p H1 H2 H3 H4; [lia|]. cbn [find_power].
  assert ((Z.shiftr (len - 1) p =? 0) = (len <=? 2 ^ p)) as ->.
  { rewrite Z.shiftr_div_pow2 by lia. apply eq_true_iff_eq. rewrite Z.eqb_eq, Z.leb_le.
    assert (0 < 2 ^ p) by (apply Z.pow_pos_nonneg; lia).
    rewrite Z.div_small_iff by lia. lia. }
  case_if; reflect.
  - split; [lia|]. by rewrite Z.shiftl_1_l.
  - destruct (decide (p = 13)) as [->|]; [lia|]. apply IH; lia.
Qed.

(** The state once the free list or the allocator has given buffer [b]. *)
Lemma core_init (g : MQ) (cnt : bid -> nat) (b : bid) (mb : MsgBuf) (al : Z) (fs : list bid) :
  Core g cnt [] -> heap g !! b = Some mb -> b_free (bucket_at g (mb_power mb)) = b :: fs ->
  al = b_alloc (bucket_at g (mb_power mb)) ->
  Core (store (set_bucket g (mb_power mb - MB_BASE_SHIFT)
                 (Bucket al (b_used (bucket_at g (mb_power mb)) + 1) fs)) b (with_ref (with_real mb None) 1))
    (inc cnt b) [].
Proof.
  intros C E Fr ->.
  assert (cnt b = O) as Z0. { apply (core_free _ _ _ C b mb E); [apply not_elem_of_nil|]. rewrite Fr. left. }
  pose proof (core_free_nodup _ _ _ C (mb_power mb)) as ND. rewrite Fr in ND. apply NoDup_cons in ND as [N1 N2].
  assert (forall x, x <> b -> inc cnt b x = cnt x) as D1.
  { intros x Hx. unfold inc. by rewrite decide_False. }
  assert (inc cnt b b = 1%nat) as D2 by (unfold inc; rewrite decide_True by done; lia).
  constructor; try setoid_rewrite bucket_at_store; try setoid_rewrite bucket_at_set_bucket;
    cbn [store set_heap set_bucket heap msglist brk].
  - intros x mx Hx. lookup_cases Hx; [by rewrite D2|]. rewrite D1 by done. by eapply core_ref.
  - intros x Hx. destruct (decide (x = b)) as [->|Hn]; [rewrite lookup_insert_eq; eauto|].
    rewrite lookup_insert_ne by done. rewrite D1 in Hx by done. by eapply core_dom.
  - intros x mx Hx. lookup_cases Hx; [by apply (core_power _ _ _ C b mb E)|by eapply core_power].
  - intros x mx Hx _. lookup_cases Hx.
    + rewrite decide_True by done. cbn. rewrite D2. split; [done|lia].
    + rewrite D1 by done. rewrite <- (core_free _ _ _ C x mx Hx) by apply not_elem_of_nil.
      case_decide as D; [|done]. rewrite <- D, Fr. cbn. rewrite elem_of_cons. split; [auto|].
      intros [->|]; done.
  - intros x i Hx. assert (x ∈ b_free (bucket_at g i) /\ x <> b) as [Hx' Hn].
    { case_decide as D; [subst i; rewrite Fr; cbn in Hx; split; [by right|by intros ->]|].
      split; [done|]. intros ->. destruct (core_free_in _ _ _ C b i Hx) as (mx & ? & ?). congruence. }
    rewrite lookup_insert_ne by done. by apply (core_free_in _ _ _ C).
  - intros i. case_decide; [done|apply C].
  - intros x i Hx. by apply elem_of_nil in Hx.
  - intros i. case_decide as D; [|apply C]. cbn.
    pose proof (core_count _ _ _ C (mb_power mb)) as CC. rewrite Fr in CC. cbn in CC. lia.
  - intros x mx Hx _. lookup_cases Hx; eapply core_linked; eauto; apply not_elem_of_nil.
  - intros x Hx. pose proof (core_msglist _ _ _ C x Hx). destruct (decide (x = b)) as [->|]; [lia|by rewrite D1].
  - intros x [mx Hx]. eapply core_brk; [exact C|]. lookup_cases Hx; eauto.
Qed.

(** A fresh buffer, seen as the head of its free list. *)
Lemma core_malloc (g : MQ) (cnt : bid -> nat) (power t : Z) (k : bucket) :
  Core g cnt [] -> 5 <= power <= 13 -> k = bucket_at g power -> b_free k = [] ->
  Core (set_brk (set_tot (set_bucket (store g (brk g) (MkBuf false None 0 power []))
     (power - MB_BASE_SHIFT) (Bucket (b_alloc k + 1) (b_used k) [brk g])) t) (Pos.succ (brk g))) cnt [].
Proof.
  intros C P -> Fr.
  assert (heap g !! brk g = None) as N.
  { destruct (heap g !! brk g) eqn:E; [|done]. pose proof (core_brk _ _ _ C (brk g) ltac:(eauto)). lia. }
  assert (cnt (brk g) = O) as Z0.
  { destruct (decide (cnt (brk g) = O)) as [|D]; [done|]. destruct (core_dom _ _ _ C (brk g)); [lia|congruence]. }
  assert (forall j, bucket_at (set_brk (set_tot (set_bucket (store g (brk g) (MkBuf false None 0 power []))
      (power - MB_BASE_SHIFT) (Bucket (b_alloc (bucket_at g power) + 1) (b_used (bucket_at g power)) [brk g])) t)
      (Pos.succ (brk g))) j = if decide (power = j) then
        Bucket (b_alloc (bucket_at g power) + 1) (b_used (bucket_at g power)) [brk g] else bucket_at g j) as B.
  { intros j. apply (bucket_at_set_bucket (store g (brk g) (MkBuf false None 0 power []))). }
  constructor; try setoid_rewrite B; cbn [store set_heap set_bucket set_tot set_brk heap msglist brk].
  - intros x mx Hx. lookup_cases Hx; [by rewrite Z0|by eapply core_ref].
  - intros x Hx. destruct (decide (x = brk g)) as [->|]; [lia|]. rewrite lookup_insert_ne by done. by eapply core_dom.
  - intros x mx Hx. lookup_cases Hx; [|by eapply core_power]. split; [done|]. cbn.
    unfold mb_length, bufsize. cbn. rewrite Z.shiftl_1_l. apply Z.pow_nonneg. lia.
  - intros x mx Hx _. lookup_cases Hx.
    + rewrite decide_True by done. cbn. rewrite elem_of_cons. split; [done|by left].
    + rewrite <- (core_free _ _ _ C x mx Hx) by apply not_elem_of_nil. case_decide as D; [|done].
      rewrite <- D, Fr. cbn. rewrite elem_of_cons. split; [|intros []%elem_of_nil].
      intros [->|[]%elem_of_nil]; done.
  - intros x i Hx. case_decide as D.
    + cbn in Hx. apply list_elem_of_singleton in Hx as ->. rewrite lookup_insert_eq. eauto.
    + destruct (core_free_in _ _ _ C x i Hx) as (mx & Hx' & Hp). rewrite lookup_insert_ne by congruence. eauto.
  - intros i. case_decide as D; [apply NoDup_singleton|apply C].
  - intros x i Hx. by apply elem_of_nil in Hx.
  - intros i. case_decide as D; [|apply C]. cbn. pose proof (core_count _ _ _ C power) as CC.
    rewrite Fr in CC. cbn in CC. lia.
  - intros x mx Hx _. lookup_cases Hx; [|eapply core_linked; eauto; apply not_elem_of_nil].
    symmetry. apply bool_decide_eq_false. intros Hm. pose proof (core_msglist _ _ _ C _ Hm). lia.
  - apply C.
  - intros x [mx Hx]. lookup_cases Hx; [lia|]. pose proof (core_brk _ _ _ C x ltac:(eauto)). lia.
Qed.

Section Allocate.
Context (BUFFERPOOL : Z).

Lemma alloc_buf_spec (g : MQ) (cnt : bid -> nat) (power : Z) :
  Core g cnt [] -> 5 <= power <= 13 ->
  alloc_buf BUFFERPOOL g power = Ok (g, None) \/
  exists g' b mb, alloc_buf BUFFERPOOL g power = Ok (g', Some b) /\ cnt b = O /\
    Core g' (inc cnt b) [] /\ heap g' !! b = Some mb /\ mb_real mb = None /\ mb_linked mb = false /\
    mb_power mb = power /\ (forall x, x <> b -> heap g' !! x = heap g !! x) /\ msglist g' = msglist g.
Proof.
  intros C P. unfold alloc_buf. destruct (b_free (bucket_at g power)) as [|f fs] eqn:Fr.
  - case_if; [|by left]. right. set (t := tot_bufsize g + Z.shiftl 1 power).
    pose proof (core_malloc g cnt power t (bucket_at g power) C P eq_refl Fr) as C1.
    match type of C1 with Core ?g1 _ _ => set (g1' := g1) in C1 end.
    assert (heap g1' !! brk g = Some (MkBuf false None 0 power [])) as E1 by apply lookup_insert_eq.
    assert (bucket_at g1' power = Bucket (b_alloc (bucket_at g power) + 1) (b_used (bucket_at g power)) [brk g]) as B1.
    { unfold g1', bucket_at. cbn. by rewrite lookup_insert_eq. }
    pose proof (core_init g1' cnt (brk g) _ (b_alloc (bucket_at g power) + 1) [] C1 E1) as C2. cbn [mb_power] in C2. rewrite B1 in C2.
    specialize (C2 eq_refl eq_refl). unfold load. cbn [set_bucket heap set_brk set_tot store set_heap].
    rewrite lookup_insert_eq. cbn [obind]. eexists _, _, _. split; [reflexivity|].
    split; [apply (core_free _ _ _ C1 (brk g) _ E1); [apply not_elem_of_nil|cbn [mb_power]; rewrite B1; left]|].
    split; [|split; [apply lookup_insert_eq|]].
    + match goal with |- Core ?a _ _ => match type of C2 with Core ?b _ _ => replace a with b; [exact C2|] end end.
      unfold g1', store, set_heap, set_bucket, set_brk, set_tot, bucket_at. cbn.
      by rewrite !insert_insert_eq, lookup_insert_eq.
    + cbn. split; [done|]. split; [done|]. split; [done|]. split; [|done].
      intros x Hx. by rewrite !lookup_insert_ne.
  - right. destruct (core_free_in _ _ _ C f power) as (mb & E & Ep); [rewrite Fr; left|].
    assert (cnt f = O) as Z0. { apply (core_free _ _ _ C f mb E); [apply not_elem_of_nil|]. rewrite Ep, Fr. left. }
    pose proof (core_init g cnt f mb (b_alloc (bucket_at g power)) fs C E) as C2. rewrite Ep in C2. specialize (C2 Fr eq_refl).
    unfold load. cbn [set_bucket heap]. rewrite E. cbn [obind]. eexists _, _, _. split; [reflexivity|].
    split; [done|]. split; [|split; [apply lookup_insert_eq|]].
    + match goal with |- Core ?a _ _ => match type of C2 with Core ?b _ _ => replace a with b; [exact C2|] end end.
      unfold store, set_heap, set_bucket, bucket_at. cbn. by rewrite !insert_insert_eq, !lookup_insert_eq.
    + cbn. split; [done|]. split; [|split; [done|split; [|done]]].
      * rewrite (core_linked _ _ _ C f mb E) by apply not_elem_of_nil. apply bool_decide_eq_false.
        intros Hm. pose proof (core_msglist _ _ _ C _ Hm). lia.
      * intros x Hx. by rewrite !lookup_insert_ne.
Qed.

(** A change of [real] or of the text. *)
Lemma core_same (g : MQ) (cnt : bid -> nat) (b : bid) (mb mb' : MsgBuf) :
  Core g cnt [] -> heap g !! b = Some mb -> mb_ref mb' = mb_ref mb -> mb_power mb' = mb_power mb ->
  mb_linked mb' = mb_linked mb -> mb_length mb' <= bufsize mb -> Core (store g b mb') cnt [].
Proof.
  intros C E S1 S2 S3 S4.
  constructor; try setoid_rewrite bucket_at_store; cbn [store set_heap heap msglist brk]; try apply C.
  - intros x mx Hx. lookup_cases Hx; [rewrite S1|]; by eapply core_ref.
  - intros x Hx. destruct (decide (x = b)) as [->|]; [rewrite lookup_insert_eq; eauto|].
    rewrite lookup_insert_ne by done. by eapply core_dom.
  - intros x mx Hx. lookup_cases Hx; [|by eapply core_power]. unfold bufsize in *. rewrite S2.
    split; [by apply (core_power _ _ _ C b mb E)|done].
  - intros x mx Hx He. lookup_cases Hx; [rewrite S2|]; by eapply core_free.
  - intros x i Hx. destruct (core_free_in _ _ _ C x i Hx) as (mx & Hx' & Hp).
    destruct (decide (x = b)) as [->|]; [|rewrite lookup_insert_ne by done; eauto].
    rewrite lookup_insert_eq. eexists; split; [done|]. congruence.
  - intros x mx Hx He. lookup_cases Hx; [rewrite S3|]; by eapply core_linked.
  - intros x [mx Hx]. eapply core_brk; [exact C|]. lookup_cases Hx; eauto.
Qed.

Lemma core_real (g : MQ) (cnt : bid -> nat) (b : bid) (mb : MsgBuf) (r : option bid) :
  Core g cnt [] -> heap g !! b = Some mb -> Core (store g b (with_real mb r)) cnt [].
Proof. intros C E. apply (core_same g cnt b mb); try done. by apply (core_power _ _ _ C b mb E). Qed.

(** [t] takes the place of [b] on the list of active buffers. *)
Lemma core_swap (g g' : MQ) (cnt : bid -> nat) (b t : bid) (mb mt mb' mt' : MsgBuf) :
  Core g cnt [] -> b <> t -> heap g !! b = Some mb -> heap g !! t = Some mt ->
  mb_linked mb = true -> mb_linked mt = false -> (0 < cnt t)%nat ->
  mb_ref mb' = mb_ref mb -> mb_power mb' = mb_power mb -> mb_length mb' = mb_length mb -> mb_linked mb' = false ->
  mb_ref mt' = mb_ref mt -> mb_power mt' = mb_power mt -> mb_length mt' <= bufsize mt -> mb_linked mt' = true ->
  heap g' = <[b := mb']> (<[t := mt']> (heap g)) -> (forall i, bucket_at g' i = bucket_at g i) ->
  brk g' = brk g -> msglist g' = map (fun x => if Pos.eqb x b then t else x) (msglist g) ->
  Core g' cnt [].
Proof.
  intros C NE Eb Et Lb Lt Pt B1 B2 B3 B4 T1 T2 T3 T4 Hh Hb Hk Hm.
  assert (forall x mx, heap g' !! x = Some mx ->
    (x = b /\ mx = mb') \/ (x = t /\ mx = mt') \/ (x <> b /\ x <> t /\ heap g !! x = Some mx)) as Cases.
  { intros x mx. rewrite Hh. intros Hx. apply lookup_insert_Some in Hx as [[-> ->]|[N1 Hx]]; [auto|].
    apply lookup_insert_Some in Hx as [[-> ->]|[N2 Hx]]; auto 6. }
  assert (forall x, is_Some (heap g' !! x) <-> is_Some (heap g !! x)) as Dom.
  { intros x. rewrite Hh. destruct (decide (x = b)) as [->|]; [rewrite lookup_insert_eq, Eb; split; eauto|].
    rewrite lookup_insert_ne by done. destruct (decide (x = t)) as [->|]; [rewrite lookup_insert_eq, Et; split; eauto|].
    by rewrite lookup_insert_ne. }
  assert (b ∈ msglist g) as Mb.
  { apply (proj1 (bool_decide_eq_true (b ∈ msglist g))). rewrite <- Lb. symmetry. apply (core_linked _ _ _ C b mb Eb), not_elem_of_nil. }
  assert (t ∉ msglist g) as Mt.
  { apply (proj1 (bool_decide_eq_false (t ∈ msglist g))). rewrite <- Lt. symmetry. apply (core_linked _ _ _ C t mt Et), not_elem_of_nil. }
  assert (forall x, x ∈ msglist g' <-> x = t \/ (x ∈ msglist g /\ x <> b)) as Mem.
  { intros x. rewrite Hm. rewrite list_elem_of_fmap. split.
    - intros (y & -> & Hy). destruct (Pos.eqb_spec y b); auto.
    - intros [->|[Hx Hn]]; [exists b|exists x]; [by rewrite Pos.eqb_refl|].
      by rewrite (proj2 (Pos.eqb_neq x b)). }
  constructor; try setoid_rewrite Hb; try apply C.
  - intros x mx [[-> ->]|[[-> ->]|(_ & _ & Hx)]]%Cases; rewrite ?B1, ?T1; eauto using core_ref.
  - intros x Hx. apply Dom. by eapply core_dom.
  - intros x mx [[-> ->]|[[-> ->]|(_ & _ & Hx)]]%Cases; [| |by eapply core_power].
    + unfold bufsize in *. rewrite B2, B3. by apply (core_power _ _ _ C b mb Eb).
    + unfold bufsize in *. rewrite T2. split; [|done]. by apply (core_power _ _ _ C t mt Et).
  - intros x mx [[-> ->]|[[-> ->]|(_ & _ & Hx)]]%Cases He; rewrite ?B2, ?T2; eauto using core_free.
  - intros x i Hx. destruct (core_free_in _ _ _ C x i Hx) as (mx & Hx' & Hp).
    destruct (proj2 (Dom x) ltac:(eauto)) as [mx' Hx'']. exists mx'. split; [done|].
    apply Cases in Hx'' as [[-> ->]|[[-> ->]|(_ & _ & Hx'')]]; congruence.
  - intros x mx [[-> ->]|[[-> ->]|(N1 & N2 & Hx)]]%Cases _.
    + rewrite B4. symmetry. apply bool_decide_eq_false. rewrite Mem. naive_solver.
    + rewrite T4. symmetry. apply bool_decide_eq_true. rewrite Mem. auto.
    + rewrite (core_linked _ _ _ C x mx Hx) by apply not_elem_of_nil. apply bool_decide_ext. rewrite Mem. naive_solver.
  - intros x [->|[Hx _]]%Mem; [done|]. by eapply core_msglist.
  - intros x Hx. rewrite Hk. eapply core_brk; [exact C|]. by apply Dom.
Qed.
End Allocate.

Lemma text_store (g : MQ) (b : bid) (mb : MsgBuf) (x : bid) :
  text (store g b mb) x = if decide (x = b) then mb_msg mb else text g x.
Proof.
  unfold text. cbn. case_decide as D; [subst; by rewrite lookup_insert_eq|by rewrite lookup_insert_ne].
Qed.

Lemma text_real (g : MQ) (b : bid) (mb : MsgBuf) (r : option bid) (x : bid) :
  heap g !! b = Some mb -> text (store g b (with_real mb r)) x = text g x.
Proof. intros E. rewrite text_store. case_decide; [subst; unfold text; by rewrite E|done]. Qed.

(** A message that keeps its own buffer. *)
Lemma inv_self (g : MQ) (par : gmap bid bid) (hs qs : list bid) (b : bid) (mb : MsgBuf) :
  Inv g par hs qs -> b ∈ hs -> heap g !! b = Some mb -> mb_real mb = None ->
  Inv (store g b (with_real mb (Some b))) par hs qs.
Proof.
  intros I Hb E R. assert (forall x mx, heap (store g b (with_real mb (Some b))) !! x = Some mx ->
    (x = b /\ mx = with_real mb (Some b)) \/ x <> b /\ heap g !! x = Some mx) as Cs.
  { cbn. intros x mx Hx. apply lookup_insert_Some in Hx as [[-> <-]|[? Hx]]; auto. }
  constructor.
  - apply core_real; [apply I|done].
  - intros r p. rewrite (inv_par _ _ _ _ I). split.
    + intros (mp & Hp & P & Rp & NE). exists mp. cbn. rewrite lookup_insert_ne; [done|]. intros <-. congruence.
    + intros (mp & Hp & P & Rp & NE). apply Cs in Hp as [[-> ->]|[_ Hp]]; [|eauto]. by injection Rp as <-.
  - intros r Hr. destruct (inv_par_real _ _ _ _ I r Hr) as (mr & Er & Rr & Lr). exists mr. cbn.
    rewrite lookup_insert_ne; [done|]. intros <-.
    destruct (inv_handles _ _ _ _ I b Hb) as [N _]. rewrite N in Hr. by destruct Hr.
  - intros x Hx. destruct (inv_handles _ _ _ _ I x Hx) as [N H]. split; [done|].
    intros mx [[-> ->]|[_ Hm]]%Cs Rm; [done|auto].
  - intros x mx r Hx [[-> ->]|[_ Hm]]%Cs Rm; [by injection Rm|]. by eapply inv_queued.
  - intros r p Hr. rewrite !text_real by done. by apply (inv_copy _ _ _ _ I).
  - apply I.
Qed.

(** A message copied into stand-in [t]. *)
Lemma inv_standin (g g1 g2 : MQ) (par : gmap bid bid) (hs qs : list bid) (b t : bid) (mb mt : MsgBuf) :
  Inv g par hs qs -> b ∈ hs -> heap g !! b = Some mb -> mb_real mb = None ->
  refs hs qs par t = O -> Core g1 (inc (refs hs qs par) t) [] -> heap g1 !! t = Some mt ->
  mb_real mt = None -> mb_linked mt = false -> mb_length mb <= bufsize mt ->
  (forall x, x <> t -> heap g1 !! x = heap g !! x) ->
  heap g2 = <[b := with_linked (with_real mb (Some t)) false]>
              (<[t := with_linked (with_msg mt (mb_msg mb)) true]> (heap g1)) ->
  (forall i, bucket_at g2 i = bucket_at g1 i) -> brk g2 = brk g1 ->
  msglist g2 = map (fun x => if Pos.eqb x b then t else x) (msglist g1) ->
  Inv g2 (<[t := b]> par) hs qs /\ text g2 t = text g b /\
  (forall x, x <> t -> text g2 x = text g x).
Proof.
  intros I Hb E R Zt C1 Et Rt Lt Sz Same Hh Hk Hbr Hm.
  pose proof (refs_pos hs qs par b ltac:(set_solver)) as Pb.
  assert (b <> t) as NE by (intros ->; lia).
  destruct (inv_handles _ _ _ _ I b Hb) as [Nb Lb]. destruct (Lb mb E R) as [Lb1 Lb2].
  assert (par !! t = None) as Nt by (unfold refs in Zt; destruct (par !! t); [lia|done]).
  assert (forall x, refs hs qs (<[t := b]> par) x = inc (refs hs qs par) t x) as RF.
  { intros x. unfold refs, inc. case_decide as D; [subst; rewrite lookup_insert_eq, Nt; lia|].
    by rewrite lookup_insert_ne. }
  assert (forall x, x <> t -> refs hs qs (<[t := b]> par) x = refs hs qs par x) as RF1.
  { intros x Hx. rewrite RF. unfold inc. by rewrite decide_False. }
  assert (t ∉ hs ++ qs) as NIn. { intros H. pose proof (refs_pos hs qs par t H). lia. }
  assert (forall x mx, heap g2 !! x = Some mx ->
    (x = b /\ mx = with_linked (with_real mb (Some t)) false) \/
    (x = t /\ mx = with_linked (with_msg mt (mb_msg mb)) true) \/
    (x <> b /\ x <> t /\ heap g !! x = Some mx)) as Cs.
  { rewrite Hh. intros x mx Hx. apply lookup_insert_Some in Hx as [[-> <-]|[N1 Hx]]; [auto|].
    apply lookup_insert_Some in Hx as [[-> <-]|[N2 Hx]]; [auto|]. rewrite Same in Hx by done. auto 6. }
  assert (forall x, x <> b -> x <> t -> heap g2 !! x = heap g !! x) as O2.
  { intros x N1 N2. rewrite Hh, !lookup_insert_ne by done. auto. }
  assert (forall x, x <> t -> text g2 x = text g x) as Tx.
  { intros x N. destruct (decide (x = b)) as [->|]; [|unfold text; by rewrite O2].
    unfold text. rewrite Hh, lookup_insert_eq, E. done. }
  assert (text g2 t = text g b) as Tt.
  { unfold text. rewrite Hh, lookup_insert_ne, lookup_insert_eq, E by done. done. }
  split; [|done]. constructor.
  - eapply core_ext; [intros x; symmetry; apply RF|].
    apply (core_swap g1 g2 _ b t mb mt (with_linked (with_real mb (Some t)) false)
      (with_linked (with_msg mt (mb_msg mb)) true) C1); try done; [by rewrite Same|].
    unfold inc. rewrite decide_True by done. lia.
  - intros r p. split.
    + intros [[<- <-]|[Nr Ep]]%lookup_insert_Some.
      * exists (with_linked (with_real mb (Some t)) false). rewrite Hh, lookup_insert_eq. rewrite RF1; auto.
      * apply (inv_par _ _ _ _ I) in Ep as (mp & Hp & P & Rp & NEp). exists mp.
        assert (p <> b) by (intros ->; congruence). assert (p <> t) by (intros ->; lia).
        rewrite O2, RF1 by done. done.
    + intros (mp & Hp & P & Rp & NEp). apply Cs in Hp as [[-> ->]|[[-> ->]|(N1 & N2 & Hp)]].
      * injection Rp as <-. apply lookup_insert_eq.
      * cbn in Rp. congruence.
      * rewrite RF1 in P by done. assert (par !! r = Some p) as Ep by (apply (inv_par _ _ _ _ I); eauto).
        rewrite lookup_insert_ne; [done|]. intros <-. congruence.
  - intros r Hr. destruct (decide (r = t)) as [->|Nr].
    + exists (with_linked (with_msg mt (mb_msg mb)) true).
      rewrite Hh, lookup_insert_ne, lookup_insert_eq by done. done.
    + rewrite lookup_insert_ne in Hr by done. destruct (inv_par_real _ _ _ _ I r Hr) as (mr & Er & ? & ?).
      exists mr. rewrite O2; [done| |done]. intros ->. rewrite Nb in Hr. by destruct Hr.
  - intros x Hx. destruct (inv_handles _ _ _ _ I x Hx) as [N H].
    assert (x <> t) by (intros ->; set_solver). split; [by rewrite lookup_insert_ne|].
    intros mx Hm' Rm. apply Cs in Hm' as [[-> ->]|[[-> ->]|(N1 & N2 & Hp)]]; [done|done|auto].
  - intros x mx r Hx Hm' Rm. apply Cs in Hm' as [[-> ->]|[[-> ->]|(N1 & N2 & Hp)]]; [done|cbn in Rm; congruence|].
    by eapply inv_queued.
  - intros r p [[<- <-]|[Nr Ep]]%lookup_insert_Some; [by rewrite Tt, Tx|].
    rewrite !Tx; [by apply (inv_copy _ _ _ _ I)| |done]. intros ->.
    apply (inv_par _ _ _ _ I) in Ep as (mp & Hp & P & _). lia.
  - apply I.
Qed.

Lemma inv_set_sizes (g : MQ) (par : gmap bid bid) (hs qs : list bid) (n : Z) (s : gmap Z Z) :
  Inv g par hs qs -> Inv (set_sizes g n s) par hs qs.
Proof. intros [C ? ? ? ? ? ?]. constructor; [|done..]. destruct C. by constructor. Qed.

Lemma refs_perm (hs qs qs' : list bid) (par : gmap bid bid) (b : bid) :
  qs ≡ₚ qs' -> refs hs qs par b = refs hs qs' par b.
Proof.
  intros P. unfold refs. f_equal. apply (Permutation_count_occ Pos.eq_dec). by rewrite P.
Qed.

#[global] Instance inv_perm (g : MQ) (par : gmap bid bid) (hs : list bid) :
  Proper ((≡ₚ) ==> iff) (Inv g par hs).
Proof.
  assert (forall qs qs', qs ≡ₚ qs' -> Inv g par hs qs -> Inv g par hs qs') as H; [|by split; apply H].
  intros qs qs' P I. pose proof (fun b => refs_perm hs qs qs' par b P) as R.
  destruct I as [C Ip Ir Ih Iq Ic Is]. constructor; try done.
  - by eapply core_ext; [|exact C].
  - intros r p. by rewrite Ip, R.
  - intros b Hb. destruct (Ih b Hb) as [H1 H2]. split; [done|]. intros mb Hm Hr. rewrite <- P. auto.
  - intros b mb r. rewrite <- P. apply Iq.
  - by rewrite <- P.
Qed.

(** One more reference. *)
Lemma core_increment (g : MQ) (cnt : bid -> nat) (b : bid) (mb : MsgBuf) :
  Core g cnt [] -> heap g !! b = Some mb -> (0 < cnt b)%nat ->
  Core (store g b (with_ref mb (mb_ref mb + 1))) (inc cnt b) [].
Proof.
  intros C E N. pose proof (core_ref _ _ _ C b mb E) as R.
  assert (forall x, x <> b -> inc cnt b x = cnt x) as D1.
  { intros x Hx. unfold inc. by rewrite decide_False. }
  assert (inc cnt b b = S (cnt b)) as D2 by (unfold inc; by rewrite decide_True).
  constructor; try setoid_rewrite bucket_at_store; cbn [store set_heap heap msglist brk]; try apply C.
  - intros x mx Hx. lookup_cases Hx; [rewrite D2; lia|]. rewrite D1 by done. by eapply core_ref.
  - intros x Hx. destruct (decide (x = b)) as [->|]; [rewrite lookup_insert_eq; eauto|].
    rewrite lookup_insert_ne by done. rewrite D1 in Hx by done. by eapply core_dom.
  - intros x mx Hx. lookup_cases Hx; [by apply (core_power _ _ _ C b mb E)|by eapply core_power].
  - intros x mx Hx He. lookup_cases Hx.
    + rewrite (core_free _ _ _ C b mb E He), D2. lia.
    + rewrite D1 by done. by apply (core_free _ _ _ C).
  - intros x i Hx. destruct (core_free_in _ _ _ C x i Hx) as (mx & Hx' & Hp).
    destruct (decide (x = b)) as [->|]; [|rewrite lookup_insert_ne by done; eauto].
    rewrite lookup_insert_eq. eexists; split; [done|]. cbn. congruence.
  - intros x i Hx. by apply elem_of_nil in Hx.
  - intros x mx Hx He. lookup_cases Hx; by eapply core_linked.
  - intros x Hx. pose proof (core_msglist _ _ _ C x Hx). destruct (decide (x = b)) as [->|]; [lia|by rewrite D1].
  - intros x [mx Hx]. eapply core_brk; [exact C|]. lookup_cases Hx; eauto.
Qed.

Lemma inv_add_ref (g : MQ) (par : gmap bid bid) (hs qs : list bid) (b r : bid) (mb mr : MsgBuf) :
  Inv g par hs qs -> b ∈ hs -> heap g !! b = Some mb -> mb_real mb = Some r -> heap g !! r = Some mr ->
  Z.of_nat (length (hs ++ qs)) + 1 < 2 ^ 32 - 2 ->
  Inv (store g r (with_ref mr (mb_ref mr + 1))) par hs (r :: qs).
Proof.
  intros I Hb E R Er Sz. pose proof (refs_pos hs qs par b ltac:(set_solver)) as Pb.
  assert (forall x, refs hs (r :: qs) par x = inc (refs hs qs par) r x) as RF.
  { intros x. unfold refs, inc. rewrite (proj1 (Permutation_count_occ Pos.eq_dec (hs ++ r :: qs) (r :: hs ++ qs))
      (symmetry (Permutation_middle _ _ _))).
    case_decide as D; [subst; by rewrite count_occ_cons_eq|]. by rewrite count_occ_cons_neq by congruence. }
  assert (r <> b -> par !! r = Some b) as Lk by (intros NE; apply (inv_par _ _ _ _ I); eauto).
  assert (0 < refs hs qs par r)%nat as Pr.
  { destruct (decide (r = b)) as [->|NE]; [done|]. unfold refs. rewrite (Lk NE). lia. }
  assert (forall x, (0 < refs hs (r :: qs) par x <-> 0 < refs hs qs par x)%nat) as RP.
  { intros x. rewrite RF. unfold inc. case_decide; [subst; lia|done]. }
  assert (forall x mx, heap (store g r (with_ref mr (mb_ref mr + 1))) !! x = Some mx ->
    exists my, heap g !! x = Some my /\ same_buf my mx /\ mb_linked mx = mb_linked my) as Cs.
  { cbn. intros x mx Hx. lookup_cases Hx; [by exists mr|eauto]. }
  assert (forall x my, heap g !! x = Some my -> exists mx,
    heap (store g r (with_ref mr (mb_ref mr + 1))) !! x = Some mx /\ same_buf my mx /\ mb_linked mx = mb_linked my) as Fw.
  { cbn. intros x my Hx. destruct (decide (x = r)) as [->|]; [rewrite lookup_insert_eq|rewrite lookup_insert_ne by done; eauto].
    assert (my = mr) as -> by congruence. by eexists. }
  assert (forall x, text (store g r (with_ref mr (mb_ref mr + 1))) x = text g x) as Tx.
  { intros x. rewrite text_store. case_decide; [subst; unfold text; by rewrite Er|done]. }
  constructor.
  - eapply core_ext; [intros x; symmetry; apply RF|]. apply core_increment; [apply I|done|done].
  - intros q p. rewrite (inv_par _ _ _ _ I). split.
    + intros (mp & Hp & P & Rp & NE). destruct (Fw p mp Hp) as (mx & Hx & (_ & S2 & _) & _).
      exists mx. rewrite S2. by rewrite RP.
    + intros (mp & Hp & P & Rp & NE). destruct (Cs p mp Hp) as (mx & Hx & (_ & S2 & _) & _).
      rewrite RP in P. exists mx. rewrite <- S2. done.
  - intros q Hq. destruct (inv_par_real _ _ _ _ I q Hq) as (mq & Eq & Rq & Lq).
    destruct (Fw q mq Eq) as (mx & Hx & (_ & S2 & _) & L). exists mx. rewrite S2, L. done.
  - intros x Hx. destruct (inv_handles _ _ _ _ I x Hx) as [N H]. split; [done|].
    intros mx Hm Rm. destruct (Cs x mx Hm) as (my & Hy & (_ & S2 & _) & L). rewrite S2 in Rm.
    destruct (H my Hy Rm) as [L1 L2]. rewrite L. split; [done|]. apply not_elem_of_cons. split; [|done].
    intros ->. destruct (decide (r = b)) as [->|NE]; [congruence|]. rewrite (Lk NE) in N. done.
  - intros x mx q [->|Hx]%elem_of_cons Hm Rm; destruct (Cs _ mx Hm) as (my & Hy & (_ & S2 & _) & L); rewrite S2 in Rm.
    + destruct (decide (r = b)) as [->|NE]; [congruence|].
      destruct (inv_par_real _ _ _ _ I r) as (mz & ? & ? & _); [rewrite (Lk NE); eauto|]. congruence.
    + by eapply inv_queued.
  - intros q p Hq. rewrite !Tx. by apply (inv_copy _ _ _ _ I).
  - rewrite length_app. cbn [length]. rewrite length_app in Sz. lia.
Qed.

Section AddProofs.
Context (BUFFERPOOL : Z).

(** [g'] has the same text for everything in use, and [r] is the real buffer of [b]. *)
Definition realised (g g' : MQ) (hs qs : list bid) (par : gmap bid bid) (b r : bid) : Prop :=
  (exists par', Inv g' par' hs qs) /\ (exists mb, heap g' !! b = Some mb /\ mb_real mb = Some r) /\
  text g' r = text g b /\ (forall x, (0 < refs hs qs par x)%nat -> text g' x = text g x).

Lemma ensure_real_spec (g : MQ) (par : gmap bid bid) (hs qs : list bid) (b : bid) :
  Inv g par hs qs -> b ∈ hs -> text g b <> [] ->
  exists g' r, ensure_real BUFFERPOOL g b = Ok g' /\ realised g g' hs qs par b r.
Proof.
  intros I Hb NT. pose proof (inv_core _ _ _ _ I) as C.
  pose proof (refs_pos hs qs par b ltac:(set_solver)) as Pb. destruct (core_dom _ _ _ C b Pb) as [mb E].
  unfold ensure_real, load. rewrite E. cbn [obind]. destruct (mb_real mb) as [r|] eqn:R.
  { exists g, r. split; [done|]. split; [eauto|]. split; [eauto|]. split; [|done].
    destruct (decide (r = b)) as [->|NE]; [done|]. apply (inv_copy _ _ _ _ I). apply (inv_par _ _ _ _ I). eauto. }
  set (gs := set_sizes g _ _).
  assert (Inv gs par hs qs) as Is by (by apply inv_set_sizes).
  assert (heap gs !! b = Some mb) as Es by done.
  assert (1 <= mb_length mb <= 8192) as Ln.
  { split; [|by eapply length_bound]. unfold text in NT. rewrite E in NT. unfold mb_length.
    destruct (mb_msg mb); [done|]. cbn [length]. lia. }
  destruct (power_for_ok _ Ln) as [P1 P2]. unfold msgq_alloc, load.
  rewrite (proj2 (Z.ltb_ge _ _)) by (unfold MB_MAX_SHIFT; lia). rewrite Es. cbn [obind].
  assert (realised g (store gs b (with_real mb (Some b))) hs qs par b b) as Self.
  { split; [exists par; by apply inv_self|]. split; [exists (with_real mb (Some b)); split; [apply lookup_insert_eq|done]|].
    split; [by rewrite text_real|]. intros x _. by rewrite text_real. }
  case_if; [cbn [obind]; rewrite Pos.eqb_refl; eauto|].
  destruct (alloc_buf_spec BUFFERPOOL gs _ _ (inv_core _ _ _ _ Is) P1)
    as [->|(g1 & t & mt & -> & Zt & C1 & Et & Rt & Lt & Pt & Same & Ml)]; cbn [obind].
  { rewrite Es. cbn [obind]. rewrite Pos.eqb_refl. eauto. }
  assert (b <> t) as NE by (intros ->; lia).
  rewrite Same, Es by done. cbn [obind]. rewrite (proj2 (Pos.eqb_neq t b)) by done.
  cbn [store set_heap heap]. rewrite lookup_insert_ne, Et by done. cbn [obind].
  rewrite lookup_insert_eq. cbn [obind]. change (mb_linked (with_real mb (Some t))) with (mb_linked mb).
  destruct (inv_handles _ _ _ _ I b Hb) as [_ Lb]. destruct (Lb mb E R) as [-> _].
  eexists _, t. split; [reflexivity|].
  destruct (inv_standin gs g1 (store (set_msglist (store (store g1 b (with_real mb (Some t))) t
      (with_linked (with_msg mt (mb_msg mb)) true)) (map (fun x => if Pos.eqb x b then t else x) (msglist g1)))
      b (with_linked (with_real mb (Some t)) false)) par hs qs b t mb mt) as (I2 & T1 & T2); try done.
  { unfold bufsize. by rewrite Pt. }
  { cbn. rewrite (insert_insert_ne _ t b) by done. by rewrite insert_insert_eq. }
  split; [eauto|]. split; [exists (with_linked (with_real mb (Some t)) false); split; [apply lookup_insert_eq|done]|].
  split; [done|]. intros x Hx. rewrite T2; [done|]. intros ->. lia.
Qed.

(** The messages in front of and behind a new priority message. *)
Definition ahead (mq : MsgQ) : list Msg :=
  match queue mq with
  | m :: _ => if 0 <? sent m then m :: prio mq else prio mq
  | [] => prio mq
  end.
Definition behind (mq : MsgQ) : list Msg :=
  match queue mq with
  | m :: rest => if 0 <? sent m then rest else queue mq
  | [] => []
  end.

Definition order_with (w : which) (mq : MsgQ) (m : Msg) : list Msg :=
  match w with
  | Normal => order mq ++ [m]
  | Prio => ahead mq ++ m :: behind mq
  end.

Lemma order_split (mq : MsgQ) : order mq = ahead mq ++ behind mq.
Proof.
  unfold order, ahead, behind. destruct (queue mq) as [|m q]; [by rewrite app_nil_r|].
  by destruct (0 <? sent m).
Qed.

Lemma order_append (mq : MsgQ) (w : which) (r : bid) :
  order (set_qlist mq w (qlist mq w ++ [MkMsg 0 r])) = order_with w mq (MkMsg 0 r).
Proof.
  destruct w; unfold order, order_with, ahead, behind; cbn; unfold order; destruct (queue mq) as [|m q]; cbn.
  - by destruct (prio mq).
  - destruct (0 <? sent m); cbn; [by rewrite <- app_assoc|by rewrite <- app_assoc].
  - done.
  - destruct (0 <? sent m); cbn; by rewrite <- app_assoc.
Qed.

Lemma order_with_perm (mq : MsgQ) (w : which) (m : Msg) : order_with w mq m ≡ₚ m :: order mq.
Proof.
  destruct w; cbn; [symmetry; apply Permutation_cons_append|].
  rewrite order_split. symmetry. apply Permutation_middle.
Qed.

Lemma append_tail (l : list Msg) (r : bid) :
  Forall (fun m => sent m = 0) (tail l) -> Forall (fun m => sent m = 0) (tail (l ++ [MkMsg 0 r])).
Proof. destruct l as [|m l]; cbn; intros H; [constructor|]. apply Forall_app. auto. Qed.

Lemma add_queue_ok (g g' : MQ) (mq mq' : MsgQ) (w : which) (r : bid) :
  queue_ok g mq -> text g' r <> [] -> (forall x, x ∈ qrefs mq -> text g' x = text g x) ->
  mq' = set_qlist (MkQ (u32 (mq_length mq + Z.of_nat (length (text g' r)))) (u32 (mq_count mq + 1))
          (queue mq) (prio mq)) w (qlist mq w ++ [MkMsg 0 r]) ->
  mq_length mq + Z.of_nat (length (text g' r)) < 2 ^ 32 -> mq_count mq + 1 < 2 ^ 32 ->
  queue_ok g' mq'.
Proof.
  intros [QM QT PT QL QB QC] NT T -> B1 B2.
  set (m := MkMsg 0 r).
  assert (forall a c, order (set_qlist (MkQ a c (queue mq) (prio mq)) w (qlist mq w ++ [m])) = order_with w mq m) as O.
  { intros a c. rewrite set_qlist_same_lists. apply order_append. }
  assert (msg_ok g' m) as Mm. { split; cbn; [lia|]. destruct (text g' r); [done|]. cbn. lia. }
  assert (Forall (msg_ok g') (order mq)) as QM' by (by eapply msg_ok_text).
  assert (Z.of_nat (length (flat_map (unsent g') (order_with w mq m))) =
    Z.of_nat (length (stream g mq)) + Z.of_nat (length (text g' r))) as Ln.
  { rewrite (Permutation_flat_map (unsent g') (order_with_perm mq w m)). rewrite flat_length_cons by done.
    cbn [msg sent m]. unfold stream. rewrite (unsent_text g g') by done. lia. }
  rewrite !u32_small by lia. constructor; unfold stream; rewrite ?O.
  - rewrite order_with_perm. by constructor.
  - destruct w; cbn; [by apply append_tail|done].
  - destruct w; cbn; [done|by apply append_tail].
  - destruct w; cbn in *; lia.
  - destruct w; cbn in *; lia.
  - rewrite (Permutation_length (order_with_perm mq w m)). cbn [length]. destruct w; cbn in *; lia.
Qed.

(** [msgq_add] on the real buffer. *)
Lemma msgq_add_lemma (g : MQ) (par : gmap bid bid) (hs oth : list bid) (mq : MsgQ) (b : bid) (w : which) :
  Inv g par hs (qrefs mq ++ oth) -> queue_ok g mq -> b ∈ hs -> text g b <> [] ->
  Z.of_nat (length (hs ++ qrefs mq ++ oth)) + 1 < 2 ^ 32 - 2 ->
  mq_length mq + Z.of_nat (length (text g b)) < 2 ^ 32 ->
  exists g' mq' r, msgq_add BUFFERPOOL g mq b w = Ok (g', mq') /\
    (exists par', Inv g' par' hs (qrefs mq' ++ oth)) /\ queue_ok g' mq' /\
    order mq' = order_with w mq (MkMsg 0 r) /\ text g' r = text g b /\
    (forall x, (0 < refs hs (qrefs mq ++ oth) par x)%nat -> text g' x = text g x).
Proof.
  intros I Q Hb NT Sz Ln.
  set (g0 := set_msgs g (match msgs_free g with O => msgs_alloc g + 1 | S _ => msgs_alloc g end)
               (msgs_used g + 1) (pred (msgs_free g))).
  assert (Inv g0 par hs (qrefs mq ++ oth)) as I0 by (by apply inv_set_msgs).
  destruct (ensure_real_spec g0 par hs (qrefs mq ++ oth) b I0 Hb NT)
    as (g1 & r & He & (par1 & I1) & (mb & E1 & R1) & T1 & T2).
  assert (text g1 r <> []) as NT1 by (by rewrite T1).
  destruct (heap g1 !! r) as [rb|] eqn:Er; cycle 1.
  { exfalso. unfold text in NT1. by rewrite Er in NT1. }
  assert (mb_length rb = Z.of_nat (length (text g1 r))) as Lr by (unfold text; by rewrite Er).
  pose proof (inv_add_ref g1 par1 hs (qrefs mq ++ oth) b r mb rb I1 Hb E1 R1 Er Sz) as I2.
  pose proof (core_ref _ _ _ (inv_core _ _ _ _ I1) r rb Er) as Rr.
  pose proof (refs_small g1 par1 hs (qrefs mq ++ oth) r I1) as Sr.
  set (g2 := store g1 r (with_ref rb (mb_ref rb + 1))) in *.
  assert (forall x, text g2 x = text g1 x) as T12.
  { intros x. unfold g2. rewrite text_store. case_decide; [subst; unfold text; by rewrite Er|done]. }
  set (mq' := set_qlist (MkQ (u32 (mq_length mq + Z.of_nat (length (text g2 r)))) (u32 (mq_count mq + 1))
          (queue mq) (prio mq)) w (qlist mq w ++ [MkMsg 0 r])).
  assert (order mq' = order_with w mq (MkMsg 0 r)) as O'.
  { unfold mq'. rewrite set_qlist_same_lists. apply order_append. }
  assert (msgq_add BUFFERPOOL g mq b w = Ok (g2, mq')) as Hadd.
  { unfold msgq_add. unfold g0 in He. destruct (msgs_free g) as [|n]; cbn [pred set_msgs msgs_alloc msgs_used msgs_free] in *;
      unfold set_msgs in *; cbn [msgs_alloc msgs_used msgs_free heap msglist tot_bufsize msgBufs sizes_msgs sizes brk] in *;
      rewrite He; cbn [obind]; unfold load; rewrite E1; cbn [obind]; rewrite R1, Er; cbn [obind];
      rewrite (u32_small (mb_ref rb + 1)) by lia; unfold mq'; rewrite T12, Lr; by destruct w. }
  exists g2, mq', r. split; [done|]. split; [|split; [|split; [done|split; [by rewrite T12, T1|]]]].
  - exists par1. unfold qrefs. rewrite O'. rewrite order_with_perm. done.
  - apply (add_queue_ok g g2 mq mq' w r Q); [by rewrite T12| |done|by rewrite T12, T1|].
    + intros x Hx. rewrite T12, T2; [done|]. apply refs_pos. set_solver.
    + rewrite (q_count _ _ Q). rewrite !length_app in Sz. unfold qrefs in Sz. rewrite length_map in Sz. lia.
  - intros x Hx. by rewrite T12, T2.
Qed.
End AddProofs.

(** ** Making messages *)

(** A new buffer with text [t] becomes a handle. *)
Lemma inv_new_handle (g g1 g2 : MQ) (par : gmap bid bid) (hs qs : list bid) (b : bid) (mb : MsgBuf) (t : list ascii) :
  Inv g par hs qs -> refs hs qs par b = O -> Core g1 (inc (refs hs qs par) b) [] -> heap g1 !! b = Some mb ->
  mb_real mb = None -> mb_linked mb = false -> Z.of_nat (length t) <= bufsize mb ->
  (forall x, x <> b -> heap g1 !! x = heap g !! x) ->
  Z.of_nat (length (hs ++ qs)) + 1 < 2 ^ 32 - 2 ->
  g2 = set_msglist (store g1 b (with_linked (with_msg mb t) true)) (b :: msglist g1) ->
  Inv g2 par (b :: hs) qs /\ text g2 b = t /\ forall x, x <> b -> text g2 x = text g x.
Proof.
  intros I Z0 C1 E R L Ln Same Sz ->.
  assert (par !! b = None) as Nb by (unfold refs in Z0; destruct (par !! b); [lia|done]).
  assert (b ∉ hs ++ qs) as NIn. { intros H. pose proof (refs_pos hs qs par b H). lia. }
  assert (forall x, refs (b :: hs) qs par x = inc (refs hs qs par) b x) as RF.
  { intros x. unfold refs, inc. cbn [app]. case_decide as D; [subst; by rewrite count_occ_cons_eq|].
    by rewrite count_occ_cons_neq by congruence. }
  assert (forall x, x <> b -> refs (b :: hs) qs par x = refs hs qs par x) as RF1.
  { intros x Hx. rewrite RF. unfold inc. by rewrite decide_False. }
  set (g2 := set_msglist _ _).
  assert (forall x, x <> b -> heap g2 !! x = heap g !! x) as O2.
  { intros x N. cbn. rewrite lookup_insert_ne by done. auto. }
  assert (heap g2 !! b = Some (with_linked (with_msg mb t) true)) as E2 by apply lookup_insert_eq.
  assert (forall x, x <> b -> text g2 x = text g x) as Tx by (intros x N; unfold text; by rewrite O2).
  assert (Core g2 (inc (refs hs qs par) b) []) as C2.
  { pose proof (core_ref _ _ _ C1 b mb E). constructor; try setoid_rewrite bucket_at_msglist; try setoid_rewrite bucket_at_store;
      cbn [g2 store set_heap set_msglist heap msglist brk]; try apply C1.
    - intros x mx Hx. lookup_cases Hx; by eapply core_ref.
    - intros x Hx. destruct (decide (x = b)) as [->|]; [rewrite lookup_insert_eq; eauto|].
      rewrite lookup_insert_ne by done. by eapply core_dom.
    - intros x mx Hx. lookup_cases Hx; [|by eapply core_power].
      split; [by apply (core_power _ _ _ C1 b mb E)|done].
    - intros x mx Hx He. lookup_cases Hx; [by apply (core_free _ _ _ C1 b mb E)|by apply (core_free _ _ _ C1 x mx Hx He)].
    - intros x i Hx. destruct (core_free_in _ _ _ C1 x i Hx) as (mx & Hx' & Hp).
      destruct (decide (x = b)) as [->|]; [|rewrite lookup_insert_ne by done; eauto].
      rewrite lookup_insert_eq. eexists; split; [done|]. cbn. congruence.
    - intros x mx Hx He. lookup_cases Hx; [by rewrite bool_decide_true by left|].
      rewrite (core_linked _ _ _ C1 x mx Hx He). apply bool_decide_ext. rewrite elem_of_cons. naive_solver.
    - intros x [->|Hx]%elem_of_cons; [unfold inc; rewrite decide_True by done; lia|by eapply core_msglist].
    - intros x [mx Hx]. eapply core_brk; [exact C1|]. lookup_cases Hx; eauto. }
  split; [|split; [unfold text; by rewrite E2|done]]. constructor.
  - eapply core_ext; [intros x; symmetry; apply RF|done].
  - intros r p. rewrite (inv_par _ _ _ _ I). split.
    + intros (mp & Hp & P & Rp & NE). assert (p <> b) by (intros ->; lia). exists mp. by rewrite O2, RF1.
    + intros (mp & Hp & P & Rp & NE). destruct (decide (p = b)) as [->|N].
      * rewrite E2 in Hp. injection Hp as <-. cbn in Rp. congruence.
      * rewrite O2 in Hp by done. rewrite RF1 in P by done. eauto.
  - intros r Hr. destruct (inv_par_real _ _ _ _ I r Hr) as (mr & Er & ? & ?). exists mr.
    rewrite O2; [done|]. intros ->. rewrite Nb in Hr. by destruct Hr.
  - intros x [->|Hx]%elem_of_cons.
    + split; [done|]. intros mx Hm _. rewrite E2 in Hm. injection Hm as <-. split; [done|]. set_solver.
    + destruct (inv_handles _ _ _ _ I x Hx) as [N H]. split; [done|]. intros mx. rewrite O2; [apply H|].
      intros ->. set_solver.
  - intros x mx r Hx. rewrite O2; [by apply (inv_queued _ _ _ _ I)|]. intros ->. set_solver.
  - intros r p Hr. rewrite !Tx; [by apply (inv_copy _ _ _ _ I)|intros ->|intros ->].
    + apply (inv_par _ _ _ _ I) in Hr as (mp & _ & P & _). lia.
    + congruence.
  - cbn [app length]. lia.
Qed.

(** Freeing an unused buffer. *)
Lemma inv_clear1 (g : MQ) (par : gmap bid bid) (hs qs : list bid) (i t : Z) (b : bid) (fs : list bid) (k : bucket) :
  Inv g par hs qs -> k = bucket_at g i -> b_free k = b :: fs ->
  let g' := set_tot (set_bucket g (i - MB_BASE_SHIFT) (Bucket (b_alloc k - 1) (b_used k) fs)) t in
  Inv (set_heap g' (delete b (heap g))) par hs qs /\ b_free (bucket_at g' i) = fs.
Proof.
  intros I -> Fr. cbn zeta. pose proof (inv_core _ _ _ _ I) as C.
  destruct (core_free_in _ _ _ C b i) as (mb & E & Ep); [rewrite Fr; left|].
  assert (refs hs qs par b = O) as Z0.
  { apply (core_free _ _ _ C b mb E); [apply not_elem_of_nil|]. rewrite Ep, Fr. left. }
  pose proof (core_free_nodup _ _ _ C i) as ND. rewrite Fr in ND. apply NoDup_cons in ND as [N1 N2].
  set (g' := set_tot _ _).
  assert (forall j, bucket_at (set_heap g' (delete b (heap g))) j =
    if decide (i = j) then Bucket (b_alloc (bucket_at g i) - 1) (b_used (bucket_at g i)) fs else bucket_at g j) as B.
  { intros j. apply (bucket_at_set_bucket g i j). }
  assert (forall x, (0 < refs hs qs par x)%nat -> delete b (heap g) !! x = heap g !! x) as Lv.
  { intros x Hx. apply lookup_delete_ne. intros ->. lia. }
  assert (forall x mx, delete b (heap g) !! x = Some mx -> x <> b /\ heap g !! x = Some mx) as Dl.
  { intros x mx [? ?]%lookup_delete_Some. auto. }
  assert (forall x, (0 < refs hs qs par x)%nat -> text (set_heap g' (delete b (heap g))) x = text g x) as Tx.
  { intros x Hx. unfold text. cbn. by rewrite Lv. }
  split; [|change (bucket_at g' i) with (bucket_at (set_heap g' (delete b (heap g))) i); rewrite B; by rewrite decide_True].
  constructor.
  - constructor; try setoid_rewrite B; cbn [set_heap heap msglist brk set_tot set_bucket g'].
    + intros x mx [_ Hx]%Dl. by eapply core_ref.
    + intros x Hx. rewrite Lv by done. by eapply core_dom.
    + intros x mx [_ Hx]%Dl. by eapply core_power.
    + intros x mx [Hn Hx]%Dl He. rewrite <- (core_free _ _ _ C x mx Hx He). case_decide as D; [|done].
      rewrite <- D, Fr. cbn. rewrite elem_of_cons. split; [auto|]. intros [->|]; done.
    + intros x j Hx. assert (x ∈ b_free (bucket_at g j) /\ x <> b) as [Hx' Hn].
      { case_decide as D; [subst j; rewrite Fr; cbn in Hx; split; [by right|by intros ->]|].
        split; [done|]. intros ->. destruct (core_free_in _ _ _ C b j Hx) as (mx & ? & ?). congruence. }
      rewrite lookup_delete_ne by done. by apply (core_free_in _ _ _ C).
    + intros j. case_decide; [done|apply C].
    + intros x j Hx. by apply elem_of_nil in Hx.
    + intros j. case_decide as D; [|apply C]. cbn.
      pose proof (core_count _ _ _ C i) as CC. rewrite Fr in CC. cbn in CC. lia.
    + intros x mx [Hn Hx]%Dl He. by eapply core_linked.
    + apply C.
    + intros x [mx [Hn Hx]%Dl]. eapply core_brk; eauto.
  - intros r p. rewrite (inv_par _ _ _ _ I). cbn. split.
    + intros (mp & Hp & P & H). exists mp. by rewrite Lv.
    + intros (mp & [_ Hp]%Dl & P & H). eauto.
  - intros r Hr. cbn. rewrite Lv; [by apply (inv_par_real _ _ _ _ I)|]. unfold refs. destruct Hr as [p ->]. lia.
  - intros x Hx. destruct (inv_handles _ _ _ _ I x Hx) as [N H]. split; [done|]. intros mx [_ Hm]%Dl. auto.
  - intros x mx r Hx [_ Hm]%Dl. by eapply inv_queued.
  - intros r p Hr. rewrite !Tx; [by apply (inv_copy _ _ _ _ I)| |].
    + apply (inv_par _ _ _ _ I) in Hr as (mp & _ & P & _). done.
    + unfold refs. rewrite Hr. lia.
  - apply I.
Qed.

Lemma inv_clear_class (i : Z) (fs : list bid) (g : MQ) (par : gmap bid bid) (hs qs : list bid) :
  Inv g par hs qs -> b_free (bucket_at g i) = fs -> Inv (clear_class g i fs) par hs qs.
Proof.
  revert g. induction fs as [|b fs IH]; intros g I Fr; [done|]. cbn [clear_class].
  destruct (inv_clear1 g par hs qs i (tot_bufsize g - Z.shiftl 1 i) b fs _ I eq_refl Fr) as [I' F'].
  by apply IH.
Qed.

Lemma inv_clear_freembs (g : MQ) (par : gmap bid bid) (hs qs : list bid) :
  Inv g par hs qs -> Inv (msgq_clear_freembs g) par hs qs.
Proof.
  unfold msgq_clear_freembs. generalize size_classes as l. intros l. revert g.
  induction l as [|i l IH]; intros g I; [done|]. cbn [fold_left]. apply IH. by apply inv_clear_class.
Qed.

Section Make.
Context (BUFFERPOOL : Z) (FERGUSON_FLUSHER : bool) (flush_connections : MQ -> MQ)
  (kill_highest_sendq : bool -> MQ -> MQ) (hs : list bid).

(** Flushing and killing connections take messages off queues, through the operations
    of this file, and leave the messages being built alone. *)
Definition shrinks_queues (f : MQ -> MQ) : Prop :=
  forall g par qs, Inv g par hs qs -> exists par' qs', Inv (f g) par' hs qs' /\ (length qs' <= length qs)%nat.

Hypothesis flush_ok : shrinks_queues flush_connections.
Hypothesis kill_ok : forall servers, shrinks_queues (kill_highest_sendq servers).

(** [g1] is [g] itself, or [g] with an unused buffer [b] of size class [power] set up. *)
Definition got (g : MQ) (par : gmap bid bid) (qs : list bid) (power : Z) (g1 : MQ) (o : option bid) : Prop :=
  match o with
  | None => g1 = g
  | Some b => refs hs qs par b = O /\ Core g1 (inc (refs hs qs par) b) [] /\
      (forall x, x <> b -> heap g1 !! x = heap g !! x) /\
      exists mb, heap g1 !! b = Some mb /\ mb_real mb = None /\ mb_linked mb = false /\ mb_power mb = power
  end.

Definition attempt (n : nat) (power : Z) (r : outcome (MQ * option bid)) : Prop :=
  exists g1 o, r = Ok (g1, o) /\ exists g par qs, Inv g par hs qs /\ (length qs <= n)%nat /\
    got g par qs power g1 o.

Lemma alloc_got (g : MQ) (par : gmap bid bid) (qs : list bid) (len : Z) :
  Inv g par hs qs -> 1 <= len <= 8192 ->
  exists g1 o, msgq_alloc BUFFERPOOL g None len = Ok (g1, o) /\ got g par qs (power_for len) g1 o.
Proof.
  intros I H. destruct (power_for_ok len H) as [P _]. unfold msgq_alloc.
  rewrite (proj2 (Z.ltb_ge _ _)) by (unfold MB_MAX_SHIFT; lia).
  destruct (alloc_buf_spec BUFFERPOOL g _ _ (inv_core _ _ _ _ I) P)
    as [->|(g1 & b & mb & -> & Z0 & C1 & E & R & L & Pw & Same & _)].
  - by exists g, None.
  - exists g1, (Some b). split; [done|]. split; [done|]. split; [done|]. split; [done|]. eauto.
Qed.

Lemma alloc_attempt (g : MQ) (par : gmap bid bid) (qs : list bid) (len : Z) :
  Inv g par hs qs -> 1 <= len <= 8192 ->
  attempt (length qs) (power_for len) (msgq_alloc BUFFERPOOL g None len).
Proof.
  intros I H. destruct (alloc_got g par qs len I H) as (g1 & o & -> & G). exists g1, o. split; [done|].
  exists g, par, qs. done.
Qed.

Lemma retry_attempt (f : MQ -> MQ) (n : nat) (len : Z) (r : outcome (MQ * option bid)) :
  shrinks_queues f -> 1 <= len <= 8192 -> attempt n (power_for len) r ->
  attempt n (power_for len) (retry BUFFERPOOL f len r).
Proof.
  intros F H (g1 & o & -> & g & par & qs & I & Ln & Ho). unfold retry. cbn [obind].
  destruct o as [b|].
  - exists g1, (Some b). split; [done|]. exists g, par, qs. done.
  - cbn in Ho. subst g1. destruct (F g par qs I) as (par' & qs' & I' & L').
    destruct (alloc_attempt (f g) par' qs' len I' H) as (g1 & o & -> & g0 & par0 & qs0 & I0 & L0 & H0).
    exists g1, o. split; [done|]. exists g0, par0, qs0. split; [done|]. split; [lia|done].
Qed.

Lemma shrinks_clear (f : MQ -> MQ) : shrinks_queues f -> shrinks_queues (fun g => msgq_clear_freembs (f g)).
Proof.
  intros F g par qs I. destruct (F g par qs I) as (par' & qs' & I' & L). exists par', qs'.
  split; [by apply inv_clear_freembs|done].
Qed.

Lemma panic_attempt (g : MQ) (par : gmap bid bid) (qs : list bid) (len : Z) :
  Inv g par hs qs -> 1 <= len <= 8192 ->
  attempt (length qs) (power_for len)
    (alloc_or_panic BUFFERPOOL FERGUSON_FLUSHER flush_connections kill_highest_sendq g len).
Proof.
  intros I H. unfold alloc_or_panic.
  assert (shrinks_queues msgq_clear_freembs) as Cl.
  { apply (shrinks_clear (fun g => g)). intros g' par' qs' I'. eauto. }
  apply retry_attempt; [apply shrinks_clear, kill_ok|done|].
  apply retry_attempt; [apply shrinks_clear, kill_ok|done|].
  apply retry_attempt; [done|done|].
  destruct FERGUSON_FLUSHER; [apply retry_attempt; [done..|]|]; by apply (alloc_attempt g par).
Qed.

(** With room in the pool the first attempt succeeds. *)
Lemma alloc_room (g : MQ) (par : gmap bid bid) (qs : list bid) (len : Z) :
  Inv g par hs qs -> 1 <= len <= 8192 -> tot_bufsize g < BUFFERPOOL ->
  exists g1 b, alloc_or_panic BUFFERPOOL FERGUSON_FLUSHER flush_connections kill_highest_sendq g len = Ok (g1, Some b) /\
    msgq_alloc BUFFERPOOL g None len = Ok (g1, Some b).
Proof.
  intros I H Rm. destruct (power_for_ok len H) as [P _].
  assert (exists g1 b, msgq_alloc BUFFERPOOL g None len = Ok (g1, Some b)) as (g1 & b & A).
  { unfold msgq_alloc. rewrite (proj2 (Z.ltb_ge _ _)) by (unfold MB_MAX_SHIFT; lia).
    destruct (alloc_buf_spec BUFFERPOOL g _ _ (inv_core _ _ _ _ I) P) as [A|(g1 & b & mb & -> & _)]; [|eauto].
    exfalso. unfold alloc_buf in A. rewrite (proj2 (Z.ltb_lt _ _) Rm) in A.
    destruct (b_free (bucket_at g (power_for len))); unfold load in A;
      match type of A with (let* _ := match ?x with _ => _ end in _)%ircu = _ => destruct x; discriminate end. }
  exists g1, b. split; [|done]. unfold alloc_or_panic. rewrite A. by destruct FERGUSON_FLUSHER.
Qed.

Lemma acquire (g : MQ) (par : gmap bid bid) (qs : list bid) (len : Z) :
  Inv g par hs qs -> 1 <= len <= 8192 ->
  exists g1 o g0 par0 qs0,
    alloc_or_panic BUFFERPOOL FERGUSON_FLUSHER flush_connections kill_highest_sendq g len = Ok (g1, o) /\
    Inv g0 par0 hs qs0 /\ (length qs0 <= length qs)%nat /\ got g0 par0 qs0 (power_for len) g1 o /\
    (tot_bufsize g < BUFFERPOOL -> o <> None /\ g0 = g /\ par0 = par /\ qs0 = qs).
Proof.
  intros I H. destruct (decide (tot_bufsize g < BUFFERPOOL)) as [Rm|NR].
  - destruct (alloc_room g par qs len I H Rm) as (g1 & b & A1 & A2).
    destruct (alloc_got g par qs len I H) as (g1' & o & A3 & G). rewrite A2 in A3. injection A3 as <- <-.
    by exists g1, (Some b), g, par, qs.
  - destruct (panic_attempt g par qs len I H) as (g1 & o & Ha & g0 & par0 & qs0 & I0 & L0 & G).
    by exists g1, o, g0, par0, qs0.
Qed.

(** What making a message with text [t] establishes. *)
Definition makes (g : MQ) (par : gmap bid bid) (qs : list bid) (t : list ascii) (g' : MQ) (o : option bid) : Prop :=
  match o with
  | None => BUFFERPOOL <= tot_bufsize g /\ exists par' qs', Inv g' par' hs qs'
  | Some b => exists par' qs', Inv g' par' (b :: hs) qs' /\ text g' b = t /\
      (tot_bufsize g < BUFFERPOOL -> qs' = qs /\ forall x, (0 < refs hs qs par x)%nat -> text g' x = text g x)
  end.

Lemma got_makes (g g0 g1 g' : MQ) (par par0 : gmap bid bid) (qs qs0 : list bid) (power : Z) (b : bid) (t : list ascii) :
  Inv g0 par0 hs qs0 -> got g0 par0 qs0 power g1 (Some b) ->
  Z.of_nat (length (hs ++ qs)) + 1 < 2 ^ 32 - 2 -> (length qs0 <= length qs)%nat ->
  (tot_bufsize g < BUFFERPOOL -> Some b <> None /\ g0 = g /\ par0 = par /\ qs0 = qs) ->
  Z.of_nat (length t) <= Z.shiftl 1 power ->
  (forall mb, heap g1 !! b = Some mb ->
     g' = set_msglist (store g1 b (with_linked (with_msg mb t) true)) (b :: msglist g1)) ->
  makes g par qs t g' (Some b).
Proof.
  intros I0 (Z0 & C1 & Same & mb & E & R & L & Pw) Sz L0 Room Ln Hg. specialize (Hg mb E).
  destruct (inv_new_handle g0 g1 g' par0 hs qs0 b mb t I0 Z0 C1 E R L) as (I' & T & Tx); try done.
  - unfold bufsize. by rewrite Pw.
  - rewrite length_app in *. lia.
  - exists par0, qs0. split; [done|]. split; [done|]. intros Rm. destruct (Room Rm) as (_ & -> & -> & ->).
    split; [done|]. intros x Hx. apply Tx. intros ->. lia.
Qed.

Lemma msgq_vmake_lemma (g : MQ) (par : gmap bid bid) (qs : list bid) (t : list ascii) :
  Inv g par hs qs -> Z.of_nat (length (hs ++ qs)) + 1 < 2 ^ 32 - 2 ->
  exists g' o, msgq_vmake BUFFERPOOL FERGUSON_FLUSHER flush_connections kill_highest_sendq g t = Ok (g', o) /\
    makes g par qs (take 510 t ++ CRLF) g' o.
Proof.
  intros I Sz. unfold msgq_vmake.
  destruct (acquire g par qs BUFSIZE I) as (g1 & o & g0 & par0 & qs0 & -> & I0 & L0 & G & Room); [done|].
  cbn [obind]. destruct o as [b|]; cycle 1.
  { exists g1, None. split; [done|]. split; [|cbn in G; subst; eauto].
    destruct (decide (tot_bufsize g < BUFFERPOOL)) as [Rm|]; [by destruct (Room Rm)|lia]. }
  pose proof G as (_ & _ & _ & mb & E & _ & _ & Pw). unfold load. rewrite E. cbn [obind].
  eexists _, (Some b). split; [reflexivity|].
  apply (got_makes g g0 g1 _ par par0 qs qs0 (power_for BUFSIZE) b); try done.
  - rewrite length_app, length_take. unfold CRLF. cbn [length]. change (Z.shiftl 1 (power_for BUFSIZE)) with 512. lia.
  - intros mb' E'. assert (mb' = mb) as -> by congruence. unfold bufsize. rewrite Pw. done.
Qed.

Lemma msgq_raw_alloc_lemma (g : MQ) (par : gmap bid bid) (qs : list bid) (minbytes : Z) :
  Inv g par hs qs -> Z.of_nat (length (hs ++ qs)) + 1 < 2 ^ 32 - 2 -> 1 <= minbytes ->
  exists g' o, msgq_raw_alloc BUFFERPOOL FERGUSON_FLUSHER flush_connections kill_highest_sendq g minbytes = Ok (g', o) /\
    (8192 < minbytes /\ g' = g /\ o = None \/ makes g par qs [] g' o).
Proof.
  intros I Sz Mb. unfold msgq_raw_alloc. change (Z.shiftl 1 MB_MAX_SHIFT) with 8192.
  case_if; reflect; [exists g, None; auto|].
  destruct (acquire g par qs minbytes I) as (g1 & o & g0 & par0 & qs0 & -> & I0 & L0 & G & Room); [lia|].
  cbn [obind]. destruct o as [b|]; cycle 1.
  { exists g1, None. split; [done|]. right. split; [|cbn in G; subst; eauto].
    destruct (decide (tot_bufsize g < BUFFERPOOL)) as [Rm|]; [by destruct (Room Rm)|lia]. }
  pose proof G as (_ & _ & _ & mb & E & _ & _ & Pw). unfold load. rewrite E. cbn [obind].
  eexists _, (Some b). split; [reflexivity|]. right.
  apply (got_makes g g0 g1 _ par par0 qs qs0 (power_for minbytes) b); try done.
  - cbn. rewrite Z.shiftl_1_l. apply Z.pow_nonneg. lia.
  - intros mb' E'. assert (mb' = mb) as -> by congruence. done.
Qed.
End Make.

(** ** Reading and editing queues *)
Lemma load_msg (g : MQ) (m : Msg) : msg_ok g m ->
  exists mb, load g (msg m) = Ok mb /\ mb_msg mb = text g (msg m).
Proof.
  intros M. unfold msg_ok, text, load in *. destruct (heap g !! msg m) as [mb|]; [eauto|]. cbn in M. lia.
Qed.

Lemma map_whole_spec (g : MQ) (l : list Msg) (n : nat) :
  Forall (msg_ok g) l -> Forall (fun m => sent m = 0) l ->
  map_whole g l n = Ok (take n (map (unsent g) l)).
Proof.
  revert n. induction l as [|m l IH]; intros n F Z0; [by destruct n|].
  destruct n as [|n]; [done|]. inversion_clear F as [|? ? M F']. inversion_clear Z0 as [|? ? Zm Z0'].
  cbn [map_whole map take]. unfold iov_whole. destruct (load_msg g m M) as (mb & -> & T). cbn [obind].
  rewrite IH by done. cbn [obind]. unfold unsent at 2. by rewrite Zm, T.
Qed.

Lemma partial_head_spec (g : MQ) (l : list Msg) :
  Forall (msg_ok g) l -> Forall (fun m => sent m = 0) (tail l) ->
  exists v rest, partial_head g l = Ok (v, rest) /\ map (unsent g) l = v ++ map (unsent g) rest /\
    (length v <= 1)%nat /\ Forall (fun m => sent m = 0) rest /\ Forall (msg_ok g) rest /\
    v = (match l with m :: _ => if 0 <? sent m then [unsent g m] else [] | [] => [] end) /\
    rest = (match l with m :: r => if 0 <? sent m then r else l | [] => [] end).
Proof.
  intros F T. destruct l as [|m l]; cbn [partial_head].
  { exists [], []. repeat split; try done. cbn. lia. }
  cbn in T. inversion_clear F as [|? ? M F']. case_if; reflect.
  - unfold iov_of. destruct (load_msg g m M) as (mb & -> & E). cbn [obind].
    exists [drop (Z.to_nat (sent m)) (mb_msg mb)], l. rewrite E. by repeat split.
  - exists [], (m :: l). unfold msg_ok in M. repeat split; try done; [cbn; lia| |]; constructor; auto; lia.
Qed.

Lemma mapiov_lemma (g : MQ) (mq : MsgQ) (count : nat) :
  queue_ok g mq -> (0 < count)%nat ->
  msgq_mapiov g mq count = Ok (take count (map (unsent g) (order mq))).
Proof.
  intros [QM QT PT QL QB QC] Cn. unfold msgq_mapiov. case_if; reflect.
  { assert (order mq = []) as ->; [|cbn; by rewrite take_nil].
    unfold stream in QL. destruct (order mq) as [|m l]; [done|]. inversion_clear QM as [|? ? M _].
    rewrite flat_length_cons in QL by done. unfold msg_ok in M. lia. }
  assert (Forall (msg_ok g) (queue mq) /\ Forall (msg_ok g) (prio mq)) as [FQ FP].
  { rewrite order_split in QM. unfold ahead, behind in QM. destruct (queue mq) as [|m q]; [by rewrite app_nil_r in QM|].
    destruct (0 <? sent m); rewrite Forall_app, ?Forall_cons in *; naive_solver. }
  destruct (partial_head_spec g (queue mq) FQ QT) as (v1 & q & -> & E1 & L1 & Z1 & F1 & V1 & R1). cbn [obind].
  destruct (partial_head_spec g (prio mq) FP PT) as (v2 & p & -> & E2 & L2 & Z2 & F2 & V2 & R2).
  assert (map (unsent g) (order mq) = v1 ++ v2 ++ map (unsent g) p ++ map (unsent g) q) as ->.
  { rewrite V1, R1. rewrite app_assoc, app_assoc, <- (app_assoc _ v2), <- E2. unfold order.
    destruct (queue mq) as [|m q']; [cbn; by rewrite app_nil_r|].
    destruct (0 <? sent m); cbn [map app]; by rewrite map_app. }
  rewrite (take_app_ge v1) by lia. case_if; reflect.
  { by rewrite Heqb0, Nat.sub_diag, take_0, app_nil_r. }
  cbn [obind]. rewrite (take_app_ge v2) by lia. case_if; reflect; rewrite length_app in *.
  { by rewrite <- Nat.sub_add_distr, Heqb1, Nat.sub_diag, take_0, app_nil_r. }
  rewrite map_whole_spec by done. cbn [obind]. rewrite map_whole_spec by done. cbn [obind].
  rewrite (take_app (map (unsent g) p)). do 4 f_equal; [f_equal; lia|].
  rewrite !length_app, length_take. f_equal. lia.
Qed.

Lemma excise_order (mq : MsgQ) (w : which) (m : Msg) (rest : list Msg) :
  Forall (fun m => sent m = 0) (tail (queue mq)) -> qlist mq w = m :: rest ->
  exists pre post, order mq = pre ++ m :: post /\ order (set_qlist mq w rest) = pre ++ post.
Proof.
  intros T El. destruct w; cbn in El; unfold order; cbn; rewrite El in *.
  - cbn in T. assert (match rest with [] => prio mq | m0 :: r =>
        if 0 <? sent m0 then m0 :: prio mq ++ r else prio mq ++ rest end = prio mq ++ rest) as ->.
    { destruct rest as [|m0 r]; [by rewrite app_nil_r|]. inversion_clear T as [|? ? T0 _]. by rewrite T0. }
    destruct (0 <? sent m); [by exists [], (prio mq ++ rest)|by exists (prio mq), rest].
  - destruct (queue mq) as [|m0 q]; [by exists [], rest|].
    destruct (0 <? sent m0); [by exists [m0], (rest ++ q)|by exists [], (rest ++ m0 :: q)].
Qed.

Lemma excise_lemma (g : MQ) (par : gmap bid bid) (hs oth : list bid) (mq : MsgQ) (b : bid) (w : which)
    (m : Msg) (rest : list Msg) :
  Inv g par hs (qrefs mq ++ oth) -> queue_ok g mq -> qlist mq w = m :: rest -> msg m = b ->
  exists g' mq', msgqlist_excise g mq w b = Ok (Some (g', mq')) /\
    (exists par', Inv g' par' hs (qrefs mq' ++ oth)) /\ queue_ok g' mq' /\ (forall x, text g' x = text g x) /\
    exists pre post, order mq = pre ++ m :: post /\ order mq' = pre ++ post.
Proof.
  intros I Q El Em. destruct (excise_order mq w m rest (q_tail _ _ Q) El) as (pre & post & O1 & O2).
  assert (order mq ≡ₚ m :: order (set_qlist mq w rest)) as Eo.
  { rewrite O1, O2. symmetry. apply Permutation_middle. }
  assert (msg_ok g m) as M. { pose proof (q_msgs _ _ Q) as QM. rewrite Eo in QM. by inversion QM. }
  unfold msgqlist_excise. rewrite El, Em, Pos.eqb_refl. destruct (load_msg g m M) as (mb & Ld & T).
  rewrite Em in Ld. rewrite Ld. cbn [obind].
  assert (mb_length mb = Z.of_nat (length (text g (msg m)))) as -> by (unfold mb_length; by rewrite T).
  assert (Z.of_nat (length (text g (msg m))) <= 8192) as Bd.
  { unfold load in Ld. destruct (heap g !! b) as [mb'|] eqn:E; [|done]. injection Ld as ->. rewrite <- T.
    apply (length_bound _ _ _ _ _ (inv_core _ _ _ _ I) E). }
  unfold msg_ok in M. rewrite u32_small by lia.
  destruct (delmsg_whole hs oth g mq par w (Z.of_nat (length (text g (msg m))) - sent m) m rest I Q El Eo)
    as (g' & mq' & par' & -> & I' & Q' & T' & O'); [lia|].
  cbn [obind]. exists g', mq'. split; [done|]. split; [eauto|]. split; [done|]. split; [done|].
  exists pre, post. by rewrite O', O2.
Qed.

Lemma excise_total (g : MQ) (par : gmap bid bid) (hs oth : list bid) (mq : MsgQ) (b : bid) : Inv g par hs (qrefs mq ++ oth) -> queue_ok g mq ->
  forall w, msgqlist_excise g mq w b = Ok None \/ exists gq, msgqlist_excise g mq w b = Ok (Some gq).
Proof.
  intros I Q w. destruct (qlist mq w) as [|m rest] eqn:El; [left; unfold msgqlist_excise; by rewrite El|].
  destruct (Pos.eqb_spec (msg m) b) as [Em|Em].
  - destruct (excise_lemma g par hs _ mq b w m rest I Q El Em) as (g2 & mq2 & E2 & _). eauto.
  - left. unfold msgqlist_excise. by rewrite El, (proj2 (Pos.eqb_neq _ _) Em).
Qed.

Lemma excise_returns (g : MQ) (par : gmap bid bid) (hs oth : list bid) (mq : MsgQ) (b : bid) : Inv g par hs (qrefs mq ++ oth) -> queue_ok g mq -> exists r, msgq_excise g mq b = Ok r.
Proof.
  intros I Q. unfold msgq_excise. destruct (excise_total g par hs oth mq b I Q Normal) as [->|[gq ->]]; cbn [obind]; [|eauto]. destruct (excise_total g par hs oth mq b I Q Prio) as [->|[gq ->]]; cbn [obind]; eauto.
Qed.

(** [msgq_append] to a message that is not on a queue yet. *)
Lemma append_lemma (g : MQ) (par : gmap bid bid) (hs qs : list bid) (b : bid) (mb : MsgBuf) (t : list ascii) :
  Inv g par hs qs -> b ∈ hs -> heap g !! b = Some mb -> mb_real mb = None ->
  exists g', msgq_append g b t = Ok g' /\ Inv g' par hs qs /\
    (exists x, text g' b = x ++ CRLF) /\ (forall x, x <> b -> text g' x = text g x).
Proof.
  intros I Hb E R. unfold msgq_append, load. rewrite E. cbn [obind].
  set (t' := take _ (_ ++ t) ++ CRLF). eexists. split; [reflexivity|].
  set (g' := store g b (with_msg mb t')). destruct (inv_handles _ _ _ _ I b Hb) as [Nb Lb].
  destruct (Lb mb E R) as [Lb1 Lb2].
  assert (forall x, x <> b -> heap g' !! x = heap g !! x) as O by (intros x N; by apply lookup_insert_ne).
  assert (heap g' !! b = Some (with_msg mb t')) as E' by apply lookup_insert_eq.
  assert (forall x, x <> b -> text g' x = text g x) as Tx by (intros x N; unfold text; by rewrite O).
  split; [|split; [|done]]; cycle 1.
  { eexists. unfold text. rewrite E'. reflexivity. }
  constructor; try apply I.
  - apply (core_same g _ b mb); try done; [apply I|]. unfold mb_length, bufsize. cbn [with_msg mb_msg].
    destruct (core_power _ _ _ (inv_core _ _ _ _ I) b mb E) as [P _].
    assert (2 ^ 5 <= 2 ^ mb_power mb) by (apply Z.pow_le_mono_r; lia). unfold t'.
    rewrite length_app, length_take. unfold bufsize. rewrite Z.shiftl_1_l. cbn [length CRLF]. lia.
  - intros r p. rewrite (inv_par _ _ _ _ I). split; intros (mp & Hp & P & Rp & NE).
    + exists mp. rewrite O; [done|]. intros ->. congruence.
    + destruct (decide (p = b)) as [->|N]; [rewrite E' in Hp; injection Hp as <-; cbn in Rp; congruence|].
      rewrite O in Hp by done. eauto.
  - intros r Hr. rewrite O; [by apply (inv_par_real _ _ _ _ I)|]. intros ->. rewrite Nb in Hr. by destruct Hr.
  - intros x Hx. destruct (inv_handles _ _ _ _ I x Hx) as [N H]. split; [done|].
    destruct (decide (x = b)) as [->|Nx]; [|by rewrite O].
    intros mx Hm _. rewrite E' in Hm. injection Hm as <-. done.
  - intros x mx r Hx. rewrite O; [by apply (inv_queued _ _ _ _ I)|]. by intros ->.
  - intros r p Hr. rewrite !Tx; [by apply (inv_copy _ _ _ _ I)|intros ->|by intros ->; congruence].
    apply (inv_par _ _ _ _ I) in Hr as (mp & Hp & _ & Rp & _). congruence.
Qed.

(** ** The system: all queues over one pool *)
Definition MQ_start : MQ := MkMQ ∅ [] 0 0 O 0 ∅ 0 ∅ 1%positive.

Record sys : Type := Sys { s_g : MQ; s_handles : list bid; s_queues : list MsgQ }.

Definition all_refs (queues : list MsgQ) : list bid := flat_map qrefs queues.

(** Room for one more reference. *)
Definition in_bounds (s : sys) : Prop :=
  Z.of_nat (length (s_handles s ++ all_refs (s_queues s))) + 1 < 2 ^ 32 - 2.

Section System.
Context (BUFFERPOOL : Z) (FERGUSON_FLUSHER : bool) (flush_connections : MQ -> MQ)
  (kill_highest_sendq : bool -> MQ -> MQ).

(** One call of the module's interface.  Messages are made while the pool has room
    (beyond it [msgq_vmake] kills connections first). *)
Inductive mq_step : sys -> sys -> Prop :=
| step_init g hs qs : mq_step (Sys g hs qs) (Sys g hs (qs ++ [msgq_init]))
| step_make g hs qs t g' b : in_bounds (Sys g hs qs) -> tot_bufsize g < BUFFERPOOL ->
    msgq_vmake BUFFERPOOL FERGUSON_FLUSHER flush_connections kill_highest_sendq g t = Ok (g', Some b) ->
    mq_step (Sys g hs qs) (Sys g' (b :: hs) qs)
| step_append g hs qs b mb t g' : b ∈ hs -> heap g !! b = Some mb -> mb_real mb = None ->
    msgq_append g b t = Ok g' -> mq_step (Sys g hs qs) (Sys g' hs qs)
| step_clean g h1 b h2 qs g' : msgq_clean g b = Ok g' ->
    mq_step (Sys g (h1 ++ b :: h2) qs) (Sys g' (h1 ++ h2) qs)
| step_add g hs qs i mq b w g' mq' : in_bounds (Sys g hs qs) -> qs !! i = Some mq -> b ∈ hs ->
    text g b <> [] -> mq_length mq + Z.of_nat (length (text g b)) < 2 ^ 32 ->
    msgq_add BUFFERPOOL g mq b w = Ok (g', mq') -> mq_step (Sys g hs qs) (Sys g' hs (<[i := mq']> qs))
| step_delete g hs qs i mq k g' mq' : qs !! i = Some mq -> 0 <= k < 2 ^ 32 ->
    msgq_delete g mq k = Ok (g', mq') -> mq_step (Sys g hs qs) (Sys g' hs (<[i := mq']> qs))
| step_excise g hs qs i mq b g' mq' : qs !! i = Some mq ->
    msgq_excise g mq b = Ok (g', mq') -> mq_step (Sys g hs qs) (Sys g' hs (<[i := mq']> qs)).

Definition sys_ok (s : sys) : Prop :=
  (exists par, Inv (s_g s) par (s_handles s) (all_refs (s_queues s))) /\ Forall (queue_ok (s_g s)) (s_queues s).

Lemma inv_start : Inv MQ_start ∅ [] [].
Proof.
  constructor; [constructor|..]; cbn; try done.
  - intros b. unfold refs. cbn. rewrite lookup_empty. lia.
  - intros b i Hb. unfold bucket_at in Hb. cbn in Hb. rewrite lookup_empty in Hb. by apply elem_of_nil in Hb.
  - intros i. unfold bucket_at. cbn. rewrite lookup_empty. constructor.
  - intros b i Hb. by apply elem_of_nil in Hb.
  - intros b Hb. by apply elem_of_nil in Hb.
  - intros b [mb Hb]. by rewrite lookup_empty in Hb.
  - intros r p. rewrite lookup_empty. split; [done|]. intros (mb & Hb & _). by rewrite lookup_empty in Hb.
  - intros r [p Hr]. by rewrite lookup_empty in Hr.
Qed.

Lemma all_refs_focus (qs : list MsgQ) (i : nat) (mq : MsgQ) :
  qs !! i = Some mq -> all_refs qs ≡ₚ qrefs mq ++ all_refs (delete i qs).
Proof. intros E. unfold all_refs. by rewrite (Permutation_flat_map qrefs (delete_Permutation qs i mq E)). Qed.

Lemma all_refs_update (qs : list MsgQ) (i : nat) (mq mq' : MsgQ) :
  qs !! i = Some mq -> all_refs (<[i := mq']> qs) ≡ₚ qrefs mq' ++ all_refs (delete i qs).
Proof.
  intros E. rewrite (all_refs_focus _ i mq').
  - assert (delete i (<[i := mq']> qs) = delete i qs) as ->; [|done].
    revert i E. induction qs as [|q qs IH]; intros [|i] E; cbn in *; [done..|]. by rewrite IH.
  - apply list_lookup_insert_eq. by eapply lookup_lt_Some.
Qed.

Lemma queue_ok_text (g g' : MQ) (mq : MsgQ) :
  (forall x, x ∈ qrefs mq -> text g' x = text g x) -> queue_ok g mq -> queue_ok g' mq.
Proof.
  intros T [QM QT PT QL QB QC]. constructor; try done; [by eapply msg_ok_text|].
  unfold stream. by rewrite (unsent_text g).
Qed.

(** Replacing queue [i] by one that the changed state accounts for. *)
Lemma sys_update (g g' : MQ) (hs : list bid) (qs : list MsgQ) (i : nat) (mq mq' : MsgQ) :
  qs !! i = Some mq -> Forall (queue_ok g) qs -> queue_ok g' mq' ->
  (exists par, Inv g' par hs (qrefs mq' ++ all_refs (delete i qs))) ->
  (forall x, x ∈ all_refs (delete i qs) -> text g' x = text g x) ->
  sys_ok (Sys g' hs (<[i := mq']> qs)).
Proof.
  intros E F Q (par & I) T. split; cbn [s_g s_handles s_queues].
  - exists par. by rewrite (all_refs_update qs i mq mq').
  - assert (<[i := mq']> qs ≡ₚ mq' :: delete i qs) as ->.
    { assert (delete i (<[i := mq']> qs) = delete i qs) as <-.
      { clear - E. revert i E. induction qs as [|q qs IH]; intros [|i] E; cbn in *; [done..|]. by rewrite IH. }
      apply delete_Permutation, list_lookup_insert_eq. by eapply lookup_lt_Some. }
    constructor; [done|]. rewrite (delete_Permutation qs i mq E) in F. inversion_clear F as [|? ? _ F'].
    rewrite Forall_forall in *. intros q Hq. apply (queue_ok_text g); [|by apply F'].
    intros x Hx. apply T. apply list_elem_of_In, in_flat_map. exists q. by rewrite <- !list_elem_of_In.
Qed.

Lemma sys_same (g g' : MQ) (hs hs' : list bid) (qs : list MsgQ) :
  Forall (queue_ok g) qs -> (exists par, Inv g' par hs' (all_refs qs)) ->
  (forall x, x ∈ all_refs qs -> text g' x = text g x) -> sys_ok (Sys g' hs' qs).
Proof.
  intros F I T. split; [done|]. cbn. rewrite Forall_forall in *. intros q Hq. apply (queue_ok_text g); [|by apply F].
  intros x Hx. apply T. apply list_elem_of_In, in_flat_map. exists q. by rewrite <- !list_elem_of_In.
Qed.


Lemma make_ok (g g' : MQ) (hs : list bid) (qs : list MsgQ) (t : list ascii) (b : bid) :
  sys_ok (Sys g hs qs) -> in_bounds (Sys g hs qs) -> tot_bufsize g < BUFFERPOOL ->
  msgq_vmake BUFFERPOOL FERGUSON_FLUSHER flush_connections kill_highest_sendq g t = Ok (g', Some b) ->
  sys_ok (Sys g' (b :: hs) qs).
Proof.
  intros [[par I] F] Sz Rm E. cbn in I, F.
  destruct (alloc_room BUFFERPOOL FERGUSON_FLUSHER flush_connections kill_highest_sendq hs g par _ BUFSIZE I)
    as (g1 & b1 & A1 & A2); [done..|].
  destruct (alloc_got BUFFERPOOL hs g par _ BUFSIZE I) as (g1' & o & A3 & G); [done|].
  rewrite A2 in A3. injection A3 as <- <-. unfold msgq_vmake in E. rewrite A1 in E. cbn [obind] in E.
  pose proof G as (_ & _ & _ & mb & Em & _ & _ & Pw). unfold load in E. rewrite Em in E. cbn [obind] in E.
  injection E as E <-.
  destruct (got_makes BUFFERPOOL hs g g g1 g' par par (all_refs qs) (all_refs qs) (power_for BUFSIZE) b1
    (take 510 t ++ CRLF)) as (par' & qs' & I' & T & Iso); try done.
  - rewrite length_app, length_take. unfold CRLF. cbn [length]. change (Z.shiftl 1 (power_for BUFSIZE)) with 512. lia.
  - intros mb' E'. assert (mb' = mb) as -> by congruence. rewrite <- E. unfold bufsize. by rewrite Pw.
  - destruct (Iso Rm) as [-> Tx]. apply (sys_same g g' hs); [done|eauto|].
    intros x Hx. apply Tx. by apply refs_elem.
Qed.

Lemma excise_ok (g g' : MQ) (hs : list bid) (qs : list MsgQ) (i : nat) (mq mq' : MsgQ) (b : bid) :
  sys_ok (Sys g hs qs) -> qs !! i = Some mq -> msgq_excise g mq b = Ok (g', mq') ->
  sys_ok (Sys g' hs (<[i := mq']> qs)).
Proof.
  intros [[par I] F] Ei E. cbn in I, F. rewrite (all_refs_focus qs i mq Ei) in I.
  assert (queue_ok g mq) as Q by (rewrite Forall_lookup in F; eauto).
  assert (forall w gq, msgqlist_excise g mq w b = Ok (Some gq) -> gq = (g', mq') ->
    sys_ok (Sys g' hs (<[i := mq']> qs))) as Found.
  { intros w gq Hw ->. destruct (qlist mq w) as [|m rest] eqn:El.
    { unfold msgqlist_excise in Hw. by rewrite El in Hw. }
    destruct (Pos.eqb_spec (msg m) b) as [Em|Em]; cycle 1.
    { unfold msgqlist_excise in Hw. rewrite El in Hw. by rewrite (proj2 (Pos.eqb_neq _ _) Em) in Hw. }
    destruct (excise_lemma g par hs _ mq b w m rest I Q El Em) as (g2 & mq2 & E2 & I2 & Q2 & T2 & _).
    rewrite E2 in Hw. injection Hw as -> ->. apply (sys_update g g' hs qs i mq mq'); auto. }
  pose proof (excise_total g par hs _ mq b I Q) as Tot.
  unfold msgq_excise in E. destruct (Tot Normal) as [HN|[gq HN]]; rewrite HN in E; cbn [obind] in E.
  - destruct (Tot Prio) as [HP|[gq HP]]; rewrite HP in E; cbn [obind] in E; injection E as E.
    + subst g' mq'. rewrite list_insert_id by done. split; [|done]. exists par. cbn. by rewrite (all_refs_focus qs i mq Ei).
    + by eapply Found.
  - injection E as E. by eapply Found.
Qed.

Lemma step_ok (s s' : sys) : sys_ok s -> mq_step s s' -> sys_ok s'.
Proof.
  intros Ok1 St. destruct St as [g hs qs|g hs qs t g' b Sz Rm E|g hs qs b mb t g' Hb Em Er E|g h1 b h2 qs g' E
    |g hs qs i mq b w g' mq' Sz Ei Hb NT Ln E|g hs qs i mq k g' mq' Ei K E|g hs qs i mq b g' mq' Ei E].
  - destruct Ok1 as [[par I] F]. split; cbn in *.
    + exists par. unfold all_refs. rewrite flat_map_app. cbn. by rewrite app_nil_r.
    + apply Forall_app. split; [done|]. constructor; [by constructor|done].
  - by eapply make_ok.
  - destruct Ok1 as [[par I] F]. destruct (append_lemma g par hs _ b mb t I Hb Em Er) as (g2 & E2 & I2 & _ & T2).
    rewrite E2 in E. injection E as ->. apply (sys_same g g' hs); [done|eauto|]. intros x Hx. apply T2.
    intros ->. destruct (inv_handles _ _ _ _ I b Hb) as [_ L]. by destruct (L mb Em Er).
  - destruct Ok1 as [[par I] F]. cbn in I, F.
    destruct (clean_inv g par (h1 ++ b :: h2) (all_refs qs) (h1 ++ h2) (all_refs qs) b I) as (g2 & par' & E2 & I2 & K2).
    { split; [|split; [set_solver|done]]. rewrite <- !app_assoc. symmetry. apply Permutation_middle. }
    rewrite E2 in E. injection E as ->. apply (sys_same g g' (h1 ++ b :: h2)); [done|eauto|].
    intros x _. by apply (text_keeps _ _ _ K2).
  - destruct Ok1 as [[par I] F]. cbn in I, F. unfold in_bounds in Sz. cbn in Sz.
    rewrite (all_refs_focus qs i mq Ei) in I, Sz. assert (queue_ok g mq) as Q by (rewrite Forall_lookup in F; eauto).
    destruct (msgq_add_lemma BUFFERPOOL g par hs _ mq b w I Q Hb NT Sz Ln) as (g2 & mq2 & r & E2 & I2 & Q2 & _ & _ & T2).
    rewrite E2 in E. injection E as -> ->. apply (sys_update g g' hs qs i mq mq'); auto.
    intros x Hx. apply T2, refs_elem. set_solver.
  - destruct Ok1 as [[par I] F]. cbn in I, F. rewrite (all_refs_focus qs i mq Ei) in I.
    assert (queue_ok g mq) as Q by (rewrite Forall_lookup in F; eauto).
    destruct (msgq_delete_lemma hs _ g mq par k I Q K) as (g2 & mq2 & E2 & I2 & Q2 & T2 & _).
    rewrite E2 in E. injection E as -> ->. apply (sys_update g g' hs qs i mq mq'); auto.
  - by eapply excise_ok.
Qed.

Lemma reachable_ok (s : sys) : rtc mq_step (Sys MQ_start [] []) s -> sys_ok s.
Proof.
  intros R. assert (sys_ok (Sys MQ_start [] [])) as O0.
  { split; [exists ∅; apply inv_start|constructor]. }
  revert O0. induction R as [s|s1 s2 s3 St _ IH]; intros O0; [done|]. apply IH. by eapply step_ok.
Qed.
End System.

(** ** Claims *)

(** [msgq_delete] of [k] bytes returns (whatever the mix of partly sent, priority
    and normal messages), removes exactly the first [k] bytes of the queue's stream,
    keeps the queue's counters and the reference counts of all buffers exact, and
    changes no other queue's stream. *)
Theorem msgq_delete_spec (hs oth : list bid) (g : MQ) (mq : MsgQ) (par : gmap bid bid) (k : Z) :
  Inv g par hs (qrefs mq ++ oth) -> queue_ok g mq -> 0 <= k < 2 ^ 32 ->
  exists g' mq', msgq_delete g mq k = Ok (g', mq') /\
    stream g' mq' = drop (Z.to_nat k) (stream g mq) /\ queue_ok g' mq' /\
    (exists par', Inv g' par' hs (qrefs mq' ++ oth)) /\ (forall mq2, stream g' mq2 = stream g mq2).
Proof.
  intros I Q K. destruct (msgq_delete_lemma hs oth g mq par k I Q K) as (g' & mq' & E & I' & Q' & T & S).
  exists g', mq'. split; [done|]. split; [done|]. split; [done|]. split; [done|].
  intros mq2. by apply stream_text.
Qed.

(** [msgq_mapiov] maps the first [count] messages of the stream, in the order in
    which [msgq_delete] removes them, each from its first unsent byte; a large enough
    vector covers the stream exactly. *)
Theorem msgq_mapiov_spec (g : MQ) (mq : MsgQ) (count : nat) :
  queue_ok g mq -> (0 < count)%nat ->
  exists iov, msgq_mapiov g mq count = Ok iov /\ iov = take count (map (unsent g) (order mq)) /\
    (Z.of_nat count >= mq_count mq -> concat iov = stream g mq).
Proof.
  intros Q Cn. eexists. split; [by apply mapiov_lemma|]. split; [done|]. intros H.
  rewrite (q_count _ _ Q) in H. rewrite take_ge by (rewrite length_map; lia).
  unfold stream. by rewrite flat_map_concat_map.
Qed.

(** [msgq_add] of a live, non-empty message returns, puts its text at the end of
    the stream (normal) or behind the partly sent and the priority messages (priority),
    keeps counters and reference counts exact, and changes the stream of no queue whose
    messages are accounted for. *)
Theorem msgq_add_spec (BUFFERPOOL : Z) (g : MQ) (par : gmap bid bid) (hs oth : list bid) (mq : MsgQ) (b : bid) (w : which) :
  Inv g par hs (qrefs mq ++ oth) -> queue_ok g mq -> b ∈ hs -> text g b <> [] ->
  Z.of_nat (length (hs ++ qrefs mq ++ oth)) + 1 < 2 ^ 32 - 2 ->
  mq_length mq + Z.of_nat (length (text g b)) < 2 ^ 32 ->
  exists g' mq', msgq_add BUFFERPOOL g mq b w = Ok (g', mq') /\
    stream g' mq' = (match w with
                     | Normal => stream g mq ++ text g b
                     | Prio => flat_map (unsent g) (ahead mq) ++ text g b ++ flat_map (unsent g) (behind mq)
                     end) /\
    queue_ok g' mq' /\ (exists par', Inv g' par' hs (qrefs mq' ++ oth)) /\
    (forall mq2, (forall x, x ∈ qrefs mq2 -> x ∈ qrefs mq ++ oth) -> stream g' mq2 = stream g mq2).
Proof.
  intros I Q Hb NT Sz Ln.
  destruct (msgq_add_lemma BUFFERPOOL g par hs oth mq b w I Q Hb NT Sz Ln) as (g' & mq' & r & E & I' & Q' & O & T & Tx).
  exists g', mq'. split; [done|].
  assert (forall l, (forall x, x ∈ map msg l -> x ∈ qrefs mq ++ oth) ->
    flat_map (unsent g') l = flat_map (unsent g) l) as Same.
  { intros l Hl. apply unsent_text. intros x Hx. apply Tx, refs_elem. by apply Hl. }
  assert (unsent g' (MkMsg 0 r) = text g b) as Tr by done.
  assert (qrefs mq = map msg (ahead mq) ++ map msg (behind mq)) as Qr by (unfold qrefs; by rewrite order_split, map_app).
  split; [|split; [done|]; split; [done|]; intros mq2 H; by apply Same].
  unfold stream at 1. rewrite O. destruct w; cbn [order_with]; rewrite flat_map_app; cbn [flat_map]; rewrite Tr.
  - rewrite app_nil_r. f_equal. apply Same. unfold qrefs. set_solver.
  - rewrite !Same; [done| |]; rewrite Qr; set_solver.
Qed.

(** The references to a buffer: the caller's, those of the queues, and one more if it stands
    in for a buffer that is in use. *)
Definition stands_in (g : MQ) (r p : bid) : Prop := exists mb, heap g !! p = Some mb /\ 0 < mb_ref mb /\ mb_real mb = Some r /\ r <> p.

(** C18. From the empty pool, through any sequence of calls of the module's interface on
    any number of queues, messages being made while the pool has room: the reference count
    of every buffer is exactly the number of its references by callers and queues, plus one
    for the one buffer it stands in for; what is referenced is allocated; a buffer is on the
    free list of its size, once, exactly when its count is zero, so none is lost or reused
    while it is in use.  No call reads a released buffer, loops or fails: making, appending,
    queueing, mapping, sending, excising and releasing all return. *)
Theorem msgq_reachable_safe (BUFFERPOOL : Z) (FERGUSON_FLUSHER : bool) (flush_connections : MQ -> MQ)
    (kill_highest_sendq : bool -> MQ -> MQ) (s : sys) :
  rtc (mq_step BUFFERPOOL FERGUSON_FLUSHER flush_connections kill_highest_sendq) (Sys MQ_start [] []) s ->
  (exists par : gmap bid bid, (forall r p, par !! r = Some p <-> stands_in (s_g s) r p) /\
     forall (b : bid) mb, heap (s_g s) !! b = Some mb ->
       mb_ref mb = Z.of_nat (count_occ Pos.eq_dec (s_handles s ++ all_refs (s_queues s)) b) + match par !! b with Some _ => 1 | None => 0 end) /\
  (forall b, b ∈ s_handles s ++ all_refs (s_queues s) -> is_Some (heap (s_g s) !! b)) /\
  (forall b mb, heap (s_g s) !! b = Some mb -> (b ∈ b_free (bucket_at (s_g s) (mb_power mb)) <-> mb_ref mb = 0)) /\
  (forall i, NoDup (b_free (bucket_at (s_g s) i)) /\ forall b, b ∈ b_free (bucket_at (s_g s) i) -> exists mb, heap (s_g s) !! b = Some mb /\ mb_power mb = i) /\
  (forall t, in_bounds s -> tot_bufsize (s_g s) < BUFFERPOOL ->
     exists g' b, msgq_vmake BUFFERPOOL FERGUSON_FLUSHER flush_connections kill_highest_sendq (s_g s) t = Ok (g', Some b)) /\
  (forall b mb t, b ∈ s_handles s -> heap (s_g s) !! b = Some mb -> mb_real mb = None -> exists g', msgq_append (s_g s) b t = Ok g') /\
  (forall mq b w, mq ∈ s_queues s -> in_bounds s -> b ∈ s_handles s -> text (s_g s) b <> [] -> mq_length mq + Z.of_nat (length (text (s_g s) b)) < 2 ^ 32 ->
     exists r, msgq_add BUFFERPOOL (s_g s) mq b w = Ok r) /\
  (forall mq k, mq ∈ s_queues s -> 0 <= k < 2 ^ 32 -> exists r, msgq_delete (s_g s) mq k = Ok r) /\
  (forall mq n, mq ∈ s_queues s -> (0 < n)%nat -> exists r, msgq_mapiov (s_g s) mq n = Ok r) /\
  (forall mq b, mq ∈ s_queues s -> exists r, msgq_excise (s_g s) mq b = Ok r) /\
  (forall b, b ∈ s_handles s -> exists g', msgq_clean (s_g s) b = Ok g').
Proof.
  intros R. destruct (reachable_ok _ _ _ _ s R) as [[par I] F]. destruct s as [g hs qs]. cbn [s_g s_handles s_queues] in *.
  pose proof (inv_core _ _ _ _ I) as C.
  assert (forall mq, mq ∈ qs -> exists oth, Inv g par hs (qrefs mq ++ oth) /\ queue_ok g mq /\ all_refs qs ≡ₚ qrefs mq ++ oth) as Focus.
  { intros mq Hq. apply list_elem_of_lookup in Hq as [i Ei]. rewrite Forall_lookup in F. pose proof I as I'. rewrite (all_refs_focus qs i mq Ei) in I'. eexists. split; [exact I'|]. split; [eauto|]. by rewrite (all_refs_focus qs i mq Ei). }
  split_and!.
  - exists par. split.
    + intros r p. rewrite (inv_par _ _ _ _ I r p). split; intros (mb & E & P & Rl & N); exists mb; (split; [done|]); rewrite (core_ref _ _ _ C p mb E) in *; (split; [lia|done]).
    + intros b mb E. rewrite (core_ref _ _ _ C b mb E). unfold refs. rewrite Nat2Z.inj_add. f_equal. by destruct (par !! b).
  - intros b Hb. apply (core_dom _ _ _ C). by apply refs_pos.
  - intros b mb E. rewrite (core_free _ _ _ C b mb E) by apply not_elem_of_nil. rewrite (core_ref _ _ _ C b mb E). lia.
  - intros i. split; [apply (core_free_nodup _ _ _ C)|]. intros b. apply (core_free_in _ _ _ C).
  - intros t Sz Rm. destruct (alloc_room BUFFERPOOL FERGUSON_FLUSHER flush_connections kill_highest_sendq hs g par _ BUFSIZE I) as (g1 & b & A1 & A2); [done..|].
    destruct (alloc_got BUFFERPOOL hs g par _ BUFSIZE I) as (g1' & o & A3 & G); [done|]. rewrite A2 in A3. injection A3 as <- <-. destruct G as (_ & _ & _ & mb & Em & _). unfold msgq_vmake, load. rewrite A1. cbn [obind]. rewrite Em. cbn [obind]. eauto.
  - intros b mb t Hb Em Er. destruct (append_lemma g par hs _ b mb t I Hb Em Er) as (g2 & E2 & _). eauto.
  - intros mq b w Hq Sz Hb NT Ln. destruct (Focus mq Hq) as (oth & I' & Q & P). unfold in_bounds in Sz. cbn [s_handles s_queues] in Sz. rewrite P in Sz.
    destruct (msgq_add_lemma BUFFERPOOL g par hs oth mq b w I' Q Hb NT Sz Ln) as (g2 & mq2 & r & E2 & _). eauto.
  - intros mq k Hq K. destruct (Focus mq Hq) as (oth & I' & Q & _). destruct (msgq_delete_lemma hs _ g mq par k I' Q K) as (g' & mq' & E & _). eauto.
  - intros mq n Hq N. destruct (Focus mq Hq) as (oth & I' & Q & _). eexists. by apply mapiov_lemma.
  - intros mq b Hq. destruct (Focus mq Hq) as (oth & I' & Q & _). by eapply excise_returns.
  - intros b Hb. apply list_elem_of_split in Hb as (h1 & h2 & ->).
    destruct (clean_inv g par (h1 ++ b :: h2) (all_refs qs) (h1 ++ h2) (all_refs qs) b I) as (g' & _ & E & _); [|eauto].
    split; [|split; [set_solver|done]]. rewrite <- !app_assoc. symmetry. apply Permutation_middle.
Qed.

(** ** A run of the module

    One message on both lists of a queue, the normal one partly sent. *)
Definition result {A : Type} (d : A) (m : outcome A) : A := match m with Ok a => a | _ => d end.

Definition POOL : Z := 100000.
Definition demo_1 : MQ :=
  (result (MQ_start, None)
     (msgq_vmake POOL false (fun g => g) (fun _ g => g) MQ_start (cstr "PING :ircu"))).1.
Definition demo_2 : MQ * MsgQ := result (MQ_start, msgq_init) (msgq_add POOL demo_1 msgq_init 1%positive Normal).
Definition demo_3 : MQ * MsgQ := result (MQ_start, msgq_init) (msgq_delete demo_2.1 demo_2.2 5).
Definition demo_4 : MQ * MsgQ := result (MQ_start, msgq_init) (msgq_add POOL demo_3.1 demo_3.2 1%positive Prio).

Definition demo_sys : sys := Sys demo_4.1 [1%positive] [demo_4.2].

Lemma demo_runs :
  rtc (mq_step POOL false (fun g => g) (fun _ g => g)) (Sys MQ_start [] []) demo_sys.
Proof.
  eapply rtc_l; [apply step_init|].
  eapply rtc_l; [eapply (step_make _ _ _ _ _ _ _ (cstr "PING :ircu") demo_1 1%positive); vm_compute; reflexivity|].
  eapply rtc_l; [apply (step_add _ _ _ _ _ _ _ 0%nat msgq_init 1%positive Normal demo_2.1 demo_2.2);
    try (vm_compute; reflexivity); [left|vm_compute; discriminate]|].
  eapply rtc_l; [apply (step_delete _ _ _ _ _ _ _ 0%nat demo_2.2 5 demo_3.1 demo_3.2);
    try (vm_compute; reflexivity); lia|].
  eapply rtc_l; [apply (step_add _ _ _ _ _ _ _ 0%nat demo_3.2 1%positive Prio demo_4.1 demo_4.2);
    try (vm_compute; reflexivity); [left|vm_compute; discriminate]|].
  apply rtc_refl.
Qed.

Lemma one_queue_ok (g : MQ) (hs : list bid) (mq : MsgQ) :
  sys_ok (Sys g hs [mq]) -> exists par, Inv g par hs (qrefs mq ++ []) /\ queue_ok g mq.
Proof. intros [[par I] F]. exists par. split; [exact I|]. by inversion F. Qed.

Lemma demo_ok : exists par, Inv demo_4.1 par [1%positive] (qrefs demo_4.2 ++ []) /\ queue_ok demo_4.1 demo_4.2.
Proof. apply one_queue_ok. exact (reachable_ok _ _ _ _ _ demo_runs). Qed.

Lemma demo_queued : 2%positive ∈ s_handles demo_sys ++ all_refs (s_queues demo_sys).
Proof. vm_compute. right. left. Qed.

Lemma msgq_delete_spec_witness : exists g' mq', msgq_delete demo_4.1 demo_4.2 9 = Ok (g', mq') /\
  stream g' mq' = cstr "NG :ircu" ++ CRLF.
Proof.
  destruct demo_ok as (par & I & Q).
  destruct (msgq_delete_spec [1%positive] [] demo_4.1 demo_4.2 par 9 I Q ltac:(lia)) as (g' & mq' & E & S & _).
  exists g', mq'. split; [exact E|]. rewrite S. vm_compute. reflexivity.
Defined.

Lemma msgq_mapiov_spec_witness : exists iov, msgq_mapiov demo_4.1 demo_4.2 2 = Ok iov /\
  iov = [cstr ":ircu" ++ CRLF; cstr "PING :ircu" ++ CRLF].
Proof.
  destruct demo_ok as (par & I & Q).
  destruct (msgq_mapiov_spec demo_4.1 demo_4.2 2 Q ltac:(lia)) as (iov & E & S & _).
  exists iov. split; [exact E|]. rewrite S. vm_compute. reflexivity.
Defined.

Lemma msgq_add_spec_witness : exists g' mq', msgq_add POOL demo_4.1 demo_4.2 1%positive Normal = Ok (g', mq') /\
  stream g' mq' = cstr ":ircu" ++ CRLF ++ cstr "PING :ircu" ++ CRLF ++ cstr "PING :ircu" ++ CRLF.
Proof.
  destruct demo_ok as (par & I & Q).
  destruct (msgq_add_spec POOL demo_4.1 par [1%positive] [] demo_4.2 1%positive Normal I Q) as (g' & mq' & E & S & _).
  - left.
  - vm_compute. discriminate.
  - vm_compute. reflexivity.
  - vm_compute. reflexivity.
  - exists g', mq'. split; [exact E|]. rewrite S. vm_compute. reflexivity.
Defined.

Lemma msgq_reachable_safe_witness :
  exists mb, heap (s_g demo_sys) !! 2%positive = Some mb /\ (2%positive ∈ b_free (bucket_at (s_g demo_sys) (mb_power mb)) <-> mb_ref mb = 0).
Proof.
  destruct (msgq_reachable_safe POOL false (fun g => g) (fun _ g => g) demo_sys demo_runs) as (_ & Al & Fr & _).
  destruct (Al 2%positive demo_queued) as [mb E]. exists mb. split; [exact E|exact (Fr _ _ E)].
Defined.
