(* ===== verification/IPcheck.v ===== *)
(** * Connection registry: [ircd/IPcheck.c]

    One entry per client address (per /64 for IPv6, with IPv4 in 6to4 form) counts the
    connected clients and the recent attempts; a second table counts attempts per IPv6
    /48.  A hash table is a map from buckets to chains.  Writing through an entry
    pointer is [put_entry], which replaces the entry of that address in its chain.
    The free lists only recycle memory and are left out.  [now] is [CurrentTime],
    [since] is [cli_since(&me)]. *)

From stdpp Require Import base list gmap strings.
From Stdlib Require Import ZArith Lia Ascii.
From S2P Require Import Prelude Addr.

Local Open Scope Z_scope.
Local Open Scope ircu_scope.

Definition TARGET_DELAY : Z := 128.
Definition STARTTARGETS : Z := 10.
Definition MAXTARGETS : nat := 20.
Definition IP_REGISTRY_TABLE_SIZE : Z := 0x10000.

Record IPTargetEntry : Type := IPTarget { t_count : Z; t_targets : list Z }.

Record IPRegistryEntry : Type := IPEntry {
  target : option IPTargetEntry;
  addr : irc_in_addr;
  last_connect : Z;
  connected : Z;
  attempts : Z
}.

Record IPRegistry48 : Type := IP48 {
  last_connect48 : Z;
  addr48 : Z * Z * Z;
  attempts48 : Z
}.

Record registry : Type := Registry {
  hashTable : gmap Z (list IPRegistryEntry);
  hashTable48 : gmap Z (list IPRegistry48);
  exceptIPv4 : list (irc_in_addr * Z);
  exceptIPv6 : list (irc_in_addr * Z)
}.

(** The [FEAT_IPCHECK_*] settings. *)
Record features : Type := Features {
  IPCHECK_CLONE_LIMIT : Z;
  IPCHECK_CLONE_PERIOD : Z;
  IPCHECK_48_CLONE_LIMIT : Z;
  IPCHECK_48_CLONE_PERIOD : Z;
  IPCHECK_CLONE_DELAY : Z
}.

Definition set_target (e : IPRegistryEntry) (t : option IPTargetEntry) : IPRegistryEntry :=
  IPEntry t (addr e) (last_connect e) (connected e) (attempts e).
Definition set_last (e : IPRegistryEntry) (t : Z) : IPRegistryEntry :=
  IPEntry (target e) (addr e) t (connected e) (attempts e).
Definition set_connected (e : IPRegistryEntry) (n : Z) : IPRegistryEntry :=
  IPEntry (target e) (addr e) (last_connect e) n (attempts e).
Definition set_attempts (e : IPRegistryEntry) (n : Z) : IPRegistryEntry :=
  IPEntry (target e) (addr e) (last_connect e) (connected e) n.

Definition set_table (st : registry) (t : gmap Z (list IPRegistryEntry)) : registry :=
  Registry t (hashTable48 st) (exceptIPv4 st) (exceptIPv6 st).
Definition set_table48 (st : registry) (t : gmap Z (list IPRegistry48)) : registry :=
  Registry (hashTable st) t (exceptIPv4 st) (exceptIPv6 st).

Definition chain {A : Type} (t : gmap Z (list A)) (i : Z) : list A := default [] (t !! i).

(** ** The code *)
Definition NOW (now : Z) : Z := Z.land now 0xffff.
Definition CONNECTED_SINCE (now x : Z) : Z := NOW now - x.

Definition ip_registry_canonicalize (a : irc_in_addr) : irc_in_addr :=
  if irc_in_addr_is_ipv4 a then InAddr [0x2002; part a 6; part a 7; 0; 0; 0; 0; 0]
  else InAddr [part a 0; part a 1; part a 2; part a 3; 0; 0; 0; 0].

Definition ip_registry_hash (ip : irc_in_addr) : Z :=
  Z.land (Z.lxor (Z.lxor (Z.lxor (part ip 0) (part ip 1)) (part ip 2)) (part ip 3))
    (IP_REGISTRY_TABLE_SIZE - 1).

Fixpoint find_chain (canon : irc_in_addr) (bits : Z) (l : list IPRegistryEntry) : option IPRegistryEntry :=
  match l with
  | [] => None
  | e :: l' => if negb (ipmask_check canon (addr e) bits =? 0) then Some e else find_chain canon bits l'
  end.

Definition ip_registry_find (st : registry) (ip : irc_in_addr) : option IPRegistryEntry :=
  let canon := ip_registry_canonicalize ip in
  let bits := if part canon 0 =? 0x2002 then 48 else 64 in
  find_chain canon bits (chain (hashTable st) (ip_registry_hash canon)).

Definition ip_registry_add (st : registry) (e : IPRegistryEntry) : registry :=
  let bucket := ip_registry_hash (addr e) in
  set_table st (<[bucket := e :: chain (hashTable st) bucket]> (hashTable st)).

(** Unlink the entry (the one with this address) from its chain. *)
Definition ip_registry_remove (st : registry) (e : IPRegistryEntry) : registry :=
  let bucket := ip_registry_hash (addr e) in
  set_table st (<[bucket := filter (fun x => addr x <> addr e) (chain (hashTable st) bucket)]> (hashTable st)).

(** Assignments through the entry pointer. *)
Definition put_entry (st : registry) (e : IPRegistryEntry) : registry :=
  let bucket := ip_registry_hash (addr e) in
  set_table st (<[bucket := map (fun x => if decide (addr x = addr e) then e else x)
                              (chain (hashTable st) bucket)]> (hashTable st)).

Definition ip_registry_new_entry (now : Z) (a : irc_in_addr) : IPRegistryEntry :=
  IPEntry None a (NOW now) 1 1.

(** Returns the number of free targets and the entry as updated. *)
Definition ip_registry_update_free_targets (now : Z) (e : IPRegistryEntry) : Z * IPRegistryEntry :=
  match target e with
  | None => (STARTTARGETS, e)
  | Some t =>
      let free := u32 (t_count t + Z.quot (CONNECTED_SINCE now (last_connect e)) TARGET_DELAY) in
      let free := if STARTTARGETS <? free then STARTTARGETS else free in
      (free, set_target e (Some (IPTarget free (t_targets t))))
  end.

Definition ip_registry_expire_entry (now : Z) (st : registry) (e : IPRegistryEntry) : registry :=
  if 600 <? CONNECTED_SINCE now (last_connect e) then ip_registry_remove st e
  else if (120 <? CONNECTED_SINCE now (last_connect e)) && match target e with Some _ => true | None => false end then
    put_entry st (set_target e None)
  else st.

Definition ip_48_hash (ip : irc_in_addr) : Z :=
  Z.land (Z.lxor (Z.lxor (part ip 0) (part ip 1)) (part ip 2)) (IP_REGISTRY_TABLE_SIZE - 1).

Definition key48 (ip : irc_in_addr) : Z * Z * Z := (part ip 0, part ip 1, part ip 2).

(** [ip_48_find]: finds or creates. *)
Definition ip_48_find (now : Z) (st : registry) (ip : irc_in_addr) : registry * IPRegistry48 :=
  let idx := ip_48_hash ip in
  match list_find (fun e => addr48 e = key48 ip) (chain (hashTable48 st) idx) with
  | Some (_, e) => (st, e)
  | None =>
      let e := IP48 (NOW now) (key48 ip) 0 in
      (set_table48 st (<[idx := e :: chain (hashTable48 st) idx]> (hashTable48 st)), e)
  end.

Definition put_48 (st : registry) (ip : irc_in_addr) (e : IPRegistry48) : registry :=
  let idx := ip_48_hash ip in
  set_table48 st (<[idx := map (fun x => if decide (addr48 x = addr48 e) then e else x)
                             (chain (hashTable48 st) idx)]> (hashTable48 st)).

(** [ip_registry_expire]: all buckets, in order.  The next pointer is read before the
    entry is expired, so the chain as it was is walked. *)
Fixpoint expire_chain (now : Z) (st : registry) (l : list IPRegistryEntry) : registry :=
  match l with
  | [] => st
  | e :: l' =>
      let st := if connected e =? 0 then ip_registry_expire_entry now st e else st in
      expire_chain now st l'
  end.

Definition expire_bucket (now : Z) (st : registry) (i : Z) : registry :=
  expire_chain now st (chain (hashTable st) i).

Definition expire48_bucket (now : Z) (st : registry) (i : Z) : registry :=
  set_table48 st (<[i := filter (fun e => ~ 600 < CONNECTED_SINCE now (last_connect48 e))
                           (chain (hashTable48 st) i)]> (hashTable48 st)).

Definition buckets : list Z := seqZ 0 IP_REGISTRY_TABLE_SIZE.

Definition ip_registry_expire (now : Z) (st : registry) : registry :=
  fold_left (expire48_bucket now) buckets (fold_left (expire_bucket now) buckets st).

Definition IPcheck_clear_config (st : registry) : registry :=
  Registry (hashTable st) (hashTable48 st) [] [].

(** [IPcheck_except] after [ipmask_parse] (whose result is an argument): the status
    and the registry. *)
Definition IPcheck_except (st : registry) (parsed : option (irc_in_addr * Z)) : registry * Z :=
  match parsed with
  | None => (st, 1)
  | Some (a, bits) =>
      if negb (irc_in_addr_valid a) then (st, 2)
      else if irc_in_addr_is_ipv4 a then
        (Registry (hashTable st) (hashTable48 st) ((a, bits) :: exceptIPv4 st) (exceptIPv6 st), 0)
      else (Registry (hashTable st) (hashTable48 st) (exceptIPv4 st) ((a, bits) :: exceptIPv6 st), 0)
  end.

Definition ip_registry_is_exempt (st : registry) (a : irc_in_addr) : bool :=
  existsb (fun '(m, bits) => negb (ipmask_check a m bits =? 0))
    (if irc_in_addr_is_ipv4 a then exceptIPv4 st else exceptIPv6 st).

(** [if (0 == ++x) --x;] on an [unsigned short] and an [unsigned char], and
    [if (0 == --x) ++x;]. *)
Definition bump16 (n : Z) : Z := let n := u16 (n + 1) in if n =? 0 then u16 (n - 1) else n.
Definition bump8 (n : Z) : Z := let n := u8 (n + 1) in if n =? 0 then u8 (n - 1) else n.
Definition drop16 (n : Z) : Z := let n := u16 (n - 1) in if n =? 0 then u16 (n + 1) else n.
Definition drop8 (n : Z) : Z := let n := u8 (n - 1) in if n =? 0 then u8 (n + 1) else n.

Section Check.
Context (F : features) (now since : Z).

(** An IPv6 connection counted against its /48. *)
Definition count_48 (st : registry) (a : irc_in_addr) : registry * IPRegistry48 :=
  let '(st, e) := ip_48_find now st a in
  let att := if IPCHECK_48_CLONE_PERIOD F <? CONNECTED_SINCE now (last_connect48 e) then 0 else attempts48 e in
  let e := IP48 (NOW now) (addr48 e) (bump16 att) in
  (put_48 st a e, e).

(** [ip_registry_check_local]: the registry, whether the connection is permitted, and
    what is stored in [*next_target_out]. *)
Definition ip_registry_check_local (st : registry) (a : irc_in_addr) : registry * bool * option Z :=
  if ip_registry_is_exempt st a then (st, true, None)
  else
    let entry := ip_registry_find st a in
    let '(st, reject48) :=
      if irc_in_addr_is_ipv4 a then (st, false)
      else
        let '(st, e48) := count_48 st a in
        (st, (IPCHECK_48_CLONE_LIMIT F <=? attempts48 e48) && (IPCHECK_CLONE_DELAY F <? now - since)) in
    match entry with
    | None =>
        if reject48 then (st, false, None)
        else (ip_registry_add st (ip_registry_new_entry now (ip_registry_canonicalize a)), true, None)
    | Some e =>
        if reject48 then
          let e := set_last e (NOW now) in
          let n := u16 (connected e + 1) in
          if n =? 0 then (put_entry st (set_connected e (u16 (n - 1))), false, None)
          else (put_entry st (set_connected e (u16 (n - 1))), false, None)
        else
          let n := u16 (connected e + 1) in
          if n =? 0 then (put_entry st (set_connected e (u16 (n - 1))), false, None)
          else
            let e := set_connected e n in
            let e := if IPCHECK_CLONE_PERIOD F <? CONNECTED_SINCE now (last_connect e) then set_attempts e 0 else e in
            let '(free, e) := ip_registry_update_free_targets now e in
            let e := set_last e (NOW now) in
            let e := set_attempts e (bump8 (attempts e)) in
            if attempts e <? IPCHECK_CLONE_LIMIT F then
              (put_entry st e, true, Some (now - u32 (TARGET_DELAY * free - 1)))
            else if IPCHECK_CLONE_DELAY F <? now - since then
              (put_entry st (set_connected e (u16 (connected e - 1))), false, None)
            else (put_entry st e, true, None)
    end.

(** [ip_registry_check_remote] for a client at address [a]. *)
Definition ip_registry_check_remote (st : registry) (a : irc_in_addr) (is_burst : bool) : registry * bool :=
  if negb (irc_in_addr_valid a) then (st, true)
  else if ip_registry_is_exempt st a then (st, true)
  else
    let st := if irc_in_addr_is_ipv4 a then st else (count_48 st a).1 in
    match ip_registry_find st a with
    | None =>
        let e := ip_registry_new_entry now (ip_registry_canonicalize a) in
        let e := if is_burst then set_attempts e 0 else e in
        (ip_registry_add st e, true)
    | Some e =>
        let n := u16 (connected e + 1) in
        if n =? 0 then (put_entry st (set_connected e n), false)
        else
          let e := set_connected e n in
          let e := if IPCHECK_CLONE_PERIOD F <? CONNECTED_SINCE now (last_connect e) then set_attempts e 0 else e in
          let e :=
            if is_burst then e
            else
              let e := set_attempts e (bump8 (attempts e)) in
              let '(_, e) := ip_registry_update_free_targets now e in
              set_last e (NOW now) in
          (put_entry st e, true)
    end.

Definition ip_registry_connect_fail (st : registry) (a : irc_in_addr) (disconnect : bool) : registry :=
  let entry := ip_registry_find st a in
  let st :=
    if irc_in_addr_is_ipv4 a then st
    else
      let '(st, e) := ip_48_find now st a in
      put_48 st a (IP48 (last_connect48 e) (addr48 e) (drop16 (attempts48 e))) in
  match entry with
  | None => st
  | Some e =>
      let e := set_attempts e (drop8 (attempts e)) in
      put_entry st (if disconnect then set_connected e (u16 (connected e - 1)) else e)
  end.

(** The fields of [struct Client] this module uses. *)
Record client : Type := Client {
  cli_ip : irc_in_addr;
  MyConnect : bool;
  cli_targets : list Z;
  cli_nexttarget : Z;
  cli_firsttime : Z
}.

(** The targets a new client starts with ([ip_registry_connect_succeeded]; the notice
    it sends is left out). *)
Definition ip_registry_connect_succeeded (st : registry) (c : client) : client :=
  match ip_registry_find st (cli_ip c) with
  | None => c
  | Some e =>
      match target e with
      | None => c
      | Some t => Client (cli_ip c) (MyConnect c) (t_targets t) (cli_nexttarget c) (cli_firsttime c)
      end
  end.

(** The free targets a disconnecting local client leaves behind. *)
Definition left_targets (c : client) : Z :=
  let free := if cli_nexttarget c <? now then u32 (Z.quot (now - cli_nexttarget c) TARGET_DELAY + 1) else 0 in
  if 600 <? now - cli_firsttime c then u32 (free + Z.quot (now - cli_firsttime c - 600) TARGET_DELAY) else free.

Definition ip_registry_disconnect (st : registry) (c : client) : registry :=
  let entry := ip_registry_find st (cli_ip c) in
  if negb (irc_in_addr_valid (cli_ip c)) then st
  else
    match entry with
    | None => st
    | Some e =>
        let e := set_connected e (u16 (connected e - 1)) in
        let e :=
          if connected e =? 0 then
            let e := if IPCHECK_CLONE_LIMIT F * IPCHECK_CLONE_PERIOD F <? CONNECTED_SINCE now (last_connect e)
                     then set_attempts e 0 else e in
            let '(_, e) := ip_registry_update_free_targets now e in
            set_last e (NOW now)
          else e in
        let e :=
          if MyConnect c then
            let count := match target e with Some t => t_count t | None => STARTTARGETS end in
            let free := left_targets c in
            set_target e (Some (IPTarget (if free <? count then free else count) (cli_targets c)))
          else e in
        put_entry st e
    end.
End Check.

Definition ip_registry_count (st : registry) (a : irc_in_addr) : Z :=
  match ip_registry_find st a with Some e => connected e | None => 0 end.

Definition IPcheck_nr (st : registry) (c : client) : Z := u16 (ip_registry_count st (cli_ip c)).

(** ** The table as a map from canonical addresses *)
Definition canonical (a : irc_in_addr) : Prop :=
  addr_wf a /\ part a 4 = 0 /\ part a 5 = 0 /\ part a 6 = 0 /\ part a 7 = 0.

Definition is_addr (x : irc_in_addr) (e : IPRegistryEntry) : Prop := addr e = x.
#[global] Instance is_addr_dec (x : irc_in_addr) (e : IPRegistryEntry) : Decision (is_addr x e).
Proof. unfold is_addr. apply _. Defined.

Definition entry_at (st : registry) (x : irc_in_addr) : option IPRegistryEntry :=
  snd <$> list_find (is_addr x) (chain (hashTable st) (ip_registry_hash x)).

Record table_ok (st : registry) : Prop := {
  t_bucket : forall i e, e ∈ chain (hashTable st) i -> ip_registry_hash (addr e) = i;
  t_canon : forall i e, e ∈ chain (hashTable st) i -> canonical (addr e);
  t_nodup : forall i, NoDup (map addr (chain (hashTable st) i));
  t_range : forall i e, e ∈ chain (hashTable st) i -> 0 <= connected e < 2 ^ 16
}.

Definition cnt (st : registry) (x : irc_in_addr) : Z :=
  match entry_at st x with Some e => connected e | None => 0 end.

Lemma addr_parts (a : irc_in_addr) : addr_wf a ->
  exists p0 p1 p2 p3 p4 p5 p6 p7, in6_16 a = [p0; p1; p2; p3; p4; p5; p6; p7] /\
    (0 <= p0 < 2 ^ 16) /\ (0 <= p1 < 2 ^ 16) /\ (0 <= p2 < 2 ^ 16) /\ (0 <= p3 < 2 ^ 16) /\
    (0 <= p4 < 2 ^ 16) /\ (0 <= p5 < 2 ^ 16) /\ (0 <= p6 < 2 ^ 16) /\ (0 <= p7 < 2 ^ 16).
Proof.
  intros [L F]. destruct a as [l]. cbn in *.
  do 8 (destruct l as [|? l]; [done|]). destruct l; [|done].
  rewrite !Forall_cons in F. eexists _, _, _, _, _, _, _, _. split; [reflexivity|]. tauto.
Qed.

Lemma canonicalize_canonical (a : irc_in_addr) : addr_wf a -> canonical (ip_registry_canonicalize a).
Proof.
  intros W. destruct (addr_parts a W) as (p0 & p1 & p2 & p3 & p4 & p5 & p6 & p7 & E & H).
  unfold ip_registry_canonicalize, part. rewrite E. cbn [nth].
  destruct (irc_in_addr_is_ipv4 a); (split; [split; [done|]|by repeat split]); cbn;
    rewrite !Forall_cons; repeat split; try lia; constructor.
Qed.

Lemma canonical_parts (a : irc_in_addr) : canonical a ->
  exists p0 p1 p2 p3, a = InAddr [p0; p1; p2; p3; 0; 0; 0; 0] /\
    (0 <= p0 < 2 ^ 16) /\ (0 <= p1 < 2 ^ 16) /\ (0 <= p2 < 2 ^ 16) /\ (0 <= p3 < 2 ^ 16).
Proof.
  intros (W & Z4 & Z5 & Z6 & Z7). destruct (addr_parts a W) as (p0 & p1 & p2 & p3 & p4 & p5 & p6 & p7 & E & H).
  destruct a as [l]. cbn in E. subst l. unfold part in *. cbn in *. subst. eexists _, _, _, _. split; [done|]. tauto.
Qed.

Lemma hash_parts (p0 p1 p2 p3 : Z) (l : list Z) :
  0 <= p0 < 2 ^ 16 -> 0 <= p1 < 2 ^ 16 -> 0 <= p2 < 2 ^ 16 -> 0 <= p3 < 2 ^ 16 ->
  ip_registry_hash (InAddr (p0 :: p1 :: p2 :: p3 :: l)) = Z.lxor (Z.lxor (Z.lxor p0 p1) p2) p3.
Proof.
  intros. unfold ip_registry_hash, part. cbn [in6_16 nth]. change (IP_REGISTRY_TABLE_SIZE - 1) with (Z.ones 16).
  rewrite Z.land_ones by lia. apply Z.mod_small.
  assert (forall x y, 0 <= x < 2 ^ 16 -> 0 <= y < 2 ^ 16 -> 0 <= Z.lxor x y < 2 ^ 16) as X; [|by repeat apply X].
  intros x y Hx Hy. split; [apply Z.lxor_nonneg; lia|].
  destruct (decide (Z.lxor x y = 0)) as [->|N]; [lia|].
  assert (0 <= Z.lxor x y) by (apply Z.lxor_nonneg; lia).
  apply Z.log2_lt_pow2; [lia|]. eapply Z.le_lt_trans; [by apply Z.log2_lxor; lia|].
  apply Z.max_lub_lt.
  - destruct (decide (x = 0)) as [->|]; [cbn; lia|]. apply Z.log2_lt_pow2; lia.
  - destruct (decide (y = 0)) as [->|]; [cbn; lia|]. apply Z.log2_lt_pow2; lia.
Qed.

(** Within a bucket, the 48- or 64-bit comparison is equality. *)
Lemma bucket_match (x y : irc_in_addr) :
  canonical x -> canonical y -> ip_registry_hash x = ip_registry_hash y ->
  negb (ipmask_check x y (if part x 0 =? 0x2002 then 48 else 64) =? 0) = bool_decide (y = x).
Proof.
  intros Cx Cy H. destruct (canonical_parts x Cx) as (p0 & p1 & p2 & p3 & -> & P0 & P1 & P2 & P3).
  destruct (canonical_parts y Cy) as (q0 & q1 & q2 & q3 & -> & Q0 & Q1 & Q2 & Q3).
  rewrite !hash_parts in H by done.
  assert (p0 = q0 -> p1 = q1 -> p2 = q2 -> p3 = q3) as Last.
  { intros -> -> ->. set (A := Z.lxor (Z.lxor q0 q1) q2) in H. apply (f_equal (Z.lxor A)) in H.
    by rewrite <- (Z.lxor_assoc A A p3), <- (Z.lxor_assoc A A q3), Z.lxor_nilpotent, !Z.lxor_0_l in H. }
  unfold ipmask_check. cbn [in6_16 part nth]. unfold part. cbn [in6_16 nth].
  assert (bool_decide (InAddr [q0; q1; q2; q3; 0; 0; 0; 0] = InAddr [p0; p1; p2; p3; 0; 0; 0; 0]) =
    (p0 =? q0) && (p1 =? q1) && (p2 =? q2) && (p3 =? q3)) as ->.
  { apply eq_true_iff_eq. rewrite bool_decide_eq_true, !andb_true_iff, !Z.eqb_eq. naive_solver. }
  destruct (Z.eqb_spec p0 q0) as [E0|E0]; cycle 1.
  { destruct (p0 =? 8194); cbn; by rewrite (proj2 (Z.eqb_neq _ _) E0). }
  destruct (Z.eqb_spec p1 q1) as [E1|E1]; cycle 1.
  { destruct (p0 =? 8194); cbn; by rewrite (proj2 (Z.eqb_eq _ _) E0), (proj2 (Z.eqb_neq _ _) E1). }
  destruct (Z.eqb_spec p2 q2) as [E2|E2]; cycle 1.
  { destruct (p0 =? 8194); cbn; by rewrite (proj2 (Z.eqb_eq _ _) E0), (proj2 (Z.eqb_eq _ _) E1), (proj2 (Z.eqb_neq _ _) E2). }
  pose proof (Last E0 E1 E2) as E3. subst q0 q1 q2 q3.
  destruct (p0 =? 8194); cbn; by rewrite !Z.eqb_refl.
Qed.

Lemma find_entry_at (st : registry) (a : irc_in_addr) :
  table_ok st -> addr_wf a -> ip_registry_find st a = entry_at st (ip_registry_canonicalize a).
Proof.
  intros T W. unfold ip_registry_find, entry_at. set (x := ip_registry_canonicalize a).
  pose proof (canonicalize_canonical a W : canonical x) as Cx.
  assert (forall e, e ∈ chain (hashTable st) (ip_registry_hash x) ->
    canonical (addr e) /\ ip_registry_hash x = ip_registry_hash (addr e)) as H.
  { intros e He. split; [by eapply t_canon|]. symmetry. by eapply t_bucket. }
  revert H. generalize (chain (hashTable st) (ip_registry_hash x)) as l. intros l.
  induction l as [|e l IH]; intros H; [done|]. cbn [find_chain list_find].
  destruct (H e ltac:(left)) as [Ce He]. rewrite bucket_match by done.
  destruct (decide (is_addr x e)) as [D|D].
  - rewrite bool_decide_true by exact D. done.
  - rewrite bool_decide_false by exact D. rewrite IH by (intros; apply H; by right).
    by destruct (list_find (is_addr x) l) as [[]|].
Qed.

Lemma chain_insert {A : Type} (t : gmap Z (list A)) (i j : Z) (l : list A) :
  chain (<[i := l]> t) j = if decide (i = j) then l else chain t j.
Proof.
  unfold chain. case_decide as D; [subst; by rewrite lookup_insert_eq|by rewrite lookup_insert_ne].
Qed.

Lemma entry_at_in (st : registry) (x : irc_in_addr) (e : IPRegistryEntry) :
  entry_at st x = Some e -> e ∈ chain (hashTable st) (ip_registry_hash x) /\ addr e = x.
Proof.
  unfold entry_at. intros H. apply fmap_Some in H as ([i y] & H & ->). cbn.
  apply list_find_Some in H as (H1 & H2 & _). split; [by eapply list_elem_of_lookup_2|done].
Qed.

Lemma entry_at_unique (st : registry) (e : IPRegistryEntry) (i : Z) :
  table_ok st -> e ∈ chain (hashTable st) i -> entry_at st (addr e) = Some e.
Proof.
  intros T He. unfold entry_at. rewrite (t_bucket st T i e He). pose proof (t_nodup st T i) as N.
  revert He N. generalize (chain (hashTable st) i) as l. induction l as [|y l IH]; intros He N.
  { by apply elem_of_nil in He. }
  cbn [list_find]. cbn in N. apply NoDup_cons in N as [N1 N2]. apply elem_of_cons in He as [->|He].
  - rewrite decide_True by done. done.
  - rewrite decide_False; [|intros D; apply N1; rewrite D; by apply list_elem_of_fmap_2].
    specialize (IH He N2). by destruct (list_find (is_addr (addr e)) l) as [[]|].
Qed.

Lemma entry_at_none (st : registry) (x : irc_in_addr) (e : IPRegistryEntry) :
  entry_at st x = None -> e ∈ chain (hashTable st) (ip_registry_hash x) -> addr e <> x.
Proof.
  unfold entry_at. intros H He. apply fmap_None, list_find_None in H. rewrite Forall_forall in H. by apply H.
Qed.

Lemma entry_range (st : registry) (x : irc_in_addr) (e : IPRegistryEntry) :
  table_ok st -> entry_at st x = Some e -> 0 <= connected e < 2 ^ 16.
Proof. intros T H. apply entry_at_in in H as [H _]. by eapply t_range. Qed.

(** Adding. *)
Lemma add_ok (st : registry) (e : IPRegistryEntry) :
  table_ok st -> canonical (addr e) -> entry_at st (addr e) = None -> 0 <= connected e < 2 ^ 16 ->
  table_ok (ip_registry_add st e) /\
  forall x, entry_at (ip_registry_add st e) x = if decide (addr e = x) then Some e else entry_at st x.
Proof.
  intros T C N R. unfold ip_registry_add. split.
  - constructor; cbn [set_table hashTable]; intros i; try intros y; rewrite chain_insert; case_decide as D; try apply T.
    + intros [->|H]%elem_of_cons; [done|]. rewrite D in H. by eapply t_bucket.
    + intros [->|H]%elem_of_cons; [done|]. by eapply t_canon.
    + cbn. apply NoDup_cons. split; [|rewrite D; apply T].
      intros (y & Ey & Hy)%list_elem_of_fmap. by apply (entry_at_none st (addr e) y).
    + intros [->|H]%elem_of_cons; [done|]. by eapply t_range.
  - intros x. unfold entry_at. cbn [set_table hashTable]. rewrite chain_insert.
    destruct (decide (addr e = x)) as [<-|D].
    + rewrite decide_True by done. cbn [list_find]. by rewrite decide_True.
    + case_decide as D'; [|done]. cbn [list_find]. rewrite decide_False by done. rewrite D'.
      by destruct (list_find (is_addr x) _) as [[]|].
Qed.

(** Assigning through the pointer of the entry at [addr e]. *)
Lemma find_map (x : irc_in_addr) (e : IPRegistryEntry) (l : list IPRegistryEntry) :
  snd <$> list_find (is_addr x) (map (fun y => if decide (addr y = addr e) then e else y) l) =
  (fun y => if decide (addr e = x) then e else y) <$> (snd <$> list_find (is_addr x) l).
Proof.
  induction l as [|y l IH]; [done|]. cbn [map list_find].
  assert (is_addr x (if decide (addr y = addr e) then e else y) <-> is_addr x y) as Eq.
  { unfold is_addr. destruct (decide (addr y = addr e)) as [D|D]; [by rewrite <- D|done]. }
  destruct (decide (is_addr x y)) as [Dy|Dy].
  - rewrite decide_True by (by apply Eq). cbn. unfold is_addr in Dy. case_decide as D1.
    + rewrite decide_True by congruence. done.
    + rewrite decide_False by congruence. done.
  - rewrite decide_False by (by rewrite Eq). rewrite <- !option_fmap_compose in *.
    destruct (list_find (is_addr x) (map _ l)) as [[]|], (list_find (is_addr x) l) as [[]|]; cbn in *; congruence.
Qed.

Lemma put_ok (st : registry) (e0 e : IPRegistryEntry) :
  table_ok st -> entry_at st (addr e) = Some e0 -> 0 <= connected e < 2 ^ 16 ->
  table_ok (put_entry st e) /\
  forall x, entry_at (put_entry st e) x = if decide (addr e = x) then Some e else entry_at st x.
Proof.
  intros T E R. apply entry_at_in in E as E'. destruct E' as [He Ha]. unfold put_entry.
  assert (forall y i, y ∈ map (fun y => if decide (addr y = addr e) then e else y) (chain (hashTable st) i) ->
    y = e \/ y ∈ chain (hashTable st) i) as In.
  { intros y i (z & -> & Hz)%list_elem_of_fmap. case_decide; auto. }
  split.
  - constructor; cbn [set_table hashTable]; intros i; try intros y; rewrite chain_insert; case_decide as D; try apply T.
    + intros [->|H]%In; [done|]. rewrite <- D. by eapply t_bucket.
    + intros [->|H]%In; [|by eapply t_canon]. rewrite <- Ha. by eapply t_canon.
    + rewrite map_map. erewrite map_ext; [by apply (t_nodup st T)|]. intros y. cbn. case_decide; congruence.
    + intros [->|H]%In; [done|]. by eapply t_range.
  - intros x. unfold entry_at. cbn [set_table hashTable]. rewrite chain_insert. case_decide as D.
    + rewrite find_map. destruct (decide (addr e = x)) as [<-|].
      * unfold entry_at in E. rewrite E. done.
      * rewrite D. by destruct (snd <$> _).
    + rewrite decide_False; [done|]. congruence.
Qed.

(** Unlinking. *)
Lemma remove_ok (st : registry) (e : IPRegistryEntry) :
  table_ok st -> table_ok (ip_registry_remove st e) /\
  forall x, entry_at (ip_registry_remove st e) x = if decide (addr e = x) then None else entry_at st x.
Proof.
  intros T. unfold ip_registry_remove. split.
  - constructor; cbn [set_table hashTable]; intros i; try intros y; rewrite chain_insert; case_decide as D; try apply T.
    + intros [_ H]%list_elem_of_filter. rewrite <- D. by eapply t_bucket.
    + intros [_ H]%list_elem_of_filter. by eapply t_canon.
    + pose proof (t_nodup st T (ip_registry_hash (addr e))) as N. revert N.
      generalize (chain (hashTable st) (ip_registry_hash (addr e))) as l.
      induction l as [|y l IH]; intros N; [done|]. cbn [map] in N. apply NoDup_cons in N as [N1 N2].
      rewrite filter_cons. case_decide; [|auto]. cbn [map]. apply NoDup_cons. split; [|auto]. intros (z & Ez & [_ Hz]%list_elem_of_filter)%list_elem_of_fmap.
      apply N1. rewrite Ez. by apply list_elem_of_fmap_2.
    + intros [_ H]%list_elem_of_filter. by eapply t_range.
  - intros x. unfold entry_at. cbn [set_table hashTable]. rewrite chain_insert. destruct (decide (addr e = x)) as [<-|D].
    + rewrite decide_True by done. apply fmap_None, list_find_None, Forall_forall.
      intros y [H _]%list_elem_of_filter. done.
    + case_decide as D'; [|done]. rewrite D'. generalize (chain (hashTable st) (ip_registry_hash x)) as l.
      induction l as [|y l IH]; [done|]. rewrite filter_cons. cbn [list_find]. destruct (decide (is_addr x y)) as [Dy|Dy].
      * rewrite decide_True by (unfold is_addr in Dy; congruence). cbn [list_find]. by rewrite decide_True.
      * case_decide as D2.
        -- cbn [list_find]. rewrite decide_False by done.
           destruct (list_find (is_addr x) (filter _ l)) as [[]|], (list_find (is_addr x) l) as [[]|]; cbn in *; congruence.
        -- rewrite IH. by destruct (list_find (is_addr x) l) as [[]|].
Qed.

(** ** What the operations do to the counts *)
Definition same_table (st st' : registry) : Prop :=
  hashTable st' = hashTable st /\ exceptIPv4 st' = exceptIPv4 st /\ exceptIPv6 st' = exceptIPv6 st.

Definition same_config (st st' : registry) : Prop :=
  exceptIPv4 st' = exceptIPv4 st /\ exceptIPv6 st' = exceptIPv6 st.

Lemma same_table_entry (st st' : registry) (x : irc_in_addr) : same_table st st' -> entry_at st' x = entry_at st x.
Proof. intros [E _]. unfold entry_at. by rewrite E. Qed.

Lemma same_table_ok (st st' : registry) : same_table st st' -> table_ok st -> table_ok st'.
Proof. intros [E _] [B C N R]. constructor; rewrite E; [exact B|exact C|exact N|exact R]. Qed.

Lemma find_48_table (now : Z) (st : registry) (a : irc_in_addr) : same_table st (ip_48_find now st a).1.
Proof. unfold ip_48_find. by destruct (list_find _ _) as [[]|]. Qed.

Lemma count_48_table (F : features) (now : Z) (st : registry) (a : irc_in_addr) :
  same_table st (count_48 F now st a).1.
Proof.
  unfold count_48. pose proof (find_48_table now st a) as H. destruct (ip_48_find now st a) as [st' e]. exact H.
Qed.

Lemma update_free_fields (now : Z) (e : IPRegistryEntry) :
  addr (ip_registry_update_free_targets now e).2 = addr e /\
  connected (ip_registry_update_free_targets now e).2 = connected e.
Proof. unfold ip_registry_update_free_targets. by destruct (target e). Qed.

(** [st'] is [st] with [d] added to the count of [x]. *)
Definition adds (st st' : registry) (x : irc_in_addr) (d : Z) : Prop :=
  table_ok st' /\ same_config st st' /\ forall y, cnt st' y = cnt st y + if decide (x = y) then d else 0.

Lemma adds_same (st st' : registry) (x : irc_in_addr) : table_ok st -> same_table st st' -> adds st st' x 0.
Proof.
  intros T S. split; [by eapply same_table_ok|]. split; [apply S|].
  intros y. unfold cnt. rewrite (same_table_entry st st') by done. destruct (decide _); lia.
Qed.

Lemma adds_put (st0 st : registry) (x : irc_in_addr) (e0 e : IPRegistryEntry) (d : Z) :
  table_ok st0 -> same_table st0 st -> entry_at st0 x = Some e0 -> addr e = x ->
  connected e = connected e0 + d -> 0 <= connected e < 2 ^ 16 -> adds st0 (put_entry st e) x d.
Proof.
  intros T S E <- D R. assert (table_ok st) as T' by (by eapply same_table_ok).
  destruct (put_ok st e0 e T') as [T2 L]; [by rewrite (same_table_entry st0 st)|done|].
  split; [done|]. split; [apply S|]. intros y. unfold cnt. rewrite L.
  destruct (decide (addr e = y)) as [<-|Dy].
  - rewrite E. lia.
  - rewrite (same_table_entry st0 st) by done. lia.
Qed.

Lemma adds_add (st0 st : registry) (x : irc_in_addr) (e : IPRegistryEntry) :
  table_ok st0 -> same_table st0 st -> entry_at st0 x = None -> canonical x -> addr e = x -> connected e = 1 ->
  adds st0 (ip_registry_add st e) x 1.
Proof.
  intros T S E C <- D. assert (table_ok st) as T' by (by eapply same_table_ok).
  destruct (add_ok st e T') as [T2 L]; [done|by rewrite (same_table_entry st0 st)|rewrite D; lia|].
  split; [done|]. split; [apply S|]. intros y. unfold cnt. rewrite L.
  destruct (decide (addr e = y)) as [<-|Dy].
  - rewrite E. lia.
  - rewrite (same_table_entry st0 st) by done. lia.
Qed.

Lemma u16_succ (n : Z) : 0 <= n < 2 ^ 16 ->
  (u16 (n + 1) = 0 /\ n = 2 ^ 16 - 1) \/ (u16 (n + 1) = n + 1 /\ n < 2 ^ 16 - 1).
Proof.
  intros H. destruct (decide (n = 2 ^ 16 - 1)) as [->|]; [left; done|right].
  split; [apply Z.mod_small|]; lia.
Qed.

Section Counts.
Context (F : features) (now since : Z).

(** A local connection: accepted ones are counted, refused ones are not. *)
Lemma check_local_adds (st : registry) (a : irc_in_addr) :
  table_ok st -> addr_wf a -> ip_registry_is_exempt st a = false ->
  let '(st', ok, _) := ip_registry_check_local F now since st a in
  adds st st' (ip_registry_canonicalize a) (if ok then 1 else 0).
Proof.
  intros T W Ex. unfold ip_registry_check_local. rewrite Ex, find_entry_at by done.
  set (x := ip_registry_canonicalize a). pose proof (canonicalize_canonical a W : canonical x) as Cx.
  assert (exists st1 rj, (if irc_in_addr_is_ipv4 a then (st, false) else
     let '(st, e48) := count_48 F now st a in
     (st, (IPCHECK_48_CLONE_LIMIT F <=? attempts48 e48) && (IPCHECK_CLONE_DELAY F <? now - since))) = (st1, rj) /\
     same_table st st1) as (st1 & rj & -> & S).
  { destruct (irc_in_addr_is_ipv4 a); [exists st, false; done|]. pose proof (count_48_table F now st a) as H.
    destruct (count_48 F now st a) as [st1 e48]. eauto. }
  destruct (entry_at st x) as [e|] eqn:E; cycle 1.
  { destruct rj; [by apply adds_same|]. by apply adds_add. }
  pose proof (entry_range st x e T E) as R. apply entry_at_in in E as E'. destruct E' as [_ A].
  assert (u16 (u16 (connected e + 1) - 1) = connected e) as Back.
  { unfold u16. rewrite Zminus_mod_idemp_l. rewrite Z.add_simpl_r. by apply Z.mod_small. }
  destruct rj; [|destruct (u16_succ _ R) as [[-> N]|[Su N]]].
  - cbn [set_last connected]. rewrite Back. destruct (_ =? 0); apply (adds_put st st1 x e); try done; cbn; lia.
  - cbn [Z.eqb]. apply (adds_put st st1 x e); try done; cbn; rewrite N; done.
  - rewrite Su. rewrite (proj2 (Z.eqb_neq _ _)) by lia.
    set (e1 := set_connected e (connected e + 1)).
    set (e2 := if _ <? _ then set_attempts e1 0 else e1).
    assert (addr e2 = x /\ connected e2 = connected e + 1) as [A2 C2] by (unfold e2; by destruct (_ <? _)).
    destruct (update_free_fields now e2) as [A3 C3].
    destruct (ip_registry_update_free_targets now e2) as [free e3]. cbn [snd] in A3, C3.
    repeat case_if; apply (adds_put st st1 x e); try done; cbn; rewrite ?A3, ?C3, ?C2; try done; try lia.
    + replace (connected e + 1 - 1) with (connected e) by lia. unfold u16. rewrite Z.mod_small; lia.
    + unfold u16. apply Z.mod_pos_bound. done.
Qed.

(** A remote client of a valid address, unless the counter overflows. *)
Lemma check_remote_adds (st : registry) (a : irc_in_addr) (burst : bool) :
  table_ok st -> addr_wf a -> irc_in_addr_valid a = true -> ip_registry_is_exempt st a = false ->
  cnt st (ip_registry_canonicalize a) < 2 ^ 16 - 1 ->
  exists st', ip_registry_check_remote F now st a burst = (st', true) /\
    adds st st' (ip_registry_canonicalize a) 1.
Proof.
  intros T W V Ex Lt. unfold ip_registry_check_remote. rewrite V, Ex. cbn [negb].
  set (x := ip_registry_canonicalize a) in *. pose proof (canonicalize_canonical a W : canonical x) as Cx.
  set (st1 := if irc_in_addr_is_ipv4 a then st else (count_48 F now st a).1).
  assert (same_table st st1) as S.
  { unfold st1. destruct (irc_in_addr_is_ipv4 a); [done|apply count_48_table]. }
  rewrite find_entry_at by (try done; by eapply same_table_ok). fold x. rewrite (same_table_entry st st1) by done.
  unfold cnt in Lt. destruct (entry_at st x) as [e|] eqn:E; cycle 1.
  { eexists. split; [reflexivity|]. apply adds_add; try done; by destruct burst. }
  pose proof (entry_range st x e T E) as R. apply entry_at_in in E as E'. destruct E' as [_ A].
  destruct (u16_succ _ R) as [[_ N]|[Su N]]; [lia|]. rewrite Su, (proj2 (Z.eqb_neq _ _)) by lia.
  set (e1 := set_connected e (connected e + 1)).
  set (e2 := if _ <? _ then set_attempts e1 0 else e1).
  assert (addr e2 = x /\ connected e2 = connected e + 1) as [A2 C2] by (unfold e2; by destruct (_ <? _)).
  eexists. split; [reflexivity|]. destruct burst; [apply (adds_put st st1 x e); try done; lia|].
  destruct (update_free_fields now (set_attempts e2 (bump8 (attempts e2)))) as [A3 C3].
  destruct (ip_registry_update_free_targets now _) as [free e3]. cbn [snd] in A3, C3. cbn in A3, C3.
  apply (adds_put st st1 x e); try done; cbn; [congruence|lia|lia].
Qed.

(** A registration that fails. *)
Lemma connect_fail_adds (st : registry) (a : irc_in_addr) (disconnect : bool) :
  table_ok st -> addr_wf a -> (disconnect = true -> 0 < cnt st (ip_registry_canonicalize a)) ->
  adds st (ip_registry_connect_fail now st a disconnect) (ip_registry_canonicalize a)
    (if disconnect then -1 else 0).
Proof.
  intros T W P. unfold ip_registry_connect_fail. rewrite find_entry_at by done.
  set (x := ip_registry_canonicalize a) in *.
  set (st1 := if irc_in_addr_is_ipv4 a then st else _).
  assert (same_table st st1) as S.
  { unfold st1. destruct (irc_in_addr_is_ipv4 a); [done|]. pose proof (find_48_table now st a) as H.
    by destruct (ip_48_find now st a). }
  unfold cnt in P. destruct (entry_at st x) as [e|] eqn:E; cycle 1.
  { destruct disconnect; [by specialize (P eq_refl)|]. by apply adds_same. }
  pose proof (entry_range st x e T E) as R. apply entry_at_in in E as E'. destruct E' as [_ A].
  destruct disconnect; apply (adds_put st st1 x e); try done; cbn; try lia;
    specialize (P eq_refl); unfold u16; rewrite Z.mod_small; lia.
Qed.

(** A client that leaves. *)
Lemma disconnect_adds (st : registry) (c : client) :
  table_ok st -> addr_wf (cli_ip c) -> irc_in_addr_valid (cli_ip c) = true ->
  0 < cnt st (ip_registry_canonicalize (cli_ip c)) ->
  adds st (ip_registry_disconnect F now st c) (ip_registry_canonicalize (cli_ip c)) (-1).
Proof.
  intros T W V P. unfold ip_registry_disconnect. rewrite V, find_entry_at by done. cbn [negb].
  set (x := ip_registry_canonicalize (cli_ip c)) in *. unfold cnt in P.
  destruct (entry_at st x) as [e|] eqn:E; [|done].
  pose proof (entry_range st x e T E) as R. apply entry_at_in in E as E'. destruct E' as [_ A].
  set (e1 := set_connected e (u16 (connected e - 1))).
  assert (addr e1 = x /\ connected e1 = connected e - 1) as [A1 C1].
  { split; [done|]. cbn. unfold u16. rewrite Z.mod_small; lia. }
  match goal with |- context [if connected e1 =? 0 then ?t else e1] => set (e2 := if connected e1 =? 0 then t else e1) end.
  assert (addr e2 = x /\ connected e2 = connected e - 1) as [A2 C2].
  { unfold e2. destruct (connected e1 =? 0); [|done]. set (e1' := if _ <? _ then set_attempts e1 0 else e1).
    assert (addr e1' = x /\ connected e1' = connected e - 1) as [A1' C1'] by (unfold e1'; by destruct (_ <? _)).
    destruct (update_free_fields now e1') as [A3 C3].
    destruct (ip_registry_update_free_targets now e1') as [free e3]. cbn in *. split; congruence. }
  apply (adds_put st st x e); try done; destruct (MyConnect c); cbn; try done; lia.
Qed.

(** Expiry. *)
Lemma expire_entry_adds (st : registry) (e : IPRegistryEntry) :
  table_ok st -> entry_at st (addr e) = Some e -> connected e = 0 ->
  adds st (ip_registry_expire_entry now st e) (addr e) 0 /\
  forall y, y <> addr e -> entry_at (ip_registry_expire_entry now st e) y = entry_at st y.
Proof.
  intros T E Z0. unfold ip_registry_expire_entry. case_if; [|case_if].
  - destruct (remove_ok st e T) as [T2 L]. split; [|intros y Hy; rewrite L, decide_False by done; done].
    split; [done|]. split; [done|]. intros y. unfold cnt. rewrite L.
    destruct (decide (addr e = y)) as [<-|]; [rewrite E|]; lia.
  - split; [apply (adds_put st st (addr e) e); try done; cbn; lia|].
    destruct (put_ok st e (set_target e None) T) as [_ L]; [done|cbn; lia|].
    intros y Hy. rewrite L, decide_False by done. done.
  - split; [by apply adds_same|done].
Qed.

(** Nothing but unused entries is affected. *)
Definition keeps_counts (st st' : registry) : Prop :=
  table_ok st' /\ same_config st st' /\ forall y, cnt st' y = cnt st y.

Lemma keeps_counts_trans (st1 st2 st3 : registry) :
  keeps_counts st1 st2 -> keeps_counts st2 st3 -> keeps_counts st1 st3.
Proof.
  intros (T1 & [C1 C2] & K1) (T2 & [D1 D2] & K2). split; [done|]. split; [split; congruence|].
  intros y. by rewrite K2.
Qed.

Lemma expire_chain_ok (l : list IPRegistryEntry) (st : registry) :
  table_ok st -> NoDup (map addr l) -> (forall e, e ∈ l -> entry_at st (addr e) = Some e) ->
  keeps_counts st (expire_chain now st l).
Proof.
  revert st. induction l as [|e l IH]; intros st T N H; [done|]. cbn [expire_chain].
  cbn [map] in N. apply NoDup_cons in N as [N1 N2]. destruct (connected e =? 0) eqn:Z0; reflect.
  - destruct (expire_entry_adds st e T (H e ltac:(left)) Z0) as [(T' & C' & K') L].
    apply (keeps_counts_trans st (ip_registry_expire_entry now st e)).
    + split; [done|]. split; [done|]. intros y. rewrite K'. destruct (decide _); lia.
    + apply IH; [done|done|]. intros y Hy. rewrite L; [apply H; by right|].
      intros Ey. apply N1. rewrite <- Ey. by apply list_elem_of_fmap_2.
  - apply IH; [done|done|]. intros y Hy. apply H. by right.
Qed.

Lemma expire_adds (st : registry) : table_ok st -> keeps_counts st (ip_registry_expire now st).
Proof.
  intros T. unfold ip_registry_expire.
  assert (forall l st, table_ok st -> keeps_counts st (fold_left (expire_bucket now) l st)) as H1.
  { clear st T. intros l. induction l as [|i l IH]; intros st T; [done|]. cbn [fold_left].
    assert (keeps_counts st (expire_bucket now st i)) as K.
    { apply expire_chain_ok; [done|apply T|]. intros e He. by eapply entry_at_unique. }
    eapply keeps_counts_trans; [exact K|]. apply IH. apply K. }
  assert (forall l st, table_ok st -> keeps_counts st (fold_left (expire48_bucket now) l st)) as H2.
  { clear st T. intros l. induction l as [|i l IH]; intros st T; [done|]. cbn [fold_left].
    assert (same_table st (expire48_bucket now st i)) as S by done.
    assert (keeps_counts st (expire48_bucket now st i)) as K.
    { split; [by eapply same_table_ok|]. split; [done|]. intros y. unfold cnt. by rewrite (same_table_entry _ _ y S). }
    eapply keeps_counts_trans; [exact K|]. apply IH. apply K. }
  eapply keeps_counts_trans; [by apply H1|]. apply H2. by apply H1.
Qed.
End Counts.

(** ** The registry as the server uses it *)
Definition registry_empty : registry := Registry ∅ ∅ [] [].

Lemma empty_ok : table_ok registry_empty.
Proof.
  assert (forall i, chain (hashTable registry_empty) i = []) as E by (intros i; unfold chain; cbn; by rewrite lookup_empty).
  constructor; intros i; rewrite E; try apply NoDup_nil_2; intros e He; by apply elem_of_nil in He.
Qed.

(** Calls of the module's interface, with the addresses of the clients it has let in
    and not seen leave.  Addresses are valid and no exemption is configured. *)
Inductive ip_step (F : features) (since : Z) : registry * list irc_in_addr -> registry * list irc_in_addr -> Prop :=
| step_local st cl now a st' ok nt : addr_wf a -> irc_in_addr_valid a = true ->
    ip_registry_check_local F now since st a = (st', ok, nt) ->
    ip_step F since (st, cl) (st', if ok then a :: cl else cl)
| step_remote st cl now a burst st' ok : addr_wf a -> irc_in_addr_valid a = true -> Z.of_nat (length cl) < 2 ^ 16 - 1 ->
    ip_registry_check_remote F now st a burst = (st', ok) ->
    ip_step F since (st, cl) (st', if ok then a :: cl else cl)
| step_fail st l1 a l2 now : ip_step F since (st, l1 ++ a :: l2) (ip_registry_connect_fail now st a false, l1 ++ a :: l2)
| step_fail_out st l1 a l2 now : ip_step F since (st, l1 ++ a :: l2) (ip_registry_connect_fail now st a true, l1 ++ l2)
| step_quit st l1 c l2 now : ip_step F since (st, l1 ++ cli_ip c :: l2) (ip_registry_disconnect F now st c, l1 ++ l2)
| step_expire st cl now : ip_step F since (st, cl) (ip_registry_expire now st, cl).

(** How many of [cl] share [x]'s registry entry. *)
Definition clones (cl : list irc_in_addr) (x : irc_in_addr) : Z :=
  Z.of_nat (length (filter (fun a => ip_registry_canonicalize a = x) cl)).

Definition counted (s : registry * list irc_in_addr) : Prop :=
  table_ok s.1 /\ exceptIPv4 s.1 = [] /\ exceptIPv6 s.1 = [] /\
  Forall (fun a => addr_wf a /\ irc_in_addr_valid a = true) s.2 /\
  forall x, cnt s.1 x = clones s.2 x.

Lemma clones_cons (a : irc_in_addr) (cl : list irc_in_addr) (x : irc_in_addr) :
  clones (a :: cl) x = clones cl x + if decide (ip_registry_canonicalize a = x) then 1 else 0.
Proof. unfold clones. rewrite filter_cons. destruct (decide _); cbn [length]; lia. Qed.

Lemma clones_middle (l1 l2 : list irc_in_addr) (a x : irc_in_addr) :
  clones (l1 ++ a :: l2) x = clones (l1 ++ l2) x + if decide (ip_registry_canonicalize a = x) then 1 else 0.
Proof. rewrite <- clones_cons. unfold clones. by rewrite <- Permutation_middle. Qed.

Lemma clones_self (l1 l2 : list irc_in_addr) (a : irc_in_addr) :
  0 < clones (l1 ++ a :: l2) (ip_registry_canonicalize a).
Proof. rewrite clones_middle, decide_True by done. unfold clones. lia. Qed.

Lemma adds_in (st st' : registry) (a : irc_in_addr) (cl : list irc_in_addr) (b : bool) :
  counted (st, cl) -> addr_wf a -> irc_in_addr_valid a = true ->
  adds st st' (ip_registry_canonicalize a) (if b then 1 else 0) -> counted (st', if b then a :: cl else cl).
Proof.
  intros (T & X4 & X6 & V & K) W Va (T' & [C4 C6] & K'). cbn in *.
  split; [done|]. split; [cbn; congruence|]. split; [cbn; congruence|]. split; [by destruct b; [constructor|]|].
  intros x. cbn. rewrite K', K. destruct b; [by rewrite clones_cons|]. destruct (decide _); lia.
Qed.

Lemma adds_out (st st' : registry) (a : irc_in_addr) (l1 l2 : list irc_in_addr) :
  counted (st, l1 ++ a :: l2) -> adds st st' (ip_registry_canonicalize a) (-1) -> counted (st', l1 ++ l2).
Proof.
  intros (T & X4 & X6 & V & K) (T' & [C4 C6] & K'). cbn in *.
  split; [done|]. split; [cbn; congruence|]. split; [cbn; congruence|]. split.
  - cbn. rewrite Forall_app, Forall_cons in V. rewrite Forall_app. tauto.
  - intros x. cbn. rewrite K', K, clones_middle. destruct (decide _); lia.
Qed.

Lemma not_exempt (st : registry) (a : irc_in_addr) :
  exceptIPv4 st = [] -> exceptIPv6 st = [] -> ip_registry_is_exempt st a = false.
Proof. intros H4 H6. unfold ip_registry_is_exempt. rewrite H4, H6. by destruct (irc_in_addr_is_ipv4 a). Qed.

Lemma clones_le (cl : list irc_in_addr) (x : irc_in_addr) : clones cl x <= Z.of_nat (length cl).
Proof. unfold clones. pose proof (length_filter (fun a => ip_registry_canonicalize a = x) cl). lia. Qed.

Lemma ip_step_counted (F : features) (since : Z) (s s' : registry * list irc_in_addr) :
  counted s -> ip_step F since s s' -> counted s'.
Proof.
  intros C St. pose proof C as (T & X4 & X6 & V & K). destruct St as [st cl now a st' ok nt W Va E|
    st cl now a burst st' ok W Va Sz E|st l1 a l2 now|st l1 a l2 now|st l1 c l2 now|st cl now]; cbn in *.
  - pose proof (check_local_adds F now since st a T W (not_exempt st a X4 X6)) as A. rewrite E in A.
    by apply (adds_in st).
  - destruct (check_remote_adds F now st a burst T W Va (not_exempt st a X4 X6)) as (st2 & E2 & A).
    { rewrite K. pose proof (clones_le cl (ip_registry_canonicalize a)). lia. }
    rewrite E2 in E. injection E as <- <-. by apply (adds_in st st2 a cl true).
  - assert (addr_wf a /\ irc_in_addr_valid a = true) as [W _].
    { rewrite Forall_app, Forall_cons in V. tauto. }
    destruct (connect_fail_adds now st a false T W ltac:(done)) as (T' & [C4 C6] & K').
    split; [done|]. cbn. split; [congruence|]. split; [congruence|]. split; [done|].
    intros x. rewrite K', K. destruct (decide _); lia.
  - assert (addr_wf a /\ irc_in_addr_valid a = true) as [W _].
    { rewrite Forall_app, Forall_cons in V. tauto. }
    eapply adds_out; [exact C|]. apply (connect_fail_adds now st a true T W). intros _. rewrite K. apply clones_self.
  - assert (addr_wf (cli_ip c) /\ irc_in_addr_valid (cli_ip c) = true) as [W Va].
    { rewrite Forall_app, Forall_cons in V. tauto. }
    eapply adds_out; [exact C|]. apply disconnect_adds; [done|done|done|]. rewrite K. apply clones_self.
  - destruct (expire_adds now st T) as (T' & [C4 C6] & K').
    split; [done|]. cbn. split; [congruence|]. split; [congruence|]. split; [done|]. intros x. by rewrite K', K.
Qed.

(** ** Claims *)


(** The registry's lookup distinguishes exactly the canonical addresses: it finds
    the entry of [a] iff one was stored under [a]'s canonical form, because the bucket
    depends on all 64 bits, also where the comparison that follows looks at 48. *)
Theorem ip_registry_find_exact (st : registry) (a : irc_in_addr) (e : IPRegistryEntry) :
  table_ok st -> addr_wf a ->
  ip_registry_find st a = Some e <->
  (exists i, e ∈ chain (hashTable st) i) /\ addr e = ip_registry_canonicalize a.
Proof.
  intros T W. rewrite find_entry_at by done. split.
  - intros H. apply entry_at_in in H as [H1 H2]. eauto.
  - intros [[i H1] <-]. by eapply entry_at_unique.
Qed.

(** Repeated local connections from one address, at the times [ts]. *)
Fixpoint local_burst (F : features) (since : Z) (st : registry) (a : irc_in_addr) (ts : list Z) : list bool :=
  match ts with
  | [] => []
  | t :: ts' =>
      let '(st, ok, _) := ip_registry_check_local F t since st a in ok :: local_burst F since st a ts'
  end.

(** Each at most [p] seconds after the one before. *)
Fixpoint gaps (p t : Z) (ts : list Z) : Prop :=
  match ts with
  | [] => True
  | t' :: ts' => t <= t' <= t + p /\ gaps p t' ts'
  end.

Lemma since_small (t t' p : Z) : 0 <= p < 2 ^ 16 -> t <= t' <= t + p -> CONNECTED_SINCE t' (NOW t) <= p.
Proof.
  intros Hp H. unfold CONNECTED_SINCE, NOW. change 0xffff with (Z.ones 16). rewrite !Z.land_ones by lia.
  pose proof (Z.mod_pos_bound t (2 ^ 16) ltac:(lia)). pose proof (Z.mod_pos_bound t' (2 ^ 16) ltac:(lia)).
  pose proof (Z.div_mod t (2 ^ 16) ltac:(lia)). pose proof (Z.div_mod t' (2 ^ 16) ltac:(lia)).
  assert (t / 2 ^ 16 <= t' / 2 ^ 16) by (apply Z.div_le_mono; lia). nia.
Qed.

Lemma bump8_next (n : Z) : 0 <= n < 256 -> bump8 n = Z.min 255 (n + 1).
Proof.
  intros H. unfold bump8, u8. destruct (decide (n = 255)) as [->|]; [done|].
  rewrite Z.mod_small by lia. rewrite (proj2 (Z.eqb_neq _ _)) by lia. lia.
Qed.

Section Throttle.
Context (F : features) (since : Z) (a : irc_in_addr).
Hypothesis a_wf : addr_wf a.
Hypothesis a_v4 : irc_in_addr_is_ipv4 a = true.
Hypothesis limits : IPCHECK_CLONE_LIMIT F <= 255 /\ 0 <= IPCHECK_CLONE_PERIOD F < 2 ^ 16.

(** After [k] connections in a row, the last at [t]. *)
Definition in_burst (st : registry) (k t : Z) : Prop :=
  table_ok st /\ exceptIPv4 st = [] /\ exceptIPv6 st = [] /\
  exists e, entry_at st (ip_registry_canonicalize a) = Some e /\ last_connect e = NOW t /\
    attempts e = Z.min 255 k /\ connected e <= Z.max 1 (Z.min k (IPCHECK_CLONE_LIMIT F)).

Lemma burst_step (st : registry) (k t t' : Z) :
  in_burst st k t -> 1 <= k -> t <= t' <= t + IPCHECK_CLONE_PERIOD F -> IPCHECK_CLONE_DELAY F < t' - since ->
  exists st' nt, ip_registry_check_local F t' since st a = (st', k + 1 <? IPCHECK_CLONE_LIMIT F, nt) /\
    in_burst st' (k + 1) t'.
Proof.
  intros (T & X4 & X6 & e & E & L & A & C) Hk G D. destruct limits as [L1 L2].
  unfold ip_registry_check_local. rewrite (not_exempt st a X4 X6), a_v4, find_entry_at, E by done.
  set (x := ip_registry_canonicalize a) in *.
  pose proof (entry_range st x e T E) as R. apply entry_at_in in E as E'. destruct E' as [_ Ea].
  destruct (u16_succ _ R) as [[_ N]|[Su N]]; [lia|]. rewrite Su, (proj2 (Z.eqb_neq _ _)) by lia.
  cbn [set_connected last_connect]. rewrite L. pose proof (since_small t t' _ L2 G) as Gs.
  rewrite (proj2 (Z.ltb_ge _ _)) by lia. set (e1 := set_connected e (connected e + 1)).
  destruct (update_free_fields t' e1) as [A3 C3].
  assert (attempts (ip_registry_update_free_targets t' e1).2 = attempts e) as A4.
  { unfold ip_registry_update_free_targets. by destruct (target e1). }
  destruct (ip_registry_update_free_targets t' e1) as [free e3]. cbn [snd] in *.
  cbn [set_last set_attempts attempts connected]. rewrite A4, A, bump8_next by lia.
  assert ((Z.min 255 (Z.min 255 k + 1) <? IPCHECK_CLONE_LIMIT F) = (k + 1 <? IPCHECK_CLONE_LIMIT F)) as ->.
  { apply eq_true_iff_eq. rewrite !Z.ltb_lt. lia. }
  assert (forall c, 0 <= c < 2 ^ 16 -> c <= Z.max 1 (Z.min (k + 1) (IPCHECK_CLONE_LIMIT F)) ->
    in_burst (put_entry st (IPEntry (target e3) (addr e3) (NOW t') c (Z.min 255 (Z.min 255 k + 1)))) (k + 1) t') as Done.
  { intros c Hc Hc2. assert (addr e3 = x) as Ax by (by rewrite A3).
    destruct (put_ok st e (IPEntry (target e3) (addr e3) (NOW t') c (Z.min 255 (Z.min 255 k + 1))) T) as [T2 Lk];
      [cbn; congruence|done|].
    split; [done|]. split; [done|]. split; [done|]. eexists. fold x. rewrite Lk. cbn [addr]. rewrite decide_True by done.
    split; [reflexivity|]. cbn. split; [done|]. split; lia. }
  assert (connected e3 = connected e + 1) as C4 by (by rewrite C3).
  destruct (k + 1 <? IPCHECK_CLONE_LIMIT F) eqn:K; reflect.
  - eexists _, _. split; [reflexivity|]. apply (Done (connected e3)); rewrite C4; lia.
  - rewrite (proj2 (Z.ltb_lt _ _)) by lia. eexists _, _. split; [reflexivity|].
    unfold set_connected. cbn [target addr last_connect attempts connected]. rewrite C4.
    replace (connected e + 1 - 1) with (connected e) by lia.
    apply Done; unfold u16; rewrite Z.mod_small; lia.
Qed.

Lemma burst_run (ts : list Z) (st : registry) (k t : Z) :
  in_burst st k t -> 1 <= k -> gaps (IPCHECK_CLONE_PERIOD F) t ts -> IPCHECK_CLONE_DELAY F < t - since ->
  local_burst F since st a ts = imap (fun i _ => k + Z.of_nat i + 1 <? IPCHECK_CLONE_LIMIT F) ts.
Proof.
  revert st k t. induction ts as [|t' ts IH]; intros st k t B Hk G D; [done|]. destruct G as [G1 G2].
  cbn [local_burst imap]. destruct (burst_step st k t t' B Hk G1 ltac:(lia)) as (st' & nt & -> & B').
  rewrite (IH st' (k + 1) t') by (try done; lia). f_equal; [f_equal; lia|].
  apply imap_ext. intros i y _. cbn. f_equal. lia.
Qed.
End Throttle.

(** The clone limit: an address that keeps connecting at most
    [IPCHECK_CLONE_PERIOD] seconds apart is let in on its first and up to its
    [IPCHECK_CLONE_LIMIT - 1]st attempt, and refused from the [IPCHECK_CLONE_LIMIT]th
    on, also when the 16-bit clock wraps in between. *)
Theorem clone_limit (F : features) (since : Z) (a : irc_in_addr) (st : registry) (t : Z) (ts : list Z) :
  addr_wf a -> irc_in_addr_is_ipv4 a = true -> IPCHECK_CLONE_LIMIT F <= 255 -> 0 <= IPCHECK_CLONE_PERIOD F < 2 ^ 16 ->
  table_ok st -> exceptIPv4 st = [] -> exceptIPv6 st = [] -> ip_registry_find st a = None ->
  gaps (IPCHECK_CLONE_PERIOD F) t ts -> IPCHECK_CLONE_DELAY F < t - since ->
  local_burst F since st a (t :: ts) =
    true :: imap (fun i _ => Z.of_nat i + 2 <? IPCHECK_CLONE_LIMIT F) ts.
Proof.
  intros W V4 L1 L2 T X4 X6 N G D. cbn [local_burst]. unfold ip_registry_check_local.
  rewrite (not_exempt st a X4 X6), V4, N. f_equal.
  rewrite find_entry_at in N by done. pose proof (canonicalize_canonical a W) as Cx.
  set (e := ip_registry_new_entry t (ip_registry_canonicalize a)).
  destruct (add_ok st e T Cx N ltac:(cbn; lia)) as [T' Lk].
  rewrite (burst_run F since a W V4 (conj L1 L2) ts _ 1 t); [|..|done].
  - apply imap_ext. intros i y _. cbn. f_equal. lia.
  - split; [done|]. split; [done|]. split; [done|]. exists e. rewrite Lk. cbn. rewrite decide_True by done.
    split; [done|]. split; [done|]. split; [done|]. lia.
  - lia.
  - done.
Qed.

(** The defaults of ircd_features.c. *)
Definition F_default : features := Features 4 40 50 10 600.
Definition addr_v4 (hi lo : Z) : irc_in_addr := InAddr [0; 0; 0; 0; 0; 65535; hi; lo].
Definition some_client (a : irc_in_addr) : client := Client a true [] 0 0.

Lemma clone_limit_witness :
  local_burst F_default 0 registry_empty (addr_v4 0xc0a8 0x0105) [65530; 65534; 65540; 65560; 65570] =
  [true; true; true; false; false].
Proof.
  refine (clone_limit F_default 0 (addr_v4 0xc0a8 0x0105) registry_empty 65530 [65534; 65540; 65560; 65570]
    _ _ _ _ empty_ok _ _ _ _ _).
  - apply (bool_decide_unpack _). exact I.
  - reflexivity.
  - cbn. lia.
  - cbn. lia.
  - reflexivity.
  - reflexivity.
  - reflexivity.
  - cbn. lia.
  - cbn. lia.
Defined.

(** The registry with two clients of one address, one local and one remote. *)
Definition two_clients : registry :=
  (ip_registry_check_remote F_default 1010
     (ip_registry_check_local F_default 1000 0 registry_empty (addr_v4 0xc0a8 0x0105)).1.1
     (addr_v4 0xc0a8 0x0105) true).1.


Lemma ip_registry_find_exact_witness :
  exists e, ip_registry_find (ip_registry_add registry_empty (ip_registry_new_entry 1000 (addr_2001 0))) (addr_2001 7) = Some e.
Proof.
  set (e := ip_registry_new_entry 1000 (addr_2001 0)).
  destruct (add_ok registry_empty e empty_ok) as [T _].
  - split; [apply (bool_decide_unpack _); exact I|]. cbn. auto.
  - reflexivity.
  - cbn. lia.
  - exists e. apply (ip_registry_find_exact _ (addr_2001 7) e T).
    + apply (bool_decide_unpack _). exact I.
    + split; [|reflexivity]. exists (ip_registry_hash (addr_2001 0)). vm_compute. left.
Defined.

(** The head of its chain after [ip_48_find] and a store through the pointer. *)
Lemma find_48_put (now : Z) (st : registry) (a b : irc_in_addr) (e : IPRegistry48) :
  key48 b = key48 a -> addr48 e = key48 a -> is_Some (list_find (fun e => addr48 e = key48 a) (chain (hashTable48 st) (ip_48_hash a))) ->
  ip_48_find now (put_48 st a e) b = (put_48 st a e, e).
Proof.
  intros Kb Ke [[i y] Hf]. unfold ip_48_find.
  assert (ip_48_hash b = ip_48_hash a) as ->.
  { unfold ip_48_hash. unfold key48 in Kb. by injection Kb as -> -> ->. }
  rewrite Kb. unfold put_48 at 1. cbn [set_table48 hashTable48]. rewrite chain_insert, decide_True by done.
  revert i Hf. generalize (chain (hashTable48 st) (ip_48_hash a)) as l. intros l.
  induction l as [|z l IH]; intros i Hf; [done|]. cbn [map list_find] in *.
  destruct (decide (addr48 z = key48 a)) as [D|D].
  - rewrite (decide_True (P := addr48 z = addr48 e)) by congruence. by rewrite decide_True.
  - rewrite (decide_False (P := addr48 z = addr48 e)) by congruence. rewrite decide_False by done.
    destruct (list_find _ l) as [[j z']|] eqn:E; [|done]. specialize (IH j). injection Hf as _ ->.
    specialize (IH eq_refl). by destruct (list_find _ (map _ l)) as [[? ?]|]; [injection IH as ->|].
Qed.

(** C22. An exempt IPv6 client is let in without being counted, yet when its
    registration fails the attempt counter of its /48 is decremented: from 0 to 65535
    if nobody else of that block was counted.  The next client of the block that is
    not exempt is then refused. *)
Theorem exempt_failure_locks_48 (F : features) (now since : Z) (st : registry) (a b : irc_in_addr) :
  irc_in_addr_is_ipv4 a = false -> ip_registry_is_exempt st a = true ->
  list_find (fun e => addr48 e = key48 a) (chain (hashTable48 st) (ip_48_hash a)) = None ->
  ip_registry_find st a = None ->
  irc_in_addr_is_ipv4 b = false -> ip_registry_is_exempt st b = false -> key48 b = key48 a ->
  0 <= IPCHECK_48_CLONE_PERIOD F -> IPCHECK_48_CLONE_LIMIT F <= 65535 -> IPCHECK_CLONE_DELAY F < now - since ->
  ip_registry_check_local F now since st a = (st, true, None) /\
  (ip_registry_check_local F now since (ip_registry_connect_fail now st a false) b).1.2 = false.
Proof.
  intros V6 Ex N48 N V6b Exb Kb P0 Lm D. split; [unfold ip_registry_check_local; by rewrite Ex|].
  unfold ip_registry_connect_fail. rewrite N, V6. unfold ip_48_find at 1. rewrite N48.
  set (st1 := set_table48 st _). set (e1 := IP48 _ _ (drop16 _)).
  assert (ip_registry_is_exempt (put_48 st1 a e1) b = false) as Ex1 by exact Exb.
  unfold ip_registry_check_local. rewrite Ex1, V6b. unfold count_48.
  rewrite (find_48_put now st1 a b e1); cycle 1; [done|done| |].
  { unfold st1. cbn [set_table48 hashTable48]. rewrite chain_insert, decide_True by done. cbn [list_find addr48].
    rewrite decide_True by done. eauto. }
  cbn [e1 last_connect48 attempts48 addr48].
  assert (CONNECTED_SINCE now (NOW now) = 0) as -> by (unfold CONNECTED_SINCE; lia).
  rewrite (proj2 (Z.ltb_ge _ _)) by lia. change (bump16 (drop16 0)) with 65535. cbn [attempts48].
  rewrite (proj2 (Z.leb_le _ _)), (proj2 (Z.ltb_lt _ _)) by lia. cbn [andb].
  destruct (ip_registry_find _ b) as [e|]; [|done]. by case_if.
Qed.

Lemma exempt_failure_locks_48_witness :
  let st := Registry ∅ ∅ [] [(addr_2001 0, 64)] in
  let b := InAddr [0x2001; 0xdb8; 0; 2; 0; 0; 0; 1] in
  (ip_registry_check_local F_default 1000 0 (ip_registry_connect_fail 1000 st (addr_2001 1) false) b).1.2 = false.
Proof.
  cbn zeta. refine (proj2 (exempt_failure_locks_48 F_default 1000 0 (Registry ∅ ∅ [] [(addr_2001 0, 64)]) (addr_2001 1)
    (InAddr [0x2001; 0xdb8; 0; 2; 0; 0; 0; 1]) _ _ _ _ _ _ _ _ _ _)); try reflexivity; cbn; lia.
Defined.
