(* ===== verification/Targets.v ===== *)
(** * Target limiting: [hash_target], [add_target] and [check_target_limit] of
      [ircd/s_user.c]

    A local client keeps the hashes of its last [MAXTARGETS] targets and the time from
    which it may address a new one.  The targets are a list of [MAXTARGETS] bytes.
    A refused call and the three ways a call is allowed are told apart by [verdict]
    (the C function returns 1 for [TooFast], 0 otherwise). *)

From stdpp Require Import base list gmap strings.
From Stdlib Require Import ZArith Lia Ascii.
From S2P Require Import Prelude Addr IPcheck.

Local Open Scope Z_scope.
Local Open Scope ircu_scope.

Definition RESERVEDTARGETS : nat := 12.

Record tstate : Type := TState { targets : list Z; nexttarget : Z }.

Inductive verdict : Type := Known | Invited | Fresh | TooFast.

(** [value] is the target's address. *)
Definition hash_target (value : Z) : Z :=
  u8 (Z.lxor (u8 (Z.shiftr value 16)) (Z.shiftr value 8)).

Definition add_target (s : tstate) (target : Z) : tstate :=
  let hash := hash_target target in
  if existsb (Z.eqb hash) (targets s) then s
  else TState (take RESERVEDTARGETS (targets s) ++ hash ::
               take (MAXTARGETS - RESERVEDTARGETS - 1) (drop RESERVEDTARGETS (targets s))) (nexttarget s).

Definition check_target_limit (now : Z) (s : tstate) (target : Z) (invited : bool) : tstate * verdict :=
  let hash := hash_target target in
  match list_find (fun h => h = hash) (targets s) with
  | Some (O, _) => (s, Known)
  | Some (i, _) => (TState (hash :: take i (targets s) ++ drop (S i) (targets s)) (nexttarget s), Known)
  | None =>
      if now <? nexttarget s then
        if invited then (s, Invited)
        else if nexttarget s - now <? TARGET_DELAY + 8 then (TState (targets s) (nexttarget s + 2), TooFast)
        else (s, TooFast)
      else
        let next := nexttarget s + TARGET_DELAY in
        let next := if next <? now - TARGET_DELAY * (Z.of_nat MAXTARGETS - 1)
                    then now - TARGET_DELAY * (Z.of_nat MAXTARGETS - 1) else next in
        (TState (hash :: take (MAXTARGETS - 1) (targets s)) next, Fresh)
  end.

(** A client's calls, each with its time, target and whether it was invited.  Counted are
    the targets that are let through although their hash is not among those the client
    keeps and it has no invitation. *)
Definition granted (s : tstate) (target : Z) (invited : bool) (v : verdict) : bool :=
  negb invited && negb (existsb (Z.eqb (hash_target target)) (targets s)) && match v with TooFast => false | _ => true end.

Fixpoint new_targets (s : tstate) (calls : list (Z * Z * bool)) : Z :=
  match calls with
  | [] => 0
  | (now, t, invited) :: calls' =>
      let '(s', v) := check_target_limit now s t invited in
      (if granted s t invited v then 1 else 0) + new_targets s' calls'
  end.

Fixpoint in_order (t0 t1 : Z) (calls : list (Z * Z * bool)) : Prop :=
  match calls with
  | [] => True
  | (now, _, _) :: calls' => t0 <= now <= t1 /\ in_order now t1 calls'
  end.

(** ** Lemmas *)
Lemma check_fresh (now : Z) (s : tstate) (t : Z) (invited : bool) (s' : tstate) :
  check_target_limit now s t invited = (s', Fresh) ->
  nexttarget s <= now /\ nexttarget s + 128 <= nexttarget s' /\ now - 128 * 19 <= nexttarget s'.
Proof.
  unfold check_target_limit. destruct (list_find _ _) as [[[|i] ?]|]; [done..|].
  case_if; [destruct invited; [|case_if]; done|]. reflect.
  change (Z.of_nat MAXTARGETS - 1) with 19. unfold TARGET_DELAY.
  case_if; intros E; injection E as <-; reflect; cbn; lia.
Qed.

Lemma check_other (now : Z) (s : tstate) (t : Z) (invited : bool) (s' : tstate) (v : verdict) :
  check_target_limit now s t invited = (s', v) -> v <> Fresh -> nexttarget s <= nexttarget s'.
Proof.
  unfold check_target_limit. destruct (list_find _ _) as [[[|i] ?]|].
  - intros E _. injection E as <- _. lia.
  - intros E _. injection E as <- _. cbn. lia.
  - case_if; [destruct invited; [|case_if]|]; intros E Nv; injection E as <- Ev; cbn; try lia. congruence.
Qed.

Lemma granted_fresh (now : Z) (s : tstate) (t : Z) (invited : bool) (s' : tstate) (v : verdict) :
  check_target_limit now s t invited = (s', v) -> granted s t invited v = true -> v = Fresh.
Proof.
  unfold check_target_limit, granted. rewrite !andb_true_iff, !negb_true_iff. intros E [[-> N] A]. destruct (list_find _ _) as [[i h]|] eqn:F.
  - exfalso. apply list_find_Some in F as (Hi & -> & _). apply not_true_iff_false in N. apply N, existsb_exists. exists (hash_target t). split; [by eapply list_elem_of_In, list_elem_of_lookup_2|apply Z.eqb_refl].
  - case_if_in E; [case_if_in E|]; injection E as <- <-; done.
Qed.

Lemma check_grows (now : Z) (s : tstate) (t : Z) (invited : bool) (s' : tstate) (v : verdict) : check_target_limit now s t invited = (s', v) -> nexttarget s <= nexttarget s'.
Proof.
  intros E. destruct v; [by eapply check_other..| |by eapply check_other]. destruct (check_fresh _ _ _ _ _ E) as (_ & H & _). lia.
Qed.

Lemma new_targets_nonneg (calls : list (Z * Z * bool)) : forall s, 0 <= new_targets s calls.
Proof. induction calls as [|[[now t] inv] calls IH]; intros s; cbn [new_targets]; [lia|]. destruct (check_target_limit now s t inv) as [s' v]. specialize (IH s'). case_if; lia. Qed.

(** Every new target costs [TARGET_DELAY] seconds of credit. *)
Lemma new_bound (calls : list (Z * Z * bool)) : forall s t0 t1, in_order t0 t1 calls -> 0 < new_targets s calls -> nexttarget s + 128 * (new_targets s calls - 1) <= t1.
Proof.
  induction calls as [|[[now t] inv] calls IH]; intros s t0 t1 O P; cbn [new_targets] in *; [lia|].
  destruct O as [O1 O2]. destruct (check_target_limit now s t inv) as [s' v] eqn:E. pose proof (new_targets_nonneg calls s') as N. pose proof (check_grows _ _ _ _ _ _ E) as G.
  destruct (granted s t inv v) eqn:Gr.
  - pose proof (granted_fresh _ _ _ _ _ _ E Gr) as ->. destruct (check_fresh _ _ _ _ _ E) as (H1 & H2 & _).
    destruct (Z.eq_dec (new_targets s' calls) 0) as [->|Nz]; [lia|]. specialize (IH s' now t1 O2 ltac:(lia)). lia.
  - specialize (IH s' now t1 O2 ltac:(lia)). lia.
Qed.

(** ... and idle time is worth no more than [MAXTARGETS] of them. *)
Lemma new_bound_idle (calls : list (Z * Z * bool)) : forall s t0 t1, in_order t0 t1 calls -> 0 < new_targets s calls -> t0 - 128 * 20 + 128 * (new_targets s calls - 1) <= t1.
Proof.
  induction calls as [|[[now t] inv] calls IH]; intros s t0 t1 O P; cbn [new_targets] in *; [lia|].
  destruct O as [O1 O2]. destruct (check_target_limit now s t inv) as [s' v] eqn:E. pose proof (new_targets_nonneg calls s') as N.
  destruct (granted s t inv v) eqn:Gr.
  - pose proof (granted_fresh _ _ _ _ _ _ E Gr) as ->. destruct (check_fresh _ _ _ _ _ E) as (H1 & _ & H3).
    destruct (Z.eq_dec (new_targets s' calls) 0) as [->|Nz]; [lia|]. pose proof (new_bound calls s' now t1 O2 ltac:(lia)). lia.
  - specialize (IH s' now t1 O2 ltac:(lia)). lia.
Qed.

(** The time from which a client has credit: its next-target time, but no more than
    [MAXTARGETS] delays ago. *)
Definition credit_from (s : tstate) (t0 : Z) : Z := Z.max (nexttarget s) (t0 - TARGET_DELAY * Z.of_nat MAXTARGETS).

(** C23. Whatever a client sends from [t0] to [t1], and in whatever order, the targets it
    reaches that are not among those it keeps, invitations apart, are at most one for each
    [TARGET_DELAY] seconds between the time its credit starts and [t1], and one more: none
    before its next-target time, and never more than [MAXTARGETS] + 1 at once however long
    it was idle. *)
Theorem target_rate (s : tstate) (calls : list (Z * Z * bool)) (t0 t1 : Z) :
  in_order t0 t1 calls -> new_targets s calls <= Z.max 0 ((t1 - credit_from s t0) / TARGET_DELAY + 1).
Proof.
  intros O. unfold credit_from. change (Z.of_nat MAXTARGETS) with 20. unfold TARGET_DELAY. destruct (Z.le_gt_cases (new_targets s calls) 0) as [L|L]; [lia|].
  pose proof (new_bound calls s t0 t1 O L). pose proof (new_bound_idle calls s t0 t1 O L).
  assert (new_targets s calls - 1 <= (t1 - Z.max (nexttarget s) (t0 - 128 * 20)) / 128) by (apply Z.div_le_lower_bound; lia). lia.
Qed.

(** A client that was idle asks for thirty different targets within a second: twenty-one get
    through, as many as the bound allows.  One that has just used its credit gets none. *)
Definition ex_calls (now : Z) : list (Z * Z * bool) := map (fun k => (now, Z.of_nat k * 65536, false)) (seq 1 30).

Lemma target_rate_witness :
  new_targets (TState (replicate 20 0) 0) (ex_calls 10000) = 21 /\ new_targets (TState (replicate 20 0) 0) (ex_calls 10000) <= 21 /\ new_targets (TState (replicate 20 0) 10100) (ex_calls 10000) <= 0.
Proof.
  split; [vm_compute; reflexivity|]. split.
  - apply (target_rate (TState (replicate 20 0) 0) (ex_calls 10000) 10000 10000). cbn. lia.
  - apply (target_rate (TState (replicate 20 0) 10100) (ex_calls 10000) 10000 10000). cbn. lia.
Defined.

(** A client that left no free target behind and comes back within [TARGET_DELAY]
    seconds should wait; but [TARGET_DELAY * free_targets - 1] is computed in unsigned
    arithmetic, so with no free target it is 4294967295 and the client's next-target
    time lies 136 years back: its first new target is granted, with [MAXTARGETS] - 1
    more in credit.  (With the intended time, one second ahead, it is refused.) *)
Theorem spent_targets_restored (F : features) (now since : Z) (st : registry) (a : irc_in_addr)
    (e : IPRegistryEntry) (t : IPTargetEntry) (ts : list Z) (x : Z) :
  irc_in_addr_is_ipv4 a = true -> ip_registry_is_exempt st a = false -> ip_registry_find st a = Some e ->
  target e = Some t -> t_count t = 0 -> 0 <= CONNECTED_SINCE now (last_connect e) < TARGET_DELAY ->
  0 <= connected e < 2 ^ 16 - 1 -> 0 <= attempts e < 255 -> attempts e + 1 < IPCHECK_CLONE_LIMIT F ->
  1 < IPCHECK_CLONE_LIMIT F -> hash_target x ∉ ts ->
  exists st' nt, ip_registry_check_local F now since st a = (st', true, Some nt) /\ nt = now - (2 ^ 32 - 1) /\
    check_target_limit now (TState ts nt) x false =
      (TState (hash_target x :: take 19 ts) (now - TARGET_DELAY * 19), Fresh) /\
    (check_target_limit now (TState ts (now + 1)) x false).2 = TooFast.
Proof.
  intros V4 Ex Fd Tg C0 Cs Cn At Lm L1 Nt. unfold ip_registry_check_local. rewrite Ex, V4, Fd.
  destruct (u16_succ (connected e) ltac:(lia)) as [[_ N]|[Su N]]; [lia|].
  rewrite Su, (proj2 (Z.eqb_neq _ _)) by lia.
  set (e1 := set_connected e (connected e + 1)).
  set (e2 := if _ <? _ then set_attempts e1 0 else e1).
  assert (target e2 = Some t /\ last_connect e2 = last_connect e /\ 0 <= attempts e2 <= attempts e) as (T2 & L2 & A2).
  { unfold e2. destruct (_ <? _); cbn; (split; [done|]); (split; [done|]); lia. }
  assert ((ip_registry_update_free_targets now e2).1 = 0 /\
          attempts (ip_registry_update_free_targets now e2).2 = attempts e2) as [Fr At2].
  { unfold ip_registry_update_free_targets. rewrite T2, L2, C0. cbn. unfold TARGET_DELAY in *.
    rewrite Z.quot_small by lia. done. }
  destruct (ip_registry_update_free_targets now e2) as [free e3]. cbn [fst snd] in *. subst free.
  cbn [set_last set_attempts attempts]. rewrite At2, bump8_next by lia. rewrite (proj2 (Z.ltb_lt _ _)) by lia.
  eexists _, _. split; [reflexivity|]. split; [done|].
  assert (list_find (fun h => h = hash_target x) ts = None) as NF.
  { apply list_find_None, Forall_forall. intros y Hy ->. done. }
  unfold check_target_limit. cbn [targets nexttarget]. rewrite NF. split.
  - change (u32 (TARGET_DELAY * 0 - 1)) with (2 ^ 32 - 1). change (Z.of_nat MAXTARGETS - 1) with 19.
    rewrite (proj2 (Z.ltb_ge _ _)) by lia. rewrite (proj2 (Z.ltb_lt _ _)); [done|]. unfold TARGET_DELAY. lia.
  - rewrite (proj2 (Z.ltb_lt _ _)) by lia. rewrite (proj2 (Z.ltb_lt _ _)) by (unfold TARGET_DELAY; lia). done.
Qed.

(** A local client that used up its targets leaves; the registry remembers. *)
Definition after_spammer : registry :=
  ip_registry_disconnect F_default 1050
    (ip_registry_check_local F_default 1000 0 registry_empty (addr_v4 0xc0a8 0x0105)).1.1
    (Client (addr_v4 0xc0a8 0x0105) true (replicate 20 1) 1100 1000).

Lemma spent_targets_restored_witness :
  exists st' nt, ip_registry_check_local F_default 1060 0 after_spammer (addr_v4 0xc0a8 0x0105) = (st', true, Some nt) /\
    (check_target_limit 1060 (TState (replicate 20 1) nt) 0x50000 false).2 = Fresh.
Proof.
  destruct (spent_targets_restored F_default 1060 0 after_spammer (addr_v4 0xc0a8 0x0105)
    (IPEntry (Some (IPTarget 0 (replicate 20 1))) (ip_registry_canonicalize (addr_v4 0xc0a8 0x0105)) 1050 0 1)
    (IPTarget 0 (replicate 20 1)) (replicate 20 1) 0x50000) as (st' & nt & E & _ & R & _);
    try reflexivity; try (cbn; lia).
  - vm_compute. split; [discriminate|reflexivity].
  - apply (bool_decide_unpack _). vm_compute. exact I.
  - exists st', nt. split; [exact E|]. rewrite R. reflexivity.
Defined.
