(* ===== verification/MatchComp.v ===== *)
(** * Compiled masks: [matchcomp] and [matchexec] of [ircd/match.c]

    [matchcomp] rewrites a mask into head, reversed tail and chunks (['Z'] for a star,
    ['A'] for a question mark); [matchexec] matches a string against the result.
    Buffers are lists and pointers indices into them; a read outside the string, its
    terminator and the byte [before] it is [Oob]. *)

From stdpp Require Import base list strings.
From Stdlib Require Import ZArith Lia Ascii.
From S2P Require Import Prelude Chattr Match.

Local Open Scope ircu_scope.

(** ** [matchcomp] *)

Record comp_st : Type := Comp {
  c_out : list ascii;          (** what [b] has written *)
  c_fs : option nat;
  c_ls : option nat;
  c_star : bool;
  c_cnt : nat;
  c_chset : Z;
  c_chset2 : Z
}.

Definition comp_start : comp_st :=
  Comp [] None None false 0 (-1) (Z.lor NTL_LOWER NTL_UPPER).

(** [case '?'] and the [default] case of the switch. *)
Definition comp_any (st : comp_st) : comp_st :=
  Comp (c_out st ++ ["A"%char]) (c_fs st) (c_ls st) (c_star st) (S (c_cnt st)) (c_chset st)
    (Z.land (c_chset2 st) (Z.lnot NTL_LOWER)).

Definition comp_flush (st : comp_st) : comp_st :=
  if c_star st then
    let b := length (c_out st) in
    Comp (c_out st ++ ["Z"%char]) (match c_fs st with Some f => Some f | None => Some b end) (Some b) false
      (c_cnt st) (c_chset st) (Z.land (c_chset2 st) (Z.lnot NTL_LOWER))
  else st.

Definition comp_char (st : comp_st) (ch : ascii) : comp_st :=
  let st := comp_flush st in
  Comp (c_out st ++ [ToLower ch]) (c_fs st) (c_ls st) (c_star st) (S (c_cnt st))
    (Z.land (c_chset st) (CharAttr (ToLower ch))) (Z.land (c_chset2 st) (Z.lnot NTL_UPPER)).

Definition comp_star (st : comp_st) : comp_st :=
  Comp (c_out st) (c_fs st) (c_ls st) true (c_cnt st) (c_chset st) (c_chset2 st).

Fixpoint comp_loop (m : list ascii) (st : comp_st) : comp_st :=
  match m with
  | [] => st
  | ch :: m' =>
      if ch =c "*" then comp_loop m' (comp_star st)
      else if ch =c "?" then comp_loop m' (comp_any st)
      else if ch =c "\" then
        match m' with
        | d :: m'' => if is_wild d then comp_loop m'' (comp_char st d) else comp_loop m' (comp_char st ch)
        | [] => comp_loop m' (comp_char st ch)
        end
      else comp_loop m' (comp_char st ch)
  end.

(** Exchange two bytes of the buffer; an index out of range changes nothing. *)
Definition swap (l : list ascii) (i j : nat) : list ascii :=
  match l !! i, l !! j with
  | Some a, Some b => <[j := a]> (<[i := b]> l)
  | _, _ => l
  end.

Fixpoint reverse_loop (fuel : nat) (l : list ascii) (x1 x2 : nat) : list ascii :=
  match fuel with
  | O => l
  | S fuel => if x1 <? x2 then reverse_loop fuel (swap l x1 x2) (S x1) (pred x2) else l
  end.

(** [for (loop = 0; loop < lmin; loop++)]: [n] bytes from [x1] and from [x2]. *)
Fixpoint swap_range (l : list ascii) (x1 x2 n : nat) : list ascii :=
  match n with
  | O => l
  | S n => swap_range (swap l x1 x2) (S x1) (S x2) n
  end.

Fixpoint rotate_loop (fuel : nat) (l : list ascii) (x1 l1 l2 : nat) : list ascii :=
  match fuel with
  | O => l
  | S fuel =>
      let lmin := if l1 <? l2 then l1 else l2 in
      match lmin with
      | O => l
      | _ =>
          let l := swap_range l x1 (x1 + l1) lmin in
          rotate_loop fuel l (x1 + lmin) (if l1 <? l2 then l1 else l1 - lmin) (if l2 <? l1 then l2 else l2 - lmin)
      end
  end.

(** The compiled mask, [*minlen] and [*charset]. *)
Definition matchcomp (mask : list ascii) : list ascii * nat * Z :=
  let st := comp_loop mask comp_start in
  let charset := Z.lor (c_chset st) (c_chset2 st) in
  let st := if c_star st then comp_flush st else st in
  let out := c_out st in
  let b := length out in
  let out :=
    match c_fs st, c_ls st with
    | Some fs, Some ls =>
        let out := reverse_loop b out (S ls) (pred b) in
        rotate_loop (S b) out fs (ls - fs) (b - ls)
    | _, _ => out
    end in
  (out, c_cnt st, charset).

(** ** [matchexec] *)
Section Exec.
(** The byte in front of the string, the string and the compiled mask. *)
Context (before : ascii) (string cmask : list ascii).

(** [*s] and [*b], [s] and [b] being one more than the index. *)
Definition sget (s : nat) : outcome ascii :=
  match s with
  | O => Ok before
  | S i => if i <? length string then Ok (nth i string NUL)
           else if i =? length string then Ok NUL else Oob
  end.
Definition bget (b : nat) : outcome ascii :=
  match b with
  | O => Oob
  | S i => if i <? length cmask then Ok (nth i cmask NUL)
           else if i =? length cmask then Ok NUL else Oob
  end.

(** [tryhead]: [inl] is a return, [inr] the pointers at a star. *)
Fixpoint try_head (fuel s b : nat) : outcome (Z + nat * nat) :=
  match fuel with
  | O => Fuel
  | S fuel =>
      let s := S s in
      let b := S b in
      let* cs := sget s in
      let* cb := bget b in
      if (ToLower cs =c cb) && negb (cs =c NUL) then try_head fuel s b
      else if cs =c NUL then
        if cb =c NUL then Ok (inl 0%Z)
        else if negb (cb =c "Z") then Ok (inl 1%Z)
        else let* cb := bget (S b) in Ok (inl (if cb =c NUL then 0%Z else 1%Z))
      else if negb (cb =c "Z") then
        if cb =c "A" then try_head fuel s b else Ok (inl 1%Z)
      else Ok (inr (s, b))
  end.

(** [trytail]; the unrolled condition is the loop [*--s == *++b && *b]. *)
Fixpoint try_tail (fuel s b : nat) : outcome (Z + nat) :=
  match fuel with
  | O => Fuel
  | S fuel =>
      match s with
      | O => Oob
      | S s =>
          let b := S b in
          let* cs := sget s in
          let* cb := bget b in
          if (ToLower cs =c cb) && negb (cb =c NUL) then try_tail fuel s b
          else if negb (cb =c "Z") then
            if cb =c "A" then try_tail fuel s b else Ok (inl (if cb =c NUL then 0%Z else 1%Z))
          else Ok (inr b)
      end
  end.

(** [while ((ToLower( *++s) != ch)) if (--trash < 0) return 4;] *)
Fixpoint seek (fuel s : nat) (ch : ascii) (trash : Z) : outcome (option (nat * Z)) :=
  match fuel with
  | O => Fuel
  | S fuel =>
      let s := S s in
      let* cs := sget s in
      if ToLower cs =c ch then Ok (Some (s, trash))
      else let trash := (trash - 1)%Z in
           if (trash <? 0)%Z then Ok None else seek fuel s ch trash
  end.

(** [trychunk]: where the comparison stops. *)
Fixpoint try_chunk (fuel s b : nat) : outcome (nat * nat * ascii) :=
  match fuel with
  | O => Fuel
  | S fuel =>
      let s := S s in
      let b := S b in
      let* cs := sget s in
      let* cb := bget b in
      if (ToLower cs =c cb) && negb (cb =c NUL) then try_chunk fuel s b
      else if negb (cb =c NUL) && negb (cb =c "Z") && (cb =c "A") then try_chunk fuel s b
      else Ok (s, b, cb)
  end.

(** The [while ((ch = *++b))] loop; [bb] is where the current chunk's star is. *)
Fixpoint chunks (fuel s b : nat) (trash : Z) : outcome Z :=
  match fuel with
  | O => Fuel
  | S fuel' =>
      let b1 := S b in
      let* ch := bget b1 in
      if ch =c NUL then Ok 0%Z
      else
        let* r := seek (S (length string)) s ch trash in
        match r with
        | None => Ok 4%Z
        | Some (bs, trash) =>
            let* (sb, cb) := try_chunk (S (S (length cmask))) bs b1 in
            let '(s2, b2) := sb in
            if cb =c NUL then Ok 0%Z
            else if cb =c "Z" then chunks fuel' (pred s2) b2 trash
            else
              let trash := (trash - 1)%Z in
              if (trash <? 0)%Z then Ok 5%Z else chunks fuel' bs b trash
        end
  end.

Definition matchexec (minlen : nat) : outcome Z :=
  let* r := try_head (S (S (length string))) 0 0 in
  match r with
  | inl z => Ok z
  | inr (s, b) =>
      let bs := s in
      let s := S (length string) in
      let trash := (Z.of_nat (length string) - Z.of_nat minlen)%Z in
      if (trash <? 0)%Z then Ok 2%Z
      else
        let* r := try_tail (S (S (length cmask))) s b in
        match r with
        | inl z => Ok z
        | inr b => chunks (S (length string + length cmask)) (pred bs) b trash
        end
  end.
End Exec.

(** ** What a compiled mask means *)

(** The reading of a mask by [matchcomp]: a backslash escapes wildcards only. *)
Fixpoint ctokens (m : list ascii) : list tok :=
  match m with
  | [] => []
  | c :: m' =>
      if c =c "*" then Star :: ctokens m'
      else if c =c "?" then Any :: ctokens m'
      else if c =c "\" then
        match m' with
        | d :: m'' => if is_wild d then Lit d :: ctokens m'' else Lit c :: ctokens m'
        | [] => Lit c :: ctokens m'
        end
      else Lit c :: ctokens m'
  end.

Definition ctok (c : ascii) : tok :=
  if c =c "A" then Any else if c =c "Z" then Star else Lit c.
Definition ctoks (l : list ascii) : list tok := map ctok l.

(** Characters of a compiled mask other than stars. *)
Definition cc_ok (c : ascii) : Prop := c = "A"%char \/ (ToLower c = c /\ c <> NUL).
Definition chunk_ok (l : list ascii) : Prop :=
  match l with
  | a :: r => (ToLower a = a /\ a <> NUL) /\ Forall cc_ok r
  | [] => False
  end.

Definition with_star (c : list ascii) : list ascii := "Z"%char :: c.

(** The buffer as [comp_loop] builds it: head, chunks, and what follows the last star
    ([P] says what that may be). *)
Inductive layout (P : list ascii -> Prop) : list ascii -> option nat -> option nat -> Prop :=
| flat h : Forall cc_ok h -> layout P h None None
| starred h cs t : Forall cc_ok h -> Forall chunk_ok cs -> P t ->
    layout P (h ++ flat_map with_star cs ++ with_star t) (Some (length h))
      (Some (length (h ++ flat_map with_star cs))).

Definition comp_inv (st : comp_st) : Prop :=
  layout chunk_ok (c_out st) (c_fs st) (c_ls st) /\ c_cnt st = tmin (ctoks (c_out st)).

#[global] Instance toks_app_proper (p : list tok) : Proper (toks_equiv ==> toks_equiv) (app p).
Proof. intros q r H. induction p as [|t p IH]; [done|]. cbn [app]. by rewrite IH. Qed.

Lemma ToLower_not_AZ (c : ascii) : ToLower c <> "A"%char /\ ToLower c <> "Z"%char.
Proof.
  assert (negb (ToLower c =c "A") && negb (ToLower c =c "Z") = true) as H by by_chars c.
  reflect. split; intros E; rewrite E in *; done.
Qed.

Lemma ctok_lower (c : ascii) : ctok (ToLower c) = Lit (ToLower c).
Proof.
  unfold ctok. destruct (ToLower_not_AZ c) as [H1 H2].
  by rewrite (proj2 (Ascii.eqb_neq _ _) H1), (proj2 (Ascii.eqb_neq _ _) H2).
Qed.

Lemma lit_lower (c : ascii) (p : list tok) : Lit (ToLower c) :: p ≡t Lit c :: p.
Proof. intros s. destruct s as [|d s]; [done|]. cbn [glob tok_char]. by rewrite ToLower_idemp. Qed.

Lemma cc_ok_not_Z (c : ascii) : cc_ok c -> c <> "Z"%char.
Proof. intros [->|[H _]]; [done|]. rewrite <- H. apply ToLower_not_AZ. Qed.

Lemma tmin_app (p q : list tok) : tmin (p ++ q) = tmin p + tmin q.
Proof. induction p as [|t p IH]; [done|]. destruct t; cbn; rewrite ?IH; lia. Qed.

Lemma ctoks_app (a b : list ascii) : ctoks (a ++ b) = ctoks a ++ ctoks b.
Proof. apply map_app. Qed.

Lemma chunk_snoc (t : list ascii) (c : ascii) : chunk_ok t -> cc_ok c -> chunk_ok (t ++ [c]).
Proof. destruct t as [|a r]; [done|]. intros [H F] C. cbn. split; [done|]. apply Forall_app. auto. Qed.

Lemma chunk_cc (t : list ascii) : chunk_ok t -> Forall cc_ok t.
Proof. destruct t as [|a r]; [done|]. intros [H F]. constructor; [by right|done]. Qed.

Lemma layout_snoc (P : list ascii -> Prop) (out : list ascii) (fs ls : option nat) (c : ascii) :
  layout P out fs ls -> (forall t, P t -> chunk_ok (t ++ [c])) -> cc_ok c ->
  layout chunk_ok (out ++ [c]) fs ls.
Proof.
  intros L H C. destruct L as [h F|h cs t F Fc Pt].
  - constructor. apply Forall_app. auto.
  - rewrite <- !app_assoc. cbn [with_star app]. apply (starred chunk_ok h cs (t ++ [c])); auto.
Qed.

Lemma comp_any_ok (st : comp_st) : comp_inv st -> comp_inv (comp_any st).
Proof.
  intros [L C]. split; cbn.
  - apply (layout_snoc chunk_ok); [done| |by left]. intros t Ht. apply chunk_snoc; [done|by left].
  - rewrite ctoks_app, tmin_app, C. cbn. lia.
Qed.

(** After a flush the last chunk has just begun, unless no star was pending. *)
Definition fresh_or_chunk (t : list ascii) : Prop := t = [] \/ chunk_ok t.

Lemma flush_ok (st : comp_st) : comp_inv st ->
  layout fresh_or_chunk (c_out (comp_flush st)) (c_fs (comp_flush st)) (c_ls (comp_flush st)) /\
  c_cnt (comp_flush st) = tmin (ctoks (c_out (comp_flush st))) /\
  ctoks (c_out (comp_flush st)) = ctoks (c_out st) ++ star_if (c_star st) [] /\
  c_star (comp_flush st) = false.
Proof.
  intros [L C]. unfold comp_flush. destruct (c_star st) eqn:S; cbn [c_out c_fs c_ls c_cnt c_star star_if].
  - split; [|split; [|split; [by rewrite ctoks_app|done]]].
    + destruct L as [h F|h cs t F Fc Pt].
      * change (h ++ ["Z"%char]) with (h ++ flat_map with_star [] ++ with_star []).
        replace (Some (length h)) with (Some (length (h ++ flat_map with_star []))) at 2 by (cbn; by rewrite app_nil_r).
        constructor; [done|constructor|by left].
      * assert (h ++ flat_map with_star cs ++ with_star t = h ++ flat_map with_star (cs ++ [t])) as E.
        { rewrite flat_map_app. cbn [flat_map]. by rewrite app_nil_r. }
        rewrite E. rewrite <- (app_assoc h). apply (starred fresh_or_chunk h (cs ++ [t]) []); [done| |by left].
        apply Forall_app. auto.
    + rewrite ctoks_app, tmin_app, C. cbn. lia.
  - split; [|split; [done|split; [by rewrite app_nil_r|done]]].
    destruct L as [h F|h cs t F Fc Pt]; constructor; auto. by right.
Qed.

Lemma comp_char_ok (st : comp_st) (c : ascii) : comp_inv st -> c <> NUL ->
  comp_inv (comp_char st c) /\
  ctoks (c_out (comp_char st c)) = ctoks (c_out st) ++ star_if (c_star st) [Lit (ToLower c)] /\
  c_star (comp_char st c) = false.
Proof.
  intros I N. destruct (flush_ok st I) as (L & C & T & S). unfold comp_char.
  assert (ToLower c <> NUL) as NL by (intros E; by apply ToLower_NUL in E).
  assert (ToLower (ToLower c) = ToLower c /\ ToLower c <> NUL) as Low by (split; [apply ToLower_idemp|done]).
  split; [split|split]; cbn [c_out c_fs c_ls c_cnt c_star].
  - apply (layout_snoc fresh_or_chunk); [done| |by right]. intros t [->|Ht]; [by split|].
    apply chunk_snoc; [done|by right].
  - rewrite ctoks_app, tmin_app, C. cbn [ctoks map]. rewrite ctok_lower. cbn [tmin]. lia.
  - rewrite ctoks_app, T, <- app_assoc. cbn [ctoks map]. rewrite ctok_lower. by destruct (c_star st).
  - done.
Qed.

(** The tokens written so far, the pending star and the rest of the mask. *)
Definition pending (st : comp_st) (m : list ascii) : list tok :=
  ctoks (c_out st) ++ star_if (c_star st) (ctokens m).

Lemma pending_char (st : comp_st) (c : ascii) (m : list ascii) : comp_inv st -> c <> NUL ->
  pending (comp_char st c) m ≡t ctoks (c_out st) ++ star_if (c_star st) (Lit c :: ctokens m).
Proof.
  intros I N. destruct (comp_char_ok st c I N) as (_ & T & S). unfold pending. rewrite S, T, <- app_assoc.
  cbn [star_if]. apply toks_app_proper. destruct (c_star st); cbn [star_if app]; [|apply lit_lower].
  apply toks_cons_proper. apply lit_lower.
Qed.

Lemma comp_loop_ok (m : list ascii) (st : comp_st) : no_nul m -> comp_inv st ->
  comp_inv (comp_loop m st) /\ pending (comp_loop m st) [] ≡t pending st m.
Proof.
  assert (forall n m st, length m <= n -> no_nul m -> comp_inv st ->
    comp_inv (comp_loop m st) /\ pending (comp_loop m st) [] ≡t pending st m) as G; [|by apply (G (length m))].
  intros n. induction n as [|n IH]; intros m' st' Ln NN I.
  { destruct m'; [|cbn in Ln; lia]. done. }
  destruct m' as [|c m']; [done|]. apply no_nul_cons in NN as [N NN]. cbn [comp_loop length] in *.
  assert (forall d r, d <> NUL -> no_nul r -> length r <= n ->
    comp_inv (comp_loop r (comp_char st' d)) /\
    pending (comp_loop r (comp_char st' d)) [] ≡t
      ctoks (c_out st') ++ star_if (c_star st') (Lit d :: ctokens r)) as Ch.
  { intros d r Nd Nr Lr. destruct (comp_char_ok st' d I Nd) as (I' & _).
    destruct (IH r (comp_char st' d) Lr Nr I') as [H1 H2]. split; [done|]. rewrite H2. by apply pending_char. }
  change (pending st' (c :: m')) with (ctoks (c_out st') ++ star_if (c_star st') (ctokens (c :: m'))).
  cbn [ctokens].
  destruct (c =c "*") eqn:E1; [|destruct (c =c "?") eqn:E2; [|destruct (c =c "\") eqn:E3]].
  - destruct (IH m' (comp_star st') ltac:(lia) NN I) as [H1 H2]. split; [done|]. rewrite H2.
    unfold pending. cbn [comp_star c_out c_star]. apply toks_app_proper. symmetry. apply star_if_star.
  - destruct (IH m' (comp_any st') ltac:(lia) NN (comp_any_ok st' I)) as [H1 H2]. split; [done|]. rewrite H2.
    unfold pending. cbn [comp_any c_out c_star]. rewrite ctoks_app, <- app_assoc. apply toks_app_proper.
    symmetry. apply star_if_any.
  - destruct m' as [|d m'']; [apply Ch; [done|done|cbn; lia]|]. apply no_nul_cons in NN as Nd. destruct Nd as [Nd Nr].
    destruct (is_wild d) eqn:Wd; [apply Ch; [done|done|cbn in Ln; lia]|]. apply Ch; [done|done|cbn in Ln |- *; lia].
  - apply Ch; [done|done|lia].
Qed.

(** ** The in-place rearrangement *)
Lemma swap_spec (p q r : list ascii) (a b : ascii) (i j : nat) :
  i = length p -> j = length p + S (length q) ->
  swap (p ++ a :: q ++ b :: r) i j = p ++ b :: q ++ a :: r.
Proof.
  intros -> ->. unfold swap.
  assert ((p ++ a :: q ++ b :: r) !! length p = Some a) as -> by (by apply list_lookup_middle).
  assert ((p ++ a :: q ++ b :: r) !! (length p + S (length q)) = Some b) as ->.
  { rewrite lookup_app_r by lia. replace (length p + S (length q) - length p) with (S (length q)) by lia.
    cbn. by apply list_lookup_middle. }
  rewrite insert_app_r_alt by lia. replace (length p - length p) with 0 by lia.
  rewrite insert_app_r_alt by lia. replace (length p + S (length q) - length p) with (S (length q)) by lia.
  change (<[0:=b]> (a :: q ++ b :: r)) with (b :: q ++ b :: r).
  change (<[S (length q) := a]> (b :: q ++ b :: r)) with (b :: <[length q := a]> (q ++ b :: r)).
  rewrite insert_app_r_alt, Nat.sub_diag by lia. done.
Qed.

Lemma reverse_loop_spec (fuel : nat) (p x r : list ascii) :
  length x <= fuel -> 0 < length p ->
  reverse_loop fuel (p ++ x ++ r) (length p) (pred (length p + length x)) = p ++ reverse x ++ r.
Proof.
  revert p x r. induction fuel as [|fuel IH]; intros p x r L P.
  { destruct x; [done|cbn in L; lia]. }
  destruct x as [|a x].
  { cbn [reverse_loop length]. rewrite (proj2 (Nat.ltb_ge _ _)) by lia. done. }
  destruct (decide (x = [])) as [->|NE].
  { cbn [reverse_loop length]. rewrite (proj2 (Nat.ltb_ge _ _)) by lia. done. }
  destruct (exists_last NE) as (y & b & ->). cbn [reverse_loop]. rewrite length_cons, length_app in L |- *. cbn [length] in L |- *.
  rewrite (proj2 (Nat.ltb_lt _ _)) by lia.
  replace (p ++ (a :: y ++ [b]) ++ r) with (p ++ a :: y ++ b :: r) by (cbn; by rewrite <- app_assoc).
  rewrite swap_spec by lia.
  specialize (IH (p ++ [b]) y (a :: r)). rewrite length_app in IH. cbn [length] in IH.
  replace (length p + 1) with (S (length p)) in IH by lia.
  replace (pred (pred (length p + S (length y + 1)))) with (pred (S (length p) + length y)) by lia.
  rewrite <- app_assoc in IH. cbn [app] in IH. rewrite IH by lia.
  rewrite reverse_cons, reverse_app. cbn. rewrite <- !app_assoc. done.
Qed.

Lemma swap_range_spec (n : nat) (p X M Y q : list ascii) (i j : nat) :
  length X = n -> length Y = n -> i = length p -> j = length (p ++ X ++ M) ->
  swap_range (p ++ X ++ M ++ Y ++ q) i j n = p ++ Y ++ M ++ X ++ q.
Proof.
  revert p X M Y i j. induction n as [|n IH]; intros p X M Y i j LX LY -> ->.
  { destruct X, Y; try done. }
  destruct X as [|a X]; [done|]. destruct Y as [|b Y]; [done|]. cbn in LX, LY. cbn [swap_range].
  replace (p ++ (a :: X) ++ M ++ (b :: Y) ++ q) with (p ++ a :: (X ++ M) ++ b :: (Y ++ q))
    by (cbn; by rewrite <- !app_assoc).
  rewrite swap_spec by (rewrite ?length_app; cbn; rewrite ?length_app; lia).
  replace (p ++ b :: (X ++ M) ++ a :: Y ++ q) with ((p ++ [b]) ++ X ++ (M ++ [a]) ++ Y ++ q)
    by (rewrite <- !app_assoc; done).
  rewrite IH by (rewrite ?length_app; cbn; rewrite ?length_app; cbn; lia).
  rewrite <- !app_assoc. done.
Qed.

Lemma rotate_loop_spec (fuel : nat) (p A B q : list ascii) :
  length A + length B < fuel ->
  rotate_loop fuel (p ++ A ++ B ++ q) (length p) (length A) (length B) = p ++ B ++ A ++ q.
Proof.
  revert p A B. induction fuel as [|fuel IH]; intros p A B L; [lia|]. cbn [rotate_loop].
  destruct (Nat.ltb_spec (length A) (length B)) as [C|C].
  - destruct (length A) as [|n] eqn:LA; [by destruct A|].
    rewrite (proj2 (Nat.ltb_ge _ _)) by lia. rewrite <- LA in *.
    rewrite <- (take_drop (length A) B) at 1. set (B1 := take (length A) B). set (B2 := drop (length A) B).
    assert (length B1 = length A) as L1 by (unfold B1; rewrite length_take; lia).
    assert (length B2 = length B - length A) as L2 by (unfold B2; rewrite length_drop; lia).
    pose proof (swap_range_spec (length A) p A [] B1 (B2 ++ q) (length p) (length p + length A)) as Sw.
    rewrite <- (app_assoc B1). cbn [app] in Sw. rewrite Sw by (rewrite ?length_app; cbn; lia).
    specialize (IH (p ++ B1) A B2). rewrite <- L2. rewrite length_app, L1 in IH. rewrite <- !app_assoc in IH.
    rewrite IH by lia. rewrite (app_assoc B1). unfold B1, B2. by rewrite take_drop.
  - destruct (length B) as [|n] eqn:LB; [by destruct B; rewrite ?app_nil_l|]. rewrite <- LB in *.
    rewrite <- (take_drop (length B) A) at 1. set (A1 := take (length B) A). set (A2 := drop (length B) A).
    assert (length A1 = length B) as L1 by (unfold A1; rewrite length_take; lia).
    assert (length A2 = length A - length B) as L2 by (unfold A2; rewrite length_drop; lia).
    pose proof (swap_range_spec (length B) p A1 A2 B q (length p) (length p + length A)) as Sw.
    rewrite <- (app_assoc A1). rewrite Sw by (rewrite ?length_app; lia).
    destruct (Nat.ltb_spec (length B) (length A)) as [D|D].
    + specialize (IH (p ++ B) A2 A1). rewrite length_app, L2, L1, <- !app_assoc in IH. rewrite IH by lia.
      rewrite (app_assoc A1). unfold A1, A2. by rewrite take_drop.
    + assert (A2 = []) as E2 by (apply length_zero_iff_nil; lia).
      assert (A1 = A) as E1 by (unfold A1; apply take_ge; lia). rewrite E1, E2, Nat.sub_diag. cbn [app].
      replace (length A - length B) with 0 by lia. by destruct fuel.
Qed.

Lemma cc_single (l : list ascii) : Forall cc_ok l -> Forall single (ctoks l).
Proof.
  intros F. apply Forall_map. eapply Forall_impl; [exact F|]. intros c C. unfold ctok.
  destruct (c =c "A"); [done|]. destruct (Ascii.eqb_spec c "Z") as [E|]; [by apply cc_ok_not_Z in C|done].
Qed.

Lemma tmin_cc (l : list ascii) : Forall cc_ok l -> tmin (ctoks l) = length l.
Proof.
  intros F. apply cc_single in F. pose proof (tmin_singles (ctoks l) [] F) as H. rewrite app_nil_r in H.
  rewrite H. unfold ctoks. rewrite length_map. cbn. lia.
Qed.

Definition spread (cs : list (list ascii)) : list tok := flat_map (fun c => ctoks c ++ [Star]) cs.

Lemma ctoks_chunks (cs : list (list ascii)) (t : list ascii) :
  ctoks (flat_map with_star cs ++ with_star t) = Star :: spread cs ++ ctoks t.
Proof.
  induction cs as [|c cs IH]; [done|]. cbn [flat_map spread]. rewrite <- app_assoc, ctoks_app, IH.
  cbn [with_star ctoks map]. fold ctoks. change (ctok "Z") with Star. cbn [app]. rewrite <- !app_assoc. done.
Qed.

Lemma tmin_spread (cs : list (list ascii)) : Forall chunk_ok cs -> tmin (spread cs) = length (concat cs).
Proof.
  induction 1 as [|c cs C F IH]; [done|]. cbn [spread flat_map concat].
  fold (spread cs). rewrite !tmin_app, IH, length_app, tmin_cc by (by apply chunk_cc). cbn. lia.
Qed.

(** The compiled form of a mask: a head alone, or head, tail and chunks. *)
Lemma matchcomp_layout (mask : list ascii) : no_nul mask ->
  let '(cm, minlen, _) := matchcomp mask in
  (Forall cc_ok cm /\ minlen = length cm /\ ctoks cm ≡t ctokens mask) \/
  exists h t cs, cm = h ++ with_star (reverse t) ++ flat_map with_star cs /\
    Forall cc_ok h /\ Forall cc_ok t /\ Forall chunk_ok cs /\
    minlen = length h + length t + length (concat cs) /\
    ctoks h ++ Star :: spread cs ++ ctoks t ≡t ctokens mask.
Proof.
  intros NN. unfold matchcomp.
  assert (comp_inv comp_start) as I0 by (split; [constructor; constructor|done]).
  destruct (comp_loop_ok mask comp_start NN I0) as [I Eq]. set (st := comp_loop mask comp_start) in *.
  assert ((if c_star st then comp_flush st else st) = comp_flush st) as -> by (unfold comp_flush; by destruct (c_star st)).
  destruct (flush_ok st I) as (L & C & T & _).
  assert (ctoks (c_out (comp_flush st)) ≡t ctokens mask) as Eq'.
  { rewrite T. change (ctoks (c_out st) ++ star_if (c_star st) []) with (pending st []). rewrite Eq. done. }
  set (st' := comp_flush st) in *. clearbody st'. clear - L C Eq'.
  revert C Eq'. destruct st' as [out fs ls star cnt ch1 ch2]. cbn [c_out c_fs c_ls c_cnt] in *.
  destruct L as [h F|h cs t F Fc Ft]; intros -> Eq'.
  - left. split; [done|]. split; [by apply tmin_cc|done].
  - right. assert (Forall cc_ok t) as Ft' by (destruct Ft as [->|?]; [constructor|by apply chunk_cc]).
    exists h, t, cs. rewrite ctoks_app, ctoks_chunks in Eq'.
    split; [|split; [done|]; split; [done|]; split; [done|]; split; [|done]].
    + set (X := flat_map with_star cs).
      assert (length (h ++ X ++ with_star t) = length (h ++ X ++ ["Z"%char]) + length t) as Lb.
      { unfold with_star. rewrite !length_app. cbn [length]. lia. }
      assert (reverse_loop (length (h ++ X ++ with_star t)) (h ++ X ++ with_star t) (S (length (h ++ X)))
        (pred (length (h ++ X ++ with_star t))) = h ++ X ++ with_star (reverse t)) as ->.
      { pose proof (reverse_loop_spec (length (h ++ X ++ with_star t)) (h ++ X ++ ["Z"%char]) t []) as R.
        rewrite !app_nil_r in R. rewrite Lb in *.
        replace (S (length (h ++ X))) with (length (h ++ X ++ ["Z"%char])) by (rewrite !length_app; cbn; lia).
        replace (h ++ X ++ with_star t) with ((h ++ X ++ ["Z"%char]) ++ t) by (by rewrite <- !app_assoc).
        rewrite R by (rewrite !length_app; cbn; lia). by rewrite <- !app_assoc. }
      replace (length (h ++ X) - length h) with (length X) by (rewrite length_app; lia).
      replace (length (h ++ X ++ with_star t) - length (h ++ X)) with (length (with_star (reverse t)))
        by (unfold with_star; rewrite !length_app; cbn; rewrite length_reverse; lia).
      pose proof (rotate_loop_spec (S (length (h ++ X ++ with_star t))) h X (with_star (reverse t)) []) as R.
      rewrite !app_nil_r in R. rewrite R; [done|]. unfold with_star. rewrite !length_app. cbn. rewrite length_reverse. lia.
    + rewrite ctoks_app, ctoks_chunks, tmin_app. cbn [tmin]. rewrite tmin_app, !tmin_cc, tmin_spread by done. lia.
Qed.

(** ** Matching the parts of a compiled mask *)
Definition cm1 (a c : ascii) : bool := (a =c "A") || (ToLower c =c a).

Fixpoint pre (p s : list ascii) : bool :=
  match p, s with
  | [], _ => true
  | a :: p', c :: s' => cm1 a c && pre p' s'
  | _ :: _, [] => false
  end.

Lemma ctok_char (a c : ascii) : cc_ok a -> tok_char (ctok a) c = cm1 a c.
Proof.
  intros C. unfold ctok, cm1. destruct (Ascii.eqb_spec a "A") as [->|N]; [done|].
  destruct C as [->|[L _]]; [done|]. destruct (Ascii.eqb_spec a "Z") as [->|N']; [done|].
  cbn [tok_char orb]. rewrite L. apply eq_true_iff_eq. rewrite !Ascii.eqb_eq. split; congruence.
Qed.

Lemma glob_single (t : tok) (p : list tok) (s : list ascii) : single t ->
  glob (t :: p) s = match s with [] => false | c :: s' => tok_char t c && glob p s' end.
Proof. by destruct t. Qed.

Lemma glob_pre (h : list ascii) (q : list tok) (s : list ascii) : Forall cc_ok h ->
  glob (ctoks h ++ q) s = pre h s && glob q (drop (length h) s).
Proof.
  intros F. revert s. induction F as [|a h C F IH]; intros s; [done|]. cbn [ctoks map app].
  rewrite glob_single by (pose proof (cc_single [a] ltac:(by constructor)) as H; by inversion H).
  destruct s as [|c s]; [done|]. rewrite ctok_char by done. cbn [pre length drop].
  rewrite <- andb_assoc. f_equal. apply IH.
Qed.

Lemma pre_app (p1 p2 s1 s2 : list ascii) : length p1 = length s1 ->
  pre (p1 ++ p2) (s1 ++ s2) = pre p1 s1 && pre p2 s2.
Proof.
  revert s1. induction p1 as [|a p1 IH]; intros [|c s1] L; try done. cbn. injection L as L.
  by rewrite IH, andb_assoc.
Qed.

Lemma pre_length (p s : list ascii) : pre p s = true -> length p <= length s.
Proof.
  revert s. induction p as [|a p IH]; intros [|c s]; cbn; try done; try lia.
  intros [_ H]%andb_true_iff. apply IH in H. lia.
Qed.

Lemma pre_ext (p s1 s2 : list ascii) : length p <= length s1 -> pre p (s1 ++ s2) = pre p s1.
Proof.
  revert s1. induction p as [|a p IH]; intros [|c s1] L; cbn in *; try done; [lia|]. f_equal. apply IH. lia.
Qed.

Lemma pre_reverse_eq (t b : list ascii) : length t = length b -> pre (reverse t) (reverse b) = pre t b.
Proof.
  revert b. induction t as [|a t IH]; intros [|c b] L; try done. injection L as L.
  rewrite !reverse_cons, pre_app by (by rewrite !length_reverse). rewrite IH by done. cbn.
  rewrite andb_true_r. apply andb_comm.
Qed.

Lemma pre_reverse (t s : list ascii) : length t <= length s ->
  pre (reverse t) (reverse s) = pre t (drop (length s - length t) s).
Proof.
  intros L. rewrite <- (take_drop (length s - length t) s) at 1. rewrite reverse_app.
  rewrite pre_ext by (rewrite !length_reverse, length_drop; lia).
  apply pre_reverse_eq. rewrite length_drop. lia.
Qed.

Lemma glob_tail (p : list tok) (t s : list ascii) : Forall cc_ok t ->
  glob (p ++ ctoks t) s =
  (length t <=? length s) && pre (reverse t) (reverse s) && glob p (take (length s - length t) s).
Proof.
  intros F. apply eq_true_iff_eq. rewrite glob_app, !andb_true_iff, Nat.leb_le.
  assert (forall x, glob (ctoks t) x = true <-> length x = length t /\ pre t x = true) as Ex.
  { intros x. pose proof (glob_pre t [] x F) as H. rewrite app_nil_r in H. rewrite H, andb_true_iff. split.
    - intros [H1 H2]. split; [|done]. apply pre_length in H1 as L1. destruct (drop (length t) x) eqn:D; [|done].
      apply (f_equal length) in D. rewrite length_drop in D. cbn in D. lia.
    - intros [L H1]. split; [done|]. by rewrite <- L, drop_all. }
  split.
  - intros (s1 & s2 & -> & H1 & [L H2]%Ex). rewrite length_app.
    replace (length s1 + length s2 - length t) with (length s1) by lia.
    split; [split; [lia|]|by rewrite take_app_length].
    rewrite pre_reverse by (rewrite length_app; lia). rewrite length_app.
    replace (length s1 + length s2 - length t) with (length s1) by lia. by rewrite drop_app_length.
  - intros [[L H1] H2]. exists (take (length s - length t) s), (drop (length s - length t) s).
    split; [by rewrite take_drop|]. split; [done|]. apply Ex. rewrite length_drop.
    split; [lia|]. by rewrite <- pre_reverse.
Qed.

Definition middle (h t s : list ascii) : list ascii :=
  take (length s - length h - length t) (drop (length h) s).

(** A starred mask: head and tail at the ends, the chunks in order in between. *)
Lemma glob_starred (h t s : list ascii) (cs : list (list ascii)) : Forall cc_ok h -> Forall cc_ok t ->
  glob (ctoks h ++ Star :: spread cs ++ ctoks t) s =
  pre h s && (length h + length t <=? length s) && pre (reverse t) (reverse s) &&
  glob (Star :: spread cs) (middle h t s).
Proof.
  intros Fh Ft. rewrite glob_pre by done. destruct (pre h s) eqn:P; [|done]. cbn [andb].
  apply pre_length in P. change (Star :: spread cs ++ ctoks t) with ((Star :: spread cs) ++ ctoks t).
  rewrite glob_tail by done. rewrite length_drop.
  assert ((length t <=? length s - length h) = (length h + length t <=? length s)) as ->.
  { apply eq_true_iff_eq. rewrite !Nat.leb_le. lia. }
  destruct (Nat.leb_spec (length h + length t) (length s)) as [L|L]; [|done]. cbn [andb].
  rewrite !pre_reverse by (rewrite ?length_drop; lia). rewrite length_drop, drop_drop.
  replace (length h + (length s - length h - length t)) with (length s - length t) by lia. done.
Qed.

(** ** [matchexec] step by step *)
Section ExecProofs.
Context (before : ascii) (string cmask : list ascii).
Hypothesis string_ok : no_nul string.

Abbreviation sget := (sget before string).
Abbreviation bget := (bget cmask).

Lemma nth_drop_deref (i : nat) (l : list ascii) : nth i l NUL = deref (drop i l).
Proof. revert i. induction l as [|a l IH]; intros [|i]; try done. cbn. apply IH. Qed.

Lemma sget_drop (i : nat) : i <= length string -> sget (S i) = Ok (deref (drop i string)).
Proof.
  intros H. unfold MatchComp.sget. destruct (Nat.ltb_spec i (length string)) as [L|L]; [by rewrite nth_drop_deref|].
  rewrite (proj2 (Nat.eqb_eq _ _)) by lia. rewrite drop_ge by lia. done.
Qed.

Lemma bget_drop (i : nat) : i <= length cmask -> bget (S i) = Ok (deref (drop i cmask)).
Proof.
  intros H. unfold MatchComp.bget. destruct (Nat.ltb_spec i (length cmask)) as [L|L]; [by rewrite nth_drop_deref|].
  rewrite (proj2 (Nat.eqb_eq _ _)) by lia. rewrite drop_ge by lia. done.
Qed.

Lemma drop_cons {A : Type} (i : nat) (l : list A) (a : A) (r : list A) :
  drop i l = a :: r -> i < length l /\ drop (S i) l = r.
Proof.
  intros H. assert (i < length l).
  { destruct (decide (i < length l)); [done|]. rewrite drop_ge in H by lia. done. }
  split; [done|]. replace (S i) with (i + 1) by lia. rewrite <- drop_drop, H. done.
Qed.

Lemma string_char (k : nat) (c : ascii) (s : list ascii) : drop k string = c :: s -> c <> NUL.
Proof.
  intros D ->. apply string_ok. rewrite <- (take_drop k string), D. apply elem_of_app. right. left.
Qed.

(** What follows a run of characters in a compiled mask. *)
Definition at_star (rest : list ascii) : Prop := rest = [] \/ exists r, rest = with_star r.

Lemma cc_compare (a c : ascii) : cc_ok a -> c <> NUL ->
  (ToLower c =c a) && negb (c =c NUL) = negb (a =c "A") && cm1 a c /\
  (ToLower c =c a) && negb (a =c NUL) = negb (a =c "A") && cm1 a c /\
  (a =c NUL) = false /\ (a =c "Z") = false.
Proof.
  intros C N. assert (a <> NUL) as Na by (destruct C as [->|[_ ?]]; done).
  assert (a <> "Z"%char) as Nz by (by apply cc_ok_not_Z).
  rewrite (proj2 (Ascii.eqb_neq c NUL) N), (proj2 (Ascii.eqb_neq a NUL) Na), (proj2 (Ascii.eqb_neq a "Z") Nz).
  cbn [negb]. rewrite !andb_true_r. unfold cm1.
  destruct (Ascii.eqb_spec a "A") as [->|NA]; cbn [negb andb orb]; [|by auto].
  destruct (ToLower_not_AZ c) as [H _]. rewrite (proj2 (Ascii.eqb_neq _ _) H). done.
Qed.

Lemma star_compare (c : ascii) : (ToLower c =c "Z") = false.
Proof. apply Ascii.eqb_neq. apply ToLower_not_AZ. Qed.

Fixpoint head_fun (h s rest : list ascii) (k : nat) : Z + nat * nat :=
  match h, s with
  | [], [] => inl (match rest with [] => 0 | [_] => 0 | _ => 1 end)%Z
  | [], _ :: _ => match rest with [] => inl 1%Z | _ => inr (S k, S k) end
  | _ :: _, [] => inl 1%Z
  | a :: h', c :: s' => if cm1 a c then head_fun h' s' rest (S k) else inl 1%Z
  end.

Lemma try_head_spec (h rest : list ascii) : Forall cc_ok h -> at_star rest -> (forall r, rest = with_star r -> no_nul r) ->
  forall fuel k, k <= length string -> k <= length cmask -> drop k cmask = h ++ rest ->
  length string - k + 1 < fuel ->
  try_head before string cmask fuel k k = Ok (head_fun h (drop k string) rest k).
Proof.
  intros F AS NR. induction F as [|a h C F IH]; intros fuel k Ks Kc D Fu; (destruct fuel as [|fuel]; [lia|]);
    cbn [try_head]; rewrite sget_drop, bget_drop by done; cbn [obind]; rewrite D; cbn [app].
  - destruct (drop k string) as [|c s] eqn:Ds; cbn [deref head_fun].
    + destruct AS as [->|[r ->]]; [done|]. rewrite andb_false_r. cbn [deref with_star app].
      change (NUL =c NUL) with true. change ("Z"%char =c NUL) with false. change ("Z"%char =c "Z") with true.
      cbn [negb]. cbv iota.
      apply drop_cons in D as [L1 D1]. rewrite bget_drop by lia. cbn [obind]. rewrite D1.
      specialize (NR r eq_refl). destruct r as [|d r]; [done|]. cbn.
      apply no_nul_cons in NR as [Nd _]. by rewrite (proj2 (Ascii.eqb_neq _ _) Nd).
    + pose proof (string_char k c s Ds) as Nc.
      rewrite (proj2 (Ascii.eqb_neq c NUL) Nc). destruct AS as [->|[r ->]]; cbn [deref with_star].
      * assert (ToLower c <> NUL) as NL by (intros E; by apply ToLower_NUL in E).
        by rewrite (proj2 (Ascii.eqb_neq _ _) NL).
      * by rewrite star_compare.
  - destruct (drop k string) as [|c s] eqn:Ds; cbn [deref head_fun].
    + rewrite andb_false_r. cbn. destruct (cc_compare a "x" C ltac:(done)) as (_ & _ & -> & ->). done.
    + pose proof (string_char k c s Ds) as Nc.
      destruct (cc_compare a c C Nc) as (-> & _ & _ & ->). rewrite (proj2 (Ascii.eqb_neq c NUL) Nc).
      apply drop_cons in Ds as [L1 D1]. apply drop_cons in D as [L2 D2].
      specialize (IH fuel (S k) L1 L2 D2 ltac:(lia)). rewrite D1 in IH. cbn [negb].
      unfold cm1. destruct (a =c "A") eqn:EA; cbn [negb andb orb]; [exact IH|].
      destruct (ToLower c =c a); [exact IH|done].
Qed.

(** The tail, read backwards from position [p]. *)
Lemma sget_back (s : nat) : s <= length string ->
  exists c, sget s = Ok c /\ reverse (take (S s) (before :: string)) = c :: reverse (take s (before :: string)) /\
    (0 < s -> c <> NUL).
Proof.
  intros H. assert (is_Some ((before :: string) !! s)) as [c Hc] by (apply lookup_lt_is_Some; cbn; lia).
  exists c. split; [|split].
  - destruct s as [|i]; [by injection Hc as ->|]. cbn in Hc. rewrite sget_drop by lia.
    apply drop_S in Hc. by rewrite Hc.
  - by rewrite (take_S_r _ _ c), reverse_snoc.
  - destruct s as [|i]; [lia|]. intros _ ->. cbn in Hc. apply string_ok. by eapply list_elem_of_lookup_2.
Qed.

Lemma try_tail_spec (rt rest : list ascii) : Forall cc_ok rt -> at_star rest ->
  forall fuel p b, p <= S (length string) -> length rt < p -> b <= length cmask -> drop b cmask = rt ++ rest ->
  length rt < fuel ->
  try_tail before string cmask fuel p b =
  Ok (if pre rt (reverse (take p (before :: string))) then
        match rest with [] => inl 0%Z | _ => inr (S (b + length rt)) end
      else inl 1%Z).
Proof.
  intros F AS. induction F as [|a rt C F IH]; intros fuel p b P L B D Fu; (destruct fuel as [|fuel]; [cbn in Fu; lia|]);
    (destruct p as [|s]; [cbn in L; lia|]); cbn [try_tail]; rewrite bget_drop by done;
    destruct (sget_back s ltac:(lia)) as (c & Ec & Er & Nc); rewrite Ec; cbn [obind]; rewrite D, Er; cbn [app].
  - cbn [pre length]. rewrite Nat.add_0_r. destruct AS as [->|[r ->]]; cbn [deref with_star].
    + change (NUL =c NUL) with true. by rewrite andb_false_r.
    + by rewrite star_compare.
  - cbn [pre length deref] in *. destruct (cc_compare a c C (Nc ltac:(lia))) as (_ & -> & -> & ->).
    apply drop_cons in D as [L2 D2]. specialize (IH fuel s (S b) ltac:(lia) ltac:(lia) L2 D2 ltac:(lia)).
    replace (S (S b + length rt)) with (S (b + S (length rt))) in IH by lia.
    unfold cm1. destruct (a =c "A") eqn:EA; cbn [negb andb orb]; [exact IH|].
    destruct (ToLower c =c a); cbn [andb]; [exact IH|done].
Qed.

(** A chunk against the characters from index [p]. *)
Lemma try_chunk_spec (r rest : list ascii) : Forall cc_ok r -> at_star rest ->
  forall fuel p b, p + length r <= length string -> b <= length cmask -> drop b cmask = r ++ rest -> length r < fuel ->
  if pre r (drop p string) then
    try_chunk before string cmask fuel p b = Ok (S (p + length r), S (b + length r), deref rest)
  else exists s2 b2 cb, try_chunk before string cmask fuel p b = Ok (s2, b2, cb) /\ (cb =c NUL) = false /\ (cb =c "Z") = false.
Proof.
  intros F AS. induction F as [|a r C F IH]; intros fuel p b P B D Fu; (destruct fuel as [|fuel]; [cbn in Fu; lia|]);
    cbn [try_chunk]; rewrite bget_drop by done; rewrite sget_drop by lia; cbn [obind]; rewrite D; cbn [app].
  - cbn [pre length]. rewrite !Nat.add_0_r. destruct AS as [->|[q ->]]; cbn [deref with_star].
    + change (NUL =c NUL) with true. by rewrite andb_false_r.
    + by rewrite star_compare.
  - cbn [length deref] in *. destruct (drop p string) as [|c s] eqn:Ds.
    { apply (f_equal length) in Ds. rewrite length_drop in Ds. cbn in Ds. lia. }
    cbn [pre deref]. destruct (cc_compare a c C (string_char p c s Ds)) as (_ & -> & N1 & N2). rewrite N1, N2.
    apply drop_cons in D as [L2 D2]. apply drop_cons in Ds as [L3 D3].
    specialize (IH fuel (S p) (S b) ltac:(lia) L2 D2 ltac:(lia)). rewrite D3 in IH.
    replace (S (S p + length r)) with (S (p + S (length r))) in IH by lia.
    replace (S (S b + length r)) with (S (b + S (length r))) in IH by lia.
    unfold cm1. destruct (a =c "A") eqn:EA; cbn [negb andb orb]; [exact IH|].
    destruct (ToLower c =c a); cbn [andb]; [exact IH|]. eauto 6.
Qed.

(** Skipping up to [trash] characters to the first that folds to [ch]. *)
Lemma seek_spec (ch : ascii) : forall fuel p trash, p + trash < length string -> trash < fuel ->
  (seek before string fuel p ch (Z.of_nat trash) = Ok None /\
   forall j, j <= trash -> (ToLower (deref (drop (p + j) string)) =c ch) = false) \/
  exists j, j <= trash /\ seek before string fuel p ch (Z.of_nat trash) = Ok (Some (S (p + j), Z.of_nat (trash - j))) /\
    (forall i, i < j -> (ToLower (deref (drop (p + i) string)) =c ch) = false) /\
    (ToLower (deref (drop (p + j) string)) =c ch) = true.
Proof.
  intros fuel. induction fuel as [|fuel IH]; intros p trash P Fu; [lia|]. cbn [seek].
  rewrite sget_drop by lia. cbn [obind]. destruct (ToLower (deref (drop p string)) =c ch) eqn:E.
  - right. exists 0. rewrite Nat.add_0_r, Nat.sub_0_r. split; [lia|]. split; [done|]. split; [lia|done].
  - destruct trash as [|trash].
    + left. rewrite (proj2 (Z.ltb_lt _ _)) by lia. split; [done|]. intros j Hj. replace (p + j) with p by lia. done.
    + rewrite (proj2 (Z.ltb_ge _ _)) by lia. replace (Z.of_nat (S trash) - 1)%Z with (Z.of_nat trash) by lia.
      destruct (IH (S p) trash ltac:(lia) ltac:(lia)) as [[H1 H2]|(j & H1 & H2 & H3 & H4)].
      * left. split; [done|]. intros [|j] Hj; [by rewrite Nat.add_0_r|].
        replace (p + S j) with (S p + j) by lia. apply H2. lia.
      * right. exists (S j). replace (p + S j) with (S p + j) by lia. replace (S trash - S j) with (trash - j) by lia.
        split; [lia|]. split; [done|]. split; [|done]. intros [|i] Hi; [by rewrite Nat.add_0_r|].
        replace (p + S i) with (S p + i) by lia. apply H3. lia.
Qed.
End ExecProofs.

Lemma skip_chunk (c m : list ascii) (x : ascii) (q : list tok) : Forall cc_ok c -> pre c (x :: m) = false ->
  glob (Star :: ctoks c ++ q) (x :: m) = glob (Star :: ctoks c ++ q) m.
Proof. intros F P. rewrite glob_star, glob_pre, P by done. done. Qed.

Lemma skip_many (c m : list ascii) (q : list tok) (j : nat) : Forall cc_ok c -> j <= length m ->
  (forall i, i < j -> pre c (drop i m) = false) ->
  glob (Star :: ctoks c ++ q) m = glob (Star :: ctoks c ++ q) (drop j m).
Proof.
  intros F. revert m. induction j as [|j IH]; intros m L H; [done|]. destruct m as [|x m]; [cbn in L; lia|].
  rewrite skip_chunk by (done || apply (H 0); lia). cbn [drop]. apply IH; [cbn in L; lia|].
  intros i Hi. apply (H (S i)). lia.
Qed.

Lemma take_chunk (c m : list ascii) (q : list tok) : Forall cc_ok c -> pre c m = true ->
  glob (Star :: ctoks c ++ Star :: q) m = glob (Star :: q) (drop (length c) m).
Proof.
  intros F P. apply eq_true_iff_eq. split.
  - intros H. apply glob_star_elim in H as (s' & Hs & H). rewrite glob_pre in H by done.
    apply andb_true_iff in H as [_ H]. apply glob_star_elim in H as (s2 & Hs2 & H).
    eapply glob_star_intro; [|exact H]. etransitivity; [exact Hs2|]. by apply drop_suffix.
  - intros H. rewrite glob_star, glob_pre, P by done. cbn [andb]. by rewrite H.
Qed.

Lemma too_short (cs : list (list ascii)) (m : list ascii) : Forall chunk_ok cs ->
  length m < length (concat cs) -> glob (Star :: spread cs) m = false.
Proof.
  intros F L. apply not_true_iff_false. intros H. apply glob_tmin in H. cbn [tmin] in H.
  rewrite tmin_spread in H by done. lia.
Qed.

Lemma spread_cons (c : list ascii) (cs : list (list ascii)) : spread (c :: cs) = ctoks c ++ Star :: spread cs.
Proof. unfold spread. cbn [flat_map]. by rewrite <- app_assoc. Qed.

Section ChunkProofs.
Context (before : ascii) (string cmask : list ascii).
Hypothesis string_ok : no_nul string.

(** The characters from index [p] on that the chunks may use. *)
Definition window (p n : nat) : list ascii := take n (drop p string).

Lemma window_length (p n : nat) : p + n <= length string -> length (window p n) = n.
Proof. intros H. unfold window. rewrite length_take, length_drop. lia. Qed.

Lemma window_drop (p n j : nat) : drop j (window p n) = window (p + j) (n - j).
Proof. unfold window. by rewrite skipn_firstn_comm, drop_drop. Qed.

Lemma window_pre (p n : nat) (c : list ascii) : length c <= n -> p + n <= length string ->
  pre c (window p n) = pre c (drop p string).
Proof.
  intros L H. unfold window. rewrite <- (take_drop n (drop p string)) at 2. rewrite pre_ext; [done|].
  rewrite length_take, length_drop. lia.
Qed.

Lemma first_mismatch (a : ascii) (r s : list ascii) : ToLower a = a -> (ToLower (deref s) =c a) = false ->
  pre (a :: r) s = false.
Proof.
  intros La H. destruct s as [|c s]; [done|]. cbn [deref pre] in *. unfold cm1. rewrite H.
  destruct (ToLower_not_AZ a) as [N _]. rewrite La in N. by rewrite (proj2 (Ascii.eqb_neq _ _) N).
Qed.

Lemma first_match (a : ascii) (r s : list ascii) (p : nat) : a <> NUL -> drop p string = s ->
  (ToLower (deref s) =c a) = true -> pre (a :: r) s = pre r (drop (S p) string).
Proof.
  intros Na D H. destruct s as [|c s]; [by apply Ascii.eqb_eq in H; subst|]. cbn [deref pre] in *.
  unfold cm1. rewrite H, orb_true_r. apply drop_cons in D as [_ ->]. done.
Qed.

Lemma flat_at_star (cs : list (list ascii)) : at_star (flat_map with_star cs).
Proof. destruct cs as [|c cs]; [by left|right]. by exists (c ++ flat_map with_star cs). Qed.

(** The search: zero exactly when the chunks occur in order in the window. *)
Lemma chunks_spec (fuel p b n trash : nat) (cs : list (list ascii)) :
  Forall chunk_ok cs -> cs <> [] -> b <= length cmask ->
  with_star (drop b cmask) = flat_map with_star cs -> p + n <= length string ->
  n = length (concat cs) + trash -> trash + length cs < fuel ->
  exists z, chunks before string cmask fuel p b (Z.of_nat trash) = Ok z /\
    (z = 0%Z <-> glob (Star :: spread cs) (window p n) = true).
Proof.
  revert p b n trash cs. induction fuel as [|fuel IH]; intros p b n trash cs F NE B D P N Fu; [lia|].
  destruct cs as [|c cs]; [done|]. pose proof F as F0. inversion_clear F as [|? ? C Fc].
  pose proof (chunk_cc c C) as Cc. cbn [flat_map] in D. unfold with_star at 1 2 in D. injection D as D.
  assert (length c <= length (concat (c :: cs))) as Lc by (cbn; rewrite length_app; lia).
  destruct c as [|a r]; [done|]. destruct C as [[La Na] Cr]. cbn [app] in D. cbn [chunks].
  rewrite bget_drop by done. cbn [obind]. rewrite D. cbn [deref]. rewrite (proj2 (Ascii.eqb_neq a NUL) Na).
  assert (p + trash < length string) as Pt by (cbn [length] in Lc; lia).
  assert (trash < n) as Tn by (cbn [length] in Lc; lia).
  rewrite spread_cons.
  assert (forall i, i < S trash -> (ToLower (deref (drop (p + i) string)) =c a) = false ->
    pre (a :: r) (drop i (window p n)) = false) as Skip.
  { intros i Hi H. rewrite window_drop, window_pre by lia. by apply first_mismatch. }
  assert (forall j, glob (Star :: ctoks (a :: r) ++ Star :: spread cs) (window p n) =
      glob (Star :: ctoks (a :: r) ++ Star :: spread cs) (drop j (window p n)) ->
      trash < j -> glob (Star :: ctoks (a :: r) ++ Star :: spread cs) (window p n) = false) as Short.
  { intros j -> Hj. rewrite <- spread_cons. apply too_short; [done|]. rewrite length_drop, window_length by done.
    cbn [length] in Lc. lia. }
  destruct (seek_spec before string a (S (length string)) p trash Pt ltac:(lia))
    as [[-> Hs]|(j & Hj & -> & Hs & Hm)]; cbn [obind].
  - exists 4%Z. split; [done|]. rewrite (Short (S trash)); [done| |lia].
    apply skip_many; [done|rewrite window_length; lia|]. intros i Hi. apply Skip; [lia|]. apply Hs. lia.
  - assert (glob (Star :: ctoks (a :: r) ++ Star :: spread cs) (window p n) =
      glob (Star :: ctoks (a :: r) ++ Star :: spread cs) (drop j (window p n))) as Ej.
    { apply skip_many; [done|rewrite window_length; lia|]. intros i Hi. apply Skip; [lia|]. by apply Hs. }
    assert (drop (S b) cmask = r ++ flat_map with_star cs /\ b < length cmask) as [D2 B2].
    { destruct (drop_cons b cmask a _ D) as [? ?]. auto. }
    pose proof (try_chunk_spec before string cmask string_ok r (flat_map with_star cs) Cr (flat_at_star cs)
      (S (S (length cmask))) (S (p + j)) (S b) ltac:(cbn [length] in Lc; lia) B2 D2) as TC.
    assert (length r < S (S (length cmask))) as Lr.
    { apply (f_equal length) in D2. rewrite length_drop, length_app in D2. lia. }
    specialize (TC Lr). pose proof (first_match a r _ (p + j) Na eq_refl Hm) as Pm.
    assert (pre (a :: r) (drop j (window p n)) = pre r (drop (S (p + j)) string)) as Pw.
    { rewrite window_drop, window_pre by lia. exact Pm. }
    destruct (pre r (drop (S (p + j)) string)) eqn:Pr.
    + rewrite TC. cbn [obind]. rewrite Ej, take_chunk by done. rewrite window_drop, window_drop. cbn [length].
      destruct cs as [|c2 cs].
      * exists 0%Z. split; [done|]. split; [intros _|done]. cbn [spread flat_map].
        eapply glob_star_intro; [apply suffix_nil|done].
      * cbn [flat_map deref with_star app]. change ("Z"%char =c NUL) with false. change ("Z"%char =c "Z") with true.
        cbv iota. destruct (IH (p + j + S (length r)) (S (b + S (length r))) (n - j - S (length r)) (trash - j) (c2 :: cs))
          as (z & Hz & Ez).
        -- done.
        -- done.
        -- apply (f_equal length) in D2. rewrite length_drop, length_app in D2. cbn in D2. lia.
        -- replace (S (b + S (length r))) with (S b + length r + 1) by lia.
           rewrite <- drop_drop, <- drop_drop, D2, drop_app_length. cbn [flat_map with_star app drop]. done.
        -- cbn [length] in Lc. lia.
        -- cbn [concat] in N |- *. rewrite !length_app in *. cbn [length] in *. lia.
        -- cbn [length] in *. lia.
        -- exists z. split; [|exact Ez]. rewrite <- Hz. f_equal; cbn [pred]; lia.
    + destruct TC as (s2 & b2 & cb & -> & N1 & N2). cbn [obind]. rewrite N1, N2.
      assert (glob (Star :: ctoks (a :: r) ++ Star :: spread cs) (window p n) =
        glob (Star :: ctoks (a :: r) ++ Star :: spread cs) (drop (S j) (window p n))) as Ej'.
      { rewrite Ej. rewrite (skip_many (a :: r) (drop j (window p n)) _ 1); [by rewrite drop_drop, Nat.add_1_r|done| |].
        - rewrite length_drop, window_length by done. cbn [length] in Lc. lia.
        - intros i Hi. replace i with 0 by lia. done. }
      destruct (decide (trash = j)) as [->|Nt].
      * rewrite Nat.sub_diag. exists 5%Z. split; [done|]. by rewrite (Short (S j)) by (done || lia).
      * rewrite (proj2 (Z.ltb_ge _ _)) by lia. replace (Z.of_nat (trash - j) - 1)%Z with (Z.of_nat (trash - S j)) by lia.
        destruct (IH (S (p + j)) b (n - S j) (trash - S j) ((a :: r) :: cs)) as (z & Hz & Ez); try done.
        -- cbn [flat_map]. unfold with_star at 1 2. cbn [app]. by rewrite D.
        -- lia.
        -- lia.
        -- cbn [length] in *. lia.
        -- exists z. split; [done|]. rewrite Ez, Ej', window_drop, spread_cons.
           replace (p + S j) with (S (p + j)) by lia. done.
Qed.
End ChunkProofs.

Lemma head_fun_spec (h s rest : list ascii) (k : nat) :
  head_fun h s rest k =
  if pre h s then
    match drop (length h) s with
    | [] => inl (match rest with [] => 0 | [_] => 0 | _ => 1 end)%Z
    | _ :: _ => match rest with [] => inl 1%Z | _ => inr (S (k + length h), S (k + length h)) end
    end
  else inl 1%Z.
Proof.
  revert s k. induction h as [|a h IH]; intros [|c s] k; cbn [head_fun pre length drop]; try done.
  - by rewrite Nat.add_0_r.
  - destruct (cm1 a c); [|done]. cbn [andb]. rewrite IH. by replace (S k + length h) with (k + S (length h)) by lia.
Qed.

Lemma cc_no_nul (l : list ascii) : Forall cc_ok l -> no_nul l.
Proof. intros F H. rewrite Forall_forall in F. destruct (F _ H) as [?|[_ ?]]; done. Qed.

Lemma no_nul_app (l k : list ascii) : no_nul l -> no_nul k -> no_nul (l ++ k).
Proof. intros H1 H2 [H|H]%elem_of_app; auto. Qed.

Lemma no_nul_spread (cs : list (list ascii)) : Forall chunk_ok cs -> no_nul (flat_map with_star cs).
Proof.
  intros F. induction F as [|c cs C F IH]; [by intros ?%elem_of_nil|]. cbn [flat_map with_star].
  intros [?|H]%elem_of_cons; [done|]. revert H. apply no_nul_app; [|done]. by apply cc_no_nul, chunk_cc.
Qed.

(** The case of a mask without stars: the string has the head's length. *)
Lemma exec_plain (before : ascii) (string cm : list ascii) (minlen : nat) : no_nul string -> Forall cc_ok cm ->
  exists z, matchexec before string cm minlen = Ok z /\ (z = 0%Z <-> glob (ctoks cm) string = true).
Proof.
  intros NS F. unfold matchexec.
  rewrite (try_head_spec before string cm NS cm []); [|done|by left|done|lia|lia|by rewrite app_nil_r|lia].
  cbn [obind]. rewrite !drop_0, head_fun_spec. pose proof (glob_pre cm [] string F) as G.
  rewrite app_nil_r in G. rewrite G. destruct (pre cm string); [|by exists 1%Z]. cbn [andb].
  destruct (drop (length cm) string); [by exists 0%Z|by exists 1%Z].
Qed.

Lemma star_any (q : list ascii) : glob [Star] q = true.
Proof. eapply glob_star_intro; [apply suffix_nil|done]. Qed.

(** The case of a starred mask. *)
Lemma exec_starred (before : ascii) (string h t : list ascii) (cs : list (list ascii)) :
  no_nul string -> Forall cc_ok h -> Forall cc_ok t -> Forall chunk_ok cs ->
  exists z, matchexec before string (h ++ with_star (reverse t) ++ flat_map with_star cs)
      (length h + length t + length (concat cs)) = Ok z /\
    (z = 0%Z <-> glob (ctoks h ++ Star :: spread cs ++ ctoks t) string = true).
Proof.
  intros NS Fh Ft Fc. set (cm := h ++ with_star (reverse t) ++ flat_map with_star cs).
  assert (no_nul (reverse t ++ flat_map with_star cs)) as NR.
  { apply no_nul_app; [apply cc_no_nul, Forall_reverse, Ft|by apply no_nul_spread]. }
  assert (length cm = length h + S (length t + length (flat_map with_star cs))) as Lcm.
  { unfold cm, with_star. cbn [app]. rewrite length_app. cbn [length]. by rewrite length_app, length_reverse. }
  unfold matchexec. rewrite (try_head_spec before string cm NS h (with_star (reverse t ++ flat_map with_star cs)));
    [|done|right; eauto|intros r [= <-]; done|lia|lia|done|lia].
  cbn [obind]. rewrite !drop_0, head_fun_spec, glob_starred by done.
  destruct (pre h string) eqn:Ph; [|by exists 1%Z]. apply pre_length in Ph as Lh. cbn [andb].
  destruct (drop (length h) string) as [|c0 s0] eqn:Ds.
  { apply (f_equal length) in Ds. rewrite length_drop in Ds. cbn in Ds. cbn [with_star].
    destruct (reverse t ++ flat_map with_star cs) as [|x q] eqn:E.
    - apply app_eq_nil in E as [Et Ec]. destruct cs; [|done]. assert (t = []) as -> by (by rewrite <- (reverse_involutive t), Et).
      exists 0%Z. split; [done|]. split; [intros _|done]. cbn [length]. rewrite (proj2 (Nat.leb_le _ _)) by lia.
      cbn. apply star_any.
    - exists 1%Z. split; [done|]. split; [done|]. rewrite !andb_true_iff, Nat.leb_le. intros [[L _] G].
      apply glob_tmin in G. cbn [tmin] in G. rewrite tmin_spread in G by done. unfold middle in G.
      rewrite length_take, length_drop in G. destruct t; [|cbn in L; lia].
      destruct cs as [|c cs]; [done|]. inversion_clear Fc as [|? ? Ck _]. destruct c; [done|].
      cbn [concat app length] in G. lia. }
  cbn [with_star]. change (0 + length h) with (length h).
  destruct (Z.ltb_spec (Z.of_nat (length string) - Z.of_nat (length h + length t + length (concat cs))) 0) as [L|L].
  { exists 2%Z. split; [done|]. split; [done|]. rewrite !andb_true_iff, Nat.leb_le. intros [[L1 _] G].
    apply glob_tmin in G. cbn [tmin] in G. rewrite tmin_spread in G by done. unfold middle in G.
    rewrite length_take, length_drop in G. lia. }
  rewrite (proj2 (Nat.leb_le _ _)) by lia. cbn [andb].
  rewrite (try_tail_spec before string cm NS (reverse t) (flat_map with_star cs));
    [|by apply Forall_reverse|apply flat_at_star|lia|rewrite length_reverse; lia|lia| |rewrite length_reverse; lia].
  2: { unfold cm, with_star. replace (S (length h)) with (length h + 1) by lia.
       rewrite <- drop_drop, drop_app_length. done. }
  rewrite (take_ge _ (S _)) by (cbn; lia). rewrite reverse_cons, pre_ext by (rewrite !length_reverse; lia).
  cbn [obind]. destruct (pre (reverse t) (reverse string)); [|by exists 1%Z]. cbn [andb].
  destruct cs as [|c cs].
  { exists 0%Z. split; [done|]. split; [intros _; apply star_any|done]. }
  cbn [flat_map with_star app pred]. rewrite length_reverse.
  replace (Z.of_nat (length string) - Z.of_nat (length h + length t + length (concat (c :: cs))))%Z
    with (Z.of_nat (length string - (length h + length t + length (concat (c :: cs))))) by lia.
  apply (chunks_spec before string cm NS _ (length h) (S (S (length h) + length t))
    (length string - length h - length t)); try done.
  - rewrite Lcm. cbn [flat_map with_star app length]. lia.
  - unfold cm, with_star at 2. replace (S (S (length h) + length t)) with (length h + (S (length t + 1))) by lia.
    rewrite <- drop_drop, drop_app_length. cbn [app drop]. rewrite <- drop_drop.
    rewrite <- (length_reverse t), drop_app_length. done.
  - lia.
  - lia.
  - enough (length (c :: cs) <= length (flat_map with_star (c :: cs))) by lia.
    clear. induction (c :: cs) as [|d ds IH]; [done|]. cbn [flat_map with_star app length]. rewrite length_app. lia.
Qed.

(** C25: a compiled mask decides the mask it was compiled from. For every mask and
    string without NUL bytes, and whatever byte stands in front of the string,
    [matchexec] on the output of [matchcomp] terminates, reads nothing outside the
    compiled mask and the string with its terminator and that one byte, and returns
    0 exactly when the string is in the language of the mask. *)
Theorem matchexec_correct (mask string : list ascii) (before : ascii) : no_nul mask -> no_nul string ->
  let '(cmask, minlen, _) := matchcomp mask in
  exists z, matchexec before string cmask minlen = Ok z /\ (z = 0%Z <-> glob (ctokens mask) string = true).
Proof.
  intros NM NS. pose proof (matchcomp_layout mask NM) as L. destruct (matchcomp mask) as [[cm minlen] cset].
  destruct L as [(F & -> & Eq)|(h & t & cs & -> & Fh & Ft & Fc & -> & Eq)]; rewrite <- (Eq string).
  - by apply exec_plain.
  - by apply exec_starred.
Qed.

Lemma matchexec_correct_witness :
  let '(cmask, minlen, _) := matchcomp (cstr "*!user?@*.Example.org") in
  exists z, matchexec NUL (cstr "nick!user1@host.eXample.ORG") cmask minlen = Ok z /\
    (z = 0%Z <-> glob (ctokens (cstr "*!user?@*.Example.org")) (cstr "nick!user1@host.eXample.ORG") = true).
Proof.
  apply (matchexec_correct (cstr "*!user?@*.Example.org") (cstr "nick!user1@host.eXample.ORG") NUL);
    apply (bool_decide_unpack _); vm_compute; exact I.
Defined.
