(* ===== verification/Packet.v ===== *)
(** * Input lines: [ircd/packet.c]

    [server_dopacket] and [connect_dopacket] collect the bytes of a connection into
    [con_buffer] and hand each line to the parser.  The buffer is a list of
    [READBUFSIZE] bytes, the pointers [endp] and [body] are indices into it, and a
    write outside it is [Oob].  The parsers, and what else they change, are arguments:
    the theorems hold for every one of them. *)

From stdpp Require Import base list strings.
From Stdlib Require Import ZArith Lia Ascii.
From S2P Require Import Prelude Chattr.

Local Open Scope ircu_scope.
Local Open Scope nat_scope.

Definition BUFSIZE : nat := 512.
Definition TAGSLEN : nat := Z.to_nat 8191.
Definition TAGDATA_CLIENT_MAX : nat := Z.to_nat 4094.
Definition READBUFSIZE : nat := TAGSLEN + BUFSIZE.

Section Dopacket.
(** The rest of the daemon's state, the parsers (the flag is [CPTR_KILLED]), what
    parsing a line leaves in the buffer, the client's flags and [exit_client]. *)
Context {W : Type}.
Context (parse_server parse_client : W -> list ascii -> W * bool).
Context (scribble : W -> list ascii -> list ascii).
Context (IsDead IsServer : W -> bool) (exit_client : W -> W).

(** [struct Connection], as far as it is used here, and the counters of [me]. *)
Record link : Type := Link {
  world : W;
  con_buffer : list ascii;
  con_count : nat;
  con_receiveB : Z;
  con_receiveM : Z;
  me_receiveB : Z;
  me_receiveM : Z
}.

Definition update_bytes_received (l : link) (length : nat) : link :=
  Link (world l) (con_buffer l) (con_count l) ((con_receiveB l + Z.of_nat length) mod 2 ^ 64)%Z (con_receiveM l)
    ((me_receiveB l + Z.of_nat length) mod 2 ^ 64)%Z (me_receiveM l).

Definition update_messages_received (l : link) : link :=
  Link (world l) (con_buffer l) (con_count l) (con_receiveB l) (u32 (con_receiveM l + 1))
    (me_receiveB l) (u32 (me_receiveM l + 1)).

Definition set_buffer (l : link) (b : list ascii) : link :=
  Link (world l) b (con_count l) (con_receiveB l) (con_receiveM l) (me_receiveB l) (me_receiveM l).
Definition set_count (l : link) (n : nat) : link :=
  Link (world l) (con_buffer l) n (con_receiveB l) (con_receiveM l) (me_receiveB l) (me_receiveM l).
Definition set_world (l : link) (w : W) : link :=
  Link w (con_buffer l) (con_count l) (con_receiveB l) (con_receiveM l) (me_receiveB l) (me_receiveM l).

(** [*endp = c] *)
Definition put (buf : list ascii) (endp : nat) (c : ascii) : outcome (list ascii) :=
  if endp <? length buf then Ok (<[endp := c]> buf) else Oob.

(** Restoring [body] of a partial tagged line: behind its first space. *)
Fixpoint first_space (p : list ascii) (i : nat) : option nat :=
  match p with
  | [] => None
  | c :: p => if c =c " " then Some (S i) else first_space p (S i)
  end.

Definition restore_body (l : link) : option nat :=
  if (0 <? con_count l) && (nth 0 (con_buffer l) NUL =c "@")
  then first_space (take (con_count l) (con_buffer l)) 0 else None.

(** [can_advance] and the new [body]; [t_space] and [t_char] bound the index of the
    separating space and of the other characters of the tag section. *)
Definition advance (t_space t_char : nat) (buf : list ascii) (endp : nat) (body : option nat) (c : ascii) :
    bool * option nat :=
  if negb (nth 0 buf NUL =c "@") then (endp <? BUFSIZE, body)
  else
    match body with
    | None =>
        if c =c " " then if endp <? t_space then (true, Some (S endp)) else (false, None)
        else (endp <? t_char, None)
    | Some b => (endp <? b + BUFSIZE, body)
    end.

(** How the byte loop ends: all read, [CPTR_KILLED], [exit_client], or the rest of the
    packet is for [server_dopacket]. *)
Inductive ended : Type :=
| More (l : link)
| Killed (l : link)
| Exited (l : link)
| Handover (l : link) (src : list ascii).

Fixpoint byte_loop (t_space t_char : nat) (parse : W -> list ascii -> W * bool) (handover : W -> bool)
    (l : link) (endp : nat) (body : option nat) (src : list ascii) : outcome ended :=
  match src with
  | [] => Ok (More (set_count l endp))
  | c :: src =>
      let* buf := put (con_buffer l) endp c in
      let l := set_buffer l buf in
      if IsEol c then
        match endp with
        | O => byte_loop t_space t_char parse handover l endp body src
        | _ =>
            let* buf := put buf endp NUL in
            let l := update_messages_received (set_buffer l buf) in
            let '(w, killed) := parse (world l) (take endp buf) in
            let l := set_buffer (set_world l w) (scribble w buf) in
            if killed then Ok (Killed l)
            else if IsDead w then Ok (Exited (set_world l (exit_client w)))
            else if handover w then Ok (Handover (set_count l 0) src)
            else byte_loop t_space t_char parse handover l 0 None src
        end
      else
        let '(can_advance, body) := advance t_space t_char buf endp body c in
        byte_loop t_space t_char parse handover l (if can_advance then S endp else endp) body src
  end.

Definition server_dopacket (l : link) (src : list ascii) : outcome ended :=
  let l := update_bytes_received l (length src) in
  byte_loop TAGSLEN TAGSLEN parse_server (fun _ => false) l (con_count l) (restore_body l) src.

Definition connect_dopacket (l : link) (src : list ascii) : outcome ended :=
  let l := update_bytes_received l (length src) in
  let* r := byte_loop (1 + TAGDATA_CLIENT_MAX + 1) (1 + TAGDATA_CLIENT_MAX) parse_client IsServer
              l (con_count l) (restore_body l) src in
  match r with
  | Handover l src => server_dopacket l src
  | _ => Ok r
  end.

(** The choice of [read_packet] for connections that do not use the receive queue. *)
Definition dopacket (l : link) (src : list ascii) : outcome ended :=
  if IsServer (world l) then server_dopacket l src else connect_dopacket l src.

(** Packet after packet, until the connection is gone. *)
Fixpoint dopackets (l : link) (ps : list (list ascii)) : outcome ended :=
  match ps with
  | [] => Ok (More l)
  | p :: ps =>
      let* r := dopacket l p in
      match r with
      | More l => dopackets l ps
      | _ => Ok r
      end
  end.
End Dopacket.

Arguments link W : clear implicits.
Arguments ended W : clear implicits.
Arguments Link {W}.
Arguments world {W}.
Arguments con_buffer {W}.
Arguments con_count {W}.
Arguments More {W}.
Arguments Killed {W}.
Arguments Exited {W}.
Arguments Handover {W}.

(** ** What a line is *)

(** The characters before and behind the first space. *)
Fixpoint break_space (s : list ascii) : list ascii * option (list ascii) :=
  match s with
  | [] => ([], None)
  | c :: s => if c =c " " then ([], Some s) else let '(t, b) := break_space s in (c :: t, b)
  end.

(** The part of a line that is kept: [BUFSIZE] bytes of it; of a tagged line [t_char]
    bytes of the tag section, the space if it comes early enough, and [BUFSIZE] bytes
    of the body. *)
Definition shorten (t_space t_char : nat) (s : list ascii) : list ascii :=
  match s with
  | [] => []
  | c :: _ =>
      if c =c "@" then
        let '(tags, body) := break_space s in
        let tags := take t_char tags in
        match body with
        | Some body => if length tags <? t_space then tags ++ " "%char :: take BUFSIZE body else tags
        | None => tags
        end
      else take BUFSIZE s
  end.

(** Complete lines and the unfinished one. *)
Fixpoint segments (cur src : list ascii) : list (list ascii) * list ascii :=
  match src with
  | [] => ([], cur)
  | c :: src =>
      if IsEol c then let '(ss, r) := segments [] src in (cur :: ss, r)
      else segments (cur ++ [c]) src
  end.

(** The same, one character at a time. *)
Definition body_of (line : list ascii) : option nat :=
  match line with
  | [] => None
  | a :: _ => if a =c "@" then first_space line 0 else None
  end.

Definition fits (t_space t_char : nat) (line : list ascii) (c : ascii) : bool :=
  match line with
  | [] => true
  | a :: _ =>
      if a =c "@" then
        match first_space line 0 with
        | None => if c =c " " then length line <? t_space else length line <? t_char
        | Some b => length line <? b + BUFSIZE
        end
      else length line <? BUFSIZE
  end.

Definition step_line (t_space t_char : nat) (line : list ascii) (c : ascii) : list ascii :=
  if fits t_space t_char line c then line ++ [c] else line.

Definition trunc (t_space t_char : nat) (s : list ascii) : list ascii :=
  fold_left (step_line t_space t_char) s [].

Lemma first_space_app (l : list ascii) (c : ascii) (i : nat) :
  first_space (l ++ [c]) i =
  match first_space l i with Some b => Some b | None => if c =c " " then Some (S (i + length l)) else None end.
Proof.
  revert i. induction l as [|a l IH]; intros i; cbn [app first_space length].
  - by rewrite Nat.add_0_r.
  - destruct (a =c " "); [done|]. rewrite IH. by rewrite Nat.add_succ_r.
Qed.

Lemma first_space_none (l : list ascii) (i : nat) : " "%char ∉ l -> first_space l i = None.
Proof.
  revert i. induction l as [|a l IH]; intros i N; cbn [first_space]; [done|].
  apply not_elem_of_cons in N as [Na N]. rewrite (proj2 (Ascii.eqb_neq _ _)) by congruence. by apply IH.
Qed.

Lemma break_space_spec (s : list ascii) :
  let '(t, b) := break_space s in
  (" "%char ∉ t) /\ match b with Some b => s = t ++ " "%char :: b | None => s = t end.
Proof.
  induction s as [|c s IH]; cbn [break_space]; [split; [by apply not_elem_of_nil|done]|].
  destruct (Ascii.eqb_spec c " ") as [->|N]; [split; [by apply not_elem_of_nil|done]|].
  destruct (break_space s) as [t b]. destruct IH as [N' E]. split.
  - apply not_elem_of_cons. split; [congruence|done].
  - destruct b; cbn; by rewrite <- E.
Qed.

Section Limits.
Context (t_space t_char : nat).
Hypothesis t_char_pos : 0 < t_char.
Hypothesis t_space_ge : t_char <= t_space.

Abbreviation step := (step_line t_space t_char).

(** Within one section whose characters are bounded by index [n]. *)
Lemma fold_section (P : list ascii -> Prop) (ok : ascii -> Prop) (n : nat) :
  (forall line c, P line -> ok c -> step line c = (if length line <? n then line ++ [c] else line)) ->
  (forall line c, P line -> ok c -> P (line ++ [c])) ->
  forall cs line, P line -> Forall ok cs -> length line <= n ->
  fold_left step cs line = take n (line ++ cs).
Proof.
  intros Hs Hp. induction cs as [|c cs IH]; intros line Pl F L; cbn [fold_left].
  - rewrite app_nil_r, take_ge; [done|lia].
  - inversion_clear F as [|? ? O F']. rewrite Hs by done. destruct (Nat.ltb_spec (length line) n) as [H|H].
    + rewrite IH; [by rewrite <- app_assoc|auto|done|rewrite length_app; cbn; lia].
    + rewrite IH by done. rewrite !take_app_le by lia. done.
Qed.

Lemma trunc_plain (a : ascii) (cs : list ascii) : a <> "@"%char -> trunc t_space t_char (a :: cs) = take BUFSIZE (a :: cs).
Proof.
  intros N. unfold trunc. cbn [fold_left]. change (step [] a) with [a].
  apply (fold_section (fun line => exists r, line = a :: r) (fun _ => True) BUFSIZE).
  - intros line c [r ->] _. unfold step_line, fits. by rewrite (proj2 (Ascii.eqb_neq _ _) N).
  - intros line c [r ->] _. by exists (r ++ [c]).
  - by exists [].
  - by apply Forall_true.
  - cbn. unfold BUFSIZE. lia.
Qed.

Definition tagged (line : list ascii) : Prop := exists r, line = "@"%char :: r.

Lemma trunc_tags (cs : list ascii) : " "%char ∉ cs ->
  trunc t_space t_char ("@"%char :: cs) = take t_char ("@"%char :: cs).
Proof.
  intros N. unfold trunc. cbn [fold_left]. change (step [] "@"%char) with ["@"%char].
  apply (fold_section (fun line => tagged line /\ " "%char ∉ line) (fun c => c <> " "%char) t_char).
  - intros line c [[r ->] NS] Nc. unfold step_line, fits. cbn [Ascii.eqb Bool.eqb].
    rewrite first_space_none by done. by rewrite (proj2 (Ascii.eqb_neq _ _) Nc).
  - intros line c [[r ->] NS] Nc. split; [by exists (r ++ [c])|]. apply not_elem_of_app. split; [done|].
    rewrite list_elem_of_singleton. congruence.
  - split; [by exists []|]. rewrite list_elem_of_singleton. done.
  - apply Forall_forall. intros x Hx ->. done.
  - cbn. lia.
Qed.

Lemma fold_full (cs line : list ascii) : tagged line -> " "%char ∉ line -> t_char <= length line -> t_space <= length line ->
  fold_left step cs line = line.
Proof.
  intros [r ->] NS L1 L2. induction cs as [|c cs IH]; cbn [fold_left]; [done|].
  replace (step ("@"%char :: r) c) with ("@"%char :: r); [done|]. unfold step_line, fits. cbn [Ascii.eqb Bool.eqb].
  rewrite first_space_none by done. rewrite !(proj2 (Nat.ltb_ge _ _)) by done. by destruct (c =c " ").
Qed.

Lemma fold_body (cs line : list ascii) (b : nat) : tagged line -> first_space line 0 = Some b -> length line = b ->
  fold_left step cs line = line ++ take BUFSIZE cs.
Proof.
  intros T Fs L. rewrite (fold_section (fun l => tagged l /\ first_space l 0 = Some b) (fun _ => True) (b + BUFSIZE)).
  - rewrite take_app_ge by lia. do 2 f_equal. lia.
  - intros l c [[r ->] Fl] _. unfold step_line, fits. cbn [Ascii.eqb Bool.eqb]. by rewrite Fl.
  - intros l c [[r ->] Fl] _. split; [by exists (r ++ [c])|]. by rewrite first_space_app, Fl.
  - done.
  - by apply Forall_true.
  - lia.
Qed.

(** The loop keeps exactly what [shorten] says. *)
Lemma trunc_shorten (s : list ascii) : trunc t_space t_char s = shorten t_space t_char s.
Proof.
  destruct s as [|a cs]; [done|]. unfold shorten.
  destruct (Ascii.eqb_spec a "@") as [->|N]; [|by apply trunc_plain].
  pose proof (break_space_spec ("@"%char :: cs)) as B. destruct (break_space ("@"%char :: cs)) as [t b].
  destruct B as [NS E]. destruct t as [|a t]; [by destruct b|].
  assert (a = "@"%char /\ cs = t ++ match b with Some b => " "%char :: b | None => [] end) as [-> ->].
  { destruct b; cbn in E; injection E as E1 E2; by rewrite ?app_nil_r. }
  apply not_elem_of_cons in NS as NS'. destruct NS' as [_ NS'].
  destruct b as [b|]; [|rewrite app_nil_r; by apply trunc_tags].
  change ("@"%char :: t ++ " "%char :: b) with (("@"%char :: t) ++ [" "%char] ++ b).
  unfold trunc. rewrite !fold_left_app. fold (trunc t_space t_char ("@"%char :: t)). rewrite trunc_tags by done.
  set (l := take t_char ("@"%char :: t)).
  assert (tagged l) as T by (destruct t_char; [lia|]; by eexists).
  assert (" "%char ∉ l) as Nl by (intros H; apply NS; by apply (subseteq_take t_char)).
  cbn [fold_left]. destruct T as [r Er]. unfold step_line at 2, fits. rewrite Er. cbn [Ascii.eqb Bool.eqb]. rewrite <- Er.
  rewrite first_space_none by done.
  destruct (Nat.ltb_spec (length l) t_space) as [H|H].
  - rewrite (fold_body _ _ (S (length l))); [by rewrite <- app_assoc|..].
    + exists (r ++ [" "%char]). by rewrite Er.
    + rewrite first_space_app, first_space_none by done. done.
    + rewrite length_app. cbn. lia.
  - apply fold_full; [by exists r|done|lia|done].
Qed.
End Limits.

(** ** The buffer against the line it holds *)
Lemma tags_pos : 0 < TAGSLEN /\ 0 < 1 + TAGDATA_CLIENT_MAX.
Proof. unfold TAGSLEN. lia. Qed.

Section Refinement.
Context {W : Type}.
Context (parse_server parse_client : W -> list ascii -> W * bool).
Context (scribble : W -> list ascii -> list ascii).
Context (IsDead IsServer : W -> bool) (exit_client : W -> W).
Hypothesis scribble_length : forall w b, length (scribble w b) = length b.

(** The abstract connection: the world and the line read so far. *)
Inductive aended : Type :=
| AMore (w : W) (line : list ascii)
| AKilled (w : W)
| AExited (w : W)
| AHandover (w : W) (src : list ascii).

Fixpoint gfeed (t_space t_char : nat) (parse : W -> list ascii -> W * bool) (handover : W -> bool)
    (w : W) (line src : list ascii) : outcome aended :=
  match src with
  | [] => Ok (AMore w line)
  | c :: src =>
      if length line <? READBUFSIZE then
        if IsEol c then
          match line with
          | [] => gfeed t_space t_char parse handover w line src
          | _ =>
              let '(w, killed) := parse w line in
              if killed then Ok (AKilled w)
              else if IsDead w then Ok (AExited (exit_client w))
              else if handover w then Ok (AHandover w src)
              else gfeed t_space t_char parse handover w [] src
          end
        else gfeed t_space t_char parse handover w (step_line t_space t_char line c) src
      else Oob
  end.

Definition holds (l : link W) (endp : nat) (line : list ascii) : Prop :=
  length (con_buffer l) = READBUFSIZE /\ length line = endp /\ take endp (con_buffer l) = line.

Definition sim (r : ended W) (a : aended) : Prop :=
  match r, a with
  | More l, AMore w line => world l = w /\ holds l (con_count l) line
  | Killed l, AKilled w => world l = w
  | Exited l, AExited w => world l = w
  | Handover l src, AHandover w src' => world l = w /\ src = src' /\ holds l (con_count l) []
  | _, _ => False
  end.

Definition osim (r : outcome (ended W)) (a : outcome aended) : Prop :=
  match r, a with
  | Ok r, Ok a => sim r a
  | Oob, Oob => True
  | _, _ => False
  end.

Lemma put_line (buf line : list ascii) (endp : nat) (c : ascii) : endp < length buf -> length line = endp ->
  take endp buf = line ->
  put buf endp c = Ok (<[endp := c]> buf) /\ take endp (<[endp := c]> buf) = line /\
  take (S endp) (<[endp := c]> buf) = line ++ [c] /\ nth 0 (<[endp := c]> buf) NUL = nth 0 (line ++ [c]) NUL.
Proof.
  intros L E T. unfold put. rewrite (proj2 (Nat.ltb_lt _ _)) by lia.
  assert (take (S endp) (<[endp := c]> buf) = line ++ [c]) as S2.
  { rewrite (take_S_r _ _ c) by (by apply list_lookup_insert_eq). by rewrite take_insert_ge, T by lia. }
  repeat split; [by rewrite take_insert_ge by lia|done|].
  rewrite <- S2. destruct (<[endp:=c]> buf); done.
Qed.

Lemma advance_line (t_space t_char : nat) (buf line : list ascii) (c : ascii) : 0 < t_char ->
  nth 0 buf NUL = nth 0 (line ++ [c]) NUL ->
  advance t_space t_char buf (length line) (body_of line) c =
  (fits t_space t_char line c, body_of (step_line t_space t_char line c)).
Proof.
  intros T N. unfold advance. rewrite N. destruct line as [|a r]; cbn [app nth].
  - unfold step_line. cbn [fits app length body_of]. destruct (Ascii.eqb_spec c "@") as [->|Nc]; [|done].
    rewrite (proj2 (Nat.ltb_lt 0 t_char) T). done.
  - unfold step_line, fits. cbn [body_of]. destruct (a =c "@") eqn:Ea; cbn [negb].
    + destruct (first_space (a :: r) 0) as [b|] eqn:Fs.
      * destruct (length (a :: r) <? b + BUFSIZE); cbn [body_of app]; rewrite ?Ea, ?Fs; [|done].
        change (a :: r ++ [c]) with ((a :: r) ++ [c]). by rewrite first_space_app, Fs.
      * destruct (c =c " ") eqn:Ec.
        -- destruct (length (a :: r) <? t_space); cbn [body_of app]; rewrite ?Ea, ?Fs; [|done].
           change (a :: r ++ [c]) with ((a :: r) ++ [c]). by rewrite first_space_app, Fs, Ec.
        -- destruct (length (a :: r) <? t_char); cbn [body_of app]; rewrite ?Ea, ?Fs; [|done].
           change (a :: r ++ [c]) with ((a :: r) ++ [c]). by rewrite first_space_app, Fs, Ec.
    + destruct (length (a :: r) <? BUFSIZE); cbn [body_of app]; by rewrite Ea.
Qed.

Lemma byte_loop_sim (t_space t_char : nat) (parse : W -> list ascii -> W * bool) (handover : W -> bool) :
  0 < t_char -> forall src l endp line, holds l endp line ->
  osim (byte_loop scribble IsDead exit_client t_space t_char parse handover l endp (body_of line) src)
       (gfeed t_space t_char parse handover (world l) line src).
Proof.
  intros T. induction src as [|c src IH]; intros l endp line (HL & HE & HT); cbn [byte_loop gfeed].
  - done.
  - rewrite HE. destruct (Nat.ltb_spec endp READBUFSIZE) as [L|L].
    2: { unfold put. rewrite (proj2 (Nat.ltb_ge _ _)) by lia. done. }
    destruct (put_line (con_buffer l) line endp c ltac:(lia) HE HT) as (-> & T1 & T2 & N). cbn [obind].
    set (buf := <[endp:=c]> (con_buffer l)) in *.
    assert (length buf = READBUFSIZE) as HB by (unfold buf; by rewrite length_insert).
    destruct (IsEol c) eqn:Ec.
    + destruct line as [|a r]; [cbn in HE; subst endp|destruct endp as [|e]; [done|]].
      * apply (IH (set_buffer l buf) 0 []). done.
      * destruct (put_line buf (a :: r) (S e) NUL ltac:(lia) HE T1) as (-> & T3 & _ & _). cbn [obind].
        cbn [update_messages_received set_buffer world]. rewrite T3.
        destruct (parse (world l) (a :: r)) as [w k]. destruct k; [done|].
        cbn [set_world set_buffer world]. destruct (IsDead w); [done|].
        assert (forall n, n = 0 -> holds (set_count (set_buffer (set_world (update_messages_received
          (set_buffer (set_buffer l buf) (<[S e:=NUL]> buf))) w) (scribble w (<[S e:=NUL]> buf))) n) n []) as H0.
        { intros n ->. split; [|done]. cbn. rewrite scribble_length, length_insert. lia. }
        destruct (handover w); [by repeat split; try apply (H0 0)|].
        refine (IH (set_buffer (set_world _ w) _) 0 [] _). exact (H0 0 eq_refl).
    + rewrite <- HE, advance_line by (done || by rewrite N). rewrite HE.
      apply (IH (set_buffer l buf)). unfold step_line.
      destruct (fits t_space t_char line c); [|done].
      split; [done|]. split; [rewrite length_app; cbn; lia|done].
Qed.

Hypothesis server_stays : forall w line w', IsServer w = true -> parse_server w line = (w', false) ->
  IsDead w' = false -> IsServer w' = true.

Abbreviation dopacket := (dopacket parse_server parse_client scribble IsDead IsServer exit_client).
Abbreviation dopackets := (dopackets parse_server parse_client scribble IsDead IsServer exit_client).

(** The part of a line that is kept and its parser, by the kind of the connection. *)
Definition keep (w : W) (s : list ascii) : list ascii :=
  if IsServer w then shorten TAGSLEN TAGSLEN s
  else shorten (1 + TAGDATA_CLIENT_MAX + 1) (1 + TAGDATA_CLIENT_MAX) s.
Definition handle (w : W) (line : list ascii) : W * bool :=
  if IsServer w then parse_server w line else parse_client w line.

Definition mstep (w : W) : list ascii -> ascii -> list ascii :=
  if IsServer w then step_line TAGSLEN TAGSLEN
  else step_line (1 + TAGDATA_CLIENT_MAX + 1) (1 + TAGDATA_CLIENT_MAX).

Fixpoint feed (w : W) (line src : list ascii) : outcome aended :=
  match src with
  | [] => Ok (AMore w line)
  | c :: src =>
      if length line <? READBUFSIZE then
        if IsEol c then
          match line with
          | [] => feed w line src
          | _ =>
              let '(w, killed) := handle w line in
              if killed then Ok (AKilled w)
              else if IsDead w then Ok (AExited (exit_client w))
              else feed w [] src
          end
        else feed w (mstep w line c) src
      else Oob
  end.

Lemma feed_server (src : list ascii) : forall w line, IsServer w = true ->
  gfeed TAGSLEN TAGSLEN parse_server (fun _ => false) w line src = feed w line src.
Proof.
  induction src as [|c src IH]; intros w line S; cbn [gfeed feed]; [done|].
  destruct (length line <? READBUFSIZE); [|done]. unfold mstep, handle. rewrite S.
  destruct (IsEol c); [|by apply IH]. destruct line; [by apply IH|].
  destruct (parse_server w (a :: line)) as [w' []] eqn:P; [done|]. destruct (IsDead w') eqn:D; [done|].
  apply IH. by eapply server_stays.
Qed.

Lemma feed_connect (src : list ascii) : forall w line, IsServer w = false ->
  match gfeed (1 + TAGDATA_CLIENT_MAX + 1) (1 + TAGDATA_CLIENT_MAX) parse_client IsServer w line src with
  | Ok (AHandover w' src') => IsServer w' = true /\ feed w line src = feed w' [] src'
  | r => feed w line src = r
  end.
Proof.
  induction src as [|c src IH]; intros w line S; cbn [gfeed feed]; [done|].
  destruct (length line <? READBUFSIZE); [|done]. unfold mstep, handle. rewrite S.
  destruct (IsEol c); [|by apply IH]. destruct line; [by apply IH|].
  destruct (parse_client w (a :: line)) as [w' []] eqn:P; [done|]. destruct (IsDead w') eqn:D; [done|].
  destruct (IsServer w') eqn:S'; [done|]. by apply IH.
Qed.

Lemma restore_holds (l : link W) (line : list ascii) : holds l (con_count l) line -> restore_body l = body_of line.
Proof.
  intros (L & E & T). unfold restore_body. rewrite T. destruct line as [|a r].
  - by rewrite <- E.
  - rewrite <- E. cbn [length Nat.ltb Nat.leb andb]. rewrite <- E in T. destruct (con_buffer l); [done|].
    cbn in T. by injection T as -> _.
Qed.

Lemma server_dopacket_sim (l : link W) (line src : list ascii) : holds l (con_count l) line ->
  IsServer (world l) = true ->
  osim (server_dopacket parse_server scribble IsDead exit_client l src) (feed (world l) line src).
Proof.
  intros H S. unfold server_dopacket. set (l' := update_bytes_received l (length src)).
  rewrite (restore_holds l' line), <- feed_server by done. 
  exact (byte_loop_sim TAGSLEN TAGSLEN parse_server _ (proj1 tags_pos) src l' (con_count l') line H).
Qed.

(** One packet is read the same way whatever came before it. *)
Lemma dopacket_sim (l : link W) (line src : list ascii) : holds l (con_count l) line ->
  osim (dopacket l src) (feed (world l) line src).
Proof.
  intros H. unfold Packet.dopacket. destruct (IsServer (world l)) eqn:S; [by apply server_dopacket_sim|].
  unfold connect_dopacket. set (l' := update_bytes_received l (length src)).
  rewrite (restore_holds l' line) by done.
  pose proof (byte_loop_sim (1 + TAGDATA_CLIENT_MAX + 1) (1 + TAGDATA_CLIENT_MAX) parse_client IsServer
    ltac:(lia) src l' (con_count l') line H) as B.
  pose proof (feed_connect src (world l) line S) as C. change (world l') with (world l) in B.
  destruct (gfeed _ _ _ _ (world l) line src) as [a| |];
    destruct (byte_loop _ _ _ _ _ _ _ l' _ _ src) as [r| |]; try done.
  2: by rewrite C.
  destruct r as [l2|l2|l2|l2 src2], a as [w2 line2|w2|w2|w2 src3]; cbn in B; try done; rewrite ?C; try done.
  cbn [obind]. destruct B as (<- & <- & H2). destruct C as [S2 ->]. by apply server_dopacket_sim.
Qed.

Lemma feed_app (p1 p2 : list ascii) : forall w line,
  feed w line (p1 ++ p2) =
  let* r := feed w line p1 in match r with AMore w line => feed w line p2 | _ => Ok r end.
Proof.
  induction p1 as [|c p1 IH]; intros w line; cbn [app feed]; [done|].
  destruct (length line <? READBUFSIZE); [|done]. destruct (IsEol c); [|by apply IH].
  destruct line; [by apply IH|]. destruct (handle w (a :: line)) as [w' []]; [done|].
  destruct (IsDead w'); [done|by apply IH].
Qed.

Lemma feed_no_handover (src : list ascii) : forall w line w' src', feed w line src <> Ok (AHandover w' src').
Proof.
  induction src as [|c src IH]; intros w line w' src'; cbn [feed]; [done|].
  destruct (length line <? READBUFSIZE); [|done]. destruct (IsEol c); [|by apply IH].
  destruct line; [by apply IH|]. destruct (handle w (a :: line)) as [w2 []]; [done|].
  destruct (IsDead w2); [done|by apply IH].
Qed.

Lemma dopackets_sim (ps : list (list ascii)) : forall l line, holds l (con_count l) line ->
  osim (dopackets l ps) (feed (world l) line (concat ps)).
Proof.
  induction ps as [|p ps IH]; intros l line H; cbn [Packet.dopackets concat feed]; [done|].
  rewrite feed_app. pose proof (dopacket_sim l line p H) as D.
  pose proof (feed_no_handover p (world l) line) as NH.
  destruct (feed (world l) line p) as [a| |], (dopacket l p) as [r| |]; try done.
  destruct r, a; cbn in D; try done. destruct D as [<- H2]. by apply IH.
Qed.

(** ** Lines of a stream *)
Inductive fate : Type := Open (w : W) | Dropped (w : W) | Left (w : W).

(** The lines one after the other, empty ones ignored. *)
Fixpoint run (w : W) (ss : list (list ascii)) : fate :=
  match ss with
  | [] => Open w
  | [] :: ss => run w ss
  | s :: ss =>
      let '(w', killed) := handle w (keep w s) in
      if killed then Dropped w'
      else if IsDead w' then Left (exit_client w')
      else run w' ss
  end.

Definition safe (s : list ascii) : Prop := length (shorten TAGSLEN TAGSLEN s) < READBUFSIZE.

Lemma mstep_keep (w : W) (s : list ascii) (c : ascii) : mstep w (keep w s) c = keep w (s ++ [c]).
Proof.
  destruct tags_pos. unfold mstep, keep. destruct (IsServer w);
    rewrite <- !trunc_shorten by lia; unfold trunc; by rewrite fold_left_app.
Qed.

Lemma shorten_bound (t_space t_char : nat) (s : list ascii) : length (shorten t_space t_char s) <= t_char + 1 + BUFSIZE.
Proof.
  unfold shorten. destruct s as [|c s]; [cbn; lia|]. destruct (c =c "@"); [|rewrite length_take; lia].
  destruct (break_space (c :: s)) as [t [b|]]; [destruct (_ <? _)|]; rewrite ?length_app; cbn [length];
    rewrite ?length_take; lia.
Qed.

Lemma keep_mono (w : W) (s x : list ascii) : length (keep w s) <= length (keep w (s ++ x)).
Proof.
  revert s. induction x as [|c x IH]; intros s; [by rewrite app_nil_r|].
  replace (s ++ c :: x) with ((s ++ [c]) ++ x) by (by rewrite <- app_assoc).
  etransitivity; [|apply IH].
  rewrite <- mstep_keep. unfold mstep, step_line. destruct (IsServer w); case_if; rewrite ?length_app; lia.
Qed.

Lemma keep_fits (w : W) (s x : list ascii) : safe (s ++ x) -> length (keep w s) < READBUFSIZE.
Proof.
  intros H. pose proof (keep_mono w s x) as M. unfold safe in H. unfold keep in *. destruct (IsServer w); [lia|].
  pose proof (shorten_bound (1 + TAGDATA_CLIENT_MAX + 1) (1 + TAGDATA_CLIENT_MAX) s) as B.
  unfold READBUFSIZE, TAGSLEN, TAGDATA_CLIENT_MAX, BUFSIZE in *. lia.
Qed.

Lemma segments_cur (src : list ascii) : forall cur, Forall safe ((segments cur src).2 :: (segments cur src).1) ->
  exists x, safe (cur ++ x).
Proof.
  induction src as [|c src IH]; intros cur F; cbn [segments] in F.
  - inversion_clear F. exists []. by rewrite app_nil_r.
  - destruct (IsEol c).
    + destruct (segments [] src) as [ss r]. cbn in F. inversion_clear F as [|? ? _ F']. inversion_clear F'.
      exists []. by rewrite app_nil_r.
    + apply IH in F as [x Hx]. exists (c :: x). by rewrite <- app_assoc in Hx.
Qed.

Lemma keep_nil (w : W) (s : list ascii) : keep w s = [] <-> s = [].
Proof.
  split; [|intros ->; unfold keep; by destruct (IsServer w)]. destruct s as [|c s]; [done|].
  intros H. exfalso. pose proof (keep_mono w [c] s) as M. cbn [app] in M. rewrite H in M.
  revert M. unfold keep. destruct tags_pos. destruct (IsServer w); rewrite <- trunc_shorten by lia; cbn; lia.
Qed.

Lemma feed_segments (src : list ascii) : forall w cur,
  Forall safe ((segments cur src).2 :: (segments cur src).1) ->
  feed w (keep w cur) src =
  Ok (match run w (segments cur src).1 with
      | Open w' => AMore w' (keep w' (segments cur src).2)
      | Dropped w' => AKilled w'
      | Left w' => AExited w'
      end).
Proof.
  induction src as [|c src IH]; intros w cur F; [done|].
  destruct (segments_cur (c :: src) cur F) as [x Hx]. pose proof (keep_fits w cur x Hx) as L.
  cbn [feed segments] in *. rewrite (proj2 (Nat.ltb_lt _ _) L). destruct (IsEol c).
  - specialize (fun w' => IH w' []). destruct (segments [] src) as [ss r] eqn:Es. cbn [fst snd] in *.
    inversion_clear F as [|? ? Fr F']. inversion_clear F' as [|? ? Fc Fs].
    assert (forall w', keep w' [] = []) as K0 by (intros w'; by apply keep_nil).
    destruct cur as [|a cur].
    + rewrite K0. cbn [run]. rewrite <- (K0 w). apply IH. by constructor.
    + destruct (keep w (a :: cur)) as [|k ks] eqn:Ek; [by apply keep_nil in Ek|]. cbn [run]. rewrite Ek.
      destruct (handle w (k :: ks)) as [w' []]; [done|]. destruct (IsDead w'); [done|].
      rewrite <- (K0 w'). apply IH. by constructor.
  - rewrite mstep_keep. by apply IH.
Qed.

(** C26: however the bytes of a connection are cut into packets, the lines its parser
    gets are those of the byte stream: split at CR and LF, empty ones skipped, and
    each shortened to [BUFSIZE] bytes plus the tag section the kind of connection is
    allowed.  A connection that becomes a server is read as one from the next line
    on.  When the parser kills the client, or its socket is dead, nothing behind that
    line is parsed; otherwise the buffer holds the shortened unfinished line.  All this
    holds, and no byte is written outside the buffer, for streams in which no line fills the
    buffer ([safe]: a tag section of [TAGSLEN] bytes and [BUFSIZE] bytes behind it do); such
    a line from a server is the overflow of [server_line_overflow]. *)
Theorem dopackets_lines (l : link W) (ps : list (list ascii)) :
  length (con_buffer l) = READBUFSIZE -> con_count l = 0 ->
  Forall safe ((segments [] (concat ps)).2 :: (segments [] (concat ps)).1) ->
  exists r, dopackets l ps = Ok r /\
    match run (world l) (segments [] (concat ps)).1 with
    | Open w => exists l', r = More l' /\ world l' = w /\ length (con_buffer l') = READBUFSIZE /\
        take (con_count l') (con_buffer l') = keep w (segments [] (concat ps)).2
    | Dropped w => exists l', r = Killed l' /\ world l' = w
    | Left w => exists l', r = Exited l' /\ world l' = w
    end.
Proof.
  intros L C F. assert (holds l (con_count l) []) as H by (split; [done|]; by rewrite C).
  pose proof (dopackets_sim ps l [] H) as D. rewrite <- (proj2 (keep_nil (world l) []) eq_refl) in D at 1.
  rewrite feed_segments in D by done. destruct (dopackets l ps) as [r| |]; [|done|done]. exists r. split; [done|].
  destruct (run _ _) as [w|w|w], r as [l'|l'|l'|l' src]; cbn in D; try done; [|by eauto|by eauto].
  destruct D as (D1 & D2 & _ & D3). eauto.
Qed.

Lemma feed_open (src : list ascii) : forall w cur, Forall (fun c => IsEol c = false) src ->
  feed w (keep w cur) src = Oob \/ feed w (keep w cur) src = Ok (AMore w (keep w (cur ++ src))).
Proof.
  induction src as [|c src IH]; intros w cur F; cbn [feed]; [right; by rewrite app_nil_r|].
  inversion_clear F as [|? ? Fc Fs]. destruct (_ <? _); [|by left]. rewrite Fc, mstep_keep.
  destruct (IH w (cur ++ [c]) Fs) as [->| ->]; [by left|right]. by rewrite <- app_assoc.
Qed.

Lemma shorten_full (tags body : list ascii) : " "%char ∉ tags -> length tags + 2 = TAGSLEN -> length body = BUFSIZE ->
  shorten TAGSLEN TAGSLEN ("@"%char :: tags ++ " "%char :: body) = "@"%char :: tags ++ " "%char :: body.
Proof.
  intros N L B. unfold shorten. change ("@" =c "@") with true. cbv iota.
  assert (break_space ("@"%char :: tags ++ " "%char :: body) = ("@"%char :: tags, Some body)) as ->.
  { cbn [break_space Ascii.eqb Bool.eqb]. assert (break_space (tags ++ " "%char :: body) = (tags, Some body)) as ->; [|done].
    clear L. induction tags as [|a t IH]; [done|]. apply not_elem_of_cons in N as [Na N]. cbn [app break_space].
    rewrite (proj2 (Ascii.eqb_neq _ _)) by congruence. by rewrite IH. }
  rewrite !take_ge by (cbn [length]; lia). rewrite (proj2 (Nat.ltb_lt _ _)) by (cbn [length]; lia). done.
Qed.

(** C27: the buffer is one byte too short for the longest line a server may send.
    When a line has a tag section of exactly [TAGSLEN] bytes and a body of [BUFSIZE]
    bytes, the next byte, whatever it is, is written behind [con_buffer]. *)
Theorem server_line_overflow (l : link W) (tags body rest : list ascii) (c : ascii) :
  length (con_buffer l) = READBUFSIZE -> con_count l = 0 -> IsServer (world l) = true ->
  Forall (fun c => IsEol c = false) (tags ++ body) -> " "%char ∉ tags ->
  length tags + 2 = TAGSLEN -> length body = BUFSIZE ->
  server_dopacket parse_server scribble IsDead exit_client l ("@"%char :: tags ++ " "%char :: body ++ c :: rest) = Oob.
Proof.
  intros L C S [Ft Fb]%Forall_app N Lt Lb. assert (holds l (con_count l) []) as H by (split; [done|]; by rewrite C).
  set (src := "@"%char :: tags ++ " "%char :: body).
  replace ("@"%char :: tags ++ " "%char :: body ++ c :: rest) with (src ++ c :: rest) by (unfold src; cbn; by rewrite <- app_assoc).
  pose proof (server_dopacket_sim l [] (src ++ c :: rest) H S) as D.
  enough (feed (world l) [] (src ++ c :: rest) = Oob) as E; [rewrite E in D; by destruct (server_dopacket _ _ _ _ l _)|].
  rewrite feed_app. rewrite <- (proj2 (keep_nil (world l) []) eq_refl) at 1.
  assert (Forall (fun c => IsEol c = false) src) as F.
  { apply Forall_cons. split; [reflexivity|]. apply Forall_app. split; [done|]. by apply Forall_cons. }
  destruct (feed_open src (world l) [] F) as [->| ->]; [done|]. cbn [app obind feed].
  unfold keep. rewrite S. unfold src. rewrite shorten_full by done. rewrite (proj2 (Nat.ltb_ge _ _)); [done|].
  cbn [length]. rewrite length_app. cbn [length]. unfold READBUFSIZE. lia.
Qed.
End Refinement.

Definition CR : ascii := "013"%char.
Definition LF : ascii := "010"%char.

(** ** The parser as a log of the lines it is given *)
Section Demo.
Definition log_line (w : list (list ascii)) (line : list ascii) : list (list ascii) * bool := (w ++ [line], false).
Definition fresh : link (list (list ascii)) := Link [] (replicate READBUFSIZE NUL) 0 0 0 0 0.

Lemma dopackets_lines_witness :
  exists r, dopackets log_line log_line (fun _ b => b) (fun _ => false) (fun _ => true) (fun w => w) fresh
      [cstr "PING :a"; cstr "b" ++ [LF; CR; LF]; cstr "PO"] = Ok r /\
    exists l', r = More l' /\ world l' = [cstr "PING :ab"].
Proof.
  destruct (dopackets_lines log_line log_line (fun _ b => b) (fun _ => false) (fun _ => true) (fun w => w)
    ltac:(reflexivity) ltac:(reflexivity) fresh [cstr "PING :a"; cstr "b" ++ [LF; CR; LF]; cstr "PO"])
    as (r & E & H).
  - vm_compute. reflexivity.
  - reflexivity.
  - repeat (apply Forall_cons; split; [apply Nat.ltb_lt; vm_compute; reflexivity|]). apply Forall_nil. exact I.
  - exists r. split; [exact E|]. vm_compute in H. destruct H as (l' & E1 & E2 & _). exists l'. auto.
Defined.

Lemma server_line_overflow_witness :
  server_dopacket log_line (fun _ b => b) (fun _ => false) (fun w => w) fresh
    ("@"%char :: replicate (TAGSLEN - 2) "t"%char ++ " "%char :: replicate BUFSIZE "b"%char ++ LF :: []) = Oob.
Proof.
  apply (server_line_overflow log_line log_line (fun _ b => b) (fun _ => false) (fun _ => true) (fun w => w)
    ltac:(reflexivity) ltac:(reflexivity)).
  - vm_compute. reflexivity.
  - reflexivity.
  - reflexivity.
  - apply Forall_app. split; apply Forall_replicate; vm_compute; reflexivity.
  - intros H. apply elem_of_replicate in H as [H _]. discriminate H.
  - vm_compute. reflexivity.
  - vm_compute. reflexivity.
Defined.
End Demo.
