(* ===== verification/MsgTab.v ===== *)
(** * The command table: [msgtab] of [ircd/parse.c]

    One entry per command, in the order of the source; a handler is the name of the C
    function.  Names and tokens are those of [include/msg.h]. *)

From stdpp Require Import base list strings.
From Stdlib Require Import ZArith Ascii.
From S2P Require Import Prelude.

Local Open Scope Z_scope.

Definition MAXPARA : Z := 15.
Definition MFLG_SLOW : Z := 0x01.
Definition MFLG_UNREG : Z := 0x02.
Definition MFLG_IGNORE : Z := 0x04.
Definition MFLG_EXTRA : Z := 0x08.
Definition MFLG_FROZEN_OK : Z := 0x10.
Definition MS_LAST : Z := 255.

Record MsgSubject : Type := Subject { ms_target : Z; ms_channel : Z; ms_mask : Z; ms_reason : Z }.
Definition no_subject : MsgSubject := Subject 0 0 0 0.

Record Message : Type := Msg {
  cmd : list ascii;
  tok : list ascii;
  msg_count : Z;
  parameters : Z;
  flags : Z;
  msg_bytes : Z;
  extra : option nat;
  handlers : list string;          (** unregistered, client, server, operator, service *)
  subject : MsgSubject;
  subject_s : MsgSubject
}.

(** A table entry; what it leaves out is zero. *)
Definition entry (c t : string) (n f : Z) (hs : list string) (s s_s : MsgSubject) : Message :=
  Msg (cstr c) (cstr t) 0 n f 0 None hs s s_s.

Definition msgtab_1 : list Message :=
  [ entry "PRIVMSG" "P" MAXPARA (Z.lor MFLG_SLOW MFLG_FROZEN_OK)
      ["m_unregistered"; "m_privmsg"; "ms_privmsg"; "mo_privmsg"; "m_ignore"] no_subject no_subject;
    entry "NICK" "N" MAXPARA (Z.lor (Z.lor MFLG_SLOW MFLG_UNREG) MFLG_FROZEN_OK)
      ["m_nick"; "m_nick"; "ms_nick"; "m_nick"; "m_ignore"] no_subject no_subject;
    entry "NOTICE" "O" MAXPARA (Z.lor (Z.lor MFLG_SLOW MFLG_IGNORE) MFLG_FROZEN_OK)
      ["m_ignore"; "m_notice"; "ms_notice"; "mo_notice"; "m_ignore"] no_subject no_subject;
    entry "BATCH" "BATCH" MAXPARA MFLG_SLOW
      ["m_unregistered"; "m_batch"; "m_ignore"; "m_batch"; "m_ignore"] no_subject no_subject;
    entry "TAGMSG" "TM" MAXPARA MFLG_SLOW
      ["m_unregistered"; "m_tagmsg"; "ms_tagmsg"; "mo_tagmsg"; "m_ignore"] no_subject no_subject;
    entry "WALLCHOPS" "WC" MAXPARA MFLG_SLOW
      ["m_unregistered"; "m_wallchops"; "ms_wallchops"; "m_wallchops"; "m_ignore"] no_subject no_subject;
    entry "WALLVOICES" "WV" MAXPARA MFLG_SLOW
      ["m_unregistered"; "m_wallvoices"; "ms_wallvoices"; "m_wallvoices"; "m_ignore"] no_subject no_subject;
    entry "CPRIVMSG" "CP" MAXPARA MFLG_SLOW
      ["m_unregistered"; "m_cprivmsg"; "m_ignore"; "m_cprivmsg"; "m_ignore"] no_subject no_subject;
    entry "CNOTICE" "CN" MAXPARA MFLG_SLOW
      ["m_unregistered"; "m_cnotice"; "m_ignore"; "m_cnotice"; "m_ignore"] no_subject no_subject;
    entry "JOIN" "J" MAXPARA MFLG_SLOW
      ["m_unregistered"; "m_join"; "ms_join"; "m_join"; "m_ignore"] no_subject no_subject;
    entry "MODE" "M" MAXPARA MFLG_SLOW
      ["m_unregistered"; "m_mode"; "ms_mode"; "m_mode"; "m_ignore"] (Subject 1 1 0 0) no_subject;
    entry "BURST" "B" MAXPARA MFLG_SLOW
      ["m_ignore"; "m_ignore"; "ms_burst"; "m_ignore"; "m_ignore"] no_subject no_subject;
    entry "CREATE" "C" MAXPARA MFLG_SLOW
      ["m_ignore"; "m_ignore"; "ms_create"; "m_ignore"; "m_ignore"] no_subject no_subject;
    entry "DESTRUCT" "DE" MAXPARA MFLG_SLOW
      ["m_ignore"; "m_ignore"; "ms_destruct"; "m_ignore"; "m_ignore"] no_subject no_subject;
    entry "QUIT" "Q" MAXPARA (Z.lor (Z.lor MFLG_SLOW MFLG_UNREG) MFLG_FROZEN_OK)
      ["m_quit"; "m_quit"; "ms_quit"; "m_quit"; "m_ignore"] no_subject no_subject;
    entry "PART" "L" MAXPARA MFLG_SLOW
      ["m_unregistered"; "m_part"; "ms_part"; "m_part"; "m_ignore"] no_subject no_subject;
    entry "TOPIC" "T" MAXPARA MFLG_SLOW
      ["m_unregistered"; "m_topic"; "ms_topic"; "m_topic"; "m_ignore"] no_subject no_subject;
    entry "INVITE" "I" MAXPARA MFLG_SLOW
      ["m_unregistered"; "m_invite"; "ms_invite"; "m_invite"; "m_ignore"] (Subject 1 2 0 0) no_subject;
    entry "KICK" "K" MAXPARA MFLG_SLOW
      ["m_unregistered"; "m_kick"; "ms_kick"; "m_kick"; "m_ignore"] (Subject 2 1 0 3) no_subject ]%string.

Definition msgtab_2 : list Message :=
  [ entry "WALLOPS" "WA" MAXPARA MFLG_SLOW
      ["m_unregistered"; "m_not_oper"; "ms_wallops"; "mo_wallops"; "m_ignore"] no_subject no_subject;
    entry "WALLUSERS" "WU" MAXPARA MFLG_SLOW
      ["m_unregistered"; "m_not_oper"; "ms_wallusers"; "mo_wallusers"; "m_ignore"] no_subject no_subject;
    entry "DESYNCH" "DS" MAXPARA MFLG_SLOW
      ["m_ignore"; "m_ignore"; "ms_desynch"; "m_ignore"; "m_ignore"] no_subject no_subject;
    entry "PING" "G" MAXPARA (Z.lor MFLG_SLOW MFLG_FROZEN_OK)
      ["m_unregistered"; "m_ping"; "ms_ping"; "mo_ping"; "m_ignore"] no_subject no_subject;
    entry "PONG" "Z" MAXPARA (Z.lor (Z.lor MFLG_SLOW MFLG_UNREG) MFLG_FROZEN_OK)
      ["mr_pong"; "m_pong"; "ms_pong"; "m_pong"; "m_ignore"] no_subject no_subject;
    entry "ERROR" "Y" MAXPARA (Z.lor (Z.lor MFLG_SLOW MFLG_UNREG) MFLG_FROZEN_OK)
      ["mr_error"; "m_ignore"; "ms_error"; "m_ignore"; "m_ignore"] no_subject no_subject;
    entry "KILL" "D" MAXPARA MFLG_SLOW
      ["m_unregistered"; "m_not_oper"; "ms_kill"; "mo_kill"; "m_ignore"] (Subject 1 0 0 2) no_subject;
    entry "USER" "USER" MAXPARA MFLG_SLOW
      ["m_user"; "m_registered"; "m_ignore"; "m_registered"; "m_ignore"] no_subject no_subject;
    entry "AWAY" "A" MAXPARA MFLG_SLOW
      ["m_unregistered"; "m_away"; "ms_away"; "m_away"; "m_ignore"] no_subject no_subject;
    entry "ISON" "ISON" 1 MFLG_SLOW
      ["m_unregistered"; "m_ison"; "m_ignore"; "m_ison"; "m_ignore"] no_subject no_subject;
    entry "SERVER" "S" MAXPARA (Z.lor MFLG_SLOW MFLG_UNREG)
      ["mr_server"; "m_registered"; "ms_server"; "m_registered"; "m_ignore"] no_subject no_subject;
    entry "SQUIT" "SQ" MAXPARA MFLG_SLOW
      ["m_unregistered"; "m_not_oper"; "ms_squit"; "mo_squit"; "m_ignore"] no_subject no_subject;
    entry "WHOIS" "W" MAXPARA MFLG_SLOW
      ["m_unregistered"; "m_whois"; "ms_whois"; "m_whois"; "m_ignore"] (Subject MS_LAST 0 0 0) no_subject;
    entry "WHO" "H" MAXPARA MFLG_SLOW
      ["m_unregistered"; "m_who"; "m_ignore"; "m_who"; "m_ignore"] no_subject no_subject;
    entry "WHOWAS" "X" MAXPARA MFLG_SLOW
      ["m_unregistered"; "m_whowas"; "m_whowas"; "m_whowas"; "m_ignore"] no_subject no_subject;
    entry "LIST" "LIST" MAXPARA MFLG_SLOW
      ["m_unregistered"; "m_list"; "m_ignore"; "m_list"; "m_ignore"] no_subject no_subject;
    entry "NAMES" "E" MAXPARA MFLG_SLOW
      ["m_unregistered"; "m_names"; "m_names"; "m_names"; "m_ignore"] no_subject no_subject;
    entry "USERHOST" "USERHOST" 1 MFLG_SLOW
      ["m_unregistered"; "m_userhost"; "m_ignore"; "m_userhost"; "m_ignore"] no_subject no_subject;
    entry "USERIP" "USERIP" 1 MFLG_SLOW
      ["m_unregistered"; "m_userip"; "m_ignore"; "m_userip"; "m_ignore"] no_subject no_subject ]%string.

Definition msgtab_3 : list Message :=
  [ entry "TRACE" "TR" MAXPARA MFLG_SLOW
      ["m_unregistered"; "m_trace"; "ms_trace"; "mo_trace"; "m_ignore"] no_subject no_subject;
    entry "PASS" "PA" MAXPARA (Z.lor MFLG_SLOW MFLG_UNREG)
      ["mr_pass"; "m_registered"; "m_ignore"; "m_registered"; "m_ignore"] no_subject no_subject;
    entry "LUSERS" "LU" MAXPARA MFLG_SLOW
      ["m_unregistered"; "m_lusers"; "ms_lusers"; "m_lusers"; "m_ignore"] no_subject no_subject;
    entry "TIME" "TI" MAXPARA MFLG_SLOW
      ["m_unregistered"; "m_time"; "m_time"; "m_time"; "m_ignore"] no_subject no_subject;
    entry "SETTIME" "SE" MAXPARA MFLG_SLOW
      ["m_unregistered"; "m_not_oper"; "ms_settime"; "mo_settime"; "m_ignore"] no_subject no_subject;
    entry "RPING" "RI" MAXPARA MFLG_SLOW
      ["m_unregistered"; "m_not_oper"; "ms_rping"; "mo_rping"; "m_ignore"] no_subject no_subject;
    entry "RPONG" "RO" MAXPARA MFLG_SLOW
      ["m_unregistered"; "m_ignore"; "ms_rpong"; "m_ignore"; "m_ignore"] no_subject no_subject;
    entry "OPER" "OPER" MAXPARA MFLG_SLOW
      ["m_unregistered"; "m_oper"; "ms_oper"; "mo_oper"; "m_ignore"] no_subject no_subject;
    entry "CONNECT" "CO" MAXPARA MFLG_SLOW
      ["m_unregistered"; "m_not_oper"; "ms_connect"; "mo_connect"; "m_ignore"] no_subject no_subject;
    entry "MAP" "MAP" MAXPARA MFLG_SLOW
      ["m_unregistered"; "m_map"; "m_ignore"; "m_map"; "m_ignore"] no_subject no_subject;
    entry "VERSION" "V" MAXPARA (Z.lor MFLG_SLOW MFLG_UNREG)
      ["m_version"; "m_version"; "m_version"; "m_version"; "m_ignore"] no_subject no_subject;
    entry "STATS" "R" MAXPARA MFLG_SLOW
      ["m_unregistered"; "m_stats"; "m_stats"; "m_stats"; "m_ignore"] no_subject no_subject;
    entry "LINKS" "LI" MAXPARA MFLG_SLOW
      ["m_unregistered"; "m_links"; "ms_links"; "m_links"; "m_ignore"] no_subject no_subject;
    entry "ADMIN" "AD" MAXPARA (Z.lor MFLG_SLOW MFLG_UNREG)
      ["m_admin"; "m_admin"; "ms_admin"; "mo_admin"; "m_ignore"] no_subject no_subject;
    entry "HELP" "HELP" MAXPARA MFLG_SLOW
      ["m_unregistered"; "m_help"; "m_ignore"; "m_help"; "m_ignore"] no_subject no_subject;
    entry "INFO" "F" MAXPARA MFLG_SLOW
      ["m_unregistered"; "m_info"; "ms_info"; "mo_info"; "m_ignore"] no_subject no_subject;
    entry "MODULE" "MD" MAXPARA MFLG_SLOW
      ["m_unregistered"; "m_module"; "ms_module"; "mo_module"; "m_ignore"] no_subject no_subject;
    entry "MOTD" "MO" MAXPARA MFLG_SLOW
      ["m_unregistered"; "m_motd"; "m_motd"; "m_motd"; "m_ignore"] no_subject no_subject;
    entry "CLOSE" "CLOSE" MAXPARA MFLG_SLOW
      ["m_unregistered"; "m_not_oper"; "m_ignore"; "mo_close"; "m_ignore"] no_subject no_subject ]%string.

Definition msgtab_4 : list Message :=
  [ entry "SILENCE" "U" MAXPARA MFLG_SLOW
      ["m_unregistered"; "m_silence"; "ms_silence"; "m_silence"; "m_ignore"] (Subject 0 0 1 0) (Subject 1 0 2 0);
    entry "GLINE" "GL" MAXPARA 0
      ["m_unregistered"; "m_gline"; "ms_gline"; "mo_gline"; "m_ignore"] (Subject 0 0 1 0) (Subject 0 0 2 0);
    entry "SLINE" "SL" MAXPARA 0
      ["m_unregistered"; "m_ignore"; "ms_sline"; "m_ignore"; "m_ignore"] (Subject 0 0 0 0) (Subject 0 0 5 0);
    entry "JUPE" "JU" MAXPARA MFLG_SLOW
      ["m_unregistered"; "m_not_oper"; "ms_jupe"; "mo_jupe"; "m_ignore"] (Subject 0 0 1 0) (Subject 0 0 2 0);
    entry "OPMODE" "OM" MAXPARA MFLG_SLOW
      ["m_unregistered"; "m_not_oper"; "ms_opmode"; "mo_opmode"; "m_ignore"] no_subject no_subject;
    entry "CLEARMODE" "CM" MAXPARA MFLG_SLOW
      ["m_unregistered"; "m_not_oper"; "ms_clearmode"; "mo_clearmode"; "m_ignore"] no_subject no_subject;
    entry "UPING" "UP" MAXPARA MFLG_SLOW
      ["m_unregistered"; "m_not_oper"; "ms_uping"; "mo_uping"; "m_ignore"] no_subject no_subject;
    entry "END_OF_BURST" "EB" MAXPARA MFLG_SLOW
      ["m_ignore"; "m_ignore"; "ms_end_of_burst"; "m_ignore"; "m_ignore"] no_subject no_subject;
    entry "EOB_ACK" "EA" MAXPARA MFLG_SLOW
      ["m_ignore"; "m_ignore"; "ms_end_of_burst_ack"; "m_ignore"; "m_ignore"] no_subject no_subject;
    entry "HASH" "HASH" MAXPARA MFLG_SLOW
      ["m_unregistered"; "m_hash"; "m_hash"; "m_hash"; "m_ignore"] no_subject no_subject;
    entry "REHASH" "REHASH" MAXPARA MFLG_SLOW
      ["m_unregistered"; "m_not_oper"; "m_ignore"; "mo_rehash"; "m_ignore"] no_subject no_subject;
    entry "RESTART" "RESTART" MAXPARA MFLG_SLOW
      ["m_unregistered"; "m_not_oper"; "m_ignore"; "mo_restart"; "m_ignore"] no_subject no_subject;
    entry "DIE" "DIE" MAXPARA MFLG_SLOW
      ["m_unregistered"; "m_not_oper"; "m_ignore"; "mo_die"; "m_ignore"] no_subject no_subject;
    entry "PROTO" "PROTO" MAXPARA MFLG_SLOW
      ["m_proto"; "m_proto"; "m_proto"; "m_proto"; "m_ignore"] no_subject no_subject;
    entry "SET" "SET" MAXPARA MFLG_SLOW
      ["m_unregistered"; "m_not_oper"; "m_ignore"; "mo_set"; "m_ignore"] no_subject no_subject;
    entry "RESET" "RESET" MAXPARA MFLG_SLOW
      ["m_unregistered"; "m_not_oper"; "m_ignore"; "mo_reset"; "m_ignore"] no_subject no_subject;
    entry "GET" "GET" MAXPARA MFLG_SLOW
      ["m_unregistered"; "m_not_oper"; "m_ignore"; "mo_get"; "m_ignore"] no_subject no_subject;
    entry "PRIVS" "PR" MAXPARA MFLG_SLOW
      ["m_unregistered"; "m_not_oper"; "ms_privs"; "mo_privs"; "m_ignore"] no_subject no_subject;
    entry "ASLL" "LL" MAXPARA MFLG_SLOW
      ["m_ignore"; "m_not_oper"; "ms_asll"; "mo_asll"; "m_ignore"] no_subject no_subject ]%string.

Definition msgtab_5 : list Message :=
  [ entry "WEBIRC" "WEBIRC" MAXPARA MFLG_SLOW
      ["m_webirc"; "m_registered"; "m_ignore"; "m_registered"; "m_ignore"] no_subject no_subject;
    entry "XQUERY" "XQ" MAXPARA MFLG_SLOW
      ["m_ignore"; "m_ignore"; "ms_xquery"; "mo_xquery"; "m_ignore"] no_subject no_subject;
    entry "XREPLY" "XR" MAXPARA MFLG_SLOW
      ["m_ignore"; "m_ignore"; "ms_xreply"; "m_ignore"; "m_ignore"] no_subject no_subject;
    entry "CAP" "CAP" MAXPARA MFLG_FROZEN_OK
      ["m_cap"; "m_cap"; "m_ignore"; "m_cap"; "m_ignore"] no_subject no_subject;
    entry "AUTHENTICATE" "AUTHENTICATE" MAXPARA (Z.lor MFLG_UNREG MFLG_FROZEN_OK)
      ["m_sasl"; "m_sasl"; "m_ignore"; "m_sasl"; "m_ignore"] no_subject no_subject;
    entry "ACCOUNT" "AC" MAXPARA (Z.lor MFLG_UNREG MFLG_FROZEN_OK)
      ["m_ignore"; "m_ignore"; "ms_account"; "m_ignore"; "m_ignore"] no_subject no_subject;
    entry "POST" "POST" MAXPARA MFLG_SLOW
      ["m_quit"; "m_ignore"; "m_ignore"; "m_ignore"; "m_ignore"] no_subject no_subject;
    entry "CONFIG" "CF" MAXPARA 0
      ["m_ignore"; "m_ignore"; "ms_config"; "m_ignore"; "m_ignore"] no_subject no_subject;
    entry "LANGUAGE" "LG" MAXPARA (Z.lor MFLG_SLOW MFLG_UNREG)
      ["m_language"; "m_language"; "ms_language"; "m_language"; "m_ignore"] no_subject no_subject ]%string.

Definition msgtab : list Message :=
  msgtab_1 ++ msgtab_2 ++ msgtab_3 ++ msgtab_4 ++ msgtab_5.
