(* ===== verification/Commands.v ===== *)
(** * The command tries of [ircd/parse.c]

    [msg_tree] finds a message by its command name, [tok_tree] by its token.  A node
    has one slot for each value of the low five bits of a character; a message is
    referred to by its index in a store, the address it has in the program.  Following
    a NULL pointer is [Oob]. *)

From stdpp Require Import base list gmap strings.
From Stdlib Require Import ZArith Lia Ascii.
From S2P Require Import Prelude Chattr MsgTab.

Local Open Scope ircu_scope.

(** [struct MessageTree]: an absent key is a NULL slot. *)
Inductive MessageTree : Type := Node (msg : option nat) (pointers : gmap Z MessageTree).

Definition t_msg (t : MessageTree) : option nat := let 'Node m _ := t in m.
Definition t_pointers (t : MessageTree) : gmap Z MessageTree := let 'Node _ p := t in p.

(** [MyCalloc(sizeof(struct MessageTree), 1)], and the roots after [memset]. *)
Definition empty_node : MessageTree := Node None ∅.

(** [*cmd & (MAXPTRLEN-1)] *)
Definition MAXPTRLEN : Z := 32.
Definition slot (c : ascii) : Z := Z.land (uchar c) (MAXPTRLEN - 1).

Fixpoint add_msg_element (t : MessageTree) (msg_p : nat) (cmd : list ascii) : MessageTree :=
  match cmd with
  | [] => Node (Some msg_p) (t_pointers t)
  | c :: cmd =>
      let ntree := match t_pointers t !! slot c with Some n => n | None => empty_node end in
      Node (t_msg t) (<[slot c := add_msg_element ntree msg_p cmd]> (t_pointers t))
  end.

(** The message or a child is left. *)
Definition in_use (t : MessageTree) : bool :=
  match t_msg t with
  | Some _ => true
  | None => match map_to_list (t_pointers t) with [] => false | _ => true end
  end.

(** The node after the call, and whether it is returned (else NULL is). *)
Fixpoint del_msg_element (t : MessageTree) (cmd : list ascii) : outcome (MessageTree * bool) :=
  match cmd with
  | [] => let t := Node None (t_pointers t) in Ok (t, in_use t)
  | c :: cmd =>
      match t_pointers t !! slot c with
      | None => Oob
      | Some child =>
          let* (child, kept) := del_msg_element child cmd in
          let t := Node (t_msg t) (if kept then <[slot c := child]> (t_pointers t) else delete (slot c) (t_pointers t)) in
          Ok (t, in_use t)
      end
  end.

Fixpoint msg_tree_parse (cmd : list ascii) (t : MessageTree) : option nat :=
  match cmd with
  | [] => t_msg t
  | c :: cmd =>
      if IsCommand c then
        match t_pointers t !! slot c with
        | Some t => msg_tree_parse cmd t
        | None => None
        end
      else None
  end.

Record commands : Type := Commands {
  messages : gmap nat Message;
  msg_tree : MessageTree;
  tok_tree : MessageTree;
  next_msg : nat               (** the address the allocator gives next *)
}.

(** The loop of [initmsgtree]: [&msgtab[i]] for each entry. *)
Fixpoint init_loop (st : commands) (i : nat) (tab : list Message) : commands :=
  match tab with
  | [] => st
  | m :: tab =>
      init_loop (Commands (<[i := m]> (messages st)) (add_msg_element (msg_tree st) i (cmd m))
                          (add_msg_element (tok_tree st) i (tok m)) (S i)) (S i) tab
  end.

Definition initmsgtree : commands := init_loop (Commands ∅ empty_node empty_node 0) 0 msgtab.

(** A message that was found or added, or NULL. *)
Definition parse_add_command (st : commands) (cmd : list ascii) (tok : option (list ascii))
    (parameters flags : Z) (handlers : list (option string)) : commands * option nat :=
  let tok := match tok with Some tok => tok | None => cmd end in
  match msg_tree_parse cmd (msg_tree st), msg_tree_parse tok (tok_tree st) with
  | None, None =>
      let p := next_msg st in
      let handlers := map (fun h => match h with Some h => h | None => "m_ignore"%string end) handlers in
      let msg := Msg cmd tok 0 parameters flags 0 None handlers no_subject no_subject in
      (Commands (<[p := msg]> (messages st)) (add_msg_element (msg_tree st) p cmd)
                (add_msg_element (tok_tree st) p tok) (S p), Some p)
  | _, _ => (st, None)
  end.

Definition parse_del_command (st : commands) (p : nat) : outcome commands :=
  match messages st !! p with
  | None => Oob
  | Some msg =>
      let* (mt, _) := del_msg_element (msg_tree st) (cmd msg) in
      let* (kt, _) := del_msg_element (tok_tree st) (tok msg) in
      Ok (Commands (delete p (messages st)) mt kt (next_msg st))
  end.

(** [struct s_map]: its command, whether it has [SMAP_FAST], its address. *)
Record s_map : Type := SMap { s_command : list ascii; s_fast : bool; s_addr : nat }.

(** The message of the mapping is [map->msg]. *)
Definition register_mapping (st : commands) (map : s_map) : commands * option nat :=
  match msg_tree_parse (s_command map) (msg_tree st) with
  | Some _ => (st, None)
  | None =>
      let p := next_msg st in
      let flags := if s_fast map then MFLG_EXTRA else Z.lor MFLG_EXTRA MFLG_SLOW in
      let msg := Msg (s_command map) (s_command map) 0 2 flags 0 (Some (s_addr map))
        ["m_ignore"; "m_pseudo"; "m_ignore"; "m_pseudo"; "m_ignore"]%string no_subject no_subject in
      (Commands (<[p := msg]> (messages st)) (add_msg_element (msg_tree st) p (s_command map)) (tok_tree st) (S p),
       Some p)
  end.

Definition unregister_mapping (st : commands) (map : s_map) (map_msg : nat) : outcome (commands * Z) :=
  match msg_tree_parse (s_command map) (msg_tree st) with
  | None => Ok (st, 0%Z)
  | Some _ =>
      match messages st !! map_msg with
      | None => Oob
      | Some msg =>
          let* (mt, _) := del_msg_element (msg_tree st) (cmd msg) in
          Ok (Commands (delete map_msg (messages st)) mt (tok_tree st) (next_msg st), 1%Z)
      end
  end.

(** ** A trie is a map from slot sequences *)
Fixpoint tree_get (t : MessageTree) (ks : list Z) : option nat :=
  match ks with
  | [] => t_msg t
  | k :: ks => match t_pointers t !! k with Some t => tree_get t ks | None => None end
  end.

Definition slots (c : list ascii) : list Z := map slot c.
Definition command_name (c : list ascii) : Prop := Forall (fun x => IsCommand x = true) c.
Definition command_nameb (c : list ascii) : bool := forallb IsCommand c.

Lemma msg_tree_parse_get (c : list ascii) (t : MessageTree) :
  msg_tree_parse c t = if command_nameb c then tree_get t (slots c) else None.
Proof.
  revert t. induction c as [|a c IH]; intros t; [done|]. cbn [msg_tree_parse command_nameb forallb slots map tree_get].
  destruct (IsCommand a); [|done]. cbn [andb]. destruct (t_pointers t !! slot a) as [n|]; [apply IH|].
  by destruct (forallb IsCommand c).
Qed.

Lemma empty_get (ks : list Z) : tree_get empty_node ks = None.
Proof. by destruct ks. Qed.

Lemma add_get (c : list ascii) (p : nat) : forall t ks,
  tree_get (add_msg_element t p c) ks = if decide (ks = slots c) then Some p else tree_get t ks.
Proof.
  induction c as [|a c IH]; intros t ks; cbn [add_msg_element slots map].
  - destruct ks as [|k ks]; [done|]. by rewrite decide_False.
  - destruct ks as [|k ks]; [by rewrite decide_False|]. cbn [tree_get t_pointers t_msg].
    destruct (decide (k = slot a)) as [->|N].
    + rewrite lookup_insert_eq, IH. destruct (decide (ks = slots c)) as [->|N'].
      * by rewrite decide_True.
      * rewrite decide_False by (intros [= ?]; done). destruct (t_pointers t !! slot a); [done|apply empty_get].
    + rewrite lookup_insert_ne, decide_False; [done|intros [= ? ?]; done|done].
Qed.

Lemma not_in_use (t : MessageTree) (ks : list Z) : in_use t = false -> tree_get t ks = None.
Proof.
  unfold in_use. destruct t as [[m|] p]; cbn; [done|]. intros H.
  assert (p = ∅) as -> by (apply map_to_list_empty_iff; by destruct (map_to_list p)). destruct ks as [|k ks]; cbn; [done|]. by rewrite lookup_empty.
Qed.

Lemma del_get (c : list ascii) : forall t p, tree_get t (slots c) = Some p ->
  exists t' kept, del_msg_element t c = Ok (t', kept) /\ kept = in_use t' /\
    forall ks, tree_get t' ks = if decide (ks = slots c) then None else tree_get t ks.
Proof.
  induction c as [|a c IH]; intros t p H; cbn [del_msg_element slots map] in *.
  - do 2 eexists. split; [done|]. split; [done|]. intros [|k ks]; [done|]. by rewrite decide_False.
  - cbn [tree_get] in H. destruct (t_pointers t !! slot a) as [child|] eqn:Ec; [|done].
    destruct (IH child p H) as (child' & kept & -> & K & G). cbn [obind]. do 2 eexists. split; [done|]. split; [done|].
    intros [|k ks]; [by rewrite decide_False|]. cbn [tree_get t_pointers].
    destruct (decide (k = slot a)) as [->|N].
    + rewrite Ec. destruct kept.
      * rewrite lookup_insert_eq, G. destruct (decide (ks = slots c)) as [->|N']; [by rewrite decide_True|].
        by rewrite decide_False by (intros [= ?]; done).
      * rewrite lookup_delete_eq. symmetry in K. specialize (G ks). rewrite not_in_use in G by done.
        destruct (decide (ks = slots c)) as [->|N']; [by rewrite decide_True|].
        by rewrite decide_False by (intros [= ?]; done).
    + rewrite decide_False by (intros [= ? ?]; done). destruct kept; [by rewrite lookup_insert_ne|by rewrite lookup_delete_ne].
Qed.

(** ** Names of commands *)

(** On command characters the slots tell apart exactly what [ToUpper] does. *)
Definition row (c : ascii) : ascii * bool * Z := (ToUpper c, IsCommand c, slot c).
Definition slot_exact (x y : ascii * bool * Z) : bool :=
  let '(ua, ca, sa) := x in
  let '(ub, cb, sb) := y in
  negb cb || Bool.eqb (ua =c ub) (ca && (sa =? sb)%Z).

Lemma slots_exact : let l := map row all_chars in forallb (fun x => forallb (slot_exact x) l) l = true.
Proof. vm_compute. reflexivity. Qed.

Lemma slot_upper (a b : ascii) : IsCommand b = true ->
  ToUpper a = ToUpper b <-> IsCommand a = true /\ slot a = slot b.
Proof.
  intros B. pose proof slots_exact as H. cbn zeta in H. rewrite forallb_forall in H.
  specialize (H (row a) (in_map row _ a (in_all_chars a))). rewrite forallb_forall in H.
  specialize (H (row b) (in_map row _ b (in_all_chars b))). unfold slot_exact, row in H. rewrite B in H.
  apply Bool.eqb_prop in H. rewrite <- Ascii.eqb_eq, H, andb_true_iff, Z.eqb_eq. done.
Qed.

Definition upper (c : list ascii) : list ascii := map ToUpper c.

Lemma slots_upper (d c : list ascii) : command_name d ->
  upper c = upper d <-> command_nameb c = true /\ slots c = slots d.
Proof.
  intros F. revert c. induction F as [|b d B F IH]; intros [|a c];
    [done|by split; [|intros []]|by split; [|intros []]|].
  unfold upper, command_nameb, slots in *. cbn [forallb map]. rewrite andb_true_iff. split.
  - intros [= E1 E2]. apply slot_upper in E1 as [? ->]; [|done]. by apply IH in E2 as [? ->].
  - intros [[H1 H2] [= E1 E2]]. f_equal; [by apply slot_upper|by apply IH].
Qed.

(** ** Reachable command tables *)

(** The messages a trie has to find, by a name that is [Some] for the ones in it. *)
Definition indexes (t : MessageTree) (ms : gmap nat Message) (name : Message -> option (list ascii)) : Prop :=
  forall ks k, tree_get t ks = Some k <-> exists m c, ms !! k = Some m /\ name m = Some c /\ slots c = ks.

Definition by_cmd (m : Message) : option (list ascii) := Some (cmd m).
Definition by_tok (m : Message) : option (list ascii) :=
  match extra m with None => Some (tok m) | Some _ => None end.

Record commands_ok (st : commands) : Prop := {
  ok_msg : indexes (msg_tree st) (messages st) by_cmd;
  ok_tok : indexes (tok_tree st) (messages st) by_tok;
  ok_names : forall k m, messages st !! k = Some m -> command_name (cmd m) /\ command_name (tok m);
  ok_next : forall k m, messages st !! k = Some m -> k < next_msg st;
  ok_core : forall k m, msgtab !! k = Some m -> messages st !! k = Some m
}.

Lemma indexes_add (t : MessageTree) (ms : gmap nat Message) (name : Message -> option (list ascii)) (p : nat)
    (m : Message) (c : list ascii) :
  indexes t ms name -> ms !! p = None -> name m = Some c -> tree_get t (slots c) = None ->
  indexes (add_msg_element t p c) (<[p := m]> ms) name.
Proof.
  intros I N E G ks k. rewrite add_get. destruct (decide (ks = slots c)) as [->|D].
  - split; [intros [= <-]; exists m, c; by rewrite lookup_insert_eq|].
    intros (m' & c' & H1 & H2 & H3). destruct (decide (k = p)) as [->|Dk]; [done|].
    rewrite lookup_insert_ne in H1 by done. assert (tree_get t (slots c) = Some k) by (apply I; eauto). congruence.
  - rewrite (I ks k). split; intros (m' & c' & H1 & H2 & H3); exists m', c'; (split; [|done]).
    + rewrite lookup_insert_ne; [done|]. intros ->. congruence.
    + destruct (decide (k = p)) as [->|Dk]; [|by rewrite lookup_insert_ne in H1].
      rewrite lookup_insert_eq in H1. congruence.
Qed.

(** A message the trie does not index leaves it as it is. *)
Lemma indexes_other (t : MessageTree) (ms : gmap nat Message) (name : Message -> option (list ascii)) (p : nat) (m : Message) :
  indexes t ms name -> ms !! p = None -> name m = None -> indexes t (<[p := m]> ms) name.
Proof.
  intros I N E ks k. rewrite (I ks k). split; intros (m' & c' & H1 & H2 & H3); exists m', c'; (split; [|done]).
  - rewrite lookup_insert_ne; [done|]. intros ->. congruence.
  - destruct (decide (k = p)) as [->|Dk]; [|by rewrite lookup_insert_ne in H1].
    rewrite lookup_insert_eq in H1. congruence.
Qed.

Lemma indexes_del (t : MessageTree) (ms : gmap nat Message) (name : Message -> option (list ascii)) (p : nat)
    (m : Message) (c : list ascii) :
  indexes t ms name -> ms !! p = Some m -> name m = Some c ->
  exists t' kept, del_msg_element t c = Ok (t', kept) /\ indexes t' (delete p ms) name.
Proof.
  intros I H E. assert (tree_get t (slots c) = Some p) as G by (apply I; eauto).
  destruct (del_get c t p G) as (t' & kept & D & _ & G'). exists t', kept. split; [done|].
  intros ks k. rewrite G'. destruct (decide (ks = slots c)) as [->|N].
  - split; [done|]. intros (m' & c' & H1 & H2 & H3). apply lookup_delete_Some in H1 as [N H1].
    assert (tree_get t (slots c) = Some k) by (apply I; eauto). congruence.
  - rewrite (I ks k). split; intros (m' & c' & H1 & H2 & H3); exists m', c'; (split; [|done]).
    + apply lookup_delete_Some. split; [|done]. intros ->. congruence.
    + by apply lookup_delete_Some in H1 as [_ H1].
Qed.

Lemma indexes_forget (t : MessageTree) (ms : gmap nat Message) (name : Message -> option (list ascii)) (p : nat) (m : Message) :
  indexes t ms name -> ms !! p = Some m -> name m = None -> indexes t (delete p ms) name.
Proof.
  intros I H E ks k. rewrite (I ks k). split; intros (m' & c' & H1 & H2 & H3); exists m', c'; (split; [|done]).
  - apply lookup_delete_Some. split; [|done]. intros ->. congruence.
  - by apply lookup_delete_Some in H1 as [_ H1].
Qed.

(** *** The table at start *)
Definition names_ok (tab : list Message) : bool :=
  forallb (fun m => command_nameb (cmd m) && command_nameb (tok m) && bool_decide (extra m = None)) tab.

Lemma command_nameb_name (c : list ascii) : command_nameb c = true -> command_name c.
Proof. intros H. apply Forall_forall. intros x Hx. unfold command_nameb in H. rewrite forallb_forall in H.
  apply H. by apply list_elem_of_In. Qed.

Lemma msgtab_names : names_ok msgtab = true.
Proof. vm_compute. reflexivity. Qed.
Lemma msgtab_cmds : NoDup (map (fun m => slots (cmd m)) msgtab).
Proof. apply (bool_decide_unpack _). vm_compute. exact I. Qed.
Lemma msgtab_toks : NoDup (map (fun m => slots (tok m)) msgtab).
Proof. apply (bool_decide_unpack _). vm_compute. exact I. Qed.

(** Adding entries under new names, one after the other. *)
Lemma init_index (name : Message -> list ascii) (key : Message -> option (list ascii))
    (tab : list Message) : (forall m, m ∈ tab -> key m = Some (name m)) -> NoDup (map (fun m => slots (name m)) tab) ->
  forall t ms i, indexes t ms key -> (forall k m, ms !! k = Some m -> k < i) ->
  (forall m, m ∈ tab -> tree_get t (slots (name m)) = None) ->
  indexes ((fix go t i tab := match tab with [] => t | m :: tab => go (add_msg_element t i (name m)) (S i) tab end) t i tab)
          ((fix go ms i tab := match tab with [] => ms | m :: tab => go (<[i := m]> ms) (S i) tab end) ms i tab) key.
Proof.
  induction tab as [|m tab IH]; intros K ND t ms i I L G; [done|].
  cbn [map] in ND. apply NoDup_cons in ND as [Nm ND].
  assert (ms !! i = None) as Ni. { destruct (ms !! i) eqn:E; [|done]. apply L in E. lia. }
  apply IH.
  - intros m' Hm. apply K. by right.
  - done.
  - apply indexes_add; [done|done|apply K; by left|apply G; by left].
  - intros k m' [[<- <-]|[_ H]]%lookup_insert_Some; [lia|]. apply L in H. lia.
  - intros m' Hm. rewrite add_get, decide_False; [apply G; by right|]. intros E. apply Nm. rewrite <- E.
    by apply (list_elem_of_fmap_2 (fun m => slots (name m))).
Qed.

Lemma init_loop_eq (tab : list Message) : forall st i,
  msg_tree (init_loop st i tab) =
    (fix go t i tab := match tab with [] => t | m :: tab => go (add_msg_element t i (cmd m)) (S i) tab end) (msg_tree st) i tab /\
  tok_tree (init_loop st i tab) =
    (fix go t i tab := match tab with [] => t | m :: tab => go (add_msg_element t i (tok m)) (S i) tab end) (tok_tree st) i tab /\
  messages (init_loop st i tab) =
    (fix go ms i tab := match tab with [] => ms | m :: tab => go (<[i := m]> ms) (S i) tab end) (messages st) i tab.
Proof. induction tab as [|m tab IH]; intros st i; [done|]. cbn [init_loop]. apply IH. Qed.

Lemma init_messages (tab : list Message) : forall st i k, next_msg st = i ->
  (forall k m, messages st !! k = Some m -> k < i) ->
  messages (init_loop st i tab) !! k = (if k <? i then messages st !! k else tab !! (k - i)) /\
  next_msg (init_loop st i tab) = i + length tab.
Proof.
  induction tab as [|m tab IH]; intros st i k N L; cbn [init_loop length].
  - rewrite lookup_nil, Nat.add_0_r. split; [|done]. destruct (Nat.ltb_spec k i); [done|].
    destruct (messages st !! k) eqn:E; [|done]. apply L in E. lia.
  - destruct (IH (Commands (<[i:=m]> (messages st)) (add_msg_element (msg_tree st) i (cmd m))
      (add_msg_element (tok_tree st) i (tok m)) (S i)) (S i) k eq_refl) as [-> ->].
    + cbn [messages]. intros k' m' [[<- _]|[_ H]]%lookup_insert_Some; [lia|]. apply L in H. lia.
    + split; [|lia]. cbn [messages]. destruct (Nat.ltb_spec k i), (Nat.ltb_spec k (S i)); try lia.
      * by rewrite lookup_insert_ne by lia.
      * replace k with i by lia. by rewrite lookup_insert_eq, Nat.sub_diag.
      * by replace (k - i) with (S (k - S i)) by lia.
Qed.

Lemma init_lookup (k : nat) : messages initmsgtree !! k = msgtab !! k.
Proof.
  unfold initmsgtree. destruct (init_messages msgtab (Commands ∅ empty_node empty_node 0) 0 k eq_refl) as [-> _].
  - cbn [messages]. intros k' m H. by rewrite lookup_empty in H.
  - by rewrite Nat.sub_0_r.
Qed.

Lemma msgtab_entry (m : Message) : m ∈ msgtab -> command_name (cmd m) /\ command_name (tok m) /\ extra m = None.
Proof.
  intros H%list_elem_of_In. pose proof msgtab_names as N. unfold names_ok in N. rewrite forallb_forall in N.
  specialize (N m H). rewrite !andb_true_iff in N. destruct N as [[H1 H2] H3].
  split; [by apply command_nameb_name|]. split; [by apply command_nameb_name|]. by apply bool_decide_eq_true in H3.
Qed.

Lemma empty_index (key : Message -> option (list ascii)) : indexes empty_node ∅ key.
Proof. intros ks k. rewrite empty_get. split; [done|]. intros (m & c & H & _). by rewrite lookup_empty in H. Qed.

Lemma init_ok : commands_ok initmsgtree.
Proof.
  destruct (init_loop_eq msgtab (Commands ∅ empty_node empty_node 0) 0) as (E1 & E2 & E3).
  assert (forall k m, messages initmsgtree !! k = Some m -> m ∈ msgtab /\ k < length msgtab) as B.
  { intros k m. rewrite init_lookup. intros H. split; [by eapply list_elem_of_lookup_2|by eapply lookup_lt_Some]. }
  split.
  - unfold initmsgtree. rewrite E1, E3. apply (init_index cmd by_cmd); cbn.
    + done.
    + apply msgtab_cmds.
    + apply empty_index.
    + intros k m H. by rewrite lookup_empty in H.
    + intros. apply empty_get.
  - unfold initmsgtree. rewrite E2, E3. apply (init_index tok by_tok); cbn.
    + intros m H. unfold by_tok. by rewrite (proj2 (proj2 (msgtab_entry m H))).
    + apply msgtab_toks.
    + apply empty_index.
    + intros k m H. by rewrite lookup_empty in H.
    + intros. apply empty_get.
  - intros k m H. apply B in H as [H _]. split; apply msgtab_entry in H; tauto.
  - intros k m H. apply B in H as [_ H]. unfold initmsgtree.
    destruct (init_messages msgtab (Commands ∅ empty_node empty_node 0) 0 0 eq_refl) as [_ ->]; [|lia].
    cbn [messages]. intros k' m' H'. by rewrite lookup_empty in H'.
  - intros k m H. by rewrite init_lookup.
Qed.

(** What a lookup means in a table that is in order. *)
Lemma parse_index (t : MessageTree) (ms : gmap nat Message) (key : Message -> option (list ascii)) :
  indexes t ms key -> (forall k m c, ms !! k = Some m -> key m = Some c -> command_name c) ->
  forall c k, msg_tree_parse c t = Some k <-> exists m d, ms !! k = Some m /\ key m = Some d /\ upper c = upper d.
Proof.
  intros I N c k. rewrite msg_tree_parse_get. split.
  - destruct (command_nameb c) eqn:B; [|done]. intros H. apply I in H as (m & d & H1 & H2 & H3).
    exists m, d. split; [done|]. split; [done|]. apply slots_upper; [by eapply N|done].
  - intros (m & d & H1 & H2 & H3). apply slots_upper in H3 as [-> ->]; [|by eapply N]. apply I. eauto.
Qed.

(** *** Modules and service mappings at run time *)

(** A message a module or a mapping added: not one of the table's. *)
Definition added (st : commands) (p : nat) (m : Message) : Prop :=
  messages st !! p = Some m /\ length msgtab <= p.

(** What happens at run time.  That a removal always returns is part of the theorem below,
    so no step is left out by asking for its result. *)
Inductive cmd_step : commands -> commands -> Prop :=
| step_add st c t n f hs :
    command_name c -> (forall t', t = Some t' -> command_name t') ->
    cmd_step st (parse_add_command st c t n f hs).1
| step_del st p m st' :
    added st p m -> extra m = None -> parse_del_command st p = Ok st' -> cmd_step st st'
| step_register st map :
    command_name (s_command map) -> cmd_step st (register_mapping st map).1
| step_unregister st map p m st' z :
    added st p m -> extra m = Some (s_addr map) -> cmd m = s_command map ->
    unregister_mapping st map p = Ok (st', z) -> cmd_step st st'.

Lemma free_address (st : commands) : commands_ok st -> messages st !! next_msg st = None.
Proof.
  intros O. destruct (messages st !! next_msg st) eqn:E; [|done]. apply (ok_next st O) in E. lia.
Qed.

Lemma name_free (c : list ascii) (t : MessageTree) : command_name c -> msg_tree_parse c t = None -> tree_get t (slots c) = None.
Proof.
  intros N. rewrite msg_tree_parse_get. destruct (command_nameb c) eqn:B; [done|].
  exfalso. apply not_true_iff_false in B. apply B. unfold command_nameb. rewrite forallb_forall.
  intros x Hx. unfold command_name in N. rewrite Forall_forall in N. by apply N, list_elem_of_In.
Qed.

Lemma core_insert (st : commands) (m : Message) : commands_ok st ->
  forall k m0, msgtab !! k = Some m0 -> <[next_msg st := m]> (messages st) !! k = Some m0.
Proof.
  intros O k m0 H. apply (ok_core st O) in H. rewrite lookup_insert_ne; [done|]. apply (ok_next st O) in H. lia.
Qed.

Lemma core_delete (st : commands) (p : nat) : commands_ok st -> length msgtab <= p ->
  forall k m0, msgtab !! k = Some m0 -> delete p (messages st) !! k = Some m0.
Proof.
  intros O L k m0 H. pose proof (lookup_lt_Some _ _ _ H). apply (ok_core st O) in H.
  rewrite lookup_delete_ne; [done|lia].
Qed.

Lemma add_command_ok (st : commands) (c : list ascii) (t : option (list ascii)) (n f : Z) (hs : list (option string)) :
  commands_ok st -> command_name c -> (forall t', t = Some t' -> command_name t') ->
  commands_ok (parse_add_command st c t n f hs).1.
Proof.
  intros O Nc Nt. unfold parse_add_command. set (t0 := match t with Some t => t | None => c end).
  assert (command_name t0) as N0 by (unfold t0; destruct t; [by apply Nt|done]).
  destruct (msg_tree_parse c (msg_tree st)) eqn:E1; [done|].
  destruct (msg_tree_parse t0 (tok_tree st)) eqn:E2; [done|]. pose proof (free_address st O) as Fr. split; cbn [fst messages msg_tree tok_tree next_msg].
  - apply indexes_add; [apply O|done|done|by apply name_free].
  - apply indexes_add; [apply O|done|done|by apply name_free].
  - intros k m [[<- <-]|[_ H]]%lookup_insert_Some; [done|]. by apply (ok_names st O) in H.
  - intros k m [[<- <-]|[_ H]]%lookup_insert_Some; [lia|]. apply (ok_next st O) in H. lia.
  - by apply core_insert.
Qed.

Lemma register_ok (st : commands) (map : s_map) : commands_ok st -> command_name (s_command map) ->
  commands_ok (register_mapping st map).1.
Proof.
  intros O Nc. unfold register_mapping. destruct (msg_tree_parse (s_command map) (msg_tree st)) eqn:E1; [done|].
  pose proof (free_address st O) as Fr. split; cbn [fst messages msg_tree tok_tree next_msg].
  - apply indexes_add; [apply O|done|done|by apply name_free].
  - apply indexes_other; [apply O|done|done].
  - intros k m [[<- <-]|[_ H]]%lookup_insert_Some; [done|]. by apply (ok_names st O) in H.
  - intros k m [[<- <-]|[_ H]]%lookup_insert_Some; [lia|]. apply (ok_next st O) in H. lia.
  - by apply core_insert.
Qed.

(** Removing an added command cannot fail and keeps the tables in order. *)
Lemma del_ok (st : commands) (p : nat) (m : Message) : commands_ok st -> added st p m -> extra m = None ->
  exists st', parse_del_command st p = Ok st' /\ commands_ok st' /\ messages st' = delete p (messages st).
Proof.
  intros O [H L] E. unfold parse_del_command. rewrite H.
  destruct (indexes_del _ _ by_cmd p m (cmd m) (ok_msg st O) H eq_refl) as (t1 & k1 & -> & I1). cbn [obind].
  destruct (indexes_del _ _ by_tok p m (tok m) (ok_tok st O) H) as (t2 & k2 & -> & I2); [unfold by_tok; by rewrite E|].
  cbn [obind]. eexists. split; [done|]. split; [|done]. split; cbn [messages msg_tree tok_tree next_msg]; try done.
  - intros k m' [_ H']%lookup_delete_Some. by apply (ok_names st O) in H'.
  - intros k m' [_ H']%lookup_delete_Some. by apply (ok_next st O) in H'.
  - by apply core_delete.
Qed.

Lemma unregister_ok (st : commands) (map : s_map) (p : nat) (m : Message) : commands_ok st -> added st p m ->
  extra m = Some (s_addr map) -> cmd m = s_command map ->
  exists st', unregister_mapping st map p = Ok (st', 1%Z) /\ commands_ok st' /\ messages st' = delete p (messages st).
Proof.
  intros O [H L] E C. unfold unregister_mapping.
  assert (msg_tree_parse (s_command map) (msg_tree st) = Some p) as ->.
  { apply (parse_index _ _ by_cmd (ok_msg st O)).
    - intros k m' c H' [= <-]. by apply (ok_names st O) in H' as [? _].
    - exists m, (cmd m). rewrite <- C. done. }
  rewrite H. destruct (indexes_del _ _ by_cmd p m (cmd m) (ok_msg st O) H eq_refl) as (t1 & k1 & -> & I1). cbn [obind].
  eexists. split; [done|]. split; [|done]. split; cbn [messages msg_tree tok_tree next_msg]; try done.
  - apply (indexes_forget _ _ by_tok p m); [apply O|done|unfold by_tok; by rewrite E].
  - intros k m' [_ H']%lookup_delete_Some. by apply (ok_names st O) in H'.
  - intros k m' [_ H']%lookup_delete_Some. by apply (ok_next st O) in H'.
  - by apply core_delete.
Qed.

Lemma cmd_step_ok (st st' : commands) : cmd_step st st' -> commands_ok st -> commands_ok st'.
Proof.
  intros S O. destruct S.
  - by apply add_command_ok.
  - destruct (del_ok st p m O) as (st2 & E & O' & _); [done|done|congruence].
  - by apply register_ok.
  - destruct (unregister_ok st map p m O) as (st2 & E & O' & _); [done|done|done|congruence].
Qed.

Lemma reachable_commands_ok (st : commands) : rtc cmd_step initmsgtree st -> commands_ok st.
Proof.
  intros R. remember initmsgtree as s0 eqn:E. assert (commands_ok s0) as O by (subst; apply init_ok). clear E.
  induction R; [done|]. apply IHR. by eapply cmd_step_ok.
Qed.

(** C28: whatever modules and service mappings add and remove under names of letters
    and underscores, a client's command is looked up right: a name finds a message
    exactly when that message is registered under it, in any case, a token likewise
    among the messages that have one, and no entry of [msgtab] is ever lost or
    replaced.  Removing an added command, or a mapping that is registered, follows no NULL
    pointer and takes out exactly its message. *)
Theorem command_lookup_exact (st : commands) : rtc cmd_step initmsgtree st ->
  (forall c k, msg_tree_parse c (msg_tree st) = Some k <->
     exists m, messages st !! k = Some m /\ upper c = upper (cmd m)) /\
  (forall c k, msg_tree_parse c (tok_tree st) = Some k <->
     exists m, messages st !! k = Some m /\ extra m = None /\ upper c = upper (tok m)) /\
  (forall k m, msgtab !! k = Some m -> messages st !! k = Some m) /\
  (forall p m, added st p m -> extra m = None -> exists st', parse_del_command st p = Ok st' /\ messages st' = delete p (messages st)) /\
  (forall map p m, added st p m -> extra m = Some (s_addr map) -> cmd m = s_command map ->
     exists st', unregister_mapping st map p = Ok (st', 1%Z) /\ messages st' = delete p (messages st)).
Proof.
  intros O%reachable_commands_ok. split; [|split; [|split; [|split]]].
  - intros c k. rewrite (parse_index _ _ by_cmd (ok_msg st O)).
    + split; [intros (m & d & H & [= <-] & U); eauto|]. intros (m & H & U). by exists m, (cmd m).
    + intros k' m' d H' [= <-]. by apply (ok_names st O) in H' as [? _].
  - intros c k. rewrite (parse_index _ _ by_tok (ok_tok st O)).
    + unfold by_tok. split.
      * intros (m & d & H & K & U). destruct (extra m) eqn:E; [done|]. injection K as <-. eauto.
      * intros (m & H & E & U). exists m, (tok m). by rewrite E.
    + unfold by_tok. intros k' m' d H' K. destruct (extra m'); [done|]. injection K as <-.
      by apply (ok_names st O) in H' as [_ ?].
  - apply O.
  - intros p m H E. destruct (del_ok st p m O H E) as (st' & D & _ & G). eauto.
  - intros map p m H E C. destruct (unregister_ok st map p m O H E C) as (st' & D & _ & G). eauto.
Qed.

Definition with_spam : commands :=
  (parse_add_command initmsgtree (cstr "SPAMFILTER") (Some (cstr "SF")) MAXPARA 0 [None; Some "m_spam"%string]).1.

Lemma command_lookup_exact_witness :
  exists m, messages with_spam !! length msgtab = Some m /\
    (exists k m', messages with_spam !! k = Some m' /\ upper (cstr "privmsg") = upper (cmd m')).
Proof.
  assert (rtc cmd_step initmsgtree with_spam) as R.
  { eapply rtc_l; [|apply rtc_refl]. apply step_add.
    - apply command_nameb_name. vm_compute. reflexivity.
    - intros t' [= <-]. apply command_nameb_name. vm_compute. reflexivity. }
  destruct (command_lookup_exact with_spam R) as (A & _).
  destruct (msg_tree_parse (cstr "spamFILTER") (msg_tree with_spam)) as [k|] eqn:E1; [|exfalso; vm_compute in E1; discriminate E1].
  destruct (msg_tree_parse (cstr "privmsg") (msg_tree with_spam)) as [k2|] eqn:E2; [|exfalso; vm_compute in E2; discriminate E2].
  assert (k = length msgtab) as -> by (vm_compute in E1; injection E1 as <-; vm_compute; reflexivity).
  destruct (proj1 (A _ _) E1) as (m & H1 & _). destruct (proj1 (A _ _) E2) as (m2 & H2 & U). eauto 6.
Defined.

(** A name with other characters slips past the check of [parse_add_command]: a
    module that registers "NIC+" is told it succeeded, and from then on the NICK
    command of every client is the module's, because the two last characters share a
    slot of the trie. *)
Theorem module_command_shadows_core :
  msg_tree_parse (cstr "NICK") (msg_tree initmsgtree) = Some 1 /\
  let '(st, r) := parse_add_command initmsgtree (cstr "NIC+") None MAXPARA 0 [] in
  r = Some (length msgtab) /\ msg_tree_parse (cstr "NICK") (msg_tree st) = Some (length msgtab).
Proof. vm_compute. auto. Qed.
