(* ===== verification/Parse.v ===== *)
(** * Parsing a line: [parse_client] and [parse_server] of [ircd/parse.c]

    The input buffer is the list of the bytes from its start to the end of the array;
    a pointer into it is a suffix of that list, and reading at the end of the list is
    [Oob].  The parsers stop where they call [parse_dispatch] or [do_numeric]: the
    result says with which arguments, what the line costs its sender, and which
    statistics and messages the call leaves behind. *)

From stdpp Require Import base list gmap strings.
From Stdlib Require Import ZArith Lia Ascii.
From S2P Require Import Prelude Chattr MsgTab Commands.

Local Open Scope ircu_scope.

(** ** Pointers *)
Definition rd (p : list ascii) : outcome ascii :=
  match p with [] => Oob | c :: _ => Ok c end.
(** [p[i]] and [p + i] *)
Definition rd_at (p : list ascii) (i : nat) : outcome ascii := rd (drop i p).

(** [while ( *p == ' ') p++] *)
Fixpoint skip_spaces (p : list ascii) : outcome (list ascii) :=
  match p with
  | [] => Oob
  | c :: p' => if c =c " " then skip_spaces p' else Ok p
  end.

(** [for (; *p && *p != ' '; p++)] *)
Fixpoint to_space (p : list ascii) : outcome (list ascii) :=
  match p with
  | [] => Oob
  | c :: p' => if (c =c " ") || (c =c NUL) then Ok p else to_space p'
  end.

(** The C string at [p]. *)
Fixpoint cstring (p : list ascii) : outcome (list ascii) :=
  match p with
  | [] => Oob
  | c :: p' => if c =c NUL then Ok [] else let* s := cstring p' in Ok (c :: s)
  end.

(** [strchr(p, ' ')]: the word before the space and the pointer at it. *)
Definition strchr_space (p : list ascii) : outcome (list ascii * option (list ascii)) :=
  let* q := to_space p in
  let* c := rd q in
  Ok (take (length p - length q) p, if c =c " " then Some q else None).

(** [p < bufend] and [bufend - p], [be] being the bytes from [bufend] to the array's end. *)
Definition before_end (p : list ascii) (be : nat) : bool := be <? length p.
Definition to_end (p : list ascii) (be : nat) : Z := Z.of_nat (length p) - Z.of_nat be.

(** [while (p < bufend && *p != ' ') p++] *)
Fixpoint tag_scan (p : list ascii) (be : nat) : list ascii :=
  match p with
  | [] => []
  | c :: p' => if before_end p be && negb (c =c " ") then tag_scan p' be else p
  end.

(** [for (; p < bufend && *p == ' '; p++)] *)
Fixpoint skip_spaces_to (p : list ascii) (be : nat) : list ascii :=
  match p with
  | [] => []
  | c :: p' => if before_end p be && (c =c " ") then skip_spaces_to p' be else p
  end.

(** The position behind the tags and the section given to [msg_tag_parse]; [None] is NULL. *)
Definition parse_msg_tags (ch : list ascii) (be : nat) : outcome (option (list ascii * option (list ascii))) :=
  let* c := rd ch in
  if negb (c =c "@") then Ok (Some (ch, None))
  else
    let tag_end := tag_scan ch be in
    if negb (before_end tag_end be) then Ok None
    else
      let* c := rd tag_end in
      if negb (c =c " ") then Ok None
      else Ok (Some (drop 1 tag_end, Some (take (length ch - 1 - length tag_end) (drop 1 ch)))).

(** ** The world around the parser *)
Record world : Type := World {
  cli_name : nat -> list ascii;
  cli_from : nat -> nat;
  cli_handler : nat -> nat;
  IsDead : nat -> bool;
  IsServer : nat -> bool;
  IsUser : nat -> bool;
  IsAnOper : nat -> bool;
  multiline_in_progress : nat -> bool;
  idle_from_msg : bool;                            (** [FEAT_IDLE_FROM_MSG] *)
  FindClient : list ascii -> option nat;
  FindNServer : list ascii -> option nat;
  findNUser : list ascii -> option nat
}.

(** An element of [para]: text, or the [extra] pointer of a service mapping. *)
Inductive arg : Type := Text (s : list ascii) | Extra (p : option nat).

Inductive stat : Type := is_empt | is_unco | is_unpf | is_wrdi | is_num.

Inductive note : Type :=
| Stat (s : stat)
| InputTooLong (to : nat)
| UnknownCommand (to : nat) (cmd : list ascii)
| MissingPrefix (from : nat)
| KillUnknown (numeric : list ascii)
| Charge (who : nat) (seconds : Z)                  (** added to [cli_since] *)
| Bytes (m : nat) (n : Z)                           (** added to [mptr->bytes] *)
| Counted (m : nat)                                 (** [++mptr->count] *)
| Tags (section : list ascii) (filtered : bool)
| Idle (who : nat).                                 (** [cli_user(from)->last = CurrentTime] *)

Inductive result : Type :=
| Return (r : Z)
| Dispatch (from m : nat) (handler : string) (parv : list arg)
| Numeric (n : Z) (nnn : bool) (from : nat) (parv : list arg).

(** ** Parameters *)

(** The parameter loop from pointer [s] on, [i] parameters being stored; [colon] keeps
    the colon of the last one. *)
Fixpoint split_params (fuel : nat) (s : list ascii) (i paramcount : Z) (colon : bool) : outcome (list (list ascii)) :=
  match fuel with
  | O => Fuel
  | S fuel =>
      let* s := skip_spaces s in
      let* c := rd s in
      if c =c NUL then Ok []
      else if c =c ":" then
        let* p := cstring (if colon then s else drop 1 s) in Ok [p]
      else if (paramcount <=? i + 1)%Z then
        let* p := cstring s in Ok [p]
      else
        let* s' := to_space s in
        let* ps := split_params fuel s' (i + 1)%Z paramcount colon in
        Ok (take (length s - length s') s :: ps)
  end.

Definition params (s : option (list ascii)) (i parameters : Z) (colon : bool) : outcome (list (list ascii)) :=
  match s with
  | None => Ok []
  | Some s => split_params (S (length s)) s i (if (MAXPARA <? parameters)%Z then MAXPARA else parameters) colon
  end.

(** [sizeof] of what the size checks compare with. *)
Definition BUFSIZE : Z := 512.
Definition TAGDATA_CLIENT_MAX : Z := 4094.
Definition size_t (z : Z) : Z := (z mod 2 ^ 64)%Z.

Section Parsers.
Context (W : world) (C : commands).

(** A message of the table; every index in a trie is one. *)
Definition message (m : nat) : Message := default (Msg [] [] 0 0 0 0 None [] no_subject no_subject) (messages C !! m).
Definition handler_of (m cptr : nat) : string := nth (cli_handler W cptr) (handlers (message m)) "m_ignore"%string.

(** From the command on. *)
Definition client_command (cptr : nat) (buffer ch : list ascii) (be : nat) (tag_len : Z) :
    outcome (list note * result) :=
  let* c := rd ch in
  if c =c NUL then Ok ([Stat is_empt], Return (-1))
  else
    let* (word, s) := strchr_space ch in
    match msg_tree_parse word (msg_tree C) with
    | None =>
        let* b := rd buffer in
        Ok ((if negb (b =c NUL) && IsUser W cptr then [UnknownCommand cptr word] else []) ++ [Stat is_unco], Return (-1))
    | Some m =>
        let s := option_map (drop 1) s in
        let i := to_end (match s with Some s => s | None => ch end) be in
        let charge :=
          if negb (Z.land (flags (message m)) MFLG_SLOW =? 0)%Z || negb (IsAnOper W cptr) then
            [Charge cptr ((if multiline_in_progress W cptr then 0 else 2) + Z.quot i 120 + Z.quot tag_len 512)]
          else [] in
        let has_extra := negb (Z.land (flags (message m)) MFLG_EXTRA =? 0)%Z in
        let* ps := params s (if has_extra then 1 else 0) (parameters (message m)) false in
        let h := handler_of m cptr in
        let idle :=
          if negb (idle_from_msg W) && IsUser W cptr && negb (String.eqb h "m_ping") && negb (String.eqb h "m_ignore")
          then [Idle cptr] else [] in
        Ok (Bytes m i :: charge ++ Counted m :: idle,
            Dispatch cptr m h
              (Text (cli_name W cptr) :: (if has_extra then [Extra (extra (message m))] else []) ++ map Text ps))
    end.

Definition parse_client (cptr : nat) (buffer : list ascii) (bufend : nat) : outcome (list note * result) :=
  let be := length buffer - bufend in
  if IsDead W cptr then Ok ([], Return 0)
  else
    let* ch := skip_spaces buffer in
    let* c := rd ch in
    let tag_end := tag_scan (drop 1 ch) be in
    let tagged := c =c "@" in
    if tagged && negb (IsServer W cptr) &&
       (TAGDATA_CLIENT_MAX <? size_t (Z.of_nat (length (drop 1 ch)) - Z.of_nat (length tag_end)))%Z
    then Ok ([InputTooLong cptr], Return (-1))
    else
      let tag_len :=
        if tagged then
          (Z.of_nat (length ch) - Z.of_nat (length tag_end) +
           (if before_end tag_end be && (deref tag_end =c " ") then 1 else 0))%Z
        else 0%Z in
      let* t := parse_msg_tags ch be in
      match t with
      | None => Ok ([], Return (-1))
      | Some (ch, section) =>
          let tags := match section with Some x => [Tags x (negb (IsServer W cptr))] | None => [] end in
          if (BUFSIZE - 2 <? size_t (to_end ch be))%Z then Ok (tags ++ [InputTooLong cptr], Return (-1))
          else
            let* c := rd ch in
            let* ch := if c =c ":" then let* p := to_space (drop 1 ch) in skip_spaces p else Ok ch in
            let* (notes, r) := client_command cptr buffer ch be tag_len in
            Ok (tags ++ notes, r)
      end.

(** [numeric_prefix]: at most five characters. *)
Fixpoint numeric_prefix (n : nat) (p : list ascii) : outcome (list ascii) :=
  match n with
  | O => Ok []
  | S n =>
      let* c := rd p in
      if (c =c NUL) || (c =c " ") then Ok []
      else let* r := numeric_prefix n (drop 1 p) in Ok (c :: r)
  end.

Definition schar (c : ascii) : Z := if (uchar c <? 128)%Z then uchar c else (uchar c - 256)%Z.

(** Where the source is known: its name for [para[0]] and the client. *)
Inductive source : Type :=
| From (notes : list note) (ch : list ascii) (name : list ascii) (from : nat)
| Stop (notes : list note) (r : Z).

Definition colon_prefix (cptr : nat) (ch : list ascii) : outcome source :=
  let* (word, s) := strchr_space ch in
  match s with
  | None => Ok (Stop [] (-1))
  | Some s =>
      let name := drop 1 word in
      let ch := drop 1 s in
      match FindClient W name with
      | None =>
          let* ch := skip_spaces ch in
          let* c1 := rd_at ch 1 in
          if c1 =c "Q" then Ok (From [Stat is_unpf] ch (cli_name W cptr) cptr)
          else Ok (Stop [Stat is_unpf] 0)
      | Some from =>
          if cli_from W from =? cptr then Ok (From [] ch name from)
          else Ok (Stop [Stat is_wrdi] 0)
      end
  end.

(** [ch[1] == 'Q' || ( *ch == 'D' && ch[1] == ' ') || ( *ch == 'K' && ch[2] == 'L')] *)
Definition travels_upstream (ch : list ascii) : outcome bool :=
  let* c1 := rd_at ch 1 in
  let* c0 := rd ch in
  if (c1 =c "Q") || ((c0 =c "D") && (c1 =c " ")) then Ok true
  else if c0 =c "K" then let* c2 := rd_at ch 2 in Ok (c2 =c "L")
  else Ok false.

Definition numnick_prefix (cptr : nat) (ch : list ascii) : outcome source :=
  let* np := numeric_prefix 5 ch in
  let* (notes, from) :=
    match np with
    | [] => Ok ([MissingPrefix cptr], Some cptr)
    | _ =>
        let* c1 := rd_at ch 1 in
        let* srv := if c1 =c " " then Ok true else let* c2 := rd_at ch 2 in Ok (c2 =c " ") in
        Ok ([], if srv then FindNServer W np else findNUser W np)
    end in
  let* ch := to_space (drop 1 ch) in
  let checked (notes : list note) (ch : list ascii) (from : nat) :=
    if cli_from W from =? cptr then From notes ch (cli_name W from) from
    else Stop (notes ++ [Stat is_wrdi]) 0 in
  match from with
  | Some from => Ok (checked notes ch from)
  | None =>
      let* ch := skip_spaces ch in
      let* c0 := rd ch in
      let* kill :=
        if c0 =c "N" then
          let* c1 := rd_at ch 1 in
          if (c1 =c " ") || (c1 =c "I") then
            Ok (match FindNServer W np with
                | Some server => if cli_from W server =? cptr then [KillUnknown np] else []
                | None => []
                end)
          else Ok []
        else Ok [] in
      let* up := travels_upstream ch in
      if up then Ok (checked (notes ++ Stat is_unpf :: kill) ch cptr)
      else Ok (Stop (notes ++ Stat is_unpf :: kill) 0)
  end.

(** The command or numeric behind the prefix. *)
Definition server_command (cptr from : nat) (name buffer ch : list ascii) (be : nat) : outcome (list note * result) :=
  let* ch := skip_spaces ch in
  let* c := rd ch in
  if c =c NUL then Ok ([Stat is_empt], Return (-1))
  else
    let* (word, s) := strchr_space ch in
    let len := match s with Some s => length ch - length s | None => 0 end in
    if (len =? 3) && IsDigit c then
      let n := ((schar c - 48) * 100 + (schar (nth 1 ch NUL) - 48) * 10 + (schar (nth 2 ch NUL) - 48))%Z in
      if (n <? 1)%Z || (999 <? n)%Z then Ok ([], Return (-1))
      else
        let* ps := params s 0 2 true in
        let* b := rd buffer in
        Ok ([Stat is_num], Numeric n (negb (b =c ":")) from (Text name :: map Text ps))
    else
      match match msg_tree_parse word (tok_tree C) with
            | Some m => Some m
            | None => msg_tree_parse word (msg_tree C)
            end with
      | None => Ok ([Stat is_unco], Return (-1))
      | Some m =>
          let s := option_map (drop 1) s in
          let i := to_end (match s with Some s => s | None => ch end) be in
          let* ps := params s 0 (parameters (message m)) false in
          Ok ([Bytes m i; Counted m], Dispatch from m (handler_of m cptr) (Text name :: map Text ps))
      end.

Definition parse_server (cptr : nat) (buffer : list ascii) (bufend : nat) : outcome (list note * result) :=
  let be := length buffer - bufend in
  if IsDead W cptr then Ok ([], Return 0)
  else
    let ch := skip_spaces_to buffer be in
    let* t := parse_msg_tags ch be in
    match t with
    | None => Ok ([], Return (-1))
    | Some (ch, section) =>
        let tags := match section with Some x => [Tags x false] | None => [] end in
        let* c := rd ch in
        let* src := if c =c ":" then colon_prefix cptr ch else numnick_prefix cptr ch in
        match src with
        | Stop notes r => Ok (tags ++ notes, Return r)
        | From notes ch name from =>
            let* (notes', r) := server_command cptr from name buffer ch be in
            Ok (tags ++ notes ++ notes', r)
        end
    end.
End Parsers.

(** ** Scanning inside a line

    A line in its buffer is [l ++ NUL :: rest]: the operations below stop at the NUL,
    whatever [rest] is. *)
Fixpoint lskip (l : list ascii) : list ascii :=
  match l with [] => [] | c :: l' => if c =c " " then lskip l' else l end.
Fixpoint lword (l : list ascii) : list ascii :=
  match l with [] => [] | c :: l' => if (c =c " ") || (c =c NUL) then [] else c :: lword l' end.
Fixpoint lrest (l : list ascii) : list ascii :=
  match l with [] => [] | c :: l' => if (c =c " ") || (c =c NUL) then l else lrest l' end.
Fixpoint lstring (l : list ascii) : list ascii :=
  match l with [] => [] | c :: l' => if c =c NUL then [] else c :: lstring l' end.
Fixpoint ltag (l : list ascii) : list ascii :=
  match l with [] => [] | c :: l' => if negb (c =c " ") then ltag l' else l end.

Section Line.
Context (rest : list ascii).
Abbreviation mem l := (l ++ NUL :: rest).

Lemma rd_line (l : list ascii) : rd (mem l) = Ok (deref l).
Proof. by destruct l. Qed.

Lemma skip_line (l : list ascii) : skip_spaces (mem l) = Ok (mem (lskip l)).
Proof. induction l as [|c l IH]; [done|]. cbn [app skip_spaces lskip]. by destruct (c =c " "). Qed.

Lemma to_space_line (l : list ascii) : to_space (mem l) = Ok (mem (lrest l)).
Proof. induction l as [|c l IH]; [done|]. cbn [app to_space lrest]. by destruct ((c =c " ") || (c =c NUL)). Qed.

Lemma cstring_line (l : list ascii) : cstring (mem l) = Ok (lstring l).
Proof. induction l as [|c l IH]; [done|]. cbn [app cstring lstring]. destruct (c =c NUL); [done|]. by rewrite IH. Qed.

Lemma word_rest (l : list ascii) : l = lword l ++ lrest l.
Proof. induction l as [|c l IH]; [done|]. cbn [lword lrest]. destruct (_ || _); [done|]. cbn. by f_equal. Qed.

Lemma word_take (l : list ascii) : take (length (mem l) - length (mem (lrest l))) (mem l) = lword l.
Proof.
  assert (length l = length (lword l) + length (lrest l)) as L by (rewrite (word_rest l) at 1; apply length_app).
  rewrite !length_app. replace (length l + _ - _) with (length (lword l)) by lia.
  rewrite (word_rest l) at 2. rewrite <- app_assoc. by rewrite take_app_length.
Qed.

Lemma strchr_line (l : list ascii) :
  strchr_space (mem l) = Ok (lword l, if deref (lrest l) =c " " then Some (mem (lrest l)) else None).
Proof. unfold strchr_space. rewrite to_space_line. cbn [obind]. rewrite rd_line. cbn [obind]. by rewrite word_take. Qed.

Lemma drop1_line (l : list ascii) : l <> [] -> drop 1 (mem l) = (mem (drop 1 l)).
Proof. by destruct l. Qed.

Lemma before_line (l : list ascii) : before_end (mem l) (S (length rest)) = negb (bool_decide (l = [])).
Proof.
  unfold before_end. rewrite length_app. cbn [length]. destruct l; cbn [length app].
  - rewrite (proj2 (Nat.ltb_ge _ _)) by lia. done.
  - rewrite (proj2 (Nat.ltb_lt _ _)) by lia. done.
Qed.

Lemma to_end_line (l : list ascii) : to_end (mem l) (S (length rest)) = Z.of_nat (length l).
Proof. unfold to_end. rewrite length_app. cbn [length]. lia. Qed.

Lemma tag_scan_line (l : list ascii) : tag_scan (mem l) (S (length rest)) = (mem (ltag l)).
Proof.
  induction l as [|c l IH].
  - cbn [app tag_scan]. change (NUL :: rest) with (mem ([])). by rewrite before_line.
  - cbn [app tag_scan ltag]. change (c :: l ++ NUL :: rest) with (mem (c :: l)). rewrite before_line.
    rewrite bool_decide_eq_false_2 by done. cbn [negb andb]. by destruct (c =c " ").
Qed.

Lemma ltag_length (l : list ascii) : length (ltag l) <= length l.
Proof. induction l as [|c l IH]; [done|]. cbn [ltag]. destruct (negb _); cbn [length]; lia. Qed.

Lemma lskip_length (l : list ascii) : length (lskip l) <= length l.
Proof. induction l as [|c l IH]; [done|]. cbn [lskip]. destruct (c =c " "); cbn [length]; lia. Qed.

Lemma lskip_head (l : list ascii) : lskip l = [] \/ exists c l', lskip l = c :: l' /\ (c =c " ") = false.
Proof. induction l as [|c l IH]; [by left|]. cbn [lskip]. destruct (c =c " ") eqn:E; [done|]. eauto. Qed.

Lemma lrest_shorter (c : ascii) (l : list ascii) : (c =c " ") = false -> (c =c NUL) = false ->
  length (lrest (c :: l)) <= length l.
Proof.
  intros E1 E2. cbn [lrest]. rewrite E1, E2. cbn [orb]. pose proof (f_equal length (word_rest l)) as L.
  rewrite length_app in L. lia.
Qed.

(** The parameter loop on a line. *)
Fixpoint lsplit (fuel : nat) (l : list ascii) (i paramcount : Z) (colon : bool) : list (list ascii) :=
  match fuel with
  | O => []
  | S fuel =>
      match lskip l with
      | [] => []
      | c :: l' =>
          if c =c NUL then []
          else if c =c ":" then [lstring (if colon then c :: l' else l')]
          else if (paramcount <=? i + 1)%Z then [lstring (c :: l')]
          else lword (c :: l') :: lsplit fuel (lrest (c :: l')) (i + 1)%Z paramcount colon
      end
  end.

Lemma split_line (fuel : nat) : forall l i n colon, length l < fuel ->
  split_params fuel (mem l) i n colon = Ok (lsplit fuel l i n colon).
Proof.
  induction fuel as [|fuel IH]; intros l i n colon L; [lia|]. cbn [split_params lsplit].
  rewrite skip_line. cbn [obind]. rewrite rd_line. cbn [obind]. pose proof (lskip_length l) as Ls.
  destruct (lskip_head l) as [->|(c & l' & E0 & E)]; [done|]. rewrite E0 in *. cbn [deref].
  destruct (c =c NUL) eqn:E2; [done|].
  destruct (c =c ":"); [|destruct (n <=? i + 1)%Z].
  - rewrite drop1_line by done. cbn [drop]. destruct colon; rewrite cstring_line; done.
  - by rewrite cstring_line.
  - rewrite to_space_line. cbn [obind]. pose proof (lrest_shorter c l' E E2) as Lr.
    rewrite (IH (lrest (c :: l'))) by (cbn [length] in Ls; lia). cbn [obind]. by rewrite word_take.
Qed.

Lemma lsplit_fuel (fuel : nat) : forall fuel' l i n colon, length l < fuel -> length l < fuel' ->
  lsplit fuel l i n colon = lsplit fuel' l i n colon.
Proof.
  induction fuel as [|fuel IH]; intros [|fuel'] l i n colon L L'; [lia|lia|lia|]. cbn [lsplit].
  pose proof (lskip_length l) as Ls. destruct (lskip_head l) as [->|(c & l' & E0 & E)]; [done|].
  rewrite E0 in *. destruct (c =c NUL) eqn:E2; [done|]. destruct (c =c ":"); [done|].
  destruct (n <=? i + 1)%Z; [done|]. f_equal. pose proof (lrest_shorter c l' E E2). cbn [length] in Ls. apply IH; lia.
Qed.

Definition lparams (l : option (list ascii)) (i parameters : Z) (colon : bool) : list (list ascii) :=
  match l with
  | None => []
  | Some l => lsplit (S (length l)) l i (if (MAXPARA <? parameters)%Z then MAXPARA else parameters) colon
  end.

Lemma params_line (l : option (list ascii)) (i n : Z) (colon : bool) :
  params (option_map (fun l => mem l) l) i n colon = Ok (lparams l i n colon).
Proof.
  destruct l as [l|]; [|done]. cbn [option_map params lparams]. rewrite split_line by (rewrite length_app; lia).
  f_equal. apply lsplit_fuel; rewrite ?length_app; lia.
Qed.

(** The space behind the first word, and what follows it. *)
Definition lafter (l : list ascii) : option (list ascii) :=
  match lrest l with c :: r => if c =c " " then Some r else None | [] => None end.

Lemma after_line (l : list ascii) :
  option_map (drop 1) (if deref (lrest l) =c " " then Some (mem (lrest l)) else None) =
  option_map (fun l => mem l) (lafter l).
Proof. unfold lafter. destruct (lrest l) as [|c r]; [done|]. cbn [deref]. by destruct (c =c " "). Qed.

Section LineClient.
Context (W : world) (C : commands).

Definition lclient_command (cptr : nat) (nonempty : bool) (l : list ascii) (tag_len : Z) : list note * result :=
  if deref l =c NUL then ([Stat is_empt], Return (-1))
  else
    match msg_tree_parse (lword l) (msg_tree C) with
    | None => ((if nonempty && IsUser W cptr then [UnknownCommand cptr (lword l)] else []) ++ [Stat is_unco], Return (-1))
    | Some m =>
        let i := Z.of_nat (length (match lafter l with Some s => s | None => l end)) in
        let charge :=
          if negb (Z.land (flags (message C m)) MFLG_SLOW =? 0)%Z || negb (IsAnOper W cptr) then
            [Charge cptr ((if multiline_in_progress W cptr then 0 else 2) + Z.quot i 120 + Z.quot tag_len 512)]
          else [] in
        let has_extra := negb (Z.land (flags (message C m)) MFLG_EXTRA =? 0)%Z in
        let ps := lparams (lafter l) (if has_extra then 1 else 0) (parameters (message C m)) false in
        let h := handler_of W C m cptr in
        let idle :=
          if negb (idle_from_msg W) && IsUser W cptr && negb (String.eqb h "m_ping") && negb (String.eqb h "m_ignore")
          then [Idle cptr] else [] in
        (Bytes m i :: charge ++ Counted m :: idle,
         Dispatch cptr m h
           (Text (cli_name W cptr) :: (if has_extra then [Extra (extra (message C m))] else []) ++ map Text ps))
    end.

Lemma client_command_line (cptr : nat) (buffer l : list ascii) (tag_len : Z) :
  client_command W C cptr (mem buffer) (mem l) (S (length rest)) tag_len =
  Ok (lclient_command cptr (negb (deref buffer =c NUL)) l tag_len).
Proof.
  unfold client_command, lclient_command. rewrite rd_line. cbn [obind]. destruct (deref l =c NUL); [done|].
  rewrite strchr_line. cbn [obind]. destruct (msg_tree_parse (lword l) (msg_tree C)) as [m|].
  - rewrite after_line, params_line. cbn [obind].
    assert (to_end (match option_map (fun l => mem l) (lafter l) with Some s => s | None => mem l end) (S (length rest)) =
      Z.of_nat (length (match lafter l with Some s => s | None => l end))) as ->; [|done].
    destruct (lafter l); apply to_end_line.
  - rewrite rd_line. done.
Qed.

Lemma ltag_cases (l : list ascii) : ltag l = [] \/ exists r, ltag l = " "%char :: r.
Proof.
  induction l as [|c l IH]; [by left|]. cbn [ltag]. destruct (Ascii.eqb_spec c " ") as [->|N]; cbn [negb]; eauto.
Qed.

Definition ltags (l : list ascii) : option (list ascii * option (list ascii)) :=
  if negb (deref l =c "@") then Some (l, None)
  else match ltag l with [] => None | _ :: r => Some (r, Some (take (length l - 1 - length (ltag l)) (drop 1 l))) end.

Lemma tags_line (l : list ascii) :
  parse_msg_tags (mem l) (S (length rest)) = Ok (option_map (fun '(r, s) => (mem r, s)) (ltags l)).
Proof.
  unfold parse_msg_tags, ltags. rewrite rd_line. cbn [obind]. destruct (deref l =c "@") eqn:D; [|done]. cbn [negb].
  rewrite tag_scan_line, before_line. pose proof (ltag_length l) as Lt.
  destruct (ltag_cases l) as [E|[r E]]; rewrite E in *; [done|]. rewrite bool_decide_eq_false_2 by done. cbn [negb].
  rewrite rd_line. cbn [obind deref Ascii.eqb Bool.eqb negb option_map]. do 4 f_equal.
  destruct l as [|c l]; [done|]. cbn [length drop app] in *. rewrite !length_app. cbn [length] in *.
  rewrite !drop_0, take_app_le by lia. f_equal. lia.
Qed.

Definition lparse_client (cptr : nat) (l : list ascii) : list note * result :=
  if IsDead W cptr then ([], Return 0)
  else
    let ch := lskip l in
    let tagged := deref ch =c "@" in
    let tag_end := ltag (drop 1 ch) in
    if tagged && negb (IsServer W cptr) && (TAGDATA_CLIENT_MAX <? size_t (Z.of_nat (length (drop 1 ch)) - Z.of_nat (length tag_end)))%Z
    then ([InputTooLong cptr], Return (-1))
    else
      let tag_len :=
        if tagged then (Z.of_nat (length ch) - Z.of_nat (length tag_end) + (if deref tag_end =c " " then 1 else 0))%Z else 0%Z in
      match ltags ch with
      | None => ([], Return (-1))
      | Some (ch, section) =>
          let tags := match section with Some x => [Tags x (negb (IsServer W cptr))] | None => [] end in
          if (BUFSIZE - 2 <? size_t (Z.of_nat (length ch)))%Z then (tags ++ [InputTooLong cptr], Return (-1))
          else
            let ch := if deref ch =c ":" then lskip (lrest (drop 1 ch)) else ch in
            let '(notes, r) := lclient_command cptr (negb (deref l =c NUL)) ch tag_len in
            (tags ++ notes, r)
      end.

(** Everything behind the tags. *)
Lemma client_tail_line (cptr : nat) (l ch : list ascii) (tags : list note) (tag_len : Z) :
  (let* c := rd (mem ch) in
   let* ch := if c =c ":" then let* p := to_space (drop 1 (mem ch)) in skip_spaces p else Ok (mem ch) in
   let* (notes, r) := client_command W C cptr (mem l) ch (S (length rest)) tag_len in
   Ok (tags ++ notes, r)) =
  Ok (let ch := if deref ch =c ":" then lskip (lrest (drop 1 ch)) else ch in
      let '(notes, r) := lclient_command cptr (negb (deref l =c NUL)) ch tag_len in
      (tags ++ notes, r)).
Proof.
  rewrite rd_line. cbn [obind]. destruct (deref ch =c ":") eqn:D.
  - rewrite drop1_line by (intros ->; done). rewrite to_space_line. cbn [obind]. rewrite skip_line. cbn [obind].
    rewrite client_command_line. cbn [obind]. by destruct (lclient_command _ _ _ _).
  - cbn [obind]. rewrite client_command_line. cbn [obind]. by destruct (lclient_command _ _ _ _).
Qed.

Lemma parse_client_line (cptr : nat) (l : list ascii) :
  parse_client W C cptr (mem l) (length l) = Ok (lparse_client cptr l).
Proof.
  unfold parse_client, lparse_client. destruct (IsDead W cptr); [done|].
  replace (length (mem l) - length l) with (S (length rest)) by (rewrite length_app; cbn; lia).
  rewrite skip_line. cbn [obind]. rewrite rd_line. cbn [obind]. set (ch := lskip l).
  rewrite tags_line. cbn [obind]. destruct (deref ch =c "@") eqn:D; cbn [andb].
  - assert (ch <> []) as Ne by (intros E; by rewrite E in D).
    rewrite drop1_line, tag_scan_line, before_line by done. rewrite !length_app.
    replace (Z.of_nat (length (drop 1 ch) + length (NUL :: rest)) - Z.of_nat (length (ltag (drop 1 ch)) + length (NUL :: rest)))%Z
      with (Z.of_nat (length (drop 1 ch)) - Z.of_nat (length (ltag (drop 1 ch))))%Z by lia.
    replace (Z.of_nat (length ch + length (NUL :: rest)) - Z.of_nat (length (ltag (drop 1 ch)) + length (NUL :: rest)))%Z
      with (Z.of_nat (length ch) - Z.of_nat (length (ltag (drop 1 ch))))%Z by lia.
    destruct (negb (IsServer W cptr) && _); [done|].
    assert (negb (bool_decide (ltag (drop 1 ch) = [])) && (deref (mem (ltag (drop 1 ch))) =c " ") =
      (deref (ltag (drop 1 ch)) =c " ")) as -> by (by destruct (ltag_cases (drop 1 ch)) as [->|[r ->]]).
    destruct (ltags ch) as [[ch' sec]|]; [|done]. cbn [option_map]. rewrite to_end_line. destruct (_ <? _)%Z; [done|].
    apply client_tail_line.
  - destruct (ltags ch) as [[ch' sec]|]; [|done]. cbn [option_map]. rewrite to_end_line. destruct (_ <? _)%Z; [done|].
    apply client_tail_line.
Qed.
End LineClient.
End Line.

(** ** Correctness *)

(** C30: [parse_client] reads nothing but the line. Whatever bytes the line has, NUL
    bytes included, and whatever an earlier line left in the buffer behind it, the
    call returns, stays inside the buffer and gives the same result. *)
Theorem parse_client_in_line (W : world) (C : commands) (cptr : nat) (line : list ascii) :
  exists r, forall rest, parse_client W C cptr (line ++ NUL :: rest) (length line) = Ok r.
Proof. exists (lparse_client W C cptr line). intros rest. apply parse_client_line. Qed.

(** A line as a client writes it: a command, parameters without blanks, a last one
    behind a colon. *)
Fixpoint params_text (ps : list (list ascii)) (t : list ascii) : list ascii :=
  match ps with
  | [] => ":"%char :: t
  | p :: ps => p ++ " "%char :: params_text ps t
  end.

Definition client_text (c : list ascii) (ps : list (list ascii)) (t : list ascii) : list ascii :=
  c ++ " "%char :: params_text ps t.

Definition in_word (c : ascii) : bool := negb ((c =c " ") || (c =c NUL)).
Definition middle (p : list ascii) : bool := forallb in_word p && negb (deref p =c ":") && negb (deref p =c NUL).

Lemma lword_app (w r : list ascii) : forallb in_word w = true ->
  lword (w ++ " "%char :: r) = w /\ lrest (w ++ " "%char :: r) = " "%char :: r.
Proof.
  induction w as [|c w IH]; [done|]. cbn [forallb app]. intros [H1 H2]%andb_true_iff.
  unfold in_word in H1. apply negb_true_iff in H1. cbn [lword lrest]. rewrite H1. destruct (IH H2) as [-> ->]. done.
Qed.

Lemma lstring_no_nul (t : list ascii) : no_nul t -> lstring t = t.
Proof.
  induction t as [|c t IH]; [done|]. intros [N H]%not_elem_of_cons. cbn [lstring].
  rewrite (proj2 (Ascii.eqb_neq c NUL)) by congruence. by rewrite IH.
Qed.

Lemma middle_head (p : list ascii) : middle p = true ->
  exists c p', p = c :: p' /\ (c =c " ") = false /\ (c =c NUL) = false /\ (c =c ":") = false /\ forallb in_word p = true.
Proof.
  unfold middle. rewrite !andb_true_iff. intros [[H1 H2] H3]. destruct p as [|c p]; [done|]. exists c, p.
  split; [done|]. pose proof H1 as H4. cbn [forallb] in H4. apply andb_true_iff in H4 as [H4 _]. unfold in_word in H4.
  rewrite negb_orb, andb_true_iff, !negb_true_iff in H4. cbn [deref] in *. rewrite negb_true_iff in H2. tauto.
Qed.

Lemma lsplit_text (ps : list (list ascii)) (t : list ascii) (n : Z) : no_nul t -> Forall (fun p => middle p = true) ps ->
  forall fuel i, (i + Z.of_nat (length ps) < n)%Z -> length (params_text ps t) < fuel ->
  lsplit fuel (params_text ps t) i n false = ps ++ [t].
Proof.
  intros Nt F. induction F as [|p ps M F IH]; intros fuel i L Fu; (destruct fuel as [|fuel]; [lia|]).
  - cbn. by rewrite lstring_no_nul.
  - cbn [params_text lsplit]. destruct (middle_head p M) as (c & p' & -> & E1 & E2 & E3 & E4).
    destruct (lword_app (c :: p') (params_text ps t) E4) as [Ew Er]. cbn [app] in Ew, Er.
    cbn [app lskip]. rewrite E1, E2, E3. rewrite (proj2 (Z.leb_gt _ _)) by (cbn [length] in L; lia).
    rewrite Ew, Er. f_equal.
    assert (lsplit fuel (" "%char :: params_text ps t) (i + 1) n false = lsplit fuel (params_text ps t) (i + 1) n false) as ->
      by (by destruct fuel).
    apply IH; [cbn [length] in L; lia|]. cbn [params_text] in Fu. rewrite length_app in Fu. cbn [length] in Fu. lia.
Qed.

Lemma command_chars (c : ascii) : IsCommand c = true ->
  in_word c = true /\ (c =c "@") = false /\ (c =c ":") = false /\ (c =c " ") = false /\ (c =c NUL) = false.
Proof.
  intros H. pose proof (forall_chars (fun c => negb (IsCommand c) ||
    (in_word c && negb (c =c "@") && negb (c =c ":") && negb (c =c " ") && negb (c =c NUL))) c
    ltac:(vm_compute; reflexivity)) as T. cbv beta in T. rewrite H in T. cbn [negb orb] in T.
  rewrite !andb_true_iff, !negb_true_iff in T. tauto.
Qed.

(** C31: what a client writes is what its command's handler gets. A line of at most 510
    bytes made of a registered command without [MFLG_EXTRA], of parameters that are not
    empty, hold no blank and no NUL and do not start with a colon, fewer of them than the
    parameter limit of the command and than [MAXPARA], and of any last parameter behind a
    colon, is dispatched for a living client to the handler of that command with exactly
    these parameters. *)
Theorem client_message_roundtrip (W : world) (C : commands) (cptr m : nat) (c t rest : list ascii) (ps : list (list ascii)) :
  IsDead W cptr = false -> c <> [] -> msg_tree_parse c (msg_tree C) = Some m ->
  Z.land (flags (message C m)) MFLG_EXTRA = 0%Z -> Forall (fun p => middle p = true) ps -> no_nul t ->
  (Z.of_nat (length ps) < parameters (message C m))%Z -> (Z.of_nat (length ps) < MAXPARA)%Z ->
  (Z.of_nat (length (client_text c ps t)) <= BUFSIZE - 2)%Z ->
  exists notes, parse_client W C cptr (client_text c ps t ++ NUL :: rest) (length (client_text c ps t)) =
    Ok (notes, Dispatch cptr m (handler_of W C m cptr) (Text (cli_name W cptr) :: map Text (ps ++ [t]))).
Proof.
  intros D Nc M NX F Nt L1 L2 Lt. rewrite parse_client_line.
  assert (command_nameb c = true) as B by (rewrite msg_tree_parse_get in M; by destruct (command_nameb c)).
  assert (forallb in_word c = true) as Wc.
  { apply forallb_forall. intros x Hx. unfold command_nameb in B. rewrite forallb_forall in B.
    by destruct (command_chars x (B x Hx)). }
  destruct (lword_app c (params_text ps t) Wc) as [Ew Er]. fold (client_text c ps t) in Ew, Er.
  assert (exists a r, client_text c ps t = a :: r /\ IsCommand a = true) as (a & r & E & Ca).
  { destruct c as [|a c]; [done|]. exists a. eexists. split; [done|]. cbn in B. by apply andb_true_iff in B as [? _]. }
  destruct (command_chars a Ca) as (_ & A1 & A2 & A3 & A4).
  assert (lskip (client_text c ps t) = client_text c ps t) as Sk by (rewrite E; cbn [lskip]; by rewrite A3).
  assert (deref (client_text c ps t) = a) as Da by (by rewrite E).
  unfold lparse_client, ltags. rewrite D, Sk, Da, A1. cbn [negb andb]. unfold BUFSIZE in *.
  rewrite (proj2 (Z.ltb_ge _ _)) by (unfold size_t; rewrite Z.mod_small; lia). rewrite Da, A2.
  unfold lclient_command. rewrite Da, A4, Ew, M, NX. cbn [Z.eqb negb].
  assert (lafter (client_text c ps t) = Some (params_text ps t)) as -> by (unfold lafter; by rewrite Er).
  cbn [lparams]. rewrite lsplit_text; [|done|done|destruct (MAXPARA <? _)%Z; lia|lia].
  eexists. reflexivity.
Qed.

Definition one_client : world :=
  World (fun _ => cstr "nick") (fun c => c) (fun _ => 1) (fun _ => false) (fun c => c =? 7) (fun c => negb (c =? 7)) (fun _ => false)
    (fun _ => false) false (fun _ => None) (fun _ => Some 7) (fun _ => None).

Lemma client_message_roundtrip_witness :
  exists notes, parse_client one_client initmsgtree 3 (cstr "privmsg #c :hello  world" ++ NUL :: cstr "old") 24 =
    Ok (notes, Dispatch 3 0 "m_privmsg" [Text (cstr "nick"); Text (cstr "#c"); Text (cstr "hello  world")]).
Proof.
  apply (client_message_roundtrip one_client initmsgtree 3 0 (cstr "privmsg") (cstr "hello  world") (cstr "old") [cstr "#c"]).
  - reflexivity.
  - discriminate.
  - vm_compute. reflexivity.
  - vm_compute. reflexivity.
  - apply Forall_cons. split; [vm_compute; reflexivity|apply Forall_nil; exact I].
  - apply (bool_decide_unpack _). vm_compute. exact I.
  - vm_compute. reflexivity.
  - vm_compute. reflexivity.
  - vm_compute. discriminate.
Defined.

Lemma colon_prefix_direction (W : world) (cptr : nat) (ch : list ascii) (notes : list note) (ch' name : list ascii) (from : nat) :
  cli_from W cptr = cptr -> colon_prefix W cptr ch = Ok (From notes ch' name from) -> cli_from W from = cptr.
Proof.
  intros F. unfold colon_prefix. destruct (strchr_space ch) as [[word [s|]]| |]; cbn [obind]; [|done|done|done].
  destruct (FindClient W (drop 1 word)) as [fr|].
  - destruct (Nat.eqb_spec (cli_from W fr) cptr) as [E|_]; [|done]. by intros [= _ _ _ <-].
  - destruct (skip_spaces (drop 1 s)); cbn [obind]; [|done|done]. destruct (rd_at a 1); cbn [obind]; [|done|done].
    destruct (a0 =c "Q"); [|done]. by intros [= _ _ _ <-].
Qed.

Lemma numnick_prefix_direction (W : world) (cptr : nat) (ch : list ascii) (notes : list note) (ch' name : list ascii) (from : nat) :
  numnick_prefix W cptr ch = Ok (From notes ch' name from) -> cli_from W from = cptr.
Proof.
  unfold numnick_prefix. destruct (numeric_prefix 5 ch) as [np| |]; cbn [obind]; [|done|done].
  set (src := match np with [] => _ | _ => _ end). destruct src as [[ns [fr|]]| |]; cbn [obind]; [| |done|done];
    (destruct (to_space (drop 1 ch)) as [ch2| |]; cbn [obind]; [|done|done]).
  - destruct (Nat.eqb_spec (cli_from W fr) cptr) as [E|_]; [|done]. by intros [= _ _ _ <-].
  - destruct (skip_spaces ch2) as [ch3| |]; cbn [obind]; [|done|done].
    destruct (rd ch3) as [c0| |]; cbn [obind]; [|done|done].
    set (kill := if c0 =c "N" then _ else _). destruct kill as [k| |]; cbn [obind]; [|done|done].
    destruct (travels_upstream ch3) as [[]| |]; cbn [obind]; try done.
    destruct (Nat.eqb_spec (cli_from W cptr) cptr) as [E|_]; [|done]. by intros [= _ _ _ <-].
Qed.

(** Who a parsed line acts for. *)
Definition acts_for (r : result) (from : nat) : Prop :=
  match r with
  | Return _ => False
  | Dispatch f _ _ _ => f = from
  | Numeric _ _ f _ => f = from
  end.

Lemma server_command_from (W : world) (C : commands) (cptr from : nat) (name buffer ch : list ascii) (be : nat) (notes : list note) (r : result) (f : nat) :
  server_command W C cptr from name buffer ch be = Ok (notes, r) -> acts_for r f -> f = from.
Proof.
  unfold server_command. destruct (skip_spaces ch) as [ch2| |]; cbn [obind]; [|done|done].
  destruct (rd ch2) as [c| |]; cbn [obind]; [|done|done]. destruct (c =c NUL); [by intros [= <- <-]|].
  destruct (strchr_space ch2) as [[word s]| |]; cbn [obind]; [|done|done].
  destruct (_ && IsDigit c).
  - destruct (_ || _); [by intros [= <- <-]|]. destruct (params s 0 2 true); cbn [obind]; [|done|done].
    destruct (rd buffer); cbn [obind]; [|done|done]. by intros [= <- <-].
  - destruct (match msg_tree_parse word (tok_tree C) with Some _ => _ | None => _ end) as [m|]; [|by intros [= <- <-]].
    destruct (params _ 0 _ false); cbn [obind]; [|done|done]. by intros [= <- <-].
Qed.

(** C32: a line from a server acts only for a source behind that link. Whatever prefix
    a neighbour sends, a name or a numeric, known or not, forged or missing, the
    handler that runs, or the numeric that is forwarded, is given a source whose
    messages come over this very connection. *)
Theorem server_source_direction (W : world) (C : commands) (cptr : nat) (buffer : list ascii) (bufend : nat)
    (notes : list note) (r : result) (from : nat) :
  cli_from W cptr = cptr -> parse_server W C cptr buffer bufend = Ok (notes, r) -> acts_for r from ->
  cli_from W from = cptr.
Proof.
  intros F. unfold parse_server. destruct (IsDead W cptr); [by intros [= <- <-]|].
  destruct (parse_msg_tags _ _) as [[[ch sec]|]| |]; cbn [obind]; [|by intros [= <- <-]|done|done].
  destruct (rd ch) as [c| |]; cbn [obind]; [|done|done].
  set (src := if c =c ":" then _ else _). destruct src as [[ns ch2 name fr|ns z]| |] eqn:S; cbn [obind];
    [|by intros [= <- <-]|done|done].
  destruct (server_command W C cptr fr name buffer ch2 _) as [[ns' r']| |] eqn:E; cbn [obind]; [|done|done].
  intros [= <- <-] A. pose proof (server_command_from _ _ _ _ _ _ _ _ _ _ _ E A) as ->.
  unfold src in S. destruct (c =c ":"); [by eapply colon_prefix_direction|by eapply numnick_prefix_direction].
Qed.

Definition link_server : world :=
  World (fun _ => cstr "nick") (fun c => if c =? 9 then 7 else c) (fun _ => 2) (fun _ => false) (fun c => c =? 7) (fun c => negb (c =? 7))
    (fun _ => false) (fun _ => false) false (fun _ => None) (fun _ => Some 7) (fun _ => Some 9).

Lemma server_source_direction_witness :
  exists notes parv,
    parse_server link_server initmsgtree 7 (cstr "ABAAA P #c :hi" ++ [NUL]) 14 = Ok (notes, Dispatch 9 0 "ms_privmsg" parv) /\
    cli_from link_server 9 = 7.
Proof.
  do 2 eexists. split; [vm_compute; reflexivity|].
  eapply (server_source_direction link_server initmsgtree 7 (cstr "ABAAA P #c :hi" ++ [NUL]) 14);
    [reflexivity|vm_compute; reflexivity|reflexivity].
Defined.

(** [parse_server] runs past the end of a line of blanks. It takes the missing
    prefix for a word, steps over the terminator, and executes what an earlier line
    left in the buffer: here the blanks are answered by the QUIT that was part of the
    text of a message. *)
Theorem server_blank_line_runs_stale :
  let stale := cstr "  " ++ NUL :: cstr "x Q :bye" ++ [NUL] in
  parse_server link_server initmsgtree 7 stale 2 =
  Ok ([MissingPrefix 7; Bytes 14 (-5); Counted 14], Dispatch 7 14 "ms_quit" [Text (cstr "nick"); Text (cstr "bye")]).
Proof. vm_compute. reflexivity. Qed.
