(* ===== verification/Channel.v ===== *)
(** * Channel membership: [ircd/channel.c]

    The sparse matrix of users and channels: every [struct Membership] is a cell on two
    doubly linked lists, the members of its channel and the channels of its user.  The
    heap maps the address of a membership to its contents, freed ones included: they
    are chained through [next_member] on [membershipFreeList].  Following a pointer
    that leads nowhere is [Oob].  Invite lists and ban lists are lists. *)

From stdpp Require Import base functions list gmap sets strings.
From Stdlib Require Import ZArith Lia Ascii.
From S2P Require Import Prelude.

Local Open Scope ircu_scope.
Local Open Scope Z_scope.

Definition mid : Type := positive.
Definition chid : Type := positive.
Definition cid : Type := positive.

(** [include/channel.h], [include/chan_flags.h] *)
Definition CHFL_CHANOP : Z := 0x0001.
Definition CHFL_VOICE : Z := 0x0002.
Definition CHFL_ZOMBIE : Z := 0x0010.
Definition CHFL_DELAYED : Z := 0x40000.
Definition MODE_TLSONLY : Z := Z.shiftl 1 25.
Definition MODE_WASDELJOINS : Z := Z.shiftl 1 29.
Definition MODE_INVITEONLY : Z := Z.shiftl 1 34.
Definition MODE_TLSINSECURE : Z := Z.shiftl 1 51.

Record Membership : Type := Member {
  user : cid;
  channel : chid;
  next_member : option mid;
  prev_member : option mid;
  next_channel : option mid;
  prev_channel : option mid;
  status : Z;
  oplevel : Z
}.

Record Channel : Type := Chan {
  destruct_event : option Z;       (** when it expires *)
  creationtime : Z;
  users : Z;
  members : option mid;
  invites : list cid;
  banlist : list (list ascii);
  mode : Z;
  limit : Z;
  key : list ascii;
  apass : list ascii;
  upass : list ascii
}.

(** The fields of [struct User] that belong to channels. *)
Record User : Type := MkUser {
  u_channel : option mid;
  invited : list chid;
  joined : Z;
  u_invites : Z
}.

Inductive event : Type :=
| Secured (c : chid)             (** "-z+Z" is shown to the channel *)
| Insecured (c : chid)           (** "-Z+z" *)
| NoDelayed (c : chid)           (** "-d" *)
| Joined (u : cid) (c : chid)    (** [HOOK_CHANNEL_JOINED] *)
| Parted (u : cid) (c : chid)    (** [HOOK_CHANNEL_PARTED] *)
| Destroyed (c : chid).          (** hash table, global list, S-line queue *)

Record state : Type := State {
  heap : gmap mid Membership;
  chans : gmap chid Channel;
  clients : gmap cid User;
  membershipFreeList : option mid;
  membershipAllocCount : Z;
  brk : mid;                     (** the address the allocator gives next *)
  n_channels : Z;                (** [UserStats.channels] *)
  events : list event
}.

Definition set_heap (st : state) (h : gmap mid Membership) : state :=
  State h (chans st) (clients st) (membershipFreeList st) (membershipAllocCount st) (brk st) (n_channels st) (events st).
Definition set_chan (st : state) (c : chid) (ch : Channel) : state :=
  State (heap st) (<[c := ch]> (chans st)) (clients st) (membershipFreeList st) (membershipAllocCount st) (brk st) (n_channels st) (events st).
Definition set_client (st : state) (u : cid) (us : User) : state :=
  State (heap st) (chans st) (<[u := us]> (clients st)) (membershipFreeList st) (membershipAllocCount st) (brk st) (n_channels st) (events st).
Definition emit (st : state) (e : event) : state :=
  State (heap st) (chans st) (clients st) (membershipFreeList st) (membershipAllocCount st) (brk st) (n_channels st) (events st ++ [e]).

Definition load (h : gmap mid Membership) (m : mid) : outcome Membership :=
  match h !! m with Some x => Ok x | None => Oob end.
Definition load_chan (st : state) (c : chid) : outcome Channel :=
  match chans st !! c with Some x => Ok x | None => Oob end.
Definition load_client (st : state) (u : cid) : outcome User :=
  match clients st !! u with Some x => Ok x | None => Oob end.
Definition update (h : gmap mid Membership) (m : mid) (f : Membership -> Membership) : outcome (gmap mid Membership) :=
  let* x := load h m in Ok (<[m := f x]> h).

(** ** The two dimensions of the matrix *)
Record dim : Type := Dim {
  nx : Membership -> option mid;
  pv : Membership -> option mid;
  set_nx : Membership -> option mid -> Membership;
  set_pv : Membership -> option mid -> Membership
}.

Definition by_channel : dim :=
  Dim next_member prev_member
    (fun m v => Member (user m) (channel m) v (prev_member m) (next_channel m) (prev_channel m) (status m) (oplevel m))
    (fun m v => Member (user m) (channel m) (next_member m) v (next_channel m) (prev_channel m) (status m) (oplevel m)).
Definition by_user : dim :=
  Dim next_channel prev_channel
    (fun m v => Member (user m) (channel m) (next_member m) (prev_member m) v (prev_channel m) (status m) (oplevel m))
    (fun m v => Member (user m) (channel m) (next_member m) (prev_member m) (next_channel m) v (status m) (oplevel m)).

(** Put [m] in front of the list at [head]. *)
Definition push (d : dim) (h : gmap mid Membership) (m : mid) (head : option mid) : outcome (gmap mid Membership) :=
  let* h := update h m (fun x => set_nx d x head) in
  let* h := match head with Some n => update h n (fun x => set_pv d x (Some m)) | None => Ok h end in
  update h m (fun x => set_pv d x None).

(** Take [m] out; the second component is the new head of its list. *)
Definition unlink (d : dim) (h : gmap mid Membership) (m : mid) (head : option mid) :
    outcome (gmap mid Membership * option mid) :=
  let* x := load h m in
  let* h := match nx d x with Some n => update h n (fun y => set_pv d y (pv d x)) | None => Ok h end in
  let* x := load h m in
  match pv d x with
  | Some p => let* h := update h p (fun y => set_nx d y (nx d x)) in Ok (h, head)
  | None => Ok (h, nx d x)
  end.

(** The first cell of a list for which [f] gives something. *)
Fixpoint scan {A : Type} (d : dim) (h : gmap mid Membership) (fuel : nat) (start : option mid)
    (f : mid -> Membership -> option A) : outcome (option A) :=
  match start with
  | None => Ok None
  | Some m =>
      match fuel with
      | O => Fuel
      | S fuel =>
          let* x := load h m in
          match f m x with
          | Some a => Ok (Some a)
          | None => scan d h fuel (nx d x) f
          end
      end
  end.

Definition fuel_of (st : state) : nat := S (size (heap st)).

Section Operations.
(** Flags of clients, secure groups, [FEAT_OPLEVELS] and the time. *)
Context (IsServer IsMe IsChannelService : cid -> bool).
Context (get_secure_group_id : cid -> Z).
Context (oplevels : bool) (now : Z).

Definition IsZombie (x : Membership) : bool := negb (Z.land (status x) CHFL_ZOMBIE =? 0).
Definition IsDelayedJoin (x : Membership) : bool := negb (Z.land (status x) CHFL_DELAYED =? 0).
Definition has_mode (ch : Channel) (f : Z) : bool := negb (Z.land (mode ch) f =? 0).

Definition set_mode (ch : Channel) (m : Z) : Channel :=
  Chan (destruct_event ch) (creationtime ch) (users ch) (members ch) (invites ch) (banlist ch) m (limit ch) (key ch) (apass ch) (upass ch).
Definition set_members (ch : Channel) (m : option mid) : Channel :=
  Chan (destruct_event ch) (creationtime ch) (users ch) m (invites ch) (banlist ch) (mode ch) (limit ch) (key ch) (apass ch) (upass ch).
Definition set_users (ch : Channel) (n : Z) : Channel :=
  Chan (destruct_event ch) (creationtime ch) n (members ch) (invites ch) (banlist ch) (mode ch) (limit ch) (key ch) (apass ch) (upass ch).
Definition set_invites (ch : Channel) (l : list cid) : Channel :=
  Chan (destruct_event ch) (creationtime ch) (users ch) (members ch) l (banlist ch) (mode ch) (limit ch) (key ch) (apass ch) (upass ch).
Definition set_event (ch : Channel) (e : option Z) : Channel :=
  Chan e (creationtime ch) (users ch) (members ch) (invites ch) (banlist ch) (mode ch) (limit ch) (key ch) (apass ch) (upass ch).

Definition find_member_link (st : state) (chptr : chid) (cptr : cid) : outcome (option mid) :=
  if IsServer cptr || IsMe cptr then Ok None
  else if IsChannelService cptr then
    let* ch := load_chan st chptr in
    scan by_channel (heap st) (fuel_of st) (members ch) (fun m x => if Pos.eqb (user x) cptr then Some m else None)
  else
    let* us := load_client st cptr in
    scan by_user (heap st) (fuel_of st) (u_channel us) (fun m x => if Pos.eqb (channel x) chptr then Some m else None).

(** The number of distinct secure groups, at most 2, and the group when it is 1. *)
Fixpoint secure_groups_loop (h : gmap mid Membership) (fuel : nat) (start : option mid) (count first_sid : Z) :
    outcome (Z * Z) :=
  match start with
  | None => Ok (count, first_sid)
  | Some m =>
      match fuel with
      | O => Fuel
      | S fuel =>
          let* x := load h m in
          if IsZombie x then secure_groups_loop h fuel (next_member x) count first_sid
          else
            let user_sid := get_secure_group_id (user x) in
            if count =? 0 then secure_groups_loop h fuel (next_member x) 1 user_sid
            else if negb (user_sid =? first_sid) then Ok (2, first_sid)
            else secure_groups_loop h fuel (next_member x) count first_sid
      end
  end.

Definition channel_secure_groups (st : state) (chptr : chid) : outcome (Z * Z) :=
  let* ch := load_chan st chptr in
  let* (count, sid) := secure_groups_loop (heap st) (fuel_of st) (members ch) 0 0 in
  Ok (count, if count =? 1 then sid else 0).

Definition CheckChannelTLS (st : state) (chan : chid) : outcome state :=
  let* ch := load_chan st chan in
  if negb (has_mode ch (Z.lor MODE_TLSONLY MODE_TLSINSECURE)) then Ok st
  else
    let* (groups, group) := channel_secure_groups st chan in
    if has_mode ch MODE_TLSINSECURE && (groups =? 1) && (0 <? group) then
      Ok (emit (set_chan st chan (set_mode ch (Z.lor (Z.land (mode ch) (Z.lnot MODE_TLSINSECURE)) MODE_TLSONLY))) (Secured chan))
    else if has_mode ch MODE_TLSONLY && negb (has_mode ch MODE_TLSINSECURE)
            && ((1 <? groups) || ((groups =? 1) && (group =? 0))) then
      Ok (emit (set_chan st chan (set_mode ch (Z.lor (mode ch) MODE_TLSINSECURE))) (Insecured chan))
    else Ok st.

Definition find_delayed_joins (st : state) (ch : Channel) : outcome bool :=
  let* r := scan by_channel (heap st) (fuel_of st) (members ch) (fun _ x => if IsDelayedJoin x then Some tt else None) in
  Ok (match r with Some _ => true | None => false end).

Definition CheckDelayedJoins (st : state) (chan : chid) : outcome state :=
  let* ch := load_chan st chan in
  if has_mode ch MODE_WASDELJOINS then
    let* some := find_delayed_joins st ch in
    if some then Ok st
    else Ok (emit (set_chan st chan (set_mode ch (Z.land (mode ch) (Z.lnot MODE_WASDELJOINS)))) (NoDelayed chan))
  else Ok st.

(** ** Invitations *)
Fixpoint remove_first (x : positive) (l : list positive) : option (list positive) :=
  match l with
  | [] => None
  | y :: l => if Pos.eqb y x then Some l else match remove_first x l with Some r => Some (y :: r) | None => None end
  end.

Definition del_invite (st : state) (cptr : cid) (chptr : chid) : outcome state :=
  let* ch := load_chan st chptr in
  let* st :=
    match remove_first cptr (invites ch) with
    | None => Ok st
    | Some l =>
        let st := set_chan st chptr (set_invites ch l) in
        let* us := load_client st cptr in
        Ok (set_client st cptr (MkUser (u_channel us) (invited us) (joined us) (u32 (u_invites us - 1))))
    end in
  let* us := load_client st cptr in
  match remove_first chptr (invited us) with
  | None => Ok st
  | Some l => Ok (set_client st cptr (MkUser (u_channel us) l (joined us) (u_invites us)))
  end.

(** [while (chptr->invites) del_invite(chptr->invites->value.cptr, chptr)] *)
Fixpoint clear_invites (st : state) (fuel : nat) (chptr : chid) : outcome state :=
  let* ch := load_chan st chptr in
  match invites ch with
  | [] => Ok st
  | cptr :: _ =>
      match fuel with
      | O => Fuel
      | S fuel => let* st := del_invite st cptr chptr in clear_invites st fuel chptr
      end
  end.

Definition mode_invite_clear (st : state) (chan : chid) : outcome state :=
  let* ch := load_chan st chan in clear_invites st (length (invites ch)) chan.

Definition add_invite (max : Z) (st : state) (cptr : cid) (chptr : chid) : outcome state :=
  let* st := del_invite st cptr chptr in
  let* us := load_client st cptr in
  let* st :=
    if max <=? u_invites us then
      match invited us with
      | [] => Oob
      | first :: _ => del_invite st cptr first
      end
    else Ok st in
  let* ch := load_chan st chptr in
  let st := set_chan st chptr (set_invites ch (cptr :: invites ch)) in
  let* us := load_client st cptr in
  Ok (set_client st cptr (MkUser (u_channel us) (invited us ++ [chptr]) (joined us) (u32 (u_invites us + 1)))).

Definition IsInvited (st : state) (cptr : cid) (chptr : chid) : outcome bool :=
  let* us := load_client st cptr in Ok (bool_decide (chptr ∈ invited us)).

(** ** Empty channels *)

(** The channel's memory is gone afterwards. *)
Definition destruct_channel (st : state) (chptr : chid) : outcome state :=
  let* st := mode_invite_clear st chptr in
  Ok (State (heap st) (delete chptr (chans st)) (clients st) (membershipFreeList st) (membershipAllocCount st) (brk st)
            (u32 (n_channels st - 1)) (events st ++ [Destroyed chptr])).

Definition schedule_destruct_event (ch : Channel) (delay : Z) : Channel :=
  match destruct_event ch with
  | Some _ => ch
  | None => set_event ch (Some (now + delay))
  end.

Definition sub1_from_channel (st : state) (chptr : chid) : outcome (state * Z) :=
  let* ch := load_chan st chptr in
  if 1 <? users ch then Ok (set_chan st chptr (set_users ch (users ch - 1)), 1)
  else
    let ch := Chan (destruct_event ch) (creationtime ch) 0 (members ch) (invites ch) (banlist ch)
                (Z.land (mode ch) (Z.lnot MODE_INVITEONLY)) 0 (key ch) (apass ch) (upass ch) in
    let st := set_chan st chptr ch in
    let schedule (st : state) :=
      let* ch := load_chan st chptr in
      let delay := if now - creationtime ch <? 172800 then 60 else 172800 in
      Ok (set_chan st chptr (schedule_destruct_event ch delay), 0) in
    match apass ch with
    | [] =>
        let st := set_chan st chptr (Chan (destruct_event ch) (creationtime ch) 0 (members ch) (invites ch) (banlist ch)
                    0 0 [] (apass ch) (upass ch)) in
        let* st := mode_invite_clear st chptr in
        let* ch := load_chan st chptr in
        let st := set_chan st chptr (Chan (destruct_event ch) (creationtime ch) (users ch) (members ch) (invites ch) []
                    (mode ch) (limit ch) (key ch) (apass ch) (upass ch)) in
        if negb oplevels then let* st := destruct_channel st chptr in Ok (st, 0)
        else schedule st
    | _ => schedule st
    end.

(** ** Joining and leaving *)

(** A cell from the free list, or a new one with unspecified contents. *)
Definition alloc_membership (st : state) : outcome (state * mid) :=
  match membershipFreeList st with
  | Some m =>
      let* x := load (heap st) m in
      Ok (State (heap st) (chans st) (clients st) (next_member x) (membershipAllocCount st) (brk st) (n_channels st) (events st), m)
  | None =>
      let m := brk st in
      Ok (State (<[m := Member 1%positive 1%positive None None None None 0 0]> (heap st)) (chans st) (clients st) None
            (u32 (membershipAllocCount st + 1)) (Pos.succ m) (n_channels st) (events st), m)
  end.

Definition add_user_to_channel (st : state) (chptr : chid) (who : cid) (flags lev : Z) : outcome state :=
  match clients st !! who with
  | None => Ok st
  | Some _ =>
      let* (st, m) := alloc_membership st in
      let* h := update (heap st) m (fun x => Member who chptr (next_member x) (prev_member x) (next_channel x) (prev_channel x) flags (u16 lev)) in
      let* ch := load_chan st chptr in
      let* h := push by_channel h m (members ch) in
      let st := set_chan st chptr (set_members ch (Some m)) in
      let* us := load_client st who in
      let* h := push by_user h m (u_channel us) in
      let st := set_heap st h in
      let* ch := load_chan st chptr in
      let st := set_chan st chptr (set_users (set_event ch None) (u32 (users ch + 1))) in
      let st := set_client st who (MkUser (Some m) (invited us) (u32 (joined us + 1)) (u_invites us)) in
      let* st := CheckChannelTLS st chptr in
      Ok (emit st (Joined who chptr))
  end.

Definition remove_member_from_channel (st : state) (member : mid) : outcome (state * Z) :=
  let* x := load (heap st) member in
  let chptr := channel x in
  let* ch := load_chan st chptr in
  let* (h, head) := unlink by_channel (heap st) member (members ch) in
  let st := set_chan (set_heap st h) chptr (set_members ch head) in
  let* st := if IsDelayedJoin x then CheckDelayedJoins st chptr else Ok st in
  let* us := load_client st (user x) in
  let* (h, head) := unlink by_user (heap st) member (u_channel us) in
  let st := set_client (set_heap st h) (user x) (MkUser head (invited us) (u32 (joined us - 1)) (u_invites us)) in
  let* st := CheckChannelTLS st chptr in
  let* h := update (heap st) member (fun y => set_nx by_channel y (membershipFreeList st)) in
  let st := State h (chans st) (clients st) (Some member) (membershipAllocCount st) (brk st) (n_channels st) (events st) in
  sub1_from_channel st chptr.

Definition channel_all_zombies (st : state) (chptr : chid) : outcome bool :=
  let* ch := load_chan st chptr in
  let* r := scan by_channel (heap st) (fuel_of st) (members ch) (fun _ x => if IsZombie x then None else Some tt) in
  Ok (match r with Some _ => false | None => true end).

(** [while (remove_member_from_channel(chptr->members)) ;] *)
Fixpoint remove_rest (st : state) (fuel : nat) (chptr : chid) : outcome state :=
  match fuel with
  | O => Fuel
  | S fuel =>
      let* ch := load_chan st chptr in
      match members ch with
      | None => Oob
      | Some m =>
          let* (st, more) := remove_member_from_channel st m in
          if more =? 0 then Ok st else remove_rest st fuel chptr
      end
  end.

Definition remove_user_from_channel (st : state) (cptr : cid) (chptr : chid) : outcome state :=
  let* r := find_member_link st chptr cptr in
  match r with
  | None => Ok st
  | Some m =>
      let st := emit st (Parted cptr chptr) in
      let* (st, more) := remove_member_from_channel st m in
      if more =? 0 then Ok st
      else
        let* z := channel_all_zombies st chptr in
        if z then remove_rest st (fuel_of st) chptr else Ok st
  end.

Fixpoint remove_all_loop (st : state) (fuel : nat) (cptr : cid) : outcome state :=
  let* us := load_client st cptr in
  match u_channel us with
  | None => Ok st
  | Some m =>
      match fuel with
      | O => Fuel
      | S fuel =>
          let* x := load (heap st) m in
          let* st := remove_user_from_channel st cptr (channel x) in
          remove_all_loop st fuel cptr
      end
  end.

Definition remove_user_from_all_channels (st : state) (cptr : cid) : outcome state :=
  remove_all_loop st (fuel_of st) cptr.

Definition find_channel_member (st : state) (cptr : cid) (chptr : chid) : outcome (option mid) :=
  let* r := find_member_link st chptr cptr in
  match r with
  | None => Ok None
  | Some m => let* x := load (heap st) m in Ok (if IsZombie x then None else Some m)
  end.
(** Where a client is connected: [MyUser], [cli_from], the server of a user, the next
    server towards this one, and this server itself. *)
Context (MyUser : cid -> bool) (cli_from server_of up : cid -> cid) (me : cid).

(** The servers from [acptr] up to this one, until [target] is met. *)
Fixpoint behind (fuel : nat) (acptr target : cid) : outcome bool :=
  if Pos.eqb acptr me then Ok false
  else if Pos.eqb acptr target then Ok true
  else match fuel with O => Fuel | S fuel => behind fuel (up acptr) target end.

Definition set_status (x : Membership) (s : Z) : Membership :=
  Member (user x) (channel x) (next_member x) (prev_member x) (next_channel x) (prev_channel x) s (oplevel x).

(** [fuel] bounds the depth of the server tree. *)
Definition make_zombie (fuel : nat) (st : state) (member : mid) (who cptr sptr : cid) (chptr : chid) : outcome state :=
  let* h := update (heap st) member (fun x => set_status x (Z.lor (status x) CHFL_ZOMBIE)) in
  let st := set_heap st h in
  if MyUser who then remove_user_from_channel st who chptr
  else
    let* gone := if Pos.eqb (cli_from who) cptr then behind fuel (if IsServer sptr then sptr else server_of sptr) (server_of who) else Ok false in
    if gone then remove_user_from_channel st who chptr
    else
      let* z := channel_all_zombies st chptr in
      if z then remove_user_from_channel st who chptr else Ok st.

Definition is_zombie (st : state) (cptr : cid) (chptr : chid) : outcome bool :=
  let* r := find_member_link st chptr cptr in
  match r with Some m => let* x := load (heap st) m in Ok (IsZombie x) | None => Ok false end.

Definition is_chan_op (st : state) (cptr : cid) (chptr : chid) : outcome bool :=
  let* r := find_member_link st chptr cptr in
  match r with
  | Some m => let* x := load (heap st) m in Ok (negb (IsZombie x) && negb (Z.land (status x) CHFL_CHANOP =? 0))
  | None => Ok false
  end.

Definition has_voice (st : state) (cptr : cid) (chptr : chid) : outcome bool :=
  let* r := find_member_link st chptr cptr in
  match r with
  | Some m => let* x := load (heap st) m in Ok (negb (IsZombie x) && negb (Z.land (status x) CHFL_VOICE =? 0))
  | None => Ok false
  end.

Fixpoint zombies_loop (h : gmap mid Membership) (fuel : nat) (start : option mid) (count : Z) : outcome Z :=
  match start with
  | None => Ok count
  | Some m =>
      match fuel with
      | O => Fuel
      | S fuel => let* x := load h m in zombies_loop h fuel (next_member x) (if IsZombie x then count + 1 else count)
      end
  end.

Definition number_of_zombies (st : state) (chptr : chid) : outcome Z :=
  let* ch := load_chan st chptr in zombies_loop (heap st) (fuel_of st) (members ch) 0.
End Operations.

(** ** Doubly linked lists *)
Class Links (d : dim) : Prop := {
  nx_set_nx : forall x v, nx d (set_nx d x v) = v;
  pv_set_nx : forall x v, pv d (set_nx d x v) = pv d x;
  nx_set_pv : forall x v, nx d (set_pv d x v) = nx d x;
  pv_set_pv : forall x v, pv d (set_pv d x v) = v;
  set_nx_nx : forall x v w, set_nx d (set_nx d x v) w = set_nx d x w;
  set_pv_pv : forall x v w, set_pv d (set_pv d x v) w = set_pv d x w;
  set_nx_pv : forall x v w, set_nx d (set_pv d x v) w = set_pv d (set_nx d x w) v
}.
#[global] Instance by_channel_links : Links by_channel.
Proof. by split. Qed.
#[global] Instance by_user_links : Links by_user.
Proof. by split. Qed.

(** What the links of one dimension leave alone. *)
Definition blank (d : dim) (x : Membership) : Membership := set_nx d (set_pv d x None) None.

Definition prev_of (L : list mid) (i : nat) : option mid := match i with O => None | S j => L !! j end.

Definition dll (d : dim) (h : gmap mid Membership) (start : option mid) (L : list mid) : Prop :=
  start = L !! O /\
  forall i m, L !! i = Some m -> exists x, h !! m = Some x /\ nx d x = L !! S i /\ pv d x = prev_of L i.

(** The same cells with the same contents except the links of [d]. *)
Definition hsame (d : dim) (h h' : gmap mid Membership) : Prop :=
  forall k, option_map (blank d) (h !! k) = option_map (blank d) (h' !! k).

Lemma hsame_refl (d : dim) (h : gmap mid Membership) : hsame d h h.
Proof. done. Qed.
Lemma hsame_trans (d : dim) (h1 h2 h3 : gmap mid Membership) : hsame d h1 h2 -> hsame d h2 h3 -> hsame d h1 h3.
Proof. intros H1 H2 k. by rewrite (H1 k), (H2 k). Qed.

Lemma hsame_lookup (d : dim) (h h' : gmap mid Membership) (k : mid) (x : Membership) : hsame d h h' ->
  h !! k = Some x -> exists y, h' !! k = Some y /\ blank d y = blank d x.
Proof.
  intros H E. specialize (H k). rewrite E in H. destruct (h' !! k) as [y|]; [|done]. injection H as H. eauto.
Qed.

Lemma hsame_sym (d : dim) (h h' : gmap mid Membership) : hsame d h h' -> hsame d h' h.
Proof. intros H k. by rewrite (H k). Qed.

Section Dll.
Context (d : dim) {LL : Links d}.

Lemma blank_set_nx (x : Membership) (v : option mid) : blank d (set_nx d x v) = blank d x.
Proof. unfold blank. by rewrite !set_nx_pv, set_nx_nx. Qed.
Lemma blank_set_pv (x : Membership) (v : option mid) : blank d (set_pv d x v) = blank d x.
Proof. unfold blank. by rewrite set_pv_pv. Qed.

Lemma hsame_insert (h : gmap mid Membership) (k : mid) (x y : Membership) : h !! k = Some x -> blank d y = blank d x ->
  hsame d h (<[k := y]> h).
Proof.
  intros E B k'. destruct (decide (k' = k)) as [->|N]; [by rewrite lookup_insert_eq, E; cbn; rewrite B|by rewrite lookup_insert_ne].
Qed.

Lemma update_ok (h : gmap mid Membership) (k : mid) (x : Membership) (f : Membership -> Membership) :
  h !! k = Some x -> update h k f = Ok (<[k := f x]> h).
Proof. intros E. unfold update, load. by rewrite E. Qed.

(** A list is its cells' links: other cells do not matter. *)
Lemma dll_ext (h h' : gmap mid Membership) (start : option mid) (L : list mid) :
  (forall m x, m ∈ L -> h !! m = Some x -> exists y, h' !! m = Some y /\ nx d y = nx d x /\ pv d y = pv d x) ->
  dll d h start L -> dll d h' start L.
Proof.
  intros H [S C]. split; [done|]. intros i m E. destruct (C i m E) as (x & Hx & N & P).
  destruct (H m x) as (y & Hy & N' & P'); [by eapply list_elem_of_lookup_2|done|]. exists y. by rewrite N', P'.
Qed.

Lemma dll_elem (h : gmap mid Membership) (start : option mid) (L : list mid) (m : mid) :
  dll d h start L -> m ∈ L -> exists x, h !! m = Some x.
Proof. intros [_ C] [i E]%list_elem_of_lookup. destruct (C i m E) as (x & Hx & _). eauto. Qed.

Lemma nodup_index (L : list mid) (i j : nat) (m : mid) : NoDup L -> L !! i = Some m -> L !! j = Some m -> i = j.
Proof. intros N E1 E2. by eapply NoDup_lookup. Qed.

Lemma push_spec (h : gmap mid Membership) (m : mid) (x : Membership) (head : option mid) (L : list mid) :
  h !! m = Some x -> m ∉ L -> NoDup L -> dll d h head L ->
  exists h', push d h m head = Ok h' /\ dll d h' (Some m) (m :: L) /\ hsame d h h' /\
    (forall k, k ∉ m :: L -> h' !! k = h !! k).
Proof.
  intros Hx Nm ND D. pose proof D as [S C]. unfold push. rewrite (update_ok h m x) by done. cbn [obind].
  set (h1 := <[m:=set_nx d x head]> h). assert (hsame d h h1) as S1.
  { by apply (hsame_insert h m x); [|apply blank_set_nx]. }
  assert (h1 !! m = Some (set_nx d x head)) as E1 by apply lookup_insert_eq.
  destruct L as [|n L].
  - cbn in S. subst head. cbn [obind]. rewrite (update_ok h1 m _ _ E1). eexists. split; [done|]. split; [|split].
    + split; [done|]. intros [|i] k Ek; [|done]. injection Ek as <-. eexists. rewrite lookup_insert_eq. split; [done|].
      by rewrite nx_set_pv, nx_set_nx, pv_set_pv.
    + eapply hsame_trans; [exact S1|]. eapply hsame_insert; [done|apply blank_set_pv].
    + intros k Nk. rewrite lookup_insert_ne by (intros <-; apply Nk; by left).
      unfold h1. by rewrite lookup_insert_ne by (intros <-; apply Nk; by left).
  - cbn in S. subst head. destruct (C O n eq_refl) as (y & Hy & Ny & Py).
    assert (n <> m) as Nn by (intros ->; apply Nm; by left).
    assert (h1 !! n = Some y) as E2 by (unfold h1; by rewrite lookup_insert_ne).
    rewrite (update_ok h1 n _ _ E2). cbn [obind]. set (h2 := <[n:=set_pv d y (Some m)]> h1).
    assert (h2 !! m = Some (set_nx d x (Some n))) as E3 by (unfold h2; by rewrite lookup_insert_ne).
    rewrite (update_ok h2 m _ _ E3). set (h3 := <[m:=_]> h2). exists h3. split; [done|].
    assert (forall k, k <> m -> k <> n -> h3 !! k = h !! k) as Oth.
    { intros k N1 N2. unfold h3, h2, h1. by rewrite !lookup_insert_ne. }
    split; [|split].
    + split; [done|]. intros [|[|i]] k Ek.
      * injection Ek as <-. exists (set_pv d (set_nx d x (Some n)) None). unfold h3. rewrite lookup_insert_eq.
        split; [done|]. by rewrite nx_set_pv, nx_set_nx, pv_set_pv.
      * injection Ek as <-. exists (set_pv d y (Some m)). unfold h3, h2. rewrite lookup_insert_ne by done.
        rewrite lookup_insert_eq. split; [done|]. by rewrite nx_set_pv, pv_set_pv, Ny.
      * assert (k ∈ n :: L) as Hk by (right; by eapply list_elem_of_lookup_2).
        assert (k <> n) as Nkn.
        { intros ->. by pose proof (nodup_index (n :: L) (S i) O n ND Ek eq_refl). }
        rewrite Oth by (congruence || done). destruct (C (S i) k Ek) as (z & Hz & Nz & Pz). exists z. split; [done|].
        split; [exact Nz|]. rewrite Pz. done.
    + eapply hsame_trans; [exact S1|]. eapply hsame_trans.
      * eapply (hsame_insert h1 n y); [done|apply blank_set_pv].
      * eapply hsame_insert; [done|apply blank_set_pv].
    + intros k Nk. apply Oth; intros ->; apply Nk; [by left|right; by left].
Qed.

(** The list after its cell [i] is gone. *)
Lemma delete_index (L : list mid) (i j : nat) :
  delete i L !! j = (if decide (j < i)%nat then L !! j else L !! S j).
Proof. destruct (decide (j < i)%nat); [by rewrite list_lookup_delete_lt|by rewrite list_lookup_delete_ge by lia]. Qed.

Lemma unlink_spec (h : gmap mid Membership) (m : mid) (head : option mid) (L : list mid) (i : nat) :
  L !! i = Some m -> NoDup L -> dll d h head L ->
  exists h' head', unlink d h m head = Ok (h', head') /\ dll d h' head' (delete i L) /\ hsame d h h' /\
    (forall k, k ∉ L -> h' !! k = h !! k).
Proof.
  intros Ei ND D. pose proof D as [S C]. destruct (C i m Ei) as (x & Hx & Nx & Px).
  unfold unlink. unfold load at 1. rewrite Hx. cbn [obind]. rewrite Nx.
  (* the cell behind *)
  assert (exists h1, (match L !! Datatypes.S i with Some n => update h n (fun y => set_pv d y (pv d x)) | None => Ok h end) = Ok h1 /\
    hsame d h h1 /\ h1 !! m = Some x /\
    (forall k, L !! Datatypes.S i <> Some k -> h1 !! k = h !! k) /\
    (forall n y, L !! Datatypes.S i = Some n -> h !! n = Some y -> h1 !! n = Some (set_pv d y (prev_of L i))))
    as (h1 & -> & S1 & M1 & O1 & B1).
  { destruct (L !! Datatypes.S i) as [n|] eqn:En.
    - destruct (C _ _ En) as (y & Hy & _). assert (n <> m) as Nn.
      { intros ->. pose proof (nodup_index L _ _ m ND En Ei). lia. }
      rewrite (update_ok h n y) by done. eexists. split; [done|]. split; [|split; [|split]].
      + eapply hsame_insert; [done|apply blank_set_pv].
      + by rewrite lookup_insert_ne.
      + intros k Nk. rewrite lookup_insert_ne by congruence. done.
      + intros n' y' [= <-] Hy'. rewrite lookup_insert_eq. congruence.
    - exists h. split; [done|]. split; [done|]. split; [done|]. split; [done|]. done. }
  cbn [obind]. unfold load. rewrite M1. cbn [obind]. rewrite Px.
  (* the cell in front *)
  assert (exists h2 head', (match prev_of L i with
      | Some p => let* h := update h1 p (fun y => set_nx d y (L !! Datatypes.S i)) in Ok (h, head)
      | None => Ok (h1, L !! Datatypes.S i)
      end) = Ok (h2, head') /\ head' = delete i L !! O /\ hsame d h1 h2 /\
    (forall k, prev_of L i <> Some k -> h2 !! k = h1 !! k) /\
    (forall p y, prev_of L i = Some p -> h1 !! p = Some y -> h2 !! p = Some (set_nx d y (L !! Datatypes.S i))))
    as (h2 & head' & E2 & Hh & S2 & O2 & B2).
  { destruct i as [|i]; cbn [prev_of].
    - exists h1, (L !! 1%nat). split; [done|]. rewrite delete_index. split; [done|]. done.
    - destruct (L !! i) as [p|] eqn:Ep; [|by apply lookup_ge_None in Ep; apply lookup_lt_Some in Ei; lia].
      destruct (C i p Ep) as (y & Hy & _).
      assert (exists y', h1 !! p = Some y') as [y' Hy'].
      { destruct (hsame_lookup d h h1 p y S1 Hy) as (y' & ? & _). eauto. }
      rewrite (update_ok h1 p y') by done. cbn [obind]. do 2 eexists. split; [done|]. split; [|split; [|split]].
      + rewrite delete_index, decide_True by lia. done.
      + eapply hsame_insert; [done|apply blank_set_nx].
      + intros k Nk. rewrite lookup_insert_ne by congruence. done.
      + intros p' z [= <-] Hz. rewrite lookup_insert_eq. congruence. }
  exists h2, head'. split; [rewrite Nx; exact E2|]. split; [|split].
  - split; [done|]. intros j k. rewrite !delete_index. intros Ek.
    set (j0 := if decide (j < i)%nat then j else Datatypes.S j).
    assert (L !! j0 = Some k) as Ek' by (unfold j0; by destruct (decide (j < i)%nat)).
    assert (j0 <> i) as Nj by (unfold j0; destruct (decide (j < i)%nat); lia).
    destruct (C j0 k Ek') as (y & Hy & Ny & Py).
    (* the contents after the first write *)
    assert (exists y1, h1 !! k = Some y1 /\ nx d y1 = nx d y /\ pv d y1 = (if decide (j0 = Datatypes.S i) then prev_of L i else pv d y))
      as (y1 & Hy1 & N1 & P1).
    { destruct (decide (j0 = Datatypes.S i)) as [E|N].
      - rewrite E in Ek'. eexists. split; [by apply B1|]. by rewrite nx_set_pv, pv_set_pv.
      - rewrite O1; [eauto|]. intros En. by pose proof (nodup_index L _ _ k ND En Ek'). }
    assert (exists y2, h2 !! k = Some y2 /\ pv d y2 = pv d y1 /\ nx d y2 = (if decide (Datatypes.S j0 = i) then L !! Datatypes.S i else nx d y1))
      as (y2 & Hy2 & P2 & N2).
    { destruct (decide (Datatypes.S j0 = i)) as [E|N].
      - eexists. split; [apply B2; [by rewrite <- E|exact Hy1]|]. by rewrite pv_set_nx, nx_set_nx.
      - rewrite O2; [eauto|]. destruct i as [|i]; [done|]. cbn [prev_of]. intros En.
        pose proof (nodup_index L _ _ k ND En Ek'). lia. }
    exists y2. split; [done|]. rewrite N2, P2, N1, P1, Ny, Py. clear -j0 Nj Ei. unfold j0 in *. split.
    + destruct (decide (j < i)%nat); destruct (decide (Datatypes.S _ = i)); destruct (decide (Datatypes.S j < i)%nat);
        try lia; try done. by replace i with (Datatypes.S j) by lia.
    + destruct (decide (j < i)%nat).
      * rewrite decide_False by lia. destruct j as [|j]; [done|]. cbn [prev_of]. rewrite delete_index, decide_True by lia. done.
      * destruct (decide (Datatypes.S j = Datatypes.S i)) as [E|N].
        -- injection E as ->. destruct i as [|i]; [done|]. cbn [prev_of]. rewrite delete_index, decide_True by lia. done.
        -- cbn [prev_of]. destruct j as [|j]; [lia|]. cbn [prev_of]. rewrite delete_index, decide_False by lia. done.
  - by eapply hsame_trans.
  - intros k Nk. rewrite O2, O1; [done| |].
    + intros En. apply Nk. by eapply list_elem_of_lookup_2.
    + destruct i as [|i]; [done|]. cbn [prev_of]. intros En. apply Nk. by eapply list_elem_of_lookup_2.
Qed.

(** ** Walking a list *)
Fixpoint hit {A : Type} (h : gmap mid Membership) (f : mid -> Membership -> option A) (L : list mid) : option A :=
  match L with
  | [] => None
  | m :: L =>
      match h !! m with
      | Some x => match f m x with Some a => Some a | None => hit h f L end
      | None => None
      end
  end.

Lemma scan_from {A : Type} (h : gmap mid Membership) (f : mid -> Membership -> option A) (start : option mid) (L : list mid) :
  dll d h start L -> forall n i fuel, (length L - i <= n)%nat -> (n < fuel)%nat ->
  scan d h fuel (L !! i) f = Ok (hit h f (drop i L)).
Proof.
  intros [_ C]. induction n as [|n IH]; intros i fuel Ln Fu; (destruct fuel as [|fuel]; [lia|]).
  - rewrite lookup_ge_None_2, drop_ge by lia. done.
  - destruct (L !! i) as [m|] eqn:E.
    + destruct (C i m E) as (x & Hx & N & _). cbn [scan]. unfold load. rewrite Hx. cbn [obind].
      rewrite (drop_S _ _ _ E). cbn [hit]. rewrite Hx. destruct (f m x); [done|]. rewrite N. apply IH; lia.
    + rewrite drop_ge by (by apply lookup_ge_None). done.
Qed.

Lemma scan_spec {A : Type} (h : gmap mid Membership) (f : mid -> Membership -> option A) (start : option mid) (L : list mid) (fuel : nat) :
  dll d h start L -> (length L < fuel)%nat -> scan d h fuel start f = Ok (hit h f L).
Proof.
  intros D Fu. pose proof D as [S _]. rewrite S, (scan_from h f start L D (length L) O fuel) by lia. by rewrite drop_0.
Qed.

Lemma hit_some {A : Type} (h : gmap mid Membership) (f : mid -> Membership -> option A) (L : list mid) (a : A) :
  hit h f L = Some a -> exists m x, m ∈ L /\ h !! m = Some x /\ f m x = Some a.
Proof.
  induction L as [|m L IH]; cbn; [done|]. destruct (h !! m) as [x|] eqn:E; [|done]. destruct (f m x) eqn:F.
  - intros [= ->]. exists m, x. split; [by left|done].
  - intros H. destruct (IH H) as (m' & x' & Hm & ?). exists m', x'. split; [by right|done].
Qed.

Lemma hit_none {A : Type} (h : gmap mid Membership) (f : mid -> Membership -> option A) (L : list mid) :
  (forall m, m ∈ L -> exists x, h !! m = Some x) -> hit h f L = None -> forall m x, m ∈ L -> h !! m = Some x -> f m x = None.
Proof.
  induction L as [|m L IH]; intros Al H k x Hk E; [by apply elem_of_nil in Hk|]. cbn in H.
  destruct (Al m) as [y Hy]; [by left|]. rewrite Hy in H. destruct (f m y) eqn:F; [done|].
  apply elem_of_cons in Hk as [->|Hk]; [congruence|]. eapply IH; try done. intros m' Hm'. apply Al. by right.
Qed.

Lemma list_le_heap (h : gmap mid Membership) (L : list mid) : NoDup L -> (forall m, m ∈ L -> exists x, h !! m = Some x) ->
  (length L <= size h)%nat.
Proof.
  intros ND Al. rewrite <- (size_list_to_set (C := gset mid)) by done. rewrite <- size_dom.
  apply subseteq_size. intros m Hm. apply elem_of_list_to_set in Hm. apply elem_of_dom. destruct (Al m Hm) as [x ->]. eauto.
Qed.
End Dll.

(** ** The matrix *)
Lemma blank_channel (x y : Membership) : blank by_channel x = blank by_channel y ->
  user x = user y /\ channel x = channel y /\ status x = status y /\ next_channel x = next_channel y /\ prev_channel x = prev_channel y.
Proof. destruct x, y. cbn. by intros [= -> -> -> -> -> ->]. Qed.
Lemma blank_user (x y : Membership) : blank by_user x = blank by_user y ->
  user x = user y /\ channel x = channel y /\ status x = status y /\ next_member x = next_member y /\ prev_member x = prev_member y.
Proof. destruct x, y. cbn. by intros [= -> -> -> -> -> ->]. Qed.

(** [M c] are the members of channel [c], [U u] the channels of user [u], [F] the free
    cells; [off c] is what the count of [c] is ahead of its list. *)
Record matrix (st : state) (M : chid -> list mid) (U : cid -> list mid) (F : list mid) (off : chid -> Z) : Prop := {
  mx_chan : forall c ch, chans st !! c = Some ch ->
    dll by_channel (heap st) (members ch) (M c) /\ users ch = Z.of_nat (length (M c)) + off c;
  mx_nochan : forall c, chans st !! c = None -> M c = [];
  mx_client : forall u us, clients st !! u = Some us ->
    dll by_user (heap st) (u_channel us) (U u) /\ joined us = Z.of_nat (length (U u));
  mx_noclient : forall u, clients st !! u = None -> U u = [];
  mx_member : forall c m, m ∈ M c -> exists x, heap st !! m = Some x /\ channel x = c /\ m ∈ U (user x);
  mx_user : forall u m, m ∈ U u -> exists x, heap st !! m = Some x /\ user x = u /\ m ∈ M (channel x);
  mx_nodup_m : forall c, NoDup (M c);
  mx_nodup_u : forall u, NoDup (U u);
  mx_once : forall c m m' x x', m ∈ M c -> m' ∈ M c -> heap st !! m = Some x -> heap st !! m' = Some x' ->
    user x = user x' -> m = m';
  mx_free_start : membershipFreeList st = F !! O;
  mx_free : forall i m, F !! i = Some m -> exists x, heap st !! m = Some x /\ next_member x = F !! S i;
  mx_free_nodup : NoDup F;
  mx_free_live : forall m c, m ∈ F -> m ∉ M c;
  mx_brk : forall m x, heap st !! m = Some x -> (m < brk st)%positive;
  mx_invites : forall c ch u, chans st !! c = Some ch -> u ∈ invites ch -> is_Some (clients st !! u);
  mx_size : forall c, Z.of_nat (length (M c)) < 2 ^ 32;
  mx_size_u : forall u, Z.of_nat (length (U u)) < 2 ^ 32
}.

(** Changes that leave the matrix alone. *)
Definition chan_core (a b : option Channel) : Prop :=
  match a, b with
  | Some a, Some b => members b = members a /\ users b = users a /\ (forall u, u ∈ invites b -> u ∈ invites a)
  | None, None => True
  | _, _ => False
  end.
Definition user_core (a b : option User) : Prop :=
  match a, b with
  | Some a, Some b => u_channel b = u_channel a /\ joined b = joined a
  | None, None => True
  | _, _ => False
  end.
Record core (st st' : state) : Prop := {
  core_heap : heap st' = heap st;
  core_free : membershipFreeList st' = membershipFreeList st;
  core_brk : brk st' = brk st;
  core_chan : forall c, chan_core (chans st !! c) (chans st' !! c);
  core_client : forall u, user_core (clients st !! u) (clients st' !! u)
}.

Lemma chan_core_refl (a : option Channel) : chan_core a a.
Proof. by destruct a. Qed.
Lemma user_core_refl (a : option User) : user_core a a.
Proof. by destruct a. Qed.
Lemma chan_core_trans (a b c : option Channel) : chan_core a b -> chan_core b c -> chan_core a c.
Proof.
  destruct a, b, c; cbn; try done. intros (E1 & E2 & H) (E3 & E4 & K). split; [congruence|]. split; [congruence|auto].
Qed.
Lemma user_core_trans (a b c : option User) : user_core a b -> user_core b c -> user_core a c.
Proof. destruct a, b, c; cbn; try done. intros [E1 E2] [E3 E4]. split; congruence. Qed.
Lemma core_refl (st : state) : core st st.
Proof. split; try done; intros; [apply chan_core_refl|apply user_core_refl]. Qed.

Lemma core_trans (a b c : state) : core a b -> core b c -> core a c.
Proof.
  intros [H1 H2 H3 H4 H5] [K1 K2 K3 K4 K5]. split; try congruence; intros x.
  - by eapply chan_core_trans.
  - by eapply user_core_trans.
Qed.

Lemma core_emit (st st' : state) (e : event) : core st st' -> core st (emit st' e).
Proof. intros [H1 H2 H3 H4 H5]. by split. Qed.

Lemma core_set_chan (st : state) (c : chid) (ch ch' : Channel) : chans st !! c = Some ch ->
  members ch' = members ch -> users ch' = users ch -> (forall u, u ∈ invites ch' -> u ∈ invites ch) ->
  core st (set_chan st c ch').
Proof.
  intros E H1 H2 H3. split; try done; [|intros; apply user_core_refl]. intros k. cbn.
  destruct (decide (k = c)) as [->|N]; [|rewrite lookup_insert_ne by done; apply chan_core_refl].
  rewrite E, lookup_insert_eq. done.
Qed.

Lemma core_set_client (st : state) (u : cid) (us us' : User) : clients st !! u = Some us ->
  u_channel us' = u_channel us -> joined us' = joined us -> core st (set_client st u us').
Proof.
  intros E H1 H2. split; try done; [intros; apply chan_core_refl|]. intros k. cbn.
  destruct (decide (k = u)) as [->|N]; [|rewrite lookup_insert_ne by done; apply user_core_refl].
  rewrite E, lookup_insert_eq. done.
Qed.

Lemma core_chan_some (st st' : state) (c : chid) (ch' : Channel) : core st st' -> chans st' !! c = Some ch' ->
  exists ch, chans st !! c = Some ch /\ members ch' = members ch /\ users ch' = users ch /\ (forall u, u ∈ invites ch' -> u ∈ invites ch).
Proof. intros C E. pose proof (core_chan _ _ C c) as H. rewrite E in H. destruct (chans st !! c) as [ch|]; [eauto|done]. Qed.

Lemma core_chan_fwd (st st' : state) (c : chid) (ch : Channel) : core st st' -> chans st !! c = Some ch ->
  exists ch', chans st' !! c = Some ch' /\ members ch' = members ch /\ users ch' = users ch /\ (forall u, u ∈ invites ch' -> u ∈ invites ch).
Proof. intros C E. pose proof (core_chan _ _ C c) as H. rewrite E in H. destruct (chans st' !! c) as [ch'|]; [eauto|done]. Qed.

Lemma core_client_some (st st' : state) (u : cid) (us' : User) : core st st' -> clients st' !! u = Some us' ->
  exists us, clients st !! u = Some us /\ u_channel us' = u_channel us /\ joined us' = joined us.
Proof. intros C E. pose proof (core_client _ _ C u) as H. rewrite E in H. destruct (clients st !! u) as [us|]; [eauto|done]. Qed.

Lemma core_client_fwd (st st' : state) (u : cid) (us : User) : core st st' -> clients st !! u = Some us ->
  exists us', clients st' !! u = Some us' /\ u_channel us' = u_channel us /\ joined us' = joined us.
Proof. intros C E. pose proof (core_client _ _ C u) as H. rewrite E in H. destruct (clients st' !! u) as [us'|]; [eauto|done]. Qed.

Lemma matrix_core (st st' : state) (M : chid -> list mid) (U : cid -> list mid) (F : list mid) (off : chid -> Z) :
  core st st' -> matrix st M U F off -> matrix st' M U F off.
Proof.
  intros C X. pose proof C as [Hh Hf Hb _ _]. split; rewrite ?Hh, ?Hf, ?Hb; try apply X.
  - intros c ch E. destruct (core_chan_some _ _ _ _ C E) as (ch0 & E0 & -> & -> & _). by apply X.
  - intros c E. apply (mx_nochan _ _ _ _ _ X). pose proof (core_chan _ _ C c) as H. rewrite E in H. by destruct (chans st !! c).
  - intros u us E. destruct (core_client_some _ _ _ _ C E) as (us0 & E0 & -> & ->). by apply X.
  - intros u E. apply (mx_noclient _ _ _ _ _ X). pose proof (core_client _ _ C u) as H. rewrite E in H. by destruct (clients st !! u).
  - intros c ch u E Hu. destruct (core_chan_some _ _ _ _ C E) as (ch0 & E0 & _ & _ & Hi).
    destruct (mx_invites _ _ _ _ _ X c ch0 u E0 (Hi u Hu)) as [us Hus].
    destruct (core_client_fwd _ _ _ _ C Hus) as (us' & -> & _). eauto.
Qed.

(** ** Who is on which channel *)
Abbreviation roster := (gmap (cid * chid) Z).

Definition zombie (s : Z) : bool := negb (Z.land s CHFL_ZOMBIE =? 0).
(** Somebody who is not a zombie is on [c]. *)
Definition alive (A : roster) (c : chid) : bool :=
  existsb (fun e : cid * chid * Z => Pos.eqb e.1.2 c && negb (zombie e.2)) (map_to_list A).
Definition join (A : roster) (u : cid) (c : chid) (s : Z) : roster := <[(u, c) := s]> A.
(** Leaving removes the entry, and the zombies too when nobody else stays. *)
Definition part (A : roster) (u : cid) (c : chid) : roster :=
  match A !! (u, c) with
  | None => A
  | Some _ => let A' := delete (u, c) A in if alive A' c then A' else filter (fun e => e.1.2 <> c) A'
  end.
Definition quit (A : roster) (u : cid) : roster :=
  filter (fun e => e.1.1 <> u /\ (A !! (u, e.1.2) = None \/ alive (delete (u, e.1.2) A) e.1.2 = true)) A.

(** A kick leaves a zombie, who goes at once when his server knows ([gone]) or when
    only zombies are left. *)
Definition kick (A : roster) (u : cid) (c : chid) (gone : bool) : roster :=
  match A !! (u, c) with
  | None => A
  | Some s =>
      let A' := <[(u, c) := Z.lor s CHFL_ZOMBIE]> A in
      if gone || negb (alive A' c) then part A' u c else A'
  end.

Lemma alive_spec (A : roster) (c : chid) : alive A c = true <-> exists v s, A !! (v, c) = Some s /\ zombie s = false.
Proof.
  unfold alive. rewrite existsb_exists. split.
  - intros ([[v c'] s] & Hin & [E Z]%andb_true_iff). apply Pos.eqb_eq in E. cbn in E. subst c'. exists v, s.
    split; [by apply elem_of_map_to_list, list_elem_of_In|by apply negb_true_iff].
  - intros (v & s & E & Z). exists (v, c, s). split; [by apply list_elem_of_In, elem_of_map_to_list|]. cbn. by rewrite Pos.eqb_refl, Z.
Qed.

Lemma part_lookup (A : roster) (u v : cid) (c c' : chid) (s : Z) : part A u c !! (v, c') = Some s <->
  A !! (v, c') = Some s /\ (A !! (u, c) = None \/ (v, c') <> (u, c) /\ (c' <> c \/ alive (delete (u, c) A) c = true)).
Proof.
  unfold part. destruct (A !! (u, c)) as [t|] eqn:E; [|naive_solver]. destruct (alive (delete (u, c) A) c) eqn:L.
  - rewrite lookup_delete_Some. naive_solver.
  - rewrite map_lookup_filter_Some, lookup_delete_Some. cbn. naive_solver.
Qed.

Lemma quit_lookup (A : roster) (u v : cid) (c : chid) (s : Z) : quit A u !! (v, c) = Some s <->
  A !! (v, c) = Some s /\ v <> u /\ (A !! (u, c) = None \/ alive (delete (u, c) A) c = true).
Proof. unfold quit. rewrite map_lookup_filter_Some. cbn. done. Qed.

Lemma roster_eq (A B : roster) : (forall v c s, A !! (v, c) = Some s <-> B !! (v, c) = Some s) -> A = B.
Proof. intros H. apply map_eq. intros [v c]. apply option_eq. intros s. apply H. Qed.

(** Other people's presence on a channel decides its life. *)
Lemma alive_part_other (A : roster) (u : cid) (c c' : chid) : c' <> c ->
  alive (delete (u, c') (part A u c)) c' = alive (delete (u, c') A) c'.
Proof.
  intros N. apply eq_true_iff_eq. rewrite !alive_spec. setoid_rewrite lookup_delete_Some. setoid_rewrite part_lookup. naive_solver.
Qed.

Lemma quit_part (A : roster) (u : cid) (c : chid) : quit (part A u c) u = quit A u.
Proof.
  apply roster_eq. intros v c' s. rewrite !quit_lookup, part_lookup. destruct (decide (c' = c)) as [->|N].
  - assert (part A u c !! (u, c) = None) as P.
    { apply eq_None_not_Some. intros [t Ht]. apply part_lookup in Ht as [Ht [?|[? _]]]; congruence. }
    rewrite P. split; [naive_solver|]. intros (HA & Nv & L). split; [split; [done|]|naive_solver].
    destruct L as [L|L]; [by left|]. right. split; [congruence|by right].
  - rewrite (alive_part_other A u c c' N).
    assert (part A u c !! (u, c') = None <-> A !! (u, c') = None) as ->; [|naive_solver].
    rewrite !eq_None_not_Some. unfold is_Some. setoid_rewrite part_lookup. naive_solver.
Qed.

Lemma quit_none (A : roster) (u : cid) : (forall c, A !! (u, c) = None) -> quit A u = A.
Proof.
  intros H. apply roster_eq. intros v c s. rewrite quit_lookup. split; [naive_solver|]. intros E. split; [done|].
  split; [|by left]. intros ->. by rewrite H in E.
Qed.

Lemma size_by_list (B : roster) (L : list mid) (f : mid -> cid * chid * Z) : NoDup L ->
  (forall k k', k ∈ L -> k' ∈ L -> (f k).1 = (f k').1 -> k = k') ->
  (forall v c s, B !! (v, c) = Some s <-> exists k, k ∈ L /\ f k = (v, c, s)) -> size B = length L.
Proof.
  intros ND Inj H. assert (NoDup (f <$> L).*1) as ND'.
  { rewrite <- list_fmap_compose. apply NoDup_fmap_2_strong; [|done]. intros k k' Hk Hk' E. by apply Inj. }
  assert (B = list_to_map (f <$> L)) as ->.
  { apply roster_eq. intros v c s. rewrite H, <- elem_of_list_to_map by done. rewrite list_elem_of_fmap. naive_solver. }
  rewrite map_size_list_to_map by done. apply length_fmap.
Qed.

Definition zombie_cell (h : gmap mid Membership) (k : mid) : bool := match h !! k with Some x => zombie (status x) | None => false end.

Lemma zombies_from (h : gmap mid Membership) (start : option mid) (L : list mid) : dll by_channel h start L ->
  forall n i fuel count, (length L - i <= n)%nat -> (n < fuel)%nat ->
  zombies_loop h fuel (L !! i) count = Ok (count + Z.of_nat (length (filter (fun k => zombie_cell h k = true) (drop i L)))).
Proof.
  intros [_ C]. induction n as [|n IH]; intros i fuel count Li Fu; (destruct fuel as [|fuel]; [lia|]).
  - rewrite lookup_ge_None_2, drop_ge by lia. cbn. f_equal. lia.
  - destruct (L !! i) as [m|] eqn:E.
    + destruct (C i m E) as (x & Hx & N & _). cbn [zombies_loop]. unfold load. rewrite Hx. cbn [obind].
      assert (zombie_cell h m = IsZombie x) as Zx by (unfold zombie_cell; by rewrite Hx).
      rewrite (drop_S _ _ _ E), filter_cons. change (next_member x) with (nx by_channel x). rewrite N, IH by lia.
      rewrite <- Zx. destruct (decide (zombie_cell h m = true)) as [->| ->%not_true_is_false]; cbn [length]; f_equal; lia.
    + rewrite drop_ge by (by apply lookup_ge_None). cbn. f_equal. lia.
Qed.

Section Matrix.
Context (IsServer IsMe IsChannelService : cid -> bool).
Context (get_secure_group_id : cid -> Z).
Context (oplevels : bool) (now : Z).

Abbreviation CheckChannelTLS := (CheckChannelTLS get_secure_group_id).
Abbreviation sub1_from_channel := (sub1_from_channel oplevels now).
Abbreviation remove_member_from_channel := (remove_member_from_channel get_secure_group_id oplevels now).
Abbreviation remove_rest := (remove_rest get_secure_group_id oplevels now).
Abbreviation find_member_link := (find_member_link IsServer IsMe IsChannelService).
Abbreviation remove_user_from_channel := (remove_user_from_channel IsServer IsMe IsChannelService get_secure_group_id oplevels now).
Abbreviation remove_user_from_all_channels := (remove_user_from_all_channels IsServer IsMe IsChannelService get_secure_group_id oplevels now).
Abbreviation add_user_to_channel := (add_user_to_channel get_secure_group_id).

Lemma groups_from (h : gmap mid Membership) (start : option mid) (L : list mid) : dll by_channel h start L ->
  forall n i fuel count sid, (length L - i <= n)%nat -> (n < fuel)%nat ->
  exists r, secure_groups_loop get_secure_group_id h fuel (L !! i) count sid = Ok r.
Proof.
  intros [_ C]. induction n as [|n IH]; intros i fuel count sid Ln Fu; (destruct fuel as [|fuel]; [lia|]).
  - rewrite lookup_ge_None_2 by lia. eexists. done.
  - destruct (L !! i) as [m|] eqn:E; [|eexists; done]. destruct (C i m E) as (x & Hx & N & _). cbn [by_channel nx] in N.
    cbn [secure_groups_loop]. unfold load. rewrite Hx. cbn [obind]. rewrite N.
    destruct (IsZombie x); [apply IH; lia|]. destruct (count =? 0); [apply IH; lia|].
    destruct (negb _); [eexists; done|apply IH; lia].
Qed.

Lemma tls_core (st : state) (c : chid) (ch : Channel) (L : list mid) : chans st !! c = Some ch ->
  dll by_channel (heap st) (members ch) L -> NoDup L -> exists st', CheckChannelTLS st c = Ok st' /\ core st st'.
Proof.
  intros E D ND. unfold Channel.CheckChannelTLS, load_chan. rewrite E. cbn [obind].
  destruct (negb _); [exists st; split; [done|apply core_refl]|].
  unfold channel_secure_groups, load_chan. rewrite E. cbn [obind].
  assert (length L < fuel_of st)%nat as Lf.
  { unfold fuel_of. apply (list_le_heap (heap st)) in ND; [lia|]. intros m Hm. by eapply dll_elem. }
  destruct (groups_from (heap st) (members ch) L D (length L) O (fuel_of st) 0 0) as [[g s] G]; [lia|done|].
  pose proof D as [S _]. rewrite S, G. cbn [obind].
  destruct (_ && (g =? 1) && _); [|destruct (_ && _ && _)]; (eexists; split; [done|]);
    [apply core_emit; by eapply core_set_chan|apply core_emit; by eapply core_set_chan|apply core_refl].
Qed.

Lemma delayed_core (st : state) (c : chid) (ch : Channel) (L : list mid) : chans st !! c = Some ch ->
  dll by_channel (heap st) (members ch) L -> NoDup L -> exists st', CheckDelayedJoins st c = Ok st' /\ core st st'.
Proof.
  intros E D ND. unfold CheckDelayedJoins, load_chan. rewrite E. cbn [obind].
  destruct (has_mode ch MODE_WASDELJOINS); [|exists st; split; [done|apply core_refl]].
  unfold find_delayed_joins. rewrite (scan_spec by_channel (heap st) _ _ L).
  - cbn [obind]. destruct (hit _ _ _); (eexists; split; [done|]); [apply core_refl|].
    apply core_emit. by eapply core_set_chan.
  - done.
  - unfold fuel_of. apply (list_le_heap (heap st)) in ND; [lia|]. intros m Hm. by eapply dll_elem.
Qed.

Lemma remove_first_elem (x : positive) (l r : list positive) (y : positive) : remove_first x l = Some r -> y ∈ r -> y ∈ l.
Proof.
  revert r. induction l as [|z l IH]; intros r; cbn; [done|]. destruct (Pos.eqb_spec z x) as [->|N].
  - intros [= <-] Hy. by right.
  - destruct (remove_first x l) as [r'|]; [|done]. intros [= <-] [->|Hy]%elem_of_cons; [by left|right]. by apply (IH r').
Qed.

(** Taking the first invitation of a channel back. *)
Lemma del_invite_head (st : state) (c : chid) (ch : Channel) (u : cid) (r : list cid) (us : User) :
  chans st !! c = Some ch -> invites ch = u :: r -> clients st !! u = Some us ->
  exists st', del_invite st u c = Ok st' /\ core st st' /\ chans st' = <[c := set_invites ch r]> (chans st).
Proof.
  intros E I Hu. unfold del_invite, load_chan. rewrite E. cbn [obind]. rewrite I. cbn [remove_first]. rewrite Pos.eqb_refl.
  unfold load_client. cbn [set_chan clients]. rewrite Hu. cbn [obind set_client clients]. rewrite lookup_insert_eq. cbn [obind].
  set (st1 := set_chan st c (set_invites ch r)).
  assert (core st st1) as C1. { eapply core_set_chan; [done|done|done|]. intros k Hk. rewrite I. by right. }
  set (us1 := MkUser (u_channel us) (invited us) (joined us) (u32 (u_invites us - 1))).
  assert (core st1 (set_client st1 u us1)) as C2 by (by apply (core_set_client st1 u us)).
  cbn [us1 invited]. destruct (remove_first c (invited us)) as [l|].
  - eexists. split; [done|]. split; [|done]. eapply core_trans; [exact C1|]. eapply core_trans; [exact C2|].
    eapply core_set_client; [cbn; by rewrite lookup_insert_eq|done|done].
  - eexists. split; [done|]. split; [|done]. by eapply core_trans.
Qed.

Lemma clear_invites_core (n : nat) : forall st c ch, chans st !! c = Some ch -> length (invites ch) = n ->
  (forall u, u ∈ invites ch -> is_Some (clients st !! u)) ->
  exists st', clear_invites st n c = Ok st' /\ core st st' /\ chans st' = <[c := set_invites ch []]> (chans st).
Proof.
  induction n as [|n IH]; intros st c ch E L A.
  - assert (invites ch = []) as I by (by apply length_zero_iff_nil). cbn [clear_invites]. unfold load_chan. rewrite E. cbn [obind].
    rewrite I. exists st. split; [done|]. split; [apply core_refl|]. rewrite insert_id; [done|].
    rewrite E. f_equal. destruct ch. cbn in *. by subst.
  - destruct (invites ch) as [|u r] eqn:I; [done|]. injection L as L. destruct (A u) as [us Hu]; [by left|].
    cbn [clear_invites]. unfold load_chan. rewrite E. cbn [obind]. rewrite I.
    destruct (del_invite_head st c ch u r us E I Hu) as (st1 & -> & C1 & E1). cbn [obind].
    destruct (IH st1 c (set_invites ch r)) as (st2 & -> & C2 & E2).
    + rewrite E1. apply lookup_insert_eq.
    + done.
    + cbn [set_invites invites]. intros k Hk. destruct (A k) as [us' Hk']; [by right|].
      destruct (core_client_fwd _ _ _ _ C1 Hk') as (us2 & -> & _). eauto.
    + exists st2. split; [done|]. split; [by eapply core_trans|]. rewrite E2, E1, insert_insert_eq. done.
Qed.

Lemma invite_clear_core (st : state) (c : chid) (ch : Channel) : chans st !! c = Some ch ->
  (forall u, u ∈ invites ch -> is_Some (clients st !! u)) ->
  exists st', mode_invite_clear st c = Ok st' /\ core st st' /\ chans st' = <[c := set_invites ch []]> (chans st).
Proof.
  intros E A. unfold mode_invite_clear, load_chan. rewrite E. cbn [obind]. by apply clear_invites_core.
Qed.

(** A new count for one channel, which may go away when it is empty. *)
Lemma matrix_recount (st st' : state) (M : chid -> list mid) (U : cid -> list mid) (F : list mid) (off : chid -> Z) (c : chid) (k : Z) (ch : Channel) :
  matrix st M U F off -> chans st !! c = Some ch ->
  heap st' = heap st -> membershipFreeList st' = membershipFreeList st -> brk st' = brk st ->
  (forall c', c' <> c -> chan_core (chans st !! c') (chans st' !! c')) ->
  (forall u, user_core (clients st !! u) (clients st' !! u)) ->
  match chans st' !! c with
  | Some ch' => members ch' = members ch /\ users ch' = Z.of_nat (length (M c)) + k /\ (forall u, u ∈ invites ch' -> u ∈ invites ch)
  | None => M c = []
  end ->
  matrix st' M U F (<[c := k]> off).
Proof.
  intros X E Hh Hf Hb Hc Hu Hk. split; rewrite ?Hh, ?Hf, ?Hb; try apply X.
  - intros c' ch' E'. destruct (decide (c' = c)) as [->|N].
    + rewrite E' in Hk. destruct Hk as (-> & -> & _). rewrite fn_lookup_insert. split; [|done]. by apply (mx_chan _ _ _ _ _ X c ch).
    + rewrite fn_lookup_insert_ne by done. specialize (Hc c' N). rewrite E' in Hc. destruct (chans st !! c') as [ch0|] eqn:E0; [|done].
      destruct Hc as (-> & -> & _). by apply (mx_chan _ _ _ _ _ X).
  - intros c' E'. destruct (decide (c' = c)) as [->|N]; [by rewrite E' in Hk|].
    apply (mx_nochan _ _ _ _ _ X). specialize (Hc c' N). rewrite E' in Hc. by destruct (chans st !! c').
  - intros u us E'. specialize (Hu u). rewrite E' in Hu. destruct (clients st !! u) as [us0|] eqn:E0; [|done].
    destruct Hu as (-> & ->). by apply (mx_client _ _ _ _ _ X).
  - intros u E'. apply (mx_noclient _ _ _ _ _ X). specialize (Hu u). rewrite E' in Hu. by destruct (clients st !! u).
  - intros c' ch' u E' Hi. assert (exists ch0, chans st !! c' = Some ch0 /\ u ∈ invites ch0) as (ch0 & E0 & Hi0).
    { destruct (decide (c' = c)) as [->|N].
      - rewrite E' in Hk. destruct Hk as (_ & _ & Hk). eauto.
      - specialize (Hc c' N). rewrite E' in Hc. destruct (chans st !! c') as [ch0|]; [|done]. destruct Hc as (_ & _ & Hc). eauto. }
    destruct (mx_invites _ _ _ _ _ X c' ch0 u E0 Hi0) as [us Hus]. specialize (Hu u). rewrite Hus in Hu.
    destruct (clients st' !! u); [eauto|done].
Qed.

(** What leaves memberships and clients as they are. *)
Record quiet (st st' : state) (c : chid) : Prop := {
  q_heap : heap st' = heap st;
  q_free : membershipFreeList st' = membershipFreeList st;
  q_brk : brk st' = brk st;
  q_chan : forall c', c' <> c -> chan_core (chans st !! c') (chans st' !! c');
  q_client : forall u, user_core (clients st !! u) (clients st' !! u)
}.

Lemma quiet_core (st st' : state) (c : chid) : core st st' -> quiet st st' c.
Proof. intros [H1 H2 H3 H4 H5]. split; auto. Qed.

Lemma quiet_trans (a b d : state) (c : chid) : quiet a b c -> quiet b d c -> quiet a d c.
Proof.
  intros [H1 H2 H3 H4 H5] [K1 K2 K3 K4 K5]. split; try congruence.
  - intros c' N. eapply chan_core_trans; auto.
  - intros u. by eapply user_core_trans.
Qed.

Lemma quiet_set_chan (st : state) (c : chid) (ch : Channel) : quiet st (set_chan st c ch) c.
Proof.
  split; try done; [|intros; apply user_core_refl]. intros c' N. cbn. rewrite lookup_insert_ne by done. apply chan_core_refl.
Qed.

(** An emptied channel: reset, then destroyed at once or scheduled. *)
Lemma sub1_empty (st : state) (c : chid) (ch : Channel) : chans st !! c = Some ch -> (users ch <= 1) ->
  (forall u, u ∈ invites ch -> is_Some (clients st !! u)) ->
  exists st', sub1_from_channel st c = Ok (st', 0) /\ quiet st st' c /\
    match chans st' !! c with
    | Some ch' => members ch' = members ch /\ users ch' = 0 /\ (forall u, u ∈ invites ch' -> u ∈ invites ch)
    | None => True
    end.
Proof.
  intros E Hu A. unfold Channel.sub1_from_channel, load_chan at 1. rewrite E. cbn [obind]. rewrite (proj2 (Z.ltb_ge _ _)) by lia.
  set (ch1 := Chan _ _ 0 _ _ _ _ _ _ _ _). set (st1 := set_chan st c ch1). cbn [ch1 apass].
  assert (forall ch2 k, members ch2 = members ch -> users ch2 = 0 -> (forall u, u ∈ invites ch2 -> u ∈ invites ch) ->
    let ch3 := schedule_destruct_event now ch2 k in
    members ch3 = members ch /\ users ch3 = 0 /\ (forall u, u ∈ invites ch3 -> u ∈ invites ch)) as Sch.
  { intros ch2 k H1 H2 H3. unfold schedule_destruct_event. cbn zeta. by destruct (destruct_event ch2). }
  destruct (apass ch) as [|a0 ap] eqn:Ap.
  - cbn [destruct_event creationtime members invites banlist].
    set (ch2 := Chan _ _ 0 _ _ _ 0 0 [] _ _). set (st2 := set_chan st1 c ch2).
    assert (chans st2 !! c = Some ch2) as E2 by (cbn; apply lookup_insert_eq).
    assert (quiet st st2 c) as Q2 by (eapply quiet_trans; apply quiet_set_chan).
    destruct (invite_clear_core st2 c ch2 E2) as (st3 & -> & C3 & X3).
    { cbn. intros u Hi. by apply A. }
    assert (chans st3 !! c = Some (set_invites ch2 [])) as E3 by (rewrite X3; apply lookup_insert_eq).
    cbn [obind]. unfold load_chan at 1. rewrite E3. cbn [obind]. set (ch4 := Chan _ _ _ _ _ [] _ _ _ _ _). set (st4 := set_chan st3 c ch4).
    assert (quiet st st4 c) as Q4.
    { eapply quiet_trans; [exact Q2|]. eapply quiet_trans; [by apply quiet_core|apply quiet_set_chan]. }
    assert (chans st4 !! c = Some ch4) as E4 by (cbn; apply lookup_insert_eq).
    destruct oplevels; cbn [negb].
    + unfold load_chan. rewrite E4. cbn [obind]. eexists. split; [done|]. split; [eapply quiet_trans; [exact Q4|apply quiet_set_chan]|].
      cbn [set_chan chans]. rewrite lookup_insert_eq. apply Sch; cbn; [done|done|by intros u ?%elem_of_nil].
    + unfold destruct_channel. destruct (invite_clear_core st4 c ch4 E4) as (st5 & -> & C5 & X5).
      { cbn. by intros u ?%elem_of_nil. }
      cbn [obind]. eexists. split; [done|]. split.
      * eapply quiet_trans; [exact Q4|]. eapply quiet_trans; [by apply quiet_core|]. split; try done; cbn; [|intros; apply user_core_refl].
        intros c' N. rewrite lookup_delete_ne by done. apply chan_core_refl.
      * cbn. by rewrite lookup_delete_eq.
  - unfold load_chan. cbn [st1 set_chan chans]. rewrite lookup_insert_eq. cbn [obind]. eexists. split; [done|].
    split; [eapply quiet_trans; apply quiet_set_chan|]. cbn [set_chan chans]. rewrite lookup_insert_eq. by apply Sch.
Qed.

Lemma sub1_spec (st : state) (M : chid -> list mid) (U : cid -> list mid) (F : list mid) (off : chid -> Z) (c : chid) (ch : Channel) :
  matrix st M U F off -> chans st !! c = Some ch -> off c = 1 ->
  exists st' more, sub1_from_channel st c = Ok (st', more) /\ matrix st' M U F (<[c := 0]> off) /\ quiet st st' c /\
    (M c <> [] -> more = 1 /\ is_Some (chans st' !! c)) /\ (M c = [] -> more = 0).
Proof.
  intros X E O. destruct (mx_chan _ _ _ _ _ X c ch E) as [D N]. rewrite O in N. pose proof (mx_size _ _ _ _ _ X c) as B.
  destruct (M c) as [|m L] eqn:EM.
  - destruct (sub1_empty st c ch E) as (st' & S & Q & P); [cbn in N; lia|intros u Hu; by eapply (mx_invites _ _ _ _ _ X)|].
    exists st', 0. split; [done|]. split; [|split; [done|split; done]].
    eapply (matrix_recount st st' M U F off c 0 ch); try done; try apply Q. destruct (chans st' !! c) as [ch'|]; [|done].
    destruct P as (P1 & P2 & P3). split; [done|]. split; [rewrite P2, EM; done|done].
  - unfold Channel.sub1_from_channel, load_chan. rewrite E. cbn [obind]. cbn [length] in N. rewrite (proj2 (Z.ltb_lt _ _)) by lia.
    do 2 eexists. split; [done|]. split; [|split; [apply quiet_set_chan|split; [|done]]].
    + eapply (matrix_recount st _ M U F off c 0 ch); try done.
      * apply (q_chan _ _ _ (quiet_set_chan st c _)).
      * apply (q_client _ _ _ (quiet_set_chan st c _)).
      * cbn [set_chan chans]. rewrite lookup_insert_eq. cbn. rewrite EM. cbn [length]. split; [done|]. split; [lia|done].
    + intros _. split; [done|]. cbn. rewrite lookup_insert_eq. eauto.
Qed.

Definition zero (c : chid) : Z := 0.

Lemma matrix_off (st : state) (M : chid -> list mid) (U : cid -> list mid) (F : list mid) (off off' : chid -> Z) :
  (forall c, off c = off' c) -> matrix st M U F off -> matrix st M U F off'.
Proof.
  intros H X. split; try apply X. intros c ch E. rewrite <- H. by apply (mx_chan _ _ _ _ _ X).
Qed.

Lemma elem_delete (L : list mid) (i : nat) (m k : mid) : NoDup L -> L !! i = Some m -> k ∈ delete i L <-> k ∈ L /\ k <> m.
Proof.
  intros ND E. split.
  - intros [j Hj]%list_elem_of_lookup. rewrite delete_index in Hj. destruct (decide (j < i)%nat).
    + split; [by eapply list_elem_of_lookup_2|]. intros ->. pose proof (nodup_index L _ _ m ND Hj E). lia.
    + split; [by eapply list_elem_of_lookup_2|]. intros ->. pose proof (nodup_index L _ _ m ND Hj E). lia.
  - intros [[j Hj]%list_elem_of_lookup N]. assert (j <> i) by congruence. apply list_elem_of_lookup.
    destruct (decide (j < i)%nat).
    + exists j. by rewrite delete_index, decide_True.
    + exists (pred j). rewrite delete_index, decide_False by lia. by replace (S (pred j)) with j by lia.
Qed.

Lemma nodup_delete (L : list mid) (i : nat) : NoDup L -> NoDup (delete i L).
Proof. intros ND. eapply sublist_NoDup; [exact ND|apply sublist_delete]. Qed.

(** Cells of other lists. *)
Lemma other_channel (st : state) M U F off (c c' : chid) (m : mid) : matrix st M U F off -> m ∈ M c -> c' <> c -> m ∉ M c'.
Proof.
  intros X H N H'. destruct (mx_member _ _ _ _ _ X c m H) as (x & Hx & E & _).
  destruct (mx_member _ _ _ _ _ X c' m H') as (x' & Hx' & E' & _). congruence.
Qed.
Lemma other_user (st : state) M U F off (u u' : cid) (m : mid) : matrix st M U F off -> m ∈ U u -> u' <> u -> m ∉ U u'.
Proof.
  intros X H N H'. destruct (mx_user _ _ _ _ _ X u m H) as (x & Hx & E & _).
  destruct (mx_user _ _ _ _ _ X u' m H') as (x' & Hx' & E' & _). congruence.
Qed.

(** The same people on the same channels with the same flags. *)
Definition cells_kept (h h' : gmap mid Membership) : Prop :=
  forall k y, h !! k = Some y -> exists y', h' !! k = Some y' /\ user y' = user y /\ channel y' = channel y /\ status y' = status y.

Lemma cells_kept_trans (h1 h2 h3 : gmap mid Membership) : cells_kept h1 h2 -> cells_kept h2 h3 -> cells_kept h1 h3.
Proof.
  intros A B k y H. destruct (A k y H) as (y1 & E1 & A1 & A2 & A3). destruct (B k y1 E1) as (y2 & E2 & B1 & B2 & B3).
  exists y2. repeat split; congruence.
Qed.
Lemma cells_kept_channel (h h' : gmap mid Membership) : hsame by_channel h h' -> cells_kept h h'.
Proof. intros S k y H. destruct (hsame_lookup _ _ _ _ _ S H) as (y' & H' & B). apply blank_channel in B as (? & ? & ? & _). eauto 6. Qed.
Lemma cells_kept_user (h h' : gmap mid Membership) : hsame by_user h h' -> cells_kept h h'.
Proof. intros S k y H. destruct (hsame_lookup _ _ _ _ _ S H) as (y' & H' & B). apply blank_user in B as (? & ? & ? & _). eauto 6. Qed.

Lemma delete_length (L : list mid) (n : nat) (k : mid) : L !! n = Some k -> Z.of_nat (length (delete n L)) = Z.of_nat (length L) - 1.
Proof. intros E. pose proof (length_delete L n ltac:(by rewrite E)). pose proof (lookup_lt_Some _ _ _ E). lia. Qed.

(** The heap after a cell was taken off both its lists and freed. *)
Section Unlinked.
Context (st : state) (M : chid -> list mid) (U : cid -> list mid) (F : list mid).
Context (c : chid) (m : mid) (x y : Membership) (i j : nat) (h1 h2 h5 : gmap mid Membership) (head1 head2 : option mid).
Hypothesis X : matrix st M U F zero.
Hypothesis Ei : M c !! i = Some m.
Hypothesis Ex : heap st !! m = Some x.
Hypothesis Ej : U (user x) !! j = Some m.
Hypothesis D1 : dll by_channel h1 head1 (delete i (M c)).
Hypothesis S1 : hsame by_channel (heap st) h1.
Hypothesis O1 : forall k, k ∉ M c -> h1 !! k = heap st !! k.
Hypothesis D2 : dll by_user h2 head2 (delete j (U (user x))).
Hypothesis S2 : hsame by_user h1 h2.
Hypothesis O2 : forall k, k ∉ U (user x) -> h2 !! k = h1 !! k.
Hypothesis Ey : h2 !! m = Some y.
Hypothesis E5 : h5 = <[m := set_nx by_channel y (membershipFreeList st)]> h2.

Lemma unlinked_kept : cells_kept (heap st) h5.
Proof.
  eapply cells_kept_trans; [by apply cells_kept_channel|]. eapply cells_kept_trans; [by apply cells_kept_user|].
  rewrite E5. apply cells_kept_channel. eapply hsame_insert; [exact Ey|]. apply blank_set_nx, by_channel_links.
Qed.

Lemma unlinked_dom (k : mid) : is_Some (h5 !! k) -> is_Some (heap st !! k).
Proof.
  rewrite E5. destruct (decide (k = m)) as [->|N]; [rewrite Ex; eauto|]. rewrite lookup_insert_ne by done.
  intros [z Hz]. destruct (hsame_lookup _ _ _ _ _ (hsame_sym _ _ _ S2) Hz) as (z1 & Hz1 & _).
  destruct (hsame_lookup _ _ _ _ _ (hsame_sym _ _ _ S1) Hz1) as (z0 & -> & _). eauto.
Qed.

(** Member links of the other cells are those after the first step. *)
Lemma unlinked_member_links (k : mid) (y1 : Membership) : k <> m -> h1 !! k = Some y1 ->
  exists y', h5 !! k = Some y' /\ next_member y' = next_member y1 /\ prev_member y' = prev_member y1.
Proof.
  intros N H. destruct (hsame_lookup _ _ _ _ _ S2 H) as (y' & H' & B). apply blank_user in B as (_ & _ & _ & B1 & B2).
  exists y'. rewrite E5, lookup_insert_ne by done. done.
Qed.

Lemma unlinked_channel_links (k : mid) (y2 : Membership) : h2 !! k = Some y2 ->
  exists y', h5 !! k = Some y' /\ next_channel y' = next_channel y2 /\ prev_channel y' = prev_channel y2.
Proof.
  intros H. rewrite E5. destruct (decide (k = m)) as [->|N]; [|rewrite lookup_insert_ne by done; eauto].
  rewrite lookup_insert_eq. replace y with y2 by congruence. eauto.
Qed.

Lemma unlinked_m_elem (k : mid) : k ∈ delete i (M c) <-> k ∈ M c /\ k <> m.
Proof. apply elem_delete; [apply X|done]. Qed.
Lemma unlinked_u_elem (k : mid) : k ∈ delete j (U (user x)) <-> k ∈ U (user x) /\ k <> m.
Proof. apply elem_delete; [apply X|done]. Qed.

Lemma unlinked_chan (c' : chid) (start : option mid) : c' <> c -> dll by_channel (heap st) start (M c') ->
  dll by_channel h5 start (M c').
Proof.
  intros N. apply dll_ext. intros k z Hk Hz.
  assert (k <> m) as Nk. { intros ->. by apply (other_channel st M U F zero c c' m X (list_elem_of_lookup_2 _ _ _ Ei) N). }
  assert (k ∉ M c) as Nc by (intros Hc; by apply (other_channel st M U F zero c c' k X Hc N)).
  apply unlinked_member_links; [done|]. by rewrite O1.
Qed.

Lemma unlinked_this_chan : dll by_channel h5 head1 (delete i (M c)).
Proof.
  revert D1. apply dll_ext. intros k z [_ Nk]%unlinked_m_elem Hz. by apply unlinked_member_links.
Qed.

Lemma unlinked_user (u' : cid) (start : option mid) : u' <> user x -> dll by_user (heap st) start (U u') ->
  dll by_user h5 start (U u').
Proof.
  intros N. apply dll_ext. intros k z Hk Hz.
  assert (k ∉ U (user x)) as Nu by (intros Hu; by apply (other_user st M U F zero (user x) u' k X Hu N)).
  destruct (hsame_lookup _ _ _ _ _ S1 Hz) as (z1 & Hz1 & B). apply blank_channel in B as (_ & _ & _ & B1 & B2).
  rewrite <- O2 in Hz1 by done. destruct (unlinked_channel_links k z1 Hz1) as (y' & Hy' & N1 & N2).
  exists y'. split; [done|]. cbn. split; congruence.
Qed.

Lemma unlinked_this_user : dll by_user h5 head2 (delete j (U (user x))).
Proof. revert D2. apply dll_ext. intros k z Hk Hz. by apply unlinked_channel_links. Qed.

(** The free list has one cell more. *)
Lemma unlinked_free (n : nat) (k : mid) : (m :: F) !! n = Some k ->
  exists z, h5 !! k = Some z /\ next_member z = (m :: F) !! S n.
Proof.
  destruct n as [|n]; cbn [lookup].
  - intros [= <-]. rewrite E5, lookup_insert_eq. eexists. split; [done|]. cbn. apply (mx_free_start _ _ _ _ _ X).
  - intros E. change (F !! n = Some k) in E. destruct (mx_free _ _ _ _ _ X n k E) as (z & Hz & Nz).
    assert (k ∉ M c) as Nc by (apply (mx_free_live _ _ _ _ _ X); by eapply list_elem_of_lookup_2).
    assert (k <> m) by (intros ->; apply Nc; by eapply list_elem_of_lookup_2).
    destruct (unlinked_member_links k z) as (z' & Hz' & N1 & _); [done|by rewrite O1|]. exists z'. split; [done|].
    rewrite N1, Nz. done.
Qed.

Context (ch : Channel) (us : User) (st5 : state).
Hypothesis Ec : chans st !! c = Some ch.
Hypothesis Eu : clients st !! user x = Some us.
Hypothesis H5 : heap st5 = h5 /\ membershipFreeList st5 = Some m /\ brk st5 = brk st.
Hypothesis Hc : match chans st5 !! c with
  | Some ch' => members ch' = head1 /\ users ch' = users ch /\ (forall u, u ∈ invites ch' -> u ∈ invites ch)
  | None => False end.
Hypothesis Hc' : forall c', c' <> c -> chan_core (chans st !! c') (chans st5 !! c').
Hypothesis Hu : match clients st5 !! user x with
  | Some us' => u_channel us' = head2 /\ joined us' = joined us - 1
  | None => False end.
Hypothesis Hu' : forall u', u' <> user x -> user_core (clients st !! u') (clients st5 !! u').

Abbreviation M' := (<[c := delete i (M c)]> M).
Abbreviation U' := (<[user x := delete j (U (user x))]> U).

Lemma unlinked_in_M (c' : chid) (k : mid) : k ∈ M' c' <-> k ∈ M c' /\ k <> m.
Proof.
  destruct (decide (c' = c)) as [->|N]; [rewrite fn_lookup_insert; apply unlinked_m_elem|].
  rewrite fn_lookup_insert_ne by done. split; [|by intros [? _]]. intros Hk. split; [done|]. intros ->.
  by apply (other_channel st M U F zero c c' m X (list_elem_of_lookup_2 _ _ _ Ei) N).
Qed.
Lemma unlinked_in_U (u' : cid) (k : mid) : k ∈ U' u' <-> k ∈ U u' /\ k <> m.
Proof.
  destruct (decide (u' = user x)) as [->|N]; [rewrite fn_lookup_insert; apply unlinked_u_elem|].
  rewrite fn_lookup_insert_ne by done. split; [|by intros [? _]]. intros Hk. split; [done|]. intros ->.
  by apply (other_user st M U F zero (user x) u' m X (list_elem_of_lookup_2 _ _ _ Ej) N).
Qed.

Lemma unlinked_lists :
  (forall c' ch', chans st5 !! c' = Some ch' ->
    dll by_channel (heap st5) (members ch') (M' c') /\ users ch' = Z.of_nat (length (M' c')) + (<[c := 1]> zero) c') /\
  (forall u us, clients st5 !! u = Some us -> dll by_user (heap st5) (u_channel us) (U' u) /\ joined us = Z.of_nat (length (U' u))).
Proof.
  destruct H5 as (-> & _ & _). split.
  - intros c' ch' E'. destruct (decide (c' = c)) as [->|N].
    + rewrite E' in Hc. destruct Hc as (-> & -> & _). rewrite !fn_lookup_insert. split; [apply unlinked_this_chan|].
      rewrite (delete_length _ _ m Ei). destruct (mx_chan _ _ _ _ _ X c ch Ec) as [_ ->]. unfold zero. lia.
    + rewrite !fn_lookup_insert_ne by done. specialize (Hc' c' N). rewrite E' in Hc'.
      destruct (chans st !! c') as [ch0|] eqn:E0; [|done]. destruct Hc' as (-> & -> & _).
      destruct (mx_chan _ _ _ _ _ X c' ch0 E0) as [D0 ->]. split; [by apply unlinked_chan|done].
  - intros u' us' E'. destruct (decide (u' = user x)) as [->|N].
    + rewrite E' in Hu. destruct Hu as (-> & ->). rewrite !fn_lookup_insert. split; [apply unlinked_this_user|].
      rewrite (delete_length _ _ m Ej). by destruct (mx_client _ _ _ _ _ X _ us Eu) as [_ ->].
    + rewrite !fn_lookup_insert_ne by done. specialize (Hu' u' N). rewrite E' in Hu'.
      destruct (clients st !! u') as [us0|] eqn:E0; [|done]. destruct Hu' as (-> & ->).
      destruct (mx_client _ _ _ _ _ X u' us0 E0) as [D0 ->]. split; [by apply unlinked_user|done].
Qed.

Lemma unlinked_invites (c' : chid) (ch' : Channel) (u : cid) : chans st5 !! c' = Some ch' -> u ∈ invites ch' -> is_Some (clients st5 !! u).
Proof.
  intros E' Hi. assert (exists ch0, chans st !! c' = Some ch0 /\ u ∈ invites ch0) as (ch0 & E0 & Hi0).
  { destruct (decide (c' = c)) as [->|N].
    - rewrite E' in Hc. destruct Hc as (_ & _ & H). eauto.
    - specialize (Hc' c' N). rewrite E' in Hc'. destruct (chans st !! c') as [ch0|]; [|done]. destruct Hc' as (_ & _ & H). eauto. }
  destruct (mx_invites _ _ _ _ _ X c' ch0 u E0 Hi0) as [us0 Hus]. destruct (decide (u = user x)) as [->|N].
  - destruct (clients st5 !! user x); [eauto|done].
  - specialize (Hu' u N). rewrite Hus in Hu'. destruct (clients st5 !! u); [eauto|done].
Qed.

Lemma matrix_unlinked : matrix st5 M' U' (m :: F) (<[c := 1]> zero).
Proof.
  destruct unlinked_lists as [HM HU]. pose proof unlinked_kept as K. destruct H5 as (Eh & Ef & Eb).
  split; rewrite ?Eh, ?Ef, ?Eb in *; try done.
  - intros c' E'. destruct (decide (c' = c)) as [->|N]; [by rewrite E' in Hc|]. rewrite fn_lookup_insert_ne by done.
    apply (mx_nochan _ _ _ _ _ X). specialize (Hc' c' N). rewrite E' in Hc'. by destruct (chans st !! c').
  - intros u' E'. destruct (decide (u' = user x)) as [->|N]; [by rewrite E' in Hu|]. rewrite fn_lookup_insert_ne by done.
    apply (mx_noclient _ _ _ _ _ X). specialize (Hu' u' N). rewrite E' in Hu'. by destruct (clients st !! u').
  - intros c' k [Hk Nk]%unlinked_in_M. destruct (mx_member _ _ _ _ _ X c' k Hk) as (z & Hz & Cz & Uz).
    destruct (K k z Hz) as (z' & Hz' & Uz' & Cz' & _). exists z'. split; [done|]. split; [congruence|].
    apply unlinked_in_U. by rewrite Uz'.
  - intros u' k [Hk Nk]%unlinked_in_U. destruct (mx_user _ _ _ _ _ X u' k Hk) as (z & Hz & Cz & Uz).
    destruct (K k z Hz) as (z' & Hz' & Cz' & Uz' & _). exists z'. split; [done|]. split; [congruence|].
    apply unlinked_in_M. by rewrite Uz'.
  - intros c'. destruct (decide (c' = c)) as [->|N]; [rewrite fn_lookup_insert; apply nodup_delete|rewrite fn_lookup_insert_ne by done]; apply X.
  - intros u'. destruct (decide (u' = user x)) as [->|N]; [rewrite fn_lookup_insert; apply nodup_delete|rewrite fn_lookup_insert_ne by done]; apply X.
  - intros c' k k' z z' [Hk _]%unlinked_in_M [Hk' _]%unlinked_in_M Hz Hz' Euz.
    destruct (mx_member _ _ _ _ _ X c' k Hk) as (w & Hw & _). destruct (mx_member _ _ _ _ _ X c' k' Hk') as (w' & Hw' & _).
    destruct (K k w Hw) as (v & Hv & Uv & _). destruct (K k' w' Hw') as (v' & Hv' & Uv' & _).
    eapply (mx_once _ _ _ _ _ X c' k k' w w'); try done. congruence.
  - intros n k E. by apply unlinked_free.
  - apply NoDup_cons. split; [|apply (mx_free_nodup _ _ _ _ _ X)]. intros Hm.
    apply (mx_free_live _ _ _ _ _ X m c Hm). by eapply list_elem_of_lookup_2.
  - intros k c' [->|Hk]%elem_of_cons; rewrite unlinked_in_M; [by intros [_ ?]|]. intros [H _]. by apply (mx_free_live _ _ _ _ _ X k c' Hk).
  - intros k z Hz. destruct (unlinked_dom k) as [z0 Hz0]; [eauto|]. by apply (mx_brk _ _ _ _ _ X k z0).
  - apply unlinked_invites.
  - intros c'. destruct (decide (c' = c)) as [->|N]; [|rewrite fn_lookup_insert_ne by done; apply X].
    rewrite fn_lookup_insert, (delete_length _ _ m Ei). pose proof (mx_size _ _ _ _ _ X c). lia.
  - intros u'. destruct (decide (u' = user x)) as [->|N]; [|rewrite fn_lookup_insert_ne by done; apply X].
    rewrite fn_lookup_insert, (delete_length _ _ m Ej). pose proof (mx_size_u _ _ _ _ _ X (user x)). lia.
Qed.
End Unlinked.

Lemma user_core_some (a b : option User) : user_core a b -> is_Some a <-> is_Some b.
Proof. destruct a, b; cbn; try done; split; eauto. Qed.

(** Taking one member out: both lists lose its cell, which becomes free. *)
Lemma remove_member_spec (st : state) (M : chid -> list mid) (U : cid -> list mid) (F : list mid)
    (c : chid) (m : mid) (x : Membership) (i j : nat) :
  matrix st M U F zero -> M c !! i = Some m -> heap st !! m = Some x -> U (user x) !! j = Some m ->
  exists st' more, remove_member_from_channel st m = Ok (st', more) /\
    matrix st' (<[c := delete i (M c)]> M) (<[user x := delete j (U (user x))]> U) (m :: F) zero /\
    cells_kept (heap st) (heap st') /\ (forall u, is_Some (clients st !! u) <-> is_Some (clients st' !! u)) /\
    (delete i (M c) <> [] -> more = 1 /\ is_Some (chans st' !! c)) /\ (delete i (M c) = [] -> more = 0).
Proof.
  intros X Ei Ex Ej. pose proof (list_elem_of_lookup_2 _ _ _ Ei) as Im. pose proof (list_elem_of_lookup_2 _ _ _ Ej) as Iu.
  assert (channel x = c) as Cx by (destruct (mx_member _ _ _ _ _ X c m Im) as (x' & Hx' & E & _); congruence).
  destruct (chans st !! c) as [ch|] eqn:Ec; [|by apply (mx_nochan _ _ _ _ _ X) in Ec; rewrite Ec in Im; apply elem_of_nil in Im].
  destruct (clients st !! user x) as [us|] eqn:Eu; [|by apply (mx_noclient _ _ _ _ _ X) in Eu; rewrite Eu in Iu; apply elem_of_nil in Iu].
  destruct (mx_chan _ _ _ _ _ X c ch Ec) as [Dc _]. destruct (mx_client _ _ _ _ _ X _ us Eu) as [Du Nu].
  unfold Channel.remove_member_from_channel, load at 1. rewrite Ex. cbn [obind]. rewrite Cx. unfold load_chan at 1. rewrite Ec. cbn [obind].
  destruct (unlink_spec by_channel (heap st) m (members ch) (M c) i Ei (mx_nodup_m _ _ _ _ _ X c) Dc) as (h1 & head1 & -> & D1 & S1 & O1).
  cbn [obind]. set (st1 := set_chan (set_heap st h1) c (set_members ch head1)).
  assert (chans st1 !! c = Some (set_members ch head1)) as Ec1 by (cbn; apply lookup_insert_eq).
  assert (exists st2, (if IsDelayedJoin x then CheckDelayedJoins st1 c else Ok st1) = Ok st2 /\ core st1 st2) as (st2 & -> & C2).
  { destruct (IsDelayedJoin x); [|exists st1; split; [done|apply core_refl]].
    eapply (delayed_core st1 c); [exact Ec1|exact D1|apply nodup_delete, X]. }
  cbn [obind]. destruct (core_client_fwd _ _ (user x) us C2 Eu) as (us2 & Eu2 & Uc2 & J2). unfold load_client at 1. rewrite Eu2. cbn [obind].
  assert (dll by_user h1 (u_channel us) (U (user x))) as Du1.
  { revert Du. apply dll_ext. intros k z Hk Hz. destruct (hsame_lookup _ _ _ _ _ S1 Hz) as (z1 & Hz1 & B).
    apply blank_channel in B as (_ & _ & _ & B1 & B2). eauto. }
  rewrite (core_heap _ _ C2), Uc2. change (heap st1) with h1.
  destruct (unlink_spec by_user h1 m (u_channel us) (U (user x)) j Ej (mx_nodup_u _ _ _ _ _ X _) Du1) as (h2 & head2 & -> & D2 & S2 & O2).
  cbn [obind]. set (st3 := set_client (set_heap st2 h2) (user x) (MkUser head2 (invited us2) (u32 (joined us2 - 1)) (u_invites us2))).
  destruct (core_chan_fwd _ _ c _ C2 Ec1) as (ch2 & Ec2 & Mc2 & Nc2 & Ic2).
  assert (dll by_channel h2 head1 (delete i (M c))) as D1'.
  { revert D1. apply dll_ext. intros k z Hk Hz. destruct (hsame_lookup _ _ _ _ _ S2 Hz) as (z2 & Hz2 & B).
    apply blank_user in B as (_ & _ & _ & B1 & B2). eauto. }
  destruct (tls_core st3 c ch2 (delete i (M c))) as (st4 & -> & C4); [done|by rewrite Mc2|apply nodup_delete, X|]. cbn [obind].
  rewrite (core_heap _ _ C4), (core_free _ _ C4). change (heap st3) with h2. change (membershipFreeList st3) with (membershipFreeList st2).
  rewrite (core_free _ _ C2). change (membershipFreeList st1) with (membershipFreeList st).
  destruct (hsame_lookup _ _ _ _ _ S1 Ex) as (x1 & Hx1 & _). destruct (hsame_lookup _ _ _ _ _ S2 Hx1) as (y & Hy & _).
  rewrite (update_ok h2 m y) by done. cbn [obind]. set (h5 := <[m:=_]> h2). set (st5 := State h5 _ _ _ _ _ _ _).
  assert (matrix st5 (<[c := delete i (M c)]> M) (<[user x := delete j (U (user x))]> U) (m :: F) (<[c := 1]> zero)) as X5.
  { eapply (matrix_unlinked st M U F c m x y i j h1 h2 h5 head1 head2 X Ei Ex Ej D1 S1 O1 D2 S2 O2 Hy eq_refl ch us st5 Ec Eu).
    - split; [done|]. split; [done|]. cbn. rewrite (core_brk _ _ C4). cbn. by rewrite (core_brk _ _ C2).
    - cbn. destruct (core_chan_fwd _ _ c ch2 C4 Ec2) as (ch4 & -> & -> & -> & I4).
      split; [by rewrite Mc2|]. split; [by rewrite Nc2|]. intros u Hu. apply I4, Ic2 in Hu. done.
    - intros c' N. cbn. eapply chan_core_trans; [|apply (core_chan _ _ C4)]. eapply chan_core_trans; [|apply (core_chan _ _ C2)].
      cbn. rewrite lookup_insert_ne by done. apply chan_core_refl.
    - cbn. destruct (core_client_fwd _ _ (user x) _ C4 (lookup_insert_eq _ _ _)) as (us4 & -> & -> & ->).
      split; [done|]. cbn [joined]. rewrite J2. pose proof (mx_size_u _ _ _ _ _ X (user x)).
      pose proof (delete_length (U (user x)) j m Ej). apply u32_small. lia.
    - intros u' N. cbn. eapply user_core_trans; [|apply (core_client _ _ C4)]. cbn. rewrite lookup_insert_ne by done.
      apply (core_client _ _ C2). }
  destruct (core_chan_fwd _ _ c ch2 C4 Ec2) as (ch4 & Ec4 & _).
  destruct (sub1_spec st5 _ _ _ _ c ch4 X5 Ec4) as (st' & more & -> & X6 & Q6 & M1 & M0); [apply fn_lookup_insert|].
  exists st', more. split; [done|]. split; [|split; [|split]].
  - revert X6. apply matrix_off. intros c'. destruct (decide (c' = c)) as [->|N]; [apply fn_lookup_insert|by rewrite !fn_lookup_insert_ne].
  - rewrite (q_heap _ _ _ Q6). cbn. by eapply (unlinked_kept st m y h1 h2 h5).
  - intros u. rewrite <- (user_core_some _ _ (q_client _ _ _ Q6 u)). cbn.
    rewrite <- (user_core_some _ _ (core_client _ _ C4 u)). cbn. destruct (decide (u = user x)) as [->|N].
    + rewrite lookup_insert_eq, Eu. split; eauto.
    + rewrite lookup_insert_ne by done. apply (user_core_some _ _ (core_client _ _ C2 u)).
  - rewrite fn_lookup_insert in M1, M0. done.
Qed.

Lemma live_m (st : state) M U F off (c : chid) : matrix st M U F off -> forall m, m ∈ M c -> exists x, heap st !! m = Some x.
Proof. intros X m Hm. destruct (mx_member _ _ _ _ _ X c m Hm) as (x & Hx & _). eauto. Qed.
Lemma live_u (st : state) M U F off (u : cid) : matrix st M U F off -> forall m, m ∈ U u -> exists x, heap st !! m = Some x.
Proof. intros X m Hm. destruct (mx_user _ _ _ _ _ X u m Hm) as (x & Hx & _). eauto. Qed.

Lemma matrix_fuel_m (st : state) M U F off (c : chid) : matrix st M U F off -> (length (M c) < fuel_of st)%nat.
Proof.
  intros X. pose proof (list_le_heap (heap st) (M c) (mx_nodup_m _ _ _ _ _ X c) (live_m _ _ _ _ _ c X)). unfold fuel_of. lia.
Qed.
Lemma matrix_fuel_u (st : state) M U F off (u : cid) : matrix st M U F off -> (length (U u) < fuel_of st)%nat.
Proof.
  intros X. pose proof (list_le_heap (heap st) (U u) (mx_nodup_u _ _ _ _ _ X u) (live_u _ _ _ _ _ u X)). unfold fuel_of. lia.
Qed.

Definition ordinary (u : cid) : Prop := IsServer u = false /\ IsMe u = false.

(** Both ways of searching find the one cell of a user on a channel. *)
Lemma find_member_spec (st : state) M U F off (c : chid) (u : cid) (ch : Channel) (us : User) :
  matrix st M U F off -> ordinary u -> chans st !! c = Some ch -> clients st !! u = Some us ->
  (exists m x, find_member_link st c u = Ok (Some m) /\ m ∈ M c /\ heap st !! m = Some x /\ user x = u /\ channel x = c) \/
  (find_member_link st c u = Ok None /\ forall m x, m ∈ M c -> heap st !! m = Some x -> user x <> u).
Proof.
  intros X [O1 O2] Ec Eu. unfold Channel.find_member_link. rewrite O1, O2. cbn [orb].
  destruct (mx_chan _ _ _ _ _ X c ch Ec) as [Dc _]. destruct (mx_client _ _ _ _ _ X u us Eu) as [Du _].
  destruct (IsChannelService u).
  - unfold load_chan. rewrite Ec. cbn [obind]. rewrite (scan_spec by_channel _ _ _ (M c)) by (done || by eapply matrix_fuel_m).
    destruct (hit _ _ (M c)) as [m|] eqn:H.
    + left. apply hit_some in H as (m' & x & Hm & Hx & E). destruct (Pos.eqb_spec (user x) u) as [Ux|]; [|done]. injection E as ->.
      exists m, x. split; [done|]. split; [done|]. split; [done|]. split; [done|].
      destruct (mx_member _ _ _ _ _ X c m Hm) as (x' & Hx' & E & _). congruence.
    + right. split; [done|]. intros m x Hm Hx Ux. pose proof (hit_none _ _ (M c) (live_m _ _ _ _ _ c X) H m x Hm Hx) as N.
      cbn in N. by rewrite Ux, Pos.eqb_refl in N.
  - unfold load_client. rewrite Eu. cbn [obind]. rewrite (scan_spec by_user _ _ _ (U u)) by (done || by eapply matrix_fuel_u).
    destruct (hit _ _ (U u)) as [m|] eqn:H.
    + left. apply hit_some in H as (m' & x & Hm & Hx & E). destruct (Pos.eqb_spec (channel x) c) as [Cx|]; [|done]. injection E as ->.
      destruct (mx_user _ _ _ _ _ X u m Hm) as (x' & Hx' & Ux & Mx). assert (x' = x) as -> by congruence.
      exists m, x. split; [done|]. split; [by rewrite <- Cx|done].
    + right. split; [done|]. intros m x Hm Hx Ux. destruct (mx_member _ _ _ _ _ X c m Hm) as (x' & Hx' & Cx & Mx).
      assert (x' = x) as -> by congruence. rewrite Ux in Mx.
      pose proof (hit_none _ _ (U u) (live_u _ _ _ _ _ u X) H m x Mx Hx) as N. cbn in N. by rewrite Cx, Pos.eqb_refl in N.
Qed.

(** The cells of a channel's list after everybody left. *)
Lemma remove_rest_spec (n : nat) : forall st M U F c ch fuel, matrix st M U F zero -> chans st !! c = Some ch ->
  length (M c) = S n -> (n < fuel)%nat ->
  exists st' M' U' F', remove_rest st fuel c = Ok st' /\ matrix st' M' U' F' zero /\ cells_kept (heap st) (heap st') /\
    (forall u, is_Some (clients st !! u) <-> is_Some (clients st' !! u)) /\
    (forall c' k, k ∈ M' c' <-> k ∈ M c' /\ c' <> c).
Proof.
  induction n as [|n IH]; intros st M U F c ch fuel X Ec Ln Fu; (destruct fuel as [|fuel]; [lia|]);
    (destruct (M c) as [|m L] eqn:EM; [done|]); injection Ln as Ln;
    destruct (mx_chan _ _ _ _ _ X c ch Ec) as [[S D] _]; rewrite EM in S; cbn in S;
    (assert (m ∈ M c) as Hm by (rewrite EM; by left)); destruct (mx_member _ _ _ _ _ X c m Hm) as (x & Hx & Cx & Ux);
    apply list_elem_of_lookup in Ux as [j Ej];
    destruct (remove_member_spec st M U F c m x O j X ltac:(by rewrite EM) Hx Ej) as (st1 & more & R & X1 & K1 & C1 & M1 & M0);
    rewrite EM in M1, M0, X1; cbn [delete list_delete] in M1, M0, X1;
    cbn [Channel.remove_rest]; unfold load_chan; rewrite Ec; cbn [obind]; rewrite S; change (Channel.remove_member_from_channel get_secure_group_id oplevels now) with remove_member_from_channel; rewrite R; cbn [obind].
  - destruct L; [|done]. rewrite (M0 eq_refl). cbn. do 4 eexists. split; [done|]. split; [exact X1|]. split; [done|]. split; [done|].
    intros c' k. destruct (decide (c' = c)) as [->|N]; [rewrite fn_lookup_insert|rewrite fn_lookup_insert_ne by done].
    + split; [by intros ?%elem_of_nil|by intros [_ ?]].
    + split; [done|by intros [? _]].
  - destruct M1 as [-> [ch1 Ec1]]; [by destruct L|]. cbn.
    destruct (IH st1 _ _ _ c ch1 fuel X1 Ec1) as (st2 & M2 & U2 & F2 & R2 & X2 & K2 & C2 & Q2); [by rewrite fn_lookup_insert|lia|].
    exists st2, M2, U2, F2. split; [done|]. split; [done|]. split; [by eapply cells_kept_trans|]. split; [intros u; by rewrite C1|].
    intros c' k. rewrite Q2. destruct (decide (c' = c)) as [->|N]; [split; by intros [_ ?]|by rewrite fn_lookup_insert_ne].
Qed.

(** ** Joining *)
Lemma fresh_user (st : state) M U F off (m : mid) : matrix st M U F off -> (forall c, m ∉ M c) -> forall u, m ∉ U u.
Proof. intros X H u Hu. destruct (mx_user _ _ _ _ _ X u m Hu) as (x & _ & _ & Hm). by apply (H (channel x)). Qed.

Lemma matrix_grow (st st0 : state) M U off (m : mid) (x : Membership) : matrix st M U [] off ->
  m = brk st -> heap st0 = <[m := x]> (heap st) -> chans st0 = chans st -> clients st0 = clients st ->
  membershipFreeList st0 = None -> brk st0 = Pos.succ m -> matrix st0 M U [] off /\ cells_kept (heap st) (heap st0).
Proof.
  intros X Em Eh Ec Eu Ef Eb. assert (forall k y, heap st !! k = Some y -> heap st0 !! k = Some y) as K.
  { intros k y Hy. rewrite Eh, lookup_insert_ne; [done|]. pose proof (mx_brk _ _ _ _ _ X k y Hy). lia. }
  split; [|intros k y Hy; eauto 6]. split; rewrite ?Ec, ?Eu, ?Ef; try apply X; try done.
  - intros c ch E. destruct (mx_chan _ _ _ _ _ X c ch E) as [D ?]. split; [|done]. revert D. apply dll_ext. eauto.
  - intros u us E. destruct (mx_client _ _ _ _ _ X u us E) as [D ?]. split; [|done]. revert D. apply dll_ext. eauto.
  - intros c k Hk. destruct (mx_member _ _ _ _ _ X c k Hk) as (y & Hy & ?). eauto.
  - intros u k Hk. destruct (mx_user _ _ _ _ _ X u k Hk) as (y & Hy & ?). eauto.
  - intros c k k' y y' Hk Hk' Hy Hy'. destruct (live_m _ _ _ _ _ c X k Hk) as [z Hz]. destruct (live_m _ _ _ _ _ c X k' Hk') as [z' Hz'].
    pose proof (K k z Hz). pose proof (K k' z' Hz'). intros E. eapply (mx_once _ _ _ _ _ X c k k' z z'); congruence.
  - rewrite Eb, Eh. intros k y. destruct (decide (k = m)) as [->|N]; [lia|]. rewrite lookup_insert_ne by done.
    intros Hy. pose proof (mx_brk _ _ _ _ _ X k y Hy). lia.
Qed.

Lemma alloc_spec (st : state) M U F off : matrix st M U F off -> exists st0 m F0 x0,
  alloc_membership st = Ok (st0, m) /\ matrix st0 M U F0 off /\ heap st0 !! m = Some x0 /\ m ∉ F0 /\ (forall c, m ∉ M c) /\
  chans st0 = chans st /\ clients st0 = clients st /\ cells_kept (heap st) (heap st0).
Proof.
  intros X. unfold alloc_membership. rewrite (mx_free_start _ _ _ _ _ X). destruct F as [|m F]; cbn [lookup list_lookup].
  - do 2 eexists. exists [], (Member 1%positive 1%positive None None None None 0 0). split; [done|]. cbn.
    edestruct (matrix_grow st) as [X0 K0]; [exact X| | | | | | |split; [exact X0|]]; try done.
    split; [apply lookup_insert_eq|]. split; [apply not_elem_of_nil|]. split; [|done].
    intros c Hm. destruct (live_m _ _ _ _ _ c X _ Hm) as [y Hy]. pose proof (mx_brk _ _ _ _ _ X _ y Hy). lia.
  - destruct (mx_free _ _ _ _ _ X O m eq_refl) as (x & Hx & Nx). unfold load. rewrite Hx. cbn [obind].
    do 2 eexists. exists F, x. split; [done|]. pose proof (mx_free_nodup _ _ _ _ _ X) as ND. apply NoDup_cons in ND as [N1 ND].
    split; [|split; [done|split; [done|split; [|split; [done|split; [done|intros k y Hy; eauto 6]]]]]].
    + split; try apply X; [exact Nx| |done|].
      * intros i k E. by apply (mx_free _ _ _ _ _ X (S i)).
      * intros k c Hk. apply (mx_free_live _ _ _ _ _ X). by right.
    + intros c. apply (mx_free_live _ _ _ _ _ X). by left.
Qed.

Lemma in_cons_at (M : positive -> list mid) (c c' : positive) (m k : mid) :
  k ∈ (<[c := m :: M c]> M) c' <-> k ∈ M c' \/ (k = m /\ c' = c).
Proof.
  destruct (decide (c' = c)) as [->|N]; [rewrite fn_lookup_insert, elem_of_cons; tauto|rewrite fn_lookup_insert_ne by done; naive_solver].
Qed.

(** The heap after a fresh cell was put in front of two lists. *)
Section Linked.
Context (st : state) (M : chid -> list mid) (U : cid -> list mid) (F : list mid).
Context (c : chid) (u : cid) (m : mid) (x0 x1 : Membership) (h2 h3 : gmap mid Membership).
Hypothesis X : matrix st M U F zero.
Hypothesis E0 : heap st !! m = Some x0.
Hypothesis NF : m ∉ F.
Hypothesis NM : forall c, m ∉ M c.
Hypothesis U1 : user x1 = u.
Hypothesis C1 : channel x1 = c.
Hypothesis D2 : dll by_channel h2 (Some m) (m :: M c).
Hypothesis S2 : hsame by_channel (<[m := x1]> (heap st)) h2.
Hypothesis O2 : forall k, k ∉ m :: M c -> h2 !! k = <[m := x1]> (heap st) !! k.
Hypothesis D3 : dll by_user h3 (Some m) (m :: U u).
Hypothesis S3 : hsame by_user h2 h3.
Hypothesis O3 : forall k, k ∉ m :: U u -> h3 !! k = h2 !! k.
Hypothesis Absent : forall k y, k ∈ M c -> heap st !! k = Some y -> user y <> u.

Lemma linked_kept (k : mid) (y : Membership) : <[m := x1]> (heap st) !! k = Some y ->
  exists y', h3 !! k = Some y' /\ user y' = user y /\ channel y' = channel y /\ status y' = status y.
Proof.
  assert (cells_kept (<[m := x1]> (heap st)) h3) as K.
  { eapply cells_kept_trans; [by apply cells_kept_channel|by apply cells_kept_user]. }
  apply K.
Qed.

Lemma linked_old (k : mid) (y : Membership) : k <> m -> heap st !! k = Some y ->
  exists y', h3 !! k = Some y' /\ user y' = user y /\ channel y' = channel y /\ status y' = status y.
Proof. intros N Hy. apply linked_kept. by rewrite lookup_insert_ne. Qed.

Lemma linked_new : exists y, h3 !! m = Some y /\ user y = u /\ channel y = c /\ status y = status x1.
Proof. destruct (linked_kept m x1) as (y & ? & ? & ? & ?); [apply lookup_insert_eq|]. exists y. repeat split; congruence. Qed.

Lemma linked_dom (k : mid) : is_Some (h3 !! k) -> is_Some (heap st !! k).
Proof.
  intros [z Hz]. destruct (decide (k = m)) as [->|N]; [rewrite E0; eauto|].
  destruct (hsame_lookup _ _ _ _ _ (hsame_sym _ _ _ S3) Hz) as (z2 & Hz2 & _).
  destruct (hsame_lookup _ _ _ _ _ (hsame_sym _ _ _ S2) Hz2) as (z1 & Hz1 & _).
  rewrite lookup_insert_ne in Hz1 by done. eauto.
Qed.

Lemma linked_member_links (k : mid) (y : Membership) : h2 !! k = Some y ->
  exists y', h3 !! k = Some y' /\ next_member y' = next_member y /\ prev_member y' = prev_member y.
Proof. intros H. destruct (hsame_lookup _ _ _ _ _ S3 H) as (y' & H' & B). apply blank_user in B as (_ & _ & _ & B1 & B2). eauto. Qed.

(** Cells that are neither the new one nor on the channel keep their member links. *)
Lemma linked_far (k : mid) (y : Membership) : k <> m -> k ∉ M c -> heap st !! k = Some y ->
  exists y', h3 !! k = Some y' /\ next_member y' = next_member y /\ prev_member y' = prev_member y.
Proof. intros N Nc Hy. apply linked_member_links. rewrite O2 by (by apply not_elem_of_cons). by rewrite lookup_insert_ne. Qed.

Lemma linked_chan (c' : chid) (start : option mid) : c' <> c -> dll by_channel (heap st) start (M c') -> dll by_channel h3 start (M c').
Proof.
  intros N. apply dll_ext. intros k z Hk Hz. apply linked_far; [|intros Hc; by apply (other_channel st M U F zero c c' k X Hc N)|done].
  intros ->. by apply (NM c').
Qed.
Lemma linked_this_chan : dll by_channel h3 (Some m) (m :: M c).
Proof. revert D2. apply dll_ext. intros k z Hk Hz. by apply linked_member_links. Qed.

Lemma linked_user (u' : cid) (start : option mid) : u' <> u -> dll by_user (heap st) start (U u') -> dll by_user h3 start (U u').
Proof.
  intros N. apply dll_ext. intros k z Hk Hz. assert (k <> m) as Nk. { intros ->. by apply (fresh_user st M U F zero m X NM u'). }
  destruct (hsame_lookup by_channel (<[m:=x1]> (heap st)) h2 k z S2) as (y & Hy & B); [by rewrite lookup_insert_ne|].
  apply blank_channel in B as (_ & _ & _ & B1 & B2). exists y. rewrite O3; [done|]. apply not_elem_of_cons. split; [done|].
  intros Hu. by apply (other_user st M U F zero u u' k X Hu N).
Qed.

Context (ch : Channel) (us : User) (st4 : state).
Hypothesis Ec : chans st !! c = Some ch.
Hypothesis Eu : clients st !! u = Some us.
Hypothesis H4 : heap st4 = h3 /\ membershipFreeList st4 = membershipFreeList st /\ brk st4 = brk st.
Hypothesis Hc : exists ch', chans st4 = <[c := ch']> (chans st) /\ members ch' = Some m /\ users ch' = users ch + 1 /\ invites ch' = invites ch.
Hypothesis Hu : exists us', clients st4 = <[u := us']> (clients st) /\ u_channel us' = Some m /\ joined us' = joined us + 1.
Hypothesis Room : Z.of_nat (length (M c)) + 1 < 2 ^ 32 /\ Z.of_nat (length (U u)) + 1 < 2 ^ 32.

Abbreviation ML := (<[c := m :: M c]> M).
Abbreviation UL := (<[u := m :: U u]> U).

Lemma linked_lists :
  (forall c' ch', chans st4 !! c' = Some ch' ->
    dll by_channel (heap st4) (members ch') (ML c') /\ users ch' = Z.of_nat (length (ML c')) + zero c') /\
  (forall u' us', clients st4 !! u' = Some us' -> dll by_user (heap st4) (u_channel us') (UL u') /\ joined us' = Z.of_nat (length (UL u'))).
Proof.
  destruct H4 as (-> & _ & _). destruct Hc as (ch1 & -> & Hm & Hn & _). destruct Hu as (us1 & -> & Hk & Hj). split.
  - intros c' ch'. destruct (decide (c' = c)) as [->|N].
    + rewrite lookup_insert_eq. intros [= <-]. rewrite fn_lookup_insert, Hm, Hn. split; [apply linked_this_chan|].
      destruct (mx_chan _ _ _ _ _ X c ch Ec) as [_ ->]. unfold zero. cbn [length]. lia.
    + rewrite lookup_insert_ne by done. rewrite fn_lookup_insert_ne by done. intros E'.
      destruct (mx_chan _ _ _ _ _ X c' ch' E') as [D0 ->]. split; [by apply linked_chan|done].
  - intros u' us'. destruct (decide (u' = u)) as [->|N].
    + rewrite lookup_insert_eq. intros [= <-]. rewrite fn_lookup_insert, Hk, Hj. split; [exact D3|].
      destruct (mx_client _ _ _ _ _ X u us Eu) as [_ ->]. cbn [length]. lia.
    + rewrite lookup_insert_ne by done. rewrite fn_lookup_insert_ne by done. intros E'.
      destruct (mx_client _ _ _ _ _ X u' us' E') as [D0 ->]. split; [by apply linked_user|done].
Qed.

Lemma linked_once (c' : chid) (k k' : mid) (z z' : Membership) : k ∈ ML c' -> k' ∈ ML c' -> h3 !! k = Some z -> h3 !! k' = Some z' ->
  user z = user z' -> k = k'.
Proof.
  destruct linked_new as (y & Hy & Uy & _). assert (forall k z, k ∈ M c -> h3 !! k = Some z -> user z <> u) as A.
  { intros k0 z0 Hk Hz. destruct (live_m _ _ _ _ _ c X k0 Hk) as [w Hw].
    destruct (linked_old k0 w) as (v & Hv & Uv & _); [intros ->; by apply (NM c)|done|]. pose proof (Absent k0 w Hk Hw). congruence. }
  intros [Hk|[-> ->]]%in_cons_at [Hk'|[-> E]]%in_cons_at Hz Hz' Ez; [| |by exfalso; eapply (A k' z'); congruence|done].
  - destruct (live_m _ _ _ _ _ c' X k Hk) as [w Hw]. destruct (live_m _ _ _ _ _ c' X k' Hk') as [w' Hw'].
    destruct (linked_old k w) as (v & Hv & Uv & _); [intros ->; by apply (NM c')|done|].
    destruct (linked_old k' w') as (v' & Hv' & Uv' & _); [intros ->; by apply (NM c')|done|].
    eapply (mx_once _ _ _ _ _ X c' k k' w w'); congruence.
  - subst c'. exfalso. eapply (A k z); congruence.
Qed.

Lemma matrix_linked : matrix st4 ML UL F zero.
Proof.
  destruct linked_lists as [HM HU]. pose proof linked_once as Once. destruct linked_new as (y & Hy & Uy & Cy & _). destruct H4 as (Eh & Ef & Eb).
  destruct Hc as (ch1 & Ech & _ & _ & Hi). destruct Hu as (us1 & Eus & _).
  split; rewrite ?Eh, ?Ef, ?Eb in *; try done; try apply X.
  - intros c'. rewrite Ech. destruct (decide (c' = c)) as [->|N]; [by rewrite lookup_insert_eq|].
    rewrite lookup_insert_ne, fn_lookup_insert_ne by done. apply X.
  - intros u'. rewrite Eus. destruct (decide (u' = u)) as [->|N]; [by rewrite lookup_insert_eq|].
    rewrite lookup_insert_ne, fn_lookup_insert_ne by done. apply X.
  - intros c' k [Hk|[-> ->]]%in_cons_at; [|exists y; split; [done|]; split; [done|]; apply in_cons_at; by right].
    destruct (mx_member _ _ _ _ _ X c' k Hk) as (z & Hz & Cz & Uz).
    destruct (linked_old k z) as (z' & Hz' & Uz' & Cz' & _); [intros ->; by apply (NM c')|done|].
    exists z'. split; [done|]. split; [congruence|]. apply in_cons_at. rewrite Uz'. by left.
  - intros u' k [Hk|[-> ->]]%in_cons_at; [|exists y; split; [done|]; split; [done|]; apply in_cons_at; by right].
    destruct (mx_user _ _ _ _ _ X u' k Hk) as (z & Hz & Cz & Uz).
    destruct (linked_old k z) as (z' & Hz' & Uz' & Cz' & _); [intros ->; by apply (NM (channel z))|done|].
    exists z'. split; [done|]. split; [congruence|]. apply in_cons_at. rewrite Cz'. by left.
  - intros c'. destruct (decide (c' = c)) as [->|N]; [rewrite fn_lookup_insert; apply NoDup_cons; split; [done|]|rewrite fn_lookup_insert_ne by done]; apply X.
  - intros u'. destruct (decide (u' = u)) as [->|N]; [rewrite fn_lookup_insert; apply NoDup_cons; split; [by eapply fresh_user|]|rewrite fn_lookup_insert_ne by done]; apply X.
  - intros n k E. destruct (mx_free _ _ _ _ _ X n k E) as (z & Hz & <-). apply list_elem_of_lookup_2 in E as Hk.
    destruct (linked_far k z) as (z' & Hz' & N1 & _); [by intros ->|by apply (mx_free_live _ _ _ _ _ X)|done|eauto].
  - intros k c' Hk [Hc'|[-> ->]]%in_cons_at; [by apply (mx_free_live _ _ _ _ _ X k c' Hk)|done].
  - intros k z Hz. destruct (linked_dom k) as [z0 Hz0]; [eauto|]. by apply (mx_brk _ _ _ _ _ X k z0).
  - intros c' ch' w. rewrite Ech, Eus. intros E' Hw. destruct (decide (w = u)) as [->|N]; [rewrite lookup_insert_eq; eauto|].
    rewrite lookup_insert_ne by done. destruct (decide (c' = c)) as [->|Nc].
    + rewrite lookup_insert_eq in E'. injection E' as <-. rewrite Hi in Hw. by apply (mx_invites _ _ _ _ _ X c ch).
    + rewrite lookup_insert_ne in E' by done. by apply (mx_invites _ _ _ _ _ X c' ch').
  - intros c'. destruct (decide (c' = c)) as [->|N]; [rewrite fn_lookup_insert; cbn [length]; lia|rewrite fn_lookup_insert_ne by done; apply X].
  - intros u'. destruct (decide (u' = u)) as [->|N]; [rewrite fn_lookup_insert; cbn [length]; lia|rewrite fn_lookup_insert_ne by done; apply X].
Qed.
End Linked.

Lemma core_some (st st' : state) : core st st' ->
  (forall c, is_Some (chans st !! c) <-> is_Some (chans st' !! c)) /\ (forall u, is_Some (clients st !! u) <-> is_Some (clients st' !! u)).
Proof.
  intros C. split; [intros c; pose proof (core_chan _ _ C c) as H|intros u; pose proof (core_client _ _ C u) as H].
  - destruct (chans st !! c), (chans st' !! c); try done; split; eauto.
  - by apply user_core_some.
Qed.

Lemma insert_some {A : Type} (f : gmap positive A) (k j : positive) (a b : A) : f !! k = Some a ->
  is_Some (f !! j) <-> is_Some (<[k := b]> f !! j).
Proof.
  intros E. destruct (decide (j = k)) as [->|N]; [rewrite lookup_insert_eq, E; split; eauto|by rewrite lookup_insert_ne].
Qed.

(** A user who is not on the channel joins it: a fresh cell in front of both lists. *)
Lemma add_user_spec (st : state) (M : chid -> list mid) (U : cid -> list mid) (F : list mid) (c : chid) (u : cid) (ch : Channel) (us : User) (flags lev : Z) :
  matrix st M U F zero -> chans st !! c = Some ch -> clients st !! u = Some us ->
  (forall k y, k ∈ M c -> heap st !! k = Some y -> user y <> u) ->
  users ch + 1 < 2 ^ 32 -> joined us + 1 < 2 ^ 32 ->
  exists st' m F' x, add_user_to_channel st c u flags lev = Ok st' /\
    matrix st' (<[c := m :: M c]> M) (<[u := m :: U u]> U) F' zero /\ (forall c', m ∉ M c') /\
    (forall k y, k <> m -> heap st !! k = Some y -> exists y', heap st' !! k = Some y' /\ user y' = user y /\ channel y' = channel y /\ status y' = status y) /\
    heap st' !! m = Some x /\ user x = u /\ status x = flags /\
    (forall c, is_Some (chans st !! c) <-> is_Some (chans st' !! c)) /\ (forall u, is_Some (clients st !! u) <-> is_Some (clients st' !! u)).
Proof.
  intros X Ec Eu Ab Rc Ru. unfold Channel.add_user_to_channel. rewrite Eu.
  destruct (alloc_spec st M U F zero X) as (st0 & m & F0 & x0 & -> & X0 & E0 & NF & NM & C0 & L0 & K0). cbn [obind].
  rewrite (update_ok _ m x0) by done. cbn [obind]. set (x1 := Member u c _ _ _ _ flags _). set (h1 := <[m := x1]> (heap st0)).
  unfold load_chan at 1. rewrite C0, Ec. cbn [obind]. rewrite <- C0 in Ec. rewrite <- L0 in Eu.
  destruct (mx_chan _ _ _ _ _ X0 c ch Ec) as [Dc Nc]. destruct (mx_client _ _ _ _ _ X0 u us Eu) as [Du Nu].
  assert (Ab0 : forall k y, k ∈ M c -> heap st0 !! k = Some y -> user y <> u).
  { intros k y Hk Hy. destruct (live_m _ _ _ _ _ c X k Hk) as [w Hw]. destruct (K0 k w Hw) as (w' & Hw' & Uw & _).
    pose proof (Ab k w Hk Hw). congruence. }
  assert (forall k z, k <> m -> heap st0 !! k = Some z -> h1 !! k = Some z) as K1 by (intros k z N Hz; unfold h1; by rewrite lookup_insert_ne).
  pose proof (fresh_user _ _ _ _ _ m X0 NM) as NU.
  destruct (push_spec by_channel h1 m x1 (members ch) (M c)) as (h2 & -> & D2 & S2 & O2);
    [apply lookup_insert_eq|done|apply X0|revert Dc; apply dll_ext; intros k z Hk Hz; exists z; split; [apply K1; [intros ->; by apply (NM c)|done]|done]|].
  cbn [obind]. unfold load_client at 1. cbn [clients set_chan]. rewrite Eu. cbn [obind].
  destruct (hsame_lookup _ _ _ m x1 S2 (lookup_insert_eq _ _ _)) as (x2 & Hx2 & _).
  destruct (push_spec by_user h2 m x2 (u_channel us) (U u)) as (h3 & -> & D3 & S3 & O3); [done|done|apply X0| |].
  { revert Du. apply dll_ext. intros k z Hk Hz. destruct (hsame_lookup _ _ _ k z S2) as (z2 & Hz2 & B); [apply K1; [intros ->; by apply (NU u)|done]|].
    apply blank_channel in B as (_ & _ & _ & B1 & B2). eauto. }
  cbn [obind]. unfold load_chan at 1. cbn [chans set_heap set_chan]. rewrite lookup_insert_eq. cbn [obind].
  set (st4 := set_client _ u _).
  assert (u32 (users ch + 1) = users ch + 1) as Wc by (apply u32_small; rewrite Nc in *; unfold zero in *; lia).
  assert (u32 (joined us + 1) = joined us + 1) as Wu by (apply u32_small; rewrite Nu in *; lia).
  assert (matrix st4 (<[c := m :: M c]> M) (<[u := m :: U u]> U) F0 zero) as X4.
  { eapply (matrix_linked st0 M U F0 c u m x0 x1 h2 h3 X0 E0 NF NM eq_refl eq_refl D2 S2 O2 D3 S3 O3 Ab0 ch us st4 Ec Eu); [done| | |].
    - eexists. split; [cbn; rewrite insert_insert_eq; done|]. cbn. by rewrite Wc.
    - eexists. split; [done|]. cbn. by rewrite Wu.
    - rewrite Nc, Nu in *. unfold zero in *. lia. }
  destruct (mx_chan _ _ _ _ _ X4 c (set_users (set_event (set_members ch (Some m)) None) (u32 (users ch + 1))) (lookup_insert_eq _ _ _)) as [D4 _].
  destruct (tls_core st4 c _ _ (lookup_insert_eq _ _ _) D4 (mx_nodup_m _ _ _ _ _ X4 c)) as (st5 & -> & C5). cbn [obind].
  pose proof (core_emit _ _ (Joined u c) C5) as C6. destruct (core_some _ _ C6) as [Sc Su].
  destruct (linked_new st0 c u m x1 h2 h3 eq_refl eq_refl S2 S3) as (y & Hy & Uy & _ & Sy).
  exists (emit st5 (Joined u c)), m, F0, y. split; [done|]. split; [by eapply matrix_core|]. split; [done|].
  rewrite (core_heap _ _ C6). split; [|split; [exact Hy|split; [done|split; [done|]]]].
  - intros k z N Hz. destruct (K0 k z Hz) as (z0 & Hz0 & ? & ? & ?).
    destruct (linked_old st0 m x1 h2 h3 S2 S3 k z0 N Hz0) as (z' & Hz' & ? & ? & ?). exists z'. split; [exact Hz'|]. repeat split; congruence.
  - split; intros k; rewrite <- ?Sc, <- ?Su; cbn.
    + rewrite insert_insert_eq, <- C0. by eapply insert_some.
    + rewrite <- L0. by eapply insert_some.
Qed.

(** [v] is on [c] with status [s]. *)
Definition entry (st : state) (M : chid -> list mid) (v : cid) (c : chid) (s : Z) : Prop :=
  exists m x, m ∈ M c /\ heap st !! m = Some x /\ user x = v /\ status x = s.

Definition represents (st : state) (A : roster) : Prop :=
  exists M U F, matrix st M U F zero /\ forall v c s, A !! (v, c) = Some s <-> entry st M v c s.

Lemma entry_kept (st st' : state) M U F off (M' : chid -> list mid) (P : chid -> mid -> Prop) (v : cid) (c : chid) (s : Z) :
  matrix st M U F off -> cells_kept (heap st) (heap st') -> (forall k, k ∈ M' c <-> k ∈ M c /\ P c k) ->
  entry st' M' v c s <-> exists m x, m ∈ M c /\ P c m /\ heap st !! m = Some x /\ user x = v /\ status x = s.
Proof.
  intros X K H. unfold entry. setoid_rewrite H. split.
  - intros (m & y & [Hm HP] & Hy & Uy & Sy). destruct (live_m _ _ _ _ _ c X m Hm) as [x Hx].
    destruct (K m x Hx) as (y' & Hy' & Ux & _ & Sx). exists m, x. repeat split; congruence.
  - intros (m & x & Hm & HP & Hx & Ux & Sx). destruct (K m x Hx) as (y & Hy & Uy & _ & Sy). exists m, y. repeat split; congruence.
Qed.

(** Without the cell of [u] on [c]: everybody else as before. *)
Lemma entry_removed (st st' : state) M U F (M' : chid -> list mid) (c c' : chid) (m : mid) (x : Membership) (v : cid) (s : Z) :
  matrix st M U F zero -> cells_kept (heap st) (heap st') -> m ∈ M c -> heap st !! m = Some x ->
  (forall k, k ∈ M' c' <-> k ∈ M c' /\ k <> m) ->
  entry st' M' v c' s <-> entry st M v c' s /\ (v, c') <> (user x, c).
Proof.
  intros X K Hm Hx H. rewrite (entry_kept st st' M U F zero M' (fun _ k => k <> m) v c' s X K H). split.
  - intros (k & y & Hk & N & Hy & Uy & Sy). split; [by exists k, y|]. intros [= -> ->]. apply N.
    by apply (mx_once _ _ _ _ _ X c k m y x).
  - intros [(k & y & Hk & Hy & Uy & Sy) N]. exists k, y. split; [done|]. split; [|done]. intros ->. apply N.
    destruct (mx_member _ _ _ _ _ X c' m Hk) as (z & Hz & Cz & _). destruct (mx_member _ _ _ _ _ X c m Hm) as (z' & Hz' & Cz' & _).
    congruence.
Qed.

Lemma all_zombies_spec (st : state) M U F off (c : chid) (ch : Channel) : matrix st M U F off -> chans st !! c = Some ch ->
  exists z, channel_all_zombies st c = Ok z /\ (z = false <-> exists v s, entry st M v c s /\ zombie s = false).
Proof.
  intros X Ec. destruct (mx_chan _ _ _ _ _ X c ch Ec) as [D _]. unfold channel_all_zombies, load_chan. rewrite Ec. cbn [obind].
  rewrite (scan_spec by_channel _ _ _ (M c)) by (done || by eapply matrix_fuel_m). cbn [obind]. eexists. split; [done|].
  destruct (hit _ _ (M c)) eqn:H.
  - split; [|done]. intros _. apply hit_some in H as (m & x & Hm & Hx & E). exists (user x), (status x).
    split; [by exists m, x|]. unfold IsZombie in E. unfold zombie. by destruct (negb _).
  - split; [done|]. intros (v & s & (m & x & Hm & Hx & _ & <-) & Z).
    pose proof (hit_none _ _ (M c) (live_m _ _ _ _ _ c X) H m x Hm Hx) as N. unfold IsZombie in N. unfold zombie in Z. by rewrite Z in N.
Qed.

(** A channel that lost its last normal member. *)
Lemma rest_entry (st st' : state) M U F (M' : chid -> list mid) (c : chid) (v : cid) (c' : chid) (s : Z) :
  matrix st M U F zero -> cells_kept (heap st) (heap st') -> (forall c' k, k ∈ M' c' <-> k ∈ M c' /\ c' <> c) ->
  entry st' M' v c' s <-> entry st M v c' s /\ c' <> c.
Proof.
  intros X K H. rewrite (entry_kept st st' M U F zero M' (fun d _ => d <> c) v c' s X K (H c')). unfold entry. naive_solver.
Qed.

Lemma alive_delete (st : state) (A : roster) M (u : cid) (c : chid) : (forall v c s, A !! (v, c) = Some s <-> entry st M v c s) ->
  alive (delete (u, c) A) c = true <-> exists v s, (entry st M v c s /\ (v, c) <> (u, c)) /\ zombie s = false.
Proof. intros R. rewrite alive_spec. setoid_rewrite lookup_delete_Some. setoid_rewrite R. naive_solver. Qed.

Lemma remove_user_spec (st : state) (A : roster) (u : cid) (c : chid) :
  represents st A -> ordinary u -> is_Some (clients st !! u) -> is_Some (chans st !! c) ->
  exists st', remove_user_from_channel st u c = Ok st' /\ represents st' (part A u c) /\
    forall v, is_Some (clients st !! v) <-> is_Some (clients st' !! v).
Proof.
  intros (M & U & F & X & R) O [us Eu] [ch Ec]. unfold Channel.remove_user_from_channel.
  destruct (find_member_spec st M U F zero c u ch us X O Ec Eu) as [(m & x & -> & Hm & Hx & Ux & Cx)|[-> N]]; cbn [obind].
  2:{ exists st. split; [done|]. split; [|done]. exists M, U, F. split; [done|]. unfold part. rewrite (proj2 (eq_None_not_Some _)); [done|].
      intros [s (k & y & Hk & Hy & Uy & _)%R]. by apply (N k y). }
  assert (A !! (u, c) = Some (status x)) as Au by (apply R; by exists m, x).
  assert (core st (emit st (Parted u c))) as Ce by apply core_emit, core_refl.
  pose proof (matrix_core _ _ _ _ _ _ Ce X) as X'. set (st1 := emit st _) in *.
  destruct (mx_member _ _ _ _ _ X' c m Hm) as (x' & Hx' & _ & Iu). assert (x' = x) as -> by (cbn in Hx'; congruence).
  apply list_elem_of_lookup in Hm as Hi. destruct Hi as [i Ei]. apply list_elem_of_lookup in Iu as [j Ej].
  destruct (remove_member_spec st1 M U F c m x i j X' Ei Hx Ej) as (st2 & more & -> & X2 & K2 & L2 & More & NoMore). cbn [obind].
  assert (forall v c' s, entry st2 (<[c := delete i (M c)]> M) v c' s <-> entry st M v c' s /\ (v, c') <> (u, c)) as R2.
  { intros v c' s. rewrite <- Ux. apply (entry_removed st st2 M U F _ c c' m x v s X K2 Hm Hx). intros k.
    destruct (decide (c' = c)) as [->|N]; [rewrite fn_lookup_insert; apply elem_delete; [apply X|done]|].
    rewrite fn_lookup_insert_ne by done. split; [|by intros [? _]]. intros Hk. split; [done|]. intros ->. by eapply (other_channel st M U F zero c c'). }
  pose proof (alive_delete st A M u c R) as Al. destruct (decide (delete i (M c) = [])) as [En|En].
  - rewrite (NoMore En). cbn. exists st2. split; [done|]. split; [|done]. eexists _, _, _. split; [exact X2|].
    intros v c' s. rewrite part_lookup, R2, R. split; [naive_solver|]. intros [He N]. split; [done|]. right. split; [done|]. left. intros ->.
    assert (entry st2 (<[c:=delete i (M c)]> M) v c s) as (k & _ & Hk & _) by (by apply R2). rewrite fn_lookup_insert, En in Hk. by apply elem_of_nil in Hk.
  - destruct (More En) as [-> [ch2 Ec2]]. change (1 =? 0) with false. cbn match.
    destruct (all_zombies_spec st2 _ _ _ _ c ch2 X2 Ec2) as (z & -> & Hz). cbn [obind]. setoid_rewrite R2 in Hz. rewrite <- Al in Hz.
    destruct z.
    + destruct (remove_rest_spec (pred (length (delete i (M c)))) st2 _ _ _ c ch2 (fuel_of st2) X2 Ec2) as (st3 & M3 & U3 & F3 & -> & X3 & K3 & L3 & Q3).
      { rewrite fn_lookup_insert. destruct (delete i (M c)); [done|cbn; lia]. }
      { pose proof (matrix_fuel_m st2 _ _ _ _ c X2) as Fu. rewrite fn_lookup_insert in Fu. lia. }
      exists st3. split; [done|]. split; [|intros v; by rewrite <- L3, <- L2]. exists M3, U3, F3. split; [done|]. intros v c' s.
      rewrite (rest_entry st2 st3 _ _ _ M3 c v c' s X2 K3 Q3), R2, part_lookup, R. destruct (alive _ _); naive_solver.
    + exists st2. split; [done|]. split; [|done]. eexists _, _, _. split; [exact X2|]. intros v c' s.
      rewrite part_lookup, R2, R. destruct (alive _ _); naive_solver.
Qed.

(** *** Counting *)
Definition cell_entry (st : state) (m : mid) : cid * chid * Z :=
  match heap st !! m with Some x => (user x, channel x, status x) | None => (1%positive, 1%positive, 0) end.

Lemma cell_entry_inj (st : state) M U F off (c : chid) (k k' : mid) : matrix st M U F off -> k ∈ M c -> k' ∈ M c ->
  (cell_entry st k).1 = (cell_entry st k').1 -> k = k'.
Proof.
  intros X Hk Hk' E. destruct (live_m _ _ _ _ _ c X k Hk) as [x Hx]. destruct (live_m _ _ _ _ _ c X k' Hk') as [x' Hx'].
  unfold cell_entry in E. rewrite Hx, Hx' in E. injection E as E _. by apply (mx_once _ _ _ _ _ X c k k' x x').
Qed.

Lemma count_channel (st : state) (A : roster) M U F off (c : chid) : matrix st M U F off ->
  (forall v c s, A !! (v, c) = Some s <-> entry st M v c s) -> size (filter (fun e => e.1.2 = c) A) = length (M c).
Proof.
  intros X R. apply (size_by_list _ _ (cell_entry st)); [apply X| |].
  - intros k k' Hk Hk' E. by eapply cell_entry_inj.
  - intros v c' s. rewrite map_lookup_filter_Some, R. cbn. unfold cell_entry. split.
    + intros [(m & x & Hm & Hx & <- & <-) ->]. exists m. split; [done|]. rewrite Hx.
      destruct (mx_member _ _ _ _ _ X c m Hm) as (y & Hy & Cy & _). congruence.
    + intros (m & Hm & E). destruct (mx_member _ _ _ _ _ X c m Hm) as (y & Hy & Cy & _). rewrite Hy in E. injection E as <- <- <-.
      split; [|done]. exists m, y. by rewrite Cy.
Qed.

Lemma zombies_spec (st : state) (A : roster) M U F off (c : chid) (ch : Channel) : matrix st M U F off -> chans st !! c = Some ch ->
  (forall v c s, A !! (v, c) = Some s <-> entry st M v c s) ->
  number_of_zombies st c = Ok (Z.of_nat (size (filter (fun e => zombie e.2 = true /\ e.1.2 = c) A))).
Proof.
  intros X Ec R. unfold number_of_zombies, load_chan. rewrite Ec. cbn [obind]. destruct (mx_chan _ _ _ _ _ X c ch Ec) as [[S D] _].
  rewrite S, (zombies_from (heap st) (members ch) (M c) (conj S D) (length (M c)) O) by (apply Nat.le_sub_l || by eapply matrix_fuel_m). rewrite drop_0. f_equal.
  rewrite Z.add_0_l. f_equal. symmetry. apply (size_by_list _ _ (cell_entry st)); [apply NoDup_filter, X| |].
  - intros k k' [_ Hk]%list_elem_of_filter [_ Hk']%list_elem_of_filter E. by eapply cell_entry_inj.
  - intros v c' s. rewrite map_lookup_filter_Some, R. cbn. setoid_rewrite list_elem_of_filter. unfold cell_entry, zombie_cell. split.
    + intros [(m & x & Hm & Hx & <- & <-) [Z ->]]. exists m. rewrite Hx. split; [done|].
      destruct (mx_member _ _ _ _ _ X c m Hm) as (y & Hy & Cy & _). congruence.
    + intros (m & [Z Hm] & E). destruct (mx_member _ _ _ _ _ X c m Hm) as (y & Hy & Cy & _). rewrite Hy in E, Z. injection E as <- <- <-.
      split; [|done]. exists m, y. by rewrite Cy.
Qed.

Lemma count_user (st : state) (A : roster) M U F off (u : cid) : matrix st M U F off ->
  (forall v c s, A !! (v, c) = Some s <-> entry st M v c s) -> size (filter (fun e => e.1.1 = u) A) = length (U u).
Proof.
  intros X R. apply (size_by_list _ _ (cell_entry st)); [apply X| |].
  - intros k k' Hk Hk' E. destruct (mx_user _ _ _ _ _ X u k Hk) as (x & Hx & Ux & Mx). destruct (mx_user _ _ _ _ _ X u k' Hk') as (x' & Hx' & Ux' & Mx').
    unfold cell_entry in E. rewrite Hx, Hx' in E. injection E as E1 E2. rewrite <- E2 in Mx'. by apply (mx_once _ _ _ _ _ X (channel x) k k' x x').
  - intros v c s. rewrite map_lookup_filter_Some, R. cbn. unfold cell_entry. split.
    + intros [(m & x & Hm & Hx & <- & <-) <-]. exists m. destruct (mx_member _ _ _ _ _ X c m Hm) as (y & Hy & Cy & My).
      assert (y = x) as -> by congruence. rewrite Hx. by rewrite Cy.
    + intros (m & Hm & E). destruct (mx_user _ _ _ _ _ X u m Hm) as (y & Hy & Uy & My). rewrite Hy in E. injection E as <- <- <-.
      split; [|done]. by exists m, y.
Qed.

Lemma part_fewer (A : roster) (u : cid) (c : chid) : is_Some (A !! (u, c)) ->
  (size (filter (fun e => e.1.1 = u) (part A u c)) < size (filter (fun e => e.1.1 = u) A))%nat.
Proof.
  intros [s E]. assert (filter (fun e => e.1.1 = u) A !! (u, c) = Some s) as E' by (by apply map_lookup_filter_Some).
  apply Nat.le_lt_trans with (size (delete (u, c) (filter (fun e => e.1.1 = u) A))).
  - apply map_subseteq_size, map_subseteq_spec. intros [v d] t. rewrite map_lookup_filter_Some, lookup_delete_Some, map_lookup_filter_Some, part_lookup.
    naive_solver.
  - rewrite map_size_delete_Some by eauto. destruct (size (filter _ A)) eqn:Z; [|lia].
    apply map_size_empty_inv in Z. by rewrite Z, lookup_empty in E'.
Qed.

Lemma remove_all_spec (n : nat) : forall st A u fuel, represents st A -> ordinary u -> is_Some (clients st !! u) ->
  (size (filter (fun e => e.1.1 = u) A) <= n)%nat -> (n <= fuel)%nat ->
  exists st', remove_all_loop IsServer IsMe IsChannelService get_secure_group_id oplevels now st fuel u = Ok st' /\ represents st' (quit A u) /\
    forall v, is_Some (clients st !! v) <-> is_Some (clients st' !! v).
Proof.
  induction n as [|n IH]; intros st A u fuel R O Eu Sz Fu; pose proof R as (M & U & F & X & RA); pose proof Eu as [us Hus];
    destruct (mx_client _ _ _ _ _ X u us Hus) as [[Du Dl] _]; pose proof (count_user st A M U F zero u X RA) as Cu;
    (destruct (U u) as [|m L] eqn:EU;
      [exists st; split; [|split; [|done]]; [destruct fuel; cbn [remove_all_loop]; unfold load_client; rewrite Hus; cbn [obind]; by rewrite Du|]|]).
  1,3: rewrite quit_none; [done|]; intros c; apply eq_None_not_Some; intros [s (k & y & Hk & Hy & Uy & _)%RA];
    destruct (mx_member _ _ _ _ _ X c k Hk) as (z & Hz & _ & Iz); assert (z = y) as -> by congruence; rewrite Uy, EU in Iz; by apply elem_of_nil in Iz.
  - cbn in Cu. lia.
  - destruct fuel as [|fuel]; [lia|]. cbn [remove_all_loop]. unfold load_client. rewrite Hus. cbn [obind]. rewrite Du. cbn [lookup list_lookup].
    assert (m ∈ U u) as Hm by (rewrite EU; by left). destruct (mx_user _ _ _ _ _ X u m Hm) as (x & Hx & Ux & Mx).
    unfold load. rewrite Hx. cbn [obind].
    assert (is_Some (chans st !! channel x)) as Ec.
    { destruct (chans st !! channel x) eqn:E; [eauto|]. apply (mx_nochan _ _ _ _ _ X) in E. rewrite E in Mx. by apply elem_of_nil in Mx. }
    assert (is_Some (A !! (u, channel x))) as Ea by (exists (status x); apply RA; by exists m, x).
    destruct (remove_user_spec st A u (channel x) R O Eu Ec) as (st1 & -> & R1 & L1). cbn [obind].
    destruct (IH st1 (part A u (channel x)) u fuel R1 O) as (st2 & -> & R2 & L2); [by apply L1|pose proof (part_fewer A u (channel x) Ea); lia|lia|].
    exists st2. split; [done|]. split; [by rewrite <- (quit_part A u (channel x))|]. intros v. by rewrite L1, L2.
Qed.

(** A server that just started: nobody is on any channel. *)
Lemma represents_empty (st : state) : heap st = ∅ -> membershipFreeList st = None ->
  (forall c ch, chans st !! c = Some ch -> members ch = None /\ users ch = 0 /\ invites ch = []) ->
  (forall u us, clients st !! u = Some us -> u_channel us = None /\ joined us = 0) -> represents st ∅.
Proof.
  intros Hh Hf Hc Hu. exists (fun _ => []), (fun _ => []), []. split.
  - split; try done; try (intros; by match goal with Hm : _ ∈ [] |- _ => apply elem_of_nil in Hm end); try (intros; by constructor).
    + intros c ch E. destruct (Hc c ch E) as (-> & -> & _). split; [by split|done].
    + intros u us E. destruct (Hu u us E) as (-> & ->). split; [by split|done].
    + intros m x E. by rewrite Hh, lookup_empty in E.
    + intros c ch u E Hi. destruct (Hc c ch E) as (_ & _ & Hn). rewrite Hn in Hi. by apply elem_of_nil in Hi.
  - intros v c s. rewrite lookup_empty. split; [done|]. intros (m & x & Hm & _). by apply elem_of_nil in Hm.
Qed.

(** New statuses and levels leave the lists alone. *)
Definition same_place (x y : Membership) : Prop :=
  user y = user x /\ channel y = channel x /\ next_member y = next_member x /\ prev_member y = prev_member x /\
  next_channel y = next_channel x /\ prev_channel y = prev_channel x.
Definition relabelled (h h' : gmap mid Membership) : Prop :=
  forall k, match h !! k, h' !! k with Some x, Some y => same_place x y | None, None => True | _, _ => False end.

Lemma relabelled_refl (h : gmap mid Membership) : relabelled h h.
Proof. intros k. by destruct (h !! k). Qed.
Lemma relabelled_trans (h1 h2 h3 : gmap mid Membership) : relabelled h1 h2 -> relabelled h2 h3 -> relabelled h1 h3.
Proof.
  intros H1 H2 k. specialize (H1 k). specialize (H2 k). destruct (h1 !! k), (h2 !! k), (h3 !! k); try done.
  unfold same_place in *. destruct_and!. split_and!; congruence.
Qed.
Lemma relabelled_insert (h : gmap mid Membership) (m : mid) (x y : Membership) : h !! m = Some x -> same_place x y -> relabelled h (<[m := y]> h).
Proof.
  intros Hx S k. destruct (decide (k = m)) as [->|N]; [by rewrite lookup_insert_eq, Hx|rewrite lookup_insert_ne by done; apply relabelled_refl].
Qed.
Lemma relabelled_some (h h' : gmap mid Membership) (k : mid) (x : Membership) : relabelled h h' -> h !! k = Some x -> exists y, h' !! k = Some y /\ same_place x y.
Proof. intros H E. specialize (H k). rewrite E in H. destruct (h' !! k) as [y|]; [eauto|done]. Qed.

Lemma relabelled_back (h h' : gmap mid Membership) (k : mid) (y : Membership) : relabelled h h' -> h' !! k = Some y -> exists x, h !! k = Some x.
Proof. intros H E. specialize (H k). rewrite E in H. destruct (h !! k) as [x|]; [eauto|done]. Qed.

Lemma matrix_relabelled (st : state) M U F off (h : gmap mid Membership) : matrix st M U F off -> relabelled (heap st) h -> matrix (set_heap st h) M U F off.
Proof.
  intros X R. pose proof (fun k y => relabelled_some _ _ k y R) as K. split; try apply X; cbn.
  - intros c ch E. destruct (mx_chan _ _ _ _ _ X c ch E) as [D ?]. split; [|done]. revert D. apply dll_ext. intros k y _ Hy.
    destruct (K k y Hy) as (y' & ? & ? & ? & ? & ? & ?). eauto.
  - intros u us E. destruct (mx_client _ _ _ _ _ X u us E) as [D ?]. split; [|done]. revert D. apply dll_ext. intros k y _ Hy.
    destruct (K k y Hy) as (y' & ? & ? & ? & ? & ? & ? & ?). eauto.
  - intros c k Hk. destruct (mx_member _ _ _ _ _ X c k Hk) as (y & Hy & Cy & Uy). destruct (K k y Hy) as (y' & ? & U' & C' & _).
    exists y'. rewrite U', C'. done.
  - intros u k Hk. destruct (mx_user _ _ _ _ _ X u k Hk) as (y & Hy & Uy & Cy). destruct (K k y Hy) as (y' & ? & U' & C' & _).
    exists y'. rewrite U', C'. done.
  - intros c k k' z z' Hk Hk' Hz Hz' E. destruct (live_m _ _ _ _ _ c X k Hk) as [y Hy]. destruct (live_m _ _ _ _ _ c X k' Hk') as [y' Hy'].
    destruct (K k y Hy) as (w & ? & ? & _). destruct (K k' y' Hy') as (w' & ? & ? & _). eapply (mx_once _ _ _ _ _ X c k k' y y'); congruence.
  - intros i k E. destruct (mx_free _ _ _ _ _ X i k E) as (y & Hy & Ny). destruct (K k y Hy) as (y' & ? & _ & _ & N' & _). exists y'. by rewrite N'.
  - intros k y Hy. destruct (relabelled_back _ _ k y R Hy) as [x E]. by apply (mx_brk _ _ _ _ _ X k x).
Qed.

Lemma matrix_status (st : state) M U F off (m : mid) (x : Membership) (s : Z) : matrix st M U F off -> heap st !! m = Some x ->
  matrix (set_heap st (<[m := set_status x s]> (heap st))) M U F off.
Proof. intros X Hx. apply matrix_relabelled; [done|]. by apply (relabelled_insert _ m x). Qed.

Lemma represents_status (st : state) (A : roster) M U F (u : cid) (c : chid) (m : mid) (x : Membership) (s : Z) :
  matrix st M U F zero -> (forall v c s, A !! (v, c) = Some s <-> entry st M v c s) -> m ∈ M c -> heap st !! m = Some x -> user x = u ->
  represents (set_heap st (<[m := set_status x s]> (heap st))) (<[(u, c) := s]> A).
Proof.
  intros X R Hm Hx Ux. exists M, U, F. split; [by apply matrix_status|]. intros v c' t. rewrite lookup_insert_Some, R. unfold entry. cbn. split.
  - intros [[[= <- <-] <-]|[N (k & y & Hk & Hy & Uy & Sy)]].
    + exists m, (set_status x s). by rewrite lookup_insert_eq.
    + exists k, y. rewrite lookup_insert_ne; [done|]. intros <-. apply N.
      destruct (mx_member _ _ _ _ _ X c m Hm) as (z & Hz & Cz & _). destruct (mx_member _ _ _ _ _ X c' m Hk) as (z' & Hz' & Cz' & _). congruence.
  - intros (k & y & Hk & Hy & Uy & Sy). destruct (decide (k = m)) as [->|N].
    + rewrite lookup_insert_eq in Hy. injection Hy as <-. left. split; [|done].
      destruct (mx_member _ _ _ _ _ X c m Hm) as (z & Hz & Cz & _). destruct (mx_member _ _ _ _ _ X c' m Hk) as (z' & Hz' & Cz' & _).
      cbn in Uy. congruence.
    + rewrite lookup_insert_ne in Hy by done. right. split; [|by exists k, y]. intros [= <- <-]. apply N.
      apply (mx_once _ _ _ _ _ X c k m y x); congruence.
Qed.

Lemma behind_spec (up : cid -> cid) (me : cid) (fuel : nat) : forall a target n, (n <= fuel)%nat -> Nat.iter n up a = me ->
  exists g, behind up me fuel a target = Ok g /\ (g = true <-> exists k, Nat.iter k up a = target /\ forall j, (j <= k)%nat -> Nat.iter j up a <> me).
Proof.
  induction fuel as [|fuel IH]; intros a target n Le E; cbn [behind]; destruct (Pos.eqb_spec a me) as [->|Na];
    try (exists false; split; [done|]; split; [done|]; intros (k & _ & H); by exfalso; apply (H O ltac:(lia)));
    destruct (Pos.eqb_spec a target) as [->|Nt];
    try (exists true; split; [done|]; split; [|done]; intros _; exists O; split; [done|]; intros j Hj; by replace j with O by lia).
  - by replace n with O in E by lia.
  - destruct n as [|n]; [done|]. rewrite Nat.iter_succ_r in E. destruct (IH (up a) target n ltac:(lia) E) as (g & -> & Hg). exists g. split; [done|].
    rewrite Hg. split.
    + intros (k & Ek & H). exists (S k). rewrite Nat.iter_succ_r. split; [done|]. intros [|j] Hj; [done|]. rewrite Nat.iter_succ_r. apply H. lia.
    + intros ([|k] & Ek & H); [done|]. rewrite Nat.iter_succ_r in Ek. exists k. split; [done|]. intros j Hj. rewrite <- Nat.iter_succ_r. apply H. lia.
Qed.

Lemma join_refines (st : state) (A : roster) (u : cid) (c : chid) (ch : Channel) (us : User) (flags lev : Z) :
  represents st A -> chans st !! c = Some ch -> clients st !! u = Some us ->
  A !! (u, c) = None -> users ch + 1 < 2 ^ 32 -> joined us + 1 < 2 ^ 32 ->
  exists st', add_user_to_channel st c u flags lev = Ok st' /\ represents st' (join A u c flags).
Proof.
  intros R Ec Eu NA Rc Ru. destruct R as (M & U & F & X & RA).
  destruct (add_user_spec st M U F c u ch us flags lev X Ec Eu) as (st' & m & F' & x & -> & X' & NM & K & Hx & Ux & Sx & _);
    [intros k y Hk Hy Uy; assert (A !! (u, c) = Some (status y)) by (apply RA; by exists k, y); congruence|done|done|].
  exists st'. split; [done|]. eexists _, _, _. split; [exact X'|]. intros v c' s. unfold entry, join. setoid_rewrite in_cons_at.
  rewrite lookup_insert_Some, RA. split.
  - intros [[[= -> ->] <-]|[N (k & y & Hk & Hy & Uy & Sy)]]; [exists m, x; split; [by right|done]|].
    destruct (K k y) as (y' & Hy' & U' & _ & S'); [intros ->; by apply (NM c')|done|]. exists k, y'. split; [by left|]. repeat split; congruence.
  - intros (k & y & [Hk|[-> ->]] & Hy & Uy & Sy); [|left; split; congruence]. right.
    destruct (live_m _ _ _ _ _ c' X k Hk) as [z Hz]. destruct (K k z) as (y' & Hy' & U' & _ & S'); [intros ->; by apply (NM c')|done|].
    assert (entry st M v c' s) as En by (exists k, z; repeat split; congruence). split; [|done].
    intros [= <- <-]. apply RA in En. congruence.
Qed.

(** C34: the two linked lists, the free list and the counters implement one table of
    who is on which channel with which status.  Joining, leaving one channel and leaving
    all of them never follow a dangling pointer, always return, and change the table
    as they should: a channel whose last normal member leaves loses its zombies too.
    [IsServer], the secure groups, [FEAT_OPLEVELS] and the time are arbitrary. *)
Theorem membership_refines (st : state) (A : roster) (u : cid) (c : chid) (ch : Channel) (us : User) (flags lev : Z) :
  represents st A -> ordinary u -> chans st !! c = Some ch -> clients st !! u = Some us ->
  (A !! (u, c) = None -> users ch + 1 < 2 ^ 32 -> joined us + 1 < 2 ^ 32 ->
     exists st', add_user_to_channel st c u flags lev = Ok st' /\ represents st' (join A u c flags)) /\
  (exists st', remove_user_from_channel st u c = Ok st' /\ represents st' (part A u c)) /\
  (exists st', remove_user_from_all_channels st u = Ok st' /\ represents st' (quit A u)).
Proof.
  intros R O Ec Eu. split; [|split].
  - by eapply join_refines.
  - destruct (remove_user_spec st A u c R O) as (st' & ? & ? & _); eauto.
  - pose proof R as (M & U & F & X & RA). pose proof (count_user st A M U F zero u X RA) as Cu. pose proof (matrix_fuel_u st M U F zero u X) as Fu.
    destruct (remove_all_spec (fuel_of st) st A u (fuel_of st) R O) as (st' & ? & ? & _); [eauto|lia|lia|eauto].
Qed.

(** The search for a member, whichever of the two lists it walks, gives the
    membership of exactly that user on exactly that channel, the search that skips
    zombies agrees with the status, operator rights are those of the table, the zombies
    are counted, and the counters of channel and user are the
    sizes of the table's column and row. *)
Theorem find_member_link_exact (st : state) (A : roster) (u : cid) (c : chid) (ch : Channel) (us : User) :
  represents st A -> ordinary u -> chans st !! c = Some ch -> clients st !! u = Some us ->
  match A !! (u, c) with
  | Some s => exists m x, find_member_link st c u = Ok (Some m) /\ heap st !! m = Some x /\ user x = u /\ channel x = c /\ status x = s /\
      find_channel_member IsServer IsMe IsChannelService st u c = Ok (if zombie s then None else Some m)
  | None => find_member_link st c u = Ok None /\ find_channel_member IsServer IsMe IsChannelService st u c = Ok None
  end /\
  is_chan_op IsServer IsMe IsChannelService st u c =
    Ok (match A !! (u, c) with Some s => negb (zombie s) && negb (Z.land s CHFL_CHANOP =? 0) | None => false end) /\
  number_of_zombies st c = Ok (Z.of_nat (size (filter (fun e => zombie e.2 = true /\ e.1.2 = c) A))) /\
  users ch = Z.of_nat (size (filter (fun e => e.1.2 = c) A)) /\
  joined us = Z.of_nat (size (filter (fun e => e.1.1 = u) A)).
Proof.
  clear get_secure_group_id oplevels now. intros (M & U & F & X & R) O Ec Eu. unfold find_channel_member, is_chan_op. split; [|split; [|split; [|split]]].
  - destruct (find_member_spec st M U F zero c u ch us X O Ec Eu) as [(m & x & -> & Hm & Hx & Ux & Cx)|[-> N]]; cbn [obind].
    + assert (A !! (u, c) = Some (status x)) as -> by (apply R; by exists m, x). exists m, x. unfold load. rewrite Hx. cbn [obind].
      repeat split; done.
    + rewrite (proj2 (eq_None_not_Some _)); [done|]. intros [s (k & y & Hk & Hy & Uy & _)%R]. by apply (N k y).
  - destruct (find_member_spec st M U F zero c u ch us X O Ec Eu) as [(m & x & -> & Hm & Hx & Ux & Cx)|[-> N]]; cbn [obind].
    + assert (A !! (u, c) = Some (status x)) as -> by (apply R; by exists m, x). unfold load. rewrite Hx. done.
    + rewrite (proj2 (eq_None_not_Some _)); [done|]. intros [s (k & y & Hk & Hy & Uy & _)%R]. by apply (N k y).
  - by eapply zombies_spec.
  - rewrite (count_channel st A M U F zero c X R). destruct (mx_chan _ _ _ _ _ X c ch Ec) as [_ ->]. apply Z.add_0_r.
  - rewrite (count_user st A M U F zero u X R). by destruct (mx_client _ _ _ _ _ X u us Eu) as [_ ->].
Qed.
(** A kicked member becomes a zombie and is removed at once exactly when he is
    local, or when the kick came back from his own server's direction and was made by
    somebody behind his server; the table changes accordingly, zombies alone never
    keep a channel, and the walk up the server tree ends. *)
Theorem make_zombie_refines (MyUser : cid -> bool) (cli_from server_of up : cid -> cid) (me : cid) (fuel n : nat)
    (st : state) (A : roster) (u cptr sptr : cid) (c : chid) (ch : Channel) (us : User) (m : mid) :
  represents st A -> ordinary u -> chans st !! c = Some ch -> clients st !! u = Some us ->
  find_member_link st c u = Ok (Some m) ->
  Nat.iter n up (if IsServer sptr then sptr else server_of sptr) = me -> (n <= fuel)%nat ->
  exists st' gone, make_zombie IsServer IsMe IsChannelService get_secure_group_id oplevels now MyUser cli_from server_of up me fuel st m u cptr sptr c = Ok st' /\
    represents st' (kick A u c gone) /\
    (gone = true <-> MyUser u = true \/ cli_from u = cptr /\
      exists k, Nat.iter k up (if IsServer sptr then sptr else server_of sptr) = server_of u /\
        forall j, (j <= k)%nat -> Nat.iter j up (if IsServer sptr then sptr else server_of sptr) <> me).
Proof.
  intros (M & U & F & X & R) O Ec Eu Fm Ch Le. set (start := if IsServer sptr then _ else _) in *.
  destruct (find_member_spec st M U F zero c u ch us X O Ec Eu) as [(m' & x & E & Hm & Hx & Ux & _)|[E _]]; rewrite Fm in E; [|done].
  injection E as <-. assert (A !! (u, c) = Some (status x)) as Au by (apply R; by exists m, x).
  unfold make_zombie. fold start. rewrite (update_ok (heap st) m x) by done. cbn [obind].
  set (st1 := set_heap st _). set (A1 := <[(u, c) := Z.lor (status x) CHFL_ZOMBIE]> A).
  assert (represents st1 A1) as R1 by (by eapply represents_status).
  destruct (remove_user_spec st1 A1 u c R1 O) as (st2 & E2 & R2 & _); [by exists us|by exists ch|].
  destruct R1 as (M1 & U1 & F1 & X1 & RA1). destruct (all_zombies_spec st1 M1 U1 F1 zero c ch X1 Ec) as (z & Ez & Hz).
  setoid_rewrite <- RA1 in Hz. rewrite <- alive_spec in Hz. unfold kick. rewrite Au. fold A1.
  destruct (behind_spec up me fuel start (server_of u) n Le Ch) as (g & Eg & Hg).
  assert (represents st1 A1) as R1 by (by exists M1, U1, F1).
  destruct (MyUser u) eqn:Mu; [exists st2, true; split; [done|]; split; [done|]; split; [by left|done]|].
  destruct (Pos.eqb_spec (cli_from u) cptr) as [Ef|Nf]; rewrite ?Eg; cbn [obind]; [destruct g|].
  - exists st2, true. split; [done|]. split; [done|]. split; [|done]. intros _. right. split; [done|]. by apply Hg.
  - rewrite Ez. cbn [obind]. exists (if z then st2 else st1), false. split; [by destruct z|]. split; [|split; [done|intros [?|[_ H]]; [done|by apply Hg]]].
    cbn [orb]. destruct (alive A1 c), z; cbn [negb]; try done; exfalso; naive_solver.
  - rewrite Ez. cbn [obind]. exists (if z then st2 else st1), false. split; [by destruct z|]. split; [|split; [done|by intros [?|[? _]]]].
    cbn [orb]. destruct (alive A1 c), z; cbn [negb]; try done; exfalso; naive_solver.
Qed.
End Matrix.

(** ** A small server: two users and a channel *)
Definition demo : state :=
  State ∅ {[ 1%positive := Chan None 1000 0 None [] [] 0 0 [] [] [] ]}
    (<[ 1%positive := MkUser None [] 0 0 ]> {[ 2%positive := MkUser None [] 0 0 ]}) None 0 1%positive 1 [].
Definition nobody (u : cid) : bool := false.
Definition no_group (u : cid) : Z := 0.
Definition demo1 : state :=
  match add_user_to_channel no_group demo 1%positive 1%positive 0 0 with Ok st => st | _ => demo end.
Definition demo_chan : Channel := Chan None 1000 1 (Some 1%positive) [] [] 0 0 [] [] [].
Definition demo_user : User := MkUser (Some 1%positive) [] 1 0.

Lemma represents_demo : represents demo ∅.
Proof.
  apply represents_empty; try done; unfold demo; cbn [chans clients].
  - intros c ch [_ <-]%lookup_singleton_Some. done.
  - intros u us [[_ <-]|[_ [_ <-]%lookup_singleton_Some]]%lookup_insert_Some; done.
Qed.

Lemma membership_refines_witness :
  represents demo1 (join ∅ 1%positive 1%positive 0) /\
  (exists st, remove_user_from_channel nobody nobody nobody no_group false 2000 demo1 1%positive 1%positive = Ok st /\
     represents st (part (join ∅ 1%positive 1%positive 0) 1%positive 1%positive)).
Proof.
  assert (represents demo1 (join ∅ 1%positive 1%positive 0)) as R.
  { destruct (membership_refines nobody nobody nobody no_group false 2000 demo ∅ 1%positive 1%positive
      (Chan None 1000 0 None [] [] 0 0 [] [] []) (MkUser None [] 0 0) 0 0 represents_demo) as [J _]; try done.
    destruct J as (st & E & R); try done. unfold demo1. by rewrite E. }
  split; [exact R|].
  destruct (membership_refines nobody nobody nobody no_group false 2000 demo1 _ 1%positive 1%positive demo_chan demo_user 0 0 R) as (_ & P & _);
    try done; try (vm_compute; reflexivity).
Defined.

Lemma represents_demo1 : represents demo1 (join ∅ 1%positive 1%positive 0).
Proof.
  destruct (join_refines nobody nobody nobody no_group demo ∅ 1%positive 1%positive (Chan None 1000 0 None [] [] 0 0 [] [] []) (MkUser None [] 0 0) 0 0 represents_demo)
    as (st & E & R); try done. unfold demo1. by rewrite E.
Qed.

Lemma find_member_link_exact_witness :
  exists m x, find_member_link nobody nobody nobody demo1 1%positive 1%positive = Ok (Some m) /\ heap demo1 !! m = Some x /\
    user x = 1%positive /\ number_of_zombies demo1 1%positive = Ok 0.
Proof.
  destruct (find_member_link_exact nobody nobody nobody demo1 _ 1%positive 1%positive demo_chan demo_user represents_demo1) as (W & _ & Z & _);
    try done; try (vm_compute; reflexivity).
  destruct W as (m & x & E1 & E2 & E3 & _). exists m, x. split; [exact E1|]. split; [exact E2|]. split; [exact E3|exact Z].
Defined.

Lemma make_zombie_refines_witness :
  exists st gone, make_zombie nobody nobody nobody no_group false 2000 (fun _ => true) (fun u => u) (fun _ => 1%positive) (fun u => u) 1%positive O
      demo1 1%positive 1%positive 2%positive 2%positive 1%positive = Ok st /\
    represents st (kick (join ∅ 1%positive 1%positive 0) 1%positive 1%positive gone) /\ gone = true.
Proof.
  destruct (make_zombie_refines nobody nobody nobody no_group false 2000 (fun _ => true) (fun u => u) (fun _ => 1%positive) (fun u => u) 1%positive O O
    demo1 _ 1%positive 2%positive 2%positive 1%positive demo_chan demo_user 1%positive represents_demo1) as (st & gone & E & R & G);
    try done; try (vm_compute; reflexivity).
  exists st, gone. split; [exact E|]. split; [exact R|]. apply G. by left.
Defined.
