(* ===== verification/Strings.v ===== *)
(** * Strings: [ircd/ircd_string.c]

    Comparison of C strings under the server's case mapping, and splitting them at
    separators. *)

From stdpp Require Import base functions list strings.
From Stdlib Require Import ZArith Lia Ascii.
From S2P Require Import Prelude Chattr.

Local Open Scope ircu_scope.
Local Open Scope Z_scope.

(** Characters are compared with their case folded. *)
Fixpoint ircd_strcmp (a b : list ascii) : Z :=
  match a, b with
  | [], _ => uchar (ToLower NUL) - uchar (ToLower (deref b))
  | c :: _, [] => uchar (ToLower c) - uchar (ToLower NUL)
  | c :: a', d :: b' => if ToLower c =c ToLower d then ircd_strcmp a' b' else uchar (ToLower c) - uchar (ToLower d)
  end.

Definition fold (s : list ascii) : list ascii := map ToLower s.

Lemma uchar_inj (c d : ascii) : uchar c = uchar d -> c = d.
Proof. intros H. by rewrite <- (char_of_uchar c), <- (char_of_uchar d), H. Qed.

Lemma uchar_diff (c d : ascii) : uchar c - uchar d = 0 <-> c = d.
Proof. split; [intros H; apply uchar_inj; lia|intros ->; lia]. Qed.

(** Zero exactly on strings that differ in case only. *)
Lemma ircd_strcmp_zero (a b : list ascii) : no_nul a -> no_nul b -> ircd_strcmp a b = 0 <-> fold a = fold b.
Proof.
  revert b. induction a as [|c a IH]; intros [|d b] Na Nb; cbn [ircd_strcmp deref fold map].
  - done.
  - rewrite uchar_diff. split; [|done]. intros E. assert (d = NUL) as -> by (apply ToLower_NUL; by rewrite <- E). exfalso. apply Nb. by left.
  - rewrite uchar_diff. split; [|done]. intros E. assert (c = NUL) as -> by (by apply ToLower_NUL). exfalso. apply Na. by left.
  - destruct (Ascii.eqb_spec (ToLower c) (ToLower d)) as [E|E].
    + rewrite IH; [|by intros H; apply Na; right|by intros H; apply Nb; right]. rewrite E. unfold fold. split; [by intros ->|by intros [= ->]].
    + rewrite uchar_diff. split; [done|by intros [= ? _]].
Qed.

(** ** [ircd_strtok]

    A position is what is left of the string, [None] for NULL.  The separator behind a
    token is overwritten with the terminator, so the token is what lies before it. *)
Section Tokens.
Context (fs : list ascii).

Fixpoint skip_seps (pos : list ascii) : list ascii :=
  match pos with
  | [] => []
  | c :: p => if bool_decide (c ∈ fs) then skip_seps p else pos
  end.
Fixpoint next_token (pos : list ascii) : list ascii * option (list ascii) :=
  match pos with
  | [] => ([], None)
  | c :: p => if bool_decide (c ∈ fs) then ([], Some p) else let (t, r) := next_token p in (c :: t, r)
  end.
(** The token, if there is one, and the new [*save]. *)
Definition ircd_strtok (save : option (list ascii)) : option (list ascii) * option (list ascii) :=
  match save with
  | None => (None, None)
  | Some pos => match skip_seps pos with [] => (None, None) | p => let (t, r) := next_token p in (Some t, r) end
  end.

(** The fields of a string: its stretches without separators, but for the empty ones. *)
Fixpoint pieces (s : list ascii) : list ascii * list (list ascii) :=
  match s with
  | [] => ([], [])
  | c :: s => let (w, ws) := pieces s in if bool_decide (c ∈ fs) then ([], w :: ws) else (c :: w, ws)
  end.
Definition fields (s : list ascii) : list (list ascii) := let (w, ws) := pieces s in filter (fun w => w <> []) (w :: ws).

Lemma fields_cons (c : ascii) (s : list ascii) : c ∈ fs -> fields (c :: s) = fields s.
Proof. intros H. unfold fields. cbn [pieces]. destruct (pieces s) as [w ws]. by rewrite bool_decide_true by done. Qed.
Lemma skip_seps_fields (s : list ascii) : fields (skip_seps s) = fields s /\ (length (skip_seps s) <= length s)%nat /\ (forall c p, skip_seps s = c :: p -> c ∉ fs).
Proof.
  induction s as [|c s [IH1 [IH2 IH3]]]; cbn [skip_seps]; [done|]. case_bool_decide as E; [rewrite fields_cons by done; split; [done|split; [cbn; lia|done]]|]. split; [done|]. split; [done|]. by intros ? ? [= <- <-].
Qed.
Lemma next_token_pieces (s : list ascii) : let (t, r) := next_token s in let (w, ws) := pieces s in w = t /\ match r with None => ws = [] | Some p => (length p < length s)%nat /\ (let (w', ws') := pieces p in ws = w' :: ws') end.
Proof.
  induction s as [|c s IH]; cbn [next_token pieces]; [done|]. case_bool_decide as E.
  - destruct (pieces s) as [w ws]. split; [done|]. cbn. split; [lia|done].
  - destruct (next_token s) as [t r], (pieces s) as [w ws]. destruct IH as [-> IH]. split; [done|]. destruct r as [p|]; [|done]. cbn. destruct IH as [L IH]. split; [lia|done].
Qed.

(** A call gives the first field and leaves the others. *)
Lemma ircd_strtok_spec (s : list ascii) : match ircd_strtok (Some s) with
  | (None, r) => fields s = []
  | (Some t, r) => t <> [] /\ fields s = t :: match r with None => [] | Some p => fields p end /\ match r with None => True | Some p => (length p < length s)%nat end
  end.
Proof.
  unfold ircd_strtok. destruct (skip_seps_fields s) as (Ef & Ls & Nc). destruct (skip_seps s) as [|c p] eqn:E; [by rewrite <- Ef|]. specialize (Nc c p eq_refl). pose proof (next_token_pieces (c :: p)) as H. cbn [next_token] in *. rewrite bool_decide_false in * by done.
  destruct (next_token p) as [t r]. rewrite <- Ef. unfold fields at 1. destruct (pieces (c :: p)) as [w ws]. destruct H as [-> H]. split; [done|]. rewrite filter_cons_True by done. destruct r as [q|]; [|by rewrite H]. destruct H as [L H]. split; [|cbn in *; lia].
  unfold fields. destruct (pieces q) as [w' ws']. by rewrite H.
Qed.
End Tokens.

(** [ircd_strncpy] into a buffer of [n + 1] bytes. *)
Definition ircd_strncpy (s2 : list ascii) (n : nat) : list ascii := take n s2.
