(* ===== verification/CRule.v ===== *)
(** * Connection rules: [ircd/crule.c]

    The recursive descent parser that turns the text of a rule into a tree when the
    configuration is read, the evaluation of the tree before a connection is made, and
    the release of a tree.  A pointer into the rule is the rest of the text.  Freshly
    allocated nodes have an unset second operand: using or freeing it is [Oob]. *)

From stdpp Require Import base functions list strings.
From Stdlib Require Import ZArith Lia Ascii.
From S2P Require Import Prelude Chattr Match Strings.

Local Open Scope ircu_scope.

Definition CR_MAXARGLEN : nat := 80.
Definition CR_MAXARGS : nat := 3.

Inductive crule_token : Type :=
| CR_UNKNOWN | CR_END | CR_AND | CR_OR | CR_NOT | CR_OPENPAREN | CR_CLOSEPAREN | CR_COMMA | CR_WORD.

Inductive crule_errcode : Type :=
| CR_NOERR | CR_UNEXPCTTOK | CR_UNKNWTOK | CR_EXPCTAND | CR_EXPCTOR | CR_EXPCTPRIM | CR_EXPCTOPEN
| CR_EXPCTCLOSE | CR_UNKNWFUNC | CR_ARGMISMAT.

#[global] Instance crule_token_eq_dec : EqDecision crule_token.
Proof. solve_decision. Defined.
#[global] Instance crule_errcode_eq_dec : EqDecision crule_errcode.
Proof. solve_decision. Defined.

Inductive crule_func : Type := crule_connected | crule_directcon | crule_via | crule_directop.

(** [struct CRuleNode]: the operators point at nodes, the functions at strings. *)
Inductive CRuleNode : Type :=
| crule_andor (arg0 arg1 : slot) (is_or : bool)
| crule_not (arg0 : slot)
| crule_call (funcptr : option crule_func) (args : list (list ascii))
with slot : Type :=
| Null
| Unset
| Node (n : CRuleNode).

Record crule_funclistent : Type := FuncEnt { name : list ascii; reqnumargs : nat; funcptr : option crule_func }.

Definition crule_funclist : list crule_funclistent :=
  [ FuncEnt (cstr "connected") 1 (Some crule_connected);
    FuncEnt (cstr "directcon") 1 (Some crule_directcon);
    FuncEnt (cstr "via") 2 (Some crule_via);
    FuncEnt (cstr "directop") 0 (Some crule_directop);
    FuncEnt [] 0 None ].

(** ** Evaluation *)
Record server_view : Type := Client {
  cli_name : list ascii;
  IsServer : bool;
  IsMe : bool;
  IsAnOper : bool;
  from_name : list ascii    (** the name of [cli_from] *)
}.

(** [GlobalClientList] and [LocalClientArray] up to [HighestFd]. *)
Record network : Type := Network { GlobalClientList : list server_view; LocalClientArray : list (option server_view) }.

Fixpoint connected_loop (mask : list ascii) (l : list server_view) : outcome bool :=
  match l with
  | [] => Ok false
  | acptr :: l =>
      if negb (IsServer acptr) || IsMe acptr then connected_loop mask l
      else let* r := match_ mask (cli_name acptr) in
           if (r =? 0)%Z then Ok true else connected_loop mask l
  end.

Fixpoint directcon_loop (mask : list ascii) (l : list (option server_view)) : outcome bool :=
  match l with
  | [] => Ok false
  | None :: l => directcon_loop mask l
  | Some acptr :: l =>
      if negb (IsServer acptr) then directcon_loop mask l
      else let* r := match_ mask (cli_name acptr) in
           if (r =? 0)%Z then Ok true else directcon_loop mask l
  end.

Fixpoint via_loop (mask0 mask1 : list ascii) (l : list server_view) : outcome bool :=
  match l with
  | [] => Ok false
  | acptr :: l =>
      if negb (IsServer acptr) || IsMe acptr then via_loop mask0 mask1 l
      else let* r := match_ mask1 (cli_name acptr) in
           if negb (r =? 0)%Z then via_loop mask0 mask1 l
           else let* r := match_ mask0 (from_name acptr) in
                if (r =? 0)%Z then Ok true else via_loop mask0 mask1 l
  end.

Fixpoint directop_loop (l : list (option server_view)) : bool :=
  match l with
  | [] => false
  | Some acptr :: l => if IsAnOper acptr then true else directop_loop l
  | None :: l => directop_loop l
  end.

Definition run_func (net : network) (f : crule_func) (args : list (list ascii)) : outcome bool :=
  match f, args with
  | crule_connected, a :: _ => connected_loop a (GlobalClientList net)
  | crule_directcon, a :: _ => directcon_loop a (LocalClientArray net)
  | crule_via, a :: b :: _ => via_loop a b (GlobalClientList net)
  | crule_directop, _ => Ok (directop_loop (LocalClientArray net))
  | _, _ => Oob
  end.

Fixpoint crule_eval (net : network) (rule : CRuleNode) : outcome bool :=
  match rule with
  | crule_andor a b is_or =>
      let* result1 := eval_slot net a in
      if is_or then (if result1 then Ok true else eval_slot net b)
      else (if result1 then eval_slot net b else Ok false)
  | crule_not a => let* r := eval_slot net a in Ok (negb r)
  | crule_call (Some f) args => run_func net f args
  | crule_call None _ => Oob
  end
with eval_slot (net : network) (s : slot) : outcome bool :=
  match s with Node n => crule_eval net n | Null | Unset => Oob end.

(** ** Scanner *)
Definition is_mask_char (c : ascii) : bool := (c =c "*") || (c =c "?") || (c =c ".") || (c =c "-").

Fixpoint crule_gettoken (p : list ascii) (pending : ascii) : crule_errcode * crule_token * list ascii :=
  match p with
  | [] => (CR_NOERR, CR_END, [])
  | c :: p' =>
      if (c =c " ") || (c =c "009") then crule_gettoken p' pending
      else if c =c "&" then
        if pending =c NUL then crule_gettoken p' "&"
        else if pending =c "&" then (CR_NOERR, CR_AND, p') else (CR_UNKNWTOK, CR_UNKNOWN, p')
      else if c =c "|" then
        if pending =c NUL then crule_gettoken p' "|"
        else if pending =c "|" then (CR_NOERR, CR_OR, p') else (CR_UNKNWTOK, CR_UNKNOWN, p')
      else if c =c "!" then (CR_NOERR, CR_NOT, p')
      else if c =c "(" then (CR_NOERR, CR_OPENPAREN, p')
      else if c =c ")" then (CR_NOERR, CR_CLOSEPAREN, p')
      else if c =c "," then (CR_NOERR, CR_COMMA, p')
      else if c =c ":" then (CR_NOERR, CR_END, p')
      else if IsAlpha c || is_mask_char c then (CR_NOERR, CR_WORD, p)
      else (CR_UNKNWTOK, CR_UNKNOWN, p)
  end.

Fixpoint crule_getword (maxlen : nat) (p : list ascii) : list ascii * list ascii :=
  match maxlen, p with
  | S maxlen, c :: p' =>
      if IsAlnum c || is_mask_char c then let (w, q) := crule_getword maxlen p' in (c :: w, q) else ([], p)
  | _, _ => ([], p)
  end.

(** ** Parser *)

(** The loop of [crule_parsearglist]: arguments stored so far, the argument being put
    together, and [arglen]. *)
Fixpoint crule_parsearglist (fuel : nat) (args : list (list ascii)) (currarg : list ascii) (arglen : nat)
    (next_tok : crule_token) (p : list ascii) : outcome (crule_errcode * list (list ascii) * crule_token * list ascii) :=
  match fuel with
  | O => Fuel
  | S fuel =>
      if decide (next_tok = CR_WORD) then
        let (word, p) := crule_getword (CR_MAXARGLEN - 1) p in
        let wordlen := length word in
        let '(currarg, arglen) :=
          match currarg with
          | [] => (word, wordlen)
          | _ => if (arglen + wordlen <? CR_MAXARGLEN - 1)%nat
                 then (currarg ++ " "%char :: word, arglen + wordlen + 1)%nat else (currarg, arglen)
          end in
        let '(errcode, next_tok, p) := crule_gettoken p NUL in
        if decide (errcode = CR_NOERR) then crule_parsearglist fuel args currarg arglen next_tok p
        else Ok (errcode, args, next_tok, p)
      else
        let currarg := collapse currarg in
        let* args :=
          match currarg with
          | [] => Ok args
          | _ => if (length args <? CR_MAXARGS)%nat then Ok (args ++ [currarg]) else Oob
          end in
        if decide (next_tok = CR_COMMA) then
          let '(errcode, next_tok, p) := crule_gettoken p NUL in
          if decide (errcode = CR_NOERR) then crule_parsearglist fuel args [] arglen next_tok p
          else Ok (errcode, args, next_tok, p)
        else Ok (CR_NOERR, args, next_tok, p)
  end.

(** The function table is searched up to its empty last entry. *)
Fixpoint find_func (l : list crule_funclistent) (funcname : list ascii) : option crule_funclistent :=
  match l with
  | [] => None
  | f :: l =>
      if (ircd_strcmp (name f) funcname =? 0)%Z then Some f
      else match name f with [] => None | _ => find_func l funcname end
  end.

Definition presult : Type := crule_errcode * slot * crule_token * list ascii.

Definition crule_parsefunction (next_tok : crule_token) (p : list ascii) : outcome presult :=
  let (funcname, p) := crule_getword (CR_MAXARGLEN - 1) p in
  let '(errcode, next_tok, p) := crule_gettoken p NUL in
  if decide (errcode = CR_NOERR) then
    if decide (next_tok = CR_OPENPAREN) then
      match find_func crule_funclist funcname with
      | None => Ok (CR_UNKNWFUNC, Null, next_tok, p)
      | Some f =>
          let '(errcode, next_tok, p) := crule_gettoken p NUL in
          if decide (errcode = CR_NOERR) then
            let* (errcode, args, next_tok, p) := crule_parsearglist (S (S (length p))) [] [] 0 next_tok p in
            let node := Node (crule_call None args) in
            if decide (errcode = CR_NOERR) then
              if decide (next_tok = CR_CLOSEPAREN) then
                if (reqnumargs f =? length args)%nat then
                  let '(errcode, next_tok, p) := crule_gettoken p NUL in
                  if decide (errcode = CR_NOERR) then Ok (CR_NOERR, Node (crule_call (funcptr f) args), next_tok, p)
                  else Ok (errcode, node, next_tok, p)
                else Ok (CR_ARGMISMAT, node, next_tok, p)
              else Ok (CR_EXPCTCLOSE, node, next_tok, p)
            else Ok (errcode, node, next_tok, p)
          else Ok (errcode, Null, next_tok, p)
      end
    else Ok (CR_EXPCTOPEN, Null, next_tok, p)
  else Ok (errcode, Null, next_tok, p).

Definition set_arg1 (root : slot) (x : slot) : slot :=
  match root with Node (crule_andor a _ b) => Node (crule_andor a x b) | r => r end.

(** An operator met after [operand]: the new root, whose second operand is still unset. *)
Definition extend (root operand : slot) (is_or : bool) : slot :=
  match root with
  | Null => Node (crule_andor operand Unset is_or)
  | _ => Node (crule_andor (set_arg1 root operand) Unset is_or)
  end.

(** The last operand; [missing] is the error when there is none. *)
Definition finish (root operand : slot) (errcode missing : crule_errcode) (next_tok : crule_token) (p : list ascii) : presult :=
  match root, operand with
  | Null, _ => (errcode, operand, next_tok, p)
  | _, Null => (missing, set_arg1 root Null, next_tok, p)
  | _, _ => (errcode, set_arg1 root operand, next_tok, p)
  end.

Fixpoint crule_parseorexpr (fuel : nat) (orroot : slot) (next_tok : crule_token) (p : list ascii) {struct fuel} : outcome presult :=
  match fuel with
  | O => Fuel
  | S fuel =>
      let* (errcode, andexpr, next_tok, p) := crule_parseandexpr fuel Null next_tok p in
      if decide (errcode = CR_NOERR /\ next_tok = CR_OR) then
        let orroot := extend orroot andexpr true in
        let '(errcode, next_tok, p) := crule_gettoken p NUL in
        if decide (errcode = CR_NOERR) then crule_parseorexpr fuel orroot next_tok p
        else Ok (errcode, orroot, next_tok, p)
      else Ok (finish orroot andexpr errcode CR_EXPCTAND next_tok p)
  end
with crule_parseandexpr (fuel : nat) (androot : slot) (next_tok : crule_token) (p : list ascii) {struct fuel} : outcome presult :=
  match fuel with
  | O => Fuel
  | S fuel =>
      let* (errcode, primary, next_tok, p) := crule_parseprimary fuel false next_tok p in
      if decide (errcode = CR_NOERR /\ next_tok = CR_AND) then
        let androot := extend androot primary false in
        let '(errcode, next_tok, p) := crule_gettoken p NUL in
        if decide (errcode = CR_NOERR) then crule_parseandexpr fuel androot next_tok p
        else Ok (errcode, androot, next_tok, p)
      else Ok (finish androot primary errcode CR_EXPCTPRIM next_tok p)
  end
with crule_parseprimary (fuel : nat) (under_not : bool) (next_tok : crule_token) (p : list ascii) {struct fuel} : outcome presult :=
  match fuel with
  | O => Fuel
  | S fuel =>
      match next_tok with
      | CR_OPENPAREN =>
          let '(errcode, next_tok, p) := crule_gettoken p NUL in
          if decide (errcode = CR_NOERR) then
            let* (errcode, sub, next_tok, p) := crule_parseorexpr fuel Null next_tok p in
            if decide (errcode = CR_NOERR) then
              match sub with
              | Null => Ok (CR_EXPCTAND, sub, next_tok, p)
              | _ =>
                  if decide (next_tok = CR_CLOSEPAREN) then
                    let '(errcode, next_tok, p) := crule_gettoken p NUL in Ok (errcode, sub, next_tok, p)
                  else Ok (CR_EXPCTCLOSE, sub, next_tok, p)
              end
            else Ok (errcode, sub, next_tok, p)
          else Ok (errcode, Null, next_tok, p)
      | CR_NOT =>
          let '(errcode, next_tok, p) := crule_gettoken p NUL in
          if decide (errcode = CR_NOERR) then
            let* (errcode, sub, next_tok, p) := crule_parseprimary fuel true next_tok p in
            Ok (errcode, Node (crule_not sub), next_tok, p)
          else Ok (errcode, Node (crule_not Null), next_tok, p)
      | CR_WORD => crule_parsefunction next_tok p
      | _ => Ok (if under_not then CR_EXPCTPRIM else CR_NOERR, Null, next_tok, p)
      end
  end.

(** Freeing the operands of a node, then the node. *)
Fixpoint crule_free (elem : CRuleNode) : outcome unit :=
  match elem with
  | crule_not a => match a with Null => Ok tt | Unset => Oob | Node n => crule_free n end
  | crule_andor a b _ =>
      let* _ := match a with Node n => crule_free n | _ => Oob end in
      match b with Null => Ok tt | Unset => Oob | Node n => crule_free n end
  | crule_call _ _ => Ok tt
  end.

Definition crule_fuel (rule : list ascii) : nat := 3 * length rule + 6.

Definition crule_parse (rule : list ascii) : outcome (option CRuleNode) :=
  let '(errcode, next_tok, p) := crule_gettoken rule NUL in
  let* (errcode, ruleroot) :=
    if decide (errcode = CR_NOERR) then
      let* (errcode, ruleroot, next_tok, p) := crule_parseorexpr (crule_fuel rule) Null next_tok p in
      if decide (errcode = CR_NOERR) then
        match ruleroot with
        | Null => Ok (CR_EXPCTOR, ruleroot)
        | _ => if decide (next_tok = CR_END) then Ok (CR_NOERR, ruleroot) else Ok (CR_UNEXPCTTOK, ruleroot)
        end
      else Ok (errcode, ruleroot)
    else Ok (errcode, Null) in
  match ruleroot with
  | Null => Ok None
  | Unset => Oob
  | Node n => if decide (errcode = CR_NOERR) then Ok (Some n) else let* _ := crule_free n in Ok None
  end.

Example parse_ex : crule_parse (cstr " connected(*.eu) && ! (via (a.*, b) || DirectOp())") =
  Ok (Some (crule_andor (Node (crule_call (Some crule_connected) [cstr "*.eu"]))
    (Node (crule_not (Node (crule_andor (Node (crule_call (Some crule_via) [cstr "a.*"; cstr "b"]))
       (Node (crule_call (Some crule_directop) [])) true)))) false)).
Proof. reflexivity. Qed.

(** ** Termination *)

(** The characters still to be consumed, the current token included. *)
Definition weight (t : crule_token) (p : list ascii) : nat :=
  length p + match t with CR_END | CR_WORD | CR_UNKNOWN => 0 | _ => 1 end.

(** A word token points at the first character of its word. *)
Definition word_start (c : ascii) : bool := IsAlpha c || is_mask_char c.
Definition word_char (c : ascii) : bool := IsAlnum c || is_mask_char c.
Definition good (t : crule_token) (p : list ascii) : Prop := t = CR_WORD -> exists c p', p = c :: p' /\ word_start c = true.

Lemma word_start_char (c : ascii) : word_start c = true -> word_char c = true.
Proof.
  intros H. enough (negb (word_start c) || word_char c = true) as E by (by rewrite H in E).
  apply (forall_chars (fun c => negb (word_start c) || word_char c)). vm_compute. reflexivity.
Qed.

Lemma gettoken_weight (p : list ascii) : forall pending e t q, crule_gettoken p pending = (e, t, q) -> weight t q <= length p /\ good t q.
Proof.
  induction p as [|c p IH]; intros pending e t q; cbn [crule_gettoken].
  - intros [= <- <- <-]. by split.
  - repeat case_if; try (intros H; apply IH in H as [? ?]; split; [cbn [length]; lia|done]);
      intros [= <- <- <-]; (split; [unfold weight; cbn [length]; lia|]); try done.
    intros _. by exists c, p.
Qed.

Lemma getword_split (n : nat) (p w q : list ascii) : crule_getword n p = (w, q) -> p = w ++ q.
Proof.
  revert p w q. induction n as [|n IH]; intros p w q; destruct p as [|c p]; cbn [crule_getword]; try (by intros [= <- <-]).
  case_if; [|by intros [= <- <-]]. destruct (crule_getword n p) as [w' q'] eqn:E. intros [= <- <-]. cbn. f_equal. by apply IH.
Qed.

Lemma getword_progress (n : nat) (p w q : list ascii) : good CR_WORD p -> crule_getword (S n) p = (w, q) -> length q < length p.
Proof.
  intros G E. destruct (G eq_refl) as (c & p' & -> & Hc). apply word_start_char in Hc. cbn in E. unfold word_char in Hc. rewrite Hc in E.
  destruct (crule_getword n p') as [w' q'] eqn:E'. injection E as <- <-. apply getword_split in E' as ->. cbn. rewrite length_app. lia.
Qed.

(** What every parsing function keeps: it does not run out of fuel and does not go back. *)
Definition moves (w : nat) (r : outcome presult) : Prop :=
  match r with Ok (_, _, t, q) => weight t q <= w /\ good t q | Oob => True | Fuel => False end.

Lemma arglist_moves (fuel : nat) : forall args cur len t p, good t p -> weight t p < fuel ->
  match crule_parsearglist fuel args cur len t p with
  | Ok (_, _, t', q) => weight t' q <= weight t p /\ good t' q | Oob => True | Fuel => False end.
Proof.
  induction fuel as [|fuel IH]; intros args cur len t p G W; [lia|]. cbn [crule_parsearglist].
  destruct (decide (t = CR_WORD)) as [->|N].
  - destruct (crule_getword _ p) as [word p1] eqn:E1. apply getword_progress in E1; [|done].
    destruct (match cur with [] => _ | _ => _ end) as [cur' len'].
    destruct (crule_gettoken p1 NUL) as [[e t2] p2] eqn:E2. apply gettoken_weight in E2 as [W2 G2].
    assert (weight t2 p2 < weight CR_WORD p) as L by (unfold weight at 2; lia). destruct (decide _); [|split; [lia|done]].
    specialize (IH args cur' len' t2 p2 G2 ltac:(lia)). destruct (crule_parsearglist fuel args cur' len' t2 p2) as [[[[? ?] ?] ?]| |]; [|done|done].
    split; [lia|tauto].
  - destruct (match collapse cur with [] => _ | _ => _ end) as [args'| |] eqn:Ea; cbn [obind]; [|done|destruct (collapse cur); [done|by case_if_in Ea]].
    destruct (decide (t = CR_COMMA)) as [->|N2]; [|by split].
    destruct (crule_gettoken p NUL) as [[e t2] p2] eqn:E2. apply gettoken_weight in E2 as [W2 G2].
    assert (weight t2 p2 < weight CR_COMMA p) as L by (unfold weight at 2; lia). destruct (decide _); [|split; [lia|done]].
    specialize (IH args' [] len t2 p2 G2 ltac:(lia)). destruct (crule_parsearglist fuel args' [] len t2 p2) as [[[[? ?] ?] ?]| |]; [|done|done].
    split; [lia|tauto].
Qed.

Lemma parsefunction_moves (p : list ascii) : good CR_WORD p -> moves (weight CR_WORD p) (crule_parsefunction CR_WORD p).
Proof.
  intros G. unfold crule_parsefunction. destruct (crule_getword _ p) as [fname p1] eqn:E1. apply getword_progress in E1; [|done].
  destruct (crule_gettoken p1 NUL) as [[e t2] p2] eqn:E2. apply gettoken_weight in E2 as [W2 G2].
  assert (weight t2 p2 <= weight CR_WORD p) as L2 by (unfold weight at 2; lia).
  destruct (decide _); [|by split]. destruct (decide (t2 = CR_OPENPAREN)) as [->|]; [|by split].
  destruct (find_func _ _) as [f|]; [|by split]. destruct (crule_gettoken p2 NUL) as [[e3 t3] p3] eqn:E3. apply gettoken_weight in E3 as [W3 G3].
  assert (weight t3 p3 <= weight CR_WORD p) as L3 by (unfold weight in L2 at 1; lia). destruct (decide _); [|by split].
  pose proof (arglist_moves (S (S (length p3))) [] [] 0 t3 p3 G3) as A. destruct (crule_parsearglist _ [] [] 0 t3 p3) as [[[[e4 args] t4] p4]| |]; cbn [obind];
    [|done|apply A; unfold weight; destruct t3; lia].
  destruct A as [W4 G4]; [unfold weight; destruct t3; lia|]. assert (weight t4 p4 <= weight CR_WORD p) as L4 by lia.
  destruct (decide _); [|by split]. destruct (decide _) as [->|]; [|by split]. destruct (_ =? _)%nat; [|by split].
  destruct (crule_gettoken p4 NUL) as [[e5 t5] p5] eqn:E5. apply gettoken_weight in E5 as [W5 G5].
  assert (weight t5 p5 <= weight CR_WORD p) as L5 by (unfold weight in L4 at 1; lia). destruct (decide _); by split.
Qed.

Lemma moves_ok (w : nat) (r : outcome presult) : moves w r ->
  r = Oob \/ exists e s t q, r = Ok (e, s, t, q) /\ weight t q <= w /\ good t q.
Proof. destruct r as [[[[e s] t] q]| |]; cbn; [|by left|done]. intros [? ?]. right. eauto 10. Qed.

Lemma moves_weaken (w w' : nat) (r : outcome presult) : moves w r -> w <= w' -> moves w' r.
Proof. destruct r as [[[[e s] t] q]| |]; cbn; [|done|done]. intros [? ?] ?. split; [lia|done]. Qed.

(** Three units of fuel per character are enough. *)
Lemma parse_moves (fuel : nat) :
  (forall root t p, good t p -> 3 * weight t p + 3 <= fuel -> moves (weight t p) (crule_parseorexpr fuel root t p)) /\
  (forall root t p, good t p -> 3 * weight t p + 2 <= fuel -> moves (weight t p) (crule_parseandexpr fuel root t p)) /\
  (forall nested t p, good t p -> 3 * weight t p + 1 <= fuel -> moves (weight t p) (crule_parseprimary fuel nested t p)).
Proof.
  induction fuel as [|fuel (IHo & IHa & IHp)]; [split; [|split]; intros; lia|]. split; [|split].
  - intros root t p G W. cbn [crule_parseorexpr].
    destruct (moves_ok _ _ (IHa Null t p G ltac:(lia))) as [->|(e & s & t1 & p1 & -> & W1 & G1)]; [done|]. cbn [obind].
    destruct (decide _) as [[-> ->]|]; [|destruct root, s; by split].
    destruct (crule_gettoken p1 NUL) as [[e2 t2] p2] eqn:E2. apply gettoken_weight in E2 as [W2 G2].
    assert (weight t2 p2 < weight t p) as L by (unfold weight in W1 at 1; lia). destruct (decide _); [|split; [lia|done]].
    eapply moves_weaken; [apply IHo; [done|lia]|lia].
  - intros root t p G W. cbn [crule_parseandexpr].
    destruct (moves_ok _ _ (IHp false t p G ltac:(lia))) as [->|(e & s & t1 & p1 & -> & W1 & G1)]; [done|]. cbn [obind].
    destruct (decide _) as [[-> ->]|]; [|destruct root, s; by split].
    destruct (crule_gettoken p1 NUL) as [[e2 t2] p2] eqn:E2. apply gettoken_weight in E2 as [W2 G2].
    assert (weight t2 p2 < weight t p) as L by (unfold weight in W1 at 1; lia). destruct (decide _); [|split; [lia|done]].
    eapply moves_weaken; [apply IHa; [done|lia]|lia].
  - intros nested t p G W. cbn [crule_parseprimary]. destruct t; try (by split); [| |by apply parsefunction_moves];
      (destruct (crule_gettoken p NUL) as [[e2 t2] p2] eqn:E2; apply gettoken_weight in E2 as [W2 G2];
       destruct (decide _) as [->|]; [|split; [unfold weight at 2; lia|done]]).
    + destruct (moves_ok _ _ (IHp true t2 p2 G2 ltac:(unfold weight in W at 1; lia))) as [->|(e & s & t1 & p1 & -> & W1 & G1)]; [done|]. cbn [obind].
      split; [unfold weight at 2; lia|done].
    + destruct (moves_ok _ _ (IHo Null t2 p2 G2 ltac:(unfold weight in W at 1; lia))) as [->|(e & s & t1 & p1 & -> & W1 & G1)]; [done|]. cbn [obind].
      assert (weight t1 p1 <= weight CR_OPENPAREN p) as L1 by (unfold weight at 2; lia).
      destruct (decide _); [|by split]. destruct s; [by split| |]; (destruct (decide _) as [->|]; [|by split]);
        destruct (crule_gettoken p1 NUL) as [[e3 t3] p3] eqn:E3; apply gettoken_weight in E3 as [W3 G3];
        (split; [unfold weight in L1 at 1; lia|done]).
Qed.

(** The recursion of the grammar needs no more than three calls per character of the rule. *)
Lemma parse_ends (rule : list ascii) : crule_parse rule <> Fuel.
Proof.
  unfold crule_parse. destruct (crule_gettoken rule NUL) as [[e t] p] eqn:E. apply gettoken_weight in E as [W G].
  assert (forall n, crule_free n <> Fuel) as Fr.
  { fix IH 1. intros [[| |n] [| |k] b|[| |n]|f args]; cbn; try done; pose proof (IH n); destruct (crule_free n); try done; apply IH. }
  destruct (decide (e = CR_NOERR)); cbn [obind]; [|done].
  destruct (moves_ok _ _ (proj1 (parse_moves (crule_fuel rule)) Null t p G ltac:(unfold crule_fuel; lia))) as [->|(e1 & s & t1 & p1 & -> & _)]; [done|].
  cbn [obind]. destruct (decide (e1 = CR_NOERR)) as [->|Ne]; cbn [obind].
  - destruct s as [| |k]; [done|destruct (decide _); done|]. destruct (decide (t1 = CR_END)); cbn; [done|]. pose proof (Fr k). by destruct (crule_free k).
  - destruct s as [| |k]; [done|done|]. rewrite decide_False by done. pose proof (Fr k). by destruct (crule_free k).
Qed.

(** ** The documented grammar and its meaning *)
Inductive orexpr : Type :=
| OrOne (a : andexpr)
| OrMore (a : andexpr) (o : orexpr)
with andexpr : Type :=
| AndOne (p : primary)
| AndMore (p : primary) (a : andexpr)
with primary : Type :=
| Call (f : crule_func) (fname : list ascii) (args : list (list ascii))
| Neg (p : primary)
| Paren (o : orexpr).

Scheme orexpr_mind := Induction for orexpr Sort Prop
with andexpr_mind := Induction for andexpr Sort Prop
with primary_mind := Induction for primary Sort Prop.
Combined Scheme grammar_ind from orexpr_mind, andexpr_mind, primary_mind.

Definition arity (f : crule_func) : nat :=
  match f with crule_connected | crule_directcon => 1 | crule_via => 2 | crule_directop => 0 end.
Definition func_name (f : crule_func) : list ascii :=
  match f with
  | crule_connected => cstr "connected" | crule_directcon => cstr "directcon"
  | crule_via => cstr "via" | crule_directop => cstr "directop"
  end.

Definition word (w : list ascii) : Prop :=
  match w with [] => False | c :: _ => word_start c = true /\ c <> "|"%char end /\ forallb word_char w = true /\ length w < CR_MAXARGLEN.

(** Function names in any case, with the right number of words as arguments, each a mask
    that [match] handles (see [mask_ok]). *)
Fixpoint wf_or (o : orexpr) : Prop := match o with OrOne a => wf_and a | OrMore a o => wf_and a /\ wf_or o end
with wf_and (a : andexpr) : Prop := match a with AndOne p => wf_prim p | AndMore p a => wf_prim p /\ wf_and a end
with wf_prim (p : primary) : Prop :=
  match p with
  | Call f fname args => fold fname = fold (func_name f) /\ length args = arity f /\ Forall (fun a => word a /\ mask_ok (collapse a) = true) args
  | Neg p => wf_prim p
  | Paren o => wf_or o
  end.

(** White space in front of a token, and inside [&&] and [||]. *)
Definition blank (c : ascii) : Prop := c = " "%char \/ c = "009"%char.
Definition blanks (b : list ascii) : Prop := Forall blank b.

(** The texts of a rule.  [args_text] and [more_text] end with the closing parenthesis. *)
Inductive more_text : list (list ascii) -> list ascii -> Prop :=
| more_none b : blanks b -> more_text [] (b ++ [")"%char])
| more_arg b1 b2 a args s : blanks b1 -> blanks b2 -> more_text args s -> more_text (a :: args) (b1 ++ ","%char :: b2 ++ a ++ s).
Inductive args_text : list (list ascii) -> list ascii -> Prop :=
| args_none b : blanks b -> args_text [] (b ++ [")"%char])
| args_some b a args s : blanks b -> more_text args s -> args_text (a :: args) (b ++ a ++ s).

Inductive or_text : orexpr -> list ascii -> Prop :=
| or_one a s : and_text a s -> or_text (OrOne a) s
| or_more a o s b1 b2 s' : and_text a s -> blanks b1 -> blanks b2 -> or_text o s' -> or_text (OrMore a o) (s ++ b1 ++ "|"%char :: b2 ++ "|"%char :: s')
with and_text : andexpr -> list ascii -> Prop :=
| and_one p s : prim_text p s -> and_text (AndOne p) s
| and_more p a s b1 b2 s' : prim_text p s -> blanks b1 -> blanks b2 -> and_text a s' -> and_text (AndMore p a) (s ++ b1 ++ "&"%char :: b2 ++ "&"%char :: s')
with prim_text : primary -> list ascii -> Prop :=
| call_text f fname args b1 b2 s : blanks b1 -> blanks b2 -> args_text args s -> prim_text (Call f fname args) (b1 ++ fname ++ b2 ++ "("%char :: s)
| neg_text p b s : blanks b -> prim_text p s -> prim_text (Neg p) (b ++ "!"%char :: s)
| paren_text o b1 b2 s : blanks b1 -> blanks b2 -> or_text o s -> prim_text (Paren o) (b1 ++ "("%char :: s ++ b2 ++ [")"%char]).

(** The tree: operators of equal rank associate to the left. *)
Definition join_left (left : option CRuleNode) (n : CRuleNode) (is_or : bool) : CRuleNode :=
  match left with None => n | Some l => crule_andor (Node l) (Node n) is_or end.

Fixpoint tree_or (left : option CRuleNode) (o : orexpr) : CRuleNode :=
  match o with
  | OrOne a => join_left left (tree_and None a) true
  | OrMore a o => tree_or (Some (join_left left (tree_and None a) true)) o
  end
with tree_and (left : option CRuleNode) (a : andexpr) : CRuleNode :=
  match a with
  | AndOne p => join_left left (tree_prim p) false
  | AndMore p a => tree_and (Some (join_left left (tree_prim p) false)) a
  end
with tree_prim (p : primary) : CRuleNode :=
  match p with
  | Call f _ args => crule_call (Some f) (map collapse args)
  | Neg p => crule_not (Node (tree_prim p))
  | Paren o => tree_or None o
  end.

(** What the functions are documented to test. *)
Definition holds (net : network) (f : crule_func) (args : list (list ascii)) : bool :=
  let remote c := IsServer c && negb (IsMe c) in
  match f, args with
  | crule_connected, [a] => existsb (fun c => remote c && mask_matches a (cli_name c)) (GlobalClientList net)
  | crule_directcon, [a] =>
      existsb (fun c => match c with Some c => IsServer c && mask_matches a (cli_name c) | None => false end) (LocalClientArray net)
  | crule_via, [a; b] =>
      existsb (fun c => remote c && mask_matches b (cli_name c) && mask_matches a (from_name c)) (GlobalClientList net)
  | crule_directop, _ => existsb (fun c => match c with Some c => IsAnOper c | None => false end) (LocalClientArray net)
  | _, _ => false
  end.

Fixpoint means_or (net : network) (o : orexpr) : bool :=
  match o with OrOne a => means_and net a | OrMore a o => means_and net a || means_or net o end
with means_and (net : network) (a : andexpr) : bool :=
  match a with AndOne p => means_prim net p | AndMore p a => means_prim net p && means_and net a end
with means_prim (net : network) (p : primary) : bool :=
  match p with
  | Call f _ args => holds net f args
  | Neg p => negb (means_prim net p)
  | Paren o => means_or net o
  end.

(** *** Masks of a rule *)
Lemma word_char_nul (c : ascii) : word_char c = true -> c <> NUL.
Proof.
  intros H ->. vm_compute in H. done.
Qed.

(** [collapse] only moves and drops characters. *)
Lemma collapse_tail_chars (P : ascii -> Prop) (m : list ascii) : P "*"%char -> Forall P m -> forall st, Forall P (collapse_tail m st).
Proof.
  intros PS. induction m as [m IH] using (induction_ltof1 _ length); unfold ltof in IH. intros H st.
  destruct m as [|c m]; cbn [collapse_tail]; [destruct st; auto|]. inversion_clear H as [|? ? Hc Hm].
  case_if; [apply IH; [cbn; lia|done]|]. case_if.
  - destruct m as [|d m]; [apply Forall_app; split; [case_if; auto|by constructor]|]. inversion_clear Hm as [|? ? Hd Hm'].
    apply Forall_app; split; [case_if; auto|]. constructor; [done|]. constructor; [done|]. apply IH; [cbn; lia|done].
  - apply Forall_app; split; [case_if; auto|]. constructor; [done|]. apply IH; [cbn; lia|done].
Qed.

Lemma collapse_chars (P : ascii -> Prop) (m : list ascii) : P "*"%char -> Forall P m -> Forall P (collapse m).
Proof.
  intros PS. induction m as [m IH] using (induction_ltof1 _ length); unfold ltof in IH. intros H.
  destruct m as [|c m]; cbn [collapse]; [done|]. case_if; [by apply collapse_tail_chars|]. inversion_clear H as [|? ? Hc Hm]. case_if.
  - destruct m as [|d m]; [by constructor|]. inversion_clear Hm as [|? ? Hd Hm']. constructor; [done|]. constructor; [done|]. apply IH; [cbn; lia|done].
  - constructor; [done|]. apply IH; [cbn; lia|done].
Qed.

Lemma collapse_tail_some (m : list ascii) : collapse_tail m true <> [].
Proof.
  induction m as [|c m IH]; cbn [collapse_tail]; [done|]. case_if; [done|].
  repeat case_if; try destruct m; intros E; (apply app_eq_nil in E as [_ E] || idtac); done.
Qed.

Lemma collapse_some (c : ascii) (m : list ascii) : collapse (c :: m) <> [].
Proof.
  cbn [collapse]. case_if; [|case_if; [by destruct m|done]]. apply andb_true_iff in Heqb as [E _]. cbn [collapse_tail]. rewrite E. apply collapse_tail_some.
Qed.

Lemma Forall_no_nul (s : list ascii) : Forall (fun c => c <> NUL) s -> no_nul s.
Proof. intros H Hin. rewrite Forall_forall in H. by apply (H NUL). Qed.

Lemma word_mask (a name : list ascii) : word a -> mask_ok (collapse a) = true ->
  match_ (collapse a) name = Ok (if mask_matches a name then 0%Z else 1%Z).
Proof.
  intros (_ & W & _) M. rewrite match_decides; [|apply Forall_no_nul|done].
  - f_equal. unfold mask_matches. by rewrite collapse_equiv.
  - apply collapse_chars; [done|]. rewrite forallb_forall in W. apply Forall_forall. intros c Hc. by apply word_char_nul, W, list_elem_of_In.
Qed.

(** *** Evaluation *)
Lemma connected_spec (a : list ascii) (l : list server_view) : word a -> mask_ok (collapse a) = true ->
  connected_loop (collapse a) l = Ok (existsb (fun c => IsServer c && negb (IsMe c) && mask_matches a (cli_name c)) l).
Proof.
  intros W M. induction l as [|c l IH]; cbn [connected_loop existsb]; [done|]. destruct (IsServer c); cbn [negb orb andb]; [|done].
  destruct (IsMe c); cbn [negb orb andb]; [done|]. rewrite word_mask by done. cbn [obind]. by destruct (mask_matches a _).
Qed.
Lemma directcon_spec (a : list ascii) (l : list (option server_view)) : word a -> mask_ok (collapse a) = true ->
  directcon_loop (collapse a) l = Ok (existsb (fun c => match c with Some c => IsServer c && mask_matches a (cli_name c) | None => false end) l).
Proof.
  intros W M. induction l as [|[c|] l IH]; cbn [directcon_loop existsb]; [done| |done]. destruct (IsServer c); cbn [negb orb andb]; [|done].
  rewrite word_mask by done. cbn [obind]. by destruct (mask_matches a _).
Qed.
Lemma via_spec (a b : list ascii) (l : list server_view) : word a -> mask_ok (collapse a) = true -> word b -> mask_ok (collapse b) = true ->
  via_loop (collapse a) (collapse b) l =
  Ok (existsb (fun c => IsServer c && negb (IsMe c) && mask_matches b (cli_name c) && mask_matches a (from_name c)) l).
Proof.
  intros Wa Ma Wb Mb. induction l as [|c l IH]; cbn [via_loop existsb]; [done|]. destruct (IsServer c); cbn [negb orb andb]; [|done].
  destruct (IsMe c); cbn [negb orb andb]; [done|]. rewrite word_mask by done. cbn [obind]. destruct (mask_matches b _); cbn [Z.eqb negb andb]; [|done].
  rewrite word_mask by done. cbn [obind]. by destruct (mask_matches a _).
Qed.
Lemma directop_spec (l : list (option server_view)) :
  directop_loop l = existsb (fun c => match c with Some c => IsAnOper c | None => false end) l.
Proof. induction l as [|[c|] l IH]; cbn; [done| |done]. rewrite IH. by destruct (IsAnOper c). Qed.

Lemma run_func_spec (net : network) (f : crule_func) (args : list (list ascii)) : length args = arity f ->
  Forall (fun a => word a /\ mask_ok (collapse a) = true) args -> run_func net f (map collapse args) = Ok (holds net f args).
Proof.
  intros L W. destruct f; cbn in L; repeat (destruct args as [|? args]; try done);
    repeat match goal with H : Forall _ (_ :: _) |- _ => inversion_clear H end; repeat match goal with H : _ /\ _ |- _ => destruct H end; cbn [map run_func holds].
  - by apply connected_spec.
  - by apply directcon_spec.
  - by apply via_spec.
  - by rewrite directop_spec.
Qed.

(** Left-nested trees mean what the grammar says. *)
Lemma eval_spec (net : network) :
  (forall o, wf_or o -> forall left, crule_eval net (tree_or left o) =
     match left with
     | None => Ok (means_or net o)
     | Some l => let* r := crule_eval net l in Ok (r || means_or net o)
     end) /\
  (forall a, wf_and a -> forall left, crule_eval net (tree_and left a) =
     match left with
     | None => Ok (means_and net a)
     | Some l => let* r := crule_eval net l in Ok (r && means_and net a)
     end) /\
  (forall p, wf_prim p -> crule_eval net (tree_prim p) = Ok (means_prim net p)).
Proof.
  apply grammar_ind.
  - intros a IH W left. cbn. destruct left as [l|]; cbn; rewrite (IH W); [|done]. destruct (crule_eval net l) as [[|]| |]; done.
  - intros a IHa o IHo [Wa Wo] left. cbn. rewrite (IHo Wo). destruct left as [l|]; cbn; rewrite (IHa Wa); cbn; [|done].
    destruct (crule_eval net l) as [[|]| |]; done.
  - intros p IH W left. cbn. destruct left as [l|]; cbn; rewrite (IH W); [|done]. destruct (crule_eval net l) as [[|]| |]; done.
  - intros p IHp a IHa [Wp Wa] left. cbn. rewrite (IHa Wa). destruct left as [l|]; cbn; rewrite (IHp Wp); cbn; [|done].
    destruct (crule_eval net l) as [[|]| |]; done.
  - intros f fname args (_ & L & W). cbn. by apply run_func_spec.
  - intros p IH W. cbn. by rewrite (IH W).
  - intros o IH W. cbn. by rewrite (IH W).
Qed.

(** *** Reading the text back *)
(** The characters with a meaning of their own do not start a word. *)
Definition plain_start (c : ascii) : bool :=
  negb ((c =c " ") || (c =c "009") || (c =c "&") || (c =c "|") || (c =c "!") || (c =c "(") || (c =c ")") || (c =c ",") || (c =c ":")).
Lemma word_start_plain (c : ascii) : word_start c = true -> c <> "|"%char -> plain_start c = true.
Proof.
  intros H N. apply Ascii.eqb_neq in N. enough (negb (word_start c) || (c =c "|") || plain_start c = true) as E by (by rewrite H, N in E).
  apply (forall_chars (fun c => negb (word_start c) || (c =c "|") || plain_start c)). vm_compute. reflexivity.
Qed.

Definition stops (p : list ascii) : Prop := match p with [] => True | c :: _ => word_char c = false end.

Lemma getword_word (w p : list ascii) : forall n, forallb word_char w = true -> length w <= n -> stops p -> crule_getword n (w ++ p) = (w, p).
Proof.
  induction w as [|c w IH]; intros n W L S; cbn [app].
  - destruct n, p as [|d p]; cbn; try done. cbn in S. unfold word_char in S. by rewrite S.
  - destruct n as [|n]; [cbn in L; lia|]. cbn in W. apply andb_true_iff in W as [Wc W]. cbn. unfold word_char in Wc. rewrite Wc.
    rewrite IH; [done|done|cbn in L; lia|done].
Qed.

Lemma gettoken_word (w p : list ascii) : word w -> crule_gettoken (w ++ p) NUL = (CR_NOERR, CR_WORD, w ++ p).
Proof.
  intros (S & _). destruct w as [|c w]; [done|]. destruct S as [S N]. pose proof (word_start_plain c S N) as P. unfold plain_start in P.
  apply negb_true_iff in P. rewrite !orb_false_iff in P. destruct P as ((((((((P1 & P2) & P3) & P4) & P5) & P6) & P7) & P8) & P9).
  cbn [app crule_gettoken]. rewrite P1, P2, P3, P4, P5, P6, P7, P8, P9. unfold word_start in S. by rewrite S.
Qed.

Lemma gettoken_skip (b p : list ascii) (pending : ascii) : Forall blank b -> crule_gettoken (b ++ p) pending = crule_gettoken p pending.
Proof. induction 1 as [|c b [->| ->] _ IH]; [done|exact IH|exact IH]. Qed.

Lemma stops_blanks (b : list ascii) (c : ascii) (p : list ascii) : blanks b -> word_char c = false -> stops (b ++ c :: p).
Proof. intros [|d l [->| ->] _] H; done. Qed.

Lemma gettoken_double (b1 b2 p : list ascii) : blanks b1 -> blanks b2 ->
  crule_gettoken (b1 ++ "|"%char :: b2 ++ "|"%char :: p) NUL = (CR_NOERR, CR_OR, p) /\ crule_gettoken (b1 ++ "&"%char :: b2 ++ "&"%char :: p) NUL = (CR_NOERR, CR_AND, p).
Proof. intros B1 B2. rewrite !gettoken_skip by done. cbn. by rewrite !gettoken_skip by done. Qed.

Lemma gettoken_more (args : list (list ascii)) (s rest : list ascii) : more_text args s -> stops (s ++ rest) /\ exists t p, crule_gettoken (s ++ rest) NUL = (CR_NOERR, t, p).
Proof. intros [b B|b1 b2 a l s' B1 B2 M]; rewrite <- app_assoc; (split; [by apply stops_blanks|]); rewrite gettoken_skip by done; cbn; eauto. Qed.

(** A word token in the argument list. *)
Lemma arglist_word (fuel : nat) (got : list (list ascii)) (len : nat) (a p : list ascii) t q : word a -> stops p ->
  crule_gettoken p NUL = (CR_NOERR, t, q) ->
  crule_parsearglist (S fuel) got [] len CR_WORD (a ++ p) = crule_parsearglist fuel got a (length a) t q.
Proof.
  intros (_ & W & L) S E. cbn [crule_parsearglist]. rewrite decide_True by done.
  rewrite getword_word by (done || (unfold CR_MAXARGLEN in *; lia)). rewrite E. by rewrite decide_True.
Qed.

Lemma arglist_more (args : list (list ascii)) : forall s fuel got cur len rest t p,
  Forall word args -> more_text args s -> crule_gettoken (s ++ rest) NUL = (CR_NOERR, t, p) ->
  cur <> [] -> length got + length args < CR_MAXARGS -> 2 * length args < fuel ->
  crule_parsearglist fuel got cur len t p = Ok (CR_NOERR, got ++ map collapse (cur :: args), CR_CLOSEPAREN, rest).
Proof.
  induction args as [|a args IH]; intros s fuel got cur len rest t p W M E C L Fu; (destruct fuel as [|fuel]; [lia|]); inversion M as [b B|b1 b2 ? ? s' B1 B2 M']; subst;
    (destruct cur as [|c cur]; [done|]); pose proof (collapse_some c cur) as Cs; rewrite <- app_assoc, gettoken_skip in E by done; cbn in E;
    injection E as <- <-; cbn [crule_parsearglist]; rewrite decide_False by done;
    (destruct (collapse (c :: cur)) as [|e cur'] eqn:Ec; [done|]); cbn [length] in L; rewrite (proj2 (Nat.ltb_lt _ _)) by lia; cbn [obind].
  - rewrite decide_False by done. cbn [map]. by rewrite Ec.
  - rewrite decide_True by done. inversion_clear W as [|? ? Wa W']. rewrite <- !app_assoc, gettoken_skip, gettoken_word by done. rewrite decide_True by done.
    destruct (gettoken_more args s' rest M') as (St & t & p & E). destruct fuel as [|fuel]; [cbn in Fu; lia|].
    rewrite (arglist_word fuel _ _ a _ t p Wa St E).
    rewrite (IH s' fuel _ a _ rest t p W' M' E); [|by intros ->; destruct Wa|rewrite length_app; cbn; lia|cbn in Fu; lia].
    cbn [map]. by rewrite Ec, <- app_assoc.
Qed.

Lemma more_length (args : list (list ascii)) (s : list ascii) : Forall word args -> more_text args s -> 2 * length args < length s.
Proof.
  intros W M. revert W. induction M as [b B|b1 b2 a args s B1 B2 M IH]; intros W; rewrite length_app; cbn [length]; [lia|]. inversion_clear W as [|? ? Wa W']. specialize (IH W'). rewrite !length_app.
  destruct a as [|c a]; [by destruct Wa|]. cbn [length]. lia.
Qed.

Lemma arglist_text (args : list (list ascii)) (s rest : list ascii) : Forall word args -> args_text args s -> length args <= CR_MAXARGS ->
  exists t p, crule_gettoken (s ++ rest) NUL = (CR_NOERR, t, p) /\ crule_parsearglist (S (S (length p))) [] [] 0 t p = Ok (CR_NOERR, map collapse args, CR_CLOSEPAREN, rest).
Proof.
  intros W A L. destruct A as [b B|b a args s B M]; rewrite <- !app_assoc, gettoken_skip by done; [by eexists _, _|].
  inversion_clear W as [|? ? Wa W']. rewrite gettoken_word by done. eexists _, _. split; [reflexivity|].
  destruct (gettoken_more args s rest M) as (St & t & p & E). rewrite (arglist_word _ [] 0 a _ t p Wa St E).
  apply (arglist_more args s _ [] a (length a) rest t p W' M E); [by intros ->; destruct Wa|cbn in L; unfold CR_MAXARGS in *; cbn; lia|].
  pose proof (more_length args s W' M). rewrite !length_app. lia.
Qed.

(** Function names. *)
Definition name_letters : list ascii := cstr "conetdirvap".
Lemma letter_word (c : ascii) : existsb (Ascii.eqb (ToLower c)) name_letters = true -> word_start c = true /\ c <> "|"%char.
Proof.
  intros H. enough (negb (existsb (Ascii.eqb (ToLower c)) name_letters) || (word_start c && negb (c =c "|")) = true) as E.
  { rewrite H in E. cbn in E. apply andb_true_iff in E as [E1 E2]. split; [done|]. intros ->. done. }
  apply (forall_chars (fun c => negb (existsb (Ascii.eqb (ToLower c)) name_letters) || (word_start c && negb (c =c "|")))). vm_compute. reflexivity.
Qed.

Lemma name_letter (f : crule_func) (fname : list ascii) : fold fname = fold (func_name f) ->
  forallb (fun c => existsb (Ascii.eqb (ToLower c)) name_letters) fname = true.
Proof.
  intros E. assert (forallb (fun c => existsb (Ascii.eqb c) name_letters) (fold fname) = true) as H by (rewrite E; destruct f; vm_compute; reflexivity).
  revert H. unfold fold. clear. induction fname as [|c l IH]; cbn [map forallb]; [done|]. intros [H1 H2]%andb_true_iff. by rewrite H1, IH.
Qed.

Lemma name_word (f : crule_func) (fname : list ascii) : fold fname = fold (func_name f) -> word fname.
Proof.
  intros E. pose proof (name_letter f fname E) as A. rewrite forallb_forall in A.
  assert (length fname = length (func_name f)) as L by (unfold fold in E; apply (f_equal length) in E; by rewrite !length_map in E).
  split; [|split].
  - destruct fname as [|c l]; [destruct f; done|]. apply letter_word, A. by left.
  - apply forallb_forall. intros c Hc. apply word_start_char, letter_word, A, Hc.
  - destruct f; cbn in L; unfold CR_MAXARGLEN; lia.
Qed.

Lemma find_func_name (f : crule_func) (fname : list ascii) : fold fname = fold (func_name f) ->
  find_func crule_funclist fname = Some (FuncEnt (func_name f) (arity f) (Some f)).
Proof.
  intros E. assert (no_nul fname) as NN.
  { apply Forall_no_nul, Forall_forall. intros c Hc. destruct (name_word f fname E) as (_ & W & _). rewrite forallb_forall in W.
    by apply word_char_nul, W, list_elem_of_In. }
  assert (forall n, no_nul n -> (ircd_strcmp n fname =? 0)%Z = bool_decide (fold n = fold (func_name f))) as D.
  { intros n Nn. apply eq_true_iff_eq. rewrite Z.eqb_eq, bool_decide_eq_true, <- E. by apply ircd_strcmp_zero. }
  assert (forall s, existsb (Ascii.eqb NUL) (cstr s) = false -> no_nul (cstr s)) as NC.
  { intros s H Hin. apply not_true_iff_false in H. apply H, existsb_exists. exists NUL. by split; [apply list_elem_of_In|]. }
  unfold crule_funclist. cbn [find_func name]. rewrite !D by (by apply NC). destruct f; vm_compute; reflexivity.
Qed.

Lemma gettoken_open (p : list ascii) : crule_gettoken ("("%char :: p) NUL = (CR_NOERR, CR_OPENPAREN, p).
Proof. done. Qed.

Lemma function_text (f : crule_func) (fname : list ascii) (args : list (list ascii)) (b s rest : list ascii) t q :
  fold fname = fold (func_name f) -> length args = arity f -> Forall word args -> blanks b -> args_text args s -> crule_gettoken rest NUL = (CR_NOERR, t, q) ->
  crule_parsefunction CR_WORD (fname ++ b ++ "("%char :: s ++ rest) = Ok (CR_NOERR, Node (crule_call (Some f) (map collapse args)), t, q).
Proof.
  intros E L W B A Er. pose proof (name_word f fname E) as (_ & Wn & Ln). unfold crule_parsefunction.
  rewrite getword_word by (done || (by apply stops_blanks) || (unfold CR_MAXARGLEN in *; lia)).
  rewrite gettoken_skip, gettoken_open, !decide_True, (find_func_name f fname E) by done.
  destruct (arglist_text args s rest W A) as (t1 & p1 & E1 & Ea); [rewrite L; destruct f; cbn; unfold CR_MAXARGS; lia|]. rewrite E1, decide_True by done.
  rewrite Ea. cbn [obind]. rewrite !decide_True by done. cbn [reqnumargs]. rewrite length_map, L, Nat.eqb_refl, Er. by rewrite decide_True.
Qed.

Definition root (left : option CRuleNode) (is_or : bool) : slot :=
  match left with None => Null | Some l => Node (crule_andor (Node l) Unset is_or) end.

Lemma extend_root (left : option CRuleNode) (n : CRuleNode) (is_or : bool) :
  extend (root left is_or) (Node n) is_or = root (Some (join_left left n is_or)) is_or.
Proof. by destruct left. Qed.
Lemma finish_root (left : option CRuleNode) (n : CRuleNode) (is_or : bool) e m t p :
  finish (root left is_or) (Node n) e m t p = (e, Node (join_left left n is_or), t, p).
Proof. by destruct left. Qed.

Lemma starts :
  (forall o, wf_or o -> forall s rest, or_text o s -> exists t p, crule_gettoken (s ++ rest) NUL = (CR_NOERR, t, p)) /\
  (forall a, wf_and a -> forall s rest, and_text a s -> exists t p, crule_gettoken (s ++ rest) NUL = (CR_NOERR, t, p)) /\
  (forall p, wf_prim p -> forall s rest, prim_text p s -> exists t q, crule_gettoken (s ++ rest) NUL = (CR_NOERR, t, q)).
Proof.
  apply grammar_ind; cbn [wf_or wf_and wf_prim].
  - intros a IH W s rest T. inversion_clear T. by apply IH.
  - intros a IHa o _ [W _] s rest T. inversion_clear T. rewrite <- app_assoc. by apply IHa.
  - intros p IH W s rest T. inversion_clear T. by apply IH.
  - intros p IHp a _ [W _] s rest T. inversion_clear T. rewrite <- app_assoc. by apply IHp.
  - intros f fname args (E & _) s rest T. inversion_clear T. rewrite <- !app_assoc, gettoken_skip, gettoken_word by (done || by eapply name_word). eauto.
  - intros p _ _ s rest T. inversion_clear T. rewrite <- app_assoc, gettoken_skip by done. cbn. eauto.
  - intros o _ _ s rest T. inversion_clear T. rewrite <- app_assoc, gettoken_skip by done. cbn. eauto.
Qed.

Lemma words_of (args : list (list ascii)) : Forall (fun a => word a /\ mask_ok (collapse a) = true) args -> Forall word args.
Proof. intros H. eapply Forall_impl; [exact H|]. by intros a [? _]. Qed.

Lemma parse_text :
  (forall o, wf_or o -> forall s left fuel rest t p t1 q1, or_text o s -> crule_gettoken (s ++ rest) NUL = (CR_NOERR, t, p) ->
     crule_gettoken rest NUL = (CR_NOERR, t1, q1) -> t1 <> CR_OR -> t1 <> CR_AND -> 3 * weight t p + 3 <= fuel ->
     crule_parseorexpr fuel (root left true) t p = Ok (CR_NOERR, Node (tree_or left o), t1, q1)) /\
  (forall a, wf_and a -> forall s left fuel rest t p t1 q1, and_text a s -> crule_gettoken (s ++ rest) NUL = (CR_NOERR, t, p) ->
     crule_gettoken rest NUL = (CR_NOERR, t1, q1) -> t1 <> CR_AND -> 3 * weight t p + 2 <= fuel ->
     crule_parseandexpr fuel (root left false) t p = Ok (CR_NOERR, Node (tree_and left a), t1, q1)) /\
  (forall x, wf_prim x -> forall s nested fuel rest t p t1 q1, prim_text x s -> crule_gettoken (s ++ rest) NUL = (CR_NOERR, t, p) ->
     crule_gettoken rest NUL = (CR_NOERR, t1, q1) -> 3 * weight t p + 1 <= fuel ->
     crule_parseprimary fuel nested t p = Ok (CR_NOERR, Node (tree_prim x), t1, q1)).
Proof.
  apply grammar_ind; cbn [wf_or wf_and wf_prim tree_or tree_and tree_prim].
  - intros a IH W s left fuel rest t p t1 q1 T E Er N1 N2 Fu. inversion T; subst. destruct fuel as [|fuel]; [lia|]. cbn [crule_parseorexpr].
    change Null with (root None false). rewrite (IH W s None fuel rest t p t1 q1) by (done || lia). cbn [obind]. rewrite decide_False by (by intros [_ ?]). by rewrite finish_root.
  - intros a IHa o IHo [Wa Wo] s left fuel rest t p t1 q1 T E Er N1 N2 Fu. inversion T as [|? ? sa b1 b2 so Ta B1 B2 To]; subst. rewrite <- app_assoc in E. destruct fuel as [|fuel]; [lia|]. cbn [crule_parseorexpr].
    destruct (proj1 starts o Wo so rest To) as (t2 & p2 & E2). pose proof (proj1 (gettoken_double b1 b2 (so ++ rest) B1 B2)) as Ed. rewrite <- app_assoc, <- app_comm_cons, <- app_assoc in E. cbn [app] in E.
    assert (crule_parseandexpr fuel Null t p = Ok (CR_NOERR, Node (tree_and None a), CR_OR, so ++ rest)) as Ea by (eapply (IHa Wa sa None fuel); [done|exact E|exact Ed|done|lia]).
    pose proof (proj1 (proj2 (parse_moves fuel)) Null t p (proj2 (gettoken_weight _ _ _ _ _ E)) ltac:(lia)) as Mv. rewrite Ea in Mv. destruct Mv as [Mv _].
    apply gettoken_weight in E2 as G2. destruct G2 as [W2 _]. unfold weight in Mv at 1.
    rewrite Ea. cbn [obind]. rewrite decide_True by done. rewrite E2, decide_True, extend_root by done. eapply IHo; try done. lia.
  - intros x IH W s left fuel rest t p t1 q1 T E Er N1 Fu. inversion T; subst. destruct fuel as [|fuel]; [lia|]. cbn [crule_parseandexpr].
    rewrite (IH W s false fuel rest t p t1 q1) by (done || lia). cbn [obind]. rewrite decide_False by (by intros [_ ?]). by rewrite finish_root.
  - intros x IHx a IHa [Wx Wa] s left fuel rest t p t1 q1 T E Er N1 Fu. inversion T as [|? ? sx b1 b2 sa Tx B1 B2 Ta]; subst. rewrite <- app_assoc in E. destruct fuel as [|fuel]; [lia|]. cbn [crule_parseandexpr].
    destruct (proj1 (proj2 starts) a Wa sa rest Ta) as (t2 & p2 & E2). pose proof (proj2 (gettoken_double b1 b2 (sa ++ rest) B1 B2)) as Ed. rewrite <- app_assoc, <- app_comm_cons, <- app_assoc in E. cbn [app] in E.
    assert (crule_parseprimary fuel false t p = Ok (CR_NOERR, Node (tree_prim x), CR_AND, sa ++ rest)) as Ea by (eapply (IHx Wx sx false fuel); [done|exact E|exact Ed|lia]).
    pose proof (proj2 (proj2 (parse_moves fuel)) false t p (proj2 (gettoken_weight _ _ _ _ _ E)) ltac:(lia)) as Mv. rewrite Ea in Mv. destruct Mv as [Mv _].
    apply gettoken_weight in E2 as G2. destruct G2 as [W2 _]. unfold weight in Mv at 1.
    rewrite Ea. cbn [obind]. rewrite decide_True by done. rewrite E2, decide_True, extend_root by done. eapply IHa; try done. lia.
  - intros f fname args (En & L & W) s nested fuel rest t p t1 q1 T E Er Fu. inversion T; subst. destruct fuel as [|fuel]; [lia|].
    rewrite <- !app_assoc, gettoken_skip, gettoken_word in E by (done || by eapply name_word). injection E as <- <-. cbn [crule_parseprimary app].
    apply function_text; try done. by apply words_of.
  - intros x IH W s nested fuel rest t p t1 q1 T E Er Fu. inversion T as [|? b sx B Tx|]; subst. destruct fuel as [|fuel]; [lia|]. rewrite <- app_assoc, gettoken_skip in E by done. cbn in E. injection E as <- <-.
    cbn [crule_parseprimary]. destruct (proj2 (proj2 starts) x W sx rest Tx) as (t2 & p2 & E2). rewrite E2, decide_True by done.
    apply gettoken_weight in E2 as G2. destruct G2 as [W2 _]. unfold weight in Fu at 1. rewrite (IH W sx true fuel rest t2 p2 t1 q1) by (done || lia). done.
  - intros o IH W s nested fuel rest t p t1 q1 T E Er Fu. inversion T as [| |? b1 b2 so B1 B2 To]; subst. destruct fuel as [|fuel]; [lia|]. rewrite <- app_assoc, gettoken_skip in E by done. cbn in E. injection E as <- <-.
    rewrite <- !app_assoc in *. cbn [crule_parseprimary app] in *. destruct (proj1 starts o W so (b2 ++ ")"%char :: rest) To) as (t2 & p2 & E2). rewrite E2, decide_True by done.
    apply gettoken_weight in E2 as G2. destruct G2 as [W2 _]. unfold weight in Fu at 1.
    change Null with (root None true) at 1. rewrite (IH W so None fuel (b2 ++ ")"%char :: rest) t2 p2 CR_CLOSEPAREN rest) by (done || lia || by rewrite gettoken_skip). cbn [obind].
    rewrite !decide_True by done. by rewrite Er.
Qed.

(** C37: a rule written by the grammar in the file's header comment is parsed into a tree,
    and evaluating the tree gives what the rule says of the servers and operators known:
    [||] is the weakest operator, functions are found in any case, and their arguments are
    wildcard masks.  Any blanks may stand in front of any token, each token having its own,
    and inside [&&] and [||]; the rule ends with the text or a colon.  The arguments are
    words of less than [CR_MAXARGLEN] characters whose collapsed form [match] handles: no
    trailing backslash and no escape behind a star ([mask_ok]). *)
Theorem crule_correct (o : orexpr) (text b tail : list ascii) :
  wf_or o -> or_text o text -> blanks b -> (tail = [] \/ exists r, tail = ":"%char :: r) ->
  crule_parse (text ++ b ++ tail) = Ok (Some (tree_or None o)) /\
  forall net, crule_eval net (tree_or None o) = Ok (means_or net o).
Proof.
  intros W T B Tl. split; [|intros net; apply (proj1 (eval_spec net) o W None)].
  assert (exists q, crule_gettoken (b ++ tail) NUL = (CR_NOERR, CR_END, q)) as [q Et] by (rewrite gettoken_skip by done; destruct Tl as [->|[r ->]]; cbn; eauto).
  destruct (proj1 starts o W text (b ++ tail) T) as (t & p & E). unfold crule_parse. rewrite E, decide_True by done.
  apply gettoken_weight in E as G. destruct G as [Wt _].
  change Null with (root None true) at 1. rewrite (proj1 parse_text o W text None _ (b ++ tail) t p CR_END q T E Et) by (done || (unfold crule_fuel; lia)).
  cbn [obind]. by rewrite !decide_True.
Qed.

(** The rule [connected( *eu.under* ) || directop()] of [doc/readme.crules], a space on either
    side of the operator only. *)
Definition example_rule : orexpr :=
  OrMore (AndOne (Call crule_connected (cstr "connected") [cstr "*eu.under*"])) (OrOne (AndOne (Call crule_directop (cstr "directop") []))).
Definition example_net : network :=
  Network [Client (cstr "a.EU.undernet.org") true false false (cstr "hub.net")] [None; Some (Client (cstr "nick") false false false (cstr "nick"))].

Lemma crule_correct_witness :
  crule_parse (cstr "connected(*eu.under*) || directop()") = Ok (Some (tree_or None example_rule)) /\
  crule_eval example_net (tree_or None example_rule) = Ok true.
Proof.
  destruct (crule_correct example_rule (cstr "connected(*eu.under*) || directop()") [] []) as [P E].
  - cbn. repeat (split; [reflexivity|]). repeat split; repeat constructor; try (vm_compute; intuition congruence); vm_compute; lia.
  - apply (or_more _ _ (cstr "connected(*eu.under*)") [" "%char] [] (cstr " directop()")); [|by repeat constructor|by repeat constructor|]; repeat constructor.
    + apply (call_text _ (cstr "connected") [cstr "*eu.under*"] [] [] (cstr "*eu.under*)")); [constructor|constructor|]. apply (args_some [] (cstr "*eu.under*") [] [")"%char]); [constructor|]. apply (more_none []). constructor.
    + apply (call_text _ (cstr "directop") [] [" "%char] [] [")"%char]); [by repeat constructor|constructor|]. apply (args_none []). constructor.
  - constructor.
  - by left.
  - split; [exact P|exact (E example_net)].
Defined.

(** ** What is accepted *)

(** Accepted trees: no operand is left unset, a negation has its operand, and a call has a
    function with as many arguments as it takes, of characters a word can have and the
    blanks between words. *)
Definition arg_char (c : ascii) : bool := word_char c || (c =c " ").
Definition arg_ok (a : list ascii) : Prop := a <> [] /\ forallb arg_char a = true.

Fixpoint typed (n : CRuleNode) : Prop :=
  match n with
  | crule_andor a b _ => typed_slot a /\ typed_slot b
  | crule_not a => a <> Null /\ typed_slot a
  | crule_call (Some f) args => length args = arity f /\ Forall arg_ok args
  | crule_call None _ => False
  end
with typed_slot (s : slot) : Prop := match s with Null => True | Unset => False | Node n => typed n end.

(** Both operands are there and [match] handles the masks. *)
Fixpoint usable (n : CRuleNode) : bool :=
  match n with
  | crule_andor a b _ => usable_slot a && usable_slot b
  | crule_not a => usable_slot a
  | crule_call _ args => forallb mask_ok args
  end
with usable_slot (s : slot) : bool := match s with Node n => usable n | Null | Unset => false end.

(** The argument being put together. *)
Lemma getword_chars (n : nat) (p w q : list ascii) : crule_getword n p = (w, q) -> forallb word_char w = true.
Proof.
  revert p w q. induction n as [|n IH]; intros p w q; destruct p as [|c p]; cbn [crule_getword]; try (by intros [= <- <-]).
  destruct (IsAlnum c || is_mask_char c) eqn:C; [|by intros [= <- <-]]. destruct (crule_getword n p) as [w' q'] eqn:E. intros [= <- <-]. cbn [forallb]. apply IH in E. rewrite E. unfold word_char. by rewrite C.
Qed.
Lemma word_arg (w : list ascii) : forallb word_char w = true -> forallb arg_char w = true.
Proof. rewrite !forallb_forall. intros H c Hc. unfold arg_char. by rewrite H. Qed.

Lemma collapse_arg (cur : list ascii) : forallb arg_char cur = true -> forallb arg_char (collapse cur) = true.
Proof. rewrite !forallb_forall, <- !List.Forall_forall. intros H. by apply collapse_chars. Qed.

Lemma arglist_args (fuel : nat) : forall args cur len t p, Forall arg_ok args -> forallb arg_char cur = true -> good t p ->
  match crule_parsearglist fuel args cur len t p with Ok (_, args', t', q) => Forall arg_ok args' /\ good t' q | _ => True end.
Proof.
  induction fuel as [|fuel IH]; intros args cur len t p A C G; [done|]. cbn [crule_parsearglist]. destruct (decide (t = CR_WORD)) as [->|N].
  - destruct (crule_getword _ p) as [word p1] eqn:E1. apply getword_chars, word_arg in E1. destruct (match cur with [] => _ | _ => _ end) as [cur' len'] eqn:Ec.
    assert (forallb arg_char cur' = true) as C'. { destruct cur as [|c cur]; [by injection Ec as <- <-|]. case_if_in Ec; injection Ec as <- <-; [|done]. rewrite app_comm_cons, forallb_app, C. cbn [forallb]. by rewrite E1. }
    destruct (crule_gettoken p1 NUL) as [[e t2] p2] eqn:E2. apply gettoken_weight in E2 as [_ G2]. destruct (decide _); [by apply IH|by split].
  - destruct (match collapse cur with [] => _ | _ => _ end) as [args'| |] eqn:Ea; cbn [obind]; [|done|done].
    assert (Forall arg_ok args') as A'. { apply collapse_arg in C. destruct (collapse cur) as [|c cur']; [by injection Ea as <-|]. case_if_in Ea; [|done]. injection Ea as <-. apply Forall_app. split; [done|]. by repeat constructor. }
    destruct (decide (t = CR_COMMA)) as [->|]; [|by split]. destruct (crule_gettoken p NUL) as [[e t2] p2] eqn:E2. apply gettoken_weight in E2 as [_ G2]. destruct (decide _); [by apply IH|by split].
Qed.

(** A name that is not empty is found only as one of the four functions. *)
Lemma find_func_some (w : list ascii) (f : crule_funclistent) : w <> [] -> forallb word_char w = true -> find_func crule_funclist w = Some f -> exists g, reqnumargs f = arity g /\ funcptr f = Some g.
Proof.
  intros N W. unfold crule_funclist. cbn [find_func name cstr String.list_ascii_of_string]. repeat case_if; intros [= <-]; cbn [reqnumargs funcptr]; try (by eexists; split; [|reflexivity]); exfalso.
  assert (no_nul w) as NN by (apply Forall_no_nul, Forall_forall; intros c Hc; rewrite forallb_forall in W; by apply word_char_nul, W, list_elem_of_In).
  match goal with H : (ircd_strcmp [] w =? 0)%Z = true |- _ => apply Z.eqb_eq, ircd_strcmp_zero in H; [|by apply not_elem_of_nil|done]; by destruct w end.
Qed.

(** What every parsing function gives when it reports no error. *)
Definition sound (nested : bool) (r : outcome presult) : Prop :=
  match r with Ok (e, s, t, q) => good t q /\ (e = CR_NOERR -> typed_slot s /\ (nested = true -> s <> Null)) | _ => True end.

Lemma parsefunction_sound (nested : bool) (p : list ascii) : good CR_WORD p -> sound nested (crule_parsefunction CR_WORD p).
Proof.
  intros G. unfold crule_parsefunction. destruct (crule_getword _ p) as [fname p1] eqn:E1. pose proof (getword_chars _ _ _ _ E1) as Wn. pose proof (getword_split _ _ _ _ E1) as Sp. apply getword_progress in E1; [|done].
  assert (fname <> []) as Nn by (intros ->; subst p; cbn in E1; lia). destruct (crule_gettoken p1 NUL) as [[e t2] p2] eqn:E2. apply gettoken_weight in E2 as [_ G2].
  destruct (decide (e = CR_NOERR)) as [->|]; [|by split]. destruct (decide (t2 = CR_OPENPAREN)) as [->|]; [|by split]. destruct (find_func _ _) as [f|] eqn:Ef; [|by split]. apply find_func_some in Ef as (g & Ra & Fg); [|done|done].
  destruct (crule_gettoken p2 NUL) as [[e3 t3] p3] eqn:E3. apply gettoken_weight in E3 as [_ G3]. destruct (decide (e3 = CR_NOERR)) as [->|]; [|by split].
  pose proof (arglist_args (S (S (length p3))) [] [] 0 t3 p3 ltac:(constructor) eq_refl G3) as A. destruct (crule_parsearglist _ [] [] 0 t3 p3) as [[[[e4 args] t4] p4]| |]; cbn [obind]; [|done|done]. destruct A as [Ao G4].
  destruct (decide (e4 = CR_NOERR)) as [->|]; [|by split]. destruct (decide (t4 = CR_CLOSEPAREN)) as [->|]; [|by split]. destruct (Nat.eqb_spec (reqnumargs f) (length args)) as [La|]; [|by split].
  destruct (crule_gettoken p4 NUL) as [[e5 t5] p5] eqn:E5. apply gettoken_weight in E5 as [_ G5]. destruct (decide (e5 = CR_NOERR)); [|by split]. split; [done|]. intros _. rewrite Fg. split; [|done]. cbn [typed_slot typed]. split; [congruence|done].
Qed.

Definition open_root (s : slot) : Prop := match s with Null => True | Node (crule_andor a Unset _) => typed_slot a | _ => False end.

Lemma extend_open (root operand : slot) (is_or : bool) : open_root root -> typed_slot operand -> open_root (extend root operand is_or).
Proof. intros R T. by destruct root as [| |[a [| |] o| |]]. Qed.
Lemma finish_sound (root operand : slot) (e missing : crule_errcode) (t : crule_token) (p : list ascii) : open_root root -> (e = CR_NOERR -> typed_slot operand) -> missing <> CR_NOERR -> good t p ->
  sound false (Ok (finish root operand e missing t p)).
Proof.
  intros R T M G. destruct root as [| |[a [| |] o| |]]; try done; cbn [finish]; [by split; [|split; [auto|]]|]. destruct operand as [| |n]; (split; [done|]); intros E; [done|by destruct (T E)|]. split; [|done]. split; [done|]. by apply (T E).
Qed.

Lemma parse_sound (fuel : nat) :
  (forall root t p, open_root root -> good t p -> sound false (crule_parseorexpr fuel root t p)) /\
  (forall root t p, open_root root -> good t p -> sound false (crule_parseandexpr fuel root t p)) /\
  (forall nested t p, good t p -> sound nested (crule_parseprimary fuel nested t p)).
Proof.
  induction fuel as [|fuel (IHo & IHa & IHp)]; [done|]. split; [|split].
  - intros root t p R G. cbn [crule_parseorexpr]. specialize (IHa Null t p I G). destruct (crule_parseandexpr fuel Null t p) as [[[[e s] t1] p1]| |]; cbn [obind]; [|done|done]. destruct IHa as [G1 T1].
    destruct (decide _) as [[-> ->]|]; [|apply finish_sound; try done; intros E; by apply T1]. destruct (crule_gettoken p1 NUL) as [[e2 t2] p2] eqn:E2. apply gettoken_weight in E2 as [_ G2].
    destruct (decide _); [|by split]. apply IHo; [|done]. apply extend_open; [done|by apply T1].
  - intros root t p R G. cbn [crule_parseandexpr]. specialize (IHp false t p G). destruct (crule_parseprimary fuel false t p) as [[[[e s] t1] p1]| |]; cbn [obind]; [|done|done]. destruct IHp as [G1 T1].
    destruct (decide _) as [[-> ->]|]; [|apply finish_sound; try done; intros E; by apply T1]. destruct (crule_gettoken p1 NUL) as [[e2 t2] p2] eqn:E2. apply gettoken_weight in E2 as [_ G2].
    destruct (decide _); [|by split]. apply IHa; [|done]. apply extend_open; [done|by apply T1].
  - intros nested t p G. cbn [crule_parseprimary]. destruct t; try (by split; [|destruct nested]); [| |by apply parsefunction_sound];
      (destruct (crule_gettoken p NUL) as [[e2 t2] p2] eqn:E2; apply gettoken_weight in E2 as [_ G2]; destruct (decide _) as [->|]; [|by split]).
    + specialize (IHp true t2 p2 G2). destruct (crule_parseprimary fuel true t2 p2) as [[[[e s] t1] p1]| |]; cbn [obind]; [|done|done]. destruct IHp as [G1 T1]. split; [done|]. intros E. destruct (T1 E) as [T N]. split; [|done]. split; [by apply N|done].
    + specialize (IHo Null t2 p2 I G2). destruct (crule_parseorexpr fuel Null t2 p2) as [[[[e s] t1] p1]| |]; cbn [obind]; [|done|done]. destruct IHo as [G1 T1]. destruct (decide _) as [->|]; [|by split].
      destruct (T1 eq_refl) as [T _]. destruct s as [| |n]; [by split|done|]. destruct (decide _); [|by split]. destruct (crule_gettoken p1 NUL) as [[e3 t3] p3] eqn:E3. apply gettoken_weight in E3 as [_ G3]. by split.
Qed.

(** Evaluation of an accepted tree. *)
Lemma arg_match (a n : list ascii) : arg_ok a -> mask_ok a = true -> exists r, match_ a n = Ok r.
Proof.
  intros [_ A] M. rewrite match_decides; [eauto| |done]. apply Forall_no_nul, Forall_forall. intros c Hc. rewrite forallb_forall in A. intros ->. by specialize (A NUL (proj1 (list_elem_of_In _ _) Hc)).
Qed.

Lemma run_func_ok (net : network) (f : crule_func) (args : list (list ascii)) : length args = arity f -> Forall arg_ok args -> forallb mask_ok args = true -> exists b, run_func net f args = Ok b.
Proof.
  intros L A M. assert (forall a n, a ∈ args -> exists r, match_ a n = Ok r) as Mt. { rewrite forallb_forall in M. intros a n Ha. rewrite List.Forall_forall in A. apply list_elem_of_In in Ha. apply arg_match; auto. } clear A M.
  destruct f; cbn [arity] in L; (destruct args as [|a args]; [try done|try done]); cbn [run_func].
  - induction (GlobalClientList net) as [|c l IH]; cbn [connected_loop]; [eauto|]. case_if; [done|]. destruct (Mt a (cli_name c)) as [r ->]; [by left|]. cbn [obind]. case_if; eauto.
  - induction (LocalClientArray net) as [|[c|] l IH]; cbn [directcon_loop]; [eauto| |done]. case_if; [done|]. destruct (Mt a (cli_name c)) as [r ->]; [by left|]. cbn [obind]. case_if; eauto.
  - destruct args as [|b args]; [done|]. induction (GlobalClientList net) as [|c l IH]; cbn [via_loop]; [eauto|]. case_if; [done|]. destruct (Mt b (cli_name c)) as [r ->]; [by right; left|]. cbn [obind]. case_if; [done|].
    destruct (Mt a (from_name c)) as [r2 ->]; [by left|]. cbn [obind]. case_if; eauto.
  - eauto.
Qed.

Lemma eval_typed (net : network) : forall n, typed n -> usable n = true -> exists b, crule_eval net n = Ok b.
Proof.
  fix IH 1. intros [[| |n] [| |k] o|[| |n]|[f|] args]; cbn [typed typed_slot usable usable_slot andb crule_eval eval_slot]; try (by intros; rewrite ?andb_false_r in *).
  - intros [T1 T2] [U1 U2]%andb_true_iff. destruct (IH n T1 U1) as [b1 ->]. destruct (IH k T2 U2) as [b2 ->]. cbn [obind]. destruct o, b1; eauto.
  - intros [_ T] U. destruct (IH n T U) as [b ->]. cbn [obind]. eauto.
  - intros [L A] M. by apply run_func_ok.
Qed.

(** C38: the parser ends on every text, three calls per character being enough, and what it
    accepts is well typed: no operand is unset, and every call has a function of the table
    with exactly its number of arguments, none of them empty.  An accepted rule in which
    every operator has its operands, and whose masks [match] handles, can be evaluated on
    every network.  The parser is not safe on every text: an operator without a left operand
    is accepted with a null pointer that evaluation follows, a fourth argument is written
    behind the node, and an unreadable token after an operator makes it free a pointer it
    never set. *)
Theorem crule_parse_typed :
  (forall rule, crule_parse rule <> Fuel /\ forall n, crule_parse rule = Ok (Some n) -> typed n /\ (usable n = true -> forall net, exists b, crule_eval net n = Ok b)) /\
  (exists n, crule_parse (cstr "|| directop()") = Ok (Some n) /\ forall net, crule_eval net n = Oob) /\
  crule_parse (cstr "connected(a,b,c,d)") = Oob /\
  crule_parse (cstr "directop() || $") = Oob.
Proof.
  split; [|split; [eexists; split; [reflexivity|]; intros net; reflexivity|split; reflexivity]]. intros rule. split; [apply parse_ends|]. intros n E. assert (typed n) as T; [|split; [done|]; intros U net; by apply eval_typed].
  unfold crule_parse in E. destruct (crule_gettoken rule NUL) as [[e t] p] eqn:Eg. apply gettoken_weight in Eg as [_ G]. destruct (decide (e = CR_NOERR)); cbn [obind] in E; [|done].
  pose proof (proj1 (parse_sound (crule_fuel rule)) Null t p I G) as S. destruct (crule_parseorexpr _ Null t p) as [[[[e1 s] t1] p1]| |]; cbn [obind] in E; [|done|done]. destruct S as [_ S].
  destruct (decide (e1 = CR_NOERR)) as [->|Ne]; cbn [obind] in E.
  - destruct (S eq_refl) as [T _]. destruct s as [| |k]; [done|done|]. destruct (decide (t1 = CR_END)); cbn [obind] in E; [rewrite decide_True in E by done; by injection E as <-|]. rewrite decide_False in E by done. by destruct (crule_free k).
  - destruct s as [| |k]; [done|done|]. rewrite decide_False in E by done. by destruct (crule_free k).
Qed.
