(* ===== verification/MMatch.v ===== *)
(** * Comparing masks: [mmatch] of [ircd/match.c]

    Whether one wildcard mask makes another redundant.  Pointers into the masks are the
    suffixes they point at; the walk back over the old mask runs over the reversed
    prefix, and leaving a mask at either end is [Oob]. *)

From stdpp Require Import base functions list strings.
From Stdlib Require Import ZArith Lia Ascii.
From S2P Require Import Prelude Chattr Match.

Local Open Scope ircu_scope.

(** [\*] or [\?]: one character. *)
Definition is_escape (p : list ascii) : bool := (deref p =c "\") && ((deref1 p =c "*") || (deref1 p =c "?")).

Fixpoint skip_stars (m : list ascii) : list ascii :=
  match m with c :: m' => if c =c "*" then skip_stars m' else m | [] => [] end.

(** [for (m--; m > old_mask && *m == '?'; m--);] over the characters in front of [m],
    nearest first: the character stopped at and those in front of it. *)
Fixpoint walk_back (pre : list ascii) : outcome (ascii * list ascii) :=
  match pre with
  | [] => Oob
  | c :: rest => match rest with
                 | _ :: _ => if c =c "?" then walk_back rest else Ok (c, rest)
                 | [] => Ok (c, rest)
                 end
  end.

(** [n = ++na], over an escaped character as a whole. *)
Definition next_start (na : list ascii) : outcome (list ascii) :=
  let na := if is_escape na then tail na else na in
  match na with [] => Oob | _ :: na => Ok na end.

(** The comparison of two characters at the end of the loop body; [k] is the loop. *)
Definition compare (k : list ascii -> list ascii -> list ascii -> list ascii -> bool -> outcome Z)
    (m n ma na : list ascii) (wild : bool) : outcome Z :=
  let mq := is_escape m in
  let m := if mq then tail m else m in
  let nq := is_escape n in
  let n := if nq then tail n else n in
  if ((deref m =c "*") && negb mq)
     || ((negb mq || nq) && (ToLower (deref m) =c ToLower (deref n)))
     || ((deref m =c "?") && negb mq && (negb (deref n =c "*") || nq))
  then k (tail m) (tail n) ma na wild
  else if negb wild then Ok 1%Z
  else let* na := next_start na in k ma na ma na wild.

Fixpoint mmatch_loop (fuel : nat) (old_mask m n ma na : list ascii) (wild : bool) : outcome Z :=
  match fuel with
  | O => Fuel
  | S fuel =>
      let '(m, ma, na, wild) :=
        if deref m =c "*" then let m := skip_stars m in (m, m, n, true) else (m, ma, na, wild) in
      match m, n with
      | [], [] => Ok 0%Z
      | [], _ :: _ =>
          let* (c, front) := walk_back (rev (take (length old_mask - length m) old_mask)) in
          if (c =c "*") && match front with d :: _ => negb (d =c "\") | [] => false end then Ok 0%Z
          else if negb wild then Ok 1%Z
          else let* na := next_start na in compare (mmatch_loop fuel old_mask) ma na ma na wild
      | _ :: _, [] => Ok (match skip_stars m with [] => 0%Z | _ => 1%Z end)
      | _ :: _, _ :: _ => compare (mmatch_loop fuel old_mask) m n ma na wild
      end
  end.

Definition mmatch_fuel (new_mask : list ascii) : nat := S (S (length new_mask) * S (S (length new_mask)) + length new_mask).

Definition mmatch (old_mask new_mask : list ascii) : outcome Z :=
  mmatch_loop (mmatch_fuel new_mask) old_mask old_mask new_mask old_mask new_mask false.

Example mmatch_ex1 : mmatch (cstr "*!*@*.net") (cstr "a?!b@c.*.NET") = Ok 0%Z.
Proof. reflexivity. Qed.
Example mmatch_ex2 : mmatch (cstr "a?c*") (cstr "a*c") = Ok 1%Z.
Proof. reflexivity. Qed.
Example mmatch_ex3 : mmatch (cstr "a*?") (cstr "ab*") = Ok 0%Z.
Proof. reflexivity. Qed.

(** ** Masks without backslashes *)
Definition plain (m : list ascii) : Prop := Forall (fun c => c <> "\"%char /\ c <> NUL) m.

Definition tok1 (c : ascii) : tok := if c =c "*" then Star else if c =c "?" then Any else Lit c.

Lemma tokens_map (m : list ascii) : plain m -> tokens m = map tok1 m.
Proof.
  induction 1 as [|c m [Hc _] _ IH]; cbn [tokens map]; [done|]. apply Ascii.eqb_neq in Hc. rewrite Hc, IH. unfold tok1. by repeat case_if.
Qed.

Definition lang (m s : list ascii) : bool := glob (map tok1 m) s.

Lemma mask_lang (m s : list ascii) : plain m -> mask_matches m s = lang m s.
Proof. intros P. unfold mask_matches, lang. by rewrite tokens_map. Qed.

Lemma plain_app (m n : list ascii) : plain (m ++ n) <-> plain m /\ plain n.
Proof. apply Forall_app. Qed.

Lemma lang_app (m n s : list ascii) : lang (m ++ n) s = true <-> exists s1 s2, s = s1 ++ s2 /\ lang m s1 = true /\ lang n s2 = true.
Proof. unfold lang. rewrite map_app. apply glob_app. Qed.

Lemma lang_star_all (s : list ascii) : lang ["*"%char] s = true.
Proof. unfold lang. cbn. induction s as [|c s IH]; cbn; [done|exact IH]. Qed.

(** One character of the old mask against one of the new. *)
Definition cmatch (a b : ascii) : bool := (ToLower a =c ToLower b) || ((a =c "?") && negb (b =c "*")).

Definition not_star (c : ascii) : bool := negb (c =c "*").

(** Wildcards have no other case. *)
Lemma fold_wild (a w : ascii) : is_wild w = true -> ToLower a = ToLower w -> a = w.
Proof.
  intros W E. apply Ascii.eqb_eq. enough (negb (is_wild w && (ToLower a =c ToLower w)) || (a =c w) = true) as F.
  { rewrite W, E, Ascii.eqb_refl in F. exact F. }
  assert (w = "*"%char \/ w = "?"%char) as [->| ->] by (unfold is_wild in W; apply orb_true_iff in W as [W|W]; apply Ascii.eqb_eq in W; auto).
  - apply (forall_chars (fun a => negb (true && (ToLower a =c ToLower "*")) || (a =c "*"))). vm_compute. reflexivity.
  - apply (forall_chars (fun a => negb (true && (ToLower a =c ToLower "?")) || (a =c "?"))). vm_compute. reflexivity.
Qed.

Lemma cmatch_cases (a b : ascii) : not_star a = true -> cmatch a b = true ->
  not_star b = true /\ (a = "?"%char \/ is_wild a = false /\ is_wild b = false /\ ToLower a = ToLower b).
Proof.
  unfold cmatch, not_star. intros Ha [E|[Ea Eb]%andb_true_iff]%orb_true_iff; [|split; [done|]; left; by apply Ascii.eqb_eq].
  apply Ascii.eqb_eq in E. destruct (is_wild b) eqn:Wb.
  - apply (fold_wild a b Wb) in E as ->. split; [done|]. unfold is_wild in Wb. apply orb_true_iff in Wb as [Wb|Wb]; [by rewrite Wb in Ha|]. left. by apply Ascii.eqb_eq.
  - unfold is_wild in Wb. apply orb_false_iff in Wb as [W1 W2]. rewrite W1. split; [done|]. right. split; [|done].
    destruct (is_wild a) eqn:Wa; [|done]. symmetry in E. apply (fold_wild b a Wa) in E as ->. unfold is_wild in Wa. by rewrite W1, W2 in Wa.
Qed.

Lemma tok1_incl (a b c : ascii) : not_star a = true -> cmatch a b = true -> tok_char (tok1 b) c = true -> tok_char (tok1 a) c = true.
Proof.
  intros Ha E H. destruct (cmatch_cases a b Ha E) as [_ [->|(Wa & Wb & F)]]; [done|]. unfold tok1, is_wild in *.
  apply orb_false_iff in Wa as [-> ->]. apply orb_false_iff in Wb as [W1 W2]. rewrite W1, W2 in H. cbn in *. by rewrite F.
Qed.

Lemma lang_cons (c : ascii) (m s : list ascii) : not_star c = true ->
  lang (c :: m) s = match s with [] => false | d :: s' => tok_char (tok1 c) d && lang m s' end.
Proof. unfold lang, not_star, tok1. intros H. cbn [map]. destruct (c =c "*"); [done|]. destruct (c =c "?"); by destruct s. Qed.

(** ** The search, seen on characters

    [mglob old new]: the old mask matches the new one read as a string, where [?] takes
    anything but a star. *)
Fixpoint mglob (m : list ascii) : list ascii -> bool :=
  match m with
  | [] => fun n => match n with [] => true | _ => false end
  | a :: m' =>
      if a =c "*" then
        (fix star (n : list ascii) : bool := mglob m' n || match n with [] => false | _ :: n' => star n' end)
      else fun n => match n with [] => false | b :: n' => cmatch a b && mglob m' n' end
  end.

Lemma mglob_star (m n : list ascii) : mglob ("*"%char :: m) n = mglob m n || match n with [] => false | _ :: n' => mglob ("*"%char :: m) n' end.
Proof. by destruct n. Qed.

Lemma mglob_cons (a : ascii) (m n : list ascii) : not_star a = true ->
  mglob (a :: m) n = match n with [] => false | b :: n' => cmatch a b && mglob m n' end.
Proof. unfold not_star. intros H. cbn [mglob]. by destruct (a =c "*"). Qed.

Lemma mglob_star_elim (m n : list ascii) : mglob ("*"%char :: m) n = true <-> exists n', n' `suffix_of` n /\ mglob m n' = true.
Proof.
  induction n as [|b n IH]; rewrite mglob_star.
  - rewrite orb_false_r. split; [intros H; by exists []|]. intros (n' & ->%suffix_nil_inv & H). done.
  - rewrite orb_true_iff, IH. split.
    + intros [H|(n' & [k ->] & H)]; [by exists (b :: n)|]. exists n'. split; [by exists (b :: k)|done].
    + intros (n' & [[|c k] E] & H); [cbn in E; left; congruence|]. injection E as <- ->. right. exists n'. split; [by exists k|done].
Qed.

(** Stars met one after the other are one star. *)
Lemma mglob_skip (m n : list ascii) : mglob ("*"%char :: skip_stars m) n = mglob ("*"%char :: m) n.
Proof.
  induction m as [|c m IH]; [done|]. cbn [skip_stars]. destruct (Ascii.eqb_spec c "*") as [->|N]; [|done]. rewrite IH. symmetry.
  apply eq_true_iff_eq. rewrite !mglob_star_elim. split.
  - intros (n' & S & (n'' & S' & H)%mglob_star_elim). exists n''. split; [by etransitivity|done].
  - intros (n' & S & H). exists n'. split; [done|]. apply mglob_star_elim. by exists n'.
Qed.

Definition pairs (B D : list ascii) : Prop := Forall2 (fun a b => not_star a = true /\ cmatch a b = true) B D.

Lemma mglob_pairs (B D m n : list ascii) : pairs B D -> mglob (B ++ m) (D ++ n) = mglob m n.
Proof. induction 1 as [|a b B D [Ha E] _ IH]; [done|]. cbn [app]. rewrite mglob_cons by done. by rewrite E, IH. Qed.

Lemma pairs_incl (B D s : list ascii) : pairs B D -> lang D s = true -> lang B s = true.
Proof.
  intros P. revert s. induction P as [|a b B D [Ha E] _ IH]; intros s; [done|]. destruct (cmatch_cases a b Ha E) as [Hb _].
  rewrite !lang_cons by done. destruct s as [|c s]; [done|]. intros [H1 H2]%andb_true_iff. rewrite (tok1_incl a b c Ha E H1). by apply IH.
Qed.

Lemma pairs_length (B D s : list ascii) : pairs B D -> lang D s = true -> length s = length B.
Proof.
  intros P. revert s. induction P as [|a b B D [Ha E] _ IH]; intros s; [by destruct s|]. destruct (cmatch_cases a b Ha E) as [Hb _].
  rewrite lang_cons by done. destruct s as [|c s]; [done|]. intros [_ H]%andb_true_iff. cbn. by rewrite (IH s H).
Qed.

Lemma mglob_short (m n : list ascii) : Forall (fun a => not_star a = true) m -> length n < length m -> mglob ("*"%char :: m) n = false.
Proof.
  intros F L. apply not_true_is_false. intros (n' & S & H)%mglob_star_elim. apply suffix_length in S.
  assert (length n' = length m) as E; [|lia]. clear - F H. revert n' H. induction F as [|a m Ha _ IH]; intros n'; [by destruct n'|].
  rewrite mglob_cons by done. destruct n' as [|b n']; [done|]. intros [_ H]%andb_true_iff. cbn. by rewrite (IH n' H).
Qed.

(** ** The loop *)
Section Loop.
Context (old new : list ascii).
Context (Po : plain old) (Pn : plain new) (Ne : old <> []).

(** What has been matched: [A] by [C], then [B] by [D] one character each. *)
Record at_ (m n ma na : list ascii) (wild : bool) : Prop := {
  st_split : exists A B C D, old = A ++ B ++ m /\ new = C ++ D ++ n /\ pairs B D /\ (forall s, lang C s = true -> lang A s = true) /\
    if wild then (exists A', A = A' ++ ["*"%char]) /\ ma = B ++ m /\ na = D ++ n else A = [] /\ C = [];
  st_goal : mglob old new = true -> (if wild then mglob ("*"%char :: ma) na else mglob m n) = true;
  st_head : wild = true -> match ma with [] => True | a :: _ => not_star a = true end;
  st_na : length na <= length new;
  st_n : length n <= length na
}.

Definition answers (r : outcome Z) : Prop :=
  exists z, r = Ok z /\ (z = 0%Z \/ z = 1%Z) /\ (z = 0%Z -> forall s, lang new s = true -> lang old s = true) /\ (mglob old new = true -> z = 0%Z).

Lemma answers_no : mglob old new <> true -> answers (Ok 1%Z).
Proof. intros H. exists 1%Z. split; [done|]. split; [by right|]. split; [done|]. intros G. by destruct H. Qed.

Lemma answers_yes : (forall s, lang new s = true -> lang old s = true) -> answers (Ok 0%Z).
Proof. intros H. exists 0%Z. split; [done|]. split; [by left|]. done. Qed.

(** A star absorbs. *)
Lemma star_absorbs (A' s t : list ascii) : lang (A' ++ ["*"%char]) s = true -> lang (A' ++ ["*"%char]) (s ++ t) = true.
Proof.
  rewrite !lang_app. intros (s1 & s2 & -> & H & _). exists s1, (s2 ++ t). split; [by rewrite app_assoc|]. split; [done|apply lang_star_all].
Qed.

Lemma plain_no_escape (p : list ascii) : plain p -> is_escape p = false.
Proof. intros P. unfold is_escape. destruct P as [|c p [N _] _]; [done|]. cbn [deref]. apply Ascii.eqb_neq in N. by rewrite N. Qed.

Lemma at_plain (m n ma na : list ascii) (wild : bool) : at_ m n ma na wild -> plain m /\ plain n /\ (wild = true -> plain ma /\ plain na).
Proof.
  intros [(A & B & C & D & Eo & En & _ & _ & W) _ _ _ _]. rewrite Eo in Po. rewrite En in Pn. apply plain_app in Po as [PA [PB Pm]%plain_app].
  apply plain_app in Pn as [PC [PD Pn']%plain_app]. split; [done|]. split; [done|]. intros ->. destruct W as (_ & -> & ->).
  by rewrite !plain_app.
Qed.

(** Both masks at an end. *)
Lemma at_done (ma na : list ascii) (wild : bool) : at_ [] [] ma na wild -> answers (Ok 0%Z).
Proof.
  intros [(A & B & C & D & Eo & En & P & I & _) _ _ _ _]. apply answers_yes. rewrite Eo, En, !app_nil_r. intros s. rewrite !lang_app.
  intros (s1 & s2 & -> & H1 & H2). exists s1, s2. split; [done|]. split; [by apply I|by apply (pairs_incl B D)].
Qed.

(** The next place where the part behind the last star may start. *)
Lemma at_retry (m n ma na : list ascii) : at_ m n ma na true -> mglob m n = false -> na <> [] ->
  exists b na', na = b :: na' /\ next_start na = Ok na' /\ at_ ma na' ma na' true.
Proof.
  intros X F Nn. pose proof (at_plain _ _ _ _ _ X) as (_ & _ & Pq). destruct (Pq eq_refl) as [_ Pna].
  destruct X as [(A & B & C & D & Eo & En & P & I & (A' & EA) & Ema & Ena) G Hd L1 L2].
  destruct na as [|b na']; [done|]. exists b, na'. split; [done|]. split; [unfold next_start; rewrite plain_no_escape by done; done|]. split; [| |done|cbn in *; lia|cbn in *; lia].
  - exists A, [], (C ++ [b]), []. rewrite <- app_assoc. cbn [app]. rewrite Eo, Ema. split; [done|]. split; [by rewrite Ena|]. split; [constructor|]. split; [|by split; [exists A'|]].
    intros s. rewrite lang_app. intros (s1 & s2 & -> & H1 & _). rewrite EA in *. by apply star_absorbs, I.
  - intros Go. specialize (G Go). cbn match in G. rewrite mglob_star in G. rewrite Ema in G at 1. rewrite Ena in G at 1.
    rewrite mglob_pairs, F in G by done. exact G.
Qed.

(** One character each. *)
Lemma at_step (a b : ascii) (m n ma na : list ascii) (wild : bool) : at_ (a :: m) (b :: n) ma na wild ->
  not_star a = true -> cmatch a b = true -> at_ m n ma na wild.
Proof.
  intros [(A & B & C & D & Eo & En & P & I & W) G Hd L1 L2] Ha E. split; [| |done|done|cbn in *; lia].
  - exists A, (B ++ [a]), C, (D ++ [b]). rewrite <- !app_assoc. split; [done|]. split; [done|]. split; [|split; [done|]].
    + apply Forall2_app; [done|]. by repeat constructor.
    + by destruct wild.
  - intros Go. specialize (G Go). destruct wild; [done|]. rewrite mglob_cons, E in G by done. exact G.
Qed.

(** A run of stars. *)
Lemma skip_stars_split (m : list ascii) : exists k, m = repeat "*"%char k ++ skip_stars m.
Proof.
  induction m as [|c m [k IH]]; [by exists O|]. cbn [skip_stars]. destruct (Ascii.eqb_spec c "*") as [->|]; [|by exists O].
  exists (S k). cbn. by f_equal.
Qed.
Lemma skip_stars_head (m : list ascii) : match skip_stars m with [] => True | a :: _ => not_star a = true end.
Proof. induction m as [|c m IH]; cbn [skip_stars]; [done|]. destruct (c =c "*") eqn:E; [done|]. unfold not_star. by rewrite E. Qed.

Lemma lang_stars (k : nat) (s : list ascii) : lang (repeat "*"%char (S k)) s = true.
Proof.
  induction k as [|k IH]; [apply lang_star_all|]. cbn [repeat]. change (lang (["*"%char] ++ repeat "*"%char (S k)) s = true).
  apply lang_app. exists [], s. split; [done|]. split; [done|exact IH].
Qed.

Lemma at_star (m n ma na : list ascii) (wild : bool) : at_ ("*"%char :: m) n ma na wild ->
  at_ (skip_stars m) n (skip_stars m) n true.
Proof.
  intros [(A & B & C & D & Eo & En & P & I & W) G Hd L1 L2]. destruct (skip_stars_split m) as [k Ek]. split; [| |intros _; apply skip_stars_head|lia|done].
  - exists (A ++ B ++ repeat "*"%char (S k)), [], (C ++ D), []. cbn [app]. rewrite <- !app_assoc.
    assert (repeat "*"%char (S k) = repeat "*"%char k ++ ["*"%char]) as R by (clear; induction k as [|k IH]; [done|]; cbn in *; by rewrite <- IH).
    split; [|split; [done|split; [constructor|split; [|split; [|done]]]]].
    + rewrite Eo. do 2 f_equal. cbn [repeat app]. by rewrite <- Ek.
    + intros s. rewrite lang_app. intros (s1 & s2 & -> & H1 & H2). apply lang_app. exists s1, s2. split; [done|]. split; [by apply I|].
      apply lang_app. exists s2, []. rewrite app_nil_r. split; [done|]. split; [by apply (pairs_incl B D)|apply lang_stars].
    + exists (A ++ B ++ repeat "*"%char k). by rewrite R, <- !app_assoc.
  - intros Go. specialize (G Go). rewrite mglob_skip. destruct wild; [|exact G]. destruct W as (_ & -> & ->). clear - G P.
    apply mglob_star_elim in G as (n1 & S1 & H). 
    assert (exists n2, n2 `suffix_of` n1 /\ length n2 + length B = length n1 /\ mglob ("*"%char :: m) n2 = true) as (n2 & S2 & L2 & H2).
    { clear - H P. revert n1 H. induction P as [|a b B D [Ha E] _ IH]; intros n1; cbn [app]; [intros H; exists n1; split; [done|]; split; [cbn; lia|done]|].
      rewrite mglob_cons by done. destruct n1 as [|c n1]; [done|]. intros [_ H]%andb_true_iff. destruct (IH n1 H) as (n2 & S & L & H2).
      exists n2. split; [by apply suffix_cons_r|]. split; [cbn; lia|done]. }
    apply mglob_star_elim in H2 as (n3 & S3 & H3). apply mglob_star_elim. exists n3. split; [|done].
    etransitivity; [exact S3|]. assert (n2 `suffix_of` D ++ n) as [u Eu] by (by etransitivity).
    pose proof (Forall2_length _ _ _ P) as LP. apply suffix_length in S1. rewrite length_app in S1.
    assert (length D <= length u) as LU by (apply (f_equal length) in Eu; rewrite !length_app in Eu; lia).
    exists (drop (length D) u). rewrite <- (take_drop (length D) u) in Eu at 1. rewrite <- app_assoc in Eu.
    apply app_inj_1 in Eu as [_ Eu]; [done|]. rewrite length_take. lia.
Qed.

(** *** The walk back *)
Lemma walk_back_spec (pre : list ascii) : pre <> [] -> exists k c front, walk_back pre = Ok (c, front) /\ pre = repeat "?"%char k ++ c :: front.
Proof.
  induction pre as [|c rest IH]; [done|]. intros _. cbn [walk_back]. destruct rest as [|d rest]; [by exists O, c, []|].
  destruct (Ascii.eqb_spec c "?") as [->|]; [|by exists O, c, (d :: rest)].
  destruct IH as (k & e & front & -> & E); [done|]. exists (S k), e, front. split; [done|]. cbn. by rewrite E.
Qed.

Lemma last_star (X Y X' Y' : list ascii) : X ++ "*"%char :: Y = X' ++ "*"%char :: Y' ->
  Forall (fun c => not_star c = true) Y -> Forall (fun c => not_star c = true) Y' -> Y = Y'.
Proof.
  revert X'. induction X as [|x X IH]; intros [|x' X'] E F F'; cbn in E.
  - by injection E.
  - injection E as <- E. rewrite E in F. apply Forall_app in F as [_ F]. by inversion F.
  - injection E as -> E. rewrite <- E in F'. apply Forall_app in F' as [_ F']. by inversion F'.
  - injection E as _ E. by apply (IH X').
Qed.

Lemma pairs_not_star (B D : list ascii) : pairs B D -> Forall (fun c => not_star c = true) B.
Proof. induction 1 as [|a b B D [Ha _] _ IH]; by constructor. Qed.

Lemma lang_any (k : nat) : forall s, length s = k -> lang (repeat "?"%char k) s = true.
Proof.
  induction k as [|k IH]; intros s L; [by destruct s|]. destruct s as [|c s]; [done|]. cbn [repeat]. rewrite lang_cons by done. cbn. apply IH. cbn in L. lia.
Qed.

(** The old mask ends in a star and question marks, and enough was matched. *)
Lemma at_tail (n ma na : list ascii) (wild : bool) (k : nat) (front : list ascii) : at_ [] n ma na wild ->
  old = rev front ++ "*"%char :: repeat "?"%char k -> forall s, lang new s = true -> lang old s = true.
Proof.
  intros [(A & B & C & D & Eo & En & P & I & W) _ _ _ _] Ef s. rewrite app_nil_r in Eo. pose proof (pairs_not_star B D P) as NB.
  assert (Forall (fun c => not_star c = true) (repeat "?"%char k)) as NR by (clear; induction k; by constructor).
  destruct wild.
  2:{ destruct W as [-> ->]. cbn in Eo. rewrite Eo in Ef. rewrite Ef in NB. apply Forall_app in NB as [_ NB]. by inversion NB. }
  destruct W as ((A' & EA) & _ & _). assert (B = repeat "?"%char k) as EB.
  { apply (last_star A' B (rev front)); [|done|done]. rewrite <- Ef, Eo, EA, <- app_assoc. done. }
  rewrite En, Eo, lang_app. intros (s1 & s' & -> & H1 & H'). apply lang_app in H' as (s2 & s3 & -> & H2 & _).
  pose proof (pairs_length B D s2 P H2) as L2. set (t := s2 ++ s3).
  assert (length t >= length B) as Lt by (unfold t; rewrite length_app; lia).
  apply lang_app. exists (s1 ++ take (length t - length B) t), (drop (length t - length B) t).
  split; [by rewrite <- app_assoc, take_drop|]. split; [rewrite EA in *; by apply star_absorbs, I|].
  rewrite EB at 1. apply lang_any. rewrite length_drop, EB, repeat_length in *. lia.
Qed.

(** *** The body *)
Definition measure (n na : list ascii) : nat := length na * S (S (length new)) + length n.
Definition good_loop (bound : nat) (k : list ascii -> list ascii -> list ascii -> list ascii -> bool -> outcome Z) : Prop :=
  forall m n ma na wild, at_ m n ma na wild -> measure n na < bound -> answers (k m n ma na wild).

Lemma compare_false (k : list ascii -> list ascii -> list ascii -> list ascii -> bool -> outcome Z) (bound : nat) (m n ma na : list ascii) :
  good_loop bound k -> at_ m n ma na true -> measure n na <= bound -> mglob m n = false -> na <> [] ->
  answers (let* na := next_start na in k ma na ma na true).
Proof.
  intros K X L F Nn. destruct (at_retry m n ma na X F Nn) as (b & na' & -> & -> & X'). cbn [obind]. apply K; [done|].
  pose proof (st_na _ _ _ _ _ X) as Ln. unfold measure in *. cbn [length] in *. lia.
Qed.

Lemma compare_ok (k : list ascii -> list ascii -> list ascii -> list ascii -> bool -> outcome Z) (bound : nat) (a b : ascii) (m n ma na : list ascii) (wild : bool) :
  good_loop bound k -> at_ (a :: m) (b :: n) ma na wild -> not_star a = true -> measure (b :: n) na <= bound ->
  answers (compare k (a :: m) (b :: n) ma na wild).
Proof.
  intros K X Ha L. destruct (at_plain _ _ _ _ _ X) as (Pm & Pb & _). unfold compare. rewrite !plain_no_escape by done. cbn [negb orb andb deref tail].
  rewrite !andb_true_r, orb_false_r. replace (a =c "*") with false by (unfold not_star in Ha; symmetry; by apply negb_true_iff). cbn [orb].
  change ((ToLower a =c ToLower b) || ((a =c "?") && negb (b =c "*"))) with (cmatch a b). destruct (cmatch a b) eqn:E.
  - apply K; [by eapply at_step|]. unfold measure in *. cbn [length] in L. lia.
  - assert (mglob (a :: m) (b :: n) = false) as F by (by rewrite mglob_cons, E).
    destruct wild; cbn [negb]; [|apply answers_no; intros G; apply (st_goal _ _ _ _ _ X) in G; cbn match in G; congruence].
    eapply compare_false; try done. destruct X as [(A & B & C & D & _ & _ & _ & _ & _ & _ & ->) _ _ _ _]. by destruct D.
Qed.

Lemma compare_end (k : list ascii -> list ascii -> list ascii -> list ascii -> bool -> outcome Z) (bound : nat) (n : list ascii) :
  good_loop bound k -> at_ [] n [] n true -> measure n n < bound -> answers (compare k [] n [] n true).
Proof.
  intros K X L. destruct (at_plain _ _ _ _ _ X) as (_ & Pn' & _). unfold compare. rewrite !plain_no_escape by (done || constructor). cbn [negb orb andb deref tail].
  destruct n as [|b n]; [by apply K|]. cbn [deref tail]. replace (ToLower NUL =c ToLower b) with false.
  - change (NUL =c "*") with false. change (NUL =c "?") with false. cbn [orb andb negb].
    by apply (compare_false k bound [] (b :: n) [] (b :: n)); [| |lia| |].
  - symmetry. apply Ascii.eqb_neq. intros E. inversion_clear Pn' as [|? ? [_ Nb] _]. apply Nb, ToLower_NUL. by rewrite <- E.
Qed.

Lemma loop_good (fuel : nat) : good_loop fuel (mmatch_loop fuel old).
Proof.
  induction fuel as [|fuel IH]; intros m n ma na wild X L; [lia|]. cbn [mmatch_loop].
  assert (exists m1 ma1 na1 wild1, (if deref m =c "*" then (skip_stars m, skip_stars m, n, true) else (m, ma, na, wild)) = (m1, ma1, na1, wild1) /\
    at_ m1 n ma1 na1 wild1 /\ measure n na1 <= fuel /\ match m1 with [] => True | a :: _ => not_star a = true end) as (m1 & ma1 & na1 & wild1 & -> & X1 & L1 & H1).
  { destruct (deref m =c "*") eqn:E.
    - destruct m as [|c m]; [done|]. cbn [deref] in E. apply Ascii.eqb_eq in E as ->. exists (skip_stars m), (skip_stars m), n, true.
      split; [done|]. apply at_star in X as X1. split; [done|]. split; [|apply skip_stars_head].
      pose proof (st_n _ _ _ _ _ X) as Ln.
      unfold measure in *. nia.
    - exists m, ma, na, wild. split; [done|]. split; [done|]. split; [lia|]. destruct m as [|c m]; [done|]. unfold not_star. cbn [deref] in E. by rewrite E. }
  clear X L. destruct m1 as [|a m1], n as [|b n].
  - by eapply at_done.
  - cbn [length]. rewrite Nat.sub_0_r, take_ge by done. 
    destruct (walk_back_spec (rev old)) as (k & c & front & -> & Er); [intros E; apply (f_equal (@rev _)) in E; by rewrite rev_involutive in E|]. cbn [obind].
    destruct (_ && _) eqn:Sc.
    + apply andb_true_iff in Sc as [Ec _]. apply Ascii.eqb_eq in Ec as ->. apply answers_yes. eapply at_tail; [exact X1|].
      rewrite <- (rev_involutive old), Er, rev_app_distr. cbn [rev]. rewrite <- app_assoc. f_equal. cbn. f_equal. apply rev_repeat.
    + destruct wild1; cbn [negb]; [|apply answers_no; intros G; by apply (st_goal _ _ _ _ _ X1) in G].
      assert (na1 <> [] /\ (ma1 <> [] -> 2 <= length na1)) as [Nn Two].
      { destruct X1 as [(A & B & C & D & _ & _ & P & _ & _ & -> & ->) _ _ _ _]. split; [by destruct D|]. rewrite app_nil_r. intros NB.
        rewrite length_app. pose proof (Forall2_length _ _ _ P). destruct B, D; cbn in *; [done|done|done|lia]. }
      destruct (at_retry [] (b :: n) ma1 na1 X1 eq_refl Nn) as (x & na' & -> & -> & X'). cbn [obind].
      pose proof (st_na _ _ _ _ _ X1) as Ln. destruct ma1 as [|a ma1].
      * eapply compare_end; [exact IH|exact X'|]. unfold measure in *. cbn [length] in *. lia.
      * destruct na' as [|y na']; [cbn in Two; assert (2 <= 1) by (by apply Two); lia|].
        eapply compare_ok; [exact IH|exact X'|by apply (st_head _ _ _ _ _ X1)|]. unfold measure in *. cbn [length] in *. lia.
  - cbn [skip_stars]. unfold not_star in H1. destruct (a =c "*") eqn:Ea; [done|].
    apply answers_no. intros G. apply (st_goal _ _ _ _ _ X1) in G. destruct wild1; [|rewrite mglob_cons in G by (unfold not_star; by rewrite Ea); done].
    destruct X1 as [(A & B & C & D & _ & _ & P & _ & _ & -> & ->) _ _ _ _]. rewrite app_nil_r in G.
    apply mglob_star_elim in G as (n' & S & H). pose proof (Forall2_length _ _ _ P) as LP.
    apply suffix_length in S. clear - H S LP P Ea. revert n' S H. rewrite <- LP. clear LP. induction P as [|c d B D [Hc _] _ IHP]; intros n' S H; cbn [app length] in *.
    + rewrite mglob_cons in H by (unfold not_star; by rewrite Ea). destruct n'; [done|cbn in S; lia].
    + rewrite mglob_cons in H by done. destruct n' as [|e n']; [done|]. apply andb_true_iff in H as [_ H]. apply (IHP n'); [cbn in S; lia|done].
  - by eapply compare_ok.
Qed.
End Loop.

(** ** Any masks

    Backslashes or not, the comparison returns: between two places where the part behind
    the last star may start lie whole characters, escaped ones counted once. *)
Section Total.
Context (old new : list ascii).
Context (Ne : old <> []).

Lemma next_start_is (n : list ascii) : n <> [] -> next_start n = Ok (tail (if is_escape n then tail n else n)).
Proof. destruct n as [|c [|d n]]; [done| |]; intros _; unfold next_start; destruct (is_escape _) eqn:E; try done. unfold is_escape in E. cbn in E. by rewrite andb_false_r in E. Qed.
Lemma next_start_shorter (n n' : list ascii) : next_start n = Ok n' -> length n' < length n.
Proof. unfold next_start. destruct n as [|c [|d n]]; [by destruct (is_escape _)|..]; destruct (is_escape _); try done; intros [= <-]; cbn; lia. Qed.

(** [n] lies whole characters behind [na]. *)
Inductive ahead (n : list ascii) : list ascii -> Prop :=
| ahead_here : ahead n n
| ahead_step na na' : next_start na = Ok na' -> ahead n na' -> ahead n na.

Lemma ahead_length (n na : list ascii) : ahead n na -> length n <= length na.
Proof. induction 1 as [|na na' E _ IH]; [done|]. apply next_start_shorter in E. lia. Qed.
Lemma ahead_next (n n' na : list ascii) : ahead n na -> next_start n = Ok n' -> ahead n' na.
Proof. intros H E. induction H as [|na na' E' _ IH]; [by eapply ahead_step, ahead_here|by eapply ahead_step]. Qed.

Record on_way (m n ma na : list ascii) (wild : bool) : Prop := {
  ow_ahead : ahead n na;
  ow_retry : wild = true -> (m = ma /\ n = na) \/ exists na', next_start na = Ok na' /\ ahead n na';
  ow_na : length na <= length new
}.
Definition returns (r : outcome Z) : Prop := exists z, r = Ok z.
Definition total_loop (bound : nat) (k : list ascii -> list ascii -> list ascii -> list ascii -> bool -> outcome Z) : Prop :=
  forall m n ma na wild, on_way m n ma na wild -> measure new n na < bound -> returns (k m n ma na wild).

Lemma retry_total (k : list ascii -> list ascii -> list ascii -> list ascii -> bool -> outcome Z) (bound : nat) (ma na na' : list ascii) :
  total_loop bound k -> next_start na = Ok na' -> length na <= length new -> length na * S (S (length new)) <= bound -> returns (k ma na' ma na' true).
Proof.
  intros K E Ln Lb. apply next_start_shorter in E. apply K; [split; [apply ahead_here|by left|lia]|]. unfold measure. nia.
Qed.

Lemma compare_total (k : list ascii -> list ascii -> list ascii -> list ascii -> bool -> outcome Z) (bound : nat) (m n ma na : list ascii) (wild : bool) :
  total_loop bound k -> on_way m n ma na wild -> n <> [] -> measure new n na <= bound -> returns (compare k m n ma na wild).
Proof.
  intros K [A R L] N Lb. pose proof (next_start_is n N) as En. pose proof (next_start_shorter _ _ En) as Ls. unfold compare. case_if.
  - apply K; [split; [by eapply ahead_next| |done]|unfold measure in *; lia]. intros ->. right. destruct (R eq_refl) as [[-> ->]|(na' & E & A')]; [by eexists; split; [exact En|apply ahead_here]|].
    exists na'. split; [done|]. by eapply ahead_next.
  - destruct wild; [|by eexists]. cbn [negb]. assert (na <> []) as Na by (intros ->; apply ahead_length in A; destruct n; [done|cbn in A; lia]). rewrite next_start_is by done. cbn [obind].
    eapply (retry_total k bound ma na); [done|by apply next_start_is|done|]. unfold measure in Lb. lia.
Qed.

Lemma compare_end_total (k : list ascii -> list ascii -> list ascii -> list ascii -> bool -> outcome Z) (bound : nat) (n : list ascii) :
  total_loop bound k -> length n <= length new -> measure new n n < bound -> returns (compare k [] n [] n true).
Proof.
  intros K Ln Lb. destruct n as [|b n]; [apply K; [split; [apply ahead_here|by left|done]|done]|].
  apply compare_total with bound; [done|split; [apply ahead_here|by left|done]|done|lia].
Qed.

Lemma loop_total (fuel : nat) : total_loop fuel (mmatch_loop fuel old).
Proof.
  induction fuel as [|fuel IH]; intros m n ma na wild [A R L] Lb; [lia|]. cbn [mmatch_loop].
  assert (exists m1 ma1 na1 wild1, (if deref m =c "*" then (skip_stars m, skip_stars m, n, true) else (m, ma, na, wild)) = (m1, ma1, na1, wild1) /\
    on_way m1 n ma1 na1 wild1 /\ measure new n na1 <= fuel) as (m1 & ma1 & na1 & wild1 & -> & [A1 R1 L1] & Lb1).
  { pose proof (ahead_length _ _ A) as Ln. destruct (deref m =c "*").
    - exists (skip_stars m), (skip_stars m), n, true. split; [done|]. split; [split; [apply ahead_here|by left|lia]|]. unfold measure in *. nia.
    - exists m, ma, na, wild. split; [done|]. split; [done|lia]. }
  clear A R L Lb. destruct m1 as [|a m1], n as [|b n]; [by eexists| |by eexists|by apply compare_total with fuel].
  cbn [length]. rewrite Nat.sub_0_r, take_ge by done.
  destruct (walk_back_spec (rev old)) as (k & c & front & -> & _); [intros E; apply (f_equal (@rev _)) in E; by rewrite rev_involutive in E|]. cbn [obind].
  case_if; [by eexists|]. destruct wild1; [|by eexists]. cbn [negb]. destruct (R1 eq_refl) as [[<- <-]|(na' & E & A')].
  - pose proof (next_start_is (b :: n) ltac:(done)) as E. pose proof (next_start_shorter _ _ E) as Ls. rewrite E. cbn [obind]. apply compare_end_total with fuel; [done|lia|]. unfold measure in *. nia.
  - rewrite E. cbn [obind]. pose proof (next_start_shorter _ _ E) as Ls. apply compare_total with fuel; [done|split; [apply ahead_here|by left|lia]| |unfold measure in *; nia].
    intros ->. apply ahead_length in A'. cbn in A'. lia.
Qed.
End Total.

Lemma mmatch_total (old_mask new_mask : list ascii) : old_mask <> [] -> exists r, mmatch old_mask new_mask = Ok r.
Proof. intros Ne. apply (loop_total old_mask new_mask Ne); [split; [apply ahead_here|by left|done]|]. unfold measure, mmatch_fuel. lia. Qed.

(** Every mask covers itself, and covering a name without wildcards is matching it. *)
Lemma mglob_refl (m : list ascii) : mglob m m = true.
Proof.
  induction m as [|c m IH]; [done|]. destruct (Ascii.eqb_spec c "*") as [->|N].
  - apply mglob_star_elim. exists m. split; [by exists ["*"%char]|done].
  - apply Ascii.eqb_neq in N. rewrite mglob_cons by (unfold not_star; by rewrite N). rewrite IH. unfold cmatch. by rewrite Ascii.eqb_refl.
Qed.

Lemma mglob_name (m name : list ascii) : Forall (fun c => is_wild c = false) name -> mglob m name = lang m name.
Proof.
  revert name. induction m as [|a m IH]; intros name W; [done|]. destruct (Ascii.eqb_spec a "*") as [->|N].
  - apply eq_true_iff_eq. rewrite mglob_star_elim. unfold lang. change (map tok1 ("*"%char :: m)) with (Star :: map tok1 m). split.
    + intros (n' & S & H). eapply glob_star_intro; [exact S|]. rewrite IH in H; [done|]. destruct S as [k ->]. by apply Forall_app in W as [_ ?].
    + intros (n' & S & H)%glob_star_elim. exists n'. split; [done|]. rewrite IH; [done|]. destruct S as [k ->]. by apply Forall_app in W as [_ ?].
  - assert (not_star a = true) as Ha by (unfold not_star; by apply negb_true_iff, Ascii.eqb_neq). rewrite mglob_cons, lang_cons by done.
    destruct name as [|b name]; [done|]. inversion_clear W as [|? ? Wb W']. rewrite IH by done. f_equal.
    unfold cmatch, tok1. apply orb_false_iff in Wb as [Wb _]. apply Ascii.eqb_neq in N. rewrite N, Wb.
    destruct (a =c "?"); cbn [andb negb]; [by rewrite orb_true_r|]. by rewrite orb_false_r.
Qed.

Lemma mmatch_spec (old_mask new_mask : list ascii) : plain old_mask -> plain new_mask -> old_mask <> [] ->
  exists r, mmatch old_mask new_mask = Ok r /\ (r = 0%Z \/ r = 1%Z) /\
    (r = 0%Z -> forall name, mask_matches new_mask name = true -> mask_matches old_mask name = true) /\
    (mglob old_mask new_mask = true -> r = 0%Z).
Proof.
  intros Po Pn Ne. destruct (loop_good old_mask new_mask Po Pn Ne (mmatch_fuel new_mask) old_mask new_mask old_mask new_mask false) as (r & E & R & S & C).
  - split; [|done|done|done|done]. exists [], [], [], []. by repeat split; try constructor.
  - unfold measure, mmatch_fuel. lia.
  - exists r. split; [done|]. split; [done|]. split; [|done]. intros Z name. rewrite !mask_lang by done. by apply S.
Qed.

(** C3: [mmatch] is a sound test for redundancy.  On any masks, the old one not empty, it
    returns without leaving a mask.  On masks without backslashes (and, as every string, without
    terminators inside), when it says that the old mask covers the new one, every name the
    new mask matches is matched by the old one; it says so whenever the old mask matches the
    new one read as a string in which [?] does not take a star; and on a new mask without
    wildcards it decides exactly whether the old mask matches it.  With an empty old mask it
    reads the byte in front of that mask, unless the new one is empty too. *)
Theorem mmatch_superset (old_mask new_mask : list ascii) :
  match old_mask with
  | [] => mmatch old_mask new_mask = match new_mask with [] => Ok 0%Z | _ => Oob end
  | _ => exists r, mmatch old_mask new_mask = Ok r /\ (plain old_mask -> plain new_mask ->
    (r = 0%Z -> forall name, mask_matches new_mask name = true -> mask_matches old_mask name = true) /\
    (mglob old_mask new_mask = true -> r = 0%Z) /\
    (Forall (fun c => is_wild c = false) new_mask -> r = (if mask_matches old_mask new_mask then 0 else 1)%Z))
  end.
Proof.
  destruct old_mask as [|c o]; [by destruct new_mask|]. set (old_mask := c :: o) in *. assert (old_mask <> []) as Ne by done. clearbody old_mask.
  destruct (mmatch_total old_mask new_mask Ne) as (r & E). exists r. split; [done|]. intros Po Pn.
  destruct (mmatch_spec old_mask new_mask Po Pn Ne) as (r' & E' & R & S & C). rewrite E in E'. injection E' as <-. split; [done|]. split; [done|].
  intros W. pose proof (mglob_name old_mask new_mask W) as G. rewrite <- mask_lang in G by done. destruct (mask_matches old_mask new_mask) eqn:M; [by apply C|].
  destruct R as [->| ->]; [|done]. exfalso. specialize (S eq_refl new_mask). rewrite M in S. enough (false = true) by done. apply S.
  rewrite mask_lang, <- mglob_name by done. apply mglob_refl.
Qed.

Lemma mmatch_superset_witness :
  exists r, mmatch (cstr "*!*@*.example.*") (cstr "bad!*@*.Example.org") = Ok r /\ r = 0%Z /\
    mask_matches (cstr "*!*@*.example.*") (cstr "bad!x@y.example.org") = true.
Proof.
  destruct (mmatch_superset (cstr "*!*@*.example.*") (cstr "bad!*@*.Example.org")) as (r & E & H).
  destruct H as (S & C & _); [by repeat constructor|by repeat constructor|].
  assert (r = 0%Z) as Z by (apply C; reflexivity). exists r. split; [exact E|]. split; [exact Z|]. apply (S Z). reflexivity.
Defined.
