(* ===== verification/AddrText.v ===== *)
(** * Addresses as text: [ircd_ntoa_r], [ircd_ntocidrmask] and [ipmask_parse] of
      [ircd/ircd_string.c]

    Positions in the text are suffixes.  A parser result is the number of characters
    used (0 for an error), the address as it was left, and what was stored through
    [pbits], if anything was. *)

From stdpp Require Import base functions list strings.
From Stdlib Require Import ZArith Lia Ascii.
From S2P Require Import Prelude Chattr Addr NumNicks.

Local Open Scope ircu_scope.
Local Open Scope Z_scope.

(** ** Printing *)
Definition digit (z : Z) : ascii := char_of (48 + z).

(** One entry of [IpQuadTab]. *)
Definition quad (z : Z) : list ascii :=
  (if 100 <=? z then [digit (z / 100)] else []) ++ (if 10 <=? z then [digit (z / 10 mod 10)] else []) ++ [digit (z mod 10)].

Definition hexdigit (z : Z) : ascii := if z <? 10 then char_of (48 + z) else char_of (87 + z).

Definition hex_part (part : Z) : list ascii :=
  (if 0x1000 <=? part then [hexdigit (Z.shiftr part 12)] else []) ++
  (if 0x100 <=? part then [hexdigit (Z.land (Z.shiftr part 8) 15)] else []) ++
  (if 0x10 <=? part then [hexdigit (Z.land (Z.shiftr part 4) 15)] else []) ++
  [hexdigit (Z.land part 15)].

(** The printing loop; [n] counts the iterations left. *)
Fixpoint print_loop (n : nat) (l : list Z) (ii max_start max_zeros : nat) : list ascii :=
  match n with
  | O => []
  | S n =>
      if (8 <=? ii)%nat then []
      else if (0 <? max_zeros)%nat && (ii =? max_start)%nat then ":"%char :: print_loop n l (ii + max_zeros) max_start max_zeros
      else hex_part (nth ii l 0) ++ (if (ii <? 7)%nat then [":"%char] else []) ++ print_loop n l (S ii) max_start max_zeros
  end.

Definition ircd_ntoa_r (a : irc_in_addr) : list ascii :=
  if irc_in_addr_is_ipv4 a then
    quad (Z.shiftr (part a 6) 8) ++ "."%char :: quad (Z.land (part a 6) 255) ++ "."%char ::
    quad (Z.shiftr (part a 7) 8) ++ "."%char :: quad (Z.land (part a 7) 255)
  else
    let '(max_start, max_zeros) := Codec.zero_run (in6_16 a) 1 in
    print_loop 8 (in6_16 a) 0 max_start max_zeros.

(** ["%u"] of [snprintf]: an unsigned number of at most [n] digits. *)
Fixpoint decimal (n : nat) (z : Z) : list ascii :=
  match n with
  | O => []
  | S n => (if 10 <=? z then decimal n (z / 10) else []) ++ [digit (z mod 10)]
  end.

Definition CIDR_LEN : nat := 43.

Definition ircd_ntocidrmask (a : irc_in_addr) (bits : Z) : list ascii :=
  take CIDR_LEN (ircd_ntoa_r a ++ "/"%char :: decimal 10 (if irc_in_addr_is_ipv4 a then u32 (bits - 96) else bits)).

(** ** Parsing *)
Definition digit_value (c : ascii) : Z := uchar c - 48.
Definition is_dec (c : ascii) : bool := (48 <=? uchar c) && (uchar c <=? 57).

(** [for (bits = 0; IsDigit(input[++pos]); ) bits = bits * 10 + input[pos] - '0'] *)
Fixpoint read_number (p : list ascii) (acc : Z) : Z * list ascii :=
  match p with
  | c :: p' => if IsDigit c then read_number p' (u32 (acc * 10 + digit_value c)) else (acc, p)
  | [] => (acc, [])
  end.

(** [while (input[++pos] == '*' || input[pos] == sep);] *)
Fixpoint skip_stars_or (sep : ascii) (p : list ascii) : list ascii :=
  match p with
  | c :: p' => if (c =c "*") || (c =c sep) then skip_stars_or sep p' else p
  | [] => []
  end.

(** The loop of [ircd_aton_ip4]: the address and prefix length, and the rest of the text. *)
Fixpoint aton_loop (pbits : bool) (p : list ascii) (dots part ip : Z) : option (Z * Z * list ascii) :=
  match p with
  | [] => if dots <? 3 then None else Some (Z.lor ip (u32 (Z.shiftl part (24 - 8 * dots))), 32, [])
  | c :: p' =>
      if c =c "." then
        let dots := dots + 1 in
        if 3 <? dots then None
        else if deref p' =c "." then None
        else
          let ip := Z.lor ip (u32 (Z.shiftl part (32 - 8 * dots))) in
          if deref p' =c "*" then
            match skip_stars_or "." (tail p') with [] => Some (ip, dots * 8, []) | _ => None end
          else aton_loop pbits p' dots 0 ip
      else if c =c "/" then
        if negb pbits || negb (IsDigit (deref p')) then None
        else
          let (bits, rest) := read_number p' 0 in
          if 32 <? bits then None else Some (Z.lor ip (u32 (Z.shiftl part (24 - 8 * dots))), bits, rest)
      else if is_dec c then
        let part := u32 (part * 10 + digit_value c) in
        if 255 <? part then None else aton_loop pbits p' dots part ip
      else None
  end.

Definition ircd_aton_ip4 (pbits : bool) (input : list ascii) : option (Z * Z * list ascii) :=
  if deref input =c "." then None else aton_loop pbits input 0 0 0.

Definition parsed : Type := Z * irc_in_addr * option Z.

Definition hex_value (c : ascii) : option Z :=
  let z := uchar c in
  if (48 <=? z) && (z <=? 57) then Some (z - 48)
  else if (65 <=? z) && (z <=? 70) then Some (z - 65 + 10)
  else if (97 <=? z) && (z <=? 102) then Some (z - 97 + 10)
  else None.

(** The shift of the parts behind ["::"]; [n] is the number of steps left. *)
Fixpoint shift_up (n : nat) (jj ii : nat) (arr : list Z) : list Z :=
  match n with O => arr | S n => shift_up n (S jj) ii (<[(7 - jj)%nat := nth (ii - jj - 1) arr 0]> arr) end.
Fixpoint fill_zero (n : nat) (from : nat) (arr : list Z) : list Z :=
  match n with O => arr | S n => fill_zero n (S from) (<[from := 0]> arr) end.

Definition finish6 (arr : list Z) (ii colon : nat) : list Z :=
  if (colon <? 8)%nat then fill_zero (8 - ii) colon (shift_up (ii - colon) 0 ii arr) else arr.

Section Parse6.
Context (input : list ascii) (pbits : bool).

Definition used (rest : list ascii) : Z := Z.of_nat (length input - length rest).
Definition fail (arr : list Z) (bits : option Z) : outcome parsed := Ok (0, InAddr arr, bits).
Definition store (b : Z) : option Z := if pbits then Some b else None.

Fixpoint parse6_loop (p : list ascii) (part_start : option (list ascii)) (part : Z) (ii colon : nat) (arr : list Z) : outcome parsed :=
  if (8 <=? ii)%nat then
    match p with [] => Ok (used [], InAddr (finish6 arr ii colon), None) | _ => fail arr None end
  else
    match p with
    | [] =>
        let arr := <[ii := part]> arr in let ii := S ii in
        if (colon =? 8)%nat && (ii <? 8)%nat then fail arr None
        else Ok (used [], InAddr (finish6 arr ii colon), store 128)
    | c :: p' =>
        match hex_value c with
        | Some chval =>
            let part := Z.lor (u32 (Z.shiftl part 4)) chval in
            if 0xffff <? part then fail arr None else parse6_loop p' part_start part ii colon arr
        | None =>
            if c =c ":" then
              if deref p' =c "." then fail arr None
              else
                let arr := <[ii := part]> arr in let ii := S ii in
                match p' with
                | d :: p'' =>
                    if d =c ":" then
                      if (colon <? 8)%nat then fail arr None
                      else if (ii =? 8)%nat then fail arr None
                      else parse6_loop p'' (Some p') 0 ii ii arr
                    else parse6_loop p' (Some p') 0 ii colon arr
                | [] => parse6_loop p' (Some p') 0 ii colon arr
                end
            else if c =c "." then
              match part_start with
              | None => Oob
              | Some q =>
                  match ircd_aton_ip4 pbits q with
                  | None => fail arr None
                  | Some (ip4, bits, rest) =>
                      if (6 <? ii)%nat then fail arr (store bits)
                      else
                        let arr := <[S ii := Z.land ip4 65535]> (<[ii := Z.shiftr ip4 16]> arr) in
                        Ok (used rest, InAddr (finish6 arr (ii + 2) colon), store (u8 (bits + 96)))
                  end
              end
            else if c =c "/" then
              if negb pbits || negb (IsDigit (deref p')) then fail arr None
              else
                let arr := <[ii := part]> arr in
                let (bits, rest) := read_number p' 0 in
                if 128 <? bits then fail arr None
                else Ok (used rest, InAddr (finish6 arr (S ii) colon), Some bits)
            else if c =c "*" then
              match skip_stars_or ":" p' with
              | _ :: _ => fail arr None
              | [] =>
                  if (colon <? 8)%nat then fail arr None
                  else
                    let '(arr, ii) := if negb (part =? 0) then (<[ii := part]> arr, S ii) else (arr, ii) in
                    Ok (used [], InAddr arr, store (Z.of_nat ii * 16))
              end
            else fail arr None
        end
    end.
End Parse6.

Definition zeros8 : list Z := repeat 0 8.

(** The first position of a character: [strchr]. *)
Fixpoint strchr (s : list ascii) (c : ascii) : option nat :=
  match s with [] => None | d :: s => if d =c c then Some O else option_map S (strchr s c) end.

Definition ipmask_parse (input : list ascii) (pbits : bool) : outcome parsed :=
  let colon_char := strchr input ":" in
  let dot := strchr input "." in
  if match colon_char, dot with Some c, Some d => (c <? d)%nat | Some _, None => true | None, _ => false end then
    match input with
    | a :: p' =>
        if a =c ":" then
          match p' with
          | b :: p'' =>
              if negb (b =c ":") || (deref p'' =c ":") then Ok (0, InAddr zeros8, None)
              else parse6_loop input pbits p'' (Some p'') 0 0 0 zeros8
          | [] => Ok (0, InAddr zeros8, None)
          end
        else parse6_loop input pbits input None 0 0 8 zeros8
    | [] => Ok (0, InAddr zeros8, None)
    end
  else if match dot, strchr input "/" with None, None => false | _, _ => true end then
    match ircd_aton_ip4 pbits input with
    | Some (addr, bits, rest) =>
        Ok (used input rest, InAddr (<[7%nat := Z.land addr 65535]> (<[6%nat := Z.shiftr addr 16]> (<[5%nat := 65535]> zeros8))),
            store pbits (u8 (bits + 96)))
    | None => Ok (0, InAddr zeros8, None)
    end
  else
    match input with
    | c :: p' =>
        if c =c "*" then
          match skip_stars_or "*" p' with [] => Ok (used input [], InAddr zeros8, store pbits 0) | _ => Ok (0, InAddr zeros8, None) end
        else Ok (0, InAddr zeros8, None)
    | [] => Ok (0, InAddr zeros8, None)
    end.

(** ** Reading numbers back *)
Lemma in_ten (d : Z) : 0 <= d < 10 -> In d [0; 1; 2; 3; 4; 5; 6; 7; 8; 9].
Proof. intros H. cbn. lia. Qed.
Lemma in_sixteen (d : Z) : 0 <= d < 16 -> In d [0; 1; 2; 3; 4; 5; 6; 7; 8; 9; 10; 11; 12; 13; 14; 15].
Proof. intros H. cbn. lia. Qed.

Lemma digit_facts (d : Z) : 0 <= d < 10 -> (digit d =c ".") = false /\ (digit d =c "/") = false /\ is_dec (digit d) = true /\
  digit_value (digit d) = d /\ (digit d =c ":") = false /\ IsDigit (digit d) = true.
Proof.
  intros H%in_ten. assert (forallb (fun d => negb (digit d =c ".") && negb (digit d =c "/") && is_dec (digit d) && (digit_value (digit d) =? d) && negb (digit d =c ":") && IsDigit (digit d))
    [0; 1; 2; 3; 4; 5; 6; 7; 8; 9] = true) as A by (vm_compute; reflexivity).
  rewrite forallb_forall in A. specialize (A d H). rewrite !andb_true_iff, !negb_true_iff, Z.eqb_eq in A. tauto.
Qed.

Lemma hexdigit_facts (d : Z) : 0 <= d < 16 -> hex_value (hexdigit d) = Some d /\ (hexdigit d =c ".") = false /\ (hexdigit d =c ":") = false.
Proof.
  intros H%in_sixteen. assert (forallb (fun d => bool_decide (hex_value (hexdigit d) = Some d) && negb (hexdigit d =c ".") && negb (hexdigit d =c ":"))
    [0; 1; 2; 3; 4; 5; 6; 7; 8; 9; 10; 11; 12; 13; 14; 15] = true) as A by (vm_compute; reflexivity).
  rewrite forallb_forall in A. specialize (A d H). rewrite !andb_true_iff, !negb_true_iff, bool_decide_eq_true in A. tauto.
Qed.

Lemma aton_digit (pb : bool) (d : Z) (rest : list ascii) (dots part ip : Z) : 0 <= d < 10 -> 0 <= part -> part * 10 + d <= 255 ->
  aton_loop pb (digit d :: rest) dots part ip = aton_loop pb rest dots (part * 10 + d) ip.
Proof.
  intros H P L. destruct (digit_facts d H) as (E1 & E2 & E3 & E4 & _ & _). cbn [aton_loop]. rewrite E1, E2, E3, E4, u32_small by lia.
  by rewrite (proj2 (Z.ltb_ge _ _)) by lia.
Qed.

Lemma aton_quad (pb : bool) (z : Z) (rest : list ascii) (dots ip : Z) : 0 <= z < 256 ->
  aton_loop pb (quad z ++ rest) dots 0 ip = aton_loop pb rest dots z ip.
Proof.
  intros H. unfold quad. destruct (Z.leb_spec 100 z); destruct (Z.leb_spec 10 z); try lia; cbn [app];
    rewrite ?aton_digit by (Z.to_euclidean_division_equations; lia); f_equal; Z.to_euclidean_division_equations; lia.
Qed.

Lemma quad_first (z : Z) (rest : list ascii) : 0 <= z < 256 -> exists e r, quad z ++ rest = digit e :: r /\ 0 <= e < 10.
Proof.
  intros H. unfold quad. destruct (Z.leb_spec 100 z); destruct (Z.leb_spec 10 z); try lia; cbn [app]; do 2 eexists; (split; [reflexivity|]);
    Z.to_euclidean_division_equations; lia.
Qed.

Lemma aton_dot (pb : bool) (d : Z) (rest : list ascii) (dots part ip : Z) : 0 <= d < 256 -> dots < 3 ->
  aton_loop pb ("."%char :: quad d ++ rest) dots part ip =
  aton_loop pb (quad d ++ rest) (dots + 1) 0 (Z.lor ip (u32 (Z.shiftl part (32 - 8 * (dots + 1))))).
Proof.
  intros H L. destruct (quad_first d rest H) as (e & r & E & He).
  rewrite E. destruct (digit_facts e He) as (E1 & _ & E3 & _). cbn [aton_loop]. change ("." =c ".") with true. cbn match.
  rewrite (proj2 (Z.ltb_ge _ _)) by lia. cbn [deref]. rewrite E1. replace (digit e =c "*") with false; [done|].
  symmetry. apply Ascii.eqb_neq. intros F. rewrite F in E3. done.
Qed.

(** What may follow an address: nothing, or a prefix length. *)
Definition suffix (sfx : option Z) : list ascii := match sfx with None => [] | Some b => "/"%char :: quad b end.
Definition suffix_bits (all : Z) (sfx : option Z) : Z := match sfx with None => all | Some b => b end.

Lemma read_digit (d acc : Z) (rest : list ascii) : 0 <= d < 10 -> 0 <= acc < 1000 ->
  read_number (digit d :: rest) acc = read_number rest (acc * 10 + d).
Proof.
  intros H A. destruct (digit_facts d H) as (_ & _ & _ & E & _ & E'). cbn [read_number]. rewrite E', E, u32_small by lia. done.
Qed.

Lemma read_quad (z : Z) : 0 <= z < 256 -> read_number (quad z) 0 = (z, []).
Proof.
  intros H. unfold quad. destruct (Z.leb_spec 100 z); destruct (Z.leb_spec 10 z); try lia; cbn [app];
    rewrite ?read_digit by (Z.to_euclidean_division_equations; lia); cbn [read_number]; f_equal; Z.to_euclidean_division_equations; lia.
Qed.

Lemma quad_IsDigit (z : Z) : 0 <= z < 256 -> IsDigit (deref (quad z)) = true.
Proof. intros H. destruct (quad_first z [] H) as (e & r & E & He). rewrite app_nil_r in E. rewrite E. apply digit_facts, He. Qed.

Lemma aton_end (sfx : option Z) (part ip : Z) : (forall b, sfx = Some b -> 0 <= b <= 32) ->
  aton_loop true (suffix sfx) 3 part ip = Some (Z.lor ip (u32 (Z.shiftl part 0)), suffix_bits 32 sfx, []).
Proof.
  intros H. destruct sfx as [b|]; [|done]. specialize (H b eq_refl). cbn [suffix aton_loop]. change ("/" =c ".") with false. change ("/" =c "/") with true. cbn match.
  rewrite quad_IsDigit, read_quad by lia. cbn [negb orb]. by rewrite (proj2 (Z.ltb_ge _ _)) by lia.
Qed.

Lemma aton_text (a b c d : Z) (sfx : option Z) : 0 <= a < 256 -> 0 <= b < 256 -> 0 <= c < 256 -> 0 <= d < 256 ->
  (forall b, sfx = Some b -> 0 <= b <= 32) ->
  aton_loop true (quad a ++ "."%char :: quad b ++ "."%char :: quad c ++ "."%char :: quad d ++ suffix sfx) 0 0 0 =
  Some (a * 2 ^ 24 + b * 2 ^ 16 + c * 2 ^ 8 + d, suffix_bits 32 sfx, []).
Proof.
  intros Ha Hb Hc Hd Hs. rewrite aton_quad, aton_dot, aton_quad, aton_dot, aton_quad, aton_dot, aton_quad by lia.
  change (0 + 1 + 1 + 1) with 3. rewrite aton_end by done. do 3 f_equal.
  change (32 - 8 * (0 + 1)) with 24. change (32 - 8 * (0 + 1 + 1)) with 16. change (32 - 8 * 3) with 8.
  rewrite !Z.shiftl_mul_pow2, !u32_small by lia. rewrite Z.lor_0_l.
  rewrite (lor_low a (b * 2 ^ 16) 24) by lia.
  replace (a * 2 ^ 24 + b * 2 ^ 16) with ((a * 2 ^ 8 + b) * 2 ^ 16) by lia. rewrite (lor_low _ (c * 2 ^ 8) 16) by lia.
  replace ((a * 2 ^ 8 + b) * 2 ^ 16 + c * 2 ^ 8) with ((a * 2 ^ 16 + b * 2 ^ 8 + c) * 2 ^ 8) by lia. rewrite (lor_low _ (d * 2 ^ 0) 8) by lia. lia.
Qed.

(** *** Hexadecimal parts *)
Definition colons (l : list Z) : list ascii := flat_map (fun z => hex_part z ++ [":"%char]) l.
Definition joined (l : list Z) : list ascii :=
  match l with [] => [] | _ => colons (removelast l) ++ hex_part (List.last l 0) end.

Definition in16 (z : Z) : Prop := 0 <= z < 2 ^ 16.

Section Reading6.
Context (input : list ascii) (sfx : option Z) (Hs : forall b, sfx = Some b -> 0 <= b <= 128).
Abbreviation loop := (parse6_loop input true).

Lemma parse_hexdigit (d : Z) (rest : list ascii) ps (part : Z) (ii colon : nat) (arr : list Z) :
  0 <= d < 16 -> 0 <= part -> part * 16 + d < 2 ^ 16 -> (ii < 8)%nat ->
  loop (hexdigit d :: rest) ps part ii colon arr = loop rest ps (part * 16 + d) ii colon arr.
Proof.
  intros H P L I. destruct (hexdigit_facts d H) as (E & _). cbn [parse6_loop]. rewrite (proj2 (Nat.leb_gt _ _)) by lia. rewrite E.
  rewrite Z.shiftl_mul_pow2, u32_small, (lor_low part d 4) by lia. rewrite (proj2 (Z.ltb_ge _ _)) by lia. f_equal.
Qed.

Lemma parse_hex (z : Z) (rest : list ascii) ps (ii colon : nat) (arr : list Z) : in16 z -> (ii < 8)%nat ->
  loop (hex_part z ++ rest) ps 0 ii colon arr = loop rest ps z ii colon arr.
Proof.
  intros H I. unfold in16 in H. unfold hex_part. rewrite !Z.shiftr_div_pow2 by lia. rewrite !(Z.land_ones _ 4) by lia.
  destruct (Z.leb_spec 0x1000 z); destruct (Z.leb_spec 0x100 z); destruct (Z.leb_spec 0x10 z); try lia; cbn [app];
    rewrite ?parse_hexdigit by (try lia; Z.to_euclidean_division_equations; lia); f_equal; Z.to_euclidean_division_equations; lia.
Qed.

Lemma hex_head (z : Z) (rest : list ascii) : in16 z -> exists d r, hex_part z ++ rest = hexdigit d :: r /\ 0 <= d < 16.
Proof.
  intros H. unfold in16 in H. unfold hex_part. rewrite !Z.shiftr_div_pow2 by lia. rewrite !(Z.land_ones _ 4) by lia.
  destruct (Z.leb_spec 0x1000 z); destruct (Z.leb_spec 0x100 z); destruct (Z.leb_spec 0x10 z); try lia; cbn [app];
    do 2 eexists; (split; [reflexivity|]); Z.to_euclidean_division_equations; lia.
Qed.

(** A single colon in front of something else. *)
Lemma parse_colon (rest : list ascii) ps (part : Z) (ii colon : nat) (arr : list Z) : (ii < 8)%nat ->
  (deref rest =c ":") = false -> (deref rest =c ".") = false ->
  loop (":"%char :: rest) ps part ii colon arr = loop rest (Some rest) 0 (S ii) colon (<[ii := part]> arr).
Proof.
  intros I E1 E2. cbn [parse6_loop]. rewrite (proj2 (Nat.leb_gt _ _)) by lia. change (hex_value ":") with (@None Z). change (":" =c ":") with true. cbn match.
  rewrite E2. destruct rest as [|c rest]; [done|]. cbn [deref] in E1. by rewrite E1.
Qed.

Lemma parse_double (rest : list ascii) ps (part : Z) (ii : nat) (arr : list Z) : (S ii < 8)%nat ->
  loop (":"%char :: ":"%char :: rest) ps part ii 8 arr = loop rest (Some (":"%char :: rest)) 0 (S ii) (S ii) (<[ii := part]> arr).
Proof.
  intros I. cbn [parse6_loop]. rewrite (proj2 (Nat.leb_gt _ _)) by lia. change (hex_value ":") with (@None Z). change (":" =c ":") with true. cbn match.
  change (deref (":"%char :: rest) =c ".") with false. cbn match. change (":" =c ":") with true. cbn [Nat.ltb Nat.leb]. cbn match.
  by rewrite (proj2 (Nat.eqb_neq _ _)) by lia.
Qed.

Fixpoint write (arr : list Z) (ii : nat) (l : list Z) : list Z :=
  match l with [] => arr | z :: l => write (<[ii := z]> arr) (S ii) l end.

Definition soft (p : list ascii) : Prop := (deref p =c ":") = false /\ (deref p =c ".") = false.
Lemma soft_hex (z : Z) (rest : list ascii) : in16 z -> soft (hex_part z ++ rest).
Proof. intros H. destruct (hex_head z rest H) as (d & r & -> & Hd). destruct (hexdigit_facts d Hd) as (_ & ? & ?). by split. Qed.

Lemma soft_colons (l : list Z) (rest : list ascii) : Forall in16 l -> soft rest -> soft (colons l ++ rest).
Proof. intros [|z l' Hz _] S; [done|]. unfold colons. cbn [flat_map]. rewrite <- !app_assoc. by apply soft_hex. Qed.

Lemma parse_colons (l : list Z) : forall rest ps ii colon arr, Forall in16 l -> (ii + length l <= 8)%nat -> soft rest ->
  exists ps', loop (colons l ++ rest) ps 0 ii colon arr = loop rest ps' 0 (ii + length l) colon (write arr ii l).
Proof.
  induction l as [|z l IH]; intros rest ps ii colon arr F L Sf.
  - exists ps. cbn. by rewrite Nat.add_0_r.
  - inversion_clear F as [|? ? Hz Fl]. cbn [length] in L. unfold colons. cbn [flat_map]. rewrite <- !app_assoc. rewrite parse_hex by (done || lia). cbn [app].
    destruct (soft_colons l rest Fl Sf) as [S1 S2]. rewrite parse_colon by (done || lia).
    destruct (IH rest (Some (flat_map (fun z => hex_part z ++ [":"%char]) l ++ rest)) (S ii) colon (<[ii := z]> arr) Fl ltac:(lia) Sf) as [ps' E].
    exists ps'. unfold colons in E. rewrite E. cbn [length write]. by rewrite Nat.add_succ_r.
Qed.

(** The end of the text. *)
Lemma parse_end ps (part : Z) (ii colon : nat) (arr : list Z) : (ii < 8)%nat -> (colon < 8)%nat \/ ii = 7%nat ->
  loop (suffix sfx) ps part ii colon arr = Ok (used input [], InAddr (finish6 (<[ii := part]> arr) (S ii) colon), Some (suffix_bits 128 sfx)).
Proof.
  intros I D. destruct sfx as [b|]; cbn [suffix parse6_loop]; rewrite (proj2 (Nat.leb_gt _ _)) by lia.
  - specialize (Hs b eq_refl). change (hex_value "/") with (@None Z). change ("/" =c ":") with false. change ("/" =c ".") with false. change ("/" =c "/") with true. cbn match.
    rewrite quad_IsDigit, read_quad by lia. cbn [negb orb]. by rewrite (proj2 (Z.ltb_ge _ _)) by lia.
  - assert (((colon =? 8)%nat && (S ii <? 8)%nat) = false) as ->; [|done].
    apply andb_false_iff. destruct D as [D| ->]; [left; apply Nat.eqb_neq; lia|by right].
Qed.

(** The parts of a text without empty part are stored from [ii] on. *)
Lemma parse_joined (l : list Z) ps (ii colon : nat) (arr : list Z) : Forall in16 l -> l <> [] -> (ii + length l <= 8)%nat ->
  (colon < 8)%nat \/ (ii + length l)%nat = 8%nat ->
  loop (joined l ++ suffix sfx) ps 0 ii colon arr =
  Ok (used input [], InAddr (finish6 (write arr ii l) (ii + length l) colon), Some (suffix_bits 128 sfx)).
Proof.
  intros F N L D. pose proof (app_removelast_last 0 N) as E. set (l' := removelast l) in *. set (z := List.last l 0) in *.
  assert (joined l ++ suffix sfx = colons l' ++ hex_part z ++ suffix sfx) as -> by (unfold joined; destruct l; [done|]; by rewrite <- app_assoc).
  rewrite E in F, L, D. apply Forall_app in F as [Fl Fz]. inversion_clear Fz as [|? ? Hz _]. rewrite length_app in L, D. cbn in L, D.
  destruct (parse_colons l' (hex_part z ++ suffix sfx) ps ii colon arr Fl ltac:(lia) (soft_hex z _ Hz)) as [ps' ->].
  rewrite parse_hex, parse_end by (done || lia). do 3 f_equal. rewrite E, length_app. cbn [length].
  replace (S (ii + length l'))%nat with (ii + (length l' + 1))%nat by lia. f_equal. f_equal.
  clear. revert ii arr. induction l' as [|y l' IH]; intros ii arr; cbn [write app length]; [by rewrite Nat.add_0_r|]. rewrite <- IH. by rewrite Nat.add_succ_r.
Qed.
End Reading6.

(** *** What is printed *)
Lemma joined_cons (z : Z) (l : list Z) : joined (z :: l) = hex_part z ++ match l with [] => [] | _ => ":"%char :: joined l end.
Proof. destruct l as [|y l]; [unfold joined, colons; cbn; by rewrite app_nil_r|]. unfold joined, colons. cbn [removelast List.last flat_map]. by rewrite <- !app_assoc. Qed.

Lemma drop_nth (l : list Z) (i : nat) : (i < length l)%nat -> drop i l = nth i l 0 :: drop (S i) l.
Proof. intros H. destruct (lookup_lt_is_Some_2 l i H) as [z E]. rewrite (drop_S _ _ _ E). f_equal. symmetry. by apply nth_lookup_Some. Qed.

Lemma print_after (l : list Z) (n : nat) : forall ii ms mz, length l = 8%nat -> (8 - ii <= n)%nat -> (ms < ii \/ mz = 0)%nat ->
  print_loop n l ii ms mz = joined (drop ii l).
Proof.
  induction n as [|n IH]; intros ii ms mz L N D; cbn [print_loop]; [by rewrite drop_ge by lia|]. destruct (Nat.leb_spec 8 ii); [by rewrite drop_ge by lia|].
  assert (((0 <? mz)%nat && (ii =? ms)%nat) = false) as ->.
  { apply andb_false_iff. destruct D as [D| ->]; [right; apply Nat.eqb_neq; lia|by left]. }
  rewrite IH by lia. rewrite (drop_nth l ii) by lia. rewrite joined_cons. f_equal. destruct (Nat.ltb_spec ii 7).
  - rewrite (drop_nth l (S ii)) by lia. done.
  - by rewrite drop_ge by lia.
Qed.

Lemma print_before (l : list Z) (n : nat) : forall ii ms mz, length l = 8%nat -> (8 - ii <= n)%nat -> (ii <= ms)%nat -> (0 < mz)%nat -> (ms + mz <= 8)%nat ->
  print_loop n l ii ms mz = colons (take (ms - ii) (drop ii l)) ++ ":"%char :: joined (drop (ms + mz) l).
Proof.
  induction n as [|n IH]; intros ii ms mz L N Le P B; [lia|]. cbn [print_loop]. rewrite (proj2 (Nat.leb_gt _ _)), (proj2 (Nat.ltb_lt _ _) P) by lia. cbn [andb].
  destruct (Nat.eqb_spec ii ms) as [->|Ne].
  - rewrite Nat.sub_diag, take_0. change (colons []) with (@nil ascii). cbn [app]. f_equal. apply print_after; [done|lia|left; lia].
  - rewrite (proj2 (Nat.ltb_lt _ _)) by lia. rewrite IH by lia. rewrite (drop_nth l ii) by lia. replace (ms - ii)%nat with (S (ms - S ii)) by lia.
    rewrite firstn_cons. unfold colons. cbn [flat_map]. by rewrite <- !app_assoc.
Qed.

(** The address with the parts hidden behind ["::"] cleared. *)
Definition cleared (l : list Z) : list Z :=
  let '(ms, mz) := Codec.zero_run l 1 in take ms l ++ repeat 0 mz ++ drop (ms + mz) l.

Definition canonical (a : irc_in_addr) : irc_in_addr :=
  if irc_in_addr_is_ipv4 a then InAddr [0; 0; 0; 0; 0; 65535; part a 6; part a 7] else InAddr (cleared (in6_16 a)).

Ltac eight l H := do 8 (destruct l as [|? l]; [discriminate H|]); destruct l; [|discriminate H].

Lemma parse6_text (l : list Z) (sfx : option Z) (input : list ascii) : Forall in16 l -> length l = 8%nat ->
  (forall b, sfx = Some b -> 0 <= b <= 128) ->
  (let '(ms, mz) := Codec.zero_run l 1 in print_loop 8 l 0 ms mz) ++ suffix sfx = input ->
  parse6_loop input true input None 0 0 8 zeros8 = Ok (Z.of_nat (length input), InAddr (cleared l), Some (suffix_bits 128 sfx)).
Proof.
  intros F L Hs E. unfold cleared. destruct (Codec.zero_run l 1) as [ms mz] eqn:Ez.
  apply Codec.zero_run_bounds in Ez as [B1 B2]; [|done|lia].
  assert (used input [] = Z.of_nat (length input)) as Us by (unfold used; cbn; by rewrite Nat.sub_0_r). destruct (decide (mz = 0)%nat) as [->|Nz].
  - rewrite print_after in E by (done || lia || by right). rewrite drop_0 in E. rewrite <- E at 2.
    rewrite parse_joined, Us; [|done|done|by intros ->|lia|right; lia]. do 3 f_equal. cbn [repeat app]. rewrite Nat.add_0_r, take_drop.
    rewrite L. cbn [finish6 Nat.ltb Nat.leb]. clear - L. eight l L. reflexivity.
  - rewrite print_before in E by lia. rewrite Nat.sub_0_r, drop_0 in E.
    assert (take ms l = take (ms - 1) l ++ [nth (ms - 1) l 0]) as T.
    { replace ms with (S (ms - 1)) at 1 by lia. apply take_S_r. destruct (lookup_lt_is_Some_2 l (ms - 1)) as [z Ez]; [lia|]. by rewrite (nth_lookup_Some _ _ _ _ Ez). }
    assert (input = colons (take (ms - 1) l) ++ hex_part (nth (ms - 1) l 0) ++ ":"%char :: ":"%char :: joined (drop (ms + mz) l) ++ suffix sfx) as Ei.
    { rewrite <- E, T, <- app_assoc. unfold colons. rewrite flat_map_app. cbn [flat_map]. rewrite app_nil_r, <- !app_assoc. done. }
    assert (in16 (nth (ms - 1) l 0)) as H1 by (rewrite Forall_forall in F; apply F, list_elem_of_In, nth_In; lia).
    rewrite Ei at 2. assert (length (take (ms - 1) l) = (ms - 1)%nat) as Lt by (rewrite length_take; lia).
    destruct (parse_colons input (take (ms - 1) l) (hex_part (nth (ms - 1) l 0) ++ ":"%char :: ":"%char :: joined (drop (ms + mz) l) ++ suffix sfx) None 0 8 zeros8) as [ps ->];
      [by apply Forall_take|lia|by apply soft_hex|].
    rewrite parse_hex, parse_double by (done || lia). rewrite Lt. cbn [Nat.add]. replace (S (ms - 1)) with ms by lia.
    assert (Forall in16 (drop (ms + mz) l)) as Fd by (by apply Forall_drop).
    assert (parse6_loop input true (joined (drop (ms + mz) l) ++ suffix sfx) (Some (":"%char :: joined (drop (ms + mz) l) ++ suffix sfx)) 0 ms ms (<[(ms - 1)%nat := nth (ms - 1) l 0]> (write zeros8 0 (take (ms - 1) l))) =
      Ok (used input [], InAddr (take ms l ++ repeat 0 mz ++ drop (ms + mz) l), Some (suffix_bits 128 sfx))) as ->; [|by rewrite Us].
    destruct (decide (drop (ms + mz) l = [])) as [En|Nn].
    + rewrite En. cbn [joined app]. rewrite parse_end by (done || lia). do 3 f_equal. apply (f_equal length) in En. rewrite length_drop in En. cbn in En.
      clear - L B1 B2 Nz En. assert (mz = 8 - ms)%nat as -> by lia. eight l L. assert (ms < 8)%nat by lia. do 8 (destruct ms as [|ms]; [try lia; reflexivity|]). lia.
    + rewrite parse_joined by (done || (rewrite length_drop; lia) || lia). do 3 f_equal. clear - L B1 B2 Nz. eight l L. assert (ms < 8)%nat by lia.
      do 8 (destruct ms as [|ms]; [try lia; (do 8 (destruct mz as [|mz]; [try lia; reflexivity|])); lia|]). lia.
Qed.

(** *** Which parser is chosen *)
Lemma strchr_none (s : list ascii) (c : ascii) : Forall (fun d => (d =c c) = false) s -> strchr s c = None.
Proof. induction 1 as [|d s Hd _ IH]; cbn; [done|]. by rewrite Hd, IH. Qed.
Lemma strchr_some (s t : list ascii) (c : ascii) : exists k, strchr (s ++ c :: t) c = Some k.
Proof. induction s as [|d s [k IH]]; cbn; [rewrite Ascii.eqb_refl; eauto|]. destruct (d =c c); [eauto|]. rewrite IH. cbn. eauto. Qed.

Definition not_dot (d : ascii) : Prop := (d =c ".") = false.
Definition not_colon (d : ascii) : Prop := (d =c ":") = false.

(** A property of the digits and separators is a property of the text. *)
Section Chars.
Context (P : ascii -> Prop) (Pdigit : forall d, 0 <= d < 16 -> P (hexdigit d)).

Lemma hex_chars (z : Z) : in16 z -> Forall P (hex_part z).
Proof.
  intros H. unfold in16 in H. unfold hex_part. rewrite !Z.shiftr_div_pow2 by lia. rewrite !(Z.land_ones _ 4) by lia.
  repeat (apply Forall_app; split); try case_if; repeat constructor; reflect; apply Pdigit; Z.to_euclidean_division_equations; lia.
Qed.

Lemma quad_chars (z : Z) : 0 <= z < 256 -> Forall P (quad z).
Proof.
  intros H. assert (forall d, 0 <= d < 10 -> P (digit d)) as D.
  { intros d Hd. specialize (Pdigit d ltac:(lia)). unfold hexdigit in Pdigit. by rewrite (proj2 (Z.ltb_lt _ _)) in Pdigit by lia. }
  unfold quad. repeat (apply Forall_app; split); try case_if; repeat constructor; reflect; apply D; Z.to_euclidean_division_equations; lia.
Qed.

Context (Pcolon : P ":"%char).

Lemma colons_chars (l : list Z) : Forall in16 l -> Forall P (colons l).
Proof.
  induction 1 as [|z l Hz _ IH]; unfold colons; cbn [flat_map]; [constructor|]. apply Forall_app. split; [|exact IH].
  apply Forall_app. split; [by apply hex_chars|]. by repeat constructor.
Qed.
Lemma joined_chars (l : list Z) : Forall in16 l -> Forall P (joined l).
Proof.
  induction 1 as [|z l Hz Fl IH]; [constructor|]. rewrite joined_cons. apply Forall_app. split; [by apply hex_chars|].
  destruct l; [constructor|]. by constructor.
Qed.
End Chars.

Lemma hexdigit_not_dot (d : Z) : 0 <= d < 16 -> not_dot (hexdigit d).
Proof. intros H. by destruct (hexdigit_facts d H) as (_ & ? & _). Qed.
Lemma hexdigit_not_colon (d : Z) : 0 <= d < 16 -> not_colon (hexdigit d).
Proof. intros H. by destruct (hexdigit_facts d H) as (_ & _ & ?). Qed.
Definition colons_not_dot := colons_chars not_dot hexdigit_not_dot eq_refl.
Definition joined_not_dot := joined_chars not_dot hexdigit_not_dot eq_refl.
Definition quad_not_colon := quad_chars not_colon hexdigit_not_colon.
Definition quad_not_dot := quad_chars not_dot hexdigit_not_dot.

Lemma quad_head (z : Z) (rest : list ascii) : 0 <= z < 256 -> (deref (quad z ++ rest) =c ".") = false.
Proof.
  intros H. unfold quad. destruct (Z.leb_spec 100 z); destruct (Z.leb_spec 10 z); try lia; cbn [app deref];
    apply digit_facts; Z.to_euclidean_division_equations; lia.
Qed.

Lemma byte_split (p : Z) : in16 p -> 0 <= Z.shiftr p 8 < 256 /\ 0 <= Z.land p 255 < 256 /\ Z.shiftr p 8 * 2 ^ 8 + Z.land p 255 = p.
Proof.
  unfold in16. intros H. rewrite Z.shiftr_div_pow2 by lia. rewrite (Z.land_ones _ 8) by lia. Z.to_euclidean_division_equations; lia.
Qed.

Lemma suffix_not_colon (sfx : option Z) : (forall b, sfx = Some b -> 0 <= b <= 128) -> Forall not_colon (suffix sfx).
Proof. intros H. destruct sfx as [b|]; [|constructor]. constructor; [done|]. apply quad_not_colon. specialize (H b eq_refl). lia. Qed.

Lemma suffix_not_dot (sfx : option Z) : (forall b, sfx = Some b -> 0 <= b <= 128) -> Forall not_dot (suffix sfx).
Proof. intros H. destruct sfx as [b|]; [|constructor]. constructor; [done|]. apply quad_not_dot. specialize (H b eq_refl). lia. Qed.

Lemma parse4_text (p q : Z) (sfx : option Z) (input : list ascii) : in16 p -> in16 q -> (forall b, sfx = Some b -> 0 <= b <= 32) ->
  input = quad (Z.shiftr p 8) ++ "."%char :: quad (Z.land p 255) ++ "."%char :: quad (Z.shiftr q 8) ++ "."%char :: quad (Z.land q 255) ++ suffix sfx ->
  ipmask_parse input true = Ok (Z.of_nat (length input), InAddr [0; 0; 0; 0; 0; 65535; p; q], Some (suffix_bits 32 sfx + 96)).
Proof.
  intros Hp Hq Hs E. destruct (byte_split p Hp) as (B1 & B2 & Ep). destruct (byte_split q Hq) as (B3 & B4 & Eq). unfold ipmask_parse.
  assert (strchr input ":" = None) as ->.
  { apply strchr_none. rewrite E. repeat (apply Forall_app; split; [by apply quad_not_colon|constructor; [done|]]).
    apply Forall_app. split; [by apply quad_not_colon|]. apply suffix_not_colon. intros b Hb. specialize (Hs b Hb). lia. }
  destruct (strchr_some (quad (Z.shiftr p 8)) (quad (Z.land p 255) ++ "."%char :: quad (Z.shiftr q 8) ++ "."%char :: quad (Z.land q 255) ++ suffix sfx) ".") as [k Ek].
  rewrite <- E in Ek. rewrite Ek. assert (ircd_aton_ip4 true input = Some (p * 2 ^ 16 + q, suffix_bits 32 sfx, [])) as ->.
  { unfold ircd_aton_ip4. rewrite E, quad_head, aton_text by done. do 3 f_equal. lia. }
  assert (0 <= suffix_bits 32 sfx <= 32) as Bs by (destruct sfx as [b|]; [apply (Hs b eq_refl)|cbn; lia]).
  unfold in16 in *. unfold used, store, u8. rewrite Z.mod_small by lia. cbn [length Nat.sub]. rewrite Nat.sub_0_r. do 3 f_equal. unfold zeros8. cbn [repeat].
  assert (Z.shiftr (p * 2 ^ 16 + q) 16 = p /\ Z.land (p * 2 ^ 16 + q) 65535 = q) as [-> ->]; [|reflexivity].
  rewrite Z.shiftr_div_pow2 by lia. rewrite (Z.land_ones _ 16) by lia. split; Z.to_euclidean_division_equations; lia.
Qed.

Lemma parts_in16 (a : irc_in_addr) (i : nat) : addr_wf a -> in16 (part a i).
Proof.
  intros [L F]. unfold part. destruct (decide (i < 8)%nat).
  - rewrite Forall_forall in F. apply F, list_elem_of_In, nth_In. lia.
  - rewrite nth_overflow by lia. unfold in16. lia.
Qed.

(** The number of bits a suffix stands for, and the suffixes that fit the address. *)
Definition mask_bits (a : irc_in_addr) (sfx : option Z) : Z :=
  match sfx with None => 128 | Some b => if irc_in_addr_is_ipv4 a then b + 96 else b end.
Definition sfx_ok (a : irc_in_addr) (sfx : option Z) : Prop :=
  forall b, sfx = Some b -> 0 <= b <= (if irc_in_addr_is_ipv4 a then 32 else 128).

Lemma ntoa_parses (a : irc_in_addr) (sfx : option Z) : addr_wf a -> sfx_ok a sfx ->
  ipmask_parse (ircd_ntoa_r a ++ suffix sfx) true = Ok (Z.of_nat (length (ircd_ntoa_r a ++ suffix sfx)), canonical a, Some (mask_bits a sfx)).
Proof.
  intros W Hs. pose proof (fun i => parts_in16 a i W) as P. destruct W as [L F]. assert (Forall in16 (in6_16 a)) as F' by exact F.
  unfold sfx_ok in Hs. unfold canonical, mask_bits, ircd_ntoa_r. destruct (irc_in_addr_is_ipv4 a).
  { rewrite (parse4_text (part a 6) (part a 7) sfx _ (P _) (P _) Hs); [by destruct sfx|]. by rewrite <- ?app_assoc, <- ?app_comm_cons, <- ?app_assoc, <- ?app_comm_cons, <- ?app_assoc, <- ?app_comm_cons, <- ?app_assoc. }
  set (text := let '(ms, mz) := _ in _). pose proof (parse6_text (in6_16 a) sfx (text ++ suffix sfx) F' L Hs eq_refl) as E6.
  assert (exists d r, text = hexdigit d :: r /\ 0 <= d < 16) as (d & r & Ei & Hd).
  { subst text. destruct (Codec.zero_run (in6_16 a) 1) as [ms mz] eqn:Ez. apply Codec.zero_run_bounds in Ez as [B1 B2]; [|done|lia].
    cbn [print_loop Nat.leb]. replace ((0 <? mz)%nat && (0 =? ms)%nat) with false by (symmetry; apply andb_false_iff; right; apply Nat.eqb_neq; lia).
    apply hex_head. apply (P O). }
  assert (Forall not_dot text /\ exists s t, text = s ++ ":"%char :: t) as [ND (s & t & Ec)].
  { clear E6 Ei. subst text. destruct (Codec.zero_run (in6_16 a) 1) as [ms mz] eqn:Ez. apply Codec.zero_run_bounds in Ez as [B1 B2]; [|done|lia].
    destruct (decide (mz = 0)%nat) as [->|Nz].
    - rewrite print_after by (done || lia || by right). rewrite drop_0. split; [by apply joined_not_dot|].
      clear - L. destruct (in6_16 a) as [|x [|y l]]; [done|done|]. rewrite joined_cons. eauto.
    - rewrite print_before by (done || lia). rewrite Nat.sub_0_r, drop_0. split; [|eauto]. apply Forall_app. split; [by apply colons_not_dot, Forall_take|].
      constructor; [done|]. by apply joined_not_dot, Forall_drop. }
  assert (exists k, strchr (text ++ suffix sfx) ":" = Some k) as [k Ek] by (rewrite Ec, <- app_assoc; apply strchr_some).
  unfold ipmask_parse. rewrite Ek, (strchr_none (text ++ suffix sfx) ".") by (apply Forall_app; split; [exact ND|by apply suffix_not_dot]).
  rewrite Ei at 1. cbn [app]. destruct (hexdigit_facts d Hd) as (_ & _ & ->). rewrite E6. by destruct sfx.
Qed.

Lemma canonical_id (a : irc_in_addr) : addr_wf a -> irc_in_addr_is_ipv4 a = false ->
  (forall i, let '(ms, mz) := Codec.zero_run (in6_16 a) 1 in (ms <= i < ms + mz)%nat -> part a i = 0) -> canonical a = a.
Proof.
  intros [L _] N4 H0. unfold canonical, cleared. rewrite N4. unfold part in H0. destruct a as [l]. cbn [in6_16] in *. f_equal.
  destruct (Codec.zero_run l 1) as [ms mz] eqn:Ez. apply Codec.zero_run_bounds in Ez as [B1 B2]; [|done|lia].
  rewrite <- (take_drop ms l) at 3. f_equal. rewrite <- (take_drop mz (drop ms l)), drop_drop. f_equal.
  replace mz with (length (take mz (drop ms l))) at 1 by (rewrite length_take, length_drop; lia).
  symmetry. apply Forall_eq_repeat, Forall_lookup_2. intros i x Hx. pose proof (lookup_lt_Some _ _ _ Hx) as Lt. rewrite length_take in Lt.
  rewrite lookup_take_lt in Hx by lia. rewrite lookup_drop in Hx. specialize (H0 (ms + i)%nat ltac:(lia)). by rewrite (nth_lookup_Some _ _ _ _ Hx) in H0.
Qed.

(** [ircd_ntocidrmask] writes the address, a slash and the number, without cutting. *)
Lemma decimal_quad (z : Z) : 0 <= z < 1000 -> decimal 10 z = quad z.
Proof.
  intros H. unfold quad. cbn [decimal]. destruct (Z.leb_spec 10 z); destruct (Z.leb_spec 100 z); try lia;
    rewrite ?(proj2 (Z.leb_le 10 (z / 10))), ?(proj2 (Z.leb_gt 10 (z / 10))), ?(proj2 (Z.leb_gt 10 (z / 10 / 10))) by (Z.to_euclidean_division_equations; lia);
    cbn [app]; rewrite ?app_nil_r; [|done|done].
  repeat f_equal. Z.to_euclidean_division_equations; lia.
Qed.

Lemma hex_length (z : Z) : (length (hex_part z) <= 4)%nat.
Proof. unfold hex_part. rewrite !length_app. do 3 case_if; cbn; lia. Qed.
Lemma quad_length (z : Z) : (length (quad z) <= 3)%nat.
Proof. unfold quad. rewrite !length_app. do 2 case_if; cbn; lia. Qed.
Lemma colons_length (l : list Z) : (length (colons l) <= 5 * length l)%nat.
Proof. unfold colons. induction l as [|z l IH]; cbn [flat_map length]; [lia|]. rewrite !length_app. pose proof (hex_length z). cbn. lia. Qed.
Lemma joined_length (l : list Z) : (length (joined l) <= 5 * length l - 1)%nat.
Proof.
  induction l as [|z l IH]; [cbn; lia|]. rewrite joined_cons, length_app. pose proof (hex_length z). destruct l; cbn [length] in *; lia.
Qed.

Lemma ntoa_length (a : irc_in_addr) : addr_wf a -> (length (ircd_ntoa_r a) <= 39)%nat.
Proof.
  intros [L _]. unfold ircd_ntoa_r. destruct (irc_in_addr_is_ipv4 a).
  - repeat (rewrite length_app; cbn [length]). pose proof (quad_length (Z.shiftr (part a 6) 8)). pose proof (quad_length (Z.land (part a 6) 255)).
    pose proof (quad_length (Z.shiftr (part a 7) 8)). pose proof (quad_length (Z.land (part a 7) 255)). lia.
  - destruct (Codec.zero_run (in6_16 a) 1) as [ms mz] eqn:Ez. apply Codec.zero_run_bounds in Ez as [B1 B2]; [|done|lia]. destruct (decide (mz = 0)%nat) as [->|Nz].
    + rewrite print_after, drop_0 by (done || lia || by right). pose proof (joined_length (in6_16 a)). lia.
    + rewrite print_before by (done || lia). rewrite length_app, Nat.sub_0_r, drop_0. cbn [length].
      pose proof (joined_length (drop (ms + mz) (in6_16 a))) as J. pose proof (colons_length (take ms (in6_16 a))) as C. rewrite length_drop in J. rewrite length_take in C. lia.
Qed.

(** The characters of a text are those of its digits and separators. *)
Lemma ntoa_chars (P : ascii -> Prop) (a : irc_in_addr) : (forall d, 0 <= d < 16 -> P (hexdigit d)) -> P ":"%char -> P "."%char -> addr_wf a -> Forall P (ircd_ntoa_r a).
Proof.
  intros Pd Pc Pdot W. pose proof (fun i => parts_in16 a i W) as Q. destruct W as [L F]. unfold ircd_ntoa_r. destruct (irc_in_addr_is_ipv4 a).
  - destruct (byte_split _ (Q 6%nat)) as (B1 & B2 & _). destruct (byte_split _ (Q 7%nat)) as (B3 & B4 & _).
    repeat (apply Forall_app; split; [by apply quad_chars|constructor; [done|]]). by apply quad_chars.
  - destruct (Codec.zero_run (in6_16 a) 1) as [ms mz] eqn:Ez. apply Codec.zero_run_bounds in Ez as [B1 B2]; [|done|lia]. destruct (decide (mz = 0)%nat) as [->|Nz].
    + rewrite print_after by (done || lia || by right). by apply joined_chars, Forall_drop.
    + rewrite print_before by (done || lia). apply Forall_app. split; [by apply colons_chars, Forall_take, Forall_drop|]. constructor; [done|]. by apply joined_chars, Forall_drop.
Qed.

(** The prefix lengths that can be written for an address. *)
Definition cidr_ok (a : irc_in_addr) (bits : Z) : Prop := (if irc_in_addr_is_ipv4 a then 96 else 0) <= bits <= 128.

Lemma cidr_text (a : irc_in_addr) (bits : Z) : addr_wf a -> cidr_ok a bits ->
  ircd_ntocidrmask a bits = ircd_ntoa_r a ++ suffix (Some (if irc_in_addr_is_ipv4 a then bits - 96 else bits)).
Proof.
  intros W H. unfold cidr_ok in H. unfold ircd_ntocidrmask. set (z := if irc_in_addr_is_ipv4 a then u32 (bits - 96) else bits).
  assert (z = if irc_in_addr_is_ipv4 a then bits - 96 else bits) as Ez by (subst z; destruct (irc_in_addr_is_ipv4 a); [apply u32_small; lia|done]).
  assert (0 <= z < 256) as Bz by (rewrite Ez; destruct (irc_in_addr_is_ipv4 a); lia). rewrite decimal_quad by lia. rewrite <- Ez. cbn [suffix].
  apply take_ge. rewrite length_app. cbn [length]. pose proof (quad_length z). pose proof (ntoa_length a W). unfold CIDR_LEN. lia.
Qed.

(** C39: the text of an address is at most 39 characters long; printing an address, alone
    or with a prefix length, and parsing the text gives the address and the prefix length
    back and uses all of the text.  What the parser sees differs from the address only in
    the parts the printer hid behind ["::"], which read as zero, and in the two IPv4 forms,
    which both read as the mapped one; when the hidden run holds only zeros nothing is lost. *)
Theorem address_text_roundtrip (a : irc_in_addr) : addr_wf a ->
  (length (ircd_ntoa_r a) <= 39)%nat /\
  ipmask_parse (ircd_ntoa_r a) true = Ok (Z.of_nat (length (ircd_ntoa_r a)), canonical a, Some 128) /\
  (forall bits, cidr_ok a bits -> ipmask_parse (ircd_ntocidrmask a bits) true = Ok (Z.of_nat (length (ircd_ntocidrmask a bits)), canonical a, Some bits)) /\
  (irc_in_addr_is_ipv4 a = false ->
   (forall i, let '(ms, mz) := Codec.zero_run (in6_16 a) 1 in (ms <= i < ms + mz)%nat -> part a i = 0) -> canonical a = a).
Proof.
  intros W. split; [by apply ntoa_length|]. split; [|split].
  - pose proof (ntoa_parses a None W ltac:(by intros b [=])) as E. cbn [suffix mask_bits] in E. by rewrite app_nil_r in E.
  - intros bits H. rewrite cidr_text by done. unfold cidr_ok in H. rewrite ntoa_parses; [|done|].
    + do 2 f_equal. f_equal. cbn. destruct (irc_in_addr_is_ipv4 a); lia.
    + intros b [= <-]. destruct (irc_in_addr_is_ipv4 a); lia.
  - by apply canonical_id.
Qed.

(** A compressed address with a prefix length, and its text. *)
Lemma address_text_roundtrip_witness :
  ipmask_parse (ircd_ntocidrmask (InAddr [8193; 3512; 0; 0; 0; 0; 0; 1]) 48) true = Ok (14, InAddr [8193; 3512; 0; 0; 0; 0; 0; 1], Some 48) /\
  ircd_ntocidrmask (InAddr [8193; 3512; 0; 0; 0; 0; 0; 1]) 48 = cstr "2001:db8::1/48" /\
  canonical (InAddr [8193; 3512; 0; 0; 0; 0; 0; 1]) = InAddr [8193; 3512; 0; 0; 0; 0; 0; 1].
Proof.
  assert (addr_wf (InAddr [8193; 3512; 0; 0; 0; 0; 0; 1])) as W by (split; [reflexivity|]; repeat constructor; cbn; lia).
  destruct (address_text_roundtrip (InAddr [8193; 3512; 0; 0; 0; 0; 0; 1]) W) as (_ & _ & E & I). split; [|split].
  - refine (eq_trans (E 48 _) _); [unfold cidr_ok; cbn; lia|reflexivity].
  - reflexivity.
  - apply I; [reflexivity|]. intros i. change (Codec.zero_run _ _) with (2%nat, 5%nat). intros H.
    do 2 (destruct i as [|i]; [lia|]). do 5 (destruct i as [|i]; [reflexivity|]). lia.
Defined.

(** The search for the longest run of zeros does not restart behind a non-zero part, so
    two different addresses have one text. *)
Lemma ntoa_confuses :
  ircd_ntoa_r (InAddr [1; 0; 0; 5; 0; 6; 0; 0]) = ircd_ntoa_r (InAddr [1; 0; 0; 5; 0; 7; 0; 0]).
Proof. reflexivity. Qed.


(** ** Every text *)
Lemma lor_u32 (a b : Z) : 0 <= a < 2 ^ 32 -> 0 <= b < 2 ^ 32 -> 0 <= Z.lor a b < 2 ^ 32.
Proof.
  intros Ha Hb. split; [apply Z.lor_nonneg; lia|]. destruct (Z.eq_dec (Z.lor a b) 0) as [->|]; [lia|].
  apply Z.log2_lt_pow2; [pose proof (proj2 (Z.lor_nonneg a b)); lia|]. rewrite Z.log2_lor by lia.
  apply Z.max_lub_lt; (destruct (Z.eq_dec a 0) as [->|]; [|]; destruct (Z.eq_dec b 0) as [->|]; try (cbn; lia); apply Z.log2_lt_pow2; lia).
Qed.

Lemma read_number_bounds (p : list ascii) : forall acc, 0 <= acc -> 0 <= (read_number p acc).1.
Proof.
  induction p as [|c p IH]; intros acc H; cbn [read_number fst]; [done|]. case_if; [|done]. apply IH. apply u32_bounds.
Qed.

Lemma aton_bounds (pb : bool) (p : list ascii) : forall dots part ip a b rest, 0 <= ip < 2 ^ 32 -> 0 <= dots <= 3 ->
  aton_loop pb p dots part ip = Some (a, b, rest) -> 0 <= a < 2 ^ 32 /\ 0 <= b <= 32.
Proof.
  induction p as [|c p IH]; intros dots part ip a b rest Hip Hd; cbn [aton_loop]; intros E.
  - case_if_in E; [done|]. injection E as <- <- <-. split; [|lia]. apply lor_u32; [done|apply u32_bounds].
  - destruct (c =c "."); [|destruct (c =c "/"); [|destruct (is_dec c); [|done]]].
    + do 2 (case_if_in E; [done|]). reflect. assert (0 <= Z.lor ip (u32 (Z.shiftl part (32 - 8 * (dots + 1)))) < 2 ^ 32) as B by (apply lor_u32; [done|apply u32_bounds]).
      case_if_in E; [|by apply IH in E; [|done|lia]]. destruct (skip_stars_or _ _); [|done]. injection E as <- <- <-. split; [done|lia].
    + case_if_in E; [done|]. pose proof (read_number_bounds p 0 ltac:(lia)) as R. destruct (read_number p 0) as [n r]. cbn [fst] in R. case_if_in E; [done|]. reflect.
      injection E as <- <- <-. split; [|lia]. apply lor_u32; [done|apply u32_bounds].
    + case_if_in E; [done|]. by apply IH in E.
Qed.

Definition parts_ok (arr : list Z) : Prop := length arr = 8%nat /\ Forall in16 arr.

Lemma parts_insert (arr : list Z) (i : nat) (z : Z) : parts_ok arr -> in16 z -> parts_ok (<[i := z]> arr).
Proof. intros [L F] H. split; [by rewrite length_insert|]. by apply Forall_insert. Qed.
Lemma parts_nth (arr : list Z) (i : nat) : parts_ok arr -> in16 (nth i arr 0).
Proof. intros [L F]. exact (parts_in16 (InAddr arr) i (conj L F)). Qed.
Lemma in16_zero : in16 0.
Proof. unfold in16. lia. Qed.
Lemma in16_high (z : Z) : 0 <= z < 2 ^ 32 -> in16 (Z.shiftr z 16).
Proof. intros H. unfold in16. rewrite Z.shiftr_div_pow2 by lia. Z.to_euclidean_division_equations; lia. Qed.
Lemma in16_low (z : Z) : in16 (Z.land z 65535).
Proof. unfold in16. rewrite (Z.land_ones _ 16) by lia. apply Z.mod_pos_bound. lia. Qed.
#[local] Hint Resolve parts_insert parts_nth in16_zero in16_high in16_low : ircu.

Lemma finish6_ok (arr : list Z) (ii colon : nat) : parts_ok arr -> parts_ok (finish6 arr ii colon).
Proof.
  intros H. unfold finish6. case_if; [|done]. assert (forall n jj a, parts_ok a -> parts_ok (shift_up n jj ii a)) as Hs.
  { induction n as [|n IH]; intros jj a Ha; cbn [shift_up]; auto with ircu. }
  assert (forall n from a, parts_ok a -> parts_ok (fill_zero n from a)) as Hf by (induction n as [|n IH]; intros from a Ha; cbn [fill_zero]; auto with ircu). auto.
Qed.

(** A sound result: the count lies in the text, the address has eight 16-bit parts, and a
    prefix length is at most 128 and only stored when it was asked for. *)
Definition sound (input : list ascii) (pbits : bool) (o : outcome parsed) : Prop :=
  exists n a b, o = Ok (n, a, b) /\ 0 <= n <= Z.of_nat (length input) /\ addr_wf a /\ (forall z, b = Some z -> pbits = true /\ 0 <= z <= 128).

Lemma hex_not_special (c : ascii) (v : Z) : hex_value c = Some v -> (c =c ":") = false /\ (c =c ".") = false /\ 0 <= v < 16.
Proof.
  intros H. pose proof (forall_chars (fun c => match hex_value c with Some v => negb (c =c ":") && negb (c =c ".") && (0 <=? v) && (v <? 16) | None => true end) c ltac:(vm_compute; reflexivity)) as A.
  cbv beta in A. rewrite H in A. reflect. rewrite !Ascii.eqb_neq. auto with lia.
Qed.

Section Sound.
Context (input : list ascii) (pbits : bool).

Lemma sound_fail (arr : list Z) : parts_ok arr -> sound input pbits (Ok (0, InAddr arr, None)).
Proof. intros H. exists 0, (InAddr arr), None. split; [done|]. split; [lia|]. split; [exact H|]. by intros z [=]. Qed.
Lemma sound_ok (rest : list ascii) (arr : list Z) (b : Z) : parts_ok arr -> 0 <= b <= 128 -> sound input pbits (Ok (used input rest, InAddr arr, store pbits b)).
Proof.
  intros H B. exists (used input rest), (InAddr arr), (store pbits b). unfold used, store. split; [done|]. split; [lia|]. split; [exact H|].
  destruct pbits; [|done]. by intros z [= <-].
Qed.
Lemma sound_unset (rest : list ascii) (arr : list Z) : parts_ok arr -> sound input pbits (Ok (used input rest, InAddr arr, None)).
Proof. intros H. exists (used input rest), (InAddr arr), None. unfold used. split; [done|]. split; [lia|]. split; [exact H|]. by intros z [=]. Qed.

(** A dot that comes before any colon has no part start behind it. *)
Definition colon_first (p : list ascii) : Prop :=
  match strchr p ":", strchr p "." with Some c, Some d => (c < d)%nat | _, None => True | None, Some _ => False end.

Lemma colon_first_tail (c : ascii) (p : list ascii) : (c =c ":") = false -> (c =c ".") = false -> colon_first (c :: p) -> colon_first p.
Proof. unfold colon_first. cbn [strchr]. intros -> ->. destruct (strchr p ":"), (strchr p "."); cbn; lia || done. Qed.

Lemma parse6_sound (p : list ascii) : forall ps part ii colon arr, parts_ok arr -> in16 part -> (ps = None -> colon_first p) ->
  sound input pbits (parse6_loop input pbits p ps part ii colon arr).
Proof.
  assert (forall (a : list Z) (b : option Z), parts_ok a -> (forall z, b = Some z -> pbits = true /\ 0 <= z <= 128) -> sound input pbits (fail a b)) as Hfail.
  { intros a b Ha Hb. exists 0, (InAddr a), b. split; [done|]. split; [lia|]. by split. }
  assert (forall a, parts_ok a -> sound input pbits (fail a None)) as Hf by (intros a Ha'; apply Hfail; [done|by intros z [=]]).
  induction p as [p IH] using (induction_ltof1 _ (@length ascii)). unfold ltof in IH. intros ps part ii colon arr Ha Hp Hc.
  destruct p as [|c p]; cbn [parse6_loop]; (destruct (8 <=? ii)%nat eqn:E8; [auto using sound_unset, finish6_ok|]).
  { case_if; [auto with ircu|]. apply sound_ok; [auto using finish6_ok with ircu|lia]. }
  destruct (hex_value c) as [chval|] eqn:Eh.
  { destruct (hex_not_special c chval Eh) as (N1 & N2 & N3). destruct (Z.ltb_spec 0xffff (Z.lor (u32 (Z.shiftl part 4)) chval)); [auto|]. apply IH; [cbn; lia|done| |intros ->; exact (colon_first_tail c p N1 N2 (Hc eq_refl))].
    unfold in16 in *. split; [apply Z.lor_nonneg; split; [apply u32_bounds|lia]|lia]. }
  destruct (c =c ":") eqn:Ec.
  { case_if; [auto|]. assert (parts_ok (<[ii := part]> arr)) as Hi by auto with ircu.
    destruct p as [|d p]; [apply IH; [cbn; lia|done|apply in16_zero|done]|].
    destruct (d =c ":"); [|apply IH; [cbn; lia|done|apply in16_zero|done]]. do 2 (case_if; [auto|]). apply IH; [cbn; lia|done|apply in16_zero|done]. }
  destruct (c =c ".") eqn:Ed.
  { destruct ps as [q|]; [|exfalso; specialize (Hc eq_refl); unfold colon_first in Hc; cbn [strchr] in Hc; rewrite Ec, Ed in Hc; destruct (strchr p ":"); cbn in Hc; lia || done].
    destruct (ircd_aton_ip4 pbits q) as [[[ip4 bits] rest]|] eqn:Ea; [|auto]. unfold ircd_aton_ip4 in Ea. case_if_in Ea; [done|]. apply aton_bounds in Ea as [B1 B2]; [|lia|lia].
    case_if; [apply Hfail; [done|]; unfold store; destruct pbits; [|done]; intros z [= <-]; split; [done|lia]|].
    apply sound_ok; [apply finish6_ok; auto with ircu|]. unfold u8. rewrite Z.mod_small by lia. lia. }
  destruct (c =c "/").
  { case_if; [auto|]. reflect. pose proof (read_number_bounds p 0 ltac:(lia)) as R. destruct (read_number p 0) as [bits rest]. cbn [fst] in R. case_if; [auto with ircu|]. reflect.
    pose proof (sound_ok rest (finish6 (<[ii := part]> arr) (S ii) colon) bits) as K. unfold store in K.
    destruct pbits; [|done]. apply K; [apply finish6_ok; auto with ircu|lia]. }
  destruct (c =c "*"); [|auto]. destruct (skip_stars_or ":" p); [|auto]. case_if; [auto|].
  apply Nat.leb_gt in E8. destruct (negb (part =? 0)); (apply sound_ok; [auto with ircu|lia]).
Qed.
End Sound.

Lemma zeros8_ok : parts_ok zeros8.
Proof. split; [done|]. repeat constructor; cbn; lia. Qed.

Lemma ipmask_parse_total (input : list ascii) (pbits : bool) : sound input pbits (ipmask_parse input pbits).
Proof.
  pose proof zeros8_ok as H8. pose proof (sound_fail input pbits zeros8 H8) as Hf. unfold ipmask_parse.
  destruct (match strchr input ":", strchr input "." with Some c, Some d => (c <? d)%nat | Some _, None => true | None, _ => false end) eqn:E6.
  - destruct input as [|a p]; [done|]. destruct (a =c ":").
    + destruct p as [|b p]; [done|]. case_if; [done|]. apply parse6_sound; [done|apply in16_zero|done].
    + apply parse6_sound; [done|apply in16_zero|]. intros _. unfold colon_first. destruct (strchr _ ":"), (strchr _ "."); try done. by apply Nat.ltb_lt.
  - case_if.
    + destruct (ircd_aton_ip4 pbits input) as [[[ip4 bits] rest]|] eqn:Ea; [|done]. unfold ircd_aton_ip4 in Ea. case_if_in Ea; [done|]. apply aton_bounds in Ea as [B1 B2]; [|lia|lia].
      apply sound_ok; [auto with ircu|]. 2: { unfold u8. rewrite Z.mod_small by lia. lia. } repeat (apply parts_insert; [|auto with ircu]); [done|unfold in16; lia].
    + destruct input as [|c p]; [done|]. destruct (c =c "*"); [|done]. destruct (skip_stars_or "*" p); [|done]. apply sound_ok; [done|lia].
Qed.

