(* ===== verification/Ban.v ===== *)
(** * Ban lists: [ircd/channel.c]

    Bans of a channel (and silence lists, which use the same code): making and freeing
    bans, matching a user against a list, comparing bans, adding and removing them, and
    the two halves of [MODE +b]/[-b].  The heap maps the address of a [struct Ban] to its
    contents; an address is either one [make_ban] gave out or a place in the array
    [banlist] of the [struct ParseState] that [mode_parse] keeps on its stack.  The
    functions that cut a mask at its ['@'] for a moment write the ['@'] back: the model
    does so too, and calls it [Oob] when that place lies behind the mask. *)

From stdpp Require Import base functions list gmap countable strings.
From Stdlib Require Import ZArith Lia Ascii.
From S2P Require Import Prelude Chattr Match Addr MMatch NumNicks AddrText.

Local Open Scope ircu_scope.
Local Open Scope Z_scope.

Definition NICKLEN : nat := 15.
Definition USERLEN : nat := 10.
Definition HOSTLEN : nat := 63.
(** [sizeof(banstr) - 1] *)
Definition MASKLEN : nat := NICKLEN + USERLEN + HOSTLEN + 2.

Definition BAN_IPMASK : Z := 0x0001.
Definition BAN_OVERLAPPED : Z := 0x0002.
Definition BAN_EXCEPTION : Z := 0x0010.
Definition BAN_DEL : Z := 0x4000.
Definition BAN_ADD : Z := 0x8000.

(** [inl]: from [make_ban]; [inr]: in [state->banlist]. *)
Abbreviation bid := (nat + nat)%type.

Record Ban : Type := MkBan {
  b_next : option bid;
  address : irc_in_addr;
  b_when : Z;
  b_flags : Z;
  nu_len : nat;
  addrbits : Z;
  b_who : list ascii;
  banstr : list ascii
}.

Definition set_next (b : Ban) (n : option bid) : Ban := MkBan n (address b) (b_when b) (b_flags b) (nu_len b) (addrbits b) (b_who b) (banstr b).
Definition set_flags (b : Ban) (f : Z) : Ban := MkBan (b_next b) (address b) (b_when b) f (nu_len b) (addrbits b) (b_who b) (banstr b).
Definition set_banstr (b : Ban) (s : list ascii) : Ban := MkBan (b_next b) (address b) (b_when b) (b_flags b) (nu_len b) (addrbits b) (b_who b) s.
Definition set_origin (b : Ban) (who : list ascii) (t : Z) : Ban := MkBan (b_next b) (address b) t (b_flags b) (nu_len b) (addrbits b) who (banstr b).

Definition has (flags mask : Z) : bool := negb (Z.land flags mask =? 0).

Abbreviation bheap := (gmap bid Ban).
Definition load (h : bheap) (p : bid) : outcome Ban := match h !! p with Some b => Ok b | None => Oob end.

Record bstate : Type := BState {
  heap : bheap;
  free_bans : option bid;
  bans_alloc : Z;
  bans_inuse : Z;
  fresh : nat                  (** the address the allocator gives next *)
}.
Definition set_heap (st : bstate) (h : bheap) : bstate := BState h (free_bans st) (bans_alloc st) (bans_inuse st) (fresh st).

(** ** Making bans *)
Fixpoint strrchr (s : list ascii) (c : ascii) : option nat :=
  match s with
  | [] => None
  | d :: s => match strrchr s c with Some i => Some (S i) | None => if d =c c then Some O else None end
  end.

Definition set_ban_mask (ban : Ban) (str : list ascii) : outcome Ban :=
  let ban := set_banstr ban (take MASKLEN str) in
  match strrchr str "@" with
  | None => Ok ban
  | Some sep =>
      let* (used, ip, bits) := ipmask_parse (drop (S sep) str) true in
      Ok (MkBan (b_next ban) ip (b_when ban) (if used =? 0 then b_flags ban else Z.lor (b_flags ban) BAN_IPMASK)
            (Z.to_nat (u8 (Z.of_nat sep))) (match bits with Some b => b | None => addrbits ban end) (b_who ban) (banstr ban))
  end.

(** A ban cleared by [memset]. *)
Definition no_ban : Ban := MkBan None (InAddr zeros8) 0 0 0 0 [] [].

Definition make_ban (st : bstate) (str : list ascii) : outcome (bstate * bid) :=
  let* (p, st) :=
    match free_bans st with
    | Some p => let* b := load (heap st) p in Ok (p, BState (heap st) (b_next b) (bans_alloc st) (bans_inuse st) (fresh st))
    | None => Ok (inl (fresh st), BState (heap st) None (bans_alloc st + 1) (bans_inuse st) (S (fresh st)))
    end in
  let* ban := set_ban_mask no_ban str in
  Ok (BState (<[p := ban]> (heap st)) (free_bans st) (bans_alloc st) (bans_inuse st + 1) (fresh st), p).

Definition free_ban (st : bstate) (p : bid) : outcome bstate :=
  let* b := load (heap st) p in
  Ok (BState (<[p := set_next b (free_bans st)]> (heap st)) (Some p) (bans_alloc st) (bans_inuse st - 1) (fresh st)).

(** ** Matching a user *)
Record Who : Type := MkWho {
  cli_name : list ascii;
  username : list ascii;
  host : list ascii;
  realhost : list ascii;
  cli_ip : irc_in_addr;
  IsHiddenHost : bool
}.

Section Matching.
Context (trust_username : bool).       (** [FEAT_TRUST_USERNAME] *)

(** [visible_username(cptr) != cli_user(cptr)->username] *)
Definition tilde_hidden (c : Who) : bool := trust_username && IsHiddenHost c && (deref (username c) =c "~").
Definition visible_username (c : Who) : list ascii := if tilde_hidden c then tail (username c) else username c.

Definition nu (c : Who) : list ascii := take (NICKLEN + USERLEN + 1) (cli_name c ++ "!"%char :: username c).
Definition nuh_vis (c : Who) : list ascii :=
  if tilde_hidden c then take MASKLEN (cli_name c ++ "!"%char :: visible_username c ++ "@"%char :: host c) else [].

(** The body of the loop of [find_ban]: the ban as it is left and whether it matches. *)
Definition ban_test (c : Who) (ban : Ban) : outcome (Ban * bool) :=
  if (length (banstr ban) <=? nu_len ban)%nat then Oob
  else
    let* res := match_ (take (nu_len ban) (banstr ban)) (nu c) in
    let ban := set_banstr ban (<[nu_len ban := "@"%char]> (banstr ban)) in
    let hostmask := drop (S (nu_len ban)) (banstr ban) in
    if negb (res =? 0) then
      match nuh_vis c with
      | [] => Ok (ban, false)
      | _ :: _ => let* r := match_ (banstr ban) (nuh_vis c) in Ok (ban, r =? 0)
      end
    else if has (b_flags ban) BAN_IPMASK && negb (ipmask_check (cli_ip c) (address ban) (addrbits ban) =? 0) then Ok (ban, true)
    else
      let* r := match_ hostmask (host c) in
      if r =? 0 then Ok (ban, true)
      else
        let* r := match_ hostmask (ircd_ntoa_r (cli_ip c)) in
        if r =? 0 then Ok (ban, true)
        else if IsHiddenHost c then let* r := match_ hostmask (realhost c) in Ok (ban, r =? 0)
        else Ok (ban, false).

Fixpoint find_loop (fuel : nat) (h : bheap) (c : Who) (banlist found : option bid) : outcome (bheap * option bid) :=
  match banlist with
  | None => Ok (h, found)
  | Some p =>
      match fuel with
      | O => Fuel
      | S fuel =>
          let* ban := load h p in
          if match found with Some _ => negb (has (b_flags ban) BAN_EXCEPTION) | None => false end
          then find_loop fuel h c (b_next ban) found
          else
            let* (ban, hit) := ban_test c ban in
            let h := <[p := ban]> h in
            if negb hit then find_loop fuel h c (b_next ban) found
            else if has (b_flags ban) BAN_EXCEPTION then Ok (h, None)
            else find_loop fuel h c (b_next ban) (Some p)
      end
  end.

Definition find_ban (h : bheap) (cptr : Who) (banlist : option bid) : outcome (bheap * option bid) :=
  find_loop (S (size h)) h cptr banlist None.
End Matching.

(** ** Comparing bans *)
Definition bmatch (h : bheap) (old_ban new_ban : bid) : outcome (bheap * Z) :=
  let* old := load h old_ban in
  let* new := load h new_ban in
  if negb (has (b_flags old) BAN_EXCEPTION) && has (b_flags new) BAN_EXCEPTION then Ok (h, 1)
  else if negb (has (Z.land (b_flags old) (b_flags new)) BAN_IPMASK) then
    let* r := mmatch (banstr old) (banstr new) in Ok (h, r)
  else if addrbits new <? addrbits old then Ok (h, 1)
  else if (length (banstr old) <=? nu_len old)%nat || (length (banstr new) <=? nu_len new)%nat then Oob
  else
    let* res := mmatch (take (nu_len old) (banstr old)) (take (nu_len new) (banstr new)) in
    let old := set_banstr old (<[nu_len old := "@"%char]> (banstr old)) in
    let new := set_banstr new (<[nu_len new := "@"%char]> (banstr new)) in
    let h := <[new_ban := new]> (<[old_ban := old]> h) in
    if negb (res =? 0) then Ok (h, res)
    else if ipmask_check (address new) (address old) (addrbits old) =? 0 then Ok (h, 1)
    else let* r := mmatch (banstr old) (banstr new) in Ok (h, r).

(** ** Adding and removing *)
Fixpoint covered_loop (fuel : nat) (h : bheap) (ban : option bid) (newban : bid) : outcome (bheap * bool) :=
  match ban with
  | None => Ok (h, false)
  | Some p =>
      match fuel with
      | O => Fuel
      | S fuel =>
          let* (h, r) := bmatch h p newban in
          let* b := load h p in
          if (r =? 0) && negb (has (b_flags b) BAN_DEL) then Ok (h, true)
          else covered_loop fuel h (b_next b) newban
      end
  end.

(** Marks the entries [newban] covers: how many they are, and the last entry of the list. *)
Fixpoint mark_loop (fuel : nat) (h : bheap) (ban : option bid) (newban : bid) (last : option bid) (n : nat) :
    outcome (bheap * option bid * nat) :=
  match ban with
  | None => Ok (h, last, n)
  | Some p =>
      match fuel with
      | O => Fuel
      | S fuel =>
          let* (h, r) := bmatch h newban p in
          let* b := load h p in
          let hit := r =? 0 in
          let h := if hit then <[p := set_flags b (Z.lor (b_flags b) (Z.lor BAN_OVERLAPPED BAN_DEL))]> h else h in
          mark_loop fuel h (b_next b) newban (Some p) (if hit then S n else n)
      end
  end.

Definition drop_ban (st : bstate) (newban : bid) (do_free : bool) : outcome bstate :=
  if do_free then free_ban st newban else Ok st.

Definition apply_ban (st : bstate) (banlist : option bid) (newban : bid) (do_free : bool) : outcome (bstate * option bid * Z) :=
  let* new := load (heap st) newban in
  let fuel := S (size (heap st)) in
  if has (b_flags new) BAN_ADD then
    let* (h, found) := covered_loop fuel (heap st) banlist newban in
    let st := set_heap st h in
    if found then let* st := drop_ban st newban do_free in Ok (st, banlist, 1)
    else
      let* (h, last, _) := mark_loop fuel (heap st) banlist newban None 0 in
      match last with
      | None => Ok (set_heap st h, Some newban, 0)
      | Some p => let* b := load h p in Ok (set_heap st (<[p := set_next b (Some newban)]> h), banlist, 0)
      end
  else if has (b_flags new) BAN_DEL then
    let* (h, _, n) := mark_loop fuel (heap st) banlist newban None 0 in
    let st := set_heap st h in
    match n with
    | S _ => Ok (st, banlist, 0)
    | O => let* st := drop_ban st newban do_free in Ok (st, banlist, 3)
    end
  else let* st := drop_ban st newban do_free in Ok (st, banlist, 4).

(** ** [pretty_mask]

    The mask is a buffer with its terminator; [None] is the static ["*"]. *)
Fixpoint last_at (s : list ascii) (i : nat) (host : option nat) : option nat :=
  match s with
  | [] => host
  | c :: s => last_at s (S i) (if c =c "@" then Some (S i) else host)
  end.

(** The single pass: nick, user and host as positions, and whether a dot or colon was seen. *)
Fixpoint mask_parts (s : list ascii) (i : nat) (dot : bool) : option nat * option nat * option nat * bool :=
  match s with
  | [] => (Some O, None, None, dot)
  | c :: s =>
      if c =c "!" then (Some O, Some (S i), last_at s (S i) None, dot)
      else if c =c "@" then (None, Some O, last_at s (S i) (Some (S i)), dot)
      else mask_parts s (S i) (dot || (c =c ".") || (c =c ":"))
  end.

Fixpoint until_nul (s : list ascii) : list ascii :=
  match s with [] => [] | c :: s => if c =c NUL then [] else c :: until_nul s end.

Definition part_text (buf : list ascii) (p : option nat) : list ascii :=
  match p with None => ["*"%char] | Some i => until_nul (drop i buf) end.

Definition pretty_mask (mask : list ascii) : list ascii :=
  let ptr := length mask in
  let buf := mask ++ [NUL] in
  let '(nick, user, host, dot) := mask_parts mask 0 false in
  let '(nick, host) := match user with None => if dot then (None, Some O) else (nick, host) | Some _ => (nick, host) end in
  let buf :=
    match nick with
    | None => buf
    | Some n =>
        let nick_end := match user with Some u => (u - 1)%nat | None => ptr end in
        <[nick_end := NUL]> (if (NICKLEN <? nick_end - n)%nat then <[(n + NICKLEN)%nat := NUL]> buf else buf)
    end in
  let '(user, buf) :=
    match user with
    | None => (user, buf)
    | Some u =>
        let user_end := match host with Some h => (h - 1)%nat | None => ptr end in
        let '(u, buf) := if (USERLEN <? user_end - u)%nat then ((user_end - USERLEN)%nat, <[(user_end - USERLEN)%nat := "*"%char]> buf) else (u, buf) in
        (Some u, <[user_end := NUL]> buf)
    end in
  let '(host, buf) :=
    match host with
    | Some h => if (HOSTLEN <? ptr - h)%nat then (Some (ptr - HOSTLEN)%nat, <[(ptr - HOSTLEN)%nat := "*"%char]> buf) else (host, buf)
    | None => (host, buf)
    end in
  take MASKLEN (part_text buf nick ++ "!"%char :: part_text buf user ++ "@"%char :: part_text buf host).

Example pretty1 : map (fun s => pretty_mask (cstr s)) ["bad"; "a.b"; "n!u"; "u@h"; "n!u@h@i"; "1:2"]%string =
  map cstr ["bad!*@*"; "*!*@a.b"; "n!u@*"; "*!u@h"; "n!u@h@i"; "*!*@1:2"]%string.
Proof. reflexivity. Qed.
Example pretty2 : pretty_mask (cstr "averyveryverylongnick!averylongusername@h") = cstr "averyveryverylo!*gusername@h".
Proof. vm_compute. reflexivity. Qed.

(** ** [MODE +b], first half *)
Inductive notice : Type :=
| BanListSent
| NotOper
| NeedMore
| ListFull (mask : list ascii)
| ModeAdd (mask : list ascii)      (** [modebuf_mode_string(MODE_ADD | MODE_BAN)] *)
| ModeDel (mask : list ascii).

Definition DONE_BANLIST : Z := 0x04.
Definition DONE_NOTOPER : Z := 0x08.
Definition DONE_BANCLEAN : Z := 0x10.

(** What [mode_parse] fixes: who asks, and with which rights. *)
Record Request : Type := MkRequest {
  my_user : bool;                 (** [MyUser(sptr)] *)
  setter : list ascii;            (** [IsUser(sptr) ? cli_name(sptr) : "*"] *)
  no_rights : bool;               (** [MODE_PARSE_NOTOPER | MODE_PARSE_NOTMEMBER] *)
  parse_set : bool;               (** [MODE_PARSE_SET] *)
  parse_bounce : bool;            (** [MODE_PARSE_BOUNCE] *)
  opmode : bool;                  (** [MODEBUF_DEST_OPMODE] *)
  now : Z;
  max_bans : Z;                   (** [FEAT_MAXBANS] *)
  av_ban_len : Z                  (** [FEAT_AVBANLEN] *)
}.

Record ParseState : Type := MkParse {
  st : bstate;
  banlist : option bid;           (** [chptr->banlist] *)
  parv : list (list ascii);       (** the arguments not used yet *)
  max_args : Z;
  ps_done : Z;
  numbans : nat;
  notices : list notice
}.

Definition note (s : ParseState) (n : notice) : ParseState :=
  MkParse (st s) (banlist s) (parv s) (max_args s) (ps_done s) (numbans s) (notices s ++ [n]).
Definition set_done (s : ParseState) (d : Z) : ParseState :=
  MkParse (st s) (banlist s) (parv s) (max_args s) (Z.lor (ps_done s) d) (numbans s) (notices s).

Definition send_notoper (s : ParseState) : ParseState :=
  if has (ps_done s) DONE_NOTOPER then s else set_done (note s NotOper) DONE_NOTOPER.

Fixpoint clean_loop (fuel : nat) (h : bheap) (ban : option bid) : outcome bheap :=
  match ban with
  | None => Ok h
  | Some p =>
      match fuel with
      | O => Fuel
      | S fuel =>
          let* b := load h p in
          clean_loop fuel (<[p := set_flags b (Z.ldiff (b_flags b) (Z.lor BAN_ADD (Z.lor BAN_DEL BAN_OVERLAPPED)))]> h) (b_next b)
      end
  end.

Fixpoint until_space (s : list ascii) : list ascii :=
  match s with [] => [] | c :: s => if c =c " " then [] else c :: until_space s end.

(** [add] is [dir == MODE_ADD], [exception] that the mode is not [MODE_BAN]. *)
Definition mode_parse_ban (r : Request) (add exception : bool) (s : ParseState) : outcome ParseState :=
  match parv s with
  | [] =>
      if my_user r && negb (has (ps_done s) DONE_BANLIST) then Ok (set_done (note s BanListSent) DONE_BANLIST) else Ok s
  | t_str :: rest =>
      if my_user r && (max_args s <=? 0) then Ok s
      else
        let s := MkParse (st s) (banlist s) rest (max_args s - 1) (ps_done s) (numbans s) (notices s) in
        if no_rights r then Ok (send_notoper s)
        else
          let t_str := until_space t_str in
          if match t_str with [] => true | c :: _ => c =c ":" end then Ok (if my_user r then note s NeedMore else s)
          else
            let* s :=
              if has (ps_done s) DONE_BANCLEAN then Ok s
              else
                let* h := clean_loop (S (size (heap (st s)))) (heap (st s)) (banlist s) in
                Ok (set_done (MkParse (set_heap (st s) h) (banlist s) (parv s) (max_args s) (ps_done s) (numbans s) (notices s)) DONE_BANCLEAN) in
            let newban := inr (numbans s) in
            let* b := load (heap (st s)) newban in
            let flags := Z.lor (if add then BAN_ADD else BAN_DEL) (if exception then BAN_EXCEPTION else 0) in
            let* b := set_ban_mask (set_flags (set_next b None) flags) (collapse (pretty_mask t_str)) in
            let b := set_origin b (take NICKLEN (setter r)) (now r) in
            let* (st', banlist', _) := apply_ban (set_heap (st s) (<[newban := b]> (heap (st s)))) (banlist s) newban false in
            Ok (MkParse st' banlist' (parv s) (max_args s) (ps_done s) (S (numbans s)) (notices s))
  end.

(** ** [MODE +b], second half: [mode_process_bans] *)
Definition cut_list (st : bstate) (head prevban : option bid) (next : option bid) : outcome (bstate * option bid) :=
  match prevban with
  | Some p => let* b := load (heap st) p in Ok (set_heap st (<[p := set_next b next]> (heap st)), head)
  | None => Ok (st, next)
  end.

Record totals : Type := MkTotals { t_count : Z; t_len : Z; t_changed : Z; t_notices : list notice }.

Definition too_full (r : Request) (count len : Z) : bool :=
  parse_set r && my_user r && negb (opmode r) && ((av_ban_len r * max_bans r <? len) || (max_bans r <? count)).

Fixpoint process_loop (r : Request) (fuel : nat) (st : bstate) (head ban prevban : option bid) (t : totals) :
    outcome (bstate * option bid * totals) :=
  match ban with
  | None => Ok (st, head, t)
  | Some p =>
      match fuel with
      | O => Fuel
      | S fuel =>
          let* b := load (heap st) p in
          let banlen := Z.of_nat (length (banstr b)) in
          let count := t_count t + 1 in
          let len := t_len t + banlen in
          let nextban := b_next b in
          if has (b_flags b) BAN_DEL && has (b_flags b) BAN_ADD then
            let* (st, head) := cut_list st head prevban None in
            process_loop r fuel st head nextban prevban (MkTotals (count - 1) (len - banlen) (t_changed t) (t_notices t))
          else if has (b_flags b) BAN_DEL then
            let out := t_notices t ++ [ModeDel (banstr b)] in
            if parse_set r then
              let* (st, head) := cut_list st head prevban (b_next b) in
              let* st := free_ban st p in
              process_loop r fuel st head nextban prevban (MkTotals (count - 1) (len - banlen) (t_changed t + 1) out)
            else
              let st := set_heap st (<[p := set_flags b (Z.land (b_flags b) BAN_IPMASK)]> (heap st)) in
              process_loop r fuel st head nextban (Some p) (MkTotals count len (t_changed t) out)
          else if has (b_flags b) BAN_ADD then
            let* (st, head) := cut_list st head prevban None in
            if has (b_flags b) BAN_OVERLAPPED && negb (parse_bounce r) then
              process_loop r fuel st head nextban (Some p) (MkTotals (count - 1) (len - banlen) (t_changed t) (t_notices t))
            else if too_full r count len then
              process_loop r fuel st head nextban (Some p) (MkTotals (count - 1) (len - banlen) (t_changed t) (t_notices t ++ [ListFull (banstr b)]))
            else
              let out := t_notices t ++ [ModeAdd (banstr b)] in
              if parse_set r then
                let* (st, newban) := make_ban st (banstr b) in
                let* n := load (heap st) newban in
                let n := set_next (set_flags (set_origin n (b_who b) (b_when b)) (Z.land (b_flags b) BAN_IPMASK)) head in
                process_loop r fuel (set_heap st (<[newban := n]> (heap st))) (Some newban) nextban (Some p)
                  (MkTotals count len (t_changed t + 1) out)
              else process_loop r fuel st head nextban (Some p) (MkTotals count len (t_changed t) out)
          else process_loop r fuel st head nextban (Some p) (MkTotals count len (t_changed t) (t_notices t))
      end
  end.

(** Also says whether [mode_ban_invalidate] is called. *)
Definition mode_process_bans (r : Request) (s : ParseState) : outcome (ParseState * bool) :=
  let* (st', head, t) := process_loop r (S (size (heap (st s)))) (st s) (banlist s) (banlist s) None (MkTotals 0 0 0 []) in
  Ok (MkParse st' head (parv s) (max_args s) (ps_done s) (numbans s) (notices s ++ t_notices t), negb (t_changed t =? 0)).

(** ** Lists of bans in the heap *)
Fixpoint seg (h : bheap) (p : option bid) (L : list bid) (q : option bid) : Prop :=
  match L with
  | [] => p = q
  | b :: L => p = Some b /\ exists x, h !! b = Some x /\ seg h (b_next x) L q
  end.

Lemma seg_ext (h h' : bheap) (L : list bid) : forall p q, (forall b, b ∈ L -> option_map b_next (h' !! b) = option_map b_next (h !! b)) -> seg h p L q -> seg h' p L q.
Proof.
  induction L as [|b L IH]; intros p q E C; [done|]. destruct C as [-> (x & Hx & C)]. pose proof (E b ltac:(left)) as Eb. rewrite Hx in Eb.
  destruct (h' !! b) as [y|] eqn:Hy; [|done]. injection Eb as Eb. split; [done|]. exists y. split; [done|]. rewrite Eb. apply IH; [|done]. intros c Hc. apply E. by right.
Qed.

Lemma seg_app (h : bheap) (L M : list bid) : forall p q, seg h p (L ++ M) q <-> exists r, seg h p L r /\ seg h r M q.
Proof.
  induction L as [|b L IH]; intros p q; cbn [app seg].
  - split; [intros C; by exists p|]. by intros (r & -> & C).
  - split.
    + intros [-> (x & Hx & C)]. apply IH in C as (r & C1 & C2). exists r. split; [|done]. split; [done|]. by exists x.
    + intros (r & [-> (x & Hx & C1)] & C2). split; [done|]. exists x. split; [done|]. apply IH. by exists r.
Qed.

Lemma seg_snoc (h : bheap) (L : list bid) (b : bid) (p q : option bid) : seg h p (L ++ [b]) q <-> seg h p L (Some b) /\ exists x, h !! b = Some x /\ b_next x = q.
Proof.
  rewrite seg_app. cbn [seg]. split; [intros (r & C & -> & x & Hx & E); split; [done|]; by exists x|]. intros (C & x & Hx & E). exists (Some b). split; [done|]. split; [done|]. by exists x.
Qed.

Lemma seg_elem (h : bheap) (L : list bid) (b : bid) : forall p q, seg h p L q -> b ∈ L -> exists x, h !! b = Some x.
Proof.
  induction L as [|c L IH]; intros p q C H; [by apply elem_of_nil in H|]. destruct C as [-> (x & Hx & C)]. apply elem_of_cons in H as [->|H]; eauto.
Qed.

(** Writes that leave the list alone. *)
Lemma seg_other (h : bheap) (L : list bid) (b : bid) (x : Ban) (p q : option bid) : b ∉ L -> seg h p L q -> seg (<[b := x]> h) p L q.
Proof. intros N. apply seg_ext. intros c Hc. rewrite lookup_insert_ne; [done|]. by intros ->. Qed.

Lemma seg_same_next (h : bheap) (L : list bid) (b : bid) (x y : Ban) (p q : option bid) : h !! b = Some x -> b_next y = b_next x -> seg h p L q -> seg (<[b := y]> h) p L q.
Proof.
  intros Hx E. apply seg_ext. intros c _. destruct (decide (c = b)) as [->|N]; [by rewrite lookup_insert_eq, Hx; cbn; rewrite E|by rewrite lookup_insert_ne].
Qed.

(** Redirecting the last cell. *)
Lemma seg_redirect (h : bheap) (L : list bid) (b : bid) (x : Ban) (p q q' : option bid) : NoDup (L ++ [b]) -> h !! b = Some x ->
  seg h p (L ++ [b]) q -> seg (<[b := set_next x q']> h) p (L ++ [b]) q'.
Proof.
  intros N Hx [C _]%seg_snoc. apply NoDup_app in N as (_ & N & _). apply seg_snoc. split.
  - apply seg_other; [|done]. intros Hb. apply (N b Hb). by left.
  - exists (set_next x q'). by rewrite lookup_insert_eq.
Qed.

Lemma seg_size (h : bheap) (L : list bid) (p q : option bid) : NoDup L -> seg h p L q -> (length L <= size h)%nat.
Proof.
  intros N C. assert (list_to_set L ⊆ dom h) as S.
  { intros b Hb. apply elem_of_list_to_set in Hb. destruct (seg_elem h L b p q C Hb) as [x Hx]. apply elem_of_dom. by exists x. }
  apply subseteq_size in S. by rewrite size_dom, size_list_to_set in S.
Qed.

(** What the cells of a list hold, without the links. *)
Definition body (b : Ban) : Ban := set_next b None.
Definition contents (h : bheap) (L : list bid) : list Ban := omap (fun b => option_map body (h !! b)) L.

Lemma contents_app (h : bheap) (L M : list bid) : contents h (L ++ M) = contents h L ++ contents h M.
Proof. apply omap_app. Qed.
Lemma contents_ext (h h' : bheap) (L : list bid) : (forall b, b ∈ L -> option_map body (h' !! b) = option_map body (h !! b)) -> contents h' L = contents h L.
Proof.
  intros E. induction L as [|b L IH]; [done|]. change (contents ?k (b :: L)) with (contents k ([b] ++ L)). rewrite !contents_app, IH by (intros c Hc; apply E; by right).
  f_equal. unfold contents. cbn. by rewrite E by left.
Qed.
Lemma contents_other (h : bheap) (L : list bid) (b : bid) (x : Ban) : b ∉ L -> contents (<[b := x]> h) L = contents h L.
Proof. intros N. apply contents_ext. intros c Hc. rewrite lookup_insert_ne; [done|]. by intros ->. Qed.
Lemma contents_same (h : bheap) (L : list bid) (b : bid) (x y : Ban) : h !! b = Some x -> body y = body x -> contents (<[b := y]> h) L = contents h L.
Proof.
  intros Hx E. apply contents_ext. intros c _. destruct (decide (c = b)) as [->|N]; [by rewrite lookup_insert_eq, Hx; cbn; rewrite E|by rewrite lookup_insert_ne].
Qed.
Lemma contents_cons (h : bheap) (b : bid) (x : Ban) (L : list bid) : h !! b = Some x -> contents h (b :: L) = body x :: contents h L.
Proof. intros Hx. unfold contents. cbn. by rewrite Hx. Qed.

(** ** Well-formed bans *)
Record ban_wf (b : Ban) : Prop := {
  wf_at : banstr b !! nu_len b = Some "@"%char;
  wf_nu : (0 < nu_len b)%nat;
  wf_host : "@"%char ∉ drop (S (nu_len b)) (banstr b);
  wf_len : (length (banstr b) <= MASKLEN)%nat
}.

Definition nu_mask (b : Ban) : list ascii := take (nu_len b) (banstr b).
Definition host_mask (b : Ban) : list ascii := drop (S (nu_len b)) (banstr b).

Lemma wf_short (b : Ban) : ban_wf b -> (length (banstr b) <=? nu_len b)%nat = false.
Proof. intros W. apply Nat.leb_gt. apply (lookup_lt_Some _ _ _ (wf_at b W)). Qed.
Lemma wf_split (b : Ban) : ban_wf b -> banstr b = nu_mask b ++ "@"%char :: host_mask b.
Proof. intros W. unfold nu_mask, host_mask. rewrite <- (take_drop_middle _ _ _ (wf_at b W)) at 1. done. Qed.
Lemma wf_restore (b : Ban) : ban_wf b -> set_banstr b (<[nu_len b := "@"%char]> (banstr b)) = b.
Proof. intros W. rewrite list_insert_id by apply wf_at, W. by destruct b. Qed.
Lemma wf_nu_nonempty (b : Ban) : ban_wf b -> nu_mask b <> [].
Proof.
  intros W E. apply (f_equal length) in E. unfold nu_mask in E. rewrite length_take in E. pose proof (wf_nu b W). pose proof (lookup_lt_Some _ _ _ (wf_at b W)). cbn in E. lia.
Qed.
Lemma wf_nonempty (b : Ban) : ban_wf b -> banstr b <> [].
Proof. intros W E. pose proof (wf_at b W) as A. by rewrite E in A. Qed.
Lemma plain_nu (b : Ban) : plain (banstr b) -> plain (nu_mask b).
Proof. apply Forall_take. Qed.
Lemma plain_host (b : Ban) : plain (banstr b) -> plain (host_mask b).
Proof. apply Forall_drop. Qed.

(** The comparison without the heap. *)
Definition covers (old new : Ban) : outcome Z :=
  if negb (has (b_flags old) BAN_EXCEPTION) && has (b_flags new) BAN_EXCEPTION then Ok 1
  else if negb (has (Z.land (b_flags old) (b_flags new)) BAN_IPMASK) then mmatch (banstr old) (banstr new)
  else if addrbits new <? addrbits old then Ok 1
  else
    let* res := mmatch (nu_mask old) (nu_mask new) in
    if negb (res =? 0) then Ok res
    else if ipmask_check (address new) (address old) (addrbits old) =? 0 then Ok 1
    else mmatch (banstr old) (banstr new).
Definition cov (old new : Ban) : bool := match covers old new with Ok r => r =? 0 | _ => false end.

Lemma bmatch_pure (h : bheap) (o n : bid) (x y : Ban) : h !! o = Some x -> h !! n = Some y -> ban_wf x -> ban_wf y -> o <> n ->
  bmatch h o n = let* r := covers x y in Ok (h, r).
Proof.
  intros Hx Hy Wx Wy N. unfold bmatch, covers, load. rewrite Hx, Hy. cbn [obind]. do 3 (case_if; [done|]). rewrite !wf_short by done. cbn [orb].
  fold (nu_mask x) (nu_mask y). destruct (mmatch (nu_mask x) (nu_mask y)) as [res| |]; [|done|done]. cbn [obind]. rewrite !wf_restore by done.
  rewrite (insert_id h o x Hx), (insert_id h n y Hy). by repeat case_if.
Qed.

Lemma covers_total (x y : Ban) : ban_wf x -> ban_wf y -> exists r, covers x y = Ok r.
Proof.
  intros Wx Wy. destruct (mmatch_total (nu_mask x) (nu_mask y)) as (r1 & E1); [by apply wf_nu_nonempty|]. destruct (mmatch_total (banstr x) (banstr y)) as (r2 & E2); [by apply wf_nonempty|].
  unfold covers. rewrite E1, E2. cbn [obind]. repeat case_if; eauto.
Qed.

Lemma bmatch_cov (h : bheap) (o n : bid) (x y : Ban) : h !! o = Some x -> h !! n = Some y -> ban_wf x -> ban_wf y -> o <> n ->
  exists r, bmatch h o n = Ok (h, r) /\ (r =? 0) = cov x y.
Proof.
  intros Hx Hy Wx Wy N. rewrite (bmatch_pure h o n x y) by done. unfold cov. destruct (covers_total x y Wx Wy) as [r ->]. by exists r.
Qed.

Lemma body_wf (b : Ban) : ban_wf (body b) <-> ban_wf b.
Proof. split; intros []; by split. Qed.

(** ** [apply_ban] on lists of bans *)
Definition active (b : Ban) : bool := negb (has (b_flags b) BAN_DEL).
Definition mark (new b : Ban) : Ban := if cov new b then set_flags b (Z.lor (b_flags b) (Z.lor BAN_OVERLAPPED BAN_DEL)) else b.

Section Apply.
Context (newban : bid) (new : Ban) (Wnew : ban_wf new).

Lemma covered_spec (L : list bid) : forall fuel h p, h !! newban = Some new -> newban ∉ L -> seg h p L None -> Forall ban_wf (contents h L) -> (length L < fuel)%nat ->
  covered_loop fuel h p newban = Ok (h, existsb (fun b => cov b new && active b) (contents h L)).
Proof.
  induction L as [|b L IH]; intros fuel h p Hn N C W Lt; (destruct fuel as [|fuel]; [cbn in Lt; lia|]).
  - cbn in C. by rewrite C.
  - destruct C as [-> (x & Hx & C)]. rewrite (contents_cons h b x L Hx) in W |- *. inversion_clear W as [|? ? Wx WL]. apply (proj1 (body_wf x)) in Wx.
    cbn [covered_loop]. destruct (bmatch_cov h b newban x new Hx Hn Wx Wnew) as (r & -> & Er); [intros ->; apply N; left|].
    cbn [obind]. unfold load. rewrite Hx. cbn [obind existsb]. change (cov (body x) new) with (cov x new). change (active (body x)) with (active x). unfold active at 1.
    rewrite Er. destruct (cov x new && negb (has (b_flags x) BAN_DEL)); [done|]. cbn [orb]. apply IH; [done| |done|done|cbn in Lt; lia]. intros Hb. apply N. by right.
Qed.

Lemma mark_spec (L : list bid) : forall fuel h p l0 n, h !! newban = Some new -> newban ∉ L -> NoDup L -> seg h p L None -> Forall ban_wf (contents h L) -> (length L < fuel)%nat ->
  exists h', mark_loop fuel h p newban l0 n = Ok (h', match last L with Some l => Some l | None => l0 end, (n + length (List.filter (cov new) (contents h L)))%nat) /\
    seg h' p L None /\ contents h' L = map (mark new) (contents h L) /\ (forall b, b ∉ L -> h' !! b = h !! b) /\ dom h' = dom h.
Proof.
  induction L as [|b L IH]; intros fuel h p l0 n Hn N ND C W Lt; (destruct fuel as [|fuel]; [cbn in Lt; lia|]).
  - cbn in C. subst p. exists h. cbn. by rewrite Nat.add_0_r.
  - destruct C as [-> (x & Hx & C)]. rewrite (contents_cons h b x L Hx) in W |- *. inversion_clear W as [|? ? Wx WL]. apply (proj1 (body_wf x)) in Wx.
    apply NoDup_cons in ND as [Nb ND]. apply not_elem_of_cons in N as [Nn N].
    cbn [mark_loop]. destruct (bmatch_cov h newban b new x Hn Hx Wnew Wx) as (r & -> & Er); [done|].
    cbn [obind]. unfold load. rewrite Hx. cbn [obind]. rewrite Er.
    assert (exists y, h !! b = Some x /\ (if cov new x then <[b := set_flags x (Z.lor (b_flags x) (Z.lor BAN_OVERLAPPED BAN_DEL))]> h else h) = <[b := y]> h /\
      b_next y = b_next x /\ body y = mark new (body x)) as (y & _ & -> & Ny & By).
    { unfold mark. change (cov new (body x)) with (cov new x). destruct (cov new x); [by eexists|]. exists x. by rewrite (insert_id h b x Hx). }
    destruct (IH fuel (<[b := y]> h) (b_next x) (Some b) (if cov new x then S n else n)) as (h' & -> & C' & E' & O' & D'); [by rewrite lookup_insert_ne|done|done|by apply seg_other| |cbn in Lt; lia|].
    { by rewrite contents_other. }
    assert (h' !! b = Some y) as Hb by (rewrite O' by done; apply lookup_insert_eq).
    exists h'. split; [|split; [|split; [|split]]].
    + rewrite contents_other by done. cbn [List.filter]. change (cov new (body x)) with (cov new x). f_equal. f_equal; [f_equal|destruct (cov new x); cbn [length]; lia].
      destruct L as [|c L]; [done|]. rewrite last_cons_cons. by destruct (last (c :: L)) eqn:El; [|apply last_None in El].
    + split; [done|]. exists y. split; [done|]. by rewrite Ny.
    + rewrite (contents_cons h' b y L Hb), By, E'. cbn [map]. by rewrite contents_other.
    + intros c Hc. apply not_elem_of_cons in Hc as [Nc Hc]. by rewrite O', lookup_insert_ne.
    + rewrite D'. apply dom_insert_lookup_L. by exists x.
Qed.
End Apply.

(** ** Flags *)
Lemma has_bit (f k : Z) : 0 <= k -> has f (2 ^ k) = Z.testbit f k.
Proof.
  intros Hk. unfold has. assert (Z.land f (2 ^ k) = if Z.testbit f k then 2 ^ k else 0) as ->.
  { apply Z.bits_inj'. intros n Hn. rewrite Z.land_spec, Z.pow2_bits_eqb by done. destruct (Z.eqb_spec k n) as [->|N].
    - destruct (Z.testbit f n); [by rewrite Z.pow2_bits_true|by rewrite Z.bits_0].
    - rewrite andb_false_r. destruct (Z.testbit f k); [by rewrite Z.pow2_bits_false|by rewrite Z.bits_0]. }
  destruct (Z.testbit f k); [|done]. by rewrite (proj2 (Z.eqb_neq _ _)) by (apply Z.pow_nonzero; lia).
Qed.
Lemma has_land (f g : Z) : has (Z.land f g) BAN_IPMASK = has f BAN_IPMASK && has g BAN_IPMASK.
Proof. change BAN_IPMASK with (2 ^ 0). rewrite !has_bit by lia. apply Z.land_spec. Qed.

(** ** Whom a ban hits *)
Section Hits.
Context (trust : bool).

Definition hits (c : Who) (b : Ban) : bool :=
  if mask_matches (nu_mask b) (nu c) then
    (has (b_flags b) BAN_IPMASK && negb (ipmask_check (cli_ip c) (address b) (addrbits b) =? 0))
    || mask_matches (host_mask b) (host c) || mask_matches (host_mask b) (ircd_ntoa_r (cli_ip c))
    || (IsHiddenHost c && mask_matches (host_mask b) (realhost c))
  else match nuh_vis trust c with [] => false | _ :: _ => mask_matches (banstr b) (nuh_vis trust c) end.

(** What [match] reads as documented: no terminator inside, no dangling backslash, and no
    escaped character directly behind a star, in the mask and in its two parts. *)
Definition readable (m : list ascii) : Prop := no_nul m /\ mask_ok m = true.
Record ban_readable (b : Ban) : Prop := {
  rd_at : banstr b !! nu_len b = Some "@"%char;
  rd_nu : readable (nu_mask b);
  rd_host : readable (host_mask b);
  rd_all : readable (banstr b)
}.

Lemma match_readable (m s : list ascii) : readable m -> exists r, match_ m s = Ok r /\ (r =? 0) = mask_matches m s.
Proof. intros [N T]. rewrite match_decides by done. by destruct (mask_matches m s); eexists. Qed.

Lemma ban_test_spec (c : Who) (b : Ban) : ban_readable b -> ban_test trust c b = Ok (b, hits c b).
Proof.
  intros [A Rn Rh Ra]. unfold ban_test, hits. rewrite (proj2 (Nat.leb_gt _ _) (lookup_lt_Some _ _ _ A)). fold (nu_mask b). destruct (match_readable (nu_mask b) (nu c) Rn) as (r & -> & Er). cbn [obind].
  assert (set_banstr b (<[nu_len b := "@"%char]> (banstr b)) = b) as -> by (rewrite list_insert_id by done; by destruct b). fold (host_mask b). rewrite Er. destruct (mask_matches (nu_mask b) (nu c)); cbn [negb].
  - case_if; [done|]. pose proof (fun s => match_readable (host_mask b) s Rh) as M.
    destruct (M (host c)) as (r1 & -> & E1). cbn [obind orb]. rewrite E1. destruct (mask_matches (host_mask b) (host c)); [done|].
    destruct (M (ircd_ntoa_r (cli_ip c))) as (r2 & -> & E2). cbn [obind orb]. rewrite E2. destruct (mask_matches (host_mask b) (ircd_ntoa_r (cli_ip c))); [done|].
    destruct (IsHiddenHost c); [|done]. destruct (M (realhost c)) as (r3 & -> & E3). cbn [obind andb]. by rewrite E3.
  - destruct (nuh_vis trust c) as [|v vs]; [done|]. destruct (match_readable (banstr b) (v :: vs) Ra) as (r1 & -> & E1). cbn [obind]. by rewrite E1.
Qed.
Lemma body_readable (b : Ban) : ban_readable (body b) <-> ban_readable b.
Proof. split; intros []; by split. Qed.

(** The ban that decides: none when an exception hits, else the first that hits. *)
Definition exception (b : Ban) : bool := has (b_flags b) BAN_EXCEPTION.
Fixpoint first_hit (h : bheap) (c : Who) (L : list bid) : option bid :=
  match L with
  | [] => None
  | p :: L => match h !! p with Some b => if negb (exception b) && hits c b then Some p else first_hit h c L | None => None end
  end.
Definition decisive (h : bheap) (c : Who) (L : list bid) (found : option bid) : option bid :=
  if existsb (fun b => exception b && hits c b) (contents h L) then None
  else match found with Some _ => found | None => first_hit h c L end.

Lemma find_loop_spec (c : Who) (L : list bid) : forall fuel h p found, seg h p L None -> Forall ban_readable (contents h L) -> (length L < fuel)%nat ->
  find_loop trust fuel h c p found = Ok (h, decisive h c L found).
Proof.
  induction L as [|b L IH]; intros fuel h p found C W Lt; (destruct fuel as [|fuel]; [cbn in Lt; lia|]).
  - cbn in C. rewrite C. by destruct found.
  - destruct C as [-> (x & Hx & C)]. cbn [find_loop]. unfold decisive in *. rewrite (contents_cons h b x L Hx) in W |- *. inversion_clear W as [|? ? Wx WL].
    apply (proj1 (body_readable x)) in Wx. unfold load. rewrite Hx. cbn [obind existsb first_hit]. rewrite Hx.
    change (exception (body x)) with (exception x). change (hits c (body x)) with (hits c x). fold (exception x). cbn [length] in Lt.
    destruct (match found with Some _ => negb (exception x) | None => false end) eqn:Ef.
    + destruct found as [f|]; [|done]. apply negb_true_iff in Ef. rewrite Ef. cbn [andb orb]. apply IH; [done|done|lia].
    + rewrite ban_test_spec by done. cbn [obind]. rewrite (insert_id h b x Hx). destruct (hits c x); cbn [negb]; rewrite ?andb_false_r, ?andb_true_r; cbn [orb].
      * fold (exception x). destruct (exception x); [done|]. cbn [orb negb]. rewrite IH by (done || lia). destruct found as [f|]; [done|]. done.
      * apply IH; [done|done|lia].
Qed.

(** *** A ban that covers another hits whomever the other hits *)
Record who_ok (c : Who) : Prop := {
  ok_name : ("@"%char ∉ cli_name c) /\ (length (cli_name c) <= NICKLEN)%nat;
  ok_user : ("@"%char ∉ username c) /\ (length (username c) <= USERLEN)%nat;
  ok_host : ("@"%char ∉ host c) /\ (length (host c) <= HOSTLEN)%nat;
  ok_real : "@"%char ∉ realhost c;
  ok_ip : addr_wf (cli_ip c)
}.

(** A mask with one place for the ['@'] splits a name with one ['@'] there. *)
Lemma fold_at (c : ascii) : ToLower "@" = ToLower c -> c = "@"%char.
Proof.
  intros E. pose proof (forall_chars (fun c => implb (ToLower "@" =c ToLower c) (c =c "@")) c ltac:(vm_compute; reflexivity)) as F. cbv beta in F.
  rewrite E, Ascii.eqb_refl in F. by apply Ascii.eqb_eq.
Qed.

Lemma at_unique (s1 s2 t1 t2 : list ascii) : s1 ++ "@"%char :: s2 = t1 ++ "@"%char :: t2 -> "@"%char ∉ t1 -> "@"%char ∉ t2 -> s1 = t1 /\ s2 = t2.
Proof.
  revert t1. induction s1 as [|a s1 IH]; intros [|b t1] E N1 N2; cbn in E.
  - by injection E as ->.
  - injection E as <- ->. by apply not_elem_of_cons in N1 as [? _].
  - injection E as -> <-. exfalso. apply N2. apply elem_of_app. right. left.
  - injection E as -> E. apply not_elem_of_cons in N1 as [_ N1]. by destruct (IH t1 E N1 N2) as [-> ->].
Qed.

Lemma lang_at (A B s t : list ascii) : "@"%char ∉ s -> "@"%char ∉ t ->
  lang (A ++ "@"%char :: B) (s ++ "@"%char :: t) = lang A s && lang B t.
Proof.
  intros Ns Nt. apply eq_true_iff_eq. rewrite andb_true_iff, lang_app. split.
  - intros (s1 & s2 & E & H1 & H2). rewrite lang_cons in H2 by done. destruct s2 as [|c s2]; [done|]. apply andb_true_iff in H2 as [Hc H2].
    assert (c = "@"%char) as -> by (apply fold_at; by apply Ascii.eqb_eq in Hc). symmetry in E. by apply at_unique in E as [-> ->].
  - intros [H1 H2]. exists s, ("@"%char :: t). split; [done|]. split; [done|]. rewrite lang_cons by done. by rewrite H2.
Qed.

Lemma split_matches (b : Ban) (s t : list ascii) : ban_wf b -> plain (banstr b) -> "@"%char ∉ s -> "@"%char ∉ t ->
  mask_matches (banstr b) (s ++ "@"%char :: t) = mask_matches (nu_mask b) s && mask_matches (host_mask b) t.
Proof.
  intros W P Ns Nt. rewrite !mask_lang by (done || by apply plain_nu || by apply plain_host). rewrite (wf_split b W) at 1. by apply lang_at.
Qed.

Lemma nu_full (c : Who) : who_ok c -> nu c = cli_name c ++ "!"%char :: username c.
Proof. intros []. unfold nu. apply take_ge. rewrite length_app. cbn [length]. unfold NICKLEN, USERLEN in *. lia. Qed.
Lemma nu_no_at (c : Who) : who_ok c -> "@"%char ∉ nu c.
Proof. intros W. rewrite nu_full by done. destruct W as [[Hn _] [Hu _] _ _ _]. rewrite elem_of_app, elem_of_cons. by intros [?|[?|?]]. Qed.

Lemma vis_no_at (c : Who) : who_ok c -> "@"%char ∉ cli_name c ++ "!"%char :: visible_username trust c.
Proof.
  intros W. destruct W as [[Hn _] [Hu _] _ _ _]. rewrite elem_of_app, elem_of_cons. intros [?|[?|H]]; [done|done|]. apply Hu. unfold visible_username in H.
  case_if_in H; [|done]. destruct (username c); [done|]. by right.
Qed.
Lemma vis_full (c : Who) : who_ok c -> nuh_vis trust c =
  if tilde_hidden trust c then (cli_name c ++ "!"%char :: visible_username trust c) ++ "@"%char :: host c else [].
Proof.
  intros W. unfold nuh_vis. case_if; [|done]. rewrite <- app_assoc. apply take_ge. destruct W as [[_ Ln] [_ Lu] [_ Lh] _ _]. rewrite length_app. cbn [length app]. rewrite length_app. cbn [length].
  assert (length (visible_username trust c) <= length (username c))%nat by (unfold visible_username; case_if; [destruct (username c); cbn; lia|done]).
  unfold MASKLEN, NICKLEN, USERLEN, HOSTLEN in *. lia.
Qed.

Lemma iphost_no_at (c : Who) : who_ok c -> "@"%char ∉ ircd_ntoa_r (cli_ip c).
Proof.
  intros W. pose proof (ntoa_chars (fun d => d <> "@"%char) (cli_ip c)) as F. rewrite Forall_forall in F. intros H. apply (F ltac:(
    intros d Hd E; assert (forallb (fun d => negb (hexdigit d =c "@")) [0; 1; 2; 3; 4; 5; 6; 7; 8; 9; 10; 11; 12; 13; 14; 15] = true) as A by reflexivity;
    rewrite forallb_forall in A; specialize (A d (in_sixteen d Hd)); rewrite E in A; done) ltac:(done) ltac:(done) (ok_ip c W) _ H eq_refl).
Qed.

(** The host names a user is matched under, and the hits by mask only. *)
Definition names (c : Who) : list (list ascii) := host c :: ircd_ntoa_r (cli_ip c) :: (if IsHiddenHost c then [realhost c] else []).
Definition by_mask (c : Who) (b : Ban) : bool := mask_matches (nu_mask b) (nu c) && existsb (mask_matches (host_mask b)) (names c).
Definition by_ip (c : Who) (b : Ban) : bool :=
  mask_matches (nu_mask b) (nu c) && has (b_flags b) BAN_IPMASK && negb (ipmask_check (cli_ip c) (address b) (addrbits b) =? 0).
Definition by_vis (c : Who) (b : Ban) : bool :=
  tilde_hidden trust c && mask_matches (nu_mask b) (cli_name c ++ "!"%char :: visible_username trust c) && mask_matches (host_mask b) (host c).

Lemma hits_cases (c : Who) (b : Ban) : who_ok c -> ban_wf b -> plain (banstr b) -> hits c b = by_mask c b || by_ip c b || by_vis c b.
Proof.
  intros Wc Wb Pb. unfold hits, by_mask, by_ip, by_vis, names. rewrite vis_full by done. destruct (mask_matches (nu_mask b) (nu c)); cbn [andb orb existsb].
  - destruct (has (b_flags b) BAN_IPMASK && negb (ipmask_check (cli_ip c) (address b) (addrbits b) =? 0)); cbn [orb]; [by rewrite orb_true_r|]. rewrite orb_false_r.
    destruct (mask_matches (host_mask b) (host c)); [done|]. cbn [orb]. rewrite andb_false_r, orb_false_r. by destruct (IsHiddenHost c); cbn [existsb andb]; rewrite ?orb_false_r.
  - destruct (tilde_hidden trust c); [|done]. cbn [andb]. rewrite split_matches; [|done|done|by apply vis_no_at|by destruct (ok_host c Wc)]. by destruct (cli_name c).
Qed.

Definition addr_ok (b : Ban) : Prop := addr_wf (address b) /\ 0 <= addrbits b <= 128.

Lemma nu_incl (c : Who) (old new : Ban) : plain (banstr old) -> ban_wf new -> plain (banstr new) -> mmatch (nu_mask new) (nu_mask old) = Ok 0 ->
  mask_matches (nu_mask old) (nu c) = true -> mask_matches (nu_mask new) (nu c) = true.
Proof.
  intros Po Wn Pn E. destruct (mmatch_spec (nu_mask new) (nu_mask old)) as (r & E' & _ & I & _); [by apply plain_nu|by apply plain_nu|by apply wf_nu_nonempty|].
  rewrite E in E'. injection E' as <-. by apply I.
Qed.

Lemma text_incl (c : Who) (old new : Ban) : who_ok c -> ban_wf old -> plain (banstr old) -> ban_wf new -> plain (banstr new) -> mmatch (banstr new) (banstr old) = Ok 0 ->
  (by_mask c old = true -> by_mask c new = true) /\ (by_vis c old = true -> by_vis c new = true).
Proof.
  intros Wc Wo Po Wn Pn E. destruct (mmatch_spec (banstr new) (banstr old)) as (r & E' & _ & I & _); [done|done|by apply wf_nonempty|]. rewrite E in E'. injection E' as <-. specialize (I eq_refl).
  assert (forall s t, "@"%char ∉ s -> "@"%char ∉ t -> mask_matches (nu_mask old) s = true -> mask_matches (host_mask old) t = true ->
    mask_matches (nu_mask new) s = true /\ mask_matches (host_mask new) t = true) as K.
  { intros s t Ns Nt Hs Ht. specialize (I (s ++ "@"%char :: t)). rewrite !split_matches, Hs, Ht in I by done. by apply andb_true_iff, I. }
  split.
  - unfold by_mask. intros [Hn Hh]%andb_true_iff. apply existsb_exists in Hh as (t & Ht & Hh).
    assert ("@"%char ∉ t) as Nt.
    { unfold names in Ht. destruct Ht as [<-|[<-|Ht]]; [by destruct (ok_host c Wc)|by apply iphost_no_at|]. destruct (IsHiddenHost c); [|done]. destruct Ht as [<-|[]]. apply Wc. }
    destruct (K (nu c) t (nu_no_at c Wc) Nt Hn Hh) as [K1 K2]. rewrite K1. cbn [andb]. apply existsb_exists. by exists t.
  - unfold by_vis. intros [[Ht Hn]%andb_true_iff Hh]%andb_true_iff. destruct (K _ _ (vis_no_at c Wc) (proj1 (ok_host c Wc)) Hn Hh) as [-> ->]. by rewrite Ht.
Qed.

Lemma ip_incl (c : Who) (old new : Ban) : who_ok c -> addr_ok old -> addr_ok new -> addrbits new <= addrbits old ->
  ipmask_check (address old) (address new) (addrbits new) <> 0 -> ipmask_check (cli_ip c) (address old) (addrbits old) <> 0 ->
  ipmask_check (cli_ip c) (address new) (addrbits new) <> 0.
Proof.
  intros Wc [Ao Bo] [An Bn] Le H1 H2. pose proof (ok_ip c Wc) as Ac. rewrite ipmask_check_decides in * by done. case_if_in H1; [|done]. case_if_in H2; [|done]. reflect.
  rewrite (prefix_shorter (cli_ip c) (address old) (addrbits old) (addrbits new)) by (done || lia). rewrite Heqb. by rewrite Z.eqb_refl.
Qed.

Lemma cov_hits (c : Who) (old new : Ban) : who_ok c -> ban_wf old -> plain (banstr old) -> ban_wf new -> plain (banstr new) -> addr_ok old -> addr_ok new ->
  (has (b_flags old) BAN_IPMASK = true -> has (b_flags new) BAN_IPMASK = true) ->
  cov new old = true -> hits c old = true -> hits c new = true.
Proof.
  intros Wc Wo Po Wn Pn Ao An Hip Hc. rewrite !hits_cases by done. unfold cov, covers in Hc. case_if_in Hc; [done|]. rewrite has_land in Hc.
  destruct (has (b_flags old) BAN_IPMASK) eqn:Eo.
  - rewrite (Hip eq_refl) in Hc. cbn [andb negb] in Hc. case_if_in Hc; [done|]. reflect.
    destruct (mmatch (nu_mask new) (nu_mask old)) as [r1| |] eqn:E1; [|done|done]. cbn [obind] in Hc. destruct (Z.eqb_spec r1 0) as [->|]; cbn [negb] in Hc; [|by rewrite (proj2 (Z.eqb_neq _ _)) in Hc].
    case_if_in Hc; [done|]. reflect. destruct (mmatch (banstr new) (banstr old)) as [r2| |] eqn:E2; [|done|done]. apply Z.eqb_eq in Hc as ->.
    destruct (text_incl c old new Wc Wo Po Wn Pn E2) as [T1 T2]. intros [[H|H]%orb_true_iff|H]%orb_true_iff; [by rewrite T1| |by rewrite T2, orb_true_r].
    apply orb_true_iff. left. apply orb_true_iff. right. unfold by_ip in *. rewrite (Hip eq_refl). rewrite Eo, andb_true_r in H. apply andb_true_iff in H as [Hn Hi].
    rewrite (nu_incl c old new Po Wn Pn E1 Hn). cbn [andb]. apply negb_true_iff, Z.eqb_neq. apply negb_true_iff, Z.eqb_neq in Hi. by apply (ip_incl c old new).
  - rewrite andb_false_r in Hc. cbn [negb] in Hc. destruct (mmatch (banstr new) (banstr old)) as [r2| |] eqn:E2; [|done|done]. apply Z.eqb_eq in Hc as ->.
    destruct (text_incl c old new Wc Wo Po Wn Pn E2) as [T1 T2]. intros [[H|H]%orb_true_iff|H]%orb_true_iff; [by rewrite T1| |by rewrite T2, orb_true_r].
    unfold by_ip in H. by rewrite Eo, andb_false_r in H.
Qed.
End Hits.

Ltac bits := repeat match goal with
  | |- context [BAN_IPMASK] => change BAN_IPMASK with (2 ^ 0)
  | |- context [BAN_OVERLAPPED] => change BAN_OVERLAPPED with (2 ^ 1)
  | |- context [BAN_EXCEPTION] => change BAN_EXCEPTION with (2 ^ 4)
  | |- context [BAN_DEL] => change BAN_DEL with (2 ^ 14)
  | |- context [BAN_ADD] => change BAN_ADD with (2 ^ 15)
  end; rewrite ?has_bit by lia; rewrite ?Z.lor_spec, ?Z.land_spec, ?Z.ldiff_spec, ?Z.lor_spec, ?Z.pow2_bits_eqb by lia; cbn [Z.eqb Pos.eqb]; rewrite ?andb_true_r, ?andb_false_r, ?orb_false_r, ?orb_true_r.

Lemma mark_del (f : Z) : has (Z.lor f (Z.lor BAN_OVERLAPPED BAN_DEL)) BAN_DEL = true.
Proof. bits. done. Qed.
Lemma mark_keeps (f m : Z) : m ∈ [BAN_IPMASK; BAN_EXCEPTION; BAN_ADD] -> has (Z.lor f (Z.lor BAN_OVERLAPPED BAN_DEL)) m = has f m.
Proof. rewrite !elem_of_cons, elem_of_nil. intros [->|[->|[->|[]]]]; bits; done. Qed.

Lemma set_heap_id (st : bstate) : set_heap st (heap st) = st.
Proof. by destruct st. Qed.

(** ** What [apply_ban] does *)
Section ApplySpec.
Context (st : bstate) (head : option bid) (L : list bid) (newban : bid) (new : Ban).
Context (Hnew : heap st !! newban = Some new) (Nnew : newban ∉ L) (ND : NoDup L) (C : seg (heap st) head L None).
Context (Wnew : ban_wf new) (W : Forall ban_wf (contents (heap st) L)).

Abbreviation l := (contents (heap st) L).

(** What [free_ban] leaves when the ban is given up. *)
Definition dropped (do_free : bool) : bstate :=
  if do_free then BState (<[newban := set_next new (free_bans st)]> (heap st)) (Some newban) (bans_alloc st) (bans_inuse st - 1) (fresh st) else st.

Lemma drop_spec (do_free : bool) : drop_ban st newban do_free = Ok (dropped do_free).
Proof. destruct do_free; [|done]. cbn. unfold free_ban, load. by rewrite Hnew. Qed.
Lemma dropped_list (do_free : bool) : seg (heap (dropped do_free)) head L None /\ contents (heap (dropped do_free)) L = l.
Proof. destruct do_free; [|done]. cbn [heap dropped]. split; [by apply seg_other|by apply contents_other]. Qed.

Lemma fuel_enough : (length L < S (size (heap st)))%nat.
Proof. pose proof (seg_size _ _ _ _ ND C). lia. Qed.

Lemma apply_add (do_free : bool) : has (b_flags new) BAN_ADD = true -> b_next new = None ->
  exists st' head' L' rc, apply_ban st head newban do_free = Ok (st', head', rc) /\ seg (heap st') head' L' None /\
    if existsb (fun b => cov b new && active b) l
    then rc = 1 /\ st' = dropped do_free /\ head' = head /\ L' = L /\ contents (heap st') L' = l
    else rc = 0 /\ L' = L ++ [newban] /\ contents (heap st') L' = map (mark new) l ++ [body new] /\
         st' = set_heap st (heap st') /\ (forall b, b ∉ L -> heap st' !! b = heap st !! b) /\ dom (heap st') = dom (heap st).
Proof.
  intros Ha Nx. unfold apply_ban. unfold load at 1. rewrite Hnew. cbn [obind]. rewrite Ha. rewrite (covered_spec newban new Wnew L) by (done || apply fuel_enough). cbn [obind].
  rewrite set_heap_id. destruct (existsb _ l).
  - rewrite drop_spec. cbn [obind]. destruct (dropped_list do_free) as [D1 D2]. exists (dropped do_free), head, L, 1. by repeat split.
  - destruct (mark_spec newban new Wnew L (S (size (heap st))) (heap st) head None 0%nat) as (h' & -> & C' & E' & O' & D'); [done|done|done|done|done|apply fuel_enough|].
    cbn [obind]. destruct (last L) as [b|] eqn:El.
    + apply last_Some in El as [K EK]. assert (b ∈ L) as Hb by (rewrite EK; apply elem_of_app; right; left). destruct (seg_elem _ _ b _ _ C' Hb) as [x Hx].
      unfold load. rewrite Hx. cbn [obind]. eexists _, head, (L ++ [newban]), 0. split; [done|]. cbn [heap set_heap].
      assert (<[b := set_next x (Some newban)]> h' !! newban = Some new) as Hn' by (rewrite lookup_insert_ne by congruence; by rewrite O').
      split; [|split; [done|split; [done|split; [|split; [done|split]]]]].
      * apply seg_snoc. split; [|by exists new]. rewrite EK in *. by apply (seg_redirect h' K b x head None).
      * rewrite contents_app. f_equal; [|by rewrite (contents_cons _ _ _ [] Hn')]. rewrite <- E'. by apply contents_same with x.
      * intros c Hc. rewrite lookup_insert_ne by congruence. by apply O'.
      * rewrite <- D'. apply dom_insert_lookup_L. by exists x.
    + apply last_None in El. cbn [obind]. eexists _, (Some newban), [newban], 0. split; [done|]. cbn [heap set_heap]. assert (h' !! newban = Some new) as Hn' by (by rewrite O').
      split; [split; [done|]; by exists new|]. split; [done|]. split; [by rewrite El|]. split; [|auto]. rewrite (contents_cons _ _ _ [] Hn'), <- E', El. done.
Qed.

Lemma apply_del (do_free : bool) : has (b_flags new) BAN_ADD = false -> has (b_flags new) BAN_DEL = true ->
  exists st' rc, apply_ban st head newban do_free = Ok (st', head, rc) /\ seg (heap st') head L None /\ contents (heap st') L = map (mark new) l /\
    rc = (if existsb (cov new) l then 0 else 3) /\
    (existsb (cov new) l = true \/ do_free = false -> st' = set_heap st (heap st') /\ (forall b, b ∉ L -> heap st' !! b = heap st !! b) /\ dom (heap st') = dom (heap st)).
Proof.
  intros Ha Hd. unfold apply_ban. unfold load at 1. rewrite Hnew. cbn [obind]. rewrite Ha, Hd.
  destruct (mark_spec newban new Wnew L (S (size (heap st))) (heap st) head None 0%nat) as (h' & -> & C' & E' & O' & D'); [done|done|done|done|done|apply fuel_enough|]. cbn [obind Nat.add].
  assert (existsb (cov new) l = negb (length (List.filter (cov new) l) =? 0)%nat) as Ee.
  { clear. induction l as [|b k IH]; [done|]. cbn. by destruct (cov new b). }
  destruct (length (List.filter (cov new) l)) as [|n] eqn:En; cbn [Nat.eqb negb] in Ee; rewrite Ee.
  - assert (h' !! newban = Some new) as Hn' by (by rewrite O'). destruct do_free; cbn [drop_ban obind].
    + unfold free_ban, load. cbn [heap set_heap]. rewrite Hn'. cbn [obind]. eexists _, 3. split; [done|]. cbn [heap]. split; [by apply seg_other|]. split; [by rewrite contents_other|]. split; [done|]. by intros [|].
    + eexists _, 3. do 4 (split; [done|]). intros _. split; [done|]. by split.
  - eexists _, 0. do 4 (split; [done|]). intros _. split; [done|]. by split.
Qed.
End ApplySpec.

(** ** What the lists mean *)
Definition listed (trust : bool) (c : Who) (l : list Ban) : bool := existsb (fun b => active b && hits trust c b) l.

(** No active entry covers another. *)
Definition antichain (l : list Ban) : Prop :=
  forall i j x y, i <> j -> l !! i = Some x -> l !! j = Some y -> active x = true -> active y = true -> cov x y = false.

(** An address ban is covered by address bans only. *)
Definition ip_compat (new : Ban) (l : list Ban) : Prop :=
  Forall (fun b => (cov new b = true -> has (b_flags b) BAN_IPMASK = true -> has (b_flags new) BAN_IPMASK = true) /\
                   (cov b new = true -> has (b_flags new) BAN_IPMASK = true -> has (b_flags b) BAN_IPMASK = true)) l.

Lemma active_mark (new b : Ban) : active (mark new b) = active b && negb (cov new b).
Proof. unfold mark, active. destruct (cov new b); [by cbn [b_flags set_flags]; rewrite mark_del, andb_false_r|by rewrite andb_true_r]. Qed.
Lemma mark_idle (new b : Ban) : active (mark new b) = true -> mark new b = b.
Proof. rewrite active_mark. unfold mark. destruct (cov new b); [by rewrite andb_false_r|done]. Qed.
Lemma mark_wf (new b : Ban) : ban_wf b -> ban_wf (mark new b).
Proof. intros []. unfold mark. by destruct (cov new b). Qed.

Lemma antichain_add (new : Ban) (l : list Ban) : antichain l -> existsb (fun b => cov b new && active b) l = false ->
  antichain (map (mark new) l ++ [body new]).
Proof.
  intros A E i j x y N Hi Hj Ax Ay.
  assert (forall k z, map (mark new) l !! k = Some z -> active z = true -> l !! k = Some z /\ cov new z = false /\ cov z new = false) as K.
  { intros k z Hk Az. rewrite list_lookup_fmap in Hk. destruct (l !! k) as [b|] eqn:Eb; [|done]. injection Hk as <-. pose proof (mark_idle new b Az) as Em.
    rewrite active_mark in Az. apply andb_true_iff in Az as [Ab Cb%negb_true_iff]. rewrite Em. split; [done|]. split; [done|].
    destruct (cov b new) eqn:Cz; [|done]. assert (existsb (fun b => cov b new && active b) l = true) as F; [|congruence].
    apply existsb_exists. exists b. split; [apply list_elem_of_In; by apply list_elem_of_lookup_2 with k|]. by rewrite Cz, Ab. }
  apply lookup_app_Some in Hi as [Hi|[Li Hi]]; apply lookup_app_Some in Hj as [Hj|[Lj Hj]].
  - destruct (K _ _ Hi Ax) as (Hi' & _). destruct (K _ _ Hj Ay) as (Hj' & _). by apply (A i j).
  - destruct (K _ _ Hi Ax) as (_ & _ & C). apply list_lookup_singleton_Some in Hj as [_ <-]. exact C.
  - destruct (K _ _ Hj Ay) as (_ & C & _). apply list_lookup_singleton_Some in Hi as [_ <-]. exact C.
  - apply list_lookup_singleton_Some in Hi as [Zi _]. apply list_lookup_singleton_Some in Hj as [Zj _]. lia.
Qed.

(** Masks whose comparison means what it should: no backslashes, addresses in range, and an
    address ban compared with address bans only. *)
Definition comparable (new : Ban) (l : list Ban) : Prop := Forall (fun b => plain (banstr b) /\ addr_ok b) (new :: l) /\ ip_compat new l.

Section Listed.
Context (trust : bool) (c : Who) (new : Ban).

Lemma hits_mark (b : Ban) : hits trust c (mark new b) = hits trust c b.
Proof. unfold mark. destruct (cov new b); [|done]. unfold hits. cbn [b_flags set_flags]. rewrite mark_keeps by (by left). done. Qed.
Lemma listed_added (l : list Ban) : active new = true ->
  listed trust c (map (mark new) l ++ [body new]) = existsb (fun b => active b && negb (cov new b) && hits trust c b) l || hits trust c new.
Proof.
  intros An. unfold listed. rewrite existsb_app. cbn [existsb]. change (active (body new)) with (active new). change (hits trust c (body new)) with (hits trust c new). rewrite An, orb_false_r. cbn [andb]. f_equal.
  induction l as [|b l IH]; [done|]. cbn [map existsb]. by rewrite IH, active_mark, hits_mark.
Qed.
Lemma kept_listed (l : list Ban) : existsb (fun b => active b && negb (cov new b) && hits trust c b) l = true -> listed trust c l = true.
Proof. unfold listed. rewrite !existsb_exists. intros (b & Hb & H). exists b. split; [done|]. by destruct (active b), (cov new b). Qed.

Context (Wc : who_ok c) (Wnew : ban_wf new).

Lemma listed_refused (l : list Ban) : Forall ban_wf l -> comparable new l ->
  existsb (fun b => cov b new && active b) l = true -> hits trust c new = true -> listed trust c l = true.
Proof.
  intros W [P I] E H. inversion_clear P as [|? ? [Pn An] Pl]. apply existsb_exists in E as (b & Hb & [Cb Ab]%andb_true_iff). apply existsb_exists. exists b. split; [done|]. rewrite Ab. cbn [andb].
  unfold ip_compat in I. rewrite List.Forall_forall in W, Pl, I. apply (cov_hits trust c new b); try done; [by apply W|by apply Pl|by apply Pl|]. by apply I.
Qed.

Lemma kept_or_new (l : list Ban) : Forall ban_wf l -> comparable new l ->
  existsb (fun b => active b && negb (cov new b) && hits trust c b) l || hits trust c new = listed trust c l || hits trust c new.
Proof.
  intros W [P I]. inversion_clear P as [|? ? [Pn An] Pl]. unfold listed. induction l as [|b l IH]; [done|]. inversion_clear W as [|? ? Wb Wl]. inversion_clear Pl as [|? ? [Pb Ab] Pl']. inversion_clear I as [|? ? Ib Il].
  cbn [existsb]. rewrite <- !orb_assoc, IH by done. destruct (cov new b) eqn:Cb; cbn [negb]; rewrite ?andb_true_r, ?andb_false_r; [|done]. cbn [andb orb].
  destruct (active b && hits trust c b) eqn:Eb; [|done]. apply andb_true_iff in Eb as [_ Hb]. rewrite (cov_hits trust c b new); try done; [by rewrite orb_true_r|]. by apply Ib.
Qed.
End Listed.

(** C2: [apply_ban] with [BAN_ADD] returns on every list of bans of the form nick!user@host.
    It answers 1, and leaves the list as it was, exactly when an active entry covers the new
    one, else it appends the new one and marks for removal what it covers.  It never bans
    anyone the new entry does not hit; no active entry covers another if none did before.
    When the masks are [comparable] (none has a backslash, and an address ban is not compared
    with a text mask) it lets nobody in either: a user is hit by an active entry afterwards
    exactly when he was hit by one before or the new entry hits him.  For masks that are not
    this fails: see [text_ban_drops_cidr]. *)
Theorem apply_ban_add (st : bstate) (head : option bid) (L : list bid) (newban : bid) (new : Ban) (do_free : bool) :
  heap st !! newban = Some new -> newban ∉ L -> NoDup L -> seg (heap st) head L None -> ban_wf new -> Forall ban_wf (contents (heap st) L) ->
  has (b_flags new) BAN_ADD = true -> active new = true -> b_next new = None ->
  exists st' head' L' rc, apply_ban st head newban do_free = Ok (st', head', rc) /\ seg (heap st') head' L' None /\
    (rc, L') = (if existsb (fun b => cov b new && active b) (contents (heap st) L) then (1, L) else (0, L ++ [newban])) /\
    contents (heap st') L' = (if existsb (fun b => cov b new && active b) (contents (heap st) L) then contents (heap st) L else map (mark new) (contents (heap st) L) ++ [body new]) /\
    (forall trust c, listed trust c (contents (heap st') L') = true -> listed trust c (contents (heap st) L) || hits trust c new = true) /\
    (comparable new (contents (heap st) L) -> forall trust c, who_ok c -> listed trust c (contents (heap st') L') = listed trust c (contents (heap st) L) || hits trust c new) /\
    (antichain (contents (heap st) L) -> antichain (contents (heap st') L')).
Proof.
  intros Hn N ND C Wn W Ha Act Nx. destruct (apply_add st head L newban new Hn N ND C Wn W do_free Ha Nx) as (st' & head' & L' & rc & E & C' & S).
  exists st', head', L', rc. split; [done|]. split; [done|]. destruct (existsb _ (contents (heap st) L)) eqn:Ex.
  - destruct S as (-> & _ & _ & -> & ->). split; [done|]. split; [done|]. split; [intros trust c ->; done|]. split; [|done]. intros K trust c Wc. destruct (hits trust c new) eqn:H; [|by rewrite orb_false_r].
    rewrite orb_true_r. by apply (listed_refused trust c new Wc Wn).
  - destruct S as (-> & -> & -> & _). split; [done|]. split; [done|]. split; [|split; [|intros K; by apply antichain_add]].
    + intros trust c. rewrite listed_added by done. intros [H|H]%orb_true_iff; [by rewrite (kept_listed trust c new _ H)|by rewrite H, orb_true_r].
    + intros K trust c Wc. rewrite listed_added by done. by apply kept_or_new.
Qed.

(** ** The second half of [MODE +b] *)
Definition is_heap (p : bid) : Prop := match p with inl _ => True | inr _ => False end.
Definition is_stack (p : bid) : Prop := match p with inl _ => False | inr _ => True end.

(** The allocator: the free bans form a list, and the next address is new. *)
Record alloc_ok (st : bstate) (F : list bid) : Prop := {
  free_list : seg (heap st) (free_bans st) F None;
  free_nodup : NoDup F;
  free_heap : Forall is_heap F;
  fresh_new : forall n x, heap st !! inl n = Some x -> (n < fresh st)%nat
}.

Lemma set_ban_mask_total (b : Ban) (s : list ascii) : exists m, set_ban_mask b s = Ok m.
Proof.
  unfold set_ban_mask. destruct (strrchr s "@") as [i|]; [|eauto]. destruct (ipmask_parse_total (drop (S i) s) true) as (n & a & bits & -> & _). cbn [obind]. eauto.
Qed.

(** The ban [mode_process_bans] makes of one on the stack. *)
Definition remake (b : Ban) : Ban :=
  match set_ban_mask no_ban (banstr b) with
  | Ok m => body (set_flags (set_origin m (b_who b) (b_when b)) (Z.land (b_flags b) BAN_IPMASK))
  | _ => no_ban
  end.

Lemma make_ban_spec (st : bstate) (F : list bid) (s : list ascii) : alloc_ok st F ->
  exists st' p F' m, make_ban st s = Ok (st', p) /\ set_ban_mask no_ban s = Ok m /\ heap st' = <[p := m]> (heap st) /\ is_heap p /\
    alloc_ok st' F' /\ bans_inuse st' = bans_inuse st + 1 /\ (F = p :: F' \/ F = [] /\ F' = [] /\ heap st !! p = None).
Proof.
  intros [C ND HF Fr]. destruct (set_ban_mask_total no_ban s) as [m Em]. unfold make_ban. rewrite Em. destruct F as [|p F].
  - cbn in C. rewrite C. cbn [obind heap fresh bans_alloc bans_inuse free_bans].
    assert (heap st !! inl (fresh st) = None) as Hn by (destruct (heap st !! inl (fresh st)) as [x|] eqn:E; [apply Fr in E; lia|done]).
    eexists _, _, [], m. split; [done|]. split; [done|]. cbn [heap]. split; [done|]. split; [done|]. split; [|auto].
    split; cbn; [done|constructor|constructor|]. intros n x. destruct (decide (n = fresh st)) as [->|N]; [intros _; lia|]. rewrite lookup_insert_ne by congruence. intros H. apply Fr in H. lia.
  - destruct C as [Ef (x & Hx & C)]. rewrite Ef. unfold load. rewrite Hx. cbn [obind heap fresh bans_alloc bans_inuse free_bans].
    apply NoDup_cons in ND as [Np ND]. inversion_clear HF as [|? ? Hp HF'].
    eexists _, p, F, m. split; [done|]. split; [done|]. cbn [heap]. split; [done|]. split; [done|]. split; [|auto].
    split; cbn; [by apply seg_other|done|done|]. intros n y. destruct (decide (inl n = p)) as [<-|N]; [intros _; by apply Fr in Hx|]. rewrite lookup_insert_ne by congruence. apply Fr.
Qed.

Section Process.
Context (r : Request).

Definition keep (b : Ban) : option Ban :=
  if has (b_flags b) BAN_DEL then if parse_set r then None else Some (set_flags b (Z.land (b_flags b) BAN_IPMASK)) else Some b.

Fixpoint accept (l : list Ban) (count len : Z) : list Ban * list notice :=
  match l with
  | [] => ([], [])
  | b :: l =>
      let n := Z.of_nat (length (banstr b)) in
      if has (b_flags b) BAN_DEL || (has (b_flags b) BAN_OVERLAPPED && negb (parse_bounce r)) then accept l count len
      else if too_full r (count + 1) (len + n) then let (acc, out) := accept l count len in (acc, ListFull (banstr b) :: out)
      else let (acc, out) := accept l (count + 1) (len + n) in (b :: acc, ModeAdd (banstr b) :: out)
  end.

(** What [prevban] may be when the list so far is [K]: its last cell, or (behind the
    first ban that was kept on the stack) a cell of the stack. *)
Definition prev_ok (h : bheap) (head ban prevban : option bid) (K S : list bid) : Prop :=
  (prevban = last K /\ exists q, seg h head K q /\ (q = ban \/ q = None)) \/
  (exists k x, prevban = Some k /\ is_stack k /\ (k ∉ S) /\ h !! k = Some x /\ seg h head K None).

Lemma cut_spec (st : bstate) (head ban prevban : option bid) (K S : list bid) : NoDup K -> Forall is_heap K ->
  prev_ok (heap st) head ban prevban K S ->
  exists h' head', cut_list st head prevban None = Ok (set_heap st h', head') /\ seg h' head' K None /\ dom h' = dom (heap st) /\
    (forall b, prevban <> Some b -> h' !! b = heap st !! b) /\ (forall b, option_map body (h' !! b) = option_map body (heap st !! b)).
Proof.
  intros ND HK [[-> (q & C & _)]|(k & x & -> & Hk & Nk & Hx & C)].
  - destruct (last K) as [b|] eqn:El.
    + apply last_Some in El as [K' EK]. assert (exists x, heap st !! b = Some x) as [x Hx] by (apply (seg_elem _ _ b _ _ C); rewrite EK; apply elem_of_app; right; left).
      eexists (<[b := set_next x None]> (heap st)), head. cbn. unfold load. rewrite Hx. cbn [obind]. split; [done|]. split; [rewrite EK in *; by apply seg_redirect with q|].
      split; [apply dom_insert_lookup_L; by exists x|]. split; [intros c Hc; rewrite lookup_insert_ne; congruence|].
      intros c. destruct (decide (c = b)) as [->|N]; [by rewrite lookup_insert_eq, Hx|by rewrite lookup_insert_ne].
    + apply last_None in El. subst K. exists (heap st), None. cbn. by destruct st.
  - eexists (<[k := set_next x None]> (heap st)), head. cbn. unfold load. rewrite Hx. cbn [obind]. split; [done|]. split.
    { apply seg_other; [|done]. intros H. rewrite Forall_forall in HK. specialize (HK k H). by destruct k. }
    split; [apply dom_insert_lookup_L; by exists x|]. split; [intros c Hc; rewrite lookup_insert_ne; congruence|].
    intros c. destruct (decide (c = k)) as [->|N]; [by rewrite lookup_insert_eq, Hx|by rewrite lookup_insert_ne].
Qed.

Lemma contents_body (h h' : bheap) (L : list bid) : (forall b, option_map body (h' !! b) = option_map body (h !! b)) -> contents h' L = contents h L.
Proof. intros E. apply contents_ext. intros b _. apply E. Qed.

Lemma alloc_ext (st : bstate) (h' : bheap) (F : list bid) : alloc_ok st F -> (forall b, b ∈ F -> h' !! b = heap st !! b) -> dom h' = dom (heap st) -> alloc_ok (set_heap st h') F.
Proof.
  intros [C ND HF Fr] E D. split; cbn; [|done|done|].
  - apply seg_ext with (heap st); [|done]. intros b Hb. by rewrite E.
  - intros n x Hx. assert (inl n ∈ dom (heap st)) as [y Hy]%elem_of_dom by (rewrite <- D; apply elem_of_dom; by exists x). by apply Fr in Hy.
Qed.

(** What a run of the loop from some point achieves: [acc] is added in front of [kept]. *)
Definition processed (st : bstate) (t : totals) (acc : list Ban) (out : list notice) (kept : list Ban) (gone : Z) (o : outcome (bstate * option bid * totals)) : Prop :=
  exists st' head' L' F' t', o = Ok (st', head', t') /\ seg (heap st') head' L' None /\ alloc_ok st' F' /\ NoDup (L' ++ F') /\ Forall is_heap L' /\
    contents (heap st') L' = (if parse_set r then rev (map remake acc) else []) ++ kept /\
    t_changed t' = t_changed t + (if parse_set r then Z.of_nat (length acc) + gone else 0) /\ t_notices t' = t_notices t ++ out /\
    bans_inuse st' = bans_inuse st + (if parse_set r then Z.of_nat (length acc) - gone else 0).

(** Cutting the list before a ban of the stack. *)
Lemma cut_step (st : bstate) (head prevban : option bid) (p : bid) (b : Ban) (K S F : list bid) :
  heap st !! p = Some b -> seg (heap st) (b_next b) S None -> Forall is_stack (p :: S) -> NoDup (K ++ F) -> Forall is_heap K -> alloc_ok st F ->
  prev_ok (heap st) head (Some p) prevban K (p :: S) ->
  exists h' head', cut_list st head prevban None = Ok (set_heap st h', head') /\ seg h' head' K None /\ h' !! p = Some b /\ seg h' (b_next b) S None /\
    alloc_ok (set_heap st h') F /\ contents h' S = contents (heap st) S /\ contents h' K = contents (heap st) K /\ prev_ok h' head' (b_next b) prevban K S.
Proof.
  intros Hb C HS NKF HK AF PV. pose proof NKF as (NK & KF & _)%NoDup_app. destruct (cut_spec st head (Some p) prevban K (p :: S) NK HK PV) as (h' & head' & Ecut & CK & D & O & B).
  assert (forall c, prevban = Some c -> (c ∉ p :: S) /\ c ∉ F) as Hprev.
  { intros c Hc. destruct PV as [[PV _]|(k & x & Ek & Hk & Nk & _)].
    - rewrite PV in Hc. apply last_Some in Hc as [K' ->]. assert (c ∈ K' ++ [c]) as Hc by (apply elem_of_app; right; left). split; [|by apply KF].
      intros Hs. rewrite Forall_forall in HK, HS. specialize (HK c Hc). specialize (HS c Hs). by destruct c.
    - rewrite Ek in Hc. injection Hc as ->. split; [done|]. intros HF. destruct AF as [_ _ FH _]. rewrite Forall_forall in FH. specialize (FH c HF). by destruct c. }
  assert (h' !! p = Some b) as Hb'. { rewrite O; [done|]. intros E. destruct (Hprev p E) as [N _]. apply N. left. }
  exists h', head'. split; [done|]. split; [done|]. split; [done|]. split; [|split; [|split; [|split]]].
  - apply seg_ext with (heap st); [|done]. intros c Hc. rewrite O; [done|]. intros E. destruct (Hprev c E) as [N _]. apply N. by right.
  - apply alloc_ext; [done| |done]. intros c Hc. apply O. intros E. by destruct (Hprev c E) as [_ N].
  - by apply contents_body.
  - by apply contents_body.
  - destruct PV as [[PV _]|(k & x & Ek & Hk & Nk & Hx & _)]; [left; split; [done|]; exists None; auto|].
    right. assert (k ∈ dom h') as [y Hy]%elem_of_dom by (rewrite D; apply elem_of_dom; by exists x). exists k, y. split; [done|]. split; [done|]. split; [|done]. intros H. apply Nk. by right.
Qed.

(** Once a ban of the stack is the previous one. *)
Lemma prev_stack (h : bheap) (head ban : option bid) (p : bid) (b : Ban) (K S : list bid) : h !! p = Some b -> is_stack p -> p ∉ S -> seg h head K None -> prev_ok h head ban (Some p) K S.
Proof. intros. right. by exists p, b. Qed.

(** Making a ban and putting it in front of the list. *)
Lemma prepend_step (st : bstate) (head : option bid) (K F : list bid) (b : Ban) :
  seg (heap st) head K None -> NoDup (K ++ F) -> Forall is_heap K -> alloc_ok st F ->
  exists st1 q m F1, make_ban st (banstr b) = Ok (st1, q) /\ load (heap st1) q = Ok m /\ is_heap q /\ (forall c, c <> q -> heap st1 !! c = heap st !! c) /\
    let n := set_next (set_flags (set_origin m (b_who b) (b_when b)) (Z.land (b_flags b) BAN_IPMASK)) head in
    let st2 := set_heap st1 (<[q := n]> (heap st1)) in
    seg (heap st2) (Some q) (q :: K) None /\ NoDup ((q :: K) ++ F1) /\ alloc_ok st2 F1 /\ bans_inuse st2 = bans_inuse st + 1 /\
    contents (heap st2) (q :: K) = remake b :: contents (heap st) K.
Proof.
  intros CK NKF HK AF. destruct (make_ban_spec st F (banstr b) AF) as (st1 & q & F1 & m & E1 & Em & Eh & Hq & AF1 & Ei & HF). pose proof NKF as (NK & KF & NF)%NoDup_app.
  assert (q ∉ K) as Nq. { destruct HF as [->|(-> & -> & Hn)]; [intros H; apply (KF q H); left|]. intros H. destruct (seg_elem _ _ _ _ _ CK H) as [x Hx]. congruence. }
  assert ((q ∉ F1) /\ NoDup (K ++ F1)) as [NqF NKF1].
  { destruct HF as [->|(-> & -> & _)]; [|split; [by apply not_elem_of_nil|done]]. apply NoDup_cons in NF as [? NF]. split; [done|]. apply NoDup_app. split; [done|]. split; [|done].
    intros c Hc HcF. apply (KF c Hc). by right. }
  exists st1, q, m, F1. split; [done|]. split; [unfold load; by rewrite Eh, lookup_insert_eq|]. split; [done|]. split; [intros c Hc; rewrite Eh; by rewrite lookup_insert_ne|].
  cbn [heap set_heap]. rewrite Eh, insert_insert_eq. set (n := set_next _ head). split; [|split; [|split; [|split]]].
  - split; [done|]. exists n. split; [apply lookup_insert_eq|]. by apply seg_other.
  - cbn [app]. apply NoDup_cons. split; [|done]. rewrite elem_of_app. by intros [?|?].
  - assert (set_heap st1 (<[q := n]> (heap st)) = set_heap st1 (<[q := n]> (heap st1))) as -> by (by rewrite Eh, insert_insert_eq).
    apply alloc_ext; [done| |apply dom_insert_lookup_L; rewrite Eh; exists m; apply lookup_insert_eq]. intros c Hc. rewrite lookup_insert_ne; [done|]. by intros ->.
  - exact Ei.
  - rewrite (contents_cons _ _ n K) by apply lookup_insert_eq. rewrite contents_other by done. f_equal. unfold remake. by rewrite Em.
Qed.

Lemma process_adds (S : list bid) : forall fuel st head ban prevban K F t acc out,
  seg (heap st) ban S None -> NoDup S -> Forall is_stack S -> Forall (fun b => has (b_flags b) BAN_ADD = true) (contents (heap st) S) ->
  NoDup (K ++ F) -> Forall is_heap K -> alloc_ok st F -> prev_ok (heap st) head ban prevban K S -> (length S < fuel)%nat ->
  accept (contents (heap st) S) (t_count t) (t_len t) = (acc, out) ->
  processed st t acc out (contents (heap st) K) 0 (process_loop r fuel st head ban prevban t).
Proof.
  induction S as [|p S IH]; intros fuel st head ban prevban K F t acc out C NS HS HA NKF HK AF PV Lt EA; (destruct fuel as [|fuel]; [cbn in Lt; lia|]).
  - cbn in C, EA. subst ban. injection EA as <- <-. exists st, head, K, F, t. cbn [process_loop]. split; [done|].
    assert (seg (heap st) head K None) as CK by (destruct PV as [[_ (q & Cq & [->| ->])]|(k & x & _ & _ & _ & _ & Ck)]; done).
    cbn [rev map length app]. rewrite app_nil_r. destruct (parse_set r); cbn [app Z.of_nat]; repeat (split; [done || lia|]); lia.
  - destruct C as [-> (b & Hb & C)]. rewrite (contents_cons _ _ _ S Hb) in HA, EA. inversion_clear HA as [|? ? Hadd HA']. change (b_flags (body b)) with (b_flags b) in Hadd.
    destruct (cut_step st head prevban p b K S F Hb C HS NKF HK AF PV) as (h' & head' & Ecut & CK & Hb' & CS & AF' & ES & EK & PV').
    apply NoDup_cons in NS as [Np NS]. inversion_clear HS as [|? ? Hp HS']. cbn [length] in Lt. rewrite <- EK. rewrite <- ES in HA', EA.
    pose proof (prev_stack h' head' (b_next b) p b K S Hb' Hp Np CK) as PS.
    cbn [process_loop]. unfold load at 1. rewrite Hb. cbn [obind]. rewrite Hadd, andb_true_r, Ecut. cbn [obind].
    cbn [accept] in EA. change (b_flags (body b)) with (b_flags b) in EA. change (banstr (body b)) with (banstr b) in EA. set (n := Z.of_nat (length (banstr b))) in *.
    destruct (has (b_flags b) BAN_DEL); cbn [orb] in EA.
    { apply (IH fuel (set_heap st h') head' (b_next b) prevban K F (MkTotals _ _ _ _)); try done; [lia|]. cbn [t_count t_len]. rewrite <- EA. f_equal; lia. }
    destruct (has (b_flags b) BAN_OVERLAPPED && negb (parse_bounce r)).
    { apply (IH fuel (set_heap st h') head' (b_next b) (Some p) K F (MkTotals _ _ _ _)); try done; [lia|]. cbn [t_count t_len]. rewrite <- EA. f_equal; lia. }
    destruct (too_full r (t_count t + 1) (t_len t + n)).
    { destruct (accept (contents h' S) (t_count t) (t_len t)) as [acc' out'] eqn:EA'. injection EA as <- <-.
      destruct (IH fuel (set_heap st h') head' (b_next b) (Some p) K F (MkTotals (t_count t + 1 - 1) (t_len t + n - n) (t_changed t) (t_notices t ++ [ListFull (banstr b)])) acc' out')
        as (st' & hd & L' & F' & t' & E' & R1 & R2 & R3 & R4 & R5 & R6 & R7 & R8); try done; [lia|cbn [t_count t_len]; rewrite <- EA'; f_equal; lia|].
      exists st', hd, L', F', t'. repeat (split; [done|]). split; [|done]. cbn [t_notices] in R7. by rewrite R7, <- app_assoc. }
    destruct (accept (contents h' S) (t_count t + 1) (t_len t + n)) as [acc' out'] eqn:EA'. injection EA as <- <-.
    destruct (parse_set r) eqn:Eset.
    { destruct (prepend_step (set_heap st h') head' K F b CK NKF HK AF') as (st1 & q & m & F1 & -> & El & Hq & O1 & CK2 & N2 & AF2 & Ei & Ec). cbn [obind]. rewrite El. cbn [obind].
      set (st2 := set_heap st1 _) in *. assert (forall c, is_stack c -> heap st2 !! c = h' !! c) as O2.
      { intros c Hc. subst st2. cbn [heap set_heap]. assert (c <> q) by (intros ->; by destruct q). rewrite lookup_insert_ne by done. by apply O1. }
      assert (forall c, c ∈ S -> heap st2 !! c = h' !! c) as O3 by (intros c Hc; apply O2; rewrite Forall_forall in HS'; by apply HS').
      assert (contents (heap st2) S = contents h' S) as ES2 by (apply contents_ext; intros c Hc; by rewrite O3).
      destruct (IH fuel st2 (Some q) (b_next b) (Some p) (q :: K) F1 (MkTotals (t_count t + 1) (t_len t + n) (t_changed t + 1) (t_notices t ++ [ModeAdd (banstr b)])) acc' out')
        as (st' & hd & L' & F' & t' & E' & R1 & R2 & R3 & R4 & R5 & R6 & R7 & R8); try done.
      - apply seg_ext with h'; [|done]. intros c Hc. by rewrite O3.
      - by rewrite ES2.
      - by constructor.
      - apply prev_stack with b; [by rewrite O2|done|done|done].
      - lia.
      - by rewrite ES2.
      - exists st', hd, L', F', t'. rewrite Eset in *. cbn [map rev length t_changed t_notices] in *. repeat (split; [done|]).
        rewrite R5, R6, R7, R8, Ei, Ec, <- !app_assoc. cbn [app bans_inuse set_heap]. split; [done|]. split; [lia|]. split; [done|lia]. }
    destruct (IH fuel (set_heap st h') head' (b_next b) (Some p) K F (MkTotals (t_count t + 1) (t_len t + n) (t_changed t) (t_notices t ++ [ModeAdd (banstr b)])) acc' out')
      as (st' & hd & L' & F' & t' & E' & R1 & R2 & R3 & R4 & R5 & R6 & R7 & R8); try done; [lia|].
    exists st', hd, L', F', t'. rewrite Eset in *. repeat (split; [done|]). split; [|done]. cbn [t_notices] in R7. by rewrite R7, <- app_assoc.
Qed.

Definition text_len (l : list Ban) : Z := foldr (fun b n => Z.of_nat (length (banstr b)) + n) 0 l.
Definition removed (l : list Ban) : list Ban := List.filter (fun b => has (b_flags b) BAN_DEL) l.
Definition removal (l : list Ban) : list notice := map (fun b => ModeDel (banstr b)) (removed l).

(** Taking a ban of the channel out of the list and freeing it. *)
Lemma clip_step (st : bstate) (head : option bid) (p : bid) (b : Ban) (K M F : list bid) :
  seg (heap st) head K (Some p) -> heap st !! p = Some b -> seg (heap st) (b_next b) M None -> NoDup (K ++ p :: M ++ F) -> is_heap p -> alloc_ok st F ->
  exists st1 head1 st2, cut_list st head (last K) (b_next b) = Ok (st1, head1) /\ free_ban st1 p = Ok st2 /\
    seg (heap st2) head1 K (b_next b) /\ seg (heap st2) (b_next b) M None /\ alloc_ok st2 (p :: F) /\ bans_inuse st2 = bans_inuse st - 1 /\
    (forall c, c <> p -> option_map body (heap st2 !! c) = option_map body (heap st !! c)).
Proof.
  intros CK Hb CM ND Hp AF. apply NoDup_app in ND as (NK & KX & ND). apply NoDup_cons in ND as [Np ND]. apply NoDup_app in ND as (NM & MF & NF). rewrite elem_of_app in Np.
  assert (exists h' head1, cut_list st head (last K) (b_next b) = Ok (set_heap st h', head1) /\ seg h' head1 K (b_next b) /\ dom h' = dom (heap st) /\
    (forall c, c ∉ K -> h' !! c = heap st !! c) /\ (forall c, option_map body (h' !! c) = option_map body (heap st !! c))) as (h' & head1 & E1 & CK1 & D & O & B).
  { destruct (last K) as [k|] eqn:El.
    - apply last_Some in El as [K' EK]. assert (k ∈ K) as Hk by (rewrite EK; apply elem_of_app; right; left). destruct (seg_elem _ _ k _ _ CK Hk) as [x Hx].
      exists (<[k := set_next x (b_next b)]> (heap st)), head. cbn. unfold load. rewrite Hx. cbn [obind]. split; [done|]. split; [rewrite EK in *; by apply seg_redirect with (Some p)|].
      split; [apply dom_insert_lookup_L; by exists x|]. split; [intros c Hc; rewrite lookup_insert_ne; [done|]; by intros ->|].
      intros c. destruct (decide (c = k)) as [->|N]; [by rewrite lookup_insert_eq, Hx|by rewrite lookup_insert_ne].
    - apply last_None in El. subst K. exists (heap st), (b_next b). cbn. by destruct st. }
  assert (p ∉ K) as NpK by (intros H; apply (KX p H); left). assert (forall c, c ∈ M \/ c ∈ F -> c ∉ K) as NKc by (intros c Hc H; apply (KX c H); right; by apply elem_of_app).
  assert (h' !! p = Some b) as Hb' by (by rewrite O). exists (set_heap st h'), head1. eexists. split; [done|].
  unfold free_ban, load. cbn [heap set_heap]. rewrite Hb'. cbn [obind]. split; [done|]. cbn [heap bans_inuse].
  split; [by apply seg_other|]. split; [|split; [|split; [done|]]].
  - apply seg_other; [intros H; apply Np; by left|]. apply seg_ext with (heap st); [|done]. intros c Hc. rewrite O; [done|]. apply NKc. by left.
  - destruct AF as [C0 N0 H0 Fr]. split; cbn.
    + split; [done|]. eexists. split; [apply lookup_insert_eq|]. cbn. apply seg_other; [intros H; apply Np; by right|]. apply seg_ext with (heap st); [|done].
      intros c Hc. rewrite O; [done|]. apply NKc. by right.
    + apply NoDup_cons. split; [|done]. intros H. apply Np. by right.
    + by constructor.
    + intros n x Hx. assert (inl n ∈ dom (heap st)) as [y Hy]%elem_of_dom; [|by apply Fr in Hy]. rewrite <- D. rewrite <- (dom_insert_lookup_L h' p (set_next b (free_bans st))) by (by exists b).
      apply elem_of_dom. by exists x.
  - intros c Hc. by rewrite lookup_insert_ne.
Qed.

Lemma perm_clip (K R F : list bid) (p : bid) : NoDup ((K ++ p :: R) ++ F) -> NoDup ((K ++ R) ++ p :: F).
Proof. assert ((K ++ R) ++ p :: F ≡ₚ (K ++ p :: R) ++ F) as -> by solve_Permutation. done. Qed.

Lemma heap_not_stack (p : bid) (S : list bid) : is_heap p -> Forall is_stack S -> p ∉ S.
Proof. intros H F. rewrite Forall_forall in F. intros Hp. specialize (F p Hp). by destruct p. Qed.

Lemma nodup_mix (K M S F : list bid) : NoDup ((K ++ M) ++ F) -> Forall is_heap (K ++ M) -> NoDup S -> Forall is_stack S -> Forall is_heap F -> NoDup (K ++ (M ++ S) ++ F).
Proof.
  intros N H NS HS HF. assert (K ++ (M ++ S) ++ F ≡ₚ ((K ++ M) ++ F) ++ S) as -> by solve_Permutation. apply NoDup_app. split; [done|]. split; [|done].
  intros c Hc. apply heap_not_stack; [|done]. apply elem_of_app in Hc as [Hc|Hc]; [rewrite Forall_forall in H; by apply H|rewrite Forall_forall in HF; by apply HF].
Qed.

Lemma processed_weaken (st st' : bstate) (t t' : totals) (acc : list Ban) (out out' : list notice) (kept : list Ban) (gone gone' : Z) o :
  processed st' t' acc out kept gone o -> t_notices t' ++ out = t_notices t ++ out' ->
  (if parse_set r then t_changed t' + gone = t_changed t + gone' else t_changed t' = t_changed t) ->
  (if parse_set r then bans_inuse st' - gone = bans_inuse st - gone' else bans_inuse st' = bans_inuse st) -> processed st t acc out' kept gone' o.
Proof.
  intros (s1 & h1 & L' & F' & t1 & E & R1 & R2 & R3 & R4 & R5 & R6 & R7 & R8) En Et Ei. exists s1, h1, L', F', t1. repeat (split; [done|]). rewrite R6, R7, R8.
  destruct (parse_set r); (split; [lia|]); (split; [done|lia]).
Qed.

Lemma removed_cons (b : Ban) (l : list Ban) : removed (b :: l) = removed [b] ++ removed l.
Proof. unfold removed. cbn. by destruct (has (b_flags b) BAN_DEL). Qed.

(** A ban of the channel that stays, perhaps with other flags. *)
Lemma stay_step (st : bstate) (head : option bid) (p : bid) (b y : Ban) (K R S F : list bid) : seg (heap st) head K (Some p) -> heap st !! p = Some b ->
  seg (heap st) (b_next b) (R ++ S) None -> NoDup ((K ++ p :: R) ++ F) -> p ∉ S -> alloc_ok st F -> b_next y = b_next b ->
  let st1 := set_heap st (<[p := y]> (heap st)) in
  seg (heap st1) head (K ++ [p]) (b_next b) /\ seg (heap st1) (b_next b) (R ++ S) None /\ NoDup (((K ++ [p]) ++ R) ++ F) /\ alloc_ok st1 F /\
  contents (heap st1) (K ++ [p]) = contents (heap st) K ++ [body y] /\ contents (heap st1) R = contents (heap st) R /\ contents (heap st1) S = contents (heap st) S.
Proof.
  intros CK Hb C ND NpS AF Nx. pose proof ND as (NKR & X & _)%NoDup_app. pose proof NKR as (NK & KR & [NpR NR]%NoDup_cons)%NoDup_app.
  assert (p ∉ K) as NpK by (intros H; apply (KR p H); left). assert (p ∉ F) as NpF by (apply X, elem_of_app; right; left). cbn [heap set_heap].
  split; [|split; [|split; [|split; [|split; [|split]]]]]; try (by apply contents_other).
  - apply seg_snoc. split; [by apply seg_other|]. exists y. split; [apply lookup_insert_eq|done].
  - apply seg_other; [|done]. rewrite elem_of_app. by intros [?|?].
  - by rewrite <- (app_assoc K).
  - apply alloc_ext; [done| |apply dom_insert_lookup_L; by exists b]. intros c Hc. rewrite lookup_insert_ne; [done|]. by intros ->.
  - rewrite contents_app, contents_other by done. f_equal. by rewrite (contents_cons _ p y []) by apply lookup_insert_eq.
Qed.

Lemma stay_weaken (st : bstate) (h : bheap) (t : totals) (b : Ban) (l acc kept : list Ban) (out : list notice) (count len : Z) o : removed [b] = [] \/ parse_set r = false ->
  processed (set_heap st h) (MkTotals count len (t_changed t) (t_notices t ++ removal [b])) acc (removal l ++ out) kept (Z.of_nat (length (removed l))) o ->
  processed st t acc (removal (b :: l) ++ out) kept (Z.of_nat (length (removed (b :: l)))) o.
Proof.
  intros Hrem P. eapply processed_weaken; [exact P|..]; cbn [t_notices t_changed bans_inuse set_heap].
  - rewrite <- app_assoc. f_equal. unfold removal. by rewrite (removed_cons b l), map_app, <- app_assoc.
  - rewrite (removed_cons b l). destruct Hrem as [-> | ->]; [|done]. by destruct (parse_set r).
  - rewrite (removed_cons b l). destruct Hrem as [-> | ->]; [|done]. by destruct (parse_set r).
Qed.

Lemma process_reals (S : list bid) : NoDup S -> Forall is_stack S -> forall R fuel st head ban K F t acc out,
  seg (heap st) head K ban -> seg (heap st) ban (R ++ S) None -> NoDup ((K ++ R) ++ F) -> Forall is_heap (K ++ R) -> alloc_ok st F ->
  Forall (fun b => has (b_flags b) BAN_ADD = false) (contents (heap st) R) -> Forall (fun b => has (b_flags b) BAN_ADD = true) (contents (heap st) S) ->
  (length (R ++ S) < fuel)%nat ->
  accept (contents (heap st) S) (t_count t + Z.of_nat (length (omap keep (contents (heap st) R)))) (t_len t + text_len (omap keep (contents (heap st) R))) = (acc, out) ->
  processed st t acc (removal (contents (heap st) R) ++ out) (contents (heap st) K ++ omap keep (contents (heap st) R)) (Z.of_nat (length (removed (contents (heap st) R))))
    (process_loop r fuel st head ban (last K) t).
Proof.
  intros NS HS. induction R as [|p R IH]; intros fuel st head ban K F t acc out CK C ND HK AF HR HA Lt EA.
  { cbn in *. rewrite !app_nil_r in *. rewrite !Z.add_0_r in EA. apply (process_adds S fuel st head ban (last K) K F t acc out); try done. left. split; [done|]. exists ban. auto. }
  destruct fuel as [|fuel]; [cbn in Lt; lia|]. cbn [length app] in Lt. destruct C as [-> (b & Hb & C)]. rewrite (contents_cons _ _ _ R Hb) in *. inversion_clear HR as [|? ? Hadd HR'].
  change (b_flags (body b)) with (b_flags b) in Hadd. assert (is_heap p) as Hp by (rewrite Forall_forall in HK; apply HK, elem_of_app; right; left).
  pose proof ND as ND1. apply NoDup_app in ND1 as (NKR & _ & _). apply NoDup_app in NKR as (NK & KR & NR). apply NoDup_cons in NR as [NpR NR].
  assert (p ∉ K) as NpK by (intros H; apply (KR p H); left). pose proof (heap_not_stack p S Hp HS) as NpS.
  cbn [process_loop]. unfold load at 1. rewrite Hb. cbn [obind]. rewrite Hadd, andb_false_r.
  assert (forall y, keep (body b) = Some (body y) -> banstr y = banstr b -> b_next y = b_next b -> removed [body b] = [] \/ parse_set r = false ->
    processed st t acc (removal (body b :: contents (heap st) R) ++ out) (contents (heap st) K ++ omap keep (body b :: contents (heap st) R)) (Z.of_nat (length (removed (body b :: contents (heap st) R))))
      (process_loop r fuel (set_heap st (<[p := y]> (heap st))) head (b_next b) (Some p)
         (MkTotals (t_count t + 1) (t_len t + Z.of_nat (length (banstr b))) (t_changed t) (t_notices t ++ removal [body b])))) as Stay.
  { intros y Ek Eb Nx Hrem. destruct (stay_step st head p b y K R S F CK Hb C ND NpS AF Nx) as (C1 & C2 & N1 & A1 & E1 & E2 & E3).
    assert (omap keep (body b :: contents (heap st) R) = body y :: omap keep (contents (heap st) R)) as Eo by (cbn; by rewrite Ek). rewrite Eo in EA |- *.
    eapply stay_weaken; [done|]. pose proof (IH fuel _ head (b_next b) (K ++ [p]) F
      (MkTotals (t_count t + 1) (t_len t + Z.of_nat (length (banstr b))) (t_changed t) (t_notices t ++ removal [body b])) acc out C1 C2 N1) as G.
    cbn [t_count t_len] in G. rewrite E1, E2, E3, last_snoc, <- (app_assoc (contents (heap st) K)), <- (app_assoc K) in G. cbn [app] in G.
    apply G; try done; [lia|]. rewrite <- EA. cbn [length foldr text_len]. change (banstr (body y)) with (banstr y). rewrite Eb. f_equal; [lia|]. unfold text_len. lia. }
  assert (removal [body b] = if has (b_flags b) BAN_DEL then [ModeDel (banstr b)] else []) as Er by (unfold removal, removed; cbn; by destruct (has (b_flags b) BAN_DEL)).
  destruct (has (b_flags b) BAN_DEL) eqn:Ed.
  - destruct (parse_set r) eqn:Eset.
    + destruct (clip_step st head p b K (R ++ S) F CK Hb C) as (st1 & head1 & st2 & -> & E2 & C1 & C2 & AF2 & Ei & B2); [|done|done|].
      { apply (nodup_mix K (p :: R) S F); try done. apply AF. }
      cbn [obind]. rewrite E2. cbn [obind]. assert (forall M, p ∉ M -> contents (heap st2) M = contents (heap st) M) as EM.
      { intros M HM. apply contents_ext. intros c Hc. apply B2. by intros ->. }
      assert (keep (body b) = None) as Ek by (unfold keep; change (b_flags (body b)) with (b_flags b); by rewrite Ed, Eset).
      assert (omap keep (body b :: contents (heap st) R) = omap keep (contents (heap st) R)) as Eo by (cbn; by rewrite Ek). rewrite Eo in EA |- *.
      rewrite <- (EM R), <- (EM K), <- (EM S) in * by done.
      eapply processed_weaken; [apply (IH fuel st2 head1 (b_next b) K (p :: F) (MkTotals _ _ _ _)); try done|..].
      * by apply perm_clip.
      * apply Forall_app in HK as [HK1 HK2]. apply Forall_app. split; [done|]. by inversion_clear HK2.
      * lia.
      * cbn [t_count t_len]. rewrite <- EA. f_equal; lia.
      * cbn [t_notices]. rewrite <- app_assoc. f_equal. unfold removal. rewrite (removed_cons (body b)), map_app, <- app_assoc. f_equal. unfold removed. cbn. by rewrite Ed.
      * rewrite Eset. cbn [t_changed]. rewrite (removed_cons (body b)), length_app. unfold removed at 2. cbn [List.filter]. change (b_flags (body b)) with (b_flags b). rewrite Ed. cbn [length]. lia.
      * rewrite Eset, Ei. rewrite (removed_cons (body b)), length_app. unfold removed at 2. cbn [List.filter]. change (b_flags (body b)) with (b_flags b). rewrite Ed. cbn [length]. lia.
    + pose proof (Stay (set_flags b (Z.land (b_flags b) BAN_IPMASK))) as G. rewrite Er in G. apply G; [|done|done|by right]. unfold keep. change (b_flags (body b)) with (b_flags b). by rewrite Ed, Eset.
  - pose proof (Stay b) as G. rewrite (insert_id _ _ _ Hb), set_heap_id in G. rewrite Er, app_nil_r in G.
    apply G; [|done|done|left; unfold removed; cbn; by rewrite Ed]. unfold keep. change (b_flags (body b)) with (b_flags b). by rewrite Ed.
Qed.
End Process.

(** ** The masks [pretty_mask] writes *)
Definition no_at_after (s : list ascii) (j : nat) : Prop := forall k, (j < k)%nat -> s !! k <> Some "@"%char.

Lemma last_at_spec (s : list ascii) : forall i h h', last_at s i h = h' ->
  (h' = h /\ "@"%char ∉ s) \/ exists j, h' = Some (S (i + j)) /\ (j < length s)%nat /\ no_at_after s j.
Proof.
  induction s as [|c s IH]; intros i h h' E; cbn [last_at] in E; [left; split; [done|apply not_elem_of_nil]|].
  destruct (IH _ _ _ E) as [[-> N]|(j & -> & Lj & Nj)].
  - destruct (Ascii.eqb_spec c "@") as [->|Nc].
    + right. exists O. rewrite Nat.add_0_r. split; [done|]. split; [cbn; lia|]. intros [|k] Hk; [lia|]. cbn. intros H. apply N. by apply list_elem_of_lookup_2 with k.
    + left. split; [done|]. rewrite elem_of_cons. by intros [?|?].
  - right. exists (S j). rewrite Nat.add_succ_r. split; [done|]. split; [cbn; lia|]. intros [|k] Hk; [lia|]. cbn. apply Nj. lia.
Qed.

(** The ranges: the nick ends before the user begins, the user before the host. *)
Definition ranges_ok (mask : list ascii) (n u h : option nat) : Prop :=
  (n = Some O /\ u = None /\ h = None /\ "@"%char ∉ mask) \/
  (n = Some O /\ exists i, u = Some (S i) /\ (i < length mask)%nat /\
     (h = None \/ exists j, h = Some (S j) /\ (S i <= j < length mask)%nat /\ no_at_after mask j)) \/
  (n = None /\ u = Some O /\ exists j, h = Some (S j) /\ (j < length mask)%nat /\ no_at_after mask j).

Lemma no_at_shift (pre s : list ascii) (j : nat) : no_at_after s j -> no_at_after (pre ++ s) (length pre + j).
Proof. intros N k Hk. rewrite lookup_app_r by lia. apply N. lia. Qed.

Lemma mask_parts_spec (s : list ascii) : forall pre dot n u h d, "@"%char ∉ pre -> mask_parts s (length pre) dot = (n, u, h, d) -> ranges_ok (pre ++ s) n u h.
Proof.
  induction s as [|c s IH]; intros pre dot n u h d Np E; cbn [mask_parts] in E.
  - injection E as <- <- <- _. left. by rewrite app_nil_r.
  - destruct (c =c "!") eqn:E1; [|destruct (Ascii.eqb_spec c "@") as [->|Nc]].
    + injection E as <- <- E _. right. left. split; [done|]. exists (length pre). rewrite length_app. cbn [length]. split; [done|]. split; [lia|].
      destruct (last_at_spec s (S (length pre)) None h E) as [[-> _]|(j & -> & Lj & Nj)]; [by left|]. right. exists (S (length pre) + j)%nat. split; [done|]. split; [lia|].
      replace (pre ++ c :: s) with ((pre ++ [c]) ++ s) by (by rewrite <- app_assoc). replace (S (length pre) + j)%nat with (length (pre ++ [c]) + j)%nat by (rewrite length_app; cbn; lia). by apply no_at_shift.
    + injection E as <- <- E _. right. right. split; [done|]. split; [done|]. rewrite length_app. cbn [length].
      destruct (last_at_spec s (S (length pre)) (Some (S (length pre))) h E) as [[-> N]|(j & -> & Lj & Nj)].
      * exists (length pre). split; [done|]. split; [lia|]. replace (length pre) with (length pre + 0)%nat by lia. apply no_at_shift. intros [|k] Hk; [lia|]. cbn. intros H. apply N. by apply list_elem_of_lookup_2 with k.
      * exists (S (length pre) + j)%nat. split; [done|]. split; [lia|].
        replace (pre ++ "@"%char :: s) with ((pre ++ ["@"%char]) ++ s) by (by rewrite <- app_assoc). replace (S (length pre) + j)%nat with (length (pre ++ ["@"%char]) + j)%nat by (rewrite length_app; cbn; lia). by apply no_at_shift.
    + replace (pre ++ c :: s) with ((pre ++ [c]) ++ s) by (by rewrite <- app_assoc). eapply IH; [|rewrite length_app, Nat.add_1_r; exact E].
      rewrite elem_of_app, elem_of_cons, elem_of_nil. intros [?|[?|[]]]; congruence.
Qed.

(** Texts read from a buffer. *)
Lemma until_nul_short (s : list ascii) (k : nat) : s !! k = Some NUL -> (length (until_nul s) <= k)%nat.
Proof. revert k. induction s as [|c s IH]; intros k H; [done|]. cbn [until_nul]. destruct (c =c NUL) eqn:E; [cbn; lia|]. destruct k as [|k]; [injection H as ->; done|]. apply IH in H. cbn. lia. Qed.
Lemma until_nul_elem (s : list ascii) (c : ascii) : c ∈ until_nul s -> c <> NUL /\ exists k, s !! k = Some c.
Proof.
  induction s as [|d s IH]; cbn [until_nul]; [by rewrite elem_of_nil|]. destruct (Ascii.eqb_spec d NUL) as [->|N]; [by rewrite elem_of_nil|].
  rewrite elem_of_cons. intros [->|H]; [split; [done|]; by exists O|]. destruct (IH H) as [? [k Hk]]. split; [done|]. by exists (S k).
Qed.

Section Pretty.
Context (mask : list ascii).

Definition drawn (buf : list ascii) : Prop := length buf = S (length mask).

Lemma drawn_start : drawn (mask ++ [NUL]).
Proof. unfold drawn. rewrite length_app. cbn. lia. Qed.
Lemma drawn_insert (buf : list ascii) (i : nat) (d : ascii) : drawn buf -> drawn (<[i := d]> buf).
Proof. unfold drawn. by rewrite length_insert. Qed.

Lemma text_length (buf : list ascii) (i k : nat) : buf !! (i + k)%nat = Some NUL -> (length (part_text buf (Some i)) <= k)%nat.
Proof. intros H. cbn. apply until_nul_short. by rewrite lookup_drop. Qed.
Lemma text_no_at (buf : list ascii) (i : nat) : (forall x, (i <= x)%nat -> buf !! x <> Some "@"%char) -> "@"%char ∉ part_text buf (Some i).
Proof. intros H. cbn. intros [_ [k Hk]]%until_nul_elem. rewrite lookup_drop in Hk. apply (H (i + k)%nat); [lia|done]. Qed.

(** The three parts of a result. *)
Definition pretty_ok (res : list ascii) : Prop :=
  exists n u h, res = n ++ "!"%char :: u ++ "@"%char :: h /\ ("@"%char ∉ h) /\
    (length n <= NICKLEN)%nat /\ (length u <= USERLEN)%nat /\ (length h <= HOSTLEN)%nat.

Lemma pretty_result (buf : list ascii) (nick user host : option nat) : drawn buf ->
  (length (part_text buf nick) <= NICKLEN)%nat -> (length (part_text buf user) <= USERLEN)%nat -> (length (part_text buf host) <= HOSTLEN)%nat -> "@"%char ∉ part_text buf host ->
  pretty_ok (take MASKLEN (part_text buf nick ++ "!"%char :: part_text buf user ++ "@"%char :: part_text buf host)).
Proof.
  intros D Ln Lu Lh Na. exists (part_text buf nick), (part_text buf user), (part_text buf host). split; [|done].
  apply take_ge. rewrite length_app. cbn [length]. rewrite length_app. cbn [length]. unfold MASKLEN. lia.
Qed.

Abbreviation ptr := (length mask).

Lemma host_part (buf : list ascii) (h : nat) : drawn buf -> buf !! ptr = Some NUL -> (h <= ptr)%nat -> (forall x, (h <= x)%nat -> buf !! x <> Some "@"%char) ->
  exists h' buf', (if (HOSTLEN <? ptr - h)%nat then (Some (ptr - HOSTLEN)%nat, <[(ptr - HOSTLEN)%nat := "*"%char]> buf) else (Some h, buf)) = (Some h', buf') /\
    drawn buf' /\ (length (part_text buf' (Some h')) <= HOSTLEN)%nat /\ ("@"%char ∉ part_text buf' (Some h')) /\ (forall x, (x < h)%nat -> buf' !! x = buf !! x).
Proof.
  intros D Z Le Na. pose proof D as Lb. unfold drawn in Lb. destruct (Nat.ltb_spec HOSTLEN (ptr - h)).
  - eexists _, _. split; [done|]. split; [by apply drawn_insert|]. split; [|split].
    + apply text_length. rewrite list_lookup_insert_ne by (unfold HOSTLEN; lia). replace (ptr - HOSTLEN + HOSTLEN)%nat with ptr by lia. done.
    + apply text_no_at. intros x Hx. destruct (decide (x = ptr - HOSTLEN)%nat) as [->|]; [rewrite list_lookup_insert_eq by lia; done|]. rewrite list_lookup_insert_ne by lia. apply Na. lia.
    + intros x Hx. apply list_lookup_insert_ne. lia.
  - eexists _, _. split; [done|]. split; [done|]. split; [|split; [by apply text_no_at|done]].
    apply Nat.le_trans with (ptr - h)%nat; [|lia]. apply text_length. replace (h + (ptr - h))%nat with ptr by lia. done.
Qed.

Lemma user_part (buf : list ascii) (u e : nat) : drawn buf -> (u <= e <= ptr)%nat ->
  exists u' buf', (let '(u, buf) := if (USERLEN <? e - u)%nat then ((e - USERLEN)%nat, <[(e - USERLEN)%nat := "*"%char]> buf) else (u, buf) in (Some u, <[e := NUL]> buf)) = (Some u', buf') /\
    drawn buf' /\ buf' !! e = Some NUL /\ (u <= u' <= e)%nat /\ (e - u' <= USERLEN)%nat /\ (forall x, (x < u \/ e < x)%nat -> buf' !! x = buf !! x).
Proof.
  intros D Le. pose proof D as Lb. unfold drawn in Lb. destruct (Nat.ltb_spec USERLEN (e - u)).
  - eexists _, _. split; [done|]. split; [by apply drawn_insert, drawn_insert|]. split; [apply list_lookup_insert_eq; rewrite length_insert; lia|].
    split; [lia|]. split; [lia|]. intros x Hx. rewrite !list_lookup_insert_ne; [done|lia|lia].
  - eexists _, _. split; [done|]. split; [by apply drawn_insert|]. split; [apply list_lookup_insert_eq; lia|]. split; [lia|]. split; [lia|]. intros x Hx. apply list_lookup_insert_ne. lia.
Qed.

Lemma nick_part (buf : list ascii) (e : nat) : drawn buf -> (e <= ptr)%nat ->
  let buf' := <[e := NUL]> (if (NICKLEN <? e - 0)%nat then <[(0 + NICKLEN)%nat := NUL]> buf else buf) in
  drawn buf' /\ (exists k, (k <= NICKLEN)%nat /\ (k <= e)%nat /\ buf' !! k = Some NUL) /\ (forall x, (e < x)%nat -> buf' !! x = buf !! x) /\ buf' !! e = Some NUL.
Proof.
  intros D Le. pose proof D as Lb. unfold drawn in Lb. cbv zeta. rewrite Nat.sub_0_r, Nat.add_0_l. destruct (Nat.ltb_spec NICKLEN e).
  - split; [by apply drawn_insert, drawn_insert|]. split; [|split].
    + exists NICKLEN. split; [lia|]. split; [lia|]. rewrite list_lookup_insert_ne by lia. apply list_lookup_insert_eq. lia.
    + intros x Hx. by rewrite !list_lookup_insert_ne by lia.
    + apply list_lookup_insert_eq. rewrite length_insert. lia.
  - split; [by apply drawn_insert|]. split; [|split].
    + exists e. split; [lia|]. split; [lia|]. apply list_lookup_insert_eq. lia.
    + intros x Hx. by rewrite list_lookup_insert_ne by lia.
    + apply list_lookup_insert_eq. lia.
Qed.

Lemma start_no_at (j : nat) : no_at_after mask j -> forall x, (S j <= x)%nat -> (mask ++ [NUL]) !! x <> Some "@"%char.
Proof.
  intros N x Hx H. apply lookup_app_Some in H as [H|[_ H]]; [by apply (N x)|]. by apply list_lookup_singleton_Some in H as [_ ?].
Qed.
Lemma start_end : (mask ++ [NUL]) !! ptr = Some NUL.
Proof. rewrite lookup_app_r by lia. by rewrite Nat.sub_diag. Qed.

Lemma pretty_form : pretty_ok (pretty_mask mask).
Proof.
  unfold pretty_mask. destruct (mask_parts mask 0 false) as [[[n u] h] d] eqn:E. apply (mask_parts_spec mask []) in E; [|apply not_elem_of_nil]. cbn [app] in E.
  pose proof drawn_start as D0. pose proof start_end as Z0.
  destruct E as [(-> & -> & -> & Na)|[(-> & i & -> & Li & Hh)|(-> & -> & j & -> & Lj & Nj)]].
  - destruct d.
    + destruct (host_part (mask ++ [NUL]) 0 D0 Z0) as (h' & buf' & -> & D' & Lh & Nh & _); [lia| |apply pretty_result; [done|cbn; unfold NICKLEN; lia|cbn; unfold USERLEN; lia|done|done]].
      intros x _ H. apply lookup_app_Some in H as [H|[_ H]]; [apply Na; by apply list_elem_of_lookup_2 with x|by apply list_lookup_singleton_Some in H as [_ ?]].
    + destruct (nick_part (mask ++ [NUL]) ptr D0) as (D' & (k & Lk & _ & Zk) & _); [lia|]. apply pretty_result; [done| |cbn; unfold USERLEN; lia|cbn; unfold HOSTLEN; lia|cbn; set_solver].
      apply Nat.le_trans with k; [|done]. by apply text_length.
  - replace (S i - 1)%nat with i by lia. destruct (nick_part (mask ++ [NUL]) i D0) as (D1 & (k & Lk & Lki & Zk) & O1 & Z1); [lia|]. cbv zeta in *. set (b1 := <[i := NUL]> _) in *.
    destruct Hh as [->|(j & -> & Lj & Nj)].
    + destruct (user_part b1 (S i) ptr D1) as (u' & b2 & -> & D2 & Z2 & Lu & Lu' & O2); [lia|]. apply pretty_result; [done|..|cbn; unfold HOSTLEN; lia|cbn; set_solver].
      * apply Nat.le_trans with k; [|done]. apply text_length. cbn. rewrite O2 by lia. done.
      * apply Nat.le_trans with (ptr - u')%nat; [|done]. apply text_length. by replace (u' + (ptr - u'))%nat with ptr by lia.
    + replace (S j - 1)%nat with j by lia. destruct (user_part b1 (S i) j D1) as (u' & b2 & -> & D2 & Z2 & Lu & Lu' & O2); [lia|].
      destruct (host_part b2 (S j) D2) as (h' & b3 & -> & D3 & Lh & Nh & O3); [rewrite O2, O1 by lia; done|lia|intros x Hx; rewrite O2, O1 by lia; by apply (start_no_at j)|].
      apply pretty_result; [done|..|done|done].
      * apply Nat.le_trans with k; [|done]. apply text_length. cbn. rewrite O3, O2 by lia. done.
      * apply Nat.le_trans with (j - u')%nat; [|done]. apply text_length. replace (u' + (j - u'))%nat with j by lia. rewrite O3 by lia. done.
  - replace (S j - 1)%nat with j by lia. destruct (user_part (mask ++ [NUL]) 0 j D0) as (u' & b2 & -> & D2 & Z2 & Lu & Lu' & O2); [lia|].
    destruct (host_part b2 (S j) D2) as (h' & b3 & -> & D3 & Lh & Nh & O3); [rewrite O2 by lia; done|lia|intros x Hx; rewrite O2 by lia; by apply (start_no_at j)|].
    apply pretty_result; [done|cbn; unfold NICKLEN; lia| |done|done].
    apply Nat.le_trans with (j - u')%nat; [|done]. apply text_length. replace (u' + (j - u'))%nat with j by lia. rewrite O3 by lia. done.
Qed.
End Pretty.

(** *** [collapse] of a mask, part by part *)

(** Induction over a mask, an escape as a whole. *)
Lemma escape_ind (P : list ascii -> Prop) : P [] -> (forall c m, (c =c "\") && is_wild (deref m) = false -> P m -> P (c :: m)) ->
  (forall d m, is_wild d = true -> P m -> P ("\"%char :: d :: m)) -> forall m, P m.
Proof.
  intros H0 H1 H2. assert (forall n m, (length m <= n)%nat -> P m) as K; [|intros m; by apply (K (length m))].
  induction n as [|n IH]; intros [|c m] L; [done|cbn in L; lia|done|]. cbn [length] in L. destruct ((c =c "\") && is_wild (deref m)) eqn:E; [|apply H1; [done|apply IH; lia]].
  apply andb_true_iff in E as [->%Ascii.eqb_eq E]. destruct m as [|d m]; [done|]. apply H2; [done|]. apply IH. cbn in L. lia.
Qed.

Lemma tail_step (c : ascii) (m : list ascii) (st : bool) : (c =c "\") && is_wild (deref m) = false ->
  collapse_tail (c :: m) st = if c =c "*" then collapse_tail m true
    else if st && negb (c =c "?") then "*"%char :: c :: collapse_tail m false else c :: collapse_tail m st.
Proof. intros N. cbn [collapse_tail]. rewrite N. destruct (c =c "*"); [done|]. by destruct (st && negb (c =c "?")). Qed.
Lemma tail_escape (d : ascii) (m : list ascii) (st : bool) : is_wild d = true ->
  collapse_tail ("\"%char :: d :: m) st = (if st then ["*"%char] else []) ++ "\"%char :: d :: collapse_tail m false.
Proof. intros W. cbn [collapse_tail deref]. change ("\" =c "*") with false. change ("\" =c "\") with true. change ("\" =c "?") with false. rewrite W. by destruct st. Qed.

Lemma tail_starred (m : list ascii) : is_wild (deref m) = false -> collapse_tail m true = "*"%char :: collapse_tail m false.
Proof.
  destruct m as [|c m]; [done|]. cbn [deref]. intros [W1 W2]%orb_false_iff. destruct ((c =c "\") && is_wild (deref m)) eqn:E.
  - apply andb_true_iff in E as [->%Ascii.eqb_eq E]. destruct m as [|d m]; [done|]. by rewrite !tail_escape.
  - by rewrite !tail_step, W1, W2 by done.
Qed.
Lemma tail_collapse (m : list ascii) : collapse_tail m false = collapse m.
Proof.
  induction m as [|c m E IH|d m W IH] using escape_ind; [done| |].
  - rewrite tail_step by done. cbn [collapse andb]. rewrite E. destruct (c =c "*") eqn:Ec; [|by rewrite IH]. cbn [andb]. destruct (is_wild (deref m)) eqn:W; [by rewrite tail_step, Ec by (by rewrite W)|].
    rewrite tail_starred, IH by done. by apply Ascii.eqb_eq in Ec as ->.
  - rewrite tail_escape by done. cbn [collapse deref]. change ("\" =c "*") with false. change ("\" =c "\") with true. rewrite W. cbn [andb app]. by rewrite IH.
Qed.

Lemma tail_split (a b : list ascii) (c : ascii) : is_wild c = false -> (c =c "\") = false -> forall st,
  collapse_tail (a ++ c :: b) st = collapse_tail a st ++ c :: collapse_tail b false.
Proof.
  intros W N. induction a as [|d a E IH|d a Wd IH] using escape_ind; intros st; cbn [app].
  - rewrite tail_step by (by rewrite N). apply orb_false_iff in W as [-> ->]. cbn [negb]. rewrite andb_true_r. by destruct st.
  - rewrite !tail_step by (done || (destruct a; [cbn [app deref]; by rewrite W, andb_false_r|exact E])). destruct (d =c "*"); [by apply IH|]. destruct (st && negb (d =c "?")); cbn [app]; by rewrite IH.
  - rewrite !tail_escape, IH by done. by rewrite <- app_assoc.
Qed.

Lemma collapse_split (a b : list ascii) (c : ascii) : is_wild c = false -> (c =c "\") = false -> collapse (a ++ c :: b) = collapse a ++ c :: collapse b.
Proof. intros W N. rewrite <- !tail_collapse. by apply tail_split. Qed.

Lemma tail_elem (m : list ascii) (c : ascii) : forall st, c ∈ collapse_tail m st -> c = "*"%char \/ c ∈ m.
Proof.
  induction m as [|d m E IH|d m W IH] using escape_ind; intros st.
  - cbn. destruct st; [|by rewrite elem_of_nil]. rewrite elem_of_cons, elem_of_nil. intros [?|[]]. by left.
  - rewrite tail_step by done. destruct (d =c "*"); [intros [?|?]%IH; [by left|right; by right]|]. destruct (st && negb (d =c "?")).
    + rewrite !elem_of_cons. intros [?|[?|[?|?]%IH]]; auto.
    + rewrite !elem_of_cons. intros [?|[?|?]%IH]; auto.
  - rewrite tail_escape by done. destruct st; cbn [app]; rewrite !elem_of_cons; [intros [?|[?|[?|[?|?]%IH]]]|intros [?|[?|[?|?]%IH]]]; auto.
Qed.
Lemma collapse_elem (m : list ascii) (c : ascii) : c ∈ collapse m -> c = "*"%char \/ c ∈ m.
Proof. rewrite <- tail_collapse. apply tail_elem. Qed.

Lemma strrchr_split (a b : list ascii) : "@"%char ∉ b -> strrchr (a ++ "@"%char :: b) "@" = Some (length a).
Proof.
  intros N. induction a as [|c a IH]; cbn [app strrchr length]; [|by rewrite IH]. assert (strrchr b "@" = None) as ->; [|done].
  induction b as [|c b IH]; [done|]. cbn [strrchr]. apply not_elem_of_cons in N as [Nc N]. rewrite IH by done. by rewrite (proj2 (Ascii.eqb_neq _ _)) by done.
Qed.

(** The bans made of such masks are well formed. *)
Lemma mask_wf (t : list ascii) (b0 b : Ban) : set_ban_mask b0 (collapse (pretty_mask t)) = Ok b ->
  ban_wf b /\ b_next b = b_next b0 /\ (forall m, m ∈ [BAN_ADD; BAN_DEL; BAN_EXCEPTION] -> has (b_flags b) m = has (b_flags b0) m).
Proof.
  intros E. destruct (pretty_form t) as (n & u & h & Ep & Nh & Ln & Lu & Lh). rewrite Ep in E.
  assert (collapse (n ++ "!"%char :: u ++ "@"%char :: h) = (collapse n ++ "!"%char :: collapse u) ++ "@"%char :: collapse h) as Ec.
  { rewrite !collapse_split by done. by rewrite <- app_assoc. }
  assert ("@"%char ∉ collapse h) as Nc by (intros [?|?]%collapse_elem; done). rewrite Ec in E. set (A := collapse n ++ "!"%char :: collapse u) in *.
  assert (0 < length A <= 26)%nat as LA.
  { subst A. rewrite length_app. cbn [length]. pose proof (collapse_length n). pose proof (collapse_length u). unfold NICKLEN, USERLEN in *. lia. }
  assert (length (A ++ "@"%char :: collapse h) <= MASKLEN)%nat as Lm.
  { rewrite length_app. cbn [length]. pose proof (collapse_length h). unfold MASKLEN, NICKLEN, USERLEN, HOSTLEN in *. lia. }
  unfold set_ban_mask in E. rewrite strrchr_split in E by done. rewrite take_ge in E by done. destruct (ipmask_parse _ true) as [[[used ip] bits]| |]; [|done|done]. cbn [obind] in E. injection E as <-.
  assert (Z.to_nat (u8 (Z.of_nat (length A))) = length A) as EA by (unfold u8; rewrite Z.mod_small by lia; lia).
  split; [|split; [done|]].
  - split; cbn [banstr nu_len set_banstr]; rewrite ?EA.
    + by rewrite list_lookup_middle.
    + lia.
    + rewrite drop_app_ge by lia. replace (S (length A) - length A)%nat with 1%nat by lia. done.
    + done.
  - intros m Hm. cbn [b_flags set_banstr]. destruct (used =? 0); [done|]. rewrite !elem_of_cons, elem_of_nil in Hm. destruct Hm as [->|[->|[->|[]]]]; bits; done.
Qed.

(** ** The first half keeps the list in order *)
Definition clean (b : Ban) : Ban := set_flags b (Z.ldiff (b_flags b) (Z.lor BAN_ADD (Z.lor BAN_DEL BAN_OVERLAPPED))).

Lemma clean_spec (L : list bid) : forall fuel h p, NoDup L -> seg h p L None -> (length L < fuel)%nat ->
  exists h', clean_loop fuel h p = Ok h' /\ seg h' p L None /\ contents h' L = map clean (contents h L) /\ (forall b, b ∉ L -> h' !! b = h !! b) /\ dom h' = dom h.
Proof.
  induction L as [|b L IH]; intros fuel h p ND C Lt; (destruct fuel as [|fuel]; [cbn in Lt; lia|]).
  - cbn in C. subst p. by exists h.
  - destruct C as [-> (x & Hx & C)]. apply NoDup_cons in ND as [Nb ND]. cbn [clean_loop]. unfold load. rewrite Hx. cbn [obind]. fold (clean x).
    destruct (IH fuel (<[b := clean x]> h) (b_next x)) as (h' & -> & C' & E' & O' & D'); [done|by apply seg_other|cbn in Lt; lia|].
    assert (h' !! b = Some (clean x)) as Hb by (rewrite O' by done; apply lookup_insert_eq). exists h'. split; [done|]. split; [|split; [|split]].
    + split; [done|]. exists (clean x). by split.
    + rewrite (contents_cons h' b (clean x) L Hb), E', (contents_cons h b x L Hx). cbn [map]. by rewrite contents_other.
    + intros c Hc. apply not_elem_of_cons in Hc as [Nc Hc]. by rewrite O', lookup_insert_ne.
    + rewrite D'. apply dom_insert_lookup_L. by exists x.
Qed.

Definition MAXPARA : nat := 15.
Definition cleaned (s : ParseState) : bool := has (ps_done s) DONE_BANCLEAN.
Definition has_add (b : Ban) : bool := has (b_flags b) BAN_ADD.

(** Between the two halves: the bans of the channel [R], behind them bans of the stack [S]. *)
Record parsing (s : ParseState) (R S F : list bid) : Prop := {
  p_seg : seg (heap (st s)) (banlist s) (R ++ S) None;
  p_nodup : NoDup (R ++ F);
  p_heap : Forall is_heap R;
  p_alloc : alloc_ok (st s) F;
  p_stack : NoDup S /\ Forall (fun p => exists k, p = inr k /\ (k < numbans s)%nat) S;
  p_slots : forall k, (numbans s <= k < MAXPARA)%nat -> is_Some (heap (st s) !! inr k);
  p_wf : Forall ban_wf (contents (heap (st s)) (R ++ S));
  p_add : if cleaned s then Forall (fun b => has_add b = false) (contents (heap (st s)) R) /\ Forall (fun b => has_add b = true) (contents (heap (st s)) S) else S = []
}.

(** Changes that leave the heap and the list alone. *)
Lemma parsing_frame (s s' : ParseState) (R S F : list bid) : parsing s R S F -> st s' = st s -> banlist s' = banlist s -> numbans s' = numbans s -> cleaned s' = cleaned s -> parsing s' R S F.
Proof. intros [] E1 E2 E3 E4. split; rewrite ?E1, ?E2, ?E3, ?E4; done. Qed.

Lemma stack_of (s : ParseState) (R S F : list bid) : parsing s R S F -> Forall is_stack S.
Proof. intros P. destruct (p_stack s R S F P) as [_ H]. eapply Forall_impl; [exact H|]. intros p (k & -> & _). done. Qed.

Lemma parsing_nodup (s : ParseState) (R S F : list bid) : parsing s R S F -> NoDup (R ++ S).
Proof.
  intros P. pose proof (stack_of s R S F P) as HS. destruct P as [_ ND HR _ [NS _] _ _ _]. apply NoDup_app in ND as (NR & _ & _). apply NoDup_app. split; [done|]. split; [|done].
  intros p Hp. apply heap_not_stack; [|done]. rewrite Forall_forall in HR. by apply HR.
Qed.

Lemma free_disjoint (s : ParseState) (R S F : list bid) (b : bid) : parsing s R S F -> b ∈ F -> b ∉ R ++ S.
Proof.
  intros P Hb. pose proof (stack_of s R S F P) as HS. destruct P as [_ ND _ [_ _ HF _] _ _ _ _]. apply NoDup_app in ND as (_ & X & _). rewrite elem_of_app. intros [H|H]; [by apply (X b H)|].
  apply (heap_not_stack b S); [|done|done]. rewrite Forall_forall in HF. by apply HF.
Qed.

(** A walk over the list that changes flags only. *)
Lemma parsing_walk (s s' : ParseState) (R S F : list bid) (h' : bheap) (f : Ban -> Ban) : parsing s R S F ->
  st s' = set_heap (st s) h' -> banlist s' = banlist s -> numbans s' = numbans s ->
  seg h' (banlist s) (R ++ S) None -> contents h' (R ++ S) = map f (contents (heap (st s)) (R ++ S)) ->
  (forall b, b ∉ R ++ S -> h' !! b = heap (st s) !! b) -> dom h' = dom (heap (st s)) -> (forall b, ban_wf b -> ban_wf (f b)) ->
  (if cleaned s' then Forall (fun b => has_add b = false) (contents h' R) /\ Forall (fun b => has_add b = true) (contents h' S) else S = []) -> parsing s' R S F.
Proof.
  intros P E1 E2 E3 C E O D Wf Ad. pose proof P as [_ ND HR AF [NS HS] Sl W _]. split; rewrite ?E1, ?E2, ?E3; cbn [heap set_heap]; try done.
  - apply alloc_ext; [done| |done]. intros b Hb. apply O. by apply (free_disjoint s R S F b).
  - intros k Hk. apply elem_of_dom. rewrite D. apply elem_of_dom. by apply Sl.
  - rewrite E. apply Forall_map. by eapply Forall_impl; [exact W|].
Qed.

Lemma clean_wf (b : Ban) : ban_wf b -> ban_wf (clean b).
Proof. intros []. by split. Qed.
Lemma clean_add (b : Ban) : has_add (clean b) = false.
Proof. unfold has_add, clean. cbn [b_flags set_flags]. bits. done. Qed.
Lemma mark_add (new b : Ban) : has_add (mark new b) = has_add b.
Proof. unfold has_add, mark. destruct (cov new b); [|done]. cbn [b_flags set_flags]. apply mark_keeps. set_solver. Qed.

Lemma done_clean (d : Z) : has (Z.lor d DONE_BANCLEAN) DONE_BANCLEAN = true.
Proof. change DONE_BANCLEAN with (2 ^ 4). rewrite has_bit, Z.lor_spec by lia. apply orb_true_r. Qed.
Lemma done_other (d m : Z) : m ∈ [DONE_BANLIST; DONE_NOTOPER] -> has (Z.lor d m) DONE_BANCLEAN = has d DONE_BANCLEAN.
Proof.
  change DONE_BANCLEAN with (2 ^ 4). rewrite !has_bit, Z.lor_spec by lia. rewrite !elem_of_cons, elem_of_nil. intros [->|[->|[]]]; apply orb_false_r.
Qed.

Lemma parse_clean (s : ParseState) (R S F : list bid) : parsing s R S F ->
  exists s1, (if has (ps_done s) DONE_BANCLEAN then Ok s
              else let* h := clean_loop (Datatypes.S (size (heap (st s)))) (heap (st s)) (banlist s) in
                   Ok (set_done (MkParse (set_heap (st s) h) (banlist s) (parv s) (max_args s) (ps_done s) (numbans s) (notices s)) DONE_BANCLEAN)) = Ok s1 /\
    parsing s1 R S F /\ cleaned s1 = true /\ numbans s1 = numbans s /\ parv s1 = parv s.
Proof.
  intros P. destruct (has (ps_done s) DONE_BANCLEAN) eqn:Ed; [exists s; by split|]. pose proof (p_add s R S F P) as Sn. unfold cleaned in Sn. rewrite Ed in Sn. subst S.
  destruct (clean_spec (R ++ []) (Datatypes.S (size (heap (st s)))) (heap (st s)) (banlist s)) as (h' & -> & C & E & O & D); [apply (parsing_nodup s R [] F P)|apply P| |].
  { pose proof (seg_size _ _ _ _ (parsing_nodup s R [] F P) (p_seg s R [] F P)). lia. }
  cbn [obind]. eexists. split; [done|]. assert (cleaned (set_done (MkParse (set_heap (st s) h') (banlist s) (parv s) (max_args s) (ps_done s) (numbans s) (notices s)) DONE_BANCLEAN) = true) as Ec by apply done_clean.
  split; [|done]. eapply (parsing_walk s _ R [] F h' clean); try done; [apply clean_wf|]. rewrite Ec. rewrite !app_nil_r in E. rewrite E. split; [|constructor].
  apply Forall_map, Forall_forall. intros b _. apply clean_add.
Qed.

Lemma contents_length (h : bheap) (L : list bid) : forall p q, seg h p L q -> length (contents h L) = length L.
Proof. induction L as [|b L IH]; intros p q C; [done|]. destruct C as [_ (x & Hx & C)]. rewrite (contents_cons h b x L Hx). cbn [length]. by rewrite (IH _ _ C). Qed.

Lemma contents_split (h h' : bheap) (R S : list bid) (f : Ban -> Ban) (p p' q : option bid) : seg h p (R ++ S) None -> seg h' p' (R ++ S) q ->
  contents h' (R ++ S) = map f (contents h (R ++ S)) -> contents h' R = map f (contents h R) /\ contents h' S = map f (contents h S).
Proof.
  intros (r & C1 & _)%seg_app (r' & C2 & _)%seg_app E. rewrite !contents_app, map_app in E. apply app_inj_1 in E; [done|].
  by rewrite length_map, (contents_length _ _ _ _ C1), (contents_length _ _ _ _ C2).
Qed.

(** Filling the next place of the array. *)
Lemma parsing_slot (s : ParseState) (R S F : list bid) (b : Ban) : parsing s R S F -> (numbans s < MAXPARA)%nat ->
  let s' := MkParse (set_heap (st s) (<[inr (numbans s) := b]> (heap (st s)))) (banlist s) (parv s) (max_args s) (ps_done s) (Datatypes.S (numbans s)) (notices s) in
  parsing s' R S F /\ (inr (numbans s) ∉ R ++ S) /\ contents (heap (st s')) (R ++ S) = contents (heap (st s)) (R ++ S).
Proof.
  intros P Lt. cbv zeta. assert (inr (numbans s) ∉ R ++ S) as N.
  { rewrite elem_of_app. destruct P as [_ _ HR _ [_ HS] _ _ _]. rewrite Forall_forall in HR, HS. intros [H|H]; [by apply HR in H|]. apply HS in H as (k & Ek & Hk). injection Ek as <-. lia. }
  assert (forall M, inr (numbans s) ∉ M -> contents (<[inr (numbans s) := b]> (heap (st s))) M = contents (heap (st s)) M) as EM by (intros; by apply contents_other).
  assert ((inr (numbans s) ∉ R) /\ (inr (numbans s) ∉ S)) as [NR NS] by (rewrite elem_of_app in N; tauto). split; [|split; [done|by apply EM]].
  destruct (p_slots s R S F P (numbans s) ltac:(lia)) as [x Hx]. destruct P as [C ND HR AF [NS' HS] Sl W Ad].
  split; cbn [st banlist numbans heap set_heap]; try done.
  - by apply seg_other.
  - apply alloc_ext; [done| |apply dom_insert_lookup_L; by exists x]. intros c Hc. apply lookup_insert_ne. intros <-. destruct AF as [_ _ HF _]. rewrite Forall_forall in HF. by apply (HF _ Hc).
  - split; [done|]. eapply Forall_impl; [exact HS|]. intros p (k & -> & Hk). exists k. split; [done|lia].
  - intros k Hk. rewrite lookup_insert_ne by (intros E; injection E as E; lia). apply Sl. lia.
  - by rewrite EM.
  - change (cleaned (MkParse _ _ _ _ _ _ _)) with (cleaned s). by rewrite !EM.
Qed.

Lemma parse_apply (s : ParseState) (R S F : list bid) (b : Ban) : parsing s R S F -> cleaned s = true -> (numbans s < MAXPARA)%nat -> ban_wf b -> b_next b = None ->
  has_add b = true \/ (has_add b = false /\ has (b_flags b) BAN_DEL = true) ->
  exists st' bl' rc S', apply_ban (set_heap (st s) (<[inr (numbans s) := b]> (heap (st s)))) (banlist s) (inr (numbans s)) false = Ok (st', bl', rc) /\
    parsing (MkParse st' bl' (parv s) (max_args s) (ps_done s) (Datatypes.S (numbans s)) (notices s)) R S' F.
Proof.
  intros P Cl Lt Wb Nx Fl. destruct (parsing_slot s R S F b P Lt) as (P1 & N & E1). cbv zeta in *. set (s1 := MkParse _ _ _ _ _ _ _) in *.
  pose proof (parsing_nodup s1 R S F P1) as ND. pose proof (p_seg s1 R S F P1) as C. pose proof (p_wf s1 R S F P1) as W. pose proof (p_add s1 R S F P1) as Ad. change (cleaned s1) with (cleaned s) in Ad. rewrite Cl in Ad.
  assert (heap (st s1) !! inr (numbans s) = Some b) as Hb by apply lookup_insert_eq.
  assert (forall h', seg h' (banlist s) (R ++ S) None -> contents h' (R ++ S) = map (mark b) (contents (heap (st s1)) (R ++ S)) -> (forall c, c ∉ R ++ S -> h' !! c = heap (st s1) !! c) -> dom h' = dom (heap (st s1)) ->
    parsing (MkParse (set_heap (st s1) h') (banlist s) (parv s) (max_args s) (ps_done s) (Datatypes.S (numbans s)) (notices s)) R S F) as Walk.
  { intros h' C' E' O' D'. destruct (contents_split _ h' R S (mark b) _ _ _ C C' E') as [ER ES].
    eapply (parsing_walk s1 _ R S F h' (mark b)); try done; [apply mark_wf|]. change (cleaned (MkParse _ _ _ _ _ _ _)) with (cleaned s). rewrite Cl, ER, ES.
    split; apply Forall_map; (eapply Forall_impl; [apply Ad|]); intros x Hx; cbv beta in *; by rewrite mark_add. }
  destruct Fl as [Ha|[Ha Hd]].
  - destruct (apply_add (st s1) (banlist s) (R ++ S) (inr (numbans s)) b Hb N ND C Wb W false Ha Nx) as (st' & bl' & L' & rc & E & C' & K). exists st', bl', rc.
    destruct (existsb _ _).
    + destruct K as (-> & -> & -> & -> & E'). exists S. split; [done|]. exact P1.
    + destruct K as (-> & -> & E' & Est & O' & D'). exists (S ++ [inr (numbans s)]). split; [done|]. rewrite Est. rewrite contents_app in E'. pose proof C' as (q & C1 & _)%seg_app.
      apply app_inj_1 in E' as [E1' E2']; [|by rewrite length_map, (contents_length _ _ _ _ C), (contents_length _ _ _ _ C1)].
      destruct (contents_split _ _ R S (mark b) _ _ _ C C1 E1') as [ER ES]. pose proof P1 as [_ NDF HR AF [NS HS] Sl _ _].
      split; cbn [st banlist numbans heap set_heap]; rewrite ?app_assoc; try done.
      * apply alloc_ext; [done| |done]. intros c Hc. apply O'. by apply (free_disjoint s1 R S F c P1).
      * split; [|apply Forall_app; split; [done|]; constructor; [|constructor]; exists (numbans s); split; [done|lia]].
        rewrite elem_of_app in N. apply NoDup_app. split; [done|]. split; [|apply NoDup_singleton]. intros c Hc. rewrite elem_of_cons, elem_of_nil. intros [->|[]]. tauto.
      * intros k Hk. apply elem_of_dom. rewrite D'. apply elem_of_dom. by apply Sl.
      * rewrite contents_app, E1', E2'. apply Forall_app. split; [apply Forall_map; eapply Forall_impl; [exact W|apply mark_wf]|]. constructor; [by apply body_wf|constructor].
      * change (cleaned (MkParse _ _ _ _ _ _ _)) with (cleaned s). rewrite Cl, contents_app, ER, ES, E2'. destruct Ad as [A1 A2]. split; [|apply Forall_app; split; [|by constructor]].
        -- apply Forall_map. eapply Forall_impl; [exact A1|]. intros x Hx. cbv beta in *. by rewrite mark_add.
        -- apply Forall_map. eapply Forall_impl; [exact A2|]. intros x Hx. cbv beta in *. by rewrite mark_add.
  - destruct (apply_del (st s1) (banlist s) (R ++ S) (inr (numbans s)) b Hb N ND C Wb W false Ha Hd) as (st' & rc & E & C' & E' & _ & K). destruct (K ltac:(by right)) as (Est & O' & D').
    exists st', (banlist s), rc, S. split; [done|]. rewrite Est. by apply Walk.
Qed.

Lemma remake_wf (b : Ban) : ban_wf b -> ban_wf (remake b) /\ banstr (remake b) = banstr b /\ nu_len (remake b) = nu_len b.
Proof.
  intros W. pose proof W as [A1 A2 A3 A5]. unfold remake. destruct (set_ban_mask_total no_ban (banstr b)) as [m Em]. rewrite Em. unfold set_ban_mask in Em.
  assert (strrchr (banstr b) "@" = Some (length (nu_mask b))) as Es by (rewrite (wf_split b W) at 1; by apply strrchr_split). rewrite Es in Em. destruct (ipmask_parse _ true) as [[[used ip] bits]| |]; [|done|done]. cbn [obind] in Em. injection Em as <-.
  assert (length (nu_mask b) = nu_len b) as Ln by (unfold nu_mask; rewrite length_take; pose proof (lookup_lt_Some _ _ _ A1); lia).
  assert (Z.to_nat (u8 (Z.of_nat (length (nu_mask b)))) = nu_len b) as En.
  { rewrite Ln. pose proof (lookup_lt_Some _ _ _ A1). unfold MASKLEN, NICKLEN, USERLEN, HOSTLEN in A5. unfold u8. rewrite Z.mod_small by lia. lia. }
  split; [|split; [|exact En]]; [split|]; cbn [body set_next set_flags set_origin banstr nu_len set_banstr]; rewrite ?En, ?take_ge by done; done.
Qed.
Lemma keep_wf (r : Request) (b c : Ban) : ban_wf b -> keep r b = Some c -> ban_wf c.
Proof. intros []. unfold keep. repeat case_if; intros E; try injection E as <-; done. Qed.

(** One argument of [+b] or [-b]. *)
Lemma parse_step (r : Request) (add exc : bool) (s : ParseState) (R S F : list bid) : parsing s R S F -> (numbans s < MAXPARA)%nat ->
  exists s' S', mode_parse_ban r add exc s = Ok s' /\ parsing s' R S' F /\ (numbans s' <= Datatypes.S (numbans s))%nat.
Proof.
  intros P Lt. unfold mode_parse_ban. destruct (parv s) as [|t_str rest] eqn:Ev.
  { case_if; eexists _, S; (split; [done|]); [|split; [done|]; lia].
    split; [|cbn; lia]. apply (parsing_frame s); try done. apply done_other. left. }
  case_if; [exists s, S; split; [done|]; split; [done|]; lia|].
  set (s0 := MkParse _ _ rest _ _ _ _). assert (parsing s0 R S F) as P0 by (by apply (parsing_frame s)).
  destruct (no_rights r).
  { eexists _, S. split; [done|]. unfold send_notoper. case_if; [split; [done|]; cbn; lia|]. split; [|cbn; lia]. apply (parsing_frame s0); try done. apply done_other. right. left. }
  destruct (match until_space t_str with [] => true | c :: _ => c =c ":" end).
  { eexists _, S. split; [done|]. destruct (my_user r); (split; [|cbn; lia]); [by apply (parsing_frame s0)|done]. }
  destruct (parse_clean s0 R S F P0) as (s1 & -> & P1 & C1 & N1 & V1). cbn [obind]. assert (numbans s1 < MAXPARA)%nat as Lt1 by (rewrite N1; exact Lt).
  destruct (p_slots s1 R S F P1 (numbans s1) ltac:(lia)) as [x Hx]. unfold load. rewrite Hx. cbn [obind].
  set (fl := Z.lor _ _). set (x0 := set_flags (set_next x None) fl). destruct (set_ban_mask_total x0 (collapse (pretty_mask (until_space t_str)))) as [b Eb]. rewrite Eb. cbn [obind].
  destruct (mask_wf _ x0 b Eb) as (Wb & Nb & Fb). set (b1 := set_origin b _ _).
  destruct (parse_apply s1 R S F b1 P1 C1 Lt1) as (st' & bl' & rc & S' & -> & P'); [by destruct Wb|done| |].
  { unfold has_add. change (b_flags b1) with (b_flags b). rewrite !Fb by set_solver. subst x0 fl. cbn [b_flags set_flags set_next]. destruct add; [left|right; split]; destruct exc; bits; done. }
  cbn [obind]. eexists _, S'. split; [done|]. split; [done|]. cbn [numbans parv]. by rewrite N1.
Qed.

(** ** A whole [MODE] command: its bans one after the other, then [mode_process_bans] *)
Fixpoint parse_bans (r : Request) (ops : list (bool * bool)) (s : ParseState) : outcome ParseState :=
  match ops with
  | [] => Ok s
  | (add, exc) :: ops => let* s := mode_parse_ban r add exc s in parse_bans r ops s
  end.

Definition mode_bans (r : Request) (ops : list (bool * bool)) (s : ParseState) : outcome (ParseState * bool) :=
  let* s := parse_bans r ops s in
  if cleaned s then mode_process_bans r s else Ok (s, false).

Lemma parse_bans_spec (r : Request) (R F : list bid) (ops : list (bool * bool)) : forall s S, parsing s R S F -> (numbans s + length ops <= MAXPARA)%nat ->
  exists s' S', parse_bans r ops s = Ok s' /\ parsing s' R S' F.
Proof.
  induction ops as [|[add exc] ops IH]; intros s S P Lt; cbn [parse_bans]; [by exists s, S|]. cbn [length] in Lt.
  destruct (parse_step r add exc s R S F P) as (s1 & S1 & -> & P1 & N1); [lia|]. cbn [obind]. apply (IH s1 S1); [done|lia].
Qed.

Lemma omap_keep_wf (r : Request) (l : list Ban) : Forall ban_wf l -> Forall ban_wf (omap (keep r) l).
Proof. induction 1 as [|b l Wb _ IH]; [constructor|]. cbn. destruct (keep r b) as [c|] eqn:E; [|done]. constructor; [by apply (keep_wf r b)|done]. Qed.
Lemma accept_wf (r : Request) (l : list Ban) : Forall ban_wf l -> forall count len, Forall ban_wf (accept r l count len).1.
Proof.
  induction 1 as [|b l Wb _ IH]; intros count len; cbn [accept]; [constructor|]. case_if; [done|]. case_if.
  - specialize (IH count len). by destruct (accept r l count len).
  - specialize (IH (count + 1) (len + Z.of_nat (length (banstr b)))). destruct (accept r l _ _). by constructor.
Qed.

(** What [mode_process_bans] makes of the bans of the channel and of the stack. *)
Definition outcome_of (r : Request) (old new : list Ban) : list Ban :=
  let kept := omap (keep r) old in
  (if parse_set r then rev (map remake (accept r new (Z.of_nat (length kept)) (text_len kept)).1) else []) ++ kept.

Lemma keep_length (r : Request) (l : list Ban) : Z.of_nat (length (omap (keep r) l)) = Z.of_nat (length l) - (if parse_set r then Z.of_nat (length (removed l)) else 0).
Proof.
  induction l as [|b l IH]; [by destruct (parse_set r)|]. rewrite (removed_cons b l), length_app. unfold removed at 1. cbn. unfold keep at 1. destruct (has (b_flags b) BAN_DEL); destruct (parse_set r); cbn [length app]; lia.
Qed.
Lemma keep_all (r : Request) (l : list Ban) : removed l = [] -> omap (keep r) l = l.
Proof.
  induction l as [|b l IH]; [done|]. rewrite removed_cons. intros E. apply app_eq_nil in E as [E1 E2]. unfold removed in E1. cbn in E1 |- *. unfold keep at 1. destruct (has (b_flags b) BAN_DEL); [done|]. by rewrite IH.
Qed.

(** What it says on the way. *)
Definition said_of (r : Request) (old new : list Ban) : list notice :=
  let kept := omap (keep r) old in removal old ++ (accept r new (Z.of_nat (length kept)) (text_len kept)).2.

Lemma process_spec (r : Request) (s : ParseState) (R S F : list bid) : parsing s R S F -> cleaned s = true ->
  exists s' inv L' F', mode_process_bans r s = Ok (s', inv) /\ seg (heap (st s')) (banlist s') L' None /\ alloc_ok (st s') F' /\ NoDup (L' ++ F') /\ Forall is_heap L' /\
    contents (heap (st s')) L' = outcome_of r (contents (heap (st s)) R) (contents (heap (st s)) S) /\
    (inv = false -> parse_set r = true -> contents (heap (st s')) L' = contents (heap (st s)) R) /\
    bans_inuse (st s') - Z.of_nat (length L') = bans_inuse (st s) - Z.of_nat (length R) /\
    notices s' = notices s ++ said_of r (contents (heap (st s)) R) (contents (heap (st s)) S).
Proof.
  intros P Cl. pose proof (stack_of s R S F P) as HS. pose proof (p_add s R S F P) as Ad. rewrite Cl in Ad. destruct Ad as [A1 A2]. pose proof (parsing_nodup s R S F P) as NRS.
  destruct P as [C NRF HR AF [NS _] _ _ _]. set (kept := omap (keep r) (contents (heap (st s)) R)).
  destruct (accept r (contents (heap (st s)) S) (Z.of_nat (length kept)) (text_len kept)) as [acc out] eqn:EA.
  destruct (process_reals r S NS HS R (Datatypes.S (size (heap (st s)))) (st s) (banlist s) (banlist s) [] F (MkTotals 0 0 0 []) acc out)
    as (st' & head' & L' & F' & t' & E & R1 & R2 & R3 & R4 & R5 & R6 & R7 & R8); try done; [pose proof (seg_size _ _ _ _ NRS C); lia|].
  unfold mode_process_bans. cbn [last] in E. rewrite E. cbn [obind]. eexists _, _, L', F'. split; [done|]. cbn [st banlist]. do 4 (split; [done|]). cbn [contents omap list_omap app] in R5.
  assert (contents (heap st') L' = outcome_of r (contents (heap (st s)) R) (contents (heap (st s)) S)) as Eo by (rewrite R5; unfold outcome_of; fold kept; by rewrite EA).
  split; [done|]. cbn [t_changed] in R6. split; [|split].
  - intros I Es. rewrite Es in R5, R6. apply negb_false_iff, Z.eqb_eq in I. assert (length acc = 0 /\ length (removed (contents (heap (st s)) R)) = 0)%nat as [Ea Eg] by lia.
    apply nil_length_inv in Ea as ->. apply nil_length_inv in Eg. cbn in R5. by rewrite R5, keep_all.
  - rewrite <- (contents_length _ _ _ _ R1), R5, R8, length_app. pose proof (keep_length r (contents (heap (st s)) R)) as Kl. apply seg_app in C as (q & C1 & _). rewrite (contents_length _ _ _ _ C1) in Kl.
    destruct (parse_set r); [rewrite length_rev, length_map|cbn [length]]; lia.
  - cbn [notices]. rewrite R7. unfold said_of. fold kept. by rewrite EA.
Qed.

Definition mask_said (n : notice) : nat := match n with ListFull m | ModeAdd m | ModeDel m => length m | _ => O end.
Lemma accept_said (r : Request) (l : list Ban) : Forall ban_wf l -> forall count len, Forall (fun n => (mask_said n <= MASKLEN)%nat) (accept r l count len).2.
Proof.
  induction 1 as [|b l Wb _ IH]; intros count len; cbn [accept]; [constructor|]. case_if; [done|]. case_if.
  - specialize (IH count len). destruct (accept r l count len). constructor; [apply Wb|done].
  - specialize (IH (count + 1) (len + Z.of_nat (length (banstr b)))). destruct (accept r l _ _). constructor; [apply Wb|done].
Qed.
Lemma said_short (r : Request) (old new : list Ban) : Forall ban_wf old -> Forall ban_wf new -> Forall (fun n => (mask_said n <= MASKLEN)%nat) (said_of r old new).
Proof.
  intros Wo Wn. apply Forall_app. split; [|by apply accept_said]. unfold removal, removed. apply Forall_map. induction Wo as [|b l Wb _ IH]; cbn; [constructor|].
  destruct (has (b_flags b) BAN_DEL); [constructor; [apply Wb|done]|done].
Qed.

Lemma outcome_wf (r : Request) (old new : list Ban) : Forall ban_wf old -> Forall ban_wf new -> Forall ban_wf (outcome_of r old new).
Proof.
  intros Wo Wn. unfold outcome_of. apply Forall_app. split; [|by apply omap_keep_wf]. destruct (parse_set r); [|constructor]. apply Forall_rev, Forall_map. eapply Forall_impl; [by apply accept_wf|].
  intros b Wb. by apply remake_wf.
Qed.

(** C9: whatever words a [MODE] command gives as bans, backslashes included, at most
    [MAXPARA] of them, its two halves return on a channel whose bans have the form
    nick!user@host, and leave the channel
    with a list of bans of that form that were all allocated: none of the places of
    [mode_parse]'s own array stays linked, nothing that was freed stays linked, and the count
    of bans in use is exact.  When bans were named, the list is what
    [outcome_of] says: in front the new ones that were accepted, last one first, behind
    them the old ones that were not removed; and when it changed the cached verdicts of
    the members are thrown away. *)
Theorem mode_bans_safe (r : Request) (ops : list (bool * bool)) (s : ParseState) (R F : list bid) :
  parsing s R [] F -> (numbans s + length ops <= MAXPARA)%nat ->
  exists s' inv L' F', mode_bans r ops s = Ok (s', inv) /\ seg (heap (st s')) (banlist s') L' None /\ Forall is_heap L' /\ NoDup (L' ++ F') /\ alloc_ok (st s') F' /\
    Forall ban_wf (contents (heap (st s')) L') /\
    exists s1 S, parse_bans r ops s = Ok s1 /\ parsing s1 R S F /\
      if cleaned s1 then
        contents (heap (st s')) L' = outcome_of r (contents (heap (st s1)) R) (contents (heap (st s1)) S) /\
        (inv = false -> parse_set r = true -> contents (heap (st s')) L' = contents (heap (st s1)) R) /\
        bans_inuse (st s') - Z.of_nat (length L') = bans_inuse (st s1) - Z.of_nat (length R)
      else s' = s1 /\ L' = R.
Proof.
  intros P Lt. destruct (parse_bans_spec r R F ops s [] P Lt) as (s1 & S & E1 & P1). unfold mode_bans. rewrite E1. cbn [obind]. pose proof (p_wf s1 R S F P1) as W. rewrite contents_app in W. apply Forall_app in W as [WR WS].
  destruct (cleaned s1) eqn:Cl.
  - destruct (process_spec r s1 R S F P1 Cl) as (s' & inv & L' & F' & E & C & AF & ND & HL & Eo & Ei & Eu & _). exists s', inv, L', F'. do 5 (split; [done|]). split; [rewrite Eo; by apply outcome_wf|].
    exists s1, S. split; [done|]. split; [done|]. rewrite Cl. split; [done|]. by split.
  - pose proof (p_add s1 R S F P1) as Sn. rewrite Cl in Sn. subst S. exists s1, false, R, F. split; [done|]. pose proof P1 as [C NRF HR AF _ _ _ _]. rewrite app_nil_r in C. do 5 (split; [done|]).
    exists s1, []. split; [done|]. split; [done|]. by rewrite Cl.
Qed.

(** ** Looking a user up in a list *)
Lemma contents_elem (h : bheap) (L : list bid) (p : bid) (x : Ban) : p ∈ L -> h !! p = Some x -> body x ∈ contents h L.
Proof. intros Hp Hx. unfold contents. apply list_elem_of_omap. exists p. split; [done|]. by rewrite Hx. Qed.

Lemma first_hit_some (trust : bool) (h : bheap) (c : Who) (L : list bid) (p : bid) : first_hit trust h c L = Some p ->
  exists L1 L2 x, L = L1 ++ p :: L2 /\ h !! p = Some x /\ exception x = false /\ hits trust c x = true /\
    Forall (fun y => negb (exception y) && hits trust c y = false) (contents h L1).
Proof.
  induction L as [|q L IH]; cbn [first_hit]; [done|]. destruct (h !! q) as [y|] eqn:Hq; [|done]. destruct (negb (exception y) && hits trust c y) eqn:Eh.
  - intros [= <-]. apply andb_true_iff in Eh as [Ex Eh]. exists [], L, y. split; [done|]. split; [done|]. split; [by apply negb_true_iff|]. split; [done|constructor].
  - intros (L1 & L2 & x & -> & Hx & E1 & E2 & F)%IH. exists (q :: L1), L2, x. split; [done|]. do 3 (split; [done|]). rewrite (contents_cons h q y L1 Hq). by constructor.
Qed.

Lemma first_hit_none (trust : bool) (h : bheap) (c : Who) (L : list bid) : forall p, seg h p L None -> first_hit trust h c L = None ->
  Forall (fun y => negb (exception y) && hits trust c y = false) (contents h L).
Proof.
  induction L as [|q L IH]; intros p C; cbn [first_hit]; [constructor|]. destruct C as [_ (x & Hx & C)]. rewrite Hx, (contents_cons h q x L Hx). destruct (negb (exception x) && hits trust c x) eqn:Eh; [done|].
  intros E. constructor; [exact Eh|]. by apply (IH _ C).
Qed.

(** C29: [find_ban] returns on every list of bans whose masks [match] reads as documented
    ([ban_readable]: no dangling backslash and no escaped character directly behind a star)
    and leaves every mask as it
    was.  It answers with a ban exactly when no exception of the list hits the user and
    some ban does, and then with the first such ban. *)
Theorem find_ban_exact (trust : bool) (h : bheap) (c : Who) (banlist : option bid) (L : list bid) :
  NoDup L -> seg h banlist L None -> Forall ban_readable (contents h L) ->
  exists res, find_ban trust h c banlist = Ok (h, res) /\
    match res with
    | Some p => exists L1 L2 x, L = L1 ++ p :: L2 /\ h !! p = Some x /\ exception x = false /\ hits trust c x = true /\
        Forall (fun y => exception y && hits trust c y = false) (contents h L) /\ Forall (fun y => negb (exception y) && hits trust c y = false) (contents h L1)
    | None => Exists (fun y => exception y && hits trust c y = true) (contents h L) \/ Forall (fun y => hits trust c y = false) (contents h L)
    end.
Proof.
  intros ND C W. exists (decisive trust h c L None). split; [apply find_loop_spec; [done|done|pose proof (seg_size _ _ _ _ ND C); lia]|].
  unfold decisive. destruct (existsb _ (contents h L)) eqn:Ex.
  - left. apply existsb_exists in Ex as (y & Hy & E). apply Exists_exists. exists y. split; [by apply list_elem_of_In|done].
  - assert (Forall (fun y => exception y && hits trust c y = false) (contents h L)) as Fx.
    { apply Forall_forall. intros y Hy. destruct (exception y && hits trust c y) eqn:E; [|done]. rewrite <- Ex. symmetry. apply existsb_exists. exists y. split; [by apply list_elem_of_In|done]. }
    destruct (first_hit trust h c L) as [p|] eqn:Ef.
    + destruct (first_hit_some _ _ _ _ _ Ef) as (L1 & L2 & x & EL & Hx & E1 & E2 & F1). exists L1, L2, x. by repeat split.
    + right. pose proof (first_hit_none trust h c L banlist C Ef) as Fn. rewrite Forall_forall in Fx, Fn |- *. intros y Hy. specialize (Fx y Hy). specialize (Fn y Hy). cbv beta in *. by destruct (exception y), (hits trust c y).
Qed.

(** ** Concrete lists *)
Definition ban_of (s : string) (flags : Z) (next : option bid) : Ban :=
  match set_ban_mask no_ban (cstr s) with Ok b => set_next (set_flags b (Z.lor (b_flags b) flags)) next | _ => no_ban end.

#[global] Instance ban_wf_dec (b : Ban) : Decision (ban_wf b).
Proof.
  refine (cast_if (decide (banstr b !! nu_len b = Some "@"%char /\ (0 < nu_len b)%nat /\ ("@"%char ∉ drop (S (nu_len b)) (banstr b)) /\ (length (banstr b) <= MASKLEN)%nat))).
  - destruct a as (A1 & A2 & A3 & A4). by split.
  - intros [A1 A2 A3 A4]. by apply n.
Defined.
#[global] Instance ban_readable_dec (b : Ban) : Decision (ban_readable b).
Proof.
  assert (forall m, Decision (readable m)) by (intros m; unfold readable, no_nul; apply _).
  refine (cast_if (decide (banstr b !! nu_len b = Some "@"%char /\ readable (nu_mask b) /\ readable (host_mask b) /\ readable (banstr b)))).
  - destruct a as (A1 & A2 & A3 & A4). by split.
  - intros [A1 A2 A3 A4]. by apply n.
Defined.
#[global] Instance addr_ok_dec (b : Ban) : Decision (addr_ok b).
Proof. unfold addr_ok. apply _. Defined.

Definition two_bans : bheap := <[inl 0%nat := ban_of "*!*@*.example.org" 0 (Some (inl 1%nat))]> (<[inl 1%nat := ban_of "bad!*@10.0.0.0/8" 0 None]> (<[inl 2%nat := ban_of "*!*@*.org" BAN_ADD None]> ∅)).
Definition st_two : bstate := BState two_bans None 3 3 3.
Definition guest : Who := MkWho (cstr "guest") (cstr "~g") (cstr "a.example.org") (cstr "a.example.org") (InAddr [0; 0; 0; 0; 0; 65535; 0xc0a8; 1]) false.

Lemma find_ban_exact_witness :
  exists res, find_ban false two_bans guest (Some (inl 0%nat)) = Ok (two_bans, res) /\ res = Some (inl 0%nat).
Proof.
  destruct (find_ban_exact false two_bans guest (Some (inl 0%nat)) [inl 0%nat; inl 1%nat]) as (res & E & _).
  - apply (bool_decide_unpack _). vm_compute. exact I.
  - split; [done|]. eexists. split; [vm_compute; reflexivity|]. split; [reflexivity|]. eexists. split; [vm_compute; reflexivity|]. reflexivity.
  - apply (bool_decide_unpack _). vm_compute. exact I.
  - exists res. split; [exact E|]. vm_compute in E. by injection E as <-.
Defined.

Lemma apply_ban_add_witness :
  exists st' head' L' rc, apply_ban st_two (Some (inl 0%nat)) (inl 2%nat) false = Ok (st', head', rc) /\ (rc, L') = (0, [inl 0%nat; inl 1%nat; inl 2%nat]) /\
    listed false guest (contents (heap st') L') = true.
Proof.
  destruct (apply_ban_add st_two (Some (inl 0%nat)) [inl 0%nat; inl 1%nat] (inl 2%nat) (ban_of "*!*@*.org" BAN_ADD None) false) as (st' & head' & L' & rc & E & _ & El & _ & _ & Eh & _).
  - vm_compute. reflexivity.
  - apply (bool_decide_unpack _). vm_compute. exact I.
  - apply (bool_decide_unpack _). vm_compute. exact I.
  - split; [done|]. eexists. split; [vm_compute; reflexivity|]. split; [reflexivity|]. eexists. split; [vm_compute; reflexivity|]. reflexivity.
  - apply (bool_decide_unpack _). vm_compute. exact I.
  - apply (bool_decide_unpack _). vm_compute. exact I.
  - vm_compute. reflexivity.
  - vm_compute. reflexivity.
  - vm_compute. reflexivity.
  - exists st', head', L', rc. split; [exact E|]. split; [rewrite El; vm_compute; reflexivity|]. rewrite Eh; [vm_compute; reflexivity| |split; apply (bool_decide_unpack _); vm_compute; exact I].
    split; [apply (bool_decide_unpack _); vm_compute; exact I|]. repeat constructor; intros H; vm_compute in H |- *; first [discriminate H | intros K; first [discriminate K | reflexivity]].
Defined.

(** [mode_parse] before any argument, on a channel without bans. *)
Definition slots : bheap := list_to_map (map (fun k => (inr k, no_ban)) (seq 0 MAXPARA)).
Definition start (args : list (list ascii)) : ParseState := MkParse (BState slots None 0 0 0) None args 6 0 0 [].
Definition op_request : Request := MkRequest true (cstr "op") false true false false 1000 45 40.

Lemma start_parsing (args : list (list ascii)) : parsing (start args) [] [] [].
Proof.
  split; cbn [start st banlist numbans heap app]; try done; try constructor; try constructor.
  - intros n x H. exfalso. apply elem_of_list_to_map_2 in H. apply list_elem_of_fmap in H as (k & E & _). discriminate E.
  - intros k Hk. unfold slots. assert (exists x, (list_to_map (map (fun k => (inr k, no_ban)) (seq 0 MAXPARA)) : bheap) !! (inr k : bid) = Some x) as [x Hx]; [|by exists x].
    unfold MAXPARA in Hk. do 15 (destruct k as [|k]; [eexists; vm_compute; reflexivity|]). lia.
Qed.

Lemma mode_bans_safe_witness :
  exists s' inv L', mode_bans op_request [(true, false); (true, false); (false, false)] (start [cstr "a.example.org"; cstr "bad"; cstr "*!*@*.org"]) = Ok (s', inv) /\
    seg (heap (st s')) (banlist s') L' None /\ Forall is_heap L' /\ notices s' = [ModeAdd (cstr "bad!*@*")].
Proof.
  destruct (mode_bans_safe op_request [(true, false); (true, false); (false, false)] (start [cstr "a.example.org"; cstr "bad"; cstr "*!*@*.org"]) [] [])
    as (s' & inv & L' & F' & E & C & H & _).
  - apply start_parsing.
  - cbn. unfold MAXPARA. lia.
  - exists s', inv, L'. split; [exact E|]. split; [exact C|]. split; [exact H|]. vm_compute in E. by injection E as <- _.
Defined.

(** *** Where the comparison of masks and of addresses disagree

    A text mask covers the text of an address mask without covering its addresses: adding
    the ban *!*@1* marks the ban *!*@16.0.0.0/4 for removal, and 31.1.1.1 is let in. *)
Lemma text_ban_drops_cidr :
  let h := <[inl 0%nat := ban_of "*!*@16.0.0.0/4" 0 None]> (<[inl 1%nat := ban_of "*!*@1*" BAN_ADD None]> ∅) in
  let c := MkWho (cstr "guest") (cstr "g") (cstr "host") (cstr "host") (InAddr [0; 0; 0; 0; 0; 65535; 0x1f01; 0x0101]) false in
  listed false c (contents h [inl 0%nat]) = true /\
  match apply_ban (BState h None 2 2 2) (Some (inl 0%nat)) (inl 1%nat) false with
  | Ok (st', _, rc) => rc = 0 /\ listed false c (contents (heap st') [inl 0%nat; inl 1%nat]) = false
  | _ => False
  end.
Proof. vm_compute. auto. Qed.

(** Between the two halves the list of the channel ends in the array on the stack: a
    return from [mode_parse] in between, as it does for a newer timestamp from a server
    that still bursts, leaves it there. *)
Lemma list_ends_on_stack :
  match parse_bans op_request [(true, false)] (start [cstr "bad"]) with Ok s => banlist s = Some (inr 0%nat) | _ => False end.
Proof. vm_compute. reflexivity. Qed.
