(* ===== verification/Events.v ===== *)
(** * Timers: [ircd/ircd_events.c]

    The queue of timers, the events they generate and the loop that runs them.  A timer
    is a cell of a heap; the queue is linked forwards through [gh_next] and backwards
    through [gh_prev_p], a pointer to the pointer that points here: the head [g_timer]
    ([None]) or the [gh_next] of another timer.  The callbacks are a parameter: given the
    state, the timer and the kind of event they answer with the timer operations they
    perform, and those run inside the event. *)

From stdpp Require Import base functions list gmap sorting strings.
From Stdlib Require Import ZArith Lia.
From S2P Require Import Prelude.

Local Open Scope ircu_scope.
Local Open Scope Z_scope.

Abbreviation tid := positive.

Inductive TimerType : Type := TT_ABSOLUTE | TT_RELATIVE | TT_PERIODIC.
Inductive EventType : Type := ET_DESTROY | ET_EXPIRE.
#[global] Instance TimerType_eq_dec : EqDecision TimerType.
Proof. solve_decision. Defined.
#[global] Instance EventType_eq_dec : EqDecision EventType.
Proof. solve_decision. Defined.

Definition GEN_DESTROY : Z := 0x0001.
Definition GEN_MARKED : Z := 0x0002.
Definition GEN_ACTIVE : Z := 0x0004.
Definition GEN_READD : Z := 0x0008.
Definition flag (f m : Z) : bool := negb (Z.land f m =? 0).

Record Timer : Type := MkTimer {
  gh_next : option tid;
  gh_prev_p : option (option tid);
  gh_flags : Z;
  gh_ref : Z;
  t_type : TimerType;
  t_value : Z;
  t_expire : Z
}.

Definition link (n : option tid) (p : option (option tid)) (x : Timer) : Timer := MkTimer n p (gh_flags x) (gh_ref x) (t_type x) (t_value x) (t_expire x).
Definition set_next (n : option tid) (x : Timer) : Timer := link n (gh_prev_p x) x.
Definition set_prev (p : option (option tid)) (x : Timer) : Timer := link (gh_next x) p x.
Definition set_flags (f : Z) (x : Timer) : Timer := MkTimer (gh_next x) (gh_prev_p x) f (gh_ref x) (t_type x) (t_value x) (t_expire x).
Definition set_ref (r : Z) (x : Timer) : Timer := MkTimer (gh_next x) (gh_prev_p x) (gh_flags x) r (t_type x) (t_value x) (t_expire x).
Definition set_time (ty : TimerType) (v e : Z) (x : Timer) : Timer := MkTimer (gh_next x) (gh_prev_p x) (gh_flags x) (gh_ref x) ty v e.

Inductive op : Type :=
| TimerAdd (t : tid) (ty : TimerType) (value : Z)
| TimerDel (t : tid)
| TimerChg (t : tid) (ty : TimerType) (value : Z).

Record estate : Type := MkE {
  timers : gmap tid Timer;
  g_timer : option tid;
  events_free : nat;                     (** length of the free list *)
  events_alloc : nat;
  trace : list (EventType * tid)         (** the callbacks that were called *)
}.
Definition set_timers (st : estate) (h : gmap tid Timer) : estate := MkE h (g_timer st) (events_free st) (events_alloc st) (trace st).
Definition set_head (st : estate) (p : option tid) : estate := MkE (timers st) p (events_free st) (events_alloc st) (trace st).

Definition load (st : estate) (t : tid) : outcome Timer := match timers st !! t with Some x => Ok x | None => Oob end.
Definition update (st : estate) (t : tid) (f : Timer -> Timer) : outcome estate :=
  let* x := load st t in Ok (set_timers st (<[t := f x]> (timers st))).

(** [*ptr_p] *)
Definition read_ptr (st : estate) (pp : option tid) : outcome (option tid) :=
  match pp with None => Ok (g_timer st) | Some t => let* x := load st t in Ok (gh_next x) end.
Definition write_ptr (st : estate) (pp v : option tid) : outcome estate :=
  match pp with None => Ok (set_head st v) | Some t => update st t (set_next v) end.

Definition gen_dequeue (st : estate) (gen : tid) : outcome estate :=
  let* x := load st gen in
  let* st := match gh_next x with Some n => update st n (set_prev (gh_prev_p x)) | None => Ok st end in
  let* x := load st gen in
  let* st := match gh_prev_p x with Some pp => write_ptr st pp (gh_next x) | None => Ok st end in
  update st gen (link None None).

Section Run.
Context (CurrentTime : Z) (callback : estate -> tid -> EventType -> list op).

Fixpoint find_slot (fuel : nat) (st : estate) (pp : option tid) (expire : Z) : outcome (option tid) :=
  match fuel with
  | O => Fuel
  | S fuel =>
      let* cur := read_ptr st pp in
      match cur with
      | None => Ok pp
      | Some c => let* x := load st c in if expire <? t_expire x then Ok pp else find_slot fuel st (Some c) expire
      end
  end.

Definition expire_at (ty : TimerType) (value : Z) : Z :=
  match ty with TT_ABSOLUTE => value | TT_RELATIVE | TT_PERIODIC => value + CurrentTime end.

Definition timer_enqueue (st : estate) (timer : tid) : outcome estate :=
  let* x := load st timer in
  let expire := expire_at (t_type x) (t_value x) in
  let* st := update st timer (set_time (t_type x) (t_value x) expire) in
  let* pp := find_slot (S (size (timers st))) st None expire in
  let* cur := read_ptr st pp in
  let* st := update st timer (link cur (Some pp)) in
  let* st := match cur with Some c => update st c (set_prev (Some (Some timer))) | None => Ok st end in
  write_ptr st pp (Some timer).

(** [timer_init]: [gen_init] with no list to link into, then the flags are cleared. *)
Definition timer_init (st : estate) (timer : tid) : outcome estate :=
  let* st := update st timer (fun x => link None None (set_flags GEN_ACTIVE (set_ref 0 x))) in
  update st timer (set_flags 0).

Definition timer_add (st : estate) (timer : tid) (ty : TimerType) (value : Z) : outcome estate :=
  let* x := load st timer in
  let marked := flag (gh_flags x) GEN_MARKED in
  let f := Z.lor (gh_flags x) GEN_ACTIVE in
  let f := if marked then Z.lor f GEN_READD else f in
  let* st := update st timer (fun x => set_time ty value 0 (set_ref 0 (set_flags f x))) in
  if marked then Ok st else timer_enqueue st timer.

(** The operations that generate events are given the generator. *)
Definition timer_del (gen : estate -> EventType -> tid -> outcome estate) (st : estate) (timer : tid) : outcome estate :=
  let* st := update st timer (fun x => set_flags (Z.ldiff (gh_flags x) GEN_READD) x) in
  let* x := load st timer in
  if flag (gh_flags x) GEN_MARKED then Ok st
  else let* st := gen_dequeue st timer in gen st ET_DESTROY timer.

Definition timer_chg (st : estate) (timer : tid) (ty : TimerType) (value : Z) : outcome estate :=
  let* st := update st timer (set_time ty value 0) in
  let* x := load st timer in
  if flag (gh_flags x) GEN_MARKED then update st timer (set_flags (Z.lor (gh_flags x) GEN_READD))
  else let* st := gen_dequeue st timer in timer_enqueue st timer.

Definition run_op (gen : estate -> EventType -> tid -> outcome estate) (st : estate) (o : op) : outcome estate :=
  match o with
  | TimerAdd t ty v => timer_add st t ty v
  | TimerDel t => timer_del gen st t
  | TimerChg t ty v => timer_chg st t ty v
  end.
Fixpoint run_ops (gen : estate -> EventType -> tid -> outcome estate) (st : estate) (ops : list op) : outcome estate :=
  match ops with [] => Ok st | o :: ops => let* st := run_op gen st o in run_ops gen st ops end.

Definition gen_ref_dec (gen : estate -> EventType -> tid -> outcome estate) (st : estate) (t : tid) : outcome estate :=
  let* st := update st t (fun x => set_ref (u32 (gh_ref x - 1)) x) in
  let* x := load st t in
  if (gh_ref x =? 0) && flag (gh_flags x) GEN_DESTROY then let* st := gen_dequeue st t in gen st ET_DESTROY t else Ok st.

Definition take_event (st : estate) : estate :=
  match events_free st with
  | S n => MkE (timers st) (g_timer st) n (events_alloc st) (trace st)
  | O => MkE (timers st) (g_timer st) 0 (S (events_alloc st)) (trace st)
  end.
Definition give_event (st : estate) : estate := MkE (timers st) (g_timer st) (S (events_free st)) (events_alloc st) (trace st).
Definition called (st : estate) (type : EventType) (t : tid) : estate := MkE (timers st) (g_timer st) (events_free st) (events_alloc st) (trace st ++ [(type, t)]).

(** [event_execute]; [gen] is [event_generate]. *)
Definition event_execute (gen : estate -> EventType -> tid -> outcome estate) (st : estate) (type : EventType) (t : tid) : outcome estate :=
  let* st := if decide (type = ET_DESTROY) then update st t (fun x => set_flags (Z.ldiff (gh_flags x) GEN_ACTIVE) x) else Ok st in
  let* st := run_ops gen (called st type t) (callback st t type) in
  let* st := if decide (type = ET_DESTROY) then Ok st else gen_ref_dec gen st t in
  Ok (give_event st).

(** [depth] bounds the nesting of events. *)
Fixpoint event_generate (depth : nat) (st : estate) (type : EventType) (t : tid) : outcome estate :=
  match depth with
  | O => Fuel
  | S depth =>
      let* x := load st t in
      if negb (bool_decide (type = ET_DESTROY)) && flag (gh_flags x) GEN_DESTROY then Ok st
      else
        let* st := update (take_event st) t (fun x => set_ref (u32 (gh_ref x + 1)) x) in
        event_execute (event_generate depth) st type t
  end.

Definition periodic (ty : TimerType) : bool := match ty with TT_PERIODIC => true | _ => false end.

(** The body of the loop of [timer_run]. *)
Definition timer_expire (depth : nat) (st : estate) (ptr : tid) : outcome estate :=
  let* st := gen_dequeue st ptr in
  let* st := update st ptr (fun x => set_flags (Z.lor (gh_flags x) (Z.lor GEN_MARKED (if periodic (t_type x) then GEN_READD else 0))) x) in
  let* st := event_generate depth st ET_EXPIRE ptr in
  let* st := update st ptr (fun x => set_flags (Z.ldiff (gh_flags x) GEN_MARKED) x) in
  let* x := load st ptr in
  if negb (flag (gh_flags x) GEN_READD) then event_generate depth st ET_DESTROY ptr
  else
    let* st := timer_enqueue st ptr in
    update st ptr (fun x => set_flags (Z.ldiff (gh_flags x) GEN_READD) x).

Fixpoint timer_run (depth fuel : nat) (st : estate) : outcome estate :=
  match fuel with
  | O => Fuel
  | S fuel =>
      match g_timer st with
      | None => Ok st
      | Some ptr =>
          let* x := load st ptr in
          if CurrentTime <? t_expire x then Ok st
          else let* st := timer_expire depth st ptr in timer_run depth fuel st
      end
  end.
End Run.

(** ** The queue as a list *)
Abbreviation theap := (gmap tid Timer).

(** From [p], reached through [pp], the timers [Q] up to the pointer [q]. *)
Fixpoint lseg (h : theap) (pp p : option tid) (Q : list tid) (q : option tid) : Prop :=
  match Q with
  | [] => p = q
  | t :: Q => p = Some t /\ exists x, h !! t = Some x /\ gh_prev_p x = Some pp /\ lseg h (Some t) (gh_next x) Q q
  end.

Definition lastp (pp : option tid) (Q : list tid) : option tid := match last Q with Some t => Some t | None => pp end.

Lemma lastp_cons (pp : option tid) (t : tid) (Q : list tid) : lastp pp (t :: Q) = lastp (Some t) Q.
Proof. unfold lastp. destruct Q as [|u Q]; [done|]. rewrite last_cons_cons. destruct (last (u :: Q)) eqn:E; [done|]. by apply last_None in E. Qed.

Lemma lseg_app (h : theap) (Q1 Q2 : list tid) : forall pp p q, lseg h pp p (Q1 ++ Q2) q <-> exists r, lseg h pp p Q1 r /\ lseg h (lastp pp Q1) r Q2 q.
Proof.
  induction Q1 as [|t Q1 IH]; intros pp p q; cbn [app lseg].
  - split; [intros H; by exists p|]. by intros (r & -> & H).
  - rewrite lastp_cons. split.
    + intros [-> (x & Hx & Px & H)]. apply IH in H as (r & H1 & H2). exists r. split; [|done]. split; [done|]. by exists x.
    + intros (r & [-> (x & Hx & Px & H1)] & H2). split; [done|]. exists x. split; [done|]. split; [done|]. apply IH. by exists r.
Qed.

(** What the links of a cell are. *)
Definition links (x : Timer) : option tid * option (option tid) := (gh_next x, gh_prev_p x).

Lemma lseg_ext (h h' : theap) (Q : list tid) : forall pp p q, (forall t, t ∈ Q -> option_map links (h' !! t) = option_map links (h !! t)) -> lseg h pp p Q q -> lseg h' pp p Q q.
Proof.
  induction Q as [|t Q IH]; intros pp p q E H; [done|]. destruct H as [-> (x & Hx & Px & H)]. split; [done|]. pose proof (E t ltac:(left)) as Et. rewrite Hx in Et.
  destruct (h' !! t) as [y|] eqn:Hy; [|done]. injection Et as En Ep. exists y. split; [done|]. split; [congruence|]. rewrite En. apply IH; [|done]. intros u Hu. apply E. by right.
Qed.
Lemma lseg_other (h : theap) (Q : list tid) (t : tid) (x : Timer) (pp p q : option tid) : t ∉ Q -> lseg h pp p Q q -> lseg (<[t := x]> h) pp p Q q.
Proof. intros N. apply lseg_ext. intros u Hu. rewrite lookup_insert_ne; [done|]. by intros ->. Qed.
Lemma lseg_elem (h : theap) (Q : list tid) (t : tid) : forall pp p q, lseg h pp p Q q -> t ∈ Q -> exists x pp', h !! t = Some x /\ gh_prev_p x = Some pp'.
Proof.
  induction Q as [|u Q IH]; intros pp p q H Ht; [by apply elem_of_nil in Ht|]. destruct H as [_ (x & Hx & Px & H)]. apply elem_of_cons in Ht as [->|Ht]; [by exists x, pp|]. by apply (IH _ _ _ H).
Qed.
Lemma lseg_size (h : theap) (Q : list tid) (pp p q : option tid) : NoDup Q -> lseg h pp p Q q -> (length Q <= size h)%nat.
Proof.
  intros N C. assert (list_to_set Q ⊆ dom h) as S.
  { intros b Hb. apply elem_of_list_to_set in Hb. destruct (lseg_elem h Q b pp p q C Hb) as (x & _ & Hx & _). apply elem_of_dom. by exists x. }
  apply subseteq_size in S. by rewrite size_dom, size_list_to_set in S.
Qed.

(** The queue of a state. *)
Definition queue (st : estate) (Q : list tid) : Prop := NoDup Q /\ lseg (timers st) None (g_timer st) Q None.

(** Everything of a timer but its links. *)
Definition inner (x : Timer) : Timer := link None None x.
Definition same_inner (st st' : estate) : Prop := forall t, option_map inner (timers st' !! t) = option_map inner (timers st !! t).
Definition same_rest (st st' : estate) : Prop := events_free st' = events_free st /\ events_alloc st' = events_alloc st /\ trace st' = trace st.

Lemma update_timer (st : estate) (t : tid) (f : Timer -> Timer) (x : Timer) : timers st !! t = Some x -> update st t f = Ok (set_timers st (<[t := f x]> (timers st))).
Proof. intros H. unfold update, load. by rewrite H. Qed.

(** Writing [*pp], where [pp] is the last pointer of a stretch of the queue. *)
Lemma write_last (st : estate) (Q : list tid) (q v : option tid) : NoDup Q -> lseg (timers st) None (g_timer st) Q q ->
  exists st', write_ptr st (lastp None Q) v = Ok st' /\ lseg (timers st') None (g_timer st') Q v /\ same_rest st st' /\ same_inner st st' /\
    (forall t, t ∉ Q -> timers st' !! t = timers st !! t) /\ (forall t, option_map gh_prev_p (timers st' !! t) = option_map gh_prev_p (timers st !! t)).
Proof.
  intros ND H. destruct (decide (Q = [])) as [->|NE].
  - exists (set_head st v). by repeat split.
  - destruct (exists_last NE) as (Q' & l & ->). unfold lastp. rewrite last_snoc. cbn [write_ptr]. apply lseg_app in H as (r & H1 & -> & x & Hx & Px & H2). cbn in H2. subst q.
    rewrite (update_timer st l _ x Hx). eexists. split; [done|]. cbn [timers g_timer set_timers]. apply NoDup_app in ND as (_ & N & _). assert (l ∉ Q') as Nl by (intros X; apply (N l X); left).
    split; [apply lseg_app; exists (Some l); split; [by apply lseg_other|]; split; [done|]; exists (set_next v x); by rewrite lookup_insert_eq|]. split; [done|].
    split; [intros u|split; [intros u Hu|intros u]].
    + cbn [timers set_timers]. destruct (decide (u = l)) as [->|]; [by rewrite lookup_insert_eq, Hx|by rewrite lookup_insert_ne].
    + rewrite lookup_insert_ne; [done|]. intros ->. apply Hu, elem_of_app. right. left.
    + destruct (decide (u = l)) as [->|]; [by rewrite lookup_insert_eq, Hx|by rewrite lookup_insert_ne].
Qed.

(** Giving the first timer of a stretch another back pointer. *)
Lemma reprev (st : estate) (pp p pp' q : option tid) (Q : list tid) : NoDup Q -> lseg (timers st) pp p Q q ->
  exists st', match p, Q with Some n, _ :: _ => update st n (set_prev (Some pp')) | _, _ => Ok st end = Ok st' /\ (Q <> [] \/ p = None -> lseg (timers st') pp' p Q q) /\
    g_timer st' = g_timer st /\ same_rest st st' /\ same_inner st st' /\ (forall t, t ∉ Q -> timers st' !! t = timers st !! t) /\ (forall t, option_map gh_next (timers st' !! t) = option_map gh_next (timers st !! t)).
Proof.
  intros ND H. destruct Q as [|n Q].
  - exists st. cbn in H. subst p. by destruct q; repeat split.
  - destruct H as [-> (x & Hx & Px & H)]. apply NoDup_cons in ND as [Nn ND]. rewrite (update_timer st n _ x Hx). eexists. split; [done|]. cbn [timers g_timer set_timers].
    split; [intros _; split; [done|]; exists (set_prev (Some pp') x); rewrite lookup_insert_eq; split; [done|]; split; [done|]; by apply lseg_other|]. split; [done|]. split; [done|].
    split; [intros u|split; [intros u Hu|intros u]]; cbn [timers set_timers].
    + destruct (decide (u = n)) as [->|]; [by rewrite lookup_insert_eq, Hx|by rewrite lookup_insert_ne].
    + rewrite lookup_insert_ne; [done|]. intros ->. apply Hu. left.
    + destruct (decide (u = n)) as [->|]; [by rewrite lookup_insert_eq, Hx|by rewrite lookup_insert_ne].
Qed.

Lemma same_inner_trans (a b c : estate) : same_inner a b -> same_inner b c -> same_inner a c.
Proof. intros H1 H2 t. by rewrite H2. Qed.
Lemma same_rest_trans (a b c : estate) : same_rest a b -> same_rest b c -> same_rest a c.
Proof. intros (? & ? & ?) (? & ? & ?). repeat split; congruence. Qed.

Lemma lseg_frame (st st' : estate) (Q : list tid) (pp p q : option tid) : (forall t, t ∈ Q -> timers st' !! t = timers st !! t) -> lseg (timers st) pp p Q q -> lseg (timers st') pp p Q q.
Proof. intros E. apply lseg_ext. intros t Ht. by rewrite E. Qed.

Lemma dequeue_spec (st : estate) (Q1 Q2 : list tid) (t : tid) : queue st (Q1 ++ t :: Q2) ->
  exists st', gen_dequeue st t = Ok st' /\ queue st' (Q1 ++ Q2) /\ same_rest st st' /\ same_inner st st' /\
    option_map links (timers st' !! t) = Some (None, None) /\ (forall u, u ∉ Q1 ++ t :: Q2 -> timers st' !! u = timers st !! u).
Proof.
  intros [ND H]. apply lseg_app in H as (r & H1 & [-> (x & Hx & Px & H2)]). apply NoDup_app in ND as (N1 & N12 & [Nt N2]%NoDup_cons).
  assert (t ∉ Q1) as Nt1 by (intros X; apply (N12 t X); left). assert (forall u, u ∈ Q1 -> u ∉ Q2) as D by (intros u X Y; apply (N12 u X); by right).
  destruct (reprev st (Some t) (gh_next x) (lastp None Q1) None Q2 N2 H2) as (st1 & E1 & L2 & G1 & R1 & I1 & O1 & _).
  assert (lseg (timers st1) (lastp None Q1) (gh_next x) Q2 None) as L2' by (apply L2; destruct Q2; [right; exact H2|by left]). clear L2.
  destruct (write_last st1 Q1 (Some t) (gh_next x) N1) as (st2 & E2 & L1 & R2 & I2 & O2 & _).
  { rewrite G1. apply lseg_frame with st; [|done]. intros u Hu. by apply O1, D. }
  assert (timers st2 !! t = Some x) as Ht2 by (by rewrite O2, O1). unfold gen_dequeue. unfold load at 1. rewrite Hx. cbn [obind]. rewrite Px.
  assert (match gh_next x with Some n => update st n (set_prev (Some (lastp None Q1))) | None => Ok st end = Ok st1) as ->.
  { rewrite <- E1. destruct Q2; [cbn in H2; by rewrite H2|done]. }
  cbn [obind]. unfold load at 1. rewrite O1, Hx by done. cbn [obind]. rewrite Px, E2. cbn [obind]. rewrite (update_timer st2 t _ x Ht2). eexists. split; [done|].
  assert (t ∉ Q1 ++ Q2) as Ntt by (rewrite elem_of_app; tauto). split; [|split; [|split; [|split]]].
  - split; [apply NoDup_app; split; [done|]; by split|]. cbn [timers g_timer set_timers]. apply lseg_other; [done|]. apply lseg_app. exists (gh_next x). split; [done|].
    apply lseg_frame with st1; [|done]. intros u Hu. apply O2. intros X. by apply (D u).
  - by apply (same_rest_trans st st1), R2.
  - intros u. cbn [timers set_timers]. destruct (decide (u = t)) as [->|N]; [by rewrite lookup_insert_eq, Hx|]. rewrite lookup_insert_ne by done. by rewrite (same_inner_trans st st1 st2 I1 I2).
  - cbn [timers set_timers]. by rewrite lookup_insert_eq.
  - intros u Hu. rewrite elem_of_app, elem_of_cons in Hu. cbn [timers set_timers]. rewrite lookup_insert_ne by (intros ->; tauto). rewrite O2, O1; tauto.
Qed.

(** Expiry times, and the place a timer is put: behind all that expire no later. *)
Definition exp (st : estate) (t : tid) : Z := match timers st !! t with Some x => t_expire x | None => 0 end.

Lemma exp_inner (st st' : estate) (t : tid) : same_inner st st' -> exp st' t = exp st t.
Proof. intros E. specialize (E t). unfold exp. destruct (timers st' !! t) as [y|], (timers st !! t) as [x|]; try done. injection E as _ _ _ _ E. done. Qed.

Lemma read_last (st : estate) (Q : list tid) (q : option tid) : lseg (timers st) None (g_timer st) Q q -> read_ptr st (lastp None Q) = Ok q.
Proof.
  intros H. destruct (decide (Q = [])) as [->|NE]; [cbn in H |- *; by rewrite H|]. destruct (exists_last NE) as (Q' & l & ->). unfold lastp. rewrite last_snoc.
  apply lseg_app in H as (r & _ & -> & x & Hx & _ & E). cbn. unfold load. rewrite Hx. cbn in E |- *. by rewrite E.
Qed.

Lemma find_slot_spec (st : estate) (e : Z) (Q1 : list tid) : forall Q0 fuel, lseg (timers st) None (g_timer st) (Q0 ++ Q1) None -> (length Q1 < fuel)%nat ->
  exists A B, Q1 = A ++ B /\ find_slot fuel st (lastp None Q0) e = Ok (lastp None (Q0 ++ A)) /\ Forall (fun u => exp st u <= e) A /\ match B with [] => True | u :: _ => e < exp st u end.
Proof.
  induction Q1 as [|t Q1 IH]; intros Q0 fuel H Lt; (destruct fuel as [|fuel]; [cbn in Lt; lia|]); cbn [find_slot]; pose proof H as (r & H0 & H1)%lseg_app; rewrite (read_last st Q0 r H0); cbn [obind].
  - cbn in H1. subst r. exists [], []. split; [done|]. split; [by rewrite app_nil_r|]. by split; [constructor|].
  - destruct H1 as [-> (x & Hx & _)]. unfold load. rewrite Hx. cbn [obind]. assert (exp st t = t_expire x) as Ex by (unfold exp; by rewrite Hx).
    destruct (Z.ltb_spec e (t_expire x)) as [Lx|Gx].
    + exists [], (t :: Q1). rewrite app_nil_r. split; [done|]. split; [done|]. split; [constructor|lia].
    + replace (Q0 ++ t :: Q1) with ((Q0 ++ [t]) ++ Q1) in H by (by rewrite <- app_assoc). destruct (IH (Q0 ++ [t]) fuel H ltac:(cbn in Lt; lia)) as (A & B & -> & E & F & Bh).
      unfold lastp in E at 1. rewrite last_snoc in E. exists (t :: A), B. split; [done|]. rewrite E. split; [by rewrite <- app_assoc|]. split; [constructor; [lia|done]|done].
Qed.

Section Enqueue.
Context (now : Z).

(** [timer_enqueue] puts a timer that is off the queue behind those that expire no later. *)
Lemma enqueue_spec (st : estate) (Q : list tid) (t : tid) (x : Timer) : queue st Q -> t ∉ Q -> timers st !! t = Some x ->
  let e := expire_at now (t_type x) (t_value x) in
  exists st' A B, timer_enqueue now st t = Ok st' /\ Q = A ++ B /\ queue st' (A ++ t :: B) /\ same_rest st st' /\
    Forall (fun u => exp st u <= e) A /\ match B with [] => True | u :: _ => e < exp st u end /\
    option_map inner (timers st' !! t) = Some (inner (set_time (t_type x) (t_value x) e x)) /\
    (forall u, u <> t -> option_map inner (timers st' !! u) = option_map inner (timers st !! u)) /\ (forall u, u <> t -> u ∉ Q -> timers st' !! u = timers st !! u).
Proof.
  intros [ND H] Nt Hx e. unfold timer_enqueue. unfold load at 1. rewrite Hx. cbn [obind]. rewrite (update_timer st t _ x Hx). cbn [obind]. fold e. set (st1 := set_timers st _). set (x1 := set_time (t_type x) (t_value x) e x) in *.
  assert (lseg (timers st1) None (g_timer st1) ([] ++ Q) None) as HQ by (by apply lseg_other). assert (timers st1 !! t = Some x1) as H1 by (apply lookup_insert_eq).
  assert (forall u, u <> t -> timers st1 !! u = timers st !! u) as O1 by (intros u Hu; apply lookup_insert_ne; congruence).
  destruct (find_slot_spec st1 e Q [] (S (size (timers st1))) HQ) as (A & B & -> & Ef & FA & FB); [pose proof (lseg_size _ _ _ _ _ ND HQ); lia|].
  change (lastp None []) with (@None tid) in Ef. rewrite Ef. cbn [obind app]. cbn [app] in HQ. apply lseg_app in HQ as (r & LA & LB). rewrite (read_last st1 A r LA). cbn [obind].
  assert ((t ∉ A) /\ (t ∉ B)) as [NA NB] by (rewrite elem_of_app in Nt; tauto). pose proof ND as (NDA & AB & NDB)%NoDup_app.
  rewrite (update_timer st1 t _ x1 H1). cbn [obind]. set (st2 := set_timers st1 _). assert (lseg (timers st2) (lastp None A) r B None) as LB2 by (by apply lseg_other).
  destruct (reprev st2 (lastp None A) r (Some t) None B NDB LB2) as (st3 & E3 & L3 & G3 & R3 & I3 & O3 & _).
  assert (match r with Some c => update st2 c (set_prev (Some (Some t))) | None => Ok st2 end = Ok st3) as -> by (rewrite <- E3; destruct B; [cbn in LB; by subst r|done]).
  cbn [obind]. assert (lseg (timers st3) (Some t) r B None) as LB3 by (apply L3; destruct B; [right; exact LB|by left]).
  destruct (write_last st3 A r (Some t) NDA) as (st4 & -> & LA4 & R4 & I4 & O4 & _).
  { rewrite G3. apply lseg_frame with st2; [intros u Hu; apply O3; intros X; by apply (AB u)|]. by apply lseg_other. }
  assert (timers st4 !! t = Some (link r (Some (lastp None A)) x1)) as H4 by (rewrite O4, O3 by done; apply lookup_insert_eq).
  exists st4, A, B. split; [done|]. split; [done|]. assert (forall u, u <> t -> exp st1 u = exp st u) as Eexp by (intros u Hu; unfold exp; by rewrite O1).
  split; [|split; [|split; [|split; [|split; [|split]]]]].
  - split; [assert (A ++ t :: B ≡ₚ t :: A ++ B) as -> by solve_Permutation; by apply NoDup_cons|]. apply lseg_app. exists (Some t). split; [done|]. split; [done|]. exists (link r (Some (lastp None A)) x1). split; [done|]. split; [done|].
    apply lseg_frame with st3; [|done]. intros u Hu. apply O4. intros X. by apply (AB u).
  - apply (same_rest_trans st st2); [done|]. by apply (same_rest_trans st2 st3).
  - apply Forall_forall. intros u Hu. rewrite Forall_forall in FA. rewrite <- Eexp by (by intros ->). by apply FA.
  - destruct B as [|u B]; [done|]. rewrite <- Eexp; [done|]. intros ->. apply NB. left.
  - by rewrite H4.
  - intros u Hu. rewrite (same_inner_trans st2 st3 st4 I3 I4). unfold st2. cbn [timers set_timers]. rewrite lookup_insert_ne by congruence. by rewrite O1.
  - intros u Hu Hq. rewrite elem_of_app in Hq. rewrite O4, O3 by tauto. unfold st2. cbn [timers set_timers]. rewrite lookup_insert_ne by congruence. by apply O1.
Qed.
End Enqueue.

(** ** Flags *)
Lemma flag_bit (f k : Z) : 0 <= k -> flag f (2 ^ k) = Z.testbit f k.
Proof.
  intros Hk. unfold flag. assert (Z.land f (2 ^ k) = if Z.testbit f k then 2 ^ k else 0) as ->.
  { apply Z.bits_inj'. intros n Hn. rewrite Z.land_spec, Z.pow2_bits_eqb by done. destruct (Z.eqb_spec k n) as [->|N].
    - destruct (Z.testbit f n); [by rewrite Z.pow2_bits_true|by rewrite Z.bits_0].
    - rewrite andb_false_r. destruct (Z.testbit f k); [by rewrite Z.pow2_bits_false|by rewrite Z.bits_0]. }
  destruct (Z.testbit f k); [|done]. by rewrite (proj2 (Z.eqb_neq _ _)) by (apply Z.pow_nonzero; lia).
Qed.
Ltac flags := change GEN_DESTROY with (2 ^ 0) in *; change GEN_MARKED with (2 ^ 1) in *; change GEN_ACTIVE with (2 ^ 2) in *; change GEN_READD with (2 ^ 3) in *;
  rewrite ?flag_bit in * by lia; rewrite ?Z.lor_spec, ?Z.ldiff_spec, ?Z.lor_spec, ?Z.pow2_bits_eqb in * by lia; cbn [Z.eqb Pos.eqb] in *;
  rewrite ?andb_true_r, ?andb_false_r, ?orb_false_r, ?orb_true_r, ?orb_false_l in *.

(** ** Well-formed states *)
Section Wf.
Context (now : Z).

(** A timer [t] with the contents [x], when [Q] is the queue, [M] the timer whose event
    runs and [R] the one that may be marked to be added again. *)
Record good (Q : list tid) (M R : option tid) (t : tid) (x : Timer) : Prop := {
  g_links : t ∉ Q -> links x = (None, None);
  g_destroy : flag (gh_flags x) GEN_DESTROY = false;
  g_marked : flag (gh_flags x) GEN_MARKED = bool_decide (M = Some t);
  g_queued : t ∈ Q -> flag (gh_flags x) GEN_ACTIVE = true /\ (periodic (t_type x) = true -> 0 < t_value x);
  g_active : R = Some t -> flag (gh_flags x) GEN_ACTIVE = true;
  g_readd : flag (gh_flags x) GEN_READD = true -> R = Some t /\ now < expire_at now (t_type x) (t_value x)
}.

Record wf (st : estate) (Q : list tid) (M R : option tid) : Prop := {
  w_queue : queue st Q;
  w_sorted : StronglySorted (fun a b => exp st a <= exp st b) Q;
  w_good : forall t x, timers st !! t = Some x -> good Q M R t x;
  w_mark : forall t, M = Some t -> t ∉ Q /\ is_Some (timers st !! t)
}.

Lemma sorted_ext (st st' : estate) (Q : list tid) : (forall t, t ∈ Q -> exp st' t = exp st t) -> StronglySorted (fun a b => exp st a <= exp st b) Q -> StronglySorted (fun a b => exp st' a <= exp st' b) Q.
Proof.
  intros E. induction 1 as [|t Q SQ IH F]; constructor; [apply IH; intros u Hu; apply E; by right|]. rewrite Forall_forall in *. intros u Hu. rewrite !E by (by left || by right). by apply F.
Qed.
Lemma sorted_remove (P : tid -> tid -> Prop) (A B : list tid) (t : tid) : StronglySorted P (A ++ t :: B) -> StronglySorted P (A ++ B).
Proof.
  induction A as [|a A IH]; cbn [app]; intros S; inversion_clear S as [|? ? S' F]; [done|]. constructor; [by apply IH|]. apply Forall_app in F as [F1 F2]. inversion_clear F2. by apply Forall_app.
Qed.
Lemma sorted_insert (f : tid -> Z) (A B : list tid) (t : tid) : StronglySorted (fun a b => f a <= f b) (A ++ B) -> Forall (fun u => f u <= f t) A -> match B with [] => True | u :: _ => f t < f u end ->
  StronglySorted (fun a b => f a <= f b) (A ++ t :: B).
Proof.
  induction A as [|a A IH]; cbn [app]; intros S FA FB.
  - constructor; [done|]. destruct B as [|b B]; [constructor|]. inversion_clear S as [|? ? S' F]. constructor; [lia|]. eapply Forall_impl; [exact F|]. cbv beta. lia.
  - inversion_clear S as [|? ? S' F]. inversion_clear FA as [|? ? Fa FA']. constructor; [by apply IH|]. apply Forall_app in F as [F1 F2]. apply Forall_app. split; [done|]. by constructor.
Qed.

(** Membership is all that [good] sees of the queue, and the links all it sees of the rest. *)
Lemma good_ext (Q Q' : list tid) (M R : option tid) (t : tid) (x y : Timer) : good Q M R t x -> (t ∈ Q <-> t ∈ Q') -> inner y = inner x -> (t ∉ Q' -> links y = (None, None)) -> good Q' M R t y.
Proof.
  intros [G1 G2 G3 G4 GA G5] E I Lk. injection I as E1 E2 E3 E4 E5. split; [done|..]; rewrite ?E1, ?E3, ?E4; try done. intros H. apply G4. by apply E.
Qed.

Lemma inner_lookup (st st' : estate) (t : tid) (y : Timer) : option_map inner (timers st' !! t) = option_map inner (timers st !! t) -> timers st' !! t = Some y -> exists x, timers st !! t = Some x /\ inner y = inner x.
Proof. intros E Hy. rewrite Hy in E. destruct (timers st !! t) as [x|]; [|done]. injection E as E. exists x. split; [done|]. unfold inner, link. congruence. Qed.

(** Writing fields of a timer other than its links, while the marks may move. *)
Lemma wf_rewrite (st : estate) (Q : list tid) (M R M' R' : option tid) (t : tid) (x y : Timer) : wf st Q M R -> timers st !! t = Some x -> links y = links x -> (t ∈ Q -> t_expire y = t_expire x) -> good Q M' R' t y ->
  (forall u z, u <> t -> good Q M R u z -> good Q M' R' u z) -> (forall u, M' = Some u -> u ∉ Q /\ is_Some (timers st !! u)) -> wf (set_timers st (<[t := y]> (timers st))) Q M' R'.
Proof.
  intros [[ND L] S G _] Hx El Ee Gy Go Mk. split.
  - split; [done|]. cbn [timers g_timer set_timers]. apply lseg_ext with (timers st); [|done]. intros u _. destruct (decide (u = t)) as [->|N]; [by rewrite lookup_insert_eq, Hx; cbn; rewrite El|by rewrite lookup_insert_ne].
  - apply sorted_ext with st; [|done]. intros u Hu. unfold exp. cbn [timers set_timers]. destruct (decide (u = t)) as [->|N]; [rewrite lookup_insert_eq, Hx; by apply Ee|by rewrite lookup_insert_ne].
  - intros u z. cbn [timers set_timers]. destruct (decide (u = t)) as [->|N]; [rewrite lookup_insert_eq; by intros [= <-]|]. rewrite lookup_insert_ne by done. intros Hz. by apply Go, G.
  - intros u Hu. destruct (Mk u Hu) as [Nu [z Hz]]. split; [done|]. cbn [timers set_timers]. destruct (decide (u = t)) as [->|N]; [rewrite lookup_insert_eq; by eexists|rewrite lookup_insert_ne by done; by exists z].
Qed.
Lemma wf_write (st : estate) (Q : list tid) (M R : option tid) (t : tid) (x y : Timer) : wf st Q M R -> timers st !! t = Some x -> links y = links x -> (t ∈ Q -> t_expire y = t_expire x) -> good Q M R t y ->
  wf (set_timers st (<[t := y]> (timers st))) Q M R.
Proof. intros W Hx El Ee Gy. apply (wf_rewrite st Q M R M R t x y); [done..|by apply W]. Qed.
Lemma wf_rest (st st' : estate) (Q : list tid) (M R : option tid) : timers st' = timers st -> g_timer st' = g_timer st -> wf st Q M R -> wf st' Q M R.
Proof.
  intros E1 E2 [[ND L] S G Mk]. split; [split; [done|]; by rewrite E1, E2| |by rewrite E1|by rewrite E1]. apply sorted_ext with st; [|done]. intros t _. unfold exp. by rewrite E1.
Qed.

(** Taking a timer off the queue: its own time does not matter. *)
Lemma wf_dequeue0 (st : estate) (Q1 Q2 : list tid) (t : tid) (M R : option tid) : queue st (Q1 ++ t :: Q2) -> StronglySorted (fun a b => exp st a <= exp st b) (Q1 ++ Q2) ->
  (forall u x, timers st !! u = Some x -> good (Q1 ++ t :: Q2) M R u x) -> (forall u, M = Some u -> u ∉ Q1 ++ t :: Q2 /\ is_Some (timers st !! u)) ->
  exists st', gen_dequeue st t = Ok st' /\ wf st' (Q1 ++ Q2) M R /\ same_rest st st' /\ same_inner st st'.
Proof.
  intros QQ S G Mk. pose proof QQ as [ND _]. destruct (dequeue_spec st Q1 Q2 t QQ) as (st' & E & QQ' & Rs & I & Lt & O). exists st'. split; [done|]. split; [|done].
  apply NoDup_app in ND as (_ & N12 & [Nt _]%NoDup_cons). assert (t ∉ Q1 ++ Q2) as Ntt by (rewrite elem_of_app; intros [X|X]; [apply (N12 t X); left|done]).
  split; [done| | |].
  - apply sorted_ext with st; [intros u _; by apply exp_inner|done].
  - intros u y Hy. destruct (inner_lookup st st' u y (I u) Hy) as (x & Hx & Ei). destruct (decide (u = t)) as [->|N].
    + rewrite Hy in Lt. injection Lt as L1 L2. pose proof (G t x Hx) as [G1 G2 G3 G4 GA G5]. injection Ei as E1 E2 E3 E4 E5. split; rewrite ?E1, ?E3, ?E4; try done. intros _. unfold links. by rewrite L1, L2.
    + apply (good_ext (Q1 ++ t :: Q2) (Q1 ++ Q2) M R u x y (G u x Hx)); [rewrite !elem_of_app, elem_of_cons; naive_solver|done|]. intros Nu. rewrite O in Hy by (rewrite elem_of_app, elem_of_cons in *; tauto).
      rewrite Hx in Hy. injection Hy as <-. apply (G u x Hx). rewrite elem_of_app, elem_of_cons in *. tauto.
  - intros u Hu. destruct (Mk u Hu) as [Nu [z Hz]]. split; [rewrite elem_of_app, elem_of_cons in *; tauto|]. specialize (I u). rewrite Hz in I. destruct (timers st' !! u); [by eexists|done].
Qed.
Lemma wf_dequeue (st : estate) (Q1 Q2 : list tid) (t : tid) (M R : option tid) : wf st (Q1 ++ t :: Q2) M R ->
  exists st', gen_dequeue st t = Ok st' /\ wf st' (Q1 ++ Q2) M R /\ same_rest st st' /\ same_inner st st'.
Proof. intros [QQ S G Mk]. apply wf_dequeue0; [done|by apply sorted_remove with t|done|done]. Qed.

(** Putting one on it. *)
Lemma wf_enqueue (st : estate) (Q : list tid) (M R : option tid) (t : tid) (x : Timer) : wf st Q M R -> t ∉ Q -> M <> Some t -> timers st !! t = Some x ->
  flag (gh_flags x) GEN_ACTIVE = true -> (periodic (t_type x) = true -> 0 < t_value x) ->
  exists st' A B, timer_enqueue now st t = Ok st' /\ Q = A ++ B /\ wf st' (A ++ t :: B) M R /\ same_rest st st' /\
    exp st' t = expire_at now (t_type x) (t_value x) /\ (forall u, u <> t -> exp st' u = exp st u) /\ option_map gh_flags (timers st' !! t) = Some (gh_flags x).
Proof.
  intros [QQ S G Mk] Nt NM Hx Ha Hp. destruct (enqueue_spec now st Q t x QQ Nt Hx) as (st' & A & B & E & -> & QQ' & Rs & FA & FB & It & Iu & O). set (e := expire_at now (t_type x) (t_value x)) in *.
  destruct (timers st' !! t) as [y|] eqn:Hy; [|done]. injection It as I1 I2 I3 I4 I5.
  assert (exp st' t = e) as Et by (unfold exp; by rewrite Hy). assert (forall u, u <> t -> exp st' u = exp st u) as Eu.
  { intros u Hu. specialize (Iu u Hu). unfold exp. destruct (timers st' !! u) as [z|], (timers st !! u) as [w|]; try done. by injection Iu as _ _ _ _ ->. }
  exists st', A, B. split; [done|]. split; [done|]. split; [|split; [done|split; [done|split; [done|by rewrite Hy; cbn; rewrite I1]]]]. assert (forall u, u ∈ A ++ B -> u <> t) as Ne by (intros u Hu ->; done). split; [done| | |].
  - apply sorted_insert; [apply sorted_ext with st; [intros u Hu; by apply Eu, Ne|done]|..].
    + apply Forall_forall. intros u Hu. rewrite Forall_forall in FA. rewrite Et, Eu by (apply Ne, elem_of_app; by left). by apply FA.
    + destruct B as [|u B]; [done|]. rewrite Et, Eu; [done|]. apply Ne, elem_of_app. right. left.
  - intros u z Hz. destruct (decide (u = t)) as [->|N].
    + rewrite Hy in Hz. injection Hz as <-. destruct (G t x Hx) as [G1 G2 G3 G4 GA G5]. split; rewrite ?I1, ?I3, ?I4; try done. intros X. exfalso. apply X, elem_of_app. right. left.
    + destruct (inner_lookup st st' u z (Iu u N) Hz) as (w & Hw & Ei). apply (good_ext (A ++ B) (A ++ t :: B) M R u w z (G u w Hw)); [rewrite !elem_of_app, elem_of_cons; naive_solver|done|].
      intros Nu. assert (u ∉ A ++ B) as Nu' by (rewrite elem_of_app, elem_of_cons in *; tauto). rewrite O in Hz by done. rewrite Hw in Hz. injection Hz as <-. by apply (G u w Hw).
  - intros u Hu. destruct (Mk u Hu) as [Nu [z Hz]]. assert (u <> t) as N by congruence. split; [rewrite elem_of_app, elem_of_cons in *; tauto|]. specialize (Iu u N). rewrite Hz in Iu. destruct (timers st' !! u); [by eexists|done].
Qed.

(** What operations do to the timers that are due. *)
Record progress (st : estate) (Q : list tid) (st' : estate) (Q' : list tid) : Prop := {
  pg_due : forall t, t ∈ Q' -> exp st' t <= now -> t ∈ Q /\ exp st t <= now;
  pg_kept : forall t, t ∈ Q -> t ∈ Q' \/ (ET_DESTROY, t) ∈ trace st';
  pg_trace : exists l, trace st' = trace st ++ l /\ Forall (fun e => fst e = ET_DESTROY) l
}.
Lemma progress_refl (st st' : estate) (Q : list tid) : (forall t, t ∈ Q -> exp st' t = exp st t) -> trace st' = trace st -> progress st Q st' Q.
Proof. intros E T. split; [intros t Ht; by rewrite E|auto|]. exists []. by rewrite app_nil_r. Qed.
Lemma progress_trans (a b c : estate) (P Q R : list tid) : progress a P b Q -> progress b Q c R -> progress a P c R.
Proof.
  intros [D1 K1 (l & T1 & F1)] [D2 K2 (m & T2 & F2)]. split; [| |exists (l ++ m); split; [by rewrite T2, T1, app_assoc|by apply Forall_app]].
  - intros t Ht Le. destruct (D2 t Ht Le) as [Hq Lq]. by apply D1.
  - intros t Ht. destruct (K1 t Ht) as [Hq|Hd]; [by apply K2|]. right. rewrite T2. apply elem_of_app. by left.
Qed.

(** An operation a callback may perform: adding a timer that is off the queue, deleting or
    changing one that is on it, or any of these for the timer whose event runs; and nothing
    is armed for a time that has come. *)
Definition legal (st : estate) (o : op) : bool :=
  match o with
  | TimerAdd t ty v => match timers st !! t with Some x => (flag (gh_flags x) GEN_MARKED || bool_decide (gh_prev_p x = None)) && (now <? expire_at now ty v) | None => false end
  | TimerDel t => match timers st !! t with Some x => flag (gh_flags x) GEN_MARKED || bool_decide (gh_prev_p x <> None) | None => false end
  | TimerChg t ty v => match timers st !! t with Some x => (flag (gh_flags x) GEN_MARKED || bool_decide (gh_prev_p x <> None)) && (now <? expire_at now ty v) | None => false end
  end.
Definition no_del (o : op) : bool := match o with TimerDel _ => false | _ => true end.

Lemma on_queue (st : estate) (Q : list tid) (M R : option tid) (t : tid) (x : Timer) : wf st Q M R -> timers st !! t = Some x -> gh_prev_p x <> None <-> t ∈ Q.
Proof.
  intros W Hx. split.
  - intros N. destruct (decide (t ∈ Q)) as [|Nq]; [done|]. pose proof (g_links Q M R t x (w_good st Q M R W t x Hx) Nq) as E. by injection E as _ E.
  - intros Hq. destruct (w_queue st Q M R W) as [_ L]. destruct (lseg_elem _ _ t _ _ _ L Hq) as (y & pp & Hy & Ey). rewrite Hx in Hy. injection Hy as <-. by rewrite Ey.
Qed.
Lemma future_periodic (ty : TimerType) (v : Z) : now < expire_at now ty v -> periodic ty = true -> 0 < v.
Proof. destruct ty; cbn; [done|done|lia]. Qed.
End Wf.

(** ** The operations *)
Section Ops.
Context (now : Z).
Abbreviation wfn := (wf now).

Lemma timer_state (st : estate) (Q : list tid) (M : option tid) (t : tid) (x : Timer) : wfn st Q M M -> timers st !! t = Some x ->
  (M = Some t /\ flag (gh_flags x) GEN_MARKED = true /\ t ∉ Q) \/ (M <> Some t /\ flag (gh_flags x) GEN_MARKED = false /\ flag (gh_flags x) GEN_READD = false).
Proof.
  intros W Hx. destruct (w_good now st Q M M W t x Hx) as [G1 G2 G3 G4 GA G5]. destruct (decide (M = Some t)) as [E|N].
  - left. split; [done|]. rewrite G3. split; [by apply bool_decide_eq_true|]. by apply (w_mark now st Q M M W).
  - right. split; [done|]. split; [rewrite G3; by apply bool_decide_eq_false|]. destruct (flag (gh_flags x) GEN_READD) eqn:E; [|done]. by destruct (G5 eq_refl).
Qed.

(** Progress of an insertion in the future. *)
Lemma progress_insert (st st' : estate) (A B : list tid) (t : tid) : (forall u, u <> t -> exp st' u = exp st u) -> now < exp st' t -> trace st' = trace st -> progress now st (A ++ B) st' (A ++ t :: B).
Proof.
  intros E F T. split; [|intros u Hu; left; rewrite elem_of_app, elem_of_cons in *; tauto|exists []; by rewrite app_nil_r].
  intros u Hu Le. destruct (decide (u = t)) as [->|N]; [lia|]. rewrite E in Le by done. split; [|done]. rewrite elem_of_app, elem_of_cons in *. tauto.
Qed.

Lemma exp_write (st : estate) (t u : tid) (y : Timer) : u <> t -> exp (set_timers st (<[t := y]> (timers st))) u = exp st u.
Proof. intros N. unfold exp. cbn [timers set_timers]. by rewrite lookup_insert_ne. Qed.

Lemma add_spec (st : estate) (Q : list tid) (M : option tid) (t : tid) (ty : TimerType) (v : Z) : wfn st Q M M -> legal now st (TimerAdd t ty v) = true ->
  exists st' Q', timer_add now st t ty v = Ok st' /\ wfn st' Q' M M /\ progress now st Q st' Q'.
Proof.
  intros W Lg. cbn [legal] in Lg. destruct (timers st !! t) as [x|] eqn:Hx; [|done]. apply andb_true_iff in Lg as [Lg Fu%Z.ltb_lt]. pose proof (w_good now st Q M M W t x Hx) as G.
  unfold timer_add. unfold load at 1. rewrite Hx. cbn [obind]. rewrite (update_timer st t _ x Hx). cbn [obind].
  destruct (timer_state st Q M t x W Hx) as [(EM & Em & Nq)|(NM & Em & Er)]; rewrite Em in *.
  - set (y := set_time _ _ _ _). exists (set_timers st (<[t := y]> (timers st))), Q. split; [done|]. split.
    + apply (wf_write now st Q M M t x y W Hx eq_refl); [done|]. destruct G as [G1 G2 G3 G4 GA G5]. split; cbn [y set_time set_ref set_flags gh_flags t_type t_value]; [by apply G1|..]; try done.
      * by flags.
      * rewrite <- G3. by flags.
      * by flags.
    + apply progress_refl; [|done]. intros u Hu. apply exp_write. by intros ->.
  - cbn [orb] in Lg. apply bool_decide_eq_true in Lg. assert (t ∉ Q) as Nq by (rewrite <- (on_queue now st Q M M t x W Hx); by intros ?).
    set (y := set_time _ _ _ _). set (st1 := set_timers st _). assert (timers st1 !! t = Some y) as Hy by apply lookup_insert_eq.
    assert (wfn st1 Q M M) as W1.
    { apply (wf_write now st Q M M t x y W Hx eq_refl); [done|]. destruct G as [G1 G2 G3 G4 GA G5]. split; cbn [y set_time set_ref set_flags gh_flags t_type t_value]; [by apply G1|..]; try done.
      - by flags.
      - rewrite <- G3. by flags.
      - flags. congruence. }
    destruct (wf_enqueue now st1 Q M M t y W1 Nq NM Hy) as (st' & A & B & -> & -> & W' & (_ & _ & T) & Et & Eu & _); [cbn; by flags|cbn; by apply (future_periodic now)|].
    exists st', (A ++ t :: B). split; [done|]. split; [done|]. apply progress_insert; [|by rewrite Et|done]. intros u Hu. rewrite Eu by done. by apply exp_write.
Qed.

(** A timer on the queue whose time was overwritten, taken off. *)
Lemma chg_spec (st : estate) (Q : list tid) (M : option tid) (t : tid) (ty : TimerType) (v : Z) : wfn st Q M M -> legal now st (TimerChg t ty v) = true ->
  exists st' Q', timer_chg now st t ty v = Ok st' /\ wfn st' Q' M M /\ progress now st Q st' Q'.
Proof.
  intros W Lg. cbn [legal] in Lg. destruct (timers st !! t) as [x|] eqn:Hx; [|done]. apply andb_true_iff in Lg as [Lg Fu%Z.ltb_lt]. pose proof (w_good now st Q M M W t x Hx) as G.
  unfold timer_chg. rewrite (update_timer st t _ x Hx). cbn [obind]. set (y := set_time ty v 0 x). set (st1 := set_timers st _). assert (timers st1 !! t = Some y) as Hy by apply lookup_insert_eq.
  unfold load at 1. rewrite Hy. cbn [obind]. change (gh_flags y) with (gh_flags x). destruct (timer_state st Q M t x W Hx) as [(EM & Em & Nq)|(NM & Em & Er)]; rewrite Em in *.
  - rewrite (update_timer st1 t _ y Hy). unfold st1. cbn [timers set_timers]. rewrite insert_insert_eq. set (z := set_flags _ y). exists (set_timers st (<[t := z]> (timers st))), Q. split; [done|]. split.
    + apply (wf_write now st Q M M t x z W Hx eq_refl); [done|]. destruct G as [G1 G2 G3 G4 GA G5]. split; cbn [z y set_time set_flags gh_flags t_type t_value]; [by apply G1|..]; try done.
      * by flags.
      * rewrite <- G3. by flags.
      * intros E. specialize (GA E). by flags.
    + apply progress_refl; [|done]. intros u Hu. apply exp_write. by intros ->.
  - cbn [orb] in Lg. apply bool_decide_eq_true in Lg. pose proof (proj1 (on_queue now st Q M M t x W Hx) Lg) as Hq. apply list_elem_of_split in Hq as (Q1 & Q2 & ->).
    destruct W as [[ND L] S Gd Mk]. assert (forall u, u ∈ Q1 ++ Q2 -> u <> t) as Ne.
    { apply NoDup_app in ND as (_ & N & [Nt _]%NoDup_cons). intros u Hu ->. apply elem_of_app in Hu as [Hu|Hu]; [apply (N t Hu); left|done]. }
    destruct (wf_dequeue0 now st1 Q1 Q2 t M M) as (st2 & -> & W2 & (_ & _ & T2) & I2).
    + split; [done|]. apply lseg_ext with (timers st); [|done]. intros u _. unfold st1. cbn [timers set_timers]. destruct (decide (u = t)) as [->|N]; [by rewrite lookup_insert_eq, Hx|by rewrite lookup_insert_ne].
    + apply (sorted_ext st); [intros u Hu; by apply exp_write, Ne|]. by apply sorted_remove with t.
    + intros u z. unfold st1. cbn [timers set_timers]. destruct (decide (u = t)) as [->|N]; [|rewrite lookup_insert_ne by done; apply Gd]. rewrite lookup_insert_eq. intros [= <-].
      destruct G as [G1 G2 G3 G4 GA G5]. split; try done; [|change (gh_flags y) with (gh_flags x); congruence]. intros Hq. destruct (G4 Hq). split; [done|]. cbn. by apply (future_periodic now).
    + intros u Hu. destruct (Mk u Hu) as [Nu Su]. split; [done|]. unfold st1. cbn [timers set_timers]. destruct (decide (u = t)) as [->|N]; [by eexists|by rewrite lookup_insert_ne].
    + cbn [obind]. pose proof (I2 t) as It. rewrite Hy in It. destruct (timers st2 !! t) as [z|] eqn:Hz; [|done]. injection It as E1 _ E3 E4 _.
      destruct (wf_enqueue now st2 (Q1 ++ Q2) M M t z W2) as (st' & A & B & -> & EQ & W' & (_ & _ & T) & Et & Eu & _); [intros X; by apply (Ne t X)|done|done|..].
      * rewrite E1. apply (g_queued now _ _ _ _ _ G), elem_of_app. right. left.
      * rewrite E3, E4. by apply (future_periodic now).
      * exists st', (A ++ t :: B). split; [done|]. split; [done|]. rewrite E3, E4 in Et. assert (forall u, u <> t -> exp st' u = exp st u) as Ex by (intros u Hu; rewrite Eu, (exp_inner st1 st2 u I2) by done; by apply exp_write).
        destruct (progress_insert st st' A B t Ex ltac:(by rewrite Et) ltac:(by rewrite T, T2)) as [P1 P2 P3]. rewrite <- EQ in P1, P2.
        split; [| |done]; intros u; rewrite !elem_of_app, !elem_of_cons.
        -- intros Hu Le. assert (u ∈ Q1 ++ Q2 /\ exp st u <= now) as [X Y] by (apply P1; [by rewrite elem_of_app, elem_of_cons|done]). rewrite elem_of_app in X. tauto.
        -- intros Hu. destruct (decide (u = t)) as [->|N]; [tauto|]. assert (u ∈ Q1 ++ Q2) as X by (rewrite elem_of_app; tauto). destruct (P2 u X) as [Y|Y]; [rewrite elem_of_app, elem_of_cons in Y; tauto|tauto].
Qed.

(** What the destruction of a timer that is neither queued nor running does. *)
Definition destroys (gen : estate -> EventType -> tid -> outcome estate) : Prop := forall st Q M t, wfn st Q M M -> t ∉ Q -> M <> Some t -> is_Some (timers st !! t) ->
  exists st' Q', gen st ET_DESTROY t = Ok st' /\ wfn st' Q' M M /\ progress now st Q st' Q' /\ (ET_DESTROY, t) ∈ trace st'.

Lemma del_spec (gen : estate -> EventType -> tid -> outcome estate) (st : estate) (Q : list tid) (M : option tid) (t : tid) : destroys gen -> wfn st Q M M -> legal now st (TimerDel t) = true ->
  exists st' Q', timer_del gen st t = Ok st' /\ wfn st' Q' M M /\ progress now st Q st' Q'.
Proof.
  intros Hgen W Lg. cbn [legal] in Lg. destruct (timers st !! t) as [x|] eqn:Hx; [|done]. pose proof (w_good now st Q M M W t x Hx) as G.
  unfold timer_del. rewrite (update_timer st t _ x Hx). cbn [obind]. set (y := set_flags _ x). set (st1 := set_timers st _). assert (timers st1 !! t = Some y) as Hy by apply lookup_insert_eq.
  unfold load at 1. rewrite Hy. cbn [obind]. assert (flag (gh_flags y) GEN_MARKED = flag (gh_flags x) GEN_MARKED) as -> by (cbn [y set_flags gh_flags]; by flags).
  assert (wfn st1 Q M M) as W1.
  { apply (wf_write now st Q M M t x y W Hx eq_refl); [done|]. destruct G as [G1 G2 G3 G4 GA G5]. split; cbn [y set_flags gh_flags t_type t_value]; [by apply G1|..].
    - by flags.
    - rewrite <- G3. by flags.
    - intros Hq. destruct (G4 Hq). split; [by flags|done].
    - intros E. specialize (GA E). by flags.
    - by flags. }
  assert (forall u, exp st1 u = exp st u) as Ex.
  { intros u. destruct (decide (u = t)) as [->|N]; [|by apply exp_write]. unfold exp. by rewrite Hy, Hx. }
  destruct (timer_state st Q M t x W Hx) as [(EM & Em & Nq)|(NM & Em & Er)]; rewrite Em in *.
  - exists st1, Q. split; [done|]. split; [done|]. apply progress_refl; [|done]. intros u _. apply Ex.
  - cbn [orb] in Lg. apply bool_decide_eq_true in Lg. pose proof (proj1 (on_queue now st Q M M t x W Hx) Lg) as Hq. apply list_elem_of_split in Hq as (Q1 & Q2 & ->).
    pose proof (w_queue _ _ _ _ _ W) as [(_ & N & [Nt _]%NoDup_cons)%NoDup_app _].
    destruct (wf_dequeue now st1 Q1 Q2 t M M W1) as (st2 & -> & W2 & (_ & _ & T2) & I2). cbn [obind].
    destruct (Hgen st2 (Q1 ++ Q2) M t W2) as (st' & Q' & -> & W' & [P1 P2 (l & P3 & P4)] & Tt); [rewrite elem_of_app; intros [X|X]; [apply (N t X); left|done]|done| |].
    { specialize (I2 t). rewrite Hy in I2. destruct (timers st2 !! t); [by eexists|done]. }
    exists st', Q'. split; [done|]. split; [done|]. split.
    + intros u Hu Le. destruct (P1 u Hu Le) as [X Y]. rewrite (exp_inner st1 st2 u I2), Ex in Y. split; [|done]. rewrite elem_of_app, elem_of_cons in *. tauto.
    + intros u Hu. destruct (decide (u = t)) as [->|Nu]; [by right|]. apply P2. rewrite elem_of_app, elem_of_cons in *. tauto.
    + exists l. split; [by rewrite P3, T2|done].
Qed.

(** Each operation is legal in the state it is performed in. *)
Fixpoint legal_run (gen : estate -> EventType -> tid -> outcome estate) (st : estate) (ops : list op) : Prop :=
  match ops with
  | [] => True
  | o :: ops => legal now st o = true /\ forall st', run_op now gen st o = Ok st' -> legal_run gen st' ops
  end.

Lemma run_ops_spec (gen : estate -> EventType -> tid -> outcome estate) (ops : list op) : forall st Q M, forallb no_del ops = true \/ destroys gen -> wfn st Q M M -> legal_run gen st ops ->
  exists st' Q', run_ops now gen st ops = Ok st' /\ wfn st' Q' M M /\ progress now st Q st' Q'.
Proof.
  induction ops as [|o ops IH]; intros st Q M D W Lg; cbn [run_ops].
  - exists st, Q. split; [done|]. split; [done|]. by apply progress_refl.
  - destruct Lg as [Lo Lr]. assert (exists st' Q', run_op now gen st o = Ok st' /\ wfn st' Q' M M /\ progress now st Q st' Q') as (st1 & Q1 & E1 & W1 & P1).
    { destruct o as [t ty v|t|t ty v]; cbn [run_op]; [by apply add_spec|destruct D as [D|D]; [done|by apply del_spec]|by apply chg_spec]. }
    rewrite E1. cbn [obind]. destruct (IH st1 Q1 M) as (st2 & Q2 & -> & W2 & P2); [|done|by apply Lr|].
    + destruct D as [D|D]; [left|by right]. cbn [forallb] in D. by apply andb_true_iff in D as [_ D].
    + exists st2, Q2. split; [done|]. split; [done|]. by apply (progress_trans now st st1 st2 Q Q1 Q2).
Qed.
End Ops.

(** ** Events *)
Section Generate.
Context (now : Z) (callback : estate -> tid -> EventType -> list op).
Abbreviation wfc := (wf now).
Abbreviation generate := (event_generate now callback).

(** What is asked of the callbacks, and nothing in the interface enforces: whatever runs on
    the expiry of a timer performs [legal] operations only, so it arms timers for a later
    time than now (see [rearmed_loops] for one that does not), and what runs on the
    destruction of a timer deletes none. *)
Record well_behaved : Prop := {
  wb_expire : forall d st Q t, wfc st Q (Some t) (Some t) -> legal_run now (generate d) (called st ET_EXPIRE t) (callback st t ET_EXPIRE);
  wb_destroy : forall d st Q M t, wfc st Q M M -> t ∉ Q -> M <> Some t -> is_Some (timers st !! t) ->
    forallb no_del (callback st t ET_DESTROY) = true /\ legal_run now (generate d) (called st ET_DESTROY t) (callback st t ET_DESTROY)
}.
Context (WB : well_behaved).

Lemma event_generate_S (d : nat) (st : estate) (type : EventType) (t : tid) : generate (S d) st type t =
  let* x := load st t in
  if negb (bool_decide (type = ET_DESTROY)) && flag (gh_flags x) GEN_DESTROY then Ok st
  else let* st := update (take_event st) t (fun x => set_ref (u32 (gh_ref x + 1)) x) in event_execute now callback (generate d) st type t.
Proof. reflexivity. Qed.

Lemma good_ref (Q : list tid) (M R : option tid) (t : tid) (x : Timer) (r : Z) : good now Q M R t x -> good now Q M R t (set_ref r x).
Proof. by intros []. Qed.

(** Counting a reference changes nothing else. *)
Lemma update_ref (st : estate) (Q : list tid) (M R : option tid) (t : tid) (g : Z -> Z) : wfc st Q M R -> is_Some (timers st !! t) ->
  exists st', update st t (fun x => set_ref (g (gh_ref x)) x) = Ok st' /\ wfc st' Q M R /\ trace st' = trace st /\ (forall u, exp st' u = exp st u) /\ (forall u, is_Some (timers st !! u) -> is_Some (timers st' !! u)).
Proof.
  intros W [x Hx]. rewrite (update_timer st t _ x Hx). eexists. split; [done|]. split; [|split; [done|split]].
  - apply (wf_write now st Q M R t x); [done..|]. by apply good_ref, (w_good now st Q M R W).
  - intros u. destruct (decide (u = t)) as [->|N]; [|by apply exp_write]. unfold exp. cbn [timers set_timers]. by rewrite lookup_insert_eq, Hx.
  - intros u Hu. cbn [timers set_timers]. destruct (decide (u = t)) as [->|N]; [rewrite lookup_insert_eq; by eexists|by rewrite lookup_insert_ne].
Qed.

Lemma generate_destroy (d : nat) : destroys now (generate (S d)).
Proof.
  intros st Q M t W Nq NM St. cbn [event_generate]. unfold load at 1. destruct St as [x0 Hx0]. rewrite Hx0. cbn [obind]. rewrite bool_decide_true by done. cbn [negb andb].
  destruct (update_ref (take_event st) Q M M t (fun r => u32 (r + 1))) as (st1 & -> & W1 & T1 & E1 & S1); [apply wf_rest with st; [unfold take_event; by destruct (events_free st)..|done]|unfold take_event; destruct (events_free st); by exists x0|].
  assert (timers (take_event st) = timers st /\ trace (take_event st) = trace st) as [Et Ett] by (unfold take_event; by destruct (events_free st)). rewrite Et in S1. rewrite Ett in T1.
  assert (forall u, exp st1 u = exp st u) as E1' by (intros u; rewrite E1; unfold exp; by rewrite Et).
  cbn [obind]. unfold event_execute. rewrite !decide_True by done. destruct (S1 t ltac:(by exists x0)) as [x Hx]. rewrite (update_timer st1 t _ x Hx). cbn [obind]. set (y := set_flags _ x). set (st2 := set_timers st1 _).
  assert (wfc st2 Q M M) as W2.
  { apply (wf_write now st1 Q M M t x y W1 Hx eq_refl); [done|]. destruct (w_good now st1 Q M M W1 t x Hx) as [G1 G2 G3 G4 GA G5]. split; cbn [y set_flags gh_flags t_type t_value]; [by apply G1|..]; try done.
    - by flags.
    - rewrite <- G3. by flags.
    - intros X. apply G5. by flags. }
  destruct (wb_destroy WB d st2 Q M t W2 Nq NM) as [Nd Lr]; [exists y; apply lookup_insert_eq|].
  destruct (run_ops_spec now (generate d) (callback st2 t ET_DESTROY) (called st2 ET_DESTROY t) Q M) as (st3 & Q3 & -> & W3 & [P1 P2 (l & P3 & P4)]); [by left|by apply wf_rest with st2|done|].
  cbn [obind]. exists (give_event st3), Q3. split; [done|]. split; [by apply wf_rest with st3|]. cbn [called trace st2 set_timers] in P3. rewrite T1 in P3. split; [split|].
  - intros u Hu Le. destruct (P1 u Hu Le) as [X Y]. split; [done|]. rewrite <- E1'. change (exp st2 u <= now) in Y. unfold st2 in Y. rewrite exp_write in Y; [done|]. by intros ->.
  - exact P2.
  - exists ((ET_DESTROY, t) :: l). split; [cbn [give_event trace]; by rewrite P3, <- app_assoc|]. by constructor.
  - cbn [give_event trace]. rewrite P3, !elem_of_app. left. right. left.
Qed.

Lemma generate_expire (d : nat) (st : estate) (Q : list tid) (t : tid) : wfc st Q (Some t) (Some t) ->
  exists st' Q', generate (S (S d)) st ET_EXPIRE t = Ok st' /\ wfc st' Q' (Some t) (Some t) /\ progress now (called st ET_EXPIRE t) Q st' Q'.
Proof.
  intros W. destruct (w_mark now st Q _ _ W t eq_refl) as [Nq St]. rewrite event_generate_S. unfold load at 1. destruct St as [x0 Hx0]. rewrite Hx0. cbn [obind]. rewrite (g_destroy now _ _ _ _ _ (w_good now _ _ _ _ W t x0 Hx0)), andb_false_r.
  destruct (update_ref (take_event st) Q (Some t) (Some t) t (fun r => u32 (r + 1))) as (st1 & -> & W1 & T1 & E1 & S1); [apply wf_rest with st; [unfold take_event; by destruct (events_free st)..|done]|unfold take_event; destruct (events_free st); by exists x0|].
  assert (timers (take_event st) = timers st /\ trace (take_event st) = trace st) as [Et Ett] by (unfold take_event; by destruct (events_free st)). rewrite Ett in T1.
  assert (forall u, exp st1 u = exp st u) as E1' by (intros u; rewrite E1; unfold exp; by rewrite Et).
  cbn [obind]. unfold event_execute. rewrite !decide_False by done. cbn [obind]. pose proof (wb_expire WB (S d) st1 Q t W1) as Lr.
  destruct (run_ops_spec now (generate (S d)) (callback st1 t ET_EXPIRE) (called st1 ET_EXPIRE t) Q (Some t)) as (st2 & Q2 & E2 & W2 & [P1 P2 (l & P3 & P4)]); [right; apply generate_destroy|by apply wf_rest with st1|done|].
  rewrite E2. cbn [obind]. clear E2. unfold gen_ref_dec.
  destruct (update_ref st2 Q2 (Some t) (Some t) t (fun r => u32 (r - 1)) W2) as (st3 & -> & W3 & T3 & E3 & S3); [by apply (w_mark now _ _ _ _ W2)|]. cbn [obind]. destruct (w_mark now st3 Q2 _ _ W3 t eq_refl) as [_ [x3 Hx3]].
  unfold load. rewrite Hx3. cbn [obind]. rewrite (g_destroy now _ _ _ _ _ (w_good now _ _ _ _ W3 t x3 Hx3)), andb_false_r. cbn [obind].
  exists (give_event st3), Q2. split; [done|]. split; [by apply wf_rest with st3|]. split; cbn [give_event trace called].
  - intros u Hu Le. change (exp (give_event st3) u) with (exp st3 u) in Le. rewrite E3 in Le. destruct (P1 u Hu Le) as [X Y]. split; [done|]. change (exp st1 u <= now) in Y. rewrite E1' in Y. done.
  - intros u Hu. rewrite T3. by apply P2.
  - exists l. split; [|done]. rewrite T3, P3. cbn [called trace]. by rewrite T1.
Qed.

(** *** The loop *)

(** Marking the timer taken from the queue, and taking the mark away again. *)
Lemma wf_mark (st : estate) (Q : list tid) (t : tid) (x : Timer) (y := set_flags (Z.lor (gh_flags x) (Z.lor GEN_MARKED (if periodic (t_type x) then GEN_READD else 0))) x) :
  wfc st Q None None -> t ∉ Q -> timers st !! t = Some x -> flag (gh_flags x) GEN_ACTIVE = true -> (periodic (t_type x) = true -> 0 < t_value x) -> wfc (set_timers st (<[t := y]> (timers st))) Q (Some t) (Some t).
Proof.
  intros W Nq Hx Ha Hp. destruct (w_good now st Q None None W t x Hx) as [G1 G2 G3 G4 GA G5]. apply (wf_rewrite now st Q None None (Some t) (Some t) t x y W Hx eq_refl); [done|..].
  - split; cbn [y set_flags gh_flags t_type t_value]; [by apply G1|..].
    + destruct (periodic (t_type x)); [by flags|]. rewrite Z.lor_0_r. by flags.
    + rewrite bool_decide_true by done. destruct (periodic (t_type x)); [by flags|]. rewrite Z.lor_0_r. by flags.
    + done.
    + intros _. destruct (periodic (t_type x)); [by flags|]. rewrite Z.lor_0_r. by flags.
    + intros X. split; [done|]. destruct (periodic (t_type x)) eqn:E.
      * destruct (t_type x); try done. cbn [expire_at]. specialize (Hp eq_refl). lia.
      * rewrite Z.lor_0_r in X. assert (flag (gh_flags x) GEN_READD = true) as Y by (by flags). by destruct (G5 Y).
  - intros u z Nu [H1 H2 H3 H4 HA H5]. split; try done; [rewrite H3, !bool_decide_false; [done|congruence|done]|congruence|]. intros X. by destruct (H5 X).
  - intros u [= <-]. split; [done|]. by exists x.
Qed.
Lemma wf_unmark (st : estate) (Q : list tid) (t : tid) (x : Timer) (y := set_flags (Z.ldiff (gh_flags x) GEN_MARKED) x) : wfc st Q (Some t) (Some t) -> timers st !! t = Some x ->
  wfc (set_timers st (<[t := y]> (timers st))) Q None (if flag (gh_flags y) GEN_READD then Some t else None).
Proof.
  intros W Hx. pose proof (w_mark now st Q _ _ W t eq_refl) as [Nq _]. destruct (w_good now st Q _ _ W t x Hx) as [G1 G2 G3 G4 GA G5]. set (R := if flag _ _ then _ else _). apply (wf_rewrite now st Q (Some t) (Some t) None R t x y W Hx eq_refl); [done|..|done].
  - split; [by apply G1|..].
    + cbn [y set_flags gh_flags]. by flags.
    + rewrite bool_decide_false by done. cbn [y set_flags gh_flags]. by flags.
    + done.
    + intros _. specialize (GA eq_refl). cbn [y set_flags gh_flags]. by flags.
    + intros X. unfold R. rewrite X. split; [done|]. cbn [y set_flags t_type t_value]. apply G5. cbn [y set_flags gh_flags] in X. by flags.
  - intros u z Nu [H1 H2 H3 H4 HA H5]. split; try done.
    + rewrite H3, !bool_decide_false; [done|done|congruence].
    + unfold R. destruct (flag (gh_flags y) GEN_READD); [congruence|done].
    + intros X. destruct (H5 X). congruence.
Qed.
Lemma wf_readded (st : estate) (Q : list tid) (t : tid) (x : Timer) (y := set_flags (Z.ldiff (gh_flags x) GEN_READD) x) : wfc st Q None (Some t) -> timers st !! t = Some x -> wfc (set_timers st (<[t := y]> (timers st))) Q None None.
Proof.
  intros W Hx. destruct (w_good now st Q _ _ W t x Hx) as [G1 G2 G3 G4 GA G5]. apply (wf_rewrite now st Q None (Some t) None None t x y W Hx eq_refl); [done|..|done].
  - split; cbn [y set_flags gh_flags t_type t_value]; [by apply G1|..]; try done; try by flags.
  - intros u z Nu [H1 H2 H3 H4 HA H5]. split; try done. intros X. destruct (H5 X). congruence.
Qed.

(** One turn: the timer at the head expires, is destroyed or armed in the future, and no
    other becomes due. *)
Record turn (st : estate) (t : tid) (Q : list tid) (st' : estate) (Q' : list tid) : Prop := {
  tn_due : forall u, u ∈ Q' -> exp st' u <= now -> u ∈ Q /\ exp st u <= now;
  tn_kept : forall u, u ∈ Q -> u ∈ Q' \/ (ET_DESTROY, u) ∈ trace st';
  tn_trace : exists l, trace st' = trace st ++ (ET_EXPIRE, t) :: l /\ Forall (fun e => fst e = ET_DESTROY) l
}.

Lemma turn_progress (st st1 st2 st3 : estate) (t : tid) (Q Q2 Q3 : list tid) : (forall u, u ∈ Q -> exp st1 u = exp st u) -> trace st1 = trace st -> progress now (called st1 ET_EXPIRE t) Q st2 Q2 -> progress now st2 Q2 st3 Q3 -> turn st t Q st3 Q3.
Proof.
  intros E T P1 P2. destruct (progress_trans now _ _ _ _ _ _ P1 P2) as [D K (l & Tl & F)]. split; [|done|].
  - intros u Hu Le. destruct (D u Hu Le) as [X Y]. split; [done|]. rewrite <- E by done. exact Y.
  - exists l. split; [|done]. rewrite Tl. cbn [called trace]. by rewrite T, <- app_assoc.
Qed.

Lemma expire_turn (d : nat) (st : estate) (t : tid) (Q : list tid) : wfc st (t :: Q) None None -> exists st' Q', timer_expire now callback (S (S d)) st t = Ok st' /\ wfc st' Q' None None /\ turn st t Q st' Q'.
Proof.
  intros W. pose proof (w_queue now _ _ _ _ W) as [[Nq _]%NoDup_cons L]. destruct L as [_ (x0 & Hx0 & _)]. pose proof (g_queued now _ _ _ _ _ (w_good now _ _ _ _ W t x0 Hx0) ltac:(left)) as [Ha Hp].
  unfold timer_expire. destruct (wf_dequeue now st [] Q t None None W) as (st1 & -> & W1 & (_ & _ & T1) & I1). cbn [obind app] in *.
  pose proof (I1 t) as It. rewrite Hx0 in It. destruct (timers st1 !! t) as [x1|] eqn:Hx1; [|done]. injection It as E1 _ E3 E4 _. rewrite (update_timer st1 t _ x1 Hx1). cbn [obind].
  rewrite <- E1 in Ha. rewrite <- E3, <- E4 in Hp. pose proof (wf_mark st1 Q t x1 W1 Nq Hx1 Ha Hp) as W2. set (st2 := set_timers st1 _) in *.
  destruct (generate_expire d st2 Q t W2) as (st3 & Q3 & -> & W3 & P3). cbn [obind]. destruct (w_mark now _ _ _ _ W3 t eq_refl) as [Nq3 [x3 Hx3]]. rewrite (update_timer st3 t _ x3 Hx3). cbn [obind].
  pose proof (wf_unmark st3 Q3 t x3 W3 Hx3) as W4. set (y3 := set_flags _ x3) in *. set (st4 := set_timers st3 _) in *. assert (timers st4 !! t = Some y3) as Hy3 by apply lookup_insert_eq. unfold load. rewrite Hy3. cbn [obind].
  assert (progress now st3 Q3 st4 Q3) as P4 by (apply progress_refl; [|done]; intros u Hu; apply exp_write; by intros ->).
  assert (forall u, u ∈ Q -> exp st2 u = exp st u) as Ex by (intros u Hu; rewrite <- (exp_inner st st1 u I1); apply exp_write; by intros ->).
  destruct (flag (gh_flags y3) GEN_READD) eqn:Er; cbn [negb].
  - destruct (w_good now _ _ _ _ W4 t y3 Hy3) as [_ _ _ _ GA G5]. specialize (GA eq_refl). destruct (G5 Er) as [_ Fu].
    destruct (wf_enqueue now st4 Q3 None (Some t) t y3 W4 Nq3 ltac:(done) Hy3 GA) as (st5 & A & B & -> & -> & W5 & (_ & _ & T5) & Et5 & Eu5 & Ef5); [by apply (future_periodic now)|]. cbn [obind].
    destruct (timers st5 !! t) as [x5|] eqn:Hx5; [|done]. rewrite (update_timer st5 t _ x5 Hx5). pose proof (wf_readded st5 _ t x5 W5 Hx5) as W6. eexists _, (A ++ t :: B). split; [done|]. split; [exact W6|].
    apply (turn_progress st st2 st3 _ t Q (A ++ B)); [done|done|done|]. apply (progress_trans now st3 st4 _ _ _ _ P4). apply (progress_trans now st4 st5 _ (A ++ B) (A ++ t :: B)); [apply progress_insert; [done|by rewrite Et5|done]|].
    apply progress_refl; [|done]. intros u _. destruct (decide (u = t)) as [->|N]; [|by apply exp_write]. unfold exp. cbn [timers set_timers]. by rewrite lookup_insert_eq, Hx5.
  - destruct (generate_destroy (S d) st4 Q3 None t W4 Nq3 ltac:(done)) as (st5 & Q5 & -> & W5 & P5 & _); [by exists y3|]. exists st5, Q5. split; [done|]. split; [done|].
    apply (turn_progress st st2 st3 st5 t Q Q3 Q5); [done|done|done|]. by apply (progress_trans now st3 st4 st5 Q3 Q3 Q5).
Qed.

(** A timer that is not in use, initialised, is well formed and may be added. *)
Lemma init_legal (st : estate) (Q : list tid) (t : tid) (ty : TimerType) (v : Z) : wfc st Q None None -> t ∉ Q -> is_Some (timers st !! t) -> now < expire_at now ty v ->
  exists st', timer_init st t = Ok st' /\ wfc st' Q None None /\ legal now st' (TimerAdd t ty v) = true.
Proof.
  intros W Nq [x Hx] Fu. unfold timer_init. rewrite (update_timer st t _ x Hx). cbn [obind]. erewrite update_timer by apply lookup_insert_eq. cbn [timers set_timers]. rewrite insert_insert_eq. eexists. split; [done|]. split.
  - destruct (w_good now st Q None None W t x Hx) as [G1 G2 G3 G4 GA G5]. apply (wf_write now st Q None None t x); [done|done|symmetry; by apply G1|done|]. by split.
  - cbn [legal timers set_timers]. rewrite lookup_insert_eq. cbn. by apply Z.ltb_lt.
Qed.

(** *** The whole run *)
Definition due (st : estate) (Q : list tid) : list tid := filter (fun t => exp st t <= now) Q.
Definition expired (tr : list (EventType * tid)) : list tid := omap (fun e => if decide (fst e = ET_EXPIRE) then Some (snd e) else None) tr.

Lemma elem_of_due (st : estate) (Q : list tid) (t : tid) : t ∈ due st Q <-> t ∈ Q /\ exp st t <= now.
Proof. unfold due. rewrite list_elem_of_filter. tauto. Qed.
Lemma expired_app (a b : list (EventType * tid)) : expired (a ++ b) = expired a ++ expired b.
Proof. unfold expired. by rewrite omap_app. Qed.
Lemma expired_destroy (l : list (EventType * tid)) : Forall (fun e => fst e = ET_DESTROY) l -> expired l = [].
Proof. unfold expired. induction 1 as [|e l E F IH]; [done|]. cbn. by rewrite E, decide_False. Qed.

(** What has happened since the run began with the queue [Q0]. *)
Record ran (st0 : estate) (Q0 : list tid) (st : estate) (Q : list tid) : Prop := {
  rn_due : due st Q ⊆ due st0 Q0;
  rn_fired : forall t, t ∈ due st0 Q0 -> t ∈ Q \/ t ∈ expired (trace st) \/ (ET_DESTROY, t) ∈ trace st;
  rn_only : forall t, t ∈ expired (trace st) -> t ∈ due st0 Q0 /\ t ∉ due st Q;
  rn_once : NoDup (expired (trace st))
}.
Lemma ran_turn (st0 : estate) (Q0 : list tid) (st st' : estate) (t : tid) (Q Q' : list tid) : NoDup (t :: Q) -> exp st t <= now -> ran st0 Q0 st (t :: Q) -> turn st t Q st' Q' -> ran st0 Q0 st' Q' /\ due st' Q' ⊆ due st Q.
Proof.
  intros [Nt _]%NoDup_cons Dt [R1 R2 R3 R4] [D K (l & T & F)]. assert (due st' Q' ⊆ due st Q) as Sub by (intros u; rewrite !elem_of_due; intros [X Y]; by apply D).
  assert (due st Q ⊆ due st (t :: Q)) as Sub1 by (intros u; rewrite !elem_of_due, elem_of_cons; tauto). assert (t ∈ due st (t :: Q)) as Ht by (rewrite elem_of_due, elem_of_cons; tauto).
  assert (expired (trace st') = expired (trace st) ++ [t]) as Et by (rewrite T, expired_app; change (expired ((ET_EXPIRE, t) :: l)) with (t :: expired l); by rewrite (expired_destroy l F)).
  split; [|done]. split.
  - intros u Hu. by apply R1, Sub1, Sub.
  - intros u Hu. rewrite Et, elem_of_app, list_elem_of_singleton. destruct (R2 u Hu) as [[->|X]%elem_of_cons|[X|X]]; [tauto| |tauto|].
    + destruct (K u X); tauto.
    + right. right. rewrite T. apply elem_of_app. by left.
  - intros u. rewrite Et, elem_of_app, list_elem_of_singleton. intros [X| ->].
    + destruct (R3 u X) as [Y Z]. split; [done|]. intros V. by apply Z, Sub1, Sub.
    + split; [by apply R1|]. intros V%Sub. rewrite elem_of_due in V. tauto.
  - rewrite Et. apply NoDup_app. split; [done|]. split; [|by apply NoDup_singleton]. intros u Hu ->%list_elem_of_singleton. by destruct (R3 t Hu).
Qed.

Lemma due_length (st st' : estate) (Q Q' : list tid) : NoDup Q' -> due st' Q' ⊆ due st Q -> (length (due st' Q') <= length (due st Q))%nat.
Proof. intros N Sub. apply submseteq_length, NoDup_submseteq; [by apply NoDup_filter|done]. Qed.

Lemma run_loop (d : nat) (st0 : estate) (Q0 : list tid) (fuel : nat) : forall st Q, (length (due st Q) < fuel)%nat -> wfc st Q None None -> ran st0 Q0 st Q ->
  exists st' Q', timer_run now callback (S (S d)) fuel st = Ok st' /\ wfc st' Q' None None /\ due st' Q' = [] /\ ran st0 Q0 st' Q'.
Proof.
  induction fuel as [|fuel IH]; intros st Q Lf W R; [lia|]. cbn [timer_run]. pose proof W as [[ND L] S _ _]. destruct Q as [|t Q].
  - cbn in L. rewrite L. by exists st, [].
  - destruct L as [-> (x & Hx & _)]. unfold load. rewrite Hx. cbn [obind]. assert (exp st t = t_expire x) as Ex by (unfold exp; by rewrite Hx). destruct (Z.ltb_spec now (t_expire x)) as [Lt|Ge].
    + exists st, (t :: Q). split; [done|]. split; [done|]. split; [|done]. apply elem_of_nil_inv. intros u [Hu Le]%elem_of_due. inversion_clear S as [|? ? _ F]. rewrite Forall_forall in F. apply elem_of_cons in Hu as [->|Hu]; [lia|]. specialize (F u Hu). cbv beta in F. lia.
    + destruct (expire_turn d st t Q W) as (st1 & Q1 & -> & W1 & T1). cbn [obind]. destruct (ran_turn st0 Q0 st st1 t Q Q1 ND ltac:(lia) R T1) as [R1 Sub]. apply (IH st1 Q1); [|done|done].
      pose proof (due_length st st1 Q Q1 (proj1 (w_queue now _ _ _ _ W1)) Sub). unfold due in Lf at 1. rewrite filter_cons_True in Lf by lia. cbn [length] in Lf. unfold due in *. lia.
Qed.
End Generate.

(** The state at the start of a run: nothing has been called. *)
Lemma ran_start (now : Z) (st : estate) (Q : list tid) : trace st = [] -> ran now st Q st Q.
Proof. intros T. split; rewrite ?T; try done; [|intros t H; by apply elem_of_nil in H|constructor]. intros t [H _]%elem_of_due. by left. Qed.

(** A callback that arms its own timer for a time that has come, as [check_pings] does with
    an unregistered client whose time is up and which a module still holds. *)
Definition rearming (v : Z) (st : estate) (t : tid) (type : EventType) : list op :=
  match type with ET_EXPIRE => [TimerAdd t TT_ABSOLUTE v] | ET_DESTROY => [] end.
Definition one_timer (v r : Z) (f a : nat) (tr : list (EventType * tid)) : estate :=
  MkE {[1%positive := MkTimer None (Some None) GEN_ACTIVE r TT_ABSOLUTE v v]} (Some 1%positive) f a tr.

Lemma rearmed_turn (now v r : Z) (d f a : nat) (tr : list (EventType * tid)) : exists f' a' r',
  timer_expire now (rearming v) (S d) (one_timer v r f a tr) 1 = Ok (one_timer v r' f' a' (tr ++ [(ET_EXPIRE, 1%positive)])).
Proof. destruct f as [|f]; [exists 1%nat, (S a)|exists (S f), a]; eexists; reflexivity. Qed.

(** Then the run never returns: the restriction on the callbacks is needed. *)
Lemma rearmed_loops (now v : Z) (d : nat) : v <= now -> forall fuel r f a tr, timer_run now (rearming v) (S d) fuel (one_timer v r f a tr) = Fuel.
Proof.
  intros Le fuel. induction fuel as [|fuel IH]; intros r f a tr; [done|]. cbn [timer_run]. change (g_timer (one_timer v r f a tr)) with (Some 1%positive). cbn iota.
  change (load (one_timer v r f a tr) 1) with (Ok (MkTimer None (Some None) GEN_ACTIVE r TT_ABSOLUTE v v)). cbn [obind t_expire]. rewrite (proj2 (Z.ltb_ge now v) Le).
  destruct (rearmed_turn now v r d f a tr) as (f' & a' & r' & ->). apply IH.
Qed.

(** C33: for callbacks that arm timers only for a later time than the current one, and
    delete none while a timer is being destroyed ([well_behaved]), a run of the timers
    returns, after at most one turn for each timer that is due, and leaves a queue in
    order with nothing due.  Without the first restriction it need not return
    ([rearmed_loops]).  Every timer that was due has expired, or was deleted or given a
    later time by a callback before its turn; none that was not due expires, and none
    expires twice. *)
Theorem timer_run_fires (now : Z) (callback : estate -> tid -> EventType -> list op) (st : estate) (Q : list tid) (d fuel : nat) : well_behaved now callback -> wf now st Q None None -> trace st = [] -> (length (due now st Q) < fuel)%nat ->
  exists st' Q', timer_run now callback (S (S d)) fuel st = Ok st' /\ wf now st' Q' None None /\ Forall (fun t => now < exp st' t) Q' /\
    (forall t, t ∈ Q -> exp st t <= now -> t ∈ expired (trace st') \/ (ET_DESTROY, t) ∈ trace st' \/ t ∈ Q') /\
    (forall t, t ∈ expired (trace st') -> t ∈ Q /\ exp st t <= now) /\ NoDup (expired (trace st')).
Proof.
  intros WB W T Lf. destruct (run_loop now callback WB d st Q fuel st Q Lf W (ran_start now st Q T)) as (st' & Q' & E & W' & D & [R1 R2 R3 R4]). exists st', Q'. split; [done|]. split; [done|]. split; [|split; [|split; [|done]]].
  - apply Forall_forall. intros t Ht. assert (t ∉ due now st' Q') as N by (rewrite D; apply not_elem_of_nil). rewrite elem_of_due in N. destruct (Z.lt_ge_cases now (exp st' t)); [done|]. tauto.
  - intros t Ht Le. destruct (R2 t) as [X|[X|X]]; [by apply elem_of_due|tauto..].
  - intros t Ht. apply elem_of_due. by apply R3.
Qed.

(** Four timers at time 100, three of them due: the callback of the first arms it again and
    that of the second, which is periodic, deletes the third. *)
Definition ex_timers : gmap tid Timer :=
  <[1%positive := MkTimer (Some 2%positive) (Some None) 4 0 TT_RELATIVE 5 90]> (<[2%positive := MkTimer (Some 3%positive) (Some (Some 1%positive)) 4 0 TT_PERIODIC 7 95]>
  (<[3%positive := MkTimer (Some 4%positive) (Some (Some 2%positive)) 4 0 TT_ABSOLUTE 100 100]> (<[4%positive := MkTimer None (Some (Some 3%positive)) 4 0 TT_RELATIVE 50 150]> ∅))).
Definition ex_state : estate := MkE ex_timers (Some 1%positive) 0 0 [].
Definition ex_queue : list tid := [1; 2; 3; 4]%positive.
Definition ex_callback (st : estate) (t : tid) (type : EventType) : list op :=
  match type, t with
  | ET_EXPIRE, 1%positive => [TimerAdd 1 TT_RELATIVE 10]
  | ET_EXPIRE, 2%positive => if legal 100 st (TimerDel 3) then [TimerDel 3] else []
  | _, _ => []
  end.

Lemma ex_well_behaved : well_behaved 100 ex_callback.
Proof.
  split; [|done]. intros d st Q t W. destruct (w_mark 100 st Q _ _ W t eq_refl) as [_ [x Hx]].
  assert (flag (gh_flags x) GEN_MARKED = true) as Em by (rewrite (g_marked 100 _ _ _ _ _ (w_good 100 _ _ _ _ W t x Hx)); by apply bool_decide_eq_true).
  destruct (decide (t = 1%positive)) as [->|N1]; [|destruct (decide (t = 2%positive)) as [->|N2]].
  - split; [|done]. cbn [legal called timers]. by rewrite Hx, Em.
  - unfold ex_callback. destruct (legal 100 st (TimerDel 3)) eqn:E; [|done]. by split.
  - unfold ex_callback. by destruct t as [[t|t|]|[t|t|]|].
Qed.
Lemma ex_wf : wf 100 ex_state ex_queue None None.
Proof.
  split.
  - split; [by apply (bool_decide_unpack _)|]. cbn [lseg ex_queue ex_state timers g_timer]. by repeat (split; [reflexivity|]; eexists; split; [reflexivity|]; split; [reflexivity|]; cbn [gh_next]).
  - repeat constructor; vm_compute; congruence.
  - intros t x Hx. cbn [timers ex_state] in Hx. unfold ex_timers in Hx. repeat (apply lookup_insert_Some in Hx as [[<- <-]|[_ Hx]]; [split; [intros N; exfalso; apply N; unfold ex_queue; set_solver|reflexivity|reflexivity|by split|done|done]|]). by rewrite lookup_empty in Hx.
  - done.
Qed.
Lemma timer_run_fires_witness : exists st' Q', timer_run 100 ex_callback 2 4 ex_state = Ok st' /\ wf 100 st' Q' None None /\ Forall (fun t => 100 < exp st' t) Q' /\
    (forall t, t ∈ ex_queue -> exp ex_state t <= 100 -> t ∈ expired (trace st') \/ (ET_DESTROY, t) ∈ trace st' \/ t ∈ Q') /\
    (forall t, t ∈ expired (trace st') -> t ∈ ex_queue /\ exp ex_state t <= 100) /\ NoDup (expired (trace st')).
Proof. apply (timer_run_fires 100 ex_callback ex_state ex_queue 0 4 ex_well_behaved ex_wf eq_refl). vm_compute. lia. Defined.

(** The run itself: the first two expire, the third is destroyed unexpired. *)
Lemma ex_run : match timer_run 100 ex_callback 2 4 ex_state with Ok st' => Some (trace st', g_timer st', map (fun t => exp st' t) [1; 2; 4]%positive) | _ => None end =
  Some ([(ET_EXPIRE, 1%positive); (ET_EXPIRE, 2%positive); (ET_DESTROY, 3%positive)], Some 2%positive, [110; 107; 150]).
Proof. vm_compute. reflexivity. Qed.
