(* ===== verification/Hash.v ===== *)
(** * Names: the hash tables of [ircd/hash.c]

    Clients and channels are found by name through tables of chains.  A chain is linked
    through the clients (or channels) themselves; one that is in no chain points at
    itself.  A look-up moves what it finds to the front of its chain.  The second half is
    the table of nicknames nobody may use, which is searched by linear probing. *)

From stdpp Require Import base functions list gmap sets strings.
From Stdlib Require Import ZArith Lia Ascii.
From S2P Require Import Prelude Chattr Strings.

Local Open Scope ircu_scope.
Local Open Scope Z_scope.

(** ** The hash function *)
Definition HASHSIZE : Z := 32000.

(** [init_hash]: the table of CRC-32, put in a random order.  [ircrandom n] is the [n]th
    random number. *)
Fixpoint crc_bits (n : nat) (rand : Z) : Z :=
  match n with
  | O => rand
  | S n => crc_bits n (if Z.testbit rand 0 then Z.lxor 0xedb88320 (Z.shiftr rand 1) else Z.shiftr rand 1)
  end.
Definition crc32 : list Z := map (fun ii => crc_bits 8 (Z.of_nat ii)) (seq 0 256).

Fixpoint reorder (ircrandom : nat -> Z) (calls : nat) (rand : Z) (iis : list nat) (tab : list Z) : list Z :=
  match iis with
  | [] => tab
  | ii :: iis =>
      let '(rand, calls) := if rand =? 0 then (u32 (ircrandom calls), S calls) else (rand, calls) in
      let poly := (ii + Z.to_nat (rand mod (256 - Z.of_nat ii)))%nat in
      let jj := nth ii tab 0 in
      let tab := <[ii := nth poly tab 0]> tab in
      let tab := <[poly := jj]> tab in
      reorder ircrandom calls (Z.shiftr rand 8) iis tab
  end.
Definition init_hash (ircrandom : nat -> Z) : list Z := reorder ircrandom 0 0 (seq 0 256) crc32.

(** Reordering loses no entry of the table: whatever the random numbers are, it stays a
    table of 256 entries. *)
Lemma swap_permutation (l : list Z) (i j : nat) : (i < length l)%nat -> (j < length l)%nat -> <[j := nth i l 0]> (<[i := nth j l 0]> l) ≡ₚ l.
Proof.
  intros Hi Hj. destruct (lookup_lt_is_Some_2 l i Hi) as [x Hx]. destruct (lookup_lt_is_Some_2 l j Hj) as [y Hy]. rewrite (nth_lookup_Some l i 0 x Hx), (nth_lookup_Some l j 0 y Hy). by apply Permutation_insert_swap.
Qed.
Lemma reorder_permutation (ircrandom : nat -> Z) (iis : list nat) : forall calls rand tab, 0 <= rand -> Forall (fun ii => ii < 256)%nat iis -> length tab = 256%nat -> reorder ircrandom calls rand iis tab ≡ₚ tab.
Proof.
  induction iis as [|ii iis IH]; intros calls rand tab R F L; [done|]. inversion_clear F as [|? ? Hi F']. cbn [reorder]. destruct (if rand =? 0 then _ else _) as [rand' calls'] eqn:E.
  assert (0 <= rand') as R' by (destruct (rand =? 0); injection E as <- <-; [apply u32_bounds|done]). pose proof (Z.mod_pos_bound rand' (256 - Z.of_nat ii) ltac:(lia)).
  rewrite IH; [|by apply Z.shiftr_nonneg|done|by rewrite !length_insert]. apply swap_permutation; lia.
Qed.
Lemma init_hash_permutation (ircrandom : nat -> Z) : init_hash ircrandom ≡ₚ crc32 /\ length (init_hash ircrandom) = 256%nat.
Proof.
  assert (init_hash ircrandom ≡ₚ crc32) as P by (apply reorder_permutation; [done|apply Forall_forall; intros i [_ Hi]%elem_of_seq; done|done]). split; [done|]. by rewrite P.
Qed.

Abbreviation nid := positive.

Section Table.
Context (crc32hash : list Z).

Definition crc_at (z : Z) : Z := nth (Z.to_nat (Z.land z 255)) crc32hash 0.
Fixpoint strhash_loop (hash : Z) (n : list ascii) : Z :=
  match n with
  | [] => hash
  | c :: n => strhash_loop (Z.lxor (Z.shiftr hash 8) (crc_at (Z.lxor hash (uchar (ToLower c))))) n
  end.
(** The first character is taken for granted: the hash of an empty string reads the byte
    behind it. *)
Definition strhash (n : list ascii) : outcome Z :=
  match n with
  | [] => Oob
  | c :: n => Ok (strhash_loop (crc_at (uchar (ToLower c))) n mod HASHSIZE)
  end.

(** The hash of the name a client or channel has: that of a client without one is the hash of
    an array that [alloc_client] cleared, and no caller empties a name again. *)
Definition own_hash (n : list ascii) : outcome Z :=
  match n with
  | [] => Ok (crc_at (uchar (ToLower NUL)) mod HASHSIZE)
  | _ => strhash n
  end.

(** ** The chains *)
Record node : Type := MkNode { n_name : list ascii; n_status : Z; n_hnext : option nid }.
Record htab : Type := MkTab { nodes : gmap nid node; buckets : gmap Z nid }.

Definition load (st : htab) (c : nid) : outcome node := match nodes st !! c with Some x => Ok x | None => Oob end.
Definition set_hnext (st : htab) (c : nid) (v : option nid) : outcome htab :=
  let* x := load st c in Ok (MkTab (<[c := MkNode (n_name x) (n_status x) v]> (nodes st)) (buckets st)).
Definition set_name (st : htab) (c : nid) (n : list ascii) : outcome htab :=
  let* x := load st c in Ok (MkTab (<[c := MkNode n (n_status x) (n_hnext x)]> (nodes st)) (buckets st)).
Definition set_bucket (st : htab) (k : Z) (v : option nid) : htab := MkTab (nodes st) (partial_alter (fun _ => v) k (buckets st)).

Definition hAdd_at (st : htab) (hashv : Z) (c : nid) : outcome htab :=
  let* st := set_hnext st c (buckets st !! hashv) in Ok (set_bucket st hashv (Some c)).
Definition hAdd (st : htab) (c : nid) : outcome htab :=
  let* x := load st c in
  let* hashv := strhash (n_name x) in
  hAdd_at st hashv c.

Fixpoint rem_loop (fuel : nat) (st : htab) (tmp : option nid) (c : nid) : outcome (htab * Z) :=
  match fuel with
  | O => Fuel
  | S fuel =>
      match tmp with
      | None => Ok (st, -1)
      | Some t =>
          let* x := load st t in
          if bool_decide (n_hnext x = Some c) then
            let* y := load st c in
            let* st := set_hnext st t (n_hnext y) in
            let* st := set_hnext st c (Some c) in
            Ok (st, 0)
          else rem_loop fuel st (n_hnext x) c
      end
  end.
Definition hRem (st : htab) (c : nid) : outcome (htab * Z) :=
  let* x := load st c in
  let* hashv := own_hash (n_name x) in
  if bool_decide (buckets st !! hashv = Some c) then
    let* st := set_hnext (set_bucket st hashv (n_hnext x)) c (Some c) in
    Ok (st, 0)
  else rem_loop (S (size (nodes st))) st (buckets st !! hashv) c.

Fixpoint seek_loop (fuel : nat) (st : htab) (ok : node -> bool) (name : list ascii) (hashv : Z) (prev : nid) : outcome (htab * option nid) :=
  match fuel with
  | O => Fuel
  | S fuel =>
      let* p := load st prev in
      match n_hnext p with
      | None => Ok (st, None)
      | Some c =>
          let* x := load st c in
          if ok x && (ircd_strcmp name (n_name x) =? 0) then
            let* st := set_hnext st prev (n_hnext x) in
            let* st := set_hnext st c (buckets st !! hashv) in
            Ok (set_bucket st hashv (Some c), Some c)
          else seek_loop fuel st ok name hashv c
      end
  end.
Definition hSeek (st : htab) (ok : node -> bool) (name : list ascii) : outcome (htab * option nid) :=
  let* hashv := strhash name in
  match buckets st !! hashv with
  | None => Ok (st, None)
  | Some c =>
      let* x := load st c in
      if negb (ok x) || negb (ircd_strcmp name (n_name x) =? 0) then seek_loop (S (size (nodes st))) st ok name hashv c
      else Ok (st, Some c)
  end.

(** Clients are filtered by their status, channels are not. *)
Definition has_status (TMask : Z) (x : node) : bool := negb (Z.land (n_status x) TMask =? 0).
Definition hAddClient : htab -> nid -> outcome htab := hAdd.
Definition hRemClient : htab -> nid -> outcome (htab * Z) := hRem.
Definition hSeekClient (st : htab) (name : list ascii) (TMask : Z) : outcome (htab * option nid) := hSeek st (has_status TMask) name.
Definition hAddChannel : htab -> nid -> outcome htab := hAdd.
Definition hRemChannel : htab -> nid -> outcome (htab * Z) := hRem.
Definition hSeekChannel (st : htab) (name : list ascii) : outcome (htab * option nid) := hSeek st (fun _ => true) name.

Definition hChangeClient (st : htab) (c : nid) (newname : list ascii) : outcome htab :=
  let* newhash := strhash newname in
  let* (st, _) := hRemClient st c in
  hAdd_at st newhash c.

(** The callers: [set_nick_name] of [s_user.c] and [mr_server] of [m_server.c]. *)
Definition change_nick (st : htab) (c : nid) (nick : list ascii) : outcome htab :=
  let* x := load st c in
  let* st := match n_name x with [] => Ok st | _ => let* (st, _) := hRemClient st c in Ok st end in
  let* st := set_name st c nick in
  hAddClient st c.

Definition HOSTLEN : nat := 63.
Definition STAT_HANDSHAKE : Z := 0x002.
Definition unknown_or_handshake (x : node) : bool := negb (Z.land (n_status x) 0x338 =? 0) || (n_status x =? STAT_HANDSHAKE).
Definition change_server (st : htab) (c : nid) (host : list ascii) : outcome htab :=
  let* x := load st c in
  let* st := if negb (bool_decide (n_name x = [])) && unknown_or_handshake x && negb (ircd_strcmp (n_name x) host =? 0) then hChangeClient st c host else Ok st in
  set_name st c (take HOSTLEN host).

(** ** The chains as lists *)
Fixpoint seg (h : gmap nid node) (p : option nid) (Q : list nid) (q : option nid) : Prop :=
  match Q with
  | [] => p = q
  | c :: Q => p = Some c /\ exists x, h !! c = Some x /\ seg h (n_hnext x) Q q
  end.

Lemma hseg_app (h : gmap nid node) (A B : list nid) (q : option nid) : forall p, seg h p (A ++ B) q <-> exists r, seg h p A r /\ seg h r B q.
Proof.
  induction A as [|a A IH]; intros p; cbn [app seg]; [split; [by exists p|by intros (r & -> & H)]|]. split.
  - intros [-> (x & Hx & (r & H1 & H2)%IH)]. exists r. split; [|done]. split; [done|]. by exists x.
  - intros (r & [-> (x & Hx & H1)] & H2). split; [done|]. exists x. split; [done|]. apply IH. by exists r.
Qed.
Lemma hseg_ext (h h' : gmap nid node) (Q : list nid) (q : option nid) : forall p, (forall c, c ∈ Q -> option_map n_hnext (h' !! c) = option_map n_hnext (h !! c)) -> seg h p Q q -> seg h' p Q q.
Proof.
  induction Q as [|c Q IH]; intros p E H; [done|]. destruct H as [-> (x & Hx & H)]. split; [done|]. pose proof (E c ltac:(left)) as Ec. rewrite Hx in Ec. destruct (h' !! c) as [y|] eqn:Hy; [|done]. injection Ec as Ec.
  exists y. split; [done|]. rewrite Ec. apply IH; [|done]. intros d Hd. apply E. by right.
Qed.
Lemma hseg_other (h : gmap nid node) (Q : list nid) (c : nid) (x : node) (p q : option nid) : c ∉ Q -> seg h p Q q -> seg (<[c := x]> h) p Q q.
Proof. intros N. apply hseg_ext. intros d Hd. rewrite lookup_insert_ne; [done|]. by intros ->. Qed.
Lemma hseg_elem (h : gmap nid node) (Q : list nid) (q : option nid) (c : nid) : forall p, seg h p Q q -> c ∈ Q -> is_Some (h !! c).
Proof. induction Q as [|d Q IH]; intros p H Hc; [by apply elem_of_nil in Hc|]. destruct H as [_ (x & Hx & H)]. apply elem_of_cons in Hc as [->|Hc]; [by exists x|by apply (IH _ H)]. Qed.
Lemma hseg_size (h : gmap nid node) (Q : list nid) (p q : option nid) : NoDup Q -> seg h p Q q -> (length Q <= size h)%nat.
Proof.
  intros N C. assert (list_to_set Q ⊆ dom h) as S by (intros b Hb; apply elem_of_list_to_set in Hb; apply elem_of_dom; by apply (hseg_elem h Q q b p)).
  apply subseteq_size in S. by rewrite size_dom, size_list_to_set in S.
Qed.

Definition info (x : node) : list ascii * Z := (n_name x, n_status x).
Definition same_info (st st' : htab) : Prop := forall c, option_map info (nodes st' !! c) = option_map info (nodes st !! c).

Lemma same_info_refl (st : htab) : same_info st st.
Proof. done. Qed.
Lemma same_info_trans (a b c : htab) : same_info a b -> same_info b c -> same_info a c.
Proof. intros H1 H2 d. by rewrite H2. Qed.

Lemma load_ok (st : htab) (c : nid) (x : node) : nodes st !! c = Some x -> load st c = Ok x.
Proof. intros H. unfold load. by rewrite H. Qed.

(** Writing the link of a node. *)
Lemma set_hnext_ok (st : htab) (c : nid) (x : node) (v : option nid) : nodes st !! c = Some x ->
  exists st', set_hnext st c v = Ok st' /\ nodes st' = <[c := MkNode (n_name x) (n_status x) v]> (nodes st) /\ buckets st' = buckets st /\ same_info st st'.
Proof.
  intros H. unfold set_hnext. rewrite (load_ok st c x H). eexists. split; [done|]. split; [done|]. split; [done|]. intros d. cbn [nodes]. destruct (decide (d = c)) as [->|N]; [by rewrite lookup_insert_eq, H|by rewrite lookup_insert_ne].
Qed.
(** ... when it is the last of a stretch. *)
Lemma seg_last (h : gmap nid node) (p q v : option nid) (A : list nid) (t : nid) (x : node) : t ∉ A -> h !! t = Some x -> seg h p (A ++ [t]) q -> seg (<[t := MkNode (n_name x) (n_status x) v]> h) p (A ++ [t]) v.
Proof.
  intros N Hx (r & H1 & -> & _)%hseg_app. apply hseg_app. exists (Some t). split; [by apply hseg_other|]. split; [done|]. eexists. by rewrite lookup_insert_eq.
Qed.

(** [ch k] is the chain of bucket [k]. *)
Record wf (st : htab) (ch : Z -> list nid) : Prop := {
  w_nodup : forall k, NoDup (ch k);
  w_seg : forall k, seg (nodes st) (buckets st !! k) (ch k) None;
  w_hash : forall k c x, c ∈ ch k -> nodes st !! c = Some x -> strhash (n_name x) = Ok k /\ no_nul (n_name x)
}.

Lemma wf_node (st : htab) (ch : Z -> list nid) (k : Z) (c : nid) : wf st ch -> c ∈ ch k -> exists x, nodes st !! c = Some x.
Proof. intros W H. by apply (hseg_elem _ _ _ c _ (w_seg st ch W k)). Qed.
Lemma wf_bucket (st : htab) (ch : Z -> list nid) (k k' : Z) (c : nid) : wf st ch -> c ∈ ch k -> c ∈ ch k' -> k = k'.
Proof. intros W H H'. destruct (wf_node st ch k c W H) as [x Hx]. destruct (w_hash st ch W k c x H Hx) as [E _]. destruct (w_hash st ch W k' c x H' Hx) as [E' _]. congruence. Qed.

(** Rebuilding one chain. *)
Lemma wf_replace (st st' : htab) (ch : Z -> list nid) (k : Z) (Q : list nid) : wf st ch -> same_info st st' -> (forall k', k' <> k -> buckets st' !! k' = buckets st !! k') ->
  (forall k' t, k' <> k -> t ∈ ch k' -> nodes st' !! t = nodes st !! t) -> NoDup Q -> seg (nodes st') (buckets st' !! k) Q None ->
  (forall t x, t ∈ Q -> nodes st !! t = Some x -> strhash (n_name x) = Ok k /\ no_nul (n_name x)) -> wf st' (<[k := Q]> ch).
Proof.
  intros W I B O N S H. split; intros k'; destruct (decide (k' = k)) as [->|Nk]; rewrite ?fn_lookup_insert, ?fn_lookup_insert_ne by done.
  - done.
  - by apply W.
  - done.
  - rewrite B by done. apply hseg_ext with (nodes st); [|by apply W]. intros c Hc. by rewrite (O k').
  - intros c y Hc Hy. specialize (I c). rewrite Hy in I. destruct (nodes st !! c) as [x|] eqn:Hx; [|done]. injection I as En _. rewrite En. by apply (H c).
  - intros c y Hc Hy. rewrite (O k') in Hy by done. by apply (w_hash st ch W k' c).
Qed.

Definition free_of (ch : Z -> list nid) (c : nid) : Prop := forall k, c ∉ ch k.

Lemma buckets_set (st : htab) (k k' : Z) (v : option nid) : buckets (set_bucket st k v) !! k' = if decide (k' = k) then v else buckets st !! k'.
Proof. cbn [set_bucket buckets]. destruct (decide (k' = k)) as [->|N]; [by rewrite lookup_partial_alter_eq|by rewrite lookup_partial_alter_ne]. Qed.

Lemma hAdd_at_spec (st : htab) (ch : Z -> list nid) (k : Z) (c : nid) (x : node) : wf st ch -> free_of ch c -> nodes st !! c = Some x -> strhash (n_name x) = Ok k -> no_nul (n_name x) ->
  exists st', hAdd_at st k c = Ok st' /\ wf st' (<[k := c :: ch k]> ch) /\ same_info st st'.
Proof.
  intros W F Hx Hk Nn. unfold hAdd_at. destruct (set_hnext_ok st c x (buckets st !! k) Hx) as (st1 & -> & En & Eb & I). cbn [obind]. eexists. split; [done|]. split; [|done]. apply (wf_replace st _ ch k (c :: ch k) W); [done|..].
  - intros k' N. rewrite buckets_set, decide_False by done. by rewrite Eb.
  - intros k' t N Ht. cbn [set_bucket nodes]. rewrite En, lookup_insert_ne; [done|]. intros ->. by apply (F k').
  - apply NoDup_cons. split; [apply F|apply W].
  - rewrite buckets_set, decide_True by done. cbn [set_bucket nodes seg]. split; [done|]. eexists. rewrite En, lookup_insert_eq. split; [done|]. cbn [n_hnext]. apply hseg_other; [apply F|apply W].
  - intros t y Ht Hy. apply elem_of_cons in Ht as [->|Ht]; [rewrite Hx in Hy; by injection Hy as <-|by apply (w_hash st ch W k t)].
Qed.

(** Cutting [c] out from behind [t]. *)
Lemma hcut_spec (st : htab) (p : option nid) (A B : list nid) (t c : nid) (v : option nid) : NoDup (A ++ t :: c :: B) -> seg (nodes st) p (A ++ t :: c :: B) None ->
  exists y st1 st2, nodes st !! c = Some y /\ set_hnext st t (n_hnext y) = Ok st1 /\ set_hnext st1 c v = Ok st2 /\ buckets st1 = buckets st /\ buckets st2 = buckets st /\ same_info st st2 /\
    seg (nodes st2) p (A ++ t :: B) None /\ option_map n_hnext (nodes st2 !! c) = Some v /\ (forall d, d ∉ [t; c] -> nodes st2 !! d = nodes st !! d).
Proof.
  intros ND S. replace (A ++ t :: c :: B) with ((A ++ [t]) ++ c :: B) in * by (by rewrite <- app_assoc). pose proof S as (r & S1 & -> & y & Hy & S2)%hseg_app.
  pose proof S1 as (r' & _ & [-> (x & Hx & _)])%hseg_app. exists y. apply NoDup_app in ND as (N1 & N12 & [Nc NB]%NoDup_cons). apply NoDup_app in N1 as (_ & NA & _).
  assert (t ∉ A) as NtA by (intros X; apply (NA t X); left). assert (t ∈ A ++ [t]) as Tin by (apply elem_of_app; right; left). assert (t <> c) as Ntc by (intros ->; apply (N12 c Tin); left).
  destruct (set_hnext_ok st t x (n_hnext y) Hx) as (st1 & E1 & En1 & Eb1 & I1). destruct (set_hnext_ok st1 c y v) as (st2 & E2 & En2 & Eb2 & I2); [rewrite En1; by rewrite lookup_insert_ne|].
  exists st1, st2. split; [done|]. split; [done|]. split; [done|]. split; [done|]. split; [congruence|]. split; [by apply (same_info_trans st st1 st2)|]. split; [|split].
  - rewrite En2. apply hseg_other; [rewrite elem_of_app, elem_of_cons; intros [X|[->|X]]; [apply (N12 c); [apply elem_of_app; by left|left]|done|done]|]. rewrite En1.
    replace (A ++ t :: B) with ((A ++ [t]) ++ B) by (by rewrite <- app_assoc). apply hseg_app. exists (n_hnext y). split; [by apply seg_last with (Some c)|]. apply hseg_other; [|done]. intros X. apply (N12 t Tin). by right.
  - rewrite En2, lookup_insert_eq. done.
  - intros d Nd. rewrite !elem_of_cons in Nd. rewrite En2, lookup_insert_ne, En1, lookup_insert_ne; [done|intros ->; tauto..].
Qed.

Lemma rem_loop_spec (c : nid) (B : list nid) (st : htab) : forall A t fuel p, NoDup (A ++ t :: B) -> seg (nodes st) p (A ++ t :: B) None -> c ∉ A ++ [t] -> (S (length B) < fuel)%nat ->
  (c ∉ B /\ rem_loop fuel st (Some t) c = Ok (st, -1)) \/
  exists A' t' B', A ++ t :: B = A' ++ t' :: c :: B' /\ rem_loop fuel st (Some t) c = (let* y := load st c in let* st := set_hnext st t' (n_hnext y) in let* st := set_hnext st c (Some c) in Ok (st, 0)).
Proof.
  induction B as [|b B IH]; intros A t fuel p ND S Nc Lf; (destruct fuel as [|fuel]; [cbn in Lf; lia|]); pose proof S as (r & _ & [-> (x & Hx & S2)])%hseg_app; cbn [rem_loop]; rewrite (load_ok st t x Hx); cbn [obind]; cbn [seg] in S2.
  - rewrite S2. rewrite bool_decide_false by done. left. split; [apply not_elem_of_nil|]. destruct fuel; [cbn in Lf; lia|done].
  - destruct S2 as [E S2]. rewrite E. destruct (decide (b = c)) as [->|N].
    + rewrite bool_decide_true by done. right. by exists A, t, B.
    + rewrite bool_decide_false by congruence. replace (A ++ t :: b :: B) with ((A ++ [t]) ++ b :: B) in * by (by rewrite <- app_assoc).
      destruct (IH (A ++ [t]) b fuel p ND S) as [[N' E']|(A' & t' & B' & E' & E2)]; [rewrite elem_of_app, list_elem_of_singleton; naive_solver|cbn in Lf; lia| |].
      * left. split; [|done]. rewrite elem_of_cons. naive_solver.
      * right. by exists A', t', B'.
Qed.

Lemma own_hash_some (n : list ascii) (k : Z) : strhash n = Ok k -> own_hash n = Ok k.
Proof. by destruct n. Qed.

(** [hRem] of a registered node takes it out of its chain; of any other it does nothing. *)
Lemma hRem_in (st : htab) (ch : Z -> list nid) (k : Z) (c : nid) : wf st ch -> c ∈ ch k -> exists st' Q, hRem st c = Ok (st', 0) /\ ch k ≡ₚ c :: Q /\ wf st' (<[k := Q]> ch) /\ same_info st st'.
Proof.
  intros W Hc. destruct (wf_node st ch k c W Hc) as [x Hx]. destruct (w_hash st ch W k c x Hc Hx) as [Hk Nn]. unfold hRem. rewrite (load_ok st c x Hx). cbn [obind]. rewrite (own_hash_some _ _ Hk). cbn [obind].
  pose proof (w_seg st ch W k) as S. pose proof (w_nodup st ch W k) as ND. pose proof (hseg_size _ _ _ _ ND S) as Ls. destruct (ch k) as [|t Q] eqn:Ech; [by apply elem_of_nil in Hc|]. pose proof S as [E (xt & Hxt & S2)].
  assert (forall d, d ∈ t :: Q -> forall k', k' <> k -> d ∉ ch k') as Dis by (intros d Hd k' N X; apply N; apply (wf_bucket st ch k' k d W X); by rewrite Ech).
  assert (forall d y, d ∈ t :: Q -> nodes st !! d = Some y -> strhash (n_name y) = Ok k /\ no_nul (n_name y)) as Hh by (intros d y Hd; apply (w_hash st ch W); by rewrite Ech).
  rewrite E. destruct (decide (t = c)) as [->|N].
  - rewrite bool_decide_true by done. rewrite Hx in Hxt. injection Hxt as <-. apply NoDup_cons in ND as [Nc ND]. destruct (set_hnext_ok (set_bucket st k (n_hnext x)) c x (Some c) Hx) as (st1 & -> & En & Eb & I). cbn [obind].
    exists st1, Q. split; [done|]. split; [done|]. split; [|done]. apply (wf_replace st st1 ch k Q W); [done|..].
    + intros k' Nk. rewrite Eb, buckets_set. by rewrite decide_False.
    + intros k' d Nk Hd. rewrite En, lookup_insert_ne; [done|]. intros <-. by apply (Dis c ltac:(left) k').
    + done.
    + rewrite Eb, buckets_set, decide_True by done. rewrite En. by apply hseg_other.
    + intros d y Hd. apply Hh. by right.
  - rewrite bool_decide_false by congruence. rewrite E in S. destruct (rem_loop_spec c Q st [] t (Datatypes.S (size (nodes st))) (Some t) ND S) as [[Nc _]|(A & t' & B & EQ & ->)]; [cbn; rewrite list_elem_of_singleton; naive_solver|cbn in Ls; lia|set_solver|].
    cbn [app] in EQ. rewrite EQ in *. destruct (hcut_spec st (Some t) A B t' c (Some c) ND S) as (y & st1 & st2 & Hy & E1 & E2 & Eb1 & Eb2 & I2 & S' & _ & O). rewrite (load_ok st c y Hy). cbn [obind]. rewrite E1. cbn [obind]. rewrite E2. cbn [obind].
    exists st2, (A ++ t' :: B). split; [done|]. split; [solve_Permutation|]. split; [|done]. apply (wf_replace st st2 ch k _ W); [done|..].
    + intros k' Nk. by rewrite Eb2.
    + intros k' d Nk Hd. apply O. intros X. apply (Dis d) with k'; [|done|done]. clear -X. set_solver.
    + assert (A ++ t' :: c :: B ≡ₚ c :: A ++ t' :: B) as P by solve_Permutation. rewrite P in ND. by apply NoDup_cons in ND as [_ ND].
    + rewrite Eb2, E. done.
    + intros d z Hd. apply Hh. rewrite !elem_of_app, !elem_of_cons in *. tauto.
Qed.
Lemma hRem_out (st : htab) (ch : Z -> list nid) (c : nid) (x : node) : wf st ch -> free_of ch c -> nodes st !! c = Some x -> hRem st c = Ok (st, -1).
Proof.
  intros W F Hx. unfold hRem. rewrite (load_ok st c x Hx). cbn [obind]. assert (exists k, own_hash (n_name x) = Ok k) as [k ->] by (destruct (n_name x); by eexists). cbn [obind]. pose proof (w_seg st ch W k) as S. pose proof (w_nodup st ch W k) as ND. specialize (F k).
  pose proof (hseg_size _ _ _ _ ND S) as Ls. destruct (ch k) as [|t Q]; [cbn in S; by rewrite S|]. pose proof S as [E _]. rewrite E in *. rewrite bool_decide_false by (intros [= ->]; apply F; left).
  destruct (rem_loop_spec c Q st [] t (Datatypes.S (size (nodes st))) (Some t) ND S) as [[_ E']|(A & t' & B & EQ & _)]; [cbn; set_solver|cbn in Ls; lia|exact E'|]. exfalso. apply F. cbn in EQ. rewrite EQ, elem_of_app, !elem_of_cons. tauto.
Qed.

(** What a look-up accepts. *)
Definition hit (st : htab) (ok : node -> bool) (name : list ascii) (c : nid) : Prop := exists x, nodes st !! c = Some x /\ ok x = true /\ fold name = fold (n_name x).

Lemma hit_dec (st : htab) (ok : node -> bool) (name : list ascii) (c : nid) (x : node) : no_nul name -> no_nul (n_name x) -> nodes st !! c = Some x ->
  if ok x && (ircd_strcmp name (n_name x) =? 0) then hit st ok name c else ~ hit st ok name c.
Proof.
  intros N1 N2 Hx. destruct (ok x) eqn:Eo; cbn [andb]; [|intros (y & Hy & Ey & _); congruence]. pose proof (ircd_strcmp_zero name (n_name x) N1 N2) as Z. destruct (Z.eqb_spec (ircd_strcmp name (n_name x)) 0) as [E|E].
  - exists x. split; [done|]. split; [done|]. by apply Z.
  - intros (y & Hy & _ & Ey). rewrite Hx in Hy. injection Hy as <-. by apply E, Z.
Qed.

Lemma seek_loop_spec (ok : node -> bool) (name : list ascii) (k : Z) (B : list nid) (st : htab) : no_nul name -> forall A t fuel p, NoDup (A ++ t :: B) -> seg (nodes st) p (A ++ t :: B) None ->
  (forall d x, d ∈ B -> nodes st !! d = Some x -> no_nul (n_name x)) -> (length B < fuel)%nat ->
  (Forall (fun d => ~ hit st ok name d) B /\ seek_loop fuel st ok name k t = Ok (st, None)) \/
  exists A' t' c B', A ++ t :: B = A' ++ t' :: c :: B' /\ hit st ok name c /\
    seek_loop fuel st ok name k t = (let* y := load st c in let* st := set_hnext st t' (n_hnext y) in let* st := set_hnext st c (buckets st !! k) in Ok (set_bucket st k (Some c), Some c)).
Proof.
  intros Nn. induction B as [|b B IH]; intros A t fuel p ND S Hn Lf; (destruct fuel as [|fuel]; [cbn in Lf; lia|]); pose proof S as (r & _ & [-> (x & Hx & S2)])%hseg_app; cbn [seek_loop]; rewrite (load_ok st t x Hx); cbn [obind]; cbn [seg] in S2.
  - rewrite S2. left. by split.
  - destruct S2 as [E (y & Hy & S2)]. rewrite E, (load_ok st b y Hy). cbn [obind]. pose proof (hit_dec st ok name b y Nn (Hn b y ltac:(left) Hy) Hy) as D. destruct (ok y && _).
    + right. exists A, t, b, B. split; [done|]. split; [done|]. rewrite (load_ok st b y Hy). done.
    + replace (A ++ t :: b :: B) with ((A ++ [t]) ++ b :: B) in * by (by rewrite <- app_assoc). destruct (IH (A ++ [t]) b fuel p ND S) as [[F E']|H]; [intros d z Hd; apply Hn; by right|cbn in Lf; lia| |].
      * left. split; [by constructor|done].
      * by right.
Qed.

(** A look-up finds a node of the name if there is one, and only reorders its chain. *)
Lemma hSeek_spec (st : htab) (ch : Z -> list nid) (ok : node -> bool) (name : list ascii) (k : Z) : wf st ch -> strhash name = Ok k -> no_nul name ->
  exists st' r Q, hSeek st ok name = Ok (st', r) /\ wf st' (<[k := Q]> ch) /\ ch k ≡ₚ Q /\ same_info st st' /\
    match r with Some c => c ∈ ch k /\ hit st ok name c | None => Forall (fun c => ~ hit st ok name c) (ch k) end.
Proof.
  intros W Hk Nn. unfold hSeek. rewrite Hk. cbn [obind]. pose proof (w_seg st ch W k) as S. pose proof (w_nodup st ch W k) as ND. pose proof (hseg_size _ _ _ _ ND S) as Ls.
  assert (wf st (<[k := ch k]> ch)) as W0 by (apply (wf_replace st st ch k (ch k) W); [done..|intros t x; by apply W]).
  destruct (ch k) as [|t Q] eqn:Ech; [cbn in S; rewrite S; by exists st, None, []|]. pose proof S as [E (x & Hx & S2)]. rewrite E. cbn [obind]. rewrite (load_ok st t x Hx). cbn [obind].
  assert (forall d y, d ∈ t :: Q -> nodes st !! d = Some y -> strhash (n_name y) = Ok k /\ no_nul (n_name y)) as Hh by (intros d y Hd; apply (w_hash st ch W); by rewrite Ech).
  pose proof (hit_dec st ok name t x Nn (proj2 (Hh t x ltac:(left) Hx)) Hx) as D. rewrite <- negb_andb. destruct (ok x && _); cbn [negb].
  - exists st, (Some t), (t :: Q). split; [done|]. split; [done|]. split; [done|]. split; [done|]. split; [left|done].
  - rewrite E in S. destruct (seek_loop_spec ok name k Q st Nn [] t (Datatypes.S (size (nodes st))) (Some t) ND S) as [[F ->]|(A & t' & c & B & EQ & Hc & ->)]; [intros d y Hd; apply Hh; by right|cbn in Ls; lia| |].
    { exists st, None, (t :: Q). split; [done|]. split; [done|]. split; [done|]. split; [done|]. by constructor. }
    cbn [app] in EQ. rewrite EQ in *. destruct (hcut_spec st (Some t) A B t' c (buckets st !! k) ND S) as (y & st1 & st2 & Hy & E1 & E2 & Eb1 & Eb2 & I2 & S' & Ec & O). rewrite (load_ok st c y Hy). cbn [obind]. rewrite E1. cbn [obind]. rewrite Eb1, E2. cbn [obind].
    exists (set_bucket st2 k (Some c)), (Some c), (c :: A ++ t' :: B). assert (A ++ t' :: c :: B ≡ₚ c :: A ++ t' :: B) as P by solve_Permutation. split; [done|]. split; [|split; [done|split; [done|split; [rewrite P; left|done]]]].
    apply (wf_replace st _ ch k _ W); [done|..].
    + intros k' Nk. rewrite buckets_set, decide_False by done. by rewrite Eb2.
    + intros k' d Nk Hd. apply O. intros X. apply Nk, (wf_bucket st ch k' k d W Hd). rewrite Ech. clear -X. set_solver.
    + by rewrite <- P.
    + rewrite buckets_set, decide_True by done. cbn [set_bucket nodes seg]. split; [done|]. destruct (nodes st2 !! c) as [z|]; [|done]. injection Ec as Ec. exists z. split; [done|]. rewrite Ec, E. exact S'.
    + intros d z Hd. apply Hh. rewrite P. done.
Qed.

(** ** The table as a set of names

    What can happen to the clients (or channels): one is made, entered, looked up, taken
    out, renamed or freed. *)
Inductive hop : Type :=
| New (c : nid) (name : list ascii) (status : Z)
| Add (c : nid)
| Rem (c : nid)
| Nick (c : nid) (nick : list ascii)
| Server (c : nid) (host : list ascii)
| Seek (name : list ascii) (TMask : Z)
| Free (c : nid).
Definition run_hop (st : htab) (o : hop) : outcome htab :=
  match o with
  | New c name status => Ok (MkTab (<[c := MkNode name status (Some c)]> (nodes st)) (buckets st))
  | Add c => hAddClient st c
  | Rem c => let* (st, _) := hRemClient st c in Ok st
  | Nick c nick => change_nick st c nick
  | Server c host => change_server st c host
  | Seek name TMask => let* (st, _) := hSeekClient st name TMask in Ok st
  | Free c => Ok (MkTab (delete c (nodes st)) (buckets st))
  end.
Fixpoint run_hops (st : htab) (ops : list hop) : outcome htab :=
  match ops with [] => Ok st | o :: ops => let* st := run_hop st o in run_hops st ops end.

(** The specification: who there is, and whether he can be found.  An operation that breaks
    the rules of its callers has no meaning. *)
Record person : Type := MkPerson { p_name : list ascii; p_status : Z; p_in : bool }.
Definition valid (n : list ascii) : bool := bool_decide (n <> []) && bool_decide (NUL ∉ n).
Definition awaiting (status : Z) : bool := negb (Z.land status 0x338 =? 0) || (status =? STAT_HANDSHAKE).
Definition spec_hop (A : gmap nid person) (o : hop) : option (gmap nid person) :=
  match o with
  | New c name status => match A !! c with None => Some (<[c := MkPerson name status false]> A) | Some _ => None end
  | Add c => match A !! c with Some (MkPerson n s false) => if valid n then Some (<[c := MkPerson n s true]> A) else None | _ => None end
  | Rem c => match A !! c with Some (MkPerson n s _) => Some (<[c := MkPerson n s false]> A) | None => None end
  | Nick c nick => match A !! c with Some (MkPerson _ s _) => if valid nick then Some (<[c := MkPerson nick s true]> A) else None | None => None end
  | Server c host =>
      match A !! c with
      | Some (MkPerson n s b) => if valid host && (length host <=? HOSTLEN)%nat && (bool_decide (n = []) || (b && awaiting s)) then Some (<[c := MkPerson host s b]> A) else None
      | None => None
      end
  | Seek name _ => if valid name then Some A else None
  | Free c => match A !! c with Some (MkPerson _ _ false) => Some (delete c A) | _ => None end
  end.
Fixpoint spec_hops (A : gmap nid person) (ops : list hop) : option (gmap nid person) :=
  match ops with [] => Some A | o :: ops => match spec_hop A o with Some A => spec_hops A ops | None => None end end.

Definition p_info (a : person) : list ascii * Z := (p_name a, p_status a).
Record rep (st : htab) (A : gmap nid person) (ch : Z -> list nid) : Prop := {
  r_wf : wf st ch;
  r_info : forall c, option_map info (nodes st !! c) = option_map p_info (A !! c);
  r_in : forall c, (exists k, c ∈ ch k) <-> exists a, A !! c = Some a /\ p_in a = true
}.

Lemma valid_spec (n : list ascii) : valid n = true <-> n <> [] /\ no_nul n.
Proof. unfold valid, no_nul. by rewrite andb_true_iff, !bool_decide_eq_true. Qed.
Lemma valid_hash (n : list ascii) : valid n = true -> exists k, strhash n = Ok k.
Proof. intros [Ne _]%valid_spec. destruct n; [done|]. by eexists. Qed.

Lemma rep_node (st : htab) (A : gmap nid person) (ch : Z -> list nid) (c : nid) (n : list ascii) (s : Z) (b : bool) : rep st A ch -> A !! c = Some (MkPerson n s b) ->
  exists x, nodes st !! c = Some x /\ n_name x = n /\ n_status x = s /\ (if b then exists k, c ∈ ch k else free_of ch c).
Proof.
  intros [W I R] H. specialize (I c). rewrite H in I. destruct (nodes st !! c) as [x|]; [|done]. injection I as En Es. exists x. split; [done|]. split; [done|]. split; [done|]. destruct b.
  - apply R. by eexists.
  - intros k Hk. destruct (proj1 (R c)) as (a & Ha & Ea); [by exists k|]. rewrite H in Ha. by injection Ha as <-.
Qed.

(** A node nobody can find may be written and freed. *)
Lemma wf_outside (st : htab) (ch : Z -> list nid) (c : nid) (h : gmap nid node) : wf st ch -> free_of ch c -> (forall d, d <> c -> h !! d = nodes st !! d) -> wf (MkTab h (buckets st)) ch.
Proof.
  intros W F E. assert (forall k d, d ∈ ch k -> h !! d = nodes st !! d) as E' by (intros k d Hd; apply E; intros ->; by apply (F k)). split; cbn [nodes buckets]; [apply W|..].
  - intros k. apply hseg_ext with (nodes st); [|apply W]. intros d Hd. by rewrite (E' k).
  - intros k d x Hd Hx. rewrite (E' k) in Hx by done. by apply (w_hash st ch W k d).
Qed.

(** The relation after one person changed. *)
Lemma rep_insert (st st' : htab) (A : gmap nid person) (ch ch' : Z -> list nid) (c : nid) (a : person) : rep st A ch -> wf st' ch' -> (forall d, d <> c -> option_map info (nodes st' !! d) = option_map info (nodes st !! d)) ->
  option_map info (nodes st' !! c) = Some (p_info a) -> (forall d, d <> c -> (exists k, d ∈ ch' k) <-> exists k, d ∈ ch k) -> ((exists k, c ∈ ch' k) <-> p_in a = true) -> rep st' (<[c := a]> A) ch'.
Proof.
  intros [W I R] W' Id Ic Cd Cc. split; [done|..]; intros d; (destruct (decide (d = c)) as [->|N]; [rewrite lookup_insert_eq|rewrite lookup_insert_ne by done]).
  - done.
  - by rewrite Id.
  - rewrite Cc. split; [by exists a|]. by intros (? & [= <-] & ?).
  - rewrite Cd by done. apply R.
Qed.

(** Membership in the chains after one was replaced. *)
Lemma hchain_insert (ch : Z -> list nid) (k : Z) (Q : list nid) (d : nid) : (d ∈ Q <-> d ∈ ch k) -> (exists k', d ∈ (<[k := Q]> ch) k') <-> exists k', d ∈ ch k'.
Proof.
  intros E. split; intros [k' H]; exists k'; (destruct (decide (k' = k)) as [->|N]; [rewrite fn_lookup_insert in *|rewrite fn_lookup_insert_ne in * by done]); tauto.
Qed.

Lemma rep_rem (st : htab) (A : gmap nid person) (ch : Z -> list nid) (c : nid) (n : list ascii) (s : Z) (b : bool) : rep st A ch -> A !! c = Some (MkPerson n s b) ->
  exists st' r ch', hRem st c = Ok (st', r) /\ rep st' (<[c := MkPerson n s false]> A) ch'.
Proof.
  intros R H. pose proof (r_wf st A ch R) as W. destruct (rep_node st A ch c n s b R H) as (x & Hx & En & Es & Hb). destruct b.
  - destruct Hb as [k Hk]. destruct (hRem_in st ch k c W Hk) as (st' & Q & -> & P & W' & I). exists st', 0, (<[k := Q]> ch). split; [done|]. pose proof (w_nodup st ch W k) as ND. rewrite P in ND. apply NoDup_cons in ND as [NcQ _].
    apply (rep_insert st st' A ch _ c _ R W'); [intros d _; apply I|subst n s; by rewrite I, Hx| |].
    + intros d N. apply hchain_insert. rewrite P, elem_of_cons. naive_solver.
    + split; [|done]. intros [k' Hk']. destruct (decide (k' = k)) as [->|N]; [by rewrite fn_lookup_insert in Hk'|]. rewrite fn_lookup_insert_ne in Hk' by done. exfalso. by apply N, (wf_bucket st ch k' k c W).
  - exists st, (-1), ch. split; [apply (hRem_out st ch c x W Hb Hx)|]. assert (<[c := MkPerson n s false]> A = A) as -> by (by apply insert_id). done.
Qed.
Lemma rep_add_at (st : htab) (A : gmap nid person) (ch : Z -> list nid) (c : nid) (n : list ascii) (s k : Z) : rep st A ch -> A !! c = Some (MkPerson n s false) -> strhash n = Ok k -> no_nul n ->
  exists st' ch', hAdd_at st k c = Ok st' /\ rep st' (<[c := MkPerson n s true]> A) ch'.
Proof.
  intros R H Hk Nn. pose proof (r_wf st A ch R) as W. destruct (rep_node st A ch c n s false R H) as (x & Hx & En & Es & F). subst n s. destruct (hAdd_at_spec st ch k c x W F Hx Hk Nn) as (st' & -> & W' & I). exists st', (<[k := c :: ch k]> ch). split; [done|].
  apply (rep_insert st st' A ch _ c _ R W'); [intros d _; apply I|by rewrite I, Hx| |].
  - intros d N. apply hchain_insert. rewrite elem_of_cons. naive_solver.
  - split; [done|]. intros _. exists k. rewrite fn_lookup_insert. left.
Qed.
Lemma rep_add (st : htab) (A : gmap nid person) (ch : Z -> list nid) (c : nid) (n : list ascii) (s : Z) : rep st A ch -> A !! c = Some (MkPerson n s false) -> valid n = true ->
  exists st' ch', hAdd st c = Ok st' /\ rep st' (<[c := MkPerson n s true]> A) ch'.
Proof.
  intros R H V. destruct (valid_hash n V) as [k Hk]. apply valid_spec in V as [_ Nn]. destruct (rep_node st A ch c n s false R H) as (x & Hx & <- & _ & _). unfold hAdd. rewrite (load_ok st c x Hx). cbn [obind]. rewrite Hk. by apply (rep_add_at st A ch).
Qed.
Lemma rep_set_name (st : htab) (A : gmap nid person) (ch : Z -> list nid) (c : nid) (n m : list ascii) (s : Z) : rep st A ch -> A !! c = Some (MkPerson n s false) -> exists st', set_name st c m = Ok st' /\ rep st' (<[c := MkPerson m s false]> A) ch.
Proof.
  intros R H. destruct (rep_node st A ch c n s false R H) as (x & Hx & En & Es & F). unfold set_name. rewrite (load_ok st c x Hx). cbn [obind]. eexists. split; [done|].
  apply (rep_insert st _ A ch ch c _ R); cbn [nodes].
  - apply (wf_outside st ch c); [apply R|done|]. intros d N. by rewrite lookup_insert_ne.
  - intros d N. by rewrite lookup_insert_ne.
  - rewrite lookup_insert_eq. by subst s.
  - done.
  - split; [|done]. intros [k Hk]. by destruct (F k).
Qed.

(** The hash does not see the case of a name. *)
Lemma strhash_loop_fold (a : list ascii) : forall b h, fold a = fold b -> strhash_loop h a = strhash_loop h b.
Proof. induction a as [|c a IH]; intros [|d b] h E; try done. injection E as E1 E2. cbn [strhash_loop]. rewrite E1. by apply IH. Qed.
Lemma strhash_fold (a b : list ascii) : fold a = fold b -> strhash a = strhash b.
Proof. destruct a as [|c a], b as [|d b]; try done. intros E. injection E as E1 E2. cbn [strhash]. rewrite E1. by rewrite (strhash_loop_fold a b). Qed.

(** Renaming a node in its chain, where the names differ in case only. *)
Lemma rep_recase (st : htab) (A : gmap nid person) (ch : Z -> list nid) (c : nid) (n m : list ascii) (s : Z) : rep st A ch -> A !! c = Some (MkPerson n s true) -> fold n = fold m -> no_nul m -> exists st', set_name st c m = Ok st' /\ rep st' (<[c := MkPerson m s true]> A) ch.
Proof.
  intros R H E Nm. pose proof (r_wf st A ch R) as W. destruct (rep_node st A ch c n s true R H) as (x & Hx & En & Es & k & Hk). unfold set_name. rewrite (load_ok st c x Hx). cbn [obind]. eexists. split; [done|].
  apply (rep_insert st _ A ch ch c _ R); cbn [nodes].
  - split; cbn [nodes buckets]; [apply W|..].
    + intros k'. apply hseg_ext with (nodes st); [|apply W]. intros d _. destruct (decide (d = c)) as [->|N]; [by rewrite lookup_insert_eq, Hx|by rewrite lookup_insert_ne].
    + intros k' d y Hd Hy. destruct (decide (d = c)) as [->|N]; [|rewrite lookup_insert_ne in Hy by done; by apply (w_hash st ch W k' d)]. rewrite lookup_insert_eq in Hy. injection Hy as <-. cbn [n_name]. destruct (w_hash st ch W k' c x Hd Hx) as [Hh _].
      split; [|done]. rewrite <- Hh, En. symmetry. by apply strhash_fold.
  - intros d N. by rewrite lookup_insert_ne.
  - rewrite lookup_insert_eq. by subst s.
  - done.
  - split; [done|]. intros _. by exists k.
Qed.
(** Entering under a name that is only written afterwards. *)
Lemma add_at_set_name (st : htab) (k : Z) (c : nid) (m : list ascii) : (let* st := hAdd_at st k c in set_name st c m) = (let* st := set_name st c m in hAdd_at st k c).
Proof.
  unfold hAdd_at, set_name, set_hnext, set_bucket, load. destruct (nodes st !! c) as [x|]; [|done]. cbn [obind nodes buckets]. rewrite !lookup_insert_eq. cbn [obind nodes buckets n_name n_status]. by rewrite !insert_insert_eq.
Qed.

(** Who carries a name. *)
Definition carries (A : gmap nid person) (ok : node -> bool) (name : list ascii) (c : nid) : Prop :=
  exists n s, A !! c = Some (MkPerson n s true) /\ ok (MkNode n s None) = true /\ fold name = fold n.

Section Seek.
(** A test of nodes that does not look at their links. *)
Context (ok : node -> bool) (Hok : forall x v, ok (MkNode (n_name x) (n_status x) v) = ok x).

Lemma rep_seek (st : htab) (A : gmap nid person) (ch : Z -> list nid) (name : list ascii) : rep st A ch -> valid name = true ->
  exists st' r ch', hSeek st ok name = Ok (st', r) /\ rep st' A ch' /\ match r with Some c => carries A ok name c | None => forall c, ~ carries A ok name c end.
Proof.
  intros R V. destruct (valid_hash name V) as [k Hk]. apply valid_spec in V as [_ Nn]. pose proof (r_wf st A ch R) as W. destruct (hSeek_spec st ch ok name k W Hk Nn) as (st' & r & Q & -> & W' & P & I & Hr). exists st', r, (<[k := Q]> ch). split; [done|].
  assert (rep st' A (<[k := Q]> ch)) as R'.
  { split; [done|intros c; rewrite I; apply R|]. intros c. rewrite hchain_insert; [apply R|]. by rewrite P. }
  split; [done|]. destruct r as [c|].
  - destruct Hr as [Hc (x & Hx & Ho & Ef)]. destruct (proj1 (r_in st A ch R c)) as ([n s b] & Ha & Hb); [by exists k|]. cbn in Hb. subst b. destruct (rep_node st A ch c n s true R Ha) as (y & Hy & <- & <- & _). rewrite Hx in Hy. injection Hy as <-.
    exists (n_name x), (n_status x). split; [done|]. split; [by rewrite Hok|done].
  - intros c (n & s & Ha & Ho & Ef). destruct (rep_node st A ch c n s true R Ha) as (y & Hy & <- & <- & k' & Hk'). destruct (w_hash st ch W k' c y Hk' Hy) as [Hh _].
    assert (k' = k) as -> by (rewrite (strhash_fold name (n_name y) Ef) in Hk; congruence). rewrite Forall_forall in Hr. apply (Hr c Hk'). exists y. split; [done|]. split; [|done]. by rewrite <- (Hok y None).
Qed.
End Seek.
Lemma status_ok (TMask : Z) (x : node) (v : option nid) : has_status TMask (MkNode (n_name x) (n_status x) v) = has_status TMask x.
Proof. done. Qed.

Lemma hop_refines (st : htab) (A A' : gmap nid person) (ch : Z -> list nid) (o : hop) : rep st A ch -> spec_hop A o = Some A' -> exists st' ch', run_hop st o = Ok st' /\ rep st' A' ch'.
Proof.
  intros R E. destruct o as [c name status|c|c|c nick|c host|name TMask|c]; cbn [spec_hop run_hop] in *.
  - destruct (A !! c) as [|] eqn:H; [done|]. injection E as <-. eexists _, ch. split; [done|]. assert (free_of ch c) as F by (intros k Hk; destruct (proj1 (r_in st A ch R c)) as (a & Ha & _); [by exists k|congruence]).
    apply (rep_insert st _ A ch ch c _ R); cbn [nodes]; [apply (wf_outside st ch c); [apply R|done|]|..|done|]; try (intros d N; by rewrite lookup_insert_ne); [by rewrite lookup_insert_eq|]. split; [|done]. intros [k Hk]. by destruct (F k).
  - destruct (A !! c) as [[n s []]|] eqn:H; try done. destruct (valid n) eqn:V; [|done]. injection E as <-. by apply (rep_add st A ch c n s R H V).
  - destruct (A !! c) as [[n s b]|] eqn:H; [|done]. injection E as <-. destruct (rep_rem st A ch c n s b R H) as (st' & r & ch' & E' & R'). unfold hRemClient. rewrite E'. by exists st', ch'.
  - destruct (A !! c) as [[n s b]|] eqn:H; [|done]. destruct (valid nick) eqn:V; [|done]. injection E as <-. unfold change_nick. destruct (rep_node st A ch c n s b R H) as (x & Hx & En & Es & Hb). rewrite (load_ok st c x Hx). cbn [obind]. rewrite En.
    assert (exists st1 ch1, match n with [] => Ok st | _ :: _ => let* (st0, _) := hRemClient st c in Ok st0 end = Ok st1 /\ rep st1 (<[c := MkPerson n s false]> A) ch1) as (st1 & ch1 & -> & R1).
    { destruct n as [|a n].
      - exists st, ch. split; [done|]. destruct b; [|by rewrite insert_id]. destruct Hb as [k Hk]. destruct (w_hash st ch (r_wf _ _ _ R) k c x Hk Hx) as [Hh _]. rewrite En in Hh. done.
      - destruct (rep_rem st A ch c (a :: n) s b R H) as (st' & r & ch' & E' & R'). unfold hRemClient. rewrite E'. by exists st', ch'. }
    cbn [obind]. destruct (rep_set_name st1 _ ch1 c n nick s R1 ltac:(apply lookup_insert_eq)) as (st2 & -> & R2). cbn [obind]. rewrite insert_insert_eq in R2. destruct (rep_add st2 _ ch1 c nick s R2 ltac:(apply lookup_insert_eq) V) as (st3 & ch3 & E3 & R3).
    rewrite insert_insert_eq in R3. by exists st3, ch3.
  - destruct (A !! c) as [[n s b]|] eqn:H; [|done]. destruct (valid host && _ && _) eqn:V; [|done]. injection E as <-. apply andb_true_iff in V as [[V Lh%Nat.leb_le]%andb_true_iff Cs]. unfold change_server. rewrite take_ge by done.
    destruct (rep_node st A ch c n s b R H) as (x & Hx & En & Es & Hb). rewrite (load_ok st c x Hx). cbn [obind]. rewrite En. case_bool_decide as Ne; cbn [negb andb orb] in *.
    + cbn [obind]. destruct b; [destruct Hb as [k Hk]; destruct (w_hash st ch (r_wf _ _ _ R) k c x Hk Hx) as [Hh _]; rewrite En, Ne in Hh; done|]. destruct (rep_set_name st A ch c n host s R H) as (st1 & -> & R1). by exists st1, ch.
    + apply andb_true_iff in Cs as [-> Aw]. assert (unknown_or_handshake x = true) as -> by (unfold unknown_or_handshake; by rewrite Es). cbn [andb]. pose proof (proj1 (valid_spec host) V) as [_ Nh].
      destruct Hb as [k Hk]. destruct (w_hash st ch (r_wf _ _ _ R) k c x Hk Hx) as [_ Nn]. rewrite En in Nn. pose proof (ircd_strcmp_zero n host Nn Nh) as Cz. destruct (Z.eqb_spec (ircd_strcmp n host) 0) as [Ez|Nz]; cbn [negb].
      * cbn [obind]. destruct (rep_recase st A ch c n host s R H (proj1 Cz Ez) Nh) as (st1 & -> & R1). by exists st1, ch.
      * unfold hChangeClient. destruct (valid_hash host V) as [k2 Hk2]. rewrite Hk2. cbn [obind]. destruct (rep_rem st A ch c n s true R H) as (st1 & r & ch1 & E1 & R1). unfold hRemClient. rewrite E1. cbn [obind]. rewrite add_at_set_name.
        destruct (rep_set_name st1 _ ch1 c n host s R1 ltac:(apply lookup_insert_eq)) as (st2 & -> & R2). cbn [obind]. rewrite insert_insert_eq in R2. destruct (rep_add_at st2 _ ch1 c host s k2 R2 ltac:(apply lookup_insert_eq) Hk2 Nh) as (st3 & ch3 & E3 & R3).
        rewrite insert_insert_eq in R3. by exists st3, ch3.
  - destruct (valid name) eqn:V; [|done]. injection E as <-. destruct (rep_seek (has_status TMask) (status_ok TMask) st A ch name R V) as (st' & r & ch' & E' & R' & _). unfold hSeekClient. rewrite E'. by exists st', ch'.
  - destruct (A !! c) as [[n s []]|] eqn:H; try done. injection E as <-. destruct (rep_node st A ch c n s false R H) as (x & Hx & _ & _ & F). eexists _, ch. split; [done|]. split.
    + apply (wf_outside st ch c); [apply R|done|]. intros d N. by rewrite lookup_delete_ne.
    + intros d. cbn [nodes]. destruct (decide (d = c)) as [->|N]; [by rewrite !lookup_delete_eq|]. rewrite !lookup_delete_ne by done. apply R.
    + intros d. destruct (decide (d = c)) as [->|N]; [rewrite lookup_delete_eq|rewrite lookup_delete_ne by done; apply R]. split; [intros [k Hk]; by destruct (F k)|by intros (? & ? & _)].
Qed.

Lemma hops_refine (ops : list hop) : forall st A A' ch, rep st A ch -> spec_hops A ops = Some A' -> exists st' ch', run_hops st ops = Ok st' /\ rep st' A' ch'.
Proof.
  induction ops as [|o ops IH]; intros st A A' ch R E; cbn [spec_hops run_hops] in *; [injection E as <-; by exists st, ch|]. destruct (spec_hop A o) as [A1|] eqn:E1; [|done]. destruct (hop_refines st A A1 ch o R E1) as (st1 & ch1 & -> & R1). cbn [obind]. by apply (IH st1 A1 A' ch1).
Qed.
Lemma rep_empty : rep (MkTab ∅ ∅) ∅ (fun _ => []).
Proof. split; [split; [intros k; constructor|intros k; cbn [seg buckets]; apply lookup_empty|intros k c x H; by apply elem_of_nil in H]|done|]. intros c. split; [intros [k H]; by apply elem_of_nil in H|by intros (? & ? & _)]. Qed.
Lemma strhash_bound (n : list ascii) (k : Z) : strhash n = Ok k -> 0 <= k < HASHSIZE.
Proof. destruct n as [|c n]; [done|]. intros [= <-]. by apply Z.mod_pos_bound. Qed.
End Table.

(** Entering a node that heads its chain already closes the chain on itself: a look-up of any
    other name with the same hash then never ends, whatever fuel it is given. *)
Theorem entered_twice_loops (crc32hash : list Z) (st : htab) (c : nid) (x : node) (k : Z) (name : list ascii) (ok : node -> bool) :
  nodes st !! c = Some x -> strhash crc32hash (n_name x) = Ok k -> buckets st !! k = Some c -> (forall y, n_name y = n_name x -> ok y && (ircd_strcmp name (n_name y) =? 0) = false) ->
  exists st', hAdd crc32hash st c = Ok st' /\ buckets st' !! k = Some c /\ forall fuel, seek_loop fuel st' ok name k c = Fuel.
Proof.
  intros Hx Hk Hb No. unfold hAdd, hAdd_at, set_hnext, load. rewrite Hx. cbn [obind]. rewrite Hk. cbn [obind]. eexists. split; [done|]. split; [by cbn; rewrite lookup_partial_alter_eq|].
  set (st' := set_bucket _ k (Some c)). assert (load st' c = Ok (MkNode (n_name x) (n_status x) (Some c))) as L by (unfold load; cbn [st' set_bucket nodes]; by rewrite lookup_insert_eq, Hb).
  clearbody st'. induction fuel as [|fuel IH]; [done|]. cbn [seek_loop]. rewrite L. cbn [obind n_hnext]. rewrite L. cbn [obind]. by rewrite No.
Qed.

(** C7: however nodes are made, entered, renamed, taken out, freed and looked up by callers
    that keep to [spec_hops],
    no link is followed to nowhere and every walk ends; afterwards a look-up of a client by
    name and status, or of a channel by name, gives one that was entered under that name,
    ignoring case, and gives none exactly when there is none.  The callers' part is that
    names are not empty and have no NUL, a server's name has at most [HOSTLEN]
    characters and is set on a connection without a name or one that is entered and still
    waiting, a node is entered only when it is not in the table and freed only when it has
    been taken out; taking out one that is not there, or that has no name, is fine.  A node
    that is entered twice makes its chain circular ([entered_twice_loops]). *)
Theorem names_found (crc32hash : list Z) (ops : list hop) (A : gmap nid person) : spec_hops ∅ ops = Some A ->
  exists st, run_hops crc32hash (MkTab ∅ ∅) ops = Ok st /\
    (forall name TMask, valid name = true -> exists st' r, hSeekClient crc32hash st name TMask = Ok (st', r) /\ match r with Some c => carries A (has_status TMask) name c | None => forall c, ~ carries A (has_status TMask) name c end) /\
    (forall name, valid name = true -> exists st' r, hSeekChannel crc32hash st name = Ok (st', r) /\ match r with Some c => carries A (fun _ => true) name c | None => forall c, ~ carries A (fun _ => true) name c end).
Proof.
  intros E. destruct (hops_refine crc32hash ops _ _ _ _ (rep_empty crc32hash) E) as (st & ch & Er & R). exists st. split; [done|]. split.
  - intros name TMask V. destruct (rep_seek crc32hash _ (status_ok TMask) st A ch name R V) as (st' & r & _ & Es & _ & H). by exists st', r.
  - intros name V. destruct (rep_seek crc32hash (fun _ => true) ltac:(done) st A ch name R V) as (st' & r & _ & Es & _ & H). by exists st', r.
Qed.

(** Two users, two servers, a change of nick and one of a server's name. *)
Definition ex_random (n : nat) : Z := Z.of_nat n * 2654435761 + 12345.
Definition ex_hops : list hop :=
  [New 1 (cstr "hub.example") 4; Add 1; New 2 [] 16; Nick 2 (cstr "Alice"); New 3 [] 128; Nick 3 (cstr "bob"); Seek (cstr "ALICE") (-1); Nick 2 (cstr "carol"); New 4 (cstr "leaf") 2; Add 4; Server 4 (cstr "Leaf.example"); Rem 3].
Lemma names_found_witness : exists A st, spec_hops ∅ ex_hops = Some A /\ run_hops (init_hash ex_random) (MkTab ∅ ∅) ex_hops = Ok st /\
  (exists st', hSeekClient (init_hash ex_random) st (cstr "CAROL") (-1) = Ok (st', Some 2%positive)) /\ (forall c, ~ carries A (has_status (-1)) (cstr "alice") c).
Proof.
  destruct (spec_hops ∅ ex_hops) as [A|] eqn:E; [|vm_compute in E; discriminate]. destruct (names_found (init_hash ex_random) ex_hops A E) as (st & Er & H & _). exists A, st. split; [done|]. split; [done|]. vm_compute in Er. injection Er as <-. split; [vm_compute; by eexists|].
  destruct (H (cstr "alice") (-1) eq_refl) as (st' & r & Es & Hr). vm_compute in Es. injection Es as _ <-. exact Hr.
Defined.

