(* ===== verification/Jupes.v ===== *)
(** * Juped nicknames: the second table of [ircd/hash.c]

    Nicknames local users may not take, in a table of 4096 strings that is searched by
    linear probing and never more than 64 full.  A free slot is an empty string. *)

From stdpp Require Import base functions list strings.
From Stdlib Require Import ZArith Lia Ascii.
From S2P Require Import Prelude Chattr Strings Hash.

Local Open Scope ircu_scope.
Local Open Scope Z_scope.

Definition JUPEHASHBITS : Z := 12.
Definition JUPEHASHSIZE : Z := Z.shiftl 1 JUPEHASHBITS.
Definition JUPEHASHMASK : Z := JUPEHASHSIZE - 1.
Definition JUPEMAX : Z := Z.shiftl 1 (JUPEHASHBITS - 6).
Definition NICKLEN : nat := 15.
Definition BUFSIZE : nat := 512.

Record jupes : Type := MkJupes { jupeTable : list (list ascii); jupesCount : Z }.

Section Jupes.
Context (crc32hash : list Z).

Definition jupe_slot (st : jupes) (pos : Z) : outcome (list ascii) := match jupeTable st !! Z.to_nat pos with Some e => Ok e | None => Oob end.

Fixpoint juped_loop (fuel : nat) (st : jupes) (nick : list ascii) (pos : Z) : outcome Z :=
  match fuel with
  | O => Fuel
  | S fuel =>
      let pos := Z.land pos JUPEHASHMASK in
      let* e := jupe_slot st pos in
      match e with
      | [] => Ok 0
      | _ => if ircd_strcmp nick e =? 0 then Ok 1 else juped_loop fuel st nick (pos + 1)
      end
  end.
Definition isNickJuped (st : jupes) (nick : list ascii) : outcome Z :=
  match nick with
  | [] => Ok 0
  | _ => let* pos := strhash crc32hash nick in juped_loop (Z.to_nat JUPEHASHSIZE) st nick pos
  end.

(** One name of the list; the flag says that the table is full. *)
Fixpoint add_loop (fuel : nat) (st : jupes) (one : list ascii) (pos : Z) : outcome (jupes * bool) :=
  match fuel with
  | O => Fuel
  | S fuel =>
      let pos := Z.land pos JUPEHASHMASK in
      let* e := jupe_slot st pos in
      match e with
      | [] =>
          if jupesCount st =? JUPEMAX then Ok (st, true)
          else Ok (MkJupes (<[Z.to_nat pos := ircd_strncpy one NICKLEN]> (jupeTable st)) (jupesCount st + 1), false)
      | _ => if ircd_strcmp one e =? 0 then Ok (st, false) else add_loop fuel st one (pos + 1)
      end
  end.
Fixpoint add_list (fuel : nat) (st : jupes) (p : option (list ascii)) : outcome (jupes * Z) :=
  match fuel with
  | O => Fuel
  | S fuel =>
      match ircd_strtok [","%char] p with
      | (None, _) => Ok (st, 0)
      | (Some one, p) =>
          match one with
          | [] => add_list fuel st p
          | _ =>
              let* pos := strhash crc32hash one in
              let* (st, full) := add_loop (Z.to_nat JUPEHASHSIZE) st one pos in
              if (full : bool) then Ok (st, 1) else add_list fuel st p
          end
      end
  end.
Definition addNickJupes (st : jupes) (nicks : list ascii) : outcome (jupes * Z) :=
  match nicks with
  | [] => Ok (st, 0)
  | _ => let temp := ircd_strncpy nicks BUFSIZE in add_list (S (length temp)) st (Some temp)
  end.

Definition clearNickJupes (st : jupes) : jupes := MkJupes (map (fun _ => []) (jupeTable st)) 0.

(** ** Probing *)
Definition nslots : nat := 4096.
Definition at_ (h : Z) (d : nat) : nat := Z.to_nat ((h + Z.of_nat d) mod 4096).

Lemma jupe_mask (p : Z) : Z.land p JUPEHASHMASK = p mod 4096.
Proof. change JUPEHASHMASK with (Z.ones 12). rewrite Z.land_ones by lia. done. Qed.
Lemma at_lt (h : Z) (d : nat) : (at_ h d < nslots)%nat.
Proof. unfold at_, nslots. pose proof (Z.mod_pos_bound (h + Z.of_nat d) 4096). lia. Qed.
Lemma at_succ (h : Z) (d : nat) : at_ (h mod 4096 + 1) d = at_ h (S d).
Proof. unfold at_. f_equal. rewrite <- Z.add_assoc, Zplus_mod_idemp_l. f_equal. lia. Qed.
(** Every slot is reached. *)
Lemma at_onto (h : Z) (i : nat) : (i < nslots)%nat -> exists d, (d < nslots)%nat /\ at_ h d = i.
Proof.
  intros Hi. unfold nslots, at_ in *. exists (Z.to_nat ((Z.of_nat i - h) mod 4096)). pose proof (Z.mod_pos_bound (Z.of_nat i - h) 4096 ltac:(lia)). split; [lia|]. rewrite Z2Nat.id by lia. rewrite Zplus_mod_idemp_r. replace (h + (Z.of_nat i - h)) with (Z.of_nat i) by lia. rewrite Z.mod_small by lia. lia.
Qed.

Definition entry (st : jupes) (i : nat) : list ascii := nth i (jupeTable st) [].
Definition stops (st : jupes) (nick : list ascii) (i : nat) : Prop := entry st i = [] \/ ircd_strcmp nick (entry st i) = 0.

Lemma slot_entry (st : jupes) (p : Z) : length (jupeTable st) = nslots -> jupe_slot st (p mod 4096) = Ok (entry st (at_ p 0)).
Proof.
  intros L. unfold jupe_slot, entry, at_. rewrite Z.add_0_r. pose proof (Z.mod_pos_bound p 4096 ltac:(lia)). destruct (lookup_lt_is_Some_2 (jupeTable st) (Z.to_nat (p mod 4096))) as [e He]; [unfold nslots in L; lia|]. rewrite He. by rewrite (nth_lookup_Some _ _ [] e He).
Qed.

(** Both loops stop at the first slot that is free or holds the name. *)
Lemma probe (st : jupes) (nick : list ascii) (d : nat) : length (jupeTable st) = nslots -> forall fuel h, (d < fuel)%nat -> (forall j, (j < d)%nat -> ~ stops st nick (at_ h j)) -> stops st nick (at_ h d) ->
  juped_loop fuel st nick h = Ok (match entry st (at_ h d) with [] => 0 | _ => 1 end) /\
  add_loop fuel st nick h = Ok (match entry st (at_ h d) with
    | [] => if jupesCount st =? JUPEMAX then (st, true) else (MkJupes (<[at_ h d := ircd_strncpy nick NICKLEN]> (jupeTable st)) (jupesCount st + 1), false)
    | _ => (st, false) end).
Proof.
  intros L. induction d as [|d IH]; intros fuel h Lf N S; (destruct fuel as [|fuel]; [lia|]); cbn [juped_loop add_loop]; rewrite jupe_mask, slot_entry by done; cbn [obind].
  - unfold stops in S. destruct (entry st (at_ h 0)) as [|c e] eqn:E; [|destruct S as [S|S]; [done|]; rewrite S; done]. split; [done|]. unfold at_ in *. rewrite Z.add_0_r in *. by destruct (jupesCount st =? JUPEMAX).
  - pose proof (N 0%nat ltac:(lia)) as N0. unfold stops in N0. destruct (entry st (at_ h 0)) as [|c e] eqn:E; [tauto|]. rewrite (proj2 (Z.eqb_neq _ _)) by tauto. rewrite <- at_succ. rewrite <- at_succ in S. apply IH; [lia| |done]. intros j Hj. rewrite at_succ. apply N. lia.
Qed.
Lemma first_stop (st : jupes) (nick : list ascii) (h : Z) (e : nat) : stops st nick (at_ h e) -> exists d, (d <= e)%nat /\ (forall j, (j < d)%nat -> ~ stops st nick (at_ h j)) /\ stops st nick (at_ h d).
Proof.
  induction e as [e IH] using (well_founded_induction Wf_nat.lt_wf). intros S. assert (forall i, {stops st nick (at_ h i)} + {~ stops st nick (at_ h i)}) as D.
  { intros i. unfold stops. destruct (decide (entry st (at_ h i) = [])); [left; tauto|]. destruct (decide (ircd_strcmp nick (entry st (at_ h i)) = 0)); [left; tauto|right; tauto]. }
  destruct (decide (Exists (fun j => stops st nick (at_ h j)) (seq 0 e))) as [X|X].
  - apply Exists_exists in X as (j & [_ Hj]%elem_of_seq & Sj). destruct (IH j ltac:(lia) Sj) as (d & Ld & Nd & Sd). exists d. split; [lia|]. by split.
  - exists e. split; [done|]. split; [|done]. intros j Hj Sj. apply X, Exists_exists. exists j. split; [apply elem_of_seq; lia|done].
Qed.

(** ** The table *)
Record jwf (st : jupes) : Prop := {
  j_length : length (jupeTable st) = nslots;
  j_count : jupesCount st = Z.of_nat (length (filter (fun e => e <> []) (jupeTable st)));
  j_max : jupesCount st <= JUPEMAX;
  j_valid : forall i, entry st i <> [] -> no_nul (entry st i);
  j_chain : forall i, entry st i <> [] -> exists h d, strhash crc32hash (entry st i) = Ok h /\ (d < nslots)%nat /\ at_ h d = i /\ forall j, (j < d)%nat -> entry st (at_ h j) <> []
}.

Lemma filter_used (l : list (list ascii)) : Forall (fun e => ~ e = []) l -> filter (fun e => e <> []) l = l.
Proof. induction 1 as [|e l E F IH]; [done|]. rewrite filter_cons_True by done. by rewrite IH. Qed.
(** Some slot is free, so a probe ends. *)
Lemma free_slot (st : jupes) (h : Z) : jwf st -> exists d, (d < nslots)%nat /\ entry st (at_ h d) = [].
Proof.
  intros [L C M _ _]. assert (Exists (fun e => e = []) (jupeTable st)) as X.
  { destruct (decide (Exists (fun e => e = []) (jupeTable st))) as [X|X]; [done|]. exfalso. apply not_Exists_Forall in X; [|solve_decision]. rewrite (filter_used _ X) in C. rewrite L in C. unfold nslots in C. change JUPEMAX with 64 in M. lia. }
  apply Exists_exists in X as (e & [i Hi]%list_elem_of_lookup & ->). destruct (at_onto h i) as (d & Ld & E); [rewrite <- L; by apply lookup_lt_Some in Hi|]. exists d. split; [done|]. unfold entry. rewrite E. by apply nth_lookup_Some.
Qed.

(** The names a state forbids. *)
Definition holds (st : jupes) (nick : list ascii) : Prop := exists i, entry st i <> [] /\ fold (entry st i) = fold nick.

(** Where a probe for [nick] ends: at an entry of that name if there is one, else at a free
    slot. *)
Lemma probe_end (st : jupes) (nick : list ascii) (h : Z) : jwf st -> no_nul nick -> strhash crc32hash nick = Ok h ->
  exists d, (d < nslots)%nat /\ (forall j, (j < d)%nat -> ~ stops st nick (at_ h j)) /\ stops st nick (at_ h d) /\ (holds st nick <-> entry st (at_ h d) <> []).
Proof.
  intros J Nn Hh. destruct (free_slot st h J) as (e & Le & Ee). destruct (first_stop st nick h e) as (d & Ld & Nd & Sd); [by left|]. exists d. split; [lia|]. split; [done|]. split; [done|]. split.
  - intros (i & Ni & Ef) E0. pose proof J as [_ _ _ JV JC]. destruct (JC i Ni) as (h' & d' & Hh' & Ld' & Ei & Nj). rewrite (strhash_fold crc32hash _ _ Ef), Hh in Hh'. injection Hh' as <-.
    assert (stops st nick (at_ h d')) as S' by (right; rewrite Ei; apply ircd_strcmp_zero; [done|by apply JV|done]). destruct (Nat.lt_trichotomy d d') as [Lt|[->|Gt]]; [by apply (Nj d)|by rewrite Ei in E0|by apply (Nd d')].
  - intros Ne. destruct Sd as [?|Sd]; [done|]. exists (at_ h d). split; [done|]. symmetry. apply ircd_strcmp_zero; [done|by apply J|done].
Qed.

Lemma slots_fuel : Z.to_nat JUPEHASHSIZE = nslots.
Proof. reflexivity. Qed.

Lemma isNickJuped_spec (st : jupes) (nick : list ascii) : jwf st -> valid nick = true -> exists b, isNickJuped st nick = Ok b /\ (b = 1 <-> holds st nick).
Proof.
  intros J V. destruct (valid_hash crc32hash nick V) as [h Hh]. pose proof V as [Ne Nn]%valid_spec. destruct (probe_end st nick h J Nn Hh) as (d & Ld & Nd & Sd & Hd). destruct (probe st nick d (j_length st J) (Z.to_nat JUPEHASHSIZE) h) as [E _]; [by rewrite slots_fuel|done|done|].
  unfold isNickJuped. destruct nick as [|c n]; [done|]. rewrite Hh. cbn [obind]. rewrite E. eexists. split; [done|]. rewrite Hd. by destruct (entry st (at_ h d)).
Qed.

(** ** Adding *)
Lemma entry_insert (st : jupes) (i j : nat) (e : list ascii) (n : Z) : (i < length (jupeTable st))%nat -> entry (MkJupes (<[i := e]> (jupeTable st)) n) j = if decide (j = i) then e else entry st j.
Proof.
  intros L. unfold entry. cbn [jupeTable]. rewrite !nth_lookup. destruct (decide (j = i)) as [->|N]; [by rewrite list_lookup_insert_eq|by rewrite list_lookup_insert_ne].
Qed.
Lemma filter_insert (l : list (list ascii)) (e : list ascii) : forall i, l !! i = Some [] -> e <> [] -> length (filter (fun e => e <> []) (<[i := e]> l)) = S (length (filter (fun e => e <> []) l)).
Proof.
  induction l as [|x l IH]; intros i Hi Ne; [done|]. destruct i as [|i]; cbn in Hi |- *.
  - injection Hi as ->. rewrite decide_True, decide_False by naive_solver. done.
  - destruct (decide (x <> [])); cbn; by rewrite IH.
Qed.

Lemma add_loop_spec (st : jupes) (one : list ascii) (h : Z) : jwf st -> valid one = true -> (length one <= NICKLEN)%nat -> strhash crc32hash one = Ok h ->
  exists st' full, add_loop (Z.to_nat JUPEHASHSIZE) st one h = Ok (st', full) /\ jwf st' /\
    if full : bool then st' = st /\ jupesCount st = JUPEMAX else forall nick, holds st' nick <-> holds st nick \/ fold one = fold nick.
Proof.
  intros J V Ln Hh. pose proof V as [Ne Nn]%valid_spec. destruct (probe_end st one h J Nn Hh) as (d & Ld & Nd & Sd & Hd). destruct (probe st one d (j_length st J) (Z.to_nat JUPEHASHSIZE) h) as [_ ->]; [by rewrite slots_fuel|done|done|].
  destruct (entry st (at_ h d)) as [|c e] eqn:E.
  - destruct (Z.eqb_spec (jupesCount st) JUPEMAX) as [C|C]; [by exists st, true|]. unfold ircd_strncpy. rewrite take_ge by done. eexists _, false. split; [done|]. pose proof (at_lt h d) as Lp. rewrite <- (j_length st J) in Lp. pose proof J as [JL JC JM JV JK]. split; [split|].
    + cbn [jupeTable]. by rewrite length_insert.
    + cbn [jupeTable jupesCount]. rewrite filter_insert; [lia| |done]. unfold entry in E. destruct (lookup_lt_is_Some_2 _ _ Lp) as [y Hy]. rewrite (nth_lookup_Some _ _ [] y Hy) in E. by subst y.
    + cbn [jupesCount]. lia.
    + intros i. rewrite entry_insert by done. destruct (decide (i = at_ h d)); [done|apply JV].
    + intros i. rewrite entry_insert by done. destruct (decide (i = at_ h d)) as [->|N].
      * intros _. exists h, d. split; [done|]. split; [done|]. split; [done|]. intros j Hj. rewrite entry_insert by done. destruct (decide _); [done|]. intros X. apply (Nd j Hj). by left.
      * intros Ni. destruct (JK i Ni) as (h' & d' & Hh' & Ld' & Ei & Nj). exists h', d'. split; [done|]. split; [done|]. split; [done|]. intros j Hj. rewrite entry_insert by done. destruct (decide _); [done|by apply Nj].
    + intros nick. split.
      * intros (i & Ni & Ef). rewrite entry_insert in Ni, Ef by done. destruct (decide (i = at_ h d)); [by right|left; by exists i].
      * intros [(i & Ni & Ef)|Ef]; [exists i|exists (at_ h d)]; rewrite entry_insert by done; [|by rewrite decide_True by done]. rewrite decide_False by (intros ->; congruence). done.
  - exists st, false. split; [done|]. split; [done|]. intros nick. split; [by left|]. intros [?|Ef]; [done|]. destruct (proj2 Hd) as (i & Ni & Ei); [done|]. exists i. split; [done|]. congruence.
Qed.

Lemma fields_valid (s : list ascii) : no_nul s -> Forall (fun w => valid w = true) (fields [","%char] s).
Proof.
  intros N. unfold fields. destruct (pieces [","%char] s) as [w ws] eqn:E. assert (Forall no_nul (w :: ws)) as F.
  { revert w ws E. induction s as [|c s IH]; intros w ws E; cbn [pieces] in E; [injection E as <- <-; repeat constructor; by intros ?%elem_of_nil|]. destruct (pieces [","%char] s) as [w' ws'] eqn:Ep.
    assert (Forall no_nul (w' :: ws')) as F by (apply IH; [intros X; apply N; by right|done]). case_bool_decide; injection E as <- <-; [constructor; [by intros ?%elem_of_nil|done]|]. inversion_clear F as [|? ? F1 F2]. constructor; [|done]. intros [X|X]%elem_of_cons; [apply N; rewrite X; left|done]. }
  apply Forall_forall. intros x [Hx Hin]%list_elem_of_filter. rewrite Forall_forall in F. apply valid_spec. split; [done|]. by apply F.
Qed.

(** The table [st'] after the names [L] were added to [st] with the result [r]. *)
Record added (st : jupes) (L : list (list ascii)) (st' : jupes) (r : Z) : Prop := {
  a_wf : jwf st';
  a_keeps : forall nick, holds st nick -> holds st' nick;
  a_only : forall nick, holds st' nick -> holds st nick \/ fold nick ∈ map fold L;
  a_all : (r = 0 /\ forall nick, fold nick ∈ map fold L -> holds st' nick) \/ (r = 1 /\ jupesCount st' = JUPEMAX)
}.
Lemma added_none (st : jupes) : jwf st -> added st [] st 0.
Proof. intros J. split; [done|done|by left|]. left. split; [done|]. intros nick H. by apply elem_of_nil in H. Qed.

Lemma add_list_spec (fuel : nat) : forall st p (L := match p with None => [] | Some s => fields [","%char] s end), (match p with None => 0 | Some s => length s end < fuel)%nat -> jwf st -> Forall (fun w => valid w = true) L -> Forall (fun w => (length w <= NICKLEN)%nat) L ->
  exists st' r, add_list fuel st p = Ok (st', r) /\ added st L st' r.
Proof.
  induction fuel as [|fuel IH]; intros st p L Lf J FV FL; [lia|]. cbn [add_list]. destruct p as [s|]; [|exists st, 0; split; [done|by apply added_none]].
  pose proof (ircd_strtok_spec [","%char] s) as T. unfold L in *. clear L. destruct (ircd_strtok [","%char] (Some s)) as [[t|] r]; [|rewrite T; exists st, 0; split; [done|by apply added_none]].
  destruct T as (Nt & Ef & Lr). assert (0 < length s)%nat as Ls by (destruct s; [discriminate Ef|cbn; lia]). rewrite Ef in *. inversion_clear FV as [|? ? V FV']. inversion_clear FL as [|? ? Lt FL']. destruct (valid_hash crc32hash t V) as [h Hh]. destruct t as [|c t]; [done|]. rewrite Hh. cbn [obind].
  destruct (add_loop_spec st (c :: t) h J V Lt Hh) as (st1 & full & -> & J1 & H1). cbn [obind]. destruct full.
  - destruct H1 as [-> C]. exists st, 1. split; [done|]. split; [done|done|by left|by right].
  - destruct (IH st1 r) as (st2 & r2 & -> & [J2 K1 K2 K3]); [destruct r; lia|done|done|done|]. exists st2, r2. split; [done|]. split; [done|..]; cbn [map].
    + intros nick Hn. apply K1, H1. by left.
    + intros nick Hn. rewrite elem_of_cons. destruct (K2 nick Hn) as [X|X]; [|tauto]. destruct (proj1 (H1 nick) X); [by left|right; by left].
    + destruct K3 as [[-> K3]|K3]; [left|by right]. split; [done|]. intros nick [X|X]%elem_of_cons; [apply K1, H1; by right|by apply K3].
Qed.

Lemma clear_wf (st : jupes) : length (jupeTable st) = nslots -> jwf (clearNickJupes st) /\ forall nick, ~ holds (clearNickJupes st) nick.
Proof.
  intros L. assert (forall i, entry (clearNickJupes st) i = []) as E.
  { intros i. unfold entry. cbn [clearNickJupes jupeTable]. rewrite nth_lookup. rewrite list_lookup_fmap. by destruct (jupeTable st !! i). }
  split; [split|].
  - cbn [clearNickJupes jupeTable]. by rewrite length_map.
  - cbn [clearNickJupes jupeTable jupesCount]. clear. induction (jupeTable st) as [|e l IH]; [done|]. cbn [map]. by rewrite filter_cons_False by naive_solver.
  - done.
  - intros i. by rewrite E.
  - intros i. by rewrite E.
  - intros nick (i & Ni & _). by rewrite E in Ni.
Qed.
End Jupes.

(** Adding a list of names to the table of juped nicknames returns, keeps what was in it
    and adds nothing else; unless it answers that the table is full, exactly the names of the
    list and those juped before are juped afterwards, ignoring case.  The search for a free
    slot, or for a name, always ends. *)
Theorem jupes_exact (crc32hash : list Z) (st : jupes) (nicks : list ascii) : jwf crc32hash st -> no_nul nicks -> (length nicks <= BUFSIZE)%nat -> Forall (fun w => (length w <= NICKLEN)%nat) (fields [","%char] nicks) ->
  exists st' r, addNickJupes crc32hash st nicks = Ok (st', r) /\ jwf crc32hash st' /\ (r = 0 \/ (r = 1 /\ jupesCount st' = JUPEMAX)) /\
    forall nick, valid nick = true -> exists b b', isNickJuped crc32hash st nick = Ok b /\ isNickJuped crc32hash st' nick = Ok b' /\
      (b = 1 -> b' = 1) /\ (b' = 1 -> b = 1 \/ fold nick ∈ map fold (fields [","%char] nicks)) /\ (r = 0 -> fold nick ∈ map fold (fields [","%char] nicks) -> b' = 1).
Proof.
  intros J N Ln FL. assert (exists st' r, addNickJupes crc32hash st nicks = Ok (st', r) /\ added crc32hash st (fields [","%char] nicks) st' r) as (st' & r & E & [J' K1 K2 K3]).
  { unfold addNickJupes. destruct nicks as [|c n]; [exists st, 0; split; [done|by apply added_none]|]. unfold ircd_strncpy. rewrite take_ge by done. apply (add_list_spec crc32hash _ st (Some (c :: n))); [lia|done|by apply fields_valid|done]. }
  exists st', r. split; [done|]. split; [done|]. split; [naive_solver|]. intros nick V. destruct (isNickJuped_spec crc32hash st nick J V) as (b & Eb & Hb). destruct (isNickJuped_spec crc32hash st' nick J' V) as (b' & Eb' & Hb'). exists b, b'. split; [done|]. split; [done|].
  rewrite Hb, Hb'. split; [apply K1|]. split; [apply K2|]. intros R Hin. destruct K3 as [[_ K3]|[R' _]]; [by apply K3|lia].
Qed.

Definition ex_empty : jupes := clearNickJupes (MkJupes (replicate 4096 []) 0).
Lemma jupes_exact_witness : exists st' r, addNickJupes (init_hash ex_random) ex_empty (cstr ",Nick,chan,,X,") = Ok (st', r) /\ jwf (init_hash ex_random) st' /\
  (r = 0 -> exists b, isNickJuped (init_hash ex_random) st' (cstr "CHAN") = Ok b /\ b = 1).
Proof.
  destruct (jupes_exact (init_hash ex_random) ex_empty (cstr ",Nick,chan,,X,")) as (st' & r & E & J & _ & H).
  - by apply (clear_wf _ (MkJupes (replicate 4096 []) 0)).
  - unfold no_nul. by apply (bool_decide_unpack _).
  - by apply (bool_decide_unpack _).
  - vm_compute. repeat constructor.
  - exists st', r. split; [done|]. split; [done|]. intros R. destruct (H (cstr "CHAN") eq_refl) as (b & b' & _ & E' & _ & _ & K). exists b'. split; [done|]. apply K; [done|]. by apply (bool_decide_unpack _).
Defined.

(** The table stores the first characters of a name that is too long, but under the hash of
    the whole: neither the name nor what was stored is found again. *)
Lemma long_name_lost : match addNickJupes (init_hash ex_random) ex_empty (cstr "averyveryverylongnick") with
  | Ok (st', 0) => Some (jupesCount st', isNickJuped (init_hash ex_random) st' (cstr "averyveryverylo"), isNickJuped (init_hash ex_random) st' (cstr "averyveryverylongnick"))
  | _ => None end = Some (1, Ok 0, Ok 0).
Proof. vm_compute. reflexivity. Qed.
