(* ===== verification/Chains.v ===== *)
(** * Chains with back pointers

    The lists of [ircd/whowas.c] are linked through [next] and through a pointer to the
    pointer that points here: the head of the list or the [next] of another cell.  Such
    chains, several of them through cells of one kind, are modelled here once: [heads]
    holds the first cell of each chain (absent for NULL), [links] the two fields of each
    cell. *)

From stdpp Require Import base functions list gmap.
From S2P Require Import Prelude.

Local Open Scope ircu_scope.

Abbreviation cell := positive.

Section Chains.
Context {K : Type} `{Countable K}.

Inductive ptr : Type := Head (k : K) | Next (w : cell).
Record chains : Type := MkChains { heads : gmap K cell; links : gmap cell (option cell * option ptr) }.

Definition get_links (C : chains) (w : cell) : outcome (option cell * option ptr) := match links C !! w with Some l => Ok l | None => Oob end.
Definition set_links (C : chains) (w : cell) (f : option cell * option ptr -> option cell * option ptr) : outcome chains :=
  let* l := get_links C w in Ok (MkChains (heads C) (<[w := f l]> (links C))).
(** [*pp = v] *)
Definition store (C : chains) (pp : ptr) (v : option cell) : outcome chains :=
  match pp with
  | Head k => Ok (MkChains (partial_alter (fun _ => v) k (heads C)) (links C))
  | Next w => set_links C w (fun l => (v, snd l))
  end.

(** [if (ww->next) ww->next->prevnextp = ww->prevnextp; *ww->prevnextp = ww->next;] *)
Definition chain_unlink (C : chains) (w : cell) : outcome chains :=
  let* l := get_links C w in
  let* C := match fst l with Some n => set_links C n (fun m => (fst m, snd l)) | None => Ok C end in
  let* l := get_links C w in
  match snd l with Some pp => store C pp (fst l) | None => Oob end.

(** [if ((ww->next = head)) ww->next->prevnextp = &ww->next; ww->prevnextp = &head; head = ww;] *)
Definition chain_push (C : chains) (k : K) (w : cell) : outcome chains :=
  let n := heads C !! k in
  let* C := set_links C w (fun l => (n, snd l)) in
  let* C := match n with Some n => set_links C n (fun m => (fst m, Some (Next w))) | None => Ok C end in
  let* C := set_links C w (fun l => (fst l, Some (Head k))) in
  store C (Head k) (Some w).

(** ** Chains as lists *)
Abbreviation lmap := (gmap cell (option cell * option ptr)).
Fixpoint chain (h : lmap) (pp : ptr) (p : option cell) (Q : list cell) (q : option cell) : Prop :=
  match Q with
  | [] => p = q
  | w :: Q => p = Some w /\ exists n, h !! w = Some (n, Some pp) /\ chain h (Next w) n Q q
  end.
Definition last_ptr (pp : ptr) (Q : list cell) : ptr := match last Q with Some w => Next w | None => pp end.

Lemma last_ptr_cons (pp : ptr) (w : cell) (Q : list cell) : last_ptr pp (w :: Q) = last_ptr (Next w) Q.
Proof. unfold last_ptr. destruct Q as [|u Q]; [done|]. rewrite last_cons_cons. destruct (last (u :: Q)) eqn:E; [done|]. by apply last_None in E. Qed.
Lemma chain_app (h : lmap) (A B : list cell) (q : option cell) : forall pp p, chain h pp p (A ++ B) q <-> exists r, chain h pp p A r /\ chain h (last_ptr pp A) r B q.
Proof.
  induction A as [|w A IH]; intros pp p; cbn [app chain]; [split; [by exists p|by intros (r & -> & ?)]|]. rewrite last_ptr_cons. split.
  - intros [-> (n & Hn & (r & H1 & H2)%IH)]. exists r. split; [|done]. split; [done|]. by exists n.
  - intros (r & [-> (n & Hn & H1)] & H2). split; [done|]. exists n. split; [done|]. apply IH. by exists r.
Qed.
Lemma chain_frame (h h' : lmap) (Q : list cell) (q : option cell) : forall pp p, (forall w, w ∈ Q -> h' !! w = h !! w) -> chain h pp p Q q -> chain h' pp p Q q.
Proof.
  induction Q as [|w Q IH]; intros pp p E C; [done|]. destruct C as [-> (n & Hn & C)]. split; [done|]. exists n. split; [rewrite E; [done|left]|]. apply IH; [|done]. intros u Hu. apply E. by right.
Qed.
Lemma chain_insert_other (h : lmap) (Q : list cell) (w : cell) (l : option cell * option ptr) (pp : ptr) (p q : option cell) : w ∉ Q -> chain h pp p Q q -> chain (<[w := l]> h) pp p Q q.
Proof. intros N. apply chain_frame. intros u Hu. rewrite lookup_insert_ne; [done|]. by intros ->. Qed.
Lemma chain_elem (h : lmap) (Q : list cell) (q : option cell) (w : cell) : forall pp p, chain h pp p Q q -> w ∈ Q -> is_Some (h !! w).
Proof. induction Q as [|u Q IH]; intros pp p C Hw; [by apply elem_of_nil in Hw|]. destruct C as [_ (n & Hn & C)]. apply elem_of_cons in Hw as [->|Hw]; [by eexists|by apply (IH _ _ C)]. Qed.

(** The first cell of a stretch given another back pointer. *)
Lemma chain_reprev (h : lmap) (pp pp' : ptr) (n : cell) (Q : list cell) (q m : option cell) : n ∉ Q -> h !! n = Some (m, Some pp) -> chain h pp (Some n) (n :: Q) q -> chain (<[n := (m, Some pp')]> h) pp' (Some n) (n :: Q) q.
Proof. intros N Hn [_ (m' & Hm & C)]. rewrite Hn in Hm. injection Hm as <-. split; [done|]. exists m. rewrite lookup_insert_eq. split; [done|]. by apply chain_insert_other. Qed.

(** [ch k] is the chain that starts at [k]. *)
Record ok (C : chains) (ch : K -> list cell) : Prop := {
  ok_nodup : forall k, NoDup (ch k);
  ok_chain : forall k, chain (links C) (Head k) (heads C !! k) (ch k) None;
  ok_disjoint : forall k k' w, w ∈ ch k -> w ∈ ch k' -> k = k'
}.

Lemma set_links_ok (C : chains) (w : cell) (f : option cell * option ptr -> option cell * option ptr) (l : option cell * option ptr) : links C !! w = Some l -> set_links C w f = Ok (MkChains (heads C) (<[w := f l]> (links C))).
Proof. intros E. unfold set_links, get_links. by rewrite E. Qed.

Lemma ok_replace (C C' : chains) (ch : K -> list cell) (k : K) (Q : list cell) : ok C ch -> (forall k', k' <> k -> heads C' !! k' = heads C !! k') -> (forall k' w, k' <> k -> w ∈ ch k' -> links C' !! w = links C !! w) ->
  NoDup Q -> chain (links C') (Head k) (heads C' !! k) Q None -> (forall k' w, k' <> k -> w ∈ Q -> w ∉ ch k') -> ok C' (<[k := Q]> ch).
Proof.
  intros [N G D] Eh El NQ CQ DQ. split.
  - intros k'. destruct (decide (k' = k)) as [->|Nk]; [by rewrite fn_lookup_insert|by rewrite fn_lookup_insert_ne].
  - intros k'. destruct (decide (k' = k)) as [->|Nk]; [by rewrite fn_lookup_insert|rewrite fn_lookup_insert_ne, Eh by done]. apply chain_frame with (links C); [|apply G]. intros w Hw. by apply (El k').
  - intros k1 k2 w. destruct (decide (k1 = k)) as [->|N1], (decide (k2 = k)) as [->|N2]; rewrite ?fn_lookup_insert, ?fn_lookup_insert_ne by done; try done.
    + intros H1 H2. by destruct (DQ k2 w N2).
    + intros H1 H2. by destruct (DQ k1 w N1).
    + apply D.
Qed.

(** Writing through the pointer behind a stretch. *)
Lemma store_last (C : chains) (k : K) (A : list cell) (q v : option cell) : NoDup A -> chain (links C) (Head k) (heads C !! k) A q ->
  exists C', store C (last_ptr (Head k) A) v = Ok C' /\ chain (links C') (Head k) (heads C' !! k) A v /\ (forall w, w ∉ A -> links C' !! w = links C !! w) /\ (forall k', k' <> k -> heads C' !! k' = heads C !! k') /\ dom (links C') = dom (links C).
Proof.
  intros ND G. destruct (decide (A = [])) as [->|NE].
  - eexists. split; [done|]. cbn [links heads chain]. rewrite lookup_partial_alter_eq. split; [done|]. split; [done|]. split; [|done]. intros k' Nk. by rewrite lookup_partial_alter_ne.
  - destruct (exists_last NE) as (A' & l & ->). unfold last_ptr. rewrite last_snoc. cbn [store]. pose proof G as (r & G1 & -> & n & Hn & _)%chain_app. rewrite (set_links_ok C l _ _ Hn). eexists. split; [done|]. cbn [links heads snd].
    apply NoDup_app in ND as (_ & N & _). assert (l ∉ A') as Nl by (intros X; apply (N l X); left). split; [|split; [|split; [done|]]].
    + apply chain_app. exists (Some l). split; [by apply chain_insert_other|]. split; [done|]. exists v. by rewrite lookup_insert_eq.
    + intros w Hw. rewrite lookup_insert_ne; [done|]. intros ->. apply Hw, elem_of_app. right. left.
    + rewrite dom_insert_L. apply subseteq_union_1_L, singleton_subseteq_l, elem_of_dom. by eexists.
Qed.

Lemma dom_same (h : lmap) (w : cell) (l : option cell * option ptr) : is_Some (h !! w) -> dom (<[w := l]> h) = dom h.
Proof. intros S. rewrite dom_insert_L. by apply subseteq_union_1_L, singleton_subseteq_l, elem_of_dom. Qed.

Lemma chain_unlink_spec (C : chains) (ch : K -> list cell) (k : K) (A B : list cell) (w : cell) : ok C ch -> ch k = A ++ w :: B ->
  exists C', chain_unlink C w = Ok C' /\ ok C' (<[k := A ++ B]> ch) /\ dom (links C') = dom (links C).
Proof.
  intros O E. pose proof (ok_nodup C ch O k) as ND. pose proof (ok_chain C ch O k) as G. rewrite E in ND, G. pose proof G as (r & GA & -> & n & Hw & GB)%chain_app. apply NoDup_app in ND as (NA & NAB & [Nw NB]%NoDup_cons).
  assert (w ∉ A) as NwA by (intros X; apply (NAB w X); left). unfold chain_unlink. unfold get_links at 1. rewrite Hw. cbn [obind fst snd].
  assert (exists C1, match n with Some n0 => set_links C n0 (fun m => (fst m, Some (last_ptr (Head k) A))) | None => Ok C end = Ok C1 /\ heads C1 = heads C /\ chain (links C1) (last_ptr (Head k) A) n B None /\
    (forall u, u ∉ B -> links C1 !! u = links C !! u) /\ dom (links C1) = dom (links C)) as (C1 & -> & Eh & GB1 & O1 & D1).
  { destruct B as [|b B]; [cbn in GB; subst n; by exists C|]. pose proof GB as [-> (m & Hm & _)]. rewrite (set_links_ok C b _ _ Hm). eexists. split; [done|]. cbn [heads links fst]. split; [done|]. apply NoDup_cons in NB as [Nb NB]. split; [|split].
    - by apply chain_reprev with (Next w).
    - intros u Hu. rewrite lookup_insert_ne; [done|]. intros ->. apply Hu. left.
    - apply dom_same. by eexists. }
  cbn [obind]. unfold get_links. rewrite O1, Hw by done. cbn [obind fst snd]. destruct (store_last C1 k A (Some w) n NA) as (C2 & E2 & GA2 & O2 & Eh2 & D2).
  { rewrite Eh. apply chain_frame with (links C); [|done]. intros u Hu. apply O1. intros X. apply (NAB u Hu). by right. }
  exists C2. split; [done|]. split; [|congruence]. apply (ok_replace C C2 ch k (A ++ B) O).
  - intros k' Nk. rewrite Eh2 by done. by rewrite Eh.
  - intros k' u Nk Hu. assert (u ∉ ch k) as Nu by (intros X; by apply Nk, (ok_disjoint C ch O k' k u)). rewrite E, elem_of_app, elem_of_cons in Nu. rewrite O2, O1 by tauto. done.
  - apply NoDup_app. split; [done|]. split; [|done]. intros u Hu X. apply (NAB u Hu). by right.
  - apply chain_app. exists n. split; [done|]. apply chain_frame with (links C1); [|done]. intros u Hu. apply O2. intros X. apply (NAB u X). by right.
  - intros k' u Nk Hu X. apply Nk, (ok_disjoint C ch O k' k u X). rewrite E. rewrite elem_of_app, elem_of_cons in *. tauto.
Qed.

Lemma chain_push_spec (C : chains) (ch : K -> list cell) (k : K) (w : cell) : ok C ch -> (forall k', w ∉ ch k') -> is_Some (links C !! w) -> exists C', chain_push C k w = Ok C' /\ ok C' (<[k := w :: ch k]> ch) /\ dom (links C') = dom (links C).
Proof.
  intros O F [l Hl]. pose proof (ok_nodup C ch O k) as ND. pose proof (ok_chain C ch O k) as G. unfold chain_push. rewrite (set_links_ok C w _ l Hl). cbn [obind]. set (C0 := MkChains _ _). set (n := heads C !! k) in *.
  assert (chain (links C0) (Head k) n (ch k) None) as G0 by (by apply chain_insert_other).
  assert (exists C1, match n with Some n0 => set_links C0 n0 (fun m => (fst m, Some (Next w))) | None => Ok C0 end = Ok C1 /\ heads C1 = heads C /\ chain (links C1) (Next w) n (ch k) None /\
    (forall u, u ∉ ch k -> links C1 !! u = links C0 !! u) /\ dom (links C1) = dom (links C0)) as (C1 & -> & Eh & G1 & O1 & D1).
  { destruct (ch k) as [|b B]; [cbn in G0; rewrite G0 in *; by exists C0|]. pose proof G0 as [-> (m & Hm & _)]. rewrite (set_links_ok C0 b _ _ Hm). eexists. split; [done|]. cbn [heads links fst]. split; [done|]. apply NoDup_cons in ND as [Nb ND]. split; [|split].
    - by apply chain_reprev with (Head k).
    - intros u Hu. rewrite lookup_insert_ne; [done|]. intros ->. apply Hu. left.
    - apply dom_same. by eexists. }
  cbn [obind]. assert (links C1 !! w = Some (n, snd l)) as Hw1 by (rewrite O1 by done; apply lookup_insert_eq). rewrite (set_links_ok C1 w _ _ Hw1). cbn [obind store fst]. eexists. split; [done|]. cbn [links heads]. split.
  - apply (ok_replace C _ ch k (w :: ch k) O); cbn [heads links].
    + intros k' Nk. rewrite lookup_partial_alter_ne by done. by rewrite Eh.
    + intros k' u Nk Hu. assert (u ∉ ch k) as Nu by (intros X; by apply Nk, (ok_disjoint C ch O k' k u)). assert (u <> w) as Nuw by (intros ->; by apply (F k')). rewrite lookup_insert_ne, O1 by done. unfold C0. cbn [links]. by rewrite lookup_insert_ne.
    + by apply NoDup_cons.
    + rewrite lookup_partial_alter_eq. split; [done|]. exists n. rewrite lookup_insert_eq. split; [done|]. by apply chain_insert_other.
    + intros k' u Nk Hu X. apply elem_of_cons in Hu as [->|Hu]; [by apply (F k')|]. by apply Nk, (ok_disjoint C ch O k' k u).
  - rewrite dom_same by (by eexists). rewrite D1. unfold C0. cbn [links]. apply dom_same. by eexists.
Qed.

(** The same with the assignments in the order of [ircd/gline.c]. *)
Definition chain_squeeze (C : chains) (w : cell) : outcome chains :=
  let* l := get_links C w in
  let* C := match snd l with Some pp => store C pp (fst l) | None => Oob end in
  let* l := get_links C w in
  match fst l with Some n => set_links C n (fun m => (fst m, snd l)) | None => Ok C end.
Definition chain_cons (C : chains) (k : K) (w : cell) : outcome chains :=
  let n := heads C !! k in
  let* C := set_links C w (fun _ => (n, Some (Head k))) in
  let* C := match n with Some n => set_links C n (fun m => (fst m, Some (Next w))) | None => Ok C end in
  store C (Head k) (Some w).

Lemma chain_squeeze_spec (C : chains) (ch : K -> list cell) (k : K) (A B : list cell) (w : cell) : ok C ch -> ch k = A ++ w :: B ->
  exists C', chain_squeeze C w = Ok C' /\ ok C' (<[k := A ++ B]> ch) /\ dom (links C') = dom (links C).
Proof.
  intros O E. pose proof (ok_nodup C ch O k) as ND. pose proof (ok_chain C ch O k) as G. rewrite E in ND, G. pose proof G as (r & GA & -> & n & Hw & GB)%chain_app. apply NoDup_app in ND as (NA & NAB & [Nw NB]%NoDup_cons).
  assert (w ∉ A) as NwA by (intros X; apply (NAB w X); left). unfold chain_squeeze. unfold get_links at 1. rewrite Hw. cbn [obind fst snd]. destruct (store_last C k A (Some w) n NA GA) as (C1 & -> & GA1 & O1 & Eh1 & D1). cbn [obind]. unfold get_links at 1. rewrite O1, Hw by done. cbn [obind fst snd].
  assert (chain (links C1) (Next w) n B None) as GB1 by (apply chain_frame with (links C); [|done]; intros u Hu; apply O1; intros X; apply (NAB u X); by right).
  assert (exists C2, match n with Some n0 => set_links C1 n0 (fun m => (fst m, Some (last_ptr (Head k) A))) | None => Ok C1 end = Ok C2 /\ heads C2 = heads C1 /\ chain (links C2) (last_ptr (Head k) A) n B None /\
    (forall u, u ∉ B -> links C2 !! u = links C1 !! u) /\ dom (links C2) = dom (links C1)) as (C2 & -> & Eh2 & GB2 & O2 & D2).
  { destruct B as [|b B]; [cbn in GB1; subst n; by exists C1|]. pose proof GB1 as [-> (m & Hm & _)]. rewrite (set_links_ok C1 b _ _ Hm). eexists. split; [done|]. cbn [heads links fst]. split; [done|]. apply NoDup_cons in NB as [Nb NB]. split; [|split].
    - by apply chain_reprev with (Next w).
    - intros u Hu. rewrite lookup_insert_ne; [done|]. intros ->. apply Hu. left.
    - apply dom_same. by eexists. }
  exists C2. split; [done|]. split; [|congruence]. apply (ok_replace C C2 ch k (A ++ B) O).
  - intros k' Nk. rewrite Eh2. by apply Eh1.
  - intros k' u Nk Hu. assert (u ∉ ch k) as Nu by (intros X; by apply Nk, (ok_disjoint C ch O k' k u)). rewrite E, elem_of_app, elem_of_cons in Nu. rewrite O2, O1 by tauto. done.
  - apply NoDup_app. split; [done|]. split; [|done]. intros u Hu X. apply (NAB u Hu). by right.
  - apply chain_app. exists n. rewrite Eh2. split; [|done]. apply chain_frame with (links C1); [|done]. intros u Hu. apply O2. intros X. apply (NAB u Hu). by right.
  - intros k' u Nk Hu X. apply Nk, (ok_disjoint C ch O k' k u X). rewrite E. rewrite elem_of_app, elem_of_cons in *. tauto.
Qed.
Lemma chain_cons_spec (C : chains) (ch : K -> list cell) (k : K) (w : cell) : ok C ch -> (forall k', w ∉ ch k') -> is_Some (links C !! w) -> exists C', chain_cons C k w = Ok C' /\ ok C' (<[k := w :: ch k]> ch) /\ dom (links C') = dom (links C).
Proof.
  intros O F S. destruct (chain_push_spec C ch k w O F S) as (C' & E & H0). exists C'. split; [|done]. rewrite <- E. destruct S as [l Hl]. unfold chain_push, chain_cons. rewrite !(set_links_ok C w _ l Hl). cbn [obind]. pose proof (ok_chain C ch O k) as G. destruct (heads C !! k) as [n|] eqn:Eh.
  - destruct (ch k) as [|b B] eqn:Ec; [done|]. destruct G as [[= <-] (m & Hm & _)]. assert (n <> w) as N by (intros ->; apply (F k); rewrite Ec; left). unfold set_links, get_links. cbn [links heads]. rewrite !lookup_insert_ne, Hm by done. cbn [obind links heads]. rewrite lookup_insert_ne, lookup_insert_eq by done. cbn [obind fst snd links heads]. rewrite (insert_insert_ne (<[w := (Some n, l.2)]> (links C)) w n) by done. by rewrite insert_insert_eq.
  - cbn [obind]. unfold set_links, get_links. cbn [links heads]. rewrite lookup_insert_eq. cbn [obind fst snd]. by rewrite insert_insert_eq.
Qed.

Lemma ok_ext (C : chains) (ch ch' : K -> list cell) : (forall k, ch' k = ch k) -> ok C ch -> ok C ch'.
Proof. intros E [N G D]. split; [intros k; by rewrite E|intros k; rewrite E; apply G|]. intros k k' w. rewrite !E. apply D. Qed.

(** A cell on no chain may be written or freed, and a head dropped. *)
Lemma ok_outside (C : chains) (ch : K -> list cell) (w : cell) (h : lmap) : ok C ch -> (forall k, w ∉ ch k) -> (forall u, u <> w -> h !! u = links C !! u) -> ok (MkChains (heads C) h) ch.
Proof.
  intros [N G D] F E. split; [done| |done]. intros k. cbn [links heads]. apply chain_frame with (links C); [|apply G]. intros u Hu. apply E. intros ->. by apply (F k).
Qed.
Lemma ok_drop (C : chains) (ch : K -> list cell) (k : K) : ok C ch -> ok (MkChains (delete k (heads C)) (links C)) (<[k := []]> ch).
Proof.
  intros O. apply (ok_replace C _ ch k [] O); cbn [heads links].
  - intros k' Nk. by rewrite lookup_delete_ne.
  - done.
  - constructor.
  - by rewrite lookup_delete_eq.
  - intros k' w _ X. by apply elem_of_nil in X.
Qed.
End Chains.
Arguments ptr K : clear implicits.
Arguments chains K {_ _}.
