(* ===== verification/Whowas.v ===== *)
(** * Past nicknames: [ircd/whowas.c]

    The history of nicknames: a list of records, newest first, that keeps at most a
    configured number of them, with two ways in: by the hash of the nickname, and from a
    client to the records of nicknames it had.  The fields of a [struct Whowas] are kept in
    three maps, its contents, its links on the two kinds of chain and its links on the list
    of all records; a record that was freed is in none of them, and touching it is [Oob]. *)

From stdpp Require Import base functions list gmap fin_maps strings.
From Stdlib Require Import ZArith Lia Ascii.
From S2P Require Import Prelude Chattr Strings Chains.

Local Open Scope ircu_scope.
Local Open Scope Z_scope.

Definition BITS_PER_COL : Z := 3.
Definition BITS_PER_COL_MASK : Z := 0x7.
Definition WW_MAX_INITIAL : Z := 16.
Definition WW_MAX_INITIAL_MASK : Z := WW_MAX_INITIAL - 1.

Abbreviation cid := positive.

(** What [add_history] copies from a client. *)
Record client : Type := MkClient {
  c_name : list ascii; c_username : list ascii; c_host : list ascii; c_realhost : list ascii;
  c_hidden : bool; c_server : list ascii; c_info : list ascii; c_away : option (list ascii)
}.
Record Whowas : Type := MkWhowas {
  ww_hashv : Z; ww_name : list ascii; ww_username : list ascii; ww_hostname : list ascii; ww_realhost : option (list ascii);
  ww_servername : list ascii; ww_realname : list ascii; ww_away : option (list ascii); ww_logoff : Z; ww_online : option cid
}.
Record history : Type := MkH {
  data : gmap cell Whowas;
  hashed : chains Z;                                  (** [hnext], [hprevnextp], [whowashash] *)
  owned : chains cid;                                 (** [cnext], [cprevnextp], [cli_whowas] *)
  wlinks : gmap cell (option cell * option cell);     (** [wnext], [wprev] *)
  ww_list : option cell;
  ww_tail : option cell;
  ww_alloc : Z
}.

Fixpoint hash_loop (name : list ascii) (hash hash2 : Z) : Z * Z :=
  match name with
  | [] => (hash, hash2)
  | c :: name => let lower := uchar (ToLower c) in hash_loop name (u32 (u32 (Z.shiftl hash 1) + lower)) (u32 (Z.shiftr hash2 1 + lower))
  end.
(** The first character is taken for granted. *)
Definition hash_whowas_name (name : list ascii) : outcome Z :=
  match name with
  | [] => Oob
  | _ => let (hash, hash2) := hash_loop name 0 0 in Ok (Z.shiftl (Z.land hash WW_MAX_INITIAL_MASK) BITS_PER_COL + Z.land hash2 BITS_PER_COL_MASK)
  end.

Definition get_data (st : history) (w : cell) : outcome Whowas := match data st !! w with Some x => Ok x | None => Oob end.
Definition get_wl (st : history) (w : cell) : outcome (option cell * option cell) := match wlinks st !! w with Some x => Ok x | None => Oob end.
Definition set_wl (st : history) (w : cell) (f : option cell * option cell -> option cell * option cell) : outcome history :=
  let* l := get_wl st w in Ok (MkH (data st) (hashed st) (owned st) (<[w := f l]> (wlinks st)) (ww_list st) (ww_tail st) (ww_alloc st)).
Definition set_data (st : history) (w : cell) (x : Whowas) : history := MkH (<[w := x]> (data st)) (hashed st) (owned st) (wlinks st) (ww_list st) (ww_tail st) (ww_alloc st).
Definition set_hashed (st : history) (C : chains Z) : history := MkH (data st) C (owned st) (wlinks st) (ww_list st) (ww_tail st) (ww_alloc st).
Definition set_owned (st : history) (C : chains cid) : history := MkH (data st) (hashed st) C (wlinks st) (ww_list st) (ww_tail st) (ww_alloc st).
Definition set_ends (st : history) (l t : option cell) : history := MkH (data st) (hashed st) (owned st) (wlinks st) l t (ww_alloc st).
Definition set_alloc (st : history) (n : Z) : history := MkH (data st) (hashed st) (owned st) (wlinks st) (ww_list st) (ww_tail st) n.

(** [whowas_clean] of a record: it is taken out of its chains and of the list; the head of
    the list is left as it is. *)
Definition whowas_clean (st : history) (ww : cell) : outcome history :=
  let* x := get_data st ww in
  let* st := match ww_online x with Some _ => let* C := chain_unlink (owned st) ww in Ok (set_owned st C) | None => Ok st end in
  let* C := chain_unlink (hashed st) ww in
  let st := set_hashed st C in
  let* l := get_wl st ww in
  let* st := match fst l with Some n => set_wl st n (fun m => (fst m, snd l)) | None => Ok st end in
  let* l := get_wl st ww in
  let* st := match snd l with Some p => set_wl st p (fun m => (fst l, snd m)) | None => Ok st end in
  let* l := get_wl st ww in
  Ok (if bool_decide (ww_tail st = Some ww) then set_ends st (ww_list st) (snd l) else st).

(** The memory of a record given back, and taken and cleared. *)
Definition free_record (st : history) (ww : cell) : history :=
  MkH (delete ww (data st)) (MkChains (heads (hashed st)) (delete ww (links (hashed st)))) (MkChains (heads (owned st)) (delete ww (links (owned st)))) (delete ww (wlinks st)) (ww_list st) (ww_tail st) (ww_alloc st).
Definition zero_data : Whowas := MkWhowas 0 [] [] [] None [] [] None 0 None.
Definition clear_record (st : history) (ww : cell) : history :=
  MkH (<[ww := zero_data]> (data st)) (MkChains (heads (hashed st)) (<[ww := (None, None)]> (links (hashed st)))) (MkChains (heads (owned st)) (<[ww := (None, None)]> (links (owned st)))) (<[ww := (None, None)]> (wlinks st)) (ww_list st) (ww_tail st) (ww_alloc st).

Definition whowas_free (st : history) (ww : cell) : outcome history :=
  let* st := whowas_clean st ww in
  Ok (set_alloc (free_record st ww) (u32 (ww_alloc st - 1))).

(** [feature_int] is compared as unsigned.  With no record to reclaim the result of
    [whowas_clean] is NULL, and clearing it is [Oob]. *)
Definition whowas_alloc (length : Z) (st : history) : outcome (history * cell) :=
  if u32 length <=? ww_alloc st then
    match ww_tail st with
    | Some ww => let* st := whowas_clean st ww in Ok (clear_record st ww, ww)
    | None => Oob
    end
  else
    let ww := fresh (dom (data st)) in
    Ok (clear_record (set_alloc st (u32 (ww_alloc st + 1))) ww, ww).

Fixpoint realloc_loop (fuel : nat) (length : Z) (st : history) : outcome history :=
  match fuel with
  | O => Fuel
  | S fuel =>
      if u32 length <? ww_alloc st then
        match ww_tail st with
        | None => Ok st
        | Some ww => let* st := whowas_free st ww in realloc_loop fuel length st
        end
      else Ok st
  end.
Definition whowas_realloc (length : Z) (st : history) : outcome history := realloc_loop (S (size (data st))) length st.

Definition add_history (length now : Z) (st : history) (cptr : cid) (c : client) (still_on : bool) : outcome history :=
  let* (st, ww) := whowas_alloc length st in
  let* hashv := hash_whowas_name (c_name c) in
  let x := MkWhowas hashv (c_name c) (c_username c) (c_host c) (if c_hidden c then Some (c_realhost c) else None) (c_server c) (c_info c) (c_away c) now (if still_on then Some cptr else None) in
  let st := set_data st ww x in
  let* st := if still_on then let* C := chain_push (owned st) cptr ww in Ok (set_owned st C) else Ok st in
  let n := ww_list st in
  let* st := set_wl st ww (fun l => (n, snd l)) in
  let* st := match n with Some n => set_wl st n (fun l => (fst l, Some ww)) | None => Ok st end in
  let st := set_ends st (Some ww) (match ww_tail st with None => Some ww | t => t end) in
  let* C := chain_push (hashed st) hashv ww in
  Ok (set_hashed st C).

Definition set_online (x : Whowas) (o : option cid) : Whowas := MkWhowas (ww_hashv x) (ww_name x) (ww_username x) (ww_hostname x) (ww_realhost x) (ww_servername x) (ww_realname x) (ww_away x) (ww_logoff x) o.
Fixpoint off_loop (fuel : nat) (st : history) (temp : option cell) : outcome history :=
  match fuel with
  | O => Fuel
  | S fuel =>
      match temp with
      | None => Ok st
      | Some w =>
          let* x := get_data st w in
          let st := set_data st w (set_online x None) in
          let* l := get_links (owned st) w in
          off_loop fuel st (fst l)
      end
  end.
Definition off_history (st : history) (cptr : cid) : outcome history := off_loop (S (size (data st))) st (heads (owned st) !! cptr).

Fixpoint chase_loop (fuel : nat) (st : history) (nick : list ascii) (timelimit : Z) (temp : option cell) : outcome (option cid) :=
  match fuel with
  | O => Fuel
  | S fuel =>
      match temp with
      | None => Ok None
      | Some w =>
          let* x := get_data st w in
          if (ircd_strcmp nick (ww_name x) =? 0) && (timelimit <? ww_logoff x) then Ok (ww_online x)
          else let* l := get_links (hashed st) w in chase_loop fuel st nick timelimit (fst l)
      end
  end.
Definition get_history (now chase : Z) (st : history) (nick : list ascii) : outcome (option cid) :=
  let* h := hash_whowas_name nick in
  chase_loop (S (size (data st))) st nick (now - chase) (heads (hashed st) !! h).

Definition initwhowas : history := MkH ∅ (MkChains ∅ ∅) (MkChains ∅ ∅) ∅ None None 0.

(** [remove_client_from_list] of [list.c]: a user who leaves; his memory, and with it
    [cli_whowas], is given back. *)
Definition client_leaves (length now : Z) (st : history) (cptr : cid) (c : client) : outcome history :=
  let* st := add_history length now st cptr c false in
  let* st := off_history st cptr in
  Ok (set_owned st (MkChains (delete cptr (heads (owned st))) (links (owned st)))).

(** ** The list of all records *)
Fixpoint dl (m : gmap cell (option cell * option cell)) (prev p : option cell) (L : list cell) : Prop :=
  match L with
  | [] => p = None
  | w :: L => p = Some w /\ exists n, m !! w = Some (n, prev) /\ dl m (Some w) n L
  end.

Lemma dl_frame (m m' : gmap cell (option cell * option cell)) (L : list cell) : forall prev p, (forall w, w ∈ L -> m' !! w = m !! w) -> dl m prev p L -> dl m' prev p L.
Proof.
  induction L as [|w L IH]; intros prev p E D; [done|]. destruct D as [-> (n & Hn & D)]. split; [done|]. exists n. split; [rewrite E; [done|left]|]. apply IH; [|done]. intros u Hu. apply E. by right.
Qed.
Lemma dl_other (m : gmap cell (option cell * option cell)) (L : list cell) (w : cell) (l : option cell * option cell) (prev p : option cell) : w ∉ L -> dl m prev p L -> dl (<[w := l]> m) prev p L.
Proof. intros N. apply dl_frame. intros u Hu. rewrite lookup_insert_ne; [done|]. by intros ->. Qed.
(** The last record cut off, where it is not the only one. *)
Lemma dl_cut (m : gmap cell (option cell * option cell)) (A : list cell) (p w : cell) : forall prev hd, NoDup (A ++ [p; w]) -> dl m prev hd (A ++ [p; w]) ->
  exists q, m !! w = Some (None, Some p) /\ m !! p = Some (Some w, q) /\ dl (<[p := (None, q)]> m) prev hd (A ++ [p]).
Proof.
  induction A as [|a A IH]; intros prev hd ND D; cbn [app] in *.
  - destruct D as [-> (n & Hp & -> & n' & Hw & ->)]. exists prev. split; [done|]. split; [done|]. split; [done|]. exists None. by rewrite lookup_insert_eq.
  - apply NoDup_cons in ND as [Na ND]. destruct D as [-> (n & Ha & D)]. destruct (IH (Some a) n ND D) as (q & Hw & Hp & D'). exists q. split; [done|]. split; [done|]. split; [done|]. exists n. rewrite lookup_insert_ne; [done|].
    intros ->. apply Na, elem_of_app. right. left.
Qed.
Lemma dl_push (m : gmap cell (option cell * option cell)) (L : list cell) (p : option cell) (w : cell) : w ∉ L -> NoDup L -> dl m None p L ->
  exists m', match p with Some n => match m !! n with Some l => Some (<[n := (fst l, Some w)]> m) | None => None end | None => Some m end = Some m' /\ dl m' (Some w) p L /\ (forall u, u ∉ L -> m' !! u = m !! u) /\ dom m' = dom m.
Proof.
  intros Nw ND D. destruct L as [|n L]; [cbn in D; subst p; by exists m|]. pose proof D as [-> (k & Hn & D')]. rewrite Hn. eexists. split; [done|]. apply NoDup_cons in ND as [Nn _]. cbn [fst]. split; [|split].
  - split; [done|]. exists k. rewrite lookup_insert_eq. split; [done|]. by apply dl_other.
  - intros u Hu. rewrite lookup_insert_ne; [done|]. intros ->. apply Hu. left.
  - rewrite dom_insert_L. apply subseteq_union_1_L, singleton_subseteq_l, elem_of_dom. by eexists.
Qed.

(** ** The state as a list of records *)
Definition hv (st : history) (w : cell) : option Z := option_map ww_hashv (data st !! w).
Definition onl (st : history) (w : cell) : option cid := match data st !! w with Some x => ww_online x | None => None end.
Definition by_hash (st : history) (L : list cell) (k : Z) : list cell := filter (fun w => hv st w = Some k) L.
Definition by_owner (st : history) (L : list cell) (c : cid) : list cell := filter (fun w => onl st w = Some c) L.

(** The records [L], newest first, and perhaps one, [X], that is on no list. *)
Record rep (st : history) (L : list cell) (X : option cell) : Prop := {
  r_nodup : NoDup L;
  r_out : forall w, X = Some w -> w ∉ L;
  r_data : forall w, w ∈ dom (data st) <-> w ∈ L \/ X = Some w;
  r_doms : dom (links (hashed st)) = dom (data st) /\ dom (links (owned st)) = dom (data st) /\ dom (wlinks st) = dom (data st);
  r_dl : dl (wlinks st) None (ww_list st) L;
  r_tail : ww_tail st = last L;
  r_alloc : ww_alloc st = Z.of_nat (length L) + match X with Some _ => 1 | None => 0 end;
  r_hashed : ok (hashed st) (by_hash st L);
  r_owned : ok (owned st) (by_owner st L);
  r_names : forall w x, w ∈ L -> data st !! w = Some x -> hash_whowas_name (ww_name x) = Ok (ww_hashv x) /\ no_nul (ww_name x)
}.

Lemma filter_ext_in {A : Type} (P Q : A -> Prop) `{forall x, Decision (P x)} `{forall x, Decision (Q x)} (l : list A) : (forall x, x ∈ l -> P x <-> Q x) -> filter P l = filter Q l.
Proof.
  induction l as [|a l IH]; intros E; [done|]. assert (filter P l = filter Q l) as Ef by (apply IH; intros x Hx; apply E; by right). destruct (decide (P a)) as [Pa|Pa].
  - rewrite !filter_cons_True; [by rewrite Ef|apply E; [left|done]|done].
  - rewrite !filter_cons_False; [done|intros Qa; apply Pa, E; [left|done]|done].
Qed.
Lemma by_hash_ext (st st' : history) (L : list cell) (k : Z) : (forall w, w ∈ L -> data st' !! w = data st !! w) -> by_hash st' L k = by_hash st L k.
Proof. intros E. apply filter_ext_in. intros w Hw. unfold hv. by rewrite E. Qed.
Lemma by_owner_ext (st st' : history) (L : list cell) (c : cid) : (forall w, w ∈ L -> data st' !! w = data st !! w) -> by_owner st' L c = by_owner st L c.
Proof. intros E. apply filter_ext_in. intros w Hw. unfold onl. by rewrite E. Qed.
Lemma filter_last {A : Type} (P : A -> Prop) `{forall x, Decision (P x)} (L : list A) (w : A) : filter P (L ++ [w]) = if decide (P w) then filter P L ++ [w] else filter P L.
Proof. rewrite filter_app. destruct (decide (P w)); [by rewrite filter_cons_True|]. by rewrite filter_cons_False, app_nil_r. Qed.

(** Taking the last of a family of filtered lists out of its chain. *)
Lemma unlink_last {K : Type} `{Countable K} (C : chains K) (f : cell -> option K) (L : list cell) (w : cell) (k : K) : f w = Some k -> ok C (fun k => filter (fun w => f w = Some k) (L ++ [w])) ->
  exists C', chain_unlink C w = Ok C' /\ ok C' (fun k => filter (fun w => f w = Some k) L) /\ dom (links C') = dom (links C).
Proof.
  intros Ek O. destruct (chain_unlink_spec C _ k (filter (fun w => f w = Some k) L) [] w O) as (C' & E & O' & D); [cbn; by rewrite filter_last, decide_True|]. exists C'. split; [done|]. split; [|done]. eapply ok_ext; [|exact O']. intros k'. cbn.
  destruct (decide (k' = k)) as [->|N]; [by rewrite fn_lookup_insert, app_nil_r|]. rewrite fn_lookup_insert_ne by done. rewrite filter_last, decide_False; [done|congruence].
Qed.
Lemma push_first {K : Type} `{Countable K} (C : chains K) (f g : cell -> option K) (L : list cell) (w : cell) (k : K) : g w = Some k -> (forall u, u ∈ L -> g u = f u) -> w ∉ L -> is_Some (links C !! w) -> ok C (fun k => filter (fun w => f w = Some k) L) ->
  exists C', chain_push C k w = Ok C' /\ ok C' (fun k => filter (fun w => g w = Some k) (w :: L)) /\ dom (links C') = dom (links C).
Proof.
  intros Ek Eg Nw S O. destruct (chain_push_spec C _ k w O) as (C' & E & O' & D); [intros k' [_ X]%list_elem_of_filter; done|done|]. exists C'. split; [done|]. split; [|done]. eapply ok_ext; [|exact O']. intros k'. cbn.
  assert (filter (fun u => g u = Some k') L = filter (fun u => f u = Some k') L) as Ef by (apply filter_ext_in; intros u Hu; by rewrite Eg).
  destruct (decide (k' = k)) as [->|N]; [rewrite fn_lookup_insert, decide_True by done|rewrite fn_lookup_insert_ne, decide_False by (done || congruence)]; by rewrite <- Ef.
Qed.

(** ** The operations *)
Lemma rep_lookup (st : history) (L : list cell) (X : option cell) (w : cell) : rep st L X -> w ∈ L \/ X = Some w -> is_Some (data st !! w) /\ is_Some (links (hashed st) !! w) /\ is_Some (links (owned st) !! w) /\ is_Some (wlinks st !! w).
Proof. intros R H. destruct (r_doms _ _ _ R) as (D1 & D2 & D3). assert (w ∈ dom (data st)) as Hd by (by apply R). rewrite <- !elem_of_dom, D1, D2, D3. done. Qed.

Lemma get_wl_ok (st : history) (w : cell) (l : option cell * option cell) : wlinks st !! w = Some l -> get_wl st w = Ok l.
Proof. intros E. unfold get_wl. by rewrite E. Qed.

(** The oldest record taken off, where it is not the only one. *)
Lemma ww_clean_spec (st : history) (L : list cell) (w : cell) : L <> [] -> rep st (L ++ [w]) None -> exists st', whowas_clean st w = Ok st' /\ rep st' L (Some w) /\ data st' = data st.
Proof.
  intros NE R. pose proof R as [ND RO RD (D1 & D2 & D3) RL RT RA RH RW RN]. destruct (rep_lookup st _ None w R) as ([x Hx] & _); [left; apply elem_of_app; right; left|].
  assert (w ∉ L) as Nw by (apply NoDup_app in ND as (_ & N & _); intros X; apply (N w X); left). unfold whowas_clean. unfold get_data. rewrite Hx. cbn [obind].
  assert (exists C1, match ww_online x with Some _ => let* C := chain_unlink (owned st) w in Ok (set_owned st C) | None => Ok st end = Ok (set_owned st C1) /\ ok C1 (by_owner st L) /\ dom (links C1) = dom (data st)) as (C1 & -> & O1 & DC1).
  { assert (onl st w = ww_online x) as Eo by (unfold onl; by rewrite Hx). destruct (ww_online x) as [c|].
    - destruct (unlink_last (owned st) (onl st) L w c Eo RW) as (C & -> & O & D). exists C. split; [done|]. split; [done|congruence].
    - exists (owned st). split; [by destruct st|]. split; [|done]. eapply ok_ext; [|exact RW]. intros c. unfold by_owner. rewrite filter_last, decide_False; [done|congruence]. }
  cbn [obind set_owned hashed]. destruct (unlink_last (hashed st) (hv st) L w (ww_hashv x)) as (C2 & -> & O2 & DC2); [unfold hv; by rewrite Hx|exact RH|]. cbn [obind]. destruct (exists_last NE) as (A & p & ->).
  assert ((A ++ [p]) ++ [w] = A ++ [p; w]) as EQ by (by rewrite <- app_assoc). rewrite EQ in ND, RL. destruct (dl_cut (wlinks st) A p w None (ww_list st) ND RL) as (q & Hw & Hp & DL). set (s1 := set_hashed (set_owned st C1) C2).
  rewrite (get_wl_ok s1 w _ Hw). cbn [obind fst snd]. rewrite (get_wl_ok s1 w _ Hw). cbn [obind fst snd]. unfold set_wl. rewrite (get_wl_ok s1 p _ Hp). cbn [obind fst snd].
  rewrite (get_wl_ok _ w (None, Some p)) by (cbn [wlinks]; rewrite lookup_insert_ne; [done|intros ->; apply Nw, elem_of_app; right; left]). cbn [obind snd].
  rewrite last_snoc in RT. cbn [ww_tail]. rewrite bool_decide_true by done. eexists. split; [done|]. split; [|done]. split; cbn [s1 set_ends set_hashed set_owned data hashed owned wlinks ww_list ww_tail ww_alloc].
  - by apply (r_nodup _ _ _) in R as (R' & _ & _)%NoDup_app.
  - by intros u [= <-].
  - intros u. rewrite RD, !elem_of_app, !list_elem_of_singleton. clear. naive_solver.
  - split; [congruence|]. split; [done|]. rewrite dom_insert_L, D3. apply subseteq_union_1_L, singleton_subseteq_l. rewrite <- D3. apply elem_of_dom. by eexists.
  - done.
  - by rewrite last_snoc.
  - rewrite RA, !length_app. cbn. lia.
  - exact O2.
  - exact O1.
  - intros u y Hu. apply RN. apply elem_of_app. by left.
Qed.

Lemma free_spec (st : history) (L : list cell) (w : cell) : rep st L (Some w) -> Z.of_nat (length L) < 2 ^ 32 -> rep (set_alloc (free_record st w) (u32 (ww_alloc st - 1))) L None /\ forall u, u ∈ L -> data (free_record st w) !! u = data st !! u.
Proof.
  intros [ND RO RD (D1 & D2 & D3) RL RT RA RH RW RN] Lt. specialize (RO w eq_refl). assert (forall u, u ∈ L -> data (free_record st w) !! u = data st !! u) as E by (intros u Hu; cbn [free_record data]; rewrite lookup_delete_ne; [done|by intros ->]). split; [|done].
  split; cbn [set_alloc free_record data hashed owned wlinks ww_list ww_tail ww_alloc links heads]; try done.
  - intros u. rewrite dom_delete_L, elem_of_difference, RD, elem_of_singleton. clear -RO. naive_solver.
  - rewrite !dom_delete_L. by rewrite D1, D2, D3.
  - apply dl_frame with (wlinks st); [|done]. intros u Hu. rewrite lookup_delete_ne; [done|]. by intros ->.
  - rewrite RA, u32_small by lia. lia.
  - apply (ok_outside (hashed st) _ w); [|intros k [_ X]%list_elem_of_filter; done|intros u Hu; by rewrite lookup_delete_ne]. eapply ok_ext; [|exact RH]. intros k. by apply by_hash_ext.
  - apply (ok_outside (owned st) _ w); [|intros k [_ X]%list_elem_of_filter; done|intros u Hu; by rewrite lookup_delete_ne]. eapply ok_ext; [|exact RW]. intros k. by apply by_owner_ext.
  - intros u y Hu Hy. rewrite lookup_delete_ne in Hy by (by intros ->). by apply (RN u).
Qed.

(** A record on no list, cleared; it may be new. *)
Lemma clear_spec (st : history) (L : list cell) (X : option cell) (w : cell) (n : Z) : rep st L X -> w ∉ L -> X = Some w \/ X = None -> n = Z.of_nat (length L) + 1 ->
  rep (clear_record (set_alloc st n) w) L (Some w) /\ forall u, u ∈ L -> data (clear_record (set_alloc st n) w) !! u = data st !! u.
Proof.
  intros [ND RO RD (D1 & D2 & D3) RL RT RA RH RW RN] Nw HX En. set (st' := clear_record (set_alloc st n) w). assert (forall u, u ∈ L -> data st' !! u = data st !! u) as E by (intros u Hu; cbn [st' clear_record set_alloc data]; rewrite lookup_insert_ne; [done|by intros ->]). split; [|done].
  split; cbn [st' set_alloc clear_record data hashed owned wlinks ww_list ww_tail ww_alloc links heads]; try done.
  - by intros u [= <-].
  - intros u. rewrite dom_insert_L, elem_of_union, RD, elem_of_singleton. clear -HX. destruct HX as [-> | ->]; naive_solver.
  - rewrite !dom_insert_L. by rewrite D1, D2, D3.
  - by apply dl_other.
  - apply (ok_outside (hashed st) _ w); [|intros k [_ Y]%list_elem_of_filter; done|intros u Hu; by rewrite lookup_insert_ne]. eapply ok_ext; [|exact RH]. intros k. by apply by_hash_ext.
  - apply (ok_outside (owned st) _ w); [|intros k [_ Y]%list_elem_of_filter; done|intros u Hu; by rewrite lookup_insert_ne]. eapply ok_ext; [|exact RW]. intros k. by apply by_owner_ext.
  - intros u y Hu Hy. rewrite lookup_insert_ne in Hy by (by intros ->). by apply (RN u).
Qed.

Section Spec.
(** The configured length of the history; one record at least is always kept besides the one
    that is reclaimed. *)
Context (len : nat) (Hlen : (2 <= len)%nat) (Hmax : Z.of_nat len < 2 ^ 31).

Lemma ww_alloc_spec (st : history) (L : list cell) : rep st L None -> (length L <= len)%nat ->
  exists st' w, whowas_alloc (Z.of_nat len) st = Ok (st', w) /\ rep st' (take (len - 1) L) (Some w) /\ wlinks st' !! w = Some (None, None) /\ forall u, u ∈ take (len - 1) L -> data st' !! u = data st !! u.
Proof using Hlen Hmax.
  intros R Ll. unfold whowas_alloc. rewrite u32_small by lia. pose proof (r_alloc _ _ _ R) as RA. cbn in RA. rewrite Z.add_0_r in RA. destruct (Z.leb_spec (Z.of_nat len) (ww_alloc st)) as [Le|Gt].
  - destruct (decide (L = [])) as [->|NE]; [cbn in RA; lia|]. destruct (exists_last NE) as (L0 & w & ->). rewrite (r_tail _ _ _ R), last_snoc. rewrite length_app in *. cbn [length] in *. assert (L0 <> []) as NE0 by (intros ->; cbn in *; lia).
    destruct (ww_clean_spec st L0 w NE0 R) as (st1 & -> & R1 & D1). cbn [obind]. eexists _, w. split; [done|]. replace (len - 1)%nat with (length L0) by lia. rewrite take_app_length.
    destruct (clear_spec st1 L0 (Some w) w (ww_alloc st1) R1) as [R2 D2]; [by apply R1|by left|apply (r_alloc _ _ _ R1)|]. split; [exact R2|]. split; [cbn [clear_record wlinks]; apply lookup_insert_eq|]. intros u Hu. rewrite <- D1. by apply D2.
  - eexists _, _. split; [done|]. rewrite take_ge by lia. set (w := fresh (dom (data st))). assert (w ∉ L) as Nw by (intros X; apply (is_fresh (dom (data st))); apply R; by left).
    destruct (clear_spec st L None w (u32 (ww_alloc st + 1)) R Nw) as [R2 D2]; [by right|rewrite u32_small by lia; lia|]. split; [exact R2|]. split; [cbn [clear_record wlinks]; apply lookup_insert_eq|]. exact D2.
Qed.

(** The record filled in and linked. *)
Definition ww_entry (now : Z) (cptr : cid) (c : client) (still_on : bool) (hashv : Z) : Whowas :=
  MkWhowas hashv (c_name c) (c_username c) (c_host c) (if c_hidden c then Some (c_realhost c) else None) (c_server c) (c_info c) (c_away c) now (if still_on then Some cptr else None).

Lemma add_history_spec (now : Z) (st : history) (L : list cell) (cptr : cid) (c : client) (still_on : bool) (h : Z) : rep st L None -> (length L <= len)%nat -> hash_whowas_name (c_name c) = Ok h -> no_nul (c_name c) ->
  exists st' w, add_history (Z.of_nat len) now st cptr c still_on = Ok st' /\ rep st' (w :: take (len - 1) L) None /\ data st' !! w = Some (ww_entry now cptr c still_on h) /\ forall u, u ∈ take (len - 1) L -> data st' !! u = data st !! u.
Proof using Hlen Hmax.
  intros R Ll Hh Nn. unfold add_history. destruct (ww_alloc_spec st L R Ll) as (st1 & w & -> & R1 & W1 & D1). cbn [obind]. rewrite Hh. cbn [obind]. fold (ww_entry now cptr c still_on h). set (x := ww_entry _ _ _ _ _). set (L1 := take (len - 1) L) in *.
  pose proof R1 as [ND RO RD (E1 & E2 & E3) RL RT RA RH RW RN]. specialize (RO w eq_refl). destruct (rep_lookup st1 L1 (Some w) w R1 ltac:(by right)) as (_ & S1 & S2 & _). set (st2 := set_data st1 w x). assert (data st2 !! w = Some x) as Hx by apply lookup_insert_eq.
  assert (forall u, u ∈ L1 -> data st2 !! u = data st1 !! u) as D2 by (intros u Hu; cbn [st2 set_data data]; rewrite lookup_insert_ne; [done|by intros ->]).
  assert (exists C1, (if still_on then let* C := chain_push (owned st2) cptr w in Ok (set_owned st2 C) else Ok st2) = Ok (set_owned st2 C1) /\ ok C1 (by_owner st2 (w :: L1)) /\ dom (links C1) = dom (data st1)) as (C1 & -> & O1 & DC1).
  { destruct still_on.
    - destruct (push_first (owned st2) (onl st1) (onl st2) L1 w cptr) as (C & -> & O & D); [unfold onl; by rewrite Hx|intros u Hu; unfold onl; by rewrite D2|done|done|exact RW|]. exists C. split; [done|]. split; [done|]. rewrite D. exact E2.
    - exists (owned st2). split; [done|]. split; [|exact E2]. eapply ok_ext; [|exact RW]. intros k. unfold by_owner at 1. rewrite filter_cons_False by (unfold onl; by rewrite Hx). by apply (by_owner_ext st1 st2). }
  cbn [obind]. set (st3 := set_owned st2 C1). unfold set_wl at 1. rewrite (get_wl_ok st3 w _ W1). cbn [obind snd]. set (m := <[w := (ww_list st1, None)]> (wlinks st1)).
  destruct (dl_push m L1 (ww_list st1) w RO ND) as (m' & Em & DL & Om & Dm); [by apply dl_other|].
  assert (match ww_list st1 with Some n => set_wl (MkH (data st3) (hashed st3) (owned st3) m (ww_list st3) (ww_tail st3) (ww_alloc st3)) n (fun l => (fst l, Some w)) | None => Ok (MkH (data st3) (hashed st3) (owned st3) m (ww_list st3) (ww_tail st3) (ww_alloc st3)) end = Ok (MkH (data st3) (hashed st3) (owned st3) m' (ww_list st3) (ww_tail st3) (ww_alloc st3))) as Ew.
  { destruct (ww_list st1) as [n|]; [|by injection Em as <-]. unfold set_wl, get_wl. cbn [wlinks]. destruct (m !! n) as [l|]; [|done]. by injection Em as <-. }
  cbn [st3 st2 set_owned set_data wlinks ww_list data hashed owned ww_tail ww_alloc] in Ew |- *. fold m. rewrite Ew. clear Ew. cbn [obind set_ends hashed]. destruct (push_first (hashed st1) (hv st1) (hv st2) L1 w h) as (C2 & -> & O2 & DC2); [unfold hv; by rewrite Hx|intros u Hu; unfold hv; by rewrite D2|done|done|exact RH|]. cbn [obind].
  eexists _, w. split; [done|]. assert (dom (<[w := x]> (data st1)) = dom (data st1)) as Dd by (rewrite dom_insert_L; apply subseteq_union_1_L, singleton_subseteq_l, RD; by right). split; [|split; [exact Hx|intros u Hu; rewrite <- D1 by done; by apply D2]].
  split; cbn [set_hashed set_ends data hashed owned wlinks ww_list ww_tail ww_alloc].
  - by apply NoDup_cons.
  - done.
  - intros u. rewrite Dd, RD, elem_of_cons. clear. naive_solver.
  - rewrite Dd. split; [congruence|]. split; [congruence|]. rewrite Dm. unfold m. rewrite dom_insert_L, E3. apply subseteq_union_1_L, singleton_subseteq_l, RD. by right.
  - split; [done|]. exists (ww_list st1). rewrite Om by done. unfold m. rewrite lookup_insert_eq. by split.
  - rewrite RT. destruct L1 as [|a L1]; [done|]. rewrite last_cons_cons. destruct (last (a :: L1)) eqn:El; [done|]. by apply last_None in El.
  - rewrite RA. cbn [length]. lia.
  - exact O2.
  - exact O1.
  - intros u y Hu Hy. apply elem_of_cons in Hu as [->|Hu]; [rewrite lookup_insert_eq in Hy; injection Hy as <-; by split|]. rewrite lookup_insert_ne in Hy by (by intros ->). by apply (RN u).
Qed.

Lemma realloc_loop_spec (fuel : nat) : forall st L, (length L < fuel)%nat -> rep st L None -> Z.of_nat (length L) < 2 ^ 32 ->
  exists st', realloc_loop fuel (Z.of_nat len) st = Ok st' /\ rep st' (take len L) None /\ forall u, u ∈ take len L -> data st' !! u = data st !! u.
Proof using Hlen Hmax.
  induction fuel as [|fuel IH]; intros st L Lf R Lm; [lia|]. cbn [realloc_loop]. rewrite u32_small by lia. pose proof (r_alloc _ _ _ R) as RA. cbn in RA. rewrite Z.add_0_r in RA. destruct (Z.ltb_spec (Z.of_nat len) (ww_alloc st)) as [Lt|Ge].
  - destruct (decide (L = [])) as [->|NE]; [cbn in RA; lia|]. destruct (exists_last NE) as (L0 & w & ->). rewrite (r_tail _ _ _ R), last_snoc. rewrite length_app in *. cbn [length] in *. assert (L0 <> []) as NE0 by (intros ->; cbn in *; lia).
    unfold whowas_free. destruct (ww_clean_spec st L0 w NE0 R) as (st1 & -> & R1 & D1). cbn [obind]. destruct (free_spec st1 L0 w R1) as [R2 D2]; [lia|]. destruct (IH _ L0 ltac:(lia) R2) as (st3 & E3 & R3 & D3); [lia|].
    exists st3. split; [done|]. rewrite take_app_le by lia. split; [done|]. intros u Hu. rewrite D3 by done. rewrite <- D1. apply D2. by apply (subseteq_take len L0).
  - exists st. rewrite take_ge by lia. done.
Qed.
End Spec.

(** ** Leaving and searching *)
Definition clear_online (c : cid) (x : Whowas) : Whowas := if decide (ww_online x = Some c) then set_online x None else x.

Lemma off_loop_spec (Q : list cell) : forall fuel st pp temp, NoDup Q -> chain (links (owned st)) pp temp Q None -> (forall u, u ∈ Q -> is_Some (data st !! u)) -> (length Q < fuel)%nat ->
  exists d, off_loop fuel st temp = Ok (MkH d (hashed st) (owned st) (wlinks st) (ww_list st) (ww_tail st) (ww_alloc st)) /\ dom d = dom (data st) /\
    forall u, d !! u = if decide (u ∈ Q) then option_map (fun x => set_online x None) (data st !! u) else data st !! u.
Proof.
  induction Q as [|w Q IH]; intros fuel st pp temp ND C S Lf; (destruct fuel as [|fuel]; [cbn in Lf; lia|]); cbn [off_loop].
  - cbn in C. subst temp. exists (data st). split; [by destruct st|]. split; [done|]. intros u. rewrite decide_False; [done|apply not_elem_of_nil].
  - destruct C as [-> (n & Hn & C)]. apply NoDup_cons in ND as [Nw ND]. destruct (S w ltac:(left)) as [x Hx]. unfold get_data. rewrite Hx. cbn [obind]. set (st1 := set_data st w _). unfold get_links. cbn [st1 set_data owned]. rewrite Hn. cbn [obind fst]. fold st1.
    destruct (IH fuel st1 (Next w) n ND C) as (d & -> & Dd & Hd); [|cbn in Lf; lia|].
    { intros u Hu. cbn [st1 set_data data]. rewrite lookup_insert_ne by (by intros ->). apply S. by right. }
    exists d. split; [done|]. cbn [st1 set_data data] in Dd, Hd. split; [rewrite Dd, dom_insert_L; apply subseteq_union_1_L, singleton_subseteq_l, elem_of_dom; by exists x|]. intros u. rewrite Hd. destruct (decide (u = w)) as [->|N].
    + rewrite decide_False, decide_True by (done || left). by rewrite lookup_insert_eq, Hx.
    + rewrite lookup_insert_ne by done. destruct (decide (u ∈ Q)) as [Hu|Hu]; [rewrite decide_True by (by right)|rewrite decide_False by (rewrite elem_of_cons; tauto)]; done.
Qed.
Lemma rep_size (st : history) (L : list cell) (X : option cell) : rep st L X -> (length L <= size (data st))%nat.
Proof.
  intros R. assert (list_to_set L ⊆ dom (data st)) as Sub by (intros u Hu; apply elem_of_list_to_set in Hu; apply R; by left). apply subseteq_size in Sub. rewrite size_dom, size_list_to_set in Sub; [done|apply R].
Qed.
Lemma filter_length_le {A : Type} (P : A -> Prop) `{forall x, Decision (P x)} (l : list A) : (length (filter P l) <= length l)%nat.
Proof. induction l as [|a l IH]; [done|]. destruct (decide (P a)); [rewrite filter_cons_True by done|rewrite filter_cons_False by done]; cbn; lia. Qed.

Lemma off_spec (st : history) (L : list cell) (c : cid) : rep st L None ->
  exists st1, off_history st c = Ok st1 /\ let st' := set_owned st1 (MkChains (delete c (heads (owned st1))) (links (owned st1))) in rep st' L None /\ forall u, u ∈ L -> data st' !! u = option_map (clear_online c) (data st !! u).
Proof.
  intros R. pose proof R as [ND RO RD (E1 & E2 & E3) RL RT RA RH RW RN]. pose proof (rep_size _ _ _ R) as Ls. set (Q := by_owner st L c). assert (Q ⊆ L) as SQ by (intros u [_ Hu]%list_elem_of_filter; done).
  assert (forall u, u ∈ L -> is_Some (data st !! u)) as SL by (intros u Hu; by apply (rep_lookup st L None u R); left).
  destruct (off_loop_spec Q (S (size (data st))) st (Head c) (heads (owned st) !! c)) as (d & E & Dd & Hd); [apply (ok_nodup _ _ RW)|apply (ok_chain _ _ RW)|intros u Hu; by apply SL, SQ|unfold Q; pose proof (filter_length_le (fun w => onl st w = Some c) L); unfold by_owner; lia|].
  eexists. split; [exact E|]. cbn [set_owned data owned heads links].
  assert (forall u, u ∈ L -> d !! u = option_map (clear_online c) (data st !! u)) as Hd'.
  { intros u Hu. rewrite Hd. destruct (SL u Hu) as [x Hx]. rewrite Hx. cbn [option_map]. unfold clear_online. assert (u ∈ Q <-> ww_online x = Some c) as Eq by (unfold Q, by_owner; rewrite list_elem_of_filter; unfold onl; rewrite Hx; tauto).
    destruct (decide (u ∈ Q)); [rewrite decide_True by tauto|rewrite decide_False by tauto]; done. }
  split; [|exact Hd']. split; cbn [set_owned data hashed owned wlinks ww_list ww_tail ww_alloc heads links]; try done.
  - intros u. rewrite Dd. apply RD.
  - by rewrite Dd.
  - eapply ok_ext; [|exact RH]. intros k. apply filter_ext_in. intros u Hu. unfold hv. cbn [set_owned data]. rewrite Hd' by done. destruct (data st !! u) as [x|]; [|done]. cbn [option_map]. unfold clear_online. by destruct (decide _).
  - apply (ok_ext _ (<[c := []]> (by_owner st L))); [|by apply ok_drop]. intros k. assert (forall u, u ∈ L -> onl (set_owned (MkH d (hashed st) (owned st) (wlinks st) (ww_list st) (ww_tail st) (ww_alloc st)) (MkChains (delete c (heads (owned st))) (links (owned st)))) u = if decide (onl st u = Some c) then None else onl st u) as Eo.
    { intros u Hu. unfold onl. cbn [set_owned data]. rewrite Hd' by done. destruct (data st !! u) as [x|]; [|done]. cbn [option_map]. unfold clear_online. by destruct (decide (ww_online x = Some c)). }
    destruct (decide (k = c)) as [->|N].
    + rewrite fn_lookup_insert. apply elem_of_nil_inv. intros u [Ho Hu]%list_elem_of_filter. rewrite Eo in Ho by done. by destruct (decide _).
    + rewrite fn_lookup_insert_ne by done. apply filter_ext_in. intros u Hu. rewrite Eo by done. destruct (decide (onl st u = Some c)) as [Ec|]; [|done]. rewrite Ec. split; [done|congruence].
  - intros u y Hu Hy. rewrite Hd' in Hy by done. destruct (data st !! u) as [x|] eqn:Hx; [|done]. injection Hy as <-. unfold clear_online. destruct (decide _); by apply (RN u x).
Qed.

(** The records, newest first. *)
Definition records (st : history) (L : list cell) : list Whowas := omap (fun w => data st !! w) L.
Definition online_of (o : option Whowas) : option cid := match o with Some x => ww_online x | None => None end.
Definition matches (nick : list ascii) (timelimit : Z) (x : Whowas) : bool := bool_decide (fold nick = fold (ww_name x)) && (timelimit <? ww_logoff x).

Lemma chase_loop_spec (nick : list ascii) (t : Z) (st : history) (Q : list cell) : no_nul nick -> forall fuel pp temp, chain (links (hashed st)) pp temp Q None -> (forall u, u ∈ Q -> exists x, data st !! u = Some x /\ no_nul (ww_name x)) -> (length Q < fuel)%nat ->
  chase_loop fuel st nick t temp = Ok (online_of (List.find (matches nick t) (records st Q))).
Proof.
  intros Nn. induction Q as [|w Q IH]; intros fuel pp temp C S Lf; (destruct fuel as [|fuel]; [cbn in Lf; lia|]); cbn [chase_loop]; [cbn in C; by subst temp|].
  destruct C as [-> (n & Hn & C)]. destruct (S w ltac:(left)) as (x & Hx & Nx). unfold get_data. rewrite Hx. cbn [obind]. assert (records st (w :: Q) = x :: records st Q) as -> by (unfold records; cbn [omap list_omap]; by rewrite Hx). cbn [List.find].
  assert ((ircd_strcmp nick (ww_name x) =? 0) = bool_decide (fold nick = fold (ww_name x))) as ->.
  { pose proof (ircd_strcmp_zero nick (ww_name x) Nn Nx) as Z. destruct (Z.eqb_spec (ircd_strcmp nick (ww_name x)) 0) as [E|E]; [rewrite bool_decide_true; tauto|rewrite bool_decide_false; tauto]. }
  fold (matches nick t x). destruct (matches nick t x); [done|]. unfold get_links. rewrite Hn. cbn [obind fst]. apply (IH fuel (Next w)); [done| |cbn in Lf; lia]. intros u Hu. apply S. by right.
Qed.

(** The hash does not see the case of a name. *)
Lemma hash_loop_fold (a : list ascii) : forall b h h2, fold a = fold b -> hash_loop a h h2 = hash_loop b h h2.
Proof. induction a as [|c a IH]; intros [|d b] h h2 E; try done. injection E as E1 E2. cbn [hash_loop]. rewrite E1. by apply IH. Qed.
Lemma hash_whowas_fold (a b : list ascii) : fold a = fold b -> hash_whowas_name a = hash_whowas_name b.
Proof. destruct a as [|c a], b as [|d b]; try done. intros E. unfold hash_whowas_name. by rewrite (hash_loop_fold _ _ 0 0 E). Qed.
Lemma hash_whowas_ok (a : list ascii) : a <> [] -> exists h, hash_whowas_name a = Ok h.
Proof. intros N. destruct a as [|c a]; [done|]. unfold hash_whowas_name. destruct (hash_loop _ _ _). by eexists. Qed.
(** It is an index of the table. *)
Lemma hash_whowas_bound (a : list ascii) (h : Z) : hash_whowas_name a = Ok h -> 0 <= h < WW_MAX_INITIAL * 8.
Proof.
  destruct a as [|c a]; [done|]. unfold hash_whowas_name. destruct (hash_loop _ _ _) as [x y]. intros [= <-]. change WW_MAX_INITIAL_MASK with (Z.ones 4). change BITS_PER_COL_MASK with (Z.ones 3). rewrite !Z.land_ones, Z.shiftl_mul_pow2 by (unfold BITS_PER_COL; lia).
  pose proof (Z.mod_pos_bound x (2 ^ 4) ltac:(lia)). pose proof (Z.mod_pos_bound y (2 ^ 3) ltac:(lia)). unfold BITS_PER_COL, WW_MAX_INITIAL. lia.
Qed.

Lemma find_by_hash (P : Whowas -> bool) (st : history) (h : Z) (L : list cell) : (forall w x, w ∈ L -> data st !! w = Some x -> P x = true -> ww_hashv x = h) -> List.find P (records st (by_hash st L h)) = List.find P (records st L).
Proof.
  intros E. induction L as [|w L IH]; [done|]. assert (List.find P (records st (by_hash st L h)) = List.find P (records st L)) as Ef by (apply IH; intros u x Hu; apply E; by right).
  unfold by_hash in *. destruct (data st !! w) as [x|] eqn:Hx.
  - assert (records st (w :: L) = x :: records st L) as -> by (unfold records; cbn [omap list_omap]; by rewrite Hx). cbn [List.find]. destruct (decide (hv st w = Some h)) as [Hh|Hh].
    + rewrite filter_cons_True by done. assert (forall M, records st (w :: M) = x :: records st M) as -> by (intros M; unfold records; cbn [omap list_omap]; by rewrite Hx). cbn [List.find]. by destruct (P x).
    + rewrite filter_cons_False by done. destruct (P x) eqn:Px; [|done]. exfalso. apply Hh. unfold hv. rewrite Hx. cbn. by rewrite (E w x ltac:(left) Hx Px).
  - assert (records st (w :: L) = records st L) as -> by (unfold records; cbn [omap list_omap]; by rewrite Hx). rewrite filter_cons_False; [done|]. unfold hv. by rewrite Hx.
Qed.

Lemma get_history_spec (now chase : Z) (st : history) (L : list cell) (nick : list ascii) : rep st L None -> nick <> [] -> no_nul nick -> get_history now chase st nick = Ok (online_of (List.find (matches nick (now - chase)) (records st L))).
Proof.
  intros R Ne Nn. pose proof (rep_size _ _ _ R) as Ls. destruct (hash_whowas_ok nick Ne) as [h Hh]. unfold get_history. rewrite Hh. cbn [obind].
  assert (forall u, u ∈ L -> exists x, data st !! u = Some x /\ hash_whowas_name (ww_name x) = Ok (ww_hashv x) /\ no_nul (ww_name x)) as SL.
  { intros u Hu. destruct (rep_lookup st L None u R ltac:(by left)) as ([x Hx] & _). exists x. split; [done|]. by apply (r_names _ _ _ R u). }
  rewrite (chase_loop_spec nick (now - chase) st (by_hash st L h) Nn _ (Head h) _ (ok_chain _ _ (r_hashed _ _ _ R) h)).
  - f_equal. f_equal. apply find_by_hash. intros w x Hw Hx [E%bool_decide_eq_true _]%andb_true_iff. destruct (SL w Hw) as (y & Hy & Eh & _). rewrite Hx in Hy. injection Hy as <-. rewrite <- (hash_whowas_fold _ _ E), Hh in Eh. by injection Eh.
  - intros u [_ Hu]%list_elem_of_filter. destruct (SL u Hu) as (x & Hx & _ & N). by exists x.
  - pose proof (filter_length_le (fun w => hv st w = Some h) L). unfold by_hash. lia.
Qed.

(** ** The specification: a list of the last nicknames *)
Inductive wop : Type :=
| NickChange (now : Z) (cptr : cid) (c : client)
| Leave (now : Z) (cptr : cid) (c : client)
| Resize (length : Z).
Definition run_wop (s : Z * history) (o : wop) : outcome (Z * history) :=
  let (length, st) := s in
  match o with
  | NickChange now cptr c => let* st := add_history length now st cptr c true in Ok (length, st)
  | Leave now cptr c => let* st := client_leaves length now st cptr c in Ok (length, st)
  | Resize length => let* st := whowas_realloc length st in Ok (length, st)
  end.
Fixpoint run_wops (s : Z * history) (ops : list wop) : outcome (Z * history) :=
  match ops with [] => Ok s | o :: ops => let* s := run_wop s o in run_wops s ops end.

Definition named (c : client) : bool := bool_decide (c_name c <> []) && bool_decide (NUL ∉ c_name c).
Definition new_entry (now : Z) (cptr : cid) (c : client) (still_on : bool) : Whowas := ww_entry now cptr c still_on (match hash_whowas_name (c_name c) with Ok h => h | _ => 0 end).
(** A history of fewer than two records breaks the list, see below. *)
Definition spec_wop (s : Z * list Whowas) (o : wop) : option (Z * list Whowas) :=
  let (length, E) := s in
  match o with
  | NickChange now cptr c => if named c then Some (length, take (Z.to_nat length) (new_entry now cptr c true :: E)) else None
  | Leave now cptr c => if named c then Some (length, map (clear_online cptr) (take (Z.to_nat length) (new_entry now cptr c false :: E))) else None
  | Resize length => if (2 <=? length) && (length <? 2 ^ 31) then Some (length, take (Z.to_nat length) E) else None
  end.
Fixpoint spec_wops (s : Z * list Whowas) (ops : list wop) : option (Z * list Whowas) :=
  match ops with [] => Some s | o :: ops => match spec_wop s o with Some s => spec_wops s ops | None => None end end.
Definition spec_get (E : list Whowas) (nick : list ascii) (timelimit : Z) : option cid := online_of (List.find (matches nick timelimit) E).

Lemma records_ext (st st' : history) (L : list cell) (f : Whowas -> Whowas) : (forall u, u ∈ L -> data st' !! u = option_map f (data st !! u)) -> records st' L = map f (records st L).
Proof.
  unfold records. induction L as [|w L IH]; intros E; [done|]. cbn [omap list_omap]. rewrite E by left. rewrite IH by (intros u Hu; apply E; by right). by destruct (data st !! w).
Qed.
Lemma records_same (st st' : history) (L : list cell) : (forall u, u ∈ L -> data st' !! u = data st !! u) -> records st' L = records st L.
Proof. intros E. rewrite (records_ext st st' L (fun x => x)), map_id; [done|]. intros u Hu. rewrite E by done. by destruct (data st !! u). Qed.
Lemma records_length (st : history) (L : list cell) : (forall u, u ∈ L -> is_Some (data st !! u)) -> length (records st L) = length L /\ forall n, records st (take n L) = take n (records st L).
Proof.
  unfold records. induction L as [|w L IH]; intros S; [split; [done|intros []; done]|]. destruct (S w ltac:(left)) as [x Hx]. destruct IH as [IH1 IH2]; [intros u Hu; apply S; by right|]. cbn [omap list_omap]. rewrite Hx. cbn [length]. split; [by rewrite IH1|].
  intros [|n]; [done|]. cbn [take omap list_omap]. by rewrite Hx, IH2.
Qed.

Record sim (s : Z * history) (t : Z * list Whowas) (L : list cell) : Prop := {
  s_len : fst s = fst t;
  s_range : 2 <= fst s < 2 ^ 31;
  s_rep : rep (snd s) L None;
  s_records : records (snd s) L = snd t;
  s_short : Z.of_nat (length L) <= fst s
}.

Lemma rep_some (st : history) (L : list cell) : rep st L None -> forall u, u ∈ L -> is_Some (data st !! u).
Proof. intros R u Hu. by apply (rep_lookup st L None u R); left. Qed.

(** A record added, as the specification says it. *)
Lemma add_sim (len now : Z) (st : history) (L : list cell) (cptr : cid) (c : client) (on : bool) : 2 <= len < 2 ^ 31 -> rep st L None -> Z.of_nat (length L) <= len -> named c = true ->
  exists st' L', add_history len now st cptr c on = Ok st' /\ rep st' L' None /\ records st' L' = take (Z.to_nat len) (new_entry now cptr c on :: records st L) /\ Z.of_nat (length L') <= len.
Proof.
  intros Hr R Ls [Ne%bool_decide_eq_true Nn%bool_decide_eq_true]%andb_true_iff. destruct (hash_whowas_ok (c_name c) Ne) as [h Hh]. destruct (add_history_spec (Z.to_nat len) ltac:(lia) ltac:(lia) now st L cptr c on h R ltac:(lia) Hh Nn) as (st' & w & E & R' & Hw & D).
  rewrite Z2Nat.id in E by lia. exists st', (w :: take (Z.to_nat len - 1) L). split; [done|]. split; [done|]. destruct (records_length st L (rep_some st L R)) as [Lr Tr]. split.
  - replace (Z.to_nat len) with (S (Z.to_nat len - 1)) at 2 by lia. unfold new_entry. rewrite Hh. cbn [take]. rewrite <- Tr, <- (records_same st st' _ D). unfold records. cbn [omap list_omap]. by rewrite Hw.
  - cbn [length]. rewrite length_take. lia.
Qed.

Lemma wop_refines (s : Z * history) (t t' : Z * list Whowas) (L : list cell) (o : wop) : sim s t L -> spec_wop t o = Some t' -> exists s' L', run_wop s o = Ok s' /\ sim s' t' L'.
Proof.
  destruct s as [len st], t as [len' E]. intros [El Hr R Er0 Ls] Es. cbn [fst snd] in *. subst len' E. destruct o as [now cptr c|now cptr c|length']; cbn [spec_wop run_wop] in *.
  - destruct (named c) eqn:Nc; [|done]. injection Es as <-. destruct (add_sim len now st L cptr c true Hr R Ls Nc) as (st' & L' & -> & R' & Er & Ls'). by exists (len, st'), L'.
  - destruct (named c) eqn:Nc; [|done]. injection Es as <-. unfold client_leaves. destruct (add_sim len now st L cptr c false Hr R Ls Nc) as (st1 & L1 & -> & R1 & Er & Ls1). cbn [obind]. destruct (off_spec st1 L1 cptr R1) as (st2 & -> & R2 & D2). cbn [obind].
    eexists (len, _), L1. split; [done|]. split; cbn [fst snd]; [done..| |done]. rewrite <- Er. by apply records_ext.
  - destruct (_ && _) eqn:Hl; [|done]. injection Es as <-. apply andb_true_iff in Hl as [H1%Z.leb_le H2%Z.ltb_lt]. unfold whowas_realloc. pose proof (rep_size _ _ _ R) as Lz.
    destruct (realloc_loop_spec (Z.to_nat length') ltac:(lia) ltac:(lia) (S (size (data st))) st L ltac:(lia) R ltac:(lia)) as (st' & E' & R' & D'). rewrite Z2Nat.id in E' by lia. rewrite E'. cbn [obind].
    exists (length', st'), (take (Z.to_nat length') L). split; [done|]. split; cbn [fst snd]; [done|done|done| |rewrite length_take; lia]. rewrite (records_same st st' _ D'). apply (records_length st L (rep_some st L R)).
Qed.
Lemma wops_refine (ops : list wop) : forall s t t' L, sim s t L -> spec_wops t ops = Some t' -> exists s' L', run_wops s ops = Ok s' /\ sim s' t' L'.
Proof.
  induction ops as [|o ops IH]; intros s t t' L S E; cbn [spec_wops run_wops] in *; [injection E as <-; by exists s, L|]. destruct (spec_wop t o) as [t1|] eqn:E1; [|done]. destruct (wop_refines s t t1 L o S E1) as (s1 & L1 & -> & S1). cbn [obind]. by apply (IH s1 t1 t' L1).
Qed.
Lemma rep_init : rep initwhowas [] None.
Proof.
  split; try done; [constructor|..].
  - intros w. cbn [initwhowas data]. rewrite dom_empty_L. set_solver.
  - split; [intros k; constructor|intros k; apply lookup_empty|intros k k' w X; by apply elem_of_nil in X].
  - split; [intros k; constructor|intros k; apply lookup_empty|intros k k' w X; by apply elem_of_nil in X].
Qed.

(** C12: whatever nicknames change and whoever leaves, and however the length of the history
    is changed, as long as it is at least two: every operation returns and touches no freed
    record, and the three ways through the records agree with one list of the last nicknames.
    The search gives the client who used the nickname, ignoring case, most recently within
    the limit of time, if he is still there. *)
Theorem whowas_refines (len : Z) (ops : list wop) (len' : Z) (E : list Whowas) : 2 <= len < 2 ^ 31 -> spec_wops (len, []) ops = Some (len', E) ->
  exists st, run_wops (len, initwhowas) ops = Ok (len', st) /\ Z.of_nat (length E) <= len' /\ ww_alloc st = Z.of_nat (length E) /\
    forall nick now chase, nick <> [] -> no_nul nick -> get_history now chase st nick = Ok (spec_get E nick (now - chase)).
Proof.
  intros Hl Es. assert (sim (len, initwhowas) (len, []) []) as S0 by (split; cbn [fst snd length]; [done|done|apply rep_init|done|lia]). destruct (wops_refine ops _ _ _ _ S0 Es) as ([l st] & L & Er & [H1 H2 H3 H4 H5]). cbn [fst snd] in *. subst l E. exists st. split; [done|].
  destruct (records_length st L (rep_some st L H3)) as [Lr _]. rewrite Lr. split; [done|]. split; [rewrite (r_alloc _ _ _ H3); lia|]. intros nick now chase Ne Nn. by apply get_history_spec.
Qed.

Definition ex_client (n : string) : client := MkClient (cstr n) (cstr "user") (cstr "host") (cstr "host") false (cstr "hub") (cstr "info") None.
Definition ex_wops : list wop :=
  [NickChange 100 1 (ex_client "alpha"); NickChange 101 2 (ex_client "beta"); NickChange 102 1 (ex_client "Gamma"); Resize 2; NickChange 103 1 (ex_client "beta"); Leave 104 2 (ex_client "omega")].
Lemma whowas_refines_witness : exists E st, spec_wops (3, []) ex_wops = Some (2, E) /\ run_wops (3, initwhowas) ex_wops = Ok (2, st) /\ get_history 110 30 st (cstr "BETA") = Ok (Some 1%positive) /\ get_history 110 30 st (cstr "omega") = Ok None.
Proof.
  destruct (spec_wops (3, []) ex_wops) as [[l E]|] eqn:Es; [|vm_compute in Es; discriminate]. assert (l = 2) as -> by (vm_compute in Es; congruence). destruct (whowas_refines 3 ex_wops 2 E ltac:(lia) Es) as (st & Er & _ & _ & H). exists E, st. split; [done|]. split; [done|].
  split; (rewrite H; [vm_compute in Es; injection Es as <-; reflexivity|done|by apply (bool_decide_unpack _)]).
Defined.

(** With a history of no records there is nothing to reclaim, and the NULL that
    [whowas_clean] returns is cleared. *)
Lemma no_history_crashes : run_wops (0, initwhowas) [NickChange 100 1 (ex_client "alpha")] = Oob.
Proof. vm_compute. reflexivity. Qed.
(** When the last record is freed the head of the list still points at it: the next record
    that is added writes its back link there. *)
Lemma emptied_history_dangles : match run_wops (5, initwhowas) [NickChange 100 1 (ex_client "alpha"); Resize 0] with
  | Ok (_, st) => match ww_list st with Some w => bool_decide (data st !! w = None) | None => false end
  | _ => false end = true.
Proof. vm_compute. reflexivity. Qed.
