(* ===== verification/Cidr.v ===== *)
(** * Address trees: [ircd/cidr_lookups.c]

    G-lines on addresses are kept in two binary tries, one for each family, whose nodes are
    linked through [l], [r] and [parent].  A node stands for a prefix (the first [bits] bits
    of [ip]); its children have longer prefixes and differ from each other in the first bit
    behind it.  A node without data is there only because two others part under it.  The
    heap maps the address of a node to its contents; using a NULL pointer or a freed node is
    [Oob]. *)

From stdpp Require Import base functions list gmap strings.
From Stdlib Require Import ZArith Lia.
From S2P Require Import Prelude Addr AddrText.

Local Open Scope ircu_scope.
Local Open Scope Z_scope.

Abbreviation cid := positive.

Record cidr_node : Type := MkNode { ip : irc_in_addr; bits : Z; parent : option cid; left : option cid; right : option cid; data : option positive }.
Record cidr_root_node : Type := MkRoot { ipv4 : cid; ipv6 : cid }.
Abbreviation cheap := (gmap cid cidr_node).

Definition set_parent (v : option cid) (x : cidr_node) : cidr_node := MkNode (ip x) (bits x) v (left x) (right x) (data x).
Definition set_data (v : option positive) (x : cidr_node) : cidr_node := MkNode (ip x) (bits x) (parent x) (left x) (right x) v.
(** The child on one side; [true] is right. *)
Definition child (s : bool) (x : cidr_node) : option cid := if s then right x else left x.
Definition set_child (s : bool) (v : option cid) (x : cidr_node) : cidr_node := if s then MkNode (ip x) (bits x) (parent x) (left x) v (data x) else MkNode (ip x) (bits x) (parent x) v (right x) (data x).

Definition load (h : cheap) (n : cid) : outcome cidr_node := match h !! n with Some x => Ok x | None => Oob end.
Definition update (h : cheap) (n : cid) (f : cidr_node -> cidr_node) : outcome cheap := let* x := load h n in Ok (<[n := f x]> h).

(** ** Bits *)
(** [__builtin_clz] of a positive [int] *)
Definition clz (word : Z) : Z := 31 - Z.log2 word.
Fixpoint diff_loop (fuel : nat) (a b : irc_in_addr) (ii hi_n : nat) : nat + Z :=
  match fuel with
  | O => inl ii
  | S fuel =>
      if (ii <? hi_n)%nat then
        if negb (part a ii =? part b ii) then inr (Z.of_nat ii * 16 + clz (Z.lxor (part a ii) (part b ii)) + 16 - 32)
        else diff_loop fuel a b (S ii) hi_n
      else inl ii
  end.
Definition _cidr_bit_diff (a b : irc_in_addr) (lo hi : Z) : Z :=
  match diff_loop 8 a b (Z.to_nat (lo / 16)) (Z.to_nat (hi / 16)) with
  | inr i => i
  | inl ii =>
      if negb (Z.land hi 15 =? 0) && negb (part a ii =? part b ii) then
        let word := Z.land (Z.lxor (part a ii) (part b ii)) (Z.shiftr 0xffff0000 (Z.land hi 15)) in
        if negb (word =? 0) then Z.of_nat ii * 16 + clz word + 16 - 32 else hi
      else hi
  end.

Definition _cidr_get_bit (a : irc_in_addr) (bit_index : Z) : bool :=
  let quot := (127 - bit_index) / 16 in
  let rem := (127 - bit_index) mod 16 in
  negb (Z.land (part a (Z.to_nat (7 - quot))) (Z.land (Z.shiftl 1 rem) 0xffff) =? 0).

(** ** The tree *)
Definition _cidr_create_node (h : cheap) (a : irc_in_addr) (b : Z) (d : option positive) : cheap * cid :=
  let n := fresh (dom h) in (<[n := MkNode a b None None None d]> h, n).

Definition cidr_new_tree (h : cheap) : outcome (cheap * cidr_root_node) :=
  let* (_, a, b) := ipmask_parse (cstr "0.0.0.0/0") true in
  match b with
  | None => Oob
  | Some b =>
      let (h, r4) := _cidr_create_node h a b None in
      let* (_, a, b) := ipmask_parse (cstr "0::/0") true in
      match b with
      | None => Oob
      | Some b => let (h, r6) := _cidr_create_node h a b None in Ok (h, MkRoot r4 r6)
      end
  end.

(** Freeing is recursive; [fuel] bounds the depth. *)
Fixpoint _cidr_free_subtree (fuel : nat) (h : cheap) (n : option cid) : outcome cheap :=
  match fuel with
  | O => Fuel
  | S fuel =>
      match n with
      | None => Ok h
      | Some n =>
          let* x := load h n in
          let* h := _cidr_free_subtree fuel h (left x) in
          let* x := load h n in
          let* h := _cidr_free_subtree fuel h (right x) in
          Ok (delete n h)
      end
  end.
Definition cidr_free_tree (h : cheap) (r : cidr_root_node) : outcome cheap :=
  let* h := _cidr_free_subtree 131 h (Some (ipv4 r)) in _cidr_free_subtree 131 h (Some (ipv6 r)).

Definition family (r : cidr_root_node) (a : irc_in_addr) : cid := if irc_in_addr_is_ipv4 a then ipv4 r else ipv6 r.

(** [child_pptr] is NULL or a child pointer of a node. *)
Definition store (h : cheap) (pp : option (cid * bool)) (v : option cid) : outcome cheap :=
  match pp with Some (n, s) => update h n (set_child s v) | None => Oob end.

Section Add.
Context (a : irc_in_addr) (b : Z) (d : option positive).

Fixpoint add_loop (fuel : nat) (h : cheap) (n : cid) (i : Z) (child_pptr : option (cid * bool)) : outcome (cheap * cid) :=
  match fuel with
  | O => Fuel
  | S fuel =>
      let* x := load h n in
      let i := _cidr_bit_diff (ip x) a i (if bits x <? b then bits x else b) in
      let turn_right := if i <? 128 then _cidr_get_bit a i else false in
      if i =? bits x then
        if i =? b then let* h := update h n (set_data d) in Ok (h, n)
        else
          match child turn_right x with
          | None =>
              let (h, new_node) := _cidr_create_node h a b d in
              let* h := update h new_node (set_parent (Some n)) in
              let* h := store h (Some (n, turn_right)) (Some new_node) in
              Ok (h, new_node)
          | Some c => add_loop fuel h c i (Some (n, turn_right))
          end
      else
        let (h, new_node) := _cidr_create_node h a b d in
        if i =? b then
          let* h := update h new_node (set_parent (parent x)) in
          let* h := store h child_pptr (Some new_node) in
          let* h := update h n (set_parent (Some new_node)) in
          let* h := store h (Some (new_node, _cidr_get_bit (ip x) i)) (Some n) in
          Ok (h, new_node)
        else
          let (h, virtual_node) := _cidr_create_node h a i None in
          let* h := update h virtual_node (set_parent (parent x)) in
          let* h := store h child_pptr (Some virtual_node) in
          let* h := update h n (set_parent (Some virtual_node)) in
          let* h := update h new_node (set_parent (Some virtual_node)) in
          let* h := update h virtual_node (set_child false (Some (if turn_right then n else new_node))) in
          let* h := update h virtual_node (set_child true (Some (if turn_right then new_node else n))) in
          Ok (h, new_node)
  end.
Definition cidr_add_node (h : cheap) (r : cidr_root_node) : outcome (cheap * cid) := add_loop 130 h (family r a) 0 None.

(** The nearest ancestor with data. *)
Fixpoint closest_loop (fuel : nat) (h : cheap) (tmp : option cid) : outcome (option cid) :=
  match fuel with
  | O => Fuel
  | S fuel =>
      match tmp with
      | None => Ok None
      | Some t => let* x := load h t in match data x with Some _ => Ok (Some t) | None => closest_loop fuel h (parent x) end
      end
  end.
Definition cidr_get_closest_data_parent (h : cheap) (n : cid) : outcome (option cid) := let* x := load h n in closest_loop 131 h (parent x).

Fixpoint find_loop (fuel : nat) (h : cheap) (n : cid) (i : Z) (is_exact_match : Z) : outcome (option cid) :=
  match fuel with
  | O => Fuel
  | S fuel =>
      let* x := load h n in
      let i := _cidr_bit_diff (ip x) a i (if bits x <? b then bits x else b) in
      let turn_right := if i <? 128 then _cidr_get_bit a i else false in
      if i =? bits x then
        if i =? b then
          if bool_decide (data x <> None) || (is_exact_match =? 2) then Ok (Some n)
          else if negb (is_exact_match =? 0) then Ok None
          else cidr_get_closest_data_parent h n
        else
          match child turn_right x with
          | None =>
              if negb (is_exact_match =? 0) then Ok None
              else match data x with None => cidr_get_closest_data_parent h n | Some _ => Ok (Some n) end
          | Some c => find_loop fuel h c i is_exact_match
          end
      else if is_exact_match =? 0 then cidr_get_closest_data_parent h n
      else Ok None
  end.
Definition _cidr_find_node (h : cheap) (r : cidr_root_node) (is_exact_match : Z) : outcome (option cid) :=
  let* x := load h (family r a) in find_loop 130 h (family r a) (bits x) is_exact_match.
End Add.

Definition cidr_get_data (h : cheap) (r : cidr_root_node) (a : irc_in_addr) (nbits : Z) : outcome (option positive) :=
  let* n := _cidr_find_node a nbits h r 1 in
  match n with Some n => let* x := load h n in Ok (data x) | None => Ok None end.

(** [if (p->l == node) p->l = v; else p->r = v;] *)
Definition replace_child (h : cheap) (p node : cid) (v : option cid) : outcome cheap :=
  let* x := load h p in update h p (set_child (negb (bool_decide (left x = Some node))) v).

Definition _cidr_collapse_node (h : cheap) (node : cid) : outcome (cheap * Z) :=
  let* x := load h node in
  match parent x with
  | None => Ok (h, 0)
  | Some p =>
      match left x, right x with
      | Some _, Some _ => Ok (h, 0)
      | Some c, None | None, Some c =>
          let* h := update h c (set_parent (Some p)) in
          let* h := replace_child h p node (Some c) in
          Ok (delete node h, 1)
      | None, None =>
          let* h := replace_child h p node None in
          let* y := load h p in
          let* h :=
            match data y, parent y with
            | None, Some g =>
                match (match left y with None => right y | l => l end) with
                | None => Oob
                | Some sibling =>
                    let* h := replace_child h g p (Some sibling) in
                    let* h := update h sibling (set_parent (Some g)) in
                    Ok (delete p h)
                end
            | _, _ => Ok h
            end in
          Ok (delete node h, 1)
      end
  end.

Definition cidr_rem_node (h : cheap) (node : option cid) : outcome (cheap * Z) :=
  match node with
  | None => Ok (h, 0)
  | Some n =>
      let* x := load h n in
      match data x with
      | None => Ok (h, 0)
      | Some _ => let* h := update h n (set_data None) in let* (h, _) := _cidr_collapse_node h n in Ok (h, 1)
      end
  end.
Definition cidr_rem_empty_node (h : cheap) (node : option cid) : outcome (cheap * Z) :=
  match node with
  | None => Ok (h, 0)
  | Some n => let* x := load h n in match data x with Some _ => Ok (h, 0) | None => _cidr_collapse_node h n end
  end.
Definition cidr_rem_node_by_cidr (h : cheap) (r : cidr_root_node) (a : irc_in_addr) (nbits : Z) : outcome (cheap * Z) :=
  let* n := _cidr_find_node a nbits h r 1 in cidr_rem_node h n.

(** [CIDR_ITER]: the nodes in the order the macro visits them, with its stack of 129
    pointers; the bodies of the loops are not part of it. *)
Fixpoint iter_loop (fuel : nat) (h : cheap) (r : cidr_root_node) (show : bool) (node : option cid) (stack : list cid) (v4_done : bool) : outcome (list cid) :=
  match fuel with
  | O => Fuel
  | S fuel =>
      match node with
      | None => Ok []
      | Some n =>
          let* x := load h n in
          let* (next, stack, v4_done) :=
            match left x, right x with
            | Some l, Some rr => if (length stack <? 129)%nat then Ok (Some l, rr :: stack, v4_done) else Oob
            | Some l, None => Ok (Some l, stack, v4_done)
            | None, Some rr => Ok (Some rr, stack, v4_done)
            | None, None =>
                match stack with
                | t :: stack => Ok (Some t, stack, v4_done)
                | [] => if (v4_done : bool) then Ok (None, [], true) else Ok (Some (ipv6 r), [], true)
                end
            end in
          let* rest := iter_loop fuel h r show next stack v4_done in
          Ok (if bool_decide (data x <> None) || show then n :: rest else rest)
      end
  end.
Definition cidr_iter (h : cheap) (r : cidr_root_node) (show : bool) : outcome (list cid) := iter_loop (S (size h)) h r show (Some (ipv4 r)) [] false.

(** ** Bits of addresses *)
Definition bit (a : irc_in_addr) (i : Z) : bool := Z.testbit (part a (Z.to_nat (i / 16))) (15 - i mod 16).
Definition agree (a b : irc_in_addr) (n : Z) : Prop := forall i, 0 <= i < n -> bit a i = bit b i.

Lemma agree_sym (a b : irc_in_addr) (n : Z) : agree a b n -> agree b a n.
Proof. intros H i Hi. symmetry. by apply H. Qed.
Lemma agree_trans (a b c : irc_in_addr) (n : Z) : agree a b n -> agree b c n -> agree a c n.
Proof. intros H1 H2 i Hi. rewrite H1 by done. by apply H2. Qed.
Lemma agree_le (a b : irc_in_addr) (n m : Z) : m <= n -> agree a b n -> agree a b m.
Proof. intros L H i Hi. apply H. lia. Qed.
Lemma agree_refl (a : irc_in_addr) (n : Z) : agree a a n.
Proof. done. Qed.

Lemma part_bounds (a : irc_in_addr) (k : nat) : addr_wf a -> 0 <= part a k < 2 ^ 16.
Proof.
  intros [_ F]. unfold part. destruct (decide (k < length (in6_16 a))%nat) as [L|L]; [|rewrite nth_overflow by lia; lia]. rewrite Forall_forall in F. apply F. apply list_elem_of_lookup_2 with k. by apply nth_lookup_or_length in L || (destruct (nth_lookup_or_length (in6_16 a) k 0); [done|lia]).
Qed.

Lemma get_bit_spec (a : irc_in_addr) (i : Z) : 0 <= i < 128 -> _cidr_get_bit a i = bit a i.
Proof.
  intros Hi. unfold _cidr_get_bit, bit. replace (7 - (127 - i) / 16) with (i / 16) by (Z.to_euclidean_division_equations; lia). replace ((127 - i) mod 16) with (15 - i mod 16) by (Z.to_euclidean_division_equations; lia).
  pose proof (Z.mod_pos_bound i 16 ltac:(lia)). set (k := 15 - i mod 16) in *. assert (0 <= k < 16) as Hk by lia. rewrite Z.shiftl_1_l. assert (Z.land (2 ^ k) 0xffff = 2 ^ k) as ->.
  { change 0xffff with (Z.ones 16). rewrite Z.land_ones by lia. apply Z.mod_small. split; [apply Z.pow_nonneg; lia|]. apply Z.pow_lt_mono_r; lia. }
  set (p := part a _). assert (Z.land p (2 ^ k) = if Z.testbit p k then 2 ^ k else 0) as ->.
  { apply Z.bits_inj'. intros n Hn. rewrite Z.land_spec, Z.pow2_bits_eqb by lia. destruct (Z.eqb_spec k n) as [->|N].
    - rewrite andb_true_r. destruct (Z.testbit p n); [by rewrite Z.pow2_bits_true|by rewrite Z.bits_0].
    - rewrite andb_false_r. destruct (Z.testbit p k); [by rewrite Z.pow2_bits_false|by rewrite Z.bits_0]. }
  destruct (Z.testbit p k); [|done]. by rewrite (proj2 (Z.eqb_neq _ _)) by (apply Z.pow_nonzero; lia).
Qed.

(** The first bit in which two words differ. *)
Lemma clz_spec (k p q w : Z) : 0 <= p < 2 ^ 16 -> 0 <= q < 2 ^ 16 -> 0 <= k <= 16 -> w = Z.land (Z.lxor p q) (Z.shiftl (Z.ones k) (16 - k)) -> w <> 0 ->
  let j := clz w - 16 in 0 <= j < k /\ (forall i, 0 <= i < j -> Z.testbit p (15 - i) = Z.testbit q (15 - i)) /\ Z.testbit p (15 - j) <> Z.testbit q (15 - j).
Proof.
  intros Hp Hq Hk -> Nw j. set (x := Z.lxor p q) in *. set (w := Z.land x _) in *. assert (forall n, 0 <= n < 16 -> Z.testbit w n = xorb (Z.testbit p n) (Z.testbit q n) && (16 - k <=? n)) as Tw.
  { intros n Hn. unfold w, x. rewrite Z.land_spec, Z.lxor_spec. f_equal. destruct (Z.leb_spec (16 - k) n); [rewrite Z.shiftl_spec by lia; apply Z.ones_spec_low; lia|]. rewrite Z.shiftl_spec by lia. apply Z.testbit_neg_r. lia. }
  assert (forall n, 16 <= n -> Z.testbit w n = false) as Th.
  { intros n Hn. unfold w. rewrite Z.land_spec. unfold x. rewrite Z.lxor_spec. assert (forall z, 0 <= z < 2 ^ 16 -> Z.testbit z n = false) as B; [|by rewrite (B p Hp), (B q Hq)].
    intros z Hz. destruct (Z.eq_dec z 0) as [->|]; [apply Z.bits_0|]. apply Z.bits_above_log2; [lia|]. apply Z.lt_le_trans with 16; [apply Z.log2_lt_pow2; lia|lia]. }
  assert (0 <= w) as Pw by (unfold w, x; apply Z.land_nonneg; left; apply Z.lxor_nonneg; lia). assert (0 < w) as Pw' by lia. pose proof (Z.bit_log2 w Pw') as Bl. pose proof (Z.log2_nonneg w) as Nl.
  assert (Z.log2 w < 16) as Ll by (destruct (Z.lt_ge_cases (Z.log2 w) 16); [done|]; rewrite Th in Bl by done; done). rewrite Tw in Bl by lia. apply andb_true_iff in Bl as [Bx Bk%Z.leb_le]. unfold j, clz. replace (31 - Z.log2 w - 16) with (15 - Z.log2 w) by lia.
  split; [lia|]. split.
  - intros i Hi. assert (Z.testbit w (15 - i) = false) as F by (apply Z.bits_above_log2; lia). rewrite Tw in F by lia. rewrite (proj2 (Z.leb_le _ _)), andb_true_r in F by lia. by apply xorb_eq.
  - replace (15 - (15 - Z.log2 w)) with (Z.log2 w) by lia. intros E. rewrite E, xorb_nilpotent in Bx. done.
Qed.

Lemma bit_word (a : irc_in_addr) (k : nat) (j : Z) : 0 <= j < 16 -> bit a (Z.of_nat k * 16 + j) = Z.testbit (part a k) (15 - j).
Proof.
  intros Hj. unfold bit. replace ((Z.of_nat k * 16 + j) / 16) with (Z.of_nat k) by (Z.to_euclidean_division_equations; lia). replace ((Z.of_nat k * 16 + j) mod 16) with j by (Z.to_euclidean_division_equations; lia). by rewrite Nat2Z.id.
Qed.
(** Agreement, word by word. *)
Lemma agree_word (a b : irc_in_addr) (k : nat) (j : Z) : 0 <= j <= 16 -> agree a b (Z.of_nat k * 16) -> (forall i, 0 <= i < j -> Z.testbit (part a k) (15 - i) = Z.testbit (part b k) (15 - i)) -> agree a b (Z.of_nat k * 16 + j).
Proof.
  intros Hj A W i Hi. destruct (Z.lt_ge_cases i (Z.of_nat k * 16)) as [L|G]; [apply A; lia|]. replace i with (Z.of_nat k * 16 + (i - Z.of_nat k * 16)) by lia. rewrite !bit_word by lia. apply W. lia.
Qed.
Lemma agree_next (a b : irc_in_addr) (k : nat) : agree a b (Z.of_nat k * 16) -> part a k = part b k -> agree a b (Z.of_nat (S k) * 16).
Proof. intros A E. replace (Z.of_nat (S k) * 16) with (Z.of_nat k * 16 + 16) by lia. apply agree_word; [lia|done|]. intros i _. by rewrite E. Qed.

Lemma ones_top (k : Z) : 0 < k < 16 -> Z.land (Z.shiftr 0xffff0000 k) (Z.ones 16) = Z.shiftl (Z.ones k) (16 - k).
Proof.
  intros Hk. assert (k = 1 \/ k = 2 \/ k = 3 \/ k = 4 \/ k = 5 \/ k = 6 \/ k = 7 \/ k = 8 \/ k = 9 \/ k = 10 \/ k = 11 \/ k = 12 \/ k = 13 \/ k = 14 \/ k = 15) as C by lia.
  repeat destruct C as [->|C]; try reflexivity. by subst k.
Qed.

Lemma word_land (p q m : Z) : 0 <= p < 2 ^ 16 -> 0 <= q < 2 ^ 16 -> Z.land (Z.lxor p q) m = Z.land (Z.lxor p q) (Z.land m (Z.ones 16)).
Proof.
  intros Hp Hq. apply Z.bits_inj'. intros n Hn. rewrite !Z.land_spec. destruct (Z.lt_ge_cases n 16) as [L|G]; [rewrite Z.ones_spec_low by lia; by rewrite andb_true_r|].
  assert (forall z, 0 <= z < 2 ^ 16 -> Z.testbit z n = false) as B.
  { intros z Hz. destruct (Z.eq_dec z 0) as [->|]; [apply Z.bits_0|]. apply Z.bits_above_log2; [lia|]. apply Z.lt_le_trans with 16; [apply Z.log2_lt_pow2; lia|lia]. }
  rewrite Z.lxor_spec, (B p Hp), (B q Hq). done.
Qed.
Lemma diff_word (a b : irc_in_addr) (k : nat) (n : Z) (w := Z.land (Z.lxor (part a k) (part b k)) (Z.shiftl (Z.ones n) (16 - n))) : addr_wf a -> addr_wf b -> 0 <= n <= 16 -> agree a b (Z.of_nat k * 16) -> w <> 0 ->
  let r := Z.of_nat k * 16 + clz w + 16 - 32 in Z.of_nat k * 16 <= r < Z.of_nat k * 16 + n /\ agree a b r /\ bit a r <> bit b r.
Proof.
  intros Wa Wb Hn A Nw r. destruct (clz_spec n _ _ w (part_bounds a k Wa) (part_bounds b k Wb) Hn eq_refl Nw) as (Hj & Eq & Ne). set (j := clz w - 16) in *. replace r with (Z.of_nat k * 16 + j) by (unfold r, j; lia). split; [lia|]. split; [apply agree_word; [lia|done..]|]. rewrite !bit_word by lia. done.
Qed.

Lemma diff_loop_spec (a b : irc_in_addr) (hi : nat) : addr_wf a -> addr_wf b -> forall fuel ii, (ii <= hi <= ii + fuel)%nat -> agree a b (Z.of_nat ii * 16) ->
  match diff_loop fuel a b ii hi with
  | inl k => k = hi /\ agree a b (Z.of_nat hi * 16)
  | inr r => Z.of_nat ii * 16 <= r < Z.of_nat hi * 16 /\ agree a b r /\ bit a r <> bit b r
  end.
Proof.
  intros Wa Wb. induction fuel as [|fuel IH]; intros ii Hi A; cbn [diff_loop]; [replace hi with ii by lia; by split|]. destruct (Nat.ltb_spec ii hi) as [L|G]; [|replace hi with ii by lia; by split]. destruct (Z.eqb_spec (part a ii) (part b ii)) as [E|N]; cbn [negb].
  - pose proof (IH (S ii) ltac:(lia) (agree_next a b ii A E)) as H. destruct (diff_loop fuel a b (S ii) hi) as [k|r]; [done|]. destruct H as (H1 & H2 & H3). split; [lia|done].
  - pose proof (part_bounds a ii Wa) as Ba. pose proof (part_bounds b ii Wb) as Bb. assert (Z.land (Z.lxor (part a ii) (part b ii)) (Z.shiftl (Z.ones 16) (16 - 16)) = Z.lxor (part a ii) (part b ii)) as Ew.
    { change (Z.shiftl (Z.ones 16) (16 - 16)) with (Z.ones 16). pose proof (word_land _ _ (-1) Ba Bb) as E. rewrite Z.land_m1_r, Z.land_m1_l in E. by rewrite <- E. }
    assert (Z.lxor (part a ii) (part b ii) <> 0) as Nx by (intros X%Z.lxor_eq; done). destruct (diff_word a b ii 16 Wa Wb ltac:(lia) A) as (H1 & H2 & H3); [by rewrite Ew|]. rewrite Ew in *. split; [lia|]. done.
Qed.

Lemma word_zero (p q n i : Z) : Z.land (Z.lxor p q) (Z.shiftl (Z.ones n) (16 - n)) = 0 -> 0 <= n <= 16 -> 0 <= i < n -> Z.testbit p (15 - i) = Z.testbit q (15 - i).
Proof.
  intros E Hn Hi. apply (f_equal (fun z => Z.testbit z (15 - i))) in E. rewrite Z.land_spec, Z.lxor_spec, Z.shiftl_spec, Z.ones_spec_low, andb_true_r, Z.bits_0 in E by lia. by apply xorb_eq.
Qed.

(** [_cidr_bit_diff] is the first bit below [hi] in which the addresses differ. *)
Lemma bit_diff_spec (a b : irc_in_addr) (lo hi : Z) : addr_wf a -> addr_wf b -> 0 <= lo <= hi -> hi <= 128 -> agree a b lo ->
  let r := _cidr_bit_diff a b lo hi in lo <= r <= hi /\ agree a b r /\ (r < hi -> bit a r <> bit b r).
Proof.
  intros Wa Wb Hl Hh A. cbv zeta. assert (forall q, 0 <= q <= hi -> agree a b q -> bit a q <> bit b q -> lo <= q) as Low by (intros q Hq _ N; destruct (Z.lt_ge_cases q lo); [|done]; exfalso; apply N, A; lia).
  unfold _cidr_bit_diff. set (ln := Z.to_nat (lo / 16)). set (hn := Z.to_nat (hi / 16)). pose proof (Z.div_le_mono lo hi 16 ltac:(lia) ltac:(lia)) as Hd. pose proof (Z.div_pos lo 16 ltac:(lia) ltac:(lia)) as Hp. pose proof (Z.div_le_mono hi 128 16 ltac:(lia) ltac:(lia)) as H8. change (128 / 16) with 8 in H8.
  pose proof (Z.div_mod lo 16 ltac:(lia)) as Dl. pose proof (Z.mod_pos_bound lo 16 ltac:(lia)) as Ml. pose proof (Z.div_mod hi 16 ltac:(lia)) as Dh. pose proof (Z.mod_pos_bound hi 16 ltac:(lia)) as Mh.
  assert (Z.land hi 15 = hi mod 16) as -> by (change 15 with (Z.ones 4); by rewrite Z.land_ones by lia). set (n := hi mod 16) in *.
  pose proof (diff_loop_spec a b hn Wa Wb 8 ln ltac:(lia) (agree_le a b lo (Z.of_nat ln * 16) ltac:(lia) A)) as H. destruct (diff_loop 8 a b ln hn) as [k|r].
  - destruct H as [-> Ah]. destruct (Z.eqb_spec n 0) as [N0|N0]; cbn [negb andb]; [split; [lia|]; split; [apply agree_le with (Z.of_nat hn * 16); [lia|done]|lia]|].
    destruct (Z.eqb_spec (part a hn) (part b hn)) as [E|E]; cbn [negb]; [split; [lia|]; split; [apply agree_le with (Z.of_nat (S hn) * 16); [lia|by apply agree_next]|lia]|].
    rewrite (word_land _ _ _ (part_bounds a hn Wa) (part_bounds b hn Wb)), ones_top by lia. destruct (Z.eqb_spec (Z.land (Z.lxor (part a hn) (part b hn)) (Z.shiftl (Z.ones n) (16 - n))) 0) as [W0|W0]; cbn [negb].
    + split; [lia|]. split; [|lia]. replace hi with (Z.of_nat hn * 16 + n) by lia. apply agree_word; [lia|done|]. intros i Hi. apply (word_zero _ _ n); [done|lia|done].
    + destruct (diff_word a b hn n Wa Wb ltac:(lia) Ah W0) as (H1 & H2 & H3). split; [split; [apply Low; [lia|done|done]|lia]|]. by split.
  - destruct H as (H1 & H2 & H3). split; [split; [apply Low; [lia|done|done]|lia]|]. by split.
Qed.
