(* ===== verification/CidrTree.v ===== *)
(** * What the address trees promise

    The heap of [Cidr] is read as a tree ([tree], with the way to a node as a list of
    [frame]s) whose nodes are labelled with bit strings; the operations of
    [ircd/cidr_lookups.c] are proved to be those of a map from bit strings to data, with
    lookups of the longest stored prefix. *)

From stdpp Require Import base functions list gmap strings sorting.
From Stdlib Require Import ZArith Lia.
From S2P Require Import Prelude Addr AddrText Cidr.

Local Open Scope ircu_scope.
Local Open Scope Z_scope.

(** ** Trees *)
Inductive tree : Type :=
| E
| T (id : cid) (a : irc_in_addr) (b : Z) (d : option positive) (l r : tree).
Definition rid (t : tree) : option cid := match t with E => None | T id _ _ _ _ _ => Some id end.

(** A node with the child [c] on side [s] and [o] on the other. *)
Definition nd (id : cid) (a : irc_in_addr) (b : Z) (d : option positive) (s : bool) (c o : tree) : tree := if s then T id a b d o c else T id a b d c o.
Definition mk (a : irc_in_addr) (b : Z) (p : option cid) (s : bool) (c o : option cid) (d : option positive) : cidr_node := if s then MkNode a b p o c d else MkNode a b p c o d.

(** The cells a tree takes up. *)
Fixpoint cells (p : option cid) (t : tree) : list (cid * cidr_node) :=
  match t with
  | E => []
  | T id a b d l r => (id, MkNode a b p (rid l) (rid r) d) :: cells (Some id) l ++ cells (Some id) r
  end.
Lemma cells_nd (p : option cid) (id : cid) (a : irc_in_addr) (b : Z) (d : option positive) (s : bool) (c o : tree) : cells p (nd id a b d s c o) ≡ₚ (id, mk a b p s (rid c) (rid o) d) :: cells (Some id) c ++ cells (Some id) o.
Proof. destruct s; cbn [nd cells mk]; [|done]. by rewrite (Permutation_app_comm (cells (Some id) o)). Qed.
Lemma rid_nd (id : cid) (a : irc_in_addr) (b : Z) (d : option positive) (s : bool) (c o : tree) : rid (nd id a b d s c o) = Some id.
Proof. by destruct s. Qed.

(** The way from the root to a subtree, nearest first. *)
Record frame : Type := Fr { f_id : cid; f_ip : irc_in_addr; f_bits : Z; f_data : option positive; f_side : bool; f_sib : tree }.
Definition fill (f : frame) (t : tree) : tree := nd (f_id f) (f_ip f) (f_bits f) (f_data f) (f_side f) t (f_sib f).
Fixpoint plug (K : list frame) (t : tree) : tree := match K with [] => t | f :: K => plug K (fill f t) end.
Definition up (K : list frame) : option cid := match K with [] => None | f :: _ => Some (f_id f) end.
Fixpoint kcells (K : list frame) (hole : option cid) : list (cid * cidr_node) :=
  match K with
  | [] => []
  | f :: K => (f_id f, mk (f_ip f) (f_bits f) (up K) (f_side f) hole (rid (f_sib f)) (f_data f)) :: cells (Some (f_id f)) (f_sib f) ++ kcells K (Some (f_id f))
  end.
Lemma cells_plug (K : list frame) : forall t, cells None (plug K t) ≡ₚ kcells K (rid t) ++ cells (up K) t.
Proof.
  induction K as [|f K IH]; intros t; [done|]. cbn [plug kcells up]. rewrite IH. unfold fill at 2. rewrite cells_nd. unfold fill. rewrite rid_nd. solve_Permutation.
Qed.

(** The cells of a heap. *)
Definition sound (h : cheap) (L : list (cid * cidr_node)) : Prop := h = list_to_map L /\ NoDup (map fst L).
#[global] Instance sound_perm : Proper ((=) ==> Permutation ==> iff) sound.
Proof.
  assert (forall h L L', L ≡ₚ L' -> sound h L -> sound h L') as I by (intros h L L' P [-> N]; split; [by apply list_to_map_proper|by rewrite <- P]).
  intros h ? <- L L' P. split; apply I; [done|by symmetry].
Qed.

Lemma sound_fresh (h : cheap) (id : cid) (x : cidr_node) (L : list (cid * cidr_node)) : sound h ((id, x) :: L) -> (list_to_map L : cheap) !! id = None /\ NoDup (map fst L).
Proof. intros [_ [Ni N]%NoDup_cons]. split; [|done]. by apply not_elem_of_list_to_map. Qed.
Lemma sound_lookup (h : cheap) (id : cid) (x : cidr_node) (L : list (cid * cidr_node)) : sound h ((id, x) :: L) -> h !! id = Some x.
Proof. intros [-> _]. apply lookup_insert_eq. Qed.
Lemma sound_update (h : cheap) (id : cid) (x y : cidr_node) (L : list (cid * cidr_node)) : sound h ((id, x) :: L) -> sound (<[id := y]> h) ((id, y) :: L).
Proof. intros [-> N]. split; [|done]. cbn. by rewrite insert_insert_eq. Qed.
Lemma sound_new (h : cheap) (id : cid) (y : cidr_node) (L : list (cid * cidr_node)) : sound h L -> h !! id = None -> sound (<[id := y]> h) ((id, y) :: L).
Proof. intros [-> N] H. split; [done|]. apply NoDup_cons. split; [|done]. by apply not_elem_of_list_to_map. Qed.
Lemma sound_delete (h : cheap) (id : cid) (x : cidr_node) (L : list (cid * cidr_node)) : sound h ((id, x) :: L) -> sound (delete id h) L.
Proof. intros S. destruct (sound_fresh h id x L S) as [F N]. destruct S as [-> _]. split; [|done]. cbn. by rewrite delete_insert_id. Qed.

(** One step of the code: the first cell of a list of cells is read or written. *)
Lemma update_sound (h : cheap) (id : cid) (x : cidr_node) (f : cidr_node -> cidr_node) (L : list (cid * cidr_node)) : sound h ((id, x) :: L) -> exists h', update h id f = Ok h' /\ sound h' ((id, f x) :: L).
Proof. intros S. unfold update, load. rewrite (sound_lookup h id x L S). cbn [obind]. eexists. split; [done|]. by apply sound_update with x. Qed.
Lemma load_sound (h : cheap) (id : cid) (x : cidr_node) (L : list (cid * cidr_node)) : sound h ((id, x) :: L) -> load h id = Ok x.
Proof. intros S. unfold load. by rewrite (sound_lookup h id x L S). Qed.
Lemma create_sound (h : cheap) (a : irc_in_addr) (b : Z) (d : option positive) (L : list (cid * cidr_node)) : sound h L -> exists h' n, _cidr_create_node h a b d = (h', n) /\ sound h' ((n, MkNode a b None None None d) :: L).
Proof. intros S. eexists _, _. split; [done|]. apply sound_new; [done|]. apply not_elem_of_dom, is_fresh. Qed.

Lemma child_mk (a : irc_in_addr) (b : Z) (p : option cid) (s : bool) (c o : option cid) (d : option positive) : child s (mk a b p s c o d) = c.
Proof. by destruct s. Qed.
Lemma set_child_mk (a : irc_in_addr) (b : Z) (p : option cid) (s : bool) (c o v : option cid) (d : option positive) : set_child s v (mk a b p s c o d) = mk a b p s v o d.
Proof. by destruct s. Qed.
Lemma set_parent_mk (a : irc_in_addr) (b : Z) (p q : option cid) (s : bool) (c o : option cid) (d : option positive) : set_parent q (mk a b p s c o d) = mk a b q s c o d.
Proof. by destruct s. Qed.
Lemma set_data_mk (a : irc_in_addr) (b : Z) (p : option cid) (s : bool) (c o : option cid) (d e : option positive) : set_data e (mk a b p s c o d) = mk a b p s c o e.
Proof. by destruct s. Qed.
Lemma mk_fields (a : irc_in_addr) (b : Z) (p : option cid) (s : bool) (c o : option cid) (d : option positive) : let x := mk a b p s c o d in ip x = a /\ bits x = b /\ parent x = p /\ data x = d.
Proof. by destruct s. Qed.

(** ** Well-formed trees *)
Definition under (b : Z) (a : irc_in_addr) (s : bool) (t : tree) : Prop := match t with E => True | T _ a' b' _ _ _ => b < b' /\ agree a a' b /\ bit a' b = s end.
Fixpoint wft (t : tree) : Prop :=
  match t with
  | E => True
  | T _ a b _ l r => addr_wf a /\ 0 <= b <= 128 /\ under b a false l /\ under b a true r /\ wft l /\ wft r
  end.
Lemma wft_nd (id : cid) (a : irc_in_addr) (b : Z) (d : option positive) (s : bool) (c o : tree) : wft (nd id a b d s c o) <-> addr_wf a /\ 0 <= b <= 128 /\ under b a s c /\ under b a (negb s) o /\ wft c /\ wft o.
Proof. destruct s; cbn [nd wft negb]; tauto. Qed.
Lemma nd_inv (id : cid) (a : irc_in_addr) (b : Z) (d : option positive) (l r : tree) (s : bool) : T id a b d l r = nd id a b d s (if s then r else l) (if s then l else r).
Proof. by destruct s. Qed.

(** ** Bit strings *)
Abbreviation bstr := (list bool).
Definition key (a : irc_in_addr) (n : Z) : bstr := (fun i => bit a (Z.of_nat i)) <$> seq 0 (Z.to_nat n).

Lemma key_length (a : irc_in_addr) (n : Z) : length (key a n) = Z.to_nat n.
Proof. unfold key. by rewrite length_fmap, length_seq. Qed.
Lemma key_agree (a c : irc_in_addr) (n : Z) : key a n = key c n <-> agree a c n.
Proof.
  unfold key. split.
  - intros H i Hi. assert (forall x, ((fun i => bit x (Z.of_nat i)) <$> seq 0 (Z.to_nat n)) !! Z.to_nat i = Some (bit x i)) as L by (intros x; rewrite list_lookup_fmap, lookup_seq_lt by lia; cbn; by rewrite Z2Nat.id by lia).
    pose proof (L a) as La. rewrite H, L in La. congruence.
  - intros A. apply list_fmap_ext. intros i x H. apply lookup_seq in H as [-> Hi]. apply A. lia.
Qed.
Lemma key_snoc (a : irc_in_addr) (n : Z) : 0 <= n -> key a (n + 1) = key a n ++ [bit a n].
Proof. intros Hn. unfold key. replace (Z.to_nat (n + 1)) with (Z.to_nat n + 1)%nat by lia. rewrite seq_app, fmap_app. cbn. by rewrite Z2Nat.id by lia. Qed.
Lemma key_le (a : irc_in_addr) (n m : Z) : 0 <= n <= m -> key a n `prefix_of` key a m.
Proof. intros H. unfold key. replace (Z.to_nat m) with (Z.to_nat n + Z.to_nat (m - n))%nat by lia. rewrite seq_app, fmap_app. by eexists. Qed.
(** One bit string starts another when the addresses agree that far. *)
Lemma key_prefix (a c : irc_in_addr) (n m : Z) : 0 <= n -> 0 <= m -> key a n `prefix_of` key c m <-> n <= m /\ agree a c n.
Proof.
  intros Hn Hm. split.
  - intros P. pose proof (prefix_length _ _ P) as L. rewrite !key_length in L. assert (n <= m) as Le by lia. split; [done|]. apply key_agree. destruct P as [r E1]. destruct (key_le c n m ltac:(lia)) as [r' E2]. rewrite E2 in E1. apply app_inj_1 in E1 as [-> _]; [done|]. by rewrite !key_length.
  - intros [L A]. rewrite (proj2 (key_agree a c n) A). apply key_le. lia.
Qed.
Lemma key_turn (a c : irc_in_addr) (n m : Z) (s : bool) : 0 <= n -> 0 <= m -> key a n ++ [s] `prefix_of` key c m <-> n < m /\ agree a c n /\ bit c n = s.
Proof.
  intros Hn Hm. split.
  - intros P. assert (key a n `prefix_of` key c m) as P0 by (etrans; [|exact P]; by eexists). apply key_prefix in P0 as [L A]; [|done..]. pose proof (prefix_length _ _ P) as Ln. rewrite length_app, !key_length in Ln. cbn in Ln. assert (n < m) as Lt by lia. split_and!; [done..|].
    assert (key c (n + 1) `prefix_of` key c m) as [r E2] by (apply key_le; lia). destruct P as [r' E1]. rewrite E2, key_snoc, <- (proj2 (key_agree a c n) A), <- !app_assoc in E1 by lia. apply app_inv_head in E1. cbn in E1. congruence.
  - intros (L & A & <-). rewrite (proj2 (key_agree a c n) A), <- key_snoc by lia. apply key_le. lia.
Qed.

Lemma under_key (b : Z) (a : irc_in_addr) (s : bool) (id : cid) (a' : irc_in_addr) (b' : Z) (d : option positive) (l r : tree) : 0 <= b -> 0 <= b' -> under b a s (T id a' b' d l r) <-> key a b ++ [s] `prefix_of` key a' b'.
Proof. intros Hb Hb'. by rewrite key_turn. Qed.

(** ** The contents of a tree *)
Fixpoint items (t : tree) : list (bstr * (cid * option positive)) :=
  match t with
  | E => []
  | T id a b d l r => (key a b, (id, d)) :: items l ++ items r
  end.
Lemma items_nd (id : cid) (a : irc_in_addr) (b : Z) (d : option positive) (s : bool) (c o : tree) : items (nd id a b d s c o) ≡ₚ (key a b, (id, d)) :: items c ++ items o.
Proof. destruct s; cbn [nd items]; [|done]. by rewrite (Permutation_app_comm (items o)). Qed.
Fixpoint kitems (K : list frame) : list (bstr * (cid * option positive)) :=
  match K with
  | [] => []
  | f :: K => (key (f_ip f) (f_bits f), (f_id f, f_data f)) :: items (f_sib f) ++ kitems K
  end.
Lemma items_plug (K : list frame) : forall t, items (plug K t) ≡ₚ items t ++ kitems K.
Proof. induction K as [|f K IH]; intros t; cbn [plug kitems]; [by rewrite app_nil_r|]. rewrite IH. unfold fill. rewrite items_nd. solve_Permutation. Qed.

(** What lies under a node has a longer bit string. *)
Lemma items_under (t : tree) : forall b a s, 0 <= b -> wft t -> under b a s t -> Forall (fun e => key a b ++ [s] `prefix_of` e.1) (items t).
Proof.
  induction t as [|id a' b' d l IHl r IHr]; intros b a s Hb W U; [constructor|]. cbn [wft] in W. destruct W as (_ & Hb' & Ul & Ur & Wl & Wr). apply under_key in U; [|lia..]. cbn [items]. constructor; [done|].
  apply Forall_app. split; (eapply Forall_impl; [by first [apply (IHl b' a' false); first [done|lia] | apply (IHr b' a' true); first [done|lia]]|]); intros e He; (etrans; [exact U|]); (etrans; [|exact He]); by eexists.
Qed.
Lemma turn_apart (k x : bstr) : k ++ [false] `prefix_of` x -> k ++ [true] `prefix_of` x -> False.
Proof. intros [r ->] [r' E]. rewrite <- !app_assoc in E. apply app_inv_head in E. done. Qed.
Lemma turn_longer (k : bstr) (s : bool) : ~ k ++ [s] `prefix_of` k.
Proof. intros P%prefix_length. rewrite length_app in P. cbn in P. lia. Qed.

Lemma wft_nodup (t : tree) : wft t -> NoDup (map fst (items t)).
Proof.
  induction t as [|id a b d l IHl r IHr]; intros W; cbn [items map]; [constructor|]. cbn [wft] in W. destruct W as (_ & Hb & Ul & Ur & Wl & Wr). pose proof (items_under l b a false ltac:(lia) Wl Ul) as Fl. pose proof (items_under r b a true ltac:(lia) Wr Ur) as Fr. rewrite Forall_forall in Fl, Fr.
  rewrite map_app. apply NoDup_cons. split.
  - intros [H|H]%elem_of_app; apply list_elem_of_fmap in H as (e & Ee & H); cbn [fst] in Ee; [apply Fl in H|apply Fr in H]; rewrite <- Ee in H; by eapply turn_longer.
  - apply NoDup_app. split_and!; [by apply IHl| |by apply IHr]. intros x (e & -> & H)%list_elem_of_fmap (e' & Ee & H')%list_elem_of_fmap. apply Fl in H. apply Fr in H'. rewrite <- Ee in H'. by eapply turn_apart.
Qed.

(** ** Insertion *)
(** How far an address follows a prefix: [lo] is only a hint. *)
Definition far (a : irc_in_addr) (b : Z) (a' : irc_in_addr) (b' : Z) : Z := _cidr_bit_diff a' a 0 (if b' <? b then b' else b).

Lemma far_spec (a : irc_in_addr) (b : Z) (a' : irc_in_addr) (b' : Z) : addr_wf a -> addr_wf a' -> 0 <= b <= 128 -> 0 <= b' <= 128 -> let i := far a b a' b' in 0 <= i <= b /\ i <= b' /\ agree a' a i /\ (i < b -> i < b' -> bit a' i <> bit a i).
Proof.
  intros Wa Wa' Hb Hb' i. assert (i = _cidr_bit_diff a' a 0 (Z.min b' b)) as -> by (unfold i, far; by destruct (Z.ltb_spec b' b); [rewrite Z.min_l by lia|rewrite Z.min_r by lia]).
  destruct (bit_diff_spec a' a 0 (Z.min b' b) Wa' Wa ltac:(lia) ltac:(lia) ltac:(intros ? ?; lia)) as (H1 & H2 & H3). split_and!; [lia..|done|]. intros. apply H3. lia.
Qed.
Lemma far_hint (a : irc_in_addr) (b : Z) (a' : irc_in_addr) (b' lo : Z) : addr_wf a -> addr_wf a' -> 0 <= b <= 128 -> 0 <= b' <= 128 -> 0 <= lo <= b -> lo <= b' -> agree a' a lo -> _cidr_bit_diff a' a lo (if b' <? b then b' else b) = far a b a' b'.
Proof.
  intros Wa Wa' Hb Hb' Hl Hl' A. unfold far. set (hi := if b' <? b then b' else b). assert (hi = Z.min b' b) as Eh by (unfold hi; by destruct (Z.ltb_spec b' b); [rewrite Z.min_l by lia|rewrite Z.min_r by lia]). clearbody hi. subst hi.
  destruct (bit_diff_spec a' a 0 (Z.min b' b) Wa' Wa ltac:(lia) ltac:(lia) ltac:(intros ? ?; lia)) as (H1 & H2 & H3). destruct (bit_diff_spec a' a lo (Z.min b' b) Wa' Wa ltac:(lia) ltac:(lia) A) as (G1 & G2 & G3).
  set (x := _cidr_bit_diff a' a 0 _) in *. set (y := _cidr_bit_diff a' a lo _) in *. destruct (Z.lt_trichotomy x y) as [L|[->|L]]; [|done|]; exfalso; [apply H3; [lia|]; apply G2; lia|apply G3; [lia|]; apply H2; lia].
Qed.

Definition leaf (n : cid) (a : irc_in_addr) (b : Z) (d : option positive) : tree := T n a b d E E.
Section Insert.
Context (a : irc_in_addr) (b : Z) (d : option positive).
Context (n v : cid).

Fixpoint tins (t : tree) : tree :=
  match t with
  | E => leaf n a b d
  | T id a' b' d' l r =>
      let i := far a b a' b' in
      if i =? b' then
        if i =? b then T id a' b' d l r
        else if bit a i then T id a' b' d' l (tins r) else T id a' b' d' (tins l) r
      else if i =? b then nd n a b d (bit a' i) t E
      else nd v a i None (bit a i) (leaf n a b d) t
  end.
(** The node that ends up with the prefix. *)
Fixpoint tid (t : tree) : cid :=
  match t with
  | E => n
  | T id a' b' _ l r => let i := far a b a' b' in if i =? b' then if i =? b then id else if bit a i then tid r else tid l else n
  end.

Lemma tins_down (id : cid) (a' : irc_in_addr) (b' : Z) (d' : option positive) (s : bool) (c o : tree) : far a b a' b' = b' -> b' <> b -> s = bit a b' -> tins (nd id a' b' d' s c o) = nd id a' b' d' s (tins c) o /\ tid (nd id a' b' d' s c o) = tid c.
Proof. intros F N ->. unfold nd. destruct (bit a b') eqn:B; cbn [tins tid]; rewrite F, Z.eqb_refl, (proj2 (Z.eqb_neq b' b) N), B; done. Qed.

Lemma tins_here (id : cid) (a' : irc_in_addr) (b' : Z) (d' : option positive) (s : bool) (c o : tree) : far a b a' b' = b' -> b' = b -> tins (nd id a' b' d' s c o) = nd id a' b' d s c o /\ tid (nd id a' b' d' s c o) = id.
Proof. intros F B. unfold nd. destruct s; cbn [tins tid]; rewrite F, Z.eqb_refl, (proj2 (Z.eqb_eq b' b) B); done. Qed.
Lemma tins_above (id : cid) (a' : irc_in_addr) (b' : Z) (d' : option positive) (s : bool) (c o : tree) : far a b a' b' <> b' -> far a b a' b' = b -> tins (nd id a' b' d' s c o) = nd n a b d (bit a' (far a b a' b')) (nd id a' b' d' s c o) E /\ tid (nd id a' b' d' s c o) = n.
Proof. intros F B. unfold nd at 1 3 4. destruct s; cbn [tins tid]; rewrite (proj2 (Z.eqb_neq _ b') F), (proj2 (Z.eqb_eq _ b) B); done. Qed.
Lemma tins_virtual (id : cid) (a' : irc_in_addr) (b' : Z) (d' : option positive) (s : bool) (c o : tree) : far a b a' b' <> b' -> far a b a' b' <> b -> tins (nd id a' b' d' s c o) = nd v a (far a b a' b') None (bit a (far a b a' b')) (leaf n a b d) (nd id a' b' d' s c o) /\ tid (nd id a' b' d' s c o) = n.
Proof. intros F B. unfold nd at 1 3 4. destruct s; cbn [tins tid]; rewrite (proj2 (Z.eqb_neq _ b') F), (proj2 (Z.eqb_neq _ b) B); done. Qed.

Lemma far_cases (a' : irc_in_addr) (b' : Z) : addr_wf a -> addr_wf a' -> 0 <= b <= 128 -> 0 <= b' <= 128 ->
  let i := far a b a' b' in
  (i = b' /\ i = b /\ key a b = key a' b') \/ (i = b' /\ i < b /\ key a' b' ++ [bit a i] `prefix_of` key a b) \/ (i = b /\ i < b' /\ key a b ++ [bit a' i] `prefix_of` key a' b') \/ (i < b /\ i < b' /\ bit a' i = negb (bit a i) /\ key a i ++ [bit a i] `prefix_of` key a b /\ key a i ++ [bit a' i] `prefix_of` key a' b').
Proof.
  intros Wa Wa' Hb Hb' i. destruct (far_spec a b a' b' Wa Wa' Hb Hb') as (F1 & F2 & F3 & F4). fold i in F1, F2, F3, F4. destruct (Z.eq_dec i b') as [E1|N1], (Z.eq_dec i b) as [E2|N2].
  - left. split_and!; [done..|]. rewrite <- E2, <- E1. symmetry. by apply key_agree.
  - right. left. split_and!; [done|lia|]. apply key_turn; [lia..|]. split_and!; [lia|by rewrite <- E1|by rewrite E1].
  - right. right. left. split_and!; [done|lia|]. apply key_turn; [lia..|]. rewrite <- E2. split_and!; [lia|by apply agree_sym|done].
  - right. right. right. assert (bit a' i = negb (bit a i)) as Bn by (pose proof (F4 ltac:(lia) ltac:(lia)) as X; by destruct (bit a' i), (bit a i)). split_and!; [lia|lia|done|..]; (apply key_turn; [lia..|]; split_and!; [lia|..]); [done..|by apply agree_sym|done].
Qed.

Lemma under_tins (t : tree) (s : bool) (b0 : Z) (a0 : irc_in_addr) : addr_wf a -> 0 <= b <= 128 -> wft t -> 0 <= b0 -> under b0 a0 s t -> key a0 b0 ++ [s] `prefix_of` key a b -> under b0 a0 s (tins t).
Proof.
  intros Wa Hb W H0 U P. destruct t as [|id a' b' d' l r]; [apply under_key; [lia..|done]|]. cbn [tins]. cbn [wft] in W. destruct W as (Wa' & Hb' & _).
  destruct (far_cases a' b' Wa Wa' Hb Hb') as [(E1 & E2 & _)|[(E1 & E2 & _)|[(E1 & E2 & _)|(E1 & E2 & E3 & _)]]].
  - by rewrite (proj2 (Z.eqb_eq _ _) E1), (proj2 (Z.eqb_eq _ _) E2).
  - rewrite (proj2 (Z.eqb_eq _ _) E1), (proj2 (Z.eqb_neq _ _)) by lia. by destruct (bit a _).
  - rewrite (proj2 (Z.eqb_neq (far a b a' b') b')), (proj2 (Z.eqb_eq _ _) E1) by lia. apply under_key in U; [|lia..]. apply (key_turn a0 a b0 b s ltac:(lia) ltac:(lia)) in P as P'. unfold nd. destruct (bit a' _); by apply under_key; [lia..|].
  - rewrite (proj2 (Z.eqb_neq (far a b a' b') b')), (proj2 (Z.eqb_neq (far a b a' b') b)) by lia. destruct (far_spec a b a' b' Wa Wa' Hb Hb') as (F1 & F2 & F3 & F4). apply under_key in U; [|lia..]. apply key_turn in P as (P1 & P2 & P3); [|lia..]. apply key_turn in U as (U1 & U2 & U3); [|lia..].
    assert (b0 < far a b a' b'). { destruct (Z.lt_ge_cases b0 (far a b a' b')) as [|G]; [done|]. exfalso. destruct (Z.eq_dec b0 (far a b a' b')) as [->|]; [apply F4; [lia..|congruence]|]. apply F4; [lia..|]. rewrite <- U2, <- P2 by lia. done. }
    by destruct (bit a (far a b a' b')); cbn [nd under].
Qed.

Lemma tins_wft (t : tree) : addr_wf a -> 0 <= b <= 128 -> wft t -> wft (tins t).
Proof.
  intros Wa Hb. induction t as [|id a' b' d' l IHl r IHr]; intros W; [by cbn|]. pose proof W as W0. cbn [tins wft] in *. destruct W as (Wa' & Hb' & Ul & Ur & Wl & Wr).
  destruct (far_cases a' b' Wa Wa' Hb Hb') as [(E1 & E2 & _)|[(E1 & E2 & P)|[(E1 & E2 & P)|(E1 & E2 & E3 & P & P')]]].
  - by rewrite (proj2 (Z.eqb_eq _ _) E1), (proj2 (Z.eqb_eq _ _) E2).
  - rewrite (proj2 (Z.eqb_eq _ _) E1), (proj2 (Z.eqb_neq _ _)) by lia. destruct (bit a _); cbn [wft]; split_and!; try done; try lia; first [by apply IHl | by apply IHr | apply under_tins; try done; lia].
  - rewrite (proj2 (Z.eqb_neq (far a b a' b') b')), (proj2 (Z.eqb_eq _ _) E1) by lia. apply wft_nd. split_and!; try done; try lia. apply under_key; [lia..|done].
  - rewrite (proj2 (Z.eqb_neq (far a b a' b') b')), (proj2 (Z.eqb_neq (far a b a' b') b)) by lia. destruct (far_spec a b a' b' Wa Wa' Hb Hb') as (F1 & F2 & F3 & F4). apply wft_nd. split_and!; try done; try lia. rewrite <- E3. apply under_key; [lia..|done].
Qed.
End Insert.

Lemma sound_swap (h : cheap) (L L' : list (cid * cidr_node)) : sound h L -> L ≡ₚ L' -> sound h L'.
Proof. intros S P. by rewrite <- P. Qed.
(** The pointer to the subtree in a context. *)
Definition hole (K : list frame) : option (cid * bool) := match K with [] => None | f :: _ => Some (f_id f, f_side f) end.

(** The three ways to link a new node. *)
Section Link.
Context (a : irc_in_addr) (b : Z) (d : option positive).

Lemma link_child (h : cheap) (id : cid) (a' : irc_in_addr) (b' : Z) (d' : option positive) (p : option cid) (s : bool) (o : option cid) (R : list (cid * cidr_node)) : sound h ((id, mk a' b' p s None o d') :: R) ->
  exists h' n,
    (let (h, new_node) := _cidr_create_node h a b d in
     let* h := update h new_node (set_parent (Some id)) in
     let* h := store h (Some (id, s)) (Some new_node) in
     Ok (h, new_node)) = Ok (h', n) /\ sound h' ((id, mk a' b' p s (Some n) o d') :: (n, MkNode a b (Some id) None None d) :: R).
Proof.
  intros S. destruct (create_sound h a b d _ S) as (h1 & n & -> & S1). destruct (update_sound h1 n _ (set_parent (Some id)) _ S1) as (h2 & -> & S2). cbn [obind store]. rewrite Permutation_swap in S2.
  destruct (update_sound h2 id _ (set_child s (Some n)) _ S2) as (h3 & -> & S3). cbn [obind]. rewrite set_child_mk in S3. by exists h3, n.
Qed.

Lemma link_above (h : cheap) (fid : cid) (fa : irc_in_addr) (fb : Z) (fd : option positive) (fp : option cid) (fs : bool) (fo : option cid) (id : cid) (a' : irc_in_addr) (b' : Z) (d' : option positive) (s s' : bool) (c o : option cid) (R : list (cid * cidr_node)) :
  sound h ((fid, mk fa fb fp fs (Some id) fo fd) :: (id, mk a' b' (Some fid) s c o d') :: R) ->
  exists h' n,
    (let (h, new_node) := _cidr_create_node h a b d in
     let* h := update h new_node (set_parent (Some fid)) in
     let* h := store h (Some (fid, fs)) (Some new_node) in
     let* h := update h id (set_parent (Some new_node)) in
     let* h := store h (Some (new_node, s')) (Some id) in
     Ok (h, new_node)) = Ok (h', n) /\ sound h' ((fid, mk fa fb fp fs (Some n) fo fd) :: (n, mk a b (Some fid) s' (Some id) None d) :: (id, mk a' b' (Some n) s c o d') :: R).
Proof.
  intros S. destruct (create_sound h a b d _ S) as (h1 & n & -> & S1). destruct (update_sound h1 n _ (set_parent (Some fid)) _ S1) as (h2 & -> & S2). cbn [obind store]. rewrite Permutation_swap in S2.
  destruct (update_sound h2 fid _ (set_child fs (Some n)) _ S2) as (h3 & -> & S3). cbn [obind]. rewrite set_child_mk in S3.
  eapply (sound_swap _ _ ((id, mk a' b' (Some fid) s c o d') :: (n, _) :: (fid, _) :: R)) in S3; [|solve_Permutation].
  destruct (update_sound h3 id _ (set_parent (Some n)) _ S3) as (h4 & -> & S4). cbn [obind]. rewrite set_parent_mk in S4. rewrite Permutation_swap in S4.
  destruct (update_sound h4 n _ (set_child s' (Some id)) _ S4) as (h5 & -> & S5). cbn [obind]. exists h5, n. split; [done|]. replace (mk a b (Some fid) s' (Some id) None d) with (set_child s' (Some id) (set_parent (Some fid) (MkNode a b None None None d))) by (by destruct s'). eapply sound_swap; [exact S5|solve_Permutation].
Qed.

Lemma link_virtual (h : cheap) (fid : cid) (fa : irc_in_addr) (fb : Z) (fd : option positive) (fp : option cid) (fs : bool) (fo : option cid) (id : cid) (a' : irc_in_addr) (b' : Z) (d' : option positive) (s turn_right : bool) (c o : option cid) (i : Z) (R : list (cid * cidr_node)) :
  sound h ((fid, mk fa fb fp fs (Some id) fo fd) :: (id, mk a' b' (Some fid) s c o d') :: R) ->
  exists h' n v,
    (let (h, new_node) := _cidr_create_node h a b d in
     let (h, virtual_node) := _cidr_create_node h a i None in
     let* h := update h virtual_node (set_parent (Some fid)) in
     let* h := store h (Some (fid, fs)) (Some virtual_node) in
     let* h := update h id (set_parent (Some virtual_node)) in
     let* h := update h new_node (set_parent (Some virtual_node)) in
     let* h := update h virtual_node (set_child false (Some (if turn_right then id else new_node))) in
     let* h := update h virtual_node (set_child true (Some (if turn_right then new_node else id))) in
     Ok (h, new_node)) = Ok (h', n) /\
    sound h' ((fid, mk fa fb fp fs (Some v) fo fd) :: (v, mk a i (Some fid) turn_right (Some n) (Some id) None) :: (n, MkNode a b (Some v) None None d) :: (id, mk a' b' (Some v) s c o d') :: R).
Proof.
  intros S. destruct (create_sound h a b d _ S) as (h1 & n & -> & S1). destruct (create_sound h1 a i None _ S1) as (h2 & v & -> & S2). destruct (update_sound h2 v _ (set_parent (Some fid)) _ S2) as (h3 & -> & S3). cbn [obind store].
  eapply (sound_swap _ _ ((fid, _) :: (v, _) :: (n, _) :: (id, mk a' b' (Some fid) s c o d') :: R)) in S3; [|solve_Permutation].
  destruct (update_sound h3 fid _ (set_child fs (Some v)) _ S3) as (h4 & -> & S4). cbn [obind]. rewrite set_child_mk in S4.
  eapply (sound_swap _ _ ((id, mk a' b' (Some fid) s c o d') :: (n, _) :: (v, _) :: (fid, _) :: R)) in S4; [|solve_Permutation].
  destruct (update_sound h4 id _ (set_parent (Some v)) _ S4) as (h5 & -> & S5). cbn [obind]. rewrite set_parent_mk in S5. rewrite Permutation_swap in S5.
  destruct (update_sound h5 n _ (set_parent (Some v)) _ S5) as (h6 & -> & S6). cbn [obind].
  eapply (sound_swap _ _ ((v, _) :: (n, _) :: (id, mk a' b' (Some v) s c o d') :: (fid, _) :: R)) in S6; [|solve_Permutation].
  destruct (update_sound h6 v _ (set_child false (Some (if turn_right then id else n))) _ S6) as (h7 & -> & S7). cbn [obind]. destruct (update_sound h7 v _ (set_child true (Some (if turn_right then n else id))) _ S7) as (h8 & -> & S8). cbn [obind]. exists h8, n, v. split; [done|].
  eapply sound_swap; [exact S8|]. destruct turn_right; cbn; solve_Permutation.
Qed.
End Link.

Lemma cells_at (K : list frame) (id : cid) (a : irc_in_addr) (b : Z) (d : option positive) (s : bool) (c o : tree) (L : list (cid * cidr_node)) : kcells K (rid (nd id a b d s c o)) ++ cells (up K) (nd id a b d s c o) ++ L ≡ₚ (id, mk a b (up K) s (rid c) (rid o) d) :: cells (Some id) c ++ cells (Some id) o ++ kcells K (Some id) ++ L.
Proof. rewrite cells_nd, rid_nd. solve_Permutation. Qed.
(** Stepping down into a child. *)
Lemma cells_into (K : list frame) (id : cid) (a : irc_in_addr) (b : Z) (d : option positive) (s : bool) (c o : tree) (L : list (cid * cidr_node)) : kcells K (rid (nd id a b d s c o)) ++ cells (up K) (nd id a b d s c o) ++ L ≡ₚ kcells (Fr id a b d s o :: K) (rid c) ++ cells (up (Fr id a b d s o :: K)) c ++ L.
Proof. rewrite cells_at. cbn [kcells up f_id f_ip f_bits f_data f_side f_sib]. solve_Permutation. Qed.

Lemma cells_hole (f : frame) (K : list frame) (id : cid) (x : cidr_node) (c o : tree) (L : list (cid * cidr_node)) : (id, x) :: cells (Some id) c ++ cells (Some id) o ++ kcells (f :: K) (Some id) ++ L ≡ₚ (f_id f, mk (f_ip f) (f_bits f) (up K) (f_side f) (Some id) (rid (f_sib f)) (f_data f)) :: (id, x) :: cells (Some id) c ++ cells (Some id) o ++ cells (Some (f_id f)) (f_sib f) ++ kcells K (Some (f_id f)) ++ L.
Proof. cbn [kcells]. solve_Permutation. Qed.

(** What insertion does to the contents: a node gets the data, or a node is added, with
    perhaps one without data. *)
Definition inserted (k : bstr) (m : cid) (d : option positive) (L L' : list (bstr * (cid * option positive))) : Prop :=
  (exists d0 R, L ≡ₚ (k, (m, d0)) :: R /\ L' ≡ₚ (k, (m, d)) :: R) \/ (exists V, L' ≡ₚ (k, (m, d)) :: V ++ L /\ Forall (fun e => e.2.2 = None) V).
Lemma inserted_in (k : bstr) (m : cid) (d : option positive) (L L' R : list (bstr * (cid * option positive))) (e : bstr * (cid * option positive)) : inserted k m d L L' -> inserted k m d (e :: L ++ R) (e :: L' ++ R).
Proof.
  intros [(d0 & R0 & P & P')|(V & P & F)]; [left; exists d0, (e :: R0 ++ R)|right; exists V]; [|split; [|done]]; rewrite ?P, ?P'; [split|]; solve_Permutation.
Qed.
#[global] Instance inserted_proper : Proper ((=) ==> (=) ==> (=) ==> Permutation ==> Permutation ==> iff) inserted.
Proof.
  assert (forall k m d L L' M M', L ≡ₚ M -> L' ≡ₚ M' -> inserted k m d L L' -> inserted k m d M M') as I.
  { intros k m d L L' M M' P P' [(d0 & R & Q & Q')|(V & Q & F)]; [left; exists d0, R; by rewrite <- P, <- P'|right; exists V; by rewrite <- P, <- P']. }
  intros k ? <- m ? <- d ? <- L M P L' M' P'. split; by apply I.
Qed.
Section Insertion.
Context (a : irc_in_addr) (b : Z) (d : option positive).
Context (Wa : addr_wf a) (Hb : 0 <= b <= 128).

(** The loop of [cidr_add_node] inserts into the subtree at hand. *)
Lemma cidr_add_loop_spec (t : tree) : forall id a' b' d' l r K L h fuel lo, t = T id a' b' d' l r -> sound h (kcells K (rid t) ++ cells (up K) t ++ L) -> wft t -> 0 <= lo <= b -> lo <= b' -> agree a' a lo -> (K = [] -> far a b a' b' = b') -> 129 - b' <= Z.of_nat fuel ->
  exists h' n v, add_loop a b d fuel h id lo (hole K) = Ok (h', tid a b n t) /\ sound h' (kcells K (rid (tins a b d n v t)) ++ cells (up K) (tins a b d n v t) ++ L).
Proof.
  induction t as [|id0 a0 b0 d0 l0 IHl r0 IHr]; [done|]. intros id a' b' d' l r K L h fuel lo [= -> -> -> -> -> ->] S W Hl Hl' A Root Fu. pose proof W as W0. cbn [wft] in W. destruct W as (Wa' & Hb' & Ul & Ur & Wl & Wr).
  destruct fuel as [|fuel]; [lia|]. cbn [add_loop]. pose proof (far_cases a b a' b' Wa Wa' Hb Hb') as Cs. pose proof (far_hint a b a' b' lo Wa Wa' Hb Hb' Hl Hl' A) as Fh. cbv zeta in Cs. set (s := bit a (far a b a' b')) in *. rewrite (nd_inv id a' b' d' l r s) in *. set (c := if s then r else l) in *. set (o := if s then l else r) in *.
  pose proof S as S0. rewrite cells_at in S0. rewrite (load_sound _ _ _ _ S0). cbn [obind]. destruct (mk_fields a' b' (up K) s (rid c) (rid o) d') as (-> & -> & Ep & _). rewrite Fh. set (i := far a b a' b') in *.
  destruct Cs as [(E1 & E2 & _)|[(E1 & E2 & P)|[(E1 & E2 & P)|(E1 & E2 & E3 & P & P')]]].
  - rewrite (proj2 (Z.eqb_eq _ _) E1), (proj2 (Z.eqb_eq _ _) E2). destruct (update_sound _ _ _ (set_data d) _ S0) as (h1 & -> & S1). cbn [obind]. rewrite set_data_mk in S1. exists h1, id, id. destruct (tins_here a b d id id id a' b' d' s c o) as [-> ->]; [done|congruence|]. split; [done|]. by rewrite cells_at.
  - rewrite (proj2 (Z.eqb_eq _ _) E1), (proj2 (Z.eqb_neq _ _)), (proj2 (Z.ltb_lt i 128)), get_bit_spec by lia. fold s. rewrite child_mk.
    assert (forall n v, tins a b d n v (nd id a' b' d' s c o) = nd id a' b' d' s (tins a b d n v c) o /\ tid a b n (nd id a' b' d' s c o) = tid a b n c) as Td by (intros n v; apply tins_down; [done|lia|unfold s; by rewrite E1]).
    assert (c = E \/ exists cid ca cb cd cl cr, c = T cid ca cb cd cl cr) as [Ec|(ci & ca & cb & cd & cl & cr & Ec)] by (destruct c; [by left|right; by repeat eexists]).
    + rewrite Ec in S0 |- *. cbn [rid]. destruct (link_child a b d _ _ _ _ _ _ _ _ _ S0) as (h1 & n & -> & S1). exists h1, n, n. rewrite <- Ec. destruct (Td n n) as [-> ->]. rewrite Ec. split; [done|]. rewrite cells_at. eapply sound_swap; [exact S1|]. cbn. solve_Permutation.
    + assert (rid c = Some ci) as -> by (by rewrite Ec). assert (wft c /\ under b' a' s c) as [Wc Uc] by (unfold c; by destruct s).
      rewrite cells_into in S. assert (forall h fuel, sound h (kcells (Fr id a' b' d' s o :: K) (rid c) ++ cells (up (Fr id a' b' d' s o :: K)) c ++ L) -> 129 - cb <= Z.of_nat fuel -> exists h' n v, add_loop a b d fuel h ci i (hole (Fr id a' b' d' s o :: K)) = Ok (h', tid a b n c) /\ sound h' (kcells (Fr id a' b' d' s o :: K) (rid (tins a b d n v c)) ++ cells (up (Fr id a' b' d' s o :: K)) (tins a b d n v c) ++ L)) as IH.
      { rewrite Ec in Uc. destruct Uc as (U1 & U2 & U3). intros h0 fuel0 S1 F1. assert (agree ca a i) by (apply agree_trans with a'; [apply agree_sym; by rewrite E1|]; apply (far_spec a b a' b' Wa Wa' Hb Hb')). unfold c in *. destruct s; [eapply IHr|eapply IHl]; try done; lia. }
      rewrite Ec in Uc. destruct (IH h fuel S) as (h' & n & v & Er & S'); [destruct Uc; lia|]. cbn [hole f_id f_side] in Er. rewrite Er. exists h', n, v. destruct (Td n v) as [-> ->]. split; [done|]. by rewrite cells_into.
  - rewrite (proj2 (Z.eqb_neq i b')) by lia. destruct K as [|f K]; [specialize (Root eq_refl); lia|]. cbn [hole]. rewrite (proj2 (Z.eqb_eq i b)) by done. rewrite get_bit_spec by lia. rewrite Ep. cbn [up].
    pose proof (sound_swap _ _ _ S0 (cells_hole f K id _ c o L)) as S1. destruct (link_above a b d _ _ _ _ _ _ _ _ _ _ _ _ _ (bit a' i) _ _ _ S1) as (h1 & n & -> & S2). exists h1, n, n. destruct (tins_above a b d n n id a' b' d' s c o) as [-> ->]; [fold i; lia|done|]. fold i. split; [done|]. rewrite cells_at. eapply sound_swap; [exact S2|]. rewrite cells_nd, rid_nd. cbn [rid cells kcells up]. solve_Permutation.
  - assert (0 <= i) by apply (far_spec a b a' b' Wa Wa' Hb Hb'). rewrite (proj2 (Z.eqb_neq i b')), (proj2 (Z.eqb_neq i b)), (proj2 (Z.ltb_lt i 128)), get_bit_spec by lia. fold s. destruct K as [|f K]; [specialize (Root eq_refl); lia|]. cbn [hole]. rewrite Ep. cbn [up].
    pose proof (sound_swap _ _ _ S0 (cells_hole f K id _ c o L)) as S1. destruct (link_virtual a b d _ _ _ _ _ _ _ _ _ _ _ _ _ s _ _ i _ S1) as (h1 & n & v & Ec & S2). exists h1, n, v. rewrite Ec. destruct (tins_virtual a b d n v id a' b' d' s c o) as [-> ->]; [fold i; lia..|]. fold i s. split; [done|]. rewrite cells_at. eapply sound_swap; [exact S2|]. rewrite cells_nd, rid_nd. cbn [rid cells kcells up leaf]. solve_Permutation.
Qed.

Lemma tins_items (n v : cid) (t : tree) : wft t -> inserted (key a b) (tid a b n t) d (items t) (items (tins a b d n v t)).
Proof.
  induction t as [|id a' b' d' l IHl r IHr]; intros W; [right; by exists []|]. cbn [wft] in W. destruct W as (Wa' & Hb' & Ul & Ur & Wl & Wr). pose proof (far_cases a b a' b' Wa Wa' Hb Hb') as Cs. cbv zeta in Cs.
  rewrite (nd_inv id a' b' d' l r (bit a (far a b a' b'))). set (s := bit a _) in *. set (c := if s then r else l) in *. set (o := if s then l else r) in *. assert (inserted (key a b) (tid a b n c) d (items c) (items (tins a b d n v c))) as IH by (unfold c; destruct s; [by apply IHr|by apply IHl]).
  destruct Cs as [(E1 & E2 & Ek)|[(E1 & E2 & P)|[(E1 & E2 & P)|(E1 & E2 & E3 & P & P')]]].
  - destruct (tins_here a b d n v id a' b' d' s c o) as [-> ->]; [done|congruence|]. left. exists d', (items c ++ items o). rewrite Ek. split; apply items_nd.
  - destruct (tins_down a b d n v id a' b' d' s c o) as [-> ->]; [done|lia|unfold s; by rewrite E1|]. rewrite !items_nd. by apply inserted_in.
  - destruct (tins_above a b d n v id a' b' d' s c o) as [-> ->]; [lia|done|]. right. exists []. split; [|done]. rewrite (items_nd n). cbn [items]. by rewrite app_nil_r.
  - destruct (tins_virtual a b d n v id a' b' d' s c o) as [-> ->]; [lia..|]. right. exists [(key a (far a b a' b'), (v, None))]. split; [|by repeat constructor]. rewrite (items_nd v). cbn [items leaf]. rewrite app_nil_r. solve_Permutation.
Qed.
End Insertion.

(** A node without data that is neither a root nor [x] has two children. *)
Definition busy (x : option cid) (c : cid * cidr_node) : Prop := data c.2 = None -> parent c.2 <> None -> Some c.1 <> x -> left c.2 <> None /\ right c.2 <> None.
Lemma busy_mk (x : option cid) (id : cid) (a : irc_in_addr) (b : Z) (p : option cid) (s : bool) (c o : option cid) (d : option positive) : busy x (id, mk a b p s c o d) <-> (d = None -> p <> None -> Some id <> x -> c <> None /\ o <> None).
Proof. unfold busy. destruct s; cbn; tauto. Qed.
Lemma busy_less (x : option cid) (c : cid * cidr_node) : busy None c -> busy x c.
Proof. intros B H1 H2 H3. by apply B. Qed.
Lemma busy_cells_less (x : option cid) (L : list (cid * cidr_node)) : Forall (busy None) L -> Forall (busy x) L.
Proof. intros F. eapply Forall_impl; [exact F|apply busy_less]. Qed.
Lemma busy_parent (x : option cid) (q q' : cid) (t : tree) : Forall (busy x) (cells (Some q) t) -> Forall (busy x) (cells (Some q') t).
Proof. destruct t; cbn [cells]; [done|]. intros F. inversion_clear F as [|? ? B F']. constructor; [|done]. intros H1 _ H3. by apply B. Qed.
Lemma busy_hole (x : option cid) (K : list frame) (i j : cid) : Forall (busy x) (kcells K (Some i)) -> Forall (busy x) (kcells K (Some j)).
Proof. destruct K as [|f K]; cbn [kcells]; [done|]. intros F. inversion_clear F as [|? ? B F']. constructor; [|done]. apply busy_mk. intros H1 H2 H3. by destruct (proj1 (busy_mk _ _ _ _ _ _ _ _ _) B H1 H2 H3). Qed.

Lemma tins_rid (a : irc_in_addr) (b : Z) (d : option positive) (n v : cid) (t : tree) : rid (tins a b d n v t) <> None.
Proof. destruct t as [|id a' b' d' l r]; cbn [tins]; [done|]. repeat case_match; by rewrite ?rid_nd. Qed.
Lemma tins_busy (a : irc_in_addr) (b : Z) (d : option positive) (n v : cid) (t : tree) : forall q, Forall (busy None) (cells (Some q) t) -> Forall (busy (Some (tid a b n t))) (cells (Some q) (tins a b d n v t)).
Proof.
  induction t as [|id a' b' d' l IHl r IHr]; intros q F; [by repeat constructor|]. pose proof F as F0. cbn [cells] in F. inversion_clear F as [|? ? B F']. apply Forall_app in F' as [Fl Fr]. cbn [tins tid]. destruct (far a b a' b' =? b').
  - destruct (far a b a' b' =? b); [|destruct (bit a (far a b a' b'))]; cbn [cells].
    + constructor; [by intros ? ? ?|]. apply Forall_app. by split; apply busy_cells_less.
    + constructor; [intros H1 H2 H3; destruct (B H1 H2 ltac:(done)); split; [done|apply tins_rid]|]. apply Forall_app. split; [by apply busy_cells_less|by apply IHr].
    + constructor; [intros H1 H2 H3; destruct (B H1 H2 ltac:(done)); split; [apply tins_rid|done]|]. apply Forall_app. split; [by apply IHl|by apply busy_cells_less].
  - assert (forall q', Forall (busy (Some n)) (cells (Some q') (T id a' b' d' l r))) as Ft by (intros q'; apply busy_cells_less; by apply busy_parent with q).
    destruct (far a b a' b' =? b); rewrite cells_nd; constructor; [| |by apply busy_mk|]; [by apply busy_mk|by apply Forall_app|]. apply Forall_app. split; [|done]. by repeat constructor.
Qed.

(** ** Lookups *)
(** The nodes with data on the way to a place, nearest first. *)
Fixpoint kpath (K : list frame) : list (bstr * (cid * positive)) :=
  match K with
  | [] => []
  | f :: K => match f_data f with Some x => (key (f_ip f) (f_bits f), (f_id f, x)) :: kpath K | None => kpath K end
  end.
Definition first_id (P : list (bstr * (cid * positive))) : option cid := (fun e => e.2.1) <$> head P.

Lemma closest_loop_spec (K : list frame) : forall h i L fuel, sound h (kcells K i ++ L) -> (length K < fuel)%nat -> closest_loop fuel h (up K) = Ok (first_id (kpath K)).
Proof.
  induction K as [|f K IH]; intros h i L fuel S Fu; (destruct fuel as [|fuel]; [cbn in Fu; lia|]); cbn [closest_loop up kpath]; [done|]. cbn [kcells app] in S. rewrite (load_sound _ _ _ _ S). cbn [obind]. destruct (mk_fields (f_ip f) (f_bits f) (up K) (f_side f) i (rid (f_sib f)) (f_data f)) as (_ & _ & -> & ->).
  destruct (f_data f) as [x|]; [done|]. apply (IH h (Some (f_id f)) ((f_id f, mk (f_ip f) (f_bits f) (up K) (f_side f) i (rid (f_sib f)) None) :: cells (Some (f_id f)) (f_sib f) ++ L)); [|cbn in Fu; lia]. eapply sound_swap; [exact S|]. solve_Permutation.
Qed.
Lemma closest_spec (h : cheap) (K : list frame) (id : cid) (a : irc_in_addr) (b : Z) (d : option positive) (s : bool) (c o : tree) (L : list (cid * cidr_node)) : sound h (kcells K (rid (nd id a b d s c o)) ++ cells (up K) (nd id a b d s c o) ++ L) -> (length K <= 129)%nat -> cidr_get_closest_data_parent h id = Ok (first_id (kpath K)).
Proof.
  intros S Lk. unfold cidr_get_closest_data_parent. pose proof S as S0. rewrite cells_at in S0. rewrite (load_sound _ _ _ _ S0). cbn [obind]. destruct (mk_fields a b (up K) s (rid c) (rid o) d) as (_ & _ & -> & _). eapply closest_loop_spec; [exact S|lia].
Qed.

Section Find.
Context (a : irc_in_addr) (b : Z).

(** All nodes with data on the way to a prefix, deepest first, in front of [acc]. *)
Fixpoint tpath (t : tree) (acc : list (bstr * (cid * positive))) : list (bstr * (cid * positive)) :=
  match t with
  | E => acc
  | T id a' b' d' l r =>
      let i := far a b a' b' in
      if i =? b' then
        let acc := match d' with Some x => (key a' b', (id, x)) :: acc | None => acc end in
        if i =? b then acc else if bit a i then tpath r acc else tpath l acc
      else acc
  end.
Fixpoint texact (t : tree) : option (cid * option positive) :=
  match t with
  | E => None
  | T id a' b' d' l r =>
      let i := far a b a' b' in
      if i =? b' then if i =? b then Some (id, d') else if bit a i then texact r else texact l else None
  end.
(** The answer of [_cidr_find_node] in its three modes. *)
Definition answer (mode : Z) (t : tree) (acc : list (bstr * (cid * positive))) : option cid :=
  if mode =? 0 then first_id (tpath t acc)
  else match texact t with Some (m, d) => if bool_decide (d <> None) || (mode =? 2) then Some m else None | None => None end.

Lemma down_eqs (id : cid) (a' : irc_in_addr) (b' : Z) (d' : option positive) (s : bool) (c o : tree) (acc : list (bstr * (cid * positive))) : far a b a' b' = b' -> b' <> b -> s = bit a b' ->
  texact (nd id a' b' d' s c o) = texact c /\ tpath (nd id a' b' d' s c o) acc = tpath c (match d' with Some x => (key a' b', (id, x)) :: acc | None => acc end).
Proof. intros F N ->. unfold nd. destruct (bit a b') eqn:B; cbn [texact tpath]; rewrite F, Z.eqb_refl, (proj2 (Z.eqb_neq b' b) N), B; done. Qed.
Lemma here_eqs (id : cid) (a' : irc_in_addr) (b' : Z) (d' : option positive) (s : bool) (c o : tree) (acc : list (bstr * (cid * positive))) : far a b a' b' = b' -> b' = b ->
  texact (nd id a' b' d' s c o) = Some (id, d') /\ tpath (nd id a' b' d' s c o) acc = match d' with Some x => (key a' b', (id, x)) :: acc | None => acc end.
Proof. intros F N. unfold nd. destruct s; cbn [texact tpath]; rewrite F, Z.eqb_refl, (proj2 (Z.eqb_eq b' b) N); done. Qed.
Lemma off_eqs (id : cid) (a' : irc_in_addr) (b' : Z) (d' : option positive) (s : bool) (c o : tree) (acc : list (bstr * (cid * positive))) : far a b a' b' <> b' -> texact (nd id a' b' d' s c o) = None /\ tpath (nd id a' b' d' s c o) acc = acc.
Proof. intros F. unfold nd. destruct s; cbn [texact tpath]; rewrite (proj2 (Z.eqb_neq _ b') F); done. Qed.

Context (Wa : addr_wf a) (Hb : 0 <= b <= 128).

Lemma cidr_find_loop_spec (mode : Z) (t : tree) : forall id a' b' d' l r K L h fuel lo, t = T id a' b' d' l r -> sound h (kcells K (rid t) ++ cells (up K) t ++ L) -> wft t -> 0 <= lo <= b -> lo <= b' -> agree a' a lo -> Z.of_nat (length K) <= b' -> 129 - b' <= Z.of_nat fuel ->
  find_loop a b fuel h id lo mode = Ok (answer mode t (kpath K)).
Proof.
  induction t as [|id0 a0 b0 d0 l0 IHl r0 IHr]; [done|]. intros id a' b' d' l r K L h fuel lo [= -> -> -> -> -> ->] S W Hl Hl' A Lk Fu. pose proof W as W0. cbn [wft] in W. destruct W as (Wa' & Hb' & Ul & Ur & Wl & Wr).
  destruct fuel as [|fuel]; [lia|]. cbn [find_loop]. pose proof (far_cases a b a' b' Wa Wa' Hb Hb') as Cs. pose proof (far_hint a b a' b' lo Wa Wa' Hb Hb' Hl Hl' A) as Fh. cbv zeta in Cs. set (s := bit a (far a b a' b')) in *. rewrite (nd_inv id a' b' d' l r s) in *. set (c := if s then r else l) in *. set (o := if s then l else r) in *.
  pose proof S as S0. rewrite cells_at in S0. rewrite (load_sound _ _ _ _ S0). cbn [obind]. destruct (mk_fields a' b' (up K) s (rid c) (rid o) d') as (-> & -> & _ & Ed). rewrite Fh, Ed. set (i := far a b a' b') in *.
  pose proof (closest_spec h K id a' b' d' s c o L S ltac:(lia)) as Cl. assert (kpath (Fr id a' b' d' s o :: K) = match d' with Some x => (key a' b', (id, x)) :: kpath K | None => kpath K end) as Ek by done.
  destruct Cs as [(E1 & E2 & _)|[(E1 & E2 & P)|Off]].
  - rewrite (proj2 (Z.eqb_eq _ _) E1), (proj2 (Z.eqb_eq _ _) E2). unfold answer. destruct (here_eqs id a' b' d' s c o (kpath K)) as [-> ->]; [done|congruence|]. destruct d' as [x|]; rewrite ?bool_decide_true, ?bool_decide_false by done; cbn [orb first_id head fmap option_fmap option_map snd fst]; [by destruct (mode =? 0)|]. destruct (Z.eqb_spec mode 0) as [->|N]; [by cbn [Z.eqb negb]|]. by destruct (mode =? 2).
  - rewrite (proj2 (Z.eqb_eq _ _) E1), (proj2 (Z.eqb_neq _ _)), (proj2 (Z.ltb_lt i 128)), get_bit_spec by lia. fold s. rewrite child_mk. unfold answer. destruct (down_eqs id a' b' d' s c o (kpath K)) as [-> ->]; [done|lia|unfold s; by rewrite E1|]. rewrite <- Ek. fold (answer mode c (kpath (Fr id a' b' d' s o :: K))).
    assert (c = E \/ exists cid ca cb cd cl cr, c = T cid ca cb cd cl cr) as [Ec|(ci & ca & cb & cd & cl & cr & Ec)] by (destruct c; [by left|right; by repeat eexists]).
    + rewrite Ec. cbn [rid]. unfold answer. cbn [texact tpath]. rewrite Ek. destruct (mode =? 0); cbn [negb]; [|done]. by destruct d'.
    + assert (rid c = Some ci) as -> by (by rewrite Ec). assert (wft c /\ under b' a' s c) as [Wc Uc] by (unfold c; by destruct s). rewrite Ec in Uc. destruct Uc as (U1 & U2 & U3). rewrite cells_into in S. assert (agree ca a i) by (apply agree_trans with a'; [apply agree_sym; by rewrite E1|]; apply (far_spec a b a' b' Wa Wa' Hb Hb')).
      unfold c in *. destruct s; [eapply IHr|eapply IHl]; try done; cbn [length]; lia.
  - assert (i <> b') as Ni by (destruct Off as [(? & ? & _)|(? & ? & _)]; lia). rewrite (proj2 (Z.eqb_neq _ _) Ni). unfold answer. destruct (off_eqs id a' b' d' s c o (kpath K)) as [-> ->]; [done|]. by destruct (mode =? 0).
Qed.
End Find.

Lemma items_from (id : cid) (a : irc_in_addr) (b : Z) (d : option positive) (s : bool) (c o : tree) : wft (nd id a b d s c o) -> Forall (fun e => key a b `prefix_of` e.1) (items (nd id a b d s c o)) /\ Forall (fun e => key a b ++ [s] `prefix_of` e.1) (items c) /\ Forall (fun e => key a b ++ [negb s] `prefix_of` e.1) (items o).
Proof.
  intros (Wa & Hb & Uc & Uo & Wc & Wo)%wft_nd. pose proof (items_under c b a s ltac:(lia) Wc Uc) as Fc. pose proof (items_under o b a (negb s) ltac:(lia) Wo Uo) as Fo. split; [|done]. rewrite items_nd. constructor; [done|]. apply Forall_app.
  split; (eapply Forall_impl; [by first [exact Fc|exact Fo]|]); intros e P; (etrans; [|exact P]); by eexists.
Qed.
Lemma turns_apart (k x y : bstr) (s : bool) : k ++ [s] `prefix_of` x -> k ++ [negb s] `prefix_of` y -> ~ y `prefix_of` x.
Proof. intros P Q R. assert (k ++ [negb s] `prefix_of` x) as P' by (by etrans). destruct s; cbn [negb] in *; by eapply turn_apart. Qed.

Section Found.
Context (a : irc_in_addr) (b : Z) (Wa : addr_wf a) (Hb : 0 <= b <= 128).

Lemma off_path (a' : irc_in_addr) (b' : Z) : addr_wf a' -> 0 <= b' <= 128 -> far a b a' b' <> b' -> ~ key a' b' `prefix_of` key a b.
Proof.
  intros Wa' Hb' N P. destruct (far_spec a b a' b' Wa Wa' Hb Hb') as (F1 & F2 & F3 & F4). apply key_prefix in P as [L A]; [|lia..]. apply F4; [lia..|]. apply A. lia.
Qed.

(** An exact lookup finds the node of the prefix if there is one. *)
Lemma texact_spec (t : tree) (m : cid) (d : option positive) : wft t -> texact a b t = Some (m, d) <-> (key a b, (m, d)) ∈ items t.
Proof.
  induction t as [|id a' b' d' l IHl r IHr]; intros W; [split; [done|by intros ?%elem_of_nil]|]. pose proof W as W0. cbn [wft] in W. destruct W as (Wa' & Hb' & _ & _ & Wl & Wr). pose proof (far_cases a b a' b' Wa Wa' Hb Hb') as Cs. cbv zeta in Cs.
  rewrite (nd_inv id a' b' d' l r (bit a (far a b a' b'))) in W0 |- *. set (s := bit a _) in *. set (c := if s then r else l) in *. set (o := if s then l else r) in *. assert (texact a b c = Some (m, d) <-> (key a b, (m, d)) ∈ items c) as IH by (unfold c; destruct s; [by apply IHr|by apply IHl]).
  destruct (items_from _ _ _ _ _ _ _ W0) as (Fa & Fc & Fo). rewrite Forall_forall in Fa, Fc, Fo. rewrite items_nd, elem_of_cons, elem_of_app. destruct Cs as [(E1 & E2 & Ek)|[(E1 & E2 & P)|Off]].
  - destruct (here_eqs a b id a' b' d' s c o []) as [-> _]; [done|congruence|]. rewrite Ek. split; [intros [= -> ->]; by left|]. intros [[= -> ->]|[H|H]]; [done|apply Fc in H|apply Fo in H]; cbn [fst] in H; by apply turn_longer in H.
  - destruct (down_eqs a b id a' b' d' s c o []) as [-> _]; [done|lia|unfold s; by rewrite E1|]. rewrite IH. split; [by intros H; right; left|]. intros [[= Ek _ _]|[H|H]]; [rewrite Ek in P; by apply turn_longer in P|done|]. apply Fo in H. cbn [fst] in H. by destruct (turns_apart _ _ _ _ P H).
  - assert (far a b a' b' <> b') as Ni by (destruct Off as [(? & ? & _)|(? & ? & _)]; lia). destruct (off_eqs a b id a' b' d' s c o [] Ni) as [-> _]. split; [done|]. intros H. exfalso. apply (off_path a' b' Wa' Hb' Ni). apply (Fa (key a b, (m, d))). by rewrite items_nd, elem_of_cons, elem_of_app.
Qed.

Definition covering (t : tree) (e : bstr * (cid * positive)) : Prop := (e.1, (e.2.1, Some e.2.2)) ∈ items t /\ e.1 `prefix_of` key a b.
(** A path is in order, from the longest prefix to the shortest. *)
Definition shorter (e e' : bstr * (cid * positive)) : Prop := e'.1 `prefix_of` e.1 /\ e'.1 <> e.1.

Lemma tpath_app (t : tree) : forall acc, tpath a b t acc = tpath a b t [] ++ acc.
Proof.
  induction t as [|id a' b' d' l IHl r IHr]; intros acc; cbn [tpath]; [done|]. destruct (far a b a' b' =? b'); [|done]. destruct (far a b a' b' =? b); [by destruct d'|]. destruct (bit a (far a b a' b')); [rewrite (IHr (match d' with None => acc | _ => _ end)), (IHr (match d' with None => [] | _ => _ end))|rewrite (IHl (match d' with None => acc | _ => _ end)), (IHl (match d' with None => [] | _ => _ end))]; destruct d'; by rewrite <- app_assoc.
Qed.

(** The path to a prefix is all nodes with data that cover it. *)
Lemma tpath_spec (t : tree) : wft t -> (forall e, e ∈ tpath a b t [] <-> covering t e) /\ StronglySorted shorter (tpath a b t []).
Proof.
  induction t as [|id a' b' d' l IHl r IHr]; intros W; [split; [|constructor]; intros e; unfold covering; cbn; split; [by intros ?%elem_of_nil|by intros [?%elem_of_nil _]]|]. pose proof W as W0. cbn [wft] in W. destruct W as (Wa' & Hb' & _ & _ & Wl & Wr). pose proof (far_cases a b a' b' Wa Wa' Hb Hb') as Cs. cbv zeta in Cs.
  rewrite (nd_inv id a' b' d' l r (bit a (far a b a' b'))) in W0 |- *. set (s := bit a _) in *. set (c := if s then r else l) in *. set (o := if s then l else r) in *. assert ((forall e, e ∈ tpath a b c [] <-> covering c e) /\ StronglySorted shorter (tpath a b c [])) as [IH IHs] by (unfold c; destruct s; [by apply IHr|by apply IHl]).
  destruct (items_from _ _ _ _ _ _ _ W0) as (Fa & Fc & Fo). rewrite Forall_forall in Fa, Fc, Fo. destruct Cs as [(E1 & E2 & Ek)|[(E1 & E2 & P)|Off]].
  - destruct (here_eqs a b id a' b' d' s c o []) as [_ ->]; [done|congruence|]. split.
    + intros [k [m x]]. unfold covering. cbn [fst snd]. rewrite items_nd, elem_of_cons, elem_of_app, Ek. split.
      * destruct d' as [y|]; [|by intros ?%elem_of_nil]. intros [= -> -> ->]%list_elem_of_singleton. split; [by left|done].
      * intros [[[= -> -> <-]|[H|H]] Q]; [by left| |]; exfalso; [apply Fc in H|apply Fo in H]; cbn [fst] in H; eapply turn_longer; by etrans.
    + destruct d'; repeat constructor.
  - destruct (down_eqs a b id a' b' d' s c o []) as [_ ->]; [done|lia|unfold s; by rewrite E1|]. rewrite tpath_app. split.
    + intros [k [m x]]. rewrite elem_of_app, IH. unfold covering. cbn [fst snd]. rewrite items_nd, elem_of_cons, elem_of_app. split.
      * intros [[H1 H2]|H]; [split; [by right; left|done]|]. destruct d' as [y|]; [|by apply elem_of_nil in H]. apply list_elem_of_singleton in H as [= -> -> ->]. split; [by left|]. etrans; [|exact P]. by eexists.
      * intros [[[= -> -> <-]|[H|H]] Q]; [right; by left|by left|]. apply Fo in H. cbn [fst] in H. by destruct (turns_apart _ _ _ _ P H).
    + destruct d' as [y|]; [|by rewrite app_nil_r]. apply StronglySorted_app. split_and!; [|done|by repeat constructor]. intros e e' H ->%list_elem_of_singleton. apply IH in H as [H _]. apply Fc in H. cbn [fst] in *. split; cbn [fst]; [etrans; [|exact H]; by eexists|]. intros Ee. rewrite <- Ee in H. by eapply turn_longer.
  - assert (far a b a' b' <> b') as Ni by (destruct Off as [(? & ? & _)|(? & ? & _)]; lia). destruct (off_eqs a b id a' b' d' s c o [] Ni) as [_ ->]. split; [|constructor]. intros e. split; [by intros ?%elem_of_nil|]. intros [H Q]. exfalso. apply (off_path a' b' Wa' Hb' Ni). etrans; [|exact Q]. by apply Fa in H.
Qed.
End Found.

(** ** Places in a tree *)
Lemma plug_snoc (K : list frame) (f : frame) : forall t, plug (K ++ [f]) t = fill f (plug K t).
Proof. induction K as [|g K IH]; intros t; cbn [plug app]; [done|]. apply IH. Qed.
Lemma kpath_app (K K' : list frame) : kpath (K ++ K') = kpath K ++ kpath K'.
Proof. induction K as [|f K IH]; cbn [kpath app]; [done|]. rewrite IH. by destruct (f_data f). Qed.
(** Every node of a tree has a place. *)
Lemma items_place (t : tree) : forall k m d, (k, (m, d)) ∈ items t -> exists K a b l r, t = plug K (T m a b d l r) /\ key a b = k.
Proof.
  induction t as [|id a' b' d' l IHl r IHr]; intros k m d; [by intros ?%elem_of_nil|]. cbn [items]. intros [[= -> -> ->]|[H|H]%elem_of_app]%elem_of_cons; [by exists [], a', b', l, r| |].
  - destruct (IHl k m d H) as (K & a & b & x & y & -> & Ek). exists (K ++ [Fr id a' b' d' false r]), a, b, x, y. by rewrite plug_snoc.
  - destruct (IHr k m d H) as (K & a & b & x & y & -> & Ek). exists (K ++ [Fr id a' b' d' true l]), a, b, x, y. by rewrite plug_snoc.
Qed.
(** The nodes behind one on a path are those above it. *)
Lemma kpath_place (K0 : list frame) : forall t X e Y, kpath K0 = X ++ e :: Y -> exists K a' b' l r, plug K0 t = plug K (T e.2.1 a' b' (Some e.2.2) l r) /\ key a' b' = e.1 /\ kpath K = Y.
Proof.
  induction K0 as [|f K0 IH]; intros t X e Y; cbn [kpath plug]; [by destruct X|]. destruct (f_data f) as [x|] eqn:Ed; [|by apply IH]. destruct X as [|z X]; cbn [app]; [|intros [= _ H]; by apply (IH _ X)].
  intros [= <- <-]. cbn [fst snd]. unfold fill, nd. rewrite Ed. destruct (f_side f); by repeat eexists.
Qed.
Lemma tpath_place (a : irc_in_addr) (b : Z) (t : tree) : forall K0 X e Y, tpath a b t (kpath K0) = X ++ e :: Y -> exists K a' b' l r, plug K0 t = plug K (T e.2.1 a' b' (Some e.2.2) l r) /\ key a' b' = e.1 /\ kpath K = Y.
Proof.
  induction t as [|id a' b' d' l IHl r IHr]; intros K0 X e Y; cbn [tpath]; [by apply kpath_place|]. destruct (far a b a' b' =? b'); [|by apply kpath_place].
  destruct (far a b a' b' =? b); [apply (kpath_place (Fr id a' b' d' true l :: K0) r)|]. destruct (bit a _); [apply (IHr (Fr id a' b' d' true l :: K0))|apply (IHl (Fr id a' b' d' false r :: K0))].
Qed.

Lemma wft_sub (K : list frame) : forall t, wft (plug K t) -> wft t.
Proof. induction K as [|f K IH]; intros t W; [done|]. apply IH in W. unfold fill in W. apply wft_nd in W. tauto. Qed.
Lemma place_depth (K : list frame) : forall id a b d l r, wft (plug K (T id a b d l r)) -> Z.of_nat (length K) <= b.
Proof.
  induction K as [|f K IH]; intros id a b d l r W; [apply wft_sub in W; cbn [wft length] in *; lia|]. cbn [plug] in W. pose proof (wft_sub _ _ W) as W'. unfold fill in W, W'. apply wft_nd in W' as (_ & _ & [Lt _] & _). unfold nd in W. cbn [length]. destruct (f_side f); apply IH in W; lia.
Qed.
(** Another subtree may take a place if it lies under whatever the old one lay under. *)
Definition fits (t t' : tree) : Prop := forall b a s, 0 <= b -> under b a s t -> under b a s t'.
Lemma wft_swap (K : list frame) : forall t t', wft (plug K t) -> wft t' -> fits t t' -> wft (plug K t').
Proof.
  induction K as [|f K IH]; intros t t' W W' F; [done|]. cbn [plug] in *. pose proof (wft_sub _ _ W) as Wf. apply (IH (fill f t)); [done| |].
  - unfold fill in *. apply wft_nd. apply wft_nd in Wf. destruct Wf as (H1 & H2 & H3 & H4 & H5 & H6). split_and!; try done; [lia..|]. apply F; [lia|done].
  - intros b a s Hb. unfold fill, nd. by destruct (f_side f).
Qed.
Lemma fits_child (id : cid) (a : irc_in_addr) (b : Z) (d : option positive) (s : bool) (c o : tree) : wft (nd id a b d s c o) -> fits (nd id a b d s c o) c.
Proof.
  intros (Wa & Hb & Uc & _ & Wc & _)%wft_nd b0 a0 s0 H0 U. destruct c as [|id' a' b' d' l r]; [done|]. destruct Uc as (U1 & U2 & U3). assert (b0 < b /\ agree a0 a b0 /\ bit a b0 = s0) as (V1 & V2 & V3) by (unfold nd in U; by destruct s). cbn [under]. split_and!; [lia| |rewrite <- V3; symmetry; apply U2; lia]. apply agree_trans with a; [done|]. apply agree_le with b; [lia|done].
Qed.
Lemma fits_refl (t : tree) : fits t t.
Proof. by intros b a s. Qed.
Lemma fits_leaf (t : tree) : fits t E.
Proof. done. Qed.

(** ** Removal *)
(** What is left when the node [m] at a place goes. *)
Definition tdrop (K : list frame) (m : cid) (a : irc_in_addr) (b : Z) (l r : tree) : tree :=
  match K with
  | [] => T m a b None l r
  | f :: K' =>
      match l, r with
      | E, E => match f_data f, K' with None, _ :: _ => plug K' (f_sib f) | _, _ => plug K' (fill f E) end
      | E, c | c, E => plug K c
      | _, _ => plug K (T m a b None l r)
      end
  end.

Lemma replace_child_spec (h : cheap) (fid m : cid) (fa : irc_in_addr) (fb : Z) (fd : option positive) (fp : option cid) (fs : bool) (fo v : option cid) (R : list (cid * cidr_node)) : sound h ((fid, mk fa fb fp fs (Some m) fo fd) :: R) -> fo <> Some m ->
  exists h', replace_child h fid m v = Ok h' /\ sound h' ((fid, mk fa fb fp fs v fo fd) :: R).
Proof.
  intros S N. unfold replace_child. rewrite (load_sound _ _ _ _ S). cbn [obind]. assert (negb (bool_decide (left (mk fa fb fp fs (Some m) fo fd) = Some m)) = fs) as -> by (destruct fs; cbn; [by rewrite bool_decide_false|by rewrite bool_decide_true]).
  destruct (update_sound _ _ _ (set_child fs v) _ S) as (h' & -> & S'). rewrite set_child_mk in S'. by exists h'.
Qed.

Lemma rid_apart (h : cheap) (p : option cid) (t : tree) (m : cid) (x : cidr_node) (R : list (cid * cidr_node)) : sound h ((m, x) :: cells p t ++ R) -> rid t <> Some m.
Proof. intros [_ N] E. destruct t as [|id a b d l r]; [done|]. injection E as ->. cbn [cells map fst] in N. apply NoDup_cons in N as [N _]. apply N. cbn. by left. Qed.

(** A node is given another parent. *)
Lemma reparent (h : cheap) (p q : option cid) (t : tree) (c : cid) (R : list (cid * cidr_node)) : rid t = Some c -> sound h (cells p t ++ R) -> exists h', update h c (set_parent q) = Ok h' /\ sound h' (cells q t ++ R).
Proof. intros E S. destruct t as [|id a b d l r]; [done|]. injection E as ->. cbn [cells app] in *. apply (update_sound _ _ _ (set_parent q) _ S). Qed.

Section Drop.
Context (m : cid) (a : irc_in_addr) (b : Z) (d : option positive).

(** A node with one child is replaced by it. *)
Lemma collapse_child (h : cheap) (f : frame) (K : list frame) (s : bool) (t : tree) (c : cid) (L : list (cid * cidr_node)) : rid t = Some c -> sound h (kcells (f :: K) (Some m) ++ cells (Some (f_id f)) (nd m a b d s t E) ++ L) ->
  exists h', _cidr_collapse_node h m = Ok (h', 1) /\ sound h' (kcells (f :: K) (Some c) ++ cells (Some (f_id f)) t ++ L).
Proof.
  intros Ec S. unfold _cidr_collapse_node. set (R := cells (Some (f_id f)) (f_sib f) ++ kcells K (Some (f_id f)) ++ L). set (up0 := up K) in *. set (x := mk a b (Some (f_id f)) s (Some c) None d). set (y := fun i => mk (f_ip f) (f_bits f) up0 (f_side f) i (rid (f_sib f)) (f_data f)).
  assert (sound h ((m, x) :: cells (Some m) t ++ (f_id f, y (Some m)) :: R)) as S0 by (eapply sound_swap; [exact S|]; rewrite cells_nd, Ec; cbn [kcells cells rid]; unfold R, x, y; solve_Permutation).
  rewrite (load_sound _ _ _ _ S0). cbn [obind]. assert (rid (f_sib f) <> Some m) as Na by (apply (rid_apart h (Some (f_id f)) (f_sib f) m x (cells (Some m) t ++ (f_id f, y (Some m)) :: kcells K (Some (f_id f)) ++ L)); eapply sound_swap; [exact S0|]; unfold R; solve_Permutation).
  apply (sound_swap _ _ (cells (Some m) t ++ (m, x) :: (f_id f, y (Some m)) :: R)) in S0; [|solve_Permutation]. destruct (reparent h (Some m) (Some (f_id f)) t c _ Ec S0) as (h1 & E1 & S1). apply (sound_swap _ _ ((f_id f, y (Some m)) :: (m, x) :: cells (Some (f_id f)) t ++ R)) in S1; [|solve_Permutation].
  destruct (replace_child_spec _ _ _ _ _ _ _ _ _ (Some c) _ S1 Na) as (h2 & E2 & S2). rewrite Permutation_swap in S2. apply sound_delete in S2. exists (delete m h2). assert (parent x = Some (f_id f)) as -> by (unfold x; by destruct s).
  assert ((left x = Some c /\ right x = None) \/ (left x = None /\ right x = Some c)) as [[-> ->]|[-> ->]] by (unfold x; destruct s; [by right|by left]); rewrite E1; cbn [obind]; rewrite E2; cbn [obind]; (split; [done|]); (eapply sound_swap; [exact S2|]); unfold R; cbn [kcells]; solve_Permutation.
Qed.

(** A leaf is unlinked from a parent that stays. *)
Lemma collapse_leaf (h : cheap) (f : frame) (K : list frame) (L : list (cid * cidr_node)) : f_data f <> None \/ K = [] -> sound h (kcells (f :: K) (Some m) ++ cells (Some (f_id f)) (T m a b d E E) ++ L) ->
  exists h', _cidr_collapse_node h m = Ok (h', 1) /\ sound h' (kcells (f :: K) None ++ L).
Proof.
  intros St S. unfold _cidr_collapse_node. set (R := cells (Some (f_id f)) (f_sib f) ++ kcells K (Some (f_id f)) ++ L). set (x := MkNode a b (Some (f_id f)) None None d). set (y := fun i => mk (f_ip f) (f_bits f) (up K) (f_side f) i (rid (f_sib f)) (f_data f)).
  assert (sound h ((m, x) :: (f_id f, y (Some m)) :: R)) as S0 by (eapply sound_swap; [exact S|]; cbn [kcells cells rid]; unfold R, x, y; solve_Permutation). rewrite (load_sound _ _ _ _ S0). cbn [obind parent left right x].
  assert (rid (f_sib f) <> Some m) as Na by (apply (rid_apart h (Some (f_id f)) (f_sib f) m x ((f_id f, y (Some m)) :: kcells K (Some (f_id f)) ++ L)); eapply sound_swap; [exact S0|]; unfold R; solve_Permutation).
  rewrite Permutation_swap in S0. destruct (replace_child_spec _ _ _ _ _ _ _ _ _ None _ S0 Na) as (h1 & -> & S1). cbn [obind]. rewrite (load_sound _ _ _ _ S1). cbn [obind]. destruct (mk_fields (f_ip f) (f_bits f) (up K) (f_side f) None (rid (f_sib f)) (f_data f)) as (_ & _ & -> & ->).
  rewrite Permutation_swap in S1. apply sound_delete in S1. exists (delete m h1). split; [|cbn [kcells]; eapply sound_swap; [exact S1|]; unfold R; solve_Permutation]. by destruct St as [N|E]; [destruct (f_data f)|rewrite E; destruct (f_data f)].
Qed.

(** A leaf whose parent has no data goes together with it. *)
Lemma collapse_pair (h : cheap) (f g : frame) (K : list frame) (L : list (cid * cidr_node)) : f_data f = None -> f_sib f <> E -> sound h (kcells (f :: g :: K) (Some m) ++ cells (Some (f_id f)) (T m a b d E E) ++ L) ->
  exists h', _cidr_collapse_node h m = Ok (h', 1) /\ sound h' (kcells (g :: K) (rid (f_sib f)) ++ cells (Some (f_id g)) (f_sib f) ++ L).
Proof.
  intros Df Sf S. unfold _cidr_collapse_node. assert (exists c, rid (f_sib f) = Some c) as (c & Ec) by (destruct (f_sib f); [done|by eexists]). set (R := cells (Some (f_id g)) (f_sib g) ++ kcells K (Some (f_id g)) ++ L). set (x := MkNode a b (Some (f_id f)) None None d). set (y := fun i => mk (f_ip f) (f_bits f) (Some (f_id g)) (f_side f) i (rid (f_sib f)) (f_data f)). set (z := fun i => mk (f_ip g) (f_bits g) (up K) (f_side g) i (rid (f_sib g)) (f_data g)).
  assert (sound h ((m, x) :: (f_id f, y (Some m)) :: (f_id g, z (Some (f_id f))) :: cells (Some (f_id f)) (f_sib f) ++ R)) as S0 by (eapply sound_swap; [exact S|]; cbn [kcells cells rid up]; unfold R, x, y, z; solve_Permutation). rewrite (load_sound _ _ _ _ S0). cbn [obind parent left right x].
  assert (rid (f_sib f) <> Some m) as Na by (apply (rid_apart h (Some (f_id f)) (f_sib f) m x ((f_id f, y (Some m)) :: (f_id g, z (Some (f_id f))) :: R)); eapply sound_swap; [exact S0|]; solve_Permutation).
  assert (rid (f_sib g) <> Some (f_id f)) as Nb by (apply (rid_apart h (Some (f_id g)) (f_sib g) (f_id f) (y (Some m)) ((m, x) :: (f_id g, z (Some (f_id f))) :: cells (Some (f_id f)) (f_sib f) ++ kcells K (Some (f_id g)) ++ L)); eapply sound_swap; [exact S0|]; unfold R; solve_Permutation).
  rewrite Permutation_swap in S0. destruct (replace_child_spec _ _ _ _ _ _ _ _ _ None _ S0 Na) as (h1 & -> & S1). cbn [obind]. rewrite (load_sound _ _ _ _ S1). cbn [obind]. destruct (mk_fields (f_ip f) (f_bits f) (Some (f_id g)) (f_side f) None (rid (f_sib f)) (f_data f)) as (_ & _ & -> & ->). rewrite Df in *.
  assert ((match left (mk (f_ip f) (f_bits f) (Some (f_id g)) (f_side f) None (rid (f_sib f)) None) with None => right (mk (f_ip f) (f_bits f) (Some (f_id g)) (f_side f) None (rid (f_sib f)) None) | l => l end) = Some c) as -> by (rewrite Ec; by destruct (f_side f)).
  apply (sound_swap _ _ ((f_id g, z (Some (f_id f))) :: cells (Some (f_id f)) (f_sib f) ++ (f_id f, y None) :: (m, x) :: R)) in S1; [|unfold y; rewrite Df; solve_Permutation]. destruct (replace_child_spec _ _ _ _ _ _ _ _ _ (Some c) _ S1 Nb) as (h2 & -> & S2). cbn [obind].
  apply (sound_swap _ _ (cells (Some (f_id f)) (f_sib f) ++ (f_id f, y None) :: (m, x) :: (f_id g, z (Some c)) :: R)) in S2; [|unfold z; solve_Permutation]. destruct (reparent h2 (Some (f_id f)) (Some (f_id g)) (f_sib f) c _ Ec S2) as (h3 & -> & S3). cbn [obind].
  apply (sound_swap _ _ ((f_id f, y None) :: (m, x) :: cells (Some (f_id g)) (f_sib f) ++ (f_id g, z (Some c)) :: R)) in S3; [|solve_Permutation]. apply sound_delete, sound_delete in S3. eexists. split; [done|]. eapply sound_swap; [exact S3|]. cbn [kcells]. rewrite Ec. unfold R, z. solve_Permutation.
Qed.
End Drop.

Lemma cells_plug_app (K : list frame) (t : tree) (L : list (cid * cidr_node)) : cells None (plug K t) ++ L ≡ₚ kcells K (rid t) ++ cells (up K) t ++ L.
Proof. rewrite cells_plug. by rewrite app_assoc. Qed.
Definition rootof (t : tree) : option (cid * irc_in_addr * Z) := match t with E => None | T id a b _ _ _ => Some (id, a, b) end.
Lemma rootof_plug (K : list frame) : forall t t', K <> [] \/ rootof t = rootof t' -> rootof (plug K t) = rootof (plug K t').
Proof. induction K as [|f K IH]; intros t t' [H|H]; cbn [plug]; try done; apply IH; right; unfold fill, nd; by destruct (f_side f). Qed.
Lemma busy_rest (h : cheap) (m : cid) (x : cidr_node) (R : list (cid * cidr_node)) : sound h ((m, x) :: R) -> Forall (busy (Some m)) R -> Forall (busy None) R.
Proof.
  intros [_ N] F. apply NoDup_cons in N as [N _]. rewrite Forall_forall in F |- *. intros e He H1 H2 _. apply F; [done..|]. intros [= E]. apply N. apply list_elem_of_fmap. by exists e.
Qed.

Lemma tdrop_cases (K : list frame) (m : cid) (a : irc_in_addr) (b : Z) (l r : tree) (P : tree -> Prop) :
  ((K = [] \/ (l <> E /\ r <> E)) -> P (plug K (T m a b None l r))) ->
  (forall f K' s c, K = f :: K' -> c <> E -> T m a b None l r = nd m a b None s c E -> P (plug K c)) ->
  (forall f g K', K = f :: g :: K' -> l = E -> r = E -> f_data f = None -> P (plug (g :: K') (f_sib f))) ->
  (forall f K', K = f :: K' -> l = E -> r = E -> f_data f <> None \/ K' = [] -> P (plug K E)) ->
  P (tdrop K m a b l r).
Proof.
  intros C1 C2 C3 C4. unfold tdrop. destruct K as [|f K']; [apply C1; by left|]. destruct l as [|? ? ? ? ? ?], r as [|? ? ? ? ? ?]; [|by apply (C2 f K' true)|by apply (C2 f K' false)|apply C1; by right].
  destruct (f_data f) eqn:Ed; [apply (C4 f K'); [done..|left; by rewrite Ed]|]. destruct K' as [|g K']; [apply (C4 f []); [done..|by right]|by apply (C3 f g K')].
Qed.

Section Dropped.
Context (K : list frame) (m : cid) (a : irc_in_addr) (b : Z) (l r : tree) (L : list (cid * cidr_node)).
Let t := plug K (T m a b None l r).

Lemma collapse_spec (h : cheap) : sound h (cells None t ++ L) -> Forall (busy (Some m)) (cells None t ++ L) -> exists h' z, _cidr_collapse_node h m = Ok (h', z) /\ sound h' (cells None (tdrop K m a b l r) ++ L) /\ Forall (busy None) (cells None (tdrop K m a b l r) ++ L).
Proof.
  intros S B. unfold t in *. rewrite cells_plug_app in S, B. set (x := MkNode a b (up K) (rid l) (rid r) None). set (R := kcells K (Some m) ++ cells (Some m) l ++ cells (Some m) r ++ L).
  assert (kcells K (rid (T m a b None l r)) ++ cells (up K) (T m a b None l r) ++ L ≡ₚ (m, x) :: R) as P0 by (cbn [cells rid]; unfold R, x; solve_Permutation). assert (Forall (busy None) R) as Br. { rewrite P0 in S, B. inversion_clear B. by apply (busy_rest h m x). }
  unfold R in Br. rewrite !Forall_app in Br. destruct Br as (Bk & Bl & Br & BL). pattern (tdrop K m a b l r). apply tdrop_cases.
  - intros C. exists h, 0. unfold _cidr_collapse_node. pose proof S as S0. rewrite P0 in S0. rewrite (load_sound _ _ _ _ S0). cbn [obind parent left right x]. rewrite cells_plug_app. split_and!; [|done|].
    + destruct C as [->|[Nl Nr]]; [done|]. destruct K; [done|]. cbn [up]. by destruct l, r.
    + rewrite P0. unfold R. constructor; [|by rewrite !Forall_app]. intros _ H2 _. cbn in *. destruct C as [->|[Nl Nr]]; [done|]. by destruct l, r.
  - intros f K' s c -> Nc Ec. rewrite Ec in S. rewrite rid_nd in S. destruct (rid c) as [ci|] eqn:Ei; [|by destruct c]. destruct (collapse_child m a b None h f K' s c ci L Ei S) as (h' & -> & S'). exists h', 1. rewrite cells_plug_app, Ei. split_and!; [done..|]. rewrite !Forall_app. split_and!; [by apply busy_hole with m| |done]. apply busy_parent with m. unfold nd in Ec. destruct s; by injection Ec as -> ->.
  - intros f g K' -> -> -> Df. cbn [kcells] in Bk. inversion_clear Bk as [|? ? Bf Bk']. apply Forall_app in Bk' as [Bs Bg]. assert (f_sib f <> E) as Ns by (apply busy_mk in Bf; [|done..]; destruct Bf as [_ Bf]; by destruct (f_sib f)). destruct (collapse_pair m a b None h f g K' L Df Ns S) as (h' & -> & S'). exists h', 1. rewrite cells_plug_app. split_and!; [done..|].
    destruct (rid (f_sib f)) as [ci|] eqn:Ei; [|by destruct (f_sib f)]. rewrite !Forall_app. split_and!; [by apply busy_hole with (f_id f)|by apply busy_parent with (f_id f)|done].
  - intros f K' -> -> -> St. destruct (collapse_leaf m a b None h f K' L St S) as (h' & -> & S'). exists h', 1. rewrite cells_plug_app. cbn [cells app rid]. split_and!; [done..|]. rewrite !Forall_app. split; [|done]. cbn [kcells] in Bk |- *. inversion_clear Bk as [|? ? Bf Bk']. constructor; [|done]. apply busy_mk. intros H1 H2 _. destruct St as [N|E0]; [done|]. by subst K'.
Qed.

(** Removal takes away nodes without data only. *)
Lemma tdrop_items : exists V, items t ≡ₚ V ++ items (tdrop K m a b l r) /\ Forall (fun e => e.2.2 = None) V.
Proof.
  unfold t. pattern (tdrop K m a b l r). apply tdrop_cases.
  - intros _. by exists [].
  - intros f K' s c -> Nc ->. exists [(key a b, (m, None))]. split; [|by repeat constructor]. rewrite !items_plug, items_nd. cbn [items]. solve_Permutation.
  - intros f g K' -> -> -> Df. exists [(key a b, (m, None)); (key (f_ip f) (f_bits f), (f_id f, None))]. split; [|by repeat constructor]. rewrite !items_plug. cbn [items kitems app]. rewrite Df. solve_Permutation.
  - intros f K' -> -> -> _. exists [(key a b, (m, None))]. split; [|by repeat constructor]. rewrite !items_plug. cbn [items app]. solve_Permutation.
Qed.
Lemma tdrop_wft : wft t -> wft (tdrop K m a b l r).
Proof.
  unfold t. intros W. pattern (tdrop K m a b l r). apply tdrop_cases.
  - done.
  - intros f K' s c -> Nc Ec. rewrite Ec in W. apply (wft_swap _ _ c W); [|apply fits_child]; apply wft_sub in W; [|done]. apply wft_nd in W. tauto.
  - intros f g K' -> -> -> Df. cbn [plug] in W. pose proof (wft_sub (g :: K') _ W) as Wf. unfold fill in Wf at 1. apply (wft_swap (g :: K') (fill f (T m a b None E E)) (f_sib f)); [done|by apply wft_nd in Wf as (_ & _ & _ & _ & _ & ?)|]. intros b0 a0 s0 H0 U. assert (nd (f_id f) (f_ip f) (f_bits f) (f_data f) (f_side f) (T m a b None E E) (f_sib f) = nd (f_id f) (f_ip f) (f_bits f) (f_data f) (negb (f_side f)) (f_sib f) (T m a b None E E)) as Es by (by destruct (f_side f)). unfold fill in U. rewrite Es in U, Wf. by apply (fits_child _ _ _ _ _ _ _ Wf).
  - intros f K' -> -> -> _. by apply (wft_swap _ _ E W).
Qed.
Lemma tdrop_root : rootof (tdrop K m a b l r) = rootof t.
Proof.
  unfold t. pattern (tdrop K m a b l r). apply tdrop_cases; [done|intros f K' s c -> Nc ->; apply rootof_plug; by left| |intros f K' -> -> -> _; apply rootof_plug; by left].
  intros f g K' -> -> -> Df. apply (rootof_plug (g :: K') (f_sib f) (fill f (T m a b None E E))). by left.
Qed.
End Dropped.

(** ** The two trees *)
Definition base (v4 : bool) : irc_in_addr := InAddr [0; 0; 0; 0; 0; if v4 then 65535 else 0; 0; 0].
Definition base_bits (v4 : bool) : Z := if v4 then 96 else 0.
Definition root_id (r : cidr_root_node) (v4 : bool) : cid := if v4 then ipv4 r else ipv6 r.

(** The masks the trees can keep: an address that counts as IPv4 must be of the mapped
    form, with all 96 bits of its prefix. *)
Definition keepable (a : irc_in_addr) (b : Z) : Prop := addr_wf a /\ 0 <= b <= 128 /\ (irc_in_addr_is_ipv4 a = true -> part a 5 = 65535 /\ 96 <= b).
#[global] Instance keepable_dec (a : irc_in_addr) (b : Z) : Decision (keepable a b).
Proof. unfold keepable. apply _. Defined.

Lemma base_wf (v4 : bool) : addr_wf (base v4).
Proof. destruct v4; apply (bool_decide_unpack _); exact I. Qed.
Lemma is_ipv4_parts (a : irc_in_addr) : irc_in_addr_is_ipv4 a = true -> forall k, (k < 5)%nat -> part a k = 0.
Proof. unfold irc_in_addr_is_ipv4. rewrite !andb_true_iff, !Z.eqb_eq. intros [[[[[? ?] ?] ?] ?] _] k Hk. by do 5 (destruct k as [|k]; [done|]); lia. Qed.
Lemma keepable_base (a : irc_in_addr) (b : Z) : keepable a b -> let v := irc_in_addr_is_ipv4 a in far a b (base v) (base_bits v) = base_bits v.
Proof.
  intros (Wa & Hb & V) v. pose proof (base_wf v) as Wv. assert (0 <= base_bits v <= 128) as Hv by (by destruct v). destruct (far_spec a b (base v) (base_bits v) Wa Wv Hb Hv) as (F1 & F2 & F3 & F4). set (i := far _ _ _ _) in *. destruct (Z.eq_dec i (base_bits v)) as [|N]; [done|exfalso].
  destruct v eqn:Ev; cbn [base_bits] in *; [|lia]. destruct (V Ev) as [V5 V96]. apply F4; [lia..|]. unfold bit. f_equal. assert (0 <= i / 16 < 6) as Hk by (split; [apply Z.div_pos; lia|apply Z.div_lt_upper_bound; lia]). pose proof (is_ipv4_parts a Ev) as Z0. set (k := Z.to_nat (i / 16)). assert (k < 6)%nat as Hk6 by lia. clearbody k. destruct (Nat.eq_dec k 5) as [->|]; [by rewrite V5|]. rewrite Z0 by lia. by do 5 (destruct k as [|k]; [done|]); lia.
Qed.

(** [F] gives the tree of each family; [x] is a node that is being set up or taken down. *)
Record rep (x : option cid) (h : cheap) (r : cidr_root_node) (F : bool -> tree) : Prop := {
  rep_cells : sound h (cells None (F true) ++ cells None (F false));
  rep_wft : forall v, wft (F v);
  rep_root : forall v, rootof (F v) = Some (root_id r v, base v, base_bits v);
  rep_busy : Forall (busy x) (cells None (F true) ++ cells None (F false))
}.
(** One tree is replaced. *)
Definition put (v : bool) (t : tree) (F : bool -> tree) : bool -> tree := fun u => if bool_decide (u = v) then t else F u.
Lemma either_family (u v : bool) : u = v \/ u = negb v.
Proof. destruct u, v; by (left + right). Qed.
Lemma put_eq (v : bool) (t : tree) (F : bool -> tree) : put v t F v = t.
Proof. unfold put. by rewrite bool_decide_true. Qed.
Lemma put_other (v : bool) (t : tree) (F : bool -> tree) : put v t F (negb v) = F (negb v).
Proof. unfold put. by rewrite bool_decide_false by (by destruct v). Qed.
Lemma both_cells (F : bool -> tree) (v : bool) : cells None (F true) ++ cells None (F false) ≡ₚ cells None (F v) ++ cells None (F (negb v)).
Proof. destruct v; cbn [negb]; [done|]. apply Permutation_app_comm. Qed.
Lemma rep_put (x x' : option cid) (h h' : cheap) (r : cidr_root_node) (F : bool -> tree) (v : bool) (t : tree) : rep x h r F -> sound h' (cells None t ++ cells None (F (negb v))) -> wft t -> rootof t = rootof (F v) -> Forall (busy x') (cells None t ++ cells None (F (negb v))) -> rep x' h' r (put v t F).
Proof.
  intros R S W E B. split.
  - rewrite (both_cells _ v). by rewrite put_eq, put_other.
  - intros u. destruct (either_family u v) as [->| ->]; rewrite ?put_eq, ?put_other; [done|apply R].
  - intros u. destruct (either_family u v) as [->| ->]; rewrite ?put_eq, ?put_other; [rewrite E|]; apply R.
  - rewrite (both_cells _ v). by rewrite put_eq, put_other.
Qed.
Lemma rep_tree (x : option cid) (h : cheap) (r : cidr_root_node) (F : bool -> tree) (v : bool) : rep x h r F -> exists d l rr, F v = T (root_id r v) (base v) (base_bits v) d l rr.
Proof. intros R. pose proof (rep_root _ _ _ _ R v) as E. destruct (F v) as [|id a b d l rr]; [done|]. cbn [rootof] in E. injection E as -> -> ->. by repeat eexists. Qed.
Lemma family_root (r : cidr_root_node) (a : irc_in_addr) : family r a = root_id r (irc_in_addr_is_ipv4 a).
Proof. done. Qed.

Section Ops.
Context (h : cheap) (r : cidr_root_node) (F : bool -> tree) (a : irc_in_addr) (b : Z) (Ok_ab : keepable a b).
Let v := irc_in_addr_is_ipv4 a.
Let Wa : addr_wf a := proj1 Ok_ab.
Let Hb : 0 <= b <= 128 := proj1 (proj2 Ok_ab).

Lemma add_node_spec (d : option positive) : rep None h r F -> exists h' n m, cidr_add_node a b d h r = Ok (h', tid a b n (F v)) /\ rep (Some (tid a b n (F v))) h' r (put v (tins a b d n m (F v)) F).
Proof.
  intros R. destruct (rep_tree _ _ _ _ v R) as (d0 & l & rr & Ef). pose proof (keepable_base a b Ok_ab) as Kb. cbv zeta in Kb. fold v in Kb. pose proof (rep_cells _ _ _ _ R) as S. rewrite (both_cells _ v) in S. pose proof (rep_wft _ _ _ _ R v) as W. pose proof (rep_busy _ _ _ _ R) as B. rewrite (both_cells _ v) in B. assert (0 <= base_bits v) as H0 by (by destruct v).
  destruct (cidr_add_loop_spec a b d Wa Hb (F v) _ _ _ _ _ _ [] (cells None (F (negb v))) h 130 0 Ef S W) as (h' & n & m & E & S'); [lia|done|intros ? ?; lia|done|lia|]. unfold cidr_add_node. rewrite family_root. fold v. cbn [hole] in E. rewrite E. exists h', n, m. split; [done|]. cbn [kcells up app] in S'. apply (rep_put None (Some (tid a b n (F v))) h h' r F v); [done|exact S'|by apply tins_wft| |].
  - rewrite Ef. cbn [tins rootof]. rewrite Kb, Z.eqb_refl. by destruct (base_bits v =? b), (bit a (base_bits v)).
  - apply Forall_app in B as [B1 B2]. apply Forall_app. split; [|by apply busy_cells_less]. rewrite Ef in B1 |- *. cbn [cells] in B1. inversion_clear B1 as [|? ? _ B3]. apply Forall_app in B3 as [Bl Br]. cbn [tins tid]. rewrite Kb, Z.eqb_refl. destruct (base_bits v =? b), (bit a (base_bits v)); cbn [cells]; (constructor; [by intros ? ?|]); apply Forall_app; split; first [by apply busy_cells_less|by apply tins_busy].
Qed.

Lemma find_node_spec (x : option cid) (mode : Z) : rep x h r F -> _cidr_find_node a b h r mode = Ok (answer a b mode (F v) []).
Proof.
  intros R. destruct (rep_tree _ _ _ _ v R) as (d0 & l & rr & Ef). pose proof (keepable_base a b Ok_ab) as Kb. cbv zeta in Kb. fold v in Kb. pose proof (rep_cells _ _ _ _ R) as S. rewrite (both_cells _ v) in S. unfold _cidr_find_node. rewrite family_root. fold v. assert (0 <= base_bits v) as H0 by (by destruct v).
  pose proof S as S0. rewrite Ef in S0. cbn [cells app] in S0. rewrite (load_sound _ _ _ _ S0). cbn [obind bits]. destruct (far_spec a b (base v) (base_bits v) Wa (base_wf v) Hb ltac:(by destruct v)) as (F1 & F2 & F3 & F4). rewrite Kb in *. apply (cidr_find_loop_spec a b Wa Hb mode (F v) _ _ _ _ _ _ [] (cells None (F (negb v))) h 130 (base_bits v) Ef S); [apply R|lia|lia|done|cbn; lia|lia].
Qed.
End Ops.

(** ** Data *)
Lemma sound_elem (h : cheap) (L : list (cid * cidr_node)) (id : cid) (x : cidr_node) : sound h L -> (id, x) ∈ L -> h !! id = Some x.
Proof. intros S (L1 & L2 & ->)%list_elem_of_split. apply (sound_lookup h id x (L1 ++ L2)). eapply sound_swap; [exact S|]. solve_Permutation. Qed.
Lemma items_cells (t : tree) : forall p k m d, (k, (m, d)) ∈ items t -> exists x, (m, x) ∈ cells p t /\ data x = d.
Proof.
  induction t as [|id a b d0 l IHl r IHr]; intros p k m d; cbn [items cells]; [by intros ?%elem_of_nil|]. intros [[= -> -> ->]|[H|H]%elem_of_app]%elem_of_cons; [eexists; split; [by left|done]| |].
  - destruct (IHl (Some id) k m d H) as (x & Hx & E). exists x. split; [right; apply elem_of_app; by left|done].
  - destruct (IHr (Some id) k m d H) as (x & Hx & E). exists x. split; [right; apply elem_of_app; by right|done].
Qed.
Lemma cidr_rep_node (x : option cid) (h : cheap) (r : cidr_root_node) (F : bool -> tree) (u : bool) (k : bstr) (m : cid) (d : option positive) : rep x h r F -> (k, (m, d)) ∈ items (F u) -> exists y, h !! m = Some y /\ data y = d.
Proof.
  intros R H. destruct (items_cells _ None _ _ _ H) as (y & Hy & E). exists y. split; [|done]. eapply sound_elem; [apply R|]. rewrite (both_cells _ u), elem_of_app. by left.
Qed.
Lemma rep_done (h : cheap) (r : cidr_root_node) (F : bool -> tree) (u : bool) (k : bstr) (m : cid) (d : positive) : rep (Some m) h r F -> (k, (m, Some d)) ∈ items (F u) -> rep None h r F.
Proof.
  intros R H. destruct (cidr_rep_node _ _ _ _ _ _ _ _ R H) as (y & Hm & Ey). split; [apply R..|]. pose proof (rep_busy _ _ _ _ R) as B. rewrite Forall_forall in B |- *. intros [id z] He H1 H2 _. apply (B _ He H1 H2). intros [= ->]. cbn [snd] in *. apply (sound_elem _ _ _ _ (rep_cells _ _ _ _ R)) in He. rewrite He in Hm. injection Hm as ->. by rewrite Ey in H1.
Qed.

(** A node is given other data. *)
Lemma set_data_spec (x : option cid) (h : cheap) (r : cidr_root_node) (F : bool -> tree) (u : bool) (K : list frame) (m : cid) (a : irc_in_addr) (b : Z) (d d' : option positive) (l rr : tree) : x = None \/ x = Some m -> rep x h r F -> F u = plug K (T m a b d l rr) ->
  exists h', update h m (set_data d') = Ok h' /\ rep (Some m) h' r (put u (plug K (T m a b d' l rr)) F).
Proof.
  intros Hx R Ef. pose proof (rep_cells _ _ _ _ R) as S. pose proof (rep_busy _ _ _ _ R) as B. rewrite (both_cells _ u), Ef, cells_plug_app in S, B. set (Rest := kcells K (Some m) ++ cells (Some m) l ++ cells (Some m) rr ++ cells None (F (negb u))).
  assert (forall e, kcells K (rid (T m a b e l rr)) ++ cells (up K) (T m a b e l rr) ++ cells None (F (negb u)) ≡ₚ (m, MkNode a b (up K) (rid l) (rid rr) e) :: Rest) as P by (intros e; cbn [cells rid]; unfold Rest; solve_Permutation). rewrite P in S, B.
  destruct (update_sound _ _ _ (set_data d') _ S) as (h' & E & S'). exists h'. split; [done|]. apply (rep_put x (Some m) h h' r F u); [done|..].
  - rewrite cells_plug_app, P. exact S'.
  - apply (wft_swap K (T m a b d l rr)); [rewrite <- Ef; apply R| |by intros ? ? ?]. pose proof (rep_wft _ _ _ _ R u) as W. rewrite Ef in W. apply wft_sub in W. exact W.
  - rewrite Ef. apply rootof_plug. by right.
  - rewrite cells_plug_app, P. inversion_clear B as [|? ? _ B']. constructor; [by intros ? ? ?|]. destruct Hx as [->| ->]; [by apply busy_cells_less|done].
Qed.
(** A node without data goes. *)
Lemma rem_empty_spec (h : cheap) (r : cidr_root_node) (F : bool -> tree) (u : bool) (K : list frame) (m : cid) (a : irc_in_addr) (b : Z) (l rr : tree) : rep (Some m) h r F -> F u = plug K (T m a b None l rr) ->
  exists h' z, _cidr_collapse_node h m = Ok (h', z) /\ rep None h' r (put u (tdrop K m a b l rr) F).
Proof.
  intros R Ef. pose proof (rep_cells _ _ _ _ R) as S. pose proof (rep_busy _ _ _ _ R) as B. rewrite (both_cells _ u), Ef in S, B. destruct (collapse_spec K m a b l rr _ h S B) as (h' & z & E & S' & B'). exists h', z. split; [done|].
  apply (rep_put (Some m) None h h' r F u); [done..| |by rewrite tdrop_root, Ef|done]. apply tdrop_wft. rewrite <- Ef. apply R.
Qed.

(** ** The trees as a map from bit strings *)
Abbreviation cmap := (gmap (bool * bstr) positive).
Definition contents (F : bool -> tree) (M : cmap) : Prop := forall u k d, M !! (u, k) = Some d <-> exists m, (k, (m, Some d)) ∈ items (F u).

Lemma contents_put (F : bool -> tree) (M M' : cmap) (v : bool) (t : tree) : contents F M -> (forall k, M' !! (negb v, k) = M !! (negb v, k)) -> (forall k d, M' !! (v, k) = Some d <-> exists m, (k, (m, Some d)) ∈ items t) -> contents (put v t F) M'.
Proof. intros C O N u k d. destruct (either_family u v) as [->| ->]; rewrite ?put_eq, ?put_other; [apply N|]. rewrite O. apply C. Qed.
Lemma inserted_contents (k : bstr) (m : cid) (d : positive) (L L' : list (bstr * (cid * option positive))) : inserted k m (Some d) L L' -> NoDup (map fst L') -> forall k' d', (exists m', (k', (m', Some d')) ∈ L') <-> (k' = k /\ d' = d) \/ (k' <> k /\ exists m', (k', (m', Some d')) ∈ L).
Proof.
  intros I N k' d'. assert (exists R, L' ≡ₚ (k, (m, Some d)) :: R /\ (forall m', k' <> k -> (k', (m', Some d')) ∈ R <-> (k', (m', Some d')) ∈ L)) as (R & P & E).
  { destruct I as [(d0 & R & P & P')|(V & P & Fv)]; [exists R|exists (V ++ L)]; (split; [done|]); intros m' Nk.
    - rewrite P, elem_of_cons. split; [by right|]. intros [[= -> _ _]|]; done.
    - rewrite elem_of_app. split; [|by right]. intros [H|H]; [|done]. rewrite Forall_forall in Fv. by apply Fv in H. }
  rewrite P in N. cbn [map fst] in N. apply NoDup_cons in N as [N _]. split.
  - intros (m' & H). rewrite P, elem_of_cons in H. destruct H as [[= -> -> ->]|H]; [by left|]. assert (k' <> k) as Nk by (intros ->; apply N; apply list_elem_of_fmap; by exists (k, (m', Some d'))). right. split; [done|]. exists m'. by apply E.
  - intros [[-> ->]|(Nk & m' & H)]; [exists m|exists m']; rewrite P, elem_of_cons; [by left|right]. by apply E.
Qed.
Lemma data_only (V L L' : list (bstr * (cid * option positive))) (e : bstr) (m d : positive) : L ≡ₚ V ++ L' -> Forall (fun e => e.2.2 = None) V -> (e, (m, Some d)) ∈ L <-> (e, (m, Some d)) ∈ L'.
Proof. intros -> Fv. rewrite elem_of_app. split; [|by right]. intros [H|H]; [|done]. rewrite Forall_forall in Fv. by apply Fv in H. Qed.

(** The data of the longest stored prefix of a bit string. *)
Fixpoint lpm_loop (M : cmap) (u : bool) (k : bstr) (n : nat) : option positive :=
  match M !! (u, take n k) with
  | Some d => Some d
  | None => match n with O => None | S n => lpm_loop M u k n end
  end.
Definition lpm (M : cmap) (u : bool) (k : bstr) : option positive := lpm_loop M u k (length k).

Lemma lpm_none (M : cmap) (u : bool) (k : bstr) (n : nat) : (forall k', k' `prefix_of` k -> M !! (u, k') = None) -> lpm_loop M u k n = None.
Proof. intros H. induction n as [|n IH]; cbn [lpm_loop]; rewrite H; try done; apply prefix_take. Qed.
Lemma lpm_some (M : cmap) (u : bool) (k k0 : bstr) (d : positive) (n : nat) : (length k0 <= n <= length k)%nat -> k0 `prefix_of` k -> M !! (u, k0) = Some d -> (forall k', k' `prefix_of` k -> M !! (u, k') <> None -> (length k' <= length k0)%nat) -> lpm_loop M u k n = Some d.
Proof.
  intros Hn P E Mx. destruct P as [w ->]. induction n as [|n IH]; cbn [lpm_loop].
  - assert (k0 = []) as -> by (apply nil_length_inv; lia). cbn [take]. by rewrite take_0, E.
  - destruct (Nat.eq_dec (length k0) (S n)) as [En|N]; [by rewrite <- En, take_app_length, E|]. destruct (M !! (u, take (S n) (k0 ++ w))) as [d'|] eqn:Em; [|apply IH; lia]. exfalso. pose proof (Mx (take (S n) (k0 ++ w)) (prefix_take _ _) ltac:(by rewrite Em)) as L. rewrite length_take in L. lia.
Qed.

Section MapOps.
Context (h : cheap) (r : cidr_root_node) (F : bool -> tree) (M : cmap).
Context (R : rep None h r F) (C : contents F M).
Context (a : irc_in_addr) (b : Z) (Ok_ab : keepable a b).
Let v := irc_in_addr_is_ipv4 a.
Let k := key a b.

Lemma get_spec : cidr_get_data h r a b = Ok (M !! (v, k)).
Proof.
  unfold cidr_get_data. rewrite (find_node_spec h r F a b Ok_ab None 1 R). unfold answer. change (1 =? 0) with false. change (1 =? 2) with false. cbn [obind]. fold v. pose proof (fun m d => texact_spec a b (proj1 Ok_ab) (proj1 (proj2 Ok_ab)) (F v) m d (rep_wft _ _ _ _ R v)) as X. fold k in X.
  assert (forall d, (exists m, texact a b (F v) = Some (m, Some d)) <-> M !! (v, k) = Some d) as Y by (intros d; rewrite (C v k d); split; intros (m & H); exists m; by apply X).
  destruct (texact a b (F v)) as [[m [d|]]|] eqn:Et.
  - rewrite bool_decide_true by done. cbn [orb obind]. pose proof (proj1 (X m (Some d)) eq_refl) as Hi. destruct (cidr_rep_node _ _ _ _ _ _ _ _ R Hi) as (y & Hy & Ed). unfold load. rewrite Hy. cbn [obind]. rewrite Ed. f_equal. symmetry. apply C. by exists m.
  - rewrite bool_decide_false by (by intros []). cbn [orb]. destruct (M !! (v, k)) as [d|]; [|done]. by destruct (proj2 (Y d) eq_refl) as (m' & ?).
  - destruct (M !! (v, k)) as [d|]; [|done]. by destruct (proj2 (Y d) eq_refl) as (m' & ?).
Qed.

Lemma best_spec : (let* n := _cidr_find_node a b h r 0 in match n with Some n => let* x := load h n in Ok (data x) | None => Ok None end) = Ok (lpm M v k).
Proof.
  rewrite (find_node_spec h r F a b Ok_ab None 0 R). unfold answer. cbn [Z.eqb obind]. fold v. destruct (tpath_spec a b (proj1 Ok_ab) (proj1 (proj2 Ok_ab)) (F v) (rep_wft _ _ _ _ R v)) as [Cv So]. unfold covering in Cv. fold k in Cv. destruct (tpath a b (F v) []) as [|[k0 [m d]] Y]; cbn [first_id head fmap option_fmap option_map fst snd obind].
  - unfold lpm. rewrite lpm_none; [done|]. intros k' P. destruct (M !! (v, k')) as [d|] eqn:Em; [|done]. apply C in Em as (m & H). by destruct (proj1 (elem_of_nil _) (proj2 (Cv (k', (m, d))) (conj H P))).
  - destruct (proj1 (Cv (k0, (m, d))) ltac:(by left)) as [H P]. cbn [fst snd] in H, P. destruct (cidr_rep_node _ _ _ _ _ _ _ _ R H) as (y & Hy & Ed). unfold load. rewrite Hy. cbn [obind]. rewrite Ed. f_equal. symmetry. apply lpm_some with k0; [split; [by apply prefix_length|done]|done|apply C; by exists m|].
    intros k' P' Nn. destruct (M !! (v, k')) as [d'|] eqn:Em; [|done]. apply C in Em as (m' & H'). assert ((k', (m', d')) ∈ (k0, (m, d)) :: Y) as He by (by apply Cv). apply elem_of_cons in He as [[= -> _ _]|He]; [done|]. inversion_clear So as [|? ? _ Fs]. rewrite Forall_forall in Fs. destruct (Fs _ He) as [Q _]. by apply prefix_length in Q.
Qed.

Lemma cidr_add_spec (d : positive) : exists h' n F', cidr_add_node a b (Some d) h r = Ok (h', n) /\ rep None h' r F' /\ contents F' (<[(v, k) := d]> M).
Proof.
  destruct (add_node_spec h r F a b Ok_ab (Some d) R) as (h' & n & m & E & R'). fold v in E, R'. set (t := tins a b (Some d) n m (F v)) in *. exists h', (tid a b n (F v)), (put v t F). pose proof (tins_items a b (Some d) (proj1 Ok_ab) (proj1 (proj2 Ok_ab)) n m (F v) (rep_wft _ _ _ _ R v)) as I. fold t k in I. pose proof (rep_wft _ _ _ _ R' v) as W. rewrite put_eq in W. pose proof (inserted_contents _ _ _ _ _ I (wft_nodup _ W)) as Ic. split_and!; [done|..].
  - apply (rep_done _ _ _ v k (tid a b n (F v)) d); [done|]. rewrite put_eq. destruct I as [(d0 & Rr & _ & ->)|(V & -> & _)]; by left.
  - apply (contents_put F M); [done|intros k'; rewrite lookup_insert_ne; [done|]; intros [= E0]; by destruct v|]. intros k' d'. rewrite Ic. destruct (decide (k' = k)) as [->|N]; [rewrite lookup_insert_eq; split; [intros [= ->]; by left|intros [[_ ->]|[? _]]; done]|]. rewrite lookup_insert_ne by congruence. rewrite (C v k' d'). split; [intros H; by right|]. intros [[? _]|[_ H]]; done.
Qed.

Lemma rem_spec : exists h' F', cidr_rem_node_by_cidr h r a b = Ok (h', if bool_decide (M !! (v, k) = None) then 0 else 1) /\ rep None h' r F' /\ contents F' (delete (v, k) M).
Proof.
  unfold cidr_rem_node_by_cidr. rewrite (find_node_spec h r F a b Ok_ab None 1 R). unfold answer. change (1 =? 0) with false. change (1 =? 2) with false. cbn [obind]. fold v. pose proof (fun m d => texact_spec a b (proj1 Ok_ab) (proj1 (proj2 Ok_ab)) (F v) m d (rep_wft _ _ _ _ R v)) as X. fold k in X.
  assert (forall d, M !! (v, k) = Some d -> exists m, texact a b (F v) = Some (m, Some d)) as Y by (intros d (m & H)%C; exists m; by apply X).
  assert ((forall m d, texact a b (F v) <> Some (m, Some d)) -> M !! (v, k) = None) as Z by (intros N; destruct (M !! (v, k)) as [d|]; [destruct (Y d eq_refl) as (m & H); by apply N in H|done]).
  assert (M !! (v, k) = None -> contents F (delete (v, k) M)) as D by (intros E; by rewrite delete_id). destruct (texact a b (F v)) as [[m [d|]]|] eqn:Et.
  - rewrite bool_decide_true by done. cbn [orb]. pose proof (proj1 (X m (Some d)) eq_refl) as Hi. assert (M !! (v, k) = Some d) as Em by (apply C; by exists m). rewrite bool_decide_false by (by rewrite Em). destruct (items_place _ _ _ _ Hi) as (K & a' & b' & l & rr & Ef & Ek). unfold cidr_rem_node. destruct (cidr_rep_node _ _ _ _ _ _ _ _ R Hi) as (y & Hy & Ed). unfold load at 1. rewrite Hy. cbn [obind]. rewrite Ed.
    destruct (set_data_spec None h r F v K m a' b' (Some d) None l rr ltac:(by left) R Ef) as (h1 & -> & R1). cbn [obind]. destruct (rem_empty_spec h1 r _ v K m a' b' l rr R1 ltac:(by rewrite put_eq)) as (h2 & z & -> & R2). cbn [obind]. eexists _, _. split_and!; [done|exact R2|]. destruct (tdrop_items K m a' b' l rr) as (V & P & Fv).
    assert (contents (put v (plug K (T m a' b' None l rr)) F) (delete (v, k) M)) as C1.
    { apply (contents_put F M); [done|intros k'; rewrite lookup_delete_ne; [done|]; intros [= E0]; by destruct v|]. intros k' d'. pose proof (wft_nodup _ (rep_wft _ _ _ _ R v)) as N. rewrite Ef, items_plug in N. cbn [items map fst app] in N. apply NoDup_cons in N as [N _]. rewrite Ek in N.
      setoid_rewrite items_plug. cbn [items app]. setoid_rewrite elem_of_cons. destruct (decide (k' = k)) as [->|Nk]; [rewrite lookup_delete_eq; split; [done|]; intros (m' & [[=]|H]); exfalso; apply N; apply list_elem_of_fmap; by exists (k, (m', Some d'))|].
      rewrite lookup_delete_ne by congruence. rewrite (C v k' d'), Ef. setoid_rewrite items_plug. cbn [items app]. setoid_rewrite elem_of_cons. split; intros (m' & [E|H]); try (injection E as -> _ _; by rewrite Ek in Nk); exists m'; by right. }
    apply (contents_put _ _ _ _ _ C1); [done|]. intros k' d'. rewrite (C1 v k' d'), put_eq. split; intros (m' & H); exists m'; by apply (data_only V _ _ k' m' d' P Fv).
  - rewrite bool_decide_false by (by intros []). cbn [orb cidr_rem_node]. rewrite bool_decide_true by (apply Z; congruence). exists h, F. split_and!; [done..|]. apply D, Z. congruence.
  - cbn [cidr_rem_node]. rewrite bool_decide_true by (apply Z; congruence). exists h, F. split_and!; [done..|]. apply D, Z. congruence.
Qed.
End MapOps.

(** Freeing a subtree gives back its cells and no others. *)
Lemma free_subtree_spec (t : tree) : forall p fuel h L, sound h (cells p t ++ L) -> wft t -> match t with E => (0 < fuel)%nat | T _ _ b _ _ _ => 130 - b <= Z.of_nat fuel end -> exists h', _cidr_free_subtree fuel h (rid t) = Ok h' /\ sound h' L.
Proof.
  induction t as [|id a b d l IHl r IHr]; intros p fuel h L S W Fu; (destruct fuel as [|fuel]; [cbn [wft] in W; lia|]); cbn [_cidr_free_subtree rid]; [by exists h|]. cbn [wft] in W. destruct W as (_ & Hb & Ul & Ur & Wl & Wr). cbn [cells app] in S. rewrite (load_sound _ _ _ _ S). cbn [obind left right]. set (x := MkNode a b p (rid l) (rid r) d) in *.
  destruct (IHl (Some id) fuel h (cells (Some id) r ++ (id, x) :: L)) as (h1 & -> & S1); [eapply sound_swap; [exact S|solve_Permutation]|done|destruct l; [lia|destruct Ul; lia]|]. cbn [obind].
  assert (load h1 id = Ok x) as -> by (apply (load_sound _ _ _ (cells (Some id) r ++ L)); eapply sound_swap; [exact S1|solve_Permutation]). cbn [obind right x].
  destruct (IHr (Some id) fuel h1 ((id, x) :: L)) as (h2 & -> & S2); [done..|destruct r; [lia|destruct Ur; lia]|]. cbn [obind]. eexists. split; [done|]. by apply sound_delete in S2.
Qed.
Lemma free_tree_spec (x : option cid) (h : cheap) (r : cidr_root_node) (F : bool -> tree) : rep x h r F -> cidr_free_tree h r = Ok ∅.
Proof.
  intros R. unfold cidr_free_tree. pose proof (rep_cells _ _ _ _ R) as S. destruct (rep_tree _ _ _ _ true R) as (d4 & l4 & r4 & E4). destruct (rep_tree _ _ _ _ false R) as (d6 & l6 & r6 & E6). cbn [root_id base_bits] in E4, E6. pose proof (rep_wft _ _ _ _ R true) as W4. pose proof (rep_wft _ _ _ _ R false) as W6.
  destruct (free_subtree_spec (F true) None 131 h (cells None (F false)) S W4) as (h1 & H1 & S1); [rewrite E4; lia|]. rewrite E4 in H1. cbn [rid] in H1. rewrite H1. cbn [obind]. rewrite <- (app_nil_r (cells None (F false))) in S1. destruct (free_subtree_spec (F false) None 131 h1 [] S1 W6) as (h2 & H2 & S2); [rewrite E6; lia|]. rewrite E6 in H2. cbn [rid] in H2. rewrite H2. by destruct S2 as [-> _].
Qed.

Lemma new_tree_spec : exists h r F, cidr_new_tree ∅ = Ok (h, r) /\ rep None h r F /\ contents F ∅.
Proof.
  set (n4 := 1%positive). set (n6 := 2%positive). set (F := fun v : bool => if v then T n4 (base true) 96 None E E else T n6 (base false) 0 None E E). exists (<[n6 := MkNode (base false) 0 None None None None]> {[n4 := MkNode (base true) 96 None None None None]}), (MkRoot n4 n6), F. split_and!; [by vm_compute| |].
  - split.
    + split; [by vm_compute|]. apply (bool_decide_unpack _). by vm_compute.
    + intros []; cbn [F wft]; (split; [apply base_wf|]); done.
    + by intros [].
    + cbn [F cells app rid]. constructor; [by intros ? ?|constructor; [by intros ? ?|constructor]].
  - intros u k d. split; [by rewrite lookup_empty|]. intros (m & H). destruct u; cbn in H; apply list_elem_of_singleton in H; done.
Qed.

(** ** Sequences of operations *)
Inductive cop : Type :=
| CAdd (a : irc_in_addr) (b : Z) (d : positive)
| CGet (a : irc_in_addr) (b : Z)
| CBest (a : irc_in_addr) (b : Z)
| CDel (a : irc_in_addr) (b : Z).
Definition cop_ok (o : cop) : Prop := match o with CAdd a b _ | CGet a b | CBest a b | CDel a b => keepable a b end.
#[global] Instance cop_ok_dec (o : cop) : Decision (cop_ok o).
Proof. destruct o; cbn [cop_ok]; apply _. Defined.
(** What an operation tells: the data found, or how many entries went. *)
Abbreviation cans := (option positive + Z)%type.

Definition do_cop (h : cheap) (r : cidr_root_node) (o : cop) : outcome (cheap * cans) :=
  match o with
  | CAdd a b d => let* (h, _) := cidr_add_node a b (Some d) h r in Ok (h, inl (Some d))
  | CGet a b => let* x := cidr_get_data h r a b in Ok (h, inl x)
  | CBest a b => let* x := (let* n := _cidr_find_node a b h r 0 in match n with Some n => let* x := load h n in Ok (data x) | None => Ok None end) in Ok (h, inl x)
  | CDel a b => let* (h, z) := cidr_rem_node_by_cidr h r a b in Ok (h, inr z)
  end.
Fixpoint do_cops (h : cheap) (r : cidr_root_node) (os : list cop) : outcome (cheap * list cans) :=
  match os with
  | [] => Ok (h, [])
  | o :: os => let* (h, x) := do_cop h r o in let* (h, xs) := do_cops h r os in Ok (h, x :: xs)
  end.

(** The same on a map from prefixes to data. *)
Definition map_cop (M : cmap) (o : cop) : cmap * cans :=
  match o with
  | CAdd a b d => (<[(irc_in_addr_is_ipv4 a, key a b) := d]> M, inl (Some d))
  | CGet a b => (M, inl (M !! (irc_in_addr_is_ipv4 a, key a b)))
  | CBest a b => (M, inl (lpm M (irc_in_addr_is_ipv4 a) (key a b)))
  | CDel a b => let i := (irc_in_addr_is_ipv4 a, key a b) in (delete i M, inr (if bool_decide (M !! i = None) then 0 else 1))
  end.
Fixpoint map_cops (M : cmap) (os : list cop) : list cans := match os with [] => [] | o :: os => let (M, x) := map_cop M o in x :: map_cops M os end.

Lemma cop_refines (h : cheap) (r : cidr_root_node) (F : bool -> tree) (M : cmap) (o : cop) : rep None h r F -> contents F M -> cop_ok o -> exists h' F', do_cop h r o = Ok (h', snd (map_cop M o)) /\ rep None h' r F' /\ contents F' (fst (map_cop M o)).
Proof.
  intros R C K. destruct o as [a b d|a b|a b|a b]; cbn [do_cop map_cop fst snd].
  - destruct (cidr_add_spec h r F M R C a b K d) as (h' & n & F' & -> & R' & C'). by exists h', F'.
  - rewrite (get_spec h r F M R C a b K). by exists h, F.
  - rewrite (best_spec h r F M R C a b K). by exists h, F.
  - destruct (rem_spec h r F M R C a b K) as (h' & F' & -> & R' & C'). by exists h', F'.
Qed.
Lemma cops_refine (os : list cop) : forall h r F M, rep None h r F -> contents F M -> Forall cop_ok os -> exists h' F', do_cops h r os = Ok (h', map_cops M os) /\ rep None h' r F'.
Proof.
  induction os as [|o os IH]; intros h r F M R C K; cbn [do_cops map_cops]; [by exists h, F|]. inversion_clear K as [|? ? Ko Ks]. destruct (cop_refines h r F M o R C Ko) as (h1 & F1 & -> & R1 & C1). cbn [obind]. destruct (map_cop M o) as [M' x]. cbn [fst snd] in *. destruct (IH h1 r F1 M' R1 C1 Ks) as (h2 & F2 & -> & R2). by exists h2, F2.
Qed.

(** C5: the address trees are a map from prefixes.  From a new tree, any sequence of
    insertions, exact lookups, lookups of the best match and removals with masks the trees
    can keep runs without touching a NULL pointer or a freed node, and answers what a
    finite map from (family, leading bits) would: in particular [cidr_search_best] gives the
    data of the longest stored prefix.  Freeing the trees then leaves no node behind. *)
Theorem cidr_trees_are_a_map (os : list cop) : Forall cop_ok os ->
  exists h r h', cidr_new_tree ∅ = Ok (h, r) /\ do_cops h r os = Ok (h', map_cops ∅ os) /\ cidr_free_tree h' r = Ok ∅.
Proof.
  intros K. destruct new_tree_spec as (h & r & F & E & R & C). destruct (cops_refine os h r F ∅ R C K) as (h' & F' & E' & R'). exists h, r, h'. split_and!; [done..|]. by apply free_tree_spec in R'.
Qed.
Definition v4_addr (p q : Z) : irc_in_addr := InAddr [0; 0; 0; 0; 0; 65535; p; q].
Lemma cidr_trees_are_a_map_witness : exists h r h', cidr_new_tree ∅ = Ok (h, r) /\ do_cops h r [CAdd (v4_addr 0x0a00 0) 104 1; CAdd (v4_addr 0x0a01 0) 112 2; CBest (v4_addr 0x0a01 7) 128; CDel (v4_addr 0x0a01 0) 112; CBest (v4_addr 0x0a01 7) 128; CGet (addr_2001 1) 64] = Ok (h', [inl (Some 1%positive); inl (Some 2%positive); inl (Some 2%positive); inr 1; inl (Some 1%positive); inl None]) /\ cidr_free_tree h' r = Ok ∅.
Proof.
  apply (cidr_trees_are_a_map [CAdd (v4_addr 0x0a00 0) 104 1; CAdd (v4_addr 0x0a01 0) 112 2; CBest (v4_addr 0x0a01 7) 128; CDel (v4_addr 0x0a01 0) 112; CBest (v4_addr 0x0a01 7) 128; CGet (addr_2001 1) 64]). apply (bool_decide_unpack _). by vm_compute.
Defined.

(** ** Visiting every node *)
Fixpoint pre (t : tree) : list (cid * option positive) := match t with E => [] | T id _ _ d l r => (id, d) :: pre l ++ pre r end.
Fixpoint shown (show : bool) (L : list (cid * option positive)) : list cid := match L with [] => [] | (id, d) :: L => if bool_decide (d <> None) || show then id :: shown show L else shown show L end.
Lemma shown_app (show : bool) (L L' : list (cid * option positive)) : shown show (L ++ L') = shown show L ++ shown show L'.
Proof. induction L as [|[id d] L IH]; cbn [shown app]; [done|]. rewrite IH. by destruct (_ || _). Qed.
Definition there (h : cheap) (t : tree) : Prop := exists p, Forall (fun c => h !! c.1 = Some c.2) (cells p t).
(** The trees that wait on the stack: each has room under it. *)
Fixpoint waiting (h : cheap) (ts : list tree) : Prop :=
  match ts with
  | [] => True
  | t :: ts => (exists id a b d l r, t = T id a b d l r /\ Z.of_nat (length ts) <= b) /\ wft t /\ there h t /\ waiting h ts
  end.
Abbreviation forest_pre ts := (concat (map pre ts)).

Lemma iter_step (h : cheap) (id : cid) (a : irc_in_addr) (b : Z) (d : option positive) (l r : tree) (ts : list tree) : waiting h (T id a b d l r :: ts) ->
  (exists p, h !! id = Some (MkNode a b p (rid l) (rid r) d)) /\ (l <> E -> r <> E -> (length ts < 129)%nat) /\ waiting h ((match l with E => [] | _ => [l] end) ++ (match r with E => [] | _ => [r] end) ++ ts).
Proof.
  intros ((? & ? & ? & ? & ? & ? & [= <- <- <- <- <- <-] & Lb) & W & (p & Th) & Wt). cbn [wft] in W. destruct W as (_ & Hb & Ul & Ur & Wl & Wr). cbn [cells] in Th. inversion_clear Th as [|? ? H0 Th']. apply Forall_app in Th' as [Tl Tr]. split; [by exists p|]. split.
  - intros Nl _. destruct l as [|? ? b' ? ? ?]; [done|]. destruct Ul as [L _]. cbn [wft] in Wl. lia.
  - destruct r as [|ri ra rb rd rl rr]; destruct l as [|li la lb ld ll lr]; cbn [app waiting]; [done| | |].
    + split_and!; [repeat eexists; destruct Ul; lia|done|by exists (Some id)|done].
    + split_and!; [repeat eexists; destruct Ur; lia|done|by exists (Some id)|done].
    + split_and!; [repeat eexists; cbn [length]; destruct Ul; lia|done|by exists (Some id)|repeat eexists; destruct Ur; lia|done|by exists (Some id)|done].
Qed.

Lemma iter_loop_spec (h : cheap) (r : cidr_root_node) (show v4_done : bool) (n : nat) : forall fuel t ts, waiting h (t :: ts) -> n = length (forest_pre (t :: ts)) ->
  iter_loop (n + S fuel) h r show (rid t) (omap rid ts) v4_done = let* rest := (if v4_done then Ok [] else iter_loop (S fuel) h r show (Some (ipv6 r)) [] true) in Ok (shown show (forest_pre (t :: ts)) ++ rest).
Proof.
  induction n as [|n IH]; intros fuel t ts Wt En; [destruct Wt as ((id & a & b & d & l & rr & -> & _) & _); done|]. pose proof Wt as ((id & a & b & d & l & rr & -> & _) & _). destruct (iter_step _ _ _ _ _ _ _ _ Wt) as ((p & Hl) & Room & Wn). cbn [map concat pre length app] in En. injection En as En.
  set (Rest := iter_loop (S fuel) h r show (Some (ipv6 r)) [] true) in *. change (S n + S fuel)%nat with (S (n + S fuel)). cbn [iter_loop rid]. unfold load. rewrite Hl. cbn [obind left right data].
  assert (forall R, (let* rest := (let* rest := R in Ok (shown show (pre l ++ pre rr ++ concat (map pre ts)) ++ rest)) in Ok (if bool_decide (d <> None) || show then id :: rest else rest)) = let* rest := R in Ok (shown show (forest_pre (T id a b d l rr :: ts)) ++ rest)) as Fin.
  { intros [R| |]; cbn [obind]; try done. cbn [map concat pre app shown]. rewrite <- app_assoc. by destruct (_ || _). }
  rewrite length_app, length_app in En. rewrite <- Fin. clear Fin. destruct l as [|li la lb ld ll lr]; destruct rr as [|ri ra rb rd rl rr']; cbn [rid app pre] in *.
  - destruct ts as [|t1 ts]; cbn [omap list_omap].
    + cbn in En. subst n. cbn [obind app shown concat map]. destruct v4_done; [done|]. cbn [obind]. change (iter_loop (0 + S fuel) h r show (Some (ipv6 r)) [] true) with Rest. by destruct Rest.
    + destruct (rid t1) as [i1|] eqn:E1; [|destruct Wn as ((? & ? & ? & ? & ? & ? & -> & _) & _); done]. cbn [obind]. rewrite <- E1. rewrite (IH fuel t1 ts Wn); [done|]. cbn in En. rewrite En. done.
  - cbn [obind]. pose proof (IH fuel (T ri ra rb rd rl rr') ts Wn) as IHr. cbn [rid] in IHr. rewrite IHr; [done|]. rewrite En. cbn [map concat]. by rewrite length_app.
  - cbn [obind]. pose proof (IH fuel (T li la lb ld ll lr) ts Wn) as IHl. cbn [rid] in IHl. rewrite IHl; [done|]. rewrite En. cbn [map concat pre app length]. rewrite !length_app. cbn [length]. lia.
  - rewrite (proj2 (Nat.ltb_lt _ _)). 2: { assert (forall ts, waiting h ts -> length (omap rid ts) = length ts) as Lo; [|rewrite Lo; [by apply Room|apply Wt]]. clear. induction ts as [|t ts IH]; [done|]. intros ((? & ? & ? & ? & ? & ? & -> & _) & _ & _ & W). cbn [omap list_omap rid length]. by rewrite IH. }
    cbn [obind]. pose proof (IH fuel (T li la lb ld ll lr) (T ri ra rb rd rl rr' :: ts) Wn) as IHl. cbn [rid omap list_omap] in IHl. rewrite IHl; [done|]. rewrite En. cbn [map concat pre app length]. rewrite !length_app. cbn [length]. rewrite !length_app. lia.
Qed.

Lemma pre_cells (t : tree) : forall p, length (pre t) = length (cells p t).
Proof. induction t as [|id a b d l IHl r IHr]; intros p; cbn [pre cells length]; [done|]. rewrite !length_app, (IHl (Some id)), (IHr (Some id)). done. Qed.
(** [CIDR_ITER] visits every node of both trees once, and its stack is deep enough. *)
Lemma iter_spec (x : option cid) (h : cheap) (r : cidr_root_node) (F : bool -> tree) (show : bool) : rep x h r F -> cidr_iter h r show = Ok (shown show (pre (F true) ++ pre (F false))).
Proof.
  intros R. pose proof (rep_cells _ _ _ _ R) as S. assert (forall v, waiting h [F v]) as Wv.
  { intros v. destruct (rep_tree _ _ _ _ v R) as (d & l & rr & E). split_and!; [rewrite E; repeat eexists; by destruct v|apply R| |done]. exists None. apply Forall_forall. intros [id y] H. eapply sound_elem; [exact S|]. rewrite (both_cells _ v), elem_of_app. by left. }
  assert (size h = length (pre (F true)) + length (pre (F false)))%nat as Sz. { destruct S as [-> N]. rewrite (pre_cells _ None), (pre_cells _ None), <- length_app. rewrite <- length_map_to_list. rewrite map_to_list_to_map by done. done. }
  unfold cidr_iter. rewrite Sz. destruct (rep_tree _ _ _ _ true R) as (d4 & l4 & r4 & E4). destruct (rep_tree _ _ _ _ false R) as (d6 & l6 & r6 & E6). cbn [root_id] in E4, E6. pose proof (iter_loop_spec h r show false (length (pre (F true))) (length (pre (F false))) (F true) [] (Wv true)) as I4. pose proof (iter_loop_spec h r show true (length (pre (F false))) 0 (F false) [] (Wv false)) as I6. cbn [map concat omap list_omap] in I4, I6. rewrite !app_nil_r in I4, I6.
  replace (rid (F true)) with (Some (ipv4 r)) in I4 by (by rewrite E4). replace (rid (F false)) with (Some (ipv6 r)) in I6 by (by rewrite E6). rewrite <- Nat.add_succ_r, I4 by done. rewrite <- Nat.add_1_r. rewrite I6 by done. cbn [obind]. by rewrite shown_app, app_nil_r.
Qed.

(** ** Prefixes and [ipmask_check] *)
Lemma addr_num_bit (l : list Z) : Forall (fun z => 0 <= z < 2 ^ 16) l -> forall i, 0 <= i < 16 * Z.of_nat (length l) -> Z.testbit (addr_num l) (16 * Z.of_nat (length l) - 1 - i) = Z.testbit (nth (Z.to_nat (i / 16)) l 0) (15 - i mod 16).
Proof.
  induction 1 as [|z l Hz F IH]; intros i Hi; [cbn in Hi; lia|]. rewrite addr_num_cons. pose proof (addr_num_bounds l F) as B. cbn [length] in *. set (n := 16 * Z.of_nat (length l)) in *. replace (16 * Z.of_nat (S (length l))) with (n + 16) in * by lia.
  assert (0 < 2 ^ n) as Pn by (apply Z.pow_pos_nonneg; lia). destruct (Z.lt_ge_cases i 16) as [L|G].
  - rewrite (Z.div_small i 16), (Z.mod_small i 16) by lia. cbn [Z.to_nat nth]. replace (n + 16 - 1 - i) with ((15 - i) + n) by lia. rewrite <- Z.div_pow2_bits by lia. rewrite Z.div_add_l, (Z.div_small (addr_num l)), Z.add_0_r by lia. done.
  - rewrite <- (Z.mod_pow2_bits_low _ n) by lia. rewrite Z.add_comm, Z.mod_add, (Z.mod_small (addr_num l)) by lia. replace (n + 16 - 1 - i) with (n - 1 - (i - 16)) by lia. rewrite IH by lia. replace (i / 16) with ((i - 16) / 16 + 1) by (Z.to_euclidean_division_equations; lia). rewrite Z2Nat.inj_add by (try lia; apply Z.div_pos; lia). replace (Z.to_nat ((i - 16) / 16) + Z.to_nat 1)%nat with (S (Z.to_nat ((i - 16) / 16))) by lia. cbn [nth].
    replace (i mod 16) with ((i - 16) mod 16) by (Z.to_euclidean_division_equations; lia). done.
Qed.
Lemma bit_num (a : irc_in_addr) (i : Z) : addr_wf a -> 0 <= i < 128 -> bit a i = Z.testbit (addr_num (in6_16 a)) (127 - i).
Proof. intros [La Fa] Hi. unfold bit, part. rewrite <- (addr_num_bit (in6_16 a) Fa) by (rewrite La; lia). rewrite La. f_equal. Qed.
(** [ipmask_check] compares the first bits. *)
Lemma ipmask_check_key (a m : irc_in_addr) (b : Z) : addr_wf a -> addr_wf m -> 0 <= b <= 128 -> ipmask_check a m b = if bool_decide (key a b = key m b) then 1 else 0.
Proof.
  intros Wa Wm Hb. rewrite ipmask_check_decides by done. assert (prefix a b = prefix m b <-> key a b = key m b) as Ek.
  { rewrite key_agree. unfold prefix. rewrite (proj1 Wa), (proj1 Wm). change (16 * Z.of_nat 8) with 128. split.
    - intros E i Hi. rewrite !bit_num by (done || lia). apply (f_equal (fun z => Z.testbit z (b - 1 - i))) in E. rewrite !Z.shiftr_spec in E by lia. by replace (b - 1 - i + (128 - b)) with (127 - i) in E by lia.
    - intros A. apply Z.bits_inj'. intros j Hj. rewrite !Z.shiftr_spec by lia. destruct (Z.lt_ge_cases j b) as [L|G].
      + pose proof (A (b - 1 - j) ltac:(lia)) as E. rewrite !bit_num in E by (done || lia). by replace (127 - (b - 1 - j)) with (j + (128 - b)) in E by lia.
      + assert (forall x, addr_wf x -> Z.testbit (addr_num (in6_16 x)) (j + (128 - b)) = false) as H0; [|by rewrite !H0]. intros x [Lx Fx]. pose proof (addr_num_bounds _ Fx) as Bx. rewrite Lx in Bx. change (16 * Z.of_nat 8) with 128 in Bx. apply (Z.bits_above_log2 _ _ (proj1 Bx)). destruct (Z.eq_dec (addr_num (in6_16 x)) 0) as [->|N]; [cbn; lia|]. apply Z.log2_lt_pow2; [lia|]. apply Z.lt_le_trans with (2 ^ 128); [lia|]. apply Z.pow_le_mono_r; lia. }
  case_bool_decide as D; [by rewrite (proj2 (Z.eqb_eq _ _) (proj2 Ek D))|]. rewrite (proj2 (Z.eqb_neq _ _)); [done|]. intros E. by apply D, Ek.
Qed.

(** ** Nodes by name *)
Lemma NoDup_image {A B : Type} (f : A -> B) (L : list A) (x y : A) : NoDup (map f L) -> x ∈ L -> y ∈ L -> f x = f y -> x = y.
Proof.
  induction L as [|z L IH]; intros N Hx Hy Ef; [by apply elem_of_nil in Hx|]. cbn [map] in N. apply NoDup_cons in N as [Nz N]. assert (forall w, w ∈ L -> f w <> f z) as Nw by (intros w Hw Ew; apply Nz; rewrite <- Ew; apply list_elem_of_fmap; by exists w).
  apply elem_of_cons in Hx. apply elem_of_cons in Hy. destruct Hx as [->|Hx], Hy as [->|Hy]; [done|by destruct (Nw y Hy)|by destruct (Nw x Hx)|by apply IH].
Qed.
Lemma items_ids (t : tree) : forall p, map (fun e => e.2.1) (items t) = map fst (cells p t).
Proof. induction t as [|id a b d l IHl r IHr]; intros p; cbn [items cells map]; [done|]. by rewrite !map_app, (IHl (Some id)), (IHr (Some id)). Qed.
Lemma cells_items (t : tree) : forall p m y, (m, y) ∈ cells p t -> exists k, (k, (m, data y)) ∈ items t.
Proof.
  induction t as [|id a b d l IHl r IHr]; intros p m y; cbn [cells items]; [by intros ?%elem_of_nil|]. intros [[= -> ->]|[H|H]%elem_of_app]%elem_of_cons; [eexists; by left| |].
  - destruct (IHl _ _ _ H) as (k & Hk). exists k. right. apply elem_of_app. by left.
  - destruct (IHr _ _ _ H) as (k & Hk). exists k. right. apply elem_of_app. by right.
Qed.
(** A node is in one family and has one prefix. *)
Lemma node_unique (x : option cid) (h : cheap) (r : cidr_root_node) (F : bool -> tree) (u u' : bool) (k k' : bstr) (n : cid) (d d' : option positive) : rep x h r F -> (k, (n, d)) ∈ items (F u) -> (k', (n, d')) ∈ items (F u') -> u = u' /\ k = k' /\ d = d'.
Proof.
  intros R H H'. destruct (rep_cells _ _ _ _ R) as [_ N]. set (L := map (pair true) (items (F true)) ++ map (pair false) (items (F false))). assert (NoDup (map (fun p => p.2.2.1) L)) as NL by (unfold L; rewrite map_app, !map_map; cbn [fst snd]; rewrite (items_ids _ None), (items_ids (F false) None), <- map_app; exact N).
  assert (forall w e, e ∈ items (F w) -> (w, e) ∈ L) as In by (intros w e He; unfold L; apply elem_of_app; destruct w; [left|right]; apply list_elem_of_fmap; by exists e). pose proof (NoDup_image _ _ _ _ NL (In _ _ H) (In _ _ H') eq_refl) as Eq. by injection Eq.
Qed.
(** The data in the heap are the data of the trees. *)
Lemma rep_data (x : option cid) (h : cheap) (r : cidr_root_node) (F : bool -> tree) (m : cid) (d : positive) : rep x h r F -> (h !! m ≫= data) = Some d <-> exists u k, (k, (m, Some d)) ∈ items (F u).
Proof.
  intros R. split.
  - destruct (h !! m) as [y|] eqn:Ey; [|done]. cbn. intros Ed. pose proof (rep_cells _ _ _ _ R) as [Eh N]. rewrite Eh in Ey. apply elem_of_list_to_map_2 in Ey. apply elem_of_app in Ey as [H|H]; apply cells_items in H as (k & Hk); rewrite Ed in Hk; eauto.
  - intros (u & k & H). destruct (cidr_rep_node _ _ _ _ _ _ _ _ R H) as (y & -> & Ed). done.
Qed.
