(* ===== verification/Gline.v ===== *)
(** * Network bans: [ircd/gline.c]

    G-lines are on one of several doubly linked lists: bans on channel names on
    [BadChanGlineList], bans on an address mask that can match one family only on the list
    that hangs on the mask's node of the address trees ([node->data]), all others on
    [GlobalGlineList].  The contents of a [struct Gline] and its two links are kept in two
    maps; a G-line that was freed is in neither, and touching it is [Oob].  What is sent to
    operators and logs is left out; what is sent to servers and whom [do_gline] disconnects
    is returned. *)

From stdpp Require Import base functions list gmap strings sorting.
From Stdlib Require Import ZArith Lia Ascii.
From S2P Require Import Prelude Chattr Match Addr AddrText Strings Chains Cidr.

Local Open Scope ircu_scope.
Local Open Scope Z_scope.

Abbreviation gid := positive.
Inductive glist : Type := GlobalGlineList | BadChanGlineList | NodeData (n : cid).
#[global] Instance glist_eq_dec : EqDecision glist.
Proof. solve_decision. Defined.
#[global] Instance glist_countable : Countable glist.
Proof.
  refine (inj_countable' (fun l => match l with GlobalGlineList => inl false | BadChanGlineList => inl true | NodeData n => inr n end) (fun x => match x with inl false => GlobalGlineList | inl true => BadChanGlineList | inr n => NodeData n end) _). by intros [].
Defined.

Inductive GlineLocalState : Type := GLOCAL_GLOBAL | GLOCAL_ACTIVATED | GLOCAL_DEACTIVATED.
Inductive GlineAction : Type := GLINE_ACTIVATE | GLINE_DEACTIVATE | GLINE_LOCAL_ACTIVATE | GLINE_LOCAL_DEACTIVATE | GLINE_MODIFY.
#[global] Instance GlineLocalState_eq_dec : EqDecision GlineLocalState.
Proof. solve_decision. Defined.
#[global] Instance GlineAction_eq_dec : EqDecision GlineAction.
Proof. solve_decision. Defined.

Definition GLINE_ACTIVE : Z := 0x0001.
Definition GLINE_IPMASK : Z := 0x0002.
Definition GLINE_BADCHAN : Z := 0x0004.
Definition GLINE_LOCAL : Z := 0x0008.
Definition GLINE_ANY : Z := 0x0010.
Definition GLINE_FORCE : Z := 0x0020.
Definition GLINE_EXACT : Z := 0x0040.
Definition GLINE_LDEACT : Z := 0x0080.
Definition GLINE_GLOBAL : Z := 0x0100.
Definition GLINE_LASTMOD : Z := 0x0200.
Definition GLINE_OPERFORCE : Z := 0x0400.
Definition GLINE_REALNAME : Z := 0x0800.
Definition GLINE_EXPIRE : Z := 0x1000.
Definition GLINE_LIFETIME : Z := 0x2000.
Definition GLINE_REASON : Z := 0x4000.
Definition GLINE_MASK : Z := Z.lor (Z.lor GLINE_ACTIVE GLINE_BADCHAN) (Z.lor GLINE_LOCAL GLINE_REALNAME).
Definition GLINE_ACTMASK : Z := Z.lor GLINE_ACTIVE GLINE_LDEACT.
Definition GLINE_UPDATE : Z := Z.lor (Z.lor GLINE_EXPIRE GLINE_LIFETIME) GLINE_REASON.
Definition GLINE_MAX_EXPIRE : Z := 604800.
Definition ONE_MONTH : Z := 30 * 24 * 3600.

Definition has (f m : Z) : bool := negb (Z.land f m =? 0).

(** [gl_ip] is [gl_addr] and [gl_bits], which are set when [GLINE_IPMASK] is. *)
Record Gline : Type := MkGline {
  gl_user : list ascii; gl_host : option (list ascii); gl_reason : list ascii;
  gl_expire : Z; gl_lastmod : Z; gl_lifetime : Z;
  gl_ip : option (irc_in_addr * Z); gl_flags : Z; gl_state : GlineLocalState
}.
Definition set_gflags (f : Z) (x : Gline) : Gline := MkGline (gl_user x) (gl_host x) (gl_reason x) (gl_expire x) (gl_lastmod x) (gl_lifetime x) (gl_ip x) f (gl_state x).
Definition set_gstate (s : GlineLocalState) (x : Gline) : Gline := MkGline (gl_user x) (gl_host x) (gl_reason x) (gl_expire x) (gl_lastmod x) (gl_lifetime x) (gl_ip x) (gl_flags x) s.
Definition set_lastmod (t : Z) (x : Gline) : Gline := MkGline (gl_user x) (gl_host x) (gl_reason x) (gl_expire x) t (gl_lifetime x) (gl_ip x) (gl_flags x) (gl_state x).
Definition set_expire (t : Z) (x : Gline) : Gline := MkGline (gl_user x) (gl_host x) (gl_reason x) t (gl_lastmod x) (gl_lifetime x) (gl_ip x) (gl_flags x) (gl_state x).
Definition set_lifetime (t : Z) (x : Gline) : Gline := MkGline (gl_user x) (gl_host x) (gl_reason x) (gl_expire x) (gl_lastmod x) t (gl_ip x) (gl_flags x) (gl_state x).
Definition set_reason (s : list ascii) (x : Gline) : Gline := MkGline (gl_user x) (gl_host x) s (gl_expire x) (gl_lastmod x) (gl_lifetime x) (gl_ip x) (gl_flags x) (gl_state x).

Definition GlineIsActive (x : Gline) : bool := (has (gl_flags x) GLINE_ACTIVE && negb (bool_decide (gl_state x = GLOCAL_DEACTIVATED))) || bool_decide (gl_state x = GLOCAL_ACTIVATED).
Definition GlineIsRemActive (x : Gline) : bool := has (gl_flags x) GLINE_ACTIVE.
Definition GlineIsIpMask (x : Gline) : bool := has (gl_flags x) GLINE_IPMASK.
Definition GlineIsRealName (x : Gline) : bool := has (gl_flags x) GLINE_REALNAME.
Definition GlineIsBadChan (x : Gline) : bool := has (gl_flags x) GLINE_BADCHAN.
Definition GlineIsLocal (x : Gline) : bool := has (gl_flags x) GLINE_LOCAL.

(** The G-lines, [gl_next] and [gl_prev_p] of each, the nodes of the trees, and the heads. *)
Record gstate : Type := MkG {
  glines : gmap gid Gline;
  glinks : gmap gid (option gid * option (ptr glist));
  cidr : cheap;
  GlobalIpMaskPTree : option cidr_root_node;
  global_head : option gid;
  badchan_head : option gid
}.
Definition set_glines (m : gmap gid Gline) (st : gstate) : gstate := MkG m (glinks st) (cidr st) (GlobalIpMaskPTree st) (global_head st) (badchan_head st).
Definition set_glinks (m : gmap gid (option gid * option (ptr glist))) (st : gstate) : gstate := MkG (glines st) m (cidr st) (GlobalIpMaskPTree st) (global_head st) (badchan_head st).
Definition set_cidr (h : cheap) (st : gstate) : gstate := MkG (glines st) (glinks st) h (GlobalIpMaskPTree st) (global_head st) (badchan_head st).

Definition get (st : gstate) (g : gid) : outcome Gline := match glines st !! g with Some x => Ok x | None => Oob end.
Definition modify (st : gstate) (g : gid) (f : Gline -> Gline) : outcome gstate := let* x := get st g in Ok (set_glines (<[g := f x]> (glines st)) st).
Definition get_glink (st : gstate) (g : gid) : outcome (option gid * option (ptr glist)) := match glinks st !! g with Some l => Ok l | None => Oob end.
Definition set_glink (st : gstate) (g : gid) (f : option gid * option (ptr glist) -> option gid * option (ptr glist)) : outcome gstate := let* l := get_glink st g in Ok (set_glinks (<[g := f l]> (glinks st)) st).
(** [*gl_list] and [*gl_prev_p = v] *)
Definition ghead (st : gstate) (l : glist) : outcome (option gid) :=
  match l with
  | GlobalGlineList => Ok (global_head st)
  | BadChanGlineList => Ok (badchan_head st)
  | NodeData n => let* x := load (cidr st) n in Ok (data x)
  end.
Definition gstore (st : gstate) (pp : ptr glist) (v : option gid) : outcome gstate :=
  match pp with
  | Head GlobalGlineList => Ok (MkG (glines st) (glinks st) (cidr st) (GlobalIpMaskPTree st) v (badchan_head st))
  | Head BadChanGlineList => Ok (MkG (glines st) (glinks st) (cidr st) (GlobalIpMaskPTree st) (global_head st) v)
  | Head (NodeData n) => let* h := update (cidr st) n (set_data v) in Ok (set_cidr h st)
  | Next g => set_glink st g (fun l => (v, snd l))
  end.

(** The user and the host of a mask; the host is [None] for NULL. *)
Fixpoint split_at (s : list ascii) : option (list ascii * list ascii) :=
  match s with
  | [] => None
  | c :: s => if c =c "@"%char then Some ([], s) else match split_at s with Some (u, h) => Some (c :: u, h) | None => None end
  end.
Definition canon_userhost (userhost def_user : list ascii) : list ascii * option (list ascii) :=
  if deref userhost =c "$"%char then (userhost, None)
  else match split_at userhost with None => (def_user, Some userhost) | Some (u, h) => (u, Some h) end.

Definition ipv4base : irc_in_addr := InAddr [0; 0; 0; 0; 0; 65535; 0; 0].
Definition ipmask_is_single_family (mask : irc_in_addr) (bits : Z) : bool := if irc_in_addr_is_ipv4 mask then true else ipmask_check ipv4base mask bits =? 0.

(** The last lines of [make_gline] *)
Definition link_gline (st : gstate) (l : glist) (g : gid) : outcome gstate :=
  let* n := ghead st l in
  let* st := set_glink st g (fun _ => (n, Some (Head l))) in
  let* st := match n with Some n => set_glink st n (fun m => (fst m, Some (Next g))) | None => Ok st end in
  gstore st (Head l) (Some g).

Definition make_gline (st : gstate) (user : list ascii) (host : option (list ascii)) (reason : list ascii) (expire lastmod lifetime flags : Z) : outcome (gstate * gid) :=
  let g := fresh (dom (glines st)) in
  let mk := fun host ip f => MkGline user host reason expire lastmod lifetime ip f GLOCAL_GLOBAL in
  let fl := Z.land flags GLINE_MASK in
  let alloc := fun st x => MkG (<[g := x]> (glines st)) (<[g := (None, None)]> (glinks st)) (cidr st) (GlobalIpMaskPTree st) (global_head st) (badchan_head st) in
  if has flags GLINE_BADCHAN then
    let* st := link_gline (alloc st (mk None None fl)) BadChanGlineList g in Ok (st, g)
  else
    let* x :=
      if negb (deref user =c "$"%char) then
        match host with
        | None => Oob
        | Some host =>
            let* (n, a, b) := ipmask_parse host true in
            if n =? 0 then Ok (mk (Some host) None fl)
            else match b with Some b => Ok (mk (Some host) (Some (a, b)) (Z.lor fl GLINE_IPMASK)) | None => Oob end
        end
      else Ok (mk None None fl) in
    let st := alloc st x in
    match gl_ip x with
    | Some (a, b) =>
        if ipmask_is_single_family a b then
          let* (st, r) := match GlobalIpMaskPTree st with
                          | Some r => Ok (st, r)
                          | None => let* (h, r) := cidr_new_tree (cidr st) in Ok (MkG (glines st) (glinks st) h (Some r) (global_head st) (badchan_head st), r)
                          end in
          let* node := _cidr_find_node a b (cidr st) r 1 in
          let* (st, n) := match node with Some n => Ok (st, n) | None => let* (h, n) := cidr_add_node a b None (cidr st) r in Ok (set_cidr h st, n) end in
          let* st := link_gline st (NodeData n) g in Ok (st, g)
        else let* st := link_gline st GlobalGlineList g in Ok (st, g)
    | None => let* st := link_gline st GlobalGlineList g in Ok (st, g)
    end.

(** [*gline->gl_prev_p = gline->gl_next; if (gline->gl_next) gline->gl_next->gl_prev_p = gline->gl_prev_p;] *)
Definition squeeze_out (st : gstate) (g : gid) : outcome gstate :=
  let* l := get_glink st g in
  let* st := match snd l with Some pp => gstore st pp (fst l) | None => Oob end in
  let* l := get_glink st g in
  match fst l with Some n => set_glink st n (fun m => (fst m, snd l)) | None => Ok st end.
(** The last step of [gline_free]: the node goes when its list is empty. *)
Definition prune (st : gstate) (x : Gline) : outcome gstate :=
  match GlobalIpMaskPTree st with
  | Some r =>
      if GlineIsIpMask x then
        match gl_ip x with
        | None => Oob
        | Some (a, b) =>
            if ipmask_is_single_family a b then
              let* node := _cidr_find_node a b (cidr st) r 2 in
              match node with
              | None => Ok st
              | Some n =>
                  let* y := load (cidr st) n in
                  match data y with
                  | Some _ => Ok st
                  | None => let* (h, _) := cidr_rem_empty_node (cidr st) (Some n) in Ok (set_cidr h st)
                  end
              end
            else Ok st
        end
      else Ok st
  | None => Ok st
  end.
(** Unlinks a G-line, and the node of its address when it was the last one on it. *)
Definition gline_free (st : gstate) (g : gid) : outcome gstate :=
  let* st := squeeze_out st g in
  let* x := get st g in
  let* st := prune st x in
  Ok (MkG (delete g (glines st)) (delete g (glinks st)) (cidr st) (GlobalIpMaskPTree st) (global_head st) (badchan_head st)).

(** ** Walks over the lists *)
Section Walks.
Context (now : Z).

(** A record that is to be freed, and one whose time is over. *)
Definition outdated (x : Gline) : bool := (gl_lifetime x <=? now) || ((gl_expire x <? now - ONE_MONTH) && (gl_lastmod x <? now - ONE_MONTH)).
Definition refresh (x : Gline) : Gline := if now <? gl_expire x then x else set_gstate GLOCAL_GLOBAL (set_gflags (Z.ldiff (gl_flags x) GLINE_ACTIVE) x).

(** [gliter] with a body that stops at the first G-line it wants; the G-lines whose body
    ran are returned as well. *)
Fixpoint gliter_loop (fuel : nat) (st : gstate) (gl : option gid) (wants : Gline -> outcome bool) : outcome (gstate * list gid * option gid) :=
  match fuel with
  | O => Fuel
  | S fuel =>
      match gl with
      | None => Ok (st, [], None)
      | Some g =>
          let* l := get_glink st g in
          let* x := get st g in
          if outdated x then let* st := gline_free st g in gliter_loop fuel st (fst l) wants
          else
            let* st := modify st g refresh in
            let* w := wants (refresh x) in
            if (w : bool) then Ok (st, [g], Some g)
            else let* (st, seen, res) := gliter_loop fuel st (fst l) wants in Ok (st, g :: seen, res)
      end
  end.
Definition gliter (st : gstate) (l : glist) (wants : Gline -> outcome bool) : outcome (gstate * list gid * option gid) :=
  let* gl := ghead st l in gliter_loop (S (size (glines st))) st gl wants.

(** [gliterIpMask] from a node upwards *)
Fixpoint node_loop (fuel : nat) (st : gstate) (node : option cid) (wants : Gline -> outcome bool) : outcome (gstate * list gid * option gid) :=
  match fuel with
  | O => Fuel
  | S fuel =>
      match node with
      | None => Ok (st, [], None)
      | Some n =>
          let* parent := cidr_get_closest_data_parent (cidr st) n in
          let* (st, seen, res) := gliter st (NodeData n) wants in
          match res with
          | Some g => Ok (st, seen, Some g)
          | None => let* (st, seen', res) := node_loop fuel st parent wants in Ok (st, seen ++ seen', res)
          end
      end
  end.
Definition gliterIpMask (st : gstate) (ip : irc_in_addr) (nbits : Z) (wants : Gline -> outcome bool) : outcome (gstate * list gid * option gid) :=
  let* node := match GlobalIpMaskPTree st with Some r => _cidr_find_node ip nbits (cidr st) r 0 | None => Ok None end in
  node_loop 131 st node wants.
Definition gliterExactIpMask (st : gstate) (ip : irc_in_addr) (nbits : Z) (wants : Gline -> outcome bool) : outcome (gstate * list gid * option gid) :=
  let* node := match GlobalIpMaskPTree st with Some r => _cidr_find_node ip nbits (cidr st) r 1 | None => Ok None end in
  match node with Some n => gliter st (NodeData n) wants | None => Ok (st, [], None) end.

(** ** Lookups *)
(** What [gline_lookup] and [do_gline] see of a client. *)
Record gclient : Type := MkGC { cli_username : list ascii; cli_realhost : list ascii; cli_sockhost : list ascii; cli_info : list ascii; cli_gip : irc_in_addr }.

Section Lookup.
Context (c : gclient) (flags : Z).

Definition skipped (x : Gline) : bool := (has flags GLINE_GLOBAL && has (gl_flags x) GLINE_LOCAL) || (has flags GLINE_LASTMOD && (gl_lastmod x =? 0)).
Definition wants_node (x : Gline) : outcome bool :=
  if skipped x then Ok false
  else
    let* r := match_ (gl_user x) (cli_username c) in
    if negb (r =? 0) then Ok false else Ok (GlineIsActive x).
Definition wants_global (x : Gline) : outcome bool :=
  if skipped x then Ok false
  else if GlineIsRealName x then
    let* r := match_ (drop 2 (gl_user x)) (cli_info c) in
    if negb (r =? 0) then Ok false else Ok (GlineIsActive x)
  else
    let* r := match_ (gl_user x) (cli_username c) in
    if negb (r =? 0) then Ok false
    else if GlineIsIpMask x then
      match gl_ip x with
      | None => Oob
      | Some (a, b) => if ipmask_check (cli_gip c) a b =? 0 then Ok false else Ok (GlineIsActive x)
      end
    else
      match gl_host x with
      | None => Oob
      | Some h => let* r := match_ h (cli_realhost c) in if negb (r =? 0) then Ok false else Ok (GlineIsActive x)
      end.
Definition gline_lookup (st : gstate) : outcome (gstate * option gid) :=
  let* (st, _, res) := gliterIpMask st (cli_gip c) 128 wants_node in
  match res with
  | Some g => Ok (st, Some g)
  | None => let* (st, _, res) := gliter st GlobalGlineList wants_global in Ok (st, res)
  end.
End Lookup.

Definition same_mask (user : list ascii) (host : option (list ascii)) (x : Gline) : bool :=
  (match gl_host x, host with Some h, Some h' => ircd_strcmp h h' =? 0 | None, None => true | _, _ => false end) && (ircd_strcmp (gl_user x) user =? 0).
Definition passed_over (flags : Z) (x : Gline) : bool := has flags (if GlineIsLocal x then GLINE_GLOBAL else GLINE_LOCAL) || (has flags GLINE_LASTMOD && (gl_lastmod x =? 0)).
Definition gline_find (st : gstate) (userhost : list ascii) (flags : Z) : outcome (gstate * option gid) :=
  let* (st, _, res) :=
    if has flags (Z.lor GLINE_BADCHAN GLINE_ANY) then gliter st BadChanGlineList (fun x => Ok (negb (passed_over flags x) && (ircd_strcmp (gl_user x) userhost =? 0)))
    else Ok (st, [], None) in
  match res with
  | Some g => Ok (st, Some g)
  | None =>
      if (Z.land flags (Z.lor GLINE_BADCHAN GLINE_ANY) =? GLINE_BADCHAN) || (deref userhost =c "#"%char) || (deref userhost =c "&"%char) then Ok (st, None)
      else
        let (user, host) := canon_userhost userhost (cstr "*") in
        let wants := fun x => Ok (negb (passed_over flags x) && same_mask user host x) in
        let* (st, _, res) :=
          match host with
          | Some h =>
              if negb (deref user =c "$"%char) then
                let* (n, a, b) := ipmask_parse h true in
                if n =? 0 then Ok (st, [], None)
                else match b with Some b => gliterExactIpMask st a b wants | None => Oob end
              else Ok (st, [], None)
          | None => Ok (st, [], None)
          end in
        match res with
        | Some g => Ok (st, Some g)
        | None => let* (st, _, res) := gliter st GlobalGlineList wants in Ok (st, res)
        end
  end.
End Walks.

(** ** Changes *)
(** What is sent: a G-line with its sign to servers, a modification, a complaint about an
    expiration time; and the clients [do_gline] disconnects. *)
Inductive geffect : Type :=
| GPropagate (x : Gline)
| GResend (x : Gline)
| GModify (force : bool) (op : list ascii) (x : Gline)
| GBadExpire (t : Z)
| GKill (fd : nat).

Section Changes.
Context (now : Z) (disabled : bool).
(** [LocalClientArray] from 0 to [HighestFd]: the clients with a user *)
Context (local : list (option gclient)).

Definition gline_hits (x : Gline) (c : gclient) : outcome bool :=
  if GlineIsRealName x then let* r := match_ (drop 2 (gl_user x)) (cli_info c) in Ok (r =? 0)
  else
    let* r := match_ (gl_user x) (cli_username c) in
    if negb (r =? 0) then Ok false
    else if GlineIsIpMask x then match gl_ip x with Some (a, b) => Ok (negb (ipmask_check (cli_gip c) a b =? 0)) | None => Oob end
    else match gl_host x with Some h => let* r := match_ h (cli_sockhost c) in Ok (r =? 0) | None => Oob end.
Fixpoint do_loop (x : Gline) (fd : nat) : outcome (list geffect) :=
  let* here := match nth_error local fd with Some (Some c) => gline_hits x c | _ => Ok false end in
  let* rest := match fd with O => Ok [] | S fd => do_loop x fd end in
  Ok (if (here : bool) then GKill fd :: rest else rest).
Definition do_gline (x : Gline) : outcome (list geffect) :=
  if disabled then Ok []
  else if GlineIsBadChan x then Ok []
  else if negb (GlineIsActive x) then Ok []
  else match local with [] => Ok [] | _ => do_loop x (length local - 1) end.
Definition gline_propagate (x : Gline) : list geffect := if GlineIsLocal x then [] else [GPropagate x].
Definition gline_resend (x : Gline) : list geffect := if GlineIsLocal x || (gl_lastmod x =? 0) then [] else [GResend x].

(** [if (gline->gl_lastmod) { if (gline->gl_lastmod >= lastmod) gline->gl_lastmod++; else gline->gl_lastmod = lastmod; }] *)
Definition bump_lastmod (lastmod : Z) (x : Gline) : Gline := if gl_lastmod x =? 0 then x else if lastmod <=? gl_lastmod x then set_lastmod (gl_lastmod x + 1) x else set_lastmod lastmod x.

Definition gline_activate (st : gstate) (g : gid) (lastmod flags : Z) : outcome (gstate * list geffect) :=
  let* x := get st g in
  let saveflags := gl_flags x in
  let y := if has flags GLINE_LOCAL then set_gflags (Z.ldiff (gl_flags x) GLINE_LDEACT) x else bump_lastmod lastmod (set_gflags (Z.lor (gl_flags x) GLINE_ACTIVE) x) in
  let* st := modify st g (fun _ => y) in
  if Z.land saveflags GLINE_ACTMASK =? GLINE_ACTIVE then Ok (st, [])
  else
    let sent := if has flags GLINE_LOCAL then [] else gline_propagate y in
    let* kills := do_gline y in Ok (st, sent ++ kills).

Definition gline_deactivate (st : gstate) (g : gid) (lastmod flags : Z) : outcome (gstate * list geffect) :=
  let* x := get st g in
  let saveflags := gl_flags x in
  let finish := fun st y =>
    let sent := if has flags GLINE_LOCAL then [] else gline_propagate y in
    let* st := if GlineIsLocal y || ((gl_lastmod y =? 0) && negb (has flags GLINE_LOCAL)) then gline_free st g else Ok st in
    Ok (st, sent) in
  if GlineIsLocal x then finish st x
  else if (gl_lastmod x =? 0) && negb (has flags GLINE_LOCAL) then
    let y := set_gflags (Z.ldiff (gl_flags x) GLINE_ACTIVE) x in
    let* st := modify st g (fun _ => y) in finish st y
  else
    let y := if has flags GLINE_LOCAL then set_gflags (Z.lor (gl_flags x) GLINE_LDEACT) x else bump_lastmod lastmod (set_gflags (Z.ldiff (gl_flags x) GLINE_ACTIVE) x) in
    let* st := modify st g (fun _ => y) in
    if negb (Z.land saveflags GLINE_ACTMASK =? GLINE_ACTIVE) then Ok (st, []) else finish st y.

(** The two ends of a modification: is the peer bursting, and may the source be told of a bad
    expiration time? *)
Section Modify.
Context (burst tell : bool).

(** The flags, the expiration time and the lifetime after the checks; [None] when the time is
    refused. *)
Definition modify_times (x : Gline) (expire lifetime flags : Z) : option (Z * Z * Z) :=
  let expires := has flags GLINE_EXPIRE && negb (expire =? 0) in
  if expires && negb (has flags GLINE_FORCE) && ((expire <=? now) || (now + GLINE_MAX_EXPIRE <? expire)) then None
  else
    let flags := if expires then flags else Z.ldiff flags GLINE_EXPIRE in
    let '(flags, expire) := if has flags GLINE_EXPIRE && (expire =? gl_expire x) then (Z.ldiff flags GLINE_EXPIRE, 0) else (flags, expire) in
    let lifetime := if negb (has flags GLINE_LIFETIME) || (lifetime =? 0) then gl_lifetime x else lifetime in
    let lifetime := Z.max lifetime expire in
    let '(flags, lifetime) := if gl_lifetime x <? lifetime then (Z.lor flags GLINE_LIFETIME, lifetime) else (Z.ldiff flags GLINE_LIFETIME, 0) in
    Some (flags, expire, lifetime).
Definition modify_action (x : Gline) (action : GlineAction) (expire : Z) : GlineAction :=
  if (bool_decide (action = GLINE_ACTIVATE) && has (gl_flags x) GLINE_ACTIVE) || (bool_decide (action = GLINE_DEACTIVATE) && negb (has (gl_flags x) GLINE_ACTIVE))
     || (bool_decide (action = GLINE_LOCAL_ACTIVATE) && bool_decide (gl_state x = GLOCAL_ACTIVATED)) || (bool_decide (action = GLINE_LOCAL_DEACTIVATE) && bool_decide (gl_state x = GLOCAL_DEACTIVATED))
     || (Z.max (gl_expire x) expire <=? now)
  then GLINE_MODIFY else action.
Definition act_on (action : GlineAction) (x : Gline) : Gline :=
  match action with
  | GLINE_ACTIVATE => set_gstate GLOCAL_GLOBAL (set_gflags (Z.lor (gl_flags x) GLINE_ACTIVE) x)
  | GLINE_DEACTIVATE => set_gstate GLOCAL_GLOBAL (set_gflags (Z.ldiff (gl_flags x) GLINE_ACTIVE) x)
  | GLINE_LOCAL_ACTIVATE => set_gstate GLOCAL_ACTIVATED x
  | GLINE_LOCAL_DEACTIVATE => set_gstate GLOCAL_DEACTIVATED x
  | GLINE_MODIFY => x
  end.
Definition action_op (action : GlineAction) : list ascii := match action with GLINE_ACTIVATE => cstr "+" | GLINE_DEACTIVATE => cstr "-" | _ => [] end.

Definition gline_modify (st : gstate) (g : gid) (action : GlineAction) (reason : option (list ascii)) (expire lastmod lifetime flags : Z) : outcome (gstate * list geffect) :=
  let* x := get st g in
  let is_local := fun a => bool_decide (a = GLINE_LOCAL_ACTIVATE) || bool_decide (a = GLINE_LOCAL_DEACTIVATE) in
  if negb (is_local action) && (lastmod <? gl_lastmod x) then Ok (st, if burst then [] else gline_resend x)
  else if negb (is_local action) && (gl_lastmod x =? lastmod) then Ok (st, [])
  else
    match modify_times x expire lifetime flags with
    | None => Ok (st, if tell then [GBadExpire expire] else [])
    | Some (flags, expire, lifetime) =>
        let flags := if has flags GLINE_REASON && match reason with Some s => ircd_strcmp (gl_reason x) s =? 0 | None => false end then Z.ldiff flags GLINE_REASON else flags in
        let action := modify_action x action expire in
        if negb (has flags GLINE_UPDATE) && bool_decide (action = GLINE_MODIFY) then Ok (st, [])
        else
          let x := if is_local action then x else set_lastmod lastmod x in
          let x := act_on action x in
          let x := if has flags GLINE_EXPIRE then set_expire expire x else x in
          let x := if has flags GLINE_LIFETIME then set_lifetime lifetime x else x in
          let x := match reason with Some s => if has flags GLINE_REASON then set_reason s x else x | None => x end in
          let* st := modify st g (fun _ => x) in
          let sent := if is_local action then [] else [GModify (has flags GLINE_OPERFORCE) (action_op action) x] in
          let* kills := do_gline x in Ok (st, sent ++ kills)
    end.
End Modify.

Definition gline_destroy (st : gstate) (g : gid) : outcome gstate := gline_free st g.
End Changes.
