(* ===== verification/GlineSpec.v ===== *)
(** * What the lists of G-lines promise

    The lists of [Gline] are read as lists of G-lines: linking and freeing are shown to be
    insertion and removal, with the trees of [Cidr] kept in step, and a lookup through the
    trees to find what a scan of all G-lines would find. *)

From stdpp Require Import base functions list gmap strings sorting.
From Stdlib Require Import ZArith Lia Ascii.
From S2P Require Import Prelude Chattr Match Addr AddrText Strings Chains Cidr CidrTree Gline.

Local Open Scope ircu_scope.
Local Open Scope Z_scope.

(** ** The lists as chains *)
Definition hd (st : gstate) (l : glist) : option gid := match l with GlobalGlineList => global_head st | BadChanGlineList => badchan_head st | NodeData n => cidr st !! n ≫= data end.
Definition all_heads (st : gstate) : gmap glist gid := partial_alter (fun _ => global_head st) GlobalGlineList (partial_alter (fun _ => badchan_head st) BadChanGlineList (kmap NodeData (omap data (cidr st)))).
Definition view (st : gstate) : chains glist := MkChains (all_heads st) (glinks st).

#[global] Instance NodeData_inj : Inj (=) (=) NodeData.
Proof. by intros n m [=]. Qed.
Lemma view_hd (st : gstate) (l : glist) : heads (view st) !! l = hd st l.
Proof.
  unfold view, all_heads. cbn [heads]. destruct l as [| |n]; cbn [hd].
  - by rewrite lookup_partial_alter_eq.
  - by rewrite lookup_partial_alter_ne, lookup_partial_alter_eq.
  - rewrite !lookup_partial_alter_ne by done. rewrite lookup_kmap, lookup_omap by apply _. done.
Qed.
Lemma view_eq (st st' : gstate) (C : chains glist) : (forall l, hd st' l = heads C !! l) -> glinks st' = links C -> view st' = C.
Proof. intros H E. destruct C as [hs ls]. cbn [heads links] in *. unfold view. rewrite E. f_equal. apply map_eq. intros l. rewrite <- H. apply (view_hd st'). Qed.

(** A pointer to a head can be followed: its node is there. *)
Definition reachable_ptr (st : gstate) (pp : ptr glist) : Prop := match pp with Head (NodeData n) => is_Some (cidr st !! n) | _ => True end.
(** What a write through a pointer leaves alone. *)
Definition same_but_links (st st' : gstate) : Prop := glines st' = glines st /\ GlobalIpMaskPTree st' = GlobalIpMaskPTree st.
Definition cidr_write (st st' : gstate) (pp : ptr glist) (v : option gid) : Prop := match pp with Head (NodeData n) => update (cidr st) n (set_data v) = Ok (cidr st') | _ => cidr st' = cidr st end.

Lemma set_glink_sim (st : gstate) (g : gid) (f : option gid * option (ptr glist) -> option gid * option (ptr glist)) (C : chains glist) : set_links (view st) g f = Ok C -> exists st', set_glink st g f = Ok st' /\ view st' = C /\ same_but_links st st' /\ cidr st' = cidr st.
Proof.
  unfold set_links, get_links, set_glink, get_glink. cbn [links view]. destruct (glinks st !! g) as [l|]; [|done]. cbn [obind]. intros [= <-]. eexists. split; [done|]. by split_and!.
Qed.
Lemma gstore_sim (st : gstate) (pp : ptr glist) (v : option gid) (C : chains glist) : reachable_ptr st pp -> Chains.store (view st) pp v = Ok C -> exists st', gstore st pp v = Ok st' /\ view st' = C /\ same_but_links st st' /\ cidr_write st st' pp v.
Proof.
  destruct pp as [[| |n]|g]; cbn [reachable_ptr Chains.store gstore cidr_write]; [| | |intros _; apply set_glink_sim]; intros R; [..|destruct R as [y Hy]; unfold update, load; rewrite Hy; cbn [obind]]; intros [= <-]; (eexists; split; [done|]); (split; [|by split]); apply (view_eq st); try done; intros l.
  - pose proof (view_hd st l) as Vh. cbn [heads view] in Vh |- *. destruct (decide (l = GlobalGlineList)) as [->|N]; [by rewrite lookup_partial_alter_eq|rewrite lookup_partial_alter_ne by done]. rewrite Vh. by destruct l.
  - pose proof (view_hd st l) as Vh. cbn [heads view] in Vh |- *. destruct (decide (l = BadChanGlineList)) as [->|N]; [by rewrite lookup_partial_alter_eq|rewrite lookup_partial_alter_ne by done]. rewrite Vh. by destruct l.
  - pose proof (view_hd st l) as Vh. cbn [heads view] in Vh |- *. destruct (decide (l = NodeData n)) as [->|N]; [rewrite lookup_partial_alter_eq; cbn [hd set_cidr cidr]; by rewrite lookup_insert_eq|rewrite lookup_partial_alter_ne by done]. rewrite Vh. destruct l as [| |m]; try done. cbn [hd set_cidr cidr]. rewrite lookup_insert_ne; [done|]. by intros ->.
Qed.

Lemma link_sim (st : gstate) (l : glist) (g : gid) (C : chains glist) : reachable_ptr st (Head l) -> chain_cons (view st) l g = Ok C -> exists st', link_gline st l g = Ok st' /\ view st' = C /\ same_but_links st st' /\ cidr_write st st' (Head l) (Some g).
Proof.
  intros R E. unfold chain_cons in E. rewrite view_hd in E. unfold link_gline. assert (ghead st l = Ok (hd st l)) as -> by (destruct l as [| |n]; try done; cbn [ghead hd]; unfold load; destruct R as [y Hy]; by rewrite Hy). cbn [obind].
  destruct (set_links (view st) g _) as [C1| |] eqn:E1; cbn [obind] in E; [|done..]. destruct (set_glink_sim _ _ _ _ E1) as (st1 & -> & V1 & [S1 T1] & D1). cbn [obind]. rewrite <- V1 in E.
  assert (exists st2, match hd st l with Some n => set_glink st1 n (fun m => (m.1, Some (Next g))) | None => Ok st1 end = Ok st2 /\ Chains.store (view st2) (Head l) (Some g) = Ok C /\ same_but_links st1 st2 /\ cidr st2 = cidr st1) as (st2 & -> & E2 & [S2 T2] & D2).
  { destruct (hd st l) as [n|]; [|by exists st1]. destruct (set_links (view st1) n _) as [C2| |] eqn:E2; cbn [obind] in E; [|done..]. destruct (set_glink_sim _ _ _ _ E2) as (st2 & -> & V2 & S2 & D2). exists st2. by rewrite V2. }
  cbn [obind]. destruct (gstore_sim st2 (Head l) (Some g) C) as (st3 & -> & V3 & [S3 T3] & W3); [destruct l; try done; cbn in *; by rewrite D2, D1|done|]. exists st3. split; [done|]. split; [done|]. split; [split; congruence|]. unfold cidr_write in *. destruct l; rewrite D2, D1 in W3; done.
Qed.
Lemma squeeze_sim (st : gstate) (g : gid) (C : chains glist) : (forall nx pp, glinks st !! g = Some (nx, Some pp) -> reachable_ptr st pp) -> chain_squeeze (view st) g = Ok C ->
  exists st' nx pp, squeeze_out st g = Ok st' /\ view st' = C /\ same_but_links st st' /\ glinks st !! g = Some (nx, Some pp) /\ cidr_write st st' pp nx.
Proof.
  intros R E. unfold chain_squeeze in E. unfold get_links in E at 1. cbn [links view] in E. unfold squeeze_out. unfold get_glink at 1. destruct (glinks st !! g) as [[nx [pp|]]|] eqn:El; cbn [obind fst snd] in E |- *; [|done..]. specialize (R nx pp eq_refl).
  destruct (Chains.store (view st) pp nx) as [C1| |] eqn:E1; cbn [obind] in E; [|done..]. destruct (gstore_sim st pp nx C1 R E1) as (st1 & -> & V1 & [S1 T1] & W1). cbn [obind]. rewrite <- V1 in E. unfold get_links in E at 1. cbn [links view] in E. unfold get_glink. destruct (glinks st1 !! g) as [[nx' pp']|]; cbn [obind fst snd] in E |- *; [|done].
  destruct nx' as [n|]; [|injection E as <-; by exists st1, nx, pp]. destruct (set_glink_sim _ _ _ _ E) as (st2 & E2 & V2 & [S2 T2] & D2). exists st2, nx, pp. split_and!; [done|done|split; congruence|done|]. unfold cidr_write in *. destruct pp as [[]|]; by rewrite D2.
Qed.

(** ** The invariant *)
Definition in_tree (x : Gline) : bool := match gl_ip x with Some (a, b) => ipmask_is_single_family a b | None => false end.
(** A G-line on the list of a node has the prefix of the node. *)
Definition on_node (F : bool -> tree) (x : Gline) (n : cid) : Prop := exists a b d, gl_ip x = Some (a, b) /\ (key a b, (n, d)) ∈ items (F (irc_in_addr_is_ipv4 a)).
Definition placed (F : bool -> tree) (l : glist) (x : Gline) : Prop :=
  match l with
  | GlobalGlineList => GlineIsBadChan x = false /\ in_tree x = false
  | BadChanGlineList => GlineIsBadChan x = true /\ gl_ip x = None
  | NodeData n => GlineIsBadChan x = false /\ in_tree x = true /\ on_node F x n
  end.
(** The flag says whether there is an address, and an address in a tree can be kept there. *)
Definition ip_ok (x : Gline) : Prop := GlineIsIpMask x = bool_decide (gl_ip x <> None) /\ match gl_ip x with Some (a, b) => addr_wf a /\ 0 <= b <= 128 /\ (in_tree x = true -> keepable a b) | None => True end.
Record gok (st : gstate) (ch : glist -> list gid) (F : bool -> tree) : Prop := {
  g_chains : ok (view st) ch;
  g_dom : dom (glinks st) = dom (glines st);
  g_all : forall g, is_Some (glines st !! g) -> exists l, g ∈ ch l;
  g_placed : forall l g, g ∈ ch l -> exists x, glines st !! g = Some x /\ placed F l x;
  g_ip : forall g x, glines st !! g = Some x -> ip_ok x;
  g_tree : match GlobalIpMaskPTree st with Some r => rep None (cidr st) r F | None => cidr st = ∅ end
}.

Lemma hd_chain (C : chains glist) (ch : glist -> list gid) (l : glist) : ok C ch -> heads C !! l = head (ch l).
Proof. intros O. pose proof (ok_chain _ _ O l) as G. destruct (ch l) as [|g B]; [done|]. by destruct G as [-> _]. Qed.
(** A node with G-lines is in the tree. *)
Lemma busy_node (st : gstate) (ch : glist -> list gid) (F : bool -> tree) (n : cid) (g : gid) : gok st ch F -> g ∈ ch (NodeData n) -> exists y r, cidr st !! n = Some y /\ data y = head (ch (NodeData n)) /\ GlobalIpMaskPTree st = Some r.
Proof.
  intros G Hg. pose proof (hd_chain _ _ (NodeData n) (g_chains _ _ _ G)) as Eh. rewrite view_hd in Eh. cbn [hd] in Eh. destruct (ch (NodeData n)) as [|g0 B]; [by apply elem_of_nil in Hg|]. cbn [head] in *. pose proof (g_tree _ _ _ G) as Tr. destruct (cidr st !! n) as [y|] eqn:Ey; [|done]. cbn in Eh. destruct (GlobalIpMaskPTree st) as [r|]; [by exists y, r|]. by rewrite Tr in Ey.
Qed.
(** The lists in the heap are those of the nodes of the tree. *)
Lemma node_data (st : gstate) (ch : glist -> list gid) (F : bool -> tree) (r : cidr_root_node) (x : option cid) (u : bool) (k : bstr) (n : cid) (d : option positive) : ok (view st) ch -> rep x (cidr st) r F -> (k, (n, d)) ∈ items (F u) -> d = head (ch (NodeData n)).
Proof. intros O R H. destruct (cidr_rep_node _ _ _ _ _ _ _ _ R H) as (y & Hy & <-). rewrite <- (hd_chain _ _ _ O), view_hd. cbn [hd]. by rewrite Hy. Qed.

(** Outside one prefix of one family two pairs of trees hold the same data. *)
Definition same_but (v : bool) (k0 : bstr) (F F' : bool -> tree) : Prop := forall u k m d, (u, k) <> (v, k0) -> (k, (m, Some d)) ∈ items (F' u) <-> (k, (m, Some d)) ∈ items (F u).
Lemma same_but_data (v : bool) (F : bool -> tree) (K : list frame) (n : cid) (a : irc_in_addr) (b : Z) (d d' : option positive) (l r : tree) : F v = plug K (T n a b d l r) -> same_but v (key a b) F (put v (plug K (T n a b d' l r)) F).
Proof.
  intros E u k m e N. destruct (either_family u v) as [->| ->]; rewrite ?put_eq, ?put_other; [|done]. rewrite E, !items_plug. cbn [items app]. rewrite !elem_of_cons. split; intros [H|H]; try (by right); injection H as -> _ _; done.
Qed.
Lemma same_but_drop (v : bool) (k0 : bstr) (F F1 : bool -> tree) (K : list frame) (n : cid) (a : irc_in_addr) (b : Z) (l r : tree) : F1 v = plug K (T n a b None l r) -> same_but v k0 F F1 -> same_but v k0 F (put v (tdrop K n a b l r) F1).
Proof.
  intros E S u k m e N. rewrite <- (S u k m e N). destruct (either_family u v) as [->| ->]; rewrite ?put_eq, ?put_other; [|done]. destruct (tdrop_items K n a b l r) as (V & P & Fv). rewrite E. symmetry. by apply (data_only V _ _ k m e P Fv).
Qed.
Lemma exact_node (h : cheap) (r : cidr_root_node) (F : bool -> tree) (x : option cid) (a : irc_in_addr) (b : Z) (n : cid) (d : option positive) (mode : Z) : mode = 1 \/ mode = 2 -> rep x h r F -> keepable a b -> (key a b, (n, d)) ∈ items (F (irc_in_addr_is_ipv4 a)) -> _cidr_find_node a b h r mode = Ok (if bool_decide (d <> None) || (mode =? 2) then Some n else None).
Proof.
  intros Hm R Kp H. rewrite (find_node_spec h r F a b Kp x mode R). unfold answer. apply (texact_spec a b (proj1 Kp) (proj1 (proj2 Kp))) in H; [|apply R]. rewrite H. by destruct Hm as [->| ->].
Qed.
Lemma no_exact_node (h : cheap) (r : cidr_root_node) (F : bool -> tree) (x : option cid) (a : irc_in_addr) (b : Z) (mode : Z) : mode = 1 \/ mode = 2 -> rep x h r F -> keepable a b -> (forall n d, (key a b, (n, d)) ∉ items (F (irc_in_addr_is_ipv4 a))) -> _cidr_find_node a b h r mode = Ok None.
Proof.
  intros Hm R Kp H. rewrite (find_node_spec h r F a b Kp x mode R). unfold answer. destruct (texact a b (F _)) as [[n d]|] eqn:Et; [|by destruct Hm as [->| ->]]. apply (texact_spec a b (proj1 Kp) (proj1 (proj2 Kp))) in Et; [|apply R]. by destruct (H n d).
Qed.

Lemma prune_other (st : gstate) (x : Gline) : ip_ok x -> in_tree x = false -> prune st x = Ok st.
Proof.
  intros [Ei _] N. unfold prune. destruct (GlobalIpMaskPTree st); [|done]. rewrite Ei. unfold in_tree in N. destruct (gl_ip x) as [[a b]|]; [|by rewrite bool_decide_false by (intros X; by apply X)]. rewrite bool_decide_true by done. by rewrite N.
Qed.
Lemma prune_node (st : gstate) (x : Gline) (a : irc_in_addr) (b : Z) (r : cidr_root_node) (F : bool -> tree) (K : list frame) (n : cid) (a' : irc_in_addr) (b' : Z) (d : option positive) (l rr : tree) : let v := irc_in_addr_is_ipv4 a in
  GlobalIpMaskPTree st = Some r -> GlineIsIpMask x = true -> gl_ip x = Some (a, b) -> ipmask_is_single_family a b = true -> keepable a b -> rep (Some n) (cidr st) r F -> F v = plug K (T n a' b' d l rr) -> key a' b' = key a b ->
  exists h F', prune st x = Ok (set_cidr h st) /\ rep None h r F' /\ (forall G, same_but v (key a b) G F -> same_but v (key a b) G F') /\ (d <> None -> F' = F) /\ (forall m, h !! m ≫= data = cidr st !! m ≫= data).
Proof.
  intros v Ep Ei Ea Es Kp R Ef Ek. unfold prune. rewrite Ep, Ei, Ea, Es. assert ((key a b, (n, d)) ∈ items (F v)) as H by (rewrite Ef, items_plug, <- Ek; cbn [items app]; by left). rewrite (exact_node _ _ _ _ _ _ _ _ 2 ltac:(by right) R Kp H). rewrite orb_true_r. cbn [obind]. destruct (cidr_rep_node _ _ _ _ _ _ _ _ R H) as (y & Hy & Ed). unfold load at 1. rewrite Hy. cbn [obind]. rewrite Ed. destruct d as [e|].
  - exists (cidr st), F. split_and!; [by destruct st|by apply (rep_done _ _ _ v _ n e R H)|done..].
  - unfold cidr_rem_empty_node, load. rewrite Hy. cbn [obind]. rewrite Ed. destruct (rem_empty_spec _ _ _ v K n a' b' l rr R Ef) as (h' & z & -> & R'). cbn [obind]. eexists h', _. split_and!; [done|exact R'|intros G; by apply same_but_drop|done|]. intros m. apply option_eq. intros e. rewrite (rep_data _ _ _ _ m e R'), (rep_data _ _ _ _ m e R). destruct (tdrop_items K n a' b' l rr) as (V & P & Fv).
    split; intros (u & k & Hk); exists u, k; destruct (either_family u v) as [->| ->].
    + rewrite put_eq in Hk. rewrite Ef. by apply (data_only V _ _ k m e P Fv).
    + by rewrite put_other in Hk.
    + rewrite put_eq. rewrite Ef in Hk. by apply (data_only V _ _ k m e P Fv).
    + by rewrite put_other.
Qed.

(** ** Freeing *)
Lemma placed_same (F F' : bool -> tree) (l : glist) (x : Gline) : (forall n, l = NodeData n -> on_node F x n -> on_node F' x n) -> placed F l x -> placed F' l x.
Proof. intros H. destruct l as [| |n]; cbn [placed]; try done. intros (H1 & H2 & H3). split_and!; [done..|by apply H]. Qed.

(** The end of [gline_free], once the list and the trees are right. *)
Lemma freed (st st1 : gstate) (ch : glist -> list gid) (F F' : bool -> tree) (l : glist) (A B : list gid) (g : gid) (h : cheap) : gok st ch F -> ch l = A ++ g :: B -> ok (view (set_cidr h st1)) (<[l := A ++ B]> ch) -> dom (glinks st1) = dom (glinks st) -> glines st1 = glines st ->
  match GlobalIpMaskPTree st1 with Some r => rep None h r F' | None => h = ∅ end -> (forall n g' x, g' ∈ (<[l := A ++ B]> ch) (NodeData n) -> glines st !! g' = Some x -> on_node F x n -> on_node F' x n) ->
  gok (MkG (delete g (glines st1)) (delete g (glinks st1)) h (GlobalIpMaskPTree st1) (global_head st1) (badchan_head st1)) (<[l := A ++ B]> ch) F'.
Proof.
  intros G Ec O Ed Eg Tr On. assert (forall k, g ∉ (<[l := A ++ B]> ch) k) as Ng.
  { intros k Hk. destruct (decide (k = l)) as [->|N].
    - rewrite fn_lookup_insert in Hk. pose proof (ok_nodup _ _ (g_chains _ _ _ G) l) as ND. rewrite Ec in ND. apply NoDup_app in ND as (_ & N1 & [N2 _]%NoDup_cons). apply elem_of_app in Hk as [Hk|Hk]; [apply (N1 g Hk); by left|done].
    - rewrite fn_lookup_insert_ne in Hk by done. apply N. apply (ok_disjoint _ _ (g_chains _ _ _ G) k l g Hk). rewrite Ec, elem_of_app. right. by left. }
  assert (forall k g', g' ∈ (<[l := A ++ B]> ch) k -> g' ∈ ch k) as Sub. { intros k g'. destruct (decide (k = l)) as [->|N]; [rewrite fn_lookup_insert, Ec, !elem_of_app, elem_of_cons; tauto|by rewrite fn_lookup_insert_ne]. }
  split; cbn [glines glinks cidr GlobalIpMaskPTree].
  - eapply (ok_outside _ _ g (delete g (glinks st1)) O Ng). intros u Nu. cbn. by rewrite lookup_delete_ne.
  - rewrite !dom_delete_L, Ed, Eg. by rewrite (g_dom _ _ _ G).
  - intros g' [x Hx]. destruct (decide (g' = g)) as [->|N]; [by rewrite lookup_delete_eq in Hx|]. rewrite lookup_delete_ne, Eg in Hx by done. destruct (g_all _ _ _ G g' ltac:(by eexists)) as (k & Hk). exists k. destruct (decide (k = l)) as [->|Nk]; [|by rewrite fn_lookup_insert_ne]. rewrite fn_lookup_insert. rewrite Ec, !elem_of_app, elem_of_cons in *. naive_solver.
  - intros k g' Hk. destruct (g_placed _ _ _ G k g' (Sub k g' Hk)) as (x & Hx & P). exists x. rewrite lookup_delete_ne, Eg by (intros ->; by apply (Ng k)). split; [done|]. apply (placed_same F F'); [|done]. intros n -> Ho. by apply (On n g' x).
  - intros g' x Hx. rewrite Eg in Hx. apply lookup_delete_Some in Hx as [_ Hx]. by apply (g_ip _ _ _ G g').
  - done.
Qed.

Lemma ptr_of (st : gstate) (ch : glist -> list gid) (l : glist) (A B : list gid) (g : gid) : ok (view st) ch -> ch l = A ++ g :: B -> glinks st !! g = Some (head B, Some (last_ptr (Head l) A)).
Proof.
  intros O E0. pose proof (ok_chain _ _ O l) as G. rewrite E0 in G. apply chain_app in G as (r & _ & -> & n & Hn & G). cbn [links view] in Hn. rewrite Hn. by destruct B as [|b B]; [cbn in G; subst n|destruct G as [-> _]].
Qed.
Lemma last_ptr_next (A : list gid) (l : glist) : A <> [] -> exists w, last_ptr (Head l) A = Next w.
Proof. intros N. unfold last_ptr. destruct (last A) eqn:El; [by eexists|]. by apply last_None in El. Qed.

(** The trees after a G-line of a node was unlinked and the node was pruned. *)
Lemma node_freed (st st1 : gstate) (ch : glist -> list gid) (F : bool -> tree) (n : cid) (A B : list gid) (g : gid) (x : Gline) : gok st ch F -> ch (NodeData n) = A ++ g :: B -> glines st !! g = Some x -> ok (view st1) (<[NodeData n := A ++ B]> ch) -> same_but_links st st1 -> cidr_write st st1 (last_ptr (Head (NodeData n)) A) (head B) ->
  exists a b h F' r, gl_ip x = Some (a, b) /\ GlobalIpMaskPTree st1 = Some r /\ prune st1 x = Ok (set_cidr h st1) /\ rep None h r F' /\ same_but (irc_in_addr_is_ipv4 a) (key a b) F F' /\ (forall m, h !! m ≫= data = cidr st1 !! m ≫= data) /\ (key a b, (n, head (ch (NodeData n)))) ∈ items (F (irc_in_addr_is_ipv4 a)) /\ (A ++ B <> [] -> (key a b, (n, head (A ++ B))) ∈ items (F' (irc_in_addr_is_ipv4 a))).
Proof.
  intros G Ec Hx O [S1 T1] W. assert (g ∈ ch (NodeData n)) as Hg by (rewrite Ec, elem_of_app; right; by left). destruct (g_placed _ _ _ G _ g Hg) as (x' & Hx' & _ & It & a & b & d & Ea & Hd). rewrite Hx in Hx'. injection Hx' as <-. destruct (busy_node st ch F n g G Hg) as (y & r & Hy & Ey & Er). pose proof (g_tree _ _ _ G) as R. rewrite Er in R.
  pose proof (node_data st ch F r None _ _ n d (g_chains _ _ _ G) R Hd) as Ed. pose proof (g_ip _ _ _ G g x Hx) as [Ei Kp]. rewrite Ea in Ei, Kp. rewrite bool_decide_true in Ei by done. destruct Kp as (_ & _ & Kp). specialize (Kp It). unfold in_tree in It. rewrite Ea in It. set (v := irc_in_addr_is_ipv4 a) in *.
  destruct (items_place _ _ _ _ Hd) as (K & a' & b' & l & rr & Ef & Ek). set (F1 := put v (plug K (T n a' b' (head (A ++ B)) l rr)) F).
  assert (rep (Some n) (cidr st1) r F1) as R1.
  { destruct (decide (A = [])) as [->|NA].
    - cbn in W. destruct (set_data_spec None (cidr st) r F v K n a' b' d (head B) l rr ltac:(by left) R Ef) as (h' & Eu & R'). rewrite W in Eu. injection Eu as ->. exact R'.
    - destruct (last_ptr_next A (NodeData n) NA) as (w & Ew). rewrite Ew in W. cbn in W. rewrite W. assert (head (A ++ B) = d) as Eh by (rewrite Ed, Ec; by destruct A). unfold F1. rewrite Eh, <- Ef. pose proof (rep_cells _ _ _ _ R) as S. pose proof (rep_busy _ _ _ _ R) as Bs. rewrite (both_cells _ v) in S, Bs. apply (rep_put None (Some n) (cidr st)); [done|done|apply R|done|by apply busy_cells_less]. }
  destruct (prune_node st1 x a b r F1 K n a' b' (head (A ++ B)) l rr ltac:(congruence) Ei Ea It Kp R1 ltac:(unfold F1; by rewrite put_eq) Ek) as (h & F' & Ep & R' & Sb & Keep & Dt). exists a, b, h, F', r. split_and!; [done|congruence|done|done| |done|by rewrite <- Ed|].
  - apply Sb. rewrite <- Ek. by apply (same_but_data v F K n a' b' d).
  - intros N. rewrite Keep by (by destruct (A ++ B)). unfold F1. rewrite put_eq, items_plug, <- Ek. cbn [items app]. by left.
Qed.

Lemma gline_free_spec (st : gstate) (ch : glist -> list gid) (F : bool -> tree) (l : glist) (A B : list gid) (g : gid) (x : Gline) : gok st ch F -> ch l = A ++ g :: B -> glines st !! g = Some x ->
  exists st' F', gline_free st g = Ok st' /\ gok st' (<[l := A ++ B]> ch) F' /\ glines st' = delete g (glines st) /\ GlobalIpMaskPTree st' = GlobalIpMaskPTree st /\
    match l, gl_ip x with NodeData _, Some (a, b) => same_but (irc_in_addr_is_ipv4 a) (key a b) F F' | _, _ => F' = F end.
Proof.
  intros G Ec Hx. destruct (chain_squeeze_spec (view st) ch l A B g (g_chains _ _ _ G) Ec) as (C & EC & OC & DC). pose proof (ptr_of st ch l A B g (g_chains _ _ _ G) Ec) as Pg. assert (g ∈ ch l) as Hg by (rewrite Ec, elem_of_app; right; by left).
  destruct (squeeze_sim st g C) as (st1 & nx & pp & Eq & V1 & [S1 T1] & Hl & W); [|done|].
  { intros nx pp Hp. rewrite Pg in Hp. injection Hp as <- <-. destruct (decide (A = [])) as [->|NA]; [|by destruct (last_ptr_next A l NA) as (w & ->)]. cbn. destruct l as [| |n]; try done. destruct (busy_node st ch F n g G Hg) as (y & r & Hy & _). by exists y. }
  rewrite Pg in Hl. injection Hl as <- <-. destruct (g_placed _ _ _ G l g Hg) as (x' & Hx' & P). rewrite Hx in Hx'. injection Hx' as <-. pose proof (g_ip _ _ _ G g x Hx) as Io. assert (dom (glinks st1) = dom (glinks st)) as D1 by (rewrite <- V1 in DC; exact DC). rewrite <- V1 in OC.
  unfold gline_free. rewrite Eq. cbn [obind]. unfold get. rewrite S1, Hx. cbn [obind]. assert ((exists n, l = NodeData n) \/ ~ (exists n, l = NodeData n)) as [(n & ->)|Nn] by (destruct l as [| |n]; [right; by intros []..|left; by exists n]).
  - destruct (node_freed st st1 ch F n A B g x G Ec Hx OC (conj S1 T1) W) as (a & b & h & F' & r & Ea & Er & -> & R' & Sb & Dt & Hn & Hk). cbn [obind set_cidr glines glinks cidr GlobalIpMaskPTree global_head badchan_head]. eexists _, F'. split; [done|]. cbn [glines GlobalIpMaskPTree]. rewrite Ea, S1. split_and!; [|done..].
    rewrite <- S1. apply (freed st st1 ch F F' (NodeData n) A B g h); try done.
    + replace (view (set_cidr h st1)) with (view st1); [done|]. symmetry. apply (view_eq st1); [|done]. intros l. rewrite view_hd. destruct l as [| |m]; try done. cbn [hd set_cidr cidr]. apply Dt.
    + by rewrite Er.
    + intros m g' x' Hg' Hx' (a1 & b1 & d1 & Ea1 & Hi). exists a1, b1. pose proof (g_tree _ _ _ G) as R. rewrite <- T1, Er in R. destruct (decide (m = n)) as [->|Nm].
      * rewrite fn_lookup_insert in Hg'. destruct (node_unique _ _ _ _ _ _ _ _ _ _ _ R Hi Hn) as (Eu & Ekk & _). exists (head (A ++ B)). split; [done|]. rewrite Eu, Ekk. apply Hk. intros E0. rewrite E0 in Hg'. by apply elem_of_nil in Hg'.
      * rewrite fn_lookup_insert_ne in Hg' by congruence. pose proof (node_data st ch F r None _ _ m d1 (g_chains _ _ _ G) R Hi) as Ed1. destruct (ch (NodeData m)) as [|g0 B0] eqn:Em; [by apply elem_of_nil in Hg'|]. cbn [head] in Ed1. subst d1. exists (Some g0). split; [done|]. apply Sb; [|done]. intros [= Eu Ekk]. rewrite Eu, Ekk in Hi. pose proof (NoDup_image fst _ _ _ (wft_nodup _ (rep_wft _ _ _ _ R _)) Hi Hn eq_refl) as Eq2. congruence.
  - assert (in_tree x = false) as It by (destruct l as [| |n]; [apply P|unfold in_tree; destruct P as [_ ->]; done|by destruct Nn; exists n]). rewrite (prune_other st1 x Io It). cbn [obind]. assert (cidr st1 = cidr st) as Eci by (unfold last_ptr in W; destruct (last A); [done|]; destruct l as [| |n]; [done|done|by destruct Nn; exists n]). eexists _, F. split; [done|]. cbn [glines GlobalIpMaskPTree]. split_and!; [|by rewrite S1|done|by destruct l as [| |n]; [..|destruct Nn; exists n]].
    apply (freed st st1 ch F F l A B g (cidr st1)); try done. rewrite Eci, T1. apply G.
Qed.

(** ** Making a G-line *)
Definition alloc_gline (st : gstate) (g : gid) (x : Gline) : gstate := MkG (<[g := x]> (glines st)) (<[g := (None, None)]> (glinks st)) (cidr st) (GlobalIpMaskPTree st) (global_head st) (badchan_head st).

(** What linking needs: the G-lines of [st], with [g] new and on no list, and trees in which
    the nodes of the G-lines are the same. *)
Record gready (st0 st : gstate) (ch : glist -> list gid) (F : bool -> tree) (g : gid) (x : Gline) : Prop := {
  r_ok : gok st0 ch F;
  r_new : glines st0 !! g = None;
  r_glines : glines st = <[g := x]> (glines st0);
  r_glinks : glinks st = <[g := (None, None)]> (glinks st0);
  r_heads : forall l, hd st l = hd st0 l
}.
Lemma gready_fresh (st0 st : gstate) (ch : glist -> list gid) (F : bool -> tree) (g : gid) (x : Gline) : gready st0 st ch F g x -> ok (view st) ch /\ (forall l, g ∉ ch l).
Proof.
  intros [G N Eg El Eh]. assert (forall l, g ∉ ch l) as Nl by (intros l Hl; destruct (g_placed _ _ _ G l g Hl) as (y & Hy & _); congruence). split; [|done].
  replace (view st) with (MkChains (heads (view st0)) (glinks st)); [|symmetry; apply (view_eq st); [intros l; cbn [heads]; rewrite Eh; symmetry; apply view_hd|done]]. apply (ok_outside _ _ g _ (g_chains _ _ _ G) Nl). intros u Nu. cbn [links view]. by rewrite El, lookup_insert_ne.
Qed.
Lemma gready_link (st0 st : gstate) (ch : glist -> list gid) (F F' : bool -> tree) (g : gid) (x : Gline) (l : glist) : gready st0 st ch F g x -> ip_ok x -> reachable_ptr st (Head l) ->
  (forall st', same_but_links st st' -> cidr_write st st' (Head l) (Some g) -> match GlobalIpMaskPTree st' with Some r => rep None (cidr st') r F' | None => cidr st' = ∅ end) -> placed F' l x ->
  (forall n g' y, g' ∈ ch (NodeData n) -> glines st0 !! g' = Some y -> on_node F y n -> on_node F' y n) ->
  exists st', link_gline st l g = Ok st' /\ gok st' (<[l := g :: ch l]> ch) F' /\ glines st' = <[g := x]> (glines st0).
Proof.
  intros Rd Ix Rp Tr Pl On. destruct (gready_fresh _ _ _ _ _ _ Rd) as [O Nl]. destruct Rd as [G N Eg El Eh]. destruct (chain_cons_spec (view st) ch l g O Nl) as (C & EC & OC & DC); [cbn [links view]; rewrite El, lookup_insert_eq; by eexists|]. destruct (link_sim st l g C Rp EC) as (st' & Es & V & S & W). exists st'. split; [done|]. pose proof (Tr st' S W) as Tr'. destruct S as [S1 T1]. rewrite <- V in OC, DC. split; [|congruence]. split; [done|..].
  - cbn [links view] in DC. rewrite DC, S1, Eg, El, !dom_insert_L. by rewrite (g_dom _ _ _ G).
  - intros g' [y Hy]. rewrite S1, Eg in Hy. destruct (decide (g' = g)) as [->|Ng]; [exists l; rewrite fn_lookup_insert; by left|]. rewrite lookup_insert_ne in Hy by done. destruct (g_all _ _ _ G g' ltac:(by eexists)) as (k & Hk). exists k. destruct (decide (k = l)) as [->|Nk]; [rewrite fn_lookup_insert; by right|by rewrite fn_lookup_insert_ne].
  - intros k g' Hk. rewrite S1, Eg. destruct (decide (g' = g)) as [->|Ng].
    + exists x. rewrite lookup_insert_eq. split; [done|]. destruct (decide (k = l)) as [->|Nk]; [done|]. rewrite fn_lookup_insert_ne in Hk by done. by destruct (Nl k).
    + assert (g' ∈ ch k) as Hk' by (destruct (decide (k = l)) as [->|Nk]; [rewrite fn_lookup_insert in Hk; by apply elem_of_cons in Hk as [->|]|by rewrite fn_lookup_insert_ne in Hk]). destruct (g_placed _ _ _ G k g' Hk') as (y & Hy & P). exists y. rewrite lookup_insert_ne by done. split; [done|]. apply (placed_same F F'); [|done]. intros n -> Ho. by apply (On n g' y).
  - intros g' y Hy. rewrite S1, Eg in Hy. apply lookup_insert_Some in Hy as [[-> ->]|[_ Hy]]; [done|by apply (g_ip _ _ _ G g')].
  - exact Tr'.
Qed.
Lemma link_plain (st : gstate) (ch : glist -> list gid) (F : bool -> tree) (g : gid) (x : Gline) (l : glist) : gok st ch F -> glines st !! g = None -> ip_ok x -> (forall n, l <> NodeData n) -> placed F l x ->
  exists st', link_gline (alloc_gline st g x) l g = Ok st' /\ gok st' (<[l := g :: ch l]> ch) F /\ glines st' = <[g := x]> (glines st).
Proof.
  intros G N Ix Nn Pl. apply (gready_link st (alloc_gline st g x) ch F F g x l); try done; [by destruct l as [| |n]; [..|destruct (Nn n)]|]. intros st' [_ ->] W. assert (cidr st' = cidr st) as -> by (by destruct l as [| |n]; [..|destruct (Nn n)]). apply G.
Qed.

Lemma data_same_heads (x x' : option cid) (h h' : cheap) (r r' : cidr_root_node) (F F' : bool -> tree) : rep x h r F -> rep x' h' r' F' -> (forall u k m d, (k, (m, Some d)) ∈ items (F' u) <-> (k, (m, Some d)) ∈ items (F u)) -> forall m, h' !! m ≫= data = h !! m ≫= data.
Proof. intros R R' S m. apply option_eq. intros d. rewrite (rep_data _ _ _ _ m d R), (rep_data _ _ _ _ m d R'). by setoid_rewrite S. Qed.

(** Linking to a node [n] of the prefix in trees [F0] with the data of [F]. *)
Lemma link_node (st0 st : gstate) (ch : glist -> list gid) (F F0 : bool -> tree) (g : gid) (x : Gline) (a : irc_in_addr) (b : Z) (r : cidr_root_node) (n : cid) (d : option positive) (z : option cid) : gready st0 st ch F g x -> ip_ok x -> GlobalIpMaskPTree st = Some r -> z = None \/ z = Some n -> rep z (cidr st) r F0 -> gl_ip x = Some (a, b) -> GlineIsBadChan x = false -> in_tree x = true ->
  (key a b, (n, d)) ∈ items (F0 (irc_in_addr_is_ipv4 a)) -> (forall u k m e, (k, (m, Some e)) ∈ items (F0 u) <-> (k, (m, Some e)) ∈ items (F u)) ->
  exists st' F', link_gline st (NodeData n) g = Ok st' /\ gok st' (<[NodeData n := g :: ch (NodeData n)]> ch) F' /\ glines st' = <[g := x]> (glines st0).
Proof.
  intros Rd Ix Er Hz R0 Ea Nb It Hn Sd. set (v := irc_in_addr_is_ipv4 a) in *. destruct (items_place _ _ _ _ Hn) as (K & a' & b' & l & rr & Ef & Ek). set (F' := put v (plug K (T n a' b' (Some g) l rr)) F0). destruct (set_data_spec z (cidr st) r F0 v K n a' b' d (Some g) l rr Hz R0 Ef) as (h' & Eu & R'). fold F' in R'.
  assert ((key a b, (n, Some g)) ∈ items (F' v)) as Hg by (unfold F'; rewrite put_eq, items_plug, <- Ek; cbn [items app]; by left). pose proof (same_but_data v F0 K n a' b' d (Some g) l rr Ef) as Sb. fold F' in Sb. rewrite Ek in Sb. assert (exists y0, cidr st !! n = Some y0) as [y0 Hy0] by (destruct (cidr_rep_node _ _ _ _ _ _ _ _ R0 Hn) as (y0 & ? & _); by exists y0).
  destruct (gready_link st0 st ch F F' g x (NodeData n)) as (st' & H1 & H2 & H3); [done|done|by exists y0| | | |by exists st', F'].
  - intros st' [_ ->] W. cbn in W. rewrite Er. rewrite W in Eu. injection Eu as ->. by apply (rep_done _ _ _ v (key a b) n g).
  - split_and!; [done..|]. by exists a, b, (Some g).
  - intros m g' y Hg' Hy (a1 & b1 & d1 & Ea1 & Hi). exists a1, b1. pose proof (r_ok _ _ _ _ _ _ Rd) as G. destruct (busy_node st0 ch F m g' G Hg') as (y1 & r1 & Hy1 & Ey1 & Er1). pose proof (g_tree _ _ _ G) as R. rewrite Er1 in R. pose proof (node_data st0 ch F r1 None _ _ m d1 (g_chains _ _ _ G) R Hi) as Ed1. destruct (ch (NodeData m)) as [|g0 B0] eqn:Em; [by apply elem_of_nil in Hg'|]. cbn [head] in Ed1. subst d1. apply Sd in Hi.
    destruct (decide ((irc_in_addr_is_ipv4 a1, key a1 b1) = (v, key a b))) as [Eq|Nq]; [|exists (Some g0); split; [done|]; by apply Sb]. injection Eq as Eu1 Ek1. rewrite Eu1, Ek1 in Hi |- *. exists (Some g). split; [done|]. pose proof (NoDup_image fst _ _ _ (wft_nodup _ (rep_wft _ _ _ _ R0 _)) Hi Hn eq_refl) as Eq2. injection Eq2 as -> _. done.
Qed.

Lemma gok_no_tree (st : gstate) (ch : glist -> list gid) (F F' : bool -> tree) : GlobalIpMaskPTree st = None -> gok st ch F -> gok st ch F'.
Proof.
  intros En G. split; try apply G.
  - intros l g Hg. destruct (g_placed _ _ _ G l g Hg) as (x & Hx & P). exists x. split; [done|]. apply (placed_same F F'); [|done]. intros n -> _. destruct (busy_node st ch F n g G Hg) as (y & r & _ & _ & Er). congruence.
  - pose proof (g_tree _ _ _ G) as Tr. by rewrite En in *.
Qed.

(** [cidr_add_node] without data changes no data when the prefix has none. *)
Lemma add_empty (h : cheap) (r : cidr_root_node) (F : bool -> tree) (a : irc_in_addr) (b : Z) : keepable a b -> rep None h r F -> (forall n e, (key a b, (n, Some e)) ∉ items (F (irc_in_addr_is_ipv4 a))) ->
  exists h' n F', cidr_add_node a b None h r = Ok (h', n) /\ rep (Some n) h' r F' /\ (key a b, (n, None)) ∈ items (F' (irc_in_addr_is_ipv4 a)) /\ (forall u k m e, (k, (m, Some e)) ∈ items (F' u) <-> (k, (m, Some e)) ∈ items (F u)).
Proof.
  intros Kp R N. set (v := irc_in_addr_is_ipv4 a) in *. destruct (add_node_spec h r F a b Kp None R) as (h' & n & m & Ea & R'). fold v in Ea, R'. eexists h', _, _. split; [exact Ea|]. split; [exact R'|]. pose proof (tins_items a b None (proj1 Kp) (proj1 (proj2 Kp)) n m (F v) (rep_wft _ _ _ _ R v)) as I. split; [rewrite put_eq; destruct I as [(d0 & Rr & _ & ->)|(V & -> & _)]; by left|].
  intros u k m' e. destruct (either_family u v) as [->| ->]; rewrite ?put_eq, ?put_other; [|done]. destruct I as [(d0 & Rr & P & P')|(V & P & Fv)].
  - rewrite P, P', !elem_of_cons. split; intros [Eq|H]; try (by right). injection Eq as -> -> <-. exfalso. apply (N (tid a b n (F v)) e). rewrite P. by left.
  - rewrite P, elem_of_cons, elem_of_app. split; [|by right; right]. intros [Eq|[H|H]]; [done| |done]. rewrite Forall_forall in Fv. by apply Fv in H.
Qed.

(** The tree part of [make_gline] *)
Lemma make_node (st : gstate) (ch : glist -> list gid) (F : bool -> tree) (g : gid) (x : Gline) (a : irc_in_addr) (b : Z) : gok st ch F -> glines st !! g = None -> ip_ok x -> gl_ip x = Some (a, b) -> GlineIsBadChan x = false -> in_tree x = true ->
  exists st' n F', (let* (st, r) := match GlobalIpMaskPTree (alloc_gline st g x) with
                     | Some r => Ok (alloc_gline st g x, r)
                     | None => let* (h, r) := cidr_new_tree (cidr (alloc_gline st g x)) in Ok (MkG (glines (alloc_gline st g x)) (glinks (alloc_gline st g x)) h (Some r) (global_head (alloc_gline st g x)) (badchan_head (alloc_gline st g x)), r)
                     end in
     let* node := _cidr_find_node a b (cidr st) r 1 in
     let* (st, n) := match node with Some n => Ok (st, n) | None => let* (h, n) := cidr_add_node a b None (cidr st) r in Ok (set_cidr h st, n) end in
     let* st := link_gline st (NodeData n) g in Ok (st, g)) = Ok (st', g) /\ gok st' (<[NodeData n := g :: ch (NodeData n)]> ch) F' /\ glines st' = <[g := x]> (glines st).
Proof.
  intros G N Ix Ea Nb It. pose proof Ix as [_ Kp]. rewrite Ea in Kp. destruct Kp as (_ & _ & Kp). specialize (Kp It). set (v := irc_in_addr_is_ipv4 a) in *.
  assert (exists st1 r F0, match GlobalIpMaskPTree (alloc_gline st g x) with Some r => Ok (alloc_gline st g x, r) | None => let* (h, r) := cidr_new_tree (cidr (alloc_gline st g x)) in Ok (MkG (glines (alloc_gline st g x)) (glinks (alloc_gline st g x)) h (Some r) (global_head (alloc_gline st g x)) (badchan_head (alloc_gline st g x)), r) end = Ok (st1, r) /\ rep None (cidr st1) r F0 /\ GlobalIpMaskPTree st1 = Some r /\ gready st st1 ch F0 g x) as (st1 & r & F0 & -> & R & Er & Rd).
  { cbn [alloc_gline GlobalIpMaskPTree]. pose proof (g_tree _ _ _ G) as Tr. destruct (GlobalIpMaskPTree st) as [r|] eqn:Er; [by exists (alloc_gline st g x), r, F|]. cbn [alloc_gline cidr]. rewrite Tr. destruct new_tree_spec as (h & r & Fn & -> & R & C). cbn [obind]. eexists _, r, Fn. split; [done|]. split_and!; [done..|]. split; [by apply (gok_no_tree st ch F)|done..|]. intros [| |n]; try done. cbn [hd cidr]. rewrite Tr, lookup_empty. cbn. destruct (h !! n ≫= data) as [d|] eqn:Ed; [|done]. apply (rep_data _ _ _ _ _ _ R) in Ed as (u & k & H). pose proof (proj2 (C u k d)) as X. rewrite lookup_empty in X. by discriminate X; exists n. }
  cbn [obind]. assert ((exists n e, (key a b, (n, Some e)) ∈ items (F0 v)) \/ (forall n e, (key a b, (n, Some e)) ∉ items (F0 v)) /\ _cidr_find_node a b (cidr st1) r 1 = Ok None) as [(n & e & Et)|[Nx Ef]].
  { pose proof (fun n d => texact_spec a b (proj1 Kp) (proj1 (proj2 Kp)) (F0 v) n d (rep_wft _ _ _ _ R v)) as X. rewrite (find_node_spec _ _ _ a b Kp None 1 R). fold v. unfold answer. destruct (texact a b (F0 v)) as [[n [e|]]|] eqn:Et; [left; exists n, e; by apply X|right..]; (split; [intros n' e' H; by apply X in H|done]). }
  - rewrite (exact_node _ _ _ _ _ _ _ _ 1 ltac:(by left) R Kp Et). rewrite bool_decide_true by done. cbn [orb obind]. destruct (link_node st st1 ch F0 F0 g x a b r n (Some e) None Rd Ix Er ltac:(by left) R Ea Nb It Et) as (st' & F' & -> & G' & Eg); [done|]. by exists st', n, F'.
  - rewrite Ef. cbn [obind]. destruct (add_empty _ _ _ a b Kp R Nx) as (h' & n & F1 & -> & R1 & Hn & Sd). cbn [obind]. assert (gready st (set_cidr h' st1) ch F0 g x) as Rd1.
    { destruct Rd as [G0 N0 Eg0 El0 Eh0]. split; [done..|]. intros l. rewrite <- (Eh0 l). destruct l as [| |m]; try done. cbn [hd set_cidr cidr]. by apply (data_same_heads _ _ _ _ _ _ _ _ R R1). }
    destruct (link_node st (set_cidr h' st1) ch F0 F1 g x a b r n None (Some n) Rd1 Ix Er ltac:(by right) R1 Ea Nb It Hn Sd) as (st' & F' & -> & G' & Eg). by exists st', n, F'.
Qed.

Lemma has_lor (f g m : Z) : has (Z.lor f g) m = has f m || has g m.
Proof.
  unfold has. rewrite Z.land_lor_distr_l. apply eq_true_iff_eq. rewrite orb_true_iff, !negb_true_iff, !Z.eqb_neq, Z.lor_eq_0_iff. destruct (Z.eq_dec (Z.land f m) 0), (Z.eq_dec (Z.land g m) 0); tauto.
Qed.
(** The masks whose address, if it is one, the trees can keep. *)
Definition keepable_mask (h : list ascii) : Prop := forall n a b, ipmask_parse h true = Ok (n, a, Some b) -> n <> 0 -> irc_in_addr_is_ipv4 a = true -> part a 5 = 65535 /\ 96 <= b.

Section Make.
Context (user : list ascii) (host : option (list ascii)) (reason : list ascii) (expire lastmod lifetime flags : Z).

(** The contents of the new G-line. *)
Definition new_gline : outcome Gline :=
  let fl := Z.land flags GLINE_MASK in
  let mk := fun host ip f => MkGline user host reason expire lastmod lifetime ip f GLOCAL_GLOBAL in
  if has flags GLINE_BADCHAN then Ok (mk None None fl)
  else if negb (deref user =c "$"%char) then
    match host with
    | None => Oob
    | Some h => let* (n, a, b) := ipmask_parse h true in if n =? 0 then Ok (mk (Some h) None fl) else match b with Some b => Ok (mk (Some h) (Some (a, b)) (Z.lor fl GLINE_IPMASK)) | None => Oob end
    end
  else Ok (mk None None fl).
Definition list_kind (x : Gline) (l : glist) : Prop := match l with BadChanGlineList => GlineIsBadChan x = true | GlobalGlineList => GlineIsBadChan x = false /\ in_tree x = false | NodeData _ => GlineIsBadChan x = false /\ in_tree x = true end.

Lemma mask_ipmask : has (Z.land flags GLINE_MASK) GLINE_IPMASK = false.
Proof. unfold has. by rewrite <- Z.land_assoc, Z.land_0_r. Qed.
Lemma mask_badchan : has (Z.land flags GLINE_MASK) GLINE_BADCHAN = has flags GLINE_BADCHAN.
Proof. unfold has. by rewrite <- Z.land_assoc. Qed.
Lemma new_gline_ok (x : Gline) : new_gline = Ok x -> (forall h, host = Some h -> keepable_mask h) -> ip_ok x /\ GlineIsBadChan x = has flags GLINE_BADCHAN /\ (has flags GLINE_BADCHAN = true -> gl_ip x = None).
Proof.
  unfold new_gline. intros E Km. assert (forall hh, ip_ok (MkGline user hh reason expire lastmod lifetime None (Z.land flags GLINE_MASK) GLOCAL_GLOBAL)) as I0 by (intros hh; split; [|done]; unfold GlineIsIpMask; cbn [gl_flags gl_ip]; rewrite mask_ipmask; symmetry; apply bool_decide_eq_false; intros X; by apply X).
  destruct (has flags GLINE_BADCHAN) eqn:Eb; [injection E as <-; split_and!; [done|by unfold GlineIsBadChan; cbn [gl_flags]; rewrite mask_badchan|done]|]. destruct (negb (deref user =c "$"%char)); [|injection E as <-; split_and!; [done|by unfold GlineIsBadChan; cbn [gl_flags]; rewrite mask_badchan|done]].
  destruct host as [h|]; [|done]. destruct (ipmask_parse_total h true) as (n & a & b & Ep & Hn & Wa & Hz). rewrite Ep in E. cbn [obind] in E. destruct (Z.eqb_spec n 0) as [->|Nz]; [injection E as <-; split_and!; [done|by unfold GlineIsBadChan; cbn [gl_flags]; rewrite mask_badchan|done]|]. destruct b as [b|]; [|done]. injection E as <-. split_and!; [|unfold GlineIsBadChan; cbn [gl_flags]; by rewrite has_lor, mask_badchan, Eb|done].
  split; [unfold GlineIsIpMask; cbn [gl_flags gl_ip]; rewrite has_lor, orb_true_r; symmetry; by apply bool_decide_eq_true|]. cbn [gl_ip]. destruct (Hz b eq_refl) as [_ Hb]. split_and!; [done|lia|lia|]. intros _. split_and!; [done|lia|lia|]. intros V. by apply (Km h eq_refl n a b).
Qed.

Lemma make_spec (st : gstate) (ch : glist -> list gid) (F : bool -> tree) (x : Gline) : gok st ch F -> new_gline = Ok x -> (forall h, host = Some h -> keepable_mask h) ->
  exists st' g l F', make_gline st user host reason expire lastmod lifetime flags = Ok (st', g) /\ glines st !! g = None /\ gok st' (<[l := g :: ch l]> ch) F' /\ glines st' = <[g := x]> (glines st) /\ list_kind x l.
Proof.
  intros G En Km. destruct (new_gline_ok x En Km) as (Ix & Eb & Ip). unfold new_gline in En. unfold make_gline. set (g := fresh (dom (glines st))). assert (glines st !! g = None) as N by (apply not_elem_of_dom, is_fresh). destruct (has flags GLINE_BADCHAN) eqn:Hb.
  - injection En as <-. fold (alloc_gline st g (MkGline user None reason expire lastmod lifetime None (Z.land flags GLINE_MASK) GLOCAL_GLOBAL)). edestruct (link_plain st ch F g _ BadChanGlineList G N Ix) as (st' & -> & G' & Eg); [done|by split|]. cbn [obind]. by exists st', g, BadChanGlineList, F.
  - set (m := if negb _ then _ else _) in *. assert (m = Ok x) as -> by exact En. cbn [obind]. fold (alloc_gline st g x). destruct (gl_ip x) as [[a b]|] eqn:Ei; [destruct (ipmask_is_single_family a b) eqn:Es|].
    + destruct (make_node st ch F g x a b G N Ix Ei Eb) as (st' & n & F' & -> & G' & Eg); [unfold in_tree; by rewrite Ei|]. exists st', g, (NodeData n), F'. split_and!; [done..|]. split; [done|]. unfold in_tree. by rewrite Ei.
    + assert (in_tree x = false) as It by (unfold in_tree; by rewrite Ei). edestruct (link_plain st ch F g x GlobalGlineList G N Ix) as (st' & -> & G' & Eg); [done|by split|]. cbn [obind]. by exists st', g, GlobalGlineList, F.
    + assert (in_tree x = false) as It by (unfold in_tree; by rewrite Ei). edestruct (link_plain st ch F g x GlobalGlineList G N Ix) as (st' & -> & G' & Eg); [done|by split|]. cbn [obind]. by exists st', g, GlobalGlineList, F.
Qed.
End Make.

(** ** Walks *)
Lemma gok_ext (st : gstate) (ch ch' : glist -> list gid) (F : bool -> tree) : (forall l, ch' l = ch l) -> gok st ch F -> gok st ch' F.
Proof.
  intros E0 G. split; try apply G.
  - by apply (ok_ext _ ch), G.
  - intros g Hg. destruct (g_all _ _ _ G g Hg) as (l & Hl). exists l. by rewrite E0.
  - intros l g. rewrite E0. apply G.
Qed.
Lemma has_ldiff (f g m : Z) : Z.land g m = 0 -> has (Z.ldiff f g) m = has f m.
Proof.
  intros E0. unfold has. do 2 f_equal. apply Z.bits_inj'. intros i Hi. rewrite !Z.land_spec, Z.ldiff_spec. apply (f_equal (fun z => Z.testbit z i)) in E0. rewrite Z.land_spec, Z.bits_0 in E0. destruct (Z.testbit f i), (Z.testbit g i), (Z.testbit m i); done.
Qed.
(** A change that leaves the address and the kind of a G-line alone. *)
Definition same_kind (x y : Gline) : Prop := gl_ip y = gl_ip x /\ GlineIsIpMask y = GlineIsIpMask x /\ GlineIsBadChan y = GlineIsBadChan x.
Lemma same_kind_placed (F : bool -> tree) (l : glist) (x y : Gline) : same_kind x y -> placed F l x -> placed F l y.
Proof.
  intros (E1 & E2 & E3). unfold placed, in_tree, on_node. rewrite E1, E3. done.
Qed.
Lemma same_kind_ip (x y : Gline) : same_kind x y -> ip_ok x -> ip_ok y.
Proof. intros (E1 & E2 & E3). unfold ip_ok, in_tree. by rewrite E1, E2. Qed.
Lemma gok_modify (st : gstate) (ch : glist -> list gid) (F : bool -> tree) (g : gid) (x y : Gline) : gok st ch F -> glines st !! g = Some x -> same_kind x y -> gok (set_glines (<[g := y]> (glines st)) st) ch F.
Proof.
  intros G Hx Sk. split; cbn [set_glines glines glinks cidr GlobalIpMaskPTree]; try apply G.
  - rewrite dom_insert_L, (g_dom _ _ _ G). symmetry. apply subseteq_union_1_L, singleton_subseteq_l, elem_of_dom. by exists x.
  - intros g' [z Hz]. apply (g_all _ _ _ G). apply lookup_insert_Some in Hz as [[<- _]|[_ Hz]]; by eexists.
  - intros l g' Hg. destruct (g_placed _ _ _ G l g' Hg) as (z & Hz & P). destruct (decide (g' = g)) as [->|N]; [|exists z; by rewrite lookup_insert_ne]. exists y. rewrite lookup_insert_eq. split; [done|]. rewrite Hx in Hz. injection Hz as <-. by apply (same_kind_placed F l x).
  - intros g' z Hz. apply lookup_insert_Some in Hz as [[<- <-]|[_ Hz]]; [apply (same_kind_ip x); [done|]; by apply (g_ip _ _ _ G g)|by apply (g_ip _ _ _ G g')].
Qed.

Lemma kept_same_but (l : glist) (x : Gline) (F F' : bool -> tree) (v : bool) (k : bstr) : match l, gl_ip x with NodeData _, Some (a, b) => same_but (irc_in_addr_is_ipv4 a) (key a b) F F' | _, _ => F' = F end -> (forall n a b, l = NodeData n -> gl_ip x = Some (a, b) -> irc_in_addr_is_ipv4 a = v /\ key a b = k) -> same_but v k F F'.
Proof. destruct l as [| |n]; [by intros ->|by intros ->|]. destruct (gl_ip x) as [[a b]|]; [|by intros ->]. intros S H. by destruct (H n a b eq_refl eq_refl) as [<- <-]. Qed.

Section Walks.
Context (now : Z).

Lemma refresh_kind (x : Gline) : same_kind x (refresh now x).
Proof. unfold refresh, same_kind. destruct (now <? gl_expire x); [done|]. unfold GlineIsIpMask, GlineIsBadChan. cbn [set_gstate set_gflags gl_ip gl_flags]. by rewrite !has_ldiff. Qed.
Lemma refresh_outdated (x : Gline) : outdated now (refresh now x) = outdated now x.
Proof. unfold refresh. by destruct (now <? gl_expire x). Qed.
Lemma refresh_twice (x : Gline) : refresh now (refresh now x) = refresh now x.
Proof.
  unfold refresh. destruct (now <? gl_expire x) eqn:E0; [by rewrite E0|]. cbn [set_gstate set_gflags gl_expire]. rewrite E0. unfold set_gstate, set_gflags. cbn. f_equal. apply Z.bits_inj'. intros i Hi. rewrite !Z.ldiff_spec. by destruct (Z.testbit (gl_flags x) i), (Z.testbit GLINE_ACTIVE i).
Qed.

(** What a walk may do to the G-lines: free outdated ones and refresh others. *)
Definition aged (m m' : gmap gid Gline) : Prop := forall g, match m !! g with Some x => m' !! g = Some x \/ m' !! g = Some (refresh now x) \/ (outdated now x = true /\ m' !! g = None) | None => m' !! g = None end.
Lemma aged_refl (m : gmap gid Gline) : aged m m.
Proof. intros g. destruct (m !! g); [by left|done]. Qed.
Lemma aged_trans (m m' m'' : gmap gid Gline) : aged m m' -> aged m' m'' -> aged m m''.
Proof.
  intros A B g. specialize (A g). specialize (B g). destruct (m !! g) as [x|]; [|by rewrite A in B]. destruct A as [A|[A|[O A]]]; rewrite A in B; [done| |right; right; by split]. rewrite refresh_outdated, refresh_twice in B. destruct B as [B|[B|B]]; [right; by left..|by right; right].
Qed.
Lemma aged_free (m : gmap gid Gline) (g : gid) (x : Gline) : m !! g = Some x -> outdated now x = true -> aged m (delete g m).
Proof. intros H O g'. destruct (decide (g' = g)) as [->|N]; [rewrite H, lookup_delete_eq; right; by right|rewrite lookup_delete_ne by done; apply aged_refl]. Qed.
Lemma aged_refresh (m : gmap gid Gline) (g : gid) (x : Gline) : m !! g = Some x -> aged m (<[g := refresh now x]> m).
Proof. intros H g'. destruct (decide (g' = g)) as [->|N]; [rewrite H, lookup_insert_eq; right; by left|rewrite lookup_insert_ne by done; apply aged_refl]. Qed.

Definition alive (m : gmap gid Gline) (g : gid) : bool := match m !! g with Some x => negb (outdated now x) | None => false end.

Section Body.
Context (wants : Gline -> outcome bool) (test : Gline -> bool).
Context (l : glist) (v : bool) (k : bstr).

(** The family and the prefix of the G-lines of a node *)
Definition at_node (st : gstate) (ch : glist -> list gid) : Prop := forall n g x a b, l = NodeData n -> g ∈ ch l -> glines st !! g = Some x -> gl_ip x = Some (a, b) -> irc_in_addr_is_ipv4 a = v /\ key a b = k.
Definition decides (st : gstate) (B : list gid) : Prop := forall g x, g ∈ B -> glines st !! g = Some x -> wants (refresh now x) = Ok (test (refresh now x)).
Record walked (st st' : gstate) (ch ch' : glist -> list gid) (F F' : bool -> tree) (B : list gid) (res : option gid) : Prop := {
  w_ok : gok st' ch' F';
  w_other : forall j, j <> l -> ch' j = ch j;
  w_sub : forall g, g ∈ ch' l -> g ∈ ch l;
  w_aged : aged (glines st) (glines st');
  w_tree : same_but v k F F';
  w_root : GlobalIpMaskPTree st' = GlobalIpMaskPTree st;
  w_found : match res with
            | Some g => exists x, g ∈ B /\ glines st !! g = Some x /\ outdated now x = false /\ test (refresh now x) = true /\ glines st' !! g = Some (refresh now x)
            | None => forall g x, g ∈ B -> glines st !! g = Some x -> outdated now x = true \/ test (refresh now x) = false
            end
}.

Lemma gliter_loop_spec (B : list gid) : forall fuel A st ch F, gok st ch F -> ch l = A ++ B -> (length B < fuel)%nat -> at_node st ch -> decides st B ->
  exists st' seen res ch' F', gliter_loop now fuel st (head B) wants = Ok (st', seen, res) /\ walked st st' ch ch' F F' B res /\ (res = None -> forall g, g ∈ seen <-> g ∈ B /\ alive (glines st) g = true).
Proof.
  induction B as [|g B IH]; intros fuel A st ch F G Ec Fu An De; (destruct fuel as [|fuel]; [cbn in Fu; lia|]); cbn [gliter_loop head].
  { exists st, [], None, ch, F. split; [done|]. split; [|intros _ g; split; [by intros ?%elem_of_nil|by intros [?%elem_of_nil _]]]. split; [done|done|done|apply aged_refl|done|done|]. intros g x H. by apply elem_of_nil in H. }
  unfold get_glink. rewrite (ptr_of st ch l A B g (g_chains _ _ _ G) Ec). cbn [obind fst]. assert (g ∈ ch l) as Hg by (rewrite Ec, elem_of_app; right; by left). destruct (g_placed _ _ _ G l g Hg) as (x & Hx & P). unfold get. rewrite Hx. cbn [obind]. pose proof (ok_nodup _ _ (g_chains _ _ _ G) l) as ND. rewrite Ec in ND. apply NoDup_app in ND as (_ & _ & [Ng NB]%NoDup_cons).
  assert (forall g', g' ∈ B -> g' <> g) as Nb by (intros g' H ->; done). destruct (outdated now x) eqn:Eo.
  - destruct (gline_free_spec st ch F l A B g x G Ec Hx) as (st1 & F1 & -> & G1 & E1 & T1 & Sb). cbn [obind].
    destruct (IH fuel A st1 (<[l := A ++ B]> ch) F1 G1 ltac:(by rewrite fn_lookup_insert) ltac:(cbn in Fu; lia)) as (st2 & seen & res & ch2 & F2 & -> & W & Sn).
    { intros n g' y a b El Hg'. rewrite fn_lookup_insert in Hg'. rewrite E1. intros [_ Hy]%lookup_delete_Some. apply (An n g' y a b El); [|done]. rewrite Ec, elem_of_app, elem_of_cons. apply elem_of_app in Hg'. tauto. }
    { intros g' y Hg'. rewrite E1, lookup_delete_ne by (intros ->; by apply (Nb g')). apply De. by right. }
    exists st2, seen, res, ch2, F2. split; [done|]. destruct W as [W1 W2 W3 W4 W5 W6 W7]. split; [split|].
    + done.
    + intros j Nj. by rewrite (W2 j Nj), fn_lookup_insert_ne.
    + intros g' Hg'. apply W3 in Hg'. rewrite fn_lookup_insert in Hg'. rewrite Ec, elem_of_app, elem_of_cons. apply elem_of_app in Hg'. tauto.
    + apply aged_trans with (glines st1); [|done]. rewrite E1. by apply (aged_free _ g x).
    + intros u k' m d Nk. rewrite (W5 u k' m d Nk). apply (kept_same_but l x F F1 v k Sb); [|done]. intros n a b El Ei. by apply (An n g x).
    + congruence.
    + rewrite E1 in W7. destruct res as [g0|].
      * destruct W7 as (y & H1 & H2 & H3). exists y. split; [by right|]. apply lookup_delete_Some in H2 as [_ H2]. by split.
      * intros g' y [->|Hg']%elem_of_cons Hy; [left; congruence|]. apply (W7 g' y Hg'). rewrite lookup_delete_ne; [done|]. intros ->. by apply (Nb g').
    + intros Er g'. rewrite (Sn Er), E1, elem_of_cons. unfold alive. destruct (decide (g' = g)) as [->|Ng']; [rewrite Hx, Eo; naive_solver|]. rewrite lookup_delete_ne by done. naive_solver.
  - unfold modify, get. rewrite Hx. cbn [obind]. rewrite (De g x ltac:(by left) Hx). cbn [obind]. set (st1 := set_glines _ st). assert (gok st1 ch F) as G1 by (apply (gok_modify st ch F g x); [done..|apply refresh_kind]). assert (aged (glines st) (glines st1)) as Ag by (by apply (aged_refresh _ g x)). destruct (test (refresh now x)) eqn:Et.
    + exists st1, [g], (Some g), ch, F. split; [done|]. split; [|done]. split; [done..|]. exists x. split; [by left|]. split_and!; [done..|]. apply lookup_insert_eq.
    + assert (forall g', g' <> g -> glines st1 !! g' = glines st !! g') as E1 by (intros g' Ng'; by apply lookup_insert_ne).
      destruct (IH fuel (A ++ [g]) st1 ch F G1 ltac:(by rewrite <- app_assoc) ltac:(cbn in Fu; lia)) as (st2 & seen & res & ch2 & F2 & -> & W & Sn).
      { intros n g' y a b El Hg' Hy Ei. unfold st1 in Hy. cbn [set_glines glines] in Hy. apply lookup_insert_Some in Hy as [[<- <-]|[_ Hy]]; [|by apply (An n g' y)]. apply (An n g x a b El Hg Hx). by rewrite <- (proj1 (refresh_kind x)). }
      { intros g' y Hg' Hy. rewrite E1 in Hy by (by apply Nb). apply (De g'); [by right|done]. }
      cbn [obind]. exists st2, (g :: seen), res, ch2, F2. split; [done|]. destruct W as [W1 W2 W3 W4 W5 W6 W7]. split; [split|]; [done..|by apply aged_trans with (glines st1)|done|done| |].
      * destruct res as [g0|]; [destruct W7 as (y & H1 & H2 & H3); exists y; rewrite E1 in H2 by (by apply Nb); split; [by right|done]|]. intros g' y [->|Hg']%elem_of_cons Hy; [right; congruence|]. apply (W7 g' y Hg'). by rewrite E1 by (by apply Nb).
      * intros Er g'. rewrite !elem_of_cons, (Sn Er). unfold alive. destruct (decide (g' = g)) as [->|Ng']; [rewrite Hx, Eo; naive_solver|]. rewrite E1 by done. naive_solver.
Qed.
End Body.
End Walks.

(** ** Up the tree *)
Abbreviation pnode := (bstr * (cid * positive))%type.
Lemma shorter_length (z z' : pnode) : shorter z z' -> (length z'.1 < length z.1)%nat.
Proof.
  intros [P N]. pose proof (prefix_length _ _ P) as L. destruct (Nat.eq_dec (length z'.1) (length z.1)) as [E0|]; [|lia]. exfalso. apply N. destruct P as [w Ew]. rewrite Ew, length_app in E0. destruct w; [by rewrite app_nil_r in Ew|cbn in E0; lia].
Qed.
Definition below (n : nat) (P : list pnode) : list pnode := filter (fun z => (length z.1 < n)%nat) P.
Lemma below_all (n : nat) (P : list pnode) : (forall z, z ∈ P -> (length z.1 < n)%nat) -> below n P = P.
Proof. induction P as [|z P IH]; intros H; [done|]. unfold below. rewrite filter_cons_True by (apply H; by left). f_equal. apply IH. intros y Hy. apply H. by right. Qed.
Lemma below_suffix (n : nat) (P : list pnode) : StronglySorted shorter P -> exists X, P = X ++ below n P.
Proof.
  induction P as [|z P IH]; intros S; [by exists []|]. inversion_clear S as [|? ? S' F]. destruct (decide (length z.1 < n)%nat) as [L|N].
  - exists []. rewrite below_all; [done|]. intros y [->|Hy]%elem_of_cons; [done|]. rewrite Forall_forall in F. pose proof (shorter_length _ _ (F y Hy)). lia.
  - destruct (IH S') as (X & E0). exists (z :: X). unfold below. rewrite filter_cons_False by done. cbn [app]. by f_equal.
Qed.
Lemma shorter_nodup (P : list pnode) : StronglySorted shorter P -> NoDup P.
Proof. induction 1 as [|z P S IH F]; constructor; [|done]. intros H. rewrite Forall_forall in F. by destruct (F z H). Qed.
Lemma sorted_same (P P' : list pnode) : StronglySorted shorter P -> StronglySorted shorter P' -> (forall z, z ∈ P <-> z ∈ P') -> P = P'.
Proof.
  intros S S' H. assert (AntiSymm (=) shorter) as AS by (intros z z' H1 H2; pose proof (shorter_length _ _ H1); pose proof (shorter_length _ _ H2); lia). apply (StronglySorted_unique shorter); [done..|]. apply NoDup_Permutation; [by apply shorter_nodup..|done].
Qed.
(** The part of a path behind an entry depends on the shorter prefixes only. *)
Lemma path_suffix (P P' X Y : list pnode) (e : pnode) : StronglySorted shorter P -> StronglySorted shorter P' -> P = X ++ e :: Y -> (forall z, z.1 <> e.1 -> z ∈ P' <-> z ∈ P) -> exists X', P' = X' ++ Y.
Proof.
  intros S S' Ep H. destruct (below_suffix (length e.1) P' S') as (X' & E'). exists X'. rewrite E' at 1. f_equal. rewrite Ep in S. apply StronglySorted_app in S as (Sx & _ & Sy). inversion_clear Sy as [|? ? SY Fy]. rewrite Forall_forall in Fy. apply sorted_same; [|done|].
  - rewrite E' in S'. by apply StronglySorted_app in S' as (_ & _ & S').
  - intros z. unfold below. rewrite list_elem_of_filter. split.
    + intros [L Hz]. assert (z.1 <> e.1) as Nz by (intros Ez; rewrite Ez in L; lia). apply H in Hz; [|done]. rewrite Ep in Hz. apply elem_of_app in Hz as [Hz|[->|Hz]%elem_of_cons]; [|done|done]. pose proof (shorter_length _ _ (Sx z e Hz ltac:(by left))). lia.
    + intros Hz. pose proof (shorter_length _ _ (Fy z Hz)) as L. split; [done|]. apply H; [intros Ez; rewrite Ez in L; lia|]. rewrite Ep, elem_of_app. right. by right.
Qed.

Lemma ghead_ok (st : gstate) (l : glist) : reachable_ptr st (Head l) -> ghead st l = Ok (hd st l).
Proof. destruct l as [| |n]; try done. cbn [ghead hd reachable_ptr]. unfold load. intros [y ->]. done. Qed.

Section Trees.
Context (now : Z) (wants : Gline -> outcome bool) (test : Gline -> bool).

(** The body decides every G-line that is not on a channel. *)
Definition dec_all (m : gmap gid Gline) : Prop := forall g x, m !! g = Some x -> GlineIsBadChan x = false -> wants (refresh now x) = Ok (test (refresh now x)).
Lemma dec_aged (m m' : gmap gid Gline) : aged now m m' -> dec_all m -> dec_all m'.
Proof.
  intros A D g x Hx Nb. specialize (A g). destruct (m !! g) as [y|] eqn:Ey; [|congruence]. destruct A as [A|[A|[_ A]]]; rewrite A in Hx; [injection Hx as ->; by apply (D g)|injection Hx as <-|done]. rewrite refresh_twice. apply (D g y Ey). by rewrite <- (proj2 (proj2 (refresh_kind now y))).
Qed.
Lemma listed_kind (st : gstate) (ch : glist -> list gid) (F : bool -> tree) (l : glist) (g : gid) (x : Gline) : gok st ch F -> l <> BadChanGlineList -> g ∈ ch l -> glines st !! g = Some x -> GlineIsBadChan x = false.
Proof. intros G N Hg Hx. destruct (g_placed _ _ _ G l g Hg) as (y & Hy & P). rewrite Hx in Hy. injection Hy as <-. destruct l; [by destruct P|done|by destruct P]. Qed.

Lemma gliter_spec (st : gstate) (ch : glist -> list gid) (F : bool -> tree) (l : glist) (v : bool) (k : bstr) : gok st ch F -> reachable_ptr st (Head l) -> l <> BadChanGlineList -> at_node l v k st ch -> dec_all (glines st) ->
  exists st' seen res ch' F', gliter now st l wants = Ok (st', seen, res) /\ walked now test l v k st st' ch ch' F F' (ch l) res /\ (res = None -> forall g, g ∈ seen <-> g ∈ ch l /\ alive now (glines st) g = true).
Proof.
  intros G Rp Nl An De. unfold gliter. rewrite (ghead_ok st l Rp). cbn [obind]. rewrite <- view_hd, (hd_chain _ _ l (g_chains _ _ _ G)). apply (gliter_loop_spec now wants test l v k (ch l) _ []); [done|done| |done|].
  - apply Nat.lt_succ_r. rewrite <- (size_dom (D := gset gid)), <- (size_list_to_set (C := gset gid) (ch l)) by apply (g_chains _ _ _ G). apply subseteq_size. intros g Hg. rewrite elem_of_list_to_set in Hg. destruct (g_placed _ _ _ G l g Hg) as (x & Hx & _). apply elem_of_dom. by exists x.
  - intros g x Hg Hx. apply (De g x Hx). by apply (listed_kind st ch F l g).
Qed.

(** The nodes of a tree are where the walk looks for them. *)
Lemma path_node (st : gstate) (ch : glist -> list gid) (F : bool -> tree) (r : cidr_root_node) (a : irc_in_addr) (b : Z) (v : bool) (X Y : list pnode) (e : pnode) : gok st ch F -> GlobalIpMaskPTree st = Some r -> tpath a b (F v) [] = X ++ e :: Y ->
  cidr_get_closest_data_parent (cidr st) e.2.1 = Ok (first_id Y) /\ (e.1, (e.2.1, Some e.2.2)) ∈ items (F v) /\ reachable_ptr st (Head (NodeData e.2.1)) /\ at_node (NodeData e.2.1) v e.1 st ch.
Proof.
  intros G Er Ep. pose proof (g_tree _ _ _ G) as R. rewrite Er in R. destruct (tpath_place a b (F v) [] X e Y Ep) as (K & a' & b' & l & rr & Ef & Ek & Eky). cbn [plug] in Ef. assert ((e.1, (e.2.1, Some e.2.2)) ∈ items (F v)) as Hi by (rewrite Ef, items_plug, <- Ek; cbn [items app]; by left). split_and!; [|done| |].
  - pose proof (rep_cells _ _ _ _ R) as S. rewrite (both_cells _ v), Ef, cells_plug_app in S. rewrite <- Eky. apply (closest_spec _ K e.2.1 a' b' (Some e.2.2) false l rr (cells None (F (negb v))) S). pose proof (rep_wft _ _ _ _ R v) as W. rewrite Ef in W. pose proof (place_depth _ _ _ _ _ _ _ W) as D. apply wft_sub in W. cbn [wft] in W. lia.
  - destruct (cidr_rep_node _ _ _ _ _ _ _ _ R Hi) as (y & Hy & _). by exists y.
  - intros n g x a1 b1 [= <-] Hg Hx Ei. destruct (g_placed _ _ _ G _ g Hg) as (x' & Hx' & _ & _ & a2 & b2 & d2 & E2 & H2). rewrite Hx in Hx'. injection Hx' as <-. rewrite Ei in E2. injection E2 as <- <-. destruct (node_unique _ _ _ _ _ _ _ _ _ _ _ R H2 Hi) as (? & ? & _). done.
Qed.

(** What a walk up the path [Y] does. *)
Record climbed (st st' : gstate) (ch ch' : glist -> list gid) (F' : bool -> tree) (Y : list pnode) (res : option gid) : Prop := {
  c_ok : gok st' ch' F';
  c_other : forall j, (forall n, j <> NodeData n) -> ch' j = ch j;
  c_aged : aged now (glines st) (glines st');
  c_root : GlobalIpMaskPTree st' = GlobalIpMaskPTree st;
  c_found : match res with
            | Some g => exists x e, e ∈ Y /\ g ∈ ch (NodeData e.2.1) /\ glines st !! g = Some x /\ outdated now x = false /\ test (refresh now x) = true /\ glines st' !! g = Some (refresh now x)
            | None => forall e g x, e ∈ Y -> g ∈ ch (NodeData e.2.1) -> glines st !! g = Some x -> outdated now x = true \/ test (refresh now x) = false
            end
}.
Lemma node_loop_spec (a : irc_in_addr) (b : Z) (v : bool) (r : cidr_root_node) (Y : list pnode) : addr_wf a -> 0 <= b <= 128 -> forall fuel st ch F X, gok st ch F -> GlobalIpMaskPTree st = Some r -> tpath a b (F v) [] = X ++ Y -> (length Y < fuel)%nat -> dec_all (glines st) ->
  exists st' seen res ch' F', node_loop now fuel st (first_id Y) wants = Ok (st', seen, res) /\ climbed st st' ch ch' F' Y res.
Proof.
  intros Wa Hb. induction Y as [|e Y IH]; intros fuel st ch F X G Er Ep Fu De; (destruct fuel as [|fuel]; [cbn in Fu; lia|]); cbn [node_loop first_id head fmap option_fmap option_map].
  { exists st, [], None, ch, F. split; [done|]. split; [done|done|apply aged_refl|done|]. intros e g x H. by apply elem_of_nil in H. }
  destruct (path_node st ch F r a b v X Y e G Er Ep) as (-> & Hi & Rp & An). cbn [obind]. destruct (gliter_spec st ch F (NodeData e.2.1) v e.1 G Rp ltac:(done) An De) as (st1 & seen & res & ch1 & F1 & -> & W & _). cbn [obind]. destruct W as [W1 W2 W3 W4 W5 W6 W7]. destruct res as [g|].
  { exists st1, seen, (Some g), ch1, F1. split; [done|]. split; [done|intros j Nj; apply W2; by apply Nj|done..|]. destruct W7 as (x & Hg & Hx & H3 & H4 & H5). exists x, e. split; [by left|done]. }
  pose proof (g_tree _ _ _ G) as R. rewrite Er in R. pose proof (g_tree _ _ _ W1) as R1. rewrite W6, Er in R1. destruct (tpath_spec a b Wa Hb (F v) (rep_wft _ _ _ _ R v)) as [C S]. destruct (tpath_spec a b Wa Hb (F1 v) (rep_wft _ _ _ _ R1 v)) as [C1 S1].
  destruct (path_suffix _ (tpath a b (F1 v) []) X Y e S S1 Ep) as (X1 & Ep1). { intros z Nz. rewrite C, C1. unfold covering. rewrite (W5 v z.1 z.2.1 z.2.2) by congruence. done. }
  destruct (IH fuel st1 ch1 F1 X1 W1 ltac:(congruence) Ep1 ltac:(cbn in Fu; lia) (dec_aged _ _ W4 De)) as (st2 & seen2 & res & ch2 & F2 & -> & [V1 V2 V3 V4 V5]). cbn [obind]. exists st2, (seen ++ seen2), res, ch2, F2. split; [done|].
  assert (forall e', e' ∈ Y -> ch1 (NodeData e'.2.1) = ch (NodeData e'.2.1)) as Ch. { intros e' He'. apply W2. intros [= Ei]. destruct (proj1 (C e') ltac:(rewrite Ep, elem_of_app; right; by right)) as [Hi' _]. rewrite Ei in Hi'. destruct (node_unique _ _ _ _ _ _ _ _ _ _ _ R Hi Hi') as (_ & Ek & _). rewrite Ep in S. apply StronglySorted_app in S as (_ & _ & S). inversion_clear S as [|? ? _ Fs]. rewrite Forall_forall in Fs. by destruct (Fs e' He'). }
  assert (forall e' g x, e' ∈ Y -> g ∈ ch (NodeData e'.2.1) -> glines st !! g = Some x -> exists y, glines st1 !! g = Some y /\ outdated now y = outdated now x /\ refresh now y = refresh now x) as Old.
  { intros e' g x He' Hg Hx. rewrite <- (Ch e' He') in Hg. destruct (g_placed _ _ _ W1 _ g Hg) as (y & Hy & _). exists y. split; [done|]. specialize (W4 g). rewrite Hx, Hy in W4. destruct W4 as [[= ->]|[[= ->]|[_ ?]]]; [done|by rewrite refresh_outdated, refresh_twice|done]. }
  split; [done|intros j Nj; rewrite (V2 j Nj); apply W2; by apply Nj|by apply aged_trans with (glines st1)|congruence|]. destruct res as [g|].
  - destruct V5 as (x & e' & He' & Hg & Hx & H3 & H4 & H5). rewrite (Ch e' He') in Hg. assert (is_Some (glines st !! g)) as [x0 Hx0] by (destruct (g_placed _ _ _ G _ g Hg) as (x0 & ? & _); by exists x0). destruct (Old e' g x0 He' Hg Hx0) as (y & Hy & Ey & Ry). rewrite Hx in Hy. injection Hy as <-. exists x0, e'. rewrite Ey in H3. rewrite Ry in H4, H5. split; [by right|done].
  - intros e' g x He' Hg Hx. apply elem_of_cons in He' as [->|He']; [by apply (W7 g x)|]. destruct (Old e' g x He' Hg Hx) as (y & Hy & <- & <-). apply (V5 e' g y He'); [by rewrite (Ch e' He')|done].
Qed.
End Trees.

(** ** Families *)
Lemma agree_parts (a c : irc_in_addr) (n : nat) : addr_wf a -> addr_wf c -> agree a c (16 * Z.of_nat n) <-> (forall i, (i < n)%nat -> part a i = part c i).
Proof.
  intros Wa Wc. split.
  - intros A i Hi. pose proof (part_bounds a i Wa) as Ba. pose proof (part_bounds c i Wc) as Bc. apply Z.bits_inj'. intros j Hj. destruct (Z.lt_ge_cases j 16) as [L|G0].
    + pose proof (A (16 * Z.of_nat i + (15 - j)) ltac:(lia)) as E0. unfold bit in E0. replace ((16 * Z.of_nat i + (15 - j)) / 16) with (Z.of_nat i) in E0 by (Z.to_euclidean_division_equations; lia). replace ((16 * Z.of_nat i + (15 - j)) mod 16) with (15 - j) in E0 by (Z.to_euclidean_division_equations; lia). rewrite Nat2Z.id in E0. by replace (15 - (15 - j)) with j in E0 by lia.
    + assert (forall z, 0 <= z < 2 ^ 16 -> Z.testbit z j = false) as H0; [|by rewrite !H0]. intros z Hz. destruct (Z.eq_dec z 0) as [->|N]; [apply Z.bits_0|]. apply Z.bits_above_log2; [lia|]. apply Z.log2_lt_pow2; [lia|]. apply Z.lt_le_trans with (2 ^ 16); [lia|]. apply Z.pow_le_mono_r; lia.
  - intros H i Hi. unfold bit. f_equal. apply H. assert (0 <= i / 16 < Z.of_nat n) by (split; [apply Z.div_pos; lia|apply Z.div_lt_upper_bound; lia]). lia.
Qed.
Lemma is_ipv4_mapped (a : irc_in_addr) : (forall i, (i < 5)%nat -> part a i = 0) -> part a 5 = 65535 -> irc_in_addr_is_ipv4 a = true.
Proof. intros H H5. unfold irc_in_addr_is_ipv4. rewrite !H, H5 by lia. done. Qed.
(** A mask that is kept in a tree matches addresses of its own family only. *)
Lemma single_family (a ip : irc_in_addr) (b : Z) : keepable a b -> ipmask_is_single_family a b = true -> keepable ip 128 -> key ip b = key a b -> irc_in_addr_is_ipv4 ip = irc_in_addr_is_ipv4 a.
Proof.
  intros (Wa & Hb & Va) Si (Wi & _ & Vi) Ek. apply key_agree in Ek. assert (forall x y, addr_wf x -> addr_wf y -> 96 <= b -> agree x y b -> irc_in_addr_is_ipv4 x = true -> part x 5 = 65535 -> irc_in_addr_is_ipv4 y = true) as Tr.
  { intros x y Wx Wy L A V V5. assert (forall i, (i < 6)%nat -> part x i = part y i) as P by (apply agree_parts; [done..|]; by apply agree_le with b). apply is_ipv4_mapped; [intros i Hi; rewrite <- P by lia; by apply is_ipv4_parts|by rewrite <- P by lia]. }
  destruct (irc_in_addr_is_ipv4 a) eqn:Ea; [destruct (Va eq_refl) as [V5 L]; apply (Tr a ip); try done; by apply agree_sym|]. destruct (irc_in_addr_is_ipv4 ip) eqn:Ei; [|done]. exfalso. destruct (Vi eq_refl) as [V5 _]. destruct (Z.le_gt_cases 96 b) as [L|G0]; [by rewrite (Tr ip a) in Ea|].
  unfold ipmask_is_single_family in Si. rewrite Ea in Si. assert (addr_wf ipv4base) as Wb by (apply (bool_decide_unpack _); exact I). rewrite (ipmask_check_key ipv4base a b Wb Wa Hb) in Si. rewrite bool_decide_true in Si; [done|]. apply key_agree. apply agree_trans with ip; [|done]. apply agree_le with (16 * Z.of_nat 6); [lia|]. apply agree_parts; [done..|]. intros i Hi. destruct (Nat.eq_dec i 5) as [->|]; [by rewrite V5|]. rewrite (is_ipv4_parts ip Ei) by lia. by do 5 (destruct i as [|i]; [done|]); lia.
Qed.

(** ** Lookup *)
Definition good_mask (m : list ascii) : Prop := no_nul m /\ mask_ok m = true.
#[global] Instance good_mask_dec (m : list ascii) : Decision (good_mask m).
Proof. unfold good_mask, no_nul. apply _. Defined.
Lemma good_match (m s : list ascii) : good_mask m -> match_ m s = Ok (if mask_matches m s then 0 else 1).
Proof. intros [H1 H2]. by apply match_decides. Qed.
(** What [gline_add] makes sure of for bans on users: masks that [match] can read, and a host
    unless the ban is on the real name, which has none and no address. *)
Definition gl_wf (x : Gline) : Prop := GlineIsBadChan x = false -> good_mask (gl_user x) /\ (if GlineIsRealName x then good_mask (drop 2 (gl_user x)) /\ gl_ip x = None else exists h, gl_host x = Some h /\ good_mask h).

Section Bans.
Context (now : Z) (c : gclient) (flags : Z).

(** Does a G-line ban a client?  This is the test of the documentation, on the list of all
    G-lines. *)
Definition hits (x : Gline) : bool :=
  negb (skipped flags x) && GlineIsActive x &&
  (if GlineIsRealName x then mask_matches (drop 2 (gl_user x)) (cli_info c)
   else mask_matches (gl_user x) (cli_username c) &&
        match gl_ip x, gl_host x with
        | Some (a, b), _ => negb (ipmask_check (cli_gip c) a b =? 0)
        | None, Some h => mask_matches h (cli_realhost c)
        | None, None => false
        end).
Definition bans (x : Gline) : bool := negb (GlineIsBadChan x) && negb (outdated now x) && hits (refresh now x).

Definition test_node (x : Gline) : bool := negb (skipped flags x) && mask_matches (gl_user x) (cli_username c) && GlineIsActive x.
Lemma wants_node_ok (x : Gline) : gl_wf x -> GlineIsBadChan x = false -> wants_node c flags x = Ok (test_node x).
Proof. intros W Nb. destruct (W Nb) as [Gu _]. unfold wants_node, test_node. destruct (skipped flags x); [done|]. rewrite good_match by done. cbn [obind]. by destruct (mask_matches (gl_user x) (cli_username c)). Qed.
Lemma wants_global_ok (x : Gline) : gl_wf x -> ip_ok x -> GlineIsBadChan x = false -> wants_global c flags x = Ok (hits x).
Proof.
  intros W [Ei Io] Nb. destruct (W Nb) as [Gu Gr]. unfold wants_global, hits. destruct (skipped flags x); [done|]. cbn [negb andb]. destruct (GlineIsRealName x).
  - rewrite good_match by apply Gr. cbn [obind]. destruct (mask_matches (drop 2 (gl_user x)) (cli_info c)); cbn; by rewrite ?andb_true_r, ?andb_false_r.
  - rewrite good_match by done. cbn [obind]. rewrite Ei. destruct (mask_matches (gl_user x) (cli_username c)); cbn [negb Z.eqb andb]; [|by rewrite andb_false_r]. destruct Gr as (h & Eh & Gh). destruct (gl_ip x) as [[a b]|].
    + rewrite bool_decide_true by done. destruct (ipmask_check (cli_gip c) a b =? 0); cbn; by rewrite ?andb_true_r, ?andb_false_r.
    + rewrite bool_decide_false by (intros X; by apply X). rewrite Eh, good_match by done. cbn [obind]. destruct (mask_matches h (cli_realhost c)); cbn; by rewrite ?andb_true_r, ?andb_false_r.
Qed.
Lemma refresh_wf (x : Gline) : gl_wf x -> gl_wf (refresh now x).
Proof.
  unfold gl_wf. rewrite (proj2 (proj2 (refresh_kind now x))). intros W Nb. destruct (W Nb) as [H1 H2]. unfold refresh. destruct (now <? gl_expire x); [by split|]. unfold GlineIsRealName in *. cbn [set_gstate set_gflags gl_user gl_flags gl_ip gl_host]. by rewrite has_ldiff.
Qed.
Lemma refresh_ip (x : Gline) : gl_ip (refresh now x) = gl_ip x.
Proof. apply refresh_kind. Qed.
End Bans.

Lemma path_length (P : list pnode) : StronglySorted shorter P -> forall n, (forall z, z ∈ P -> (length z.1 <= n)%nat) -> (length P <= S n)%nat.
Proof.
  induction 1 as [|z P S IH F]; intros n H; cbn [length]; [lia|]. destruct n as [|n].
  - destruct P as [|y P]; [done|]. rewrite Forall_forall in F. pose proof (shorter_length _ _ (F y ltac:(by left))). pose proof (H z ltac:(by left)). lia.
  - apply le_n_S, IH. intros y Hy. rewrite Forall_forall in F. pose proof (shorter_length _ _ (F y Hy)). pose proof (H z ltac:(by left)). lia.
Qed.

Section Lookup.
Context (now : Z) (c : gclient) (flags : Z) (Kc : keepable (cli_gip c) 128).
Let v := irc_in_addr_is_ipv4 (cli_gip c).

(** The G-lines on the nodes of the client's path are those in the trees whose mask has its
    address. *)
Lemma on_path (st : gstate) (ch : glist -> list gid) (F : bool -> tree) (r : cidr_root_node) (n : cid) (g : gid) (x : Gline) (a : irc_in_addr) (b : Z) : gok st ch F -> GlobalIpMaskPTree st = Some r -> g ∈ ch (NodeData n) -> glines st !! g = Some x -> gl_ip x = Some (a, b) ->
  (exists e, e ∈ tpath (cli_gip c) 128 (F v) [] /\ e.2.1 = n) <-> ipmask_check (cli_gip c) a b <> 0.
Proof.
  intros G Er Hg Hx Ea. pose proof (g_tree _ _ _ G) as R. rewrite Er in R. destruct (tpath_spec (cli_gip c) 128 (proj1 Kc) ltac:(lia) (F v) (rep_wft _ _ _ _ R v)) as [C _]. destruct (g_placed _ _ _ G _ g Hg) as (x' & Hx' & _ & It & a' & b' & d & Ea' & Hi). rewrite Hx in Hx'. injection Hx' as <-. rewrite Ea in Ea'. injection Ea' as <- <-.
  pose proof (g_ip _ _ _ G g x Hx) as [_ Kp]. rewrite Ea in Kp. destruct Kp as (Wa & Hb & Kp). specialize (Kp It). unfold in_tree in It. rewrite Ea in It. rewrite (ipmask_check_key _ _ _ (proj1 Kc) Wa Hb). pose proof (node_data st ch F r None _ _ n d (g_chains _ _ _ G) R Hi) as Ed. destruct (ch (NodeData n)) as [|g0 B]; [by apply elem_of_nil in Hg|]. cbn [head] in Ed. subst d. split.
  - intros (e & He & En). apply C in He as [H1 H2]. rewrite En in H1. destruct (node_unique _ _ _ _ _ _ _ _ _ _ _ R Hi H1) as (_ & Ek & _). rewrite <- Ek in H2. apply key_prefix in H2 as [_ A]; [|lia..]. rewrite bool_decide_true; [done|]. apply key_agree. by apply agree_sym.
  - case_bool_decide as D; [|done]. intros _. pose proof (single_family a (cli_gip c) b Kp It Kc D) as Ev. exists (key a b, (n, g0)). split; [|done]. apply C. unfold v. rewrite Ev. split; [done|]. cbn [fst]. apply key_prefix; [lia..|]. split; [lia|]. apply agree_sym. by apply key_agree.
Qed.

Definition all_wf (st : gstate) : Prop := forall g x, glines st !! g = Some x -> gl_wf x.
Lemma dec_node (st : gstate) : all_wf st -> dec_all now (wants_node c flags) (test_node c flags) (glines st).
Proof. intros W g x Hx Nb. apply wants_node_ok; [apply refresh_wf, (W g x Hx)|]. by rewrite (proj2 (proj2 (refresh_kind now x))). Qed.
Lemma dec_global (st : gstate) (ch : glist -> list gid) (F : bool -> tree) : gok st ch F -> all_wf st -> dec_all now (wants_global c flags) (hits c flags) (glines st).
Proof. intros G W g x Hx Nb. apply wants_global_ok; [apply refresh_wf, (W g x Hx)|apply (same_kind_ip x), (g_ip _ _ _ G g x Hx); apply refresh_kind|]. by rewrite (proj2 (proj2 (refresh_kind now x))). Qed.
Lemma all_wf_aged (st st' : gstate) : aged now (glines st) (glines st') -> all_wf st -> all_wf st'.
Proof. intros A W g x Hx. specialize (A g). destruct (glines st !! g) as [y|] eqn:Ey; [|congruence]. pose proof (W g y Ey) as Wy. destruct A as [A|[A|[_ A]]]; rewrite A in Hx; [by injection Hx as <-|injection Hx as <-; by apply refresh_wf|done]. Qed.

(** The first half of [gline_lookup] *)
Lemma climb_spec (st : gstate) (ch : glist -> list gid) (F : bool -> tree) : gok st ch F -> all_wf st ->
  exists st' seen res ch' F', gliterIpMask now st (cli_gip c) 128 (wants_node c flags) = Ok (st', seen, res) /\ gok st' ch' F' /\ ch' GlobalGlineList = ch GlobalGlineList /\ aged now (glines st) (glines st') /\
    match res with
    | Some g => exists x, glines st !! g = Some x /\ bans now c flags x = true
    | None => forall n g x, g ∈ ch (NodeData n) -> glines st !! g = Some x -> bans now c flags x = false
    end.
Proof.
  intros G W. unfold gliterIpMask. destruct (GlobalIpMaskPTree st) as [r|] eqn:Er.
  2: { exists st, [], None, ch, F. split_and!; [done..|apply aged_refl|]. intros n g x Hg. destruct (busy_node st ch F n g G Hg) as (? & ? & _ & _ & ?). congruence. }
  pose proof (g_tree _ _ _ G) as R. rewrite Er in R. rewrite (find_node_spec _ _ _ _ _ Kc None 0 R). fold v. unfold answer. cbn [Z.eqb obind]. destruct (tpath_spec (cli_gip c) 128 (proj1 Kc) ltac:(lia) (F v) (rep_wft _ _ _ _ R v)) as [C S].
  destruct (node_loop_spec now (wants_node c flags) (test_node c flags) (cli_gip c) 128 v r (tpath (cli_gip c) 128 (F v) []) (proj1 Kc) ltac:(lia) 131 st ch F [] G Er eq_refl) as (st' & seen & res & ch' & F' & -> & [V1 V2 V3 V4 V5]); [|by apply dec_node|].
  { pose proof (path_length _ S 128) as L. assert (length (tpath (cli_gip c) 128 (F v) []) <= 129)%nat; [|lia]. apply L. intros z Hz. apply C in Hz as [_ P]. apply prefix_length in P. by rewrite key_length in P. }
  exists st', seen, res, ch', F'. split_and!; [done|done|by apply V2|done|].
  assert (forall n g x a b, g ∈ ch (NodeData n) -> glines st !! g = Some x -> gl_ip x = Some (a, b) -> bans now c flags x = negb (outdated now x) && test_node c flags (refresh now x) && negb (ipmask_check (cli_gip c) a b =? 0)) as Eb.
  { intros n g x a b Hg Hx Ea. pose proof (listed_kind st ch F (NodeData n) g x G ltac:(done) Hg Hx) as Nb. destruct (refresh_wf now x (W g x Hx)) as [_ Wr]; [by rewrite (proj2 (proj2 (refresh_kind now x)))|]. unfold bans, hits, test_node. rewrite Nb. cbn [negb andb]. rewrite refresh_ip, Ea in *. destruct (GlineIsRealName (refresh now x)); [by destruct Wr|]. destruct (outdated now x), (skipped flags (refresh now x)), (GlineIsActive (refresh now x)), (mask_matches (gl_user (refresh now x)) (cli_username c)); done. }
  assert (forall n g x, g ∈ ch (NodeData n) -> glines st !! g = Some x -> exists a b, gl_ip x = Some (a, b)) as Ip by (intros n g x Hg Hx; destruct (g_placed _ _ _ G _ g Hg) as (x' & Hx' & _ & _ & a & b & d & Ea & _); rewrite Hx in Hx'; injection Hx' as <-; by exists a, b).
  destruct res as [g|].
  - destruct V5 as (x & e & He & Hg & Hx & Ho & Ht & _). exists x. split; [done|]. destruct (Ip _ g x Hg Hx) as (a & b & Ea). rewrite (Eb _ g x a b Hg Hx Ea), Ho, Ht. cbn [negb andb]. apply negb_true_iff, Z.eqb_neq. apply (on_path st ch F r e.2.1 g x a b G Er Hg Hx Ea). by exists e.
  - intros n g x Hg Hx. destruct (Ip _ g x Hg Hx) as (a & b & Ea). rewrite (Eb _ g x a b Hg Hx Ea). destruct (Z.eqb_spec (ipmask_check (cli_gip c) a b) 0) as [_|N]; [by rewrite andb_false_r|]. apply (on_path st ch F r n g x a b G Er Hg Hx Ea) in N as (e & He & <-). destruct (V5 e g x He Hg Hx) as [-> | ->]; [done|by rewrite andb_false_r].
Qed.

Lemma lookup_spec (st : gstate) (ch : glist -> list gid) (F : bool -> tree) : gok st ch F -> all_wf st ->
  exists st' res ch' F', gline_lookup now c flags st = Ok (st', res) /\ gok st' ch' F' /\ aged now (glines st) (glines st') /\
    match res with
    | Some g => exists x, glines st !! g = Some x /\ bans now c flags x = true
    | None => forall g x, glines st !! g = Some x -> bans now c flags x = false
    end.
Proof.
  intros G W. unfold gline_lookup. destruct (climb_spec st ch F G W) as (st1 & seen & res & ch1 & F1 & -> & G1 & Eg & A1 & B1). cbn [obind]. destruct res as [g|]; [by exists st1, (Some g), ch1, F1|].
  pose proof (all_wf_aged st st1 A1 W) as Wf1. destruct (gliter_spec now (wants_global c flags) (hits c flags) st1 ch1 F1 GlobalGlineList true [] G1 ltac:(done) ltac:(done) ltac:(done) (dec_global st1 ch1 F1 G1 Wf1)) as (st2 & seen2 & res & ch2 & F2 & -> & [V1 V2 V3 V4 V5 V6 V7] & _). cbn [obind].
  assert (forall g x, g ∈ ch GlobalGlineList -> glines st !! g = Some x -> exists y, glines st1 !! g = Some y /\ outdated now y = outdated now x /\ refresh now y = refresh now x) as Old.
  { intros g x Hg Hx. rewrite <- Eg in Hg. destruct (g_placed _ _ _ G1 _ g Hg) as (y & Hy & _). exists y. split; [done|]. specialize (A1 g). rewrite Hx, Hy in A1. destruct A1 as [[= ->]|[[= ->]|[_ ?]]]; [done|by rewrite refresh_outdated, refresh_twice|done]. }
  exists st2, res, ch2, F2. split_and!; [done|done|by apply aged_trans with (glines st1)|]. destruct res as [g|].
  - destruct V7 as (y & Hg & Hy & Ho & Ht & _). rewrite Eg in Hg. destruct (g_placed _ _ _ G _ g Hg) as (x & Hx & P). destruct (Old g x Hg Hx) as (y' & Hy' & Eo & Er). rewrite Hy in Hy'. injection Hy' as <-. exists x. split; [done|]. unfold bans. rewrite <- Eo, <- Er, Ho, Ht. by destruct P as [-> _].
  - intros g x Hx. destruct (g_all _ _ _ G g ltac:(by exists x)) as (l & Hl). destruct l as [| |n].
    + destruct (Old g x Hl Hx) as (y & Hy & Eo & Er). rewrite <- Eg in Hl. unfold bans. rewrite <- Eo, <- Er. destruct (V7 g y Hl Hy) as [-> | ->]; by rewrite ?andb_false_r.
    + destruct (g_placed _ _ _ G _ g Hl) as (x' & Hx' & P). rewrite Hx in Hx'. injection Hx' as <-. unfold bans. by destruct P as [-> _].
    + by apply (B1 n g x).
Qed.
End Lookup.

(** ** Reachable states *)
Definition no_glines : gstate := MkG ∅ ∅ ∅ None None None.
(** G-lines are made, freed, looked up, and changed in ways that leave their masks alone.
    Excluded are masks [match] does not read as documented ([good_mask]: a dangling backslash,
    an escaped character directly behind a star) and the addresses the trees cannot keep
    ([keepable]: IPv4-compatible ones, IPv4-mapped masks of fewer than 96 bits), which
    [gline_add] lets through. *)
Inductive greach : gstate -> Prop :=
| greach_init : greach no_glines
| greach_make (st st' : gstate) (user : list ascii) (host : option (list ascii)) (reason : list ascii) (expire lastmod lifetime flags : Z) (x : Gline) (g : gid) : greach st -> new_gline user host reason expire lastmod lifetime flags = Ok x -> gl_wf x -> (forall h, host = Some h -> keepable_mask h) -> make_gline st user host reason expire lastmod lifetime flags = Ok (st', g) -> greach st'
| greach_free (st st' : gstate) (g : gid) (x : Gline) : greach st -> glines st !! g = Some x -> gline_free st g = Ok st' -> greach st'
| greach_modify (st st' : gstate) (g : gid) (x : Gline) (f : Gline -> Gline) : greach st -> glines st !! g = Some x -> same_kind x (f x) -> gl_wf (f x) -> modify st g f = Ok st' -> greach st'
| greach_lookup (st st' : gstate) (now : Z) (c : gclient) (flags : Z) (res : option gid) : greach st -> keepable (cli_gip c) 128 -> gline_lookup now c flags st = Ok (st', res) -> greach st'.

Lemma no_glines_ok : gok no_glines (fun _ => []) (fun _ => E).
Proof.
  split; cbn [no_glines glines glinks cidr GlobalIpMaskPTree]; try done.
  - split; [intros l; constructor| |intros l l' g H; by apply elem_of_nil in H]. intros l. rewrite view_hd. by destruct l as [| |n].
  - by intros g [x H].
  - intros l g H. by apply elem_of_nil in H.
Qed.
Lemma greach_ok (st : gstate) : greach st -> (exists ch F, gok st ch F) /\ all_wf st.
Proof.
  induction 1 as [|st st' user host reason expire lastmod lifetime flags x g R [(ch & F & G) W] En Wx Km Em|st st' g x R [(ch & F & G) W] Hx Ef|st st' g x f R [(ch & F & G) W] Hx Sk Wf Em|st st' now c flags res R [(ch & F & G) W] Kc El].
  - split; [by eexists _, _; apply no_glines_ok|by intros g x H].
  - destruct (make_spec user host reason expire lastmod lifetime flags st ch F x G En Km) as (st1 & g1 & l & F1 & E1 & N1 & G1 & Eg & _). rewrite Em in E1. injection E1 as <- <-. split; [by eexists _, _|]. intros g' y Hy. rewrite Eg in Hy. apply lookup_insert_Some in Hy as [[_ <-]|[_ Hy]]; [done|by apply (W g')].
  - destruct (g_all _ _ _ G g ltac:(by exists x)) as (l & Hl). apply list_elem_of_split in Hl as (A & B & Ec). destruct (gline_free_spec st ch F l A B g x G Ec Hx) as (st1 & F1 & E1 & G1 & Eg & _). rewrite Ef in E1. injection E1 as <-. split; [by eexists _, _|]. intros g' y Hy. rewrite Eg in Hy. apply lookup_delete_Some in Hy as [_ Hy]. by apply (W g').
  - unfold modify, get in Em. rewrite Hx in Em. injection Em as <-. split; [eexists ch, F; by apply (gok_modify st ch F g x)|]. intros g' y Hy. cbn [set_glines glines] in Hy. apply lookup_insert_Some in Hy as [[_ <-]|[_ Hy]]; [done|by apply (W g')].
  - destruct (lookup_spec now c flags Kc st ch F G W) as (st1 & res1 & ch1 & F1 & E1 & G1 & A1 & _). rewrite El in E1. injection E1 as <- <-. split; [by eexists _, _|]. by apply (all_wf_aged now st).
Qed.

(** C35: a lookup through the address trees finds what a scan of all G-lines would.  In every
    state reached with G-lines whose masks [match] reads as documented and whose addresses the
    trees can keep ([greach]), and for a client with such an address, [gline_lookup] returns; the
    G-line it gives is one that bans the client
    (alive, active, and matching its user name and its address, host or real name); and when it
    gives none, no G-line bans the client.  On the way outdated records are freed, expired ones
    are deactivated, and nothing else changes.  Making a further such G-line and freeing any
    one return too. *)
Theorem gline_lookup_scans (st : gstate) (now : Z) (c : gclient) (flags : Z) : greach st -> keepable (cli_gip c) 128 ->
  (exists st' res, gline_lookup now c flags st = Ok (st', res) /\ aged now (glines st) (glines st') /\
    match res with
    | Some g => exists x, glines st !! g = Some x /\ bans now c flags x = true
    | None => forall g x, glines st !! g = Some x -> bans now c flags x = false
    end) /\
  (forall g x, glines st !! g = Some x -> exists st', gline_free st g = Ok st' /\ glines st' = delete g (glines st)) /\
  (forall user host reason expire lastmod lifetime fl x, new_gline user host reason expire lastmod lifetime fl = Ok x -> (forall h, host = Some h -> keepable_mask h) ->
    exists st' g, make_gline st user host reason expire lastmod lifetime fl = Ok (st', g) /\ glines st !! g = None /\ glines st' = <[g := x]> (glines st)).
Proof.
  intros R Kc. destruct (greach_ok st R) as [(ch & F & G) W]. split; [|split].
  - destruct (lookup_spec now c flags Kc st ch F G W) as (st' & res & ch' & F' & E0 & _ & A & B). by exists st', res.
  - intros g x Hx. destruct (g_all _ _ _ G g ltac:(by exists x)) as (l & (A & B & Ec)%list_elem_of_split). destruct (gline_free_spec st ch F l A B g x G Ec Hx) as (st' & F' & E & _ & Eg & _). by exists st'.
  - intros user host reason expire lastmod lifetime fl x En Km. destruct (make_spec user host reason expire lastmod lifetime fl st ch F x G En Km) as (st' & g & l & F' & E & N & _ & Eg & _). by exists st', g.
Qed.
Definition net_ban : outcome (gstate * gid) := make_gline no_glines (cstr "*") (Some (cstr "10.1.0.0/16")) (cstr "bye") 2000 5 2000 GLINE_ACTIVE.
Definition net_state : gstate := match net_ban with Ok (st, _) => st | _ => no_glines end.
Lemma net_state_reach : greach net_state.
Proof.
  apply (greach_make no_glines net_state (cstr "*") (Some (cstr "10.1.0.0/16")) (cstr "bye") 2000 5 2000 GLINE_ACTIVE (MkGline (cstr "*") (Some (cstr "10.1.0.0/16")) (cstr "bye") 2000 5 2000 (Some (v4_addr 0x0a01 0, 112)) 3 GLOCAL_GLOBAL) 1).
  - constructor.
  - by vm_compute.
  - intros _. split; [by apply (bool_decide_unpack _); vm_compute|]. exists (cstr "10.1.0.0/16"). split; [done|]. by apply (bool_decide_unpack _); vm_compute.
  - intros h [= <-] n a b Hp Hn Hv. vm_compute in Hp. injection Hp as <- <- <-. by split; [vm_compute|vm_compute].
  - by vm_compute.
Qed.
Lemma gline_lookup_scans_witness : exists st' res, gline_lookup 1000 (MkGC (cstr "joe") (cstr "a.b") (cstr "a.b") (cstr "Joe") (v4_addr 0x0a01 7)) 0 net_state = Ok (st', res) /\ aged 1000 (glines net_state) (glines st') /\
    match res with
    | Some g => exists x, glines net_state !! g = Some x /\ bans 1000 (MkGC (cstr "joe") (cstr "a.b") (cstr "a.b") (cstr "Joe") (v4_addr 0x0a01 7)) 0 x = true
    | None => forall g x, glines net_state !! g = Some x -> bans 1000 (MkGC (cstr "joe") (cstr "a.b") (cstr "a.b") (cstr "Joe") (v4_addr 0x0a01 7)) 0 x = false
    end.
Proof.
  apply gline_lookup_scans; [apply net_state_reach|apply (bool_decide_unpack _); by vm_compute].
Defined.

(** C24: a G-line on an IPv4-compatible address stops the server.  Such an address (the first
    96 bits zero) counts as IPv4, but is not under the root of the IPv4 tree, so
    [cidr_add_node] writes through the NULL [child_pptr]: for every such mask in a new tree,
    and for "::1:2", which [make_gline] takes for a mask of one family. *)
Theorem compat_address_crashes (a : irc_in_addr) (b : Z) (d : option positive) : addr_wf a -> irc_in_addr_is_ipv4 a = true -> part a 5 = 0 -> 80 < b <= 128 ->
  (exists h r, cidr_new_tree ∅ = Ok (h, r) /\ cidr_add_node a b d h r = Oob) /\ make_gline no_glines (cstr "*") (Some (cstr "::1:2")) (cstr "bye") 2000 5 2000 GLINE_ACTIVE = Oob.
Proof.
  intros Wa V V5 Hb. split; [|by vm_compute]. destruct new_tree_spec as (h & r & F & E0 & R & _). exists h, r. split; [done|]. unfold cidr_add_node, family. rewrite V. destruct (rep_tree _ _ _ _ true R) as (d0 & l & rr & Ef). cbn [root_id base_bits] in Ef. pose proof (rep_cells _ _ _ _ R) as S. rewrite Ef in S. cbn [cells app] in S. change 130%nat with (Datatypes.S 129). cbn [add_loop]. rewrite (load_sound _ _ _ _ S). cbn [obind ip bits]. fold (far a b (base true) 96). set (i := far a b (base true) 96).
  destruct (far_spec a b (base true) 96 Wa (base_wf true) ltac:(lia) ltac:(lia)) as (F1 & F2 & F3 & F4). fold i in F1, F2, F3, F4. assert (bit (base true) 80 <> bit a 80) as D by (unfold bit; change (Z.to_nat (80 / 16)) with 5%nat; rewrite V5; done).
  assert (i = 80) as ->. { destruct (Z.lt_trichotomy i 80) as [L|[|L]]; [|done|exfalso; apply D, F3; lia]. exfalso. apply F4; [lia..|]. assert (agree (base true) a (16 * Z.of_nat 5)) as A; [|apply A; lia]. apply agree_parts; [apply base_wf|done|]. intros j Hj. rewrite (is_ipv4_parts a V) by done. by do 5 (destruct j as [|j]; [done|]); lia. }
  rewrite (proj2 (Z.eqb_neq 80 b)) by lia. cbn [Z.eqb]. destruct (create_sound h a b d _ S) as (h1 & n & -> & S1). destruct (create_sound h1 a 80 None _ S1) as (h2 & w & -> & S2). destruct (update_sound _ _ _ (set_parent None) _ S2) as (h3 & Eu & S3). cbn [parent]. rewrite Eu. done.
Qed.
Lemma compat_address_crashes_witness : (exists h r, cidr_new_tree ∅ = Ok (h, r) /\ cidr_add_node (InAddr [0; 0; 0; 0; 0; 0; 1; 2]) 128 (Some 1%positive) h r = Oob) /\ make_gline no_glines (cstr "*") (Some (cstr "::1:2")) (cstr "bye") 2000 5 2000 GLINE_ACTIVE = Oob.
Proof. apply compat_address_crashes; [apply (bool_decide_unpack _); by vm_compute|by vm_compute|by vm_compute|lia]. Defined.

(** ** Changes *)
Lemma gline_hits_ok (x : Gline) (c : gclient) : gl_wf x -> ip_ok x -> GlineIsBadChan x = false -> exists r, gline_hits x c = Ok r.
Proof.
  intros W [Ei _] Nb. destruct (W Nb) as [Gu Gr]. unfold gline_hits. destruct (GlineIsRealName x); [rewrite good_match by apply Gr; by eexists|]. rewrite good_match by done. cbn [obind]. destruct (mask_matches (gl_user x) (cli_username c)); cbn [negb Z.eqb]; [|by eexists]. rewrite Ei. destruct Gr as (h & Eh & Gh). destruct (gl_ip x) as [[a b]|]; [rewrite bool_decide_true by done; by eexists|]. rewrite bool_decide_false by (intros X; by apply X). rewrite Eh, good_match by done. by eexists.
Qed.
Lemma do_gline_ok (disabled : bool) (local : list (option gclient)) (x : Gline) : gl_wf x -> ip_ok x -> exists fx, do_gline disabled local x = Ok fx.
Proof.
  intros W I0. unfold do_gline. destruct disabled; [by eexists|]. destruct (GlineIsBadChan x) eqn:Nb; [by eexists|]. destruct (negb (GlineIsActive x)); [by eexists|]. destruct local as [|o ls]; [by eexists|]. generalize (length (o :: ls) - 1)%nat. intros fd. induction fd as [|fd IH]; cbn [do_loop].
  - destruct (nth_error (o :: ls) 0) as [[c|]|]; [destruct (gline_hits_ok x c W I0 Nb) as (r & ->)|..]; cbn [obind]; by eexists.
  - destruct IH as (fx & ->). destruct (nth_error (o :: ls) (S fd)) as [[c|]|]; [destruct (gline_hits_ok x c W I0 Nb) as (r & ->)|..]; cbn [obind]; by eexists.
Qed.

(** Two versions of a record: the mask is the same, and the newer one is not dropped earlier. *)
Record newer (x y : Gline) : Prop := {
  n_mask : gl_user y = gl_user x /\ gl_host y = gl_host x /\ gl_ip y = gl_ip x;
  n_flags : forall m, Z.land GLINE_ACTIVE m = 0 -> has (gl_flags y) m = has (gl_flags x) m;
  n_lastmod : gl_lastmod x <= gl_lastmod y;
  n_lifetime : gl_lifetime x <= gl_lifetime y;
  n_covers : gl_expire x <= gl_lifetime x -> gl_expire y <= gl_lifetime y
}.
Lemma newer_refl (x : Gline) : newer x x.
Proof. split; try done; lia. Qed.
Lemma newer_kind (x y : Gline) : newer x y -> same_kind x y.
Proof. intros N. destruct (n_mask _ _ N) as (_ & _ & E0). split_and!; [done|by apply (n_flags _ _ N)..]. Qed.
Lemma newer_wf (x y : Gline) : newer x y -> gl_wf x -> gl_wf y.
Proof.
  intros N. destruct (n_mask _ _ N) as (E1 & E2 & E3). unfold gl_wf. rewrite (proj2 (proj2 (newer_kind x y N))), E1, E2, E3. unfold GlineIsRealName. by rewrite (n_flags _ _ N GLINE_REALNAME).
Qed.
Lemma act_on_fields (action : GlineAction) (x : Gline) : let y := act_on action x in gl_user y = gl_user x /\ gl_host y = gl_host x /\ gl_ip y = gl_ip x /\ gl_lastmod y = gl_lastmod x /\ gl_lifetime y = gl_lifetime x /\ gl_expire y = gl_expire x /\ (forall m, Z.land GLINE_ACTIVE m = 0 -> has (gl_flags y) m = has (gl_flags x) m).
Proof.
  destruct action; cbn; split_and!; try done; intros m Hm; [|by apply has_ldiff]. rewrite has_lor. unfold has at 2. rewrite Hm. apply orb_false_r.
Qed.

(** The times [gline_modify] settles on keep a record at least as long as its ban. *)
Lemma has_ldiff_same (f m : Z) : has (Z.ldiff f m) m = false.
Proof. unfold has. rewrite (proj2 (Z.eqb_eq _ _)); [done|]. apply Z.bits_inj'. intros i Hi. rewrite Z.land_spec, Z.ldiff_spec, Z.bits_0. by destruct (Z.testbit f i), (Z.testbit m i). Qed.
Lemma modify_times_ok (now : Z) (x : Gline) (expire lifetime flags f' e' l' : Z) : modify_times now x expire lifetime flags = Some (f', e', l') -> (has f' GLINE_LIFETIME = true -> gl_lifetime x <= l') /\ (has f' GLINE_EXPIRE = true -> e' <= if has f' GLINE_LIFETIME then l' else gl_lifetime x).
Proof.
  unfold modify_times. intros E0. case_if_in E0; [done|]. clear Heqb. revert E0. generalize (if has flags GLINE_EXPIRE && negb (expire =? 0) then flags else Z.ldiff flags GLINE_EXPIRE). intros f. set (p := if has f GLINE_EXPIRE && _ then _ else _). destruct p as [f1 e1]. generalize (if negb (has f1 GLINE_LIFETIME) || (lifetime =? 0) then gl_lifetime x else lifetime). intros l1.
  destruct (Z.ltb_spec (gl_lifetime x) (Z.max l1 e1)) as [L|L]; intros [= <- <- <-].
  - rewrite has_lor. change (has GLINE_LIFETIME GLINE_LIFETIME) with true. rewrite orb_true_r. split; intros _; lia.
  - rewrite has_ldiff_same. split; [done|]. intros _. lia.
Qed.

(** C16: G-lines only become newer.  In every state reached with G-lines whose masks [match]
    reads as documented and whose addresses the trees can keep ([greach]), and for every global
    modification, [gline_modify] returns and changes no other record; a version that is not
    newer than the one at hand changes nothing; otherwise the mask stays, neither the version
    nor the lifetime of the record goes down, and a record that outlives its ban still does. *)
Theorem gline_modify_newer (st : gstate) (now : Z) (disabled burst tell : bool) (local : list (option gclient)) (g : gid) (x : Gline) (action : GlineAction) (reason : option (list ascii)) (expire lastmod lifetime flags : Z) : greach st -> glines st !! g = Some x -> action <> GLINE_LOCAL_ACTIVATE -> action <> GLINE_LOCAL_DEACTIVATE ->
  exists st' fx y, gline_modify now disabled local burst tell st g action reason expire lastmod lifetime flags = Ok (st', fx) /\ glines st' = <[g := y]> (glines st) /\ newer x y /\ (lastmod <= gl_lastmod x -> y = x) /\ (y = x \/ gl_lastmod y = lastmod).
Proof.
  intros R Hx N1 N2. destruct (greach_ok st R) as [(ch & F & G) W]. pose proof (W g x Hx) as Wx. pose proof (g_ip _ _ _ G g x Hx) as Ix. unfold gline_modify, get. rewrite Hx. cbn [obind]. assert (forall fx : list geffect, exists st' fx' y, Ok (st, fx) = Ok (st', fx') /\ glines st' = <[g := y]> (glines st) /\ newer x y /\ (lastmod <= gl_lastmod x -> y = x) /\ (y = x \/ gl_lastmod y = lastmod)) as Same by (intros fx; exists st, fx, x; split_and!; [done|by rewrite insert_id|apply newer_refl|done|by left]).
  rewrite (bool_decide_false (action = GLINE_LOCAL_ACTIVATE)), (bool_decide_false (action = GLINE_LOCAL_DEACTIVATE)) by done. cbn [orb negb andb]. destruct (Z.ltb_spec lastmod (gl_lastmod x)) as [L|L]; [apply Same|]. destruct (Z.eqb_spec (gl_lastmod x) lastmod) as [Eq|Nq]; [apply Same|]. destruct (modify_times now x expire lifetime flags) as [[[f1 e1] l1]|] eqn:Em; [|apply Same].
  destruct (modify_times_ok _ _ _ _ _ _ _ _ Em) as [T1 T2]. set (f2 := if has f1 GLINE_REASON && _ then _ else _). assert (has f2 GLINE_EXPIRE = has f1 GLINE_EXPIRE /\ has f2 GLINE_LIFETIME = has f1 GLINE_LIFETIME) as [Ee El] by (unfold f2; case_if; [by split; apply has_ldiff|done]). set (act := modify_action now x action e1). case_if; [apply Same|].
  assert (bool_decide (act = GLINE_LOCAL_ACTIVATE) = false /\ bool_decide (act = GLINE_LOCAL_DEACTIVATE) = false) as [-> ->] by (unfold act, modify_action; case_if; split; by apply bool_decide_eq_false). cbn [orb]. set (y := match reason with Some s => _ | None => _ end).
  destruct (act_on_fields act (set_lastmod lastmod x)) as (A1 & A2 & A3 & A4 & A5 & A6 & A7). cbn [set_lastmod gl_user gl_host gl_ip gl_lastmod gl_lifetime gl_expire gl_flags] in *.
  assert (newer x y /\ gl_lastmod y = lastmod) as [Ny Ly].
  { unfold y. rewrite Ee, El. set (z := act_on act (set_lastmod lastmod x)) in *. assert (forall w, newer x w /\ gl_lastmod w = lastmod -> newer x (match reason with Some s => if has f2 GLINE_REASON then set_reason s w else w | None => w end) /\ gl_lastmod (match reason with Some s => if has f2 GLINE_REASON then set_reason s w else w | None => w end) = lastmod) as Rs by (intros w [[M1 M2 M3 M4 M5] M6]; destruct reason; [|by split]; destruct (has f2 GLINE_REASON); by split). apply Rs.
    destruct (has f1 GLINE_EXPIRE) eqn:H1, (has f1 GLINE_LIFETIME) eqn:H2; (split; [|by cbn]); split; cbn [set_expire set_lifetime gl_user gl_host gl_ip gl_flags gl_lastmod gl_lifetime gl_expire]; try done; rewrite ?A4, ?A5, ?A6; try lia; try (specialize (T1 eq_refl)); try (specialize (T2 eq_refl)); lia. }
  unfold modify, get. rewrite Hx. cbn [obind]. destruct (do_gline_ok disabled local y) as (fx & ->); [by apply (newer_wf x)|by apply (same_kind_ip x), Ix; apply newer_kind|]. cbn [obind]. eexists _, _, y. split_and!; [done|done|done|lia|by right].
Qed.
Lemma gline_modify_newer_witness : exists st' fx y, gline_modify 1000 false [] false false net_state 1 GLINE_DEACTIVATE None 9000 7 0 (Z.lor GLINE_EXPIRE GLINE_OPERFORCE) = Ok (st', fx) /\ glines st' = <[1%positive := y]> (glines net_state) /\ newer (MkGline (cstr "*") (Some (cstr "10.1.0.0/16")) (cstr "bye") 2000 5 2000 (Some (v4_addr 0x0a01 0, 112)) 3 GLOCAL_GLOBAL) y /\ (7 <= 5 -> y = MkGline (cstr "*") (Some (cstr "10.1.0.0/16")) (cstr "bye") 2000 5 2000 (Some (v4_addr 0x0a01 0, 112)) 3 GLOCAL_GLOBAL) /\ (y = MkGline (cstr "*") (Some (cstr "10.1.0.0/16")) (cstr "bye") 2000 5 2000 (Some (v4_addr 0x0a01 0, 112)) 3 GLOCAL_GLOBAL \/ gl_lastmod y = 7).
Proof. apply gline_modify_newer; [apply net_state_reach|by vm_compute|done|done]. Defined.
