(* ===== verification/ChanModes.v ===== *)
(** * The register of channel modes: [ircd/chan_modes.c], [include/chan_flags.h]

    A channel mode is a letter; its bit follows from the letter.  The register is the list
    of the modes the server knows, the core's and those of modules, in the order of the
    bits.  The nodes are only ever reached from the head, so the register is a list; the
    number of nodes is kept in the head node, as in the code. *)

From stdpp Require Import base list gmap sets strings sorting.
From Stdlib Require Import ZArith Lia Ascii.
From S2P Require Import Prelude Channel.

Local Open Scope ircu_scope.
Local Open Scope Z_scope.

(** ** [include/chan_flags.h] *)
Definition CHANMODE_LETTERS : Z := 52.
Definition ChanModeBit (c : ascii) : Z := if 97 <=? uchar c then uchar c - 97 + 26 else uchar c - 65.
Definition ChanModeCharInRange (c : ascii) : bool :=
  ((65 <=? uchar c) && (uchar c <=? 90)) || ((97 <=? uchar c) && (uchar c <=? 122)).
Definition CHANMODE_LETTER_MASK : Z := Z.shiftl 1 CHANMODE_LETTERS - 1.

Definition MODE_APASS : Z := Z.shiftl 1 0.
Definition MODE_NOCTCP : Z := Z.shiftl 1 2.
Definition MODE_DELJOINS : Z := Z.shiftl 1 3.
Definition MODE_MODERATENOREG : Z := Z.shiftl 1 12.
Definition MODE_REGISTERED : Z := Z.shiftl 1 17.
Definition MODE_UPASS : Z := Z.shiftl 1 20.
Definition MODE_BAN : Z := Z.shiftl 1 27.
Definition MODE_NOCOLOR : Z := Z.shiftl 1 28.
Definition MODE_KEY : Z := Z.shiftl 1 36.
Definition MODE_LIMIT : Z := Z.shiftl 1 37.
Definition MODE_MODERATED : Z := Z.shiftl 1 38.
Definition MODE_NOPRIVMSGS : Z := Z.shiftl 1 39.
Definition MODE_CHANOP : Z := Z.shiftl 1 40.
Definition MODE_PRIVATE : Z := Z.shiftl 1 41.
Definition MODE_REGONLY : Z := Z.shiftl 1 43.
Definition MODE_SECRET : Z := Z.shiftl 1 44.
Definition MODE_TOPICLIMIT : Z := Z.shiftl 1 45.
Definition MODE_NOPARTMSGS : Z := Z.shiftl 1 46.
Definition MODE_VOICE : Z := Z.shiftl 1 47.
Definition MODE_FREE : Z := Z.shiftl 1 60.
Definition MODE_SAVE : Z := Z.shiftl 1 61.
Definition MODE_DEL : Z := Z.shiftl 1 62.
Definition MODE_ADD : Z := Z.shiftl 1 63.

Definition CHANMODE_PARAM : Z := 0x01.
Definition CHANMODE_PARAM_SET : Z := 0x02.
Definition CHANMODE_LIST : Z := 0x04.
Definition CHANMODE_MEMBER : Z := 0x08.
Definition CHANMODE_LOCAL : Z := 0x10.
Definition CHANMODE_SERVERONLY : Z := 0x20.
Definition CHANMODE_INTERNAL : Z := 0x40.
Definition CHANMODE_OPLEVELS : Z := 0x80.
Definition CHANMODE_HIDDEN : Z := 0x100.

Definition CMODE_ALREADY_EXISTS : Z := 0x01.
Definition CMODE_INVALID_MODE : Z := 0x02.
Definition CMODE_APPEND_OK : Z := 0x04.
Definition CMODE_UNKNOWN_MODE : Z := 0x08.
Definition CMODE_CORE_MODE : Z := 0x10.
Definition CMODE_REMOVE_OK : Z := 0x20.

Definition CHANMODE_CHARS_LEN : nat := 64.

(** [m & f], as a condition *)
Definition any (m f : Z) : bool := negb (Z.land m f =? 0).

(** ** The register *)
Record ChanMode : Type := MkMode {
  flag : Z;
  chr : ascii;   (** [c] *)
  alt : ascii;
  attr : Z;
  count : Z
}.

Definition chanModeList : list ChanMode :=
  [ MkMode MODE_APASS "A" NUL (Z.lor CHANMODE_PARAM CHANMODE_OPLEVELS) 0
  ; MkMode MODE_NOCTCP "C" NUL 0 0
  ; MkMode MODE_DELJOINS "D" NUL 0 0
  ; MkMode MODE_MODERATENOREG "M" NUL 0 0
  ; MkMode MODE_REGISTERED "R" NUL CHANMODE_SERVERONLY 0
  ; MkMode MODE_UPASS "U" NUL (Z.lor CHANMODE_PARAM CHANMODE_OPLEVELS) 0
  ; MkMode MODE_TLSONLY "Z" NUL 0 0
  ; MkMode MODE_BAN "b" NUL (Z.lor CHANMODE_PARAM CHANMODE_LIST) 0
  ; MkMode MODE_NOCOLOR "c" NUL 0 0
  ; MkMode MODE_WASDELJOINS "d" NUL (Z.lor CHANMODE_LOCAL CHANMODE_INTERNAL) 0
  ; MkMode MODE_INVITEONLY "i" NUL 0 0
  ; MkMode MODE_KEY "k" NUL CHANMODE_PARAM 0
  ; MkMode MODE_LIMIT "l" NUL (Z.lor CHANMODE_PARAM CHANMODE_PARAM_SET) 0
  ; MkMode MODE_MODERATED "m" NUL 0 0
  ; MkMode MODE_NOPRIVMSGS "n" NUL 0 0
  ; MkMode MODE_CHANOP "o" NUL (Z.lor CHANMODE_PARAM CHANMODE_MEMBER) 0
  ; MkMode MODE_PRIVATE "p" NUL 0 0
  ; MkMode MODE_REGONLY "r" NUL 0 0
  ; MkMode MODE_SECRET "s" NUL 0 0
  ; MkMode MODE_TOPICLIMIT "t" NUL 0 0
  ; MkMode MODE_NOPARTMSGS "u" NUL 0 0
  ; MkMode MODE_VOICE "v" NUL (Z.lor CHANMODE_PARAM CHANMODE_MEMBER) 0
  ; MkMode MODE_TLSINSECURE "z" "Z" (Z.lor (Z.lor CHANMODE_LOCAL CHANMODE_INTERNAL) CHANMODE_HIDDEN) 0 ]%char.

Definition channel_chan_mode_flag (c : ascii) : Z :=
  if negb (ChanModeCharInRange c) then 0 else Z.shiftl 1 (ChanModeBit c).

(** In front of the first node whose bit is not lower. *)
Fixpoint link_in (m : ChanMode) (l : list ChanMode) : list ChanMode :=
  match l with
  | [] => [m]
  | p :: r => if flag p <? flag m then p :: link_in m r else m :: l
  end.
Definition set_count (l : list ChanMode) : list ChanMode :=
  match l with
  | [] => []
  | p :: r => MkMode (flag p) (chr p) (alt p) (attr p) (Z.of_nat (length l)) :: r
  end.
Definition chan_mode_link (m : ChanMode) (l : list ChanMode) : list ChanMode := set_count (link_in m l).

Definition channel_init_chan_modes (l : list ChanMode) : list ChanMode :=
  match l with
  | [] => fold_left (fun l m => chan_mode_link m l) chanModeList []
  | _ => l
  end.

Fixpoint channel_find_chan_mode (l : list ChanMode) (x : ascii) : option ChanMode :=
  match l with
  | [] => None
  | p :: r => if chr p =c x then Some p else channel_find_chan_mode r x
  end.

Definition channel_check_chan_mode (l : list ChanMode) (x : ascii) (f : Z) : Z :=
  if negb (ChanModeCharInRange x) || (f =? 0) || negb (f =? channel_chan_mode_flag x) || any f (Z.lnot CHANMODE_LETTER_MASK)
  then CMODE_INVALID_MODE
  else match channel_find_chan_mode l x with Some _ => CMODE_ALREADY_EXISTS | None => 0 end.

Definition channel_append_chan_mode (l : list ChanMode) (x : ascii) (f : Z) : list ChanMode * Z :=
  let check := channel_check_chan_mode l x f in
  if negb (check =? 0) then (l, check)
  else (chan_mode_link (MkMode f x NUL 0 0) l, CMODE_APPEND_OK).

Fixpoint unlink_mode (x : ascii) (l : list ChanMode) : list ChanMode :=
  match l with
  | [] => []
  | p :: r => if chr p =c x then r else p :: unlink_mode x r
  end.

(** [announce] takes the mode off the channels that carry it while it is still registered. *)
Definition channel_remove_chan_mode {S : Type} (announce : S -> list ChanMode -> ChanMode -> S) (s : S) (l : list ChanMode) (x : ascii) :
    S * list ChanMode * Z :=
  if negb (ChanModeCharInRange x) then (s, l, CMODE_INVALID_MODE)
  else if existsb (fun m => chr m =c x) chanModeList then (s, l, CMODE_CORE_MODE)
  else
    match channel_find_chan_mode l x with
    | None => (s, l, CMODE_UNKNOWN_MODE)
    | Some m => (announce s l m, set_count (unlink_mode x l), CMODE_REMOVE_OK)
    end.

(** ** The modes as text *)
Section Text.
Context (oplevels : bool).   (** [FEAT_OPLEVELS] *)

Definition left_out (p : ChanMode) : bool := any (attr p) CHANMODE_OPLEVELS && negb oplevels.

(** [for (p = ChanModeList; p && len + 1 < sizeof(buf); p = p->next)] *)
Fixpoint chars_loop (skip : ChanMode -> bool) (l : list ChanMode) (slack size : nat) (buf : list ascii) : list ascii :=
  match l with
  | [] => buf
  | p :: r =>
      if (length buf + slack <? size)%nat then
        chars_loop skip r slack size (if skip p then buf else buf ++ [chr p])
      else buf
  end.

Definition channel_chan_mode_chars (l : list ChanMode) : list ascii := chars_loop left_out l 1 CHANMODE_CHARS_LEN [].
Definition channel_chan_mode_param_chars (l : list ChanMode) : list ascii :=
  chars_loop (fun p => negb (any (attr p) CHANMODE_PARAM) || left_out p) l 1 CHANMODE_CHARS_LEN [].

Definition groups : list Z := [CHANMODE_LIST; CHANMODE_PARAM; CHANMODE_PARAM_SET; 0].
Definition not_in_group (g : Z) (p : ChanMode) : bool :=
  any (attr p) (Z.lor CHANMODE_MEMBER CHANMODE_HIDDEN) || left_out p
  || if any (attr p) CHANMODE_LIST then negb (g =? CHANMODE_LIST)
     else if any (attr p) CHANMODE_PARAM_SET then negb (g =? CHANMODE_PARAM_SET)
     else if any (attr p) CHANMODE_PARAM then negb (g =? CHANMODE_PARAM)
     else negb (g =? 0).
Fixpoint supported_loop (l : list ChanMode) (gs : list Z) (i : nat) (buf : list ascii) : list ascii :=
  match gs with
  | [] => buf
  | g :: gs =>
      let buf := match i with O => buf | S _ => buf ++ [","%char] end in
      supported_loop l gs (S i) (chars_loop (not_in_group g) l 2 (CHANMODE_CHARS_LEN * 4) buf)
  end.
Definition channel_chanmodes_supported (l : list ChanMode) : list ascii := supported_loop l groups 0 [].
End Text.

(** ** What the register holds *)
Inductive reg_op : Type :=
| Append (x : ascii) (f : Z)
| Remove (x : ascii).

Definition run_reg {S : Type} (announce : S -> list ChanMode -> ChanMode -> S) (a : S * list ChanMode) (o : reg_op) : S * list ChanMode :=
  match o with
  | Append x f => (a.1, (channel_append_chan_mode a.2 x f).1)
  | Remove x => (channel_remove_chan_mode announce a.1 a.2 x).1
  end.
Definition run_regs {S : Type} (announce : S -> list ChanMode -> ChanMode -> S) (s : S) (ops : list reg_op) : S * list ChanMode :=
  fold_left (run_reg announce) ops (s, channel_init_chan_modes []).

(** All letters in the order of their bits. *)
Definition alphabet : list ascii := map ascii_of_nat (seq 65 26 ++ seq 97 26).

Definition core_mode (x : ascii) : option ChanMode := List.find (fun m => chr m =c x) chanModeList.

(** The letters modules hold after [ops]. *)
Definition spec_reg (s : gset ascii) (o : reg_op) : gset ascii :=
  match o with
  | Append x f =>
      if ChanModeCharInRange x && (f =? channel_chan_mode_flag x) && match core_mode x with Some _ => false | None => true end
      then {[ x ]} ∪ s else s
  | Remove x => s ∖ {[ x ]}
  end.

(** The mode of a letter, its count left out. *)
Definition mode_of (s : gset ascii) (x : ascii) : option ChanMode :=
  match core_mode x with
  | Some m => Some m
  | None => if decide (x ∈ s) then Some (MkMode (channel_chan_mode_flag x) x NUL 0 0) else None
  end.
Definition key_of (m : ChanMode) : ChanMode := MkMode (flag m) (chr m) (alt m) (attr m) 0.

Definition holds (s : gset ascii) (l : list ChanMode) : Prop :=
  map key_of l = omap (mode_of s) alphabet /\
  match l with [] => False | p :: _ => count p = Z.of_nat (length l) end.

Definition before (x y : ascii) : bool := channel_chan_mode_flag x <? channel_chan_mode_flag y.
Fixpoint ascending (l : list ascii) : bool :=
  match l with [] => true | x :: r => forallb (before x) r && ascending r end.

Lemma alphabet_ascending : ascending alphabet = true.
Proof. vm_compute. reflexivity. Qed.

Lemma in_alphabet (x : ascii) : ChanModeCharInRange x = true <-> x ∈ alphabet.
Proof.
  assert (ChanModeCharInRange x = existsb (Ascii.eqb x) alphabet) as ->.
  { apply (proj1 (Bool.eqb_true_iff _ _)).
    apply (forall_chars (fun x => Bool.eqb (ChanModeCharInRange x) (existsb (Ascii.eqb x) alphabet)) x). vm_compute. reflexivity. }
  rewrite existsb_exists, list_elem_of_In. split; [intros (y & Hy & E%Ascii.eqb_eq); by subst|]. intros H. exists x. by rewrite Ascii.eqb_refl.
Qed.

(** The core's modes are on the bits of their letters. *)
Lemma core_mode_ok (x : ascii) (m : ChanMode) : core_mode x = Some m ->
  chr m = x /\ flag m = channel_chan_mode_flag x /\ count m = 0 /\ ChanModeCharInRange x = true.
Proof.
  intros H.
  assert (forallb (fun x => match core_mode x with
    | Some m => (chr m =c x) && (flag m =? channel_chan_mode_flag x) && (count m =? 0) && ChanModeCharInRange x
    | None => true end) all_chars = true) as A by (vm_compute; reflexivity).
  rewrite forallb_forall in A. specialize (A x (in_all_chars x)). rewrite H in A. by reflect.
Qed.

Lemma mode_of_ok (s : gset ascii) (x : ascii) (m : ChanMode) : mode_of s x = Some m ->
  chr m = x /\ flag m = channel_chan_mode_flag x /\ key_of m = m.
Proof.
  unfold mode_of. destruct (core_mode x) as [m'|] eqn:E; [intros [= ->]|case_decide; intros [= <-]; done].
  destruct (core_mode_ok _ _ E) as (E1 & E2 & E3 & _). split_and!; [done..|]. destruct m. cbn in *. by subst.
Qed.

Lemma before_lt (x y : ascii) : before x y = true -> channel_chan_mode_flag x < channel_chan_mode_flag y.
Proof. unfold before. intros H. by reflect. Qed.

(** A later letter is linked in behind. *)
Lemma mode_of_add (s : gset ascii) (x y : ascii) : x <> y -> mode_of ({[ x ]} ∪ s) y = mode_of s y.
Proof. intros N. unfold mode_of. destruct (core_mode y); [done|]. repeat case_decide; set_solver. Qed.

Lemma omap_add (s : gset ascii) (x : ascii) (A : list ascii) : x ∉ A -> omap (mode_of ({[ x ]} ∪ s)) A = omap (mode_of s) A.
Proof.
  induction A as [|a A IH]; intros N; [done|]. cbn [omap list_omap]. rewrite mode_of_add by set_solver. destruct (mode_of s a); rewrite ?IH; set_solver.
Qed.

Lemma link_entries (s : gset ascii) (x : ascii) (n : ChanMode) : mode_of s x = None -> core_mode x = None -> n = MkMode (channel_chan_mode_flag x) x NUL 0 0 ->
  forall A l, ascending A = true -> x ∈ A -> map key_of l = omap (mode_of s) A ->
  map key_of (link_in n l) = omap (mode_of ({[ x ]} ∪ s)) A.
Proof.
  intros Ms Mc En. assert (mode_of ({[ x ]} ∪ s) x = Some n) as Mn by (unfold mode_of; rewrite Mc, decide_True, En by set_solver; done).
  induction A as [|a A IH]; intros l As Hx El; [set_solver|]. cbn [ascending] in As. reflect. cbn [omap list_omap] in *.
  destruct (decide (a = x)) as [->|N].
  - rewrite Mn, Ms in *. assert (x ∉ A) as Nx.
    { intros Hi. apply forallb_forall with (x := x) in H; [|by apply list_elem_of_In]. apply before_lt in H. lia. }
    rewrite omap_add by done. rewrite <- El. destruct l as [|p l]; [by rewrite En|]. cbn [link_in].
    assert (flag n < flag p) as Lt.
    { cbn [map] in El. assert (key_of p ∈ omap (mode_of s) A) as Hp by (rewrite <- El; left). apply list_elem_of_omap in Hp as (y & Hy & Ey).
      apply mode_of_ok in Ey as (_ & Ef & _). cbn in Ef. rewrite Ef, En. apply before_lt. rewrite forallb_forall in H. by apply H, list_elem_of_In. }
    destruct (Z.ltb_spec (flag p) (flag n)); [lia|]. cbn [map]. f_equal. by rewrite En.
  - rewrite mode_of_add by done. assert (x ∈ A) as Hx' by set_solver.
    destruct (mode_of s a) as [m|] eqn:Ea; [|by apply IH].
    destruct l as [|p l]; [done|]. cbn [map] in El. injection El as Ep El. cbn [link_in].
    apply mode_of_ok in Ea as (_ & Ef & _). rewrite <- Ep in Ef. cbn in Ef.
    rewrite forallb_forall in H. specialize (H x (proj1 (list_elem_of_In _ _) Hx')). apply before_lt in H.
    destruct (Z.ltb_spec (flag p) (flag n)); [|rewrite En in *; cbn in *; lia]. cbn [map]. rewrite Ep. f_equal. by apply IH.
Qed.

Lemma ascending_notin (a : ascii) (A : list ascii) : ascending (a :: A) = true -> a ∉ A.
Proof.
  cbn [ascending]. intros H Hi. reflect. rewrite forallb_forall in H. specialize (H a (proj1 (list_elem_of_In _ _) Hi)).
  apply before_lt in H. lia.
Qed.

Lemma find_entries (s : gset ascii) (x : ascii) : forall A l, map key_of l = omap (mode_of s) A ->
  option_map key_of (channel_find_chan_mode l x) = if decide (x ∈ A) then mode_of s x else None.
Proof.
  induction A as [|a A IH]; intros l El; cbn [omap list_omap] in El; [by destruct l|].
  destruct (mode_of s a) as [m|] eqn:Ea.
  - destruct l as [|p l]; [done|]. cbn [map] in El. injection El as Ep El. cbn [channel_find_chan_mode].
    assert (chr p = a) as Ec by (apply mode_of_ok in Ea as (E & _); by rewrite <- Ep in E).
    destruct (Ascii.eqb_spec (chr p) x) as [E|N].
    + subst x. rewrite Ec, decide_True by set_solver. cbn. by rewrite Ep.
    + rewrite (IH l El). destruct (decide (x ∈ A)); destruct (decide (x ∈ a :: A)); set_solver.
  - rewrite (IH l El). destruct (decide (x ∈ A)); destruct (decide (x ∈ a :: A)); set_solver.
Qed.

Lemma omap_remove (s : gset ascii) (x : ascii) (A : list ascii) : x ∉ A -> omap (mode_of (s ∖ {[ x ]})) A = omap (mode_of s) A.
Proof.
  induction A as [|a A IH]; intros N; [done|]. cbn [omap list_omap].
  assert (mode_of (s ∖ {[ x ]}) a = mode_of s a) as -> by (unfold mode_of; destruct (core_mode a); [done|]; repeat case_decide; set_solver).
  destruct (mode_of s a); rewrite ?IH; set_solver.
Qed.

Lemma unlink_entries (s : gset ascii) (x : ascii) : core_mode x = None -> forall A l, ascending A = true -> map key_of l = omap (mode_of s) A ->
  map key_of (unlink_mode x l) = omap (mode_of (s ∖ {[ x ]})) A.
Proof.
  intros Mc. assert (mode_of (s ∖ {[ x ]}) x = None) as Mx by (unfold mode_of; rewrite Mc, decide_False by set_solver; done).
  induction A as [|a A IH]; intros l As El; [by destruct l|]. pose proof (ascending_notin _ _ As) as Na.
  cbn [ascending] in As. reflect. cbn [omap list_omap] in *. destruct (decide (a = x)) as [->|N].
  - rewrite Mx, omap_remove by done. destruct (mode_of s x) as [m|] eqn:Ex.
    + destruct l as [|p l]; [done|]. cbn [map] in El. injection El as Ep El. cbn [unlink_mode].
      assert (chr p = x) as -> by (apply mode_of_ok in Ex as (E & _); by rewrite <- Ep in E). by rewrite Ascii.eqb_refl.
    + rewrite <- El. rewrite (IH l H0 El). by rewrite omap_remove.
  - assert (mode_of (s ∖ {[ x ]}) a = mode_of s a) as -> by (unfold mode_of; destruct (core_mode a); [done|]; repeat case_decide; set_solver).
    destruct (mode_of s a) as [m|] eqn:Ea; [|by apply IH].
    destruct l as [|p l]; [done|]. cbn [map] in El. injection El as Ep El. cbn [unlink_mode].
    assert (chr p = a) as Ec by (apply mode_of_ok in Ea as (E & _); by rewrite <- Ep in E).
    destruct (Ascii.eqb_spec (chr p) x) as [E|_]; [congruence|]. cbn [map]. rewrite Ep. f_equal. by apply IH.
Qed.

Lemma set_count_keys (l : list ChanMode) : map key_of (set_count l) = map key_of l.
Proof. by destruct l. Qed.
Lemma set_count_length (l : list ChanMode) : length (set_count l) = length l.
Proof. by destruct l. Qed.

Lemma holds_count (s : gset ascii) (l : list ChanMode) : map key_of l = omap (mode_of s) alphabet -> holds s (set_count l).
Proof.
  intros E. split; [by rewrite set_count_keys|]. destruct l as [|p l]; [|done]. exfalso.
  assert (is_Some (mode_of s "A"%char)) as [m Hm] by (unfold mode_of; cbn; eauto).
  assert (m ∈ omap (mode_of s) alphabet) as H by (apply list_elem_of_omap; exists "A"%char; split; [by apply in_alphabet|exact Hm]).
  rewrite <- E in H. by apply not_elem_of_nil in H.
Qed.

#[local] Opaque alphabet.

Lemma init_holds : holds ∅ (channel_init_chan_modes []).
Proof. split; [vm_compute; reflexivity|vm_compute; reflexivity]. Qed.

Lemma find_holds (s : gset ascii) (l : list ChanMode) (x : ascii) : holds s l ->
  option_map key_of (channel_find_chan_mode l x) = if ChanModeCharInRange x then mode_of s x else None.
Proof.
  intros [E _]. rewrite (find_entries s x alphabet l E). destruct (ChanModeCharInRange x) eqn:R.
  - rewrite decide_True by (by apply in_alphabet). done.
  - rewrite decide_False; [done|]. intros H%in_alphabet. congruence.
Qed.

Lemma core_mode_none (x : ascii) : existsb (fun m => chr m =c x) chanModeList = false -> core_mode x = None.
Proof.
  intros H. destruct (core_mode x) as [m|] eqn:E; [|done]. apply List.find_some in E as [H1 H2].
  assert (existsb (fun m => chr m =c x) chanModeList = true) as T by (apply existsb_exists; eauto). congruence.
Qed.
Lemma core_mode_some (x : ascii) : existsb (fun m => chr m =c x) chanModeList = true -> is_Some (core_mode x).
Proof.
  intros (m & H1 & H2)%existsb_exists. destruct (core_mode x) as [m'|] eqn:E; [eauto|]. apply (List.find_none _ _ E) in H1. congruence.
Qed.

Lemma flag_letter (x : ascii) : ChanModeCharInRange x = true ->
  channel_chan_mode_flag x <> 0 /\ any (channel_chan_mode_flag x) (Z.lnot CHANMODE_LETTER_MASK) = false.
Proof.
  intros R.
  assert (forallb (fun x => if ChanModeCharInRange x then negb (channel_chan_mode_flag x =? 0) && negb (any (channel_chan_mode_flag x) (Z.lnot CHANMODE_LETTER_MASK)) else true) all_chars = true) as A
    by (vm_compute; reflexivity).
  rewrite forallb_forall in A. specialize (A x (in_all_chars x)). rewrite R in A. reflect. done.
Qed.

Lemma run_holds {S : Type} (announce : S -> list ChanMode -> ChanMode -> S) (a : S * list ChanMode) (s : gset ascii) (o : reg_op) :
  holds s a.2 -> holds (spec_reg s o) (run_reg announce a o).2.
Proof.
  intros H. pose proof (find_holds s a.2) as F. destruct o as [x f|x]; cbn [run_reg spec_reg snd].
  - unfold channel_append_chan_mode, channel_check_chan_mode. specialize (F x H).
    destruct (ChanModeCharInRange x) eqn:R; cbn [negb andb orb]; [|done]. destruct (flag_letter x R) as [Nz Nr].
    destruct (Z.eqb_spec f (channel_chan_mode_flag x)) as [->|N]; cbn [negb andb orb].
    + rewrite Nr, (proj2 (Z.eqb_neq _ _) Nz). cbn [negb andb orb]. unfold mode_of in F.
      destruct (core_mode x) as [m|] eqn:Ec; [destruct (channel_find_chan_mode a.2 x); [exact H|discriminate F]|].
      destruct (decide (x ∈ s)) as [Hx|Hx].
      * assert ({[ x ]} ∪ s = s) as -> by set_solver. destruct (channel_find_chan_mode a.2 x); [exact H|discriminate F].
      * destruct (channel_find_chan_mode a.2 x); [discriminate F|]. rewrite Z.eqb_refl. cbn [negb fst]. apply holds_count. apply (link_entries s x (MkMode (channel_chan_mode_flag x) x NUL 0 0)).
        -- unfold mode_of. rewrite Ec, decide_False; done.
        -- exact Ec.
        -- reflexivity.
        -- apply alphabet_ascending.
        -- by apply in_alphabet.
        -- apply H.
    + rewrite orb_true_r. done.
  - unfold channel_remove_chan_mode. specialize (F x H). destruct (ChanModeCharInRange x) eqn:R; cbn [negb].
    + destruct (existsb _ chanModeList) eqn:Ec.
      * apply core_mode_some in Ec as [m Ec]. destruct H as [H1 H2]. split; [|done]. cbn [fst snd]. rewrite H1. apply list_omap_ext. apply Forall2_same_length_lookup_2; [done|].
        intros i y z Ey Ez. rewrite Ey in Ez. injection Ez as <-. unfold mode_of. destruct (core_mode y) eqn:Ey'; [done|]. repeat case_decide; try done; [|set_solver].
        exfalso. assert (y <> x) by congruence. set_solver.
      * apply core_mode_none in Ec. destruct (channel_find_chan_mode a.2 x) as [m|] eqn:Ef; cbn [fst snd].
        -- apply holds_count. apply unlink_entries; [done|apply alphabet_ascending|apply H].
        -- unfold mode_of in F. rewrite Ec in F. case_decide; [discriminate F|]. assert (s ∖ {[ x ]} = s) as -> by set_solver. exact H.
    + destruct H as [H1 H2]. split; [|done]. cbn [fst snd]. rewrite H1. symmetry. apply omap_remove. intros Hi%in_alphabet. congruence.
Qed.

Lemma chars_spec (skip : ChanMode -> bool) (slack size : nat) : forall l buf, (length buf + length l + slack <= size)%nat ->
  chars_loop skip l slack size buf = buf ++ map chr (List.filter (fun p => negb (skip p)) l).
Proof.
  induction l as [|p l IH]; intros buf L; cbn [chars_loop List.filter map length] in *; [by rewrite app_nil_r|].
  destruct (Nat.ltb_spec (length buf + slack) size); [|lia]. destruct (skip p); cbn [negb].
  - apply IH. lia.
  - rewrite IH by (rewrite length_app; cbn; lia). cbn [map]. by rewrite <- app_assoc.
Qed.

Lemma omap_length {A B : Type} (f : A -> option B) (l : list A) : (length (omap f l) <= length l)%nat.
Proof. induction l as [|a l IH]; cbn; [lia|]. destruct (f a); cbn; lia. Qed.

Lemma holds_length (s : gset ascii) (l : list ChanMode) : holds s l -> (length l <= 52)%nat.
Proof.
  intros [E _]. assert (length (map key_of l) = length l) as <- by apply length_map. rewrite E.
  pose proof (omap_length (mode_of s) alphabet) as H. assert (length alphabet = 52%nat) as L by (vm_compute; reflexivity). lia.
Qed.

Definition letters (skip : ChanMode -> bool) (l : list ChanMode) : list ascii := map chr (List.filter (fun p => negb (skip p)) l).
Lemma letters_length (skip : ChanMode -> bool) (l : list ChanMode) : (length (letters skip l) <= length l)%nat.
Proof. unfold letters. rewrite length_map. apply filter_length_le. Qed.

(** The four groups of [CHANMODES=], the commas between them. *)
Lemma supported_spec (oplevels : bool) (l : list ChanMode) : (length l <= 52)%nat ->
  let g n := letters (not_in_group oplevels n) l in
  channel_chanmodes_supported oplevels l = g CHANMODE_LIST ++ ","%char :: g CHANMODE_PARAM ++ ","%char :: g CHANMODE_PARAM_SET ++ ","%char :: g 0.
Proof.
  intros L g. assert (forall n, (length (g n) <= 52)%nat) as G by (intros n; pose proof (letters_length (not_in_group oplevels n) l); unfold g; lia).
  unfold channel_chanmodes_supported, groups. cbn [supported_loop]. change (map chr (List.filter (fun p => negb (not_in_group oplevels ?n p)) l)) with (g n).
  pose proof (G CHANMODE_LIST). pose proof (G CHANMODE_PARAM). pose proof (G CHANMODE_PARAM_SET). unfold CHANMODE_CHARS_LEN.
  assert (forall n buf, (length buf <= 200)%nat -> chars_loop (not_in_group oplevels n) l 2 (64 * 4) buf = buf ++ g n) as C by (intros n buf Lb; rewrite chars_spec by lia; done).
  rewrite (C CHANMODE_LIST) by (cbn; lia). cbn [app]. rewrite (C CHANMODE_PARAM) by (rewrite length_app; cbn; lia). rewrite (C CHANMODE_PARAM_SET) by (rewrite !length_app; cbn; lia). rewrite (C 0) by (rewrite !length_app; cbn; lia).
  by rewrite <- !app_assoc.
Qed.

(** What a module is told. *)
Lemma append_answer (s : gset ascii) (l : list ChanMode) (x : ascii) (f : Z) : holds s l ->
  (channel_append_chan_mode l x f).2 = (if ChanModeCharInRange x && (f =? channel_chan_mode_flag x) then match mode_of s x with Some _ => CMODE_ALREADY_EXISTS | None => CMODE_APPEND_OK end else CMODE_INVALID_MODE).
Proof.
  intros H. pose proof (find_holds s l x H) as F. unfold channel_append_chan_mode, channel_check_chan_mode. destruct (ChanModeCharInRange x) eqn:R; cbn [negb andb orb]; [|done]. destruct (flag_letter x R) as [Nz Nr].
  destruct (Z.eqb_spec f (channel_chan_mode_flag x)) as [->|N]; cbn [negb andb orb]; [|by rewrite orb_true_r]. rewrite Nr, (proj2 (Z.eqb_neq _ _) Nz). cbn [orb]. destruct (channel_find_chan_mode l x), (mode_of s x); done.
Qed.
Lemma remove_answer {S : Type} (announce : S -> list ChanMode -> ChanMode -> S) (a : S) (s : gset ascii) (l : list ChanMode) (x : ascii) : holds s l ->
  (channel_remove_chan_mode announce a l x).2 = (if ChanModeCharInRange x then match core_mode x with Some _ => CMODE_CORE_MODE | None => if decide (x ∈ s) then CMODE_REMOVE_OK else CMODE_UNKNOWN_MODE end else CMODE_INVALID_MODE).
Proof.
  intros H. pose proof (find_holds s l x H) as F. unfold channel_remove_chan_mode. destruct (ChanModeCharInRange x); cbn [negb]; [|done]. unfold mode_of in F.
  destruct (existsb _ chanModeList) eqn:Ec; [by apply core_mode_some in Ec as [m ->]|]. apply core_mode_none in Ec. rewrite Ec in *. case_decide; by destruct (channel_find_chan_mode l x).
Qed.

