(* ===== verification/ModeBuf.v ===== *)
(** * Mode buffers: [modebuf_init] to [modebuf_extract] of [ircd/channel.c]

    Changes of modes are collected in a [struct ModeBuf] and rendered by
    [modebuf_flush_int] into the texts that go to the members of the channel, to the
    operators and to the other servers.  The text buffers keep the sizes they have on the
    stack: writing behind one is [Oob].  The argument of a mode is a union; reading another
    member of it than the one stored is [Oob] too.  A string is either a text that stays
    as it is (a parameter of the command, a copy of a ban) or a pointer to the key or a
    password inside the channel, whose contents are those at the time it is read. *)

From stdpp Require Import base list gmap sets strings.
From Stdlib Require Import ZArith Lia Ascii.
From S2P Require Import Prelude AddrText Channel ChanModes.

Local Open Scope ircu_scope.
Local Open Scope Z_scope.

Definition MAXMODEPARAMS : nat := 6.
Definition MAXOPLEVEL : Z := 999.
Definition BUFSIZE : nat := 512.

Definition MODEBUF_DEST_CHANNEL : Z := 0x00001.
Definition MODEBUF_DEST_SERVER : Z := 0x00002.
Definition MODEBUF_DEST_OPMODE : Z := 0x00100.
Definition MODEBUF_DEST_DEOP : Z := 0x00200.
Definition MODEBUF_DEST_BOUNCE : Z := 0x00400.
Definition MODEBUF_DEST_LOG : Z := 0x00800.
Definition MODEBUF_DEST_HACK2 : Z := 0x02000.
Definition MODEBUF_DEST_HACK3 : Z := 0x04000.
Definition MODEBUF_DEST_HACK4 : Z := 0x08000.
Definition MODEBUF_DEST_NOKEY : Z := 0x10000.

(** [a & ~b] *)
Definition without (a b : Z) : Z := Z.ldiff a b.

Inductive field : Type := FKey | FUpass | FApass.
Inductive text : Type :=
| Text (s : list ascii)
| Own (f : field).            (** [chptr->mode.key], [.upass], [.apass] *)

(** [mbm_arg] *)
Inductive marg : Type :=
| MUint (n : Z)
| MString (t : text)
| MClient (u : cid).

Record slot : Type := Slot {
  mbm_type : Z;
  mbm_arg : marg;
  mbm_oplevel : Z
}.

Record ModeBuf : Type := MkBuf {
  mb_add : Z;
  mb_rem : Z;
  mb_source : cid;
  mb_connect : option cid;
  mb_channel : chid;
  mb_dest : Z;
  mb_count : nat;
  mb_modeargs : list slot
}.

Definition set_type (s : slot) (t : Z) : slot := Slot t (mbm_arg s) (mbm_oplevel s).
Definition set_bits (mb : ModeBuf) (a r : Z) : ModeBuf :=
  MkBuf a r (mb_source mb) (mb_connect mb) (mb_channel mb) (mb_dest mb) (mb_count mb) (mb_modeargs mb).
Definition set_dest (mb : ModeBuf) (d : Z) : ModeBuf :=
  MkBuf (mb_add mb) (mb_rem mb) (mb_source mb) (mb_connect mb) (mb_channel mb) d (mb_count mb) (mb_modeargs mb).
Definition set_args (mb : ModeBuf) (n : nat) (l : list slot) : ModeBuf :=
  MkBuf (mb_add mb) (mb_rem mb) (mb_source mb) (mb_connect mb) (mb_channel mb) (mb_dest mb) n l.

(** ** What leaves the server *)
Inductive origin : Type := His | From (u : cid) | Me.
Inductive target : Type :=
| Hack (n : Z)                               (** a notice to operators *)
| OperLog
| Members                                    (** the local members of the channel *)
| Servers (opmode : bool) (but : option cid) (** all servers but the one it came from *)
| Back (link : cid).                         (** bounced *)

Record Sent : Type := MkSent {
  s_to : target;
  s_from : origin;
  s_minus : list ascii;
  s_plus : list ascii;
  s_params : list ascii;
  s_ts : option Z
}.

Inductive action : Type :=
| Send (m : Sent)
| Free (t : text).

Definition sign (x : ascii) (letters : list ascii) : list ascii := match letters with [] => [] | _ => x :: letters end.
(** The text behind the name of the channel, without the time stamp. *)
Definition sent_text (m : Sent) : list ascii := sign "-" (s_minus m) ++ sign "+" (s_plus m) ++ s_params m.

(** ** Arguments *)
Definition own_text (ch : Channel) (f : field) : list ascii :=
  match f with FKey => key ch | FUpass => upass ch | FApass => apass ch end.
Definition MB_STRING (ch : Channel) (s : slot) : outcome (list ascii) :=
  match mbm_arg s with
  | MString (Text t) => Ok t
  | MString (Own f) => Ok (own_text ch f)
  | _ => Oob
  end.
Definition MB_CLIENT (s : slot) : outcome cid := match mbm_arg s with MClient u => Ok u | _ => Oob end.
Definition MB_UINT (s : slot) : outcome Z := match mbm_arg s with MUint n => Ok n | _ => Oob end.

(** ** Buffers on the stack *)
Record letters : Type := MkLetters {
  addbuf : list ascii;
  rembuf : list ascii;
  addbuf_local : list ascii;
  rembuf_local : list ascii;
  addbuf_global : list ascii;
  rembuf_global : list ascii
}.
Definition no_letters : letters := MkLetters [] [] [] [] [] [].

(** [buf[buf_i++] = x] *)
Definition put (buf : list ascii) (x : ascii) : outcome (list ascii) :=
  if (length buf <? CHANMODE_CHARS_LEN)%nat then Ok (buf ++ [x]) else Oob.
Definition put_add (b : letters) (x : ascii) : outcome letters :=
  let* l := put (addbuf b) x in Ok (MkLetters l (rembuf b) (addbuf_local b) (rembuf_local b) (addbuf_global b) (rembuf_global b)).
Definition put_rem (b : letters) (x : ascii) : outcome letters :=
  let* l := put (rembuf b) x in Ok (MkLetters (addbuf b) l (addbuf_local b) (rembuf_local b) (addbuf_global b) (rembuf_global b)).
Definition put_dir (adding : bool) (b : letters) (x : ascii) : outcome letters := if adding then put_add b x else put_rem b x.
(** The letter of a mode that is shown to local clients only, and the one servers get. *)
Definition put_local (adding : bool) (b : letters) (x y : ascii) : outcome letters :=
  if adding then
    let* l := put (addbuf_local b) x in
    let* g := if y =c NUL then Ok (addbuf_global b) else put (addbuf_global b) y in
    Ok (MkLetters (addbuf b) (rembuf b) l (rembuf_local b) g (rembuf_global b))
  else
    let* l := put (rembuf_local b) x in
    let* g := if y =c NUL then Ok (rembuf_global b) else put (rembuf_global b) y in
    Ok (MkLetters (addbuf b) (rembuf b) (addbuf_local b) l (addbuf_global b) g).
Definition closed (buf : list ascii) : bool := (length buf <? CHANMODE_CHARS_LEN)%nat.
(** [addbuf[addbuf_i] = '\0'] and the other five *)
Definition terminate (b : letters) : outcome unit :=
  if closed (addbuf b) && closed (rembuf b) && closed (addbuf_local b) && closed (rembuf_local b) && closed (addbuf_global b) && closed (rembuf_global b)
  then Ok tt else Oob.

(** [size] is that of the buffer. *)
Definition build_string (size : nat) (strptr str1 str2 : list ascii) (x : ascii) : outcome (list ascii) :=
  let r := strptr ++ (if x =c NUL then [] else [x]) ++ str1 ++ str2 in
  if (length r <? size)%nat then Ok r else Oob.

(** ** Collecting changes *)
Section Modes.
Context (reg : list ChanMode).                             (** [ChanModeList] *)
Context (IsServer IsMe : cid -> bool).
Context (get_secure_group_id : cid -> Z).
Context (cli_name : cid -> list ascii).
Context (NumNick : cid -> list ascii * list ascii).        (** the numerics of server and client *)
Context (chname : chid -> list ascii).
Context (his_modewho his_snotices : bool).                 (** [FEAT_HIS_MODEWHO], [FEAT_HIS_SNOTICES] *)

Definition chan_simple_modes : Z :=
  fold_left (fun mask p => if any (attr p) (Z.lor CHANMODE_PARAM CHANMODE_MEMBER) then mask else Z.lor mask (flag p)) reg 0.

Definition IsLocalChannel (name : list ascii) : bool := deref name =c "&".

Definition modebuf_init (source : cid) (connect : option cid) (chan : chid) (dest : Z) : ModeBuf :=
  MkBuf 0 0 source connect chan (if IsLocalChannel (chname chan) then without dest MODEBUF_DEST_SERVER else dest) 0
    (repeat (Slot 0 (MUint 0) 0) MAXMODEPARAMS).

Definition modebuf_mode (mb : ModeBuf) (mode : Z) : ModeBuf :=
  let mode := Z.land mode (Z.lor (Z.lor MODE_ADD MODE_DEL) chan_simple_modes) in
  if without mode (Z.lor MODE_ADD MODE_DEL) =? 0 then mb
  else if any mode MODE_ADD then set_bits mb (Z.lor (mb_add mb) mode) (without (mb_rem mb) mode)
  else set_bits mb (without (mb_add mb) mode) (Z.lor (mb_rem mb) mode).

(** ** Rendering *)

(** The changes the flush itself makes: [+d] with [-D], [-d] with [+D], [+z] for [+Z] and [-z]
    for [-Z]. *)
Definition flush_deljoins (st : state) (mb : ModeBuf) : outcome (state * ModeBuf) :=
  let* ch := load_chan st (mb_channel mb) in
  let* (st, mb) :=
    if any (mb_rem mb) MODE_DELJOINS && negb (has_mode ch (Z.lor MODE_DELJOINS MODE_WASDELJOINS)) then
      let* some := find_delayed_joins st ch in
      if some then
        Ok (set_chan st (mb_channel mb) (set_mode ch (Z.lor (mode ch) MODE_WASDELJOINS)),
            set_bits mb (Z.lor (mb_add mb) MODE_WASDELJOINS) (without (mb_rem mb) MODE_WASDELJOINS))
      else Ok (st, mb)
    else Ok (st, mb) in
  let* ch := load_chan st (mb_channel mb) in
  if any (mb_add mb) MODE_DELJOINS && has_mode ch MODE_WASDELJOINS then
    Ok (set_chan st (mb_channel mb) (set_mode ch (without (mode ch) MODE_WASDELJOINS)),
        set_bits mb (without (mb_add mb) MODE_WASDELJOINS) (Z.lor (mb_rem mb) MODE_WASDELJOINS))
  else Ok (st, mb).

Definition flush_tls (st : state) (mb : ModeBuf) : outcome (state * ModeBuf) :=
  let* (st, mb) :=
    if any (mb_add mb) MODE_TLSONLY then
      let* (groups, group) := channel_secure_groups get_secure_group_id st (mb_channel mb) in
      if (1 <? groups) || ((groups =? 1) && (group =? 0)) then
        let* ch := load_chan st (mb_channel mb) in
        Ok (set_chan st (mb_channel mb) (set_mode ch (Z.lor (Z.lor (mode ch) MODE_TLSINSECURE) MODE_TLSONLY)),
            set_bits mb (without (Z.lor (mb_add mb) MODE_TLSINSECURE) MODE_TLSONLY) (mb_rem mb))
      else Ok (st, mb)
    else Ok (st, mb) in
  let* ch := load_chan st (mb_channel mb) in
  if any (mb_rem mb) MODE_TLSONLY && has_mode ch MODE_TLSINSECURE then
    Ok (set_chan st (mb_channel mb) (set_mode ch (without (without (mode ch) MODE_TLSINSECURE) MODE_TLSONLY)),
        set_bits mb (without (without (mb_add mb) MODE_TLSINSECURE) MODE_TLSONLY)
                    (Z.lor (without (mb_rem mb) MODE_TLSONLY) MODE_TLSINSECURE))
  else Ok (st, mb).

(** The plain flags, in the order of the register. *)
Fixpoint simple_letters (l : list ChanMode) (add rem : Z) (b : letters) : outcome letters :=
  match l with
  | [] => Ok b
  | cm :: l =>
      let* b :=
        if any (attr cm) (Z.lor CHANMODE_PARAM CHANMODE_MEMBER) then Ok b
        else if any (attr cm) CHANMODE_LOCAL then
          if any (flag cm) add then put_local true b (chr cm) (alt cm)
          else if any (flag cm) rem then put_local false b (chr cm) (alt cm)
          else Ok b
        else if any (flag cm) add then put_add b (chr cm)
        else if any (flag cm) rem then put_rem b (chr cm)
        else Ok b in
      simple_letters l add rem b
  end.

(** A mode with an argument of [tmp] characters is saved for the next message when the text
    is full. *)
Definition fit (s : slot) (b : letters) (totalbuflen tmp : Z) (x : ascii) : outcome (slot * letters * Z) :=
  if totalbuflen - tmp <=? 0 then Ok (set_type s (Z.lor (mbm_type s) MODE_SAVE), b, totalbuflen)
  else
    let* b := put_dir (any (mbm_type s) MODE_ADD) b x in
    Ok (s, b, totalbuflen - (tmp + 1)).

Definition strlen (s : list ascii) : Z := Z.of_nat (length s).

Definition pass_char (t : Z) : ascii :=
  let k := Z.land t (Z.lor (Z.lor MODE_BAN MODE_APASS) MODE_UPASS) in
  if k =? MODE_APASS then "A" else if k =? MODE_UPASS then "U" else "b".

Definition arg_letter (ch : Channel) (dest : Z) (s : slot) (b : letters) (totalbuflen : Z) (limitbuf : list ascii) :
    outcome (slot * letters * Z * list ascii) :=
  let t := mbm_type s in
  if any t (Z.lor MODE_CHANOP MODE_VOICE) then
    let* u := MB_CLIENT s in
    let* r := fit s b totalbuflen (Z.max 9 (strlen (cli_name u))) (if any t MODE_CHANOP then "o" else "v") in
    Ok (r, limitbuf)
  else if any t (Z.lor (Z.lor MODE_BAN MODE_APASS) MODE_UPASS) then
    let* str := MB_STRING ch s in
    let* r := fit s b totalbuflen (strlen str) (pass_char t) in
    Ok (r, limitbuf)
  else if any t MODE_KEY then
    let* tmp := if any dest MODEBUF_DEST_NOKEY then Ok 1 else let* str := MB_STRING ch s in Ok (strlen str) in
    let* r := fit s b totalbuflen tmp "k" in
    Ok (r, limitbuf)
  else if any t MODE_LIMIT then
    let* n := MB_UINT s in
    let limitbuf := decimal 10 n in
    let* r := fit s b totalbuflen (strlen limitbuf) "l" in
    Ok (r, limitbuf)
  else Ok (s, b, totalbuflen, limitbuf).

Fixpoint arg_letters (ch : Channel) (dest : Z) (l : list slot) (b : letters) (totalbuflen : Z) (limitbuf : list ascii) :
    outcome (list slot * letters * list ascii) :=
  match l with
  | [] => Ok ([], b, limitbuf)
  | s :: l =>
      let* (s, b, totalbuflen, limitbuf) := arg_letter ch dest s b totalbuflen limitbuf in
      let* (l, b, limitbuf) := arg_letters ch dest l b totalbuflen limitbuf in
      Ok (s :: l, b, limitbuf)
  end.

(** What members and operators see of an argument. *)
Definition visible_param (ch : Channel) (dest : Z) (limitbuf : list ascii) (s : slot) (str : list ascii) : outcome (list ascii) :=
  let t := mbm_type s in
  if any t (Z.lor MODE_CHANOP MODE_VOICE) then let* u := MB_CLIENT s in build_string BUFSIZE str (cli_name u) [] " "
  else if any t MODE_BAN then let* p := MB_STRING ch s in build_string BUFSIZE str p [] " "
  else if any t MODE_KEY then
    let* p := if any dest MODEBUF_DEST_NOKEY then Ok (cstr "*") else MB_STRING ch s in build_string BUFSIZE str p [] " "
  else if any t (Z.lor MODE_APASS MODE_UPASS) then build_string BUFSIZE str (cstr "*") [] " "
  else if Z.land t (Z.lor MODE_ADD MODE_LIMIT) =? Z.lor MODE_ADD MODE_LIMIT then build_string BUFSIZE str limitbuf [] " "
  else Ok str.

(** [ircd_snprintf] cuts its text to the room there is. *)
Definition print_at (str more : list ascii) : list ascii := str ++ take (BUFSIZE - length str - 1) more.

(** What servers get of it; [limitdel] is the direction in which a limit has its number. *)
Definition server_param (ch : Channel) (limitdel : Z) (limitbuf : list ascii) (s : slot) (str : list ascii) : outcome (list ascii) :=
  let t := mbm_type s in
  if any t MODE_CHANOP && (mbm_oplevel s <? MAXOPLEVEL) then
    let* u := MB_CLIENT s in
    Ok (print_at str (" "%char :: (NumNick u).1 ++ (NumNick u).2 ++ ":"%char :: decimal 10 (mbm_oplevel s)))
  else if any t (Z.lor MODE_CHANOP MODE_VOICE) then let* u := MB_CLIENT s in build_string BUFSIZE str (NumNick u).1 (NumNick u).2 " "
  else if any t (Z.lor (Z.lor (Z.lor MODE_KEY MODE_BAN) MODE_APASS) MODE_UPASS) then let* p := MB_STRING ch s in build_string BUFSIZE str p [] " "
  else if Z.land t limitdel =? limitdel then build_string BUFSIZE str limitbuf [] " "
  else Ok str.

(** Both loops: [addstr] and [remstr] of the arguments that were not saved for later. *)
Fixpoint params (render : slot -> list ascii -> outcome (list ascii)) (l : list slot) (addstr remstr : list ascii) : outcome (list ascii * list ascii) :=
  match l with
  | [] => Ok (addstr, remstr)
  | s :: l =>
      if any (mbm_type s) MODE_SAVE then params render l addstr remstr
      else if any (mbm_type s) MODE_ADD then let* addstr := render s addstr in params render l addstr remstr
      else let* remstr := render s remstr in params render l addstr remstr
  end.

Definition app_source (mb : ModeBuf) : origin :=
  if his_modewho && (any (mb_dest mb) MODEBUF_DEST_OPMODE || IsServer (mb_source mb) || IsMe (mb_source mb)) then His
  else From (mb_source mb).

(** The user visible part. *)
Definition send_visible (ch : Channel) (mb : ModeBuf) (l : list slot) (b : letters) (limitbuf : list ascii) : outcome (list action) :=
  let dest := mb_dest mb in
  if any dest (Z.lor (Z.lor (Z.lor (Z.lor MODEBUF_DEST_CHANNEL MODEBUF_DEST_HACK2) MODEBUF_DEST_HACK3) MODEBUF_DEST_HACK4) MODEBUF_DEST_LOG) then
    let* (addstr, remstr) := params (visible_param ch dest limitbuf) l [] [] in
    let who := if his_snotices then From (mb_source mb) else app_source mb in
    let notice n := Send (MkSent (Hack n) who (rembuf b) (addbuf b) (remstr ++ addstr) (Some (creationtime ch))) in
    Ok ((if any dest MODEBUF_DEST_HACK2 then [notice 2] else []) ++
        (if any dest MODEBUF_DEST_HACK3 then [notice 3] else []) ++
        (if any dest MODEBUF_DEST_HACK4 then [notice 4] else []) ++
        (if any dest MODEBUF_DEST_LOG then [Send (MkSent OperLog (From (mb_source mb)) (rembuf b) (addbuf b) (remstr ++ addstr) None)] else []) ++
        (if any dest MODEBUF_DEST_CHANNEL then
           [Send (MkSent Members (app_source mb) (rembuf b ++ rembuf_local b) (addbuf b ++ addbuf_local b) (remstr ++ addstr) None)] else []))
  else Ok [].

(** The part for servers; gives the new [mb_dest] too. *)
Definition send_servers (ch : Channel) (mb : ModeBuf) (l : list slot) (b : letters) (limitbuf : list ascii) : outcome (list action * Z) :=
  let dest := mb_dest mb in
  if any dest MODEBUF_DEST_SERVER then
    let limitdel := Z.lor MODE_LIMIT (if any dest MODEBUF_DEST_BOUNCE then MODE_DEL else MODE_ADD) in
    let* (addstr, remstr) := params (server_param ch limitdel limitbuf) l [] [] in
    let* (b, addstr, dest) :=
      if any dest MODEBUF_DEST_DEOP then
        let* b := put_add b "o" in
        let* _ := terminate b in
        let* addstr := build_string BUFSIZE addstr (NumNick (mb_source mb)).1 (NumNick (mb_source mb)).2 " " in
        Ok (b, addstr, without dest MODEBUF_DEST_DEOP)
      else Ok (b, addstr, dest) in
    let minus := rembuf b ++ rembuf_global b in
    let plus := addbuf b ++ addbuf_global b in
    if any dest MODEBUF_DEST_OPMODE then
      Ok ([Send (MkSent (Servers true (mb_connect mb)) (From (mb_source mb)) minus plus (remstr ++ addstr) None)], dest)
    else if any dest MODEBUF_DEST_BOUNCE then
      match mb_connect mb with
      | None => Oob
      | Some link => Ok ([Send (MkSent (Back link) Me plus minus (addstr ++ remstr) (Some (creationtime ch)))], dest)
      end
    else
      Ok ([Send (MkSent (Servers false (mb_connect mb)) (From (mb_source mb)) minus plus (remstr ++ addstr) (Some (creationtime ch)))], dest)
  else Ok ([], dest).

(** Saved arguments are packed down, copied strings are freed, the other slots cleared. *)
Definition cleared (s : slot) : slot := Slot 0 (MUint 0) (mbm_oplevel s).
Fixpoint pack_loop (n i count : nat) (arr : list slot) (out : list action) : outcome (list slot * nat * list action) :=
  match n with
  | O => Ok (arr, count, out)
  | S n =>
      match arr !! i with
      | None => Oob
      | Some s =>
          if any (mbm_type s) MODE_SAVE then
            let arr := <[count := set_type s (without (mbm_type s) MODE_SAVE)]> arr in
            if (count =? i)%nat then pack_loop n (S i) (S count) arr out
            else pack_loop n (S i) (S count) (<[i := cleared s]> arr) out
          else
            let* out :=
              if any (mbm_type s) MODE_FREE then
                match mbm_arg s with MString t => Ok (out ++ [Free t]) | _ => Oob end
              else Ok out in
            pack_loop n (S i) count (<[i := cleared s]> arr) out
      end
  end.

(** [fuel] bounds the tail recursion. *)
Fixpoint modebuf_flush_int (fuel : nat) (st : state) (mb : ModeBuf) (all : bool) : outcome (state * ModeBuf * list action) :=
  match fuel with
  | O => Fuel
  | S fuel =>
      if (mb_add mb =? 0) && (mb_rem mb =? 0) && (mb_count mb =? 0)%nat then Ok (st, mb, [])
      else
        let* (st, mb) := flush_deljoins st mb in
        let* (st, mb) := flush_tls st mb in
        let* ch := load_chan st (mb_channel mb) in
        let totalbuflen := Z.of_nat BUFSIZE - 200 - (if any (mb_dest mb) MODEBUF_DEST_DEOP then 6 else 0) in
        let* b := simple_letters reg (mb_add mb) (mb_rem mb) no_letters in
        let* (l, b, limitbuf) := arg_letters ch (mb_dest mb) (take (mb_count mb) (mb_modeargs mb)) b totalbuflen [] in
        let* _ := terminate b in
        let* out1 := send_visible ch mb l b limitbuf in
        let* (out2, dest) := send_servers ch mb l b limitbuf in
        let mb := set_bits (set_dest mb dest) 0 0 in
        let* (arr, n, out) := pack_loop MAXMODEPARAMS 0 0 (l ++ drop (mb_count mb) (mb_modeargs mb)) (out1 ++ out2) in
        let mb := set_args mb n arr in
        if all && negb (n =? 0)%nat then
          let* (st, mb, more) := modebuf_flush_int fuel st mb true in
          Ok (st, mb, out ++ more)
        else Ok (st, mb, out)
  end.

Definition modebuf_flush (st : state) (mb : ModeBuf) : outcome (state * ModeBuf * list action) :=
  modebuf_flush_int (S (S MAXMODEPARAMS)) st mb true.

(** ** Modes with arguments *)
Definition append_slot (st : state) (mb : ModeBuf) (s : slot) : outcome (state * ModeBuf * list action) :=
  if (mb_count mb <? length (mb_modeargs mb))%nat then
    let mb := set_args mb (S (mb_count mb)) (<[mb_count mb := s]> (mb_modeargs mb)) in
    if (MAXMODEPARAMS - (if any (mb_dest mb) MODEBUF_DEST_DEOP then 1 else 0) <=? mb_count mb)%nat
    then modebuf_flush_int 1 st mb false
    else Ok (st, mb, [])
  else Oob.

(** The oplevel a slot has when nothing sets it. *)
Definition old_oplevel (mb : ModeBuf) : Z := match mb_modeargs mb !! mb_count mb with Some s => mbm_oplevel s | None => 0 end.

Definition modebuf_mode_uint (st : state) (mb : ModeBuf) (mode n : Z) : outcome (state * ModeBuf * list action) :=
  if mode =? Z.lor MODE_LIMIT MODE_DEL then Ok (st, set_bits mb (mb_add mb) (Z.lor (mb_rem mb) mode), [])
  else append_slot st mb (Slot mode (MUint n) (old_oplevel mb)).

Definition modebuf_mode_string (st : state) (mb : ModeBuf) (mode : Z) (string : text) (free : bool) : outcome (state * ModeBuf * list action) :=
  append_slot st mb (Slot (Z.lor mode (if free then MODE_FREE else 0)) (MString string) (old_oplevel mb)).

Definition modebuf_mode_client (st : state) (mb : ModeBuf) (mode : Z) (client : cid) (oplevel : Z) : outcome (state * ModeBuf * list action) :=
  append_slot st mb (Slot mode (MClient client) (u16 oplevel)).

(** ** [modebuf_extract]: the modes of a burst, to be sent onward *)
Record extracted : Type := MkEx { e_add : Z; e_key : option (list ascii); e_limit : list ascii; e_apass : option (list ascii); e_upass : option (list ascii) }.

Definition WITH_ARG : Z := Z.lor (Z.lor (Z.lor MODE_KEY MODE_LIMIT) MODE_APASS) MODE_UPASS.

Fixpoint extract_args (ch : Channel) (l : list slot) (e : extracted) : outcome extracted :=
  match l with
  | [] => Ok e
  | s :: l =>
      let t := mbm_type s in
      let* e :=
        if any t MODE_ADD then
          let add := Z.lor (e_add e) (Z.land t WITH_ARG) in
          if any t MODE_KEY then let* p := MB_STRING ch s in Ok (MkEx add (Some p) (e_limit e) (e_apass e) (e_upass e))
          else if any t MODE_LIMIT then let* n := MB_UINT s in Ok (MkEx add (e_key e) (decimal 10 n) (e_apass e) (e_upass e))
          else if any t MODE_UPASS then let* p := MB_STRING ch s in Ok (MkEx add (e_key e) (e_limit e) (e_apass e) (Some p))
          else if any t MODE_APASS then let* p := MB_STRING ch s in Ok (MkEx add (e_key e) (e_limit e) (Some p) (e_upass e))
          else Ok (MkEx add (e_key e) (e_limit e) (e_apass e) (e_upass e))
        else Ok e in
      extract_args ch l e
  end.

Definition build_opt (size : nat) (buf : list ascii) (p : option (list ascii)) : outcome (list ascii) :=
  match p with Some p => build_string size buf p [] " " | None => Oob end.

Fixpoint extract_params (size : nat) (e : extracted) (letters buf : list ascii) : outcome (list ascii) :=
  match letters with
  | [] => Ok buf
  | x :: letters =>
      let* buf :=
        if x =c "k" then build_opt size buf (e_key e)
        else if x =c "l" then build_string size buf (e_limit e) [] " "
        else if x =c "U" then build_opt size buf (e_upass e)
        else if x =c "A" then build_opt size buf (e_apass e)
        else Ok buf in
      extract_params size e letters buf
  end.

(** [size] is the room behind [buf]. *)
Definition modebuf_extract (size : nat) (st : state) (mb : ModeBuf) : outcome (list ascii) :=
  let* ch := load_chan st (mb_channel mb) in
  let* e := extract_args ch (take (mb_count mb) (mb_modeargs mb)) (MkEx (without (mb_add mb) WITH_ARG) None [] None None) in
  if e_add e =? 0 then Ok []
  else
    let shown p := any (flag p) (e_add e) && negb (any (attr p) (Z.lor (Z.lor CHANMODE_LIST CHANMODE_MEMBER) CHANMODE_LOCAL)) in
    let buf := "+"%char :: map chr (List.filter shown reg) in
    if (length buf <? size)%nat then extract_params size e buf buf else Oob.

(** ** [ms_burst]: the members a burst has brought

    The modes are given as [MODE_ADD | CHFL_CHANOP] and the like, with the bits of
    [member->status]. *)
Definition CHFL_BURST_JOINED : Z := 0x0100.
Definition CHFL_BURST_ALREADY_OPPED : Z := 0x04000.
Definition CHFL_BURST_ALREADY_VOICED : Z := 0x08000.
Definition CHFL_CHANNEL_MANAGER : Z := 0x10000.
Definition CHFL_DEOPPED : Z := 0x0004.

Definition burst_mode (cond : bool) (mode : Z) (x : Membership) (w : state * ModeBuf * list action) : outcome (state * ModeBuf * list action) :=
  if cond then
    let* (st, mb, out) := modebuf_mode_client w.1.1 w.1.2 mode (user x) (oplevel x) in
    Ok (st, mb, w.2 ++ out)
  else Ok w.

Fixpoint burst_members (fuel : nat) (wipeout : bool) (w : state * ModeBuf * list action) (member : option mid) : outcome (state * ModeBuf * list action) :=
  match member with
  | None => Ok w
  | Some m =>
      match fuel with
      | O => Fuel
      | S fuel =>
          let* x := load (heap w.1.1) m in
          let s := status x in
          if any s CHFL_BURST_JOINED then
            let* w := burst_mode (any s CHFL_CHANOP && negb (any s CHFL_BURST_ALREADY_OPPED)) (Z.lor MODE_ADD CHFL_CHANOP) x w in
            let* w := burst_mode (any s CHFL_VOICE && negb (any s CHFL_BURST_ALREADY_VOICED)) (Z.lor MODE_ADD CHFL_VOICE) x w in
            burst_members fuel wipeout w (next_member x)
          else if wipeout then
            let* w := burst_mode (any s CHFL_CHANOP) (Z.lor MODE_DEL CHFL_CHANOP) x w in
            let* w := burst_mode (any s CHFL_VOICE) (Z.lor MODE_DEL CHFL_VOICE) x w in
            let s := Z.lor (without s (Z.lor (Z.lor CHFL_CHANNEL_MANAGER CHFL_CHANOP) CHFL_VOICE)) CHFL_DEOPPED in
            let st := set_heap w.1.1 (<[m := set_status x s]> (heap w.1.1)) in
            burst_members fuel wipeout (st, w.1.2, w.2) (next_member x)
          else burst_members fuel wipeout w (next_member x)
      end
  end.

(** ** [channel_remove_chan_mode]: the channels that carry the mode lose it *)
Definition ClrCFlag (st : state) (chptr : chid) (f : Z) : outcome state :=
  let* ch := load_chan st chptr in Ok (set_chan st chptr (set_mode ch (without (mode ch) f))).

Fixpoint announce_loss (me : cid) (m : ChanMode) (chptrs : list chid) (w : state * list action) : outcome (state * list action) :=
  match chptrs with
  | [] => Ok w
  | chptr :: chptrs =>
      let* ch := load_chan w.1 chptr in
      if negb (has_mode ch (flag m)) then announce_loss me m chptrs w
      else
        let mb := modebuf_init me None chptr (Z.lor (Z.lor MODEBUF_DEST_CHANNEL MODEBUF_DEST_SERVER) MODEBUF_DEST_OPMODE) in
        let mb := modebuf_mode mb (Z.lor MODE_DEL (flag m)) in
        let* st := ClrCFlag w.1 chptr (flag m) in
        let* (st, _, out) := modebuf_flush st mb in
        announce_loss me m chptrs (st, w.2 ++ out)
  end.
End Modes.
