(* ===== verification/ModeBufSpec.v ===== *)
(** * What a mode buffer sends

    The changes collected in a [ModeBuf] as data ([change]), what each of them shows to
    members and to servers, and the proof that [modebuf_flush] sends every one of them
    exactly once and stays inside its buffers. *)

From stdpp Require Import base list gmap sets strings.
From Stdlib Require Import ZArith Lia Ascii.
From S2P Require Import Prelude AddrText Channel ChanModes ModeBuf.

Local Open Scope ircu_scope.
Local Open Scope Z_scope.

(** ** Changes *)
Inductive kind : Type :=
| KOp (u : cid) (level : Z)
| KVoice (u : cid) (level : Z)
| KBan (t : text) (free : bool)
| KKey (t : text)
| KUpass (t : text)
| KApass (t : text)
| KLimit (n : Z).
Record change : Type := Change { adding : bool; what : kind; old_level : Z }.

Definition kind_bits (k : kind) : Z :=
  match k with
  | KOp _ _ => MODE_CHANOP
  | KVoice _ _ => MODE_VOICE
  | KBan _ free => Z.lor MODE_BAN (if free then MODE_FREE else 0)
  | KKey _ => MODE_KEY
  | KUpass _ => MODE_UPASS
  | KApass _ => MODE_APASS
  | KLimit _ => MODE_LIMIT
  end.
Definition slot_of (x : change) : slot :=
  Slot (Z.lor (if adding x then MODE_ADD else MODE_DEL) (kind_bits (what x)))
    (match what x with
     | KOp u _ | KVoice u _ => MClient u
     | KBan t _ | KKey t | KUpass t | KApass t => MString t
     | KLimit n => MUint n
     end)
    (match what x with KOp _ l | KVoice _ l => l | _ => old_level x end).

Definition letter (x : change) : ascii :=
  match what x with KOp _ _ => "o" | KVoice _ _ => "v" | KBan _ _ => "b" | KKey _ => "k" | KUpass _ => "U" | KApass _ => "A" | KLimit _ => "l" end.

Definition text_of (ch : Channel) (t : text) : list ascii := match t with Text s => s | Own f => own_text ch f end.

Section Spec.
Context (cli_name : cid -> list ascii) (NumNick : cid -> list ascii * list ascii).

Definition numeric (u : cid) : list ascii := (NumNick u).1 ++ (NumNick u).2.

(** The parameter members see. *)
Definition shown (ch : Channel) (nokey : bool) (x : change) : option (list ascii) :=
  match what x with
  | KOp u _ | KVoice u _ => Some (cli_name u)
  | KBan t _ => Some (text_of ch t)
  | KKey t => Some (if nokey then cstr "*" else text_of ch t)
  | KUpass _ | KApass _ => Some (cstr "*")
  | KLimit n => if adding x then Some (decimal 10 n) else None
  end.

(** The parameter servers get. *)
Definition told (ch : Channel) (bounce : bool) (x : change) : option (list ascii) :=
  match what x with
  | KOp u l => Some (if l <? MAXOPLEVEL then numeric u ++ ":"%char :: decimal 10 l else numeric u)
  | KVoice u _ => Some (numeric u)
  | KBan t _ | KKey t | KUpass t | KApass t => Some (text_of ch t)
  | KLimit n => if Bool.eqb (adding x) bounce then None else Some (decimal 10 n)
  end.

Definition cost (ch : Channel) (nokey : bool) (x : change) : Z :=
  match what x with
  | KOp u _ | KVoice u _ => Z.max 9 (strlen (cli_name u))
  | KBan t _ | KUpass t | KApass t => strlen (text_of ch t)
  | KKey t => if nokey then 1 else strlen (text_of ch t)
  | KLimit n => strlen (decimal 10 n)
  end.

Definition spaced (p : option (list ascii)) : list ascii := match p with Some p => " "%char :: p | None => [] end.
Definition added (G : list change) : list change := List.filter adding G.
Definition gone (G : list change) : list change := List.filter (fun x => negb (adding x)) G.

Definition limit_of (x : change) (buf : list ascii) : list ascii := match what x with KLimit n => decimal 10 n | _ => buf end.

(** ** One change in the loops of the flush *)
Ltac cases x := destruct x as [[] [] ?]; repeat match goal with b : bool |- _ => destruct b end.

(** Tests of constant masks. *)
Ltac close_tests :=
  repeat match goal with
  | |- context [any (Z.lor ?a ?b) ?m] =>
      let v := eval vm_compute in (any (Z.lor a b) m) in
      lazymatch v with true => idtac | false => idtac end; change (any (Z.lor a b) m) with v; cbn iota
  end.

Lemma slot_dir (x : change) : any (mbm_type (slot_of x)) MODE_ADD = adding x.
Proof. by cases x. Qed.
Lemma slot_fresh (x : change) : any (mbm_type (slot_of x)) MODE_SAVE = false.
Proof. by cases x. Qed.
Lemma slot_saved (x : change) : any (Z.lor (mbm_type (slot_of x)) MODE_SAVE) MODE_SAVE = true.
Proof. by cases x. Qed.
Lemma slot_back (x : change) : without (Z.lor (mbm_type (slot_of x)) MODE_SAVE) MODE_SAVE = mbm_type (slot_of x).
Proof. by cases x. Qed.

Definition saved (x : change) : slot := set_type (slot_of x) (Z.lor (mbm_type (slot_of x)) MODE_SAVE).

Lemma slot_string (ch : Channel) (x : change) (t : text) : mbm_arg (slot_of x) = MString t -> MB_STRING ch (slot_of x) = Ok (text_of ch t).
Proof. unfold MB_STRING. intros ->. by destruct t. Qed.
Lemma slot_client (x : change) (u : cid) : mbm_arg (slot_of x) = MClient u -> MB_CLIENT (slot_of x) = Ok u.
Proof. unfold MB_CLIENT. by intros ->. Qed.
Lemma slot_uint (x : change) (n : Z) : mbm_arg (slot_of x) = MUint n -> MB_UINT (slot_of x) = Ok n.
Proof. unfold MB_UINT. by intros ->. Qed.
Ltac read_arg :=
  repeat match goal with
  | |- context [MB_STRING ?ch (slot_of ?x)] => rewrite (slot_string ch x _ eq_refl)
  | |- context [MB_CLIENT (slot_of ?x)] => rewrite (slot_client x _ eq_refl)
  | |- context [MB_UINT (slot_of ?x)] => rewrite (slot_uint x _ eq_refl)
  end; cbn [obind].

Lemma arg_letter_of (ch : Channel) (dest : Z) (x : change) (b : letters) (total : Z) (buf : list ascii) :
  arg_letter cli_name ch dest (slot_of x) b total buf =
  let* r := fit (slot_of x) b total (cost ch (any dest MODEBUF_DEST_NOKEY) x) (letter x) in Ok (r, limit_of x buf).
Proof.
  unfold arg_letter. cases x; cbn [slot_of mbm_type what adding kind_bits limit_of letter cost]; close_tests; read_arg;
    lazymatch goal with |- context [any dest MODEBUF_DEST_NOKEY] => destruct (any dest MODEBUF_DEST_NOKEY) | |- _ => idtac end; reflexivity.
Qed.

Lemma build_ok (str p q : list ascii) : (length (str ++ " "%char :: p ++ q) < BUFSIZE)%nat -> build_string BUFSIZE str p q " " = Ok (str ++ " "%char :: p ++ q).
Proof. intros H. unfold build_string. cbn [Ascii.eqb Bool.eqb NUL Ascii.zero app]. by rewrite (proj2 (Nat.ltb_lt _ _) H). Qed.

Lemma visible_of (ch : Channel) (dest : Z) (lim : list ascii) (x : change) (str : list ascii) : limit_of x lim = lim ->
  let p := spaced (shown ch (any dest MODEBUF_DEST_NOKEY) x) in
  (length (str ++ p) < BUFSIZE)%nat -> visible_param cli_name ch dest lim (slot_of x) str = Ok (str ++ p).
Proof.
  unfold visible_param. intros El. cbv zeta. cases x; cbn [slot_of mbm_type what adding kind_bits limit_of shown] in *; close_tests; read_arg;
    lazymatch goal with |- context [any dest MODEBUF_DEST_NOKEY] => destruct (any dest MODEBUF_DEST_NOKEY) | |- _ => idtac end; cbn [obind]; intros H; read_arg;
    try (cbn [spaced] in *; rewrite build_ok; rewrite app_nil_r; done);
    repeat match goal with |- context [Z.land ?a ?b =? ?d] => let v := eval vm_compute in (Z.land a b =? d) in change (Z.land a b =? d) with v; cbn iota end.
  - cbn [spaced] in *. rewrite El in *. rewrite build_ok; rewrite app_nil_r; done.
  - cbn [spaced]. by rewrite app_nil_r.
Qed.

Lemma server_of (ch : Channel) (bounce : bool) (lim : list ascii) (x : change) (str : list ascii) : limit_of x lim = lim ->
  let p := spaced (told ch bounce x) in
  (length (str ++ p) < BUFSIZE)%nat -> server_param NumNick ch (Z.lor MODE_LIMIT (if bounce then MODE_DEL else MODE_ADD)) lim (slot_of x) str = Ok (str ++ p).
Proof.
  unfold server_param. intros El. cbv zeta. cases x; cbn [slot_of mbm_type what adding kind_bits limit_of told mbm_oplevel] in *; close_tests; read_arg;
    cbn [andb]; try (destruct (level <? MAXOPLEVEL)); cbn [spaced Bool.eqb] in *; intros H; read_arg;
    try (rewrite build_ok; unfold numeric in *; rewrite ?app_nil_r in *; done);
    repeat match goal with |- context [Z.land ?a ?b =? ?d] => let v := eval vm_compute in (Z.land a b =? d) in change (Z.land a b =? d) with v; cbn iota end.
  all: try (rewrite El in *; rewrite build_ok; rewrite app_nil_r; done).
  all: try (by rewrite app_nil_r).
  all: unfold print_at; rewrite take_ge; [unfold numeric; by rewrite <- app_assoc|].
  all: rewrite length_app in H; cbn [length] in *; unfold numeric in H; rewrite <- ?app_assoc in *; unfold BUFSIZE in *; lia.
Qed.

(** ** Which changes fit *)
Fixpoint greedy (ch : Channel) (nokey : bool) (total : Z) (cs : list change) : list (change * bool) :=
  match cs with
  | [] => []
  | x :: cs =>
      if total - cost ch nokey x <=? 0 then (x, false) :: greedy ch nokey total cs
      else (x, true) :: greedy ch nokey (total - (cost ch nokey x + 1)) cs
  end.
Definition kept (T : list (change * bool)) : list change := map fst (List.filter snd T).
Definition later (T : list (change * bool)) : list change := map fst (List.filter (fun p => negb (snd p)) T).
Definition slots (T : list (change * bool)) : list slot := map (fun p : change * bool => if p.2 then slot_of p.1 else saved p.1) T.
Definition limits (cs : list change) (lim : list ascii) : list ascii := fold_left (fun l x => limit_of x l) cs lim.

Lemma greedy_perm (ch : Channel) (nokey : bool) (total : Z) (cs : list change) :
  Permutation (kept (greedy ch nokey total cs) ++ later (greedy ch nokey total cs)) cs.
Proof.
  revert total. induction cs as [|x cs IH]; intros total; cbn [greedy]; [done|]. case_if; unfold kept, later in *; cbn [List.filter snd negb map fst app].
  - rewrite <- Permutation_middle. by rewrite IH.
  - by rewrite IH.
Qed.

Lemma kept_cons (x : change) (k : bool) (T : list (change * bool)) : kept ((x, k) :: T) = if k then x :: kept T else kept T.
Proof. by destruct k. Qed.
Lemma added_cons (x : change) (G : list change) : added (x :: G) = if adding x then x :: added G else added G.
Proof. unfold added. cbn. by destruct (adding x). Qed.
Lemma gone_cons (x : change) (G : list change) : gone (x :: G) = if adding x then gone G else x :: gone G.
Proof. unfold gone. cbn. by destruct (adding x). Qed.

Lemma put_letter_ok (buf : list ascii) (x : ascii) : (length buf < CHANMODE_CHARS_LEN)%nat -> put buf x = Ok (buf ++ [x]).
Proof. intros H. unfold put. by rewrite (proj2 (Nat.ltb_lt _ _) H). Qed.

Definition grown (b : letters) (G : list change) : letters :=
  MkLetters (addbuf b ++ map letter (added G)) (rembuf b ++ map letter (gone G)) (addbuf_local b) (rembuf_local b) (addbuf_global b) (rembuf_global b).

Lemma grown_nil (b : letters) : grown b [] = b.
Proof. destruct b. unfold grown. cbn. by rewrite !app_nil_r. Qed.

Lemma put_dir_ok (b : letters) (x : change) (G : list change) : (length (addbuf b) < CHANMODE_CHARS_LEN)%nat -> (length (rembuf b) < CHANMODE_CHARS_LEN)%nat ->
  exists b', put_dir (adding x) b (letter x) = Ok b' /\ grown b' G = grown b (x :: G) /\
    (length (addbuf b') <= S (length (addbuf b)))%nat /\ (length (rembuf b') <= S (length (rembuf b)))%nat.
Proof.
  intros Ha Hr. unfold put_dir, put_add, put_rem, grown. rewrite added_cons, gone_cons. destruct (adding x); rewrite put_letter_ok by done; cbn [obind];
    eexists; (split; [reflexivity|]); cbn [addbuf rembuf addbuf_local rembuf_local addbuf_global rembuf_global map];
    rewrite <- app_assoc, length_app; cbn; split_and!; try done; lia.
Qed.

Lemma arg_letters_spec (ch : Channel) (dest : Z) : forall cs b total lim,
  (length (addbuf b) + length cs < CHANMODE_CHARS_LEN)%nat -> (length (rembuf b) + length cs < CHANMODE_CHARS_LEN)%nat ->
  let T := greedy ch (any dest MODEBUF_DEST_NOKEY) total cs in
  arg_letters cli_name ch dest (map slot_of cs) b total lim = Ok (slots T, grown b (kept T), limits cs lim).
Proof.
  induction cs as [|x cs IH]; intros b total lim Ha Hr; cbn [map arg_letters greedy length] in *; [by rewrite grown_nil|].
  rewrite arg_letter_of. unfold fit. cbn [limits fold_left]. case_if; cbn [obind slots map fst snd].
  - rewrite kept_cons, IH by lia. done.
  - rewrite slot_dir. destruct (put_dir_ok b x (kept (greedy ch (any dest MODEBUF_DEST_NOKEY) (total - (cost ch (any dest MODEBUF_DEST_NOKEY) x + 1)) cs)))
      as (b' & -> & Eg & La & Lr); [lia..|]. cbn [obind]. rewrite kept_cons, IH by lia. cbn [obind]. by rewrite Eg.
Qed.

Definition rendered (f : change -> list ascii) (G : list change) : list ascii := flat_map f G.

Lemma params_spec (render : slot -> list ascii -> outcome (list ascii)) (f : change -> list ascii) : forall T a r,
  (forall x str, x ∈ kept T -> (length (str ++ f x) < BUFSIZE)%nat -> render (slot_of x) str = Ok (str ++ f x)) ->
  (length a + length (rendered f (added (kept T))) < BUFSIZE)%nat -> (length r + length (rendered f (gone (kept T))) < BUFSIZE)%nat ->
  params render (slots T) a r = Ok (a ++ rendered f (added (kept T)), r ++ rendered f (gone (kept T))).
Proof.
  induction T as [|[x k] T IH]; intros a r Hf La Lr; cbn [slots map params]; [by rewrite !app_nil_r|].
  rewrite kept_cons in *. cbn [fst snd]. destruct k.
  - rewrite slot_fresh, slot_dir. rewrite added_cons, gone_cons in *. destruct (adding x); cbn [rendered flat_map] in *; rewrite length_app in *;
      (rewrite Hf by (rewrite ?length_app; try (by left); lia)); cbn [obind]; fold (slots T); rewrite IH.
    all: try (by rewrite <- app_assoc).
    all: try (intros; apply Hf; [by right|done]).
    all: rewrite ?length_app; unfold rendered in *; lia.
  - cbn [saved set_type mbm_type]. rewrite slot_saved. fold (slots T). by apply IH.
Qed.

(** ** Lengths *)
Definition weight (ch : Channel) (nokey : bool) (G : list change) : Z := foldr (fun x n => cost ch nokey x + 1 + n) 0 G.

Lemma cost_nonneg (ch : Channel) (nokey : bool) (x : change) : 0 <= cost ch nokey x.
Proof. unfold cost, strlen. destruct (what x); try destruct nokey; lia. Qed.

Lemma greedy_weight (ch : Channel) (nokey : bool) (cs : list change) : forall total, 0 <= total -> weight ch nokey (kept (greedy ch nokey total cs)) <= total.
Proof.
  induction cs as [|x cs IH]; intros total H; cbn [greedy]; [done|]. case_if; rewrite kept_cons; reflect.
  - by apply IH.
  - cbn [weight foldr]. fold (weight ch nokey (kept (greedy ch nokey (total - (cost ch nokey x + 1)) cs))).
    specialize (IH (total - (cost ch nokey x + 1)) ltac:(lia)). lia.
Qed.

Lemma decimal_length (n : nat) : forall z, (length (decimal n z) <= n)%nat.
Proof.
  induction n as [|n IH]; intros z; cbn [decimal]; [done|]. rewrite length_app. cbn. destruct (10 <=? z); [specialize (IH (z / 10)); lia|cbn; lia].
Qed.

(** What the arguments of changes are like. *)
Definition change_ok (ch : Channel) (x : change) : Prop :=
  match what x with
  | KOp u l => (length (cli_name u) <= 305 /\ length (numeric u) <= 5)%nat /\ 0 <= l
  | KVoice u _ => (length (cli_name u) <= 305 /\ length (numeric u) <= 5)%nat
  | KBan t _ | KUpass t | KApass t => (length (text_of ch t) <= 305)%nat
  | KKey t => (length (text_of ch t) <= 23)%nat
  | KLimit _ => True
  end.

Lemma cost_bound (ch : Channel) (nokey : bool) (x : change) : change_ok ch x -> cost ch nokey x <= 305.
Proof.
  unfold change_ok, cost, strlen. destruct (what x); try destruct nokey; try lia.
  all: intros _; pose proof (decimal_length 10 n); lia.
Qed.

Lemma shown_length (ch : Channel) (nokey : bool) (x : change) : Z.of_nat (length (spaced (shown ch nokey x))) <= cost ch nokey x + 2.
Proof. unfold shown, cost, strlen, spaced. destruct (what x); try destruct nokey; try destruct (adding x); cbn [length cstr String.list_ascii_of_string]; lia. Qed.

Lemma told_length (ch : Channel) (nokey bounce : bool) (x : change) : change_ok ch x -> Z.of_nat (length (spaced (told ch bounce x))) <= cost ch nokey x + 1 + 22.
Proof.
  unfold change_ok, told, cost, strlen, spaced. destruct (what x); try destruct nokey; try (destruct (Bool.eqb _ _)); cbn [length]; try lia.
  all: intros [[H1 H2] H3]; destruct (Z.ltb_spec level MAXOPLEVEL) as [L|L]; cbn [length]; [|lia]; unfold MAXOPLEVEL in L; rewrite length_app; cbn [length];
    rewrite decimal_quad by lia; assert (length (quad level) <= 3)%nat by (unfold quad; rewrite !length_app; repeat case_if; cbn; lia); lia.
Qed.

Lemma rendered_length (ch : Channel) (nokey : bool) (f : change -> list ascii) (k : Z) (G : list change) : 0 <= k ->
  Forall (fun x => Z.of_nat (length (f x)) <= cost ch nokey x + 1 + k) G ->
  Z.of_nat (length (rendered f (added G))) + Z.of_nat (length (rendered f (gone G))) <= weight ch nokey G + k * Z.of_nat (length G).
Proof.
  intros Hk H. induction H as [|x G Hx _ IH]; [cbn; lia|]. rewrite added_cons, gone_cons. cbn [weight foldr length]. fold (weight ch nokey G).
  destruct (adding x); unfold rendered in *; cbn [flat_map]; rewrite length_app; lia.
Qed.

(** ** Packing *)
Definition frees (G : list change) : list action :=
  flat_map (fun x => match what x with KBan t true => [Free t] | _ => [] end) G.
Definition blank_slots (z : list slot) : Prop := Forall (fun s => mbm_type s = 0) z.

Lemma insert_mid (A : list slot) (x y : slot) (B : list slot) : <[length A := y]> (A ++ x :: B) = A ++ y :: B.
Proof. induction A as [|a A IH]; [done|]. cbn. by rewrite <- IH. Qed.

Lemma blank_cleared (s : slot) (z : list slot) : blank_slots z -> blank_slots (z ++ [cleared s]).
Proof. intros H. apply Forall_app. split; [done|]. by constructor. Qed.

(** Slots that are in use no more are cleared again. *)
Lemma pack_blank (rest : list slot) : blank_slots rest -> forall D z out, blank_slots z -> exists z',
  pack_loop (length rest) (length D + length z) (length D) (D ++ z ++ rest) out = Ok (D ++ z', length D, out) /\ blank_slots z' /\ length z' = (length z + length rest)%nat.
Proof.
  intros Hr. induction Hr as [|s rest Hs Hr IH]; intros D z out Hz; cbn [pack_loop length].
  - exists z. rewrite app_nil_r. split_and!; [done..|lia].
  - rewrite app_assoc. replace (length D + length z)%nat with (length (D ++ z)) by apply length_app. rewrite list_lookup_middle by done.
    rewrite Hs. change (any 0 MODE_SAVE) with false. change (any 0 MODE_FREE) with false. cbn [obind]. rewrite insert_mid.
    destruct (IH D (z ++ [cleared s]) out (blank_cleared s z Hz)) as (z' & E & Hz' & Lz). exists z'. rewrite <- E. split; [|split; [done|rewrite Lz, length_app; cbn; lia]].
    rewrite !length_app. cbn. f_equal; [lia|]. by rewrite <- !app_assoc.
Qed.

Lemma pack_spec (rest : list slot) : blank_slots rest -> forall T D z out, blank_slots z -> exists z',
  pack_loop (length T + length rest) (length D + length z) (length D) (D ++ z ++ slots T ++ rest) out =
    Ok (D ++ map slot_of (later T) ++ z', (length D + length (later T))%nat, out ++ frees (kept T)) /\
  blank_slots z' /\ (length (later T) + length z' = length z + length T + length rest)%nat.
Proof.
  intros Hr. induction T as [|[x k] T IH]; intros D z out Hz.
  - destruct (pack_blank rest Hr D z out Hz) as (z' & E & Hz' & Lz). exists z'. cbn [length slots map later List.filter frees kept flat_map app] in *.
    rewrite Nat.add_0_r, app_nil_r. split_and!; [exact E|done|lia].
  - cbn [length Nat.add pack_loop slots map fst snd]. fold (slots T). rewrite app_assoc.
    replace (length D + length z)%nat with (length (D ++ z)) by apply length_app. rewrite <- app_comm_cons, list_lookup_middle by done. destruct k.
    + rewrite slot_fresh. assert (exists fr, (if any (mbm_type (slot_of x)) MODE_FREE then match mbm_arg (slot_of x) with MString t => Ok (out ++ [Free t]) | _ => Oob end else Ok out) = Ok (out ++ fr) /\ frees (kept ((x, true) :: T)) = fr ++ frees (kept T)) as (fr & -> & Ef).
      { rewrite kept_cons. unfold frees. cbn [flat_map]. clear. cases x; cbn [slot_of mbm_type mbm_arg what kind_bits adding]; close_tests; eexists; (split; [|reflexivity]); by rewrite ?app_nil_r. }
      cbn [obind]. rewrite insert_mid. destruct (IH D (z ++ [cleared (slot_of x)]) (out ++ fr) (blank_cleared _ z Hz)) as (z' & E & Hz' & Lz).
      exists z'. rewrite Ef, (app_assoc out fr). change (later ((x, true) :: T)) with (later T). split; [|split; [done|rewrite length_app in Lz; cbn in *; lia]].
      rewrite <- E, !length_app. cbn [length]. f_equal; [lia|]. by rewrite <- !app_assoc.
    + cbn [saved set_type mbm_type mbm_arg mbm_oplevel]. rewrite slot_saved, slot_back. change (later ((x, false) :: T)) with (x :: later T).
      change (set_type (saved x) (mbm_type (slot_of x))) with (slot_of x). rewrite kept_cons.
      destruct z as [|z0 z].
      * rewrite !app_nil_r. rewrite Nat.eqb_refl. rewrite insert_mid. destruct (IH (D ++ [slot_of x]) [] out Hz) as (z' & E & Hz' & Lz).
        exists z'. cbn [app] in E. rewrite length_app in E. cbn [length] in *. rewrite Nat.add_0_r in E.
        split_and!; [|done|lia]. rewrite Nat.add_1_r in E. rewrite <- app_assoc in E. cbn [app] in E. rewrite E. cbn [map]. rewrite <- app_assoc. cbn. do 3 f_equal. lia.
      * destruct (Nat.eqb_spec (length D) (length (D ++ z0 :: z))) as [E|_]; [rewrite length_app in E; cbn in E; lia|].
        rewrite <- app_assoc. cbn [app]. rewrite insert_mid.
        replace (D ++ slot_of x :: z ++ saved x :: slots T ++ rest) with ((D ++ slot_of x :: z) ++ saved x :: slots T ++ rest) by (by rewrite <- app_assoc).
        replace (length (D ++ z0 :: z)) with (length (D ++ slot_of x :: z)) by (by rewrite !length_app). fold (saved x). rewrite insert_mid.
        destruct (IH (D ++ [slot_of x]) (z ++ [cleared (saved x)]) out) as (z' & E & Hz' & Lz); [apply blank_cleared; by inversion Hz|].
        exists z'. split; [|split; [done|rewrite length_app in Lz; cbn in *; lia]].
        rewrite !length_app in *. cbn [length] in *. rewrite <- !app_assoc in *. cbn [app map] in *.
        replace (S (length D + S (length z)))%nat with (length D + 1 + (length z + 1))%nat by lia. replace (S (length D)) with (length D + 1)%nat by lia.
        rewrite E. do 3 f_equal. lia.
Qed.

(** ** The plain flags *)
Definition plain_flag (p : ChanMode) : bool := negb (any (attr p) (Z.lor CHANMODE_PARAM CHANMODE_MEMBER)) && negb (any (attr p) CHANMODE_LOCAL).
Definition local_only (p : ChanMode) : bool := negb (any (attr p) (Z.lor CHANMODE_PARAM CHANMODE_MEMBER)) && any (attr p) CHANMODE_LOCAL.
Definition takes (a : Z) (p : ChanMode) : bool := any (flag p) a.
Definition chosen (sel : ChanMode -> bool) (l : list ChanMode) : list ascii := map chr (List.filter sel l).
Definition standing (sel : ChanMode -> bool) (l : list ChanMode) : list ascii := List.filter (fun x => negb (x =c NUL)) (map alt (List.filter sel l)).

Definition simple (l : list ChanMode) (a r : Z) : letters :=
  let up p := takes a p in
  let down p := negb (takes a p) && takes r p in
  MkLetters (chosen (fun p => plain_flag p && up p) l) (chosen (fun p => plain_flag p && down p) l)
            (chosen (fun p => local_only p && up p) l) (chosen (fun p => local_only p && down p) l)
            (standing (fun p => local_only p && up p) l) (standing (fun p => local_only p && down p) l).
Definition join_letters (b c : letters) : letters :=
  MkLetters (addbuf b ++ addbuf c) (rembuf b ++ rembuf c) (addbuf_local b ++ addbuf_local c) (rembuf_local b ++ rembuf_local c)
            (addbuf_global b ++ addbuf_global c) (rembuf_global b ++ rembuf_global c).
(** No buffer holds more than [n]. *)
Definition below (n : nat) (b : letters) : Prop :=
  (length (addbuf b) <= n /\ length (rembuf b) <= n /\ length (addbuf_local b) <= n /\ length (rembuf_local b) <= n /\
   length (addbuf_global b) <= n /\ length (rembuf_global b) <= n)%nat.

Lemma simple_cons (p : ChanMode) (l : list ChanMode) (a r : Z) : simple (p :: l) a r = join_letters (simple [p] a r) (simple l a r).
Proof.
  unfold simple, join_letters, chosen, standing. cbn [addbuf rembuf addbuf_local rembuf_local addbuf_global rembuf_global List.filter map].
  destruct (plain_flag p && takes a p); destruct (plain_flag p && (negb (takes a p) && takes r p)); destruct (local_only p && takes a p); destruct (local_only p && (negb (takes a p) && takes r p));
    cbn [map app List.filter]; destruct (negb (alt p =c NUL)); done.
Qed.

Lemma simple_one (p : ChanMode) (l : list ChanMode) (a r : Z) (b : letters) (n : nat) : below n b -> (n < CHANMODE_CHARS_LEN)%nat ->
  simple_letters (p :: l) a r b = simple_letters l a r (join_letters b (simple [p] a r)) /\ below (S n) (join_letters b (simple [p] a r)).
Proof.
  intros (H1 & H2 & H3 & H4 & H5 & H6) Hn. cbn [simple_letters].
  unfold simple, join_letters, chosen, standing, plain_flag, local_only, takes, put_add, put_rem, put_local, below. destruct b as [b1 b2 b3 b4 b5 b6].
  cbn [addbuf rembuf addbuf_local rembuf_local addbuf_global rembuf_global List.filter map] in *.
  destruct (any (attr p) (Z.lor CHANMODE_PARAM CHANMODE_MEMBER)); destruct (any (attr p) CHANMODE_LOCAL); destruct (any (flag p) a); destruct (any (flag p) r);
    cbn [negb andb List.filter map app obind]; rewrite ?(put_letter_ok b1), ?(put_letter_ok b2), ?(put_letter_ok b3), ?(put_letter_ok b4) by lia; cbn [obind];
    try (destruct (alt p =c NUL); cbn [negb]; rewrite ?(put_letter_ok b5), ?(put_letter_ok b6) by lia; cbn [obind]);
    rewrite ?app_nil_r, ?length_app; cbn [length]; split; try reflexivity; lia.
Qed.

Lemma join_assoc (a b c : letters) : join_letters (join_letters a b) c = join_letters a (join_letters b c).
Proof. unfold join_letters. cbn. by rewrite <- !app_assoc. Qed.

Lemma simple_spec (a r : Z) : forall l b n, below n b -> (n + length l <= CHANMODE_CHARS_LEN)%nat ->
  simple_letters l a r b = Ok (join_letters b (simple l a r)) /\ below (n + length l) (join_letters b (simple l a r)).
Proof.
  induction l as [|p l IH]; intros b n Hb Hn; cbn [length] in *.
  - unfold simple, join_letters, chosen, standing. cbn. rewrite !app_nil_r, Nat.add_0_r. by destruct b.
  - destruct (simple_one p l a r b n Hb) as [-> Hb1]; [lia|]. rewrite (simple_cons p l), <- join_assoc.
    replace (n + S (length l))%nat with (S n + length l)%nat by lia. apply IH; [done|lia].
Qed.

Lemma join_empty (b : letters) : join_letters no_letters b = b.
Proof. by destruct b. Qed.

Lemma grown_below (n : nat) (b : letters) (G : list change) : below n b -> below (n + length G) (grown b G).
Proof.
  intros (H1 & H2 & H3 & H4 & H5 & H6). unfold below, grown, added, gone. cbn. rewrite !length_app, !length_map.
  pose proof (List.filter_length_le adding G). pose proof (List.filter_length_le (fun x => negb (adding x)) G). lia.
Qed.

Lemma terminate_ok (n : nat) (b : letters) : below n b -> (n < CHANMODE_CHARS_LEN)%nat -> terminate b = Ok tt.
Proof.
  intros (H1 & H2 & H3 & H4 & H5 & H6) Hn. unfold terminate, closed.
  rewrite !(proj2 (Nat.ltb_lt _ _)) by lia. done.
Qed.

(** ** One round: the messages for the changes [G] *)
Section Round.
Context (IsServer IsMe : cid -> bool) (his_modewho his_snotices : bool).

Definition VISIBLE : Z := Z.lor (Z.lor (Z.lor (Z.lor MODEBUF_DEST_CHANNEL MODEBUF_DEST_HACK2) MODEBUF_DEST_HACK3) MODEBUF_DEST_HACK4) MODEBUF_DEST_LOG.

Definition visible_msgs (ch : Channel) (mb : ModeBuf) (b : letters) (G : list change) : list action :=
  let dest := mb_dest mb in
  let f x := spaced (shown ch (any dest MODEBUF_DEST_NOKEY) x) in
  let ps := rendered f (gone G) ++ rendered f (added G) in
  let from := app_source IsServer IsMe his_modewho mb in
  let notice n := Send (MkSent (Hack n) (if his_snotices then From (mb_source mb) else from) (rembuf b) (addbuf b) ps (Some (creationtime ch))) in
  if any dest VISIBLE then
    (if any dest MODEBUF_DEST_HACK2 then [notice 2] else []) ++
    (if any dest MODEBUF_DEST_HACK3 then [notice 3] else []) ++
    (if any dest MODEBUF_DEST_HACK4 then [notice 4] else []) ++
    (if any dest MODEBUF_DEST_LOG then [Send (MkSent OperLog (From (mb_source mb)) (rembuf b) (addbuf b) ps None)] else []) ++
    (if any dest MODEBUF_DEST_CHANNEL then [Send (MkSent Members from (rembuf b ++ rembuf_local b) (addbuf b ++ addbuf_local b) ps None)] else [])
  else [].

Definition server_msgs (ch : Channel) (mb : ModeBuf) (b : letters) (G : list change) : list action :=
  let dest := mb_dest mb in
  let deop := any dest MODEBUF_DEST_DEOP in
  let f x := spaced (told ch (any dest MODEBUF_DEST_BOUNCE) x) in
  let minus := rembuf b ++ rembuf_global b in
  let plus := (addbuf b ++ if deop then ["o"%char] else []) ++ addbuf_global b in
  let rems := rendered f (gone G) in
  let adds := rendered f (added G) ++ if deop then " "%char :: numeric (mb_source mb) else [] in
  if any dest MODEBUF_DEST_SERVER then
    if any dest MODEBUF_DEST_OPMODE then
      [Send (MkSent (Servers true (mb_connect mb)) (From (mb_source mb)) minus plus (rems ++ adds) None)]
    else if any dest MODEBUF_DEST_BOUNCE then
      match mb_connect mb with
      | Some link => [Send (MkSent (Back link) Me plus minus (adds ++ rems) (Some (creationtime ch)))]
      | None => []
      end
    else [Send (MkSent (Servers false (mb_connect mb)) (From (mb_source mb)) minus plus (rems ++ adds) (Some (creationtime ch)))]
  else [].

Definition next_dest (dest : Z) : Z := if any dest MODEBUF_DEST_SERVER && any dest MODEBUF_DEST_DEOP then without dest MODEBUF_DEST_DEOP else dest.

(** [S] are the plain flags. *)
Definition round (ch : Channel) (mb : ModeBuf) (S : letters) (G : list change) : list action :=
  visible_msgs ch mb (grown S G) G ++ server_msgs ch mb (grown S G) G ++ frees G.

Definition numbered (lim : list ascii) (G : list change) : Prop := Forall (fun x => limit_of x lim = lim) G.

Lemma without_other (dest a m : Z) : Z.land a m = 0 -> any (without dest a) m = any dest m.
Proof.
  intros H. unfold any, without. f_equal. f_equal. apply Z.bits_inj'. intros n _. rewrite !Z.land_spec, Z.ldiff_spec.
  assert (Z.testbit a n && Z.testbit m n = false) as E by (rewrite <- Z.land_spec, H; apply Z.bits_0).
  destruct (Z.testbit a n), (Z.testbit m n), (Z.testbit dest n); done.
Qed.

Lemma visible_ok (ch : Channel) (mb : ModeBuf) (b : letters) (lim : list ascii) (T : list (change * bool)) :
  numbered lim (kept T) -> weight ch (any (mb_dest mb) MODEBUF_DEST_NOKEY) (kept T) <= 312 -> (length (kept T) <= 6)%nat ->
  send_visible IsServer IsMe cli_name his_modewho his_snotices ch mb (slots T) b lim = Ok (visible_msgs ch mb b (kept T)).
Proof.
  intros N W L. unfold send_visible, visible_msgs. change (Z.lor (Z.lor (Z.lor (Z.lor _ _) _) _) _) with VISIBLE. destruct (any (mb_dest mb) VISIBLE); [|done].
  set (f := fun x => spaced (shown ch (any (mb_dest mb) MODEBUF_DEST_NOKEY) x)).
  assert (Z.of_nat (length (rendered f (added (kept T)))) + Z.of_nat (length (rendered f (gone (kept T)))) <= 312 + 1 * 6) as B.
  { etransitivity; [apply (rendered_length ch (any (mb_dest mb) MODEBUF_DEST_NOKEY) f 1)|lia]; [lia|].
    apply Forall_forall. intros x _. unfold f. pose proof (shown_length ch (any (mb_dest mb) MODEBUF_DEST_NOKEY) x). lia. }
  rewrite (params_spec _ f); [done|..]; [|cbn [length]; unfold BUFSIZE; lia..].
  intros x str Hx Hl. apply visible_of; [|done]. unfold numbered in N. rewrite Forall_forall in N. by apply N.
Qed.

Lemma servers_ok (ch : Channel) (mb : ModeBuf) (b : letters) (lim : list ascii) (T : list (change * bool)) (nokey : bool) (n : nat) :
  numbered lim (kept T) -> weight ch nokey (kept T) <= 312 -> (length (kept T) <= 6)%nat -> Forall (change_ok ch) (kept T) ->
  below n b -> (S n < CHANMODE_CHARS_LEN)%nat -> (length (numeric (mb_source mb)) <= 5)%nat ->
  (any (mb_dest mb) MODEBUF_DEST_BOUNCE = true -> mb_connect mb <> None) ->
  send_servers NumNick ch mb (slots T) b lim = Ok (server_msgs ch mb b (kept T), next_dest (mb_dest mb)).
Proof.
  intros N W L K Hb Hn Hs Hc. unfold send_servers, server_msgs, next_dest. destruct (any (mb_dest mb) MODEBUF_DEST_SERVER); cbn [andb]; [|done].
  set (f := fun x => spaced (told ch (any (mb_dest mb) MODEBUF_DEST_BOUNCE) x)).
  assert (Z.of_nat (length (rendered f (added (kept T)))) + Z.of_nat (length (rendered f (gone (kept T)))) <= 312 + 22 * 6) as B.
  { etransitivity; [apply (rendered_length ch nokey f 22)|lia]; [lia|].
    eapply Forall_impl; [exact K|]. intros x Hx. unfold f. by apply told_length. }
  rewrite (params_spec _ f); [cbn [app obind]| |cbn [length]; unfold BUFSIZE; lia..].
  2: { intros x str Hx Hl. unfold f in *. apply server_of; [|done]. unfold numbered in N. rewrite Forall_forall in N. by apply N. }
  pose proof Hb as (B1 & B2 & B3 & B4 & B5 & B6). destruct (any (mb_dest mb) MODEBUF_DEST_DEOP).
  - unfold put_add. rewrite put_letter_ok by lia. cbn [obind]. rewrite (terminate_ok (S n)); [cbn [obind]| |lia].
    2: { unfold below. cbn [addbuf rembuf addbuf_local rembuf_local addbuf_global rembuf_global]. rewrite length_app. cbn [length]. lia. }
    unfold numeric in Hs. rewrite build_ok by (rewrite !length_app in *; cbn [length]; rewrite length_app; unfold BUFSIZE; lia). cbn [obind].
    rewrite !without_other by reflexivity. cbn [addbuf rembuf addbuf_local rembuf_local addbuf_global rembuf_global].
    fold (numeric (mb_source mb)). destruct (any (mb_dest mb) MODEBUF_DEST_OPMODE); [done|]. destruct (any (mb_dest mb) MODEBUF_DEST_BOUNCE); [|done].
    destruct (mb_connect mb); [done|]. by destruct (Hc eq_refl).
  - rewrite !app_nil_r. cbn [obind]. destruct (any (mb_dest mb) MODEBUF_DEST_OPMODE); [done|]. destruct (any (mb_dest mb) MODEBUF_DEST_BOUNCE); [|done].
    destruct (mb_connect mb); [done|]. by destruct (Hc eq_refl).
Qed.

(** ** The limit is printed into one buffer *)
Definition is_limit (x : change) : bool := match what x with KLimit _ => true | _ => false end.
Definition one_limit (cs : list change) : Prop := (length (List.filter is_limit cs) <= 1)%nat.

Lemma no_limits (cs : list change) (lim : list ascii) : List.filter is_limit cs = [] -> limits cs lim = lim /\ numbered lim cs.
Proof.
  revert lim. induction cs as [|x cs IH]; intros lim E; [by split; [|constructor]|]. cbn [List.filter] in E. unfold is_limit in E. cbn [limits fold_left].
  assert (limit_of x lim = lim) as Ex by (unfold limit_of; by destruct (what x)). rewrite Ex. destruct (what x); try done;
    (destruct (IH lim E) as [E1 E2]; split; [done|by constructor]).
Qed.

Lemma limits_numbered (cs : list change) (lim : list ascii) : one_limit cs -> numbered (limits cs lim) cs.
Proof.
  unfold one_limit. revert lim. induction cs as [|x cs IH]; intros lim E; [constructor|]. cbn [List.filter] in E. cbn [limits fold_left]. fold (limits cs (limit_of x lim)).
  destruct (is_limit x) eqn:Ex; unfold is_limit, limit_of in *; destruct (what x) eqn:Ew; try done.
  1: { cbn [length] in E. assert (List.filter is_limit cs = []) as E0 by (apply length_zero_iff_nil; unfold is_limit in *; lia).
       destruct (no_limits cs (decimal 10 n) E0) as [-> H]. constructor; [unfold limit_of; by rewrite Ew|done]. }
  all: constructor; [unfold limit_of; by rewrite Ew|by apply IH].
Qed.

Lemma greedy_parts (P : change -> Prop) (ch : Channel) (nokey : bool) (total : Z) (cs : list change) : Forall P cs ->
  Forall P (kept (greedy ch nokey total cs)) /\ Forall P (later (greedy ch nokey total cs)).
Proof. intros H. apply Forall_app. by rewrite greedy_perm. Qed.

Lemma greedy_limit (ch : Channel) (nokey : bool) (total : Z) (cs : list change) : one_limit cs -> one_limit (later (greedy ch nokey total cs)).
Proof.
  unfold one_limit. intros H. pose proof (filter_perm is_limit _ _ (greedy_perm ch nokey total cs)) as P. apply Permutation_length in P.
  rewrite List.filter_app, length_app in P. lia.
Qed.

Lemma greedy_length (ch : Channel) (nokey : bool) (total : Z) (cs : list change) :
  length (greedy ch nokey total cs) = length cs /\ (length (kept (greedy ch nokey total cs)) + length (later (greedy ch nokey total cs)) = length cs)%nat.
Proof.
  split; [|by rewrite <- length_app, greedy_perm]. revert total. induction cs as [|x cs IH]; intros total; cbn [greedy]; [done|]. case_if; cbn; by rewrite IH.
Qed.

(** The first change always fits. *)
Lemma greedy_progress (ch : Channel) (nokey : bool) (total : Z) (cs : list change) : 306 <= total -> Forall (change_ok ch) cs -> cs <> [] ->
  (length (later (greedy ch nokey total cs)) < length cs)%nat.
Proof.
  intros Ht H N. destruct H as [|x cs Hx H]; [done|]. pose proof (cost_bound ch nokey x Hx). pose proof (greedy_length ch nokey total (x :: cs)) as [_ L].
  rewrite <- L. cbn [greedy]. destruct (Z.leb_spec (total - cost ch nokey x) 0); [lia|]. rewrite kept_cons. cbn. lia.
Qed.

(** ** The buffer and the changes it holds *)
Definition holding (mb : ModeBuf) (cs : list change) : Prop :=
  exists rest, mb_modeargs mb = map slot_of cs ++ rest /\ blank_slots rest /\ (length cs + length rest = MAXMODEPARAMS)%nat /\ mb_count mb = length cs.

Record sendable (ch : Channel) (mb : ModeBuf) (cs : list change) : Prop := {
  sd_hold : holding mb cs;
  sd_ok : Forall (change_ok ch) cs;
  sd_limit : one_limit cs;
  sd_source : (length (numeric (mb_source mb)) <= 5)%nat;
  sd_link : any (mb_dest mb) MODEBUF_DEST_BOUNCE = true -> mb_connect mb <> None
}.

Definition room (dest : Z) : Z := Z.of_nat BUFSIZE - 200 - (if any dest MODEBUF_DEST_DEOP then 6 else 0).
Definition split_of (ch : Channel) (mb : ModeBuf) (cs : list change) : list (change * bool) := greedy ch (any (mb_dest mb) MODEBUF_DEST_NOKEY) (room (mb_dest mb)) cs.

Lemma room_bound (dest : Z) : 306 <= room dest <= 312.
Proof. unfold room, BUFSIZE. destruct (any dest MODEBUF_DEST_DEOP); lia. Qed.

Lemma next_dest_other (dest m : Z) : Z.land MODEBUF_DEST_DEOP m = 0 -> any (next_dest dest) m = any dest m.
Proof. intros H. unfold next_dest. case_if; [by apply without_other|done]. Qed.

Context (reg : list ChanMode) (get_secure_group_id : cid -> Z) (Hreg : (length reg <= 52)%nat).

Abbreviation flush_int := (modebuf_flush_int reg IsServer IsMe get_secure_group_id cli_name NumNick his_modewho his_snotices).

Definition emptied (mb mb' : ModeBuf) : Prop :=
  mb_add mb' = 0 /\ mb_rem mb' = 0 /\ mb_source mb' = mb_source mb /\ mb_connect mb' = mb_connect mb /\ mb_channel mb' = mb_channel mb /\
  mb_dest mb' = next_dest (mb_dest mb).

Lemma flush_round (fuel : nat) (st st1 st2 : state) (mb mb1 mb2 : ModeBuf) (all : bool) (ch : Channel) (cs : list change) :
  (mb_add mb =? 0) && (mb_rem mb =? 0) && (mb_count mb =? 0)%nat = false ->
  flush_deljoins st mb = Ok (st1, mb1) -> flush_tls get_secure_group_id st1 mb1 = Ok (st2, mb2) -> chans st2 !! mb_channel mb2 = Some ch ->
  sendable ch mb2 cs -> exists mb3, sendable ch mb3 (later (split_of ch mb2 cs)) /\ emptied mb2 mb3 /\
    flush_int (S fuel) st mb all =
      let out := round ch mb2 (simple reg (mb_add mb2) (mb_rem mb2)) (kept (split_of ch mb2 cs)) in
      if all && negb (length (later (split_of ch mb2 cs)) =? 0)%nat then
        let* (st', mb', more) := flush_int fuel st2 mb3 true in Ok (st', mb', out ++ more)
      else Ok (st2, mb3, out).
Proof.
  intros Ne E1 E2 Ec [(rest & Ea & Hb & El & En) K Ol Hs Hk]. cbn [modebuf_flush_int]. rewrite Ne, E1. cbn [obind]. rewrite E2. cbn [obind].
  unfold load_chan. rewrite Ec. cbn [obind]. rewrite Ea, En, <- (length_map slot_of cs), take_app_length. set (T := split_of ch mb2 cs).
  assert (below 0 no_letters) as B0 by (unfold below; cbn; lia).
  destruct (simple_spec (mb_add mb2) (mb_rem mb2) reg no_letters 0 B0) as [Es Bs]; [unfold CHANMODE_CHARS_LEN; lia|]. rewrite Es, join_empty in *. cbn [obind].
  set (S := simple reg (mb_add mb2) (mb_rem mb2)) in *. pose proof Bs as (B1 & B2 & _). unfold MAXMODEPARAMS in El.
  rewrite arg_letters_spec; [|unfold CHANMODE_CHARS_LEN; lia..]. cbn [obind]. change (Z.of_nat BUFSIZE - 200 - _) with (room (mb_dest mb2)). fold (split_of ch mb2 cs). fold T.
  destruct (greedy_parts (change_ok ch) ch (any (mb_dest mb2) MODEBUF_DEST_NOKEY) (room (mb_dest mb2)) cs K) as [Kk Kl].
  pose proof (room_bound (mb_dest mb2)) as Rb. pose proof (greedy_weight ch (any (mb_dest mb2) MODEBUF_DEST_NOKEY) cs (room (mb_dest mb2)) ltac:(lia)) as W.
  destruct (greedy_length ch (any (mb_dest mb2) MODEBUF_DEST_NOKEY) (room (mb_dest mb2)) cs) as [L1 L2]. fold (split_of ch mb2 cs) in *. fold T in Kk, Kl, W, L1, L2.
  pose proof (limits_numbered cs [] Ol) as N.
  destruct (greedy_parts _ ch (any (mb_dest mb2) MODEBUF_DEST_NOKEY) (room (mb_dest mb2)) cs N) as [Nk _]. fold (split_of ch mb2 cs) in Nk. fold T in Nk.
  pose proof (grown_below _ S (kept T) Bs) as Bg.
  rewrite (terminate_ok (0 + length reg + length (kept T))) by (done || unfold CHANMODE_CHARS_LEN; lia). cbn [obind].
  rewrite visible_ok by (done || lia). cbn [obind].
  rewrite (servers_ok ch mb2 (grown S (kept T)) (limits cs []) T (any (mb_dest mb2) MODEBUF_DEST_NOKEY) (0 + length reg + length (kept T))) by (done || unfold CHANMODE_CHARS_LEN; lia).
  cbn [obind]. change (mb_count (set_bits _ _ _)) with (mb_count mb2). change (mb_modeargs (set_bits _ _ _)) with (mb_modeargs mb2).
  rewrite Ea, En, <- (length_map slot_of cs), drop_app_length.
  destruct (pack_spec rest Hb T [] [] (visible_msgs ch mb2 (grown S (kept T)) (kept T) ++ server_msgs ch mb2 (grown S (kept T)) (kept T)))
    as (z' & Ep & Hz & Lz); [constructor|]. cbn [app length Nat.add] in Ep, Lz. rewrite L1, El in Ep. unfold MAXMODEPARAMS. rewrite Ep. cbn [obind].
  eexists. split; [|split; [|unfold round; rewrite <- app_assoc; reflexivity]].
  - split; [|done|by apply greedy_limit|done|].
    + exists z'. split_and!; [done|done| |done]. unfold MAXMODEPARAMS. cbn. lia.
    + cbn. rewrite next_dest_other by reflexivity. done.
  - by split_and!.
Qed.

(** ** The changes the flush makes itself *)
Definition DERIVED : Z := Z.lor MODE_WASDELJOINS (Z.lor MODE_TLSONLY MODE_TLSINSECURE).
(** Equal but for the derived flags. *)
Definition alike (a b : Z) : Prop := without a DERIVED = without b DERIVED.

Lemma alike_lor (a b f : Z) : without f DERIVED = 0 -> alike a b -> alike (Z.lor a f) b.
Proof.
  unfold alike, without. intros Hf H. rewrite <- H. apply Z.bits_inj'. intros n _. rewrite !Z.ldiff_spec, Z.lor_spec.
  assert (Z.testbit f n && negb (Z.testbit DERIVED n) = false) as E by (rewrite <- Z.ldiff_spec, Hf; apply Z.bits_0).
  destruct (Z.testbit a n), (Z.testbit f n), (Z.testbit DERIVED n); done.
Qed.
Lemma alike_without (a b f : Z) : without f DERIVED = 0 -> alike a b -> alike (without a f) b.
Proof.
  unfold alike, without. intros Hf H. rewrite <- H. apply Z.bits_inj'. intros n _. rewrite !Z.ldiff_spec.
  assert (Z.testbit f n && negb (Z.testbit DERIVED n) = false) as E by (rewrite <- Z.ldiff_spec, Hf; apply Z.bits_0).
  destruct (Z.testbit a n), (Z.testbit f n), (Z.testbit DERIVED n); done.
Qed.

Definition walkable (st : state) (ch : Channel) : Prop := exists L, dll by_channel (heap st) (members ch) L /\ NoDup L.

Lemma walk_fuel (st : state) (ch : Channel) : walkable st ch -> exists L, dll by_channel (heap st) (members ch) L /\ (length L < fuel_of st)%nat.
Proof.
  intros (L & D & ND). exists L. split; [done|]. unfold fuel_of. apply (list_le_heap (heap st)) in ND; [lia|]. intros m Hm. by eapply dll_elem.
Qed.

Lemma delayed_ok (st : state) (ch : Channel) : walkable st ch -> exists r, find_delayed_joins st ch = Ok r.
Proof. intros (L & D & Lf)%walk_fuel. unfold find_delayed_joins. rewrite (scan_spec by_channel (heap st) _ _ L) by done. cbn [obind]. eauto. Qed.

Lemma secure_ok (st : state) (c : chid) (ch : Channel) : chans st !! c = Some ch -> walkable st ch ->
  exists r, channel_secure_groups get_secure_group_id st c = Ok r.
Proof.
  intros E (L & D & Lf)%walk_fuel. unfold channel_secure_groups, load_chan. rewrite E. cbn [obind].
  destruct (groups_from get_secure_group_id (heap st) (members ch) L D (length L) O (fuel_of st) 0 0) as [[g s] G]; [lia|done|].
  pose proof D as [S _]. rewrite S, G. cbn [obind]. eauto.
Qed.

Definition retouched (st : state) (c : chid) (ch : Channel) (m : Z) : state := set_chan st c (set_mode ch m).
Lemma retouched_same (st : state) (c : chid) (ch : Channel) : chans st !! c = Some ch -> retouched st c ch (mode ch) = st.
Proof.
  intros E. unfold retouched, set_chan. assert (set_mode ch (mode ch) = ch) as -> by (by destruct ch). rewrite insert_id by done. by destruct st.
Qed.
Lemma retouched_twice (st : state) (c : chid) (ch : Channel) (m m' : Z) : set_chan (retouched st c ch m) c (set_mode (set_mode ch m) m') = retouched st c ch m'.
Proof. unfold retouched, set_chan. cbn. by rewrite insert_insert_eq. Qed.

Definition touched (st : state) (mb : ModeBuf) (ch : Channel) (st' : state) (mb' : ModeBuf) : Prop :=
  exists a r m, st' = retouched st (mb_channel mb) ch m /\ mb' = set_bits mb a r /\ alike a (mb_add mb) /\ alike r (mb_rem mb) /\ alike m (mode ch).

Ltac settle := repeat first [apply alike_lor; [reflexivity|] | apply alike_without; [reflexivity|]]; done.

Lemma deljoins_touched (st : state) (mb : ModeBuf) (ch : Channel) : chans st !! mb_channel mb = Some ch -> walkable st ch ->
  exists st' mb', flush_deljoins st mb = Ok (st', mb') /\ touched st mb ch st' mb'.
Proof.
  intros E Wk. unfold flush_deljoins, load_chan at 1. rewrite E. cbn [obind].
  assert (exists st1 mb1, (if any (mb_rem mb) MODE_DELJOINS && negb (has_mode ch (Z.lor MODE_DELJOINS MODE_WASDELJOINS)) then
      let* some := find_delayed_joins st ch in
      if some then Ok (set_chan st (mb_channel mb) (set_mode ch (Z.lor (mode ch) MODE_WASDELJOINS)),
            set_bits mb (Z.lor (mb_add mb) MODE_WASDELJOINS) (without (mb_rem mb) MODE_WASDELJOINS)) else Ok (st, mb) else Ok (st, mb)) = Ok (st1, mb1) /\ touched st mb ch st1 mb1)
    as (st1 & mb1 & -> & a & r & m & -> & -> & Ha & Hr & Hm).
  { assert (touched st mb ch st mb) as T0 by (exists (mb_add mb), (mb_rem mb), (mode ch); rewrite retouched_same by done; by destruct mb).
    destruct (_ && _); [|eauto]. destruct (delayed_ok st ch Wk) as [[] ->]; cbn [obind]; [|eauto]. do 2 eexists. split; [done|].
    eexists _, _, _. split_and!; try done; settle. }
  cbn [obind set_bits mb_channel mb_add mb_rem]. unfold load_chan, retouched. cbn [set_chan chans]. rewrite lookup_insert_eq. cbn [obind].
  destruct (_ && _); do 2 eexists; (split; [reflexivity|]).
  - eexists _, _, _. split_and!; [apply retouched_twice|done|settle..].
  - by exists a, r, m.
Qed.

Lemma tls_touched (st : state) (mb : ModeBuf) (ch : Channel) : chans st !! mb_channel mb = Some ch -> walkable st ch ->
  exists st' mb', flush_tls get_secure_group_id st mb = Ok (st', mb') /\ touched st mb ch st' mb'.
Proof.
  intros E Wk. unfold flush_tls.
  assert (exists st1 mb1, (if any (mb_add mb) MODE_TLSONLY then
      let* (groups, group) := channel_secure_groups get_secure_group_id st (mb_channel mb) in
      if (1 <? groups) || ((groups =? 1) && (group =? 0)) then
        let* ch := load_chan st (mb_channel mb) in
        Ok (set_chan st (mb_channel mb) (set_mode ch (Z.lor (Z.lor (mode ch) MODE_TLSINSECURE) MODE_TLSONLY)),
            set_bits mb (without (Z.lor (mb_add mb) MODE_TLSINSECURE) MODE_TLSONLY) (mb_rem mb))
      else Ok (st, mb)
    else Ok (st, mb)) = Ok (st1, mb1) /\ touched st mb ch st1 mb1)
    as (st1 & mb1 & -> & a & r & m & -> & -> & Ha & Hr & Hm).
  { assert (touched st mb ch st mb) as T0 by (exists (mb_add mb), (mb_rem mb), (mode ch); rewrite retouched_same by done; by destruct mb).
    destruct (any _ _); [|eauto]. destruct (secure_ok st (mb_channel mb) ch E Wk) as [[g s] ->]. cbn [obind]. destruct (_ || _); [|eauto].
    unfold load_chan. rewrite E. cbn [obind]. do 2 eexists. split; [done|]. eexists _, _, _. split_and!; try done; settle. }
  cbn [obind set_bits mb_channel mb_add mb_rem]. unfold load_chan, retouched. cbn [set_chan chans]. rewrite lookup_insert_eq. cbn [obind].
  destruct (_ && _); do 2 eexists; (split; [reflexivity|]).
  - eexists _, _, _. split_and!; [apply retouched_twice|done|settle..].
  - by exists a, r, m.
Qed.

Lemma adjust_touched (st : state) (mb : ModeBuf) (ch : Channel) : chans st !! mb_channel mb = Some ch -> walkable st ch ->
  exists st1 mb1 st2 mb2, flush_deljoins st mb = Ok (st1, mb1) /\ flush_tls get_secure_group_id st1 mb1 = Ok (st2, mb2) /\ touched st mb ch st2 mb2.
Proof.
  intros E Wk. destruct (deljoins_touched st mb ch E Wk) as (st1 & mb1 & E1 & a & r & m & -> & -> & Ha & Hr & Hm).
  destruct (tls_touched (retouched st (mb_channel mb) ch m) (set_bits mb a r) (set_mode ch m)) as (st2 & mb2 & E2 & a' & r' & m' & -> & -> & Ha' & Hr' & Hm').
  - cbn. by rewrite lookup_insert_eq.
  - exact Wk.
  - do 4 eexists. split_and!; [exact E1|exact E2|]. exists a', r', m'. split_and!; [apply retouched_twice|done|..]; unfold alike in *; cbn in *; congruence.
Qed.

(** ** All rounds *)
Lemma round_ext (ch : Channel) (mb mb' : ModeBuf) (S : letters) (G : list change) : mb_dest mb' = mb_dest mb -> mb_source mb' = mb_source mb -> mb_connect mb' = mb_connect mb ->
  round ch mb' S G = round ch mb S G.
Proof. unfold round, visible_msgs, server_msgs, app_source. by intros -> -> ->. Qed.

Lemma any_zero (f : Z) : any f 0 = false.
Proof. unfold any. by rewrite Z.land_0_r. Qed.
Lemma simple_none (l : list ChanMode) : simple l 0 0 = no_letters.
Proof.
  unfold simple, no_letters, takes. assert (forall sel, List.filter (fun p => sel p && any (flag p) 0) l = []) as E1.
  { intros sel. induction l as [|p l IH]; cbn; [done|]. by rewrite any_zero, andb_false_r. }
  assert (forall sel, List.filter (fun p => sel p && (negb (any (flag p) 0) && any (flag p) 0)) l = []) as E2.
  { clear E1. intros sel. induction l as [|p l IH]; cbn; [done|]. by rewrite any_zero, ?andb_false_r. }
  unfold chosen, standing. by rewrite !E1, !E2.
Qed.

Lemma quiet_flush (st : state) (mb : ModeBuf) (ch : Channel) : mb_add mb = 0 -> mb_rem mb = 0 -> chans st !! mb_channel mb = Some ch ->
  flush_deljoins st mb = Ok (st, mb) /\ flush_tls get_secure_group_id st mb = Ok (st, mb).
Proof.
  intros Ea Er Ec. unfold flush_deljoins, flush_tls, load_chan. rewrite Ec. cbn [obind]. rewrite !Ea, !Er.
  change (any 0 MODE_DELJOINS) with false. change (any 0 MODE_TLSONLY) with false. cbn [andb obind].
  by rewrite Ec, !Ea, !Er.
Qed.

Lemma flush_rest (st : state) (ch : Channel) : forall n cs mb, (length cs <= n)%nat -> sendable ch mb cs -> mb_add mb = 0 -> mb_rem mb = 0 ->
  chans st !! mb_channel mb = Some ch -> next_dest (mb_dest mb) = mb_dest mb ->
  exists Gs mb', Permutation (concat Gs) cs /\ flush_int (S n) st mb true = Ok (st, mb', flat_map (round ch mb no_letters) Gs) /\
    holding mb' [] /\ mb_add mb' = 0 /\ mb_rem mb' = 0.
Proof.
  induction n as [|n IH]; intros cs mb Ln Sd Ea Er Ec Ed; destruct (quiet_flush st mb ch Ea Er Ec) as [Q1 Q2].
  all: pose proof Sd as [(rest & _ & _ & _ & En) Ok' _ _ _]; destruct (decide (cs = [])) as [->|Nc];
    [exists [], mb; split; [done|]; split; [cbn [modebuf_flush_int]; by rewrite Ea, Er, En|]; split; [apply Sd|done]|].
  { destruct cs; [done|cbn in Ln; lia]. }
  destruct (flush_round (S n) st st st mb mb mb true ch cs) as (mb3 & S3 & (A3 & R3 & So3 & Co3 & Ch3 & De3) & ->); try done.
  { rewrite Ea, Er, En. destruct cs; done. }
  set (T := split_of ch mb cs) in *. rewrite Ea, Er, simple_none. cbn zeta.
  pose proof (greedy_progress ch (any (mb_dest mb) MODEBUF_DEST_NOKEY) (room (mb_dest mb)) cs ltac:(apply room_bound) Ok' Nc) as Pr. fold (split_of ch mb cs) in Pr. fold T in Pr.
  pose proof (greedy_perm ch (any (mb_dest mb) MODEBUF_DEST_NOKEY) (room (mb_dest mb)) cs) as Pm. fold (split_of ch mb cs) in Pm. fold T in Pm.
  destruct (Nat.eqb_spec (length (later T)) 0) as [E0|N0]; cbn [andb negb].
  - apply length_zero_iff_nil in E0. rewrite E0 in *. exists [kept T], mb3. rewrite app_nil_r in Pm. cbn. rewrite !app_nil_r. split_and!; try done. apply S3.
  - destruct (IH (later T) mb3) as (Gs & mb' & P' & E' & H'); try done; [lia|by rewrite Ch3|by rewrite De3, !Ed|].
    rewrite E'. cbn [obind]. exists (kept T :: Gs), mb'. cbn [concat flat_map]. split; [by rewrite P'|]. split; [|done].
    do 3 f_equal. apply flat_map_ext. intros G. by apply round_ext; [rewrite De3|..].
Qed.

Lemma text_retouched (ch : Channel) (m : Z) (t : text) : text_of (set_mode ch m) t = text_of ch t.
Proof. by destruct t as [|[]]. Qed.

Lemma sendable_touched (ch : Channel) (mb : ModeBuf) (cs : list change) (a r m : Z) : sendable ch mb cs -> sendable (set_mode ch m) (set_bits mb a r) cs.
Proof.
  intros [H1 H2 H3 H4 H5]. by split.
Qed.

Lemma next_dest_idem (d : Z) : next_dest (next_dest d) = next_dest d.
Proof.
  unfold next_dest. destruct (any d MODEBUF_DEST_SERVER && any d MODEBUF_DEST_DEOP) eqn:E; [|by rewrite E].
  assert (any (without d MODEBUF_DEST_DEOP) MODEBUF_DEST_DEOP = false) as ->; [|by rewrite andb_false_r].
  unfold any, without. by rewrite Z.land_ldiff.
Qed.

Lemma flush_all (st : state) (ch : Channel) (mb : ModeBuf) (cs : list change) : chans st !! mb_channel mb = Some ch -> walkable st ch -> sendable ch mb cs ->
  (mb_add mb =? 0) && (mb_rem mb =? 0) && (mb_count mb =? 0)%nat = false ->
  exists a r m G Gs mb', Permutation (G ++ concat Gs) cs /\ alike a (mb_add mb) /\ alike r (mb_rem mb) /\ alike m (mode ch) /\
    flush_int (S (S MAXMODEPARAMS)) st mb true =
      Ok (retouched st (mb_channel mb) ch m, mb',
          round (set_mode ch m) mb (simple reg a r) G ++ flat_map (round (set_mode ch m) (set_dest mb (next_dest (mb_dest mb))) no_letters) Gs) /\
    holding mb' [] /\ mb_add mb' = 0 /\ mb_rem mb' = 0.
Proof.
  intros Ec Wk Sd Ne. destruct (adjust_touched st mb ch Ec Wk) as (st1 & mb1 & st2 & mb2 & E1 & E2 & a & r & m & -> & -> & Ha & Hr & Hm).
  pose proof (sendable_touched ch mb cs a r m Sd) as Sd2.
  assert (chans (retouched st (mb_channel mb) ch m) !! mb_channel mb = Some (set_mode ch m)) as Ec2 by (cbn; by rewrite lookup_insert_eq).
  destruct (flush_round (S MAXMODEPARAMS) st st1 _ mb mb1 (set_bits mb a r) true (set_mode ch m) cs Ne E1 E2 Ec2 Sd2) as (mb3 & S3 & (A3 & R3 & So3 & Co3 & Ch3 & De3) & ->).
  set (T := split_of (set_mode ch m) (set_bits mb a r) cs) in *. cbn zeta. cbn [mb_add mb_rem set_bits] in *.
  pose proof (greedy_perm (set_mode ch m) (any (mb_dest mb) MODEBUF_DEST_NOKEY) (room (mb_dest mb)) cs) as Pm. change (greedy _ _ _ cs) with T in Pm.
  exists a, r, m, (kept T). destruct (Nat.eqb_spec (length (later T)) 0) as [E0|N0]; cbn [andb negb].
  - apply length_zero_iff_nil in E0. exists [], mb3. cbn [concat flat_map]. rewrite E0 in Pm, S3. rewrite app_nil_r in Pm. rewrite !app_nil_r. split_and!; try done. apply S3.
  - destruct (flush_rest (retouched st (mb_channel mb) ch m) (set_mode ch m) MAXMODEPARAMS (later T) mb3) as (Gs & mb' & P' & E' & H'); try done.
    + destruct S3 as [(rest & _ & _ & Lr & _) _ _ _ _]. lia.
    + by rewrite Ch3.
    + rewrite De3. apply next_dest_idem.
    + rewrite E'. cbn [obind]. exists Gs, mb'. split; [by rewrite P'|]. do 3 (split; [done|]). split; [|done]. do 3 f_equal. apply flat_map_ext. intros G. by apply round_ext.
Qed.

(** ** Adding a change *)
Definition places (dest : Z) : nat := (MAXMODEPARAMS - if any dest MODEBUF_DEST_DEOP then 1 else 0)%nat.
Definition buffered (ch : Channel) (mb : ModeBuf) (cs : list change) : Prop := sendable ch mb cs /\ (length cs < places (mb_dest mb))%nat.

Lemma holding_append (mb : ModeBuf) (cs : list change) (x : change) : holding mb cs -> (length cs < MAXMODEPARAMS)%nat ->
  (mb_count mb <? length (mb_modeargs mb))%nat = true /\ holding (set_args mb (S (mb_count mb)) (<[mb_count mb := slot_of x]> (mb_modeargs mb))) (cs ++ [x]).
Proof.
  intros (rest & Ea & Hb & El & En) Lt. destruct rest as [|r rest]; [cbn in El; lia|]. split.
  - rewrite Ea, En, length_app, length_map. apply Nat.ltb_lt. cbn in *. lia.
  - exists rest. cbn [set_args mb_modeargs mb_count]. rewrite Ea, En, <- (length_map slot_of cs), insert_mid. split_and!.
    + rewrite map_app, <- app_assoc. done.
    + by inversion Hb.
    + rewrite length_app. cbn in *. lia.
    + rewrite length_app, length_map. cbn. lia.
Qed.

Definition same_buf (mb mb' : ModeBuf) : Prop :=
  mb_source mb' = mb_source mb /\ mb_connect mb' = mb_connect mb /\ mb_channel mb' = mb_channel mb /\ (mb_dest mb' = mb_dest mb \/ mb_dest mb' = next_dest (mb_dest mb)).

Lemma places_next (d : Z) : (places d <= places (next_dest d))%nat.
Proof.
  unfold places, next_dest. destruct (any d MODEBUF_DEST_SERVER && any d MODEBUF_DEST_DEOP) eqn:E; [|done]. apply andb_true_iff in E as [_ ->].
  unfold MAXMODEPARAMS. destruct (any (without d MODEBUF_DEST_DEOP) MODEBUF_DEST_DEOP); lia.
Qed.

Lemma append_ok (st : state) (mb : ModeBuf) (ch : Channel) (cs : list change) (x : change) : chans st !! mb_channel mb = Some ch -> walkable st ch ->
  buffered ch mb cs -> change_ok ch x -> one_limit (cs ++ [x]) ->
  exists m mb' cs' more, append_slot reg IsServer IsMe get_secure_group_id cli_name NumNick his_modewho his_snotices st mb (slot_of x) = Ok (retouched st (mb_channel mb) ch m, mb', more) /\
    alike m (mode ch) /\ buffered (set_mode ch m) mb' cs' /\ cs' ⊆+ cs ++ [x] /\ same_buf mb mb'.
Proof.
  intros Ec Wk [Sd Lt] Hx Ol. assert (places (mb_dest mb) <= MAXMODEPARAMS)%nat as Pl by (unfold places; lia).
  destruct (holding_append mb cs x (sd_hold _ _ _ Sd)) as [Eb Hh]; [lia|]. unfold append_slot. rewrite Eb. cbn [set_args mb_count mb_dest].
  set (mb1 := set_args mb (S (mb_count mb)) (<[mb_count mb := slot_of x]> (mb_modeargs mb))) in *.
  assert (sendable ch mb1 (cs ++ [x])) as S1.
  { destruct Sd as [_ K _ Hs Hk]. split; try done. apply Forall_app. by repeat constructor. }
  fold (places (mb_dest mb)). destruct Hh as (rest & _ & _ & _ & En). cbn [mb1 set_args mb_count] in En. rewrite En, length_app in *. cbn [length] in *. rewrite Nat.add_1_r in *.
  destruct (Nat.leb_spec (places (mb_dest mb)) (S (length cs))) as [Full|Room].
  - assert ((mb_add mb1 =? 0) && (mb_rem mb1 =? 0) && (mb_count mb1 =? 0)%nat = false) as Ne by (cbn; by rewrite andb_false_r).
    destruct (adjust_touched st mb1 ch Ec Wk) as (st1 & mb2 & st2 & mb3 & E1 & E2 & a & r & m & -> & -> & Ha & Hr & Hm).
    pose proof (sendable_touched ch mb1 (cs ++ [x]) a r m S1) as S2. cbn [mb_channel mb1 set_args] in *.
    destruct (flush_round 0 st st1 _ mb1 mb2 (set_bits mb1 a r) false (set_mode ch m) (cs ++ [x]) Ne E1 E2) as (mb4 & S4 & (A4 & R4 & So & Co & Ch & De) & E4); [cbn; by rewrite lookup_insert_eq|done|].
    rewrite E4. cbn [andb]. set (T := split_of _ _ _) in *. exists m, mb4, (later T). eexists. split; [done|]. split; [done|]. split; [|split; [|by split_and!; [..|right]]].
    + split; [done|]. rewrite De. pose proof (places_next (mb_dest mb)) as Pn. cbn [set_bits mb_dest mb1 set_args].
      pose proof (greedy_progress (set_mode ch m) (any (mb_dest mb) MODEBUF_DEST_NOKEY) (room (mb_dest mb)) (cs ++ [x]) ltac:(apply room_bound) (sd_ok _ _ _ S2)) as Pr.
      change (greedy _ _ _ (cs ++ [x])) with T in Pr. rewrite length_app in Pr. cbn in Pr. assert (cs ++ [x] <> []) as N by (by destruct cs). specialize (Pr N). lia.
    + pose proof (greedy_perm (set_mode ch m) (any (mb_dest mb) MODEBUF_DEST_NOKEY) (room (mb_dest mb)) (cs ++ [x])) as Pm. change (greedy _ _ _ (cs ++ [x])) with T in Pm.
      rewrite <- Pm. apply submseteq_inserts_l. done.
  - exists (mode ch), mb1, (cs ++ [x]), []. rewrite retouched_same by done. split; [done|]. split; [done|]. split; [|split; [done|by split_and!; [..|left]]].
    assert (set_mode ch (mode ch) = ch) as -> by (by destruct ch). split; [done|]. rewrite length_app. change (mb_dest mb1) with (mb_dest mb). cbn [length]. lia.
Qed.
End Round.
End Spec.

Section Theorems.
Context (reg : list ChanMode) (IsServer IsMe : cid -> bool) (get_secure_group_id : cid -> Z).
Context (cli_name : cid -> list ascii) (NumNick : cid -> list ascii * list ascii) (his_modewho his_snotices : bool).

Abbreviation modebuf_flush := (modebuf_flush reg IsServer IsMe get_secure_group_id cli_name NumNick his_modewho his_snotices).
Abbreviation round := (round cli_name NumNick IsServer IsMe his_modewho his_snotices).

(** C15. Flushing a mode buffer returns, stays inside its text buffers and empties the
    buffer, and every change with an argument it held is sent exactly once: the first
    round of messages carries the plain flags and some of the changes, the others follow in
    further rounds, and the strings that were copied are freed once.  Apart from the flags
    derived from the members ([+d], [+z] for [+Z]) the channel and the plain flags are as
    they were. *)
Theorem modebuf_flush_sends (s : gset ascii) (st : state) (ch : Channel) (mb : ModeBuf) (cs : list change) : holds s reg ->
  chans st !! mb_channel mb = Some ch -> walkable st ch -> sendable cli_name NumNick ch mb cs ->
  (mb_add mb =? 0) && (mb_rem mb =? 0) && (mb_count mb =? 0)%nat = false ->
  exists a r m G Gs mb', Permutation (G ++ concat Gs) cs /\ alike a (mb_add mb) /\ alike r (mb_rem mb) /\ alike m (mode ch) /\
    modebuf_flush st mb =
      Ok (set_chan st (mb_channel mb) (set_mode ch m), mb',
          round (set_mode ch m) mb (simple reg a r) G ++ flat_map (round (set_mode ch m) (set_dest mb (next_dest (mb_dest mb))) no_letters) Gs) /\
    holding mb' [] /\ mb_add mb' = 0 /\ mb_rem mb' = 0.
Proof. intros H. apply flush_all. by apply (holds_length s). Qed.
End Theorems.

(** ** Examples *)
Definition ex_name (u : cid) : list ascii := cstr "nick".
Definition ex_numnick (u : cid) : list ascii * list ascii := (cstr "AB", cstr "AAC").
Definition ex_chname (c : chid) : list ascii := cstr "#chan".
Definition no_one (u : cid) : bool := false.
Definition one_group (u : cid) : Z := 0.
Definition ex_chan : Channel := Chan None 1000 0 None [] [] (Z.lor MODE_SECRET MODE_KEY) 0 (cstr "sesame") [] [].
Definition ex_state : state := State ∅ {[ 1%positive := ex_chan ]} ∅ None 0 1%positive 1 [].
Definition ex_changes : list change :=
  [Change true (KOp 2%positive MAXOPLEVEL) 0; Change false (KKey (Own FKey)) 0; Change true (KBan (Text (cstr "*!*@example.org")) true) 0; Change true (KLimit 25) 0].
Definition ex_buf : ModeBuf :=
  MkBuf (Z.lor MODE_ADD MODE_MODERATED) 0 2%positive (Some 2%positive) 1%positive (Z.lor MODEBUF_DEST_CHANNEL MODEBUF_DEST_SERVER) 4
    (map slot_of ex_changes ++ repeat (Slot 0 (MUint 0) 0) 2).

Lemma ex_sendable : sendable ex_name ex_numnick ex_chan ex_buf ex_changes.
Proof.
  split.
  - exists (repeat (Slot 0 (MUint 0) 0) 2). split_and!; [done| |done|done]. repeat constructor.
  - unfold ex_changes. repeat (apply List.Forall_cons); [..|apply List.Forall_nil]; unfold change_ok; cbn; unfold MAXOPLEVEL; lia.
  - unfold one_limit. cbn. lia.
  - cbn. lia.
  - done.
Qed.

Lemma modebuf_flush_sends_witness : exists a r m G Gs mb', Permutation (G ++ concat Gs) ex_changes /\ alike a (mb_add ex_buf) /\ alike r (mb_rem ex_buf) /\ alike m (mode ex_chan) /\
    modebuf_flush (channel_init_chan_modes []) no_one no_one one_group ex_name ex_numnick false false ex_state ex_buf =
      Ok (set_chan ex_state 1%positive (set_mode ex_chan m), mb',
          round ex_name ex_numnick no_one no_one false false (set_mode ex_chan m) ex_buf (simple (channel_init_chan_modes []) a r) G ++
          flat_map (round ex_name ex_numnick no_one no_one false false (set_mode ex_chan m) (set_dest ex_buf (next_dest (mb_dest ex_buf))) no_letters) Gs) /\
    holding mb' [] /\ mb_add mb' = 0 /\ mb_rem mb' = 0.
Proof.
  apply (modebuf_flush_sends (channel_init_chan_modes []) no_one no_one one_group ex_name ex_numnick false false ∅ ex_state ex_chan ex_buf ex_changes).
  - exact init_holds.
  - reflexivity.
  - exists []. split; [split; [reflexivity|intros i m H; discriminate H]|constructor].
  - exact ex_sendable.
  - reflexivity.
Defined.

Example ex_flush :
  match modebuf_flush (channel_init_chan_modes []) no_one no_one one_group ex_name ex_numnick false false ex_state ex_buf with
  | Ok (_, _, out) => map (fun a => match a with Send m => Some (String.string_of_list_ascii (sent_text m)) | Free _ => None end) out
  | _ => []
  end = [Some "-k+mobl sesame nick *!*@example.org 25"%string; Some "-k+mobl sesame ABAAC *!*@example.org 25"%string; None].
Proof. vm_compute. reflexivity. Qed.
