(* ===== verification/ModeParse.v ===== *)
(** * The parser of channel modes: [mode_parse] of [ircd/channel.c]

    The whole of [mode_parse] with its helpers, on the channels and members of [Channel],
    the bans of [Ban] and the mode buffers of [ModeBuf].  [struct ParseState] keeps the
    fields [Ban] needs in a [Ban.ParseState]; the arguments not used yet are a list. *)

From stdpp Require Import base list gmap sets strings.
From Stdlib Require Import ZArith Lia Ascii.
From S2P Require Import Prelude Chattr Strings AddrText.
From S2P Require Ban.
From S2P Require Import Channel ChanModes ModeBuf.

Local Open Scope ircu_scope.
Local Open Scope Z_scope.

Definition MAXPARA : nat := 15.
Definition KEYLEN : nat := 23.
Definition CHFL_BANVALID : Z := 0x0800.
Definition CHFL_DELAYED_TARGET : Z := 0x80000.

Definition MODE_PARSE_SET : Z := 0x01.
Definition MODE_PARSE_STRICT : Z := 0x02.
Definition MODE_PARSE_FORCE : Z := 0x04.
Definition MODE_PARSE_BOUNCE : Z := 0x08.
Definition MODE_PARSE_NOTOPER : Z := 0x10.
Definition MODE_PARSE_NOTMEMBER : Z := 0x20.
Definition MODE_PARSE_WIPEOUT : Z := 0x40.
Definition MODE_PARSE_BURST : Z := 0x80.

Definition DONE_LIMIT : Z := 0x01.
Definition DONE_KEY_ADD : Z := 0x02.
Definition DONE_UPASS_ADD : Z := 0x20.
Definition DONE_APASS_ADD : Z := 0x40.
Definition DONE_KEY_DEL : Z := 0x80.
Definition DONE_UPASS_DEL : Z := 0x100.
Definition DONE_APASS_DEL : Z := 0x200.

(** What the source of the change is told, and what members see outside of [MODE]. *)
Inductive reply : Type :=
| UnknownMode (x : ascii)
| InvalidKey
| KeySet
| NotManager
| NoManager
| UpassNotSet
| UpassSameApass
| UpassSet
| ChanSecured
| ApassWarn (pass : list ascii)
| ApassCleared
| NotLowerOplevel (name : list ascii)
| NoSuchNick (name : list ascii)
| UserNotInChannel (u : cid)
| IsChanService (u : cid)
| IsOperLchan (u : cid)
| HackDeop                            (** "Deop of +k user", to operators *)
| Denied                              (** by a module *)
| Revealed (u : cid).                 (** the delayed [JOIN] of a member *)

(** An entry of [cli_change]. *)
Record cli : Type := MkCli { cc_flag : Z; cc_oplevel : Z; cc_client : option cid }.

Record mstate : Type := MkM {
  cs : Channel.state;
  bs : Ban.ParseState;            (** bans, arguments left, [max_args], [done] *)
  mbuf : option ModeBuf;
  flags : Z;
  dir_add : bool;                  (** [dir] *)
  p_add : Z;
  p_del : Z;
  args_used : nat;
  cli_change : list cli;
  out : list action;
  replies : list reply
}.

Definition set_cs (s : mstate) (x : Channel.state) : mstate :=
  MkM x (bs s) (mbuf s) (flags s) (dir_add s) (p_add s) (p_del s) (args_used s) (cli_change s) (out s) (replies s).
Definition set_bs (s : mstate) (x : Ban.ParseState) : mstate :=
  MkM (cs s) x (mbuf s) (flags s) (dir_add s) (p_add s) (p_del s) (args_used s) (cli_change s) (out s) (replies s).
Definition set_buf (s : mstate) (x : Channel.state) (mb : ModeBuf) (more : list action) : mstate :=
  MkM x (bs s) (Some mb) (flags s) (dir_add s) (p_add s) (p_del s) (args_used s) (cli_change s) (out s ++ more) (replies s).
Definition set_flags (s : mstate) (f : Z) : mstate :=
  MkM (cs s) (bs s) (mbuf s) f (dir_add s) (p_add s) (p_del s) (args_used s) (cli_change s) (out s) (replies s).
Definition set_dir (s : mstate) (d : bool) : mstate :=
  MkM (cs s) (bs s) (mbuf s) (flags s) d (p_add s) (p_del s) (args_used s) (cli_change s) (out s) (replies s).
Definition set_simple (s : mstate) (a d : Z) : mstate :=
  MkM (cs s) (bs s) (mbuf s) (flags s) (dir_add s) a d (args_used s) (cli_change s) (out s) (replies s).
Definition set_used (s : mstate) (n : nat) : mstate :=
  MkM (cs s) (bs s) (mbuf s) (flags s) (dir_add s) (p_add s) (p_del s) n (cli_change s) (out s) (replies s).
Definition set_cli (s : mstate) (l : list cli) : mstate :=
  MkM (cs s) (bs s) (mbuf s) (flags s) (dir_add s) (p_add s) (p_del s) (args_used s) l (out s) (replies s).
Definition say (s : mstate) (r : reply) : mstate :=
  MkM (cs s) (bs s) (mbuf s) (flags s) (dir_add s) (p_add s) (p_del s) (args_used s) (cli_change s) (out s) (replies s ++ [r]).

Definition done (s : mstate) (d : Z) : bool := any (Ban.ps_done (bs s)) d.
Definition mark (s : mstate) (d : Z) : mstate := set_bs s (Ban.set_done (bs s) d).
Definition flagged (s : mstate) (f : Z) : bool := any (flags s) f.
Definition dir (s : mstate) : Z := if dir_add s then MODE_ADD else MODE_DEL.
Definition need_more (s : mstate) : mstate := set_bs s (Ban.note (bs s) Ban.NeedMore).
Definition send_notoper (s : mstate) : mstate := set_bs s (Ban.send_notoper (bs s)).
(** [state->flags & (MODE_PARSE_NOTOPER | MODE_PARSE_NOTMEMBER)] *)
Definition rightless (s : mstate) : bool := flagged s (Z.lor MODE_PARSE_NOTOPER MODE_PARSE_NOTMEMBER).

(** The next argument. *)
Definition take_arg (s : mstate) : option (list ascii * mstate) :=
  match Ban.parv (bs s) with
  | [] => None
  | t_str :: rest =>
      let b := bs s in
      Some (t_str, set_used (set_bs s (Ban.MkParse (Ban.st b) (Ban.banlist b) rest (Ban.max_args b - 1) (Ban.ps_done b) (Ban.numbans b) (Ban.notices b))) (S (args_used s)))
  end.

(** ** [struct Mode] of a channel *)
Definition set_limit (ch : Channel) (m l : Z) : Channel :=
  Chan (destruct_event ch) (creationtime ch) (users ch) (members ch) (invites ch) (banlist ch) m l (key ch) (apass ch) (upass ch).
Definition set_key (ch : Channel) (k : list ascii) : Channel :=
  Chan (destruct_event ch) (creationtime ch) (users ch) (members ch) (invites ch) (banlist ch) (mode ch) (limit ch) k (apass ch) (upass ch).
Definition set_passes (ch : Channel) (a u : list ascii) : Channel :=
  Chan (destruct_event ch) (creationtime ch) (users ch) (members ch) (invites ch) (banlist ch) (mode ch) (limit ch) (key ch) a u.
Definition set_creationtime (ch : Channel) (t : Z) : Channel :=
  Chan (destruct_event ch) t (users ch) (members ch) (invites ch) (banlist ch) (mode ch) (limit ch) (key ch) (apass ch) (upass ch).
Definition set_oplevel (x : Membership) (l : Z) : Membership :=
  Member (user x) (channel x) (next_member x) (prev_member x) (next_channel x) (prev_channel x) (status x) (u16 l).

(** ** Numbers of the C library *)
Definition isspace (x : ascii) : bool := (x =c " ") || ((9 <=? uchar x) && (uchar x <=? 13)).
Fixpoint skip_space (p : list ascii) : list ascii :=
  match p with [] => [] | x :: r => if isspace x then skip_space r else p end.
Definition signed (p : list ascii) : bool * list ascii :=
  match skip_space p with
  | x :: r => if x =c "-" then (true, r) else if x =c "+" then (false, r) else (false, x :: r)
  | [] => (false, [])
  end.
Fixpoint digits (p : list ascii) (acc : Z) : Z :=
  match p with [] => acc | x :: r => if is_dec x then digits r (acc * 10 + digit_value x) else acc end.
(** [unsigned long] has 64 bits; so has [long] in [atoi], which is [(int) strtol()]. *)
Definition strtoul (p : list ascii) : Z :=
  let (neg, p) := signed p in
  let v := digits p 0 in
  if 2 ^ 64 <=? v then 2 ^ 64 - 1 else if neg then (- v) mod 2 ^ 64 else v.
Definition atoi (p : list ascii) : Z :=
  let (neg, p) := signed p in
  let v := digits p 0 in
  i32 (if neg then Z.max (- 2 ^ 63) (- v) else Z.min (2 ^ 63 - 1) v).

Section Parser.
Context (reg : list ChanMode).
Context (IsServer IsMe IsChannelService MyUser IsUser IsAnOper IsBurstOrBurstAck : cid -> bool).
Context (priv_apass_opmode priv_deop_lchan : cid -> bool).     (** [HasPriv] *)
Context (get_secure_group_id : cid -> Z).
Context (cli_name : cid -> list ascii) (NumNick : cid -> list ascii * list ascii) (chname : chid -> list ascii).
Context (find_client : list ascii -> option cid).              (** [FindClient], else [get_history] *)
Context (findNUser : list ascii -> option cid).
Context (his_modewho his_snotices oplevels : bool) (now max_bans av_ban_len : Z).
Context (pre_mode_denied : cid -> cid -> chid -> list ascii -> bool). (** [HOOK_CHANNEL_PRE_MODE] *)

(** The constant part of the [ParseState]. *)
Context (cptr sptr : cid) (chptr : chid) (member : option mid).

Abbreviation mode_uint := (modebuf_mode_uint reg IsServer IsMe get_secure_group_id cli_name NumNick his_modewho his_snotices).
Abbreviation mode_string := (modebuf_mode_string reg IsServer IsMe get_secure_group_id cli_name NumNick his_modewho his_snotices).
Abbreviation mode_client := (modebuf_mode_client reg IsServer IsMe get_secure_group_id cli_name NumNick his_modewho his_snotices).
Abbreviation find_member_link := (find_member_link IsServer IsMe IsChannelService).

Definition my : bool := MyUser sptr.

(** Run an operation of the mode buffer; there is one where this is called. *)
Definition with_buf (s : mstate) (f : Channel.state -> ModeBuf -> outcome (Channel.state * ModeBuf * list action)) : outcome mstate :=
  match mbuf s with
  | None => Oob
  | Some mb => let* (st, mb, more) := f (cs s) mb in Ok (set_buf s st mb more)
  end.
Definition change_chan (s : mstate) (f : Channel -> Channel) : outcome mstate :=
  let* ch := load_chan (cs s) chptr in Ok (set_cs s (set_chan (cs s) chptr (f ch))).

Definition too_many (s : mstate) : bool := my && (Ban.max_args (bs s) <=? 0).

(** ** [+l] *)
Definition limit_tail (cm : ChanMode) (s : mstate) (t_limit : Z) : outcome mstate :=
  if rightless s then Ok (send_notoper s)
  else
    let* ch := load_chan (cs s) chptr in
    if negb (dir_add s) && (limit ch =? 0) then Ok s
    else if flagged s MODE_PARSE_BURST && any (mode ch) (flag cm) && (limit ch <? t_limit) then Ok s
    else if done s DONE_LIMIT then Ok s
    else
      let s := mark s DONE_LIMIT in
      match mbuf s with
      | None => Ok s
      | Some _ =>
          let* s := with_buf s (fun st mb => mode_uint st mb (Z.lor (dir s) (flag cm)) t_limit) in
          if flagged s MODE_PARSE_SET then
            change_chan s (fun ch => if dir_add s then set_limit ch (Z.lor (mode ch) (flag cm)) t_limit else set_limit ch (without (mode ch) (flag cm)) 0)
          else Ok s
      end.

Definition mode_parse_limit (cm : ChanMode) (s : mstate) : outcome mstate :=
  if dir_add s then
    if too_many s then Ok s
    else
      match take_arg s with
      | None => Ok (if my then need_more s else s)
      | Some (arg, s) =>
          let t_limit := u32 (strtoul arg) in
          if 2 ^ 31 <=? t_limit then Ok s
          else
            let* ch := load_chan (cs s) chptr in
            if negb (flagged s MODE_PARSE_WIPEOUT) && ((t_limit =? 0) || (t_limit =? limit ch)) then Ok s
            else limit_tail cm s t_limit
      end
  else
    let* ch := load_chan (cs s) chptr in
    limit_tail cm s (limit ch).

(** ** Keys and passwords *)
Definition bad_key_char (x : ascii) : bool := (uchar x <=? 32) || (x =c ",").
Definition is_clean_key (s : mstate) (str : list ascii) : mstate * bool :=
  match str with
  | [] => (if my then need_more s else s, false)
  | x :: _ =>
      if (x =c ":") || existsb bad_key_char (take (S KEYLEN) str) || (KEYLEN <? length str)%nat
      then (if my then say s InvalidKey else s, false)
      else (s, true)
  end.

(** Adding is done once, removing once and not after adding; [None] when it is too late. *)
Definition once (s : mstate) (DONE_ADD DONE_DEL : Z) : option mstate :=
  if dir_add s then if done s DONE_ADD then None else Some (mark s DONE_ADD)
  else if done s (Z.lor DONE_ADD DONE_DEL) then None else Some (mark s DONE_DEL).

(** A bounce puts the old text back, or takes the new one away. *)
Definition send_text (cm : ChanMode) (s : mstate) (old : list ascii) (f : field) (t_str : list ascii) : outcome mstate :=
  if flagged s MODE_PARSE_BOUNCE then
    match old with
    | [] => with_buf s (fun st mb => mode_string st mb (Z.lor MODE_ADD (flag cm)) (Text t_str) false)
    | _ => with_buf s (fun st mb => mode_string st mb (Z.lor MODE_DEL (flag cm)) (Own f) false)
    end
  else with_buf s (fun st mb => mode_string st mb (Z.lor (dir s) (flag cm)) (Text t_str) false).

Definition empty (t : list ascii) : bool := match t with [] => true | _ => false end.
Definition same_text (a b : list ascii) : bool := ircd_strcmp a b =? 0.

Definition key_tail (cm : ChanMode) (s : mstate) (t_str : list ascii) : outcome mstate :=
  let* ch := load_chan (cs s) chptr in
  if flagged s MODE_PARSE_BURST && negb (empty (key ch)) && (ircd_strcmp (key ch) t_str <=? 0) then Ok s
  else if negb (flagged s MODE_PARSE_FORCE) && ((dir_add s && negb (empty (key ch))) || (negb (dir_add s) && negb (same_text (key ch) t_str)))
  then Ok (say s KeySet)
  else if negb (flagged s MODE_PARSE_WIPEOUT) && dir_add s && same_text (key ch) t_str then Ok s
  else
    let* s := send_text cm s (key ch) FKey t_str in
    if flagged s MODE_PARSE_SET then change_chan s (fun ch => set_key ch (if dir_add s then ircd_strncpy t_str KEYLEN else []))
    else Ok s.

Definition mode_parse_key (cm : ChanMode) (s : mstate) : outcome mstate :=
  if too_many s then Ok s
  else
    match take_arg s with
    | None => Ok (if my then need_more s else s)
    | Some (t_str, s) =>
        if rightless s then Ok (send_notoper s)
        else
          match once s DONE_KEY_ADD DONE_KEY_DEL with
          | None => Ok s
          | Some s =>
              let (s, ok) := is_clean_key s t_str in
              if negb ok then Ok s
              else match mbuf s with None => Ok s | Some _ => key_tail cm s t_str end
          end
    end.

Definition IsChannelManager (s : mstate) : outcome bool :=
  match member with
  | None => Oob
  | Some m => let* x := load (heap (cs s)) m in Ok (any (status x) CHFL_CHANNEL_MANAGER)
  end.

Definition upass_tail (cm : ChanMode) (s : mstate) (t_str : list ascii) : outcome mstate :=
  let* ch := load_chan (cs s) chptr in
  let force := flagged s MODE_PARSE_FORCE in
  if negb force && dir_add s && empty (apass ch) then Ok (say s UpassNotSet)
  else if negb force && dir_add s && same_text (apass ch) t_str then Ok (say s UpassSameApass)
  else if negb force && ((dir_add s && negb (empty (upass ch))) || (negb (dir_add s) && negb (same_text (upass ch) t_str))) then Ok (say s KeySet)
  else if negb (flagged s MODE_PARSE_WIPEOUT) && dir_add s && same_text (upass ch) t_str then Ok s
  else if flagged s MODE_PARSE_BURST && negb (empty (upass ch)) && (ircd_strcmp (upass ch) t_str <=? 0) then Ok s
  else
    let* s := send_text cm s (upass ch) FUpass t_str in
    if flagged s MODE_PARSE_SET then change_chan s (fun ch => set_passes ch (apass ch) (if dir_add s then ircd_strncpy t_str KEYLEN else []))
    else Ok s.

(** Whom [+U] refuses: [Some] reply. *)
Definition upass_refused (s : mstate) : outcome (option reply) :=
  if flagged s MODE_PARSE_FORCE && my && negb (priv_apass_opmode sptr) then Ok (Some NotManager)
  else if my && negb (flagged s MODE_PARSE_FORCE) then
    let* manager := IsChannelManager s in
    if manager then Ok None
    else let* ch := load_chan (cs s) chptr in Ok (Some (if empty (apass ch) then NoManager else NotManager))
  else Ok None.

Definition mode_parse_upass (cm : ChanMode) (s : mstate) : outcome mstate :=
  if too_many s then Ok s
  else
    match take_arg s with
    | None => Ok (if my then need_more s else s)
    | Some (t_str, s) =>
        if rightless s then Ok (send_notoper s)
        else
          let* refused := upass_refused s in
          match refused with
          | Some r => Ok (say s r)
          | None =>
              match once s DONE_UPASS_ADD DONE_UPASS_DEL with
              | None => Ok s
              | Some s =>
                  let (s, ok) := is_clean_key s t_str in
                  if negb ok then Ok s
                  else match mbuf s with None => Ok s | Some _ => upass_tail cm s t_str end
              end
          end
    end.

(** Whom [+A] refuses. *)
Definition apass_refused (s : mstate) (t_str : list ascii) : outcome (option reply) :=
  if negb my then Ok None
  else
    let* ch := load_chan (cs s) chptr in
    let* r :=
      if flagged s MODE_PARSE_FORCE then Ok (if priv_apass_opmode sptr then None else Some NotManager)
      else
        let* manager := IsChannelManager s in
        Ok (if negb manager then Some (if empty (apass ch) then NoManager else NotManager)
            else if negb (dir_add s) && negb (empty (upass ch)) then Some UpassSet
            else if (dir_add s && negb (empty (apass ch))) || (negb (dir_add s) && negb (same_text (apass ch) t_str)) then Some KeySet
            else None) in
    match r with
    | Some r => Ok (Some r)
    | None => Ok (if (172800 <=? now - creationtime ch) && negb (dir_add s) && negb (IsAnOper sptr) then Some ChanSecured else None)
    end.

Definition set_member_oplevel (s : mstate) (m : mid) (l : Z) : outcome mstate :=
  let* h := update (heap (cs s)) m (fun x => set_oplevel x l) in Ok (set_cs s (set_heap (cs s) h)).

(** [for (memb = chptr->members; memb; memb = memb->next_member)]: operators get [MAXOPLEVEL]. *)
Fixpoint revert_levels (fuel : nat) (h : gmap mid Membership) (memb : option mid) : outcome (gmap mid Membership) :=
  match memb with
  | None => Ok h
  | Some m =>
      match fuel with
      | O => Fuel
      | S fuel =>
          let* x := load h m in
          let h := if any (status x) CHFL_CHANOP then <[m := set_oplevel x MAXOPLEVEL]> h else h in
          revert_levels fuel h (next_member x)
      end
  end.

Definition apass_set (s : mstate) (t_str : list ascii) : outcome mstate :=
  if dir_add s then
    let* s := change_chan s (fun ch => if empty (apass ch) || flagged s MODE_PARSE_BURST then set_passes ch (ircd_strncpy t_str KEYLEN) (upass ch) else ch) in
    let* ch := load_chan (cs s) chptr in
    let s := if my then say s (ApassWarn (apass ch)) else s in
    match member with None => Ok s | Some m => set_member_oplevel s m 0 end
  else
    let* s := change_chan s (fun ch => set_passes ch [] []) in
    let s := if my then say s ApassCleared else s in
    let* ch := load_chan (cs s) chptr in
    let* h := revert_levels (fuel_of (cs s)) (heap (cs s)) (members ch) in
    Ok (set_cs s (set_heap (cs s) h)).

Definition apass_tail (cm : ChanMode) (s : mstate) (t_str : list ascii) : outcome mstate :=
  let* ch := load_chan (cs s) chptr in
  if negb (flagged s MODE_PARSE_WIPEOUT) && dir_add s && same_text (apass ch) t_str then Ok s
  else if flagged s MODE_PARSE_BURST && negb (empty (apass ch)) && (ircd_strcmp (apass ch) t_str <=? 0) then Ok s
  else
    let* s := send_text cm s (apass ch) FApass t_str in
    if flagged s MODE_PARSE_SET then apass_set s t_str else Ok s.

Definition mode_parse_apass (cm : ChanMode) (s : mstate) : outcome mstate :=
  if too_many s then Ok s
  else
    match take_arg s with
    | None => Ok (if my then need_more s else s)
    | Some (t_str, s) =>
        if rightless s then Ok (send_notoper s)
        else
          let* refused := apass_refused s t_str in
          match refused with
          | Some r => Ok (say s r)
          | None =>
              match once s DONE_APASS_ADD DONE_APASS_DEL with
              | None => Ok s
              | Some s =>
                  let (s, ok) := is_clean_key s t_str in
                  if negb ok then Ok s
                  else match mbuf s with None => Ok s | Some _ => apass_tail cm s t_str end
              end
          end
    end.

(** ** [+o], [+v] *)
Definition chan_member_status (f : Z) : Z :=
  Z.lor (if any f MODE_CHANOP then CHFL_CHANOP else 0) (if any f MODE_VOICE then CHFL_VOICE else 0).

Definition member_level (s : mstate) : outcome (option Z) :=
  match member with None => Ok None | Some m => let* x := load (heap (cs s)) m in Ok (Some (oplevel x)) end.

(** The name and the level a local user asks for; [None] when the level is not his to give. *)
Definition asked_level (cm : ChanMode) (s : mstate) (t_str : list ascii) : outcome (mstate * option (list ascii * Z)) :=
  match strchr t_str ":" with
  | None => Ok (s, Some (t_str, MAXOPLEVEL + 1))
  | Some i =>
      let name := take i t_str in
      let req := atoi (drop (S i) t_str) in
      if (flag cm =? MODE_VOICE) || negb (dir_add s) then Ok (s, Some (name, MAXOPLEVEL + 1))
      else
        let* mine := member_level s in
        match mine with
        | Some l =>
            if negb (flagged s MODE_PARSE_FORCE) && ((req <? l) || ((req =? l) && (l <? MAXOPLEVEL)) || (MAXOPLEVEL <? req))
            then Ok (say s (NotLowerOplevel name), None)
            else Ok (s, Some (name, if req <=? MAXOPLEVEL then req else MAXOPLEVEL + 1))
        | None => Ok (s, Some (name, if req <=? MAXOPLEVEL then req else MAXOPLEVEL + 1))
        end
  end.

(** The client an argument names, and the level.  A server's argument is a numeric of five
    characters; a shorter one makes the code read behind it. *)
Definition named_client (cm : ChanMode) (s : mstate) (t_str : list ascii) : outcome (mstate * option (cid * Z)) :=
  if my then
    let* (s, r) := asked_level cm s t_str in
    match r with
    | None => Ok (s, None)
    | Some (name, level) =>
        match find_client name with
        | None => Ok (say s (NoSuchNick name), None)
        | Some u => Ok (s, Some (u, level))
        end
    end
  else if (length t_str <? 5)%nat then Oob
  else
    let '(name, level) :=
      match t_str !! 5%nat with
      | Some x => if x =c ":" then (take 5 t_str, atoi (drop 6 t_str)) else (t_str, MAXOPLEVEL + 1)
      | None => (t_str, MAXOPLEVEL + 1)
      end in
    Ok (s, match findNUser name with None => None | Some u => Some (u, level) end).

Fixpoint free_place (l : list cli) (u : cid) (f : Z) (i : nat) : nat :=
  match l with
  | [] => i
  | e :: l => if (cc_flag e =? 0) || (bool_decide (cc_client e = Some u) && any (cc_flag e) f) then i else free_place l u f (S i)
  end.

Definition mode_parse_client (cm : ChanMode) (s : mstate) : outcome mstate :=
  if too_many s then Ok s
  else
    match take_arg s with
    | None => Ok s
    | Some (t_str, s) =>
        if rightless s then Ok (send_notoper s)
        else
          let* (s, r) := named_client cm s t_str in
          match r with
          | None => Ok s
          | Some (acptr, level) =>
              let i := free_place (cli_change s) acptr (flag cm) 0 in
              if (MAXPARA <=? i)%nat then Ok s
              else
                let* level :=
                  if flagged s MODE_PARSE_BOUNCE && negb (dir_add s) && (flag cm =? MODE_CHANOP) then
                    let* m := find_member_link (cs s) chptr acptr in
                    match m with Some m => let* x := load (heap (cs s)) m in Ok (oplevel x) | None => Ok level end
                  else Ok level in
                Ok (set_cli s (<[i := MkCli (Z.lor (dir s) (flag cm)) (u16 level) (Some acptr)]> (cli_change s)))
          end
    end.

(** ** [mode_process_clients] *)
Definition RevealDelayedJoin (s : mstate) (m : mid) : outcome mstate :=
  let* x := load (heap (cs s)) m in
  let s := set_cs s (set_heap (cs s) (<[m := set_status x (without (status x) CHFL_DELAYED)]> (heap (cs s)))) in
  let* st := CheckDelayedJoins (cs s) (channel x) in
  Ok (say (set_cs s st) (Revealed (user x))).

Definition set_member_status (s : mstate) (m : mid) (f : Z -> Z) : outcome mstate :=
  let* h := update (heap (cs s)) m (fun x => set_status x (f (status x))) in Ok (set_cs s (set_heap (cs s) h)).

(** Whether the deop of [u], whose membership is [x], is refused. *)
Definition deop_refused (s : mstate) (u : cid) (x : Membership) : outcome (option reply) :=
  if IsChannelService u && negb (flagged s MODE_PARSE_FORCE) && my && flagged s MODE_PARSE_SET then Ok (Some (IsChanService u))
  else if negb my then Ok None
  else if negb (Pos.eqb u sptr) && IsLocalChannel (chname chptr) && priv_deop_lchan u then Ok (Some (IsOperLchan u))
  else
    let* mine := member_level s in
    match mine with
    | Some l =>
        Ok (if negb (Pos.eqb sptr u) && ((oplevel x <? l) || ((oplevel x =? l) && (oplevel x <? MAXOPLEVEL)))
            then Some (NotLowerOplevel (cli_name u)) else None)
    | None => Ok None
    end.

(** The level of a member who is opped. *)
Definition new_level (s : mstate) (asked : Z) : outcome Z :=
  if asked <=? MAXOPLEVEL then Ok asked
  else
    let* mine := member_level s in
    Ok (match mine with None => MAXOPLEVEL | Some l => if MAXOPLEVEL <=? l then l else l + 1 end).

Definition process_change (s : mstate) (e : cli) (u : cid) (m : mid) : outcome mstate :=
  let f := cc_flag e in
  let* x := load (heap (cs s)) m in
  let held := any (chan_member_status f) (status x) in
  if (any f MODE_ADD && held) || (any f MODE_DEL && negb held) then Ok s
  else
    let deop := Z.land f (Z.lor MODE_DEL MODE_CHANOP) =? Z.lor MODE_DEL MODE_CHANOP in
    let s := if deop && IsChannelService u && flagged s MODE_PARSE_FORCE then say s HackDeop else s in
    let* refused := if deop then deop_refused s u x else Ok None in
    match refused with
    | Some r => Ok (say s r)
    | None =>
        let* s :=
          if Z.land f (Z.lor MODE_ADD MODE_CHANOP) =? Z.lor MODE_ADD MODE_CHANOP then
            let* l := new_level s (cc_oplevel e) in set_member_oplevel s m l
          else Ok s in
        let* s :=
          if flagged s MODE_PARSE_SET then
            if any f MODE_ADD then
              let* s := if IsDelayedJoin x && negb (IsZombie x) then RevealDelayedJoin s m else Ok s in
              set_member_status s m (fun t =>
                let t := Z.lor (without t CHFL_DELAYED_TARGET) (chan_member_status f) in
                if any f MODE_CHANOP then without t CHFL_DEOPPED else t)
            else set_member_status s m (fun t => without t (chan_member_status f))
          else Ok s in
        with_buf s (fun st mb => mode_client st mb f u (cc_oplevel e))
    end.

Fixpoint process_clients (fuel i : nat) (s : mstate) : outcome mstate :=
  match fuel with
  | O => Fuel
  | S fuel =>
      match cli_change s !! i with
      | None => Oob
      | Some e =>
          if cc_flag e =? 0 then Ok s
          else
            match cc_client e with
            | None => Oob
            | Some u =>
                let* m := find_member_link (cs s) chptr u in
                let* gone := match m with None => Ok true | Some m => let* x := load (heap (cs s)) m in Ok (my && IsZombie x) end in
                if gone then process_clients fuel (S i) (if my then say s (UserNotInChannel u) else s)
                else
                  match m with
                  | None => Oob
                  | Some m => let* s := process_change s e u m in process_clients fuel (S i) s
                  end
            end
      end
  end.
Definition mode_process_clients (s : mstate) : outcome mstate := process_clients (S MAXPARA) 0 s.

(** ** The simple modes *)
Definition mode_parse_mode (cm : ChanMode) (s : mstate) : mstate :=
  if rightless s then send_notoper s
  else
    match mbuf s with
    | None => s
    | Some _ =>
        if any (attr cm) CHANMODE_SERVERONLY && negb (flagged s MODE_PARSE_FORCE) && my then s
        else if dir_add s then
          let add := Z.lor (p_add s) (flag cm) in
          let del := without (p_del s) (flag cm) in
          if any (flag cm) MODE_SECRET then set_simple s (without add MODE_PRIVATE) (Z.lor del MODE_PRIVATE)
          else if any (flag cm) MODE_PRIVATE then set_simple s (without add MODE_SECRET) (Z.lor del MODE_SECRET)
          else set_simple s add del
        else set_simple s (without (p_add s) (flag cm)) (Z.lor (p_del s) (flag cm))
    end.

(** ** Bans *)
Definition request (s : mstate) : Ban.Request :=
  Ban.MkRequest my (if IsUser sptr then cli_name sptr else cstr "*") (rightless s) (flagged s MODE_PARSE_SET) (flagged s MODE_PARSE_BOUNCE)
    (match mbuf s with Some mb => any (mb_dest mb) MODEBUF_DEST_OPMODE | None => false end) now max_bans av_ban_len.

Definition mode_parse_ban (cm : ChanMode) (s : mstate) : outcome mstate :=
  let* b := Ban.mode_parse_ban (request s) (dir_add s) (negb (flag cm =? MODE_BAN)) (bs s) in
  Ok (set_used (set_bs s b) (args_used s + (length (Ban.parv (bs s)) - length (Ban.parv b)))).

(** [mode_ban_invalidate] *)
Fixpoint invalidate_loop (fuel : nat) (h : gmap mid Membership) (memb : option mid) : outcome (gmap mid Membership) :=
  match memb with
  | None => Ok h
  | Some m =>
      match fuel with
      | O => Fuel
      | S fuel => let* x := load h m in invalidate_loop fuel (<[m := set_status x (without (status x) CHFL_BANVALID)]> h) (next_member x)
      end
  end.
Definition mode_ban_invalidate (s : mstate) : outcome mstate :=
  let* ch := load_chan (cs s) chptr in
  let* h := invalidate_loop (fuel_of (cs s)) (heap (cs s)) (members ch) in
  Ok (set_cs s (set_heap (cs s) h)).

(** The changes of bans go to the buffer in the order they are made, as copies. *)
Fixpoint send_bans (l : list Ban.notice) (s : mstate) : outcome mstate :=
  match l with
  | [] => Ok s
  | Ban.ModeAdd mask :: l => let* s := with_buf s (fun st mb => mode_string st mb (Z.lor MODE_ADD MODE_BAN) (Text mask) true) in send_bans l s
  | Ban.ModeDel mask :: l => let* s := with_buf s (fun st mb => mode_string st mb (Z.lor MODE_DEL MODE_BAN) (Text mask) true) in send_bans l s
  | _ :: l => send_bans l s
  end.

Definition mode_process_bans (s : mstate) : outcome mstate :=
  let* (b, changed) := Ban.mode_process_bans (request s) (bs s) in
  let* s := send_bans (drop (length (Ban.notices (bs s))) (Ban.notices b)) (set_bs s b) in
  if changed then mode_ban_invalidate s else Ok s.

(** ** [mode_parse] *)
Definition parse_letter (x : ascii) (s : mstate) : outcome mstate :=
  if x =c "+" then Ok (set_dir s true)
  else if x =c "-" then Ok (set_dir s false)
  else
    match channel_find_chan_mode reg x with
    | None => Ok (if my then say s (UnknownMode x) else s)
    | Some cm =>
        if any (attr cm) CHANMODE_INTERNAL then Ok (if my then say s (UnknownMode x) else s)
        else if x =c "l" then mode_parse_limit cm s
        else if x =c "k" then mode_parse_key cm s
        else if x =c "A" then if IsServer cptr || oplevels then mode_parse_apass cm s else Ok s
        else if x =c "U" then if IsServer cptr || oplevels then mode_parse_upass cm s else Ok s
        else if x =c "b" then mode_parse_ban cm s
        else if (x =c "o") || (x =c "v") then mode_parse_client cm s
        else Ok (mode_parse_mode cm s)
    end.

Fixpoint parse_letters (modestr : list ascii) (s : mstate) : outcome mstate :=
  match modestr with
  | [] => Ok s
  | x :: modestr => let* s := parse_letter x s in parse_letters modestr s
  end.

(** The time stamp at the end of a server's [MODE]; true when [mode_parse] returns at once. *)
Definition parse_ts (modestr : list ascii) (s : mstate) : outcome (mstate * bool) :=
  if negb (flagged s MODE_PARSE_SET) then Ok (s, false)
  else
    let recv_ts := atoi modestr in
    let* ch := load_chan (cs s) chptr in
    if negb (recv_ts =? 0) && (recv_ts <? creationtime ch) then
      let* s := change_chan s (fun ch => set_creationtime ch recv_ts) in Ok (s, false)
    else if creationtime ch <? recv_ts then
      match mbuf s with
      | None => Oob
      | Some mb =>
          if IsBurstOrBurstAck cptr then
            Ok (set_buf s (cs s) (MkBuf 0 0 (mb_source mb) (mb_connect mb) (mb_channel mb) (mb_dest mb) 0 (mb_modeargs mb)) [], true)
          else
            let dest := Z.lor (without (mb_dest mb) (Z.lor MODEBUF_DEST_CHANNEL MODEBUF_DEST_HACK4)) (Z.lor MODEBUF_DEST_BOUNCE MODEBUF_DEST_HACK2) in
            Ok (set_buf (set_flags s (Z.lor (without (flags s) MODE_PARSE_SET) MODE_PARSE_BOUNCE)) (cs s) (set_dest mb dest) [], false)
      end
    else Ok (s, false).

(** [while ( *modestr)]; each turn but the first uses an argument. *)
Fixpoint parse_words (fuel : nat) (modestr : list ascii) (s : mstate) : outcome (mstate * bool) :=
  match modestr with
  | [] => Ok (s, false)
  | _ =>
      match fuel with
      | O => Fuel
      | S fuel =>
          let* s := parse_letters modestr s in
          if flagged s MODE_PARSE_BURST then Ok (s, false)
          else
            match Ban.parv (bs s) with
            | [] => Ok (s, false)
            | next :: rest =>
                let b := bs s in
                let took := set_used (set_bs s (Ban.MkParse (Ban.st b) (Ban.banlist b) rest (Ban.max_args b) (Ban.ps_done b) (Ban.numbans b) (Ban.notices b))) (S (args_used s)) in
                if IsServer cptr && match rest with [] => true | _ => false end && IsDigit (deref next) then parse_ts next took
                else if flagged s MODE_PARSE_STRICT || too_many s then Ok (s, false)
                else parse_words fuel next took
            end
      end
  end.

(** The limit, key and passwords of the channel that the burst did not name. *)
Definition wipe_out (s : mstate) : outcome mstate :=
  let* ch := load_chan (cs s) chptr in
  let wipe cond f (s : mstate) := if cond : bool then with_buf s f else Ok s in
  let* s := wipe (negb (limit ch =? 0) && negb (done s DONE_LIMIT)) (fun st mb => mode_uint st mb (Z.lor MODE_DEL MODE_LIMIT) (limit ch)) s in
  let* s := wipe (negb (empty (key ch)) && negb (done s DONE_KEY_DEL)) (fun st mb => mode_string st mb (Z.lor MODE_DEL MODE_KEY) (Own FKey) false) s in
  let* s := wipe (negb (empty (upass ch)) && negb (done s DONE_UPASS_DEL)) (fun st mb => mode_string st mb (Z.lor MODE_DEL MODE_UPASS) (Own FUpass) false) s in
  wipe (negb (empty (apass ch)) && negb (done s DONE_APASS_DEL)) (fun st mb => mode_string st mb (Z.lor MODE_DEL MODE_APASS) (Own FApass) false) s.

(** The simple modes, collected and set. *)
Definition set_simple_modes (s : mstate) : outcome mstate :=
  match mbuf s with
  | None => Ok s
  | Some mb =>
      let* ch := load_chan (cs s) chptr in
      let t_mode := mode ch in
      let (mb, t_mode) :=
        if any (p_del s) t_mode then (modebuf_mode reg mb (Z.lor MODE_DEL (Z.land (p_del s) t_mode)), without t_mode (p_del s)) else (mb, t_mode) in
      let (mb, t_mode) :=
        if negb (without (p_add s) t_mode =? 0) then (modebuf_mode reg mb (Z.lor MODE_ADD (without (p_add s) t_mode)), Z.lor t_mode (p_add s)) else (mb, t_mode) in
      let s := set_buf s (cs s) mb [] in
      if flagged s MODE_PARSE_SET then
        let* st := if has_mode ch MODE_INVITEONLY && negb (any t_mode MODE_INVITEONLY) then mode_invite_clear (cs s) chptr else Ok (cs s) in
        change_chan (set_cs s st) (fun ch => set_mode ch t_mode)
      else Ok s
  end.

Definition finish (s : mstate) : outcome mstate :=
  match mbuf s with
  | None => Ok s
  | Some _ =>
      if rightless s then Ok s
      else
        let* s := set_simple_modes s in
        let* s := if flagged s MODE_PARSE_WIPEOUT then wipe_out s else Ok s in
        let* s := if done s Ban.DONE_BANCLEAN then mode_process_bans s else Ok s in
        match cli_change s !! 0%nat with
        | None => Oob
        | Some e => if cc_flag e =? 0 then Ok s else mode_process_clients s
        end
  end.

(** [parv] are the words of the command; the result has the number of those that were used. *)
Definition start (st : Channel.state) (b : Ban.bstate) (head : option Ban.bid) (mb : option ModeBuf) (parv : list (list ascii)) (fl : Z) : mstate :=
  MkM st (Ban.MkParse b head parv (Z.of_nat MAXMODEPARAMS) 0 0 []) mb fl true 0 0 0 (repeat (MkCli 0 0 None) MAXPARA) [] [].

Definition mode_parse (st : Channel.state) (b : Ban.bstate) (head : option Ban.bid) (mb : option ModeBuf) (parv : list (list ascii)) (fl : Z) : outcome mstate :=
  match parv with
  | [] => Oob
  | modestr :: rest =>
      if my && pre_mode_denied sptr cptr chptr modestr then Ok (say (start st b head mb parv fl) Denied)
      else
        let* (s, returned) := parse_words (S (length rest)) modestr (set_used (start st b head mb rest fl) 1) in
        if returned then Ok s else finish s
  end.
End Parser.
