(* ===== verification/ModeParseSpec.v ===== *)
(** * [mode_parse] is safe

    Whatever words a local user sends in a [MODE] command, the parser returns: the members
    of the channel stay the same cells on the same lists, the list of bans holds allocated
    bans only, the array of clients and the array of bans on the stack are not overrun,
    and the mode buffer it leaves can be flushed. *)

From stdpp Require Import base list gmap sets strings.
From Stdlib Require Import ZArith Lia Ascii.
From S2P Require Import Prelude Chattr Strings AddrText MMatch.
From S2P Require Ban.
From S2P Require Import Channel ChanModes ModeBuf ModeParse ModeBufSpec.

Local Open Scope ircu_scope.
Local Open Scope Z_scope.

Lemma any_lor_other (a d m : Z) : Z.land d m = 0 -> any (Z.lor a d) m = any a m.
Proof. intros H. unfold any. by rewrite Z.land_lor_distr_l, H, Z.lor_0_r. Qed.
Lemma any_lor_self (a d : Z) : Z.land d d <> 0 -> any (Z.lor a d) d = true.
Proof.
  intros H. unfold any. apply negb_true_iff, Z.eqb_neq. rewrite Z.land_lor_distr_l. intros E. apply Z.lor_eq_0_iff in E as [_ E]. done.
Qed.

Definition keys_ok (ch : Channel) : Prop := (length (key ch) <= KEYLEN /\ length (upass ch) <= KEYLEN /\ length (apass ch) <= KEYLEN)%nat.

(** What can be said of a change without the channel. *)
Definition kind_ok (k : kind) : Prop :=
  match k with
  | KOp _ l => 0 <= l
  | KVoice _ _ | KLimit _ => True
  | KBan t _ => match t with Text s => (length s <= 305)%nat | Own _ => True end
  | KKey t | KUpass t | KApass t => match t with Text s => (length s <= KEYLEN)%nat | Own _ => True end
  end.

Section Safety.
Context (reg : list ChanMode).
Context (IsServer IsMe IsChannelService MyUser IsUser IsAnOper IsBurstOrBurstAck : cid -> bool).
Context (priv_apass_opmode priv_deop_lchan : cid -> bool).
Context (get_secure_group_id : cid -> Z).
Context (cli_name : cid -> list ascii) (NumNick : cid -> list ascii * list ascii) (chname : chid -> list ascii).
Context (find_client : list ascii -> option cid).
Context (findNUser : list ascii -> option cid).
Context (his_modewho his_snotices oplevels : bool) (now max_bans av_ban_len : Z).
Context (pre_mode_denied : cid -> cid -> chid -> list ascii -> bool).
Context (cptr sptr : cid) (chptr : chid) (member : option mid).

Context (letters_of_modules : gset ascii) (Hreg : holds letters_of_modules reg).
Context (Hnames : forall u, (length (cli_name u) <= 305 /\ length (numeric NumNick u) <= 5)%nat).
Context (Hmy : MyUser sptr = true) (Hlocal : IsServer cptr = false).
Context (st0 : state) (M : chid -> list mid) (U : cid -> list mid) (F : list mid) (off : chid -> Z).
Context (Hfind : forall n u, find_client n = Some u -> IsServer u = true \/ IsMe u = true \/ is_Some (clients st0 !! u)).
Context (fl : Z) (has_buffer : bool).
Context (Hmember : match member with
                   | Some m => m ∈ M chptr
                   | None => any fl (Z.lor MODE_PARSE_FORCE (Z.lor MODE_PARSE_NOTOPER MODE_PARSE_NOTMEMBER)) = true
                   end).

Definition client_ok (u : cid) : Prop := IsServer u = true \/ IsMe u = true \/ is_Some (clients st0 !! u).

Lemma change_ok_of (ch : Channel) (x : change) : keys_ok ch -> kind_ok (what x) -> change_ok cli_name NumNick ch x.
Proof.
  intros (K1 & K2 & K3) H. unfold change_ok, kind_ok, KEYLEN in *.
  destruct (what x) as [u l|u l|t fr|t|t|t|n]; try (destruct (Hnames u)); try (destruct t as [s|[]]; cbn [text_of own_text]); try done; lia.
Qed.

Definition blank_cli : cli := MkCli 0 0 None.
Definition entry_ok (e : cli) : Prop :=
  cc_flag e ∈ [Z.lor MODE_ADD MODE_CHANOP; Z.lor MODE_DEL MODE_CHANOP; Z.lor MODE_ADD MODE_VOICE; Z.lor MODE_DEL MODE_VOICE] /\ 0 <= cc_oplevel e /\
  exists u, cc_client e = Some u /\ client_ok u.

(** The entries used so far, and room for as many as there are arguments. *)
Definition clients_ok (l : list cli) (n : nat) : Prop :=
  exists K z, l = K ++ repeat blank_cli z /\ Forall entry_ok K /\ (length K + z = MAXPARA /\ length K + n < MAXPARA)%nat.

Definition buffer_ok (ch : Channel) (mb : option ModeBuf) (L : list change) : Prop :=
  match mb with
  | None => L = []
  | Some mb => mb_channel mb = chptr /\ mb_connect mb <> None /\ buffered cli_name NumNick ch mb L
  end.

(** The bans before [mode_process_bans], and after it. *)
Definition no_rights : bool := any fl (Z.lor MODE_PARSE_NOTOPER MODE_PARSE_NOTMEMBER).
Definition settled (b : Ban.ParseState) : Prop :=
  exists L Fb, Ban.seg (Ban.heap (Ban.st b)) (Ban.banlist b) L None /\ Ban.alloc_ok (Ban.st b) Fb /\ NoDup (L ++ Fb) /\ Forall Ban.is_heap L /\
    Forall Ban.ban_wf (Ban.contents (Ban.heap (Ban.st b)) L).
Definition bans_ok (processed : bool) (b : Ban.ParseState) : Prop :=
  if processed then settled b else exists R S Fb, Ban.parsing b R S Fb /\ (no_rights = true -> S = []).

Lemma bans_frame (ph : bool) (b b' : Ban.ParseState) : bans_ok ph b -> Ban.st b' = Ban.st b -> Ban.banlist b' = Ban.banlist b ->
  Ban.numbans b' = Ban.numbans b -> Ban.cleaned b' = Ban.cleaned b -> bans_ok ph b'.
Proof.
  intros H E1 E2 E3 E4. destruct ph; cbn in *.
  - unfold settled in *. by rewrite E1, E2.
  - destruct H as (R & S & Fb & P & Hs). exists R, S, Fb. split; [|done]. by apply (Ban.parsing_frame b).
Qed.

Section Phase.
(** [bound] bounds the arguments left. *)
Context {processed : bool} {bound : nat}.

Record good (s : mstate) (L : list change) : Prop := {
  g_matrix : matrix (cs s) M U F off;
  g_chan : exists ch, chans (cs s) !! chptr = Some ch /\ keys_ok ch /\ buffer_ok ch (mbuf s) L;
  g_limit : done s DONE_LIMIT = false -> List.filter is_limit L = [];
  g_kinds : Forall (fun x => kind_ok (what x)) L;
  g_bans : bans_ok processed (bs s);
  g_numbans : (Ban.numbans (bs s) + length (Ban.parv (bs s)) < MAXPARA)%nat;
  g_clients : forall u, is_Some (clients st0 !! u) -> is_Some (clients (cs s) !! u);
  g_cli : clients_ok (cli_change s) (length (Ban.parv (bs s)));
  g_flags : flags s = fl;
  g_bound : (length (Ban.parv (bs s)) <= bound)%nat;
  g_some : has_buffer = true <-> mbuf s <> None
}.

(** ** Steps that touch little *)

(** Everything but the fields of [bs] that [P] talks about, replies and simple modes. *)
Lemma good_bs (s : mstate) (L : list change) (b : Ban.ParseState) : good s L ->
  Ban.st b = Ban.st (bs s) -> Ban.banlist b = Ban.banlist (bs s) -> Ban.numbans b = Ban.numbans (bs s) -> Ban.cleaned b = Ban.cleaned (bs s) ->
  (any (Ban.ps_done b) DONE_LIMIT = false -> done s DONE_LIMIT = false) ->
  (length (Ban.parv b) <= length (Ban.parv (bs s)))%nat -> good (set_bs s b) L.
Proof.
  intros [] E1 E2 E3 E4 Ed Le. split; try done.
  - intros H. by apply g_limit0, Ed.
  - by apply (bans_frame processed (bs s)).
  - cbn. rewrite E3. lia.
  - cbn. destruct g_cli0 as (K & z & E & H & L1 & L2). exists K, z. split_and!; try done. lia.
  - cbn. lia.
Qed.

Lemma good_say (s : mstate) (L : list change) (r : reply) : good s L -> good (say s r) L.
Proof. by intros []. Qed.
Lemma good_dir (s : mstate) (L : list change) (d : bool) : good s L -> good (set_dir s d) L.
Proof. by intros []. Qed.
Lemma good_simple (s : mstate) (L : list change) (a d : Z) : good s L -> good (set_simple s a d) L.
Proof. by intros []. Qed.
Lemma good_used (s : mstate) (L : list change) (n : nat) : good s L -> good (set_used s n) L.
Proof. by intros []. Qed.

Lemma good_mark (s : mstate) (L : list change) (d : Z) : good s L -> Z.land d Ban.DONE_BANCLEAN = 0 -> good (mark s d) L.
Proof.
  intros G Hd. apply good_bs; try done.
  - unfold Ban.cleaned, Ban.has. cbn. f_equal. f_equal. by rewrite Z.land_lor_distr_l, Hd, Z.lor_0_r.
  - cbn. unfold done, any. rewrite Z.land_lor_distr_l. intros E%negb_false_iff%Z.eqb_eq. apply Z.lor_eq_0_iff in E as [-> _]. done.
Qed.

Lemma good_note (s : mstate) (L : list change) (n : Ban.notice) : good s L -> good (set_bs s (Ban.note (bs s) n)) L.
Proof. intros G. by apply good_bs. Qed.

Lemma good_notoper (s : mstate) (L : list change) : good s L -> good (send_notoper s) L.
Proof.
  intros G. unfold send_notoper, Ban.send_notoper. case_if; [by destruct s|].
  apply (good_mark (set_bs s (Ban.note (bs s) Ban.NotOper)) L Ban.DONE_NOTOPER); [by apply good_note|done].
Qed.

Lemma good_take (s s' : mstate) (L : list change) (t : list ascii) : good s L -> take_arg s = Some (t, s') -> good s' L /\
  (S (length (Ban.parv (bs s'))) = length (Ban.parv (bs s)))%nat /\ done s' = done s /\ dir_add s' = dir_add s /\ mbuf s' = mbuf s /\ cs s' = cs s /\ cli_change s' = cli_change s.
Proof.
  intros G. unfold take_arg. destruct (Ban.parv (bs s)) as [|t0 rest] eqn:E; [done|]. intros [= -> <-].
  split; [|done]. apply good_used, good_bs; try done; cbn; rewrite E; cbn; lia.
Qed.

Ltac goods := repeat first [assumption | apply good_say | apply good_notoper | apply good_note | apply good_dir | apply good_simple | apply good_used | (apply good_mark; [|reflexivity])].

(** ** The mode buffer *)
Abbreviation append := (append_slot reg IsServer IsMe get_secure_group_id cli_name NumNick his_modewho his_snotices).
Abbreviation mode_uint := (modebuf_mode_uint reg IsServer IsMe get_secure_group_id cli_name NumNick his_modewho his_snotices).
Abbreviation mode_string := (modebuf_mode_string reg IsServer IsMe get_secure_group_id cli_name NumNick his_modewho his_snotices).
Abbreviation mode_client := (modebuf_mode_client reg IsServer IsMe get_secure_group_id cli_name NumNick his_modewho his_snotices).

(** Only the buffer and derived flags of the channel have changed. *)
Definition frame (s s' : mstate) : Prop :=
  bs s' = bs s /\ flags s' = flags s /\ dir_add s' = dir_add s /\ p_add s' = p_add s /\ p_del s' = p_del s /\ args_used s' = args_used s /\
  cli_change s' = cli_change s /\ replies s' = replies s /\ exists ch m, chans (cs s) !! chptr = Some ch /\ cs s' = retouched (cs s) chptr ch m /\ alike m (mode ch).

Lemma matrix_walkable (st : state) (ch : Channel) : matrix st M U F off -> chans st !! chptr = Some ch -> walkable st ch.
Proof. intros X E. destruct (mx_chan _ _ _ _ _ X chptr ch E) as [D _]. exists (M chptr). split; [done|]. apply X. Qed.

Lemma matrix_retouched (st : state) (ch : Channel) (m : Z) : matrix st M U F off -> chans st !! chptr = Some ch -> matrix (retouched st chptr ch m) M U F off.
Proof. intros X E. apply (matrix_core st); [|done]. by apply (core_set_chan st chptr ch). Qed.

Lemma put_change (s : mstate) (L : list change) (d : bool) (k : kind) : good s L -> mbuf s <> None -> kind_ok k ->
  (is_limit (Change d k 0) = true -> List.filter is_limit L = [] /\ done s DONE_LIMIT = true) ->
  exists s' L', with_buf s (fun st mb => append st mb (slot_of (Change d k (old_oplevel mb)))) = Ok s' /\ good s' L' /\ mbuf s' <> None /\ frame s s'.
Proof.
  intros G Nb Hk Hl. pose proof G as [X (ch & Ec & Kc & Hb) Gl Kd Bn Nu Cl Ci Ff Bd Sm]. unfold with_buf. destruct (mbuf s) as [mb|] eqn:Em; [|done].
  destruct Hb as (Eh & Ek & [Sd Lt]). set (x := Change d k (old_oplevel mb)).
  assert (one_limit (L ++ [x])) as Ol.
  { unfold one_limit. rewrite List.filter_app, length_app. cbn [List.filter]. pose proof (sd_limit _ _ _ _ _ Sd) as H1. unfold one_limit in H1.
    destruct (is_limit x) eqn:Ex; [destruct (Hl Ex) as [-> _]|]; cbn; lia. }
  destruct (append_ok cli_name NumNick IsServer IsMe his_modewho his_snotices reg get_secure_group_id (holds_length _ _ Hreg) (cs s) mb ch L x)
    as (m & mb' & L' & more & E & Am & [Sd' Lt'] & Sub & (E1 & E2 & E3 & E4)); [by rewrite Eh|by apply matrix_walkable|done|by apply change_ok_of|done|].
  fold x. rewrite E, Eh in *. cbn [obind]. eexists _, L'. split; [done|].
  assert (forall y, y ∈ L' -> y ∈ L ++ [x]) as In' by (intros y Hy; by apply (elem_of_submseteq L' _ y)).
  split; [|split; [done|split_and!; try done; exists ch, m; done]].
  split; cbn [set_buf cs bs mbuf flags cli_change]; try done.
  - by apply matrix_retouched.
  - exists (set_mode ch m). split; [cbn; by rewrite lookup_insert_eq|]. split; [done|]. split; [congruence|]. split; [congruence|done].
  - intros Hd. change (done s DONE_LIMIT = false) in Hd. specialize (Gl Hd). destruct (List.filter is_limit L') as [|y r] eqn:Ey; [done|]. exfalso.
    assert (y ∈ List.filter is_limit L') as Hy by (rewrite Ey; left). apply list_elem_of_In, List.filter_In in Hy as [Hy Ly]. apply list_elem_of_In in Hy. apply In' in Hy.
    apply elem_of_app in Hy as [Hy|Hy%list_elem_of_singleton].
    + assert (y ∈ List.filter is_limit L) as Hz by (apply list_elem_of_In, List.filter_In; split; [by apply list_elem_of_In|done]). rewrite Gl in Hz. by apply not_elem_of_nil in Hz.
    + subst y. destruct (Hl Ly) as [_ Hd']. congruence.
  - apply Forall_forall. intros y Hy%In'. apply elem_of_app in Hy as [Hy|Hy%list_elem_of_singleton]; [|by subst y]. rewrite Forall_forall in Kd. by apply Kd.
  - split; [done|]. intros _. by apply Sm.
Qed.

(** ** The channel *)
Definition gentle (f : Channel -> Channel) : Prop :=
  forall ch, keys_ok ch -> members (f ch) = members ch /\ users (f ch) = users ch /\ invites (f ch) = invites ch /\ keys_ok (f ch).

Lemma sendable_chan (ch ch' : Channel) (mb : ModeBuf) (L : list change) : keys_ok ch' -> Forall (fun x => kind_ok (what x)) L ->
  sendable cli_name NumNick ch mb L -> sendable cli_name NumNick ch' mb L.
Proof. intros K Kd []. split; try done. eapply Forall_impl; [exact Kd|]. intros x Hx. by apply change_ok_of. Qed.

Lemma good_change (s : mstate) (L : list change) (f : Channel -> Channel) : good s L -> gentle f ->
  exists ch, chans (cs s) !! chptr = Some ch /\ change_chan chptr s f = Ok (set_cs s (set_chan (cs s) chptr (f ch))) /\ good (set_cs s (set_chan (cs s) chptr (f ch))) L.
Proof.
  intros G Hf. pose proof G as [X (ch & Ec & Kc & Hb) Gl Kd Bn Nu Cl Ci Ff Bd Sm]. exists ch. split; [done|]. unfold change_chan, load_chan. rewrite Ec. cbn [obind]. split; [done|].
  destruct (Hf ch Kc) as (E1 & E2 & E3 & K'). split; try done.
  - cbn. apply (matrix_core (cs s)); [|done]. apply (core_set_chan (cs s) chptr ch); try done. intros u. by rewrite E3.
  - exists (f ch). split; [cbn; by rewrite lookup_insert_eq|]. split; [done|]. cbn. unfold buffer_ok in *. destruct (mbuf s); [|done].
    destruct Hb as (? & ? & [Sd Lt]). split_and!; try done. split; [|done]. by apply (sendable_chan ch).
Qed.

(** The result of a step, and that it is good. *)
Definition fine (o : outcome mstate) : Prop := exists s' L', o = Ok s' /\ good s' L'.

Lemma fine_ok (s : mstate) (L : list change) : good s L -> fine (Ok s).
Proof. intros G. by exists s, L. Qed.

Lemma fine_bind (o : outcome mstate) (k : mstate -> outcome mstate) : fine o -> (forall s L, good s L -> fine (k s)) -> fine (let* s := o in k s).
Proof. intros (s' & L' & -> & G) H. cbn [obind]. by apply (H s' L'). Qed.

Lemma fine_change (s : mstate) (L : list change) (f : Channel -> Channel) : good s L -> gentle f -> fine (change_chan chptr s f).
Proof. intros G Hf. destruct (good_change s L f G Hf) as (ch & _ & E & G'). by exists (set_cs s (set_chan (cs s) chptr (f ch))), L. Qed.

Lemma frame_fields (s s' : mstate) : frame s s' -> flags s' = flags s /\ dir_add s' = dir_add s /\ bs s' = bs s.
Proof. by intros (? & ? & ? & _). Qed.

Lemma load_good (s : mstate) (L : list change) : good s L -> exists ch, load_chan (cs s) chptr = Ok ch /\ keys_ok ch /\ chans (cs s) !! chptr = Some ch.
Proof. intros [_ (ch & E & K & _) _ _ _ _ _ _ _ _]. exists ch. unfold load_chan. by rewrite E. Qed.

(** ** The letters of the core *)
Lemma find_core (x : ascii) (cm m : ChanMode) : channel_find_chan_mode reg x = Some cm -> core_mode x = Some m -> flag cm = flag m /\ attr cm = attr m.
Proof.
  intros E Ec. pose proof (find_holds _ _ x Hreg) as H. rewrite E in H. destruct (core_mode_ok x m Ec) as (_ & _ & _ & R). rewrite R in H.
  unfold mode_of in H. rewrite Ec in H. cbn in H. injection H as H. by rewrite <- H.
Qed.

Lemma good_bits (s : mstate) (L : list change) (mb : ModeBuf) (a r : Z) : good s L -> mbuf s = Some mb -> good (set_buf s (cs s) (set_bits mb a r) []) L.
Proof.
  intros [X (ch & Ec & Kc & Hb) Gl Kd Bn Nu Cl Ci Ff Bd Sm] Em. split; try done.
  - exists ch. split; [done|]. split; [done|]. cbn. rewrite Em in Hb.
  destruct Hb as (? & ? & [Sd Lt]). split_and!; try done. split; [|done]. by destruct Sd.
  - split; [done|]. intros _. apply Sm. by rewrite Em.
Qed.

(** ** [+l] *)
Abbreviation limit_tail := (limit_tail reg IsServer IsMe get_secure_group_id cli_name NumNick his_modewho his_snotices chptr).

Lemma limit_tail_fine (cm : ChanMode) (s : mstate) (L : list change) (n : Z) : flag cm = MODE_LIMIT -> good s L -> fine (limit_tail cm s n).
Proof.
  intros Ef G. unfold ModeParse.limit_tail. case_if; [apply (fine_ok _ L); goods|]. destruct (load_good s L G) as (ch & -> & Kc & Ec). cbn [obind].
  case_if; [by apply (fine_ok _ L)|]. case_if; [by apply (fine_ok _ L)|]. destruct (done s DONE_LIMIT) eqn:Hd; [by apply (fine_ok _ L)|].
  pose proof (g_limit _ _ G Hd) as NL. assert (good (mark s DONE_LIMIT) L) as G1 by goods. destruct (mbuf (mark s DONE_LIMIT)) as [mb|] eqn:Em; [|by apply (fine_ok _ L)].
  rewrite Ef. destruct (dir_add s) eqn:Ed.
  - destruct (put_change (mark s DONE_LIMIT) L true (KLimit n) G1) as (s2 & L2 & E2 & G2 & N2 & Fr); [by rewrite Em|done| |].
    { intros _. split; [done|]. unfold done. cbn. by apply any_lor_self. }
    unfold dir. cbn [dir_add mark set_bs]. rewrite Ed. match goal with |- context [with_buf ?a ?b] => change (with_buf a b) with (with_buf (mark s DONE_LIMIT) (fun st mb => append st mb (slot_of (Change true (KLimit n) (old_oplevel mb))))) end.
    rewrite E2. cbn [obind].
    case_if; [|by apply (fine_ok _ L2)]. apply (fine_change s2 L2); [done|]. intros c' K. by destruct (dir_add s2).
  - unfold dir. cbn [dir_add mark set_bs]. rewrite Ed. unfold with_buf. rewrite Em. unfold modebuf_mode_uint.
    change (Z.lor MODE_DEL MODE_LIMIT =? Z.lor MODE_LIMIT MODE_DEL) with true. cbn [obind]. set (s2 := set_buf _ _ _ _).
    assert (good s2 L) as G2 by (by apply good_bits).
    case_if; [|by apply (fine_ok _ L)]. apply (fine_change s2 L); [done|]. intros c' K. by destruct (dir_add s2).
Qed.
Lemma arg_or_more (s : mstate) (L : list change) (k : list ascii -> mstate -> outcome mstate) (o : mstate) : good s L -> good o L ->
  (forall t s', good s' L -> mbuf s' = mbuf s -> fine (k t s')) ->
  fine (match take_arg s with None => Ok o | Some (t, s') => k t s' end).
Proof.
  intros G Go H. destruct (take_arg s) as [[t s']|] eqn:E; [|by apply (fine_ok _ L)]. destruct (good_take s s' L t G E) as (G' & _ & _ & _ & Eb & _). by apply H.
Qed.

Lemma good_more (s : mstate) (L : list change) : good s L -> good (if my MyUser sptr then need_more s else s) L.
Proof. intros G. case_if; [apply good_note|]; done. Qed.

Lemma limit_fine (cm : ChanMode) (s : mstate) (L : list change) : flag cm = MODE_LIMIT -> good s L ->
  fine (mode_parse_limit reg IsServer IsMe MyUser get_secure_group_id cli_name NumNick his_modewho his_snotices sptr chptr cm s).
Proof.
  intros Ef G. unfold mode_parse_limit. destruct (dir_add s) eqn:Ed.
  - case_if; [by apply (fine_ok _ L)|]. apply (arg_or_more s L); [done|by apply good_more|]. intros t s' G' _. case_if; [by apply (fine_ok _ L)|].
    destruct (load_good s' L G') as (ch & -> & _). cbn [obind]. case_if; [by apply (fine_ok _ L)|]. by apply (limit_tail_fine cm s' L).
  - destruct (load_good s L G) as (ch & -> & _). cbn [obind]. by apply (limit_tail_fine cm s L).
Qed.

(** ** Keys and passwords *)
Definition text_kind (f : field) (t : text) : kind := match f with FKey => KKey t | FUpass => KUpass t | FApass => KApass t end.

Lemma put_text (s : mstate) (L : list change) (f : field) (d : bool) (t : text) : good s L -> mbuf s <> None ->
  match t with Text t => (length t <= KEYLEN)%nat | Own _ => True end ->
  exists s' L', with_buf s (fun st mb => mode_string st mb (Z.lor (if d then MODE_ADD else MODE_DEL) (kind_bits (text_kind f t))) t false) = Ok s' /\ good s' L' /\ mbuf s' <> None /\ frame s s'.
Proof.
  intros G Nb Ht. destruct (put_change s L d (text_kind f t) G Nb) as (s' & L' & E & H); [by destruct f|by destruct f|]. exists s', L'. split; [|done].
  rewrite <- E. unfold modebuf_mode_string, slot_of. cbn [what adding old_level]. by destruct f, d.
Qed.

Lemma send_text_fine (cm : ChanMode) (s : mstate) (L : list change) (f : field) (old t : list ascii) : flag cm = kind_bits (text_kind f (Text [])) -> good s L -> mbuf s <> None ->
  (length t <= KEYLEN)%nat ->
  exists s' L', send_text reg IsServer IsMe get_secure_group_id cli_name NumNick his_modewho his_snotices cm s old f t = Ok s' /\ good s' L' /\ mbuf s' <> None /\ frame s s'.
Proof.
  intros Ef G Nb Lt. unfold send_text. rewrite Ef.
  assert (forall t', kind_bits (text_kind f (Text [])) = kind_bits (text_kind f t')) as K by (by destruct f).
  case_if; [destruct old|]; [rewrite (K (Text t)); by apply (put_text s L f true)|rewrite (K (Own f)); by apply (put_text s L f false)|].
  rewrite (K (Text t)). by apply (put_text s L f (dir_add s)).
Qed.

Lemma clean_good (s s' : mstate) (L : list change) (t : list ascii) (ok : bool) : good s L -> is_clean_key MyUser sptr s t = (s', ok) ->
  good s' L /\ mbuf s' = mbuf s /\ (ok = true -> (length t <= KEYLEN)%nat).
Proof.
  intros G. unfold is_clean_key. destruct t as [|x t]; [|destruct (_ || _) eqn:E]; (case_if || idtac); intros [= <- <-]; (split; [goods; by apply good_note|split; [done|try done]]).
  - intros _. apply orb_false_iff in E as [_ E]. apply Nat.ltb_ge in E. done.
Qed.

Lemma once_good (s s' : mstate) (L : list change) (a d : Z) : good s L -> Z.land a Ban.DONE_BANCLEAN = 0 -> Z.land d Ban.DONE_BANCLEAN = 0 -> once s a d = Some s' ->
  good s' L /\ mbuf s' = mbuf s.
Proof. intros G Ha Hd. unfold once. repeat case_if; try done; intros [= <-]; (split; [by apply good_mark|done]). Qed.

(** The end of all three: once, clean, and with a buffer. *)
Lemma text_tail (s : mstate) (L : list change) (a d : Z) (t : list ascii) (k : mstate -> outcome mstate) : good s L -> Z.land a Ban.DONE_BANCLEAN = 0 -> Z.land d Ban.DONE_BANCLEAN = 0 ->
  (forall s', good s' L -> mbuf s' <> None -> (length t <= KEYLEN)%nat -> fine (k s')) ->
  fine (match once s a d with
        | None => Ok s
        | Some s => let (s, ok) := is_clean_key MyUser sptr s t in if negb ok then Ok s else match mbuf s with None => Ok s | Some _ => k s end
        end).
Proof.
  intros G Ha Hd H. destruct (once s a d) as [s1|] eqn:E1; [|by apply (fine_ok _ L)]. destruct (once_good s s1 L a d G Ha Hd E1) as [G1 _].
  destruct (is_clean_key MyUser sptr s1 t) as [s2 ok] eqn:E2. destruct (clean_good s1 s2 L t ok G1 E2) as (G2 & _ & Lt). destruct ok; cbn [negb]; [|by apply (fine_ok _ L)].
  destruct (mbuf s2) eqn:Em; [|by apply (fine_ok _ L)]. apply H; [done|by rewrite Em|by apply Lt].
Qed.
Abbreviation NN := NumNick.
Lemma key_fine (cm : ChanMode) (s : mstate) (L : list change) : flag cm = MODE_KEY -> good s L ->
  fine (mode_parse_key reg IsServer IsMe MyUser get_secure_group_id cli_name NN his_modewho his_snotices sptr chptr cm s).
Proof.
  intros Ef G. unfold mode_parse_key. case_if; [by apply (fine_ok _ L)|]. apply (arg_or_more s L); [done|by apply good_more|]. intros t s1 G1 _.
  case_if; [apply (fine_ok _ L); goods|]. apply (text_tail s1 L); [done..|]. intros s2 G2 N2 Lt. unfold key_tail. destruct (load_good s2 L G2) as (ch & -> & _). cbn [obind].
  case_if; [by apply (fine_ok _ L)|]. case_if; [apply (fine_ok _ L); goods|]. case_if; [by apply (fine_ok _ L)|].
  destruct (send_text_fine cm s2 L FKey (key ch) t) as (s3 & L3 & -> & G3 & _); [done..|]. cbn [obind]. case_if; [|by apply (fine_ok _ L3)].
  apply (fine_change s3 L3); [done|]. intros c (K1 & K2 & K3). split_and!; try done. split_and!; try done. cbn. destruct (dir_add s3); [unfold ircd_strncpy; rewrite length_take|cbn]; lia.
Qed.

Lemma member_here (s : mstate) (L : list change) : good s L ->
  match member with
  | Some m => exists x, heap (cs s) !! m = Some x
  | None => rightless s = false -> flagged s MODE_PARSE_FORCE = true
  end.
Proof.
  intros G. pose proof Hmember as H. revert H. generalize member as o. intros [m|] H.
  - destruct (mx_member _ _ _ _ _ (g_matrix _ _ G) chptr m H) as (x & Hx & _). eauto.
  - unfold rightless, flagged. rewrite (g_flags _ _ G). unfold any in *. apply negb_true_iff, Z.eqb_neq in H. intros Hr%negb_false_iff%Z.eqb_eq.
    apply negb_true_iff, Z.eqb_neq. intros Hf. by rewrite Z.land_lor_distr_r, Hr, Hf in H.
Qed.

Lemma manager_ok (s : mstate) (L : list change) : good s L -> rightless s = false -> flagged s MODE_PARSE_FORCE = false -> exists b, IsChannelManager member s = Ok b.
Proof.
  intros G Hr Hf. pose proof (member_here s L G) as H. revert H. generalize member as o. unfold IsChannelManager. intros [m|].
  - intros [x Hx]. unfold load. rewrite Hx. by eexists.
  - intros H. by rewrite H in Hf.
Qed.

Lemma level_ok (s : mstate) (L : list change) : good s L -> exists l, member_level member s = Ok l.
Proof.
  intros G. pose proof (member_here s L G) as H. revert H. generalize member as o. unfold member_level. intros [m|]; [|by eexists].
  intros [x Hx]. unfold load. rewrite Hx. by eexists.
Qed.

Lemma upass_fine (cm : ChanMode) (s : mstate) (L : list change) : flag cm = MODE_UPASS -> good s L ->
  fine (mode_parse_upass reg IsServer IsMe MyUser priv_apass_opmode get_secure_group_id cli_name NN his_modewho his_snotices sptr chptr member cm s).
Proof.
  intros Ef G. unfold mode_parse_upass. case_if; [by apply (fine_ok _ L)|]. apply (arg_or_more s L); [done|by apply good_more|]. intros t s1 G1 _.
  destruct (rightless s1) eqn:Hr; [apply (fine_ok _ L); goods|].
  assert (exists r, upass_refused MyUser priv_apass_opmode sptr chptr member s1 = Ok r) as [r ->].
  { unfold upass_refused. case_if; [by eexists|]. destruct (flagged s1 MODE_PARSE_FORCE) eqn:Hf; [rewrite andb_false_r; by eexists|]. rewrite andb_true_r. case_if; [|by eexists].
    destruct (manager_ok s1 L G1 Hr Hf) as [[] ->]; cbn [obind]; [by eexists|]. destruct (load_good s1 L G1) as (ch & -> & _). by eexists. }
  cbn [obind]. destruct r as [r|]; [apply (fine_ok _ L); goods|].
  apply (text_tail s1 L); [done..|]. intros s2 G2 N2 Lt. unfold upass_tail. destruct (load_good s2 L G2) as (ch & -> & _). cbn [obind].
  do 3 (case_if; [apply (fine_ok _ L); goods|]). do 2 (case_if; [by apply (fine_ok _ L)|]).
  destruct (send_text_fine cm s2 L FUpass (upass ch) t) as (s3 & L3 & -> & G3 & _); [done..|]. cbn [obind]. case_if; [|by apply (fine_ok _ L3)].
  apply (fine_change s3 L3); [done|]. intros c (K1 & K2 & K3). split_and!; try done. split_and!; try done. cbn. destruct (dir_add s3); [unfold ircd_strncpy; rewrite length_take|cbn]; lia.
Qed.

(** ** The members *)
Lemma good_heap (s : mstate) (L : list change) (h : gmap mid Membership) : good s L -> relabelled (heap (cs s)) h -> good (set_cs s (set_heap (cs s) h)) L.
Proof. intros [] R. split; try done. by apply matrix_relabelled. Qed.

Lemma oplevel_good (s : mstate) (L : list change) (m : mid) (l : Z) (x : Membership) : good s L -> heap (cs s) !! m = Some x ->
  set_member_oplevel s m l = Ok (set_cs s (set_heap (cs s) (<[m := set_oplevel x l]> (heap (cs s))))) /\
  good (set_cs s (set_heap (cs s) (<[m := set_oplevel x l]> (heap (cs s))))) L.
Proof.
  intros G Hx. unfold set_member_oplevel. rewrite (update_ok _ _ x) by done. split; [done|]. apply good_heap; [done|]. by apply (relabelled_insert _ m x).
Qed.

(** Loops over the members that change statuses and levels. *)
Lemma revert_ok (fuel : nat) : forall h L i, dll by_channel h (L !! O) L -> (length L - i < fuel)%nat ->
  exists h', revert_levels fuel h (L !! i) = Ok h' /\ relabelled h h'.
Proof.
  induction fuel as [|fuel IH]; intros h L i D Lt; [lia|]. destruct (L !! i) as [m|] eqn:Ei; cbn [revert_levels].
  2:{ exists h. split; [done|apply relabelled_refl]. }
  destruct D as [S C]. destruct (C i m Ei) as (x & Hx & Nx & _). unfold load. rewrite Hx. cbn [obind]. change (next_member x) with (nx by_channel x). rewrite Nx.
  set (h1 := if any (status x) CHFL_CHANOP then _ else h). assert (relabelled h h1) as R by (subst h1; case_if; [by apply (relabelled_insert _ m x)|apply relabelled_refl]).
  pose proof (lookup_lt_Some _ _ _ Ei). destruct (IH h1 L (Datatypes.S i)) as (h' & E' & R'); [|lia|].
  - apply (dll_ext by_channel h); [|by split]. intros k y _ Hy. destruct (relabelled_some _ _ k y R Hy) as (y' & Hy' & _ & _ & N & P & _). eauto.
  - exists h'. split; [done|]. by eapply relabelled_trans.
Qed.

Lemma invalidate_ok (fuel : nat) : forall h L i, dll by_channel h (L !! O) L -> (length L - i < fuel)%nat ->
  exists h', invalidate_loop fuel h (L !! i) = Ok h' /\ relabelled h h'.
Proof.
  induction fuel as [|fuel IH]; intros h L i D Lt; [lia|]. destruct (L !! i) as [m|] eqn:Ei; cbn [invalidate_loop].
  2:{ exists h. split; [done|apply relabelled_refl]. }
  destruct D as [S C]. destruct (C i m Ei) as (x & Hx & Nx & _). unfold load. rewrite Hx. cbn [obind]. change (next_member x) with (nx by_channel x). rewrite Nx.
  set (h1 := <[m := _]> h). assert (relabelled h h1) as R by (by apply (relabelled_insert _ m x)).
  pose proof (lookup_lt_Some _ _ _ Ei). destruct (IH h1 L (Datatypes.S i)) as (h' & E' & R'); [|lia|].
  - apply (dll_ext by_channel h); [|by split]. intros k y _ Hy. destruct (relabelled_some _ _ k y R Hy) as (y' & Hy' & _ & _ & N & P & _). eauto.
  - exists h'. split; [done|]. by eapply relabelled_trans.
Qed.
Lemma members_dll (s : mstate) (L : list change) : good s L -> exists ch, load_chan (cs s) chptr = Ok ch /\ members ch = M chptr !! O /\
  dll by_channel (heap (cs s)) (M chptr !! O) (M chptr) /\ (length (M chptr) - 0 < fuel_of (cs s))%nat.
Proof.
  intros G. destruct (load_good s L G) as (ch & E & _ & Ec). exists ch. split; [done|]. destruct (mx_chan _ _ _ _ _ (g_matrix _ _ G) chptr ch Ec) as [D _].
  pose proof D as [S _]. rewrite <- S. split; [done|]. split; [done|]. rewrite Nat.sub_0_r. by eapply matrix_fuel_m, G.
Qed.

Lemma apass_set_fine (s : mstate) (L : list change) (t : list ascii) : good s L -> fine (apass_set MyUser sptr chptr member s t).
Proof.
  intros G. unfold apass_set. destruct (dir_add s) eqn:Ed.
  - apply fine_bind.
    + apply (fine_change s L); [done|]. intros c (K1 & K2 & K3). case_if; (do 3 (split; [done|])); unfold keys_ok; cbn [key upass apass set_passes]; unfold ircd_strncpy; rewrite ?length_take; lia.
    + intros s1 L1 G1. destruct (load_good s1 L1 G1) as (ch & -> & _). cbn [obind]. set (s2 := if my _ _ then _ else s1). assert (good s2 L1) as G2 by (subst s2; case_if; goods).
      pose proof (member_here s2 L1 G2) as H. revert H. generalize member as o. intros [m|] H; [|by apply (fine_ok _ L1)]. destruct H as [x Hx].
      destruct (oplevel_good s2 L1 m 0 x G2 Hx) as [-> G3]. by apply (fine_ok _ L1).
  - apply fine_bind.
    + apply (fine_change s L); [done|]. intros c (K1 & K2 & K3). (do 3 (split; [done|])). unfold keys_ok. cbn [key upass apass set_passes length]. lia.
    + intros s1 L1 G1. set (s2 := if my _ _ then _ else s1). assert (good s2 L1) as G2 by (subst s2; case_if; goods).
      destruct (members_dll s2 L1 G2) as (ch & -> & Em & D & Lt). cbn [obind]. rewrite Em. destruct (revert_ok _ _ _ _ D Lt) as (h & -> & R). cbn [obind]. by apply (fine_ok _ L1), good_heap.
Qed.

Lemma apass_fine (cm : ChanMode) (s : mstate) (L : list change) : flag cm = MODE_APASS -> good s L ->
  fine (mode_parse_apass reg IsServer IsMe MyUser IsAnOper priv_apass_opmode get_secure_group_id cli_name NN his_modewho his_snotices now sptr chptr member cm s).
Proof.
  intros Ef G. unfold mode_parse_apass. case_if; [by apply (fine_ok _ L)|]. apply (arg_or_more s L); [done|by apply good_more|]. intros t s1 G1 _.
  destruct (rightless s1) eqn:Hr; [apply (fine_ok _ L); goods|].
  assert (exists r, apass_refused MyUser IsAnOper priv_apass_opmode now sptr chptr member s1 t = Ok r) as [r ->].
  { unfold apass_refused. case_if; [by eexists|]. destruct (load_good s1 L G1) as (ch & -> & _). cbn [obind].
    destruct (flagged s1 MODE_PARSE_FORCE) eqn:Hf; [cbn [obind]; case_if; by eexists|]. destruct (manager_ok s1 L G1 Hr Hf) as [b ->]. cbn [obind]. repeat case_if; by eexists. }
  cbn [obind]. destruct r as [r|]; [apply (fine_ok _ L); goods|].
  apply (text_tail s1 L); [done..|]. intros s2 G2 N2 Lt. unfold apass_tail. destruct (load_good s2 L G2) as (ch & -> & _). cbn [obind].
  do 2 (case_if; [by apply (fine_ok _ L)|]).
  destruct (send_text_fine cm s2 L FApass (apass ch) t) as (s3 & L3 & -> & G3 & _); [done..|]. cbn [obind]. case_if; [|by apply (fine_ok _ L3)]. by apply (apass_set_fine s3 L3).
Qed.

(** ** [+o] and [+v]: the array of clients *)
Lemma named_ok (cm : ChanMode) (s : mstate) (L : list change) (t : list ascii) : good s L ->
  exists s' r, named_client MyUser find_client findNUser sptr member cm s t = Ok (s', r) /\ good s' L /\ cli_change s' = cli_change s /\ Ban.parv (bs s') = Ban.parv (bs s) /\
    match r with Some (u, _) => client_ok u | None => True end.
Proof.
  intros G. unfold named_client, my. rewrite Hmy. destruct (level_ok s L G) as [l El].
  assert (exists s1 r1, asked_level member cm s t = Ok (s1, r1) /\ good s1 L /\ cli_change s1 = cli_change s /\ Ban.parv (bs s1) = Ban.parv (bs s)) as (s1 & r1 & -> & G1 & Ec & Ep).
  { unfold asked_level. destruct (strchr t ":"); [|by eexists _, _]. case_if; [by eexists _, _|]. rewrite El. cbn [obind]. destruct l; [case_if|]; (eexists _, _; split; [done|]); (split; [goods|done]). }
  cbn [obind]. destruct r1 as [[name lev]|]; [|by eexists _, _]. destruct (find_client name) as [u|] eqn:Ef.
  - eexists _, _. split; [done|]. split_and!; try done. by apply (Hfind name).
  - eexists _, _. split; [done|]. split_and!; try done. goods.
Qed.

Lemma place_bound (K : list cli) (z : nat) (u : cid) (f : Z) : forall i, (free_place (K ++ repeat blank_cli (S z)) u f i <= i + length K)%nat.
Proof.
  induction K as [|e K IH]; intros i; cbn; [lia|]. case_if; [lia|]. specialize (IH (Datatypes.S i)). cbn in IH. lia.
Qed.

Lemma clients_insert (l : list cli) (n : nat) (e : cli) (u : cid) (f : Z) : clients_ok l (S n) -> entry_ok e ->
  (free_place l u f 0 < MAXPARA)%nat /\ clients_ok (<[free_place l u f 0 := e]> l) n.
Proof.
  intros (K & z & -> & HK & Lz & Ln) He. destruct z as [|z]; [lia|]. pose proof (place_bound K z u f 0) as B. cbn in B. set (i := free_place _ u f 0) in *. split; [lia|].
  destruct (decide (i < length K)%nat) as [Lt|Ge].
  - exists (<[i := e]> K), (S z). rewrite insert_app_l by done. split; [done|]. split; [by apply Forall_insert|]. rewrite length_insert. lia.
  - exists (K ++ [e]), z. replace i with (length K + 0)%nat by lia. rewrite insert_app_r. cbn. split; [by rewrite <- app_assoc|]. split; [by apply Forall_app_2; [|constructor]|]. rewrite length_app. cbn. lia.
Qed.

Lemma clients_fewer (l : list cli) (n k : nat) : clients_ok l n -> (k <= n)%nat -> clients_ok l k.
Proof. intros (K & z & E & H & L1 & L2) Le. exists K, z. split_and!; try done. lia. Qed.

Lemma good_cli (s : mstate) (L : list change) (l : list cli) : good s L -> clients_ok l (length (Ban.parv (bs s))) -> good (set_cli s l) L.
Proof. by intros []. Qed.

Lemma link_ok (s : mstate) (L : list change) (u : cid) : good s L -> client_ok u ->
  exists r, find_member_link IsServer IsMe IsChannelService (cs s) chptr u = Ok r /\
    match r with Some m => exists x, heap (cs s) !! m = Some x /\ channel x = chptr | None => True end.
Proof.
  intros G Hu. destruct (IsServer u || IsMe u) eqn:Eo; [exists None; unfold find_member_link; by rewrite Eo|]. apply orb_false_iff in Eo as [O1 O2].
  destruct Hu as [Hu|[Hu|Hu]]; [congruence..|]. destruct (g_clients _ _ G u Hu) as [us Eu]. destruct (load_good s L G) as (ch & _ & _ & Ec).
  destruct (find_member_spec IsServer IsMe IsChannelService (cs s) M U F off chptr u ch us (g_matrix _ _ G)) as [(m & x & -> & _ & Hx & _ & Cx)|[-> _]]; try done; [|by exists None].
  exists (Some m). eauto.
Qed.

Lemma client_fine (cm : ChanMode) (s : mstate) (L : list change) : flag cm = MODE_CHANOP \/ flag cm = MODE_VOICE -> good s L ->
  fine (mode_parse_client IsServer IsMe IsChannelService MyUser find_client findNUser sptr chptr member cm s).
Proof.
  intros Ef G. unfold mode_parse_client. case_if; [by apply (fine_ok _ L)|]. destruct (take_arg s) as [[t s1]|] eqn:E; [|by apply (fine_ok _ L)].
  destruct (good_take s s1 L t G E) as (G1 & Le & _ & _ & _ & _ & Ec). case_if; [apply (fine_ok _ L); goods|].
  destruct (named_ok cm s1 L t G1) as (s2 & r & -> & G2 & Ec2 & Ep2 & Hr). cbn [obind]. destruct r as [[u level]|]; [|by apply (fine_ok _ L)].
  case_if; [by apply (fine_ok _ L)|].
  assert (forall l, fine (Ok (set_cli s2 (<[free_place (cli_change s2) u (flag cm) 0 := MkCli (Z.lor (dir s2) (flag cm)) (u16 l) (Some u)]> (cli_change s2))))) as Hl.
  { intros l. apply (fine_ok _ L), good_cli; [done|]. rewrite Ec2, Ec, Ep2. apply clients_insert; [rewrite Le; apply G|]. split; [|split; [cbn; unfold u16; apply Z.mod_pos_bound; lia|by exists u]].
    cbn. unfold dir. destruct (dir_add s2), Ef as [-> | ->]; set_solver. }
  case_if; [|apply Hl]. destruct (link_ok s2 L u G2 Hr) as (o & -> & Ho). cbn [obind]. destruct o as [m|]; [|apply Hl].
  destruct Ho as (x & Hx & _). unfold load. rewrite Hx. cbn [obind]. apply Hl.
Qed.

(** ** The simple modes *)
Lemma mode_good (cm : ChanMode) (s : mstate) (L : list change) : good s L -> good (mode_parse_mode MyUser sptr cm s) L.
Proof. intros G. unfold mode_parse_mode. case_if; [goods|]. destruct (mbuf s); [|done]. repeat case_if; goods. Qed.

(** ** [mode_process_clients] *)
Lemma good_emit (s : mstate) (L : list change) (e : event) : good s L -> good (set_cs s (emit (cs s) e)) L.
Proof. intros []. split; try done. apply (matrix_core (cs s)); [apply core_emit, core_refl|done]. Qed.

Lemma reveal_fine (s : mstate) (L : list change) (m : mid) (x : Membership) : good s L -> heap (cs s) !! m = Some x -> channel x = chptr ->
  exists s', RevealDelayedJoin s m = Ok s' /\ good s' L /\ exists x', heap (cs s') !! m = Some x'.
Proof.
  intros G Hx Cx. unfold RevealDelayedJoin, load. rewrite Hx. cbn [obind]. set (s1 := set_cs s _).
  assert (good s1 L) as G1 by (apply good_heap; [done|]; by apply (relabelled_insert _ m x)). rewrite Cx.
  assert (heap (cs s1) !! m = Some (set_status x (without (status x) CHFL_DELAYED))) as Hm by (cbn; apply lookup_insert_eq).
  destruct (load_good s1 L G1) as (ch & El & _ & Ec). unfold CheckDelayedJoins. rewrite El. cbn [obind].
  destruct (has_mode ch MODE_WASDELJOINS).
  2:{ cbn [obind]. eexists. split; [done|]. split; [apply good_say; by destruct s1|]. eexists. exact Hm. }
  destruct (delayed_ok reg (holds_length _ _ Hreg) (cs s1) ch) as [b ->]; [by apply (matrix_walkable (cs s1) ch (g_matrix _ _ G1))|]. cbn [obind]. destruct b; cbn [obind].
  - eexists. split; [done|]. split; [apply good_say; by destruct s1|]. eexists. exact Hm.
  - eexists. split; [done|]. destruct (good_change s1 L (fun ch => set_mode ch (Z.land (mode ch) (Z.lnot MODE_WASDELJOINS))) G1) as (c2 & Ec2 & _ & G2); [by intros c K|].
    assert (c2 = ch) as -> by congruence. split; [|eexists; exact Hm]. apply good_say. apply (good_emit _ _ (NoDelayed chptr) G2).
Qed.

Lemma status_fine (s : mstate) (L : list change) (m : mid) (x : Membership) (f : Z -> Z) : good s L -> heap (cs s) !! m = Some x -> exists s', set_member_status s m f = Ok s' /\ good s' L.
Proof.
  intros G Hx. unfold set_member_status. rewrite (update_ok _ _ x) by done. cbn [obind]. eexists. split; [done|]. apply good_heap; [done|]. by apply (relabelled_insert _ m x).
Qed.

(** A step that keeps the buffer. *)
Definition keeps (o : outcome mstate) : Prop := exists s' L', o = Ok s' /\ good s' L' /\ mbuf s' <> None.
Lemma keeps_ok (s : mstate) (L : list change) : good s L -> mbuf s <> None -> keeps (Ok s).
Proof. intros G N. by exists s, L. Qed.
Lemma keeps_bind (o : outcome mstate) (k : mstate -> outcome mstate) : keeps o -> (forall s L, good s L -> mbuf s <> None -> keeps (k s)) -> keeps (let* s := o in k s).
Proof. intros (s' & L' & -> & G & N) H. cbn [obind]. by apply (H s' L'). Qed.

Lemma put_client (s : mstate) (L : list change) (e : cli) (u : cid) : good s L -> mbuf s <> None -> entry_ok e ->
  keeps (with_buf s (fun st mb => mode_client st mb (cc_flag e) u (cc_oplevel e))).
Proof.
  intros G Nb (Hf & _ & _). assert (0 <= u16 (cc_oplevel e)) as Hl by (apply Z.mod_pos_bound; lia).
  assert (forall d k, kind_ok k -> is_limit (Change d k 0) = false -> keeps (with_buf s (fun st mb => append st mb (slot_of (Change d k (old_oplevel mb)))))) as K.
  { intros d k Hk Hn. destruct (put_change s L d k G Nb Hk) as (s' & L' & E & G' & N' & _); [by rewrite Hn|]. by exists s', L'. }
  unfold modebuf_mode_client. rewrite !elem_of_cons, elem_of_nil in Hf. destruct Hf as [->|[->|[->|[->|[]]]]].
  - by apply (K true (KOp u (u16 (cc_oplevel e)))).
  - by apply (K false (KOp u (u16 (cc_oplevel e)))).
  - by apply (K true (KVoice u (u16 (cc_oplevel e)))).
  - by apply (K false (KVoice u (u16 (cc_oplevel e)))).
Qed.

Lemma refused_ok (s : mstate) (L : list change) (u : cid) (x : Membership) : good s L ->
  exists r, deop_refused IsChannelService MyUser priv_deop_lchan cli_name chname sptr chptr member s u x = Ok r.
Proof.
  intros G. unfold deop_refused. do 3 (case_if; [by eexists|]). destruct (level_ok s L G) as [l ->]. cbn [obind]. destruct l; by eexists.
Qed.

Lemma new_level_ok (s : mstate) (L : list change) (a : Z) : good s L -> exists l, new_level member s a = Ok l.
Proof. intros G. unfold new_level. case_if; [by eexists|]. destruct (level_ok s L G) as [l ->]. by eexists. Qed.

(** Steps between [process_change]'s guards and its message. *)
Lemma opped_fine (s : mstate) (L : list change) (m : mid) (x : Membership) (b : bool) (a : Z) : good s L -> heap (cs s) !! m = Some x -> channel x = chptr ->
  exists s', (if b then let* l := new_level member s a in set_member_oplevel s m l else Ok s) = Ok s' /\ good s' L /\ mbuf s' = mbuf s /\
    exists x', heap (cs s') !! m = Some x' /\ channel x' = chptr.
Proof.
  intros G Hx Cx. destruct b; [|exists s; eauto 10]. destruct (new_level_ok s L a G) as [l ->]. cbn [obind]. destruct (oplevel_good s L m l x G Hx) as [-> G']. eexists. split; [done|]. split; [done|]. split; [done|].
  eexists. split; [apply lookup_insert_eq|done].
Qed.

Lemma marked_fine (s : mstate) (L : list change) (m : mid) (x : Membership) (b : bool) (f g : Z -> Z) (set add : bool) : good s L -> heap (cs s) !! m = Some x -> channel x = chptr ->
  exists s', (if set then
      if add then let* s := if b then RevealDelayedJoin s m else Ok s in set_member_status s m f
      else set_member_status s m g
    else Ok s) = Ok s' /\ good s' L /\ (mbuf s' <> None <-> mbuf s <> None).
Proof.
  intros G Hx Cx. assert (forall s h s', set_member_status s m h = Ok s' -> mbuf s' = mbuf s) as K.
  { intros s1 h s2. unfold set_member_status. destruct (update _ _ _); cbn [obind]; [|done..]. by intros [= <-]. }
  destruct set; [|by exists s]. destruct add.
  - assert (exists s1, (if b then RevealDelayedJoin s m else Ok s) = Ok s1 /\ good s1 L /\ mbuf s1 = mbuf s /\ exists x', heap (cs s1) !! m = Some x') as (s1 & -> & G1 & E1 & x1 & Hx1).
    { destruct b; [|exists s; eauto 10]. destruct (reveal_fine s L m x G Hx Cx) as (s1 & E & G1 & H1). exists s1. split_and!; try done. revert E. unfold RevealDelayedJoin, load. rewrite Hx. cbn [obind].
      destruct (CheckDelayedJoins _ _); cbn [obind]; [|done..]. by intros [= <-]. }
    cbn [obind]. destruct (status_fine s1 L m x1 f G1 Hx1) as (s2 & E2 & G2). exists s2. rewrite E2, (K _ _ _ E2), E1. done.
  - destruct (status_fine s L m x g G Hx) as (s2 & E2 & G2). exists s2. rewrite E2, (K _ _ _ E2). done.
Qed.

Lemma process_change_fine (s : mstate) (L : list change) (e : cli) (u : cid) (m : mid) (x : Membership) : good s L -> mbuf s <> None -> entry_ok e -> heap (cs s) !! m = Some x -> channel x = chptr ->
  keeps (process_change reg IsServer IsMe IsChannelService MyUser priv_deop_lchan get_secure_group_id cli_name NN chname his_modewho his_snotices sptr chptr member s e u m).
Proof.
  intros G Nb He Hx Cx. unfold process_change. unfold load. rewrite Hx. cbn [obind]. case_if; [by apply (keeps_ok _ L)|].
  set (s1 := if _ && _ && flagged s MODE_PARSE_FORCE then _ else s). assert (good s1 L /\ mbuf s1 = mbuf s /\ cs s1 = cs s) as (G1 & B1 & C1) by (subst s1; case_if; split_and!; try done; goods).
  destruct (refused_ok s1 L u x G1) as [r Er].
  match goal with |- context [if ?b then deop_refused _ _ _ _ _ _ _ _ _ _ _ else Ok None] => assert (exists r', (if b then deop_refused IsChannelService MyUser priv_deop_lchan cli_name chname sptr chptr member s1 u x else Ok None) = Ok r') as [r' ->]
    by (destruct b; [by exists r|by exists None]) end.
  cbn [obind]. destruct r' as [r'|]; [apply (keeps_ok _ L); [goods|by rewrite <- B1 in Nb]|]. rewrite <- C1 in Hx.
  destruct (opped_fine s1 L m x (Z.land (cc_flag e) (Z.lor MODE_ADD MODE_CHANOP) =? Z.lor MODE_ADD MODE_CHANOP) (cc_oplevel e) G1 Hx Cx) as (s2 & -> & G2 & B2 & x2 & Hx2 & Cx2). cbn [obind].
  match goal with |- context [if flagged s2 MODE_PARSE_SET then if any _ MODE_ADD then let* _ := if ?b then _ else _ in set_member_status _ _ ?f else set_member_status _ _ ?g else _] =>
    destruct (marked_fine s2 L m x2 b f g (flagged s2 MODE_PARSE_SET) (any (cc_flag e) MODE_ADD) G2 Hx2 Cx2) as (s3 & -> & G3 & B3) end.
  cbn [obind]. apply (put_client s3 L); [done| |done]. apply B3. by rewrite B2, B1.
Qed.

Lemma blank_at (n : nat) : forall i, (i < n)%nat -> repeat blank_cli n !! i = Some blank_cli.
Proof. induction n as [|n IH]; intros [|i] Lt; try lia; cbn; [done|]. apply IH. lia. Qed.

Lemma process_clients_keeps (fuel : nat) : forall i s L, good s L -> mbuf s <> None -> (i < MAXPARA)%nat -> (MAXPARA < fuel + i)%nat ->
  keeps (process_clients reg IsServer IsMe IsChannelService MyUser priv_deop_lchan get_secure_group_id cli_name NN chname his_modewho his_snotices sptr chptr member fuel i s).
Proof.
  induction fuel as [|fuel IH]; intros i s L G Nb Li Lf; [lia|]. cbn [process_clients]. destruct (g_cli _ _ G) as (K & z & Ec & HK & Lz & Lk). rewrite Ec.
  destruct (decide (i < length K)%nat) as [Lt|Ge].
  - rewrite lookup_app_l by done. destruct (lookup_lt_is_Some_2 K i Lt) as [e Ee]. rewrite Ee. pose proof (proj1 (Forall_lookup _ _) HK i e Ee) as He. case_if; [by apply (keeps_ok _ L)|].
    pose proof He as (_ & _ & u & -> & Hu). destruct (link_ok s L u G Hu) as (r & -> & Hr). cbn [obind]. destruct r as [m|].
    + destruct Hr as (x & Hx & Cx). unfold load. rewrite Hx. cbn [obind]. case_if.
      * apply (IH _ _ L); [case_if; goods|by case_if|lia..].
      * apply keeps_bind; [by apply (process_change_fine s L e u m x)|]. intros s1 L1 G1 N1. apply (IH _ _ L1); try done; lia.
    + cbn [obind]. apply (IH _ _ L); [case_if; goods|by case_if|lia..].
  - rewrite lookup_app_r, blank_at by lia. by apply (keeps_ok _ L).
Qed.

(** ** [set_simple_modes], [wipe_out] *)
Lemma good_mode (s : mstate) (L : list change) (mb : ModeBuf) (z : Z) : good s L -> mbuf s = Some mb -> good (set_buf s (cs s) (modebuf_mode reg mb z) []) L.
Proof.
  intros G Em. unfold modebuf_mode. case_if; [|case_if; by apply good_bits]. assert (set_bits mb (mb_add mb) (mb_rem mb) = mb) as <- by (by destruct mb). by apply good_bits.
Qed.

Lemma same_good (s s' : mstate) (L : list change) : good s L -> cs s' = cs s -> bs s' = bs s -> mbuf s' = mbuf s -> flags s' = flags s -> cli_change s' = cli_change s -> good s' L.
Proof. intros [] E1 E2 E3 E4 E5. split; unfold done; rewrite ?E1, ?E2, ?E3, ?E4, ?E5; done. Qed.

Lemma invites_good (s : mstate) (L : list change) : good s L -> exists st, mode_invite_clear (cs s) chptr = Ok st /\ good (set_cs s st) L.
Proof.
  intros G. pose proof G as [X (ch & Ec & Kc & Hb) Gl Kd Bn Nu Cl Ci Ff Bd Sm]. destruct (invite_clear_core (cs s) chptr ch Ec) as (st & -> & C & E).
  { intros u Hu. by apply (mx_invites _ _ _ _ _ X chptr ch). }
  exists st. split; [done|]. split; try done.
  - by apply (matrix_core (cs s)).
  - exists (set_invites ch []). split; [cbn; rewrite E; apply lookup_insert_eq|]. split; [done|]. cbn. unfold buffer_ok in *. destruct (mbuf s); [|done].
    destruct Hb as (? & ? & [Sd Lt]). split_and!; try done. split; [|done]. by apply (sendable_chan ch).
  - intros u Hu. by apply (core_some _ _ C), Cl.
Qed.

Lemma keeps_change (s : mstate) (L : list change) (f : Channel -> Channel) : good s L -> gentle f -> mbuf s <> None -> keeps (change_chan chptr s f).
Proof. intros G Hf N. destruct (good_change s L f G Hf) as (ch & _ & E & G'). by exists (set_cs s (set_chan (cs s) chptr (f ch))), L. Qed.

Lemma simple_modes_keeps (s : mstate) (L : list change) : good s L -> mbuf s <> None -> keeps (set_simple_modes reg chptr s).
Proof.
  intros G Nb. unfold set_simple_modes. destruct (mbuf s) as [mb|] eqn:Em; [|done]. destruct (load_good s L G) as (ch & -> & _). cbn [obind].
  set (p := if any (p_del s) (mode ch) then _ else _). assert (good (set_buf s (cs s) p.1 []) L) as G1.
  { subst p. case_if; [by apply good_mode|]. by apply (same_good s). }
  destruct p as [mb1 m1]. cbn [fst] in G1. set (q := if negb (_ =? 0) then _ else _). assert (good (set_buf s (cs s) q.1 []) L) as G2.
  { subst q. case_if; [|done]. eapply same_good; [by apply (good_mode _ L mb1 (Z.lor MODE_ADD (without (p_add s) m1)) G1)|done..]. }
  destruct q as [mb2 m2]. cbn [fst] in G2. set (s2 := set_buf s (cs s) mb2 []) in *. case_if; [|by apply (keeps_ok _ L)].
  assert (exists st, (if has_mode ch MODE_INVITEONLY && negb (any m2 MODE_INVITEONLY) then mode_invite_clear (cs s2) chptr else Ok (cs s2)) = Ok st /\ good (set_cs s2 st) L) as (st & -> & G3).
  { case_if; [by apply invites_good|]. exists (cs s2). split; [done|]. by destruct s2. }
  cbn [obind]. apply (keeps_change _ L); [done|by intros c K|done].
Qed.

Lemma keeps_text (s : mstate) (L : list change) (f : field) : good s L -> mbuf s <> None ->
  keeps (with_buf s (fun st mb => mode_string st mb (Z.lor MODE_DEL (kind_bits (text_kind f (Own f)))) (Own f) false)).
Proof. intros G N. destruct (put_text s L f false (Own f) G N I) as (s' & L' & E & G' & N' & _). by exists s', L'. Qed.

Lemma wipe_out_keeps (s : mstate) (L : list change) : good s L -> mbuf s <> None ->
  keeps (wipe_out reg IsServer IsMe get_secure_group_id cli_name NN his_modewho his_snotices chptr s).
Proof.
  intros G Nb. unfold wipe_out. destruct (load_good s L G) as (ch & -> & _). cbn [obind].
  apply keeps_bind; [|intros s1 L1 G1 N1; apply keeps_bind; [|intros s2 L2 G2 N2; apply keeps_bind; [|intros s3 L3 G3 N3]]].
  - case_if; [|by apply (keeps_ok _ L)]. unfold with_buf. destruct (mbuf s) as [mb|] eqn:Em; [|done]. cbn [modebuf_mode_uint obind]. unfold modebuf_mode_uint.
    change (Z.lor MODE_DEL MODE_LIMIT =? Z.lor MODE_LIMIT MODE_DEL) with true. cbn [obind]. eexists _, L. split; [done|]. split; [by apply good_bits|done].
  - case_if; [by apply (keeps_text s1 L1 FKey)|by apply (keeps_ok _ L1)].
  - case_if; [by apply (keeps_text s2 L2 FUpass)|by apply (keeps_ok _ L2)].
  - case_if; [by apply (keeps_text s3 L3 FApass)|by apply (keeps_ok _ L3)].
Qed.

(** ** Telling about bans *)
Lemma put_ban (s : mstate) (L : list change) (d : bool) (mask : list ascii) : good s L -> mbuf s <> None -> (length mask <= Ban.MASKLEN)%nat ->
  keeps (with_buf s (fun st mb => mode_string st mb (Z.lor (if d then MODE_ADD else MODE_DEL) MODE_BAN) (Text mask) true)).
Proof.
  intros G N Lm. destruct (put_change s L d (KBan (Text mask) true) G N) as (s' & L' & E & G' & N' & _); [apply (Nat.le_trans _ Ban.MASKLEN); [exact Lm|by apply Nat.leb_le]|done|].
  exists s', L'. split; [|done]. rewrite <- E. by destruct d.
Qed.

Lemma send_bans_keeps (l : list Ban.notice) : Forall (fun n => (Ban.mask_said n <= Ban.MASKLEN)%nat) l -> forall s L, good s L -> mbuf s <> None ->
  keeps (send_bans reg IsServer IsMe get_secure_group_id cli_name NN his_modewho his_snotices l s).
Proof.
  induction 1 as [|n l Hn _ IH]; intros s L G N; cbn [send_bans]; [by apply (keeps_ok _ L)|].
  destruct n; try (by apply (IH s L)); (apply keeps_bind; [|intros s1 L1 G1 N1; by apply (IH s1 L1)]); [by apply (put_ban s L true)|by apply (put_ban s L false)].
Qed.

Lemma invalidate_keeps (s : mstate) (L : list change) : good s L -> mbuf s <> None -> keeps (mode_ban_invalidate chptr s).
Proof.
  intros G N. unfold mode_ban_invalidate. destruct (members_dll s L G) as (ch & -> & Em & D & Lt). cbn [obind]. rewrite Em. destruct (invalidate_ok _ _ _ _ D Lt) as (h & -> & R). cbn [obind].
  apply (keeps_ok _ L); [by apply good_heap|done].
Qed.
End Phase.

(** ** Before the bans are processed *)
Ltac goods := repeat first [assumption | apply good_say | apply good_notoper | apply good_note | apply good_dir | apply good_simple | apply good_used | (apply good_mark; [|reflexivity])].

Section Before.
Context {bound : nat}.
Abbreviation parsing s L := (good (processed := false) (bound := bound) s L).
Abbreviation parses := (fine (processed := false) (bound := bound)).
Abbreviation NN := NumNick.
Abbreviation request := (request MyUser IsUser cli_name now max_bans av_ban_len sptr).

(** The bookkeeping of [Ban.mode_parse_ban]. *)
Lemma ban_counts (r : Ban.Request) (add exc : bool) (b b' : Ban.ParseState) : Ban.mode_parse_ban r add exc b = Ok b' ->
  (Ban.numbans b' + length (Ban.parv b') <= Ban.numbans b + length (Ban.parv b))%nat /\ (length (Ban.parv b') <= length (Ban.parv b))%nat /\
  any (Ban.ps_done b') DONE_LIMIT = any (Ban.ps_done b) DONE_LIMIT /\
  (Ban.no_rights r = true -> Ban.st b' = Ban.st b /\ Ban.banlist b' = Ban.banlist b /\ Ban.numbans b' = Ban.numbans b /\ Ban.cleaned b' = Ban.cleaned b).
Proof.
  unfold Ban.mode_parse_ban. destruct (Ban.parv b) as [|t rest] eqn:Ev.
  { case_if; intros [= <-]; cbn [Ban.set_done Ban.note Ban.numbans Ban.parv Ban.ps_done]; rewrite Ev; split_and!; try done; [by apply any_lor_other|]. intros _. split_and!; try done. apply Ban.done_other. left. }
  case_if; [intros [= <-]; rewrite Ev; by split_and!|]. cbn [length]. destruct (Ban.no_rights r) eqn:Hr.
  { intros [= <-]. unfold Ban.send_notoper. cbn [Ban.ps_done]. case_if; cbn [Ban.set_done Ban.note Ban.numbans Ban.parv Ban.ps_done]; split_and!; try done; try lia; [by apply any_lor_other|].
    intros _. split_and!; try done. apply Ban.done_other. right. left. }
  case_if; [intros [= <-]; case_if; cbn; split_and!; (done || lia)|]. cbn [Ban.ps_done Ban.st Ban.banlist Ban.parv Ban.max_args Ban.numbans Ban.notices].
  set (s1 := if Ban.has _ Ban.DONE_BANCLEAN then _ else _). assert (forall z, s1 = Ok z -> Ban.parv z = rest /\ Ban.numbans z = Ban.numbans b /\ any (Ban.ps_done z) DONE_LIMIT = any (Ban.ps_done b) DONE_LIMIT) as H1.
  { subst s1. intros z. case_if; [by intros [= <-]|]. destruct (Ban.clean_loop _ _ _); cbn [obind]; [|done..]. intros [= <-]. cbn. split_and!; try done. by apply any_lor_other. }
  destruct s1 as [z| |]; cbn [obind]; [|done..]. destruct (H1 z eq_refl) as (E1 & E2 & E3). destruct (Ban.load _ _); cbn [obind]; [|done..]. destruct (Ban.set_ban_mask _ _); cbn [obind]; [|done..].
  destruct (Ban.apply_ban _ _ _ _) as [[[? ?] ?]| |]; cbn [obind]; [|done..]. intros [= <-]. cbn [Ban.numbans Ban.parv Ban.ps_done]. rewrite E1, E2, E3. split_and!; try done; lia.
Qed.

Lemma ban_parses (cm : ChanMode) (s : mstate) (L : list change) : parsing s L ->
  parses (mode_parse_ban MyUser IsUser cli_name now max_bans av_ban_len sptr cm s).
Proof.
  intros G. unfold mode_parse_ban. pose proof G as [X Hc Gl Kd Bn Nu Cl Ci Ff Bd Sm]. destruct Bn as (R & S & Fb & P & Hs).
  destruct (Ban.parse_step (request s) (dir_add s) (negb (flag cm =? MODE_BAN)) (bs s) R S Fb P) as (b & S' & E & P' & _); [unfold Ban.MAXPARA, MAXPARA in *; lia|].
  rewrite E. cbn [obind]. destruct (ban_counts _ _ _ _ _ E) as (C1 & C2 & C3 & C4). eapply fine_ok. apply good_used. instantiate (1 := L). split; cbn [set_bs cs bs mbuf flags cli_change]; try done.
  - unfold done. cbn. by rewrite C3.
  - destruct no_rights eqn:Hr; [|exists R, S', Fb; split; [done|by rewrite Hr]]. destruct C4 as (E1 & E2 & E3 & E4).
    { cbn. unfold rightless, flagged. by rewrite Ff. }
    exists R, S, Fb. split; [by apply (Ban.parsing_frame (bs s))|]. intros _. by apply Hs.
  - lia.
  - by apply (clients_fewer _ (length (Ban.parv (bs s)))).
  - lia.
Qed.

(** ** The words of the command *)
Lemma core_flag (x : ascii) (cm : ChanMode) (f : Z) : channel_find_chan_mode reg x = Some cm -> option_map flag (core_mode x) = Some f -> flag cm = f.
Proof. intros E Ec. destruct (core_mode x) as [m|] eqn:Em; [|done]. injection Ec as <-. by destruct (find_core x cm m E Em). Qed.

Lemma letter_parses (x : ascii) (s : mstate) (L : list change) : parsing s L ->
  parses (parse_letter reg IsServer IsMe IsChannelService MyUser IsUser IsAnOper priv_apass_opmode get_secure_group_id cli_name NN find_client findNUser
    his_modewho his_snotices oplevels now max_bans av_ban_len cptr sptr chptr member x s).
Proof.
  intros G. unfold parse_letter. do 2 (case_if; [apply (fine_ok _ L); goods|]). destruct (channel_find_chan_mode reg x) as [cm|] eqn:Ef.
  2:{ apply (fine_ok _ L). case_if; goods. }
  case_if; [apply (fine_ok _ L); case_if; goods|].
  destruct (Ascii.eqb_spec x "l"%char) as [->|N1]; [apply (limit_fine cm s L); [by apply (core_flag "l"%char cm)|done]|].
  destruct (Ascii.eqb_spec x "k"%char) as [->|N2]; [apply (key_fine cm s L); [by apply (core_flag "k"%char cm)|done]|].
  destruct (Ascii.eqb_spec x "A"%char) as [->|N3]; [case_if; [apply (apass_fine cm s L); [by apply (core_flag "A"%char cm)|done]|by apply (fine_ok _ L)]|].
  destruct (Ascii.eqb_spec x "U"%char) as [->|N4]; [case_if; [apply (upass_fine cm s L); [by apply (core_flag "U"%char cm)|done]|by apply (fine_ok _ L)]|].
  case_if; [by apply (ban_parses cm s L)|].
  destruct (Ascii.eqb_spec x "o"%char) as [->|N5]; [apply (client_fine cm s L); [left; by apply (core_flag "o"%char cm)|done]|].
  destruct (Ascii.eqb_spec x "v"%char) as [->|N6]; [apply (client_fine cm s L); [right; by apply (core_flag "v"%char cm)|done]|].
  cbn [orb]. by apply (fine_ok _ L), mode_good.
Qed.

Lemma letters_parse (w : list ascii) : forall s L, parsing s L ->
  parses (parse_letters reg IsServer IsMe IsChannelService MyUser IsUser IsAnOper priv_apass_opmode get_secure_group_id cli_name NN find_client findNUser
    his_modewho his_snotices oplevels now max_bans av_ban_len cptr sptr chptr member w s).
Proof.
  induction w as [|x w IH]; intros s L G; cbn [parse_letters]; [by apply (fine_ok _ L)|]. apply fine_bind; [by apply (letter_parses x s L)|]. intros s1 L1 G1. by apply (IH s1 L1).
Qed.
End Before.

Lemma good_rebound {ph : bool} {n k : nat} (s : mstate) (L : list change) : good (processed := ph) (bound := n) s L -> (length (Ban.parv (bs s)) <= k)%nat ->
  good (processed := ph) (bound := k) s L.
Proof. by intros []. Qed.

Lemma words_parse (fuel : nat) : forall n w s L, good (processed := false) (bound := n) s L -> (length (Ban.parv (bs s)) < fuel)%nat ->
  exists s' L', parse_words reg IsServer IsMe IsChannelService MyUser IsUser IsAnOper IsBurstOrBurstAck priv_apass_opmode get_secure_group_id cli_name NumNick find_client findNUser
    his_modewho his_snotices oplevels now max_bans av_ban_len cptr sptr chptr member fuel w s = Ok (s', false) /\ good (processed := false) (bound := n) s' L'.
Proof.
  induction fuel as [|fuel IH]; intros n w s L G Lt; [lia|]. cbn [parse_words]. destruct w as [|x w]; [by exists s, L|].
  destruct (letters_parse (x :: w) s L (good_rebound s L G (Nat.le_refl _))) as (s1 & L1 & -> & G1). cbn [obind]. pose proof (g_bound _ _ G1) as Le1.
  pose proof (g_bound _ _ G) as Le. assert (good (processed := false) (bound := n) s1 L1) as G2 by (apply (good_rebound s1 L1 G1); lia).
  case_if; [by exists s1, L1|]. destruct (Ban.parv (bs s1)) as [|next rest] eqn:Ev; [by exists s1, L1|]. rewrite Hlocal. cbn [andb]. case_if; [by exists s1, L1|].
  apply (IH n next _ L1); [|cbn in *; lia]. apply good_used, good_bs; try done. cbn. rewrite Ev. cbn. lia.
Qed.

(** ** [mode_process_bans] *)
Lemma bans_processed {n : nat} (s : mstate) (L : list change) : good (processed := false) (bound := n) s L -> mbuf s <> None -> done s Ban.DONE_BANCLEAN = true ->
  keeps (processed := true) (bound := n) (mode_process_bans reg IsServer IsMe MyUser IsUser get_secure_group_id cli_name NumNick his_modewho his_snotices now max_bans av_ban_len sptr chptr s).
Proof.
  intros [X Hc Gl Kd Bn Nu Cl Ci Ff Bd Sm] Nb Hd. unfold mode_process_bans. destruct Bn as (R & S & Fb & P & _).
  destruct (Ban.process_spec (request MyUser IsUser cli_name now max_bans av_ban_len sptr s) (bs s) R S Fb P Hd) as (b & inv & L' & F' & E & Sg & Al & ND & HL & Ec & _ & _ & En). rewrite E. cbn [obind].
  assert (Ban.parv b = Ban.parv (bs s) /\ Ban.numbans b = Ban.numbans (bs s) /\ Ban.ps_done b = Ban.ps_done (bs s)) as (E1 & E2 & E3).
  { revert E. unfold Ban.mode_process_bans. destruct (Ban.process_loop _ _ _ _ _ _ _) as [[[? ?] ?]| |]; cbn [obind]; [|done..]. by intros [= <- _]. }
  pose proof (Ban.p_wf _ _ _ _ P) as Wf. rewrite Ban.contents_app in Wf. apply Forall_app in Wf as [W1 W2].
  assert (good (processed := true) (bound := n) (set_bs s b) L) as G.
  { split; cbn [set_bs cs bs mbuf flags cli_change]; rewrite ?E1, ?E2; try done; [unfold done; cbn [set_bs bs]; by rewrite E3|].
    exists L', F'. split_and!; try done. rewrite Ec. by apply Ban.outcome_wf. }
  rewrite En, drop_app_length. apply keeps_bind; [by apply (send_bans_keeps _ (Ban.said_short _ _ _ W1 W2) _ L)|]. intros s1 L1 G1 N1. destruct inv; [by apply (invalidate_keeps s1 L1)|by apply (keeps_ok _ L1)].
Qed.

(** Without new bans the list is settled as it is. *)
Lemma unchanged_settled {n : nat} (s : mstate) (L : list change) : good (processed := false) (bound := n) s L -> no_rights = true \/ done s Ban.DONE_BANCLEAN = false ->
  good (processed := true) (bound := n) s L.
Proof.
  intros [X Hc Gl Kd Bn Nu Cl Ci Ff Bd Sm] H. split; try done. destruct Bn as (R & S & Fb & P & Hs).
  assert (S = []) as ->. { destruct H as [H|H]; [by apply Hs|]. pose proof (Ban.p_add _ _ _ _ P) as A. unfold Ban.cleaned in A. by rewrite (H : Ban.has _ _ = false) in A. }
  destruct P as [Sg ND Hh Al _ _ Wf _]. rewrite app_nil_r in *. by exists R, Fb.
Qed.

Lemma finish_fine {n : nat} (s : mstate) (L : list change) : good (processed := false) (bound := n) s L -> has_buffer = true \/ no_rights = true ->
  fine (processed := true) (bound := n) (finish reg IsServer IsMe IsChannelService MyUser IsUser priv_deop_lchan get_secure_group_id cli_name NumNick chname
    his_modewho his_snotices now max_bans av_ban_len sptr chptr member s).
Proof.
  intros G Hb. unfold finish. assert (rightless s = no_rights) as Er by (unfold rightless, flagged; by rewrite (g_flags _ _ G)).
  destruct no_rights eqn:Hr.
  { apply (unchanged_settled s L) in G; [|by left]. destruct (mbuf s); rewrite ?Er; by apply (fine_ok _ L). }
  destruct Hb as [Nb%(g_some _ _ G)|]; [|done]. destruct (mbuf s) as [mb|] eqn:Em; [|done]. rewrite Er. rewrite <- Em in Nb. clear Em mb.
  destruct (simple_modes_keeps s L G Nb) as (s1 & L1 & -> & G1 & N1). cbn [obind].
  assert (keeps (processed := false) (bound := n) (if flagged s1 MODE_PARSE_WIPEOUT then wipe_out reg IsServer IsMe get_secure_group_id cli_name NumNick his_modewho his_snotices chptr s1 else Ok s1)) as (s2 & L2 & -> & G2 & N2).
  { case_if; [by apply (wipe_out_keeps s1 L1)|by apply (keeps_ok _ L1)]. }
  cbn [obind]. assert (keeps (processed := true) (bound := n) (if done s2 Ban.DONE_BANCLEAN then mode_process_bans reg IsServer IsMe MyUser IsUser get_secure_group_id cli_name NumNick his_modewho his_snotices now max_bans av_ban_len sptr chptr s2 else Ok s2)) as (s3 & L3 & -> & G3 & N3).
  { destruct (done s2 Ban.DONE_BANCLEAN) eqn:Hd; [by apply (bans_processed s2 L2)|]. apply (keeps_ok _ L2); [|done]. apply unchanged_settled; [done|by right]. }
  cbn [obind]. destruct (g_cli _ _ G3) as (K & z & Ec & _ & Lz & Lk). assert (exists e, cli_change s3 !! 0%nat = Some e) as [e ->].
  { apply lookup_lt_is_Some_2. rewrite Ec, length_app, repeat_length. lia. }
  case_if; [by apply (fine_ok _ L3)|]. destruct (process_clients_keeps (S MAXPARA) 0 s3 L3 G3 N3) as (s4 & L4 & E4 & G4 & _); [unfold MAXPARA; lia..|]. by exists s4, L4.
Qed.

Lemma start_good (st : state) (b : Ban.bstate) (head : option Ban.bid) (mb : option ModeBuf) (parv : list (list ascii)) (L : list change) (R Fb : list Ban.bid) : st = st0 ->
  matrix st M U F off -> (exists ch, chans st !! chptr = Some ch /\ keys_ok ch /\ buffer_ok ch mb L) -> List.filter is_limit L = [] -> Forall (fun x => kind_ok (what x)) L ->
  Ban.parsing (bs (start st b head mb parv fl)) R [] Fb -> (length parv < MAXPARA)%nat -> (has_buffer = true <-> mb <> None) ->
  good (processed := false) (bound := length parv) (set_used (start st b head mb parv fl) 1) L.
Proof.
  intros -> X Hc Hl Kd P Lt Hm. split; try done.
  - by exists R, [], Fb.
  - by exists [], MAXPARA.
Qed.

(** ** The whole parser *)
Lemma mode_parse_good (b : Ban.bstate) (head : option Ban.bid) (mb : option ModeBuf) (parv : list (list ascii)) (L : list change) (R Fb : list Ban.bid) :
  matrix st0 M U F off -> (exists ch, chans st0 !! chptr = Some ch /\ keys_ok ch /\ buffer_ok ch mb L) -> List.filter is_limit L = [] -> Forall (fun x => kind_ok (what x)) L ->
  Ban.parsing (bs (start st0 b head mb parv fl)) R [] Fb -> (0 < length parv < MAXPARA)%nat -> (has_buffer = true <-> mb <> None) -> has_buffer = true \/ no_rights = true ->
  fine (processed := true) (bound := length parv) (mode_parse reg IsServer IsMe IsChannelService MyUser IsUser IsAnOper IsBurstOrBurstAck priv_apass_opmode priv_deop_lchan get_secure_group_id
    cli_name NumNick chname find_client findNUser his_modewho his_snotices oplevels now max_bans av_ban_len pre_mode_denied cptr sptr chptr member st0 b head mb parv fl).
Proof.
  intros X Hc Hl Kd P Lt Hm Hb. destruct parv as [|w rest]; [cbn in Lt; lia|]. unfold mode_parse. case_if.
  - apply (fine_ok _ L), good_say. apply unchanged_settled; [|by right].
    apply (same_good (set_used (start st0 b head mb (w :: rest) fl) 1)); try done. apply (start_good st0 b head mb (w :: rest) L R Fb); try done. apply Lt.
  - assert (good (processed := false) (bound := length (w :: rest)) (set_used (start st0 b head mb rest fl) 1) L) as G.
    { apply (good_rebound (n := length rest)); [|cbn; lia]. apply (start_good st0 b head mb rest L R Fb); try done; [by apply (Ban.parsing_frame _ _ _ _ _ P)|cbn in Lt; lia]. }
    destruct (words_parse (S (length rest)) _ w _ L G) as (s1 & L1 & -> & G1); [cbn; lia|]. cbn [obind]. by apply (finish_fine s1 L1 G1).
Qed.
End Safety.
