(* ===== verification/ModeCmd.v ===== *)
(** * The command [MODE] on a channel: [ircd/m_mode.c]

    [m_mode] for local users and [ms_mode] for servers from the point where the channel is
    found, and [channel_modes] of [ircd/channel.c], which shows the modes of a channel.
    They put together the parser of [ModeParse] and the buffers of [ModeBuf].  The theorems:
    whatever a local user sends, the command returns and leaves channel, bans and members in
    order; someone without rights changes nothing; and the keys of a channel are shown to
    those only who may see them. *)

From stdpp Require Import base list gmap sets strings.
From Stdlib Require Import ZArith Lia Ascii.
From S2P Require Import Prelude Chattr Strings AddrText MMatch.
From S2P Require Ban.
From S2P Require Import Channel ChanModes ModeBuf ModeParse ModeBufSpec ModeParseSpec.

Local Open Scope ircu_scope.
Local Open Scope Z_scope.

Definition MODEBUFLEN : nat := 200.

(** [strcat] to [parabuf], and a letter to [modebuf]; both have [MODEBUFLEN] bytes. *)
Definition strcat (pbuf s : list ascii) : outcome (list ascii) := if (length pbuf + length s <? MODEBUFLEN)%nat then Ok (pbuf ++ s) else Oob.
Definition add_letter (mbuf : list ascii) (x : ascii) : outcome (list ascii) := if (S (length mbuf) <? MODEBUFLEN)%nat then Ok (mbuf ++ [x]) else Oob.

(** Whether [channel_modes] shows a mode without an argument; [my] is [MyUser(cptr)]. *)
Definition flag_shown (my : bool) (ch : Channel) (cm : ChanMode) : bool :=
  negb (any (attr cm) (Z.lor CHANMODE_PARAM CHANMODE_MEMBER)) && any (mode ch) (flag cm) &&
  if any (attr cm) CHANMODE_LOCAL then my && negb ((flag cm =? MODE_WASDELJOINS) && any (mode ch) MODE_DELJOINS)
  else negb ((flag cm =? MODE_PRIVATE) && any (mode ch) MODE_SECRET) && negb ((flag cm =? MODE_TLSONLY) && my && any (mode ch) MODE_TLSINSECURE).

Fixpoint flags_loop (my : bool) (ch : Channel) (l : list ChanMode) (mbuf : list ascii) : outcome (list ascii) :=
  match l with
  | [] => Ok mbuf
  | cm :: l =>
      if (length mbuf <? MODEBUFLEN - CHANMODE_CHARS_LEN)%nat then
        if flag_shown my ch cm then let* mbuf := add_letter mbuf (chr cm) in flags_loop my ch l mbuf
        else flags_loop my ch l mbuf
      else Ok mbuf
  end.

(** A key or password: its letter, a space behind an earlier parameter, and the text or [*]. *)
Definition show_text (x : ascii) (text : list ascii) (shown : outcome bool) (r : list ascii * list ascii * bool) : outcome (list ascii * list ascii * bool) :=
  let '(mbuf, pbuf, previous_parameter) := r in
  if empty text then Ok r
  else
    let* mbuf := add_letter mbuf x in
    let* pbuf := if previous_parameter : bool then strcat pbuf [" "%char] else Ok pbuf in
    let* s := shown in
    let* pbuf := strcat pbuf (if s : bool then text else ["*"%char]) in
    Ok (mbuf, pbuf, true).

Inductive mode_result : Type :=
| ModeIs (modebuf parabuf : list ascii) (creationtime : Z)
| ModeDone (s : mstate).

Section Command.
Context (reg : list ChanMode).
Context (IsServer IsMe IsChannelService MyUser IsUser IsAnOper IsBurstOrBurstAck : cid -> bool).
Context (priv_apass_opmode priv_deop_lchan priv_mode_lchan : cid -> bool).
Context (get_secure_group_id : cid -> Z).
Context (cli_name : cid -> list ascii) (NumNick : cid -> list ascii * list ascii) (chname : chid -> list ascii).
Context (find_client : list ascii -> option cid).
Context (findNUser : list ascii -> option cid).
Context (uworld : cid -> cid -> bool).                         (** [find_conf_byhost] with [CONF_UWORLD] *)
Context (his_modewho his_snotices oplevels : bool) (now max_bans av_ban_len : Z).
Context (pre_mode_denied : cid -> cid -> chid -> list ascii -> bool).

Abbreviation find_member_link := (find_member_link IsServer IsMe IsChannelService).
Abbreviation mode_parse := (mode_parse reg IsServer IsMe IsChannelService MyUser IsUser IsAnOper IsBurstOrBurstAck priv_apass_opmode priv_deop_lchan get_secure_group_id
    cli_name NumNick chname find_client findNUser his_modewho his_snotices oplevels now max_bans av_ban_len pre_mode_denied).
Abbreviation modebuf_flush := (modebuf_flush reg IsServer IsMe get_secure_group_id cli_name NumNick his_modewho his_snotices).

Definition channel_modes (st : state) (cptr : cid) (chptr : chid) (member : option mid) : outcome (list ascii * list ascii) :=
  let* ch := load_chan st chptr in
  let* mbuf := flags_loop (MyUser cptr) ch reg ["+"%char] in
  let* r :=
    if limit ch =? 0 then Ok (mbuf, [], false)
    else let* mbuf := add_letter mbuf "l" in Ok (mbuf, decimal 10 (limit ch), true) in
  let* r := show_text "k" (key ch) (let* op := is_chan_op IsServer IsMe IsChannelService st cptr chptr in Ok (op || IsServer cptr)) r in
  let* r := show_text "A" (apass ch) (Ok (IsServer cptr)) r in
  let* r := show_text "U" (upass ch)
    (if IsServer cptr then Ok true
     else match member with None => Ok false | Some m => let* x := load (heap st) m in Ok (any (status x) CHFL_CHANOP && (oplevel x =? 0)) end) r in
  Ok (r.1.1, r.1.2).

(** [return modebuf_flush(&mbuf)] *)
Definition flushed (o : outcome mstate) : outcome mstate :=
  let* s := o in
  match mbuf s with
  | None => Oob
  | Some mb => let* (st, mb, more) := modebuf_flush (cs s) mb in Ok (set_buf s st mb more)
  end.

Definition IsChanOp (st : state) (member : option mid) : outcome bool :=
  match member with None => Ok false | Some m => let* x := load (heap st) m in Ok (any (status x) CHFL_CHANOP) end.

(** [parv] are the words behind the name of the channel. *)
Definition m_mode (cptr sptr : cid) (chptr : chid) (st : state) (b : Ban.bstate) (head : option Ban.bid) (parv : list (list ascii)) : outcome mode_result :=
  let* member := find_member_link st chptr sptr in
  match parv with
  | [] =>
      let* (modebuf, parabuf) := channel_modes st sptr chptr member in
      let* ch := load_chan st chptr in
      Ok (ModeIs modebuf parabuf (creationtime ch))
  | _ =>
      let* op := IsChanOp st member in
      let* s :=
        if negb op then
          if IsLocalChannel (chname chptr) && priv_mode_lchan sptr then
            let mbuf := modebuf_init chname sptr (Some cptr) chptr (Z.lor MODEBUF_DEST_CHANNEL MODEBUF_DEST_HACK4) in
            flushed (mode_parse cptr sptr chptr member st b head (Some mbuf) parv (Z.lor MODE_PARSE_SET MODE_PARSE_FORCE))
          else mode_parse cptr sptr chptr member st b head None parv (match member with Some _ => MODE_PARSE_NOTOPER | None => MODE_PARSE_NOTMEMBER end)
        else
          let mbuf := modebuf_init chname sptr (Some cptr) chptr (Z.lor MODEBUF_DEST_CHANNEL MODEBUF_DEST_SERVER) in
          flushed (mode_parse cptr sptr chptr member st b head (Some mbuf) parv MODE_PARSE_SET) in
      Ok (ModeDone s)
  end.

Definition ms_mode (cptr sptr : cid) (chptr : chid) (st : state) (b : Ban.bstate) (head : option Ban.bid) (parv : list (list ascii)) : outcome mstate :=
  let init := modebuf_init chname sptr (Some cptr) chptr in
  let told := Z.lor MODEBUF_DEST_CHANNEL MODEBUF_DEST_SERVER in
  let forced := Z.lor (Z.lor MODE_PARSE_SET MODE_PARSE_STRICT) MODE_PARSE_FORCE in
  if IsServer sptr then
    let dest :=
      if uworld sptr sptr || uworld cptr sptr then Z.lor told MODEBUF_DEST_HACK4
      else if negb oplevels then Z.lor told MODEBUF_DEST_HACK3
      else told in
    flushed (mode_parse cptr sptr chptr None st b head (Some (init dest)) parv forced)
  else
    let* member := find_member_link st chptr sptr in
    let* op := IsChanOp st member in
    if negb op then
      let dest := Z.lor (Z.lor (Z.lor MODEBUF_DEST_SERVER MODEBUF_DEST_HACK2) MODEBUF_DEST_DEOP) MODEBUF_DEST_BOUNCE in
      flushed (mode_parse cptr sptr chptr member st b head (Some (init dest)) parv (Z.lor MODE_PARSE_STRICT MODE_PARSE_BOUNCE))
    else flushed (mode_parse cptr sptr chptr member st b head (Some (init told)) parv forced).
End Command.

(** ** What [channel_modes] writes *)
Lemma add_letter_ok (mbuf : list ascii) (x : ascii) : (length mbuf <= 198)%nat -> add_letter mbuf x = Ok (mbuf ++ [x]).
Proof. intros H. unfold add_letter. rewrite (proj2 (Nat.ltb_lt _ _)); [done|]. unfold MODEBUFLEN. lia. Qed.
Lemma strcat_ok (p s : list ascii) : (length p + length s <= 199)%nat -> strcat p s = Ok (p ++ s).
Proof. intros H. unfold strcat. rewrite (proj2 (Nat.ltb_lt _ _)); [done|]. unfold MODEBUFLEN. lia. Qed.

(** The letters of the modes that are shown; there are no more than 52. *)
Lemma flags_loop_ok (my : bool) (ch : Channel) : forall l mbuf, (length mbuf + length l <= 136)%nat ->
  flags_loop my ch l mbuf = Ok (mbuf ++ map chr (List.filter (flag_shown my ch) l)).
Proof.
  induction l as [|cm l IH]; intros mbuf Le; cbn [flags_loop List.filter map]; [by rewrite app_nil_r|]. cbn [length] in Le.
  rewrite (proj2 (Nat.ltb_lt _ _)) by (unfold MODEBUFLEN, CHANMODE_CHARS_LEN; lia). destruct (flag_shown my ch cm); [|apply IH; lia].
  rewrite add_letter_ok by lia. cbn [obind]. rewrite IH by (rewrite length_app; cbn; lia). cbn. by rewrite <- app_assoc.
Qed.

Lemma show_text_ok (x : ascii) (t m p : list ascii) (prev s : bool) (shown : outcome bool) (n k : nat) : (t <> [] -> shown = Ok s) -> (length t <= KEYLEN)%nat ->
  (length m <= n)%nat -> (n <= 198)%nat -> (length p <= k)%nat -> (k + 24 <= 199)%nat ->
  exists m' p' prev', show_text x t shown (m, p, prev) = Ok (m', p', prev') /\ (length m' <= S n)%nat /\ (length p' <= k + 24)%nat /\
    m' = m ++ (if empty t then [] else [x]) /\ prev' = prev || negb (empty t) /\
    p' = p ++ (if empty t then [] else (if prev then [" "%char] else []) ++ (if s then t else ["*"%char])).
Proof.
  intros Hs Lt Lm Ln Lp Lk. unfold show_text. destruct (empty t) eqn:Et.
  { exists m, p, prev. rewrite !app_nil_r, orb_false_r. split_and!; try done; lia. }
  rewrite add_letter_ok by lia. cbn [obind]. rewrite Hs by (by intros ->).
  assert ((if prev then strcat p [" "%char] else Ok p) = Ok (p ++ if prev then [" "%char] else [])) as ->.
  { destruct prev; [rewrite strcat_ok; [done|cbn; lia]|by rewrite app_nil_r]. }
  cbn [obind]. unfold KEYLEN in Lt. assert (length (if s then t else ["*"%char]) <= 23)%nat as Lw by (destruct s; cbn; lia).
  rewrite strcat_ok by (rewrite length_app; destruct prev; cbn; lia). cbn [obind]. eexists _, _, _. split; [done|]. rewrite !length_app. split_and!.
  - cbn. lia.
  - destruct prev; cbn; lia.
  - done.
  - by rewrite orb_true_r.
  - by rewrite <- app_assoc.
Qed.

(** Words with a space between them. *)
Fixpoint joined (ws : list (list ascii)) : list ascii :=
  match ws with
  | [] => []
  | [w] => w
  | w :: ws => w ++ " "%char :: joined ws
  end.
Lemma joined_snoc (ws : list (list ascii)) (w : list ascii) : joined (ws ++ [w]) = joined ws ++ (match ws with [] => [] | _ => [" "%char] end) ++ w.
Proof. induction ws as [|v ws IH]; [done|]. destruct ws as [|u ws]; [done|]. cbn in *. rewrite IH. by rewrite <- !app_assoc. Qed.

(** What is told of a text, and its letter. *)
Definition told_word (t : list ascii) (seen : bool) : list (list ascii) := if empty t then [] else [if seen then t else ["*"%char]].
Definition told_letter (t : list ascii) (x : ascii) : list ascii := if empty t then [] else [x].

Definition some_word (ws : list (list ascii)) : bool := match ws with [] => false | _ => true end.

Lemma show_text_words (x : ascii) (t m : list ascii) (ws : list (list ascii)) (s : bool) (shown : outcome bool) (n k : nat) : (t <> [] -> shown = Ok s) -> (length t <= KEYLEN)%nat ->
  (length m <= n)%nat -> (n <= 198)%nat -> (length (joined ws) <= k)%nat -> (k + 24 <= 199)%nat ->
  show_text x t shown (m, joined ws, some_word ws) = Ok (m ++ told_letter t x, joined (ws ++ told_word t s), some_word (ws ++ told_word t s)) /\
  (length (m ++ told_letter t x) <= S n)%nat /\ (length (joined (ws ++ told_word t s)) <= k + 24)%nat.
Proof.
  intros Hs Lt Lm Ln Lp Lk. destruct (show_text_ok x t m (joined ws) (some_word ws) s shown n k) as (m' & p' & prev' & E & L1 & L2 & -> & -> & ->); try done. rewrite E.
  unfold told_letter, told_word in *. destruct (empty t); cbn [negb].
  - rewrite !app_nil_r, orb_false_r in *. done.
  - rewrite joined_snoc, orb_true_r in *. destruct ws as [|w ws]; (split; [done|split; done]).
Qed.

Section Shown.
Context (reg : list ChanMode) (IsServer IsMe IsChannelService MyUser : cid -> bool).

Lemma channel_modes_is (s : gset ascii) (st : state) (cptr : cid) (chptr : chid) (member : option mid) (ch : Channel) (op manager : bool) : holds s reg ->
  chans st !! chptr = Some ch -> keys_ok ch -> is_chan_op IsServer IsMe IsChannelService st cptr chptr = Ok op ->
  match member with None => manager = false | Some m => exists x, heap st !! m = Some x /\ manager = any (status x) CHFL_CHANOP && (oplevel x =? 0) end ->
  channel_modes reg IsServer IsMe IsChannelService MyUser st cptr chptr member =
    Ok ("+"%char :: map chr (List.filter (flag_shown (MyUser cptr) ch) reg) ++ (if limit ch =? 0 then [] else ["l"%char]) ++
          told_letter (key ch) "k" ++ told_letter (apass ch) "A" ++ told_letter (upass ch) "U",
        joined ((if limit ch =? 0 then [] else [decimal 10 (limit ch)]) ++ told_word (key ch) (op || IsServer cptr) ++ told_word (apass ch) (IsServer cptr) ++
          told_word (upass ch) (IsServer cptr || manager))).
Proof.
  intros Hr Ec (K1 & K2 & K3) Eo Hm. unfold channel_modes, load_chan. rewrite Ec. cbn [obind]. pose proof (holds_length _ _ Hr) as Lr.
  rewrite flags_loop_ok by (cbn; lia). cbn [obind]. set (m0 := ["+"%char] ++ _). assert (length m0 <= 53)%nat as L0.
  { subst m0. rewrite length_app, length_map. pose proof (List.filter_length_le (flag_shown (MyUser cptr) ch) reg). cbn. lia. }
  set (w0 := if limit ch =? 0 then [] else [decimal 10 (limit ch)]). set (m1 := m0 ++ if limit ch =? 0 then [] else ["l"%char]).
  assert ((if limit ch =? 0 then Ok (m0, [], false) else let* mbuf := add_letter m0 "l" in Ok (mbuf, decimal 10 (limit ch), true)) = Ok (m1, joined w0, some_word w0)) as ->.
  { subst w0 m1. destruct (limit ch =? 0); [by rewrite app_nil_r|]. rewrite add_letter_ok by lia. done. }
  assert (length m1 <= 54)%nat as L1 by (subst m1; rewrite length_app; destruct (limit ch =? 0); cbn [length]; lia).
  assert (length (joined w0) <= 10)%nat as P1 by (subst w0; destruct (limit ch =? 0); [cbn; lia|apply decimal_length]).
  cbn [obind]. rewrite Eo. cbn [obind].
  destruct (show_text_words "k" (key ch) m1 w0 (op || IsServer cptr) (Ok (op || IsServer cptr)) 54 10) as (-> & L2 & P2); try done; try lia. cbn [obind].
  destruct (show_text_words "A" (apass ch) (m1 ++ told_letter (key ch) "k") (w0 ++ told_word (key ch) (op || IsServer cptr)) (IsServer cptr) (Ok (IsServer cptr)) 55 34) as (-> & L3 & P3); try done; try lia. cbn [obind].
  match goal with |- context [show_text "U" _ ?e _] => destruct (show_text_words "U" (upass ch) ((m1 ++ told_letter (key ch) "k") ++ told_letter (apass ch) "A")
    ((w0 ++ told_word (key ch) (op || IsServer cptr)) ++ told_word (apass ch) (IsServer cptr)) (IsServer cptr || manager) e 56 58) as (-> & _); try done; try lia end.
  { intros _. destruct (IsServer cptr); [done|]. destruct member as [m|]; [|by subst]. destruct Hm as (x & Hx & ->). unfold load. by rewrite Hx. }
  cbn [obind fst snd]. subst m1 m0 w0. rewrite <- !app_assoc. done.
Qed.

(** C17. [channel_modes] stays inside its two buffers and says exactly this: the letters of
    the modes that are set and not hidden by another one, with local-only modes for local
    users only, then the limit, key and passwords as far as the channel has them.  The key
    is written out for operators of the channel and for servers, the administrator's
    password for servers, and the user password for servers and for an operator of level 0;
    everyone else is shown [*]. *)
Theorem channel_modes_exact (s : gset ascii) (st : state) (cptr : cid) (chptr : chid) (member : option mid) (ch : Channel) (op manager : bool) : holds s reg ->
  chans st !! chptr = Some ch -> keys_ok ch -> is_chan_op IsServer IsMe IsChannelService st cptr chptr = Ok op ->
  match member with None => manager = false | Some m => exists x, heap st !! m = Some x /\ manager = any (status x) CHFL_CHANOP && (oplevel x =? 0) end ->
  channel_modes reg IsServer IsMe IsChannelService MyUser st cptr chptr member =
    Ok ("+"%char :: map chr (List.filter (flag_shown (MyUser cptr) ch) reg) ++ (if limit ch =? 0 then [] else ["l"%char]) ++
          told_letter (key ch) "k" ++ told_letter (apass ch) "A" ++ told_letter (upass ch) "U",
        joined ((if limit ch =? 0 then [] else [decimal 10 (limit ch)]) ++ told_word (key ch) (op || IsServer cptr) ++ told_word (apass ch) (IsServer cptr) ++
          told_word (upass ch) (IsServer cptr || manager))).
Proof. apply channel_modes_is. Qed.
End Shown.

(** ** The whole command *)
Section Whole.
Context (reg : list ChanMode).
Context (IsServer IsMe IsChannelService MyUser IsUser IsAnOper IsBurstOrBurstAck : cid -> bool).
Context (priv_apass_opmode priv_deop_lchan priv_mode_lchan : cid -> bool).
Context (get_secure_group_id : cid -> Z).
Context (cli_name : cid -> list ascii) (NumNick : cid -> list ascii * list ascii) (chname : chid -> list ascii).
Context (find_client : list ascii -> option cid).
Context (findNUser : list ascii -> option cid).
Context (his_modewho his_snotices oplevels : bool) (now max_bans av_ban_len : Z).
Context (pre_mode_denied : cid -> cid -> chid -> list ascii -> bool).
Context (s : gset ascii) (Hreg : holds s reg).
Context (Hnames : forall u, (length (cli_name u) <= 305 /\ length (numeric NumNick u) <= 5)%nat).

Abbreviation flushed := (flushed reg IsServer IsMe get_secure_group_id cli_name NumNick his_modewho his_snotices).
Abbreviation parse := (mode_parse reg IsServer IsMe IsChannelService MyUser IsUser IsAnOper IsBurstOrBurstAck priv_apass_opmode priv_deop_lchan get_secure_group_id
    cli_name NumNick chname find_client findNUser his_modewho his_snotices oplevels now max_bans av_ban_len pre_mode_denied).

(** A buffer that has been flushed. *)
Definition drained (mb : option ModeBuf) : Prop :=
  match mb with None => True | Some mb => holding mb [] /\ mb_add mb = 0 /\ mb_rem mb = 0 end.

Lemma flushed_ok (st0 : state) M U F off (chptr : chid) (fl : Z) (n : nat) (x : mstate) (L : list change) :
  good IsServer IsMe cli_name NumNick chptr st0 M U F off fl true (processed := true) (bound := n) x L ->
  exists x', flushed (Ok x) = Ok x' /\ matrix (cs x') M U F off /\ settled (bs x') /\ drained (mbuf x').
Proof.
  intros G. unfold ModeCmd.flushed. cbn [obind]. pose proof (proj1 (g_some _ _ _ _ _ _ _ _ _ _ _ _ _ _ G) eq_refl) as Nb. pose proof (g_matrix _ _ _ _ _ _ _ _ _ _ _ _ _ _ G) as X.
  pose proof (g_bans _ _ _ _ _ _ _ _ _ _ _ _ _ _ G) as Bn. destruct (g_chan _ _ _ _ _ _ _ _ _ _ _ _ _ _ G) as (ch & Ec & Kc & Hb).
  destruct (mbuf x) as [mb|]; [|done]. destruct Hb as (Eh & _ & [Sd Lt]). unfold modebuf_flush. destruct ((mb_add mb =? 0) && (mb_rem mb =? 0) && (mb_count mb =? 0)%nat) eqn:Ee.
  - cbn [modebuf_flush_int]. rewrite Ee. cbn [obind]. eexists. split; [done|]. split; [done|]. split; [done|]. cbn. apply andb_true_iff in Ee as [[?%Z.eqb_eq ?%Z.eqb_eq]%andb_true_iff Ez%Nat.eqb_eq].
    split; [|done]. pose proof (sd_hold _ _ _ _ _ Sd) as (rest & E1 & E2 & E3 & E4). rewrite Ez in E4. destruct L; [|done]. by exists rest.
  - rewrite <- Eh in Ec. destruct (flush_all cli_name NumNick IsServer IsMe his_modewho his_snotices reg get_secure_group_id (holds_length _ _ Hreg) (cs x) ch mb L Ec) as (a & r & m & G1 & Gs & mb' & _ & _ & _ & _ & E & H1 & H2 & H3); [|done..|].
    + rewrite Eh in Ec. by apply (matrix_walkable chptr M U F off (cs x) ch X).
    + rewrite E. cbn [obind]. eexists. split; [done|]. split; [|by split]. cbn. rewrite Eh in *. by apply (matrix_retouched chptr M U F off (cs x) ch m X).
Qed.

Lemma init_buffered (cptr sptr : cid) (chptr : chid) (ch : Channel) (dest : Z) : any dest MODEBUF_DEST_DEOP = false ->
  buffer_ok cli_name NumNick chptr ch (Some (modebuf_init chname sptr (Some cptr) chptr dest)) [].
Proof.
  intros Hd. unfold modebuf_init. set (dest' := if IsLocalChannel _ then _ else dest). assert (any dest' MODEBUF_DEST_DEOP = false) as Hd'.
  { subst dest'. case_if; [|done]. by rewrite without_other. }
  split; [done|]. split; [done|]. split; [split|].
  - exists (repeat (Slot 0 (MUint 0) 0) MAXMODEPARAMS). split; [done|]. split; [|done]. by repeat constructor.
  - constructor.
  - unfold one_limit. cbn. lia.
  - apply Hnames.
  - done.
  - unfold places. cbn. rewrite Hd'. cbn. unfold MAXMODEPARAMS. lia.
Qed.

Lemma modes_shown (st : state) (chptr : chid) (cptr : cid) (member : option mid) (ch : Channel) : chans st !! chptr = Some ch -> keys_ok ch ->
  find_member_link IsServer IsMe IsChannelService st chptr cptr = Ok member -> match member with None => True | Some m => exists x, heap st !! m = Some x end ->
  exists mb pb, channel_modes reg IsServer IsMe IsChannelService MyUser st cptr chptr member = Ok (mb, pb).
Proof.
  intros Ec Kc Em Hm. assert (exists op, is_chan_op IsServer IsMe IsChannelService st cptr chptr = Ok op) as [op Eo].
  { unfold is_chan_op. rewrite Em. cbn [obind]. destruct member as [m|]; [|by eexists]. destruct Hm as [x Hx]. unfold load. rewrite Hx. by eexists. }
  assert (exists mg : bool, match member with None => mg = false | Some m => exists x, heap st !! m = Some x /\ mg = any (status x) CHFL_CHANOP && (oplevel x =? 0) end) as [mg Hg].
  { destruct member as [m|]; [|by exists false]. destruct Hm as [x Hx]. eauto. }
  rewrite (channel_modes_is reg IsServer IsMe IsChannelService MyUser s st cptr chptr member ch op mg) by done. by eexists _, _.
Qed.

(** C6. Whatever words a local user sends in a [MODE] command for a channel, fewer than
    [MAXPARA] of them, with whatever rights, the command returns when the bans on the channel
    have the form nick!user@host, as the bans [MODE] sets all have: the parser, the bans, the
    changes of members and the flush stay inside their arrays and buffers and follow no bad
    pointer.  Afterwards the members of the channel are the same cells on the same lists, the
    list of bans holds allocated bans of that form only, and the mode buffer is empty. *)
Theorem m_mode_safe (cptr sptr : cid) (chptr : chid) (st : state) (ch : Channel) M U F off (b : Ban.bstate) (head : option Ban.bid) (R Fb : list Ban.bid) (parv : list (list ascii)) :
  MyUser sptr = true -> IsServer cptr = false -> ordinary IsServer IsMe sptr -> is_Some (clients st !! sptr) ->
  (forall n u, find_client n = Some u -> client_ok IsServer IsMe st u) ->
  matrix st M U F off -> chans st !! chptr = Some ch -> keys_ok ch ->
  Ban.parsing (Ban.MkParse b head parv (Z.of_nat MAXMODEPARAMS) 0 0 []) R [] Fb -> (length parv < MAXPARA)%nat ->
  exists r, m_mode reg IsServer IsMe IsChannelService MyUser IsUser IsAnOper IsBurstOrBurstAck priv_apass_opmode priv_deop_lchan priv_mode_lchan get_secure_group_id
      cli_name NumNick chname find_client findNUser his_modewho his_snotices oplevels now max_bans av_ban_len pre_mode_denied cptr sptr chptr st b head parv = Ok r /\
    match r with
    | ModeIs _ _ _ => parv = []
    | ModeDone s' => parv <> [] /\ matrix (cs s') M U F off /\ settled (bs s') /\ drained (mbuf s')
    end.
Proof.
  intros Hmy Hloc Ho [us Eu] Hfc X Ec Kc P Lt. unfold m_mode.
  assert (exists member, find_member_link IsServer IsMe IsChannelService st chptr sptr = Ok member /\
    match member with None => True | Some m => m ∈ M chptr /\ exists x, heap st !! m = Some x end) as (member & Em & Hmem).
  { destruct (find_member_spec IsServer IsMe IsChannelService st M U F off chptr sptr ch us X Ho Ec Eu) as [(m & x & E & Hm & Hx & _)|[E _]]; [exists (Some m)|exists None]; eauto. }
  rewrite Em. cbn [obind]. destruct parv as [|w rest].
  - destruct (modes_shown st chptr sptr member ch Ec Kc Em) as (mb & pb & ->); [by destruct member; [apply Hmem|]|]. cbn [obind]. unfold load_chan. rewrite Ec. cbn [obind]. by eexists.
  - assert (exists op, IsChanOp st member = Ok op /\ (op = true -> member <> None)) as (op & -> & Hop).
    { destruct member as [m|]; cbn [IsChanOp]; [destruct Hmem as (_ & x & Hx); unfold load; rewrite Hx; by eexists|by exists false]. }
    cbn [obind]. set (parv := w :: rest) in *.
    assert (forall fl hb mb, match member with Some m => m ∈ M chptr | None => any fl (Z.lor MODE_PARSE_FORCE (Z.lor MODE_PARSE_NOTOPER MODE_PARSE_NOTMEMBER)) = true end ->
      buffer_ok cli_name NumNick chptr ch mb [] -> (hb = true <-> mb <> None) -> hb = true \/ no_rights fl = true ->
      fine IsServer IsMe cli_name NumNick chptr st M U F off fl hb (processed := true) (bound := length parv) (parse cptr sptr chptr member st b head mb parv fl)) as Run.
    { intros fl hb mb H1 H2 H3 H4. apply (mode_parse_good reg IsServer IsMe IsChannelService MyUser IsUser IsAnOper IsBurstOrBurstAck priv_apass_opmode priv_deop_lchan get_secure_group_id cli_name NumNick chname find_client findNUser
        his_modewho his_snotices oplevels now max_bans av_ban_len pre_mode_denied cptr sptr chptr member s Hreg Hnames Hmy Hloc st M U F off Hfc fl hb H1 b head mb parv [] R Fb); try done; [by exists ch|cbn in *; lia]. }
    assert (forall fl mb, fine IsServer IsMe cli_name NumNick chptr st M U F off fl true (processed := true) (bound := length parv) (parse cptr sptr chptr member st b head mb parv fl) ->
      exists r, (let* s' := flushed (parse cptr sptr chptr member st b head mb parv fl) in Ok (ModeDone s')) = Ok r /\
        match r with ModeIs _ _ _ => parv = [] | ModeDone s' => parv <> [] /\ matrix (cs s') M U F off /\ settled (bs s') /\ drained (mbuf s') end) as Fl.
    { intros fl mb (x & L & -> & G). destruct (flushed_ok st M U F off chptr fl _ x L G) as (x' & -> & H). cbn [obind]. by eexists. }
    destruct op; cbn [negb].
    + apply Fl, Run; [destruct member as [m|]; [apply Hmem|by destruct (Hop eq_refl)]|by apply init_buffered|done|by left].
    + case_if.
      * apply Fl, Run; [destruct member as [m|]; [apply Hmem|done]|by apply init_buffered|done|by left].
      * destruct (Run (match member with Some _ => MODE_PARSE_NOTOPER | None => MODE_PARSE_NOTMEMBER end) false None) as (x & L & -> & G); [destruct member as [m|]; [apply Hmem|done]|done|done|right; by destruct member|].
        cbn [obind]. eexists. split; [done|]. split; [done|]. split; [apply G|]. split; [apply G|].
        destruct (mbuf x) eqn:Ex; [|done]. pose proof (proj2 (g_some _ _ _ _ _ _ _ _ _ _ _ _ _ _ G)) as Hn. rewrite Ex in Hn. by specialize (Hn ltac:(done)).
Qed.
End Whole.

(** ** A channel with an operator *)
Definition op_chan : state := match add_user_to_channel no_group demo 1%positive 1%positive CHFL_CHANOP 999 with Ok st => st | _ => demo end.
Lemma op_chan_roster : represents op_chan (join ∅ 1%positive 1%positive CHFL_CHANOP).
Proof.
  destruct (join_refines nobody nobody nobody no_group demo ∅ 1%positive 1%positive (Chan None 1000 0 None [] [] 0 0 [] [] []) (MkUser None [] 0 0) CHFL_CHANOP 999 represents_demo)
    as (st & E & R); try done. unfold op_chan. by rewrite E.
Qed.

Definition only_one (n : list ascii) : option cid := if bool_decide (n = cstr "nick") then Some 1%positive else None.
Definition anyone (u : cid) : bool := true.
Definition no_bans : Ban.bstate := Ban.BState Ban.slots None 0 0 0.
Definition ex_words : list (list ascii) := [cstr "+blv-o"; cstr "*!*@a.example.org"; cstr "12"; cstr "nick"; cstr "nick"].
Definition ex_mode (w : list (list ascii)) : outcome mode_result :=
  m_mode (channel_init_chan_modes []) nobody nobody nobody anyone anyone nobody nobody nobody nobody nobody no_group ex_name ex_numnick ex_chname only_one (fun _ => None)
    false false true 2000 45 40 (fun _ _ _ _ => false) 1%positive 1%positive 1%positive op_chan no_bans None w.

Lemma m_mode_safe_witness : exists r, ex_mode ex_words = Ok r /\ match r with ModeIs _ _ _ => False | ModeDone s' => settled (bs s') /\ drained (mbuf s') end.
Proof.
  destruct op_chan_roster as (M & U & F & X & _).
  destruct (m_mode_safe (channel_init_chan_modes []) nobody nobody nobody anyone anyone nobody nobody nobody nobody nobody no_group ex_name ex_numnick ex_chname only_one (fun _ => None)
    false false true 2000 45 40 (fun _ _ _ _ => false) ∅ init_holds ltac:(intros u; vm_compute; lia) 1%positive 1%positive 1%positive op_chan demo_chan M U F Channel.zero no_bans None [] [] ex_words) as (r & E & H).
  - reflexivity.
  - reflexivity.
  - by split.
  - eexists. vm_compute. reflexivity.
  - intros n u. unfold only_one. case_bool_decide; [|done]. intros [= <-]. right. right. eexists. vm_compute. reflexivity.
  - exact X.
  - vm_compute. reflexivity.
  - split_and!; cbn; unfold KEYLEN; lia.
  - apply Ban.start_parsing.
  - cbn. unfold MAXPARA. lia.
  - exists r. split; [exact E|]. destruct r as [m p t|s']; [discriminate H|]. by destruct H as (_ & _ & H).
Defined.

Lemma channel_modes_exact_witness :
  let st := set_chan op_chan 1%positive (Chan None 1000 1 (Some 1%positive) [] [] (Z.lor MODE_SECRET MODE_TOPICLIMIT) 12 (cstr "sesame") (cstr "mine") []) in
  channel_modes (channel_init_chan_modes []) nobody nobody nobody anyone st 1%positive 1%positive (Some 1%positive) = Ok (cstr "+stlkA", cstr "12 sesame *").
Proof.
  intros st. rewrite (channel_modes_exact (channel_init_chan_modes []) nobody nobody nobody anyone ∅ st 1%positive 1%positive (Some 1%positive)
    (Chan None 1000 1 (Some 1%positive) [] [] (Z.lor MODE_SECRET MODE_TOPICLIMIT) 12 (cstr "sesame") (cstr "mine") []) true false).
  - vm_compute. reflexivity.
  - exact init_holds.
  - vm_compute. reflexivity.
  - split_and!; cbn; unfold KEYLEN; lia.
  - vm_compute. reflexivity.
  - eexists. split; [vm_compute; reflexivity|vm_compute; reflexivity].
Defined.

(** ** Two defects

    Removing a limit: the channel loses it, and members and servers are sent a [MODE] without
    a letter, since the flush leaves modes with an argument to the slots and the removal of
    a limit has none. *)
Definition letterless (a : action) : bool := match a with Send m => match s_minus m ++ s_plus m ++ s_params m with [] => true | _ => false end | Free _ => true end.

Lemma limit_removal_unsaid :
  let st := set_chan op_chan 1%positive (Chan None 1000 1 (Some 1%positive) [] [] MODE_LIMIT 12 [] [] []) in
  match m_mode (channel_init_chan_modes []) nobody nobody nobody anyone anyone nobody nobody nobody nobody nobody no_group ex_name ex_numnick ex_chname only_one (fun _ => None)
      false false true 2000 45 40 (fun _ _ _ _ => false) 1%positive 1%positive 1%positive st no_bans None [cstr "-l"] with
  | Ok (ModeDone s') => option_map limit (chans (cs s') !! 1%positive) = Some 0 /\ length (out s') = 2%nat /\ forallb letterless (out s') = true
  | _ => False
  end.
Proof. vm_compute. auto. Qed.

(** Operators of a burst: [m_burst.c] announces them with [CHFL_CHANOP], the status bit, in
    place of [MODE_CHANOP].  That bit is [MODE_APASS], so the flush takes the client for a
    string. *)
Lemma burst_operator_misread :
  let x := set_status (Member 1%positive 1%positive None None None None 0 999) (Z.lor CHFL_CHANOP CHFL_BURST_JOINED) in
  let st := set_heap op_chan {[ 1%positive := x ]} in
  let mb := modebuf_init ex_chname 2%positive (Some 2%positive) 1%positive MODEBUF_DEST_CHANNEL in
  match burst_members (channel_init_chan_modes []) nobody nobody no_group ex_name ex_numnick false false 2 false (st, mb, []) (Some 1%positive) with
  | Ok (st', mb', []) => modebuf_flush (channel_init_chan_modes []) nobody nobody no_group ex_name ex_numnick false false st' mb' = Oob
  | _ => False
  end.
Proof. vm_compute. reflexivity. Qed.
