(* ===== verification/ModeRights.v ===== *)
(** * Who is not an operator changes nothing

    [m_mode] parses the words of a user without rights too, for the errors and for the list
    of bans.  Here: it returns, nothing of the channel, of its bans or of the members
    changes, no change is announced, and the user is told once that he is not an operator. *)

From stdpp Require Import base list gmap sets strings.
From Stdlib Require Import ZArith Lia Ascii.
From S2P Require Import Prelude Chattr Strings AddrText MMatch.
From S2P Require Ban.
From S2P Require Import Channel ChanModes ModeBuf ModeParse ModeBufSpec ModeParseSpec ModeCmd.

Local Open Scope ircu_scope.
Local Open Scope Z_scope.

(** How often [ERR_CHANOPRIVSNEEDED] is sent. *)
Definition is_notoper (n : Ban.notice) : bool := match n with Ban.NotOper => true | _ => false end.
Definition refusals (b : Ban.ParseState) : nat := length (List.filter is_notoper (Ban.notices b)).

Section Rights.
Context (reg : list ChanMode).
Context (IsServer IsMe IsChannelService MyUser IsUser IsAnOper IsBurstOrBurstAck : cid -> bool).
Context (priv_apass_opmode priv_deop_lchan priv_mode_lchan : cid -> bool).
Context (get_secure_group_id : cid -> Z).
Context (cli_name : cid -> list ascii) (NumNick : cid -> list ascii * list ascii) (chname : chid -> list ascii).
Context (find_client : list ascii -> option cid).
Context (findNUser : list ascii -> option cid).
Context (his_modewho his_snotices oplevels : bool) (now max_bans av_ban_len : Z).
Context (pre_mode_denied : cid -> cid -> chid -> list ascii -> bool).
Context (cptr sptr : cid) (chptr : chid) (member : option mid).
Context (Hlocal : IsServer cptr = false).
Context (st : state) (ch : Channel) (Hch : chans st !! chptr = Some ch) (b : Ban.bstate) (head : option Ban.bid).

Record idle (n : nat) (s : mstate) : Prop := {
  i_cs : cs s = st;
  i_buf : mbuf s = None;
  i_out : out s = [];
  i_bans : Ban.st (bs s) = b /\ Ban.banlist (bs s) = head;
  i_rights : rightless s = true;
  i_told : refusals (bs s) = if any (Ban.ps_done (bs s)) Ban.DONE_NOTOPER then 1%nat else 0%nat;
  i_args : (length (Ban.parv (bs s)) <= n)%nat
}.

Lemma idle_say (n : nat) (s : mstate) (r : reply) : idle n s -> idle n (say s r).
Proof. by intros []. Qed.
Lemma idle_dir (n : nat) (s : mstate) (d : bool) : idle n s -> idle n (set_dir s d).
Proof. by intros []. Qed.

Lemma idle_bs (n : nat) (s : mstate) (x : Ban.ParseState) : idle n s -> Ban.st x = Ban.st (bs s) -> Ban.banlist x = Ban.banlist (bs s) ->
  refusals x = (if any (Ban.ps_done x) Ban.DONE_NOTOPER then 1%nat else 0%nat) -> (length (Ban.parv x) <= length (Ban.parv (bs s)))%nat -> idle n (set_bs s x).
Proof. intros [] E1 E2 E3 E4. split; try done; cbn; [by rewrite E1, E2|lia]. Qed.

Lemma refusals_note (x : Ban.ParseState) (k : Ban.notice) : is_notoper k = false -> refusals (Ban.note x k) = refusals x.
Proof. intros H. unfold refusals. cbn. rewrite List.filter_app. cbn. rewrite H. by rewrite app_nil_r. Qed.

Lemma notoper_told (x : Ban.ParseState) : refusals x = (if any (Ban.ps_done x) Ban.DONE_NOTOPER then 1%nat else 0%nat) ->
  refusals (Ban.send_notoper x) = (if any (Ban.ps_done (Ban.send_notoper x)) Ban.DONE_NOTOPER then 1%nat else 0%nat).
Proof.
  intros H. unfold Ban.send_notoper. change Ban.has with any. destruct (any (Ban.ps_done x) Ban.DONE_NOTOPER) eqn:E; [by rewrite E|]. cbn [Ban.set_done Ban.note Ban.ps_done].
  rewrite any_lor_self by done. unfold refusals in *. cbn [Ban.set_done Ban.note Ban.notices]. rewrite List.filter_app, length_app, H. done.
Qed.

Lemma idle_notoper (n : nat) (s : mstate) : idle n s -> idle n (send_notoper s).
Proof.
  intros I. unfold send_notoper. apply idle_bs; [done|..|unfold Ban.send_notoper; by case_if]; [unfold Ban.send_notoper; by case_if..|]. apply notoper_told, I.
Qed.
Lemma idle_more (n : nat) (s : mstate) : idle n s -> idle n (if my MyUser sptr then need_more s else s).
Proof. intros I. case_if; [|done]. apply idle_bs; try done. rewrite refusals_note by done. apply I. Qed.
Lemma idle_take (n : nat) (s s' : mstate) (t : list ascii) : idle n s -> take_arg s = Some (t, s') -> idle n s'.
Proof.
  intros I. unfold take_arg. destruct (Ban.parv (bs s)) as [|t0 rest] eqn:E; [done|]. intros [= -> <-]. destruct I as [I1 I2 I3 [I4 I5] I6 I7 I8]. rewrite E in I8. split; try done. cbn in *. lia.
Qed.

Definition stays (n : nat) (o : outcome mstate) : Prop := exists s', o = Ok s' /\ idle n s'.
Lemma stays_ok (n : nat) (s : mstate) : idle n s -> stays n (Ok s).
Proof. intros I. by exists s. Qed.

(** A handler that takes an argument ends with the refusal. *)
Lemma stays_arg (n : nat) (s : mstate) (o : mstate) (k : list ascii -> mstate -> outcome mstate) : idle n s -> idle n o -> (forall t s', idle n s' -> stays n (k t s')) ->
  stays n (match take_arg s with None => Ok o | Some (t, s') => k t s' end).
Proof. intros I Io H. destruct (take_arg s) as [[t s']|] eqn:E; [apply H; by apply (idle_take n s s' t)|by apply stays_ok]. Qed.

Lemma stays_refused (n : nat) (s : mstate) (o : outcome mstate) : idle n s -> stays n (if rightless s then Ok (send_notoper s) else o).
Proof. intros I. rewrite (i_rights _ _ I). by apply stays_ok, idle_notoper. Qed.

Lemma ban_stays (n : nat) (cm : ChanMode) (s : mstate) : idle n s -> stays n (mode_parse_ban MyUser IsUser cli_name now max_bans av_ban_len sptr cm s).
Proof.
  intros I. unfold mode_parse_ban, Ban.mode_parse_ban. cbn [request Ban.my_user Ban.no_rights]. rewrite (i_rights _ _ I).
  assert (forall x k, idle n (set_bs s x) -> stays n (Ok (set_used (set_bs s x) k))) as K.
  { intros x k []. by apply stays_ok. }
  assert (idle n (set_bs s (bs s))) as I0 by (by apply idle_bs; [..|apply I|]).
  destruct (Ban.parv (bs s)) as [|t rest] eqn:Ev; repeat case_if; cbn [obind].
  - apply K. apply idle_bs; try done. unfold refusals. cbn. rewrite List.filter_app. cbn. rewrite app_nil_r, any_lor_other by done. apply I.
  - by apply K.
  - by apply K.
  - apply K. set (x := Ban.MkParse _ _ rest _ _ _ _). apply (idle_notoper n (set_bs s x)). apply idle_bs; try done; [apply I|cbn; rewrite Ev; cbn; lia].
Qed.

Lemma limit_stays (n : nat) (cm : ChanMode) (s : mstate) : idle n s ->
  stays n (mode_parse_limit reg IsServer IsMe MyUser get_secure_group_id cli_name NumNick his_modewho his_snotices sptr chptr cm s).
Proof.
  intros I. assert (forall s', idle n s' -> load_chan (cs s') chptr = Ok ch) as Ld by (intros s' I'; unfold load_chan; by rewrite (i_cs _ _ I'), Hch).
  unfold mode_parse_limit. destruct (dir_add s); [case_if; [by apply stays_ok|]|rewrite Ld by done; cbn [obind]; by apply stays_refused].
  apply stays_arg; [done|by apply idle_more|]. intros t s' I'. case_if; [by apply stays_ok|]. rewrite Ld by done. cbn [obind]. case_if; [by apply stays_ok|]. by apply stays_refused.
Qed.

Lemma letter_stays (n : nat) (x : ascii) (s : mstate) : idle n s ->
  stays n (parse_letter reg IsServer IsMe IsChannelService MyUser IsUser IsAnOper priv_apass_opmode get_secure_group_id cli_name NumNick find_client findNUser
    his_modewho his_snotices oplevels now max_bans av_ban_len cptr sptr chptr member x s).
Proof.
  intros I. unfold parse_letter. do 2 (case_if; [by apply stays_ok, idle_dir|]).
  assert (stays n (Ok (if my MyUser sptr then say s (UnknownMode x) else s))) as Un by (apply stays_ok; case_if; [by apply idle_say|done]).
  destruct (channel_find_chan_mode reg x) as [cm|]; [|done]. case_if; [done|].
  case_if; [by apply limit_stays|].
  case_if. { unfold mode_parse_key. case_if; [by apply stays_ok|]. apply stays_arg; [done|by apply idle_more|]. intros. by apply stays_refused. }
  case_if. { case_if; [|by apply stays_ok]. unfold mode_parse_apass. case_if; [by apply stays_ok|]. apply stays_arg; [done|by apply idle_more|]. intros. by apply stays_refused. }
  case_if. { case_if; [|by apply stays_ok]. unfold mode_parse_upass. case_if; [by apply stays_ok|]. apply stays_arg; [done|by apply idle_more|]. intros. by apply stays_refused. }
  case_if; [by apply ban_stays|].
  case_if. { unfold mode_parse_client. case_if; [by apply stays_ok|]. apply stays_arg; [done|done|]. intros. by apply stays_refused. }
  unfold mode_parse_mode. rewrite (i_rights _ _ I). by apply stays_ok, idle_notoper.
Qed.

Lemma letters_stay (n : nat) (w : list ascii) : forall s, idle n s ->
  stays n (parse_letters reg IsServer IsMe IsChannelService MyUser IsUser IsAnOper priv_apass_opmode get_secure_group_id cli_name NumNick find_client findNUser
    his_modewho his_snotices oplevels now max_bans av_ban_len cptr sptr chptr member w s).
Proof.
  induction w as [|x w IH]; intros s I; cbn [parse_letters]; [by apply stays_ok|]. destruct (letter_stays n x s I) as (s1 & -> & I1). cbn [obind]. by apply IH.
Qed.

Lemma words_stay (fuel : nat) : forall n w s, idle n s -> (n < fuel)%nat ->
  exists s', parse_words reg IsServer IsMe IsChannelService MyUser IsUser IsAnOper IsBurstOrBurstAck priv_apass_opmode get_secure_group_id cli_name NumNick find_client findNUser
    his_modewho his_snotices oplevels now max_bans av_ban_len cptr sptr chptr member fuel w s = Ok (s', false) /\ idle n s'.
Proof.
  induction fuel as [|fuel IH]; intros n w s I Lt; [lia|]. cbn [parse_words]. destruct w as [|x w]; [by exists s|].
  destruct (letters_stay n (x :: w) s I) as (s1 & -> & I1). cbn [obind]. case_if; [by exists s1|]. destruct (Ban.parv (bs s1)) as [|next rest] eqn:Ev; [by exists s1|].
  rewrite Hlocal. cbn [andb]. case_if; [by exists s1|]. pose proof (i_args _ _ I1) as Le. rewrite Ev in Le. cbn in Le.
  destruct (IH (length rest) next (set_used (set_bs s1 (Ban.MkParse (Ban.st (bs s1)) (Ban.banlist (bs s1)) rest (Ban.max_args (bs s1)) (Ban.ps_done (bs s1)) (Ban.numbans (bs s1)) (Ban.notices (bs s1)))) (S (args_used s1))))
    as (s2 & E2 & I2); [destruct I1 as [? ? ? [? ?] ? ? ?]; by split|lia|]. exists s2. split; [done|]. destruct I2. split; try done. lia.
Qed.

(** C20. A local user who is no operator of the channel, and has no right to change modes on
    a local one, changes nothing with a [MODE] command, whatever words it has: the command
    returns, the channel with its members, modes and bans is as it was, nothing is announced
    to members or servers, and he is told at most once that he is not an operator. *)
Theorem m_mode_without_rights (parv : list (list ascii)) : parv <> [] ->
  find_member_link IsServer IsMe IsChannelService st chptr sptr = Ok member -> IsChanOp st member = Ok false -> IsLocalChannel (chname chptr) && priv_mode_lchan sptr = false ->
  exists s', m_mode reg IsServer IsMe IsChannelService MyUser IsUser IsAnOper IsBurstOrBurstAck priv_apass_opmode priv_deop_lchan priv_mode_lchan get_secure_group_id
      cli_name NumNick chname find_client findNUser his_modewho his_snotices oplevels now max_bans av_ban_len pre_mode_denied cptr sptr chptr st b head parv = Ok (ModeDone s') /\
    cs s' = st /\ Ban.st (bs s') = b /\ Ban.banlist (bs s') = head /\ out s' = [] /\ (refusals (bs s') <= 1)%nat.
Proof.
  intros Np Em Eo El. unfold m_mode. rewrite Em. cbn [obind]. destruct parv as [|w rest]; [done|]. rewrite Eo. cbn [obind negb]. rewrite El. set (fl := match member with Some _ => _ | None => _ end).
  assert (any fl (Z.lor MODE_PARSE_NOTOPER MODE_PARSE_NOTMEMBER) = true) as Hf by (subst fl; by destruct member).
  assert (forall l, idle (length l) (set_used (start st b head None l fl) 1)) as I0 by (intros l; by split).
  unfold mode_parse. case_if.
  { cbn [obind]. eexists. split; [done|]. split_and!; try done. cbn. lia. }
  destruct (words_stay (S (length rest)) (length rest) w _ (I0 rest)) as (s1 & -> & I1); [lia|]. cbn [obind]. unfold finish. rewrite (i_buf _ _ I1). cbn [obind].
  exists s1. split; [done|]. destruct I1 as [? ? ? [? ?] ? Ht ?]. split_and!; try done. rewrite Ht. case_match; lia.
Qed.
End Rights.

(** A member who is no operator tries to set a key and a ban. *)
Lemma m_mode_without_rights_witness :
  exists s', m_mode (channel_init_chan_modes []) nobody nobody nobody anyone anyone nobody nobody nobody nobody nobody no_group ex_name ex_numnick ex_chname only_one (fun _ => None)
      false false true 2000 45 40 (fun _ _ _ _ => false) 1%positive 1%positive 1%positive demo1 no_bans None [cstr "+kmb"; cstr "sesame"; cstr "*!*@*"] = Ok (ModeDone s') /\
    cs s' = demo1 /\ refusals (bs s') = 1%nat.
Proof.
  destruct (m_mode_without_rights (channel_init_chan_modes []) nobody nobody nobody anyone anyone nobody nobody nobody nobody nobody no_group ex_name ex_numnick ex_chname only_one (fun _ => None)
    false false true 2000 45 40 (fun _ _ _ _ => false) 1%positive 1%positive 1%positive (Some 1%positive) eq_refl demo1 demo_chan ltac:(vm_compute; reflexivity) no_bans None
    [cstr "+kmb"; cstr "sesame"; cstr "*!*@*"]) as (s' & E & Ec & _).
  - discriminate.
  - vm_compute. reflexivity.
  - vm_compute. reflexivity.
  - reflexivity.
  - exists s'. split; [exact E|]. split; [exact Ec|]. vm_compute in E. by injection E as <-.
Defined.
