(* ===== verification/Base64.v ===== *)
(** * RFC 4648 base64: [ircd/ircd_base64.c]

    The codec of SASL messages, tokens and the WebSocket handshake.  Bytes and text are
    lists of characters; [None] stands for the result -1.  The theorem: what is encoded is
    decoded, the two sizes of [ircd_base64.h] are right, and a text passes the validity test
    exactly when it can be decoded. *)

From stdpp Require Import base list strings.
From Stdlib Require Import ZArith Lia Ascii.
From S2P Require Import Prelude.

Local Open Scope ircu_scope.
Local Open Scope Z_scope.

Definition b64_alphabet : list ascii := cstr "ABCDEFGHIJKLMNOPQRSTUVWXYZabcdefghijklmnopqrstuvwxyz0123456789+/".

(** [memchr] over the alphabet. *)
Fixpoint memchr (s : list ascii) (c : ascii) (i : Z) : Z :=
  match s with
  | [] => -1
  | x :: s => if x =c c then i else memchr s c (i + 1)
  end.
Definition b64_value (c : ascii) : Z := memchr b64_alphabet c 0.

Definition IRCD_BASE64_ENCLEN (n : nat) : nat := (n + 2) / 3 * 4.
Definition IRCD_BASE64_DECLEN (n : nat) : nat := n / 4 * 3.

(** [b64_alphabet[(v >> k) & 0x3f]] *)
Definition b64_digit (v k : Z) : ascii := nth (Z.to_nat (Z.land (Z.shiftr v k) 0x3f)) b64_alphabet NUL.

(** Three bytes at a time, and the tail padded out to four characters. *)
Fixpoint encode_loop (src : list ascii) : list ascii :=
  match src with
  | a :: b :: c :: src =>
      let v := Z.lor (Z.lor (Z.shiftl (uchar a) 16) (Z.shiftl (uchar b) 8)) (uchar c) in
      b64_digit v 18 :: b64_digit v 12 :: b64_digit v 6 :: b64_digit v 0 :: encode_loop src
  | [a; b] =>
      let v := Z.lor (Z.shiftl (uchar a) 16) (Z.shiftl (uchar b) 8) in
      [b64_digit v 18; b64_digit v 12; b64_digit v 6; "="%char]
  | [a] =>
      let v := Z.shiftl (uchar a) 16 in
      [b64_digit v 18; b64_digit v 12; "="%char; "="%char]
  | [] => []
  end.

Definition ircd_base64_encode (src : list ascii) (outlen : nat) : option (list ascii) :=
  if (outlen <=? IRCD_BASE64_ENCLEN (length src))%nat then None else Some (encode_loop src).

(** The four characters of a group; [last] is [i + 4 == inlen]. *)
Fixpoint group_loop (last : bool) (j : nat) (l : list ascii) (v pad : Z) : option (Z * Z) :=
  match l with
  | [] => Some (v, pad)
  | c :: l =>
      if c =c "=" then
        if negb last || (j <? 2)%nat then None
        else group_loop last (S j) l (Z.shiftl v 6) (pad + 1)
      else if negb (pad =? 0) then None
      else
        let val := b64_value c in
        if val <? 0 then None else group_loop last (S j) l (Z.lor (Z.shiftl v 6) val) pad
  end.

Definition byte (v k : Z) : ascii := char_of (Z.land (Z.shiftr v k) 0xff).

Fixpoint decode_loop (l : list ascii) (outlen : nat) (out : list ascii) : option (list ascii) :=
  match l with
  | c0 :: c1 :: c2 :: c3 :: l =>
      match group_loop (match l with [] => true | _ => false end) 0 [c0; c1; c2; c3] 0 0 with
      | None => None
      | Some (v, pad) =>
          if (outlen <? length out + (3 - Z.to_nat pad))%nat then None
          else
            let out := out ++ [byte v 16] in
            let out := if pad <? 2 then out ++ [byte v 8] else out in
            let out := if pad <? 1 then out ++ [byte v 0] else out in
            decode_loop l outlen out
      end
  | _ => Some out
  end.

(** [in] holds a string; a length of 0 asks for [strlen]. *)
Definition taken (inp : list ascii) (inlen : nat) : list ascii := match inlen with O => inp | _ => take inlen inp end.

Definition ircd_base64_decode (inp : list ascii) (inlen outlen : nat) : option (list ascii) :=
  let inp := taken inp inlen in
  if negb (length inp mod 4 =? 0)%nat then None else decode_loop inp outlen [].

(** The loop of [ircd_base64_valid] with its inner loop over the padding. *)
Fixpoint valid_loop (l : list ascii) (i : nat) : bool :=
  match l with
  | [] => true
  | c :: l' =>
      if c =c "=" then
        if (2 <? length l)%nat || (i mod 4 <? 2)%nat then false
        else forallb (fun c => c =c "=") l
      else if b64_value c <? 0 then false
      else valid_loop l' (S i)
  end.
Definition ircd_base64_valid (inp : list ascii) (inlen : nat) : bool :=
  let inp := taken inp inlen in
  if negb (length inp mod 4 =? 0)%nat then false else valid_loop inp 0.

(** ** One character *)
Lemma digit_value (k : Z) : 0 <= k < 64 -> b64_value (nth (Z.to_nat k) b64_alphabet NUL) = k /\ (nth (Z.to_nat k) b64_alphabet NUL =c "=") = false.
Proof.
  intros H. assert (forallb (fun n => (b64_value (nth n b64_alphabet NUL) =? Z.of_nat n) && negb (nth n b64_alphabet NUL =c "=")) (seq 0 64) = true) as A by (vm_compute; reflexivity).
  rewrite forallb_forall in A. specialize (A (Z.to_nat k)). rewrite in_seq in A. specialize (A ltac:(lia)). apply andb_true_iff in A as [A1%Z.eqb_eq A2%negb_true_iff]. split; [lia|done].
Qed.

Lemma value_bound (c : ascii) : b64_value c < 64 /\ (b64_value c < 0 -> b64_value c = -1).
Proof.
  assert ((b64_value c <? 64) && ((0 <=? b64_value c) || (b64_value c =? -1)) = true) as A by (apply (forall_chars (fun c => (b64_value c <? 64) && ((0 <=? b64_value c) || (b64_value c =? -1)))); vm_compute; reflexivity).
  apply andb_true_iff in A as [A1%Z.ltb_lt A2]. split; [done|]. intros H. apply orb_true_iff in A2 as [A2%Z.leb_le|A2%Z.eqb_eq]; lia.
Qed.

Definition low6 (v k : Z) : Z := v / 2 ^ k mod 64.
Lemma b64_digit_spec (v k : Z) : 0 <= k -> b64_value (b64_digit v k) = low6 v k /\ (b64_digit v k =c "=") = false.
Proof.
  intros Hk. unfold b64_digit, low6. rewrite Z.shiftr_div_pow2 by done. change 0x3f with (Z.ones 6). rewrite Z.land_ones by lia. change (2 ^ 6) with 64. apply digit_value. apply Z.mod_pos_bound. lia.
Qed.

(** ** A group *)
Lemma put6 (v d : Z) : 0 <= d < 64 -> Z.lor (Z.shiftl v 6) d = v * 64 + d.
Proof. intros H. rewrite Z.shiftl_mul_pow2 by lia. apply (lor_low v d 6); lia. Qed.

Lemma group_full (last : bool) (v : Z) : 0 <= v < 2 ^ 24 ->
  group_loop last 0 [b64_digit v 18; b64_digit v 12; b64_digit v 6; b64_digit v 0] 0 0 = Some (v, 0).
Proof.
  intros H. cbn [group_loop]. destruct (b64_digit_spec v 18) as [E1 N1]; [lia|]. destruct (b64_digit_spec v 12) as [E2 N2]; [lia|]. destruct (b64_digit_spec v 6) as [E3 N3]; [lia|]. destruct (b64_digit_spec v 0) as [E4 N4]; [lia|].
  rewrite N1, N2, N3, N4, E1, E2, E3, E4. change (negb (0 =? 0)) with false. cbn iota. unfold low6.
  rewrite !(proj2 (Z.ltb_ge _ _)) by (apply Z.mod_pos_bound; lia). rewrite !put6 by (apply Z.mod_pos_bound; lia). f_equal. f_equal.
  change (2 ^ 18) with 262144. change (2 ^ 12) with 4096. change (2 ^ 6) with 64. change (2 ^ 0) with 1. change (2 ^ 24) with 16777216 in H. Z.to_euclidean_division_equations. lia.
Qed.

Ltac powers := change (2 ^ 24) with 16777216 in *; change (2 ^ 18) with 262144 in *; change (2 ^ 16) with 65536 in *; change (2 ^ 12) with 4096 in *; change (2 ^ 8) with 256 in *;
  change (2 ^ 6) with 64 in *; change (2 ^ 0) with 1 in *.

(** A padded group gives the value when the bits that are not sent are zero. *)
Lemma group_two (v : Z) : 0 <= v < 2 ^ 24 -> v mod 256 = 0 -> group_loop true 0 [b64_digit v 18; b64_digit v 12; b64_digit v 6; "="%char] 0 0 = Some (v, 1).
Proof.
  intros H M. cbn [group_loop]. destruct (b64_digit_spec v 18) as [E1 N1]; [lia|]. destruct (b64_digit_spec v 12) as [E2 N2]; [lia|]. destruct (b64_digit_spec v 6) as [E3 N3]; [lia|].
  rewrite N1, N2, N3, E1, E2, E3. change (negb (0 =? 0)) with false. cbn iota. unfold low6. rewrite !(proj2 (Z.ltb_ge _ _)) by (apply Z.mod_pos_bound; lia).
  change (("=" =c "=")) with true. cbn [negb orb Nat.ltb Nat.leb]. rewrite !put6 by (apply Z.mod_pos_bound; lia). rewrite Z.shiftl_mul_pow2 by lia. f_equal. f_equal. powers. Z.to_euclidean_division_equations. lia.
Qed.
Lemma group_one (v : Z) : 0 <= v < 2 ^ 24 -> v mod 65536 = 0 -> group_loop true 0 [b64_digit v 18; b64_digit v 12; "="%char; "="%char] 0 0 = Some (v, 2).
Proof.
  intros H M. cbn [group_loop]. destruct (b64_digit_spec v 18) as [E1 N1]; [lia|]. destruct (b64_digit_spec v 12) as [E2 N2]; [lia|].
  rewrite N1, N2, E1, E2. change (negb (0 =? 0)) with false. cbn iota. unfold low6. rewrite !(proj2 (Z.ltb_ge _ _)) by (apply Z.mod_pos_bound; lia).
  change (("=" =c "=")) with true. cbn [negb orb Nat.ltb Nat.leb]. rewrite !put6 by (apply Z.mod_pos_bound; lia). rewrite !Z.shiftl_mul_pow2 by lia. f_equal. f_equal. powers. Z.to_euclidean_division_equations. lia.
Qed.

(** ** The bytes of a value *)
Lemma three_bytes (a b c : ascii) : Z.lor (Z.lor (Z.shiftl (uchar a) 16) (Z.shiftl (uchar b) 8)) (uchar c) = uchar a * 65536 + uchar b * 256 + uchar c.
Proof.
  pose proof (uchar_bounds a). pose proof (uchar_bounds b). pose proof (uchar_bounds c). rewrite !Z.shiftl_mul_pow2 by lia.
  rewrite (lor_low (uchar a) (uchar b * 2 ^ 8) 16) by lia. replace (uchar a * 2 ^ 16 + uchar b * 2 ^ 8) with ((uchar a * 256 + uchar b) * 2 ^ 8) by lia. rewrite lor_low by lia. lia.
Qed.

Lemma byte_spec (v k : Z) (c : ascii) : 0 <= k -> v / 2 ^ k mod 256 = uchar c -> byte v k = c.
Proof.
  intros Hk E. unfold byte. rewrite Z.shiftr_div_pow2 by done. change 0xff with (Z.ones 8). rewrite Z.land_ones by lia. change (2 ^ 8) with 256. rewrite E. apply char_of_uchar.
Qed.

Lemma decode_encode (n : nat) : forall x out outlen, (length x <= n)%nat -> (length out + length x <= outlen)%nat -> decode_loop (encode_loop x) outlen out = Some (out ++ x).
Proof.
  induction n as [|n IH]; intros x out outlen Ln Lo; [destruct x; [by rewrite app_nil_r|cbn in Ln; lia]|].
  destruct x as [|a [|b [|c x]]]; [by rewrite app_nil_r|..]; pose proof (uchar_bounds a) as Ba; cbn [encode_loop decode_loop].
  - set (v := Z.shiftl (uchar a) 16). assert (v = uchar a * 65536) as Ev by (subst v; by rewrite Z.shiftl_mul_pow2 by lia).
    rewrite group_one; [|lia|rewrite Ev; apply Z.mod_mul; lia]. cbn [Z.to_nat Z.ltb Z.compare Pos.compare Pos.compare_cont].
    cbn [length] in Lo. rewrite (proj2 (Nat.ltb_ge _ _)) by (cbn; lia). rewrite (byte_spec v 16 a) by (powers; Z.to_euclidean_division_equations; lia). done.
  - pose proof (uchar_bounds b) as Bb. set (v := Z.lor _ _). assert (v = uchar a * 65536 + uchar b * 256) as Ev.
    { pose proof (three_bytes a b NUL) as T. change (uchar NUL) with 0 in T. rewrite Z.lor_0_r in T. subst v. rewrite T. lia. }
    rewrite group_two; [|lia|rewrite Ev; Z.to_euclidean_division_equations; lia]. cbn [Z.to_nat Z.ltb Z.compare Pos.compare Pos.compare_cont].
    cbn [length] in Lo. rewrite (proj2 (Nat.ltb_ge _ _)) by (cbn; lia). rewrite (byte_spec v 16 a), (byte_spec v 8 b) by (powers; Z.to_euclidean_division_equations; lia). by rewrite <- app_assoc.
  - pose proof (uchar_bounds b) as Bb. pose proof (uchar_bounds c) as Bc. set (v := Z.lor _ _). assert (v = uchar a * 65536 + uchar b * 256 + uchar c) as Ev by apply three_bytes.
    rewrite group_full by lia. cbn [Z.to_nat Z.ltb Z.compare Pos.compare Pos.compare_cont].
    cbn [length] in Lo, Ln. rewrite (proj2 (Nat.ltb_ge _ _)) by (cbn; lia). rewrite (byte_spec v 16 a), (byte_spec v 8 b), (byte_spec v 0 c) by (powers; Z.to_euclidean_division_equations; lia).
    rewrite IH; [by rewrite <- !app_assoc|lia|rewrite !length_app; cbn; lia].
Qed.

Lemma encode_length (n : nat) : forall x, (length x <= n)%nat -> length (encode_loop x) = IRCD_BASE64_ENCLEN (length x).
Proof.
  unfold IRCD_BASE64_ENCLEN. induction n as [|n IH]; intros x Ln; [by destruct x; [|cbn in Ln; lia]|]. destruct x as [|a [|b [|c x]]]; try done. cbn [encode_loop length] in *.
  rewrite IH by lia. replace (S (S (S (length x))) + 2)%nat with (1 * 3 + (length x + 2))%nat by lia. rewrite Nat.div_add_l by lia. lia.
Qed.

(** ** Validity *)
Definition is_some {A : Type} (o : option A) : bool := match o with Some _ => true | None => false end.

Lemma mod4 (k j : nat) : (j < 4)%nat -> ((4 * k + j) mod 4 = j)%nat.
Proof. intros H. rewrite Nat.add_comm, Nat.mul_comm, Nat.Div0.mod_add. by apply Nat.mod_small. Qed.

Lemma long_enough (a b c : ascii) (l : list ascii) : (2 <? length (a :: b :: c :: l))%nat = true.
Proof. done. Qed.

(** A group in front of others has four characters of the alphabet; the last may be padded. *)
Lemma valid_inner (k : nat) (c0 c1 c2 c3 d0 d1 d2 d3 : ascii) (l : list ascii) :
  let r := d0 :: d1 :: d2 :: d3 :: l in
  valid_loop (c0 :: c1 :: c2 :: c3 :: r) (4 * k) = is_some (group_loop false 0 [c0; c1; c2; c3] 0 0) && valid_loop r (4 * S k).
Proof.
  cbn zeta. cbn [group_loop]. replace (4 * S k)%nat with (S (S (S (S (4 * k))))) by lia. generalize (4 * k)%nat as i. intros i. cbn [negb orb]. change (negb (0 =? 0)) with false. cbn iota.
  cbn [valid_loop]. rewrite !long_enough. cbn [orb].
  destruct (c0 =c "="), (c1 =c "="), (c2 =c "="), (c3 =c "="), (b64_value c0 <? 0), (b64_value c1 <? 0), (b64_value c2 <? 0), (b64_value c3 <? 0); reflexivity.
Qed.

Lemma valid_last (k : nat) (c0 c1 c2 c3 : ascii) : valid_loop [c0; c1; c2; c3] (4 * k) = is_some (group_loop true 0 [c0; c1; c2; c3] 0 0).
Proof.
  cbn [valid_loop group_loop length forallb]. pose proof (mod4 k 0 ltac:(lia)) as M0. pose proof (mod4 k 1 ltac:(lia)) as M1. pose proof (mod4 k 2 ltac:(lia)) as M2. pose proof (mod4 k 3 ltac:(lia)) as M3.
  replace (4 * k + 0)%nat with (4 * k)%nat in M0 by lia. replace (4 * k + 1)%nat with (S (4 * k)) in M1 by lia. replace (4 * k + 2)%nat with (S (S (4 * k))) in M2 by lia. replace (4 * k + 3)%nat with (S (S (S (4 * k)))) in M3 by lia.
  rewrite M0, M1, M2, M3. change (negb (0 =? 0)) with false. cbn iota. change (0 + 1) with 1. change (negb (1 =? 0)) with true. cbn [negb orb Nat.ltb Nat.leb andb].
  destruct (c0 =c "="), (c1 =c "="), (c2 =c "="), (c3 =c "="), (b64_value c0 <? 0), (b64_value c1 <? 0), (b64_value c2 <? 0), (b64_value c3 <? 0); reflexivity.
Qed.

Lemma group_pad (last : bool) (c0 c1 c2 c3 : ascii) (v pad : Z) : group_loop last 0 [c0; c1; c2; c3] 0 0 = Some (v, pad) -> pad <= 2.
Proof.
  cbn [group_loop]. rewrite !orb_true_r. change (negb (0 =? 0)) with false. cbn iota. destruct (c0 =c "="); [done|]. destruct (b64_value c0 <? 0); [done|]. destruct (c1 =c "="); [done|]. destruct (b64_value c1 <? 0); [done|].
  destruct (c2 =c "="), (c3 =c "="), (negb last), (b64_value c2 <? 0), (b64_value c3 <? 0); cbn; try discriminate; intros [= _ <-]; lia.
Qed.

Lemma decode_length (n : nat) : forall l outlen out res, (length l <= n)%nat -> (length out <= outlen)%nat -> decode_loop l outlen out = Some res -> (length res <= outlen)%nat.
Proof.
  induction n as [|n IH]; intros l outlen out res Ln Lo; [destruct l; [by intros [= <-]|cbn in Ln; lia]|].
  destruct l as [|c0 [|c1 [|c2 [|c3 l]]]]; try (by intros [= <-]). cbn [decode_loop]. destruct (group_loop _ _ _ _ _) as [[v pad]|] eqn:Eg; [|done]. apply group_pad in Eg.
  destruct (Nat.ltb_spec outlen (length out + (3 - Z.to_nat pad))%nat) as [|Le]; [done|]. apply IH; [cbn in Ln; lia|].
  destruct (Z.ltb_spec pad 2), (Z.ltb_spec pad 1); rewrite ?length_app; cbn; lia.
Qed.

Lemma valid_decodes (n : nat) : forall k l outlen out, (length l <= 4 * n)%nat -> (length l mod 4 = 0)%nat -> (length out + IRCD_BASE64_DECLEN (length l) <= outlen)%nat ->
  valid_loop l (4 * k) = is_some (decode_loop l outlen out).
Proof.
  unfold IRCD_BASE64_DECLEN. induction n as [|n IH]; intros k l outlen out Ln Lm Lo; [destruct l; [done|cbn in Ln; lia]|].
  destruct l as [|c0 [|c1 [|c2 [|c3 l]]]]; try done. cbn [length] in *. replace (S (S (S (S (length l))))) with (1 * 4 + length l)%nat in * by lia.
  rewrite Nat.add_comm, Nat.mul_1_l in Lm. replace 4%nat with (1 * 4)%nat in Lm at 1 by done. rewrite Nat.Div0.mod_add in Lm. rewrite Nat.div_add_l in Lo by lia. cbn [decode_loop].
  assert (valid_loop (c0 :: c1 :: c2 :: c3 :: l) (4 * k) = is_some (group_loop (match l with [] => true | _ => false end) 0 [c0; c1; c2; c3] 0 0) && valid_loop l (4 * S k)) as ->.
  { destruct l as [|d0 [|d1 [|d2 [|d3 l]]]]; try done; [by rewrite valid_last, andb_true_r|apply valid_inner]. }
  destruct (group_loop _ _ _ _ _) as [[v pad]|]; [|done]. cbn [is_some andb]. rewrite (proj2 (Nat.ltb_ge _ _)) by lia. apply IH; [lia|done|].
  destruct (pad <? 2), (pad <? 1); rewrite ?length_app; cbn [length]; lia.
Qed.

(** C11: encoding bytes into a buffer of more than [IRCD_BASE64_ENCLEN] characters gives
    exactly that many, which pass the validity test and decode to the bytes again; any text
    passes the test exactly when it decodes into a buffer of [IRCD_BASE64_DECLEN] bytes, and
    decoding never writes more than the buffer holds. *)
Theorem base64_codec :
  (forall x outlen declen, (IRCD_BASE64_ENCLEN (length x) < outlen)%nat -> (length x <= declen)%nat ->
     exists t, ircd_base64_encode x outlen = Some t /\ length t = IRCD_BASE64_ENCLEN (length x) /\ ircd_base64_valid t 0 = true /\ ircd_base64_decode t (length t) declen = Some x) /\
  (forall t inlen declen, (IRCD_BASE64_DECLEN (length (taken t inlen)) <= declen)%nat -> ircd_base64_valid t inlen = is_some (ircd_base64_decode t inlen declen)) /\
  (forall t inlen declen x, ircd_base64_decode t inlen declen = Some x -> (length x <= declen)%nat).
Proof.
  assert (forall t inlen declen, (IRCD_BASE64_DECLEN (length (taken t inlen)) <= declen)%nat -> ircd_base64_valid t inlen = is_some (ircd_base64_decode t inlen declen)) as Va.
  { intros t inlen declen Le. unfold ircd_base64_valid, ircd_base64_decode. destruct (Nat.eqb_spec (length (taken t inlen) mod 4) 0) as [E|]; [|done]. cbn [negb].
    apply (valid_decodes (length (taken t inlen)) 0); [lia|done|exact Le]. }
  split; [|split; [done|]].
  - intros x outlen declen Lo Ld. exists (encode_loop x). unfold ircd_base64_encode. rewrite (proj2 (Nat.leb_gt _ _)) by done. split; [done|].
    pose proof (encode_length (length x) x (Nat.le_refl _)) as El. split; [done|]. assert (length (encode_loop x) mod 4 = 0)%nat as Em by (rewrite El; apply Nat.Div0.mod_mul).
    assert (forall d, (length x <= d)%nat -> ircd_base64_decode (encode_loop x) (length (encode_loop x)) d = Some x) as De.
    { intros d Hd. unfold ircd_base64_decode. assert (taken (encode_loop x) (length (encode_loop x)) = encode_loop x) as -> by (unfold taken; destruct (length (encode_loop x)) eqn:Z; [done|by rewrite <- Z, firstn_all]).
      rewrite Em. by apply (decode_encode (length x)). }
    split; [|by apply De]. rewrite (Va _ 0%nat (IRCD_BASE64_DECLEN (length (encode_loop x)) + length x)%nat) by (cbn; lia). unfold ircd_base64_decode. cbn [taken]. rewrite Em. cbn [negb Nat.eqb].
    rewrite (decode_encode (length x)) by (cbn; lia). done.
  - intros t inlen declen x. unfold ircd_base64_decode. case_if; [done|]. apply (decode_length (length (taken t inlen))); [lia|cbn; lia].
Qed.

(** Decoding is not one-to-one: bits that are not sent may be set. *)
Lemma base64_two_texts : ircd_base64_decode (cstr "QQ==") 0 3 = Some (cstr "A") /\ ircd_base64_decode (cstr "QR==") 0 3 = Some (cstr "A").
Proof. split; vm_compute; reflexivity. Qed.

Lemma base64_codec_witness : exists t, ircd_base64_encode (cstr "irc") 5 = Some t /\ ircd_base64_valid t 0 = true /\ ircd_base64_decode t (length t) 3 = Some (cstr "irc") /\ t = cstr "aXJj".
Proof.
  destruct (proj1 base64_codec (cstr "irc") 5%nat 3%nat) as (t & E & _ & V & D).
  - vm_compute. lia.
  - vm_compute. lia.
  - exists t. split; [exact E|]. split; [exact V|]. split; [exact D|]. vm_compute in E. by injection E as <-.
Defined.
