(* ===== verification/Utf8.v ===== *)
(** * Text for WebSocket clients: [sanitize_utf8] of [ircd/websocket.c]

    A text frame has to be UTF-8, an IRC line need not be.  The specification is the
    encoding of Unicode scalar values ([utf8_encode]); the theorems say that what is sent
    is always the encoding of a sequence of scalar values, and that what was one already is
    sent as it is. *)

From stdpp Require Import base list strings.
From Stdlib Require Import ZArith Lia Ascii.
From S2P Require Import Prelude.

Local Open Scope ircu_scope.
Local Open Scope Z_scope.

(** [c >= lo && c <= hi] *)
Definition within (lo hi c : Z) : bool := (lo <=? c) && (c <=? hi).
Abbreviation continuation := (within 0x80 0xBF).

Definition ok2 (c0 c1 : Z) : bool := continuation c1.
Definition ok3 (c0 c1 c2 : Z) : bool :=
  if c0 =? 0xE0 then within 0xA0 0xBF c1 && continuation c2
  else if within 0xE1 0xEC c0 then continuation c1 && continuation c2
  else if c0 =? 0xED then within 0x80 0x9F c1 && continuation c2
  else continuation c1 && continuation c2.
Definition ok4 (c0 c1 c2 c3 : Z) : bool :=
  if c0 =? 0xF0 then within 0x90 0xBF c1 && continuation c2 && continuation c3
  else if within 0xF1 0xF3 c0 then continuation c1 && continuation c2 && continuation c3
  else within 0x80 0x8F c1 && continuation c2 && continuation c3.

(** [PUT_REPL]'s U+FFFD *)
Definition repl : list ascii := [char_of 0xEF; char_of 0xBF; char_of 0xBD].

(** [if (o + n > outsz) return o; out[o++] = ...;] *)
Definition put_bytes (outsz o : nat) (s : list ascii) (go : nat -> list ascii) : list ascii :=
  if (outsz <? o + length s)%nat then [] else s ++ go (o + length s)%nat.

(** The loop from an input position with [o] bytes written; the result is what is written
    from there on. *)
Fixpoint sanitize_loop (outsz : nat) (l : list ascii) (o : nat) : list ascii :=
  match l with
  | [] => []
  | x0 :: l1 =>
      let c0 := uchar x0 in
      let bad := put_bytes outsz o repl (sanitize_loop outsz l1) in
      if c0 <=? 0x7F then put_bytes outsz o [x0] (sanitize_loop outsz l1)
      else if within 0xC2 0xDF c0 then
        match l1 with
        | x1 :: l2 => if ok2 c0 (uchar x1) then put_bytes outsz o [x0; x1] (sanitize_loop outsz l2) else bad
        | _ => bad
        end
      else if within 0xE0 0xEF c0 then
        match l1 with
        | x1 :: x2 :: l3 =>
            if ok3 c0 (uchar x1) (uchar x2) then put_bytes outsz o [x0; x1; x2] (sanitize_loop outsz l3) else bad
        | _ => bad
        end
      else if within 0xF0 0xF4 c0 then
        match l1 with
        | x1 :: x2 :: x3 :: l4 =>
            if ok4 c0 (uchar x1) (uchar x2) (uchar x3) then put_bytes outsz o [x0; x1; x2; x3] (sanitize_loop outsz l4) else bad
        | _ => bad
        end
      else bad
  end.

Definition sanitize_utf8 (inp : list ascii) (outsz : nat) : list ascii := sanitize_loop outsz inp 0.

(** ** The encoding of scalar values (RFC 3629) *)
Definition scalar (u : Z) : Prop := 0 <= u <= 0x10FFFF /\ ~ (0xD800 <= u <= 0xDFFF).

Definition utf8_encode (u : Z) : list ascii :=
  if u <? 0x80 then [char_of u]
  else if u <? 0x800 then [char_of (0xC0 + u / 64); char_of (0x80 + u mod 64)]
  else if u <? 0x10000 then [char_of (0xE0 + u / 4096); char_of (0x80 + u / 64 mod 64); char_of (0x80 + u mod 64)]
  else [char_of (0xF0 + u / 262144); char_of (0x80 + u / 4096 mod 64); char_of (0x80 + u / 64 mod 64); char_of (0x80 + u mod 64)].

Definition utf8_text (us : list Z) : list ascii := concat (map utf8_encode us).
Definition valid_utf8 (s : list ascii) : Prop := exists us, Forall scalar us /\ s = utf8_text us.

Lemma valid_nil : valid_utf8 [].
Proof. by exists []. Qed.

Lemma valid_cons (u : Z) (s : list ascii) : scalar u -> valid_utf8 s -> valid_utf8 (utf8_encode u ++ s).
Proof. intros S (us & F & ->). exists (u :: us). split; [by constructor|done]. Qed.

(** ** One character *)
Lemma within_iff (lo hi c : Z) : within lo hi c = true <-> lo <= c <= hi.
Proof. unfold within. rewrite andb_true_iff, Z.leb_le, Z.leb_le. done. Qed.
Lemma within_not (lo hi c : Z) : within lo hi c = false <-> ~ lo <= c <= hi.
Proof. rewrite <- within_iff. destruct (within lo hi c); split; congruence. Qed.

Ltac ranges := repeat match goal with
  | H : (_ && _) = true |- _ => apply andb_true_iff in H; destruct H
  | H : within _ _ _ = true |- _ => apply within_iff in H
  | H : within _ _ _ = false |- _ => apply within_not in H
  end; reflect.

Lemma char_is (x : ascii) (z : Z) : uchar x = z -> char_of z = x.
Proof. intros <-. apply char_of_uchar. Qed.

Lemma encode1 (x : ascii) : uchar x <= 0x7F -> scalar (uchar x) /\ utf8_encode (uchar x) = [x].
Proof.
  intros H. pose proof (uchar_bounds x). split; [unfold scalar; lia|]. unfold utf8_encode.
  rewrite (proj2 (Z.ltb_lt _ _)) by lia. by rewrite char_of_uchar.
Qed.

Lemma encode2 (x0 x1 : ascii) : within 0xC2 0xDF (uchar x0) = true -> ok2 (uchar x0) (uchar x1) = true ->
  exists u, scalar u /\ utf8_encode u = [x0; x1].
Proof.
  unfold ok2. intros H0 H1. ranges. exists ((uchar x0 - 0xC0) * 64 + (uchar x1 - 0x80)). split; [unfold scalar; lia|].
  unfold utf8_encode. rewrite (proj2 (Z.ltb_ge _ _)) by lia. rewrite (proj2 (Z.ltb_lt _ _)) by lia.
  repeat f_equal; apply char_is; Z.to_euclidean_division_equations; lia.
Qed.

Lemma encode3 (x0 x1 x2 : ascii) : within 0xE0 0xEF (uchar x0) = true -> ok3 (uchar x0) (uchar x1) (uchar x2) = true ->
  exists u, scalar u /\ utf8_encode u = [x0; x1; x2].
Proof.
  intros H0 H1. exists ((uchar x0 - 0xE0) * 4096 + (uchar x1 - 0x80) * 64 + (uchar x2 - 0x80)).
  assert (0x80 <= uchar x1 <= 0xBF /\ 0x80 <= uchar x2 <= 0xBF /\ (uchar x0 = 0xE0 -> 0xA0 <= uchar x1) /\ (uchar x0 = 0xED -> uchar x1 <= 0x9F)) as (A & B & C & D).
  { unfold ok3 in H1. repeat case_if_in H1; ranges; lia. }
  ranges. split; [unfold scalar; lia|].
  unfold utf8_encode. rewrite !(proj2 (Z.ltb_ge _ _)) by lia. rewrite (proj2 (Z.ltb_lt _ _)) by lia.
  repeat f_equal; apply char_is; Z.to_euclidean_division_equations; lia.
Qed.

Lemma encode4 (x0 x1 x2 x3 : ascii) : within 0xF0 0xF4 (uchar x0) = true -> ok4 (uchar x0) (uchar x1) (uchar x2) (uchar x3) = true ->
  exists u, scalar u /\ utf8_encode u = [x0; x1; x2; x3].
Proof.
  intros H0 H1. exists ((uchar x0 - 0xF0) * 262144 + (uchar x1 - 0x80) * 4096 + (uchar x2 - 0x80) * 64 + (uchar x3 - 0x80)).
  assert (0x80 <= uchar x1 <= 0xBF /\ 0x80 <= uchar x2 <= 0xBF /\ 0x80 <= uchar x3 <= 0xBF /\ (uchar x0 = 0xF0 -> 0x90 <= uchar x1) /\ (uchar x0 = 0xF4 -> uchar x1 <= 0x8F)) as (A & B & B' & C & D).
  { unfold ok4 in H1. repeat case_if_in H1; ranges; lia. }
  ranges. split; [unfold scalar; lia|].
  unfold utf8_encode. rewrite !(proj2 (Z.ltb_ge _ _)) by lia.
  repeat f_equal; apply char_is; Z.to_euclidean_division_equations; lia.
Qed.

Lemma repl_encoded : scalar 0xFFFD /\ utf8_encode 0xFFFD = repl.
Proof. split; [unfold scalar; lia|reflexivity]. Qed.

(** ** What the loop takes off the front *)
Definition lead (l : list ascii) : option nat :=
  match l with
  | [] => None
  | x0 :: l1 =>
      let c0 := uchar x0 in
      if c0 <=? 0x7F then Some 1%nat
      else if within 0xC2 0xDF c0 then
        match l1 with x1 :: _ => if ok2 c0 (uchar x1) then Some 2%nat else None | _ => None end
      else if within 0xE0 0xEF c0 then
        match l1 with x1 :: x2 :: _ => if ok3 c0 (uchar x1) (uchar x2) then Some 3%nat else None | _ => None end
      else if within 0xF0 0xF4 c0 then
        match l1 with x1 :: x2 :: x3 :: _ => if ok4 c0 (uchar x1) (uchar x2) (uchar x3) then Some 4%nat else None | _ => None end
      else None
  end.

Lemma loop_step (outsz o : nat) (x0 : ascii) (l1 : list ascii) :
  sanitize_loop outsz (x0 :: l1) o =
    match lead (x0 :: l1) with
    | Some n => put_bytes outsz o (take n (x0 :: l1)) (sanitize_loop outsz (drop n (x0 :: l1)))
    | None => put_bytes outsz o repl (sanitize_loop outsz l1)
    end.
Proof. cbn [sanitize_loop lead]. destruct l1 as [|x1 [|x2 [|x3 l4]]]; cbv zeta; repeat case_match; simplify_eq; try done. Qed.

Lemma lead_encoded (l : list ascii) (n : nat) : lead l = Some n -> exists u, scalar u /\ take n l = utf8_encode u /\ (1 <= n <= length l)%nat.
Proof.
  destruct l as [|x0 l1]; [done|]. unfold lead. intros H. repeat case_match; simplify_eq; reflect.
  - destruct (encode1 x0) as (S & E); [done|]. exists (uchar x0). cbn. split; [done|]. split; [done|lia].
  - destruct (encode2 x0 a) as (u & S & E); [done|done|]. exists u. cbn. split; [done|]. split; [done|lia].
  - destruct (encode3 x0 a a0) as (u & S & E); [done|done|]. exists u. cbn. split; [done|]. split; [done|lia].
  - destruct (encode4 x0 a a0 a1) as (u & S & E); [done|done|]. exists u. cbn. split; [done|]. split; [done|lia].
Qed.

Lemma encoded_lead (u : Z) (r : list ascii) : scalar u -> lead (utf8_encode u ++ r) = Some (length (utf8_encode u)).
Proof.
  intros [B S]. unfold utf8_encode. repeat case_if; reflect; cbn [app lead length]; rewrite !uchar_char_of by (Z.to_euclidean_division_equations; lia).
  - by rewrite (proj2 (Z.leb_le _ _)) by lia.
  - rewrite (proj2 (Z.leb_gt _ _)) by (Z.to_euclidean_division_equations; lia).
    rewrite (proj2 (within_iff 0xC2 0xDF _)) by (Z.to_euclidean_division_equations; lia).
    unfold ok2. by rewrite (proj2 (within_iff _ _ _)) by (Z.to_euclidean_division_equations; lia).
  - rewrite (proj2 (Z.leb_gt _ _)) by (Z.to_euclidean_division_equations; lia).
    rewrite (proj2 (within_not 0xC2 0xDF _)) by (Z.to_euclidean_division_equations; lia).
    rewrite (proj2 (within_iff 0xE0 0xEF _)) by (Z.to_euclidean_division_equations; lia).
    assert (ok3 (0xE0 + u / 4096) (0x80 + u / 64 mod 64) (0x80 + u mod 64) = true) as ->; [|done].
    unfold ok3. repeat case_if; ranges; apply andb_true_iff; split; apply within_iff; Z.to_euclidean_division_equations; lia.
  - rewrite (proj2 (Z.leb_gt _ _)) by (Z.to_euclidean_division_equations; lia).
    rewrite (proj2 (within_not 0xC2 0xDF _)) by (Z.to_euclidean_division_equations; lia).
    rewrite (proj2 (within_not 0xE0 0xEF _)) by (Z.to_euclidean_division_equations; lia).
    rewrite (proj2 (within_iff 0xF0 0xF4 _)) by (Z.to_euclidean_division_equations; lia).
    assert (ok4 (0xF0 + u / 262144) (0x80 + u / 4096 mod 64) (0x80 + u / 64 mod 64) (0x80 + u mod 64) = true) as ->; [|done].
    unfold ok4. repeat case_if; ranges; rewrite !andb_true_iff, !within_iff; Z.to_euclidean_division_equations; lia.
Qed.

(** ** The specification: characters are kept, every other byte is replaced. *)
Inductive reading : list ascii -> list ascii -> Prop :=
| read_nil : reading [] []
| read_char (u : Z) (l o : list ascii) : scalar u -> reading l o -> reading (utf8_encode u ++ l) (utf8_encode u ++ o)
| read_bad (x : ascii) (l o : list ascii) : (forall u r, scalar u -> x :: l <> utf8_encode u ++ r) -> reading l o -> reading (x :: l) (repl ++ o).

(** Every line has one reading. *)
Lemma reading_unique (l o1 o2 : list ascii) : reading l o1 -> reading l o2 -> o1 = o2.
Proof.
  intros R. revert o2. induction R as [|u l o S R IH|x l o N R IH]; intros o2 R2.
  - inversion R2 as [|u l o S R E1 E2|]; [done|]. apply app_eq_nil in E1 as [E _]. apply (f_equal length) in E. unfold utf8_encode in E. repeat case_if_in E; cbn in E; lia.
  - inversion R2 as [E|u2 l2 o3 S2 R3 E1 E2|x l2 o3 N R3 E1 E2]; subst.
    + symmetry in E. apply app_eq_nil in E as [E _]. apply (f_equal length) in E. unfold utf8_encode in E. repeat case_if_in E; cbn in E; lia.
    + pose proof (encoded_lead u l S) as L1. rewrite <- E1, encoded_lead in L1 by done. injection L1 as L1. apply app_inj_1 in E1 as [E1 ->]; [|done]. rewrite E1. by rewrite (IH o3).
    + by destruct (N u l S).
  - inversion R2 as [|u2 l2 o3 S2 R3 E1 E2|x2 l2 o3 N2 R3 E1 E2]; subst.
    + by destruct (N u2 l2 S2).
    + by rewrite (IH o3).
Qed.

Lemma loop_reading (outsz n : nat) : forall l o, (length l <= n)%nat -> (o + 3 * length l <= outsz)%nat ->
  reading l (sanitize_loop outsz l o) /\ (length (sanitize_loop outsz l o) <= 3 * length l)%nat.
Proof.
  induction n as [|n IH]; intros l o Ln Lo; (destruct l as [|x0 l1]; [split; [constructor|cbn; lia]|]); [cbn in Ln; lia|].
  cbn [length] in Ln, Lo. rewrite loop_step. destruct (lead (x0 :: l1)) as [k|] eqn:L.
  - pose proof (lead_encoded _ _ L) as (u & S & E & [K1 K2]). cbn [length] in K2. unfold put_bytes.
    assert (length (take k (x0 :: l1)) = k) as Lk by (rewrite length_take; cbn [length]; lia). rewrite Lk.
    rewrite (proj2 (Nat.ltb_ge _ _)) by lia. destruct (IH (drop k (x0 :: l1)) (o + k)%nat) as [R Le]; [rewrite length_drop; cbn [length]; lia|rewrite length_drop; cbn [length]; lia|].
    split; [|rewrite length_app, Lk; rewrite length_drop in Le; cbn [length] in *; lia].
    rewrite <- (take_drop k (x0 :: l1)) at 1. rewrite E. by apply read_char.
  - unfold put_bytes. change (length repl) with 3%nat. rewrite (proj2 (Nat.ltb_ge _ _)) by lia.
    destruct (IH l1 (o + 3)%nat) as [R Le]; [lia|lia|]. split; [|rewrite length_app; change (length repl) with 3%nat; cbn [length]; lia].
    apply read_bad; [|done]. intros u r S E. rewrite E, encoded_lead in L by done. done.
Qed.

Lemma loop_valid (outsz n : nat) : forall l o, (length l <= n)%nat -> (o <= outsz)%nat ->
  valid_utf8 (sanitize_loop outsz l o) /\ (o + length (sanitize_loop outsz l o) <= outsz)%nat.
Proof.
  induction n as [|n IH]; intros l o Ln Lo; (destruct l as [|x0 l1]; [split; [apply valid_nil|cbn; lia]|]); [cbn in Ln; lia|].
  cbn [length] in Ln. rewrite loop_step.
  assert (forall s r u, s = utf8_encode u -> scalar u -> (length r <= n)%nat -> valid_utf8 (put_bytes outsz o s (sanitize_loop outsz r)) /\ (o + length (put_bytes outsz o s (sanitize_loop outsz r)) <= outsz)%nat) as Put.
  { intros s r u -> S Lr. unfold put_bytes. destruct (Nat.ltb_spec outsz (o + length (utf8_encode u))); [split; [apply valid_nil|cbn; lia]|].
    destruct (IH r (o + length (utf8_encode u))%nat) as [V Le]; [done|done|]. split; [by apply valid_cons|rewrite length_app; lia]. }
  destruct (lead (x0 :: l1)) as [k|] eqn:L.
  - pose proof (lead_encoded _ _ L) as (u & S & E & [K1 K2]). apply (Put _ _ u); [done|done|]. rewrite length_drop. cbn [length]. lia.
  - destruct repl_encoded as [S E]. apply (Put _ _ 0xFFFD); [done|done|lia].
Qed.

Lemma reading_valid (us : list Z) : Forall scalar us -> reading (utf8_text us) (utf8_text us).
Proof. induction 1 as [|u us S F IH]; [constructor|]. unfold utf8_text. cbn [map concat]. by apply read_char. Qed.

(** What is sent never leaves the buffer and is valid; with three bytes for each byte of the
    line it is the reading of the line. *)
Lemma sanitize_spec (inp : list ascii) (outsz : nat) :
  (valid_utf8 (sanitize_utf8 inp outsz) /\ (length (sanitize_utf8 inp outsz) <= outsz)%nat) /\
  ((3 * length inp <= outsz)%nat -> reading inp (sanitize_utf8 inp outsz) /\ (length (sanitize_utf8 inp outsz) <= 3 * length inp)%nat).
Proof.
  unfold sanitize_utf8. split; [apply (loop_valid outsz (length inp)); lia|]. intros L. apply (loop_reading outsz (length inp)); lia.
Qed.
