(* ===== verification/WebSocket.v ===== *)
(** * WebSocket connections: [ircd/websocket.c], [read_packet] of [ircd/s_bsd.c]

    Frames of a client are taken apart by [websocket_parse_frame], which puts their payload
    into the receive queue; [read_packet] collects frames that are cut by the network in
    [con_ws_handshake] and drops what is left of frames longer than a line ([con_ws_skip]).
    Lines to a client are put into frames by [websocket_frame_msgbuf].

    The receive queue is an interface ([RecvQueue]); the queue of [DBuf] is its instance.
    Frames are specified by the encoder a client uses ([encode_frame], RFC 6455). *)

From stdpp Require Import base list strings gmap.
From Stdlib Require Import ZArith Lia Ascii.
From S2P Require Import Prelude DBuf MsgQ Utf8.

Local Open Scope ircu_scope.
Local Open Scope Z_scope.

(** ** What the frame parser needs of the receive queue *)
Class RecvQueue (Q : Type) : Type := {
  q_put : Q -> list ascii -> outcome (Q * bool);
  q_ok : Q -> Prop;
  q_bytes : Q -> list ascii;
  q_room : Q -> nat;
  q_put_spec (q : Q) (buf : list ascii) : q_ok q -> (length buf <= q_room q)%nat -> Z.of_nat (length (q_bytes q) + length buf) < 2 ^ 32 ->
    exists q', q_put q buf = Ok (q', true) /\ q_ok q' /\ q_bytes q' = q_bytes q ++ buf /\ (q_room q' + length buf = q_room q)%nat
}.

(** ** Constants of [include/ircd_defs.h] and [include/websocket.h] *)
Definition BUFSIZE : nat := 512.
Definition TAGSLEN : nat := Z.to_nat 8191.
Definition READBUFSIZE : nat := TAGSLEN + BUFSIZE.
Definition TAGDATA_CLIENT_MAX : nat := Z.to_nat 4094.
Definition OUTBOUND_TAG_MAX : nat := TAGDATA_CLIENT_MAX + 256.
Definition WEBSOCKET_MAX_HEADER : nat := READBUFSIZE + 14.
Definition WS_LINE_MAX : nat := OUTBOUND_TAG_MAX + BUFSIZE.
Definition WS_UTF8_OUT_MAX : nat := (WS_LINE_MAX + 2) * 3.
Definition WS_FRAME_BUF_MAX : nat := 10 + WS_UTF8_OUT_MAX.

(** [buf[from + i] ^ masking_key[i % 4]] for [n] values of [i]. *)
Fixpoint unmask (buf : list ascii) (key : list Z) (from i n : nat) : outcome (list ascii) :=
  match n with
  | O => Ok []
  | S n =>
      let* c := rd buf (from + i) in
      let* r := unmask buf key from (S i) n in
      Ok (char_of (Z.lxor c (nth (i mod 4) key 0)) :: r)
  end.

(** [memcpy(masking_key, buf + header_len, 4)] *)
Definition read_key (buf : list ascii) (at_ : nat) : outcome (list Z) :=
  let* k0 := rd buf at_ in let* k1 := rd buf (at_ + 1) in let* k2 := rd buf (at_ + 2) in let* k3 := rd buf (at_ + 3) in
  Ok [k0; k1; k2; k3].

(** The payload length and the length of the header before the key; [None] when the header
    is not there yet. *)
Definition payload_length (buf : list ascii) (payload_len : Z) : outcome (option (Z * nat)) :=
  if payload_len =? 126 then
    if (length buf <? 4)%nat then Ok None
    else let* b2 := rd buf 2 in let* b3 := rd buf 3 in Ok (Some (Z.lor (Z.shiftl b2 8) b3, 4%nat))
  else if payload_len =? 127 then
    if (length buf <? 10)%nat then Ok None
    else
      let* b6 := rd buf 6 in let* b7 := rd buf 7 in let* b8 := rd buf 8 in let* b9 := rd buf 9 in
      Ok (Some (Z.lor (Z.lor (Z.lor (Z.shiftl b6 24) (Z.shiftl b7 16)) (Z.shiftl b8 8)) b9, 10%nat))
  else Ok (Some (payload_len, 2%nat)).

Section Input.
Context {Q : Type} `{!RecvQueue Q}.
(** [cli_fd(cptr)] *)
Context (fd : Z).

(** The receive queue, and what was given to [websocket_write_raw]. *)
Record ws : Type := Ws { recvQ : Q; written : list (list ascii) }.
Definition websocket_write_raw (w : ws) (data : list ascii) : ws := Ws (recvQ w) (written w ++ [data]).

Definition websocket_write_close (w : ws) : ws :=
  if fd <? 0 then w else websocket_write_raw w [char_of 0x88; char_of 0x02; char_of 0x03; char_of 0xE8].
Definition websocket_write_pong (w : ws) (payload : list ascii) : ws :=
  if (125 <? length payload)%nat || (fd <? 0) then w
  else websocket_write_raw w (char_of 0x8A :: char_of (Z.of_nat (length payload)) :: payload).

(** The payload of a data frame: at most a line of it, and a newline at the end of the
    message. *)
Definition deliver_line (w : ws) (fin : bool) (irc_line : list ascii) (total : Z) : outcome (ws * Z) :=
  let* (q, ok) := q_put (recvQ w) irc_line in
  let w := Ws q (written w) in
  if negb ok then Ok (w, -1)
  else if fin then
    let* (q, ok) := q_put (recvQ w) [ascii_of_nat 10] in
    let w := Ws q (written w) in
    if negb ok then Ok (w, -1) else Ok (w, i32 total)
  else Ok (w, i32 total).

(** The frame whose header (with its key) is [header_len] bytes long. *)
Definition frame_body (w : ws) (buf : list ascii) (fin : bool) (opcode payload_len : Z) (key : list Z) (header_len : nat) : outcome (ws * Z) :=
  let buflen := Z.of_nat (length buf) in
  let total := Z.of_nat header_len + payload_len in
  if negb (Z.land opcode 0x08 =? 0) then
    if buflen <? total then Ok (w, 0)
    else if 125 <? payload_len then Ok (w, i32 total)
    else if opcode =? 0x8 then Ok (websocket_write_close w, -3)
    else if opcode =? 0x9 then
      let* udata := unmask buf key header_len 0 (Z.to_nat payload_len) in
      Ok (websocket_write_pong w udata, i32 total)
    else Ok (w, i32 total)
  else if negb (opcode =? 0) && negb (opcode =? 1) && negb (opcode =? 2) then
    if buflen <? total then Ok (w, 0) else Ok (w, i32 total)
  else
    let deliver := if payload_len <? Z.of_nat READBUFSIZE then payload_len else Z.of_nat READBUFSIZE in
    if buflen <? Z.of_nat header_len + deliver then Ok (w, 0)
    else
      let* irc_line := unmask buf key header_len 0 (Z.to_nat deliver) in
      deliver_line w fin irc_line total.

Definition websocket_parse_frame (w : ws) (buf : list ascii) : outcome (ws * Z) :=
  if (length buf <? 2)%nat then Ok (w, 0)
  else
    let* b0 := rd buf 0 in
    let* b1 := rd buf 1 in
    let fin := negb (Z.land b0 0x80 =? 0) in
    let opcode := Z.land b0 0x0F in
    if Z.land b1 0x80 =? 0 then Ok (w, -2)
    else
      let* h := payload_length buf (Z.land b1 0x7F) in
      match h with
      | None => Ok (w, 0)
      | Some (payload_len, header_len) =>
          if (length buf <? header_len + 4)%nat then Ok (w, 0)
          else
            let* masking_key := read_key buf header_len in
            frame_body w buf fin opcode payload_len masking_key (header_len + 4)
      end.

(** ** The WebSocket part of [read_packet] *)

(** The inner loop: [hs] is [con_ws_handshake].  The result is the offset behind what was
    used, or a negative return value. *)
Fixpoint frames_loop (fuel : nat) (w : ws) (hs : list ascii) (skip : Z) (offset : nat) : outcome (ws * Z * (nat + Z)) :=
  match fuel with
  | O => Fuel
  | S fuel =>
      if (offset <? length hs)%nat then
        let* (w, ret) := websocket_parse_frame w (drop offset hs) in
        if 0 <? ret then
          let avail := Z.of_nat (length hs - offset) in
          let '(offset, skip) := if ret <=? avail then ((offset + Z.to_nat ret)%nat, skip) else (length hs, ret - avail) in
          if 0 <? skip then Ok (w, skip, inl offset) else frames_loop fuel w hs skip offset
        else if ret =? 0 then Ok (w, skip, inl offset)
        else Ok (w, skip, inr ret)
      else Ok (w, skip, inl offset)
  end.

Record wscon : Type := WsCon { con_ws : ws; con_ws_handshake : list ascii; con_ws_skip : Z }.

Definition exit_reason (ret : Z) : string :=
  if ret =? -2 then "WebSocket protocol violation" else if ret =? -3 then "Client closed connection" else "dbuf_put fail".

(** The outer loop from [consumed] bytes of [readbuf]; [Some why] is [exit_client].  Every
    turn but the last takes some input. *)
Fixpoint read_loop (fuel : nat) (c : wscon) (readbuf : list ascii) (consumed : nat) : outcome (wscon * option string) :=
  match fuel with
  | O => Fuel
  | S fuel =>
      let len := length readbuf in
      let dropped := if (0 <? con_ws_skip c) && (consumed <? len)%nat
        then if con_ws_skip c <? Z.of_nat (len - consumed) then Z.to_nat (con_ws_skip c) else (len - consumed)%nat
        else O in
      let consumed := (consumed + dropped)%nat in
      let skip := con_ws_skip c - Z.of_nat dropped in
      let hs := con_ws_handshake c in
      if 0 <? skip then Ok (WsCon (con_ws c) hs skip, None)
      else if (WEBSOCKET_MAX_HEADER <? length hs)%nat then Oob
      else
        let space := (WEBSOCKET_MAX_HEADER - length hs)%nat in
        let tk := Nat.min (len - consumed) space in
        let hs := hs ++ take tk (drop consumed readbuf) in
        let consumed := (consumed + tk)%nat in
        let* (w, skip, r) := frames_loop (S (length hs)) (con_ws c) hs skip 0 in
        match r with
        | inr ret => Ok (WsCon w hs skip, Some (exit_reason ret))
        | inl offset =>
            let c := WsCon w (drop offset hs) skip in
            if (len <=? consumed)%nat then
              if (skip =? 0) && (WEBSOCKET_MAX_HEADER <=? length (con_ws_handshake c))%nat then Ok (c, Some "Excess Flood") else Ok (c, None)
            else if (tk =? 0)%nat && (offset =? 0)%nat && (skip =? 0) then Ok (c, Some "Excess Flood")
            else read_loop fuel c readbuf consumed
        end
  end.

Definition ws_read (c : wscon) (readbuf : list ascii) : outcome (wscon * option string) := read_loop (S (S (length readbuf))) c readbuf 0.

(** One read after the other, until the client is gone. *)
Fixpoint ws_reads (c : wscon) (reads : list (list ascii)) : outcome (wscon * option string) :=
  match reads with
  | [] => Ok (c, None)
  | r :: reads =>
      let* (c, gone) := ws_read c r in
      match gone with None => ws_reads c reads | Some _ => Ok (c, gone) end
  end.
End Input.

(** ** What a client sends (RFC 6455) *)
Record frame : Type := Frame { f_fin : bool; f_opcode : Z; f_key : list Z; f_payload : list ascii }.

Fixpoint masked (key : list Z) (i : nat) (l : list ascii) : list ascii :=
  match l with
  | [] => []
  | c :: l => char_of (Z.lxor (uchar c) (nth (i mod 4) key 0)) :: masked key (S i) l
  end.

(** The seven bits of the second byte, and what follows it. *)
Definition length_field (n : Z) : Z * list ascii :=
  if n <? 126 then (n, [])
  else if n <? 65536 then (126, [char_of (n / 256); char_of (n mod 256)])
  else (127, [NUL; NUL; NUL; NUL; char_of (n / 16777216 mod 256); char_of (n / 65536 mod 256); char_of (n / 256 mod 256); char_of (n mod 256)]).

Definition f_len (f : frame) : Z := Z.of_nat (length (f_payload f)).
Definition encode_header (f : frame) : list ascii :=
  char_of ((if f_fin f then 128 else 0) + f_opcode f) :: char_of (128 + fst (length_field (f_len f))) ::
  snd (length_field (f_len f)) ++ map char_of (f_key f).
Definition encode_frame (f : frame) : list ascii := encode_header f ++ masked (f_key f) 0 (f_payload f).

(** Text, binary and continuation frames. *)
Definition data_frame (f : frame) : bool := (f_opcode f =? 0) || (f_opcode f =? 1) || (f_opcode f =? 2).

(** Any frame but Close; frames without data have to fit into the buffer, and the total
    length has to be an [int]. *)
Definition frame_ok (f : frame) : Prop :=
  0 <= f_opcode f < 16 /\ f_opcode f <> 8 /\ length (f_key f) = 4%nat /\ Forall (fun k => 0 <= k < 256) (f_key f) /\
  f_len f + 14 < 2 ^ 31 /\ (data_frame f = false -> (length (encode_frame f) <= WEBSOCKET_MAX_HEADER)%nat).

(** What a frame puts into the receive queue and what is answered to it. *)
Definition delivered (f : frame) : list ascii :=
  if data_frame f then take READBUFSIZE (f_payload f) ++ (if f_fin f then [ascii_of_nat 10] else []) else [].
Definition answered (fd : Z) (f : frame) : list (list ascii) :=
  if (f_opcode f =? 9) && (length (f_payload f) <=? 125)%nat && negb (fd <? 0)
  then [char_of 0x8A :: char_of (f_len f) :: f_payload f] else [].

(** ** Reading a prefix of the stream *)
Lemma rd_prefix (buf r s : list ascii) (i : nat) (c : ascii) : buf ++ r = s -> (i < length buf)%nat -> s !! i = Some c -> rd buf i = Ok (uchar c).
Proof. intros <- L. rewrite lookup_app_l by done. unfold rd. by intros ->. Qed.

Lemma byte_lxor (a b : Z) : 0 <= a < 256 -> 0 <= b < 256 -> 0 <= Z.lxor a b < 256.
Proof.
  intros [A1 A2] [B1 B2]. assert (0 <= Z.lxor a b) by (apply Z.lxor_nonneg; lia). split; [done|].
  destruct (Z.eq_dec (Z.lxor a b) 0) as [->|N]; [lia|]. change 256 with (2 ^ 8). apply Z.log2_lt_pow2; [lia|].
  pose proof (Z.log2_lxor a b A1 B1). assert (forall x, 0 <= x < 256 -> Z.log2 x < 8) as L.
  { intros x X. destruct (Z.eq_dec x 0) as [->|]; [cbn; lia|]. apply Z.log2_lt_pow2; lia. }
  pose proof (L a). pose proof (L b). lia.
Qed.

Lemma key_byte (key : list Z) (i : nat) : Forall (fun k => 0 <= k < 256) key -> 0 <= nth i key 0 < 256.
Proof. intros F. destruct (nth_in_or_default i key 0) as [I| ->]; [|lia]. rewrite List.Forall_forall in F. by apply F. Qed.

Lemma unmask_char (key : list Z) (i : nat) (c : ascii) : Forall (fun k => 0 <= k < 256) key ->
  char_of (Z.lxor (uchar (char_of (Z.lxor (uchar c) (nth i key 0)))) (nth i key 0)) = c.
Proof.
  intros F. pose proof (key_byte key i F). rewrite uchar_char_of by (apply byte_lxor; [apply uchar_bounds|done]).
  by rewrite Z.lxor_assoc, Z.lxor_nilpotent, Z.lxor_0_r, char_of_uchar.
Qed.

Lemma masked_length (key : list Z) (l : list ascii) : forall i, length (masked key i l) = length l.
Proof. induction l as [|c l IH]; intros i; [done|]. cbn [masked length]. by rewrite IH. Qed.

Lemma unmask_masked (buf r rest : list ascii) (key : list Z) (from : nat) : Forall (fun k => 0 <= k < 256) key ->
  forall n i l pre, buf ++ r = pre ++ masked key i l ++ rest -> length pre = (from + i)%nat -> (n <= length l)%nat -> (from + i + n <= length buf)%nat ->
  unmask buf key from i n = Ok (take n l).
Proof.
  intros F. induction n as [|n IH]; intros i l pre E Lp Ln Lb; [done|]. destruct l as [|c l]; [cbn in Ln; lia|]. cbn [masked] in E. cbn [unmask].
  rewrite (rd_prefix buf r _ (from + i) (char_of (Z.lxor (uchar c) (nth (i mod 4) key 0))) E); [|lia|].
  - cbn [obind]. rewrite (IH (S i) l (pre ++ [char_of (Z.lxor (uchar c) (nth (i mod 4) key 0))])).
    + cbn [obind]. by rewrite unmask_char.
    + rewrite E. cbn. by rewrite <- (assoc_L (++)).
    + rewrite length_app, Lp. cbn [length]. lia.
    + cbn [length] in Ln. lia.
    + lia.
  - rewrite lookup_app_r by lia. rewrite Lp, Nat.sub_diag. done.
Qed.

(** ** The bits of the first two bytes *)
Lemma first_byte (fin : bool) (op : Z) : 0 <= op < 16 ->
  (negb (Z.land (uchar (char_of ((if fin then 128 else 0) + op))) 0x80 =? 0)) = fin /\ Z.land (uchar (char_of ((if fin then 128 else 0) + op))) 0x0F = op.
Proof.
  intros H. assert (forallb (fun o => let op := Z.of_nat o in forallb (fun fin : bool => Bool.eqb (negb (Z.land (uchar (char_of ((if fin then 128 else 0) + op))) 0x80 =? 0)) fin && (Z.land (uchar (char_of ((if fin then 128 else 0) + op))) 0x0F =? op)) [true; false]) (seq 0 16) = true) as A by (vm_compute; reflexivity).
  rewrite forallb_forall in A. specialize (A (Z.to_nat op)). rewrite in_seq in A. specialize (A ltac:(lia)). cbv zeta in A. rewrite Z2Nat.id in A by lia. rewrite forallb_forall in A.
  specialize (A fin ltac:(destruct fin; cbn; auto)). apply andb_true_iff in A as [A1%eqb_prop A2%Z.eqb_eq]. done.
Qed.

Lemma second_byte (n : Z) : 0 <= n < 128 -> (Z.land (uchar (char_of (128 + n))) 0x80 =? 0) = false /\ Z.land (uchar (char_of (128 + n))) 0x7F = n.
Proof.
  intros H. assert (forallb (fun o => let n := Z.of_nat o in negb (Z.land (uchar (char_of (128 + n))) 0x80 =? 0) && (Z.land (uchar (char_of (128 + n))) 0x7F =? n)) (seq 0 128) = true) as A by (vm_compute; reflexivity).
  rewrite forallb_forall in A. specialize (A (Z.to_nat n)). rewrite in_seq in A. specialize (A ltac:(lia)). cbv zeta in A. rewrite Z2Nat.id in A by lia.
  apply andb_true_iff in A as [A1%negb_true_iff A2%Z.eqb_eq]. done.
Qed.

Lemma bytes2 (n : Z) : 0 <= n < 65536 -> Z.lor (Z.shiftl (uchar (char_of (n / 256))) 8) (uchar (char_of (n mod 256))) = n.
Proof.
  intros H. rewrite !uchar_char_of by (Z.to_euclidean_division_equations; lia). rewrite Z.shiftl_mul_pow2 by lia.
  rewrite lor_low by (change (2 ^ 8) with 256; Z.to_euclidean_division_equations; lia). change (2 ^ 8) with 256. Z.to_euclidean_division_equations; lia.
Qed.

Lemma bytes4 (n : Z) : 0 <= n < 2 ^ 32 ->
  Z.lor (Z.lor (Z.lor (Z.shiftl (uchar (char_of (n / 16777216 mod 256))) 24) (Z.shiftl (uchar (char_of (n / 65536 mod 256))) 16)) (Z.shiftl (uchar (char_of (n / 256 mod 256))) 8)) (uchar (char_of (n mod 256))) = n.
Proof.
  intros H. change (2 ^ 32) with 4294967296 in H. rewrite !uchar_char_of by (apply Z.mod_pos_bound; lia). rewrite !Z.shiftl_mul_pow2 by lia.
  assert (0 <= n / 16777216 mod 256 < 256 /\ 0 <= n / 65536 mod 256 < 256 /\ 0 <= n / 256 mod 256 < 256 /\ 0 <= n mod 256 < 256) as (A & B & C & D) by (repeat split; apply Z.mod_pos_bound; lia).
  assert (n = n / 16777216 mod 256 * 16777216 + n / 65536 mod 256 * 65536 + n / 256 mod 256 * 256 + n mod 256) as E by (Z.to_euclidean_division_equations; lia).
  rewrite lor_low by (change (2 ^ 16) with 65536; change (2 ^ 24) with 16777216; lia).
  replace (n / 16777216 mod 256 * 2 ^ 24 + n / 65536 mod 256 * 2 ^ 16) with ((n / 16777216 mod 256 * 256 + n / 65536 mod 256) * 2 ^ 16) by (change (2 ^ 16) with 65536; change (2 ^ 24) with 16777216; lia).
  rewrite lor_low by (change (2 ^ 16) with 65536; change (2 ^ 8) with 256; lia).
  replace ((n / 16777216 mod 256 * 256 + n / 65536 mod 256) * 2 ^ 16 + n / 256 mod 256 * 2 ^ 8) with ((n / 16777216 mod 256 * 65536 + n / 65536 mod 256 * 256 + n / 256 mod 256) * 2 ^ 8) by (change (2 ^ 16) with 65536; change (2 ^ 8) with 256; lia).
  rewrite lor_low by (change (2 ^ 8) with 256; lia). change (2 ^ 8) with 256. lia.
Qed.

(** ** A frame, or a prefix of it *)
Definition header_length (f : frame) : nat := length (encode_header f).
(** How much of a frame has to be there for it to be handled. *)
Definition need (f : frame) : nat :=
  (header_length f + if data_frame f then Nat.min (length (f_payload f)) READBUFSIZE else length (f_payload f))%nat.

Lemma encode_length_eq (f : frame) : length (encode_frame f) = (header_length f + length (f_payload f))%nat.
Proof. unfold encode_frame. by rewrite length_app, masked_length. Qed.

Lemma header_bounds (f : frame) : length (f_key f) = 4%nat -> (6 <= header_length f <= 14)%nat.
Proof.
  intros K. unfold header_length, encode_header. cbn [length]. rewrite length_app, length_map, K. unfold length_field. repeat case_if; cbn [snd length]; lia.
Qed.

Lemma need_bound (f : frame) : frame_ok f -> (6 <= need f <= WEBSOCKET_MAX_HEADER)%nat /\ (need f <= length (encode_frame f))%nat.
Proof.
  intros (_ & _ & K & _ & _ & D). pose proof (header_bounds f K). rewrite encode_length_eq in *. unfold need, WEBSOCKET_MAX_HEADER in *. destruct (data_frame f); [lia|]. specialize (D eq_refl). lia.
Qed.

Section Parse.
Context {Q : Type} `{!RecvQueue Q} (fd : Z).

(** The header is read once it is there with the key. *)
Lemma parse_header (f : frame) (buf r rest : list ascii) (w : ws) : frame_ok f -> buf ++ r = encode_frame f ++ rest ->
  websocket_parse_frame fd w buf =
    if (length buf <? header_length f)%nat then Ok (w, 0)
    else frame_body fd w buf (f_fin f) (f_opcode f) (f_len f) (f_key f) (header_length f).
Proof.
  intros (Op & _ & K & F & Len & _) E. assert (0 <= f_len f) by (unfold f_len; lia).
  pose proof (header_bounds f K) as Hb. unfold websocket_parse_frame. destruct (Nat.ltb_spec (length buf) 2); [by rewrite (proj2 (Nat.ltb_lt _ _)) by lia|].
  destruct (f_key f) as [|k0 [|k1 [|k2 [|k3 [|? ?]]]]] eqn:Ek; try done. rewrite <- Ek in F.
  assert (forall k, In k (f_key f) -> uchar (char_of k) = k) as Kb by (intros k I; apply uchar_char_of; rewrite List.Forall_forall in F; by apply F). rewrite Ek in Kb.
  unfold encode_frame in E. rewrite <- (assoc_L (++)) in E.
  pose proof (rd_prefix _ _ _ 0 _ E ltac:(lia) eq_refl) as R0. pose proof (rd_prefix _ _ _ 1 _ E ltac:(lia) eq_refl) as R1.
  rewrite R0, R1. cbn [obind]. destruct (first_byte (f_fin f) (f_opcode f) Op) as [-> ->].
  unfold header_length, encode_header in *. rewrite Ek in *. unfold length_field in *. destruct (Z.ltb_spec (f_len f) 126) as [N|N]; [|destruct (Z.ltb_spec (f_len f) 65536) as [N2|N2]]; cbn [fst snd app length map] in *.
  - destruct (second_byte (f_len f)) as [-> ->]; [lia|]. unfold payload_length. rewrite !(proj2 (Z.eqb_neq _ _)) by lia. cbn [obind Nat.add].
    destruct (Nat.ltb_spec (length buf) 6); [done|]. unfold read_key. cbn [Nat.add].
    rewrite (rd_prefix _ _ _ 2 _ E), (rd_prefix _ _ _ 3 _ E), (rd_prefix _ _ _ 4 _ E), (rd_prefix _ _ _ 5 _ E) by (reflexivity || lia). cbn [obind].
    by rewrite !Kb by (cbn; auto).
  - destruct (second_byte 126) as [-> ->]; [lia|]. unfold payload_length. cbn [Z.eqb Pos.eqb].
    destruct (Nat.ltb_spec (length buf) 4); [cbn [obind]; by rewrite (proj2 (Nat.ltb_lt _ _)) by lia|].
    rewrite (rd_prefix _ _ _ 2 _ E), (rd_prefix _ _ _ 3 _ E) by (reflexivity || lia). cbn [obind Nat.add]. rewrite bytes2 by lia.
    destruct (Nat.ltb_spec (length buf) 8); [done|]. unfold read_key. cbn [Nat.add].
    rewrite (rd_prefix _ _ _ 4 _ E), (rd_prefix _ _ _ 5 _ E), (rd_prefix _ _ _ 6 _ E), (rd_prefix _ _ _ 7 _ E) by (reflexivity || lia). cbn [obind].
    by rewrite !Kb by (cbn; auto).
  - destruct (second_byte 127) as [-> ->]; [lia|]. unfold payload_length. cbn [Z.eqb Pos.eqb].
    destruct (Nat.ltb_spec (length buf) 10); [cbn [obind]; by rewrite (proj2 (Nat.ltb_lt _ _)) by lia|].
    rewrite (rd_prefix _ _ _ 6 _ E), (rd_prefix _ _ _ 7 _ E), (rd_prefix _ _ _ 8 _ E), (rd_prefix _ _ _ 9 _ E) by (reflexivity || lia). cbn [obind Nat.add]. rewrite bytes4 by lia.
    destruct (Nat.ltb_spec (length buf) 14); [done|]. unfold read_key. cbn [Nat.add].
    rewrite (rd_prefix _ _ _ 10 _ E), (rd_prefix _ _ _ 11 _ E), (rd_prefix _ _ _ 12 _ E), (rd_prefix _ _ _ 13 _ E) by (reflexivity || lia). cbn [obind].
    by rewrite !Kb by (cbn; auto).
Qed.

Definition effect (f : frame) (w w' : ws) : Prop :=
  q_ok (recvQ w') /\ q_bytes (recvQ w') = q_bytes (recvQ w) ++ delivered f /\ (q_room (recvQ w') + length (delivered f) = q_room (recvQ w))%nat /\
  written w' = written w ++ answered fd f.

Lemma control_bit (op : Z) : 0 <= op < 16 -> negb (Z.land op 0x08 =? 0) = (8 <=? op).
Proof.
  intros H. assert (forallb (fun o => Bool.eqb (negb (Z.land (Z.of_nat o) 0x08 =? 0)) (8 <=? Z.of_nat o)) (seq 0 16) = true) as A by (vm_compute; reflexivity).
  rewrite forallb_forall in A. specialize (A (Z.to_nat op)). rewrite in_seq in A. specialize (A ltac:(lia)). rewrite Z2Nat.id in A by lia. by apply eqb_prop in A.
Qed.

Lemma i32_small (z : Z) : - 2 ^ 31 <= z < 2 ^ 31 -> i32 z = z.
Proof. intros H. unfold i32. rewrite Z.mod_small by lia. lia. Qed.

Lemma deliver_effect (f : frame) (w : ws) (total : Z) : data_frame f = true -> 0 <= total < 2 ^ 31 -> q_ok (recvQ w) ->
  (length (delivered f) <= q_room (recvQ w))%nat -> Z.of_nat (length (q_bytes (recvQ w)) + length (delivered f)) < 2 ^ 32 ->
  exists w', deliver_line w (f_fin f) (take READBUFSIZE (f_payload f)) total = Ok (w', total) /\ effect f w w'.
Proof.
  intros D T O R B. assert (answered fd f = []) as An.
  { unfold answered. unfold data_frame in D. destruct (Z.eqb_spec (f_opcode f) 9) as [E|]; [by rewrite E in D|done]. }
  unfold effect. rewrite An, app_nil_r. unfold delivered, deliver_line in *. rewrite D in *. rewrite length_app in *.
  destruct (q_put_spec (recvQ w) (take READBUFSIZE (f_payload f))) as (q1 & -> & O1 & E1 & R1); [done|lia|lia|]. cbn [obind recvQ written negb]. rewrite i32_small by lia.
  destruct (f_fin f); cycle 1.
  { exists (Ws q1 (written w)). cbn [recvQ written length]. split; [done|]. split; [done|]. rewrite app_nil_r. split; [done|]. split; [lia|done]. }
  cbn [length] in *. destruct (q_put_spec q1 [ascii_of_nat 10]) as (q2 & -> & O2 & E2 & R2); [done|cbn [length]; lia|rewrite E1, length_app; cbn [length]; lia|]. cbn [obind negb].
  eexists. split; [reflexivity|]. cbn [recvQ written length] in *. split; [done|]. split; [by rewrite E2, E1, (assoc_L (++))|]. split; [lia|done].
Qed.

(** A prefix of the stream: the frame in front is waited for, or handled. *)
Lemma parse_prefix (f : frame) (buf r rest : list ascii) (w : ws) : frame_ok f -> buf ++ r = encode_frame f ++ rest -> q_ok (recvQ w) ->
  (length (delivered f) <= q_room (recvQ w))%nat -> Z.of_nat (length (q_bytes (recvQ w)) + length (delivered f)) < 2 ^ 32 ->
  if (length buf <? need f)%nat then websocket_parse_frame fd w buf = Ok (w, 0)
  else exists w', websocket_parse_frame fd w buf = Ok (w', Z.of_nat (length (encode_frame f))) /\ effect f w w'.
Proof.
  intros Ok_ E O R B. rewrite (parse_header f buf r rest w Ok_ E). destruct Ok_ as (Op & N8 & K & F & Len & D). pose proof (header_bounds f K) as Hb.
  rewrite encode_length_eq. unfold need. destruct (Nat.ltb_spec (length buf) (header_length f)) as [S|S]; [by rewrite (proj2 (Nat.ltb_lt _ _)) by lia|].
  assert (forall n, (n <= length (f_payload f))%nat -> (header_length f + n <= length buf)%nat -> unmask buf (f_key f) (header_length f) 0 n = Ok (take n (f_payload f))) as Un.
  { intros n L1 L2. unfold encode_frame in E. rewrite <- (assoc_L (++)) in E. eapply unmask_masked; [done|exact E|by rewrite Nat.add_0_r|done|lia]. }
  unfold frame_body. fold (f_len f). rewrite control_bit by done. assert (0 <= f_len f) by (unfold f_len; lia).
  assert (Z.of_nat (header_length f) + f_len f = Z.of_nat (header_length f + length (f_payload f))) as Tot by (unfold f_len; lia).
  assert (Z.of_nat (header_length f + length (f_payload f)) < 2 ^ 31) as Small by (unfold f_len in *; lia).
  destruct (data_frame f) eqn:Df.
  - assert (f_opcode f = 0 \/ f_opcode f = 1 \/ f_opcode f = 2) as O3 by (unfold data_frame in Df; rewrite !orb_true_iff, !Z.eqb_eq in Df; tauto).
    rewrite (proj2 (Z.leb_gt _ _)) by lia. replace (negb (f_opcode f =? 0) && negb (f_opcode f =? 1) && negb (f_opcode f =? 2)) with false by (destruct O3 as [-> |[-> | ->]]; done).
    replace (if f_len f <? Z.of_nat READBUFSIZE then f_len f else Z.of_nat READBUFSIZE) with (Z.of_nat (Nat.min (length (f_payload f)) READBUFSIZE)) by (unfold f_len; case_if; reflect; lia).
    rewrite <- Nat2Z.inj_add. destruct (Nat.ltb_spec (length buf) (header_length f + length (f_payload f) `min` READBUFSIZE)); [by rewrite (proj2 (Z.ltb_lt _ _)) by lia|].
    rewrite (proj2 (Z.ltb_ge _ _)) by lia. rewrite Nat2Z.id, Un by lia. cbn [obind].
    replace (take (length (f_payload f) `min` READBUFSIZE) (f_payload f)) with (take READBUFSIZE (f_payload f)) by (destruct (Nat.le_ge_cases (length (f_payload f)) READBUFSIZE); [rewrite (Nat.min_l _ READBUFSIZE) by done; rewrite !take_ge by lia; done|by rewrite (Nat.min_r _ READBUFSIZE) by done]).
    rewrite Tot. apply deliver_effect; [done|lia|done|done|done].
  - assert (delivered f = []) as De by (unfold delivered; by rewrite Df). rewrite Tot.
    assert (answered fd f = [] -> effect f w w) as Same by (intros An; unfold effect; rewrite De, An, !app_nil_r; cbn [length]; split; [done|]; split; [done|]; split; [lia|done]).
    unfold data_frame in Df. apply orb_false_iff in Df as [[D0 D1]%orb_false_iff D2]. rewrite D0, D1, D2. cbn [negb andb]. unfold answered in Same |- *.
    destruct (Nat.ltb_spec (length buf) (header_length f + length (f_payload f))).
    { rewrite (proj2 (Z.ltb_lt (Z.of_nat (length buf)) _)) by lia. by destruct (8 <=? f_opcode f). }
    rewrite (proj2 (Z.ltb_ge (Z.of_nat (length buf)) _)) by lia. rewrite !i32_small by lia. reflect.
    destruct (Z.leb_spec 8 (f_opcode f)); [|exists w; split; [done|]; apply Same; by rewrite (proj2 (Z.eqb_neq _ 9)) by lia].
    destruct (Z.ltb_spec 125 (f_len f)) as [L|L]; [exists w; split; [done|]; apply Same; unfold f_len in L; rewrite (proj2 (Nat.leb_gt _ _)) by lia; by rewrite andb_false_r|].
    rewrite (proj2 (Z.eqb_neq _ 8)) by done. destruct (f_opcode f =? 9) eqn:E9; [|exists w; split; [done|by apply Same]].
    unfold f_len at 1. rewrite Nat2Z.id, Un by lia. rewrite firstn_all. cbn [obind]. eexists. split; [reflexivity|].
    unfold effect, websocket_write_pong, answered. rewrite De, app_nil_r, E9. cbn [length andb]. unfold f_len in L. rewrite (proj2 (Nat.ltb_ge _ _)) by lia. rewrite (proj2 (Nat.leb_le _ _)) by lia. cbn [orb andb].
    destruct (fd <? 0); cbn [negb]; unfold websocket_write_raw; cbn [recvQ written]; rewrite ?app_nil_r; (split; [done|]; split; [done|]; split; [lia|done]).
Qed.

(** ** Several frames *)
Definition stream (fs : list frame) : list ascii := concat (map encode_frame fs).
Definition delivery (fs : list frame) : list ascii := concat (map delivered fs).
Definition answers (fs : list frame) : list (list ascii) := concat (map (answered fd) fs).

Definition effects (fs : list frame) (w w' : ws) : Prop :=
  q_ok (recvQ w') /\ q_bytes (recvQ w') = q_bytes (recvQ w) ++ delivery fs /\ (q_room (recvQ w') + length (delivery fs) = q_room (recvQ w))%nat /\
  written w' = written w ++ answers fs.
(** The queue has room for what the frames carry. *)
Definition enough (fs : list frame) (w : ws) : Prop :=
  q_ok (recvQ w) /\ (length (delivery fs) <= q_room (recvQ w))%nat /\ Z.of_nat (length (q_bytes (recvQ w)) + length (delivery fs)) < 2 ^ 32.

Lemma effects_nil (w : ws) : q_ok (recvQ w) -> effects [] w w.
Proof. intros O. unfold effects. cbn. rewrite !app_nil_r. split; [done|]. split; [done|]. split; [lia|done]. Qed.

Lemma effects_app (fs1 fs2 : list frame) (w w1 w2 : ws) : effects fs1 w w1 -> effects fs2 w1 w2 -> effects (fs1 ++ fs2) w w2.
Proof.
  intros (O1 & B1 & R1 & W1) (O2 & B2 & R2 & W2). unfold effects, delivery, answers in *. rewrite !map_app, !concat_app, length_app.
  split; [done|]. split; [by rewrite B2, B1, (assoc_L (++))|]. split; [lia|by rewrite W2, W1, (assoc_L (++))].
Qed.

Lemma effect_effects (f : frame) (w w' : ws) : effect f w w' -> effects [f] w w'.
Proof. unfold effect, effects, delivery, answers. cbn. by rewrite !app_nil_r. Qed.

Lemma enough_app (fs1 fs2 : list frame) (w w' : ws) : enough (fs1 ++ fs2) w -> effects fs1 w w' -> enough fs2 w'.
Proof.
  intros (O & R & B) (O1 & B1 & R1 & _). unfold enough, delivery in *. rewrite map_app, concat_app, length_app in *. split; [done|]. split; [lia|]. rewrite B1, length_app. lia.
Qed.

(** What the buffer holds between reads is less than what its frame needs. *)
Definition waiting (hs : list ascii) (fs : list frame) : Prop := match fs with [] => True | f :: _ => (length hs < need f)%nat end.

Lemma frames_loop_spec (hs r : list ascii) : forall fs w offset fuel, Forall frame_ok fs -> drop offset hs ++ r = stream fs -> enough fs w ->
  (offset <= length hs)%nat -> (length hs - offset < fuel)%nat ->
  exists fs1 fs2 w' offset' skip, frames_loop fd fuel w hs 0 offset = Ok (w', skip, inl offset') /\ fs = fs1 ++ fs2 /\ effects fs1 w w' /\ (offset' <= length hs)%nat /\
    ((skip = 0 /\ drop offset' hs ++ r = stream fs2 /\ waiting (drop offset' hs) fs2) \/
     (0 < skip /\ offset' = length hs /\ (Z.to_nat skip <= length r)%nat /\ drop (Z.to_nat skip) r = stream fs2)).
Proof.
  induction fs as [|f fs IH]; intros w offset fuel F E En Lo Fu; (destruct fuel as [|fuel]; [lia|]); cbn [frames_loop].
  - destruct (Nat.ltb_spec offset (length hs)) as [L|L].
    { apply (f_equal length) in E. rewrite length_app, length_drop in E. cbn in E. lia. }
    exists [], [], w, offset, 0. split; [done|]. split; [done|]. split; [apply effects_nil, En|]. split; [done|]. left. split; [done|]. split; [done|exact I].
  - inversion_clear F as [|? ? Fo Fs]. pose proof (need_bound f Fo) as [Nb Ne].
    assert (enough [f] w) as En1 by (unfold enough, delivery in *; cbn [map concat] in *; rewrite app_nil_r, length_app in *; destruct En as (? & ? & ?); split; [done|lia]).
    destruct (Nat.ltb_spec offset (length hs)) as [L|L]; cycle 1.
    { exists [], (f :: fs), w, offset, 0. split; [done|]. split; [done|]. split; [apply effects_nil, En|]. split; [done|]. left. split; [done|]. split; [done|]. unfold waiting. rewrite length_drop. lia. }
    unfold enough, delivery in En1. cbn [map concat] in En1. rewrite app_nil_r in En1. destruct En1 as (O & R & B).
    pose proof (parse_prefix f (drop offset hs) r (stream fs) w Fo E O R B) as P. rewrite length_drop in P.
    destruct (Nat.ltb_spec (length hs - offset) (need f)) as [Sh|Sh].
    { rewrite P. cbn [obind]. change (0 <? 0) with false. change (0 =? 0) with true. cbn iota.
      exists [], (f :: fs), w, offset, 0. split; [done|]. split; [done|]. split; [by apply effects_nil|]. split; [done|]. left. split; [done|]. split; [done|]. unfold waiting. rewrite length_drop. lia. }
    destruct P as (w1 & -> & Ef). apply effect_effects in Ef. cbn [obind]. rewrite (proj2 (Z.ltb_lt _ _)) by lia. cbv zeta.
    pose proof (enough_app [f] fs w w1 En Ef) as En2.
    destruct (Z.leb_spec (Z.of_nat (length (encode_frame f))) (Z.of_nat (length hs - offset))) as [W|W].
    + change (0 <? 0) with false. cbn iota. rewrite Nat2Z.id. destruct (IH w1 (offset + length (encode_frame f))%nat fuel) as (fs1 & fs2 & w' & offset' & skip & -> & -> & Ef2 & Lo' & Fin); [done| |done|lia|lia|].
      { rewrite <- drop_drop. apply (f_equal (drop (length (encode_frame f)))) in E. unfold stream in E. cbn [map concat] in E. rewrite drop_app_length in E. rewrite drop_app_le in E by (rewrite length_drop; lia). exact E. }
      exists (f :: fs1), fs2, w', offset', skip. split; [done|]. split; [done|]. split; [by apply (effects_app [f] fs1 w w1 w')|done].
    + rewrite (proj2 (Z.ltb_lt 0 (_ - _))) by lia. exists [f], fs, w1, (length hs), (Z.of_nat (length (encode_frame f)) - Z.of_nat (length hs - offset)).
      split; [done|]. split; [done|]. split; [done|]. split; [done|]. right. split; [lia|]. split; [done|].
      unfold stream in E. cbn [map concat] in E. assert (length (drop offset hs ++ r) = length (encode_frame f ++ stream fs)) as El by (by rewrite E). rewrite !length_app, length_drop in El. split; [lia|].
      apply (f_equal (drop (length (encode_frame f)))) in E. rewrite drop_app_length in E. rewrite drop_app_ge in E by (rewrite length_drop; lia). rewrite length_drop in E. unfold stream. rewrite <- E. f_equal. lia.
Qed.

(** The connection between reads: a frame is waited for, or the rest of one is dropped. *)
Definition pending (c : wscon (Q := Q)) (x : list ascii) (fs : list frame) : Prop :=
  (con_ws_skip c = 0 /\ con_ws_handshake c ++ x = stream fs /\ waiting (con_ws_handshake c) fs) \/
  (0 < con_ws_skip c /\ con_ws_handshake c = [] /\ (Z.to_nat (con_ws_skip c) <= length x)%nat /\ drop (Z.to_nat (con_ws_skip c)) x = stream fs).

Lemma waiting_small (hs x : list ascii) (fs : list frame) : Forall frame_ok fs -> hs ++ x = stream fs -> waiting hs fs -> (length hs < WEBSOCKET_MAX_HEADER)%nat.
Proof.
  intros F E W. destruct fs as [|f fs].
  - apply app_eq_nil in E as [-> _]. unfold WEBSOCKET_MAX_HEADER. cbn [length]. lia.
  - inversion_clear F as [|? ? Fo _]. pose proof (need_bound f Fo). unfold waiting in W. lia.
Qed.

(** A turn of the outer loop that is not dropping: the rest of the read and what follows. *)
Lemma read_turn (c : wscon (Q := Q)) (inp r : list ascii) (fs : list frame) : Forall frame_ok fs -> con_ws_handshake c ++ inp ++ r = stream fs -> waiting (con_ws_handshake c) fs -> enough fs (con_ws c) ->
  let tk := Nat.min (length inp) (WEBSOCKET_MAX_HEADER - length (con_ws_handshake c)) in
  let hs := con_ws_handshake c ++ take tk inp in
  exists fs1 fs2 w offset skip, frames_loop fd (S (length hs)) (con_ws c) hs 0 0 = Ok (w, skip, inl offset) /\ fs = fs1 ++ fs2 /\ effects fs1 (con_ws c) w /\
    pending (WsCon w (drop offset hs) skip) (drop tk inp ++ r) fs2.
Proof.
  intros F E W En tk hs. destruct (frames_loop_spec hs (drop tk inp ++ r) fs (con_ws c) 0 (S (length hs))) as (fs1 & fs2 & w & offset & skip & L & Efs & Ef & Lo & Fin); [done| |done|lia|lia|].
  { rewrite drop_0. unfold hs. by rewrite <- (assoc_L (++)), (assoc_L (++) (take tk inp)), take_drop. }
  exists fs1, fs2, w, offset, skip. split; [done|]. split; [done|]. split; [done|]. unfold pending. cbn [con_ws_skip con_ws_handshake].
  destruct Fin as [Fin|(Sk & -> & Le & D)]; [by left|]. right. rewrite drop_all. done.
Qed.

Lemma read_loop_spec (readbuf r : list ascii) : forall fuel c consumed fs, Forall frame_ok fs -> pending c (drop consumed readbuf ++ r) fs -> enough fs (con_ws c) ->
  (consumed <= length readbuf)%nat -> (length readbuf - consumed < fuel)%nat ->
  exists fs1 fs2 c', read_loop fd fuel c readbuf consumed = Ok (c', None) /\ fs = fs1 ++ fs2 /\ effects fs1 (con_ws c) (con_ws c') /\ pending c' r fs2.
Proof.
  induction fuel as [|fuel IH]; intros c consumed fs F P En Lc Fu; [lia|]. cbn [read_loop]. cbv zeta.
  set (dropped := if (0 <? con_ws_skip c) && (consumed <? length readbuf)%nat then _ else O).
  assert (dropped = Nat.min (Z.to_nat (con_ws_skip c)) (length readbuf - consumed)) as Ed.
  { unfold dropped. destruct (Z.ltb_spec 0 (con_ws_skip c)); [|cbn [andb]; lia]. destruct (Nat.ltb_spec consumed (length readbuf)); cbn [andb]; [|lia]. case_if; reflect; lia. }
  clearbody dropped. subst dropped. set (dropped := Nat.min _ _).
  destruct (Z.ltb_spec 0 (con_ws_skip c - Z.of_nat dropped)) as [S|S].
  { destruct P as [(S0 & _)|(Sk & H0 & Le & D)]; [lia|]. exists [], fs, (WsCon (con_ws c) (con_ws_handshake c) (con_ws_skip c - Z.of_nat dropped)).
    split; [done|]. split; [done|]. split; [apply effects_nil, En|]. right. cbn [con_ws_skip con_ws_handshake]. split; [done|]. split; [done|].
    assert (dropped = length readbuf - consumed)%nat as Dl by (unfold dropped in *; lia). rewrite length_app, length_drop in Le. split; [lia|].
    rewrite <- D, drop_app_ge by (rewrite length_drop; lia). f_equal. rewrite length_drop. lia. }
  assert (con_ws_skip c - Z.of_nat dropped = 0) as -> by (destruct P as [(S0 & _)|(Sk & _)]; unfold dropped in *; lia).
  set (inp := drop (consumed + dropped) readbuf).
  assert (con_ws_handshake c ++ inp ++ r = stream fs /\ waiting (con_ws_handshake c) fs) as [E W].
  { destruct P as [(S0 & E & W)|(Sk & H0 & Le & D)].
    - unfold inp. replace (consumed + dropped)%nat with consumed by (unfold dropped; lia). done.
    - rewrite H0. split; [cbn [app]; rewrite <- D, drop_app_le by (rewrite length_drop; unfold dropped in *; lia); unfold inp; rewrite drop_drop; do 2 f_equal; unfold dropped in *; lia|].
      destruct fs as [|f fs]; [done|]. cbn [waiting length]. inversion_clear F as [|? ? Fo _]. pose proof (need_bound f Fo). lia. }
  pose proof (waiting_small _ _ _ F E W) as Sm. rewrite (proj2 (Nat.ltb_ge _ _)) by lia.
  destruct (read_turn c inp r fs F E W En) as (fs1 & fs2 & w & offset & skip & L & -> & Ef & P2).
  assert (length inp = length readbuf - (consumed + dropped))%nat as Li by (unfold inp; by rewrite length_drop). rewrite Li in L, P2.
  set (tk := Nat.min (length readbuf - (consumed + dropped)) (WEBSOCKET_MAX_HEADER - length (con_ws_handshake c))) in *. fold inp. rewrite L. cbn [obind].
  apply Forall_app in F as [F1 F2]. pose proof (enough_app fs1 fs2 _ _ En Ef) as En2.
  set (c2 := WsCon w (drop offset (con_ws_handshake c ++ take tk inp)) skip) in *.
  assert (drop tk inp ++ r = drop (consumed + dropped + tk) readbuf ++ r) as Er by (unfold inp; by rewrite drop_drop).
  destruct (Nat.leb_spec (length readbuf) (consumed + dropped + tk)) as [Le|Le].
  - rewrite Er, drop_ge in P2 by done. exists fs1, fs2, c2. split; [|done]. cbn [app] in P2.
    destruct (Z.eqb_spec skip 0) as [->|]; [|done]. cbn [andb]. destruct P2 as [(_ & E2 & W2)|(Sk & _)]; [|cbn in Sk; lia].
    pose proof (waiting_small _ _ _ F2 E2 W2). by rewrite (proj2 (Nat.leb_gt _ _)) by done.
  - assert (0 < tk)%nat by (unfold tk in *; lia). rewrite (proj2 (Nat.eqb_neq tk 0)) by lia. cbn [andb].
    destruct (IH c2 (consumed + dropped + tk)%nat fs2) as (fs3 & fs4 & c' & -> & -> & Ef2 & P3); [done|by rewrite <- Er|done|lia|lia|].
    exists (fs1 ++ fs3), fs4, c'. split; [done|]. split; [by rewrite (assoc_L (++))|]. split; [by apply (effects_app fs1 fs3 _ w)|done].
Qed.

Lemma ws_reads_spec (reads : list (list ascii)) : forall c fs, Forall frame_ok fs -> pending c (concat reads) fs -> enough fs (con_ws c) ->
  exists fs1 fs2 c', ws_reads fd c reads = Ok (c', None) /\ fs = fs1 ++ fs2 /\ effects fs1 (con_ws c) (con_ws c') /\ pending c' [] fs2.
Proof.
  induction reads as [|rd reads IH]; intros c fs F P En; cbn [ws_reads].
  { exists [], fs, c. split; [done|]. split; [done|]. split; [apply effects_nil, En|done]. }
  destruct (read_loop_spec rd (concat reads) (S (S (length rd))) c 0 fs) as (fs1 & fs2 & c1 & E & -> & Ef & P1); [done|exact P|done|lia|lia|].
  unfold ws_read. rewrite E. cbn [obind]. apply Forall_app in F as [F1 F2].
  destruct (IH c1 fs2) as (fs3 & fs4 & c' & -> & -> & Ef2 & P2); [done|done|by eapply enough_app|].
  exists (fs1 ++ fs3), fs4, c'. split; [done|]. split; [by rewrite (assoc_L (++))|]. split; [by apply (effects_app fs1 fs3 _ (con_ws c1))|done].
Qed.

Lemma pending_end (c : wscon (Q := Q)) (fs : list frame) : Forall frame_ok fs -> pending c [] fs -> fs = [] /\ con_ws_handshake c = [] /\ con_ws_skip c = 0.
Proof.
  intros F [(S & E & W)|(S & _ & Le & _)]; [|cbn in Le; lia]. rewrite app_nil_r in E. destruct fs as [|f fs]; [by rewrite E|].
  inversion_clear F as [|? ? Fo _]. pose proof (need_bound f Fo) as [_ Ne]. unfold waiting in W. rewrite E in W. unfold stream in W. cbn [map concat] in W. rewrite length_app in W. lia.
Qed.
End Parse.

(** ** The receive queue of [ircd/dbuf.c] *)
Section Queue.
Context (BUFFERPOOL : Z) (FERGUSON_FLUSHER : bool) (flush_connections : pool -> pool).
Hypothesis flush_ok : forall p n, pool_ok p n -> pool_ok (flush_connections p) n.

Definition dbuf_queue_put (q : pool * DBuf) (buf : list ascii) : outcome (pool * DBuf * bool) :=
  dbuf_put BUFFERPOOL FERGUSON_FLUSHER flush_connections (fst q) (snd q) buf.
Definition dbuf_queue_ok (q : pool * DBuf) : Prop := dbuf_ok (snd q) /\ exists m, pool_ok (fst q) (m + length (dyn_bufs (snd q))).

Lemma dbuf_queue_spec (q : pool * DBuf) (buf : list ascii) : dbuf_queue_ok q -> (length buf <= queue_room BUFFERPOOL (fst q) (snd q))%nat ->
  Z.of_nat (length (contents (snd q)) + length buf) < 2 ^ 32 ->
  exists q', dbuf_queue_put q buf = Ok (q', true) /\ dbuf_queue_ok q' /\ contents (snd q') = contents (snd q) ++ buf /\
    (queue_room BUFFERPOOL (fst q') (snd q') + length buf = queue_room BUFFERPOOL (fst q) (snd q))%nat.
Proof.
  destruct q as [p d]. cbn [fst snd]. intros [O [m P]] R B. cbn [fst snd] in *. unfold dbuf_queue_put. cbn [fst snd].
  destruct (dbuf_put_room BUFFERPOOL FERGUSON_FLUSHER flush_connections p d buf O R) as (p' & d' & E & R').
  destruct (dbuf_put_appends BUFFERPOOL FERGUSON_FLUSHER flush_connections flush_ok p d buf m O P B) as (p2 & d2 & ok & E2 & O2 & P2 & C2).
  rewrite E in E2. injection E2 as <- <- <-. exists (p', d'). split; [done|]. split; [split; [done|by exists m]|]. split; [done|exact R'].
Qed.

#[global] Instance dbuf_recvq : RecvQueue (pool * DBuf) := {
  q_put := dbuf_queue_put; q_ok := dbuf_queue_ok; q_bytes := fun q => contents (snd q);
  q_room := fun q => queue_room BUFFERPOOL (fst q) (snd q); q_put_spec := dbuf_queue_spec
}.
End Queue.

(** ** Lines to the client *)

(** [while (linelen >= 2 && line[linelen - 2] == '\r' && line[linelen - 1] == '\n') linelen -= 2;] *)
Fixpoint strip_crlf (line : list ascii) (linelen : nat) : nat :=
  match linelen with
  | S (S n) => if (nth n line NUL =c ascii_of_nat 13) && (nth (S n) line NUL =c ascii_of_nat 10) then strip_crlf line n else linelen
  | _ => linelen
  end.

(** The frame as it is built on the stack; [None] when it is too long for one. *)
Definition build_frame (is_binary : bool) (line : list ascii) : outcome (option (list ascii)) :=
  let line := take (strip_crlf line (length line)) line in
  let sendbuf := if is_binary then line else sanitize_utf8 line WS_UTF8_OUT_MAX in
  let sendlen := Z.of_nat (length sendbuf) in
  let b0 := char_of (Z.lor 0x80 (if is_binary then 0x2 else 0x1)) in
  let header :=
    if sendlen <? 126 then Some [b0; char_of sendlen]
    else if sendlen <? 65536 then Some [b0; char_of 126; char_of (Z.land (Z.shiftr sendlen 8) 0xFF); char_of (Z.land sendlen 0xFF)]
    else None in
  match header with
  | None => Ok None
  | Some h => if (WS_FRAME_BUF_MAX <? length h + length sendbuf)%nat then Oob else Ok (Some (h ++ sendbuf))
  end.

Section Output.
Context (BUFFERPOOL : Z) (FERGUSON_FLUSHER : bool) (flush_connections : MQ -> MQ) (kill_highest_sendq : bool -> MQ -> MQ).

Definition websocket_frame_msgbuf (g : MQ) (is_binary : bool) (line : list ascii) : outcome (MQ * option bid) :=
  match line with
  | [] => Ok (g, None)
  | _ =>
      let* f := build_frame is_binary line in
      match f with
      | None => Ok (g, None)
      | Some frame =>
          let* (g, r) := msgq_raw_alloc BUFFERPOOL FERGUSON_FLUSHER flush_connections kill_highest_sendq g (Z.of_nat (length frame)) in
          match r with
          | None => Ok (g, None)
          | Some b =>
              let* mb := load g b in
              if bufsize mb <? Z.of_nat (length frame) then let* g := msgq_clean g b in Ok (g, None)
              else Ok (store g b (with_msg mb frame), Some b)
          end
      end
  end.
End Output.

(** What a client is to receive: an unmasked frame. *)
Definition server_frame (is_binary : bool) (payload : list ascii) : list ascii :=
  char_of (128 + if is_binary then 2 else 1) :: char_of (fst (length_field (Z.of_nat (length payload)))) ::
  snd (length_field (Z.of_nat (length payload))) ++ payload.

Lemma take_two (line : list ascii) (n : nat) : (S (S n) <= length line)%nat -> take (S (S n)) line = take n line ++ [nth n line NUL; nth (S n) line NUL].
Proof.
  intros L. destruct (nth_lookup_or_length line n NUL) as [E1|]; [|lia]. destruct (nth_lookup_or_length line (S n) NUL) as [E2|]; [|lia].
  by rewrite (take_S_r line (S n) _ E2), (take_S_r line n _ E1), <- (assoc_L (++)).
Qed.

Lemma strip_spec (line : list ascii) : forall m n, (n <= m)%nat -> (n <= length line)%nat ->
  let k := strip_crlf line n in (k <= n)%nat /\ (exists j, take n line = take k line ++ concat (repeat CRLF j)) /\ ~ exists b, take k line = b ++ CRLF.
Proof.
  assert (forall k, (k <= 1)%nat -> ~ exists b, take k line = b ++ CRLF) as Short.
  { intros k K (b & E). apply (f_equal length) in E. rewrite length_app, length_take in E. cbn [CRLF length] in E. lia. }
  induction m as [|m IH]; intros [|[|n]] Lm Ln; cbn [strip_crlf]; try lia; try (split; [lia|]; split; [exists O; by rewrite app_nil_r|apply Short; lia]).
  case_if.
  - reflect. destruct (IH n) as (K & (j & E) & N); [lia|lia|]. split; [lia|]. split; [|done]. exists (S j).
    rewrite take_two by done. rewrite H, H0. rewrite E, <- (assoc_L (++)). f_equal. cbn [repeat]. rewrite repeat_cons, concat_app. cbn [concat]. by rewrite app_nil_r.
  - split; [lia|]. split; [exists O; by rewrite app_nil_r|]. intros (b & E). rewrite take_two in E by done. apply app_inj_2 in E as [_ E]; [|done]. injection E as E1 E2. by rewrite E1, E2 in *.
Qed.

Lemma server_frame_length (is_binary : bool) (payload : list ascii) : (length (server_frame is_binary payload) <= 10 + length payload)%nat /\ (2 <= length (server_frame is_binary payload))%nat /\
  (Z.of_nat (length payload) < 65536 -> (length (server_frame is_binary payload) <= 4 + length payload)%nat).
Proof. unfold server_frame. cbn [length]. rewrite length_app. unfold length_field. repeat case_if; reflect; cbn [snd length]; lia. Qed.

(** The line without its line end, as it is sent. *)
Definition line_body (line : list ascii) : list ascii := take (strip_crlf line (length line)) line.
Definition line_payload (is_binary : bool) (line : list ascii) : list ascii :=
  if is_binary then line_body line else sanitize_utf8 (line_body line) WS_UTF8_OUT_MAX.

Lemma payload_length_bound (is_binary : bool) (line : list ascii) : (length line <= WS_LINE_MAX)%nat -> (length (line_payload is_binary line) <= WS_UTF8_OUT_MAX)%nat /\ Z.of_nat (length (line_payload is_binary line)) < 65536.
Proof.
  intros L. destruct (strip_spec line (length line) (length line)) as (K & _); [lia|lia|]. cbv zeta in K. assert (length (line_body line) <= length line)%nat as Lb by (unfold line_body; rewrite length_take; lia).
  assert (Z.of_nat WS_UTF8_OUT_MAX < 65536) by (vm_compute; reflexivity). unfold line_payload. destruct is_binary; [assert (WS_LINE_MAX <= WS_UTF8_OUT_MAX)%nat by (unfold WS_UTF8_OUT_MAX; lia); lia|].
  destruct (sanitize_spec (line_body line) WS_UTF8_OUT_MAX) as [[_ S] _]. lia.
Qed.

Lemma build_frame_spec (is_binary : bool) (line : list ascii) : (length line <= WS_LINE_MAX)%nat ->
  build_frame is_binary line = Ok (Some (server_frame is_binary (line_payload is_binary line))).
Proof.
  intros L. pose proof (payload_length_bound is_binary line L) as [B1 B2]. unfold build_frame. fold (line_body line). fold (line_payload is_binary line). cbv zeta.
  set (pl := line_payload is_binary line) in *. assert (Z.lor 0x80 (if is_binary then 0x2 else 0x1) = 128 + if is_binary then 2 else 1) as -> by by destruct is_binary.
  unfold server_frame, length_field. destruct (Z.ltb_spec (Z.of_nat (length pl)) 126); [|rewrite (proj2 (Z.ltb_lt _ 65536)) by done]; cbn [length fst snd app]; rewrite (proj2 (Nat.ltb_ge _ _)) by (unfold WS_FRAME_BUF_MAX; lia); [done|].
  change 0xFF with (Z.ones 8). rewrite !Z.land_ones by lia. rewrite Z.shiftr_div_pow2 by lia. change (2 ^ 8) with 256.
  rewrite (Z.mod_small (_ / 256)) by (split; [apply Z.div_pos; lia|apply Z.div_lt_upper_bound; lia]). done.
Qed.

Section Send.
Context (BUFFERPOOL : Z) (FERGUSON_FLUSHER : bool) (flush_connections : MQ -> MQ) (kill_highest_sendq : bool -> MQ -> MQ) (hs : list bid).
Hypothesis flush_ok : shrinks_queues hs flush_connections.
Hypothesis kill_ok : forall servers, shrinks_queues hs (kill_highest_sendq servers).

(** A buffer taken with [msgq_raw_alloc] and filled. *)
Lemma raw_message (g : MQ) (par : gmap bid bid) (qs : list bid) (t : list ascii) :
  Inv g par hs qs -> Z.of_nat (length (hs ++ qs)) + 1 < 2 ^ 32 - 2 -> 1 <= Z.of_nat (length t) <= 8192 ->
  exists g1 o, msgq_raw_alloc BUFFERPOOL FERGUSON_FLUSHER flush_connections kill_highest_sendq g (Z.of_nat (length t)) = Ok (g1, o) /\
    match o with
    | None => makes BUFFERPOOL hs g par qs t g1 None
    | Some b => exists mb, load g1 b = Ok mb /\ Z.of_nat (length t) <= bufsize mb /\ makes BUFFERPOOL hs g par qs t (store g1 b (with_msg mb t)) (Some b)
    end.
Proof.
  intros I Sz Mb. unfold msgq_raw_alloc. change (Z.shiftl 1 MB_MAX_SHIFT) with 8192. rewrite (proj2 (Z.ltb_ge _ _)) by lia.
  destruct (acquire BUFFERPOOL FERGUSON_FLUSHER flush_connections kill_highest_sendq hs flush_ok kill_ok g par qs (Z.of_nat (length t)) I) as (g1 & o & g0 & par0 & qs0 & -> & I0 & L0 & G & Room); [lia|].
  cbn [obind]. destruct o as [b|]; cycle 1.
  { exists g1, None. split; [done|]. split; [|cbn in G; subst; eauto]. destruct (decide (tot_bufsize g < BUFFERPOOL)) as [Rm|]; [by destruct (Room Rm)|lia]. }
  pose proof G as (_ & _ & _ & mb & E & _ & _ & Pw). destruct (power_for_ok _ Mb) as [_ Pl]. unfold load. rewrite E. cbn [obind]. eexists _, (Some b). split; [reflexivity|].
  exists (with_linked (with_msg mb []) true). split; [cbn; by rewrite lookup_insert_eq|]. split; [unfold bufsize; cbn; by rewrite Pw|].
  apply (got_makes BUFFERPOOL hs g g0 g1 _ par par0 qs qs0 (power_for (Z.of_nat (length t))) b); try done.
  intros mb' E'. assert (mb' = mb) as -> by congruence. unfold store, set_msglist, set_heap. cbn. f_equal. by rewrite insert_insert_eq.
Qed.

(** C36: a line becomes the one frame its client is to get: nothing is written behind the buffers
    on the stack, the payload is the line without its line ends, in text mode with every
    byte that is not part of a UTF-8 character replaced; a frame of more than 8192 bytes is
    refused, whatever memory there is. *)
Theorem websocket_line (g : MQ) (par : gmap bid bid) (qs : list bid) (is_binary : bool) (line : list ascii) :
  Inv g par hs qs -> Z.of_nat (length (hs ++ qs)) + 1 < 2 ^ 32 - 2 -> (1 <= length line <= WS_LINE_MAX)%nat ->
  exists body k payload g' o,
    line = body ++ concat (repeat CRLF k) /\ ~ (exists b, body = b ++ CRLF) /\
    (if is_binary then payload = body else reading body payload /\ valid_utf8 payload) /\
    websocket_frame_msgbuf BUFFERPOOL FERGUSON_FLUSHER flush_connections kill_highest_sendq g is_binary line = Ok (g', o) /\
    (if 8192 <? Z.of_nat (length (server_frame is_binary payload)) then g' = g /\ o = None
     else makes BUFFERPOOL hs g par qs (server_frame is_binary payload) g' o).
Proof.
  intros I Sz [L1 L2]. destruct (strip_spec line (length line) (length line)) as (K & (j & E) & N); [lia|lia|]. rewrite firstn_all in E. fold (line_body line) in E, N.
  set (pl := line_payload is_binary line). pose proof (server_frame_length is_binary pl) as (_ & Lo & _).
  assert (websocket_frame_msgbuf BUFFERPOOL FERGUSON_FLUSHER flush_connections kill_highest_sendq g is_binary line =
    let* (g, r) := msgq_raw_alloc BUFFERPOOL FERGUSON_FLUSHER flush_connections kill_highest_sendq g (Z.of_nat (length (server_frame is_binary pl))) in
    match r with
    | None => Ok (g, None)
    | Some b => let* mb := load g b in if bufsize mb <? Z.of_nat (length (server_frame is_binary pl)) then let* g := msgq_clean g b in Ok (g, None) else Ok (store g b (with_msg mb (server_frame is_binary pl)), Some b)
    end) as Ew by (unfold websocket_frame_msgbuf; rewrite (build_frame_spec is_binary line L2); destruct line; [cbn in L1; lia|done]).
  assert (if is_binary then pl = line_body line else reading (line_body line) pl /\ valid_utf8 pl) as Pl.
  { unfold pl, line_payload. destruct is_binary; [done|]. destruct (sanitize_spec (line_body line) WS_UTF8_OUT_MAX) as [[V _] R]. split; [|done]. apply R. unfold line_body. rewrite length_take. unfold WS_UTF8_OUT_MAX. lia. }
  assert (exists g' o, websocket_frame_msgbuf BUFFERPOOL FERGUSON_FLUSHER flush_connections kill_highest_sendq g is_binary line = Ok (g', o) /\
    (if 8192 <? Z.of_nat (length (server_frame is_binary pl)) then g' = g /\ o = None else makes BUFFERPOOL hs g par qs (server_frame is_binary pl) g' o)) as (g' & o & R).
  { rewrite Ew. destruct (Z.ltb_spec 8192 (Z.of_nat (length (server_frame is_binary pl)))) as [Big|Small].
    - exists g, None. unfold msgq_raw_alloc. change (Z.shiftl 1 MB_MAX_SHIFT) with 8192. by rewrite (proj2 (Z.ltb_lt _ _)) by lia.
    - destruct (raw_message g par qs (server_frame is_binary pl) I Sz) as (g1 & [b|] & -> & M); [lia| |by exists g1, None]. destruct M as (mb & Lm & Bs & M). cbn [obind]. rewrite Lm. cbn [obind].
      rewrite (proj2 (Z.ltb_ge _ _)) by lia. by eexists _, (Some b). }
  exists (line_body line), j, pl, g', o. done.
Qed.
End Send.

(** C10: however a stream of well-formed frames is cut into reads, every read returns and
    stays inside the frame buffer, the receive queue gets the first [READBUFSIZE] bytes of the
    payload of
    each data frame and a newline at the end of each message, every Ping of at most 125 bytes
    is answered with its
    own data, and nothing is left in the buffer behind the last frame.  Well-formed are all
    frames but Close with the shortest encoding of their length, a total length that is an
    [int], and, when they carry no data, a size that fits the buffer ([frame_ok]); the receive
    queue has to have room for what is delivered. *)
Theorem websocket_stream {Q : Type} `{!RecvQueue Q} (fd : Z) (fs : list frame) (reads : list (list ascii)) (q : Q) :
  Forall frame_ok fs -> concat reads = stream fs -> q_ok q -> (length (delivery fs) <= q_room q)%nat -> Z.of_nat (length (q_bytes q) + length (delivery fs)) < 2 ^ 32 ->
  exists q', ws_reads fd (WsCon (Ws q []) [] 0) reads = Ok (WsCon (Ws q' (answers fd fs)) [] 0, None) /\ q_ok q' /\ q_bytes q' = q_bytes q ++ delivery fs.
Proof.
  intros F E O R B. destruct (ws_reads_spec fd reads (WsCon (Ws q []) [] 0) fs) as (fs1 & fs2 & [[q' wr] hs skip] & Er & -> & (O' & Bq & _ & W) & P); [done| |done|].
  - left. cbn [con_ws_skip con_ws_handshake app]. split; [done|]. split; [done|]. destruct fs as [|f fs]; [done|]. inversion_clear F as [|? ? Fo _]. pose proof (need_bound f Fo). cbn [waiting length]. lia.
  - apply Forall_app in F as [_ F2]. destruct (pending_end _ _ F2 P) as (-> & Eh & Es). cbn in *. subst. rewrite app_nil_r in *. by exists q'.
Qed.

Definition ex_frames : list frame :=
  [Frame false 1 [1; 2; 3; 4] (cstr "NICK "); Frame true 9 [7; 7; 7; 7] (cstr "alive"); Frame true 0 [200; 0; 9; 255] (cstr "me")].

Lemma ex_frames_ok : Forall frame_ok ex_frames.
Proof.
  repeat (apply List.Forall_cons; [unfold frame_ok; cbn [f_opcode f_key]; split; [lia|]; split; [lia|]; split; [done|]; split; [repeat (apply List.Forall_cons; [lia|]); apply List.Forall_nil|];
    split; [vm_compute; reflexivity|]; intros _; apply Nat.leb_le; vm_compute; reflexivity|]). apply List.Forall_nil.
Qed.

Lemma websocket_stream_witness :
  exists q', ws_reads (Q := pool * DBuf) (RecvQueue0 := dbuf_recvq 100000 false id (fun p n H => H)) 5
      (WsCon (Ws (Pool 0 0 0, dbuf_empty) []) [] 0) [take 3 (stream ex_frames); take 15 (drop 3 (stream ex_frames)); drop 18 (stream ex_frames)] =
    Ok (WsCon (Ws q' [char_of 0x8A :: char_of 5 :: cstr "alive"]) [] 0, None) /\ contents (snd q') = cstr "NICK me" ++ [ascii_of_nat 10].
Proof.
  destruct (websocket_stream (Q := pool * DBuf) (RecvQueue0 := dbuf_recvq 100000 false id (fun p n H => H)) 5 ex_frames
    [take 3 (stream ex_frames); take 15 (drop 3 (stream ex_frames)); drop 18 (stream ex_frames)] (Pool 0 0 0, dbuf_empty)) as (q' & E & _ & B).
  - exact ex_frames_ok.
  - vm_compute. reflexivity.
  - split; [split; [constructor|]; split; [reflexivity|cbn; lia]|]. exists 0%nat. split; reflexivity.
  - apply Nat.leb_le. vm_compute. reflexivity.
  - vm_compute. reflexivity.
  - exists q'. split; [exact E|exact B].
Defined.

Lemma websocket_line_witness : exists payload g' o,
  websocket_frame_msgbuf POOL false (fun g => g) (fun _ g => g) demo_4.1 false (cstr "hi " ++ [char_of 255] ++ CRLF) = Ok (g', o) /\ valid_utf8 payload.
Proof.
  destruct demo_ok as (par & I & _).
  destruct (websocket_line POOL false (fun g => g) (fun _ g => g) [1%positive]) with (g := demo_4.1) (par := par) (qs := qrefs demo_4.2 ++ []) (is_binary := false) (line := cstr "hi " ++ [char_of 255] ++ CRLF)
    as (body & k & payload & g' & o & _ & _ & [_ V] & E & _).
  - intros g par0 qs I0. eauto.
  - intros _ g par0 qs I0. eauto.
  - exact I.
  - vm_compute. reflexivity.
  - cbn [length app cstr CRLF]. split; apply Nat.leb_le; vm_compute; reflexivity.
  - exists payload, g', o. split; [exact E|exact V].
Defined.

(** A line of 3000 bytes that are not UTF-8, such as a message with client tags can be, is
    refused although the line is no longer than lines may be. *)
Lemma tagged_line_refused : websocket_frame_msgbuf POOL false (fun g => g) (fun _ g => g) MQ_start false (replicate 3000 (char_of 255)) = Ok (MQ_start, None).
Proof. vm_compute. reflexivity. Qed.
