(* ===== verification/Reslib.v ===== *)
(** * Names in DNS messages: [ircd/ircd_reslib.c]

    A message is an array of bytes of which the first [eom] were received; a pointer into it
    is an index, and a read behind the array is [Oob].  Names in a message are specified by
    [name_at]: labels, bit-string labels (RFC 2673) and compression pointers, with the text
    [render] of their labels. *)

From stdpp Require Import base list strings.
From Stdlib Require Import ZArith Lia Ascii.
From S2P Require Import Prelude.

Local Open Scope ircu_scope.
Local Open Scope Z_scope.

Definition NS_CMPRSFLGS : Z := 0xc0.
Definition NS_TYPE_ELT : Z := 0x40.
Definition DNS_LABELTYPE_BITSTRING : Z := 0x41.
Definition NS_MAXCDNAME : nat := 255.

(** A [char] as it is promoted to [int]. *)
Definition schar (c : Z) : Z := if c <? 128 then c else c - 256.

Definition special (ch : Z) : bool := existsb (Z.eqb ch) [0x22; 0x2E; 0x3B; 0x5C; 0x28; 0x29; 0x40; 0x24].
Definition printable (ch : Z) : bool := (0x20 <? ch) && (ch <? 0x7f).

Definition labellen (mem : list ascii) (lp : nat) : outcome (option nat) :=
  let* l := rd mem lp in
  if Z.land l NS_CMPRSFLGS =? NS_CMPRSFLGS then Ok None
  else if Z.land l NS_CMPRSFLGS =? NS_TYPE_ELT then
    if l =? DNS_LABELTYPE_BITSTRING then
      let* bitlen := rd mem (lp + 1) in
      let bitlen := if bitlen =? 0 then 256 else bitlen in
      Ok (Some (Z.to_nat ((bitlen + 7) / 8 + 1)))
    else Ok None
  else Ok (Some (Z.to_nat (Z.land l 0x3f))).

(** [memcpy] out of the message *)
Fixpoint read_bytes (mem : list ascii) (p n : nat) : outcome (list ascii) :=
  match n with
  | O => Ok []
  | S n => let* c := rd mem p in let* r := read_bytes mem (S p) n in Ok (char_of c :: r)
  end.

(** ** From the message to a sequence of labels

    [dst] is what was written to the buffer of [dstsiz] bytes.  Every turn writes a label or
    adds to [checked], so that [dstsiz + eom + 1] turns are enough. *)
Fixpoint unpack_loop (fuel : nat) (mem : list ascii) (eom src srcp : nat) (dst : list ascii) (dstsiz : nat) (len : option nat) (checked : nat)
    : outcome (option (list ascii * nat)) :=
  match fuel with
  | O => Fuel
  | S fuel =>
      let* n := rd mem srcp in
      let srcp := S srcp in
      if n =? 0 then
        if (dstsiz <=? length dst)%nat then Oob
        else Ok (Some (dst ++ [NUL], match len with Some l => l | None => (srcp - src)%nat end))
      else
        let flags := Z.land n NS_CMPRSFLGS in
        if (flags =? 0) || (flags =? NS_TYPE_ELT) then
          let* r := labellen mem (srcp - 1) in
          match r with
          | None => Ok None
          | Some l =>
              if (dstsiz <=? length dst + l + 1)%nat || (eom <=? srcp + l)%nat then Ok None
              else
                let* s := read_bytes mem srcp l in
                unpack_loop fuel mem eom src (srcp + l) (dst ++ char_of n :: s) dstsiz len (checked + l + 1)
          end
        else if flags =? NS_CMPRSFLGS then
          if (eom <=? srcp)%nat then Ok None
          else
            let len := match len with None => Some (srcp - src + 1)%nat | l => l end in
            let* lo := rd mem srcp in
            let srcp := Z.to_nat (Z.lor (Z.shiftl (Z.land n 0x3f) 8) (Z.land lo 0xff)) in
            if (eom <=? srcp)%nat then Ok None
            else
              let checked := (checked + 2)%nat in
              if (eom <=? checked)%nat then Ok None
              else unpack_loop fuel mem eom src srcp dst dstsiz len checked
        else Ok None
  end.

Definition irc_ns_name_unpack (mem : list ascii) (eom src dstsiz : nat) : outcome (option (list ascii * nat)) :=
  if (eom <=? src)%nat then Ok None else unpack_loop (S (dstsiz + eom)) mem eom src src [] dstsiz None 0.

(** ** From labels to text *)

(** [%02x], [%1x] and [%d] for the values that occur *)
Definition hexd (v : Z) : ascii := nth (Z.to_nat v) (cstr "0123456789abcdef") NUL.
Definition digit (v : Z) : ascii := nth (Z.to_nat v) (cstr "0123456789") NUL.
Definition fmt_02x (v : Z) : list ascii := (if 256 <=? v then [hexd (v / 256)] else []) ++ [hexd (v / 16 mod 16); hexd (v mod 16)].
Definition fmt_d (v : Z) : list ascii :=
  (if 100 <=? v then [digit (v / 100)] else []) ++ (if 10 <=? v then [digit (v / 10 mod 10)] else []) ++ [digit (v mod 10)].

(** The digits of [b] bits from [cp] on, and where they end. *)
Fixpoint bits_loop (fuel : nat) (src : list ascii) (cp : nat) (b : Z) (dn : list ascii) : outcome (nat * list ascii) :=
  match fuel with
  | O => Fuel
  | S fuel =>
      if 7 <? b then let* c := rd src cp in bits_loop fuel src (S cp) (b - 8) (dn ++ fmt_02x c)
      else if 4 <? b then let* c := rd src cp in Ok (S cp, dn ++ fmt_02x (Z.land (schar c) (Z.shiftl 0xff (8 - b))))
      else if 0 <? b then let* c := rd src cp in Ok (S cp, dn ++ [hexd (Z.land (Z.land (Z.shiftr (schar c) 4) 0x0f) (Z.shiftl 0x0f (4 - b)))])
      else Ok (cp, dn)
  end.

Definition irc_decode_bitstring (src : list ascii) (cp : nat) (dn : list ascii) (eom : nat) : outcome (option (nat * list ascii)) :=
  let* c := rd src cp in
  let blen := if c =? 0 then 256 else c in
  let plen := (blen + 3) / 4 + 6 + (if 99 <? blen then 3 else if 9 <? blen then 2 else 1) in
  if Z.of_nat eom <=? Z.of_nat (length dn) + plen then Ok None
  else
    let* (cp, dn) := bits_loop 33 src (S cp) blen (dn ++ cstr "\[x") in
    let dn := dn ++ cstr "/" ++ fmt_d blen ++ cstr "]" in
    if (eom <=? length dn)%nat then Oob else Ok (Some (cp, dn)).

(** The characters of a label *)
Definition quoted (c : Z) : list ascii :=
  if special c then ["\"%char; char_of c]
  else if negb (printable c) then ["\"%char; digit (c / 100); digit (c mod 100 / 10); digit (c mod 10)]
  else [char_of c].

Fixpoint ntop_chars (l : nat) (src : list ascii) (cp : nat) (dn : list ascii) (eom : nat) : outcome (option (nat * list ascii)) :=
  match l with
  | O => Ok (Some (cp, dn))
  | S l =>
      let* c := rd src cp in
      let cp := S cp in
      if special c then
        if (eom <=? length dn + 1)%nat then Ok None else ntop_chars l src cp (dn ++ ["\"%char; char_of c]) eom
      else if negb (printable c) then
        if (eom <=? length dn + 3)%nat then Ok None
        else ntop_chars l src cp (dn ++ ["\"%char; digit (c / 100); digit (c mod 100 / 10); digit (c mod 10)]) eom
      else if (eom <=? length dn)%nat then Ok None
      else ntop_chars l src cp (dn ++ [char_of c]) eom
  end.

(** The text, without its terminator.  Every turn takes a byte of [src]. *)
Fixpoint ntop_loop (fuel : nat) (src : list ascii) (cp : nat) (dn : list ascii) (eom : nat) : outcome (option (list ascii)) :=
  match fuel with
  | O => Fuel
  | S fuel =>
      let* n := rd src cp in
      let cp := S cp in
      if n =? 0 then
        let* dn := match dn with [] => Ok (if (eom <=? 0)%nat then None else Some ["."%char]) | _ => Ok (Some dn) end in
        match dn with
        | None => Ok None
        | Some dn => if (eom <=? length dn)%nat then Ok None else Ok (Some dn)
        end
      else if Z.land n NS_CMPRSFLGS =? NS_CMPRSFLGS then Ok None
      else
        let dot := match dn with [] => Some [] | _ => if (eom <=? length dn)%nat then None else Some (dn ++ ["."%char]) end in
        match dot with
        | None => Ok None
        | Some dn =>
            let* r := labellen src (cp - 1) in
            match r with
            | None => Ok None
            | Some l =>
                if (eom <=? length dn + l)%nat then Ok None
                else
                  let* r := if Z.land n NS_CMPRSFLGS =? NS_TYPE_ELT
                            then if negb (n =? DNS_LABELTYPE_BITSTRING) then Ok None else irc_decode_bitstring src cp dn eom
                            else ntop_chars l src cp dn eom in
                  match r with
                  | None => Ok None
                  | Some (cp, dn) => ntop_loop fuel src cp dn eom
                  end
            end
        end
  end.

Definition irc_ns_name_ntop (src : list ascii) (dstsiz : nat) : outcome (option (list ascii)) := ntop_loop (S (length src)) src 0 [] dstsiz.

Definition irc_ns_name_uncompress (mem : list ascii) (eom src dstsiz : nat) : outcome (option (list ascii * nat)) :=
  let* r := irc_ns_name_unpack mem eom src NS_MAXCDNAME in
  match r with
  | None => Ok None
  | Some (tmp, n) =>
      let* t := irc_ns_name_ntop tmp dstsiz in
      match t with None => Ok None | Some dst => Ok (Some (dst, n)) end
  end.

(** The text and the length of the name in the message; [None] is -1. *)
Definition irc_dn_expand (mem : list ascii) (eom src dstsiz : nat) : outcome (option (list ascii * nat)) :=
  let* r := irc_ns_name_uncompress mem eom src dstsiz in
  match r with
  | None => Ok None
  | Some (dst, n) => Ok (Some (if (0 <? n)%nat && (deref dst =c ".") then [] else dst, n))
  end.

(** ** Skipping a name *)
Fixpoint skip_loop (fuel : nat) (mem : list ascii) (eom cp : nat) : outcome (option nat) :=
  match fuel with
  | O => Fuel
  | S fuel =>
      let finish cp := Ok (if (eom <? cp)%nat then None else Some cp) in
      if (cp <? eom)%nat then
        let* n := rd mem cp in
        let cp := S cp in
        if n =? 0 then finish cp
        else
          let flags := Z.land n NS_CMPRSFLGS in
          if flags =? 0 then skip_loop fuel mem eom (cp + Z.to_nat n)
          else if flags =? NS_TYPE_ELT then
            let* r := labellen mem (cp - 1) in
            match r with None => Ok None | Some l => skip_loop fuel mem eom (cp + l) end
          else if flags =? NS_CMPRSFLGS then finish (S cp)
          else Ok None
      else finish cp
  end.

Definition irc_ns_name_skip (mem : list ascii) (eom ptr : nat) : outcome (option nat) := skip_loop (S eom) mem eom ptr.

Definition irc_dn_skipname (mem : list ascii) (eom ptr : nat) : outcome (option nat) :=
  let* r := irc_ns_name_skip mem eom ptr in
  Ok (match r with None => None | Some p => Some (p - ptr)%nat end).

(** ** Names *)
Inductive label : Type := Chars (s : list ascii) | Bits (count : Z) (s : list ascii).

Definition bit_length (count : Z) : Z := if count =? 0 then 256 else count.
Definition wire (lb : label) : list ascii :=
  match lb with
  | Chars s => char_of (Z.of_nat (length s)) :: s
  | Bits count s => char_of DNS_LABELTYPE_BITSTRING :: char_of count :: s
  end.
Definition wires (ls : list label) : list ascii := concat (map wire ls).
Definition label_ok (lb : label) : Prop :=
  match lb with
  | Chars s => (1 <= length s <= 63)%nat
  | Bits count s => 0 <= count < 256 /\ Z.of_nat (length s) = (bit_length count + 7) / 8
  end.

(** [name_at mem eom p ls k]: the name at [p] has the labels [ls]; reading it looks at [k]
    bytes of labels and pointers. *)
Inductive name_at (mem : list ascii) (eom : nat) : nat -> list label -> nat -> Prop :=
| name_end (p : nat) : (p < eom)%nat -> mem !! p = Some NUL -> name_at mem eom p [] 0
| name_label (p : nat) (lb : label) (ls : list label) (k : nat) : label_ok lb -> take (length (wire lb)) (drop p mem) = wire lb ->
    name_at mem eom (p + length (wire lb)) ls k -> name_at mem eom p (lb :: ls) (k + length (wire lb))
| name_pointer (p : nat) (hi : Z) (lo : ascii) (ls : list label) (k : nat) : 0 <= hi < 64 -> (S p < eom)%nat ->
    mem !! p = Some (char_of (NS_CMPRSFLGS + hi)) -> mem !! S p = Some lo ->
    name_at mem eom (Z.to_nat (hi * 256 + uchar lo)) ls k -> name_at mem eom p ls (k + 2).

(** The text of a name. *)
Fixpoint bits_text (b : Z) (s : list ascii) : list ascii :=
  match s with
  | [] => []
  | x :: s =>
      if 7 <? b then fmt_02x (uchar x) ++ bits_text (b - 8) s
      else if 4 <? b then fmt_02x (Z.land (schar (uchar x)) (Z.shiftl 0xff (8 - b)))
      else if 0 <? b then [hexd (Z.land (Z.land (Z.shiftr (schar (uchar x)) 4) 0x0f) (Z.shiftl 0x0f (4 - b)))]
      else []
  end.
Definition label_text (lb : label) : list ascii :=
  match lb with
  | Chars s => concat (map (fun c => quoted (uchar c)) s)
  | Bits count s => cstr "\[x" ++ bits_text (bit_length count) s ++ cstr "/" ++ fmt_d (bit_length count) ++ cstr "]"
  end.
(** The labels behind a text, with dots between them. *)
Fixpoint with_labels (dn : list ascii) (ls : list label) : list ascii :=
  match ls with
  | [] => dn
  | lb :: ls => with_labels (match dn with [] => [] | _ => dn ++ ["."%char] end ++ label_text lb) ls
  end.
Definition render (ls : list label) : list ascii := with_labels [] ls.

(** ** The bits of a length byte *)
Lemma byte_kind (c : ascii) : let n := uchar c in let f := Z.land n NS_CMPRSFLGS in
  ((f =? 0) = (n <? 64)) /\ ((f =? NS_TYPE_ELT) = (64 <=? n) && (n <? 128)) /\ ((f =? NS_CMPRSFLGS) = (192 <=? n)) /\ Z.land n 0x3f = n mod 64.
Proof.
  cbv zeta. assert ((Bool.eqb (Z.land (uchar c) NS_CMPRSFLGS =? 0) (uchar c <? 64) && Bool.eqb (Z.land (uchar c) NS_CMPRSFLGS =? NS_TYPE_ELT) ((64 <=? uchar c) && (uchar c <? 128)) &&
    Bool.eqb (Z.land (uchar c) NS_CMPRSFLGS =? NS_CMPRSFLGS) (192 <=? uchar c) && (Z.land (uchar c) 0x3f =? uchar c mod 64)) = true) as A
    by (apply (forall_chars (fun c => Bool.eqb (Z.land (uchar c) NS_CMPRSFLGS =? 0) (uchar c <? 64) && Bool.eqb (Z.land (uchar c) NS_CMPRSFLGS =? NS_TYPE_ELT) ((64 <=? uchar c) && (uchar c <? 128)) &&
    Bool.eqb (Z.land (uchar c) NS_CMPRSFLGS =? NS_CMPRSFLGS) (192 <=? uchar c) && (Z.land (uchar c) 0x3f =? uchar c mod 64))); vm_compute; reflexivity).
  rewrite !andb_true_iff in A. destruct A as [[[A1%eqb_prop A2%eqb_prop] A3%eqb_prop] A4%Z.eqb_eq]. done.
Qed.

Lemma bytes_bounds (count : Z) : 0 <= count < 256 -> 1 <= bit_length count <= 256 /\ 1 <= (bit_length count + 7) / 8 <= 32.
Proof. intros H. unfold bit_length. assert (forall b, 1 <= b <= 256 -> 1 <= (b + 7) / 8 <= 32) as A by (intros; Z.to_euclidean_division_equations; lia). case_if; reflect; split; try apply A; lia. Qed.

Lemma wire_bounds (lb : label) : label_ok lb -> (2 <= length (wire lb) <= 64)%nat.
Proof. destruct lb as [s|count s]; cbn [label_ok wire length]; [lia|]. intros [B L]. pose proof (bytes_bounds count B). lia. Qed.

(** [labellen] gives the length of the label behind its first byte. *)
Lemma labellen_wire (mem : list ascii) (p : nat) (lb : label) : label_ok lb -> take (length (wire lb)) (drop p mem) = wire lb -> labellen mem p = Ok (Some (length (wire lb) - 1)%nat).
Proof.
  intros Ok_ E. assert (forall i, (i < length (wire lb))%nat -> mem !! (p + i)%nat = wire lb !! i) as Lk by (intros i Hi; rewrite <- E, lookup_take_lt, lookup_drop by done; done).
  pose proof (wire_bounds lb Ok_) as Wb. pose proof (Lk O ltac:(lia)) as L0. pose proof (Lk 1%nat ltac:(lia)) as L1. rewrite Nat.add_0_r in L0. unfold labellen, rd. rewrite L0, L1. destruct lb as [s|count s]; cbn [wire lookup list_lookup length label_ok] in *.
  - cbn [obind]. destruct (byte_kind (char_of (Z.of_nat (length s)))) as (_ & K2 & K3 & K4). rewrite uchar_char_of in * by lia. rewrite K2, K3, K4.
    rewrite (proj2 (Z.leb_gt 192 _)), (proj2 (Z.leb_gt 64 _)) by lia. cbn [andb]. rewrite Z.mod_small by lia. f_equal. f_equal. lia.
  - cbn [obind]. destruct Ok_ as [B L]. pose proof (bytes_bounds count B). rewrite !uchar_char_of by (unfold DNS_LABELTYPE_BITSTRING; lia).
    change (Z.land DNS_LABELTYPE_BITSTRING NS_CMPRSFLGS =? NS_CMPRSFLGS) with false. change (Z.land DNS_LABELTYPE_BITSTRING NS_CMPRSFLGS =? NS_TYPE_ELT) with true. rewrite Z.eqb_refl. cbn iota. fold (bit_length count). f_equal. f_equal. lia.
Qed.

Lemma read_bytes_spec (mem : list ascii) (n : nat) : forall p, (p + n <= length mem)%nat -> read_bytes mem p n = Ok (take n (drop p mem)).
Proof.
  induction n as [|n IH]; intros p L; [done|]. cbn [read_bytes]. unfold rd. destruct (lookup_lt_is_Some_2 mem p) as [c Ec]; [lia|]. rewrite Ec. cbn [obind]. rewrite IH by lia. cbn [obind].
  rewrite (drop_S mem c p Ec). cbn [firstn]. by rewrite char_of_uchar.
Qed.

Lemma wire_head (lb : label) : label_ok lb -> exists c s, wire lb = c :: s /\ uchar c <> 0 /\ uchar c < 128 /\
  (Z.land (uchar c) NS_CMPRSFLGS =? NS_TYPE_ELT) = match lb with Chars _ => false | Bits _ _ => true end /\ match lb with Chars _ => True | Bits _ _ => uchar c = DNS_LABELTYPE_BITSTRING end.
Proof.
  destruct lb as [s|count s]; cbn [label_ok wire]; intros H; eexists _, _; (split; [reflexivity|]).
  - destruct (byte_kind (char_of (Z.of_nat (length s)))) as (_ & K2 & _). rewrite uchar_char_of in * by lia. rewrite K2, (proj2 (Z.leb_gt 64 _)) by lia. split; [lia|]. split; [lia|done].
  - done.
Qed.

Lemma name_at_lt (mem : list ascii) (eom p k : nat) (ls : list label) : name_at mem eom p ls k -> (p < eom)%nat.
Proof. induction 1; lia. Qed.

Lemma name_at_labels (mem : list ascii) (eom p k : nat) (ls : list label) : name_at mem eom p ls k -> Forall label_ok ls.
Proof. induction 1; auto. Qed.

Section Message.
Context (mem : list ascii) (eom : nat).
(** One byte behind the message can be read. *)
Hypothesis slack : (eom < length mem)%nat.

Lemma labellen_total (p : nat) : (S p < length mem)%nat -> exists r, labellen mem p = Ok r.
Proof.
  intros L. unfold labellen, rd. destruct (lookup_lt_is_Some_2 mem p) as [c ->]; [lia|]. destruct (lookup_lt_is_Some_2 mem (p + 1)) as [c2 ->]; [lia|]. cbn [obind]. repeat case_if; eauto.
Qed.

(** Where a label begins there is one. *)
Lemma label_at (p l : nat) (c : ascii) : mem !! p = Some c -> uchar c <> 0 -> uchar c < 128 -> labellen mem p = Ok (Some l) -> (p + 1 + l <= length mem)%nat ->
  exists lb, label_ok lb /\ take (S l) (drop p mem) = wire lb /\ length (wire lb) = S l.
Proof.
  intros E N0 N8 Ll Le. pose proof (uchar_bounds c). destruct (byte_kind c) as (_ & K2 & K3 & K4). unfold labellen, rd in Ll. rewrite E in Ll. cbn [obind] in Ll. rewrite K2, K3, K4 in Ll.
  rewrite (proj2 (Z.leb_gt 192 _)) in Ll by lia. rewrite (drop_S mem c p E). cbn [firstn]. destruct (Z.leb_spec 64 (uchar c)) as [G|G]; cbn [andb] in Ll.
  - rewrite (proj2 (Z.ltb_lt _ 128)) in Ll by lia. destruct (Z.eqb_spec (uchar c) DNS_LABELTYPE_BITSTRING) as [Eb|]; [|done].
    destruct (mem !! (p + 1)%nat) as [c2|] eqn:E2; [|done]. cbn [obind] in Ll. injection Ll as <-. fold (bit_length (uchar c2)) in *. pose proof (uchar_bounds c2) as B2. pose proof (bytes_bounds _ B2) as [_ B3].
    set (nb := Z.to_nat ((bit_length (uchar c2) + 7) / 8)) in *. replace (Z.to_nat ((bit_length (uchar c2) + 7) / 8 + 1)) with (S nb) in * by lia.
    rewrite Nat.add_1_r in E2. rewrite (drop_S mem c2 (S p) E2). cbn [firstn]. exists (Bits (uchar c2) (take nb (drop (S (S p)) mem))).
    assert (length (take nb (drop (S (S p)) mem)) = nb) as Ln by (rewrite length_take, length_drop; lia). cbn [label_ok wire length]. rewrite Ln. split; [split; [done|lia]|]. split; [|done].
    rewrite <- Eb, !char_of_uchar. done.
  - injection Ll as <-. rewrite Z.mod_small in * by lia. exists (Chars (take (Z.to_nat (uchar c)) (drop (S p) mem))).
    assert (length (take (Z.to_nat (uchar c)) (drop (S p) mem)) = Z.to_nat (uchar c)) as Ln by (rewrite length_take, length_drop; lia). cbn [label_ok wire length]. rewrite Ln. split; [lia|]. split; [|done].
    rewrite Z2Nat.id by lia. by rewrite char_of_uchar.
Qed.

(** Skipping a label. *)
Lemma skip_label (f p l : nat) (c : ascii) : mem !! p = Some c -> uchar c <> 0 -> uchar c < 128 -> labellen mem p = Ok (Some l) -> (p < eom)%nat ->
  skip_loop (S f) mem eom p = skip_loop f mem eom (S p + l).
Proof.
  intros E N0 N8 Ll Lp. pose proof (uchar_bounds c). destruct (byte_kind c) as (K1 & K2 & K3 & K4). cbn [skip_loop]. rewrite (proj2 (Nat.ltb_lt _ _) Lp). unfold rd. rewrite E. cbn [obind].
  rewrite (proj2 (Z.eqb_neq _ 0) N0), K1, K2. destruct (Z.ltb_spec (uchar c) 64) as [G|G].
  - unfold labellen, rd in Ll. rewrite E in Ll. cbn [obind] in Ll. rewrite K2, K3, K4 in Ll. rewrite (proj2 (Z.leb_gt 192 _)), (proj2 (Z.leb_gt 64 _)) in Ll by lia. cbn [andb] in Ll. injection Ll as <-. by rewrite Z.mod_small by lia.
  - rewrite (proj2 (Z.leb_le 64 _)), (proj2 (Z.ltb_lt _ 128)) by lia. cbn [andb]. replace (S p - 1)%nat with p by lia. by rewrite Ll.
Qed.

Lemma skip_end (f p : nat) (c : ascii) : mem !! p = Some c -> uchar c = 0 -> (p < eom)%nat -> skip_loop (S f) mem eom p = Ok (Some (S p)).
Proof. intros E E0 Lp. cbn [skip_loop]. rewrite (proj2 (Nat.ltb_lt _ _) Lp). unfold rd. rewrite E. cbn [obind]. rewrite E0. cbn [Z.eqb]. by rewrite (proj2 (Nat.ltb_ge _ _)) by lia. Qed.

Lemma skip_pointer (f p : nat) (c : ascii) : mem !! p = Some c -> 192 <= uchar c -> (S p < eom)%nat -> skip_loop (S f) mem eom p = Ok (Some (S (S p))).
Proof.
  intros E L9 Lp. destruct (byte_kind c) as (K1 & K2 & K3 & _). cbn [skip_loop]. rewrite (proj2 (Nat.ltb_lt p _)) by lia. unfold rd. rewrite E. cbn [obind]. rewrite (proj2 (Z.eqb_neq _ 0)) by lia.
  rewrite K1, K2, K3, (proj2 (Z.ltb_ge _ 64)), (proj2 (Z.ltb_ge _ 128)), (proj2 (Z.leb_le 192 _)), andb_false_r by lia. by rewrite (proj2 (Nat.ltb_ge _ _)) by lia.
Qed.

Definition field_end (src srcp n : nat) : Prop :=
  (src <= srcp)%nat -> (src + n <= eom)%nat /\ (srcp < src + n)%nat /\ forall f, (eom - srcp < f)%nat -> skip_loop f mem eom srcp = Ok (Some (src + n)%nat).

Lemma pointer_value (c : ascii) (lo : Z) : 192 <= uchar c -> 0 <= lo < 256 -> Z.lor (Z.shiftl (Z.land (uchar c) 0x3f) 8) (Z.land lo 0xff) = (uchar c - 192) * 256 + lo.
Proof.
  intros H Hl. pose proof (uchar_bounds c). destruct (byte_kind c) as (_ & _ & _ & ->). change 0xff with (Z.ones 8). rewrite Z.land_ones by lia. change (2 ^ 8) with 256. rewrite (Z.mod_small lo) by lia.
  rewrite Z.shiftl_mul_pow2 by lia. rewrite lor_low by (change (2 ^ 8) with 256; lia). change (2 ^ 8) with 256. replace (uchar c) with (uchar c - 192 + 3 * 64) at 1 by lia. rewrite Z.mod_add by lia. rewrite Z.mod_small by lia. done.
Qed.

(** Unpacking returns, and what it returns is a name of the message. *)
Lemma unpack_loop_spec (src dstsiz fuel : nat) : forall srcp dst len checked, (srcp < eom)%nat -> (length dst < dstsiz)%nat -> (dstsiz - length dst + (eom - checked) < fuel)%nat ->
  exists r, unpack_loop fuel mem eom src srcp dst dstsiz len checked = Ok r /\
    match r with
    | None => True
    | Some (tmp, n) => exists ls k, name_at mem eom srcp ls k /\ Forall label_ok ls /\ tmp = dst ++ wires ls ++ [NUL] /\ (length tmp <= dstsiz)%nat /\
        match len with Some l => n = l | None => field_end src srcp n end
    end.
Proof.
  induction fuel as [|fuel IH]; intros srcp dst len checked Ls Ld Fu; [lia|]. cbn [unpack_loop]. unfold rd at 1.
  destruct (lookup_lt_is_Some_2 mem srcp) as [c Ec]; [lia|]. rewrite Ec. cbn [obind]. cbv zeta. pose proof (uchar_bounds c) as Bc. destruct (byte_kind c) as (K1 & K2 & K3 & _).
  destruct (Z.eqb_spec (uchar c) 0) as [E0|N0].
  { rewrite (proj2 (Nat.leb_gt _ _)) by lia. eexists. split; [reflexivity|]. cbn beta iota. exists [], 0%nat. split; [apply name_end; [done|]; rewrite Ec; f_equal; apply (f_equal char_of) in E0; by rewrite char_of_uchar in E0|].
    split; [constructor|]. split; [done|]. split; [rewrite length_app; cbn [length]; lia|]. destruct len; [done|]. unfold field_end. intros Hs. replace (src + (S srcp - src))%nat with (S srcp) by lia.
    split; [lia|]. split; [lia|]. intros [|f] Hf; [lia|]. by apply (skip_end f srcp c). }
  rewrite K1, K2, K3. replace (S srcp - 1)%nat with srcp by lia. destruct (Z.ltb_spec (uchar c) 128) as [L8|L8].
  - replace ((uchar c <? 64) || (64 <=? uchar c) && true) with true by (destruct (Z.ltb_spec (uchar c) 64); [done|]; by rewrite (proj2 (Z.leb_le 64 _)) by lia).
    destruct (labellen_total srcp) as [r El]; [lia|]. rewrite El. cbn [obind]. destruct r as [l|]; [|by exists None]. destruct (Nat.leb_spec dstsiz (length dst + l + 1)) as [|Ld2]; [by exists None|].
    destruct (Nat.leb_spec eom (S srcp + l)) as [|Le]; [by exists None|]. cbn [orb]. rewrite read_bytes_spec by lia. cbn [obind]. rewrite char_of_uchar.
    destruct (label_at srcp l c Ec N0 L8 El) as (lb & Lo & Ew & Lw); [lia|]. pose proof Ew as Ew2. rewrite (drop_S mem c srcp Ec) in Ew2. cbn [firstn] in Ew2. rewrite Ew2.
    destruct (IH (S srcp + l)%nat (dst ++ wire lb) len (checked + l + 1)%nat) as (r & -> & R); [lia|rewrite length_app, Lw; lia|rewrite length_app, Lw; lia|].
    eexists. split; [reflexivity|]. destruct r as [[tmp n]|]; [|done]. destruct R as (ls & k & Na & F & -> & Lt & Fe). exists (lb :: ls), (k + length (wire lb))%nat.
    split; [apply name_label; [done|by rewrite Lw|rewrite Lw; by replace (srcp + S l)%nat with (S srcp + l)%nat by lia]|]. split; [by constructor|]. unfold wires. cbn [map concat]. split; [by rewrite <- !(assoc_L (++))|]. split; [done|].
    destruct len; [done|]. intros Hs. destruct Fe as (F1 & F2 & F3); [lia|]. split; [done|]. split; [lia|]. intros [|f] Hf; [lia|]. rewrite (skip_label f srcp l c Ec N0 L8 El Ls). apply F3. lia.
  - rewrite (proj2 (Z.ltb_ge _ 64)) by lia. rewrite andb_false_r. cbn [orb]. destruct (Z.leb_spec 192 (uchar c)) as [L9|L9]; [|by exists None].
    destruct (Nat.leb_spec eom (S srcp)) as [|Le]; [by exists None|]. unfold rd. destruct (lookup_lt_is_Some_2 mem (S srcp)) as [lo Elo]; [lia|]. rewrite Elo. cbn [obind]. pose proof (uchar_bounds lo) as Bl. rewrite pointer_value by done.
    set (q := Z.to_nat ((uchar c - 192) * 256 + uchar lo)). destruct (Nat.leb_spec eom q) as [|Lq]; [by exists None|]. destruct (Nat.leb_spec eom (checked + 2)) as [|Lc]; [by exists None|].
    destruct (IH q dst (match len with None => Some (S srcp - src + 1)%nat | _ => len end) (checked + 2)%nat) as (r & E & R); [done|done|lia|].
    replace (match len with Some l => Some l | None => Some (S srcp - src + 1)%nat end) with (match len with None => Some (S srcp - src + 1)%nat | _ => len end) by by destruct len. rewrite E.
    eexists. split; [reflexivity|]. destruct r as [[tmp n]|]; [|done]. destruct R as (ls & k & Na & F & -> & Lt & Fe). exists ls, (k + 2)%nat.
    split; [apply (name_pointer mem eom srcp (uchar c - 192) lo); [lia|lia| |done|exact Na]; rewrite Ec; unfold NS_CMPRSFLGS; replace (0xc0 + (uchar c - 192)) with (uchar c) by lia; by rewrite char_of_uchar|].
    split; [done|]. split; [done|]. split; [done|]. destruct len; [done|]. subst n. intros Hs. replace (src + (S srcp - src + 1))%nat with (S (S srcp)) by lia. split; [lia|]. split; [lia|].
    intros [|f] Hf; [lia|]. by apply (skip_pointer f srcp c).
Qed.
(** A name that is not too long is found. *)
Lemma unpack_complete (src dstsiz : nat) (p k : nat) (ls : list label) : name_at mem eom p ls k ->
  forall fuel dst len checked, (k < fuel)%nat -> (checked + k < eom)%nat -> (length dst + length (wires ls) < dstsiz)%nat ->
  exists n, unpack_loop fuel mem eom src p dst dstsiz len checked = Ok (Some (dst ++ wires ls ++ [NUL], n)).
Proof.
  induction 1 as [p Lp E|p lb ls k Lo E Na IH|p hi lo ls k Hh Lp E Elo Na IH]; intros fuel dst len checked Fu Ck Ld; (destruct fuel as [|fuel]; [lia|]); cbn [unpack_loop]; cbv zeta.
  - unfold rd. rewrite E. cbn [obind]. change (uchar NUL =? 0) with true. cbn iota. cbn in Ld. rewrite (proj2 (Nat.leb_gt _ _)) by lia. eauto.
  - destruct (wire_head lb Lo) as (c & s & Ew & N0 & N8 & _). pose proof (wire_bounds lb Lo) as Wb. assert (mem !! p = Some c) as Ec.
    { rewrite <- (Nat.add_0_r p), <- lookup_drop. rewrite <- (lookup_take_lt (drop p mem) (length (wire lb)) 0) by lia. by rewrite E, Ew. }
    pose proof (name_at_lt _ _ _ _ _ Na) as Ln. unfold rd at 1. rewrite Ec. cbn [obind]. destruct (byte_kind c) as (K1 & K2 & _). rewrite (proj2 (Z.eqb_neq _ 0) N0), K1, K2, (proj2 (Z.ltb_lt _ 128) N8).
    replace ((uchar c <? 64) || (64 <=? uchar c) && true) with true by (destruct (Z.ltb_spec (uchar c) 64); [done|]; by rewrite (proj2 (Z.leb_le 64 _)) by lia).
    replace (S p - 1)%nat with p by lia. rewrite (labellen_wire mem p lb Lo E). cbn [obind]. unfold wires in Ld. cbn [map concat] in Ld. rewrite length_app in Ld. fold (wires ls) in Ld.
    rewrite (proj2 (Nat.leb_gt dstsiz _)), (proj2 (Nat.leb_gt eom _)) by lia. cbn [orb]. rewrite read_bytes_spec by lia. cbn [obind]. rewrite char_of_uchar.
    assert (c :: take (length (wire lb) - 1) (drop (S p) mem) = wire lb) as ->.
    { transitivity (take (S (length (wire lb) - 1)) (drop p mem)); [by rewrite (drop_S mem c p Ec)|]. by replace (S (length (wire lb) - 1)) with (length (wire lb)) by lia. }
    replace (S p + (length (wire lb) - 1))%nat with (p + length (wire lb))%nat by lia.
    destruct (IH fuel (dst ++ wire lb) len (checked + (length (wire lb) - 1) + 1)%nat) as (n & ->); [lia|lia|rewrite length_app; lia|].
    exists n. unfold wires. cbn [map concat]. by rewrite <- !(assoc_L (++)).
  - unfold rd. rewrite E. cbn [obind]. assert (uchar (char_of (NS_CMPRSFLGS + hi)) = 192 + hi) as Eu by (apply uchar_char_of; unfold NS_CMPRSFLGS; lia).
    destruct (byte_kind (char_of (NS_CMPRSFLGS + hi))) as (K1 & K2 & K3 & _). rewrite K1, K2, K3. rewrite Elo. cbn [obind]. rewrite pointer_value by (rewrite ?Eu; pose proof (uchar_bounds lo); lia). rewrite Eu.
    rewrite (proj2 (Z.eqb_neq _ 0)), (proj2 (Z.ltb_ge _ 64)), (proj2 (Z.ltb_ge _ 128)), (proj2 (Z.leb_le 192 _)), andb_false_r by lia. cbn [orb]. rewrite (proj2 (Nat.leb_gt eom _)) by lia.
    replace (192 + hi - 192) with hi by lia. pose proof (name_at_lt _ _ _ _ _ Na) as Lq. rewrite (proj2 (Nat.leb_gt eom _) Lq). rewrite (proj2 (Nat.leb_gt eom _)) by lia. apply IH; lia.
Qed.
End Message.

(** ** The text *)
Lemma rd_here (pre post : list ascii) (c : ascii) : rd (pre ++ c :: post) (length pre) = Ok (uchar c).
Proof. unfold rd. by rewrite list_lookup_middle. Qed.

Lemma ntop_chars_spec (eom : nat) (s : list ascii) : forall pre post dn, (length dn <= eom)%nat ->
  exists r, ntop_chars (length s) (pre ++ s ++ post) (length pre) dn eom = Ok r /\
    match r with
    | Some (cp, dn') => cp = length (pre ++ s) /\ dn' = dn ++ concat (map (fun c => quoted (uchar c)) s) /\ (length dn' <= eom)%nat
    | None => (eom <= length (dn ++ concat (map (fun c => quoted (uchar c)) s)))%nat
    end.
Proof.
  induction s as [|c s IH]; intros pre post dn L; cbn [length ntop_chars app map concat].
  { eexists. split; [reflexivity|]. cbn beta iota. by rewrite !app_nil_r. }
  rewrite rd_here. cbn [obind].
  assert (forall q, quoted (uchar c) = q -> (length dn + length q <= eom)%nat -> exists r, ntop_chars (length s) (pre ++ c :: s ++ post) (S (length pre)) (dn ++ q) eom = Ok r /\
    match r with Some (cp, dn') => cp = length (pre ++ c :: s) /\ dn' = dn ++ quoted (uchar c) ++ concat (map (fun c => quoted (uchar c)) s) /\ (length dn' <= eom)%nat
    | None => (eom <= length (dn ++ quoted (uchar c) ++ concat (map (fun c => quoted (uchar c)) s)))%nat end) as Go.
  { intros q <- Lq. destruct (IH (pre ++ [c]) post (dn ++ quoted (uchar c))) as (r & E & R); [by rewrite length_app|]. rewrite <- (assoc_L (++)) in E. cbn [app] in E. rewrite length_app, Nat.add_1_r in E.
    exists r. split; [done|]. rewrite <- !(assoc_L (++)) in R. destruct r as [[cp dn']|]; [|done]. destruct R as (-> & -> & Ln). done. }
  unfold quoted in Go at 1. destruct (special (uchar c)) eqn:Sp; [|destruct (negb (printable (uchar c))) eqn:Pr].
  - destruct (Nat.leb_spec eom (length dn + 1)); [exists None; split; [done|]; rewrite !length_app; unfold quoted; rewrite Sp; cbn [length]; lia|]. apply Go; [done|cbn [length]; lia].
  - destruct (Nat.leb_spec eom (length dn + 3)); [exists None; split; [done|]; rewrite !length_app; unfold quoted; rewrite Sp, Pr; cbn [length]; lia|]. apply Go; [done|cbn [length]; lia].
  - destruct (Nat.leb_spec eom (length dn)); [exists None; split; [done|]; rewrite !length_app; lia|]. apply Go; [done|cbn [length]; lia].
Qed.

Lemma fmt_02x_length (v : Z) : length (fmt_02x v) = if 256 <=? v then 3%nat else 2%nat.
Proof. unfold fmt_02x. by case_if. Qed.

Lemma bits_text_length (s : list ascii) : forall b, 0 <= b -> Z.of_nat (length s) = (b + 7) / 8 -> (b + 3) / 4 <= Z.of_nat (length (bits_text b s)) <= (b + 3) / 4 + 1.
Proof.
  induction s as [|x s IH]; intros b B L; cbn [bits_text length] in *; [Z.to_euclidean_division_equations; lia|].
  destruct (Z.ltb_spec 7 b).
  - pose proof (uchar_bounds x). rewrite length_app, fmt_02x_length, (proj2 (Z.leb_gt 256 _)) by lia. specialize (IH (b - 8)). replace (b + 7) with (b - 8 + 7 + 1 * 8) in L by lia. rewrite Z.div_add in L by lia.
    replace (b + 3) with (b - 8 + 3 + 2 * 4) by lia. rewrite Z.div_add by lia. lia.
  - destruct (Z.ltb_spec 4 b); [rewrite fmt_02x_length; case_if; Z.to_euclidean_division_equations; lia|]. destruct (Z.ltb_spec 0 b); cbn [length]; Z.to_euclidean_division_equations; lia.
Qed.

Lemma bits_loop_spec (s post : list ascii) : forall fuel pre b dn, 0 <= b -> Z.of_nat (length s) = (b + 7) / 8 -> (length s < fuel)%nat ->
  bits_loop fuel (pre ++ s ++ post) (length pre) b dn = Ok (length (pre ++ s), dn ++ bits_text b s).
Proof.
  induction s as [|x s IH]; intros fuel pre b dn B L Fu; (destruct fuel as [|fuel]; [lia|]); cbn [bits_loop bits_text length app] in *.
  - assert (b = 0) as -> by (Z.to_euclidean_division_equations; lia). cbn. by rewrite !app_nil_r.
  - rewrite rd_here. cbn [obind]. destruct (Z.ltb_spec 7 b).
    + specialize (IH fuel (pre ++ [x]) (b - 8) (dn ++ fmt_02x (uchar x))). rewrite <- !(assoc_L (++)) in IH. cbn [app] in IH. rewrite length_app, Nat.add_1_r in IH. apply IH; [lia|replace (b + 7) with (b - 8 + 7 + 1 * 8) in L by lia; rewrite Z.div_add in L; lia|lia].
    + assert (s = []) as -> by (destruct s; [done|cbn [length] in L; Z.to_euclidean_division_equations; lia]). rewrite length_app, Nat.add_1_r. destruct (Z.ltb_spec 4 b); [done|]. destruct (Z.ltb_spec 0 b); [done|]. cbn [length] in L. Z.to_euclidean_division_equations; lia.
Qed.

Lemma fmt_d_length (v : Z) : length (fmt_d v) = if 99 <? v then 3%nat else if 9 <? v then 2%nat else 1%nat.
Proof. unfold fmt_d. destruct (Z.leb_spec 100 v), (Z.leb_spec 10 v), (Z.ltb_spec 99 v), (Z.ltb_spec 9 v); try lia; done. Qed.

Lemma bitstring_spec (eom : nat) (count : Z) (s pre post dn : list ascii) : label_ok (Bits count s) ->
  exists r, irc_decode_bitstring (pre ++ char_of count :: s ++ post) (length pre) dn eom = Ok r /\
    match r with
    | Some (cp, dn') => cp = length (pre ++ char_of count :: s) /\ dn' = dn ++ label_text (Bits count s) /\ (length dn' <= eom)%nat
    | None => (eom <= length (dn ++ label_text (Bits count s)) + 1)%nat
    end.
Proof.
  intros [B L]. pose proof (bytes_bounds count B) as [B1 B2]. pose proof (bits_text_length s (bit_length count) ltac:(lia) L) as Lt. unfold irc_decode_bitstring. rewrite rd_here, uchar_char_of by done. cbn [obind]. fold (bit_length count).
  assert (length (label_text (Bits count s)) = 5 + length (bits_text (bit_length count) s) + length (fmt_d (bit_length count)))%nat as Ll by (cbn [label_text]; rewrite !length_app; cbn [length cstr String.list_ascii_of_string]; lia).
  pose proof (fmt_d_length (bit_length count)) as Ld. assert ((if 99 <? bit_length count then 3 else if 9 <? bit_length count then 2 else 1) = Z.of_nat (length (fmt_d (bit_length count)))) as -> by (rewrite Ld; repeat case_if; lia).
  destruct (Z.leb_spec (Z.of_nat eom) (Z.of_nat (length dn) + ((bit_length count + 3) / 4 + 6 + Z.of_nat (length (fmt_d (bit_length count)))))) as [C|C]; [exists None; split; [done|]; rewrite length_app; lia|].
  replace (pre ++ char_of count :: s ++ post) with ((pre ++ [char_of count]) ++ s ++ post) by by rewrite <- (assoc_L (++)).
  replace (S (length pre)) with (length (pre ++ [char_of count])) by (rewrite length_app; cbn [length]; lia). rewrite bits_loop_spec by lia. cbn [obind].
  assert ((dn ++ cstr "\[x") ++ bits_text (bit_length count) s ++ cstr "/" ++ fmt_d (bit_length count) ++ cstr "]" = dn ++ label_text (Bits count s)) as Et by by rewrite <- (assoc_L (++)).
  rewrite <- (assoc_L (++) (dn ++ cstr "\[x")), Et, length_app. rewrite (proj2 (Nat.leb_gt _ _)) by lia. eexists. split; [reflexivity|]. cbn beta iota.
  split; [by rewrite <- (assoc_L (++))|]. split; [done|rewrite length_app; lia].
Qed.

Lemma quoted_length (s : list ascii) : (length s <= length (concat (map (fun c => quoted (uchar c)) s)))%nat.
Proof. induction s as [|c s IH]; [done|]. cbn [map concat length]. rewrite length_app. assert (1 <= length (quoted (uchar c)))%nat by (unfold quoted; repeat case_if; cbn [length]; lia). lia. Qed.

Lemma label_text_length (lb : label) : label_ok lb -> (length (wire lb) <= S (length (label_text lb)))%nat.
Proof.
  destruct lb as [s|count s]; cbn [wire length label_ok]; intros H; [cbn [label_text]; pose proof (quoted_length s); lia|]. destruct H as [B L]. pose proof (bytes_bounds count B) as [B1 _].
  pose proof (bits_text_length s (bit_length count) ltac:(lia) L). cbn [label_text]. rewrite !length_app. cbn [length cstr String.list_ascii_of_string]. Z.to_euclidean_division_equations; lia.
Qed.

Lemma with_labels_length (ls : list label) : forall dn, (length dn <= length (with_labels dn ls))%nat.
Proof. induction ls as [|lb ls IH]; intros dn; cbn [with_labels]; [done|]. etransitivity; [|apply IH]. rewrite length_app. destruct dn; [cbn; lia|]. rewrite length_app. lia. Qed.

(** The root is a dot. *)
Definition or_dot (t : list ascii) : list ascii := match t with [] => ["."%char] | _ => t end.

Definition is_bits (lb : label) : bool := match lb with Chars _ => false | Bits _ _ => true end.

(** The text of one label is put behind [dn], or there is no room for it. *)
Lemma ntop_label (eom : nat) (lb : label) (c : Z) (pre post dn : list ascii) : label_ok lb -> (is_bits lb = true -> c = DNS_LABELTYPE_BITSTRING) -> (length dn <= eom)%nat ->
  exists r, (if is_bits lb then if negb (c =? DNS_LABELTYPE_BITSTRING) then Ok None else irc_decode_bitstring (pre ++ wire lb ++ post) (S (length pre)) dn eom
             else ntop_chars (length (wire lb) - 1) (pre ++ wire lb ++ post) (S (length pre)) dn eom) = Ok r /\
    match r with
    | Some (cp, dn') => cp = length (pre ++ wire lb) /\ dn' = dn ++ label_text lb /\ (length dn' <= eom)%nat
    | None => (eom <= length (dn ++ label_text lb) + 1)%nat
    end.
Proof.
  intros Lo Hb Ld. destruct lb as [s|count s]; cbn [is_bits wire length] in *.
  - destruct (ntop_chars_spec eom s (pre ++ [char_of (Z.of_nat (length s))]) post dn Ld) as (r & E & R). rewrite length_app, Nat.add_1_r, <- !(assoc_L (++)) in E. rewrite Nat.sub_succ, Nat.sub_0_r. exists r. split; [exact E|].
    destruct r as [[cp dn']|]; [by rewrite <- (assoc_L (++)) in R|cbn [label_text]; lia].
  - rewrite Hb, Z.eqb_refl by done. cbn [negb]. destruct (bitstring_spec eom count s (pre ++ [char_of DNS_LABELTYPE_BITSTRING]) post dn Lo) as (r & E & R). rewrite length_app, Nat.add_1_r, <- !(assoc_L (++)) in E. exists r. split; [exact E|].
    destruct r as [[cp dn']|]; [by rewrite <- (assoc_L (++)) in R|done].
Qed.

Definition text_or_full (eom : nat) (t : list ascii) (r : option (list ascii)) : Prop :=
  match r with Some t' => t' = or_dot t /\ (length t' < eom)%nat | None => (eom <= length t + 1)%nat end.

Lemma ntop_loop_spec (eom : nat) (ls : list label) : Forall label_ok ls -> forall fuel pre dn, (length ls < fuel)%nat -> (length dn <= eom)%nat ->
  exists r, ntop_loop fuel (pre ++ wires ls ++ [NUL]) (length pre) dn eom = Ok r /\ text_or_full eom (with_labels dn ls) r.
Proof.
  induction 1 as [|lb ls Lo F IH]; intros fuel pre dn Fu L; (destruct fuel as [|fuel]; [cbn in Fu; lia|]); cbn [ntop_loop with_labels].
  - cbn [wires map concat app]. rewrite rd_here. change (uchar NUL =? 0) with true. cbn [obind]. cbn iota. destruct dn as [|x dn].
    + destruct (Nat.leb_spec eom 0); cbn [obind]; [exists None; split; [done|cbn [text_or_full length]; lia]|]. destruct (Nat.leb_spec eom (length ["."%char])); [exists None|eexists]; (split; [reflexivity|]); cbn [text_or_full length] in *; [lia|done].
    + cbn [obind]. destruct (Nat.leb_spec eom (length (x :: dn))); [exists None|eexists]; (split; [reflexivity|]); cbn [text_or_full]; [lia|done].
  - destruct (wire_head lb Lo) as (c & s & Ew & N0 & N8 & Ht & Hb). pose proof (wire_bounds lb Lo) as Wb. pose proof (label_text_length lb Lo) as Lt. unfold wires. cbn [map concat]. fold (wires ls). rewrite <- (assoc_L (++) (wire lb)).
    assert (labellen (pre ++ wire lb ++ wires ls ++ [NUL]) (length pre) = Ok (Some (length (wire lb) - 1)%nat)) as Ll by (apply labellen_wire; [done|]; by rewrite drop_app_length, take_app_length).
    replace (S (length pre) - 1)%nat with (length pre) by lia. rewrite Ll. assert (rd (pre ++ wire lb ++ wires ls ++ [NUL]) (length pre) = Ok (uchar c)) as -> by (rewrite Ew; apply rd_here). cbn [obind].
    destruct (byte_kind c) as (_ & K2 & K3 & _). rewrite (proj2 (Z.eqb_neq _ 0) N0), K3, (proj2 (Z.leb_gt 192 _)) by lia. replace (Z.land (uchar c) NS_CMPRSFLGS =? NS_TYPE_ELT) with (is_bits lb) by by destruct lb.
    set (dn2 := match dn with [] => [] | _ :: _ => dn ++ ["."%char] end). assert (length (dn2 ++ label_text lb) <= length (with_labels (dn2 ++ label_text lb) ls))%nat as Ln2 by apply with_labels_length. rewrite length_app in Ln2.
    assert (length dn <= length dn2)%nat as Ln by (unfold dn2; destruct dn; [cbn; lia|rewrite length_app; lia]). set (next := with_labels (dn2 ++ label_text lb) ls) in *.
    assert ((match dn with [] => Some [] | _ :: _ => if (eom <=? length dn)%nat then None else Some (dn ++ ["."%char]) end = None /\ (eom <= length next + 1)%nat) \/
      (match dn with [] => Some [] | _ :: _ => if (eom <=? length dn)%nat then None else Some (dn ++ ["."%char]) end = Some dn2 /\ (length dn2 <= eom)%nat)) as [[-> Fl]|[-> Ld2]].
    { unfold dn2 in *. destruct dn as [|x dn]; [right; split; [done|cbn; lia]|]. destruct (Nat.leb_spec eom (length (x :: dn))); [left; split; [done|lia]|right; split; [done|]]. rewrite length_app. cbn [length] in *. lia. }
    { by exists None. }
    destruct (Nat.leb_spec eom (length dn2 + (length (wire lb) - 1))); [exists None; split; [done|]; cbn [text_or_full]; lia|].
    destruct (ntop_label eom lb (uchar c) pre (wires ls ++ [NUL]) dn2 Lo) as (r & -> & R); [by destruct lb|done|]. cbn [obind].
    destruct r as [[cp dn']|]; [|exists None; split; [done|]; rewrite length_app in R; cbn [text_or_full]; lia]. destruct R as (-> & -> & R).
    destruct (IH fuel (pre ++ wire lb) (dn2 ++ label_text lb)) as (r & E & R2); [cbn [length] in Fu; lia|done|]. rewrite <- (assoc_L (++)) in E. by exists r.
Qed.

(** ** What the text looks like *)
Definition visible (c : ascii) : bool := printable (uchar c).

Lemma digit_visible (v : Z) : 0 <= v < 10 -> visible (digit v) = true.
Proof.
  intros H. assert (forallb (fun n => visible (digit (Z.of_nat n))) (seq 0 10) = true) as A by (vm_compute; reflexivity). rewrite forallb_forall in A. specialize (A (Z.to_nat v)). rewrite in_seq, Z2Nat.id in A by lia. apply A. lia.
Qed.

Lemma quoted_visible (c : ascii) : forallb visible (quoted (uchar c)) = true /\ deref (quoted (uchar c)) <> "."%char /\ quoted (uchar c) <> [].
Proof.
  assert (forallb visible (quoted (uchar c)) && negb (deref (quoted (uchar c)) =c ".") && (0 <? length (quoted (uchar c)))%nat = true) as A by (apply (forall_chars (fun c => forallb visible (quoted (uchar c)) && negb (deref (quoted (uchar c)) =c ".") && (0 <? length (quoted (uchar c)))%nat)); vm_compute; reflexivity).
  rewrite !andb_true_iff in A. destruct A as [[A1 A2%negb_true_iff] A3%Nat.ltb_lt]. apply Ascii.eqb_neq in A2. split; [done|]. split; [done|]. intros E. rewrite E in A3. cbn in A3. lia.
Qed.

Lemma bits_visible (s : list ascii) : forall b, 0 <= b -> forallb visible (bits_text b s) = true.
Proof.
  induction s as [|x s IH]; intros b B; [done|].
  assert (forallb visible (fmt_02x (uchar x)) && forallb (fun b => forallb visible (bits_text (Z.of_nat b) [x])) (seq 0 8) = true) as A by (apply (forall_chars (fun x => forallb visible (fmt_02x (uchar x)) && forallb (fun b => forallb visible (bits_text (Z.of_nat b) [x])) (seq 0 8))); vm_compute; reflexivity).
  apply andb_true_iff in A as [A1 A2]. rewrite forallb_forall in A2. specialize (A2 (Z.to_nat b)). rewrite in_seq in A2. cbn [bits_text] in *. destruct (Z.ltb_spec 7 b); [by rewrite forallb_app, A1, IH by lia|].
  rewrite Z2Nat.id in A2 by lia. rewrite (proj2 (Z.ltb_ge 7 b)) in A2 by lia. apply A2. lia.
Qed.

Lemma label_text_visible (lb : label) : label_ok lb -> forallb visible (label_text lb) = true /\ deref (label_text lb) <> "."%char /\ label_text lb <> [].
Proof.
  destruct lb as [s|count s]; intros Lo; cbn [label_text label_ok] in *.
  - destruct s as [|c s]; [cbn in Lo; lia|]. cbn [map concat]. destruct (quoted_visible c) as (V & D & N). split; [|destruct (quoted (uchar c)); done]. rewrite forallb_app, V. cbn [andb].
    clear. induction s as [|c s IH]; [done|]. cbn [map concat]. rewrite forallb_app. by rewrite (proj1 (quoted_visible c)).
  - split; [|done]. destruct Lo as [B _]. pose proof (bytes_bounds count B) as [B1 _]. rewrite !forallb_app, bits_visible by lia. cbn [andb]. assert (forallb visible (fmt_d (bit_length count)) = true) as ->; [|done].
    unfold fmt_d. rewrite !forallb_app. assert (forall z, 0 <= z < 10 -> forallb visible [digit z] = true) as D by (intros z Hz; cbn [forallb]; by rewrite digit_visible).
    rewrite D by (apply Z.mod_pos_bound; lia). destruct (Z.leb_spec 100 (bit_length count)), (Z.leb_spec 10 (bit_length count)); rewrite ?D by (Z.to_euclidean_division_equations; lia); done.
Qed.

Lemma with_labels_visible (ls : list label) : Forall label_ok ls -> forall dn, forallb visible dn = true -> forallb visible (with_labels dn ls) = true.
Proof.
  induction 1 as [|lb ls Lo F IH]; intros dn V; [done|]. cbn [with_labels]. apply IH. rewrite forallb_app, (proj1 (label_text_visible lb Lo)), andb_true_r. destruct dn; [done|]. by rewrite forallb_app, V.
Qed.

Lemma with_labels_head (ls : list label) : forall dn, dn <> [] -> with_labels dn ls <> [] /\ deref (with_labels dn ls) = deref dn.
Proof.
  induction ls as [|lb ls IH]; intros dn N; [done|]. cbn [with_labels]. destruct dn as [|x dn]; [done|]. destruct (IH (((x :: dn) ++ ["."%char]) ++ label_text lb)) as [A B]; [done|]. split; [exact A|]. by rewrite B.
Qed.

(** A dot alone is the root, and becomes the empty text. *)
Lemma expand_text (ls : list label) (n : nat) : Forall label_ok ls -> (0 < n)%nat -> (if (0 <? n)%nat && (deref (or_dot (render ls)) =c ".") then [] else or_dot (render ls)) = render ls.
Proof.
  intros F Hn. rewrite (proj2 (Nat.ltb_lt _ _) Hn). cbn [andb]. destruct ls as [|lb ls]; [done|]. inversion_clear F as [|? ? Lo _]. destruct (label_text_visible lb Lo) as (_ & D & N). unfold render. cbn [with_labels app].
  destruct (with_labels_head ls (label_text lb) N) as [N2 D2]. assert (or_dot (with_labels (label_text lb) ls) = with_labels (label_text lb) ls) as -> by (destruct (with_labels (label_text lb) ls); done). rewrite D2. by rewrite (proj2 (Ascii.eqb_neq _ _) D).
Qed.

Lemma wires_count (ls : list label) : (length ls <= length (wires ls))%nat.
Proof. induction ls as [|lb ls IH]; [done|]. unfold wires. cbn [map concat length]. fold (wires ls). rewrite length_app. destruct lb; cbn [wire length]; lia. Qed.

(** Expanding a name: it returns whatever the message holds, with no read but one byte
    behind it; what it gives is the text of a name of the message, of printable characters
    and inside its buffer, and the length of the name, which skipping it agrees with; and
    every name that is not too long is expanded. *)
Lemma dn_expand_spec (mem : list ascii) (eom src dstsiz : nat) : (eom < length mem)%nat ->
  exists r, irc_dn_expand mem eom src dstsiz = Ok r /\
    (forall t n, r = Some (t, n) -> (exists ls k, name_at mem eom src ls k /\ (length (wires ls) < NS_MAXCDNAME)%nat /\ t = render ls) /\
       (length t < dstsiz)%nat /\ forallb visible t = true /\ (0 < n)%nat /\ (src + n <= eom)%nat /\ irc_dn_skipname mem eom src = Ok (Some n)) /\
    (forall ls k, name_at mem eom src ls k -> (k < eom)%nat -> (length (wires ls) < NS_MAXCDNAME)%nat -> (length (render ls) + 1 < dstsiz)%nat -> exists n, r = Some (render ls, n)).
Proof.
  intros Sl. unfold irc_dn_expand, irc_ns_name_uncompress, irc_ns_name_unpack. destruct (Nat.leb_spec eom src) as [Le|Le].
  { cbn [obind]. exists None. split; [done|]. split; [done|]. intros ls k Na. apply name_at_lt in Na. lia. }
  destruct (unpack_loop_spec mem eom Sl src NS_MAXCDNAME (S (NS_MAXCDNAME + eom)) src [] None 0) as (r & E & R); [done|cbn; unfold NS_MAXCDNAME; lia|cbn [length]; lia|]. rewrite E. cbn [obind].
  assert (forall ls k, name_at mem eom src ls k -> (k < eom)%nat -> (length (wires ls) < NS_MAXCDNAME)%nat -> exists n, r = Some (wires ls ++ [NUL], n)) as Co.
  { intros ls k Na Lk Lw. destruct (unpack_complete mem eom Sl src NS_MAXCDNAME src k ls Na (S (NS_MAXCDNAME + eom)) [] None 0) as (n & E2); [lia|lia|exact Lw|]. rewrite E in E2. injection E2 as ->. by exists n. }
  destruct r as [[tmp n]|]; cycle 1.
  { exists None. split; [done|]. split; [done|]. intros ls k Na Lk Lw. by destruct (Co ls k Na Lk Lw). }
  destruct R as (ls & k & Na & F & -> & Lt & Fe). cbn [app] in *. destruct (Fe (Nat.le_refl _)) as (F1 & F2 & F3). unfold irc_ns_name_ntop.
  destruct (ntop_loop_spec dstsiz ls F (S (length (wires ls ++ [NUL]))) [] []) as (t & Et & T); [rewrite length_app; cbn [length]; pose proof (wires_count ls); lia|cbn; lia|]. cbn [app length] in Et. rewrite Et. cbn [obind].
  assert (forall ls2 k2, name_at mem eom src ls2 k2 -> (k2 < eom)%nat -> (length (wires ls2) < NS_MAXCDNAME)%nat -> Forall label_ok ls2 /\ wires ls2 = wires ls) as Same.
  { intros ls2 k2 Na2 Lk Lw. destruct (Co ls2 k2 Na2 Lk Lw) as (n2 & E2). injection E2 as E2 _. split; [by eapply name_at_labels|]. apply app_inj_2 in E2 as [E2 _]; [done|done]. }
  assert (forall ls2 k2, name_at mem eom src ls2 k2 -> (k2 < eom)%nat -> (length (wires ls2) < NS_MAXCDNAME)%nat -> (length (render ls2) + 1 < dstsiz)%nat -> t = Some (or_dot (render ls2)) /\ Forall label_ok ls2) as Co2.
  { intros ls2 k2 Na2 Lk Lw Lr. destruct (Same ls2 k2 Na2 Lk Lw) as [Fo Ew]. split; [|done]. destruct (ntop_loop_spec dstsiz ls2 Fo (S (length (wires ls ++ [NUL]))) [] []) as (t2 & Et2 & T2); [rewrite length_app, <- Ew; cbn [length]; pose proof (wires_count ls2); lia|cbn; lia|].
    cbn [app length] in Et2. rewrite Ew, Et in Et2. injection Et2 as <-. fold (render ls2) in T2. destruct t; cbn [text_or_full] in T2; [by destruct T2 as [-> _]|lia]. }
  destruct t as [t|]; cycle 1.
  { exists None. split; [done|]. split; [done|]. intros ls2 k2 Na2 Lk Lw Lr. by destruct (Co2 ls2 k2 Na2 Lk Lw Lr). }
  destruct T as [-> Ll]. fold (render ls) in Ll |- *. eexists. split; [reflexivity|]. rewrite expand_text by (done || lia). split.
  - intros t n0 Et0. injection Et0 as <- <-. split; [exists ls, k; split; [done|]; split; [rewrite length_app in Lt; cbn [length] in Lt; lia|done]|].
    split; [assert (length (render ls) <= length (or_dot (render ls)))%nat by (unfold or_dot; destruct (render ls); cbn; lia); lia|]. split; [by apply with_labels_visible|]. split; [lia|]. split; [done|].
    unfold irc_dn_skipname, irc_ns_name_skip. rewrite F3 by lia. cbn [obind]. do 2 f_equal. lia.
  - intros ls2 k2 Na2 Lk Lw Lr. destruct (Co2 ls2 k2 Na2 Lk Lw Lr) as [E2 Fo]. injection E2 as E2. exists n. f_equal. f_equal. fold (render ls) in E2. rewrite <- (expand_text ls n F) by lia. rewrite E2. by apply expand_text; [|lia].
Qed.

(** C8: expanding a name of a DNS message returns whatever the message holds, with no read
    but one byte behind it; what it gives is the text of a name of the message, of printable
    characters and inside its buffer, and the length of the name, which [irc_dn_skipname]
    agrees with; and every name of the message that is not too long is expanded. *)
Theorem irc_dn_expand_exact (mem : list ascii) (eom src dstsiz : nat) : (eom < length mem)%nat ->
  exists r, irc_dn_expand mem eom src dstsiz = Ok r /\
    (forall t n, r = Some (t, n) -> (exists ls k, name_at mem eom src ls k /\ (length (wires ls) < NS_MAXCDNAME)%nat /\ t = render ls) /\
       (length t < dstsiz)%nat /\ forallb visible t = true /\ (0 < n)%nat /\ (src + n <= eom)%nat /\ irc_dn_skipname mem eom src = Ok (Some n)) /\
    (forall ls k, name_at mem eom src ls k -> (k < eom)%nat -> (length (wires ls) < NS_MAXCDNAME)%nat -> (length (render ls) + 1 < dstsiz)%nat -> exists n, r = Some (render ls, n)).
Proof. exact (dn_expand_spec mem eom src dstsiz). Qed.

(** A name of two labels, the second behind a pointer. *)
Definition ex_message : list ascii := wire (Chars (cstr "org")) ++ [NUL] ++ wire (Chars (cstr "a.b")) ++ [char_of 0xc0; NUL; NUL; NUL].

Lemma irc_dn_expand_exact_witness : exists n, irc_dn_expand ex_message 12 5 163 = Ok (Some (cstr "a\.b.org", n)).
Proof.
  destruct (irc_dn_expand_exact ex_message 12 5 163) as (r & E & _ & C); [vm_compute; lia|].
  destruct (C [Chars (cstr "a.b"); Chars (cstr "org")] 10%nat) as (n & Er).
  - apply (name_label _ _ 5%nat (Chars (cstr "a.b")) _ 6%nat); [vm_compute; lia|reflexivity|]. apply (name_pointer _ _ _ 0 NUL _ 4%nat); [lia|vm_compute; lia|reflexivity|reflexivity|].
    apply (name_label _ _ 0%nat (Chars (cstr "org")) _ 0%nat); [vm_compute; lia|reflexivity|]. apply name_end; [vm_compute; lia|reflexivity].
  - lia.
  - vm_compute. lia.
  - apply Nat.ltb_lt. vm_compute. reflexivity.
  - exists n. rewrite E, Er. reflexivity.
Defined.

(** Bits that are cut off a bit string are taken off the sign-extended byte: a third digit. *)
Lemma bitstring_three_digits : label_text (Bits 5 [char_of 0x80]) = cstr "\[x780/5]".
Proof. reflexivity. Qed.
