(* ===== verification/Resolver.v ===== *)
(** * Answers of name servers: [proc_answer] of [ircd/ircd_res.c]

    The reply is an array of which the first [eob] bytes were received: over UDP the array
    is larger than the reply unless the reply fills it, over TCP it is as large as the
    reply.  The theorem gives the bytes behind the reply that may be read. *)

From stdpp Require Import base list strings.
From Stdlib Require Import ZArith Lia Ascii.
From S2P Require Import Prelude Addr Reslib.

Local Open Scope ircu_scope.
Local Open Scope Z_scope.

Definition T_A : Z := 1.
Definition T_CNAME : Z := 5.
Definition T_PTR : Z := 12.
Definition T_AAAA : Z := 28.
Definition HEADER_SIZE : nat := 12.
Definition QFIXEDSZ : nat := 4.
Definition ANSWER_FIXED_SIZE : nat := 10.
Definition HOSTLEN : nat := 63.

Inductive request_state : Type := REQ_IDLE | REQ_PTR | REQ_A | REQ_AAAA | REQ_CNAME | REQ_INT.

(** [struct reslist]: the array of addresses is a list with its capacity. *)
Record reslist : Type := ResList { rq_state : request_state; rq_type : Z; rq_name : list ascii; rq_addrs : list irc_in_addr; addr_capacity : Z }.
Definition set_state (r : reslist) (s : request_state) : reslist := ResList s (rq_type r) (rq_name r) (rq_addrs r) (addr_capacity r).
Definition set_name (r : reslist) (n : list ascii) : reslist := ResList (rq_state r) (rq_type r) n (rq_addrs r) (addr_capacity r).

Definition irc_ns_get16 (mem : list ascii) (p : nat) : outcome Z :=
  let* a := rd mem p in let* b := rd mem (p + 1) in Ok (Z.lor (Z.shiftl a 8) b).

Definition add_addr_to_request (r : reslist) (a : irc_in_addr) : outcome reslist :=
  let addr_count := Z.of_nat (length (rq_addrs r)) in
  let cap := if addr_capacity r <=? addr_count then (if addr_capacity r =? 0 then 4 else addr_capacity r * 2) else addr_capacity r in
  if cap <=? addr_count then Oob
  else Ok (ResList (rq_state r) (rq_type r) (rq_name r) (rq_addrs r ++ [a]) cap).

(** [memcpy] of [n] 16-bit parts of an address *)
Fixpoint read_parts (mem : list ascii) (p n : nat) : outcome (list Z) :=
  match n with
  | O => Ok []
  | S n => let* z := irc_ns_get16 mem p in let* r := read_parts mem (p + 2) n in Ok (z :: r)
  end.

(** The questions are skipped. *)
Fixpoint skip_questions (qdcount : nat) (mem : list ascii) (eob current : nat) : outcome nat :=
  match qdcount with
  | O => Ok current
  | S q =>
      let* r := irc_dn_skipname mem eob current in
      match r with None => Ok current | Some n => skip_questions q mem eob (current + n + QFIXEDSZ) end
  end.

(** The answers; the number is the result of the function. *)
Fixpoint answers_loop (ancount : nat) (mem : list ascii) (eob current : nat) (request : reslist) : outcome (reslist * Z) :=
  match ancount with
  | O => Ok (request, 1)
  | S ancount =>
      if (eob <=? current)%nat then Ok (request, 1)
      else
        let* r := irc_dn_expand mem eob current (HOSTLEN + 100) in
        match r with
        | None => Ok (request, 0)
        | Some (_, n) =>
            if (n =? 0)%nat then Ok (request, 0)
            else
              let current := (current + n)%nat in
              if negb (current + ANSWER_FIXED_SIZE <? eob)%nat then Ok (request, 1)
              else
                let* type := irc_ns_get16 mem current in
                let* rd_length := irc_ns_get16 mem (current + 8) in
                let current := (current + ANSWER_FIXED_SIZE)%nat in
                if type =? T_A then
                  if negb (rq_type request =? T_A) then Ok (request, 0)
                  else if negb (rd_length =? 4) then Ok (request, 0)
                  else
                    let* parts := read_parts mem current 2 in
                    let* request := add_addr_to_request request (InAddr ([0; 0; 0; 0; 0; 0] ++ parts)) in
                    answers_loop ancount mem eob (current + Z.to_nat rd_length) request
                else if type =? T_AAAA then
                  if negb (rq_type request =? T_AAAA) then Ok (request, 0)
                  else if negb (rd_length =? 16) then Ok (request, 0)
                  else
                    let* parts := read_parts mem current 8 in
                    let* request := add_addr_to_request request (InAddr parts) in
                    answers_loop ancount mem eob (current + Z.to_nat rd_length) request
                else if type =? T_PTR then
                  if negb (rq_type request =? T_PTR) then Ok (request, 0)
                  else
                    let* r := irc_dn_expand mem eob current (HOSTLEN + 100) in
                    match r with
                    | None => Ok (request, 0)
                    | Some (hostbuf, n) => if (n =? 0)%nat then Ok (request, 0) else Ok (set_name request (take HOSTLEN hostbuf), 1)
                    end
                else if type =? T_CNAME then
                  match rq_state request with
                  | REQ_CNAME =>
                      let* r := irc_dn_expand mem eob current (HOSTLEN + 100) in
                      Ok (request, match r with None => 0 | Some _ => 1 end)
                  | _ => answers_loop ancount mem eob (current + Z.to_nat rd_length) (set_state request REQ_CNAME)
                  end
                else answers_loop ancount mem eob (current + Z.to_nat rd_length) request
        end
  end.

Definition proc_answer (request : reslist) (qdcount ancount : nat) (mem : list ascii) (eob : nat) : outcome (reslist * Z) :=
  let* current := skip_questions qdcount mem eob HEADER_SIZE in
  answers_loop ancount mem eob current request.

(** ** Safety *)
Lemma rd_total (mem : list ascii) (p : nat) : (p < length mem)%nat -> exists c, rd mem p = Ok (uchar c).
Proof. intros L. unfold rd. destruct (lookup_lt_is_Some_2 mem p L) as [c ->]. eauto. Qed.

Lemma get16_total (mem : list ascii) (p : nat) : (p + 1 < length mem)%nat -> exists z, irc_ns_get16 mem p = Ok z /\ 0 <= z < 2 ^ 16.
Proof.
  intros L. unfold irc_ns_get16. destruct (rd_total mem p) as [a ->]; [lia|]. destruct (rd_total mem (p + 1)) as [b ->]; [lia|]. cbn [obind]. eexists. split; [reflexivity|].
  pose proof (uchar_bounds a). pose proof (uchar_bounds b). rewrite Z.shiftl_mul_pow2 by lia. rewrite lor_low by (change (2 ^ 8) with 256; lia). change (2 ^ 8) with 256. change (2 ^ 16) with 65536. lia.
Qed.

Lemma read_parts_total (mem : list ascii) (n : nat) : forall p, (p + 2 * n <= length mem)%nat -> exists l, read_parts mem p n = Ok l /\ length l = n /\ Forall (fun z => 0 <= z < 2 ^ 16) l.
Proof.
  induction n as [|n IH]; intros p L; [by exists []|]. cbn [read_parts]. destruct (get16_total mem p) as (z & -> & Bz); [lia|]. destruct (IH (p + 2)%nat) as (l & -> & Ll & F); [lia|]. cbn [obind]. exists (z :: l). split; [done|]. split; [cbn; lia|by constructor].
Qed.

Lemma skip_total (mem : list ascii) (eom : nat) : (eom < length mem)%nat -> forall fuel cp, (eom - cp < fuel)%nat -> exists r, skip_loop fuel mem eom cp = Ok r.
Proof.
  intros Sl. induction fuel as [|fuel IH]; intros cp Fu; [lia|]. cbn [skip_loop]. destruct (Nat.ltb_spec cp eom) as [L|L]; [|eauto]. destruct (rd_total mem cp) as [c ->]; [lia|]. cbn [obind]. cbv zeta.
  destruct (uchar c =? 0); [eauto|]. case_if; [apply IH; lia|]. case_if; [|case_if; eauto]. replace (S cp - 1)%nat with cp by lia. destruct (labellen_total mem eom Sl cp) as [[l|] ->]; [lia| |eauto]. cbn [obind]. apply IH. lia.
Qed.

Lemma skipname_total (mem : list ascii) (eom p : nat) : (eom < length mem)%nat -> exists r, irc_dn_skipname mem eom p = Ok r.
Proof. intros Sl. unfold irc_dn_skipname, irc_ns_name_skip. destruct (skip_total mem eom Sl (S eom) p) as [r ->]; [lia|]. cbn [obind]. eauto. Qed.

Lemma questions_total (mem : list ascii) (eom q : nat) : (eom < length mem)%nat -> forall p, exists p', skip_questions q mem eom p = Ok p'.
Proof. intros Sl. induction q as [|q IH]; intros p; [by exists p|]. cbn [skip_questions]. destruct (skipname_total mem eom p Sl) as [[n|] ->]; cbn [obind]; [apply IH|eauto]. Qed.

Definition cap_ok (r : reslist) : Prop := 0 <= addr_capacity r /\ Z.of_nat (length (rq_addrs r)) <= addr_capacity r.

(** What [n] answers may do to a request: addresses are added behind the others and only to
    requests for addresses, a name is set only for a request for one. *)
Definition answered_by (n : nat) (r r' : reslist) : Prop :=
  cap_ok r' /\ rq_type r' = rq_type r /\ (rq_state r' = rq_state r \/ rq_state r' = REQ_CNAME) /\
  (exists new, rq_addrs r' = rq_addrs r ++ new /\ (length new <= n)%nat /\ Forall addr_wf new /\ (new <> [] -> rq_type r = T_A \/ rq_type r = T_AAAA) /\
     (rq_type r = T_A -> Forall (fun a => take 6 (in6_16 a) = [0; 0; 0; 0; 0; 0]) new)) /\
  (rq_name r' = rq_name r \/ rq_type r = T_PTR /\ (length (rq_name r') <= HOSTLEN)%nat /\ forallb visible (rq_name r') = true).

Lemma answered_none (n : nat) (r : reslist) : cap_ok r -> answered_by n r r.
Proof. intros C. split; [done|]. split; [done|]. split; [by left|]. split; [|by left]. exists []. rewrite app_nil_r. split; [done|]. split; [cbn; lia|]. split; [constructor|]. split; [done|constructor]. Qed.

Lemma answered_cname (n : nat) (r r' : reslist) : answered_by n (set_state r REQ_CNAME) r' -> answered_by (S n) r r'.
Proof.
  intros (C & T & S & (new & A & L & R) & N). split; [done|]. split; [done|]. split; [right; by destruct S|]. split; [|done]. exists new. split; [done|]. split; [lia|exact R].
Qed.

Lemma answered_more (n : nat) (r r' : reslist) : answered_by n r r' -> answered_by (S n) r r'.
Proof. intros (C & T & S & (new & A & L & R) & N). split; [done|]. split; [done|]. split; [done|]. split; [|done]. exists new. split; [done|]. split; [lia|exact R]. Qed.

(** The next address: the array has room for it. *)
Lemma answered_addr (n : nat) (r : reslist) (a : irc_in_addr) : cap_ok r -> addr_wf a -> rq_type r = T_AAAA \/ rq_type r = T_A /\ take 6 (in6_16 a) = [0; 0; 0; 0; 0; 0] ->
  exists r1, add_addr_to_request r a = Ok r1 /\ cap_ok r1 /\ rq_type r1 = rq_type r /\ forall r', answered_by n r1 r' -> answered_by (S n) r r'.
Proof.
  intros [C1 C2] Wf Ty. unfold add_addr_to_request. cbv zeta. set (cnt := Z.of_nat (length (rq_addrs r))) in *.
  set (cap := if addr_capacity r <=? cnt then _ else _). assert (cnt < cap) as Lt by (unfold cap; destruct (Z.leb_spec (addr_capacity r) cnt); [|lia]; destruct (Z.eqb_spec (addr_capacity r) 0); lia).
  rewrite (proj2 (Z.leb_gt _ _)) by lia. eexists. split; [reflexivity|]. split; [split; cbn; [lia|rewrite length_app; cbn [length]; lia]|]. split; [done|].
  intros r' (C & T & S & (new & A & L & F & Ne & V4) & N). cbn [rq_addrs rq_type rq_state rq_name] in *. split; [done|]. split; [done|]. split; [done|]. split; [|done].
  exists (a :: new). split; [by rewrite A, <- (assoc_L (++))|]. split; [cbn; lia|]. split; [by constructor|]. split; [intros _; tauto|]. intros T4. constructor; [destruct Ty as [Ty|[_ Ty]]; [by rewrite Ty in T4|done]|by apply V4].
Qed.

Lemma v4_parts_wf (parts : list Z) : length parts = 2%nat -> Forall (fun z => 0 <= z < 2 ^ 16) parts -> addr_wf (InAddr ([0; 0; 0; 0; 0; 0] ++ parts)) /\ take 6 (in6_16 (InAddr ([0; 0; 0; 0; 0; 0] ++ parts))) = [0; 0; 0; 0; 0; 0].
Proof. intros L F. split; [|by destruct parts]. split; [cbn [in6_16]; rewrite length_app, L; done|]. cbn [in6_16]. apply Forall_app. split; [|done]. repeat (apply Forall_cons; split; [lia|]). apply Forall_nil_2. Qed.

Lemma answers_spec (mem : list ascii) (eob : nat) : (eob + 15 <= length mem)%nat -> forall ancount current request, cap_ok request ->
  exists request' v, answers_loop ancount mem eob current request = Ok (request', v) /\ answered_by ancount request request'.
Proof.
  intros Sl. assert (eob < length mem)%nat as Sl1 by lia. induction ancount as [|ancount IH]; intros current request C; cbn [answers_loop]; [eexists _, _; split; [done|by apply answered_none]|].
  assert (forall v : Z, exists request' v', Ok (request, v) = Ok (request', v') /\ answered_by (S ancount) request request') as Stop by (intros v; eexists _, _; split; [done|by apply answered_none]).
  destruct (Nat.leb_spec eob current) as [|Lc]; [apply Stop|]. destruct (dn_expand_spec mem eob current (HOSTLEN + 100) Sl1) as (r & -> & Sn & _). cbn [obind]. destruct r as [[t n]|]; [|apply Stop]. destruct (Sn t n eq_refl) as (_ & _ & _ & Ln & Le & _). clear Sn.
  rewrite (proj2 (Nat.eqb_neq n 0)) by lia. cbv zeta. destruct (Nat.ltb_spec (current + n + ANSWER_FIXED_SIZE) eob) as [L|]; [|apply Stop]. cbn [negb]. unfold ANSWER_FIXED_SIZE in *.
  destruct (get16_total mem (current + n)) as (type & -> & _); [lia|]. destruct (get16_total mem (current + n + 8)) as (rdl & -> & _); [lia|]. cbn [obind]. destruct (type =? T_A).
  { destruct (Z.eqb_spec (rq_type request) T_A) as [Ty|]; [|apply Stop]. destruct (rdl =? 4); [|apply Stop]. cbn [negb]. destruct (read_parts_total mem 2 (current + n + 10)) as (parts & -> & Lp & Fp); [lia|]. cbn [obind].
    destruct (v4_parts_wf parts Lp Fp) as [Wf V4]. destruct (answered_addr ancount request (InAddr ([0; 0; 0; 0; 0; 0] ++ parts)) C Wf) as (r1 & -> & C1 & _ & Go); [by right|]. cbn [obind].
    destruct (IH (current + n + 10 + Z.to_nat rdl)%nat r1 C1) as (r' & v & -> & A). eauto. }
  destruct (type =? T_AAAA).
  { destruct (Z.eqb_spec (rq_type request) T_AAAA) as [Ty|]; [|apply Stop]. destruct (rdl =? 16); [|apply Stop]. cbn [negb]. destruct (read_parts_total mem 8 (current + n + 10)) as (parts & -> & Lp & Fp); [lia|]. cbn [obind].
    destruct (answered_addr ancount request (InAddr parts) C) as (r1 & -> & C1 & _ & Go); [done|by left|]. cbn [obind]. destruct (IH (current + n + 10 + Z.to_nat rdl)%nat r1 C1) as (r' & v & -> & A). eauto. }
  destruct (type =? T_PTR).
  { destruct (Z.eqb_spec (rq_type request) T_PTR) as [Ty|]; [|apply Stop]. cbn [negb]. destruct (dn_expand_spec mem eob (current + n + 10) (HOSTLEN + 100) Sl1) as (r & -> & Sn & _). cbn [obind]. destruct r as [[host m]|]; [|apply Stop]. destruct (Sn host m eq_refl) as (_ & _ & V & Lm & _).
    rewrite (proj2 (Nat.eqb_neq m 0)) by lia. eexists _, _. split; [reflexivity|]. destruct (answered_none (S ancount) request C) as (C' & T & S & A & _). split; [exact C'|]. split; [done|]. split; [done|]. split; [exact A|]. right. split; [done|]. cbn [set_name rq_name].
    split; [rewrite length_take; lia|]. rewrite forallb_forall in V |- *. intros x Hx. apply V. rewrite <- (take_drop HOSTLEN host). apply in_or_app. by left. }
  destruct (type =? T_CNAME).
  { assert (cap_ok (set_state request REQ_CNAME)) as Cc by exact C. destruct (IH (current + n + 10 + Z.to_nat rdl)%nat (set_state request REQ_CNAME) Cc) as (r' & v & E & A). apply answered_cname in A. destruct (rq_state request); rewrite ?E; eauto.
    destruct (dn_expand_spec mem eob (current + n + 10) (HOSTLEN + 100) Sl1) as (r & -> & _). cbn [obind]. apply Stop. }
  destruct (IH (current + n + 10 + Z.to_nat rdl)%nat request C) as (r' & v & -> & A). eexists _, _. split; [reflexivity|]. by apply answered_more.
Qed.

(** A reply with one address that is cut off behind its first byte. *)
Definition cut_reply : list ascii :=
  repeat NUL 12 ++ [NUL] ++ [NUL; char_of 28; NUL; char_of 1; NUL; NUL; NUL; NUL; NUL; char_of 16; char_of 32].

(** C21: whatever a name server answers, [proc_answer] returns and reads no more than 15
    bytes behind the reply; it adds at most one well-formed address for each answer, and only
    to a request for addresses of that family, and sets a name of printable characters of at
    most [HOSTLEN] only for a request for a name.  The bytes behind the reply are read: in
    a buffer as long as the reply, as over TCP, a cut off answer is read out of bounds. *)
Theorem proc_answer_reads :
  (forall request qdcount ancount mem eob, (eob + 15 <= length mem)%nat -> cap_ok request ->
     exists request' v, proc_answer request qdcount ancount mem eob = Ok (request', v) /\ answered_by ancount request request') /\
  proc_answer (ResList REQ_AAAA T_AAAA [] [] 0) 0 1 cut_reply (length cut_reply) = Oob.
Proof.
  split; [|vm_compute; reflexivity]. intros request qdcount ancount mem eob Sl C. unfold proc_answer. destruct (questions_total mem eob qdcount) with (p := HEADER_SIZE) as [p ->]; [lia|]. cbn [obind].
  by apply answers_spec.
Qed.

Lemma proc_answer_reads_witness : exists request' v,
  proc_answer (ResList REQ_AAAA T_AAAA [] [] 0) 0 1 (cut_reply ++ repeat NUL 15) (length cut_reply) = Ok (request', v) /\ rq_type request' = T_AAAA.
Proof.
  destruct (proj1 proc_answer_reads (ResList REQ_AAAA T_AAAA [] [] 0) 0%nat 1%nat (cut_reply ++ repeat NUL 15) (length cut_reply)) as (r & v & E & _ & T & _).
  - vm_compute. lia.
  - split; vm_compute; discriminate.
  - exists r, v. split; [exact E|exact T].
Defined.
