(* ===== verification/Burst.v ===== *)
(** * Channels in a net burst: [send_channel_modes] of [ircd/channel.c], [ms_burst]

    When two servers connect, each sends the members, modes and bans of its channels in
    BURST lines: members in four groups (neither, voice, operator, both), the operators by
    their level, a group marked at its first member and again in every continued line, and
    a level relative to the one before.  [ircd/m_burst.c] reads the members back.  The
    theorem is the round trip of the two.

    A message is its text without the line end, kept to 510 bytes by [msgq_append]; the
    line's prefix and the two strings of [channel_modes] are arguments. *)

From stdpp Require Import base list strings sorting.
From Stdlib Require Import ZArith Lia Ascii.
From S2P Require Import Prelude Chattr Strings AddrText Channel ModeBuf ModeParse MsgTab Parse.

Local Open Scope ircu_scope.
Local Open Scope Z_scope.

(** What a burst says of a member: the text of [%C], the status and the level. *)
Record bmember : Type := BMember { bm_nick : list ascii; bm_status : Z; bm_level : Z }.
Definition IsChanOp (m : bmember) : bool := negb (Z.land (bm_status m) CHFL_CHANOP =? 0).
Definition HasVoice (m : bmember) : bool := negb (Z.land (bm_status m) CHFL_VOICE =? 0).
Definition CHFL_VOICED_OR_OPPED : Z := Z.lor CHFL_CHANOP CHFL_VOICE.

Definition compare_member_oplevel (m1 m2 : bmember) : Z :=
  if bm_level m1 =? bm_level m2 then 0 else if bm_level m1 <? bm_level m2 then -1 else 1.

Definition current_flags (flag_cnt : nat) : Z := nth flag_cnt [0; CHFL_VOICE; CHFL_CHANOP; Z.lor CHFL_CHANOP CHFL_VOICE] 0.

(** [msgq_bufleft] and [msgq_append] on a message of 512 bytes *)
Definition bufleft (line : list ascii) : Z := 510 - Z.of_nat (length line).
Definition append (line t : list ascii) : list ascii := take 510 (line ++ t).

(** The variables that live across messages: [member] as the list from it on. *)
Record burst_state : Type := BState {
  b_rest : list bmember; flag_cnt : nat; new_mode : bool; number_of_ops : nat; opped_members : list bmember; send_oplevels : bool; last_oplevel : Z
}.
Definition set_rest (st : burst_state) (l : list bmember) : burst_state := BState l (flag_cnt st) (new_mode st) (number_of_ops st) (opped_members st) (send_oplevels st) (last_oplevel st).
Definition set_new_mode (st : burst_state) (b : bool) : burst_state := BState (b_rest st) (flag_cnt st) b (number_of_ops st) (opped_members st) (send_oplevels st) (last_oplevel st).
Definition set_last (st : burst_state) (v : Z) : burst_state := BState (b_rest st) (flag_cnt st) (new_mode st) (number_of_ops st) (opped_members st) (send_oplevels st) v.
Definition next_group (st : burst_state) (l opped : list bmember) : burst_state := BState l (S (flag_cnt st)) true (number_of_ops st) opped (send_oplevels st) (last_oplevel st).

(** An operator met in the first two passes is counted, then stored. *)
Definition note_op (st : burst_state) (m : bmember) : outcome burst_state :=
  if (flag_cnt st <? 2)%nat && IsChanOp m then
    let low := send_oplevels st || (bm_level m <? MAXOPLEVEL) in
    if (flag_cnt st =? 0)%nat then Ok (BState (b_rest st) (flag_cnt st) (new_mode st) (S (number_of_ops st)) (opped_members st) low (last_oplevel st))
    else if (number_of_ops st <=? length (opped_members st))%nat then Oob
    else Ok (BState (b_rest st) (flag_cnt st) (new_mode st) (number_of_ops st) (opped_members st ++ [m]) low (last_oplevel st))
  else Ok st.

(** The member and its mode: [first ? ' ' : ','], the name, and what [tbuf] holds. *)
Definition put_member (st : burst_state) (m : bmember) (line : list ascii) (first : bool) : burst_state * list ascii :=
  let line := append line ((if first then " "%char else ","%char) :: bm_nick m) in
  if new_mode st then
    let v := if HasVoice m then ["v"%char] else [] in
    let o := if IsChanOp m then if send_oplevels st then take (5 - S (length v)) (decimal 10 (bm_level m)) else ["o"%char] else [] in
    let st := if IsChanOp m && send_oplevels st then set_last st (bm_level m) else st in
    (set_new_mode st false, append line (":"%char :: v ++ o))
  else if send_oplevels st && (1 <? flag_cnt st)%nat && negb (last_oplevel st =? bm_level m) then
    (set_last st (bm_level m), append line (take 4 (":"%char :: decimal 10 (u32 (bm_level m - last_oplevel st)))))
  else (st, line).

(** The [while] over the members: whether the message is full, and [first]. *)
Fixpoint members_loop (rest : list bmember) (st : burst_state) (line : list ascii) (first : bool) : outcome (bool * burst_state * list ascii * bool) :=
  match rest with
  | [] => Ok (false, set_rest st [], line, first)
  | m :: rest' =>
      let* st := note_op st m in
      if Z.land (bm_status m) CHFL_VOICED_OR_OPPED =? current_flags (flag_cnt st) then
        if bufleft line <? 5 + 3 + 3 then Ok (true, set_rest (set_new_mode st (0 <? flag_cnt st)%nat) rest, line, first)
        else let (st, line) := put_member st m line first in members_loop rest' st line false
      else members_loop rest' st line first
  end.

Section Send.
(** [qsort] with [compare_member_oplevel] *)
Context (qsort : list bmember -> list bmember).

(** The [for] over the groups. *)
Fixpoint groups_loop (fuel : nat) (members : list bmember) (st : burst_state) (line : list ascii) (first : bool) : outcome (bool * burst_state * list ascii) :=
  match fuel with
  | O => Fuel
  | S fuel =>
      if (flag_cnt st <? 4)%nat then
        let* (full, st, line, first) := members_loop (b_rest st) st line first in
        if full then Ok (true, st, line)
        else if (flag_cnt st =? 0)%nat then groups_loop fuel members (next_group st members (opped_members st)) line first
        else if (flag_cnt st =? 1)%nat && negb (length (opped_members st) =? number_of_ops st)%nat then Oob
        else
          let opped := if (flag_cnt st =? 1)%nat then qsort (opped_members st) else opped_members st in
          groups_loop fuel members (next_group st opped opped) line first
      else Ok (false, st, line)
  end.

(** The bans; [first] is 2 or 0. *)
Fixpoint bans_loop (bans : list (list ascii)) (line : list ascii) (first : nat) : bool * list (list ascii) * list ascii :=
  match bans with
  | [] => (false, [], line)
  | b :: bans' =>
      if bufleft line <? Z.of_nat (length b + 1 + first) then (true, bans, line)
      else bans_loop bans' (append line (" "%char :: (if (first =? 0)%nat then [] else [":"%char; "%"%char]) ++ b)) 0
  end.

(** The head of a message, with the simple modes in the first one. *)
Definition line_head (prefix modebuf parabuf : list ascii) (first : bool) : list ascii :=
  let mb := take 510 prefix in
  if first && (1 <? length modebuf)%nat then
    let mb := append mb (" "%char :: modebuf) in
    match parabuf with [] => mb | _ => append mb (" "%char :: parabuf) end
  else mb.

(** One message after the other, while something did not fit. *)
Fixpoint burst_loop (fuel : nat) (members : list bmember) (prefix modebuf parabuf : list ascii) (first : bool) (st : burst_state) (bans : list (list ascii)) : outcome (list (list ascii)) :=
  match fuel with
  | O => Fuel
  | S fuel =>
      let* (full, st, mb) := groups_loop 5 members st (line_head prefix modebuf parabuf first) true in
      let '(full, bans, mb) := if full then (true, bans, mb) else bans_loop bans mb 2 in
      if full then let* out := burst_loop fuel members prefix modebuf parabuf false st bans in Ok (mb :: out)
      else Ok [mb]
  end.

Definition send_channel_modes (local : bool) (members : list bmember) (bans : list (list ascii)) (prefix modebuf parabuf : list ascii) : outcome (list (list ascii)) :=
  if local then Ok []
  else burst_loop (S (S (length members + length bans))) members prefix modebuf parabuf true (BState members 0 false 0 [] false 0) bans.
End Send.

(** ** Reading the members *)

(** [do ... while (IsDigit( *ptr))] *)
Fixpoint read_level (ptr : list ascii) (level : Z) : Z * list ascii :=
  match ptr with
  | c :: p => if (48 <=? uchar c) && (uchar c <=? 57) then read_level p (i32 (10 * level + (uchar c - 48))) else (level, ptr)
  | [] => (level, [])
  end.

(** The flags behind a colon: the mode and the level after them. *)
Fixpoint nick_flags (fuel : nat) (ptr : list ascii) (base_mode : Z) (needs_reset : bool) (current_mode oplevel : Z) : outcome (Z * Z) :=
  match fuel with
  | O => Fuel
  | S fuel =>
      match ptr with
      | [] => Ok (current_mode, oplevel)
      | c :: p =>
          let reset := if needs_reset then base_mode else current_mode in
          if c =c "o" then
            let current_mode := Z.lor (Z.ldiff reset (Z.lor CHFL_DEOPPED (Z.lor CHFL_DELAYED CHFL_DELAYED_TARGET))) CHFL_CHANOP in
            match p with
            | d :: p' => if d =c "v" then nick_flags fuel p' base_mode false (Z.lor current_mode CHFL_VOICE) MAXOPLEVEL else nick_flags fuel p base_mode false current_mode MAXOPLEVEL
            | [] => nick_flags fuel p base_mode false current_mode MAXOPLEVEL
            end
          else if c =c "v" then
            nick_flags fuel p base_mode false (Z.lor (Z.ldiff reset (Z.lor CHFL_DELAYED CHFL_DELAYED_TARGET)) CHFL_VOICE) (-1)
          else if (48 <=? uchar c) && (uchar c <=? 57) then
            let '(mode, needs_reset, oplevel) := if oplevel =? -1 then (reset, false, 0) else (current_mode, needs_reset, oplevel) in
            let mode := Z.lor (Z.ldiff mode (Z.lor CHFL_DEOPPED (Z.lor CHFL_DELAYED CHFL_DELAYED_TARGET))) CHFL_CHANOP in
            let (level, rest) := read_level ptr 0 in
            let oplevel := i32 (oplevel + level) in
            if MAXOPLEVEL <? oplevel then Ok (mode, MAXOPLEVEL)
            else nick_flags fuel rest base_mode needs_reset mode oplevel
          else Ok (current_mode, oplevel)
      end
  end.

(** [strchr(nick, ':')]: what is before and, if there is one, behind the colon. *)
Fixpoint split_colon (nick : list ascii) : list ascii * option (list ascii) :=
  match nick with
  | [] => ([], None)
  | c :: p => if c =c ":" then ([], Some p) else let (n, r) := split_colon p in (c :: n, r)
  end.

Section Read.
(** [findNUser(nick)] finds a client behind the link the burst comes from. *)
Context (known : list ascii -> bool).

(** The members of one parameter: name, mode and level of those that are added. *)
Fixpoint nicks_loop (fuel : nat) (set : bool) (save : option (list ascii)) (base_mode current_mode oplevel : Z) : outcome (list (list ascii * Z * Z)) :=
  match fuel with
  | O => Fuel
  | S fuel =>
      let (tok, save) := ircd_strtok [","%char] save in
      match tok with
      | None => Ok []
      | Some nick =>
          let (nick, flags) := split_colon nick in
          let* (current_mode, oplevel) := match flags with
            | Some ptr => if set then nick_flags (S (length ptr)) ptr base_mode true current_mode oplevel else Ok (current_mode, oplevel)
            | None => Ok (current_mode, oplevel)
            end in
          let* r := nicks_loop fuel set save base_mode current_mode oplevel in
          Ok (if known nick then (nick, current_mode, oplevel) :: r else r)
      end
  end.

Definition burst_base (deljoins : bool) : Z := Z.lor (Z.lor CHFL_DEOPPED CHFL_BURST_JOINED) (if deljoins then CHFL_DELAYED else 0).
Definition read_nicks (set deljoins : bool) (nicklist : list ascii) : outcome (list (list ascii * Z * Z)) :=
  nicks_loop (S (length nicklist)) set (Some nicklist) (burst_base deljoins) (burst_base deljoins) (-1).

(** The bans of one parameter, as [pretty_mask] is given them. *)
Fixpoint ban_tokens (fuel : nat) (save : option (list ascii)) : outcome (list (list ascii)) :=
  match fuel with
  | O => Fuel
  | S fuel =>
      let (tok, save) := ircd_strtok [" "%char] save in
      match tok with
      | None => Ok []
      | Some ban => let* r := ban_tokens fuel save in Ok (ban :: r)
      end
  end.

(** [mode_parse]: the parameters it takes, and whether [MODE_DELJOINS] is set behind it. *)
Context (mode_parse : list (list ascii) -> nat * bool).

(** The parameters from the third on: the members, and the bans. *)
Fixpoint read_params (fuel : nat) (set deljoins : bool) (parv : list (list ascii)) : outcome (list (list ascii * Z * Z) * list (list ascii)) :=
  match fuel with
  | O => Fuel
  | S fuel =>
      match parv with
      | [] => Ok ([], [])
      | p :: ps =>
          if deref p =c "+" then let (n, deljoins) := mode_parse parv in read_params fuel set deljoins (drop n parv)
          else if deref p =c "%" then
            let* bs := if set then ban_tokens (S (length p)) (Some (tl p)) else Ok [] in
            let* (es, bs') := read_params fuel set deljoins ps in Ok (es, bs ++ bs')
          else
            let* es := read_nicks set deljoins p in
            let* (es', bs) := read_params fuel set deljoins ps in Ok (es ++ es', bs)
      end
  end.
End Read.

(** ** What is sent of a member *)
Definition in_group (f : nat) (m : bmember) : bool := Z.land (bm_status m) CHFL_VOICED_OR_OPPED =? current_flags f.
Definition safe (c : ascii) : bool := negb ((c =c ",") || (c =c " ") || (c =c NUL)).
Definition plain (c : ascii) : bool := safe c && negb ((c =c ":") || (c =c "+") || (c =c "%")).
Definition member_ok (m : bmember) : Prop := (1 <= length (bm_nick m) <= 5)%nat /\ forallb plain (bm_nick m) = true /\ 0 <= bm_level m <= MAXOPLEVEL.

Lemma group_flags (f : nat) (m : bmember) : (f < 4)%nat -> in_group f m = true -> IsChanOp m = (2 <=? f)%nat /\ HasVoice m = Nat.odd f.
Proof.
  unfold in_group, IsChanOp, HasVoice. intros F E%Z.eqb_eq.
  assert (Z.land (bm_status m) CHFL_CHANOP = Z.land (current_flags f) CHFL_CHANOP) as -> by (rewrite <- E, <- Z.land_assoc; done).
  assert (Z.land (bm_status m) CHFL_VOICE = Z.land (current_flags f) CHFL_VOICE) as -> by (rewrite <- E, <- Z.land_assoc; done).
  destruct f as [|[|[|[|]]]]; try lia; done.
Qed.

(** The text of a level. *)
Lemma level_text (v : Z) : 0 <= v <= MAXOPLEVEL -> exists d ds, decimal 10 v = d :: ds /\ (length ds <= 2)%nat /\ forallb plain (d :: ds) = true /\
  (48 <=? uchar d) && (uchar d <=? 57) = true /\ (d =c "o") = false /\ (d =c "v") = false /\ read_level (d :: ds) 0 = (v, []).
Proof.
  intros H. unfold MAXOPLEVEL in H. assert (forallb (fun n => match decimal 10 (Z.of_nat n) with
    | d :: ds => (length ds <=? 2)%nat && forallb plain (d :: ds) && ((48 <=? uchar d) && (uchar d <=? 57)) && negb (d =c "o") && negb (d =c "v") && (let (l, r) := read_level (d :: ds) 0 in (l =? Z.of_nat n) && match r with [] => true | _ => false end)
    | [] => false end) (seq 0 1000) = true) as A by (vm_compute; reflexivity).
  rewrite forallb_forall in A. specialize (A (Z.to_nat v)). rewrite in_seq in A. specialize (A ltac:(lia)). rewrite Z2Nat.id in A by lia. destruct (decimal 10 v) as [|d ds]; [done|].
  rewrite !andb_true_iff in A. destruct A as [[[[[A1%Nat.leb_le A2] A3] A4%negb_true_iff] A5%negb_true_iff] A6]. exists d, ds. split; [done|]. split; [done|]. split; [done|]. split; [by rewrite andb_true_iff|]. split; [done|]. split; [done|].
  destruct (read_level (d :: ds) 0) as [l r]. apply andb_true_iff in A6 as [E%Z.eqb_eq Er]. destruct r; [by rewrite E|done].
Qed.

Lemma split_plain (n : list ascii) (x : option (list ascii)) : forallb plain n = true -> split_colon (n ++ match x with Some s => ":"%char :: s | None => [] end) = (n, x).
Proof.
  induction n as [|c n IH]; intros H; [by destruct x|]. cbn [forallb] in H. apply andb_true_iff in H as [Hc Hn]. cbn [app split_colon]. unfold plain in Hc. destruct (c =c ":"); [by rewrite andb_false_r in Hc|]. by rewrite IH.
Qed.

(** Reading one token. *)
Definition read_token (base mode lvl : Z) (tok : list ascii) : outcome (list ascii * Z * Z) :=
  let (nick, flags) := split_colon tok in
  let* (mode, lvl) := match flags with Some ptr => nick_flags (S (length ptr)) ptr base true mode lvl | None => Ok (mode, lvl) end in
  Ok (nick, mode, lvl).

(** The modes the reader knows the groups by. *)
Definition group_mode (base : Z) (f : nat) : Z :=
  let shown := Z.lor CHFL_DELAYED CHFL_DELAYED_TARGET in
  let v := Z.lor (Z.ldiff base shown) CHFL_VOICE in
  match f with
  | 0 => base
  | 1 => v
  | 2 => Z.lor (Z.ldiff base (Z.lor CHFL_DEOPPED shown)) CHFL_CHANOP
  | _ => Z.lor (Z.ldiff v (Z.lor CHFL_DEOPPED shown)) CHFL_CHANOP
  end%nat.

Lemma group_mode_op (base : Z) (f : nat) : (2 <= f)%nat -> Z.lor (Z.ldiff (group_mode base f) (Z.lor CHFL_DEOPPED (Z.lor CHFL_DELAYED CHFL_DELAYED_TARGET))) CHFL_CHANOP = group_mode base f.
Proof.
  assert (forall a m c, Z.land c m = 0 -> Z.lor (Z.ldiff (Z.lor (Z.ldiff a m) c) m) c = Z.lor (Z.ldiff a m) c) as E.
  { intros a m c H. apply Z.bits_inj_iff. intros i. rewrite !Z.lor_spec, !Z.ldiff_spec, !Z.lor_spec, !Z.ldiff_spec. assert (Z.testbit c i && Z.testbit m i = false) by (rewrite <- Z.land_spec, H; apply Z.bits_0). destruct (Z.testbit a i), (Z.testbit m i), (Z.testbit c i); done. }
  intros F. destruct f as [|[|[|f]]]; [lia|lia| |]; cbn [group_mode]; apply E; reflexivity.
Qed.

(** The flags of each kind of token. *)
Lemma flags_voice (base mode lvl : Z) (fuel : nat) (p : list ascii) : nick_flags (S fuel) ("v"%char :: p) base true mode lvl = nick_flags fuel p base false (group_mode base 1) (-1).
Proof. done. Qed.
Lemma flags_o (base mode lvl : Z) : nick_flags 2 ["o"%char] base true mode lvl = Ok (group_mode base 2, MAXOPLEVEL).
Proof. done. Qed.
Lemma flags_vo (base mode lvl : Z) : nick_flags 3 ["v"%char; "o"%char] base true mode lvl = Ok (group_mode base 3, MAXOPLEVEL).
Proof. done. Qed.

Lemma flags_level (base mode lvl v : Z) (needs : bool) : 0 <= v <= MAXOPLEVEL -> (lvl = -1 \/ 0 <= lvl) -> (if lvl =? -1 then 0 else lvl) + v <= MAXOPLEVEL ->
  nick_flags (S (length (decimal 10 v))) (decimal 10 v) base needs mode lvl =
    Ok (Z.lor (Z.ldiff (if lvl =? -1 then if needs then base else mode else mode) (Z.lor CHFL_DEOPPED (Z.lor CHFL_DELAYED CHFL_DELAYED_TARGET))) CHFL_CHANOP, (if lvl =? -1 then 0 else lvl) + v).
Proof.
  intros Hv Hl Hs. destruct (level_text v Hv) as (d & ds & E & _ & _ & Dg & No & Nv & R). rewrite E. cbn [nick_flags length]. rewrite No, Nv, Dg, R. unfold MAXOPLEVEL in *.
  assert (forall z, 0 <= z <= 999 -> i32 z = z) as Small by (intros z Hz; unfold i32; rewrite Z.mod_small by lia; lia).
  destruct (Z.eqb_spec lvl (-1)) as [->|N]; rewrite Small by lia; rewrite (proj2 (Z.ltb_ge _ _)) by lia; cbn [nick_flags]; done.
Qed.

(** What the reader knows after the tokens of a line, as the sender relies on it. *)
Definition current_level (st : burst_state) : Z := if send_oplevels st then last_oplevel st else MAXOPLEVEL.
Record line_inv (base : Z) (st : burst_state) (mode lvl : Z) : Prop := {
  li_first : flag_cnt st = O -> new_mode st = false;
  li_none : (flag_cnt st <= 1)%nat \/ flag_cnt st = 2%nat /\ new_mode st = true -> lvl = -1;
  li_mode : new_mode st = false -> mode = group_mode base (flag_cnt st);
  li_level : new_mode st = false -> (2 <= flag_cnt st)%nat -> lvl = current_level st
}.

(** The same but for [new_mode] and [last_oplevel]. *)
Definition same_pass (st st' : burst_state) : Prop :=
  flag_cnt st' = flag_cnt st /\ number_of_ops st' = number_of_ops st /\ opped_members st' = opped_members st /\ send_oplevels st' = send_oplevels st.

Definition entry_level (m : bmember) : Z := if IsChanOp m then bm_level m else -1.

(** Levels of a group never go down, and all are the last one when none is sent. *)
Definition level_fits (st : burst_state) (m : bmember) : Prop :=
  (2 <= flag_cnt st)%nat -> (send_oplevels st = false -> bm_level m = MAXOPLEVEL) /\ (send_oplevels st = true -> new_mode st = false -> 0 <= last_oplevel st <= bm_level m).

Lemma append_fits (line t : list ascii) : (length line + length t <= 510)%nat -> append line t = line ++ t.
Proof. intros L. unfold append. rewrite take_ge; [done|rewrite length_app; lia]. Qed.

Lemma plain_safe (s : list ascii) : forallb plain s = true -> forallb safe s = true.
Proof. rewrite !forallb_forall. intros H c Hc. specialize (H c Hc). unfold plain in H. by apply andb_true_iff in H as [H _]. Qed.

(** The mark at the first member of a group. *)
Definition mark (send : bool) (m : bmember) : list ascii :=
  let v := if HasVoice m then ["v"%char] else [] in
  v ++ if IsChanOp m then if send then take (5 - S (length v)) (decimal 10 (bm_level m)) else ["o"%char] else [].

Lemma mark_read (base mode lvl : Z) (send : bool) (f : nat) (m : bmember) : (1 <= f < 4)%nat -> in_group f m = true -> 0 <= bm_level m <= MAXOPLEVEL ->
  ((2 <= f)%nat -> send = false -> bm_level m = MAXOPLEVEL) -> (f = 2%nat -> lvl = -1) ->
  nick_flags (S (length (mark send m))) (mark send m) base true mode lvl = Ok (group_mode base f, entry_level m) /\ (length (mark send m) <= 4)%nat /\ forallb safe (mark send m) = true.
Proof.
  intros F G Lv Hs Hl. destruct (group_flags f m) as [Eo Ev]; [lia|done|]. unfold mark, entry_level. rewrite Eo, Ev. destruct (level_text _ Lv) as (d & ds & Ed & Ls & Pl & _).
  assert (forall n, (3 <= n)%nat -> take n (decimal 10 (bm_level m)) = decimal 10 (bm_level m)) as Tk by (intros n Hn; apply take_ge; rewrite Ed; cbn [length]; lia).
  assert (forallb safe (decimal 10 (bm_level m)) = true) as Nd by (rewrite Ed; by apply plain_safe). assert (length (decimal 10 (bm_level m)) <= 3)%nat as Ld by (rewrite Ed; cbn [length]; lia).
  destruct f as [|[|[|[|f]]]]; try lia; cbn [Nat.odd Nat.even negb Nat.leb app length].
  - split; [done|]. split; [lia|done].
  - rewrite (Hl eq_refl). destruct send; [|rewrite Hs by (lia || done); split; [done|]; cbn [length]; split; [lia|done]]. rewrite Tk by lia. split; [|split; [lia|done]]. rewrite flags_level by (unfold MAXOPLEVEL in *; cbn; auto; lia). done.
  - destruct send; [|rewrite Hs by (lia || done); split; [done|]; cbn [length]; split; [lia|done]]. rewrite Tk by lia. split; [|split; [lia|exact Nd]].
    rewrite flags_voice, flags_level by (unfold MAXOPLEVEL in *; cbn; auto; lia). done.
Qed.

(** The step from the level before. *)
Lemma step_read (base mode lvl : Z) (f : nat) (m : bmember) : (2 <= f)%nat -> mode = group_mode base f -> 0 <= lvl < bm_level m -> bm_level m <= MAXOPLEVEL ->
  let t := decimal 10 (u32 (bm_level m - lvl)) in
  nick_flags (S (length t)) t base true mode lvl = Ok (group_mode base f, bm_level m) /\ take 4 (":"%char :: t) = ":"%char :: t /\ (length t <= 4)%nat /\ forallb safe t = true.
Proof.
  intros F -> L Lm. unfold MAXOPLEVEL in Lm. cbv zeta. rewrite u32_small by lia. destruct (level_text (bm_level m - lvl)) as (d & ds & Ed & Ls & Pl & _); [unfold MAXOPLEVEL; lia|].
  split; [|rewrite Ed; split; [apply take_ge; cbn [length]; lia|]; split; [cbn [length]; lia|by apply plain_safe]].
  assert ((lvl =? -1) = false) as El by (apply Z.eqb_neq; lia). rewrite flags_level by (unfold MAXOPLEVEL; rewrite ?El; lia). rewrite El, group_mode_op by done. do 2 f_equal. lia.
Qed.

(** A member is put behind the line, and the reader takes it for what it is. *)
Lemma put_spec (base mode lvl : Z) (st : burst_state) (m : bmember) (line : list ascii) (first : bool) :
  (flag_cnt st < 4)%nat -> in_group (flag_cnt st) m = true -> member_ok m -> level_fits st m -> line_inv base st mode lvl -> (length line + 11 <= 510)%nat ->
  exists st' sfx, put_member st m line first = (st', line ++ (if first then " "%char else ","%char) :: bm_nick m ++ sfx) /\ (length sfx <= 5)%nat /\ forallb safe sfx = true /\
    read_token base mode lvl (bm_nick m ++ sfx) = Ok (bm_nick m, group_mode base (flag_cnt st), entry_level m) /\
    same_pass st st' /\ new_mode st' = false /\ (send_oplevels st = true -> (2 <= flag_cnt st)%nat -> last_oplevel st' = bm_level m).
Proof.
  intros F G (Ln & Pn & Lv) Lf I Ll. destruct (group_flags _ _ F G) as [Eo Ev]. unfold put_member. rewrite (append_fits line) by (cbn [length]; lia).
  assert (forall x, read_token base mode lvl (bm_nick m ++ match x with Some s => ":"%char :: s | None => [] end) = let* (mo, l) := match x with Some ptr => nick_flags (S (length ptr)) ptr base true mode lvl | None => Ok (mode, lvl) end in Ok (bm_nick m, mo, l)) as Rt.
  { intros x. unfold read_token. by rewrite split_plain. }
  destruct (new_mode st) eqn:Nm.
  - assert (1 <= flag_cnt st)%nat as F1 by (destruct (flag_cnt st) eqn:Ef; [pose proof (li_first _ _ _ _ I Ef); congruence|lia]).
    destruct (mark_read base mode lvl (send_oplevels st) (flag_cnt st) m) as (R & Lm & Nc); [lia|done|done|intros F2 Se; by apply Lf|intros F2; apply (li_none _ _ _ _ I); by right|].
    change ((if HasVoice m then ["v"%char] else []) ++ _) with (mark (send_oplevels st) m). rewrite append_fits by (rewrite length_app; cbn [length]; lia). eexists _, (":"%char :: mark (send_oplevels st) m).
    split; [f_equal; by rewrite <- (assoc_L (++))|]. split; [cbn [length]; lia|]. split; [exact Nc|]. split; [by rewrite (Rt (Some _)), R|].
    rewrite Eo. split; [by destruct ((2 <=? flag_cnt st)%nat && send_oplevels st)|]. split; [done|]. intros Se F2. by rewrite Se, (proj2 (Nat.leb_le _ _) F2).
  - pose proof (li_mode _ _ _ _ I Nm) as Em. destruct (send_oplevels st && (1 <? flag_cnt st)%nat && negb (last_oplevel st =? bm_level m)) eqn:C.
    + rewrite !andb_true_iff, negb_true_iff in C. destruct C as [[Se F2%Nat.ltb_lt] Nl%Z.eqb_neq]. destruct (Lf ltac:(lia)) as [_ Lb]. specialize (Lb Se Nm).
      assert (lvl = last_oplevel st) as El by (rewrite (li_level _ _ _ _ I Nm) by lia; unfold current_level; by rewrite Se). destruct (step_read base mode lvl (flag_cnt st) m) as (R & Tk & Lt & Nc); [lia|done|lia|lia|].
      rewrite <- El. rewrite Tk. rewrite append_fits by (rewrite length_app; cbn [length]; lia). eexists _, _. split; [f_equal; by rewrite <- (assoc_L (++))|]. split; [cbn [length]; lia|]. split; [exact Nc|].
      split; [rewrite (Rt (Some _)), R; unfold entry_level; by rewrite Eo, (proj2 (Nat.leb_le _ _)) by lia|]. by split.
    + eexists st, []. rewrite !app_nil_r. split; [done|]. split; [cbn; lia|]. split; [done|]. rewrite <- (app_nil_r (bm_nick m)) at 1. rewrite (Rt None). cbn [obind]. rewrite Em.
      assert ((2 <= flag_cnt st)%nat -> send_oplevels st = true -> last_oplevel st = bm_level m) as La by (intros F2 Se; rewrite Se, (proj2 (Nat.ltb_lt 1 _)) in C by lia; cbn [andb] in C; by apply negb_false_iff, Z.eqb_eq in C).
      split; [|split; [done|]; split; [done|auto]]. do 2 f_equal. unfold entry_level. rewrite Eo. destruct (Nat.leb_spec 2 (flag_cnt st)) as [F2|F2]; [|apply (li_none _ _ _ _ I); left; lia].
      rewrite (li_level _ _ _ _ I Nm F2). unfold current_level. destruct (send_oplevels st) eqn:Se; [by apply La|symmetry; by apply Lf].
Qed.

(** ... so that the sender's picture of the reader stays right. *)
Lemma put_inv (base : Z) (st st' : burst_state) (m : bmember) : (flag_cnt st < 4)%nat -> in_group (flag_cnt st) m = true -> level_fits st m -> same_pass st st' -> new_mode st' = false ->
  (send_oplevels st = true -> (2 <= flag_cnt st)%nat -> last_oplevel st' = bm_level m) -> line_inv base st' (group_mode base (flag_cnt st)) (entry_level m).
Proof.
  intros F G Lf (Ef & _ & _ & Es) Nm La. destruct (group_flags _ _ F G) as [Eo _]. constructor; rewrite ?Ef, ?Nm; try done.
  - intros [H|[_ H]]; [|done]. unfold entry_level. by rewrite Eo, (proj2 (Nat.leb_gt _ _)) by lia.
  - intros _ H. unfold entry_level, current_level. rewrite Eo, (proj2 (Nat.leb_le _ _) H), Es. destruct (send_oplevels st) eqn:Se; [by rewrite La|by apply Lf].
Qed.

(** ** A line *)
Fixpoint join (sep : ascii) (toks : list (list ascii)) : list ascii :=
  match toks with
  | [] => []
  | t :: toks => t ++ match toks with [] => [] | _ => sep :: join sep toks end
  end.
Definition is_nil {A : Type} (l : list A) : bool := match l with [] => true | _ => false end.
Definition nicks_text (toks : list (list ascii)) : list ascii := match toks with [] => [] | _ => " "%char :: join ","%char toks end.

Lemma join_snoc (sep : ascii) (toks : list (list ascii)) (t : list ascii) : toks <> [] -> join sep (toks ++ [t]) = join sep toks ++ sep :: t.
Proof.
  induction toks as [|a toks IH]; intros N; [done|]. destruct toks as [|b toks]; [cbn; by rewrite !app_nil_r|]. change (a ++ sep :: join sep ((b :: toks) ++ [t]) = (a ++ sep :: join sep (b :: toks)) ++ sep :: t). rewrite IH by done. by rewrite <- (assoc_L (++)).
Qed.

Lemma nicks_text_snoc (toks : list (list ascii)) (t : list ascii) : nicks_text (toks ++ [t]) = nicks_text toks ++ (if is_nil toks then " "%char else ","%char) :: t.
Proof. destruct toks as [|a toks]; [cbn; by rewrite app_nil_r|]. unfold nicks_text. rewrite join_snoc by done. done. Qed.

(** Reading tokens one after the other. *)
Fixpoint read_toks (base mode lvl : Z) (toks : list (list ascii)) : outcome (list (list ascii * Z * Z) * (Z * Z)) :=
  match toks with
  | [] => Ok ([], (mode, lvl))
  | t :: toks =>
      let* (nick, mode, lvl) := read_token base mode lvl t in
      let* (es, r) := read_toks base mode lvl toks in
      Ok ((nick, mode, lvl) :: es, r)
  end.

Lemma read_toks_snoc (base : Z) (t nick : list ascii) (m2 l2 : Z) (toks : list (list ascii)) : forall mode lvl es m1 l1, read_toks base mode lvl toks = Ok (es, (m1, l1)) -> read_token base m1 l1 t = Ok (nick, m2, l2) ->
  read_toks base mode lvl (toks ++ [t]) = Ok (es ++ [(nick, m2, l2)], (m2, l2)).
Proof.
  induction toks as [|a toks IH]; intros mode lvl es m1 l1 E T; cbn [app read_toks] in *.
  - injection E as <- <- <-. by rewrite T.
  - destruct (read_token base mode lvl a) as [[[n m] l]| |]; [|done|done]. cbn [obind] in *. destruct (read_toks base m l toks) as [[es' r]| |] eqn:E2; [|done|done]. cbn [obind] in E. injection E as <- ->.
    by rewrite (IH m l es' m1 l1 E2 T).
Qed.

Definition nick_token (t : list ascii) : Prop := t <> [] /\ forallb safe t = true /\ plain (deref t) = true.

(** The group of a member, and what the reader is to make of it. *)
Definition group_of (m : bmember) : nat := ((if HasVoice m then 1 else 0) + if IsChanOp m then 2 else 0)%nat.
Definition entry_of (base : Z) (m : bmember) : list ascii * Z * Z := (bm_nick m, group_mode base (group_of m), entry_level m).

Lemma in_group_of (f : nat) (m : bmember) : (f < 4)%nat -> in_group f m = true -> group_of m = f.
Proof. intros F G. destruct (group_flags f m F G) as [Eo Ev]. unfold group_of. rewrite Eo, Ev. destruct f as [|[|[|[|]]]]; [done..|lia]. Qed.

(** What a pass has noted of the operators among [ms]. *)
Definition low (m : bmember) : bool := IsChanOp m && (bm_level m <? MAXOPLEVEL).
Definition noted (st st' : burst_state) (ms : list bmember) : Prop :=
  flag_cnt st' = flag_cnt st /\
  number_of_ops st' = (number_of_ops st + if (flag_cnt st =? 0)%nat then length (List.filter IsChanOp ms) else 0)%nat /\
  opped_members st' = opped_members st ++ (if (flag_cnt st =? 1)%nat then List.filter IsChanOp ms else []) /\
  send_oplevels st' = (send_oplevels st || ((flag_cnt st <? 2)%nat && existsb low ms)).

Lemma noted_nil (st st' : burst_state) : same_pass st st' -> noted st st' [].
Proof. intros (F & N & O & S). unfold noted. rewrite F, N, O, S. cbn [existsb List.filter]. rewrite andb_false_r, orb_false_r. split; [done|]. split; [by destruct (flag_cnt st); cbn [Nat.eqb length]|]. split; [|done]. case_if; by rewrite app_nil_r. Qed.

Lemma noted_trans (st st1 st2 : burst_state) (a b : list bmember) : noted st st1 a -> noted st1 st2 b -> noted st st2 (a ++ b).
Proof.
  intros (F1 & N1 & O1 & S1) (F2 & N2 & O2 & S2). unfold noted. rewrite F2, N2, O2, S2, F1, N1, O1, S1, List.filter_app, existsb_app. split; [done|]. split; [case_if; rewrite ?length_app; lia|]. split; [case_if; rewrite <- ?(assoc_L (++)); done|].
  destruct (flag_cnt st <? 2)%nat; cbn [andb]; [by rewrite <- orb_assoc|by rewrite !orb_false_r].
Qed.

Lemma note_spec (st : burst_state) (m : bmember) : (flag_cnt st = 1%nat -> IsChanOp m = true -> (length (opped_members st) < number_of_ops st)%nat) ->
  exists st', note_op st m = Ok st' /\ noted st st' [m] /\ new_mode st' = new_mode st /\ last_oplevel st' = last_oplevel st.
Proof.
  intros H. unfold note_op, noted, low. cbn [List.filter existsb]. destruct (Nat.ltb_spec (flag_cnt st) 2) as [L|L]; cbn [andb].
  - destruct (IsChanOp m) eqn:E; cbn [andb orb].
    + rewrite orb_false_r. destruct (Nat.eqb_spec (flag_cnt st) 0) as [E0|N0]; [|rewrite (proj2 (Nat.leb_gt _ _)) by (apply H; [lia|done])]; (eexists; split; [reflexivity|]; cbn [flag_cnt number_of_ops opped_members send_oplevels new_mode last_oplevel length]; rewrite ?E0; split; [|done]; split; [done|]).
      * split; [lia|]. split; [by rewrite app_nil_r|done].
      * split; [lia|]. split; [|done]. by rewrite (proj2 (Nat.eqb_eq _ 1)) by lia.
    + exists st. cbn [length]. split; [done|]. split; [|done]. split; [done|]. split; [case_if; lia|]. split; [case_if; by rewrite app_nil_r|by rewrite orb_false_r].
  - exists st. split; [done|]. split; [|done]. split; [done|]. rewrite (proj2 (Nat.eqb_neq _ 0)), (proj2 (Nat.eqb_neq _ 1)) by lia. split; [lia|]. split; [by rewrite app_nil_r|by rewrite orb_false_r].
Qed.

(** ** A pass over the members *)
Definition level_le (a b : bmember) : Prop := bm_level a <= bm_level b.

(** What the last two passes rely on: increasing levels, none below the last one sent. *)
Definition levels_ok (st : burst_state) (rest : list bmember) : Prop :=
  (2 <= flag_cnt st)%nat -> StronglySorted level_le rest /\ (send_oplevels st = false -> Forall (fun m => bm_level m = MAXOPLEVEL) rest) /\
    (send_oplevels st = true -> new_mode st = false -> 0 <= last_oplevel st /\ Forall (fun m => last_oplevel st <= bm_level m) rest).

(** The array of operators has room for those still to come. *)
Definition ops_room (st : burst_state) (rest : list bmember) : Prop :=
  flag_cnt st = 1%nat -> (length (opped_members st) + length (List.filter IsChanOp rest) <= number_of_ops st)%nat.

(** A line so far: its tokens, read as the entries [es], leave the reader at [mode] and [lvl]. *)
Definition line_so_far (base : Z) (head line : list ascii) (first : bool) (es : list (list ascii * Z * Z)) (mode lvl : Z) (toks : list (list ascii)) : Prop :=
  line = head ++ nicks_text toks /\ first = is_nil toks /\ Forall nick_token toks /\ (length line <= 510)%nat /\ read_toks base base (-1) toks = Ok (es, (mode, lvl)).

Definition same_line (st st' : burst_state) : Prop := flag_cnt st' = flag_cnt st /\ new_mode st' = new_mode st /\ last_oplevel st' = last_oplevel st /\ ((2 <= flag_cnt st)%nat -> send_oplevels st' = send_oplevels st).

Lemma same_line_inv (base mode lvl : Z) (st st' : burst_state) : same_line st st' -> line_inv base st mode lvl -> line_inv base st' mode lvl.
Proof. intros (F & N & L & S) [A B C D]. unfold current_level in *. constructor; rewrite ?F, ?N, ?L; auto. intros H1 H2. unfold current_level. rewrite L, S by done. auto. Qed.
Lemma same_line_levels (st st' : burst_state) (rest : list bmember) : same_line st st' -> levels_ok st rest -> levels_ok st' rest.
Proof. intros (F & N & L & S) H F2. rewrite F in F2. rewrite N, L, S by done. by apply H. Qed.
Lemma noted_same_line (st st' : burst_state) (ms : list bmember) : noted st st' ms -> new_mode st' = new_mode st -> last_oplevel st' = last_oplevel st -> same_line st st'.
Proof. intros (F & _ & _ & S) N L. split; [done|]. split; [done|]. split; [done|]. intros F2. by rewrite S, (proj2 (Nat.ltb_ge _ _) F2), orb_false_r. Qed.
Lemma levels_ok_tail (st : burst_state) (m : bmember) (rest : list bmember) : levels_ok st (m :: rest) -> levels_ok st rest.
Proof.
  intros H F. destruct (H F) as (So & A & B). apply StronglySorted_inv in So as [So _]. split; [done|]. split; [intros S; by apply (Forall_inv_tail (A S))|]. intros S N. destruct (B S N) as [B1 B2]. split; [done|by apply (Forall_inv_tail B2)].
Qed.
Lemma levels_ok_fits (st : burst_state) (m : bmember) (rest : list bmember) : levels_ok st (m :: rest) -> level_fits st m.
Proof. intros H F. destruct (H F) as (_ & A & B). split; [intros S; by apply (Forall_inv (A S))|]. intros S N. destruct (B S N) as [B1 B2]. apply Forall_inv in B2. lia. Qed.
Lemma levels_ok_put (st st' : burst_state) (m : bmember) (rest : list bmember) : levels_ok st (m :: rest) -> 0 <= bm_level m -> same_pass st st' ->
  (send_oplevels st = true -> (2 <= flag_cnt st)%nat -> last_oplevel st' = bm_level m) -> levels_ok st' rest.
Proof.
  intros H L (F & _ & _ & S) La F2. rewrite F in F2. destruct (H F2) as (So & A & _). apply StronglySorted_inv in So as [So Ml]. split; [done|]. rewrite S. split; [intros Se; by apply (Forall_inv_tail (A Se))|]. intros Se _. rewrite La by done. by split.
Qed.
Lemma ops_room_tail (st st' : burst_state) (m : bmember) (rest : list bmember) : ops_room st (m :: rest) -> noted st st' [m] -> ops_room st' rest.
Proof.
  intros H (F & N & O & _) F1. rewrite F in F1. specialize (H F1). rewrite N, O, F1. cbn [List.filter Nat.eqb] in *. rewrite length_app. destruct (IsChanOp m); cbn [length] in *; lia.
Qed.

Lemma noted_rest (st st' : burst_state) (ms rest : list bmember) : noted st st' ms -> noted st (set_rest st' rest) ms.
Proof. done. Qed.

(** One member: what is noted of it and, if it is of the group, what is put. *)
Lemma member_put (base mode lvl : Z) (head line : list ascii) (first : bool) (es : list (list ascii * Z * Z)) (toks : list (list ascii)) (st : burst_state) (m : bmember) (rest : list bmember) :
  (flag_cnt st < 4)%nat -> in_group (flag_cnt st) m = true -> member_ok m -> levels_ok st (m :: rest) -> line_inv base st mode lvl -> line_so_far base head line first es mode lvl toks -> (length line + 11 <= 510)%nat ->
  exists st' line' mode' lvl' toks', put_member st m line first = (st', line') /\ same_pass st st' /\ levels_ok st' rest /\ line_inv base st' mode' lvl' /\
    line_so_far base head line' false (es ++ [entry_of base m]) mode' lvl' toks'.
Proof.
  intros F G Ok Lv I (El & Ef & Tk & Ll & R) Room. destruct Ok as (Ln & Pn & Lm). destruct (put_spec base mode lvl st m line first) as (st' & sfx & Ep & Ls & Ns & Rt & Sp & Nm & La); [done..|by eapply levels_ok_fits|done|done|].
  eexists st', _, (group_mode base (flag_cnt st)), (entry_level m), (toks ++ [bm_nick m ++ sfx]). split; [exact Ep|]. split; [done|]. split; [eapply levels_ok_put; eauto; lia|]. split; [eapply put_inv; eauto; by eapply levels_ok_fits|].
  split; [by rewrite nicks_text_snoc, El, Ef, (assoc_L (++))|]. split; [by destruct toks|]. split; [|split].
  - apply Forall_app. split; [done|]. apply Forall_singleton. destruct (bm_nick m) as [|c n] eqn:En; [cbn in Ln; lia|]. split; [done|]. split; [rewrite forallb_app; apply andb_true_iff; split; [by apply plain_safe|done]|]. cbn [app deref forallb] in *. by apply andb_true_iff in Pn as [Pc _].
  - rewrite length_app. cbn [length]. rewrite length_app. lia.
  - unfold entry_of. rewrite (in_group_of _ _ F G). by eapply read_toks_snoc.
Qed.

Definition pass_done (base : Z) (head : list ascii) (es : list (list ascii * Z * Z)) (st : burst_state) (rest : list bmember) (r : outcome (bool * burst_state * list ascii * bool)) : Prop :=
  exists full st' line' first' mode' lvl' toks' seen, r = Ok (full, st', line', first') /\ rest = seen ++ b_rest st' /\ noted st st' seen /\
    line_so_far base head line' first' (es ++ map (entry_of base) (List.filter (in_group (flag_cnt st)) seen)) mode' lvl' toks' /\
    if full then new_mode st' = (0 <? flag_cnt st)%nat /\ (exists m todo, b_rest st' = m :: todo /\ in_group (flag_cnt st) m = true) /\ (500 <= length line')%nat
    else b_rest st' = [] /\ line_inv base st' mode' lvl'.

Lemma note_in_group (st : burst_state) (m : bmember) : (flag_cnt st < 4)%nat -> in_group (flag_cnt st) m = true -> note_op st m = Ok st /\ noted st st [m].
Proof.
  intros F G. destruct (group_flags _ _ F G) as [Eo _]. assert ((flag_cnt st <? 2)%nat && IsChanOp m = false) as E by (rewrite Eo; destruct (Nat.ltb_spec (flag_cnt st) 2), (Nat.leb_spec 2 (flag_cnt st)); lia || done).
  destruct (note_spec st m) as (st' & E' & N & _); [intros F1; rewrite Eo, F1; done|]. unfold note_op in *. rewrite E in *. injection E' as <-. by split.
Qed.

(** The members before those of a pass come in front of what it sends. *)
Lemma pass_skip (base : Z) (head : list ascii) (es : list (list ascii * Z * Z)) (st s1 : burst_state) (m : bmember) (rest : list bmember) (r : outcome (bool * burst_state * list ascii * bool)) :
  noted st s1 [m] -> pass_done base head (es ++ if in_group (flag_cnt st) m then [entry_of base m] else []) s1 rest r -> pass_done base head es st (m :: rest) r.
Proof.
  intros Nt (full & st' & line' & first' & mode' & lvl' & toks' & seen & E & Er & Nt' & L & C). assert (flag_cnt s1 = flag_cnt st) as Ef by apply Nt. rewrite Ef in *. exists full, st', line', first', mode', lvl', toks', (m :: seen). split; [done|].
  split; [by rewrite Er at 1|]. split; [by apply (noted_trans st s1 st' [m] seen)|]. split; [|done]. cbn [List.filter]. destruct (in_group (flag_cnt st) m); cbn [map]; rewrite <- ?(assoc_L (++)) in L; done.
Qed.

Lemma members_loop_spec (base : Z) (head : list ascii) (rest : list bmember) : forall st line first es mode lvl toks,
  (flag_cnt st < 4)%nat -> Forall member_ok rest -> levels_ok st rest -> ops_room st rest -> line_inv base st mode lvl -> line_so_far base head line first es mode lvl toks ->
  pass_done base head es st rest (members_loop rest st line first).
Proof.
  induction rest as [|m rest IH]; intros st line first es mode lvl toks F Ok Lv Or I L; cbn [members_loop].
  - eexists _, _, _, _, mode, lvl, toks, []. split; [done|]. split; [done|]. split; [by apply noted_nil|]. cbn [List.filter map]. rewrite app_nil_r. split; [done|]. split; [done|]. by apply (same_line_inv _ _ _ st).
  - pose proof (Forall_inv Ok) as Okm. apply Forall_inv_tail in Ok. fold (in_group (flag_cnt st) m). destruct (in_group (flag_cnt st) m) eqn:G.
    + destruct (note_in_group st m F G) as [-> Nt]. cbn [obind]. fold (in_group (flag_cnt st) m). rewrite G. unfold bufleft. destruct (Z.ltb_spec (510 - Z.of_nat (length line)) (5 + 3 + 3)) as [B|B].
      * eexists _, _, _, _, mode, lvl, toks, []. split; [done|]. split; [done|]. split; [by apply noted_nil|]. cbn [List.filter map]. rewrite app_nil_r. split; [done|]. split; [done|]. split; [eauto|lia].
      * destruct (member_put base mode lvl head line first es toks st m rest) as (s1 & line1 & mode1 & lvl1 & toks1 & Ep & Sp & Lv1 & I1 & L1); [done..|lia|]. rewrite Ep.
        assert (noted st s1 [m]) as N1 by (destruct Sp as (S1 & S2 & S3 & S4); unfold noted; by rewrite S1, S2, S3, S4).
        eapply pass_skip; [exact N1|]. rewrite G. eapply IH; eauto; [by destruct Sp as [-> _]|by eapply ops_room_tail].
    + destruct (note_spec st m) as (s1 & E1 & Nt & Nm & La). { intros F1 Eo. specialize (Or F1). cbn [List.filter] in Or. rewrite Eo in Or. cbn [length] in Or. lia. }
      rewrite E1. cbn [obind]. pose proof (noted_same_line _ _ _ Nt Nm La) as Sl. assert (flag_cnt s1 = flag_cnt st) as Ef by apply Nt. rewrite Ef. fold (in_group (flag_cnt st) m). rewrite G.
      eapply pass_skip; [exact Nt|]. rewrite G, app_nil_r. eapply IH; eauto; [by rewrite Ef|by eapply levels_ok_tail, same_line_levels|by eapply ops_room_tail|by eapply same_line_inv].
Qed.

(** ** Bans *)
Definition bans_text (bans : list (list ascii)) : list ascii := match bans with [] => [] | _ => " "%char :: ":"%char :: "%"%char :: join " "%char bans end.

Lemma bans_text_snoc (bans : list (list ascii)) (b : list ascii) : bans_text (bans ++ [b]) = bans_text bans ++ " "%char :: (if is_nil bans then [":"%char; "%"%char] else []) ++ b.
Proof. destruct bans as [|a bans]; [cbn; by rewrite app_nil_r|]. unfold bans_text. cbn [app is_nil]. rewrite app_comm_cons, join_snoc by done. done. Qed.

(** As many bans as the line has room for. *)
Lemma bans_loop_spec (head : list ascii) (bans : list (list ascii)) : forall sent, (length (head ++ bans_text sent) <= 510)%nat ->
  exists more rest, bans = more ++ rest /\ bans_loop bans (head ++ bans_text sent) (if is_nil sent then 2 else 0) = (negb (is_nil rest), rest, head ++ bans_text (sent ++ more)) /\
    (length (head ++ bans_text (sent ++ more)) <= 510)%nat /\ match rest with b :: _ => sent ++ more = [] -> (510 < length head + length b + 3)%nat | [] => True end.
Proof.
  induction bans as [|b bans IH]; intros sent L; cbn [bans_loop]; [exists [], []; by rewrite (app_nil_r sent)|]. unfold bufleft. destruct (Z.ltb_spec (510 - Z.of_nat (length (head ++ bans_text sent))) (Z.of_nat (length b + 1 + if is_nil sent then 2 else 0))) as [F|F].
  - exists [], (b :: bans). rewrite (app_nil_r sent). split; [done|]. split; [done|]. split; [done|]. intros ->. cbn [is_nil bans_text] in F. rewrite app_nil_r in F. lia.
  - assert (append (head ++ bans_text sent) (" "%char :: (if ((if is_nil sent then 2 else 0) =? 0)%nat then [] else [":"%char; "%"%char]) ++ b) = head ++ bans_text (sent ++ [b])) as ->.
    { rewrite append_fits; [rewrite bans_text_snoc, <- (assoc_L (++)); by destruct sent|]. destruct (is_nil sent); cbn [Nat.eqb app length]; rewrite ?length_app in *; cbn [length]; lia. }
    assert (forall x, bans_loop bans x 0 = bans_loop bans x (if is_nil (sent ++ [b]) then 2%nat else 0%nat)) as -> by (by destruct sent). destruct (IH (sent ++ [b])) as (more & rest & E & El & Ll & C).
    { rewrite bans_text_snoc, length_app, length_app in *. cbn [length]. rewrite length_app. destruct (is_nil sent); cbn [length]; lia. }
    exists (b :: more), rest. rewrite <- (assoc_L (++)) in *. cbn [app] in *. split; [by rewrite E|]. done.
Qed.

(** ** Fields of a parameter *)
Definition lacks (ch : ascii) (s : list ascii) : bool := forallb (fun c => negb (c =c ch)) s.
Definition token_ok (sep : ascii) (t : list ascii) : Prop := t <> [] /\ lacks sep t = true.
Lemma nick_token_ok (t : list ascii) : nick_token t -> token_ok ","%char t.
Proof. intros (N & S & _). split; [done|]. revert S. unfold lacks. rewrite !forallb_forall. intros S c Hc. specialize (S c Hc). unfold safe in S. by destruct (c =c ","). Qed.

Lemma pieces_lacks (sep : ascii) (t s : list ascii) : lacks sep t = true -> pieces [sep] (t ++ s) = let (w, ws) := pieces [sep] s in (t ++ w, ws).
Proof.
  induction t as [|c t IH]; cbn [lacks forallb app pieces]; [by destruct (pieces [sep] s)|]. intros [H1 H2]%andb_true_iff. rewrite IH by done. destruct (pieces [sep] s) as [w ws]. rewrite bool_decide_false; [done|]. intros E%list_elem_of_singleton. subst c. by rewrite Ascii.eqb_refl in H1.
Qed.
Lemma fields_join (sep : ascii) (toks : list (list ascii)) : Forall (token_ok sep) toks -> fields [sep] (join sep toks) = toks.
Proof.
  induction toks as [|t toks IH]; intros H; [done|]. pose proof (Forall_inv H) as [N L]. apply Forall_inv_tail in H. cbn [join]. unfold fields. rewrite pieces_lacks by done. destruct toks as [|u toks].
  - cbn [pieces]. rewrite app_nil_r. by rewrite filter_cons_True.
  - specialize (IH H). unfold fields in IH. cbn [pieces]. destruct (pieces [sep] (join sep (u :: toks))) as [w ws]. rewrite bool_decide_true by (by apply list_elem_of_singleton). rewrite app_nil_r, filter_cons_True by done. by rewrite IH.
Qed.

(** ** Reading a line *)
Lemma nicks_loop_fields (known : list ascii -> bool) (fuel : nat) : forall save base mode lvl es r, (match save with Some s => length s | None => 0 end < fuel)%nat ->
  read_toks base mode lvl (match save with Some s => fields [","%char] s | None => [] end) = Ok (es, r) -> nicks_loop known fuel true save base mode lvl = Ok (List.filter (fun e => known e.1.1) es).
Proof.
  induction fuel as [|fuel IH]; intros save base mode lvl es r L E; [lia|]. cbn [nicks_loop]. destruct save as [s|]; [|cbn in *; by injection E as <- <-]. pose proof (ircd_strtok_spec [","%char] s) as T.
  destruct (ircd_strtok [","%char] (Some s)) as [[t|] save]; [|rewrite T in E; cbn in E; by injection E as <- <-]. destruct T as (_ & Ef & Ls). assert (0 < length s)%nat as L0 by (destruct s; [done|cbn; lia]). rewrite Ef in E. cbn [read_toks] in E. unfold read_token in E.
  destruct (split_colon t) as [nick flags]. destruct (match flags with Some ptr => nick_flags (S (length ptr)) ptr base true mode lvl | None => Ok (mode, lvl) end) as [[m1 l1]| |]; [|done|done]. cbn [obind] in *.
  destruct (read_toks base m1 l1 _) as [[es' r']| |] eqn:E2 in E; [|done|done]. cbn [obind] in E. injection E as <- <-. rewrite (IH save base m1 l1 es' r'); [|destruct save; lia|done]. cbn [obind List.filter fst]. by destruct (known nick).
Qed.

Lemma ban_tokens_fields (fuel : nat) : forall save, (match save with Some s => length s | None => 0 end < fuel)%nat -> ban_tokens fuel save = Ok (match save with Some s => fields [" "%char] s | None => [] end).
Proof.
  induction fuel as [|fuel IH]; intros save L; [lia|]. cbn [ban_tokens]. destruct save as [s|]; [|done]. pose proof (ircd_strtok_spec [" "%char] s) as T. destruct (ircd_strtok [" "%char] (Some s)) as [[t|] save]; [|by rewrite T].
  destruct T as (_ & Ef & Ls). assert (0 < length s)%nat as L0 by (destruct s; [done|cbn; lia]). rewrite Ef, IH by (destruct save; lia). done.
Qed.

(** A line behind its head, as the parser splits and [ms_burst] reads it. *)
Definition ban_token (b : list ascii) : Prop := token_ok " "%char b /\ no_nul b.
Definition part_text (toks bans : list (list ascii)) : list ascii := nicks_text toks ++ bans_text bans.
Definition read_part (known : list ascii -> bool) (mode_parse : list (list ascii) -> nat * bool) (deljoins : bool) (i : Z) (part : list ascii) : outcome (list (list ascii * Z * Z) * list (list ascii)) :=
  let* ps := split_params (S (length part)) (part ++ [NUL]) i MAXPARA false in read_params known mode_parse (S (length ps)) true deljoins ps.

Definition part_params (toks bans : list (list ascii)) : list (list ascii) := (if is_nil toks then [] else [join ","%char toks]) ++ if is_nil bans then [] else ["%"%char :: join " "%char bans].

Lemma join_words (toks : list (list ascii)) : Forall nick_token toks -> forallb in_word (join ","%char toks) = true.
Proof.
  induction toks as [|t toks IH]; intros H; [done|]. pose proof (Forall_inv H) as (_ & S & _). apply Forall_inv_tail in H. cbn [join]. rewrite forallb_app. apply andb_true_iff. split.
  - revert S. rewrite !forallb_forall. intros S c Hc. specialize (S c Hc). unfold safe, in_word in *. by destruct (c =c ","), (c =c " "), (c =c NUL).
  - destruct toks; [done|]. cbn [forallb]. by rewrite IH.
Qed.
Lemma join_no_nul (bans : list (list ascii)) : Forall ban_token bans -> no_nul (join " "%char bans).
Proof.
  induction bans as [|b bans IH]; intros H; [by apply not_elem_of_nil|]. pose proof (Forall_inv H) as (_ & N). apply Forall_inv_tail in H. cbn [join]. apply not_elem_of_app. split; [done|]. destruct bans; [by apply not_elem_of_nil|]. apply not_elem_of_cons. split; [done|by apply IH].
Qed.
Lemma lword_all (w : list ascii) : forallb in_word w = true -> lword w = w /\ lrest w = [].
Proof. induction w as [|c w IH]; [done|]. cbn [forallb]. intros [H1 H2]%andb_true_iff. unfold in_word in H1. apply negb_true_iff in H1. cbn [lword lrest]. rewrite H1. by destruct (IH H2) as [-> ->]. Qed.

Lemma split_bans (fuel : nat) (i n : Z) (bans : list (list ascii)) : Forall ban_token bans -> (length (bans_text bans) < fuel)%nat -> lsplit fuel (bans_text bans) i n false = if is_nil bans then [] else ["%"%char :: join " "%char bans].
Proof.
  intros H L. destruct fuel as [|fuel]; [lia|]. destruct bans as [|b bans]; [done|].
  change (lsplit (S fuel) (bans_text (b :: bans)) i n false) with ["%"%char :: lstring (join " "%char (b :: bans))]. by rewrite lstring_no_nul by (by apply join_no_nul).
Qed.

(** The parser gives the members and the bans as two parameters. *)
Lemma split_part (i : Z) (toks bans : list (list ascii)) : i + 2 <= MAXPARA -> Forall nick_token toks -> Forall ban_token bans ->
  split_params (S (length (part_text toks bans))) (part_text toks bans ++ [NUL]) i MAXPARA false = Ok (part_params toks bans).
Proof.
  intros Hi Ht Hb. rewrite (split_line []) by lia. f_equal. unfold part_text, part_params. destruct toks as [|t toks]; [by apply split_bans; [|cbn; lia]|]. cbn [nicks_text is_nil app]. pose proof (join_words _ Ht) as W.
  destruct (Forall_inv Ht) as (N & _ & P). assert (exists c J, join ","%char (t :: toks) = c :: J /\ plain c = true) as (c & J & EJ & Pc) by (destruct t as [|c t]; [done|]; eexists c, _; split; [reflexivity|done]). rewrite EJ in *.
  assert ((c =c " ") = false /\ (c =c NUL) = false /\ (c =c ":") = false) as (N1 & N2 & N3) by (unfold plain, safe in Pc; by destruct (c =c " "), (c =c NUL), (c =c ":"), (c =c ",")).
  assert (forall X, lskip (" "%char :: (c :: J) ++ X) = c :: J ++ X) as Sk by (intros X; cbn; by rewrite N1). cbn [lsplit]. rewrite Sk, N2, N3, (proj2 (Z.leb_gt _ _)) by lia. destruct bans as [|b bans].
  - cbn [bans_text is_nil]. rewrite app_nil_r. destruct (lword_all (c :: J) W) as [-> ->]. done.
  - change (c :: J ++ bans_text (b :: bans)) with ((c :: J) ++ bans_text (b :: bans)). destruct (lword_app (c :: J) (":"%char :: "%"%char :: join " "%char (b :: bans)) W) as [Ew Er]. cbn [bans_text] in *. rewrite Ew, Er. f_equal.
    change (" "%char :: ":"%char :: "%"%char :: join " "%char (b :: bans)) with (bans_text (b :: bans)). apply split_bans; [done|]. cbn [length]. rewrite length_app. cbn [length]. lia.
Qed.

Lemma read_params_nicks (known : list ascii -> bool) (mode_parse : list (list ascii) -> nat * bool) (fuel : nat) (set deljoins : bool) (p : list ascii) (ps : list (list ascii)) : plain (deref p) = true ->
  read_params known mode_parse (S fuel) set deljoins (p :: ps) = let* es := read_nicks known set deljoins p in let* (es', bs) := read_params known mode_parse fuel set deljoins ps in Ok (es ++ es', bs).
Proof. intros P. unfold plain, safe in P. cbn [read_params]. by destruct (deref p =c "+"), (deref p =c "%"), (deref p =c ","), (deref p =c " "), (deref p =c NUL), (deref p =c ":"). Qed.

Lemma read_part_text (known : list ascii -> bool) (mode_parse : list (list ascii) -> nat * bool) (deljoins : bool) (i : Z) (toks bans : list (list ascii)) (es : list (list ascii * Z * Z)) (r : Z * Z) :
  i + 2 <= MAXPARA -> Forall nick_token toks -> Forall ban_token bans -> read_toks (burst_base deljoins) (burst_base deljoins) (-1) toks = Ok (es, r) ->
  read_part known mode_parse deljoins i (part_text toks bans) = Ok (List.filter (fun e => known e.1.1) es, bans).
Proof.
  intros Hi Ht Hb E. unfold read_part. rewrite split_part by done. cbn [obind]. unfold part_params.
  assert (forall fuel, ((if is_nil bans then 0 else 1) <= fuel)%nat -> read_params known mode_parse (S fuel) true deljoins (if is_nil bans then [] else ["%"%char :: join " "%char bans]) = Ok ([], bans)) as Rb.
  { intros fuel L. destruct bans as [|b bans]; [done|]. cbn [is_nil read_params tl]. change (deref ("%"%char :: _) =c "+") with false. change (deref ("%"%char :: _) =c "%") with true. cbv match. rewrite ban_tokens_fields by (cbn [length]; lia).
    rewrite fields_join by (eapply Forall_impl; [exact Hb|by intros ? []]). destruct fuel; [cbn in L; lia|]. cbn [obind read_params]. by rewrite app_nil_r. }
  destruct toks as [|t toks]; cbn [is_nil app]; [cbn in E; injection E as <- <-; apply Rb; destruct bans; cbn; lia|].
  destruct (Forall_inv Ht) as (N & _ & P). assert (deref (join ","%char (t :: toks)) = deref t) as Ed by (by destruct t). cbn [length]. rewrite read_params_nicks by (by rewrite Ed).
  unfold read_nicks. erewrite nicks_loop_fields; [|lia|by rewrite fields_join by (eapply Forall_impl; [exact Ht|apply nick_token_ok])]. cbn [obind]. rewrite Rb by (by destruct bans; cbn; lia). cbn [obind]. by rewrite app_nil_r.
Qed.

(** A member is of one group. *)
Lemma in_group_eq (f : nat) (m : bmember) : (f < 4)%nat -> in_group f m = (group_of m =? f)%nat.
Proof.
  intros F. destruct (in_group f m) eqn:G; [by rewrite (in_group_of _ _ F G), Nat.eqb_refl|]. symmetry. apply Nat.eqb_neq. intros <-. unfold in_group in G. apply Z.eqb_neq in G. apply G. clear G F. unfold group_of, HasVoice, IsChanOp.
  change CHFL_VOICED_OR_OPPED with (Z.ones 2). rewrite Z.land_ones by lia.
  assert (forall k, Z.land (bm_status m) (Z.land (Z.ones 2) k) = Z.land (bm_status m mod 2 ^ 2) k) as L by (intros k; by rewrite Z.land_assoc, Z.land_ones by lia).
  change CHFL_VOICE with (Z.land (Z.ones 2) 2). change CHFL_CHANOP with (Z.land (Z.ones 2) 1). rewrite !L. pose proof (Z.mod_pos_bound (bm_status m) (2 ^ 2)) as B.
  assert (bm_status m mod 2 ^ 2 = 0 \/ bm_status m mod 2 ^ 2 = 1 \/ bm_status m mod 2 ^ 2 = 2 \/ bm_status m mod 2 ^ 2 = 3) as [E|[E|[E|E]]] by lia; rewrite E; reflexivity.
Qed.

Lemma ops_group (f : nat) (ms : list bmember) : (2 <= f < 4)%nat -> List.filter (in_group f) (List.filter IsChanOp ms) = List.filter (in_group f) ms.
Proof.
  intros F. induction ms as [|m ms IH]; [done|]. cbn [List.filter]. destruct (in_group f m) eqn:G.
  - destruct (group_flags f m) as [Eo _]; [lia|done|]. rewrite Eo, (proj2 (Nat.leb_le _ _)) by lia. cbn [List.filter]. by rewrite G, IH.
  - destruct (IsChanOp m); cbn [List.filter]; [rewrite G|]; done.
Qed.

Lemma four_groups (ms : list bmember) : List.filter (in_group 0) ms ++ List.filter (in_group 1) ms ++ List.filter (in_group 2) ms ++ List.filter (in_group 3) ms ≡ₚ ms.
Proof.
  induction ms as [|m ms IH]; [done|]. cbn [List.filter]. rewrite !in_group_eq by lia. etrans; [|apply perm_skip, IH]. assert (group_of m = 0 \/ group_of m = 1 \/ group_of m = 2 \/ group_of m = 3)%nat as [-> | [-> | [-> | ->]]] by (unfold group_of; destruct (HasVoice m), (IsChanOp m); auto); cbn [Nat.eqb app];
    rewrite ?(assoc_L (++)); [done| | |]; (symmetry; apply Permutation_cons_app); rewrite ?(assoc_L (++)); done.
Qed.

(** ** The four passes *)
Section Passes.
Context (qsort : list bmember -> list bmember).
Hypothesis qsort_perm : forall l, qsort l ≡ₚ l.
Hypothesis qsort_sorted : forall l, StronglySorted level_le (qsort l).
Context (base : Z) (members : list bmember).
Hypothesis members_ok : Forall member_ok members.

(** What a pass walks over, and what is still to be sent. *)
Definition walked (f : nat) : list bmember := if (f <? 2)%nat then members else qsort (List.filter IsChanOp members).
Definition later (f : nat) : list bmember := flat_map (fun g => List.filter (in_group g) (walked g)) (seq f (4 - f)).
Definition pending (st : burst_state) : list bmember := if (flag_cnt st <? 4)%nat then List.filter (in_group (flag_cnt st)) (b_rest st) ++ later (S (flag_cnt st)) else [].

Definition burst_inv (st : burst_state) : Prop :=
  (flag_cnt st <= 4)%nat /\ exists seen, walked (flag_cnt st) = seen ++ b_rest st /\
    number_of_ops st = length (List.filter IsChanOp (if (flag_cnt st =? 0)%nat then seen else members)) /\
    opped_members st = (if (flag_cnt st =? 0)%nat then [] else if (flag_cnt st =? 1)%nat then List.filter IsChanOp seen else qsort (List.filter IsChanOp members)) /\
    send_oplevels st = existsb low (if (flag_cnt st =? 0)%nat then seen else members).

(** The start of a pass, in a new line or behind the pass before. *)
Definition at_start (st : burst_state) (mode lvl : Z) : Prop := new_mode st = (0 <? flag_cnt st)%nat /\ ((flag_cnt st <= 2)%nat -> lvl = -1) /\ (flag_cnt st = O -> mode = base).

Lemma start_inv (st : burst_state) (mode lvl : Z) : at_start st mode lvl -> line_inv base st mode lvl.
Proof. intros (N & L & M). constructor; rewrite N; [by intros ->|intros H; apply L; lia|intros H%Nat.ltb_ge|intros H%Nat.ltb_ge; lia]. destruct (flag_cnt st); [by apply M|lia]. Qed.

Lemma walked_ok (f : nat) : Forall member_ok (walked f).
Proof. unfold walked. destruct (f <? 2)%nat; [done|]. rewrite qsort_perm. apply List.Forall_forall. intros m [H _]%List.filter_In. revert m H. by apply List.Forall_forall. Qed.

Lemma inv_rest_ok (st : burst_state) : burst_inv st -> Forall member_ok (b_rest st).
Proof. intros (_ & seen & E & _). pose proof (walked_ok (flag_cnt st)) as H. rewrite E in H. by apply Forall_app in H as [_ H]. Qed.

Lemma inv_room (st : burst_state) : burst_inv st -> ops_room st (b_rest st).
Proof. intros (_ & seen & E & N & O & _) F. rewrite F in *. cbn [Nat.eqb Nat.ltb Nat.leb walked] in *. unfold walked in E. cbn in E. rewrite N, O, E, List.filter_app, length_app. lia. Qed.

Lemma inv_levels (st : burst_state) (mode lvl : Z) : burst_inv st -> at_start st mode lvl -> levels_ok st (b_rest st).
Proof.
  intros (_ & seen & E & _ & _ & Se) (N & _) F. assert ((flag_cnt st <? 2)%nat = false) as F2 by (apply Nat.ltb_ge; lia). unfold walked in E. rewrite F2 in E. rewrite (proj2 (Nat.eqb_neq _ 0)) in Se by lia.
  split; [pose proof (qsort_sorted (List.filter IsChanOp members)) as H; rewrite E in H; by apply StronglySorted_app in H as (_ & _ & H)|]. split; [|intros _ Nm; rewrite N in Nm; apply Nat.ltb_ge in Nm; lia].
  intros S0. rewrite S0 in Se. apply Forall_forall. intros m Hm. assert (m ∈ List.filter IsChanOp members) as Hf by (rewrite <- (qsort_perm (List.filter IsChanOp members)), E; apply elem_of_app; by right). apply list_elem_of_In, List.filter_In in Hf as [Hi Ho].
  rewrite List.Forall_forall in members_ok. destruct (members_ok m Hi) as (_ & _ & Lm). destruct (Z.ltb_spec (bm_level m) MAXOPLEVEL) as [Hl|Hl]; [|lia].
  assert (existsb low members = true) as C; [|congruence]. apply existsb_exists. exists m. split; [done|]. unfold low. rewrite Ho. by apply Z.ltb_lt.
Qed.

Lemma inv_pass (st st' : burst_state) (seen : list bmember) : burst_inv st -> noted st st' seen -> b_rest st = seen ++ b_rest st' -> burst_inv st'.
Proof.
  intros (F & old & E & N & O & Se) (Ef & En & Eo & Es) Er. unfold burst_inv. rewrite Ef. split; [done|]. exists (old ++ seen). rewrite E, Er, (assoc_L (++)). split; [done|]. rewrite En, Eo, Es, N, O, Se. unfold walked in E.
  destruct (flag_cnt st) as [|[|f]]; cbn [Nat.eqb Nat.ltb Nat.leb andb] in *.
  - rewrite List.filter_app, length_app, existsb_app. done.
  - rewrite List.filter_app. split; [lia|]. split; [done|]. rewrite E, Er, !existsb_app. destruct (existsb low old), (existsb low seen), (existsb low (b_rest st')); done.
  - rewrite app_nil_r, orb_false_r. by split; [lia|].
Qed.

(** The state behind a pass that has come to its end. *)
Definition after_pass (st : burst_state) : burst_state :=
  if (flag_cnt st =? 0)%nat then next_group st members (opped_members st) else let opped := if (flag_cnt st =? 1)%nat then qsort (opped_members st) else opped_members st in next_group st opped opped.

Lemma inv_next (st : burst_state) : burst_inv st -> b_rest st = [] -> (flag_cnt st < 4)%nat -> burst_inv (after_pass st) /\ (flag_cnt st = 1%nat -> length (opped_members st) = number_of_ops st).
Proof.
  intros (F & old & E & N & O & Se) Er F4. rewrite Er, app_nil_r in E. unfold burst_inv, after_pass, walked in *. destruct (flag_cnt st) as [|[|f]] eqn:Ef; cbn [Nat.eqb Nat.ltb Nat.leb next_group flag_cnt b_rest number_of_ops opped_members send_oplevels] in *; rewrite ?Ef; cbn [Nat.eqb Nat.ltb Nat.leb].
  - split; [|done]. split; [lia|]. exists []. subst old. by rewrite N, O, Se.
  - subst old. split; [|by rewrite N, O]. split; [lia|]. exists []. by rewrite N, O, Se.
  - split; [|done]. split; [lia|]. exists []. by rewrite N, O, Se.
Qed.

Lemma later_step (f : nat) : (f < 4)%nat -> later f = List.filter (in_group f) (walked f) ++ later (S f).
Proof. intros F. unfold later. replace (4 - f)%nat with (S (4 - S f)) by lia. done. Qed.

Lemma after_fields (st : burst_state) : burst_inv st -> b_rest st = [] -> (flag_cnt st < 4)%nat -> flag_cnt (after_pass st) = S (flag_cnt st) /\ new_mode (after_pass st) = true /\ pending (after_pass st) = pending st.
Proof.
  intros I Er F. assert (flag_cnt (after_pass st) = S (flag_cnt st) /\ new_mode (after_pass st) = true) as [E1 E2] by (unfold after_pass; by destruct (flag_cnt st =? 0)%nat). split; [done|]. split; [done|].
  unfold pending. rewrite E1, (proj2 (Nat.ltb_lt _ _) F), Er. cbn [List.filter app]. destruct (Nat.ltb_spec (S (flag_cnt st)) 4) as [F4|F4]; [|unfold later; by replace (4 - S (flag_cnt st))%nat with 0%nat by lia].
  rewrite (later_step (S (flag_cnt st))) by done. do 2 f_equal. destruct I as (_ & old & E & _ & O & _). rewrite Er, app_nil_r in E. unfold walked, after_pass in *. destruct (flag_cnt st) as [|[|f]]; cbn in *; [done| |done]. by rewrite O, <- E.
Qed.

Lemma groups_step (fuel : nat) (st : burst_state) (line : list ascii) (first : bool) : (flag_cnt st = 1%nat -> length (opped_members st) = number_of_ops st) ->
  (if (flag_cnt st =? 0)%nat then groups_loop qsort fuel members (next_group st members (opped_members st)) line first
   else if (flag_cnt st =? 1)%nat && negb (length (opped_members st) =? number_of_ops st)%nat then Oob
   else let opped := if (flag_cnt st =? 1)%nat then qsort (opped_members st) else opped_members st in groups_loop qsort fuel members (next_group st opped opped) line first)
  = groups_loop qsort fuel members (after_pass st) line first.
Proof. intros H. unfold after_pass. destruct (Nat.eqb_spec (flag_cnt st) 0); [done|]. destruct (Nat.eqb_spec (flag_cnt st) 1) as [E|]; [|done]. by rewrite H, Nat.eqb_refl by done. Qed.

Definition line_done (head : list ascii) (es : list (list ascii * Z * Z)) (st : burst_state) (r : outcome (bool * burst_state * list ascii)) : Prop :=
  exists full st' line' toks' mode' lvl' sent first', r = Ok (full, st', line') /\ burst_inv st' /\ pending st = sent ++ pending st' /\
    line_so_far base head line' first' (es ++ map (entry_of base) sent) mode' lvl' toks' /\ new_mode st' = (0 <? flag_cnt st')%nat /\
    if full then (500 <= length line')%nat /\ pending st' <> [] else flag_cnt st' = 4%nat.

Lemma groups_loop_spec (head : list ascii) (fuel : nat) : forall st line first es mode lvl toks, (5 <= fuel + flag_cnt st)%nat -> burst_inv st -> at_start st mode lvl -> line_so_far base head line first es mode lvl toks ->
  line_done head es st (groups_loop qsort fuel members st line first).
Proof.
  induction fuel as [|fuel IH]; intros st line first es mode lvl toks Fu I At L; [destruct I; lia|]. cbn [groups_loop]. destruct (Nat.ltb_spec (flag_cnt st) 4) as [F|F].
  - destruct (members_loop_spec base head (b_rest st) st line first es mode lvl toks) as (full & s1 & line1 & first1 & mode1 & lvl1 & toks1 & seen & E & Er & Nt & L1 & C);
      [done|by apply inv_rest_ok|by eapply inv_levels|by apply inv_room|by apply start_inv|done|]. rewrite E. cbn [obind]. pose proof (inv_pass _ _ _ I Nt Er) as I1. assert (flag_cnt s1 = flag_cnt st) as Ef by apply Nt.
    assert (pending st = List.filter (in_group (flag_cnt st)) seen ++ pending s1) as Ep. { unfold pending. rewrite Ef, (proj2 (Nat.ltb_lt _ _) F), Er, List.filter_app, <- (assoc_L (++)). done. }
    destruct full.
    + destruct C as (Nm & (m & todo & Em & G) & Ll). eexists _, _, _, _, _, _, _, _. split; [done|]. split; [done|]. split; [exact Ep|]. split; [exact L1|]. rewrite Ef. split; [done|]. split; [done|].
      unfold pending. rewrite Ef, (proj2 (Nat.ltb_lt _ _) F), Em. cbn [List.filter]. by rewrite G.
    + destruct C as [Er1 I1l]. destruct (inv_next s1 I1 Er1) as [I2 Ol]; [lia|]. destruct (after_fields s1 I1 Er1) as (F2 & N2 & P2); [lia|]. rewrite groups_step by done.
      destruct (IH (after_pass s1) line1 first1 (es ++ map (entry_of base) (List.filter (in_group (flag_cnt st)) seen)) mode1 lvl1 toks1) as (full & s3 & line3 & toks3 & mode3 & lvl3 & sent & first3 & E3 & I3 & P3 & L3 & C3); [lia|done| |done|].
      { split; [by rewrite F2, N2|]. rewrite F2. split; [|lia]. intros H. apply (li_none _ _ _ _ I1l). left. lia. }
      exists full, s3, line3, toks3, mode3, lvl3, (List.filter (in_group (flag_cnt st)) seen ++ sent), first3. split; [done|]. split; [done|]. split; [by rewrite Ep, <- P2, P3, (assoc_L (++))|]. split; [|done]. by rewrite map_app, (assoc_L (++)).
  - eexists _, _, _, toks, mode, lvl, [], first. split; [done|]. split; [done|]. split; [done|]. cbn [map]. rewrite app_nil_r. split; [done|]. split; [by apply At|]. destruct I; lia.
Qed.

(** The start of a burst. *)
Definition burst_start : burst_state := BState members 0 false 0 [] false 0.
Lemma pending_start : pending burst_start ≡ₚ members.
Proof.
  unfold pending, later, walked. cbn [burst_start flag_cnt b_rest Nat.ltb Nat.leb Nat.sub seq flat_map]. rewrite app_nil_r.
  rewrite (filter_perm (in_group 2) _ _ (qsort_perm _)), (filter_perm (in_group 3) _ _ (qsort_perm _)), !ops_group by lia. apply four_groups.
Qed.

Lemma start_ok : burst_inv burst_start.
Proof. split; [cbn; lia|]. exists []. done. Qed.
End Passes.

(** ** The whole burst *)
Section Whole.
Context (qsort : list bmember -> list bmember).
Hypothesis qsort_perm : forall l, qsort l ≡ₚ l.
Hypothesis qsort_sorted : forall l, StronglySorted level_le (qsort l).
Context (known : list ascii -> bool) (mode_parse : list (list ascii) -> nat * bool) (deljoins : bool) (i : Z).
Hypothesis i_room : i + 2 <= MAXPARA.
Context (members : list bmember) (prefix modebuf parabuf : list ascii).
Hypothesis members_ok : Forall member_ok members.
Hypothesis prefix_room : (length prefix + 11 <= 510)%nat.

Fixpoint with_heads (first : bool) (parts : list (list ascii)) : list (list ascii) :=
  match parts with [] => [] | p :: ps => (line_head prefix modebuf parabuf first ++ p) :: with_heads false ps end.

(** The lines behind their heads, read one after the other. *)
Fixpoint read_all (parts : list (list ascii)) : outcome (list (list ascii * Z * Z) * list (list ascii)) :=
  match parts with
  | [] => Ok ([], [])
  | p :: ps =>
      let* (es, bs) := read_part known mode_parse deljoins i p in
      let* (es', bs') := read_all ps in
      Ok (es ++ es', bs ++ bs')
  end.

Definition ban_fits (b : list ascii) : Prop := ban_token b /\ (length prefix + length b + 3 <= 510)%nat.
Abbreviation base := (burst_base deljoins).
Abbreviation seen es := (List.filter (fun e : list ascii * Z * Z => known e.1.1) es).

Lemma read_toks_length (b : Z) (toks : list (list ascii)) : forall mode lvl es r, read_toks b mode lvl toks = Ok (es, r) -> length es = length toks.
Proof.
  induction toks as [|t toks IH]; intros mode lvl es r E; cbn [read_toks] in E; [by injection E as <- <-|]. destruct (read_token b mode lvl t) as [[[n m] l]| |]; [|done|done]. cbn [obind] in E. destruct (read_toks b m l toks) as [[es' r']| |] eqn:E'; [|done|done]. cbn [obind] in E. injection E as <- <-. cbn [length]. f_equal. by eapply IH.
Qed.

Lemma head_length (first : bool) : (length (line_head prefix modebuf parabuf first) <= 510)%nat /\ (first = false -> line_head prefix modebuf parabuf first = prefix).
Proof.
  split; [|intros ->; apply take_ge; lia]. unfold line_head, append. destruct (first && _); [destruct parabuf|]; rewrite length_take; lia.
Qed.

(** The rest of the lines, and what is read of them, behind one line. *)
Lemma more_lines (toks more rest : list (list ascii)) (sent todo : list bmember) (r : Z * Z) (parts : list (list ascii)) :
  Forall nick_token toks -> Forall ban_token more -> read_toks base base (-1) toks = Ok (map (entry_of base) sent, r) -> read_all parts = Ok (seen (map (entry_of base) todo), rest) ->
  read_all (part_text toks more :: parts) = Ok (seen (map (entry_of base) (sent ++ todo)), more ++ rest).
Proof. intros Ht Hb E R. cbn [read_all]. rewrite (read_part_text _ _ _ _ _ _ _ _ i_room Ht Hb E). cbn [obind]. rewrite R. cbn [obind]. by rewrite map_app, List.filter_app. Qed.

Definition bursts (first : bool) (st : burst_state) (bans : list (list ascii)) (out : outcome (list (list ascii))) : Prop :=
  exists parts, out = Ok (with_heads first parts) /\ read_all parts = Ok (seen (map (entry_of base) (pending qsort members st)), bans) /\ Forall (fun l => (length l <= 510)%nat) (with_heads first parts).

Lemma burst_loop_spec (fuel : nat) : forall (first : bool) st bans, burst_inv qsort members st -> new_mode st = (0 <? flag_cnt st)%nat -> Forall ban_fits bans ->
  (length (pending qsort members st) + length bans + (if first then 2 else 1) <= fuel)%nat -> bursts first st bans (burst_loop qsort fuel members prefix modebuf parabuf first st bans).
Proof.
  induction fuel as [|fuel IH]; intros first st bans I Nm Hb Fu; [destruct first; lia|]. cbn [burst_loop]. destruct (head_length first) as [Hl Hp]. set (head := line_head prefix modebuf parabuf first) in *.
  destruct (groups_loop_spec qsort qsort_perm qsort_sorted base members members_ok head 5 st head true [] base (-1) []) as (full & s1 & line & toks & m1 & l1 & sent & f1 & E & I1 & Ep & (El & _ & Ht & Ll & Er) & N1 & C); [lia|done|done|unfold line_so_far; by rewrite app_nil_r|].
  rewrite E. cbn [obind]. rewrite Ep, length_app in Fu. cbn [app] in Er. pose proof (read_toks_length _ _ _ _ _ _ Er) as Len. rewrite length_map in Len.
  assert (forall more rest, bans = more ++ rest -> (length (head ++ part_text toks more) <= 510)%nat -> (first = false -> sent <> [] \/ more <> []) ->
    bursts first st bans (let* out := burst_loop qsort fuel members prefix modebuf parabuf false s1 rest in Ok ((head ++ part_text toks more) :: out))) as Go.
  { intros more rest Eb Lm Pr. assert (Forall ban_token more /\ Forall ban_fits rest) as [Hm Hr]. { rewrite Eb in Hb. apply Forall_app in Hb as [H1 H2]. split; [|done]. eapply Forall_impl; [exact H1|by intros ? []]. }
    destruct (IH false s1 rest) as (parts & Eo & Ra & Fl); [done|done|done|rewrite Eb, length_app in Fu; destruct first; [lia|]; destruct (Pr eq_refl); [destruct sent; [done|]|destruct more; [done|]]; cbn [length] in Fu; lia|].
    rewrite Eo. cbn [obind]. exists (part_text toks more :: parts). split; [done|]. rewrite Ep, Eb. split; [by eapply more_lines|]. cbn [with_heads]. by constructor. }
  destruct full.
  - destruct C as [C1 C2]. replace line with (head ++ part_text toks []) by (unfold part_text; by rewrite El, app_nil_r). apply Go; [done|unfold part_text; cbn [bans_text]; by rewrite app_nil_r, <- El|].
    intros Ff. left. intros ->. destruct toks; [|done]. rewrite El in C1. cbn [nicks_text] in C1. rewrite app_nil_r, Hp in C1 by done. lia.
  - pose proof (bans_loop_spec line bans []) as (more & rest & Eb & Eo & Lo & Cb); [cbn [bans_text]; by rewrite app_nil_r|]. cbn [is_nil bans_text app] in *. rewrite app_nil_r in Eo. rewrite Eo.
    assert (line ++ bans_text more = head ++ part_text toks more) as Et by (rewrite El; unfold part_text; by rewrite (assoc_L (++))). rewrite Et in *. destruct rest as [|b rest]; cbn [is_nil negb].
    + exists [part_text toks more]. split; [done|]. assert (pending qsort members s1 = []) as Pn by (unfold pending; by rewrite C). rewrite Ep, Eb, Pn. split; [|by constructor].
      eapply more_lines; [done| |exact Er|done]. rewrite Eb, app_nil_r in Hb. eapply Forall_impl; [exact Hb|by intros ? []].
    + apply Go; [done|done|]. intros Ff. destruct sent as [|x sent]; [right|by left]. intros ->. destruct toks; [|done]. specialize (Cb eq_refl). rewrite El, Hp in Cb by done. cbn [nicks_text] in Cb. rewrite app_nil_r in Cb. subst bans. apply Forall_inv in Hb as [_ Hf]. lia.
Qed.
End Whole.

(** What the C library promises of [qsort] with [compare_member_oplevel]. *)
Definition level_order (a b : bmember) : Prop := compare_member_oplevel a b <= 0.
Definition sorts (qsort : list bmember -> list bmember) : Prop := forall l, qsort l ≡ₚ l /\ StronglySorted level_order (qsort l).

Lemma level_order_le (a b : bmember) : level_order a b <-> level_le a b.
Proof. unfold level_order, level_le, compare_member_oplevel. destruct (Z.eqb_spec (bm_level a) (bm_level b)), (Z.ltb_spec (bm_level a) (bm_level b)); lia. Qed.

Lemma sorts_levels (qsort : list bmember -> list bmember) : sorts qsort -> forall l, StronglySorted level_le (qsort l).
Proof. intros H l. destruct (H l) as [_ S]. induction S as [|a l' _ IH F]; constructor; [done|]. eapply Forall_impl; [exact F|]. intros b. apply level_order_le. Qed.

(** C14.  What one server bursts of a channel is what its neighbour reads.  With names of at
    most five characters, levels up to [MAXOPLEVEL], a line head that leaves room for one
    member and bans that fit behind it, [send_channel_modes] returns: the array of operators
    is filled exactly, no message is cut at its 510 bytes, and every message makes progress.
    Split into parameters and read by [ms_burst], the messages give the neighbour every
    member once, those it does not know left out, with voice, operator status and level as
    they were, the marks not repeated and the steps between levels included, and every ban
    once and in order. *)
Theorem burst_roundtrip (qsort : list bmember -> list bmember) (known : list ascii -> bool) (mode_parse : list (list ascii) -> nat * bool) (deljoins : bool) (i : Z) (members : list bmember) (bans : list (list ascii)) (prefix modebuf parabuf : list ascii) :
  sorts qsort -> i + 2 <= MAXPARA -> Forall member_ok members -> (length prefix + 11 <= 510)%nat -> Forall (ban_fits prefix) bans ->
  exists parts order, send_channel_modes qsort false members bans prefix modebuf parabuf = Ok (with_heads prefix modebuf parabuf true parts) /\
    Forall (fun l => (length l <= 510)%nat) (with_heads prefix modebuf parabuf true parts) /\ order ≡ₚ members /\
    read_all known mode_parse deljoins i parts = Ok (List.filter (fun e => known e.1.1) (map (entry_of (burst_base deljoins)) order), bans).
Proof.
  intros Q Hi Hm Hp Hb. pose proof (fun l => proj1 (Q l)) as Qp. pose proof (pending_start qsort Qp members) as P.
  destruct (burst_loop_spec qsort Qp (sorts_levels _ Q) known mode_parse deljoins i Hi members prefix modebuf parabuf Hm Hp (S (S (length members + length bans))) true (burst_start members) bans) as (parts & E & R & L); [by apply start_ok|done|done|rewrite P; lia|].
  exists parts, (pending qsort members (burst_start members)). split; [exact E|]. by split.
Qed.

(** *** An example: two operators with levels, one of them voiced, a voiced and a plain member. *)
#[local] Instance level_order_dec : RelDecision level_order := fun a b => Z_le_dec (compare_member_oplevel a b) 0.
Definition ex_qsort : list bmember -> list bmember := merge_sort level_order.
Definition ex_members : list bmember :=
  [BMember (cstr "ABAAA") 1 5; BMember (cstr "ABAAB") 2 999; BMember (cstr "ABAAC") 0 999; BMember (cstr "ABAAD") 1 0; BMember (cstr "ABAAE") 3 5].
Definition ex_bans : list (list ascii) := [cstr "*!*@bad.example"; cstr "worse!*@*"].
Definition ex_prefix : list ascii := cstr "AB B #c 1000".

Lemma ex_sorts : sorts ex_qsort.
Proof.
  intros l. split; [apply merge_sort_Permutation|]. apply StronglySorted_merge_sort; intros a b; [intros c|]; rewrite !level_order_le; unfold level_le; lia.
Qed.

Lemma ex_burst : send_channel_modes ex_qsort false ex_members ex_bans ex_prefix (cstr "+tn") [] =
  Ok [cstr "AB B #c 1000 +tn ABAAC,ABAAB:v,ABAAD:0,ABAAA:5,ABAAE:v5 :%*!*@bad.example worse!*@*"].
Proof. vm_compute. reflexivity. Qed.

Lemma burst_roundtrip_witness : exists parts order, send_channel_modes ex_qsort false ex_members ex_bans ex_prefix (cstr "+tn") [] = Ok (with_heads ex_prefix (cstr "+tn") [] true parts) /\
    Forall (fun l => (length l <= 510)%nat) (with_heads ex_prefix (cstr "+tn") [] true parts) /\ order ≡ₚ ex_members /\
    read_all (fun _ => true) (fun _ => (1%nat, false)) false 4 parts = Ok (List.filter (fun e => true) (map (entry_of (burst_base false)) order), ex_bans).
Proof.
  apply (burst_roundtrip ex_qsort (fun _ => true) (fun _ => (1%nat, false)) false 4 ex_members ex_bans ex_prefix (cstr "+tn") []).
  - apply ex_sorts.
  - unfold MAXPARA. lia.
  - repeat constructor; cbn; unfold MAXOPLEVEL; lia.
  - cbn. lia.
  - repeat constructor; try (cbn; lia); try done; apply (bool_decide_unpack _); vm_compute; done.
Defined.
